(* ===== verification/_CoqProject ===== *)
-Q . S2P
Prelude.v
Lex.v
SharedBytes.v
Name.v
Types.v
Asset.v
BlockTimestamp.v
Merkle.v
Authority.v
BlockHeader.v
BlockHeaderState.v
Samples.v
Dpos.v
HeaderChain.v
ForkDatabase.v
ForkTree.v
UndoIndex.v
UndoRefine.v
Database.v
UnappliedQueue.v
AuthorityChecker.v
AuthorizationManager.v
SystemContract.v
TransactionTypes.v
Fees.v
CodeActions.v
PermissionState.v
CodeReferences.v
NodeLists.v
Whitelist.v
ProtocolFeatures.v
FeatureProofs.v
Effects.v
Raw.v
Store.v
Session.v
SessionProofs.v
SessionIterators.v
SessionStore.v
RocksSession.v
UndoStack.v
UndoStackFile.v
KeyValueStore.v
ContractTables.v
ContractTableProofs.v
ContractTableSpec.v
ContractTableReads.v
ChainConfig.v
Parameters.v
ParameterProofs.v
KvContext.v
KvSpec.v
KvChainbase.v
KvChainbaseProofs.v
KvRocksdb.v
KvRocksdbProofs.v
KvContracts.v
Proposals.v
ProposalProofs.v
Controller.v
Actions.v
ActionProofs.v
Transactions.v
PushTransaction.v
TransactionProofs.v
LightValidation.v
DeferredProofs.v
Validation.v
TransactionSamples.v
BlockExecution.v
PushTransactionProofs.v
Production.v
NodeProduction.v
ForkSwitch.v
PushBlock.v
Genesis.v
ChainRun.v
ControllerSamples.v
Node.v
NodeSamples.v
