(* ===== verification/Prelude.v ===== *)
(** * A verification development of the DCD protocol node

    The program is a blockchain node: a chain of blocks produced in turn by
    elected producers (delegated proof of stake), a database of accounts, permissions and
    contract data with undo, and the rules by which transactions are authorized and
    features of the protocol are switched on. This library models the parts of
    libraries/chain, libraries/chainbase and libraries/chain_kv that carry this logic and proves
    them correct.
    Paths below are relative to src/.

    ** The parts and how they interact

    A block arrives as a header and a list of transactions. The _block header state_
    checks the header against its predecessor: slot and producer, confirmations, schedules,
    rates, Merkle root of the chain, signatures. The _fork database_ keeps the header
    states of all blocks above the last irreversible one as a tree and names the best
    block as head. The _controller_ executes blocks in undo sessions of the _database_
    (a family of undo indices), so that they can be taken back when the head moves to another
    branch; at the start of a block it activates _protocol features_ and promotes _proposals_
    of schedules and rates. A _transaction_ is checked against its expiration, its reference
    block and the record of earlier transactions, pays its _fee_ and runs its _actions_:
    native ones, and the programs of contracts, which call the host for authorizations,
    notifications, inline actions, _deferred_ transactions, _tables_ and _parameters_ of the chain; it
    has its own undo session, and leaves a receipt in the block. The authorizations
    are checked by the _authorization manager_ against the tree of permissions with the
    _authority checker_; _native actions_ change accounts, permissions, links, code and fees.
    Transactions that are not in a block yet wait in the _queue_. Contracts also keep pairs of keys and
    values, through a _key-value context_ on the database or on the _key-value store_, which is a stack of
    sessions over RocksDB.

    ** Files

    - [Prelude]: exceptions and the error monad, machine-width integers, tactics, generic
      lemmas. [Effects]: the state and error monad [M] of the components that keep their
      state when they throw, its rules of reasoning ([triple], [wp]), and the monad [F] of
      computations that take a bound on their steps.
    - [Name], [Types], [BlockTimestamp]: names (name.cpp, name.hpp), digests and constants,
      slots (block_timestamp.hpp).
    - [Asset]: symbol.hpp, asset.hpp, asset.cpp; the round trip of their text.
    - [Merkle]: merkle.cpp and incremental_merkle.hpp; the incremental tree computes the
      reference root.
    - [Authority]: authority.hpp and producer_schedule.hpp; validation of authorities, block
      signing authorities, schedules.
    - [BlockHeader], [BlockHeaderState]: block_header.cpp, protocol_feature_activation.cpp
      and block_header_state.cpp, the whole transition [next] with [next_pending],
      [make_block_header], [_finish_next], [verify_signee]. [Samples] has the concrete
      instances of the interfaces, used by witnesses. [Dpos] proves what the confirmation
      counting and the irreversible block number guarantee; [HeaderChain] proves what holds
      along chains of headers (links, Merkle root, succession of schedules and rates,
      signatures, acceptance of the headers a producer builds).
    - [ForkDatabase], [ForkTree]: fork_database.cpp, its tree invariant, and
      its branches.
    - [UndoIndex], [UndoRefine], [Database]: chainbase/undo_index.hpp, its refinement of a
      stack of snapshots, and the interface through which the tables are used.
    - [UnappliedQueue]: unapplied_transaction_queue.hpp.
    - [AuthorityChecker]: authority_checker.hpp, sound for every lookup and exact for
      permissions without cycles.
    - [AuthorizationManager], [SystemContract]: authorization_manager.cpp,
      permission_object.hpp, and the handlers of dcd_contract.cpp for accounts and
      permissions. [PermissionState] proves the walk [satisfies],
      the invariant of the tables over all native actions, and what the checks decide.
    - [Fees]: transaction_fee_manager.cpp and setfee. [CodeActions], [CodeReferences]:
      setcode and setabi, with the counting of references to code. [NodeLists]: the lists of
      accepted and refused accounts of a node (controller.cpp).
    - [Whitelist], [ProtocolFeatures], [FeatureProofs]: whitelisted_intrinsics.cpp,
      protocol_feature_manager.cpp and the parts of controller.cpp that check, pre-activate
      and activate features.
    - [ContractTables]: the tables of contracts with their iterators (apply_context.cpp,
      apply_context.hpp, db_chainbase_iter_store.hpp). [ContractTableProofs] has the
      invariant, [ContractTableSpec] the refinement of a specification of the writes,
      [ContractTableReads] what the reads answer and that they touch no freed memory.
    - [Lex]: the lexicographic order and searches in ordered maps. [SharedBytes]: the keys and values
      of the key-value store (chain_kv, shared_bytes.hpp). [Store]: the interface between a session
      and its parent ([Store]), and what it promises ([StoreLaws]: an ordered map). [Session]:
      session.hpp; [SessionProofs], [SessionIterators], [SessionStore] prove that a session over a store
      with these laws has them too, and that commit hands its map to the parent, and what
      is kept as long as no erased key is written again. [RocksSession]:
      rocks_session.hpp, with RocksDB as a parameter ([RocksDB], [RocksLaws]). [UndoStack],
      [UndoStackFile]: undo_stack.hpp. [KeyValueStore]: the theorems on them together.
    - [Raw], [ChainConfig], [Parameters], [ParameterProofs]: the packing of integers and
      vectors, chain_config.cpp, and the host functions of privileged.cpp on parameters.
    - [KvContext]: the calls of contracts on their pairs and iterators (apply_context.cpp), the interface of the
      contexts ([KvContext], kv_context.hpp) and the usage that they report. [KvSpec]: the specification, a map with
      iterators, which is an instance of the interface too, simulations between instances, and the accounting of the usage. [KvChainbase],
      [KvChainbaseProofs]: kv_context_chainbase.hpp and its simulation. [KvRocksdb], [KvRocksdbProofs]:
      kv_context_rocksdb.hpp with chain_kv_payer.hpp, a client of [Store] through the sessions, and its simulation,
      with conditions. [KvContracts]: the theorems on both contexts,
      and where they differ.
    - [Proposals], [ProposalProofs]: the global properties, the stages of a pending block, the
      proposals of schedules and rates (controller.cpp, global_property_object.hpp).
    - [Controller]: start, commit, abort and application of blocks, fork switches, production,
      irreversible blocks (controller.cpp). [Actions], [ActionProofs]: apply_context.cpp,
      the execution of one action with everything it causes. [TransactionTypes]: the parts of
      transaction.cpp they need. [Transactions], [TransactionProofs], [TransactionSamples]:
      transaction_context.cpp. [DeferredProofs]: the table of deferred transactions.
    - [PushTransaction]: how the controller runs transactions of users, scheduled ones and those
      of the node, and handles their failures (controller.cpp). [LightValidation]: what succeeds
      with all checks gives the same result without them. [PushTransactionProofs]: termination,
      what scheduled transactions leave, and that the interface of the controller is implemented.
      [Validation]: what a transaction does on the node that produces it does on every other node,
      unless the producer fails for a reason of its own. [Production]: with this as an interface
      ([Validates]), the blocks that the producer and another node build are equal;
      [NodeProduction] implements it.
    - [BlockExecution], [ForkSwitch], [PushBlock]: what applying and popping blocks, a switch
      and [push_block] do to the state. [Genesis], [ChainRun]: the start of a node and
      what holds on every run from it. [Node]: the controller together with the execution of
      transactions. [ControllerSamples], [NodeSamples]: the witnesses.

    ** Conventions

    A function of the code is a definition with its name, in the error monad [result] when it
    can throw; the exception is one constructor of [exn] per class, without its message. An
    object that is mutated is passed and returned. Where the state after an exception matters
    the result has both (ForkDatabase, UndoIndex, UnappliedQueue, and the monad [M] of
    ContractTables, KvContext, Controller, Actions and Transactions); where an undo session
    discards it, the exception carries no state (AuthorizationManager). What C++ leaves undefined
    is the exception [undefined_behaviour], and where the program aborts it is [program_abort]. Integers are [Z] with
    the wrap-around of their type written out. Doubles are their bit patterns, with the
    comparisons and the binary64 arithmetic that the code uses. Logging and the accounting of
    RAM, which is commented out in the code, are left out.

    What is outside the modelled sources is a parameter: hashing and key recovery ([Crypto]),
    the packing of header extensions ([Serialization], with the round trip as the law
    [SerializationLaws]), of the data of native actions ([ActionData]) and of transactions
    ([TransactionData]), the digests of features ([FeatureDigests]) and of the genesis
    ([GenesisDigests]), the library's reading of decimal numbers ([LexicalCast], with laws), the
    hash and the validation of code ([Code]), and the programs of contracts ([Engine]: for each code,
    receiver and action a finite tree of calls of host functions, so that a contract that loops is not covered, and not
    stopped in the code either), and RocksDB ([RocksDB], with laws). The controller is a client of the interface
    [Execution], which says what running a transaction does to the state, with the laws
    [ExecutionLaws]; PushTransaction implements it ([node_execution]). The validator of
    feature activations and the lookup of authorities are function arguments, as in the code. No
    property of the hash function is assumed, except that no code hashes to zero where the
    references to code are counted. Each theorem with hypotheses has a witness, in which the
    parameters are concrete functions.

    ** Fuel

    Loops that do not recurse structurally take a number of steps: walks in the fork
    database the number of blocks in it, [satisfies_walk] the number of permissions,
    [pop_builtins] the number of builtin features, [satisfied_at] the depth limit,
    [clear_expired_loop] the length of the queue, the iterators of a session the size of its cache, the printing of numbers 20 digits and of symbols 8
    characters. Running out of steps is the exception
    [nontermination], and the theorems on these functions show that it is not reached in the
    states that the program can be in. The execution of actions ([execute_action],
    [notify_loop]) returns [None] when it runs out; [transaction_ends] shows that
    2^64 + 2^16 + 2 steps are enough for every transaction, and [pushing_ends] the same for what
    the controller does with it, because an action notifies distinct
    accounts, which are 64-bit names, and inline actions nest at most as deep as a 16-bit
    parameter allows, and that more steps do not change the result.

    ** Theorems

    The theorems that are properties of the program carry their number in the comment in front
    of them. They show: from the genesis on, the database is what executing the branch of the
    head gives, also when a switch between forks fails (ChainRun, PushBlock, Node); blocks that
    pass all checks have the same effect without them, and a block that one node produces becomes the
    head of the others (Node); a transaction ends when its contracts do
    and executes each of its actions once (TransactionProofs, PushTransactionProofs), and none is twice on a branch whose
    blocks were checked (Node); deferred transactions are filed, cancelled and retired with one
    receipt (DeferredProofs, PushTransactionProofs);
    the irreversible block is what a two thirds majority has reached and,
    with the exception of schedule changes, does not move back (Dpos); a header extends its
    predecessor and schedules and rates change only step by step (HeaderChain); the fork
    database is a tree whose head is its best valid block, also after operations that throw, unless the root was advanced off the
    branch of the head, and its operations remove exactly the
    blocks they should (ForkTree); undo restores the state at the start of a session whatever
    happened in it, if no modification was refused (UndoRefine); permissions form trees, are looked up and compared correctly,
    and the checker decides whether an authority is satisfied (AuthorityChecker,
    PermissionState); code objects count the accounts that run them
    (CodeReferences); the tables of contracts implement maps with ordered indices
    (ContractTableSpec, ContractTableReads); parameters stay valid and can be read back
    (ParameterProofs); proposals that fit the head do not get stuck (ProposalProofs); features are activated once,
    with their dependencies, and deactivated when blocks are popped (FeatureProofs); assets can be
    read back and fees are what was set (Asset, Fees); queue, whitelist and node lists
    keep and decide what they should (UnappliedQueue, Whitelist, NodeLists); the stack of sessions of the
    key-value store implements a stack of maps and can be closed and opened again, its iterators see the keys in
    order, and its comparison of keys is the lexicographic order (KeyValueStore, SharedBytes); the key-value context of
    contracts on the database implements a map with iterators, the one on the key-value store gives the same results under
    conditions that are stated, and the usage that they report adds up (KvContracts).

    Several theorems state behaviour that the code should not have: signatures of transactions
    are not checked ([check_authorization_spec]) and contracts can act in the name of any account
    ([inline_authority_ignores_sender]), a refused modification can escape undo
    ([failed_modify_defeats_undo]), a refused transaction stays in the queue
    ([refused_transaction_stays_queued], [clear_breaks_accounting]), a needed key may not be
    reported as used ([cached_permission_loses_key]), a rate that is not positive blocks all
    further rate changes ([negative_rate_blocks_rate_changes]), the guard against double
    confirmation can wrap around ([confirmed_range_wraps]), iterators of removed tables dangle
    ([end_iterator_dangles]), a failed switch can read from an empty vector
    ([failed_switch_above_head]), advancing the root off the branch of the head leaves blocks without a parent
    ([advance_orphans]), snapshots lose proposals ([snapshot_breaks_proposals]), the
    parameters of the engine cannot be read ([wasm_parameters_unreadable]), the reader of assets
    accepts texts that it should not ([asset_reader_accepts]), negative fees are charged
    ([negative_fee_is_charged]), a session of the key-value store misses its first key when all keys
    of its cache are deleted ([begin_exact]), and the iterators of contracts on a session leave their prefix
    ([search_past_prefix], [search_past_last], [write_past_end]), compare differently ([compare_prefixes]) and take keys for
    erased that are not ([set_again_erased]).

    ** Not modelled

    Of the controller, replay, the start from existing files or from a snapshot, and the queries;
    packing, compression and key recovery of transactions; the block log, snapshots other than the
    version 2 header state, the file of the fork database, the choice between the database and the key-value store, and
    the tables of contracts over the key-value store. The WebAssembly engines, cryptography, serialization by reflection,
    RocksDB, the plugins and the programs are left out: they are vendored, or input and output around
    the parts modelled here. The programs of contracts in the execution of transactions do not call [kv_*] (these calls are modelled by themselves), nor
    [preactivate_feature], the functions that only read the transaction, and those that check authorizations of other transactions.

    The theorems on runs of the controller ([node_stays_in_step], [produced_block_becomes_head], [push_block_extends_head]) assume settings:
    not the irreversible read mode, [force_all_checks] off, [terminate_at_block] zero. They assume that the irreversible number of a pushed block is not
    below that of its predecessor ([fr_lib]); the code keeps this, except at a block that promotes a pending schedule
    ([lib_monotone]), which is then not preferred over the head it extends. And they are about chains on which the rate of the fees does not
    change: the fee manager reads the rate when a block is committed and does not restore it when
    blocks are popped, so that after a switch between forks the state can depend on the order in which
    blocks arrived.

    ** This file

    The exceptions of the program, the error monad in which its fallible operations are written,
    machine-width integers as [Z] with their wrap-around, and the tactics and lemmas that the
    components share. *)

From stdpp Require Export prelude list numbers strings gmap sorting.
From Stdlib Require Export ZArith Lia Ascii.

#[global] Open Scope Z_scope.
#[global] Arguments Nat.div : simpl never.
#[global] Arguments Nat.modulo : simpl never.

(** ** Exceptions

    One constructor per exception class the modelled code throws
    (libraries/chain/include/dcd/chain/exceptions.hpp, the standard library's
    [out_of_range] and [logic_error]), and [undefined_behaviour] for the
    operations the language leaves undefined, such as an access past the end
    of a vector or a division by zero; [nontermination] is what a loop of the
    model returns when its fuel is used up. *)
Inductive exn :=
  | name_type_exception
  | overflow_exception
  | block_validate_exception
  | unlinkable_block_exception
  | wrong_producer
  | producer_double_confirm
  | producer_schedule_exception
  | invalid_block_header_extension
  | ill_formed_protocol_feature_activation
  | no_block_signatures
  | wrong_signing_key
  | fork_database_exception
  | fork_db_block_not_found
  | permission_query_exception
  | invalid_permission
  | account_query_exception
  | account_name_exists_exception
  | missing_auth_exception
  | key_blacklist_exception
  | snapshot_exception
  | database_exception
  | subjective_block_production_exception
  | protocol_feature_bad_block_exception
  | irrelevant_auth_exception
  | action_validate_exception
  | unlinkable_min_permission_action
  | transaction_exception
  | tx_not_found
  | unsatisfied_authorization
  | unactivated_key_type
  | protocol_feature_exception
  | protocol_feature_validation_exception
  | protocol_feature_iterator_exception
  | tx_resource_exhaustion
  | wasm_execution_error
  | unsupported_feature
  | config_parse_error
  | wasm_config_unknown_version
  | kv_unknown_parameters_version
  | symbol_type_exception
  | asset_type_exception
  | parse_error_exception
  | underflow_exception
  | expired_tx_exception
  | tx_exp_too_far_exception
  | tx_duplicate
  | cfa_inside_generated_tx
  | block_net_usage_exceeded
  | greylist_net_usage_exceeded
  | block_cpu_usage_exceeded
  | greylist_cpu_usage_exceeded
  | chain_exception
  | deadline_exception
  | leeway_deadline_exception
  | sig_variable_size_limit_exception
  | tx_cpu_usage_exceeded
  | unknown_transaction_exception
  | tx_too_big
  | transaction_type_exception
  | tx_prune_exception
  | pruned_context_free_data_bad_block_exception
  | deferred_tx_duplicate
  | invalid_transaction_extension
  | ill_formed_deferred_transaction_generation_context
  | tx_no_auths
  | invalid_ref_block_exception
  | disallowed_transaction_extensions_bad_block_exception
  | inline_action_too_big_nonprivileged
  | inline_action_too_big
  | unaccessible_api
  | action_return_value_exception
  | actor_whitelist_exception
  | actor_blacklist_exception
  | contract_whitelist_exception
  | contract_blacklist_exception
  | action_blacklist_exception
  | set_exact_code
  | invalid_contract_vm_type
  | invalid_contract_vm_version
  | table_not_in_cache
  | invalid_table_iterator
  | table_operation_not_permitted
  | table_access_violation
  | invalid_table_payer
  | kv_limit_exceeded
  | kv_bad_iter
  | kv_rocksdb_bad_value_size_exception
  | program_abort
  | logic_error
  | out_of_range
  | bad_variant_access
  | bad_optional_access
  | unpack_error
  | assert_exception
  | undefined_behaviour
  | nontermination.

#[global] Instance exn_eq_dec : EqDecision exn.
Proof. solve_decision. Defined.

(** ** The error monad *)
Inductive result (A : Type) :=
  | Ok (a : A)
  | Throw (e : exn).
Arguments Ok {A} a.
Arguments Throw {A} e.

#[global] Instance result_ret : MRet result := fun A a => Ok a.
#[global] Instance result_bind : MBind result := fun A B f m =>
  match m with Ok a => f a | Throw e => Throw e end.

(** [DCD_ASSERT( b, e, ... )] *)
Definition dcd_assert (b : bool) (e : exn) : result unit :=
  if b then Ok tt else Throw e.

(** [v[i]] on a vector: undefined past the end. *)
Definition vec_get {A} (l : list A) (i : nat) : result A :=
  match l !! i with Some a => Ok a | None => Throw undefined_behaviour end.

Definition is_ok {A} (r : result A) : bool :=
  match r with Ok _ => true | Throw _ => false end.

(** A loop over the elements of a container that threads a state. *)
Fixpoint foldM {A B} (f : B -> A -> result B) (b : B) (l : list A) : result B :=
  match l with
  | [] => Ok b
  | a :: l => b' ← f b a; foldM f b' l
  end.

(** ** Machine-width integers *)
Definition wrap (w x : Z) : Z := x mod 2 ^ w.
Abbreviation u8 := (wrap 8).
Abbreviation u16 := (wrap 16).
Abbreviation u32 := (wrap 32).
Abbreviation u64 := (wrap 64).

(** The value of a w-bit two's complement integer. *)
Definition swrap (w x : Z) : Z :=
  let y := x mod 2 ^ w in if y <? 2 ^ (w - 1) then y else y - 2 ^ w.
Abbreviation i32 := (swrap 32).
Abbreviation i64 := (swrap 64).

Definition fits (w x : Z) : Prop := 0 <= x < 2 ^ w.
Definition sfits (w x : Z) : Prop := - 2 ^ (w - 1) <= x < 2 ^ (w - 1).

(** ** Automation *)
Create HintDb dcd.

(** Splits a successful monadic computation into its steps. *)
Ltac bind_ok_step :=
  match goal with
  | H : mbind _ ?m = Ok _ |- _ =>
      let E := fresh "E" in
      destruct m as [?|?] eqn:E; simpl in H; [|discriminate H]
  | H : dcd_assert ?b _ = Ok ?u |- _ =>
      unfold dcd_assert in H; destruct b eqn:?; [|discriminate H]; clear H;
      try (destruct u)
  | H : Ok _ = Ok _ |- _ => injection H as H; subst
  | H : Throw _ = Ok _ |- _ => discriminate H
  end.
Ltac bind_ok := repeat bind_ok_step.

(** The same, with the pairs that the steps return. *)
Ltac bind_ok_pairs :=
  repeat (bind_ok_step ||
    match goal with
    | H : (let (_, _) := ?x in _) = Ok _ |- _ => destruct x as [? ?]; simpl in H
    | H : Ok _ = Ok _ |- _ => injection H as H
    end); simplify_eq/=.

(** Reflects the boolean tests of the code into propositions. *)
Ltac breflect :=
  repeat match goal with
  | H : andb _ _ = true |- _ => apply andb_true_iff in H; destruct H
  | H : orb _ _ = false |- _ => apply orb_false_iff in H; destruct H
  | H : negb _ = true |- _ => apply negb_true_iff in H
  | H : negb _ = false |- _ => apply negb_false_iff in H
  | H : bool_decide _ = true |- _ => apply bool_decide_eq_true in H
  | H : bool_decide _ = false |- _ => apply bool_decide_eq_false in H
  | H : Z.eqb _ _ = true |- _ => apply Z.eqb_eq in H
  | H : Z.eqb _ _ = false |- _ => apply Z.eqb_neq in H
  | H : Z.leb _ _ = true |- _ => apply Z.leb_le in H
  | H : Z.leb _ _ = false |- _ => apply Z.leb_gt in H
  | H : Z.ltb _ _ = true |- _ => apply Z.ltb_lt in H
  | H : Z.ltb _ _ = false |- _ => apply Z.ltb_ge in H
  end.

(** [lia] on goals with divisions and remainders by constants. *)
Ltac dlia := Z.to_euclidean_division_equations; lia.

(** ** Generic lemmas *)
Lemma bind_ok_inv {A B} (m : result A) (f : A -> result B) (b : B) :
  m ≫= f = Ok b -> exists a, m = Ok a /\ f a = Ok b.
Proof. destruct m; [eauto | discriminate]. Qed.

Lemma dcd_assert_ok (b : bool) (e : exn) (u : unit) :
  dcd_assert b e = Ok u <-> b = true.
Proof. destruct b, u; simpl; split; congruence. Qed.

Lemma vec_get_ok {A} (l : list A) (i : nat) (a : A) :
  vec_get l i = Ok a <-> l !! i = Some a.
Proof. unfold vec_get. destruct (l !! i); split; congruence. Qed.

Lemma foldM_app {A B} (f : B -> A -> result B) (b : B) (l k : list A) :
  foldM f b (l ++ k) = foldM f b l ≫= fun b' => foldM f b' k.
Proof.
  revert b. induction l as [|a l IH]; intros b; [done|]. simpl.
  destruct (f b a); simpl; [apply IH | done].
Qed.

(** A loop whose steps succeed independently of the state. *)
Lemma foldM_ok_iff {A B} (f : B -> A -> result B) (Q : A -> Prop) (b : B) (l : list A) :
  (forall b a, a ∈ l -> is_ok (f b a) = true <-> Q a) -> is_ok (foldM f b l) = true <-> Forall Q l.
Proof.
  revert b. induction l as [|a l IH]; intros b H; simpl; [split; [constructor|done]|].
  rewrite Forall_cons, <- (H b a) by left.
  destruct (f b a) as [b'|e]; simpl; [rewrite (IH b'); [naive_solver|]|naive_solver].
  intros b0 a0 Ha. apply H. by right.
Qed.

Lemma forallb_eq {A} (f g : A -> bool) (l : list A) :
  (forall x, f x = g x) -> forallb f l = forallb g l.
Proof. intros H. induction l; simpl; [done|]. by rewrite H, IHl. Qed.

Lemma rev_replicate {A} (k : nat) (x : A) : rev (replicate k x) = replicate k x.
Proof.
  induction k; simpl; [done|]. rewrite IHk. symmetry. apply replicate_cons_app.
Qed.

Lemma filter_Forall_id {A} (P : A -> Prop) `{forall x, Decision (P x)} (l : list A) :
  Forall P l -> filter P l = l.
Proof. induction 1 as [|x l Hx _ IH]; [done|]. by rewrite filter_cons_True, IH. Qed.

Lemma filter_Forall_none {A} (P : A -> Prop) `{forall x, Decision (P x)} (l : list A) :
  Forall (fun x => ~ P x) l -> filter P l = [].
Proof. induction 1 as [|x l Hx _ IH]; [done|]. by rewrite filter_cons_False. Qed.

Lemma wrap_fits (w x : Z) : 0 <= w -> fits w (wrap w x).
Proof. intros Hw. apply Z.mod_pos_bound. lia. Qed.

Lemma wrap_small (w x : Z) : fits w x -> wrap w x = x.
Proof. apply Z.mod_small. Qed.

Lemma wrap_idem (w x : Z) : wrap w (wrap w x) = wrap w x.
Proof. apply Zmod_mod. Qed.

Lemma swrap_small (w x : Z) : 0 < w -> sfits w x -> swrap w x = x.
Proof.
  intros Hw [Hl Hu]. unfold swrap.
  assert (H2 : 2 ^ w = 2 * 2 ^ (w - 1)) by (rewrite <- Z.pow_succ_r by lia; f_equal; lia).
  destruct (Z.ltb_spec x 0).
  - replace (x mod 2 ^ w) with (x + 2 ^ w).
    + destruct (Z.ltb_spec (x + 2 ^ w) (2 ^ (w - 1))); lia.
    + apply Z.mod_unique with (-1); lia.
  - rewrite Z.mod_small by lia. destruct (Z.ltb_spec x (2 ^ (w - 1))); lia.
Qed.

Lemma swrap_fits (w x : Z) : 0 < w -> sfits w (swrap w x).
Proof.
  intros Hw. unfold swrap, sfits.
  assert (H2 : 2 ^ w = 2 * 2 ^ (w - 1)) by (rewrite <- Z.pow_succ_r by lia; f_equal; lia).
  pose proof (Z.mod_pos_bound x (2 ^ w)).
  destruct (Z.ltb_spec (x mod 2 ^ w) (2 ^ (w - 1))); lia.
Qed.

(** Disjoint bits: an [or] that is a sum. *)
Lemma lor_add_shiftl (n s k : Z) :
  0 <= k -> 0 <= n < 2 ^ k -> Z.lor n (Z.shiftl s k) = n + s * 2 ^ k.
Proof.
  intros Hk Hn. rewrite <- Z.shiftl_mul_pow2 by done.
  symmetry. rewrite <- Z.lxor_lor, <- Z.add_nocarry_lxor; try done;
    apply Z.bits_inj'; intros i Hi; rewrite Z.land_spec, Z.bits_0;
    destruct (Z.ltb_spec i k);
    [rewrite (Z.shiftl_spec_low _ _ i) by lia; apply andb_false_r | |
     rewrite (Z.shiftl_spec_low _ _ i) by lia; apply andb_false_r |].
  all: destruct (Z.eq_dec n 0) as [->|Hn0]; [by rewrite Z.bits_0|].
  all: rewrite (Z.bits_above_log2 n i); [done|lia|].
  all: apply Z.lt_le_trans with k; [apply Z.log2_lt_pow2|]; lia.
Qed.

#[export] Hint Resolve wrap_fits swrap_fits : dcd.
