(* ===== verification/Lex.v ===== *)
(** * The lexicographic order

    Sequences of numbers in lexicographic order: the order of the indices of the database, and of the keys of the key-value
    store. A search in an ordered container finds the nearest element in one direction among those that are
    selected ([nearest_up], [nearest_down]). *)

From S2P Require Import Prelude.
From Stdlib Require Import Structures.Equalities Structures.Orders Structures.OrdersTac.

Fixpoint lex (a b : list Z) : comparison :=
  match a, b with
  | [], [] => Eq
  | [], _ :: _ => Lt
  | _ :: _, [] => Gt
  | x :: a, y :: b => match x ?= y with Eq => lex a b | c => c end
  end.

Lemma lex_refl (a : list Z) : lex a a = Eq.
Proof. induction a as [|x a IH]; simpl; [done|]. by rewrite Z.compare_refl. Qed.

Lemma lex_eq (a b : list Z) : lex a b = Eq -> a = b.
Proof.
  revert b. induction a as [|x a IH]; intros [|y b]; simpl; try done.
  destruct (Z.compare_spec x y) as [->| |]; [|done..]. intros E%IH. by subst.
Qed.

Lemma lex_antisym (a b : list Z) : lex b a = CompOpp (lex a b).
Proof.
  revert b. induction a as [|x a IH]; intros [|y b]; simpl; try done.
  rewrite (Z.compare_antisym x y). destruct (x ?= y); simpl; [apply IH|done|done].
Qed.

Lemma lex_gt (a b : list Z) : lex a b = Gt <-> lex b a = Lt.
Proof. rewrite (lex_antisym a b). by destruct (lex a b). Qed.

Lemma lex_trans (a b c : list Z) : lex a b = Lt -> lex b c = Lt -> lex a c = Lt.
Proof.
  revert b c. induction a as [|x a IH]; intros [|y b] [|z c]; simpl; try done.
  destruct (Z.compare_spec x y) as [->|Hxy|]; [..|done]; destruct (Z.compare_spec y z) as [->|Hyz|]; try done; intros H1 H2.
  - by eapply IH.
  - by rewrite (proj2 (Z.compare_lt_iff x z)).
  - by rewrite (proj2 (Z.compare_lt_iff x z)) by lia.
Qed.

Lemma lex_not_gt (a b c : list Z) : lex a b <> Gt -> lex b c <> Gt -> lex a c <> Gt.
Proof.
  intros H1 H2 H3. destruct (lex a b) eqn:E1; [apply lex_eq in E1; by subst| |done].
  destruct (lex b c) eqn:E2; [apply lex_eq in E2; subst; congruence| |done].
  by rewrite (lex_trans _ _ _ E1 E2) in H3.
Qed.

(** ** The order tactic *)
Module KeyOrder <: EqLtLe.
Definition t := list Z.
Definition eq (a b : t) : Prop := a = b.
Definition lt (a b : list Z) : Prop := lex a b = Lt.
Definition le (a b : list Z) : Prop := lex a b <> Gt.

Instance eq_equiv : Equivalence eq.
Proof. unfold eq. split; congruence. Qed.
Instance lt_strorder : StrictOrder lt.
Proof. split; [intros a H; unfold lt in H; by rewrite lex_refl in H|exact lex_trans]. Qed.
Instance lt_compat : Proper (eq ==> eq ==> iff) lt.
Proof. unfold eq. intros ? ? -> ? ? ->. done. Qed.
Lemma le_lteq (a b : t) : le a b <-> lt a b \/ eq a b.
Proof.
  unfold le, lt, eq. destruct (lex a b) eqn:E; [apply lex_eq in E; subst| |].
  - split; [by right|done].
  - split; [by left|done].
  - split; [done|]. intros [H|H]; [done|]. rewrite H, lex_refl in E. done.
Qed.
Lemma lt_total (a b : t) : lt a b \/ eq a b \/ lt b a.
Proof. unfold lt, eq. destruct (lex a b) eqn:E; [right; left; by apply lex_eq|by left|right; right; by apply lex_gt]. Qed.
End KeyOrder.

Module KeyTac := !MakeOrderTac KeyOrder KeyOrder.

Notation "a <ₖ b" := (KeyOrder.lt a b) (at level 70).
Notation "a ≤ₖ b" := (KeyOrder.le a b) (at level 70).

(** Proves what follows from the order of the keys in the context. *)
Ltac key_order := change (@Logic.eq (list Z)) with KeyOrder.eq in *; KeyTac.order.

#[global] Instance key_lt_dec (a b : list Z) : Decision (a <ₖ b).
Proof. unfold KeyOrder.lt. apply _. Defined.
#[global] Instance key_le_dec (a b : list Z) : Decision (a ≤ₖ b).
Proof. unfold KeyOrder.le. apply _. Defined.

Lemma key_le_lt (a b : list Z) : a ≤ₖ b <-> ~ b <ₖ a.
Proof. split; intros H; [intros H'|]; key_order. Qed.

Lemma key_lt_le (a b : list Z) : a <ₖ b <-> ~ b ≤ₖ a.
Proof. rewrite key_le_lt. destruct (decide (a <ₖ b)); tauto. Qed.
Lemma key_cases (a b : list Z) : a <ₖ b \/ a = b \/ b <ₖ a.
Proof. apply KeyOrder.lt_total. Qed.

(** ** Searches *)
Abbreviation key := (list Z) (only parsing).

Definition nearest_up (P : key -> Prop) (r : option key) : Prop :=
  match r with Some k => P k /\ forall k', P k' -> k ≤ₖ k' | None => forall k, ~ P k end.
Definition nearest_down (P : key -> Prop) (r : option key) : Prop :=
  match r with Some k => P k /\ forall k', P k' -> k' ≤ₖ k | None => forall k, ~ P k end.

Lemma nearest_up_unique (P Q : key -> Prop) (r r' : option key) :
  (forall k, P k <-> Q k) -> nearest_up P r -> nearest_up Q r' -> r' = r.
Proof.
  intros Heq Hr Hr'. destruct r as [k|], r' as [k'|]; simpl in *; [|naive_solver..]. destruct Hr as [P1 P2], Hr' as [Q1 Q2].
  f_equal. apply Heq in P1. specialize (Q2 _ P1). apply Heq in Q1. specialize (P2 _ Q1). key_order.
Qed.
Lemma nearest_down_unique (P Q : key -> Prop) (r r' : option key) :
  (forall k, P k <-> Q k) -> nearest_down P r -> nearest_down Q r' -> r' = r.
Proof.
  intros Heq Hr Hr'. destruct r as [k|], r' as [k'|]; simpl in *; [|naive_solver..]. destruct Hr as [P1 P2], Hr' as [Q1 Q2].
  f_equal. apply Heq in P1. specialize (Q2 _ P1). apply Heq in Q1. specialize (P2 _ Q1). key_order.
Qed.

Fixpoint least (l : list key) : option key :=
  match l with
  | [] => None
  | k :: l => match least l with
              | None => Some k
              | Some k' => Some (if decide (k' <ₖ k) then k' else k)
              end
  end.
Fixpoint greatest (l : list key) : option key :=
  match l with
  | [] => None
  | k :: l => match greatest l with
              | None => Some k
              | Some k' => Some (if decide (k <ₖ k') then k' else k)
              end
  end.

Lemma least_spec (l : list key) : nearest_up (fun k => k ∈ l) (least l).
Proof.
  induction l as [|k l IH]; simpl; [by intros k ?%elem_of_nil|]. destruct (least l) as [k'|]; simpl in *.
  - destruct IH as [H1 H2]. destruct (decide _); split; try set_solver.
    + intros x [->|Hx]%elem_of_cons; [key_order|by apply H2].
    + intros x [->|Hx]%elem_of_cons; [key_order|]. specialize (H2 _ Hx). key_order.
  - split; [set_solver|]. intros x [->|Hx]%elem_of_cons; [key_order|]. by apply IH in Hx.
Qed.
Lemma greatest_spec (l : list key) : nearest_down (fun k => k ∈ l) (greatest l).
Proof.
  induction l as [|k l IH]; simpl; [by intros k ?%elem_of_nil|]. destruct (greatest l) as [k'|]; simpl in *.
  - destruct IH as [H1 H2]. destruct (decide _); split; try set_solver.
    + intros x [->|Hx]%elem_of_cons; [key_order|by apply H2].
    + intros x [->|Hx]%elem_of_cons; [key_order|]. specialize (H2 _ Hx). key_order.
  - split; [set_solver|]. intros x [->|Hx]%elem_of_cons; [key_order|]. by apply IH in Hx.
Qed.

(** Searches in an ordered map *)
Section ordered.
Context {A : Type}.
Implicit Types m : gmap key A.

Definition map_keys m : list key := map fst (map_to_list m).
Definition key_first m : option key := least (map_keys m).
Definition key_last m : option key := greatest (map_keys m).
Definition key_from m (k : key) : option key := least (filter (fun x => k ≤ₖ x) (map_keys m)).
Definition key_after m (k : key) : option key := least (filter (fun x => k <ₖ x) (map_keys m)).
Definition key_before m (k : key) : option key := greatest (filter (fun x => x <ₖ k) (map_keys m)).

Lemma elem_of_map_keys m (k : key) : k ∈ map_keys m <-> is_Some (m !! k).
Proof.
  unfold map_keys. rewrite list_elem_of_fmap. split.
  - intros ([k' x] & -> & Hx). apply elem_of_map_to_list in Hx. by eexists.
  - intros [x Hx]. exists (k, x). split; [done|]. by apply elem_of_map_to_list.
Qed.

Lemma nearest_up_iff (P Q : key -> Prop) (r : option key) : (forall k, P k <-> Q k) -> nearest_up P r -> nearest_up Q r.
Proof. intros Heq. destruct r; simpl; naive_solver. Qed.
Lemma nearest_down_iff (P Q : key -> Prop) (r : option key) : (forall k, P k <-> Q k) -> nearest_down P r -> nearest_down Q r.
Proof. intros Heq. destruct r; simpl; naive_solver. Qed.

Lemma key_first_spec m : nearest_up (fun x => is_Some (m !! x)) (key_first m).
Proof. eapply nearest_up_iff; [|apply least_spec]. intros k. apply elem_of_map_keys. Qed.
Lemma key_last_spec m : nearest_down (fun x => is_Some (m !! x)) (key_last m).
Proof. eapply nearest_down_iff; [|apply greatest_spec]. intros k. apply elem_of_map_keys. Qed.
Lemma key_from_spec m (k : key) : nearest_up (fun x => is_Some (m !! x) /\ k ≤ₖ x) (key_from m k).
Proof. eapply nearest_up_iff; [|apply least_spec]. intros x. rewrite list_elem_of_filter, elem_of_map_keys. tauto. Qed.
Lemma key_after_spec m (k : key) : nearest_up (fun x => is_Some (m !! x) /\ k <ₖ x) (key_after m k).
Proof. eapply nearest_up_iff; [|apply least_spec]. intros x. rewrite list_elem_of_filter, elem_of_map_keys. tauto. Qed.
Lemma key_before_spec m (k : key) : nearest_down (fun x => is_Some (m !! x) /\ x <ₖ k) (key_before m k).
Proof. eapply nearest_down_iff; [|apply greatest_spec]. intros x. rewrite list_elem_of_filter, elem_of_map_keys. tauto. Qed.
End ordered.
