(* ===== verification/SharedBytes.v ===== *)
(** * Keys and values of the key-value store

    [shared_bytes] (libraries/chain_kv/include/b1/session/shared_bytes.hpp): sequences of bytes in buffers that are padded with
    zeros to a multiple of eight bytes, so that they can be compared eight bytes at a time. What is shown: the comparison is
    the lexicographic order of the bytes, and [next] bounds the keys that have a prefix.

    A value is the list of its bytes; that two of them can share a buffer is left out. A load of eight bytes is
    that of a little-endian machine. *)

From S2P Require Import Prelude Lex.

Definition byte_ok (b : Z) : Prop := 0 <= b < 256.
Abbreviation bytes := (list Z) (only parsing).

(** [details::aligned_size] *)
Definition aligned_size (size : Z) : Z := Z.land (u64 (size + 7)) (u64 (Z.lnot 7)).

(** The buffer: the bytes, and zeros up to the aligned size. *)
Definition buffer (b : bytes) : list Z :=
  b ++ replicate (Z.to_nat (aligned_size (Z.of_nat (length b))) - length b) 0.

(** [std::memcpy] of eight bytes into an integer *)
Fixpoint load_le (l : list Z) : Z :=
  match l with [] => 0 | b :: l => b + 256 * load_le l end.
Definition load (buf : list Z) (offset : nat) : Z := load_le (take 8 (drop offset buf)).

(** [BOOST_ENDIAN_INTRINSIC_BYTE_SWAP_8] *)
Definition byte_swap_8 (x : Z) : Z :=
  load_le (rev (map (fun i => Z.land (Z.shiftr x (8 * Z.of_nat i)) 0xFF) (seq 0 8))).

(** The loop of [aligned_compare] *)
Fixpoint compare_words (left right : list Z) (i iterations : nat) (otherwise : Z) : Z :=
  match iterations with
  | O => otherwise
  | S iterations =>
      let offset := (i * 8)%nat in
      let left_value := byte_swap_8 (load left offset) in
      let right_value := byte_swap_8 (load right offset) in
      if left_value =? right_value then compare_words left right (S i) iterations otherwise
      else if left_value <? right_value then -1 else 1
  end.

(** [details::aligned_compare] *)
Definition aligned_compare (left : list Z) (left_size : Z) (right : list Z) (right_size : Z) : Z :=
  compare_words left right 0 (Z.to_nat (Z.min (aligned_size left_size) (aligned_size right_size) / 8)) (left_size - right_size).

Definition size (b : bytes) : Z := Z.of_nat (length b).

(** The operators *)
Definition sb_compare (a b : bytes) : Z := aligned_compare (buffer a) (size a) (buffer b) (size b).
Definition sb_eq (a b : bytes) : bool := if negb (size a =? size b) then false else sb_compare a b =? 0.
Definition sb_lt (a b : bytes) : bool := sb_compare a b <? 0.
Definition sb_gt (a b : bytes) : bool := 0 <? sb_compare a b.
(** [operator bool] *)
Definition sb_bool (a : bytes) : bool := negb (sb_eq a []).

(** [shared_bytes::next]: the loop over the bytes, from the last one on *)
Fixpoint next_rev (buf : list Z) : list Z :=
  match buf with
  | [] => []
  | b :: buf => let b := u8 (b + 1) in if negb (b =? 0) then b :: buf else next_rev buf
  end.
Definition next (b : bytes) : result bytes :=
  let buf := rev (next_rev (rev b)) in
  _ ← dcd_assert (negb (length buf =? 0)%nat) chain_exception;
  Ok buf.

(** [shared_bytes::truncate_key] *)
Definition truncate_key (k : bytes) : result bytes :=
  _ ← dcd_assert (negb (length k =? 0)%nat) chain_exception;
  Ok (take (length k - 1) k).

(** ** The comparison *)
Lemma testbit_7 (i : Z) : 0 <= i -> Z.testbit 7 i = (i <? 3).
Proof.
  intros Hi. destruct (Z.ltb_spec i 3).
  - assert (i = 0 \/ i = 1 \/ i = 2) as [->|[->| ->]] by lia; done.
  - apply Z.bits_above_log2; [lia|]. simpl. lia.
Qed.

Lemma aligned_size_eq (n : Z) : 0 <= n < 2 ^ 63 -> aligned_size n = (n + 7) / 8 * 8.
Proof.
  intros Hn. unfold aligned_size. rewrite (wrap_small 64 (n + 7)) by (unfold fits; lia).
  replace ((n + 7) / 8 * 8) with (Z.shiftl (Z.shiftr (n + 7) 3) 3) by (rewrite Z.shiftl_mul_pow2, Z.shiftr_div_pow2 by lia; done).
  unfold wrap. apply Z.bits_inj'. intros i Hi. rewrite Z.land_spec, Z.shiftl_spec by done.
  rewrite <- Z.land_ones by lia. rewrite Z.land_spec, Z.lnot_spec, testbit_7 by done.
  destruct (Z.ltb_spec i 3); [rewrite andb_false_r; symmetry; apply Z.testbit_neg_r; lia|].
  rewrite Z.shiftr_spec by lia. replace (i - 3 + 3) with i by lia. simpl. destruct (Z.ltb_spec i 64) as [Hlt|Hge].
  - rewrite Z.ones_spec_low by lia. by rewrite andb_true_r.
  - rewrite (Z.bits_above_log2 (n + 7)); [done|lia|]. apply Z.log2_lt_pow2; [lia|]. apply Z.lt_le_trans with (2 ^ 64); [lia|]. apply Z.pow_le_mono_r; lia.
Qed.

(** A load with the bytes swapped reads the bytes as the digits of a number, the first one as the most significant. *)
Fixpoint load_be (l : list Z) : Z :=
  match l with [] => 0 | b :: l => b * 256 ^ Z.of_nat (length l) + load_be l end.

Lemma load_le_bound (l : list Z) : Forall byte_ok l -> 0 <= load_le l < 256 ^ Z.of_nat (length l).
Proof.
  induction 1 as [|b l Hb _ IH]; simpl; [lia|]. rewrite Nat2Z.inj_succ, Z.pow_succ_r by lia. unfold byte_ok in Hb. lia.
Qed.

Lemma load_le_byte (l : list Z) (i : nat) : Forall byte_ok l ->
  Z.land (Z.shiftr (load_le l) (8 * Z.of_nat i)) 0xFF = nth i l 0.
Proof.
  intros Hl. change 0xFF with (Z.ones 8). rewrite Z.land_ones by lia. rewrite Z.shiftr_div_pow2 by lia.
  revert i. induction Hl as [|b l Hb Hl IH]; intros i.
  - cbn [load_le]. rewrite Z.div_0_l by (apply Z.pow_nonzero; lia). by destruct i.
  - cbn [load_le nth]. unfold byte_ok in Hb. destruct i as [|i].
    + change (2 ^ (8 * Z.of_nat 0)) with 1. rewrite Z.div_1_r. change (2 ^ 8) with 256.
      rewrite (Z.mul_comm 256), Z_mod_plus_full. by apply Z.mod_small.
    + rewrite <- IH. f_equal. rewrite Nat2Z.inj_succ. replace (8 * Z.succ (Z.of_nat i)) with (8 + 8 * Z.of_nat i) by lia.
      rewrite Z.pow_add_r, <- Z.div_div by (try apply Z.pow_nonzero; lia). f_equal. change (2 ^ 8) with 256.
      rewrite (Z.mul_comm 256), Z.div_add by lia. rewrite Z.div_small by lia. lia.
Qed.

Lemma load_le_rev (l : list Z) : load_le (rev l) = load_be l.
Proof.
  assert (Happ : forall a b, load_le (a ++ b) = load_le a + 256 ^ Z.of_nat (length a) * load_le b).
  { induction a as [|x a IH]; intros b; [simpl; lia|]. cbn [app load_le length]. rewrite IH, Nat2Z.inj_succ, Z.pow_succ_r by lia. ring. }
  induction l as [|b l IH]; [done|]. cbn [rev load_be]. rewrite Happ, IH, length_rev. cbn [load_le]. ring.
Qed.

Lemma byte_swap_load (l : list Z) : Forall byte_ok l -> length l = 8%nat -> byte_swap_8 (load_le l) = load_be l.
Proof.
  intros Hl Hn. unfold byte_swap_8. rewrite <- load_le_rev. f_equal. f_equal.
  rewrite (map_ext _ (fun i => nth i l 0)) by (intros i; by apply load_le_byte).
  do 8 (destruct l as [|? l]; [done|]). by destruct l.
Qed.

Lemma load_be_bound (l : list Z) : Forall byte_ok l -> 0 <= load_be l < 256 ^ Z.of_nat (length l).
Proof. rewrite <- load_le_rev, <- (length_rev l). intros Hl. apply load_le_bound. by apply Forall_rev. Qed.

Lemma load_be_compare (a b : list Z) : Forall byte_ok a -> Forall byte_ok b -> length a = length b -> (load_be a ?= load_be b) = lex a b.
Proof.
  intros Ha. revert b. induction Ha as [|x a Hx Ha IH]; intros [|y b] Hb Hl; try done. inversion Hb as [|? ? Hy Hb']; subst.
  simpl in Hl. injection Hl as Hl. cbn [load_be lex]. specialize (IH b Hb' Hl). pose proof (load_be_bound a Ha) as B1.
  pose proof (load_be_bound b Hb') as B2. rewrite <- Hl in *. set (p := 256 ^ Z.of_nat (length a)) in *. unfold byte_ok in *.
  destruct (Z.compare_spec x y) as [->|Hlt|Hgt].
  - rewrite <- IH. destruct (Z.compare_spec (load_be a) (load_be b)); [apply Z.compare_eq_iff; lia|apply Z.compare_lt_iff; lia|apply Z.compare_gt_iff; lia].
  - apply Z.compare_lt_iff. nia.
  - apply Z.compare_gt_iff. nia.
Qed.

Lemma lex_app (a b c d : list Z) : length a = length b -> lex (a ++ c) (b ++ d) = match lex a b with Eq => lex c d | x => x end.
Proof.
  revert b. induction a as [|x a IH]; intros [|y b] Hl; try done. simpl in *. injection Hl as Hl. rewrite IH by done. by destruct (x ?= y).
Qed.

Lemma compare_words_spec (left right : list Z) (i n : nat) (otherwise : Z) :
  Forall byte_ok left -> Forall byte_ok right -> ((i + n) * 8 <= length left)%nat -> ((i + n) * 8 <= length right)%nat ->
  compare_words left right i n otherwise =
  match lex (take (n * 8) (drop (i * 8) left)) (take (n * 8) (drop (i * 8) right)) with Eq => otherwise | Lt => -1 | Gt => 1 end.
Proof.
  intros Hl Hr. revert i. induction n as [|n IH]; intros i H1 H2; [done|]. cbn [compare_words].
  assert (Hsplit : forall b : list Z, ((i + S n) * 8 <= length b)%nat ->
    take (S n * 8) (drop (i * 8) b) = take 8 (drop (i * 8) b) ++ take (n * 8) (drop (S i * 8) b)).
  { intros b Hb. replace (S n * 8)%nat with (8 + n * 8)%nat by lia. rewrite <- take_take_drop, drop_drop. by replace (i * 8 + 8)%nat with (S i * 8)%nat by lia. }
  rewrite !Hsplit by lia. rewrite lex_app by (rewrite !length_take, !length_drop; lia). unfold load.
  assert (Hw : forall b, Forall byte_ok b -> ((i + S n) * 8 <= length b)%nat ->
    byte_swap_8 (load_le (take 8 (drop (i * 8) b))) = load_be (take 8 (drop (i * 8) b))).
  { intros b Hb Hn. apply byte_swap_load; [by apply Forall_take, Forall_drop|]. rewrite length_take, length_drop. lia. }
  rewrite !Hw by done. rewrite <- load_be_compare by (try (by apply Forall_take, Forall_drop); rewrite !length_take, !length_drop; lia).
  destruct (Z.compare_spec (load_be (take 8 (drop (i * 8) left))) (load_be (take 8 (drop (i * 8) right)))) as [->|Hlt|Hgt].
  - rewrite Z.eqb_refl. apply IH; lia.
  - rewrite (proj2 (Z.eqb_neq _ _)), (proj2 (Z.ltb_lt _ _)) by lia. done.
  - rewrite (proj2 (Z.eqb_neq _ _)), (proj2 (Z.ltb_ge _ _)) by lia. done.
Qed.

Lemma lex_padded (n k k' : nat) (a b : list Z) :
  Forall byte_ok a -> Forall byte_ok b -> (n <= length a + k)%nat -> (n <= length b + k')%nat ->
  match lex (take n (a ++ replicate k 0)) (take n (b ++ replicate k' 0)) with Eq => True | c => lex a b = c end.
Proof.
  intros Ha. revert n k k' b. induction Ha as [|x a Hx Ha IH]; intros n k k' b Hb Hn Hn'.
  - revert n k Hn Hn'. induction Hb as [|y b Hy Hb IHb]; intros n k Hn Hn'.
    + simpl in *. assert (E : take n (replicate k 0) = take n (replicate k' 0)).
      { rewrite !take_replicate. by rewrite !Nat.min_l by lia. }
      by rewrite E, lex_refl.
    + destruct n as [|n]; [done|]. destruct k as [|k]; [simpl in Hn; lia|]. cbn [replicate app take lex]. unfold byte_ok in Hy.
      destruct (Z.compare_spec 0 y) as [E|Hlt|Hgt]; [|done|lia]. specialize (IHb n k). simpl in Hn, Hn'.
      specialize (IHb ltac:(lia) ltac:(lia)). cbn [app] in IHb. destruct (lex _ _); [done|done|]. by destruct b.
  - destruct n as [|n]; [done|]. destruct b as [|y b].
    + destruct k' as [|k']; [simpl in Hn'; lia|]. cbn [replicate app take lex]. unfold byte_ok in Hx.
      destruct (Z.compare_spec x 0) as [E|Hlt|Hgt]; [|lia|done]. specialize (IH n k k' []). simpl in Hn, Hn'.
      specialize (IH ltac:(constructor) ltac:(lia) ltac:(simpl; lia)). cbn [app] in IH. destruct (lex _ _); [done| |done]. by destruct a.
    + cbn [app take lex]. inversion Hb; subst. simpl in Hn, Hn'. destruct (x ?= y); [|done|done]. apply IH; [done|lia|lia].
Qed.

Lemma lex_prefix (a b : list Z) : a = take (length a) b -> (length a <= length b)%nat -> lex a b = (Z.of_nat (length a) ?= Z.of_nat (length b)).
Proof.
  revert b. induction a as [|x a IH]; intros b E Hl.
  - by destruct b.
  - destruct b as [|y b]; [simpl in Hl; lia|]. simpl in E. injection E as <- E. cbn [lex length]. rewrite Z.compare_refl.
    rewrite (IH b E) by (simpl in Hl; lia). destruct (Z.compare_spec (Z.of_nat (length a)) (Z.of_nat (length b))); symmetry;
      [apply Z.compare_eq_iff|apply Z.compare_lt_iff|apply Z.compare_gt_iff]; lia.
Qed.

Definition sizeable (b : bytes) : Prop := Forall byte_ok b /\ Z.of_nat (length b) < 2 ^ 63.

Lemma buffer_length (b : bytes) : sizeable b -> Z.of_nat (length (buffer b)) = (Z.of_nat (length b) + 7) / 8 * 8.
Proof. intros [_ Hs]. unfold buffer. rewrite length_app, length_replicate, aligned_size_eq by lia. Z.to_euclidean_division_equations. lia. Qed.
Lemma buffer_bytes (b : bytes) : sizeable b -> Forall byte_ok (buffer b).
Proof. intros [Hb _]. apply Forall_app. split; [done|]. apply Forall_replicate. unfold byte_ok. lia. Qed.

(** The comparison of buffers, eight bytes at a time, orders the bytes lexicographically. *)
Lemma sb_compare_lex (a b : bytes) : sizeable a -> sizeable b -> (sb_compare a b ?= 0) = lex a b.
Proof.
  intros Ha Hb. pose proof (buffer_length a Ha) as La. pose proof (buffer_length b Hb) as Lb. unfold sb_compare, aligned_compare, size.
  pose proof Ha as [Ba Sa]. pose proof Hb as [Bb Sb]. rewrite !aligned_size_eq by lia.
  set (wa := (Z.of_nat (length a) + 7) / 8) in *. set (wb := (Z.of_nat (length b) + 7) / 8) in *.
  assert (Hwa : wa * 8 - 8 < Z.of_nat (length a) <= wa * 8) by (subst wa; Z.to_euclidean_division_equations; lia).
  assert (Hwb : wb * 8 - 8 < Z.of_nat (length b) <= wb * 8) by (subst wb; Z.to_euclidean_division_equations; lia).
  assert (Hmin : Z.min (wa * 8) (wb * 8) / 8 = Z.min wa wb).
  { destruct (Z.min_spec wa wb) as [[? ->]|[? ->]]; [rewrite Z.min_l by lia|rewrite Z.min_r by lia]; by rewrite Z.div_mul by lia. }
  rewrite Hmin. set (n := Z.to_nat (Z.min wa wb)).
  rewrite compare_words_spec by (try apply buffer_bytes; try done; lia). rewrite !drop_0.
  pose proof (lex_padded (n * 8) (Z.to_nat (aligned_size (Z.of_nat (length a))) - length a) (Z.to_nat (aligned_size (Z.of_nat (length b))) - length b)
    a b Ba Bb) as Hp. fold (buffer a) (buffer b) in Hp. rewrite !aligned_size_eq in Hp by lia. fold wa wb in Hp.
  specialize (Hp ltac:(lia) ltac:(lia)). destruct (lex (take _ (buffer a)) (take _ (buffer b))) eqn:E; [|by rewrite Hp..].
  apply lex_eq in E. assert (Ht : forall k : nat, (k <= n * 8)%nat -> take k (buffer a) = take k (buffer b)).
  { intros k Hk. replace k with (k `min` (n * 8))%nat by lia. by rewrite <- !take_take, E. }
  assert (Hcmp : (Z.of_nat (length a) - Z.of_nat (length b) ?= 0) = (Z.of_nat (length a) ?= Z.of_nat (length b))).
  { destruct (Z.compare_spec (Z.of_nat (length a)) (Z.of_nat (length b))); [apply Z.compare_eq_iff|apply Z.compare_lt_iff|apply Z.compare_gt_iff]; lia. }
  rewrite Hcmp. destruct (Z.le_gt_cases (Z.of_nat (length a)) (Z.of_nat (length b))) as [Hle|Hgt].
  - symmetry. apply lex_prefix; [|lia]. specialize (Ht (length a) ltac:(lia)). unfold buffer in Ht. rewrite take_app_length in Ht.
    etransitivity; [exact Ht|]. by rewrite take_app_le by lia.
  - rewrite (lex_antisym b a), lex_prefix; [by rewrite <- Z.compare_antisym| |lia]. specialize (Ht (length b) ltac:(lia)). unfold buffer in Ht.
    rewrite take_app_length in Ht. etransitivity; [symmetry; exact Ht|]. by rewrite take_app_le by lia.
Qed.

Corollary sb_lt_lex (a b : bytes) : sizeable a -> sizeable b -> sb_lt a b = true <-> a <ₖ b.
Proof. intros Ha Hb. unfold sb_lt, KeyOrder.lt. rewrite <- sb_compare_lex by done. rewrite Z.ltb_lt. symmetry. apply Z.compare_lt_iff. Qed.

Corollary sb_eq_spec (a b : bytes) : sizeable a -> sizeable b -> sb_eq a b = true <-> a = b.
Proof.
  intros Ha Hb. unfold sb_eq. pose proof (sb_compare_lex a b Ha Hb) as Hlex. split.
  - destruct (size a =? size b); simpl; [|done]. intros E%Z.eqb_eq. rewrite E, Z.compare_refl in Hlex. by apply lex_eq.
  - intros ->. rewrite Z.eqb_refl. simpl. rewrite lex_refl in Hlex. apply Z.compare_eq_iff in Hlex. by apply Z.eqb_eq.
Qed.

(** ** The end of the keys with a prefix *)
Lemma next_rev_app (l r : list Z) (c : Z) : 0 <= c < 255 -> Forall (fun b => b = 255) l -> next_rev (l ++ c :: r) = (c + 1) :: r.
Proof.
  intros Hc. induction 1 as [|b l -> _ IH]; [|done]. cbn [app next_rev].
  rewrite (wrap_small 8 (c + 1)) by (unfold fits; lia). by rewrite (proj2 (Z.eqb_neq (c + 1) 0)) by lia.
Qed.
Lemma next_rev_full (l : list Z) : Forall (fun b => b = 255) l -> next_rev l = [].
Proof. by induction 1 as [|b l -> _ IH]. Qed.

(** A sequence of bytes is all 255, or ends in a byte that can be incremented and then bytes that are 255. *)
Lemma carry (b : bytes) : Forall byte_ok b ->
  Forall (fun x => x = 255) b \/ exists p c r, b = p ++ c :: r /\ 0 <= c < 255 /\ Forall (fun x => x = 255) r.
Proof.
  induction 1 as [|x b Hx Hb [IH|(p & c & r & -> & Hc & Hr)]]; [by left| |].
  - destruct (decide (x = 255)) as [->|Hne]; [left; by constructor|]. right. exists [], x, b. unfold byte_ok in Hx. split_and!; [done|lia|lia|done].
  - right. by exists (x :: p), c, r.
Qed.

Lemma next_carry (p r : list Z) (c : Z) : 0 <= c < 255 -> Forall (fun x => x = 255) r -> next (p ++ c :: r) = Ok (p ++ [c + 1]).
Proof.
  intros Hc Hr. unfold next. rewrite rev_app_distr. cbn [rev]. rewrite <- app_assoc. cbn [app].
  rewrite next_rev_app by (try done; by apply Forall_rev). cbn [rev]. rewrite rev_involutive. by destruct p.
Qed.

Lemma lex_cons (x y : Z) (a b : list Z) : x :: a <ₖ y :: b <-> x < y \/ x = y /\ a <ₖ b.
Proof. unfold KeyOrder.lt. cbn [lex]. destruct (Z.compare_spec x y); intuition (congruence || lia). Qed.

Lemma lex_full (r a : list Z) : Forall (fun x => x = 255) r -> Forall byte_ok a -> r ≤ₖ a -> r `prefix_of` a.
Proof.
  intros Hr. revert a. induction Hr as [|x r -> Hr IH]; intros a Ha Hle; [apply prefix_nil|].
  destruct Ha as [|y a Hy Ha]; [done|]. unfold byte_ok in Hy. apply key_le_lt in Hle. rewrite lex_cons in Hle.
  assert (y = 255) as -> by lia. apply prefix_cons, IH; [done|]. apply key_le_lt. intros Hlt. apply Hle. by right.
Qed.

Lemma prefix_le (p a : list Z) : p `prefix_of` a -> p ≤ₖ a.
Proof. intros [s ->]. induction p as [|x p IH]; [by destruct s|]. unfold KeyOrder.le in *. cbn [app lex]. by rewrite Z.compare_refl. Qed.

Lemma between_carry (p r a : list Z) (c : Z) : 0 <= c < 255 -> Forall (fun x => x = 255) r -> Forall byte_ok a ->
  p ++ c :: r ≤ₖ a -> a <ₖ p ++ [c + 1] -> p ++ c :: r `prefix_of` a.
Proof.
  intros Hc Hr. revert a. induction p as [|x p IH]; intros a Ha Hle Hlt; (destruct Ha as [|y a Hy Ha]; [done|]); cbn [app] in *;
    apply key_le_lt in Hle; rewrite lex_cons in Hle, Hlt.
  - assert (y = c) as -> by (destruct Hlt as [?|[? Hn]]; [lia|by destruct a]). apply prefix_cons, lex_full; [done..|].
    apply key_le_lt. intros Hlt'. apply Hle. by right.
  - assert (y = x) as -> by (destruct Hlt as [?|[? _]]; lia). apply prefix_cons, IH; [done| |destruct Hlt as [?|[_ ?]]; [lia|done]].
    apply key_le_lt. intros Hlt'. apply Hle. by right.
Qed.

Lemma carry_after_prefix (p r s : list Z) (c : Z) : (p ++ c :: r) ++ s <ₖ p ++ [c + 1].
Proof. induction p as [|x p IH]; cbn [app]; apply lex_cons; [left; lia|by right]. Qed.

(** The keys with the prefix [b] are those from [b] up to, and without, [next b]; there is no [next] when all bytes are 255. *)
Theorem next_bounds_prefix (b : bytes) (Hb : Forall byte_ok b) :
  match next b with
  | Ok e => forall a, Forall byte_ok a -> b `prefix_of` a <-> b ≤ₖ a /\ a <ₖ e
  | Throw x => x = chain_exception /\ Forall (fun c => c = 255) b
  end.
Proof.
  destruct (carry b Hb) as [Hfull|(p & c & r & -> & Hc & Hr)].
  - unfold next. by rewrite next_rev_full by (by apply Forall_rev).
  - rewrite next_carry by done. intros a Ha. split.
    + intros Hp. split; [by apply prefix_le|]. destruct Hp as [s ->]. apply carry_after_prefix.
    + intros [Hle Hlt]. by apply (between_carry p r a c).
Qed.

(** C32. The comparison of keys, eight bytes at a time in buffers padded with zeros, with the bytes of each word swapped, orders
    the keys as sequences of bytes: the operators less, greater and equal decide the lexicographic order and equality, also for keys of different lengths. *)
Theorem comparison_is_lexicographic (a b : bytes) : sizeable a -> sizeable b ->
  (sb_lt a b = true <-> a <ₖ b) /\ (sb_gt a b = true <-> b <ₖ a) /\ (sb_eq a b = true <-> a = b) /\ (sb_bool a = true <-> a <> []).
Proof.
  intros Ha Hb. split_and!; [by apply sb_lt_lex| |by apply sb_eq_spec|].
  - unfold sb_gt, KeyOrder.lt. rewrite <- lex_gt, <- sb_compare_lex by done. rewrite Z.ltb_lt. symmetry. apply Z.compare_gt_iff.
  - unfold sb_bool. rewrite negb_true_iff, <- not_true_iff_false, sb_eq_spec; [done|done|]. split; [constructor|done].
Qed.

Lemma comparison_is_lexicographic_witness :
  sizeable [1; 2; 3; 4; 5; 6; 7; 8; 9] /\ sizeable [1; 2; 4] /\ [1; 2; 3; 4; 5; 6; 7; 8; 9] <ₖ [1; 2; 4] /\ sb_lt [1; 2; 3; 4; 5; 6; 7; 8; 9] [1; 2; 4] = true.
Proof.
  assert (H1 : sizeable [1; 2; 3; 4; 5; 6; 7; 8; 9]) by (split; [repeat constructor; lia|cbn; lia]).
  assert (H2 : sizeable [1; 2; 4]) by (split; [repeat constructor; lia|cbn; lia]).
  split; [exact H1|]. split; [exact H2|]. split; [reflexivity|]. apply (proj1 (comparison_is_lexicographic _ _ H1 H2)). reflexivity.
Defined.
