(* ===== verification/Name.v ===== *)
(** * Names

    Account, permission and action names: 64-bit values written as strings of
    at most 13 characters (libraries/chain/include/dcd/chain/name.hpp and
    libraries/chain/name.cpp). *)

From S2P Require Import Prelude.

Definition code (c : ascii) : Z := Z.of_N (N_of_ascii c).

Definition char_in (lo hi c : ascii) : bool :=
  (code lo <=? code c) && (code c <=? code hi).

Definition char_to_symbol (c : ascii) : result Z :=
  if char_in "a" "z" c then Ok (code c - code "a" + 6)
  else if char_in "1" "5" c then Ok (code c - code "1" + 1)
  else if code c =? code "." then Ok 0
  else Throw name_type_exception.

(** [while (--i >= 0) n |= char_to_symbol(str[i]) << (64 - 5 * (i + 1));] *)
Fixpoint encode_chars (str : list ascii) (i : nat) (n : Z) : result Z :=
  match i with
  | O => Ok n
  | S i =>
      c ← vec_get str i;
      s ← char_to_symbol c;
      encode_chars str i (Z.lor n (u64 (Z.shiftl s (64 - 5 * (Z.of_nat i + 1)))))
  end.

Definition string_to_uint64_t (str : list ascii) : result Z :=
  _ ← dcd_assert (length str <=? 13)%nat name_type_exception;
  if (13 <=? length str)%nat then
    c ← vec_get str 12;
    n ← char_to_symbol c;
    _ ← dcd_assert (n <=? 15) name_type_exception;
    encode_chars str 12 n
  else encode_chars str (length str) 0.

Definition charmap : list ascii :=
  String.list_ascii_of_string ".12345abcdefghijklmnopqrstuvwxyz".

(** [charmap[i]] for an index below 32. *)
Definition charmap_at (i : Z) : ascii := nth (Z.to_nat i) charmap "."%char.

(** The 13 iterations of the loop of [name::to_string]. *)
Fixpoint decode_chars (todo i : nat) (tmp : Z) (str : list ascii) : list ascii :=
  match todo with
  | O => str
  | S todo =>
      let c := charmap_at (Z.land tmp (if (i =? 0)%nat then 15 else 31)) in
      decode_chars todo (S i) (Z.shiftr tmp (if (i =? 0)%nat then 4 else 5))
        (<[(12 - i)%nat := c]> str)
  end.

(** [boost::algorithm::trim_right_if( str, c == '.' )] *)
Fixpoint trim_left_dots (s : list ascii) : list ascii :=
  match s with
  | c :: s' => if bool_decide (c = "."%char) then trim_left_dots s' else s
  | [] => []
  end.
Definition trim_right_dots (s : list ascii) : list ascii :=
  rev (trim_left_dots (rev s)).

Definition to_string (value : Z) : list ascii :=
  trim_right_dots (decode_chars 13 0 value (replicate 13 "."%char)).

Definition is_string_valid_name (str : list ascii) : bool :=
  if (13 <? length str)%nat then false
  else
    let len := if (length str <=? 12)%nat then length str else 12%nat in
    if forallb (fun c => char_in "a" "z" c || char_in "1" "5" c || (code c =? code "."))
         (take len str)
    then
      if (length str =? 13)%nat then
        match str !! 12%nat with
        | Some c => char_in "a" "j" c || char_in "1" "5" c || (code c =? code ".")
        | None => false
        end
      else true
    else false.

(** ** The value a string denotes

    A reference definition without bit operations: the character at position
    [i] contributes its symbol at the weight of its slot. *)
Definition sym (c : ascii) : Z :=
  match char_to_symbol c with Ok s => s | Throw _ => 0 end.

Definition weight (i : nat) : Z :=
  if (i <? 12)%nat then 2 ^ (59 - 5 * Z.of_nat i) else 1.

Fixpoint name_value (i : nat) (s : list ascii) : Z :=
  match s with
  | [] => 0
  | c :: s => sym c * weight i + name_value (S i) s
  end.

Definition char_ok (c : ascii) : bool := is_ok (char_to_symbol c).

(** ** Lemmas on characters, by enumeration of the 256 of them *)
Lemma ascii_forall (P : ascii -> bool) :
  forallb (fun n => P (ascii_of_nat n)) (seq 0 256) = true -> forall c, P c = true.
Proof.
  intros H c. rewrite forallb_forall in H.
  rewrite <- (ascii_nat_embedding c). apply H, in_seq. pose proof (nat_ascii_bounded c). lia.
Qed.

Lemma charmap_sym_b (c : ascii) :
  (if char_ok c then bool_decide (charmap_at (sym c) = c) && (0 <=? sym c) && (sym c <? 32) &&
     Bool.eqb (sym c <=? 15) (char_in "a" "j" c || char_in "1" "5" c || (code c =? code ".")) &&
     (char_in "a" "z" c || char_in "1" "5" c || (code c =? code "."))
   else negb (char_in "a" "z" c || char_in "1" "5" c || (code c =? code "."))) = true.
Proof. revert c. apply ascii_forall. vm_compute. reflexivity. Qed.

Lemma char_ok_spec (c : ascii) :
  char_ok c = char_in "a" "z" c || char_in "1" "5" c || (code c =? code ".").
Proof.
  pose proof (charmap_sym_b c) as H.
  destruct (char_ok c); [by breflect|]. by apply negb_true_iff in H.
Qed.

Lemma sym_bound (c : ascii) : 0 <= sym c < 32.
Proof.
  pose proof (charmap_sym_b c) as H. unfold char_ok in H.
  destruct (is_ok _) eqn:E; breflect; [lia|].
  unfold sym. destruct (char_to_symbol c); [discriminate | lia].
Qed.

Lemma charmap_sym (c : ascii) : char_ok c = true -> charmap_at (sym c) = c.
Proof. intros E. pose proof (charmap_sym_b c) as H. rewrite E in H. by breflect. Qed.

Lemma sym_low (c : ascii) : char_ok c = true ->
  (sym c <=? 15) = char_in "a" "j" c || char_in "1" "5" c || (code c =? code ".").
Proof.
  intros E. pose proof (charmap_sym_b c) as H. rewrite E in H. breflect.
  by apply Bool.eqb_prop.
Qed.

Lemma char_low_ok (c : ascii) :
  char_in "a" "j" c || char_in "1" "5" c || (code c =? code ".") = true -> char_ok c = true.
Proof.
  rewrite char_ok_spec. revert c.
  assert (H : forall c, implb (char_in "a" "j" c || char_in "1" "5" c || (code c =? code "."))
    (char_in "a" "z" c || char_in "1" "5" c || (code c =? code ".")) = true)
    by (apply ascii_forall; vm_compute; reflexivity).
  intros c Hc. specialize (H c). rewrite Hc in H. exact H.
Qed.

Lemma char_to_symbol_ok (c : ascii) : char_ok c = true -> char_to_symbol c = Ok (sym c).
Proof. unfold char_ok, sym. destruct (char_to_symbol c); [done | discriminate]. Qed.

Lemma char_to_symbol_bad (c : ascii) :
  char_ok c = false -> char_to_symbol c = Throw name_type_exception.
Proof.
  unfold char_ok, char_to_symbol.
  destruct (char_in "a" "z" c), (char_in "1" "5" c), (code c =? code "."); done.
Qed.

Lemma sym_charmap (d : Z) :
  0 <= d < 32 -> char_ok (charmap_at d) = true /\ sym (charmap_at d) = d.
Proof.
  intros Hd.
  assert (H : forallb (fun n => char_ok (charmap_at (Z.of_nat n)) &&
    (sym (charmap_at (Z.of_nat n)) =? Z.of_nat n)) (seq 0 32) = true) by (vm_compute; done).
  rewrite forallb_forall in H. specialize (H (Z.to_nat d)).
  rewrite Z2Nat.id, andb_true_iff, Z.eqb_eq in H by lia. apply H, in_seq. lia.
Qed.

(** ** The encoder computes [name_value] *)
Lemma name_value_app (i : nat) (s t : list ascii) :
  name_value i (s ++ t) = name_value i s + name_value (i + length s) t.
Proof.
  revert i. induction s as [|c s IH]; intros i; simpl; [by rewrite Nat.add_0_r|].
  rewrite IH, Nat.add_succ_r. simpl. lia.
Qed.

Lemma weight_slot (i : nat) : (i < 12)%nat -> weight i = 2 ^ (64 - 5 * (Z.of_nat i + 1)).
Proof. intros Hi. unfold weight. rewrite (proj2 (Nat.ltb_lt i 12)) by done. f_equal. lia. Qed.

Lemma take_S_snoc {A} (l : list A) (i : nat) (x : A) :
  l !! i = Some x -> take (S i) l = take i l ++ [x].
Proof. apply take_S_r. Qed.

Lemma slot_value (n s i : Z) :
  0 <= i < 12 -> 0 <= s < 32 -> 0 <= n < 2 ^ (64 - 5 * (i + 1)) ->
  Z.lor n (u64 (Z.shiftl s (64 - 5 * (i + 1)))) = n + s * 2 ^ (64 - 5 * (i + 1)) /\
  n + s * 2 ^ (64 - 5 * (i + 1)) < 2 ^ (64 - 5 * i).
Proof.
  intros Hi Hs Hn.
  assert (H5 : 2 ^ (64 - 5 * i) = 32 * 2 ^ (64 - 5 * (i + 1))).
  { change 32 with (2 ^ 5). rewrite <- Z.pow_add_r by lia. f_equal. lia. }
  assert (H64 : 2 ^ (64 - 5 * i) <= 2 ^ 64) by (apply Z.pow_le_mono_r; lia).
  rewrite wrap_small; [split; [apply lor_add_shiftl; lia | nia]|].
  rewrite Z.shiftl_mul_pow2 by lia. split; nia.
Qed.

Lemma encode_chars_ok (str : list ascii) (i : nat) (n : Z) :
  (i <= 12)%nat -> (i <= length str)%nat ->
  forallb char_ok (take i str) = true ->
  0 <= n < 2 ^ (64 - 5 * Z.of_nat i) ->
  encode_chars str i n = Ok (n + name_value 0 (take i str)).
Proof.
  revert n. induction i as [|i IH]; intros n Hi Hl Hok Hn; simpl.
  { f_equal. lia. }
  destruct (lookup_lt_is_Some_2 str i) as [c Hc]; [lia|].
  rewrite (take_S_snoc _ _ _ Hc) in *. rewrite forallb_app in Hok. simpl in Hok. breflect.
  unfold vec_get. rewrite Hc. simpl. rewrite char_to_symbol_ok by done. simpl.
  rewrite Nat2Z.inj_succ in Hn. unfold Z.succ in Hn.
  pose proof (sym_bound c).
  destruct (slot_value n (sym c) (Z.of_nat i)) as [-> Hlt]; [lia..|].
  rewrite IH; [|lia..|done|].
  - f_equal. rewrite name_value_app, length_take, Nat.min_l, Nat.add_0_l by lia.
    simpl. rewrite weight_slot by lia. lia.
  - split; [|exact Hlt]. pose proof (Z.pow_nonneg 2 (64 - 5 * (Z.of_nat i + 1))). nia.
Qed.

Lemma encode_chars_bad (str : list ascii) (i : nat) (n : Z) :
  (i <= length str)%nat -> forallb char_ok (take i str) = false ->
  encode_chars str i n = Throw name_type_exception.
Proof.
  revert n. induction i as [|i IH]; intros n Hl Hok; [discriminate|].
  destruct (lookup_lt_is_Some_2 str i) as [c Hc]; [lia|].
  rewrite (take_S_snoc _ _ _ Hc), forallb_app in Hok. simpl in *.
  unfold vec_get. rewrite Hc. simpl. rewrite andb_true_r in Hok.
  destruct (char_ok c) eqn:Eo.
  - rewrite char_to_symbol_ok by done. simpl. apply IH; [lia|].
    by rewrite andb_true_r in Hok.
  - by rewrite char_to_symbol_bad.
Qed.

#[local] Arguments encode_chars : simpl never.
#[local] Arguments Nat.leb : simpl never.

(** ** The code's predicate and the encoder's domain *)
Definition name_ok (str : list ascii) : bool :=
  (length str <=? 13)%nat && forallb char_ok str &&
  match str !! 12%nat with Some c => sym c <=? 15 | None => true end.

Lemma forallb_take_12 (str : list ascii) :
  (length str <= 13)%nat ->
  forallb char_ok str = forallb char_ok (take 12 str) &&
    match str !! 12%nat with Some c => char_ok c | None => true end.
Proof.
  intros Hl. rewrite <- (take_drop 12 str) at 1. rewrite forallb_app. f_equal.
  destruct (str !! 12%nat) as [c|] eqn:E.
  - rewrite (drop_S _ _ _ E), (drop_ge str) by lia. simpl. by rewrite andb_true_r.
  - rewrite drop_ge by by apply lookup_ge_None. done.
Qed.

Lemma string_to_uint64_t_ok (str : list ascii) :
  name_ok str = true -> string_to_uint64_t str = Ok (name_value 0 str).
Proof.
  unfold name_ok, string_to_uint64_t. intros H. breflect.
  apply Nat.leb_le in H as Hl. rewrite H. simpl.
  destruct (Nat.leb_spec 13 (length str)) as [H13|H13].
  - destruct (lookup_lt_is_Some_2 str 12) as [c Hc]; [lia|].
    unfold vec_get. rewrite Hc in *. simpl.
    rewrite (forallb_take_12 str Hl), Hc in H1. breflect.
    rewrite char_to_symbol_ok by done. simpl. rewrite (proj2 (Z.leb_le _ _)) by done. simpl.
    pose proof (sym_bound c). rewrite encode_chars_ok; [|lia|lia|done|cbn; lia].
    replace (name_value 0 str) with (name_value 0 (take 12 str ++ drop 12 str))
      by (by rewrite take_drop).
    rewrite name_value_app, length_take, Nat.min_l by lia.
    rewrite (drop_S _ _ _ Hc), (drop_ge str) by lia.
    cbn [name_value]. change (weight (0 + 12)) with 1. f_equal. lia.
  - rewrite encode_chars_ok; [by rewrite firstn_all, Z.add_0_l|lia..| |].
    + by rewrite firstn_all.
    + pose proof (Z.pow_pos_nonneg 2 (64 - 5 * Z.of_nat (length str))). lia.
Qed.

Lemma string_to_uint64_t_bad (str : list ascii) :
  name_ok str = false -> string_to_uint64_t str = Throw name_type_exception.
Proof.
  unfold name_ok, string_to_uint64_t. intros H.
  destruct (Nat.leb_spec (length str) 13) as [Hl|Hl]; simpl in *; [|done].
  rewrite (forallb_take_12 str Hl) in H.
  destruct (Nat.leb_spec 13 (length str)) as [H13|H13].
  - destruct (lookup_lt_is_Some_2 str 12) as [c Hc]; [lia|].
    unfold vec_get. rewrite Hc in *. simpl.
    destruct (char_ok c) eqn:Ec.
    + rewrite char_to_symbol_ok by done. simpl. destruct (sym c <=? 15); simpl; [|done].
      rewrite !andb_true_r in H. apply encode_chars_bad; [lia|done].
    + by rewrite char_to_symbol_bad.
  - rewrite (proj2 (lookup_ge_None str 12)) in H by lia.
    rewrite !andb_true_r, take_ge in H by lia.
    apply encode_chars_bad; [done|]. by rewrite take_ge.
Qed.

Lemma is_string_valid_name_ok (str : list ascii) : is_string_valid_name str = name_ok str.
Proof.
  unfold is_string_valid_name, name_ok.
  destruct (Nat.ltb_spec 13 (length str)) as [Hl|Hl].
  { by rewrite (proj2 (Nat.leb_gt (length str) 13)) by lia. }
  rewrite (proj2 (Nat.leb_le (length str) 13)) by lia. rewrite (forallb_take_12 str Hl). simpl.
  rewrite (forallb_eq _ char_ok) by (intros; symmetry; apply char_ok_spec).
  destruct (Nat.leb_spec (length str) 12) as [H12|H12].
  - rewrite (proj2 (lookup_ge_None str 12)) by lia.
    rewrite firstn_all, take_ge, !andb_true_r by lia.
    rewrite (proj2 (Nat.eqb_neq (length str) 13)) by lia. by destruct (forallb _ _).
  - rewrite (proj2 (Nat.eqb_eq (length str) 13)) by lia.
    destruct (lookup_lt_is_Some_2 str 12) as [c Hc]; [lia|]. rewrite Hc.
    destruct (forallb char_ok (take 12 str)); simpl; [|done].
    destruct (char_ok c) eqn:Ec; simpl; [by rewrite sym_low|].
    apply not_true_is_false. intros Hlow. apply char_low_ok in Hlow. congruence.
Qed.

Lemma name_ok_pad (str : list ascii) :
  name_ok str = true -> name_ok (str ++ replicate (13 - length str) "."%char) = true.
Proof.
  unfold name_ok. intros H. breflect. apply Nat.leb_le in H.
  rewrite length_app, forallb_app, length_replicate, !andb_true_iff.
  split; [split; [apply Nat.leb_le; lia | split; [done|]]|].
  - apply forallb_forall. intros c Hc. apply list_elem_of_In, elem_of_replicate in Hc.
    by destruct Hc as [-> _].
  - destruct (str !! 12%nat) as [c|] eqn:E; [by rewrite (lookup_app_l_Some _ _ _ _ E)|].
    apply lookup_ge_None in E. rewrite lookup_app_r by lia.
    by rewrite lookup_replicate_2 by lia.
Qed.

(** ** The decoder *)
Lemma trim_left_dots_spec (s : list ascii) :
  exists k, s = replicate k "."%char ++ trim_left_dots s.
Proof.
  induction s as [|c s [k IH]]; [by exists 0%nat|]. simpl. case_bool_decide.
  - exists (S k). simpl. congruence.
  - by exists 0%nat.
Qed.

Lemma trim_right_dots_spec (s : list ascii) :
  exists k, s = trim_right_dots s ++ replicate k "."%char.
Proof.
  destruct (trim_left_dots_spec (rev s)) as [k Hk]. exists k.
  unfold trim_right_dots. rewrite <- (rev_involutive s) at 1. rewrite Hk at 1.
  by rewrite rev_app_distr, rev_replicate.
Qed.

Lemma trim_left_dots_replicate (k : nat) (s : list ascii) :
  trim_left_dots (replicate k "."%char ++ s) = trim_left_dots s.
Proof. induction k; simpl; [done|]. exact IHk. Qed.

Lemma trim_right_dots_app (k : nat) (s : list ascii) :
  trim_right_dots (s ++ replicate k "."%char) = trim_right_dots s.
Proof.
  unfold trim_right_dots. by rewrite rev_app_distr, rev_replicate, trim_left_dots_replicate.
Qed.

Lemma name_value_dots (i k : nat) : name_value i (replicate k "."%char) = 0.
Proof. revert i. induction k; intros i; simpl; [done|]. by rewrite IHk. Qed.

(** The 13 characters [to_string] computes before it trims them. *)
Definition raw (v : Z) : list ascii :=
  decode_chars 13 0 v (replicate 13 "."%char).

Definition digit (v : Z) (i : nat) : Z :=
  if (i =? 12)%nat then v mod 16 else (v / 2 ^ (59 - 5 * Z.of_nat i)) mod 32.

Lemma raw_digits (v : Z) : raw v = (fun i => charmap_at (digit v i)) <$> seq 0 13.
Proof.
  unfold raw, digit. cbn -[Z.shiftr Z.land charmap_at Z.modulo Z.div Z.pow].
  rewrite !Z.shiftr_shiftr by lia.
  change 31 with (Z.ones 5). change 15 with (Z.ones 4).
  rewrite !Z.land_ones by lia. rewrite !Z.shiftr_div_pow2 by lia. reflexivity.
Qed.

Lemma digit_bound (v : Z) (i : nat) : 0 <= digit v i < 32.
Proof.
  unfold digit. destruct (i =? 12)%nat;
    [pose proof (Z.mod_pos_bound v 16) |
     pose proof (Z.mod_pos_bound (v / 2 ^ (59 - 5 * Z.of_nat i)) 32)]; lia.
Qed.

Lemma raw_ok (v : Z) : name_ok (raw v) = true.
Proof.
  rewrite raw_digits. unfold name_ok. rewrite length_fmap, length_seq.
  rewrite !andb_true_iff. split; [split; [done|]|].
  - apply forallb_forall. intros c Hc. apply list_elem_of_In, list_elem_of_fmap in Hc.
    destruct Hc as (i & -> & _). apply sym_charmap, digit_bound.
  - rewrite list_lookup_fmap, lookup_seq_lt by lia. simpl.
    rewrite (proj2 (sym_charmap _ (digit_bound v 12))).
    apply Z.leb_le. unfold digit. simpl. pose proof (Z.mod_pos_bound v 16). lia.
Qed.

(** Evaluates the weights and the powers of two of the slots. *)
Ltac eval_slots :=
  repeat match goal with
  | |- context [weight ?i] => let w := eval vm_compute in (weight i) in change (weight i) with w
  | |- context [2 ^ ?k] => let w := eval vm_compute in (2 ^ k) in change (2 ^ k) with w
  end.

Lemma digit_chain (v k : Z) :
  0 <= k -> v / 2 ^ k = 32 * (v / 2 ^ (k + 5)) + (v / 2 ^ k) mod 32.
Proof.
  intros Hk. rewrite Z.pow_add_r, <- Z.div_div by lia. apply Z.div_mod. lia.
Qed.

Lemma raw_value (v : Z) : fits 64 v -> name_value 0 (raw v) = v.
Proof.
  intros [H0 H1]. rewrite raw_digits. cbn [seq fmap list_fmap name_value].
  rewrite !(fun i => proj2 (sym_charmap _ (digit_bound v i))).
  assert ((v / 2 ^ 59) mod 32 = v / 2 ^ 59).
  { apply Z.mod_small. split; [apply Z.div_pos; lia | apply Z.div_lt_upper_bound; lia]. }
  revert H. generalize (Z.div_mod v (2 ^ 4)).
  generalize (digit_chain v 4), (digit_chain v 9), (digit_chain v 14), (digit_chain v 19),
    (digit_chain v 24), (digit_chain v 29), (digit_chain v 34), (digit_chain v 39),
    (digit_chain v 44), (digit_chain v 49), (digit_chain v 54).
  unfold digit. cbn [Nat.eqb]. eval_slots. lia.
Qed.

Lemma digit_unique (hi d lo k : Z) :
  0 <= k -> 0 <= lo < 2 ^ k -> 0 <= d < 32 ->
  ((hi * 2 ^ (k + 5) + d * 2 ^ k + lo) / 2 ^ k) mod 32 = d.
Proof.
  intros Hk Hlo Hd. rewrite Z.pow_add_r by lia.
  replace (hi * (2 ^ k * 2 ^ 5) + d * 2 ^ k + lo) with (lo + (hi * 32 + d) * 2 ^ k) by lia.
  rewrite Z.div_add by lia. rewrite Z.div_small by done.
  symmetry. apply Z.mod_unique with hi; lia.
Qed.

Lemma slot_pow (i : nat) :
  (i < 12)%nat -> 2 ^ (64 - 5 * Z.of_nat i) = 32 * weight i /\
  2 ^ (64 - 5 * Z.of_nat (S i)) = weight i.
Proof.
  intros Hi. rewrite weight_slot, Nat2Z.inj_succ by done. split; [|f_equal; lia].
  change 32 with (2 ^ 5). rewrite <- Z.pow_add_r by lia. f_equal. lia.
Qed.

Lemma name_value_bound (i : nat) (s : list ascii) :
  (i + length s = 13)%nat -> (forall c, last s = Some c -> sym c <= 15) ->
  0 <= name_value i s /\ ((i <= 12)%nat -> name_value i s < 2 ^ (64 - 5 * Z.of_nat i)).
Proof.
  revert i. induction s as [|c s IH]; intros i Hl Hlast; cbn [name_value length] in *.
  { split; lia. }
  pose proof (sym_bound c). destruct (decide (i = 12%nat)) as [->|Hi].
  - destruct s; [|simpl in Hl; lia]. specialize (Hlast c eq_refl).
    change (weight 12) with 1. simpl. lia.
  - destruct (slot_pow i) as [H1 H2]; [lia|].
    destruct (IH (S i)) as [H3 H4]; [lia | | ].
    { intros c' Hc'. apply Hlast. by destruct s. }
    specialize (H4 ltac:(lia)). nia.
Qed.

Lemma name_value_multiple (s : list ascii) :
  (length s <= 12)%nat -> exists hi, name_value 0 s = hi * 2 ^ (64 - 5 * Z.of_nat (length s)).
Proof.
  induction s as [|c s IH] using rev_ind; intros Hl; [by exists 0|].
  rewrite length_app, Nat.add_1_r in *.
  destruct IH as [hi Hhi]; [lia|]. destruct (slot_pow (length s)) as [H1 H2]; [lia|].
  exists (hi * 32 + sym c). rewrite name_value_app, Hhi, H1, H2. cbn [name_value]. simpl (0 + _)%nat. lia.
Qed.

Lemma digit_name_value (s : list ascii) (i : nat) (c : ascii) :
  length s = 13%nat -> (forall c, last s = Some c -> sym c <= 15) ->
  s !! i = Some c -> digit (name_value 0 s) i = sym c.
Proof.
  intros Hl Hlast Hc. pose proof (lookup_lt_Some _ _ _ Hc).
  rewrite <- (take_drop_middle s i c Hc) at 1.
  rewrite name_value_app, length_take_le, Nat.add_0_l by lia. cbn [name_value].
  destruct (name_value_multiple (take i s)) as [hi Hhi]; [rewrite length_take; lia|].
  rewrite Hhi, length_take_le by lia.
  destruct (name_value_bound (S i) (drop (S i) s)) as [H1 H2].
  { rewrite length_drop. lia. }
  { intros c' Hc'. apply Hlast. rewrite last_lookup, length_drop, lookup_drop in Hc'.
    pose proof (lookup_lt_Some _ _ _ Hc'). rewrite last_lookup, <- Hc'. f_equal. lia. }
  pose proof (sym_bound c). unfold digit. destruct (Nat.eqb_spec i 12) as [->|Hi].
  - rewrite drop_ge in * by lia. change (weight 12) with 1.
    assert (sym c <= 15) by (apply Hlast; rewrite last_lookup, Hl; exact Hc).
    cbn [name_value]. simpl (2 ^ _). symmetry. apply Z.mod_unique with hi; lia.
  - destruct (slot_pow i) as [H3 H4]; [lia|]. rewrite H4 in H2.
    rewrite weight_slot in H2 by lia. specialize (H2 ltac:(lia)).
    rewrite weight_slot by lia. rewrite Z.add_assoc.
    replace (64 - 5 * Z.of_nat i) with (64 - 5 * (Z.of_nat i + 1) + 5) by lia.
    replace (59 - 5 * Z.of_nat i) with (64 - 5 * (Z.of_nat i + 1)) by lia.
    apply digit_unique; lia.
Qed.

Lemma raw_name_value (s : list ascii) :
  length s = 13%nat -> name_ok s = true -> raw (name_value 0 s) = s.
Proof.
  intros Hl Hok. unfold name_ok in Hok. breflect.
  assert (Hlast : forall c, last s = Some c -> sym c <= 15).
  { intros c. rewrite last_lookup, Hl. simpl. intros Hc. rewrite Hc in *. by breflect. }
  rewrite raw_digits. apply list_eq_same_length with 13%nat; [done..|].
  intros i x y Hi Hx Hy. rewrite list_lookup_fmap, lookup_seq_lt in Hx by lia. injection Hx as <-.
  simpl. rewrite (digit_name_value s i y) by done. apply charmap_sym.
  rewrite forallb_forall in H1. by apply H1, list_elem_of_In, list_elem_of_lookup_2 with i.
Qed.

(** ** Properties *)

(** Printing a 64-bit name value and parsing the text gives the value back:
    every value is denoted by the string [to_string] prints for it. *)
Theorem name_value_roundtrip (value : Z) :
  fits 64 value -> string_to_uint64_t (to_string value) = Ok value.
Proof.
  intros Hv. unfold to_string. fold (raw value).
  destruct (trim_right_dots_spec (raw value)) as [k Hk].
  pose proof (raw_ok value) as Hok. pose proof (raw_value value Hv) as Hval.
  rewrite Hk in Hok, Hval. rewrite name_value_app, name_value_dots, Z.add_0_r in Hval.
  rewrite string_to_uint64_t_ok; [by rewrite Hval|].
  revert Hok. generalize (trim_right_dots (raw value)). intros s.
  unfold name_ok. rewrite length_app, forallb_app. intros Hok. breflect.
  rewrite !andb_true_iff. split; [split; [|done]|].
  - rewrite Nat.leb_le in *. lia.
  - destruct (s !! 12%nat) eqn:E; [|done]. by rewrite (lookup_app_l_Some _ _ _ _ E) in H0.
Qed.

Lemma name_value_roundtrip_witness :
  fits 64 6138663577826885632 /\
  string_to_uint64_t (to_string 6138663577826885632) = Ok 6138663577826885632.
Proof. split; [split; lia | apply (name_value_roundtrip 6138663577826885632); split; lia]. Defined.

(** Parsing a string and printing the value gives the string back up to
    trailing dots, for exactly the strings that [is_string_valid_name] accepts;
    every other string is refused with [name_type_exception]. *)
Theorem name_string_roundtrip (str : list ascii) :
  if is_string_valid_name str
  then exists value, fits 64 value /\ string_to_uint64_t str = Ok value /\
         to_string value = trim_right_dots str
  else string_to_uint64_t str = Throw name_type_exception.
Proof.
  rewrite is_string_valid_name_ok. destruct (name_ok str) eqn:Hok;
    [|by apply string_to_uint64_t_bad].
  exists (name_value 0 str). rewrite (string_to_uint64_t_ok str Hok).
  set (pad := (13 - length str)%nat).
  assert (Hv : name_value 0 (str ++ replicate pad "."%char) = name_value 0 str)
    by (rewrite name_value_app, name_value_dots; lia).
  assert (Hl : length (str ++ replicate pad "."%char) = 13%nat).
  { unfold name_ok in Hok. breflect. rewrite Nat.leb_le in *. rewrite length_app, length_replicate. lia. }
  assert (Hok' : name_ok (str ++ replicate pad "."%char) = true) by by apply name_ok_pad.
  rewrite <- Hv. split; [|split; [done|]].
  - destruct (name_value_bound 0 (str ++ replicate pad "."%char)) as [H1 H2]; [lia| |split; [lia|]].
    + intros c. rewrite last_lookup, Hl. simpl. intros Hc. unfold name_ok in Hok'. rewrite Hc in *. by breflect.
    + by apply H2; lia.
  - unfold to_string. fold (raw (name_value 0 (str ++ replicate pad "."%char))).
    rewrite raw_name_value by done. apply trim_right_dots_app.
Qed.
