(* ===== verification/Types.v ===== *)
(** * Common types and configuration

    The digest type (libraries/fc/include/fc/crypto/sha256.hpp), the names of
    accounts, permissions and actions, and the constants of
    libraries/chain/include/dcd/chain/config.hpp that the components use. *)

From S2P Require Import Prelude Name.

(** A SHA-256 value: four 64-bit words, least significant byte first. *)
Record digest := mk_digest { hash0 : Z; hash1 : Z; hash2 : Z; hash3 : Z }.

#[global] Instance digest_eq_dec : EqDecision digest.
Proof. solve_decision. Defined.

#[global] Program Instance digest_countable : Countable digest :=
  inj_countable (fun d => (hash0 d, hash1 d, hash2 d, hash3 d))
    (fun '(a, b, c, d) => Some (mk_digest a b c d)) _.
Next Obligation. by intros []. Qed.

(** [digest_type()]: the default constructor zeroes the words. *)
Definition digest_zero : digest := mk_digest 0 0 0 0.

Definition digest_fits (d : digest) : Prop :=
  fits 64 (hash0 d) /\ fits 64 (hash1 d) /\ fits 64 (hash2 d) /\ fits 64 (hash3 d).

(** [block_id_type] and [checksum256_type] are digests; [account_name],
    [permission_name] and [action_name] are names, that is 64-bit values. *)
Abbreviation block_id := digest (only parsing).
Abbreviation account_name := Z (only parsing).
Abbreviation permission_name := Z (only parsing).
Abbreviation action_name := Z (only parsing).

(** The value of a name literal [ "..."_n ]. *)
Definition n_ (s : string) : Z :=
  match string_to_uint64_t (String.list_ascii_of_string s) with
  | Ok v => v
  | Throw _ => 0
  end.

(** [builtin_protocol_feature_t] *)
Inductive builtin_protocol_feature_t :=
  | preactivate_feature
  | only_link_to_existing_permission
  | replace_deferred
  | no_duplicate_deferred_id
  | fix_linkauth_restriction
  | disallow_empty_producer_schedule
  | restrict_action_to_self
  | only_bill_first_authorizer
  | forward_setcode
  | get_sender
  | ram_restrictions
  | webauthn_key
  | wtmsig_block_signatures
  | action_return_value
  | kv_database
  | configurable_wasm_limits
  | blockchain_parameters.

#[global] Instance builtin_protocol_feature_eq_dec : EqDecision builtin_protocol_feature_t.
Proof. solve_decision. Defined.

Module config.
Definition system_account_name : account_name := Eval vm_compute in n_ "dcd".
Definition active_name : permission_name := Eval vm_compute in n_ "active".
Definition owner_name : permission_name := Eval vm_compute in n_ "owner".
Definition dcd_any_name : permission_name := Eval vm_compute in n_ "dcd.any".
Definition dcd_code_name : permission_name := Eval vm_compute in n_ "dcd.code".
Definition block_interval_ms : Z := 500.
Definition block_timestamp_epoch : Z := 946684800000.
Definition producer_repetitions : Z := 12.
Definition max_producers : Z := 125.
Definition maximum_tracked_dpos_confirmations : nat := 1024.
End config.
