(* ===== verification/Asset.v ===== *)
(** * Symbols and assets

    Amounts of tokens and their text form (libraries/chain/include/dcd/chain/symbol.hpp, asset.hpp and
    libraries/chain/asset.cpp). A symbol is a 64-bit number: the lowest byte is the number of decimals, the other
    bytes are the characters of its name. Reading an integer is [boost::lexical_cast], which is a parameter.
    Behind the definitions is the round trip of the text. *)

From S2P Require Import Prelude Name.

Definition max_precision : Z := 18.

Class LexicalCast := { lexical_cast_int64 : list ascii -> option Z }.

(** ** Characters and digits *)
Definition is_digit (c : ascii) : bool := char_in "0" "9" c.
Definition upper (c : ascii) : bool := char_in "A" "Z" c.
(** [std::isspace] *)
Definition is_space (c : ascii) : bool := (code c =? 32) || ((9 <=? code c) && (code c <=? 13)).

Definition char_of (n : Z) : ascii := ascii_of_N (Z.to_N n).

(** The decimal digits of a number that is not negative. *)
Fixpoint digits_aux (fuel : nat) (n : Z) (acc : list ascii) : list ascii :=
  match fuel with
  | O => acc
  | S fuel =>
      let acc := char_of (48 + n mod 10) :: acc in
      if n <? 10 then acc else digits_aux fuel (n / 10) acc
  end.

(** [std::to_string] and [fc::to_string]; 20 digits are enough for 64 bits. *)
Definition to_decimal (n : Z) : list ascii :=
  if n <? 0 then "-"%char :: digits_aux 20 (- n) [] else digits_aux 20 n [].

Fixpoint drop_while (f : ascii -> bool) (s : list ascii) : list ascii :=
  match s with
  | [] => []
  | c :: s' => if f c then drop_while f s' else s
  end.

(** [fc::trim] *)
Definition trim (s : list ascii) : list ascii :=
  rev (drop_while is_space (rev (drop_while is_space s))).

(** [s.find( c )] *)
Fixpoint find_char (c : ascii) (s : list ascii) : option nat :=
  match s with
  | [] => None
  | c' :: s => if bool_decide (c' = c) then Some O else S <$> find_char c s
  end.

(** [fc::to_int64] *)
Definition to_int64 `{LexicalCast} (s : list ascii) : result Z :=
  match lexical_cast_int64 s with Some n => Ok n | None => Throw parse_error_exception end.

(** [c_str()]: the characters before the first null. *)
Fixpoint c_str (s : list ascii) : list ascii :=
  match s with
  | [] => []
  | c :: s => if code c =? 0 then [] else c :: c_str s
  end.

(** ** Symbols *)
Record symbol := mk_symbol { m_value : Z }.

#[global] Instance symbol_eq_dec : EqDecision symbol.
Proof. solve_decision. Defined.

(** The loop of [string_to_symbol]: shifting by 64 or more is undefined. *)
Fixpoint symbol_chars (s : list ascii) (i : Z) (acc : Z) : result Z :=
  match s with
  | [] => Ok acc
  | c :: s =>
      _ ← dcd_assert (upper c) symbol_type_exception;
      if 64 <=? 8 * (i + 1) then Throw undefined_behaviour
      else symbol_chars s (i + 1) (Z.lor acc (u64 (Z.shiftl (code c) (8 * (i + 1)))))
  end.

Definition string_to_symbol (precision : Z) (str : list ascii) : result Z :=
  n ← symbol_chars (c_str str) 0 0;
  Ok (Z.lor n precision).

Definition sym_decimals (s : symbol) : Z := Z.land (m_value s) 255.

(** [name()]: a 64-bit number has at most 7 bytes above the lowest. *)
Fixpoint name_chars (fuel : nat) (v : Z) : list ascii :=
  match fuel with
  | O => []
  | S fuel => if 0 <? v then char_of (Z.land v 255) :: name_chars fuel (Z.shiftr v 8) else []
  end.
Definition sym_name (s : symbol) : list ascii := name_chars 8 (Z.shiftr (m_value s) 8).

Definition valid_name (n : list ascii) : bool := forallb upper n.

Definition sym_valid (s : symbol) : bool := (sym_decimals s <=? max_precision) && valid_name (sym_name s).

(** The constructor from a number *)
Definition make_symbol (v : Z) : result symbol :=
  _ ← dcd_assert (sym_valid (mk_symbol v)) symbol_type_exception;
  Ok (mk_symbol v).

(** [while( p > 0 ) { p10 *= 10; --p; }] *)
Fixpoint p10_loop (p : nat) (p10 : Z) : Z :=
  match p with O => p10 | S p => p10_loop p (u64 (p10 * 10)) end.

Definition sym_precision (s : symbol) : result Z :=
  _ ← dcd_assert (sym_decimals s <=? max_precision) symbol_type_exception;
  Ok (p10_loop (Z.to_nat (sym_decimals s)) 1).

Definition sym_to_string (s : symbol) : list ascii :=
  to_decimal (Z.land (m_value s) 255) ++ ","%char :: sym_name s.

Section text.
Context `{LexicalCast}.

Definition sym_from_string (from : list ascii) : result symbol :=
  let s := trim from in
  _ ← dcd_assert (negb (bool_decide (s = []))) symbol_type_exception;
  match find_char "," s with
  | None => Throw symbol_type_exception
  | Some comma_pos =>
      n ← to_int64 (take comma_pos s);
      let p := u8 n in
      _ ← dcd_assert (p <=? max_precision) symbol_type_exception;
      v ← string_to_symbol p (drop (S comma_pos) s);
      make_symbol v
  end.
End text.

(** ** Assets *)
Definition max_amount : Z := 2 ^ 62 - 1.

Record asset := mk_asset { amount : Z; sym : symbol }.

#[global] Instance asset_eq_dec : EqDecision asset.
Proof. solve_decision. Defined.

Definition is_amount_within_range (n : Z) : bool := (- max_amount <=? n) && (n <=? max_amount).
Definition asset_is_valid (a : asset) : bool := is_amount_within_range (amount a) && sym_valid (sym a).

Definition make_asset (n : Z) (s : symbol) : result asset :=
  _ ← dcd_assert (is_amount_within_range n) asset_type_exception;
  _ ← dcd_assert (sym_valid s) asset_type_exception;
  Ok (mk_asset n s).

(** Signed arithmetic that leaves its range is undefined. *)
Definition signed64 (n : Z) : result Z :=
  if (- 2 ^ 63 <=? n) && (n <? 2 ^ 63) then Ok n else Throw undefined_behaviour.

Definition asset_add_assign (a o : asset) : result asset :=
  _ ← dcd_assert (bool_decide (sym a = sym o)) asset_type_exception;
  n ← signed64 (amount a + amount o);
  Ok (mk_asset n (sym a)).
Definition asset_sub_assign (a o : asset) : result asset :=
  _ ← dcd_assert (bool_decide (sym a = sym o)) asset_type_exception;
  n ← signed64 (amount a - amount o);
  Ok (mk_asset n (sym a)).
Definition asset_neg (a : asset) : result asset :=
  n ← signed64 (- amount a); make_asset n (sym a).
Definition asset_sub (a b : asset) : result asset :=
  _ ← dcd_assert (bool_decide (sym a = sym b)) asset_type_exception;
  n ← signed64 (amount a - amount b);
  make_asset n (sym a).
Definition asset_add (a b : asset) : result asset :=
  _ ← dcd_assert (bool_decide (sym a = sym b)) asset_type_exception;
  n ← signed64 (amount a + amount b);
  make_asset n (sym a).
Definition asset_eqb (a b : asset) : bool := (m_value (sym a) =? m_value (sym b)) && (amount a =? amount b).
Definition asset_lt (a b : asset) : result bool :=
  _ ← dcd_assert (bool_decide (sym a = sym b)) asset_type_exception;
  Ok (amount a <? amount b).

Definition asset_to_string (a : asset) : result (list ascii) :=
  let sign := if amount a <? 0 then ["-"%char] else [] in
  abs_amount ← signed64 (Z.abs (amount a));
  p ← sym_precision (sym a);
  let whole := to_decimal (Z.quot abs_amount p) in
  let fraction :=
    if sym_decimals (sym a) =? 0 then []
    else "."%char :: drop 1 (to_decimal (p + Z.rem abs_amount p)) in
  Ok (sign ++ whole ++ fraction ++ " "%char :: sym_name (sym a)).

(** [safe< int64_t >] *)
Definition safe_add (a b : Z) : result Z :=
  if (0 <? b) && (2 ^ 63 - 1 - b <? a) then Throw overflow_exception
  else if (b <? 0) && (a <? - 2 ^ 63 - b) then Throw underflow_exception
  else Ok (a + b).

Definition safe_mul (a b : Z) : result Z :=
  if 0 <? a then
    if 0 <? b then if Z.quot (2 ^ 63 - 1) b <? a then Throw overflow_exception else Ok (a * b)
    else if b <? Z.quot (- 2 ^ 63) a then Throw underflow_exception else Ok (a * b)
  else if 0 <? b then if a <? Z.quot (- 2 ^ 63) b then Throw underflow_exception else Ok (a * b)
  else if negb (a =? 0) && (b <? Z.quot (2 ^ 63 - 1) a) then Throw overflow_exception
  else Ok (a * b).

Section asset_text.
Context `{LexicalCast}.

Definition asset_from_string (from : list ascii) : result asset :=
  let s := trim from in
  match find_char " " s with
  | None => Throw asset_type_exception
  | Some space_pos =>
      let symbol_str := trim (drop (S space_pos) s) in
      let amount_str := take space_pos s in
      let dot_pos := find_char "." amount_str in
      _ ← (match dot_pos with
           | Some d => dcd_assert (negb (d =? length amount_str - 1)%nat) asset_type_exception
           | None => Ok tt
           end);
      let precision_digit_str :=
        match dot_pos with
        | Some d => to_decimal (Z.of_nat (length amount_str - d - 1))
        | None => ["0"%char]
        end in
      sy ← sym_from_string (precision_digit_str ++ ","%char :: symbol_str);
      '(int_part, fract_part) ←
        (match dot_pos with
         | Some d =>
             i ← to_int64 (take d amount_str);
             f ← to_int64 (drop (S d) amount_str);
             f ← (if bool_decide (head amount_str = Some "-"%char) then safe_mul f (-1) else Ok f);
             Ok (i, f)
         | None => i ← to_int64 amount_str; Ok (i, 0)
         end);
      p ← sym_precision sy;
      n ← safe_mul int_part p;
      n ← safe_add n fract_part;
      make_asset n sy
  end.
End asset_text.

(** * Assets keep their value through text

    Printing a valid asset and reading the text gives the asset, and what the reader accepts beyond that. *)

(** ** Decimal numbers *)
Definition digit (c : ascii) : Z := code c - 48.
Fixpoint decimal_value (acc : Z) (s : list ascii) : Z :=
  match s with [] => acc | c :: s => decimal_value (10 * acc + digit c) s end.

(** What is used of [boost::lexical_cast]: it reads decimal numbers that fit. *)
Class LexicalCastLaws `{LexicalCast} : Prop := {
  lexical_cast_decimal : forall (negative : bool) (s : list ascii),
    s <> [] -> forallb is_digit s = true ->
    let n := if negative then - decimal_value 0 s else decimal_value 0 s in
    - 2 ^ 63 <= n < 2 ^ 63 ->
    lexical_cast_int64 ((if negative then ["-"%char] else []) ++ s) = Some n
}.

Lemma code_char_of (n : Z) : 0 <= n < 256 -> code (char_of n) = n.
Proof.
  intros Hn. unfold code, char_of. rewrite N_ascii_embedding; [rewrite Z2N.id; lia|lia].
Qed.

Lemma is_digit_code (c : ascii) : is_digit c = true <-> 48 <= code c <= 57.
Proof. unfold is_digit, char_in. change (code "0") with 48. change (code "9") with 57. rewrite andb_true_iff. lia. Qed.

Lemma upper_code (c : ascii) : upper c = true <-> 65 <= code c <= 90.
Proof. unfold upper, char_in. change (code "A") with 65. change (code "Z") with 90. rewrite andb_true_iff. lia. Qed.

Lemma decimal_value_app (acc : Z) (s t : list ascii) :
  decimal_value acc (s ++ t) = decimal_value (decimal_value acc s) t.
Proof. revert acc. induction s as [|c s IH]; intros acc; simpl; [done|apply IH]. Qed.

Lemma decimal_value_acc (acc : Z) (s : list ascii) :
  decimal_value acc s = acc * 10 ^ Z.of_nat (length s) + decimal_value 0 s.
Proof.
  revert acc. induction s as [|c s IH]; intros acc; [simpl; lia|]. cbn [decimal_value length].
  rewrite IH, (IH (10 * 0 + digit c)), Nat2Z.inj_succ, Z.pow_succ_r by lia. lia.
Qed.

Lemma decimal_value_bound (s : list ascii) :
  forallb is_digit s = true -> 0 <= decimal_value 0 s < 10 ^ Z.of_nat (length s).
Proof.
  induction s as [|c s IH]; [simpl; lia|]. cbn [forallb]. intros [Hc%is_digit_code Hs]%andb_true_iff.
  cbn [decimal_value length]. rewrite decimal_value_acc, Nat2Z.inj_succ, Z.pow_succ_r by lia. specialize (IH Hs).
  unfold digit. nia.
Qed.

Lemma digit_char_of (n : Z) : is_digit (char_of (48 + n mod 10)) = true /\ digit (char_of (48 + n mod 10)) = n mod 10.
Proof.
  pose proof (Z.mod_pos_bound n 10). assert (E : code (char_of (48 + n mod 10)) = 48 + n mod 10) by (apply code_char_of; lia).
  split; [apply is_digit_code; lia|unfold digit; lia].
Qed.

(** The digits that are printed, and how many they are. *)
Lemma digits_aux_spec (fuel : nat) (n : Z) (acc : list ascii) :
  (0 < fuel)%nat -> 0 <= n < 10 ^ Z.of_nat fuel ->
  exists s, digits_aux fuel n acc = s ++ acc /\ forallb is_digit s = true /\ decimal_value 0 s = n /\ s <> [] /\
    (forall k, 10 ^ Z.of_nat k <= n < 10 ^ Z.of_nat (S k) -> length s = S k).
Proof.
  revert n acc. induction fuel as [|fuel IH]; intros n acc Hf Hn; [lia|]. cbn [digits_aux].
  destruct (digit_char_of n) as [Hd Hv]. set (c := char_of (48 + n mod 10)) in *.
  destruct (Z.ltb_spec n 10) as [Hlt|Hge].
  - exists [c]. simpl. rewrite Hd, Hv. split_and!; try done; [apply Z.mod_small; lia|].
    intros k [Hk _]. destruct k as [|k]; [done|]. rewrite Nat2Z.inj_succ, Z.pow_succ_r in Hk by lia.
    pose proof (Z.pow_pos_nonneg 10 (Z.of_nat k)). lia.
  - rewrite Nat2Z.inj_succ, Z.pow_succ_r in Hn by lia.
    assert (Hfuel : (0 < fuel)%nat) by (destruct fuel; [simpl in Hn; lia|lia]).
    destruct (IH (n / 10) (c :: acc) Hfuel) as (s & Es & Hds & Hval & Hne & Hlen);
      [split; [apply Z.div_pos|apply Z.div_lt_upper_bound]; lia|].
    exists (s ++ [c]). rewrite Es, <- app_assoc, forallb_app, Hds, decimal_value_app, Hval. simpl. rewrite Hd, Hv.
    split_and!; try done; [pose proof (Z.div_mod n 10); lia|by destruct s|]. intros k [Hk1 Hk2]. rewrite length_app. simpl. destruct k as [|k]; [simpl in Hk2; lia|].
    rewrite (Hlen k); [lia|]. rewrite Nat2Z.inj_succ, Z.pow_succ_r in Hk1, Hk2 by lia.
    split; [apply Z.div_le_lower_bound|apply Z.div_lt_upper_bound]; lia.
Qed.

Lemma to_decimal_spec (n : Z) :
  0 <= n < 2 ^ 63 ->
  forallb is_digit (to_decimal n) = true /\ decimal_value 0 (to_decimal n) = n /\ to_decimal n <> [] /\
  (forall k, 10 ^ Z.of_nat k <= n < 10 ^ Z.of_nat (S k) -> length (to_decimal n) = S k).
Proof.
  intros Hn. unfold to_decimal. rewrite (proj2 (Z.ltb_ge n 0)) by lia.
  destruct (digits_aux_spec 20 n []) as (s & -> & Hs); [lia|simpl; lia|]. by rewrite app_nil_r.
Qed.

(** The digits after the point: the leading one is dropped. *)
Lemma fraction_digits (k : nat) (f : Z) :
  (k <= 18)%nat -> 0 <= f < 10 ^ Z.of_nat k ->
  let s := drop 1 (to_decimal (10 ^ Z.of_nat k + f)) in
  forallb is_digit s = true /\ decimal_value 0 s = f /\ length s = k.
Proof.
  intros Hk Hf. assert (Hp : 10 ^ Z.of_nat k <= 10 ^ 18) by (apply Z.pow_le_mono_r; lia).
  destruct (to_decimal_spec (10 ^ Z.of_nat k + f)) as (Hd & Hv & _ & Hl); [lia|].
  specialize (Hl k). rewrite Nat2Z.inj_succ, Z.pow_succ_r in Hl by lia.
  specialize (Hl ltac:(pose proof (Z.pow_pos_nonneg 10 (Z.of_nat k)); lia)).
  destruct (to_decimal _) as [|c s]; [done|]. simpl in *. apply andb_true_iff in Hd as [Hc Hs].
  injection Hl as Hl. split_and!; try done. rewrite decimal_value_acc, Hl in Hv.
  pose proof (decimal_value_bound s Hs) as Hb. rewrite Hl in Hb. apply is_digit_code in Hc.
  unfold digit in Hv. generalize dependent (10 ^ Z.of_nat k). intros P Hf Hp Hv Hb. rewrite drop_0.
  destruct (Z.lt_trichotomy (code c) 49) as [?|[E|?]]; [|rewrite E in Hv; lia|].
  - replace (code c) with 48 in Hv by lia. lia.
  - assert (2 * P <= (code c - 48) * P) by (apply Z.mul_le_mono_nonneg_r; lia). lia.
Qed.

(** ** Finding and trimming *)
Lemma find_char_app (c : ascii) (s t : list ascii) :
  c ∉ s -> find_char c (s ++ c :: t) = Some (length s).
Proof.
  induction s as [|x s IH]; simpl; intros Hn; [by rewrite bool_decide_eq_true_2|].
  apply not_elem_of_cons in Hn as [Hne Hn]. rewrite bool_decide_eq_false_2 by done. by rewrite IH.
Qed.

Lemma drop_after (c : ascii) (s t : list ascii) : drop (S (length s)) (s ++ c :: t) = t.
Proof. by induction s. Qed.

Lemma find_char_None (c : ascii) (s : list ascii) : c ∉ s -> find_char c s = None.
Proof.
  induction s as [|x s IH]; simpl; intros Hn; [done|]. apply not_elem_of_cons in Hn as [Hne Hn].
  rewrite bool_decide_eq_false_2 by done. by rewrite IH.
Qed.

Lemma not_in_forallb (f : ascii -> bool) (c : ascii) (s : list ascii) :
  forallb f s = true -> f c = false -> c ∉ s.
Proof. rewrite forallb_forall. intros Hs Hc Hin. apply list_elem_of_In in Hin. by rewrite Hs in Hc. Qed.

Lemma trim_id (x y : ascii) (s t : list ascii) :
  is_space x = false -> is_space y = false -> x :: s = t ++ [y] -> trim (x :: s) = x :: s.
Proof.
  intros Hx Hy E. unfold trim. simpl. rewrite Hx, E. rewrite rev_app_distr. simpl. rewrite Hy. simpl.
  by rewrite rev_involutive.
Qed.

Lemma trim_single (s : list ascii) : forallb (fun c => negb (is_space c)) s = true -> trim s = s.
Proof.
  intros Hs. destruct s as [|x s]; [done|]. destruct (exists_last (l := x :: s)) as (t & y & E); [done|].
  assert (Hx : is_space x = false /\ is_space y = false).
  { rewrite forallb_forall in Hs. split; apply negb_true_iff, Hs; [by left|]. rewrite E. apply in_or_app. right. by left. }
  destruct Hx. by eapply trim_id.
Qed.

Lemma digit_not_space (c : ascii) : is_digit c = true -> is_space c = false.
Proof. rewrite is_digit_code. intros Hc. unfold is_space. destruct (_ || _) eqn:E; [|done]. breflect. lia. Qed.

Lemma upper_not_space (c : ascii) : upper c = true -> is_space c = false.
Proof. rewrite upper_code. intros Hc. unfold is_space. destruct (_ || _) eqn:E; [|done]. breflect. lia. Qed.

(** ** Symbols *)
Fixpoint pack_name (s : list ascii) : Z :=
  match s with [] => 0 | c :: s => code c + 256 * pack_name s end.

Lemma pack_name_chars (fuel : nat) (v : Z) :
  0 <= v < 2 ^ (8 * Z.of_nat fuel) -> pack_name (name_chars fuel v) = v.
Proof.
  revert v. induction fuel as [|fuel IH]; intros v Hv; [simpl in *; lia|]. cbn [name_chars].
  destruct (Z.ltb_spec 0 v); [|simpl; lia]. cbn [pack_name].
  change 255 with (Z.ones 8). rewrite Z.land_ones, Z.shiftr_div_pow2 by lia. change (2 ^ 8) with 256.
  rewrite code_char_of by (apply Z.mod_pos_bound; lia). rewrite IH; [pose proof (Z.div_mod v 256); lia|].
  replace (8 * Z.of_nat (S fuel)) with (8 + 8 * Z.of_nat fuel) in Hv by lia. rewrite Z.pow_add_r in Hv by lia.
  split; [apply Z.div_pos|apply Z.div_lt_upper_bound]; lia.
Qed.

Lemma length_name_chars (fuel n : nat) (v : Z) :
  v < 2 ^ (8 * Z.of_nat n) -> (length (name_chars fuel v) <= n)%nat.
Proof.
  revert n v. induction fuel as [|fuel IH]; intros n v Hv; [simpl; lia|]. cbn [name_chars].
  destruct (Z.ltb_spec 0 v); [|simpl; lia]. destruct n as [|n]; [simpl in Hv; lia|]. cbn [length]. apply le_n_S, IH.
  rewrite Z.shiftr_div_pow2 by lia. apply Z.div_lt_upper_bound; [lia|].
  rewrite <- Z.pow_add_r by lia. by replace (8 + 8 * Z.of_nat n) with (8 * Z.of_nat (S n)) by lia.
Qed.

Lemma lor_shifted (a b k : Z) : 0 <= k -> 0 <= a < 2 ^ k -> Z.lor a (Z.shiftl b k) = a + b * 2 ^ k.
Proof.
  intros Hk Ha. rewrite Z.shiftl_mul_pow2 by done. rewrite <- Z.add_lor_land, <- (Z.add_0_r (Z.lor _ _)). symmetry.
  rewrite (Z.land_comm a). replace (Z.land (b * 2 ^ k) a) with 0; [lia|].
  symmetry. apply Z.bits_inj'. intros n Hn. rewrite Z.land_spec, Z.bits_0.
  destruct (Z.lt_ge_cases n k).
  - by rewrite Z.mul_pow2_bits_low.
  - destruct (decide (a = 0)) as [->|]; [by rewrite Z.bits_0, andb_false_r|].
    rewrite (Z.bits_above_log2 a n), andb_false_r; [done|lia|]. apply Z.log2_lt_pow2; [lia|].
    apply Z.lt_le_trans with (2 ^ k); [lia|]. apply Z.pow_le_mono_r; lia.
Qed.

Lemma symbol_chars_spec (s : list ascii) (i acc : Z) :
  valid_name s = true -> 0 <= i -> i + Z.of_nat (length s) <= 7 -> 0 <= acc < 2 ^ (8 * (i + 1)) ->
  symbol_chars s i acc = Ok (acc + pack_name s * 2 ^ (8 * (i + 1))).
Proof.
  revert i acc. induction s as [|c s IH]; intros i acc Hv Hi Hl Ha; cbn [symbol_chars pack_name]; [f_equal; lia|].
  cbn [valid_name forallb] in Hv. apply andb_true_iff in Hv as [Hc Hv]. rewrite Hc. cbn [dcd_assert mbind result_bind].
  apply upper_code in Hc. cbn [length] in Hl. rewrite (proj2 (Z.leb_gt 64 (8 * (i + 1)))) by lia.
  assert (Hpow : 2 ^ (8 * (i + 1)) * 256 = 2 ^ (8 * (i + 1 + 1))).
  { change 256 with (2 ^ 8). rewrite <- Z.pow_add_r by lia. f_equal. lia. }
  assert (Hle : 2 ^ (8 * (i + 1 + 1)) <= 2 ^ 64) by (apply Z.pow_le_mono_r; lia).
  assert (Hpos : 0 < 2 ^ (8 * (i + 1))) by (apply Z.pow_pos_nonneg; lia).
  rewrite wrap_small by (rewrite Z.shiftl_mul_pow2 by lia; split; nia). rewrite lor_shifted by lia.
  rewrite IH; [|done|lia|lia|nia]. f_equal. rewrite <- Hpow. ring.
Qed.

Record symbol_ok (s : symbol) : Prop := {
  sok_range : 0 <= m_value s < 2 ^ 64;
  sok_valid : sym_valid s = true
}.

Lemma sym_name_length (s : symbol) : symbol_ok s -> (length (sym_name s) <= 7)%nat.
Proof.
  intros [Hr _]. apply length_name_chars. rewrite Z.shiftr_div_pow2 by lia.
  apply Z.div_lt_upper_bound; [lia|]. rewrite <- Z.pow_add_r by lia. simpl. lia.
Qed.

Lemma symbol_parts (s : symbol) :
  symbol_ok s -> m_value s = sym_decimals s + 256 * pack_name (sym_name s) /\ 0 <= sym_decimals s <= 18.
Proof.
  intros [Hr Hv]. unfold sym_valid in Hv. apply andb_true_iff in Hv as [Hd%Z.leb_le _]. unfold max_precision in Hd.
  unfold sym_decimals, sym_name in *. change 255 with (Z.ones 8) in *. rewrite Z.land_ones in * by lia.
  rewrite Z.shiftr_div_pow2 by lia. rewrite pack_name_chars.
  - change (2 ^ 8) with 256 in *. pose proof (Z.div_mod (m_value s) 256). pose proof (Z.mod_pos_bound (m_value s) 256). lia.
  - change (2 ^ 8) with 256. split; [apply Z.div_pos; lia|]. apply Z.div_lt_upper_bound; simpl; lia.
Qed.

Lemma string_to_symbol_spec (s : symbol) :
  symbol_ok s -> string_to_symbol (sym_decimals s) (sym_name s) = Ok (m_value s).
Proof.
  intros Hs. pose proof (sym_name_length s Hs) as Hl. destruct (symbol_parts s Hs) as [Hm Hd].
  destruct Hs as [Hr Hv]. unfold sym_valid in Hv. apply andb_true_iff in Hv as [_ Hn].
  unfold string_to_symbol. assert (Hc : c_str (sym_name s) = sym_name s).
  { clear -Hn. induction (sym_name s) as [|c l IH]; [done|]. cbn [valid_name forallb] in Hn.
    apply andb_true_iff in Hn as [Hc Hn]. cbn [c_str]. apply upper_code in Hc.
    rewrite (proj2 (Z.eqb_neq (code c) 0)) by lia. by rewrite IH. }
  rewrite Hc, symbol_chars_spec by (simpl; (done || lia)). cbn [mbind result_bind]. f_equal.
  rewrite Z.lor_comm. change (8 * (0 + 1)) with 8. rewrite Z.add_0_l, <- Z.shiftl_mul_pow2 by lia.
  rewrite lor_shifted by (simpl; lia). rewrite Hm. simpl. lia.
Qed.

Lemma p10_loop_spec (p : nat) (x : Z) : 0 <= x -> x * 10 ^ Z.of_nat p < 2 ^ 64 -> p10_loop p x = x * 10 ^ Z.of_nat p.
Proof.
  revert x. induction p as [|p IH]; intros x Hx Hb; cbn [p10_loop]; [simpl; lia|].
  rewrite Nat2Z.inj_succ, Z.pow_succ_r in * by lia. assert (0 < 10 ^ Z.of_nat p) by (apply Z.pow_pos_nonneg; lia).
  rewrite wrap_small by (split; nia). rewrite IH by nia. ring.
Qed.

Lemma sym_precision_spec (s : symbol) :
  symbol_ok s -> sym_precision s = Ok (10 ^ sym_decimals s) /\ 1 <= 10 ^ sym_decimals s <= 10 ^ 18.
Proof.
  intros Hs. destruct (symbol_parts s Hs) as [_ Hd].
  assert (Hb : 10 ^ sym_decimals s <= 10 ^ 18) by (apply Z.pow_le_mono_r; lia).
  pose proof (Z.pow_pos_nonneg 10 (sym_decimals s)). split; [|lia]. unfold sym_precision, max_precision.
  rewrite (proj2 (Z.leb_le _ 18)) by lia. cbn [dcd_assert mbind result_bind]. rewrite p10_loop_spec; rewrite ?Z2Nat.id by lia; [f_equal|..]; lia.
Qed.

(** ** The round trip *)
Lemma safe_mul_ok (a b : Z) : - 2 ^ 63 <= a * b < 2 ^ 63 -> - 2 ^ 63 < a -> safe_mul a b = Ok (a * b).
Proof.
  intros H Ha. unfold safe_mul. destruct (Z.ltb_spec 0 a), (Z.ltb_spec 0 b).
  - rewrite (proj2 (Z.ltb_ge _ a)); [done|]. rewrite Z.quot_div_nonneg by lia. apply Z.div_le_lower_bound; lia.
  - rewrite (proj2 (Z.ltb_ge b _)); [done|]. rewrite Z.quot_opp_l by lia. rewrite Z.quot_div_nonneg by lia.
    assert (- b <= 2 ^ 63 / a) by (apply Z.div_le_lower_bound; lia). lia.
  - rewrite (proj2 (Z.ltb_ge a _)); [done|]. rewrite Z.quot_opp_l by lia. rewrite Z.quot_div_nonneg by lia.
    assert (- a <= 2 ^ 63 / b) by (apply Z.div_le_lower_bound; lia). lia.
  - destruct (Z.eqb_spec a 0) as [->|Hne]; [done|]. simpl negb. rewrite andb_true_l.
    rewrite (proj2 (Z.ltb_ge b _)); [done|]. replace a with (- - a) by lia. rewrite Z.quot_opp_r by lia.
    rewrite Z.quot_div_nonneg by lia. assert (- b <= (2 ^ 63 - 1) / - a) by (apply Z.div_le_lower_bound; lia). lia.
Qed.

Lemma safe_add_ok (a b : Z) : - 2 ^ 63 <= a + b < 2 ^ 63 -> safe_add a b = Ok (a + b).
Proof.
  intros H. unfold safe_add. destruct (Z.ltb_spec 0 b); simpl.
  - rewrite (proj2 (Z.ltb_ge _ a)) by lia. by rewrite (proj2 (Z.ltb_ge b 0)) by lia.
  - destruct (Z.ltb_spec b 0); simpl; [|done]. by rewrite (proj2 (Z.ltb_ge a _)) by lia.
Qed.

Section roundtrip.
Context `{LexicalCastLaws}.

Lemma to_int64_signed (negative : bool) (s : list ascii) (n : Z) :
  s <> [] -> forallb is_digit s = true -> decimal_value 0 s = n -> 0 <= n < 2 ^ 63 ->
  to_int64 ((if negative then ["-"%char] else []) ++ s) = Ok (if negative then - n else n).
Proof.
  intros Hne Hd <- Hn. unfold to_int64. by rewrite (lexical_cast_decimal negative) by (destruct negative; (done || lia)).
Qed.

Lemma to_int64_digits (s : list ascii) (n : Z) :
  s <> [] -> forallb is_digit s = true -> decimal_value 0 s = n -> 0 <= n < 2 ^ 63 -> to_int64 s = Ok n.
Proof. apply (to_int64_signed false). Qed.

Lemma forallb_impl (f g : ascii -> bool) (s : list ascii) :
  (forall c, f c = true -> g c = true) -> forallb f s = true -> forallb g s = true.
Proof. rewrite !forallb_forall. auto. Qed.

Lemma digits_no_space (s : list ascii) : forallb is_digit s = true -> forallb (fun c => negb (is_space c)) s = true.
Proof. apply forallb_impl. intros c Hc. by rewrite digit_not_space. Qed.

Lemma upper_no_space (s : list ascii) : valid_name s = true -> forallb (fun c => negb (is_space c)) s = true.
Proof. apply forallb_impl. intros c Hc. by rewrite upper_not_space. Qed.

Lemma sym_from_string_spec (s : symbol) :
  symbol_ok s -> sym_from_string (to_decimal (sym_decimals s) ++ ","%char :: sym_name s) = Ok s.
Proof.
  intros Hs. destruct (symbol_parts s Hs) as [_ Hd]. pose proof Hs as [_ Hv]. unfold sym_valid in Hv.
  apply andb_true_iff in Hv as [Hdec Hn]. destruct (to_decimal_spec (sym_decimals s)) as (Hdig & Hval & Hne & _); [lia|].
  unfold sym_from_string. rewrite trim_single.
  2:{ rewrite forallb_app, digits_no_space by done. simpl. by apply upper_no_space. }
  rewrite bool_decide_eq_false_2 by (by destruct (to_decimal _)). cbn [negb dcd_assert mbind result_bind].
  rewrite find_char_app by (by eapply not_in_forallb). rewrite take_app_length.
  rewrite (to_int64_digits _ (sym_decimals s)) by (done || lia). cbn [mbind result_bind].
  rewrite wrap_small by (split; lia). rewrite Hdec. cbn [dcd_assert mbind result_bind].
  rewrite drop_after.
  rewrite string_to_symbol_spec by done. cbn [mbind result_bind]. unfold make_symbol.
  destruct s as [v]. simpl. change (mk_symbol v) with (mk_symbol v). by rewrite (sok_valid _ Hs).
Qed.

(** An amount as it is printed, before the space. *)
Definition printed (negative : bool) (whole fr : list ascii) : list ascii :=
  (if negative then ["-"%char] else []) ++ whole ++ match fr with [] => [] | _ => "."%char :: fr end.

Lemma printed_no_char (c : ascii) (negative : bool) (whole fr : list ascii) :
  forallb is_digit whole = true -> forallb is_digit fr = true -> is_digit c = false -> c <> "-"%char ->
  (c = "."%char -> fr = []) -> c ∉ printed negative whole fr.
Proof.
  intros Hw Hf Hc Hm Hdot. unfold printed. rewrite !not_elem_of_app. split_and!.
  - destruct negative; [|apply not_elem_of_nil]. by rewrite list_elem_of_singleton.
  - by eapply not_in_forallb.
  - destruct fr as [|x fr]; [apply not_elem_of_nil|]. apply not_elem_of_cons. split; [by intros ->; discriminate Hdot|].
    by eapply not_in_forallb.
Qed.

Lemma printed_head (negative : bool) (whole fr : list ascii) :
  whole <> [] -> forallb is_digit whole = true ->
  exists c l, printed negative whole fr = c :: l /\ is_space c = false /\ bool_decide (Some c = Some "-"%char) = negative.
Proof.
  intros Hne Hd. destruct whole as [|c l]; [done|]. apply andb_true_iff in Hd as [Hc _]. destruct negative; simpl.
  - by eexists _, _.
  - eexists _, _. split; [done|]. split; [by apply digit_not_space|]. apply bool_decide_eq_false_2.
    intros [= ->]. done.
Qed.

Lemma asset_from_printed (negative : bool) (whole fr : list ascii) (q f : Z) (s : symbol) :
  symbol_ok s -> sym_name s <> [] ->
  whole <> [] -> forallb is_digit whole = true -> decimal_value 0 whole = q ->
  forallb is_digit fr = true -> decimal_value 0 fr = f -> Z.of_nat (length fr) = sym_decimals s ->
  0 <= q -> 0 <= f -> q * 10 ^ sym_decimals s + f <= max_amount ->
  asset_from_string (printed negative whole fr ++ " "%char :: sym_name s) =
  Ok (mk_asset (if negative then - (q * 10 ^ sym_decimals s + f) else q * 10 ^ sym_decimals s + f) s).
Proof.
  intros Hs Hname Hw Hdw Hq Hdf Hf Hlen Hq0 Hf0 Hmax. destruct (sym_precision_spec s Hs) as [Hp Hpb].
  set (P := 10 ^ sym_decimals s) in *. unfold max_amount in Hmax.
  assert (Hqb : q <= 2 ^ 62 - 1) by nia. pose proof Hs as [_ Hv]. unfold sym_valid in Hv.
  apply andb_true_iff in Hv as [_ Hn]. destruct (printed_head negative whole fr Hw Hdw) as (c & l & Ec & Hc & Hneg).
  destruct (exists_last Hname) as (nm & y & En).
  assert (Htrim : trim (printed negative whole fr ++ " "%char :: sym_name s) = printed negative whole fr ++ " "%char :: sym_name s).
  { rewrite Ec. cbn [app]. apply (trim_id c y _ (c :: l ++ " "%char :: nm)); [done| |rewrite En; simpl; by rewrite <- app_assoc].
    apply upper_not_space. unfold valid_name in Hn. rewrite En, forallb_app in Hn. by apply andb_true_iff in Hn as [_ [? _]%andb_true_iff]. }
  unfold asset_from_string. cbv zeta. rewrite Htrim. rewrite find_char_app by (by apply printed_no_char).
  cbv beta iota zeta. rewrite take_app_length, drop_after.
  rewrite (trim_single (sym_name s)) by (by apply upper_no_space).
  assert (Hmake : make_asset (if negative then - (q * P + f) else q * P + f) s = Ok (mk_asset (if negative then - (q * P + f) else q * P + f) s)).
  { unfold make_asset, is_amount_within_range, max_amount. destruct Hs as [_ ->].
    rewrite (proj2 (Z.leb_le _ _)), (proj2 (Z.leb_le _ _)) by (destruct negative; lia). done. }
  destruct fr as [|d fr].
  - rewrite find_char_None by (by apply printed_no_char). cbv beta iota zeta. cbn [mbind result_bind]. simpl in Hf. subst f.
    replace ["0"%char] with (to_decimal (sym_decimals s)) by (by rewrite <- Hlen). rewrite sym_from_string_spec by done. cbn [mbind result_bind].
    unfold printed. rewrite app_nil_r, (to_int64_signed _ _ q) by (done || lia). cbn [mbind result_bind].
    rewrite Hp. cbn [mbind result_bind].
    rewrite safe_mul_ok by (destruct negative; nia). cbn [mbind result_bind]. rewrite safe_add_ok by (destruct negative; nia).
    cbn [mbind result_bind]. rewrite <- Hmake. f_equal. destruct negative; lia.
  - set (b := (if negative then ["-"%char] else []) ++ whole).
    assert (Eb : printed negative whole (d :: fr) = b ++ "."%char :: d :: fr) by (unfold printed, b; by rewrite <- app_assoc).
    assert (Hdot : "."%char ∉ b).
    { replace b with (printed negative whole []) by (unfold printed, b; by rewrite app_nil_r). by apply printed_no_char. }
    rewrite Eb, find_char_app by done. cbv beta iota zeta. rewrite (proj2 (Nat.eqb_neq _ _)) by (rewrite length_app; simpl; lia).
    cbn [negb dcd_assert mbind result_bind].
    replace (length (b ++ "."%char :: d :: fr) - length b - 1)%nat with (length (d :: fr)) by (rewrite length_app; simpl; lia).
    rewrite Hlen, sym_from_string_spec by done. cbn [mbind result_bind]. rewrite take_app_length.
    rewrite drop_after.
    assert (Hi : to_int64 b = Ok (if negative then - q else q)) by (apply to_int64_signed; (done || lia)).
    rewrite Hi. cbn [mbind result_bind].
    rewrite (to_int64_digits _ f) by (done || lia). cbn [mbind result_bind].
    assert (Hhead : head (b ++ "."%char :: d :: fr) = Some c) by (rewrite <- Eb, Ec; done).
    rewrite Hhead, Hneg.
    assert (Hsg : (if negative then safe_mul f (-1) else Ok f) = Ok (if negative then - f else f)).
    { destruct negative; [|done]. rewrite safe_mul_ok by lia. f_equal. lia. }
    rewrite Hsg. cbn [mbind result_bind]. rewrite Hp. cbn [mbind result_bind].
    rewrite safe_mul_ok by (destruct negative; nia). cbn [mbind result_bind]. rewrite safe_add_ok by (destruct negative; nia).
    cbn [mbind result_bind]. rewrite <- Hmake. f_equal. destruct negative; lia.
Qed.

(** C29. Reading what was printed gives the asset again, for every valid asset whose symbol has a name: amounts of
    both signs, amounts between -1 and 1 and fractions with leading zeros included. *)
Theorem asset_text_roundtrip (a : asset) :
  0 <= m_value (sym a) < 2 ^ 64 -> asset_is_valid a = true -> sym_name (sym a) <> [] ->
  exists s, asset_to_string a = Ok s /\ asset_from_string s = Ok a.
Proof.
  intros Hr Hv Hn. unfold asset_is_valid, is_amount_within_range in Hv. apply andb_true_iff in Hv as [Ha Hv]. breflect.
  unfold max_amount in *. assert (Hs : symbol_ok (sym a)) by done. destruct (sym_precision_spec _ Hs) as [Hp Hpb].
  destruct (symbol_parts _ Hs) as [_ Hd]. set (P := 10 ^ sym_decimals (sym a)) in *. set (n := Z.abs (amount a)).
  assert (Hn0 : 0 <= n <= 2 ^ 62 - 1) by lia.
  pose proof (Z.div_mod n P ltac:(lia)) as Hdm. pose proof (Z.mod_pos_bound n P ltac:(lia)) as Hmb.
  assert (Hq : 0 <= n / P) by (apply Z.div_pos; lia).
  destruct (to_decimal_spec (n / P)) as (Hwd & Hwv & Hwn & _); [split; [lia|]; apply Z.div_lt_upper_bound; nia|].
  set (fr := if sym_decimals (sym a) =? 0 then [] else drop 1 (to_decimal (P + n mod P))).
  assert (Hfr : forallb is_digit fr = true /\ decimal_value 0 fr = n mod P /\ Z.of_nat (length fr) = sym_decimals (sym a)).
  { unfold fr. destruct (Z.eqb_spec (sym_decimals (sym a)) 0) as [E0|E0].
    - unfold P in *. rewrite E0 in *. simpl. by rewrite Z.mod_1_r.
    - destruct (fraction_digits (Z.to_nat (sym_decimals (sym a))) (n mod P)) as (Hf1 & Hf2 & Hf3);
        [lia|rewrite Z2Nat.id by lia; exact Hmb|]. rewrite Z2Nat.id in * by lia. fold P in Hf1, Hf2, Hf3. split_and!; [done..|lia]. }
  exists (printed (amount a <? 0) (to_decimal (n / P)) fr ++ " "%char :: sym_name (sym a)). split.
  - unfold asset_to_string, signed64. rewrite (proj2 (Z.leb_le _ (Z.abs _))), (proj2 (Z.ltb_lt (Z.abs _) _)) by lia. cbn [andb mbind result_bind].
    rewrite Hp. cbn [mbind result_bind]. fold n. rewrite Z.quot_div_nonneg, Z.rem_mod_nonneg by lia. f_equal.
    unfold printed. rewrite <- !app_assoc. do 2 f_equal. unfold fr. destruct Hfr as (_ & _ & Hl). unfold fr in Hl.
    destruct (Z.eqb_spec (sym_decimals (sym a)) 0); [done|]. destruct (drop 1 _); [simpl in Hl; lia|done].
  - destruct Hfr as (Hf1 & Hf2 & Hf3). rewrite (asset_from_printed _ _ _ (n / P) (n mod P)) by (done || (unfold max_amount; fold P; lia)).
    fold P. f_equal. destruct a as [am sy]. simpl in *. f_equal. destruct (Z.ltb_spec am 0); lia.
Qed.
End roundtrip.

(** ** A reader of numbers *)
Definition read_digits (negative : bool) (s : list ascii) : option Z :=
  if bool_decide (s = []) then None
  else if forallb is_digit s then
    let n := if negative then - decimal_value 0 s else decimal_value 0 s in
    if (- 2 ^ 63 <=? n) && (n <? 2 ^ 63) then Some n else None
  else None.

Definition read_int64 (s : list ascii) : option Z :=
  match s with
  | "-"%char :: s => read_digits true s
  | "+"%char :: s => read_digits false s
  | _ => read_digits false s
  end.

#[local] Instance decimal_cast : LexicalCast := { lexical_cast_int64 := read_int64 }.

#[local] Instance decimal_cast_laws : LexicalCastLaws.
Proof.
  split. intros negative s Hne Hd n Hn.
  assert (Hr : read_digits negative s = Some n).
  { unfold read_digits. rewrite bool_decide_eq_false_2, Hd by done. fold n.
    rewrite (proj2 (Z.leb_le _ _)), (proj2 (Z.ltb_lt _ _)) by lia. done. }
  destruct negative; [exact Hr|]. cbn [lexical_cast_int64 decimal_cast app]. destruct s as [|c s]; [done|].
  assert (Hc : is_digit c = true) by (by apply andb_true_iff in Hd as [? _]).
  destruct c as [[] [] [] [] [] [] [] []]; (discriminate Hc || exact Hr).
Qed.

Definition chars (s : string) : list ascii := String.list_ascii_of_string s.

Lemma asset_text_roundtrip_witness :
  let a := mk_asset (-7) (mk_symbol 0x44434405) in
  asset_to_string a = Ok (chars "-0.00007 DCD") /\
  exists s, asset_to_string a = Ok s /\ asset_from_string s = Ok a.
Proof.
  intros a. split; [reflexivity|].
  apply (asset_text_roundtrip a); [simpl; lia|reflexivity|discriminate].
Defined.

(** ** What the reader accepts *)
Definition cur (decimals : Z) : symbol := mk_symbol (0x52554300 + decimals).

Lemma absent (c : ascii) (s : list ascii) : forallb (fun x => negb (Ascii.eqb x c)) s = true -> c ∉ s.
Proof. intros Hs. eapply not_in_forallb; [exact Hs|]. simpl. by rewrite Ascii.eqb_refl. Qed.

(** The steps of the readers. *)
Lemma sym_from_parts `{LexicalCast} (a nm : list ascii) (n : Z) :
  trim (a ++ ","%char :: nm) = a ++ ","%char :: nm -> ","%char ∉ a -> to_int64 a = Ok n ->
  sym_from_string (a ++ ","%char :: nm) =
  (_ ← dcd_assert (u8 n <=? max_precision) symbol_type_exception; v ← string_to_symbol (u8 n) nm; make_symbol v).
Proof.
  intros Ht Hc Hn. unfold sym_from_string. cbv zeta. rewrite Ht, bool_decide_eq_false_2 by (by destruct a).
  cbn [negb dcd_assert mbind result_bind]. rewrite find_char_app by done. cbv beta iota.
  rewrite take_app_length, drop_after, Hn. done.
Qed.

Lemma asset_from_parts `{LexicalCast} (from a b nm : list ascii) (sy : symbol) (i f : Z) :
  trim from = (a ++ "."%char :: b) ++ " "%char :: nm -> " "%char ∉ a ++ "."%char :: b -> "."%char ∉ a -> b <> [] ->
  head a <> None -> head a <> Some "-"%char -> trim nm = nm ->
  sym_from_string (to_decimal (Z.of_nat (length b)) ++ ","%char :: nm) = Ok sy ->
  to_int64 a = Ok i -> to_int64 b = Ok f ->
  asset_from_string from = (p ← sym_precision sy; n ← safe_mul i p; n ← safe_add n f; make_asset n sy).
Proof.
  intros Ht Hs Hd Hb Hn Hm Hnm Hsym Hi Hf. unfold asset_from_string. cbv zeta. rewrite Ht, find_char_app by done.
  cbv beta iota zeta. rewrite take_app_length, drop_after, Hnm, find_char_app by done. cbv beta iota.
  destruct b as [|c b]; [done|]. rewrite (proj2 (Nat.eqb_neq _ _)) by (rewrite length_app; simpl; lia).
  cbn [negb dcd_assert mbind result_bind].
  replace (length (a ++ "."%char :: c :: b) - length a - 1)%nat with (length (c :: b)) by (rewrite length_app; simpl; lia).
  rewrite Hsym. cbn [mbind result_bind]. rewrite take_app_length, drop_after, Hi, Hf. cbn [mbind result_bind].
  rewrite bool_decide_eq_false_2 by (by destruct a). done.
Qed.

(** The reader of assets accepts more than the writer prints, with a wrong value: a sign in the fraction is
    read, and the number of decimals is cut to 8 bits, so that 256 decimals count as none. An asset whose symbol
    has no name is valid but its text is refused, and a name of more than 7 characters shifts by the width of the
    number. *)
Theorem asset_reader_accepts `{LexicalCastLaws} :
  asset_from_string (chars "1.-5 CUR") = Ok (mk_asset 95 (cur 2)) /\
  asset_from_string (chars "1." ++ replicate 255 "0"%char ++ chars "5 CUR") = Ok (mk_asset 6 (cur 0)) /\
  (exists a s, asset_is_valid a = true /\ asset_to_string a = Ok s /\ asset_from_string s = Throw asset_type_exception) /\
  asset_from_string (chars "1 ABCDEFGH") = Throw undefined_behaviour.
Proof.
  pose proof (lexical_cast_decimal false ["1"%char]) as N1. pose proof (lexical_cast_decimal false ["2"%char]) as N2.
  pose proof (lexical_cast_decimal false ["0"%char]) as N0. pose proof (lexical_cast_decimal true ["5"%char]) as N5.
  pose proof (lexical_cast_decimal false (chars "256")) as N256.
  pose proof (lexical_cast_decimal false (replicate 255 "0"%char ++ ["5"%char])) as Hlong.
  specialize (N1 ltac:(done) ltac:(done)). specialize (N2 ltac:(done) ltac:(done)). specialize (N0 ltac:(done) ltac:(done)).
  specialize (N5 ltac:(done) ltac:(done)). specialize (N256 ltac:(done) ltac:(done)). specialize (Hlong ltac:(done) ltac:(done)).
  vm_compute in N0, N1, N2, N5, N256, Hlong.
  specialize (N1 ltac:(done)). specialize (N2 ltac:(done)). specialize (N0 ltac:(done)). specialize (N5 ltac:(done)).
  specialize (N256 ltac:(done)). specialize (Hlong ltac:(done)).
  assert (Hi : forall a n, lexical_cast_int64 a = Some n -> to_int64 a = Ok n) by (unfold to_int64; by intros a n ->).
  split_and!.
  - rewrite (asset_from_parts _ ["1"%char] (chars "-5") (chars "CUR") (cur 2) 1 (-5)); try done; try by apply Hi.
    all: try by apply absent.
    change (to_decimal _) with ["2"%char]. rewrite (sym_from_parts ["2"%char] (chars "CUR") 2); try done; [by apply absent|by apply Hi].
  - rewrite (asset_from_parts _ ["1"%char] (replicate 255 "0"%char ++ ["5"%char]) (chars "CUR") (cur 0) 1 5); try done; try by apply Hi.
    all: try by apply absent.
    change (to_decimal _) with (chars "256"). rewrite (sym_from_parts (chars "256") (chars "CUR") 256); try done; [by apply absent|by apply Hi].
  - exists (mk_asset 10 (mk_symbol 1)), (chars "1.0 "). by vm_compute.
  - unfold asset_from_string. cbv zeta. change (trim (chars "1 ABCDEFGH")) with (chars "1 ABCDEFGH").
    change (find_char " " (chars "1 ABCDEFGH")) with (Some 1%nat). cbv beta iota.
    change (find_char "." (take 1 (chars "1 ABCDEFGH"))) with (@None nat). cbv beta iota. cbn [mbind result_bind].
    change (trim (drop 2 (chars "1 ABCDEFGH"))) with (chars "ABCDEFGH").
    rewrite (sym_from_parts ["0"%char] (chars "ABCDEFGH") 0); try done; [by apply absent|by apply Hi].
Qed.

Lemma asset_reader_accepts_witness : asset_from_string (chars "1.-5 CUR") = Ok (mk_asset 95 (cur 2)).
Proof. exact (proj1 asset_reader_accepts). Defined.
