(* ===== verification/BlockTimestamp.v ===== *)
(** * Block timestamps

    Half-second slots counted from the year 2000
    (libraries/chain/include/dcd/chain/block_timestamp.hpp). A timestamp is its
    [slot], an unsigned 32-bit number; a [fc::time_point] is its signed 64-bit
    number of microseconds since 1970 (libraries/fc/include/fc/time.hpp). *)

From S2P Require Import Prelude Types.

Definition maximum : Z := 65535.
Definition min : Z := 0.

Definition next (slot : Z) : result Z :=
  _ ← dcd_assert (1 <=? 4294967295 - slot) overflow_exception;
  Ok (u32 (slot + 1)).

(** [operator fc::time_point]: the sum with the unsigned epoch is unsigned. *)
Definition to_time_point (slot : Z) : Z :=
  let msec := i64 (slot * config.block_interval_ms) in
  let msec := i64 (u64 (u64 msec + config.block_timestamp_epoch)) in
  i64 (msec * 1000).

(** [set_time_point( const fc::time_point& )]: the difference with the
    unsigned epoch is unsigned; the quotient is truncated to 32 bits. *)
Definition set_time_point (t : Z) : Z :=
  let msec_since_epoch := Z.quot t 1000 in
  u32 (u64 (u64 msec_since_epoch - config.block_timestamp_epoch) / config.block_interval_ms).

(** [set_time_point( const fc::time_point_sec& )] *)
Definition set_time_point_sec (sec_since_epoch : Z) : Z :=
  u32 (u64 (u64 (sec_since_epoch * 1000) - config.block_timestamp_epoch) /
       config.block_interval_ms).

(** ** Lemmas *)
Definition epoch_us : Z := config.block_timestamp_epoch * 1000.
Definition interval_us : Z := config.block_interval_ms * 1000.

Lemma to_time_point_value (slot : Z) :
  fits 32 slot -> to_time_point slot = epoch_us + slot * interval_us.
Proof.
  intros [H0 H1]. unfold to_time_point, epoch_us, interval_us.
  unfold config.block_interval_ms, config.block_timestamp_epoch.
  rewrite (swrap_small 64 (slot * 500)) by (unfold sfits; lia).
  rewrite (wrap_small 64 (slot * 500)) by (unfold fits; lia).
  rewrite (wrap_small 64 (slot * 500 + _)) by (unfold fits; lia).
  rewrite (swrap_small 64 (slot * 500 + 946684800000)) by (unfold sfits; lia).
  rewrite swrap_small by (unfold sfits; lia). lia.
Qed.

Lemma set_time_point_value (t : Z) :
  epoch_us <= t < epoch_us + 2 ^ 32 * interval_us ->
  set_time_point t = (t - epoch_us) / interval_us /\ fits 32 (set_time_point t).
Proof.
  unfold epoch_us, interval_us, set_time_point.
  unfold config.block_interval_ms, config.block_timestamp_epoch. intros Ht.
  rewrite Z.quot_div_nonneg by lia.
    rewrite (wrap_small 64 (t / 1000)) by (unfold fits; dlia).
  rewrite (wrap_small 64 (t / 1000 - _)) by (unfold fits; dlia).
  rewrite (wrap_small 32) by (unfold fits; dlia). unfold fits. dlia.
Qed.

(** ** Properties *)

(** Conversion from a point in time to a slot rounds down to the start of
    the half-second interval that contains the point, over the whole range of
    32-bit slots, and converting a slot to its point in time and back is the
    identity. *)
Theorem block_timestamp_floor (t slot : Z) :
  epoch_us <= t < epoch_us + 2 ^ 32 * interval_us -> fits 32 slot ->
  to_time_point (set_time_point t) <= t < to_time_point (set_time_point t) + interval_us /\
  set_time_point (to_time_point slot) = slot.
Proof.
  intros Ht Hs. destruct (set_time_point_value t Ht) as [Hv Hf].
  rewrite to_time_point_value, to_time_point_value by done.
  destruct (set_time_point_value (epoch_us + slot * interval_us)) as [Hv' _].
  - unfold interval_us, config.block_interval_ms in *. destruct Hs. lia.
  - rewrite Hv, Hv'. unfold interval_us, config.block_interval_ms in *. dlia.
Qed.

Lemma block_timestamp_floor_witness :
  to_time_point (set_time_point 1600000000123456) <= 1600000000123456 <
  to_time_point (set_time_point 1600000000123456) + interval_us /\
  set_time_point (to_time_point 1306630400) = 1306630400.
Proof.
  apply (block_timestamp_floor 1600000000123456 1306630400); split; vm_compute; congruence.
Defined.
