(* ===== verification/Merkle.v ===== *)
(** * Merkle roots

    The Merkle root of a sequence of digests (libraries/chain/merkle.cpp and
    its header) and the incremental tree that maintains it under appends
    (libraries/chain/include/dcd/chain/incremental_merkle.hpp). SHA-256 is a
    parameter of the model: [hash] is [digest_type::hash] of a pair. *)

From S2P Require Import Prelude Types.

(** ** Depth of the tree: bit tricks on 64-bit words *)
Definition next_power_of_2 (value : Z) : Z :=
  let value := u64 (value - 1) in
  let value := Z.lor value (Z.shiftr value 1) in
  let value := Z.lor value (Z.shiftr value 2) in
  let value := Z.lor value (Z.shiftr value 4) in
  let value := Z.lor value (Z.shiftr value 8) in
  let value := Z.lor value (Z.shiftr value 16) in
  let value := Z.lor value (Z.shiftr value 32) in
  u64 (value + 1).

Definition clz_power_2 (value : Z) : Z :=
  let sub mask k lz := if Z.land value mask =? 0 then lz else lz - k in
  let lz := 64 in
  let lz := if value =? 0 then lz else lz - 1 in
  let lz := sub 0x00000000FFFFFFFF 32 lz in
  let lz := sub 0x0000FFFF0000FFFF 16 lz in
  let lz := sub 0x00FF00FF00FF00FF 8 lz in
  let lz := sub 0x0F0F0F0F0F0F0F0F 4 lz in
  let lz := sub 0x3333333333333333 2 lz in
  sub 0x5555555555555555 1 lz.

Definition calcluate_max_depth (node_count : Z) : Z :=
  if node_count =? 0 then 0
  else clz_power_2 (next_power_of_2 node_count) + 1.

(** *** The bit tricks compute the binary logarithm *)
Definition smeared (m w x : Z) : Prop :=
  forall j, 0 <= j -> Z.testbit x j = true <-> exists i, j <= i < j + w /\ Z.testbit m i = true.

Lemma smeared_step (m w w' x : Z) :
  0 <= w -> w' = 2 * w -> smeared m w x -> smeared m w' (Z.lor x (Z.shiftr x w)).
Proof.
  intros Hw -> Hx j Hj. rewrite Z.lor_spec, Z.shiftr_spec, orb_true_iff by done.
  rewrite (Hx j), (Hx (j + w)) by lia. split.
  - intros [(i & Hi & Hb)|(i & Hi & Hb)]; exists i; (split; [lia | done]).
  - intros (i & Hi & Hb). destruct (Z.lt_ge_cases i (j + w)); [left | right];
      exists i; (split; [lia | done]).
Qed.

Lemma smeared_full (m x : Z) : 0 < m < 2 ^ 64 -> smeared m 64 x -> 0 <= x -> x = 2 ^ (Z.log2 m + 1) - 1.
Proof.
  intros Hm Hx H0. pose proof (Z.log2_nonneg m).
  assert (Hl : Z.log2 m < 64) by (apply Z.log2_lt_pow2; lia).
  replace (2 ^ (Z.log2 m + 1) - 1) with (Z.ones (Z.log2 m + 1)) by (rewrite Z.ones_equiv; lia).
  apply Z.bits_inj'. intros j Hj. rewrite Z.testbit_ones_nonneg by lia.
  apply eq_bool_prop_intro. rewrite !Is_true_true, (Hx j Hj), Z.ltb_lt. split.
  - intros (i & Hi & Hb). destruct (Z.le_gt_cases i (Z.log2 m)); [lia|].
    rewrite Z.bits_above_log2 in Hb by lia. discriminate.
  - intros Hjl. exists (Z.log2 m). split; [lia | apply Z.bit_log2; lia].
Qed.

Lemma next_power_of_2_ok (v : Z) : 1 <= v <= 2 ^ 63 -> next_power_of_2 v = 2 ^ Z.log2_up v.
Proof.
  intros Hv. destruct (Z.eq_dec v 1) as [->|Hv1]; [done|]. unfold next_power_of_2.
  rewrite (wrap_small 64 (v - 1)) by (unfold fits; lia).
  set (m := v - 1). assert (H1 : smeared m 1 m).
  { intros j Hj. split; [intros Hb; exists j; split; [lia | done]|].
    intros (i & Hi & Hb). by replace j with i by lia. }
  apply (smeared_step _ 1 2) in H1; [|lia..]. apply (smeared_step _ 2 4) in H1; [|lia..].
  apply (smeared_step _ 4 8) in H1; [|lia..]. apply (smeared_step _ 8 16) in H1; [|lia..].
  apply (smeared_step _ 16 32) in H1; [|lia..]. apply (smeared_step _ 32 64) in H1; [|lia..].
  apply smeared_full in H1; [|lia|].
  - cbv zeta. rewrite H1. rewrite Z.sub_add.
    rewrite Z.log2_up_eqn by lia. replace (Z.pred v) with m by lia.
    apply wrap_small. split; [lia|]. apply Z.pow_lt_mono_r; [lia..|].
    assert (Z.log2 m < 63) by (apply Z.log2_lt_pow2; lia). lia.
  - repeat (apply Z.lor_nonneg; split; [|apply Z.shiftr_nonneg]); lia.
Qed.

Lemma clz_power_2_ok (k : Z) : 0 <= k < 64 -> clz_power_2 (2 ^ k) = k.
Proof.
  intros Hk.
  assert (H : forallb (fun k => clz_power_2 (2 ^ Z.of_nat k) =? Z.of_nat k) (seq 0 64) = true)
    by (vm_compute; reflexivity).
  rewrite forallb_forall in H. specialize (H (Z.to_nat k)).
  rewrite Z2Nat.id, Z.eqb_eq in H by lia. apply H, in_seq. lia.
Qed.

Lemma calcluate_max_depth_ok (n : Z) :
  1 <= n <= 2 ^ 63 -> calcluate_max_depth n = Z.log2_up n + 1.
Proof.
  intros Hn. unfold calcluate_max_depth. destruct (Z.eqb_spec n 0); [lia|].
  rewrite next_power_of_2_ok, clz_power_2_ok; [done| |lia].
  split; [apply Z.log2_up_nonneg|].
  assert (Z.log2_up n <= Z.log2_up (2 ^ 63)) by (apply Z.log2_up_le_mono; lia).
  rewrite Z.log2_up_pow2 in H by lia. lia.
Qed.

(** ** Canonical pairs *)
Definition make_canonical_left (val : digest) : digest :=
  mk_digest (Z.land (hash0 val) 0xFFFFFFFFFFFFFF7F) (hash1 val) (hash2 val) (hash3 val).
Definition make_canonical_right (val : digest) : digest :=
  mk_digest (Z.lor (hash0 val) 0x80) (hash1 val) (hash2 val) (hash3 val).
Definition is_canonical_left (val : digest) : bool := Z.land (hash0 val) 0x80 =? 0.
Definition is_canonical_right (val : digest) : bool := negb (Z.land (hash0 val) 0x80 =? 0).
Definition make_canonical_pair (l r : digest) : digest * digest :=
  (make_canonical_left l, make_canonical_right r).

(** [incremental_merkle_impl]: the nodes the next append may need, lowest
    level first, then the current root. *)
Record incremental_merkle := mk_imerkle {
  _node_count : Z;
  _active_nodes : list digest
}.

Section merkle.
Context (hash : digest * digest -> digest).

Definition node (l r : digest) : digest := hash (make_canonical_pair l r).

(** The inner loop of [merkle] from index [i] on, in place: [ids[i]] is
    overwritten while [ids[2i]] and [ids[2i+1]] are read. *)
Fixpoint merkle_level (todo i : nat) (ids : list digest) : result (list digest) :=
  match todo with
  | O => Ok ids
  | S todo =>
      l ← vec_get ids (2 * i);
      r ← vec_get ids (2 * i + 1);
      merkle_level todo (S i) (<[i := node l r]> ids)
  end.

(** One iteration of [while( ids.size() > 1 )]. *)
Definition merkle_round (ids : list digest) : result (list digest) :=
  ids ← (if Nat.odd (length ids)
         then match last ids with
              | Some b => Ok (ids ++ [b])
              | None => Throw undefined_behaviour
              end
         else Ok ids);
  ids ← merkle_level (length ids / 2) 0 ids;
  Ok (take (length ids / 2) ids).

(** The loop, with the number of digests as fuel. *)
Fixpoint merkle_loop (fuel : nat) (ids : list digest) : result (list digest) :=
  if (length ids <=? 1)%nat then Ok ids
  else match fuel with
       | O => Throw undefined_behaviour
       | S fuel => ids ← merkle_round ids; merkle_loop fuel ids
       end.

Definition merkle (ids : list digest) : result digest :=
  if (length ids =? 0)%nat then Ok digest_zero
  else ids ← merkle_loop (length ids) ids; vec_get ids 0.

(** The loop of [append] over the levels of the tree. [active_iter] is what
    is left of the old active nodes. *)
Fixpoint append_loop (current_depth : nat) (index : Z) (top : digest) (partial : bool)
    (active_iter updated_active_nodes : list digest) : result (digest * list digest) :=
  match current_depth with
  | O => Ok (top, updated_active_nodes)
  | S current_depth =>
      if Z.land index 1 =? 0 then
        append_loop current_depth (Z.shiftr index 1) (node top top) true active_iter
          (if partial then updated_active_nodes else updated_active_nodes ++ [top])
      else
        match active_iter with
        | [] => Throw undefined_behaviour
        | left_value :: active_iter =>
            append_loop current_depth (Z.shiftr index 1) (node left_value top) partial active_iter
              (if partial then updated_active_nodes ++ [left_value] else updated_active_nodes)
        end
  end.

Definition append (m : incremental_merkle) (d : digest) : result incremental_merkle :=
  let max_depth := calcluate_max_depth (u64 (_node_count m + 1)) in
  '(top, updated) ← append_loop (Z.to_nat (max_depth - 1)) (_node_count m) d false
                      (_active_nodes m) [];
  Ok (mk_imerkle (u64 (_node_count m + 1)) (updated ++ [top])).

Definition imerkle_empty : incremental_merkle := mk_imerkle 0 [].

Definition get_root (m : incremental_merkle) : result digest :=
  if 0 <? _node_count m then
    match last (_active_nodes m) with
    | Some d => Ok d
    | None => Throw undefined_behaviour
    end
  else Ok digest_zero.

(** ** Reference: levels of the tree and their root *)
Fixpoint pair_up (l : list digest) : list digest :=
  match l with
  | a :: b :: l => node a b :: pair_up l
  | [a] => [node a a]
  | [] => []
  end.

(** The parents of the complete pairs of a level. *)
Fixpoint halve (l : list digest) : list digest :=
  match l with
  | a :: b :: l => node a b :: halve l
  | _ => []
  end.

Inductive root_of : list digest -> digest -> Prop :=
  | root_one x : root_of [x] x
  | root_step l r : (2 <= length l)%nat -> root_of (pair_up l) r -> root_of l r.

(** The complete subtrees a tree of [depth] levels over [l] waits for a
    sibling of, lowest level first. *)
Fixpoint fulls (depth : nat) (l : list digest) : list digest :=
  match depth with
  | O => []
  | S depth =>
      match last l with
      | Some x => if Nat.odd (length l) then [x] else []
      | None => []
      end ++ fulls depth (halve l)
  end.

(** *** Pairs *)
Lemma list_pair_ind {A} (P : list A -> Prop) :
  P [] -> (forall a, P [a]) -> (forall a b l, P l -> P (a :: b :: l)) -> forall l, P l.
Proof.
  intros H0 H1 H2. fix IH 1. intros [|a [|b l]]; [done | apply H1 | apply H2, IH].
Qed.

Lemma halve_length (l : list digest) : length (halve l) = (length l / 2)%nat.
Proof.
  induction l as [| |a b l IH] using list_pair_ind; [done..|]. cbn [halve length].
  rewrite IH. replace (S (S (length l))) with (length l + 1 * 2)%nat by lia.
  rewrite Nat.div_add by lia. lia.
Qed.

Lemma odd_SS (n : nat) : Nat.odd (S (S n)) = Nat.odd n.
Proof. by rewrite Nat.odd_succ, Nat.even_succ. Qed.

Lemma pair_up_snoc_even (l : list digest) (t : digest) :
  Nat.odd (length l) = false -> pair_up (l ++ [t]) = halve l ++ [node t t] /\ halve (l ++ [t]) = halve l.
Proof.
  induction l as [| |a b l IH] using list_pair_ind; [done..|]. cbn [length].
  rewrite odd_SS. intros H. destruct (IH H) as [IH1 IH2]. simpl. by rewrite IH1, IH2.
Qed.

Lemma pair_up_even (l : list digest) : Nat.odd (length l) = false -> pair_up l = halve l.
Proof.
  induction l as [| |a b l IH] using list_pair_ind; [done..|]. cbn [length].
  rewrite odd_SS. intros H. simpl. by rewrite IH.
Qed.

Lemma odd_snoc (l : list digest) (x : digest) :
  Nat.odd (length (l ++ [x])) = negb (Nat.odd (length l)).
Proof. by rewrite length_app, Nat.add_1_r, Nat.odd_succ, <- Nat.negb_odd. Qed.

Lemma odd_split (l : list digest) :
  Nat.odd (length l) = true -> exists g x, l = g ++ [x] /\ Nat.odd (length g) = false.
Proof.
  intros H. destruct (exists_last (l := l)) as (g & x & ->); [by destruct l|].
  exists g, x. split; [done|]. rewrite odd_snoc in H. by apply negb_true_iff.
Qed.

Lemma pair_up_snoc_odd (g : list digest) (x t : digest) :
  Nat.odd (length g) = false ->
  pair_up ((g ++ [x]) ++ [t]) = halve g ++ [node x t] /\
  halve ((g ++ [x]) ++ [t]) = halve g ++ [node x t] /\ halve (g ++ [x]) = halve g.
Proof.
  induction g as [| |a b g IH] using list_pair_ind; [done..|]. cbn [length].
  rewrite odd_SS. intros H. destruct (IH H) as (IH1 & IH2 & IH3). simpl. by rewrite IH1, IH2, IH3.
Qed.

Lemma root_of_snoc_even (l : list digest) (t r : digest) :
  Nat.odd (length l) = false -> (1 <= length l)%nat ->
  root_of (halve l ++ [node t t]) r -> root_of (l ++ [t]) r.
Proof.
  intros Ho Hl Hr. apply root_step; [rewrite length_app; simpl; lia|].
  by rewrite (proj1 (pair_up_snoc_even l t Ho)).
Qed.

Lemma root_of_snoc_odd (g : list digest) (x t r : digest) :
  Nat.odd (length g) = false ->
  root_of (halve g ++ [node x t]) r -> root_of ((g ++ [x]) ++ [t]) r.
Proof.
  intros Ho Hr. apply root_step; [rewrite !length_app; simpl; lia|].
  by rewrite (proj1 (pair_up_snoc_odd g x t Ho)).
Qed.

Lemma root_of_functional (l : list digest) (r r' : digest) :
  root_of l r -> root_of l r' -> r = r'.
Proof.
  intros H. revert r'. induction H as [x|l r Hl H IH]; intros r' H'; inversion H'; subst; auto.
  - simpl in *. lia.
  - simpl in *. lia.
Qed.
(** *** The batch computation *)
Lemma halve_lookup (l : list digest) (i : nat) (a b : digest) :
  l !! (2 * i)%nat = Some a -> l !! (2 * i + 1)%nat = Some b -> halve l !! i = Some (node a b).
Proof.
  revert i. induction l as [|x|x y l IH] using list_pair_ind; intros i Ha Hb; [done| |].
  - destruct i; [done|]. replace (2 * S i)%nat with (S (S (2 * i))) in Ha by lia. done.
  - destruct i as [|i]; [simpl in *; congruence|].
    replace (2 * S i)%nat with (S (S (2 * i))) in Ha, Hb by lia. simpl in *. by apply IH.
Qed.

Lemma merkle_level_ok (ids : list digest) (k todo i : nat) :
  length ids = (2 * k)%nat -> (i + todo = k)%nat ->
  merkle_level todo i (take i (halve ids) ++ drop i ids) = Ok (halve ids ++ drop k ids).
Proof.
  intros Hl. revert i. induction todo as [|todo IH]; intros i Hi; cbn [merkle_level].
  { rewrite take_ge; [by replace i with k by lia|].
    rewrite halve_length, Hl, Nat.mul_comm, Nat.div_mul by lia. lia. }
  assert (Hlen : length (take i (halve ids)) = i).
  { apply length_take_le. rewrite halve_length, Hl, Nat.mul_comm, Nat.div_mul by lia. lia. }
  destruct (lookup_lt_is_Some_2 ids (2 * i)) as [a Ha]; [lia|].
  destruct (lookup_lt_is_Some_2 ids (2 * i + 1)) as [b Hb]; [lia|].
  assert (H1 : forall j x, ids !! (2 * i + j)%nat = Some x ->
    vec_get (take i (halve ids) ++ drop i ids) (2 * i + j) = Ok x).
  { intros j x Hx. apply vec_get_ok. rewrite lookup_app_r by lia.
    rewrite Hlen, lookup_drop, <- Hx. f_equal. lia. }
  rewrite <- (Nat.add_0_r (2 * i)) in Ha. pose proof (H1 0%nat a Ha) as Hg.
  rewrite Nat.add_0_r in Ha, Hg. rewrite Hg. cbn [mbind result_bind].
  rewrite (H1 1%nat b Hb). cbn [mbind result_bind].
  rewrite <- (IH (S i)) by lia. f_equal. rewrite insert_app_r_alt by lia. rewrite Hlen, Nat.sub_diag.
  destruct (lookup_lt_is_Some_2 ids i) as [c Hc]; [lia|].
  rewrite (drop_S _ _ _ Hc), (take_S_r _ _ (node a b)) by by apply halve_lookup.
  simpl. by rewrite <- app_assoc.
Qed.

Lemma merkle_round_even (ids : list digest) :
  Nat.odd (length ids) = false ->
  (ids' ← merkle_level (length ids / 2) 0 ids; Ok (take (length ids' / 2) ids')) = Ok (pair_up ids).
Proof.
  intros Ho. assert (He : exists k, length ids = (2 * k)%nat)
    by (rewrite <- Nat.negb_even in Ho; apply negb_false_iff, Nat.even_spec in Ho; exact Ho).
  destruct He as [k Hk].
  assert (Hd : (length ids / 2 = k)%nat) by (rewrite Hk, Nat.mul_comm, Nat.div_mul; lia).
  pose proof (merkle_level_ok ids k k 0 Hk eq_refl) as Hm. rewrite take_0, drop_0 in Hm. simpl in Hm.
  rewrite Hd, Hm. cbn [mbind result_bind]. f_equal. rewrite pair_up_even by done.
  assert (length (halve ids) = k) by by rewrite halve_length.
  rewrite length_app, length_drop, take_app_length'; [done|].
  rewrite Hk. replace (length (halve ids) + (2 * k - k))%nat with (k * 2)%nat by lia.
  rewrite Nat.div_mul; lia.
Qed.

Lemma merkle_round_ok (ids : list digest) : merkle_round ids = Ok (pair_up ids).
Proof.
  unfold merkle_round. destruct (Nat.odd (length ids)) eqn:Ho.
  - destruct (odd_split ids Ho) as (g & x & -> & Hg). rewrite last_snoc. cbn [mbind result_bind].
    etransitivity; [apply merkle_round_even; rewrite odd_snoc, Ho; done|].
    f_equal. destruct (pair_up_snoc_odd g x x Hg) as [-> _].
    by destruct (pair_up_snoc_even g x Hg) as [-> _].
  - cbn [mbind result_bind]. by apply merkle_round_even.
Qed.

Lemma pair_up_length (l : list digest) : length (pair_up l) = Nat.div2 (S (length l)).
Proof. induction l as [| |a b l IH] using list_pair_ind; [done..|]. simpl in *. by rewrite IH. Qed.

Lemma merkle_loop_ok (fuel : nat) (ids : list digest) :
  (1 <= length ids <= S fuel)%nat ->
  exists r, merkle_loop fuel ids = Ok [r] /\ root_of ids r.
Proof.
  revert ids. induction fuel as [|fuel IH]; intros ids Hl; simpl;
    (destruct (Nat.leb_spec (length ids) 1);
     [destruct ids as [|r []]; simpl in *; [lia | exists r; split; [done | constructor] | lia]|]).
  - lia.
  - rewrite merkle_round_ok. simpl.
    destruct (IH (pair_up ids)) as (r & Hr & Hroot).
    { rewrite pair_up_length, Nat.div2_div.
      pose proof (Nat.div_mod_eq (S (length ids)) 2).
      pose proof (Nat.mod_upper_bound (S (length ids)) 2). lia. }
    exists r. split; [done|]. by apply root_step; [lia|].
Qed.

Lemma merkle_ok (ids : list digest) :
  ids <> [] -> exists r, merkle ids = Ok r /\ root_of ids r.
Proof.
  intros Hn. unfold merkle. destruct (merkle_loop_ok (length ids) ids) as (r & -> & Hr).
  { destruct ids; simpl; [done | lia]. }
  exists r. split; [|done]. by destruct ids.
Qed.

(** *** Appending *)

(** A level of [n] nodes has [d] levels above it. *)
Definition height (n d : nat) : Prop :=
  (n < 2 ^ d)%nat /\ (d = 0%nat \/ (2 ^ pred d <= n)%nat).

Lemma height_half (n d : nat) : height n (S d) -> height (n / 2) d.
Proof.
  intros [H1 H2]. rewrite Nat.pow_succ_r' in H1. simpl in H2.
  pose proof (Nat.div_mod_eq n 2). pose proof (Nat.mod_upper_bound n 2).
  split; [lia|]. destruct d as [|d]; [by left | right].
  rewrite Nat.pow_succ_r' in H2. simpl. lia.
Qed.

Lemma height_pos (n d : nat) : height n (S d) -> (1 <= n)%nat.
Proof. intros [_ [?|H]]; [lia|]. pose proof (Nat.pow_nonzero 2 d). simpl in H. lia. Qed.

Lemma index_odd (n : nat) : (Z.land (Z.of_nat n) 1 =? 0) = negb (Nat.odd n).
Proof.
  change 1 with (Z.ones 1). rewrite Z.land_ones by lia. simpl (2 ^ 1).
  destruct (Nat.odd n) eqn:E; simpl.
  - apply Nat.odd_spec in E as [k ->]. apply Z.eqb_neq. dlia.
  - rewrite <- Nat.negb_even in E. apply negb_false_iff, Nat.even_spec in E as [k ->].
    apply Z.eqb_eq. dlia.
Qed.

Lemma index_half (n : nat) : Z.shiftr (Z.of_nat n) 1 = Z.of_nat (n / 2).
Proof. rewrite Z.shiftr_div_pow2, Nat2Z.inj_div by lia. done. Qed.

Lemma fulls_even (d : nat) (l : list digest) :
  Nat.odd (length l) = false -> fulls (S d) l = fulls d (halve l).
Proof. intros H. simpl. by destruct (last l); rewrite ?H. Qed.

Lemma fulls_odd (d : nat) (g : list digest) (x : digest) :
  Nat.odd (length g) = false -> fulls (S d) (g ++ [x]) = x :: fulls d (halve g).
Proof.
  intros H. simpl. rewrite last_snoc, odd_snoc, H. simpl.
  by destruct (pair_up_snoc_even g x H) as [_ ->].
Qed.

(** What one append computes from a level [l] and its new last node [top]. *)
Lemma append_loop_ok (d : nat) (l : list digest) (top : digest) (partial : bool)
    (rest upd : list digest) :
  height (length l) d ->
  exists r, root_of (l ++ [top]) r /\
    append_loop d (Z.of_nat (length l)) top partial (fulls d l ++ rest) upd =
      Ok (r, upd ++ fulls d (if partial then l else l ++ [top])).
Proof.
  revert l top partial upd. induction d as [|d IH]; intros l top partial upd Hh.
  { destruct Hh as [Hh _]. destruct l; simpl in Hh; [|lia]. exists top.
    split; [constructor|]. simpl. by rewrite app_nil_r. }
  pose proof (height_pos _ _ Hh) as Hpos. apply height_half in Hh.
  cbn [append_loop]. rewrite index_odd, index_half. destruct (Nat.odd (length l)) eqn:Ho; simpl negb; cbv iota.
  - destruct (odd_split l Ho) as (g & x & -> & Hg). rewrite fulls_odd by done. cbn [app].
    destruct (pair_up_snoc_odd g x top Hg) as (_ & Hh2 & Hh1).
    rewrite <- halve_length, Hh1 in Hh |- *.
    destruct (IH (halve g) (node x top) partial (if partial then upd ++ [x] else upd) Hh)
      as (r & Hr & ->).
    exists r. split; [by apply root_of_snoc_odd|]. do 2 f_equal.
    destruct partial; [by rewrite fulls_odd, <- app_assoc by done|].
    f_equal. rewrite fulls_even, Hh2 by (rewrite odd_snoc, Ho; done). done.
  - rewrite fulls_even by done. rewrite <- halve_length in Hh |- *.
    destruct (IH (halve l) (node top top) true (if partial then upd else upd ++ [top]) Hh)
      as (r & Hr & ->).
    exists r. split; [by apply root_of_snoc_even|]. do 2 f_equal.
    destruct partial; [by rewrite fulls_even|]. by rewrite fulls_odd, <- app_assoc by done.
Qed.

Lemma fulls_pow2 (d : nat) (l : list digest) (r : digest) :
  length l = (2 ^ d)%nat -> root_of l r -> fulls (S d) l = [r] /\ fulls d l = [].
Proof.
  revert l. induction d as [|d IH]; intros l Hl Hr.
  - destruct l as [|x []]; simpl in Hl; try lia. split; [|done].
    inversion Hr; subst; [done | simpl in *; lia].
  - assert (Ho : Nat.odd (length l) = false).
    { rewrite Hl, Nat.pow_succ_r', <- Nat.negb_even, Nat.even_mul. done. }
    rewrite (fulls_even (S d) l), (fulls_even d l) by done. apply IH.
    + rewrite halve_length, Hl, Nat.pow_succ_r', Nat.mul_comm, Nat.div_mul; lia.
    + inversion Hr; subst; [simpl in *; pose proof (Nat.pow_nonzero 2 d); lia|].
      by rewrite <- pair_up_even.
Qed.

Definition imerkle_inv (l : list digest) (m : incremental_merkle) : Prop :=
  _node_count m = Z.of_nat (length l) /\
  (exists d rest, height (length l) d /\ _active_nodes m = fulls d l ++ rest) /\
  (l <> [] -> exists r, root_of l r /\ last (_active_nodes m) = Some r).

Lemma height_functional (n d d' : nat) : height n d -> height n d' -> d = d'.
Proof.
  intros [H1 H2] [H1' H2']. destruct (Nat.lt_trichotomy d d') as [H|[H|H]]; [|done|];
    [destruct H2' as [->|H2']; [lia|] | destruct H2 as [->|H2]; [lia|]];
    [pose proof (Nat.pow_le_mono_r 2 d (pred d')) | pose proof (Nat.pow_le_mono_r 2 d' (pred d))]; lia.
Qed.

Lemma height_log2_up (n : nat) : height n (Z.to_nat (Z.log2_up (Z.of_nat n + 1))).
Proof.
  pose proof (Z.log2_up_nonneg (Z.of_nat n + 1)).
  destruct n as [|n]; [split; [simpl; lia | by left]|].
  pose proof (Z.log2_up_spec (Z.of_nat (S n) + 1) ltac:(lia)) as [H1 H2].
  assert (0 < Z.log2_up (Z.of_nat (S n) + 1)) by (apply Z.log2_up_pos; lia).
  split; [|right].
  - apply Nat2Z.inj_lt. rewrite Nat2Z.inj_pow, Z2Nat.id by done. simpl (Z.of_nat 2). lia.
  - apply Nat2Z.inj_le. rewrite Nat2Z.inj_pow, Nat2Z.inj_pred, Z2Nat.id by lia.
    simpl (Z.of_nat 2). lia.
Qed.

Lemma append_inv (l : list digest) (m : incremental_merkle) (x : digest) :
  Z.of_nat (length l) < 2 ^ 63 -> imerkle_inv l m ->
  exists m', append m x = Ok m' /\ imerkle_inv (l ++ [x]) m'.
Proof.
  intros Hl (Hn & (d & rest & Hd & Ha) & _). unfold append. rewrite Hn, Ha.
  rewrite wrap_small by (unfold fits; lia). rewrite calcluate_max_depth_ok, Z.add_simpl_r by lia.
  rewrite (height_functional _ _ _ (height_log2_up (length l)) Hd).
  destruct (append_loop_ok d l x false rest [] Hd) as (r & Hr & ->). simpl.
  eexists. split; [reflexivity|]. split; [|split]; simpl.
  - rewrite length_app. simpl. lia.
  - destruct Hd as [Hd1 Hd2]. pose proof (Nat.pow_nonzero 2 d).
    assert (Hlen : length (l ++ [x]) = S (length l)) by (rewrite length_app; simpl; lia).
    destruct (decide (S (length l) = 2 ^ d)%nat) as [He|He].
    + destruct (fulls_pow2 d (l ++ [x]) r) as [Hf Hf0]; [lia|done|].
      exists (S d), []. rewrite Hf, Hf0, Hlen. split; [|done].
      split; [rewrite Nat.pow_succ_r'; lia | right; simpl; lia].
    + exists d, [r]. rewrite Hlen. split; [|done]. split; [lia|]. right.
      destruct Hd2 as [->|Hd2]; [simpl in *; lia | lia].
  - intros _. exists r. split; [done|]. apply last_snoc.
Qed.

Lemma append_all_inv (l ds : list digest) (m : incremental_merkle) :
  Z.of_nat (length (l ++ ds)) <= 2 ^ 63 -> imerkle_inv l m ->
  exists m', foldM append m ds = Ok m' /\ imerkle_inv (l ++ ds) m'.
Proof.
  revert l m. induction ds as [|x ds IH]; intros l m Hl Hm; simpl.
  { rewrite app_nil_r. eauto. }
  rewrite length_app in Hl. simpl in Hl.
  destruct (append_inv l m x) as (m' & -> & Hm'); [lia|done|]. simpl.
  destruct (IH (l ++ [x]) m') as (m'' & -> & Hm''); [|done|].
  - rewrite <- app_assoc, length_app. simpl. lia.
  - exists m''. by rewrite <- app_assoc in Hm''.
Qed.

Lemma imerkle_inv_empty : imerkle_inv [] imerkle_empty.
Proof.
  split; [done|]. split; [|done]. exists 0%nat, []. split; [split; [simpl; lia | by left] | done].
Qed.

Lemma imerkle_inv_root (ids : list digest) (m : incremental_merkle) :
  imerkle_inv ids m -> exists r, get_root m = Ok r /\ merkle ids = Ok r.
Proof.
  intros (Hn & _ & Hr). unfold get_root. rewrite Hn. destruct (decide (ids = [])) as [->|Hids].
  - by exists digest_zero.
  - destruct (Hr Hids) as (r & Hroot & Hlast). destruct (merkle_ok ids Hids) as (r' & Hm' & Hroot').
    exists r. rewrite Hlast, Hm', (root_of_functional _ _ _ Hroot Hroot').
    destruct (Z.ltb_spec 0 (Z.of_nat (length ids))); [done|]. destruct ids; simpl in *; [done | lia].
Qed.

(** ** Properties *)

(** C28. The incremental tree is equivalent to the batch computation: appending
    any sequence of at most 2^63 digests to the empty tree succeeds, never
    reads past its active nodes, and leaves the root that [merkle] computes
    from the whole sequence. *)
Theorem incremental_merkle_root (ids : list digest) :
  Z.of_nat (length ids) <= 2 ^ 63 ->
  exists m r, foldM append imerkle_empty ids = Ok m /\ get_root m = Ok r /\ merkle ids = Ok r.
Proof.
  intros Hl. destruct (append_all_inv [] ids imerkle_empty Hl imerkle_inv_empty) as (m & Hm & Hi).
  destruct (imerkle_inv_root _ _ Hi) as (r & Hr & Hr'). eauto.
Qed.
End merkle.

Lemma incremental_merkle_root_witness :
  let h p := mk_digest (hash0 (fst p) + 3 * hash0 (snd p)) 1 2 3 in
  let ids := map (fun i => mk_digest i 0 0 0) [5; 6; 7; 8; 9; 10; 11] in
  exists m r, foldM (append h) imerkle_empty ids = Ok m /\ get_root m = Ok r /\ merkle h ids = Ok r.
Proof.
  intros h ids. apply (incremental_merkle_root h ids). vm_compute. discriminate.
Defined.
