(* ===== verification/Authority.v ===== *)
(** * Authorities

    Public keys as the comparison operators see them, weighted authorities and
    their validation (libraries/chain/include/dcd/chain/authority.hpp), and the
    block signing authorities and producer schedules
    (libraries/chain/include/dcd/chain/producer_schedule.hpp). *)

From Stdlib Require Import Sorted.
From S2P Require Import Prelude Types.

(** ** Public keys: the index of the variant and the serialized key *)
Record public_key := mk_public_key { key_which : Z; key_data : list Z }.

#[global] Instance public_key_eq_dec : EqDecision public_key.
Proof. solve_decision. Defined.

#[global] Program Instance public_key_countable : Countable public_key :=
  inj_countable (fun k => (key_which k, key_data k))
    (fun '(w, d) => Some (mk_public_key w d)) _.
Next Obligation. by intros []. Qed.

(** Comparison of serialized data, byte by byte. *)
Fixpoint data_less (a b : list Z) : bool :=
  match a, b with
  | _, [] => false
  | [], _ :: _ => true
  | x :: a, y :: b => (x <? y) || ((x =? y) && data_less a b)
  end.

(** [less_comparator] on the variant. *)
Definition key_less (a b : public_key) : bool :=
  (key_which a <? key_which b) ||
  ((key_which a =? key_which b) && data_less (key_data a) (key_data b)).

(** ** Permission levels *)
Record permission_level := mk_level { actor : account_name; permission : permission_name }.

#[global] Instance permission_level_eq_dec : EqDecision permission_level.
Proof. solve_decision. Defined.

#[global] Program Instance permission_level_countable : Countable permission_level :=
  inj_countable (fun p => (actor p, permission p)) (fun '(a, p) => Some (mk_level a p)) _.
Next Obligation. by intros []. Qed.

(** [operator <]: lexicographic on the actor and the permission. *)
Definition level_less (a b : permission_level) : bool :=
  (actor a <? actor b) || ((actor a =? actor b) && (permission a <? permission b)).

(** [operator >=] *)
Definition level_geq (a b : permission_level) : bool := negb (level_less a b).

(** ** Weighted authorities *)
Record permission_level_weight := mk_plw { plw_permission : permission_level; plw_weight : Z }.
Record key_weight := mk_kw { kw_key : public_key; kw_weight : Z }.
Record wait_weight := mk_ww { ww_wait_sec : Z; ww_weight : Z }.

#[global] Instance key_weight_eq_dec : EqDecision key_weight.
Proof. solve_decision. Defined.

Record authority := mk_authority {
  threshold : Z;
  keys : list key_weight;
  accounts : list permission_level_weight;
  waits : list wait_weight
}.

#[global] Instance level_weight_eq_dec : EqDecision permission_level_weight.
Proof. solve_decision. Defined.
#[global] Instance wait_weight_eq_dec : EqDecision wait_weight.
Proof. solve_decision. Defined.
#[global] Instance authority_eq_dec : EqDecision authority.
Proof. solve_decision. Defined.

(** One of the three loops of [validate]: [out_of_order prev x] makes it return
    false, otherwise the weight is added to the 32-bit total. *)
Fixpoint tally {A} (out_of_order : A -> A -> bool) (weight : A -> Z) (prev : option A)
    (l : list A) (total_weight : Z) : option Z :=
  match l with
  | [] => Some total_weight
  | x :: l =>
      if match prev with Some p => out_of_order p x | None => false end then None
      else tally out_of_order weight (Some x) l (u32 (total_weight + weight x))
  end.

Definition validate (auth : authority) : bool :=
  if 65536 <? Z.of_nat (length (keys auth) + length (accounts auth) + length (waits auth)) then false
  else if threshold auth =? 0 then false
  else
    match tally (fun p k => negb (key_less (kw_key p) (kw_key k))) kw_weight None (keys auth) 0 with
    | None => false
    | Some total_weight =>
    match tally (fun p a => level_geq (plw_permission p) (plw_permission a)) plw_weight None
            (accounts auth) total_weight with
    | None => false
    | Some total_weight =>
        if match waits auth with w :: _ => ww_wait_sec w =? 0 | [] => false end then false
        else
          match tally (fun p w => ww_wait_sec w <=? ww_wait_sec p) ww_weight None
                  (waits auth) total_weight with
          | None => false
          | Some total_weight => threshold auth <=? total_weight
          end
    end
    end.

(** ** Block signing authorities and producer schedules *)
Record block_signing_authority_v0 := mk_bsa {
  bsa_threshold : Z;
  bsa_keys : list key_weight
}.

#[global] Instance bsa_eq_dec : EqDecision block_signing_authority_v0.
Proof. solve_decision. Defined.

Definition uint32_max : Z := 4294967295.

(** [keys_satisfy_and_relevant]: the loop over the authority's keys, with the
    saturating 32-bit total and the number of relevant keys. *)
Fixpoint keys_satisfy_loop (threshold : Z) (presented_keys : gset public_key)
    (keys : list key_weight) (num_relevant_keys : nat) (total_weight : Z) : Z * nat :=
  match keys with
  | [] => (total_weight, num_relevant_keys)
  | kw :: keys =>
      if bool_decide (kw_key kw ∈ presented_keys) then
        keys_satisfy_loop threshold presented_keys keys (S num_relevant_keys)
          (if total_weight <? threshold
           then u32 (total_weight + Z.min (uint32_max - total_weight) (kw_weight kw))
           else total_weight)
      else keys_satisfy_loop threshold presented_keys keys num_relevant_keys total_weight
  end.

Definition keys_satisfy_and_relevant (a : block_signing_authority_v0)
    (presented_keys : gset public_key) : bool * nat :=
  let '(total_weight, num) := keys_satisfy_loop (bsa_threshold a) presented_keys (bsa_keys a) 0 0 in
  (bsa_threshold a <=? total_weight, num).

Record producer_authority := mk_producer {
  producer_name : account_name;
  producer_auth : block_signing_authority_v0
}.

Record producer_authority_schedule := mk_schedule {
  sched_version : Z;
  producers : list producer_authority
}.

#[global] Instance producer_authority_eq_dec : EqDecision producer_authority.
Proof. solve_decision. Defined.
#[global] Instance schedule_eq_dec : EqDecision producer_authority_schedule.
Proof. solve_decision. Defined.

#[global] Program Instance key_weight_countable : Countable key_weight :=
  inj_countable (fun k => (kw_key k, kw_weight k)) (fun '(k, w) => Some (mk_kw k w)) _.
Next Obligation. by intros []. Qed.
#[global] Program Instance bsa_countable : Countable block_signing_authority_v0 :=
  inj_countable (fun a => (bsa_threshold a, bsa_keys a)) (fun '(t, k) => Some (mk_bsa t k)) _.
Next Obligation. by intros []. Qed.
#[global] Program Instance producer_authority_countable : Countable producer_authority :=
  inj_countable (fun p => (producer_name p, producer_auth p))
    (fun '(n, a) => Some (mk_producer n a)) _.
Next Obligation. by intros []. Qed.
#[global] Program Instance schedule_countable : Countable producer_authority_schedule :=
  inj_countable (fun s => (sched_version s, producers s)) (fun '(v, p) => Some (mk_schedule v p)) _.
Next Obligation. by intros []. Qed.

(** [producer_authority_schedule()] *)
Definition schedule_empty : producer_authority_schedule := mk_schedule 0 [].

(** [legacy::producer_key], [legacy::producer_schedule_type] *)
Record legacy_producer_key := mk_legacy_key {
  lpk_producer_name : account_name;
  lpk_block_signing_key : public_key
}.
Record legacy_schedule := mk_legacy_schedule {
  lps_version : Z;
  lps_producers : list legacy_producer_key
}.

(** [producer_authority_schedule( const legacy::producer_schedule_type& )] *)
Definition schedule_of_legacy (old : legacy_schedule) : producer_authority_schedule :=
  mk_schedule (lps_version old)
    (map (fun p => mk_producer (lpk_producer_name p)
                     (mk_bsa 1 [mk_kw (lpk_block_signing_key p) 1])) (lps_producers old)).

(** ** Lemmas *)
Definition weights_sum {A} (weight : A -> Z) (l : list A) : Z :=
  foldr (fun x s => weight x + s) 0 l.

Lemma weights_sum_bound {A} (weight : A -> Z) (l : list A) :
  Forall (fun x => fits 16 (weight x)) l ->
  0 <= weights_sum weight l <= 65535 * Z.of_nat (length l).
Proof. induction 1 as [|x l Hx Hl IH]; simpl; [lia|]. destruct Hx. lia. Qed.

Lemma tally_spec {A} (bad : A -> A -> bool) (weight : A -> Z) (prev : option A) (l : list A) (t : Z) :
  fits 32 (t + weights_sum weight l) -> Forall (fun x => fits 16 (weight x)) l -> 0 <= t ->
  forall t', tally bad weight prev l t = Some t' <->
    Sorted (fun p x => bad p x = false) (from_option (fun p => [p]) [] prev ++ l) /\
    t' = t + weights_sum weight l.
Proof.
  revert prev t. induction l as [|x l IH]; intros prev t Hfit HW Ht t'; simpl.
  - rewrite Z.add_0_r. destruct prev as [p|]; simpl;
      (split; [intros [= ->]; split; [repeat constructor | done] | by intros [_ ->]]).
  - inversion HW as [|? ? Hx HW']; subst. simpl in Hfit. destruct Hx as [Hx0 Hx1].
    pose proof (weights_sum_bound weight l HW').
    rewrite (wrap_small 32 (t + weight x)) by (destruct Hfit; split; lia).
    assert (IH' := IH (Some x) (t + weight x)).
    destruct prev as [p|]; simpl in *; [destruct (bad p x) eqn:Eb|].
    + split; [discriminate|]. intros [HS _]. inversion HS as [|? ? _ Hr]; subst.
      inversion Hr; congruence.
    + rewrite IH' by (try done; rewrite <- ?Z.add_assoc; (done || lia)). rewrite Z.add_assoc.
      split; intros [HS ->]; (split; [|done]).
      * constructor; [done|]. by constructor.
      * by inversion HS.
    + rewrite IH' by (try done; rewrite <- ?Z.add_assoc; (done || lia)). by rewrite Z.add_assoc.
Qed.

(** The orders are strict orders. *)
Lemma data_less_trans (a b c : list Z) :
  data_less a b = true -> data_less b c = true -> data_less a c = true.
Proof.
  revert b c. induction a as [|x a IH]; intros [|y b] [|z c]; simpl; try done.
  rewrite !orb_true_iff, !andb_true_iff, !Z.ltb_lt, !Z.eqb_eq.
  intros [?|[-> ?]] [?|[-> ?]]; try (left; lia). right; eauto.
Qed.

Lemma data_less_irrefl (a : list Z) : data_less a a = false.
Proof. induction a as [|x a IH]; simpl; [done|]. by rewrite Z.ltb_irrefl, Z.eqb_refl, IH. Qed.

Lemma data_less_asym (a b : list Z) : data_less a b = true -> data_less b a = false.
Proof.
  intros Hab. destruct (data_less b a) eqn:Hba; [|done].
  by rewrite <- (data_less_irrefl a), (data_less_trans a b a).
Qed.

(** On lists of one length the order is total. *)
Lemma data_less_negtrans (a b c : list Z) :
  length a = length b -> length b = length c ->
  data_less a b = false -> data_less b c = false -> data_less a c = false.
Proof.
  revert b c. induction a as [|x a IH]; intros [|y b] [|z c]; simpl; try done.
  intros [= Hab] [= Hbc].
  rewrite !orb_false_iff, !andb_false_iff, !Z.ltb_ge, !Z.eqb_neq.
  intros [? Hxy] [? Hyz]. split; [lia|].
  destruct (Z.eq_dec x z) as [->|]; [|by left]. right.
  apply (IH b); [done..| |]; [destruct Hxy | destruct Hyz]; done || lia.
Qed.

Lemma key_less_trans (a b c : public_key) :
  key_less a b = true -> key_less b c = true -> key_less a c = true.
Proof.
  unfold key_less. rewrite !orb_true_iff, !andb_true_iff, !Z.ltb_lt, !Z.eqb_eq.
  intros [?|[Hab ?]] [?|[Hbc ?]]; try (left; lia). right. split; [lia|].
  by eapply data_less_trans.
Qed.

Lemma key_less_irrefl (a : public_key) : key_less a a = false.
Proof. unfold key_less. by rewrite Z.ltb_irrefl, Z.eqb_refl, data_less_irrefl. Qed.

Lemma level_less_trans (a b c : permission_level) :
  level_less a b = true -> level_less b c = true -> level_less a c = true.
Proof.
  unfold level_less. rewrite !orb_true_iff, !andb_true_iff, !Z.ltb_lt, !Z.eqb_eq. lia.
Qed.

Lemma level_less_irrefl (a : permission_level) : level_less a a = false.
Proof. unfold level_less. by rewrite !Z.ltb_irrefl, Z.eqb_refl. Qed.

(** A strictly sorted vector names every element once. *)
Lemma strictly_sorted_NoDup {A B} (less : B -> B -> bool) (f : A -> B) (l : list A) :
  (forall b, less b b = false) ->
  StronglySorted (fun p x => less (f p) (f x) = true) l -> NoDup (map f l).
Proof.
  intros Hirr. induction 1 as [|x l _ IH Hx]; simpl; constructor; [|done].
  rewrite list_elem_of_fmap. intros (y & Hy & Hin).
  rewrite Forall_forall in Hx. specialize (Hx y Hin). rewrite Hy, Hirr in Hx. done.
Qed.

Lemma Sorted_strengthen {A} (P Q : A -> A -> Prop) (l : list A) :
  (forall x y, P x y <-> Q x y) -> (forall x y z, Q x y -> Q y z -> Q x z) ->
  Sorted P l <-> StronglySorted Q l.
Proof.
  intros HPQ HT. split.
  - intros HS. apply Sorted_StronglySorted; [intros x y z; apply HT|].
    induction HS as [|x l HS IH Hr]; constructor; [done|].
    destruct Hr; constructor. by apply HPQ.
  - intros HS%StronglySorted_Sorted. induction HS as [|x l HS IH Hr]; constructor; [done|].
    destruct Hr; constructor. by apply HPQ.
Qed.

(** The weights of an authority are 16-bit integers and its waits are unsigned. *)
Definition authority_typed (a : authority) : Prop :=
  Forall (fun k => fits 16 (kw_weight k)) (keys a) /\
  Forall (fun p => fits 16 (plw_weight p)) (accounts a) /\
  Forall (fun w => fits 16 (ww_weight w) /\ fits 32 (ww_wait_sec w)) (waits a).

Definition total_weight (a : authority) : Z :=
  weights_sum kw_weight (keys a) + weights_sum plw_weight (accounts a)
    + weights_sum ww_weight (waits a).

(** What a valid authority promises. *)
Record valid_authority (a : authority) : Prop := {
  va_entries : Z.of_nat (length (keys a) + length (accounts a) + length (waits a)) <= 65536;
  va_threshold : threshold a <> 0;
  va_keys : StronglySorted (fun p k => key_less (kw_key p) (kw_key k) = true) (keys a);
  va_accounts : StronglySorted
    (fun p b => level_less (plw_permission p) (plw_permission b) = true) (accounts a);
  va_waits : StronglySorted (fun p w => ww_wait_sec p < ww_wait_sec w) (waits a);
  va_waits_pos : Forall (fun w => 0 < ww_wait_sec w) (waits a);
  va_weight : threshold a <= total_weight a
}.

Lemma waits_positive (l : list wait_weight) :
  Forall (fun w => fits 16 (ww_weight w) /\ fits 32 (ww_wait_sec w)) l ->
  StronglySorted (fun p w => ww_wait_sec p < ww_wait_sec w) l ->
  match l with w :: _ => ww_wait_sec w =? 0 | [] => false end = false <->
  Forall (fun w => 0 < ww_wait_sec w) l.
Proof.
  intros HT HS. destruct HS as [|w l _ Hw]; [done|].
  inversion HT as [|? ? [_ [Hw0 _]] _]; subst. rewrite Z.eqb_neq. split.
  - intros Hne. constructor; [lia|]. eapply Forall_impl; [exact Hw|]. simpl. lia.
  - intros HF. inversion HF; subst. lia.
Qed.

(** A loop of [validate] either finds the vector strictly sorted and adds its
    exact weight, or returns false. *)
Lemma tally_cases {A} (bad : A -> A -> bool) (Q : A -> A -> Prop) (weight : A -> Z)
    (l : list A) (t : Z) :
  (forall x y, bad x y = false <-> Q x y) -> (forall x y z, Q x y -> Q y z -> Q x z) ->
  Forall (fun x => fits 16 (weight x)) l -> 0 <= t ->
  t + 65535 * Z.of_nat (length l) <= 4294967295 ->
  StronglySorted Q l /\ tally bad weight None l t = Some (t + weights_sum weight l) \/
  ~ StronglySorted Q l /\ tally bad weight None l t = None.
Proof.
  intros HQ HT HW Ht Hlen. pose proof (weights_sum_bound weight l HW).
  assert (Hf : fits 32 (t + weights_sum weight l)) by (split; lia).
  pose proof (tally_spec bad weight None l t Hf HW Ht) as HS. simpl app in HS.
  setoid_rewrite (Sorted_strengthen _ Q l HQ HT) in HS.
  destruct (tally bad weight None l t) as [t'|].
  - left. by destruct (HS t') as [[? ->] _].
  - right. split; [|done]. intros HQl. by discriminate (proj2 (HS _) (conj HQl eq_refl)).
Qed.

(** [validate] accepts exactly the authorities with at most 2^16 entries,
    a non-zero threshold that the exact (not the 32-bit) sum of all weights
    reaches, and strictly increasing keys, permission levels and positive
    waits: the 32-bit total cannot wrap around. *)
Theorem validate_spec (a : authority) :
  authority_typed a -> validate a = true <-> valid_authority a.
Proof.
  intros (HK & HA & HW). unfold validate.
  destruct (Z.ltb_spec 65536
    (Z.of_nat (length (keys a) + length (accounts a) + length (waits a)))) as [Hlen|Hlen].
  { split; [discriminate|]. intros []. lia. }
  destruct (Z.eqb_spec (threshold a) 0) as [Ht|Ht].
  { split; [discriminate|]. by intros []. }
  assert (HW' : Forall (fun w => fits 16 (ww_weight w)) (waits a))
    by (eapply Forall_impl; [exact HW|]; by intros ? []).
  pose proof (weights_sum_bound kw_weight _ HK).
  pose proof (weights_sum_bound plw_weight _ HA).
  destruct (tally_cases (fun p k => negb (key_less (kw_key p) (kw_key k)))
    (fun p k => key_less (kw_key p) (kw_key k) = true) kw_weight (keys a) 0)
    as [[SK ->]|[SK ->]];
    [intros; apply negb_false_iff | intros ???; apply key_less_trans | done | lia | lia | |
     by split; [|intros []]].
  destruct (tally_cases (fun p b => level_geq (plw_permission p) (plw_permission b))
    (fun p b => level_less (plw_permission p) (plw_permission b) = true) plw_weight
    (accounts a) (0 + weights_sum kw_weight (keys a))) as [[SA ->]|[SA ->]];
    [intros; apply negb_false_iff | intros ???; apply level_less_trans | done | lia | lia | |
     by split; [|intros []]].
  destruct (tally_cases (fun p w => ww_wait_sec w <=? ww_wait_sec p)
    (fun p w => ww_wait_sec p < ww_wait_sec w) ww_weight (waits a)
    (0 + weights_sum kw_weight (keys a) + weights_sum plw_weight (accounts a)))
    as [[SW ->]|[SW ->]];
    [intros; apply Z.leb_gt | intros; lia | done | lia | lia | |
     by split; [case_match|intros []]].
  pose proof (waits_positive _ HW SW) as HP.
  destruct (match waits a with [] => _ | _ => _ end).
  - split; [discriminate|]. intros V. by destruct (proj2 HP (va_waits_pos _ V)).
  - rewrite Z.leb_le, Z.add_0_l. split; [intros; split; try done; by apply HP | by intros []].
Qed.

Lemma validate_spec_witness :
  let a := mk_authority 3 [mk_kw (mk_public_key 0 [2; 7]) 1; mk_kw (mk_public_key 1 [2]) 1]
             [mk_plw (mk_level 5 6) 1] [mk_ww 60 1] in
  validate a = true <-> valid_authority a.
Proof. apply validate_spec. repeat constructor; simpl; lia. Defined.

(** The weight of the presented keys of an authority. *)
Definition presented (pk : gset public_key) (l : list key_weight) : list key_weight :=
  filter (fun kw => kw_key kw ∈ pk) l.

(** Saturation at the threshold or at the 32-bit maximum does not change
    whether the threshold is reached. *)
Lemma keys_satisfy_loop_spec (th : Z) (pk : gset public_key) (l : list key_weight)
    (n : nat) (t : Z) :
  fits 32 th -> fits 32 t -> Forall (fun k => fits 16 (kw_weight k)) l ->
  let '(t', n') := keys_satisfy_loop th pk l n t in
  (th <= t' <-> th <= t + weights_sum kw_weight (presented pk l)) /\
  n' = (n + length (presented pk l))%nat.
Proof.
  intros Hth. revert n t. induction l as [|kw l IH]; intros n t Ht HW; simpl; [lia|].
  inversion HW as [|? ? Hk HW']; subst. pose proof Hk as [Hk0 Hk1].
  unfold presented. rewrite filter_cons. fold (presented pk l).
  assert (HWp : Forall (fun k => fits 16 (kw_weight k)) (presented pk l))
    by (rewrite Forall_forall in *; intros k [_ Hin]%list_elem_of_filter; auto).
  pose proof (weights_sum_bound kw_weight _ HWp).
  case_bool_decide; case_decide; try done; [|by apply IH].
  destruct Ht as [Ht0 Ht1], Hth as [Hth0 Hth1].
  destruct (Z.ltb_spec t th) as [Hlt|Hge].
  - rewrite wrap_small by (unfold uint32_max; split; lia).
    specialize (IH (S n) (t + Z.min (uint32_max - t) (kw_weight kw))).
    destruct (keys_satisfy_loop th pk l (S n) _) as [t' n'].
    destruct IH as [IH ->]; [unfold uint32_max; split; lia | done |].
    rewrite IH. simpl. unfold uint32_max. split; lia.
  - specialize (IH (S n) t). destruct (keys_satisfy_loop th pk l (S n) t) as [t' n'].
    destruct IH as [IH ->]; [done | done |]. rewrite IH. simpl. split; lia.
Qed.

Lemma keys_satisfy_and_relevant_eq (a : block_signing_authority_v0) (pk : gset public_key) :
  fits 32 (bsa_threshold a) -> Forall (fun k => fits 16 (kw_weight k)) (bsa_keys a) ->
  keys_satisfy_and_relevant a pk =
    (bsa_threshold a <=? weights_sum kw_weight (presented pk (bsa_keys a)),
     length (presented pk (bsa_keys a))).
Proof.
  intros Hth HW. unfold keys_satisfy_and_relevant.
  pose proof (keys_satisfy_loop_spec (bsa_threshold a) pk (bsa_keys a) 0 0 Hth
    ltac:(by split) HW) as H.
  destruct (keys_satisfy_loop _ _ _ _ _) as [t n]. destruct H as [H ->]. f_equal.
  apply eq_iff_eq_true. by rewrite !Z.leb_le, H.
Qed.

(** A block signing authority is satisfied exactly when the weights of its
    keys that are presented add up to the threshold, the saturation of the
    32-bit total notwithstanding, and the number it reports is the number of
    its keys that are presented. *)
Theorem keys_satisfy_and_relevant_spec (a : block_signing_authority_v0) (pk : gset public_key) :
  fits 32 (bsa_threshold a) -> Forall (fun k => fits 16 (kw_weight k)) (bsa_keys a) ->
  let '(satisfied, num_relevant) := keys_satisfy_and_relevant a pk in
  (satisfied = true <-> bsa_threshold a <= weights_sum kw_weight (presented pk (bsa_keys a))) /\
  num_relevant = length (presented pk (bsa_keys a)).
Proof.
  intros Hth HW. rewrite keys_satisfy_and_relevant_eq by done. by rewrite Z.leb_le.
Qed.

Lemma keys_satisfy_and_relevant_spec_witness :
  let k := mk_public_key 0 [2; 7] in
  let a := mk_bsa 2 [mk_kw k 1; mk_kw (mk_public_key 0 [3]) 5] in
  let '(satisfied, num_relevant) := keys_satisfy_and_relevant a {[k]} in
  (satisfied = true <-> bsa_threshold a <= weights_sum kw_weight (presented {[k]} (bsa_keys a))) /\
  num_relevant = length (presented {[k]} (bsa_keys a)).
Proof. apply keys_satisfy_and_relevant_spec; [by split | repeat constructor; simpl; lia]. Defined.
