(* ===== verification/BlockHeader.v ===== *)
(** * Block headers

    The header of a block, its identifier and its extensions
    (libraries/chain/block_header.cpp and its header, the [decompose] and
    [emplace_extension] templates of libraries/chain/include/dcd/chain/types.hpp
    and libraries/chain/protocol_feature_activation.cpp).

    SHA-256 and the recovery of a key from a signature are the operations of the
    class [Crypto]; the serialization of the two header extensions is the class
    [Serialization], with the round-trip laws the producer of a block relies on
    in [SerializationLaws]. *)

From S2P Require Import Prelude Types Authority.

(** ** The producer rate, an IEEE 754 double given by its 64 bits *)
Definition f64_is_nan (x : Z) : bool := 0x7FF0000000000000 <? Z.land x 0x7FFFFFFFFFFFFFFF.
Definition f64_is_zero (x : Z) : bool := Z.land x 0x7FFFFFFFFFFFFFFF =? 0.
(** [x > 0] *)
Definition f64_positive (x : Z) : bool := (0 <? x) && (x <=? 0x7FF0000000000000).
(** [x == y] *)
Definition f64_eq (x y : Z) : bool :=
  negb (f64_is_nan x) && negb (f64_is_nan y) &&
  ((x =? y) || (f64_is_zero x && f64_is_zero y)).
Definition f64_one : Z := 0x3FF0000000000000.
Definition f64_minus_one : Z := 0xBFF0000000000000.

Record shared_rate_info := mk_shared_rate { sri_version : Z; sri_rate : Z }.
Record producer_rate_info := mk_rate { pri_version : Z; pri_rate : Z }.

#[global] Instance shared_rate_eq_dec : EqDecision shared_rate_info.
Proof. solve_decision. Defined.
#[global] Instance producer_rate_eq_dec : EqDecision producer_rate_info.
Proof. solve_decision. Defined.

(** [producer_rate_info()] *)
Definition rate_default : producer_rate_info := mk_rate 0 0.

(** ** The header *)
Record signature := mk_signature { sig_which : Z; sig_data : list Z }.

Record block_header := mk_header {
  h_timestamp : Z;
  h_producer : account_name;
  h_confirmed : Z;
  h_previous : block_id;
  h_transaction_mroot : digest;
  h_action_mroot : digest;
  h_schedule_version : Z;
  h_new_producers : option legacy_schedule;
  h_rate_version : Z;
  h_new_rate : option shared_rate_info;
  h_header_extensions : list (Z * list Z)
}.

Record signed_block_header := mk_signed_header {
  h_base : block_header;
  h_producer_signature : signature
}.

(** ** Interfaces: hashing, key recovery and serialization *)
Class Crypto := {
  hash_header : block_header -> digest;
  hash_pair : digest * digest -> digest;
  hash_legacy_schedule : legacy_schedule -> digest;
  hash_schedule : producer_authority_schedule -> digest;
  hash_rate : option shared_rate_info -> digest;
  (** [fc::crypto::public_key( sig, digest, true )] *)
  recover : signature -> digest -> result public_key
}.

Class Serialization := {
  pack_features : list digest -> list Z;
  unpack_features : list Z -> result (list digest);
  pack_schedule : producer_authority_schedule -> list Z;
  unpack_schedule : list Z -> result producer_authority_schedule
}.

Class SerializationLaws (S : Serialization) : Prop := {
  unpack_pack_features : forall l, unpack_features (pack_features l) = Ok l;
  unpack_pack_schedule : forall s, unpack_schedule (pack_schedule s) = Ok s
}.

(** ** Block numbers and identifiers *)
Definition endian_reverse_u32 (x : Z) : Z :=
  Z.lor (Z.lor (Z.lor
    (Z.land (Z.shiftr x 0x18) 0xFF)
    (Z.shiftl (Z.land (Z.shiftr x 0x10) 0xFF) 0x08))
    (Z.shiftl (Z.land (Z.shiftr x 0x08) 0xFF) 0x10))
    (Z.shiftl (Z.land x 0xFF) 0x18).

(** The argument is narrowed to 32 bits by the call. *)
Definition num_from_id (id : block_id) : Z := endian_reverse_u32 (u32 (hash0 id)).

Definition header_block_num (h : block_header) : Z := u32 (num_from_id (h_previous h) + 1).

Definition calculate_id `{Crypto} (h : block_header) : block_id :=
  let result := hash_header h in
  let w := Z.land (hash0 result) 0xffffffff00000000 in
  mk_digest (u64 (w + endian_reverse_u32 (header_block_num h)))
    (hash1 result) (hash2 result) (hash3 result).

(** ** Header extensions *)
Inductive block_header_extension :=
  | pfa_extension (protocol_features : list digest)
  | schedule_change_extension (schedule : producer_authority_schedule).

Definition pfa_extension_id : Z := 0.
Definition schedule_change_extension_id : Z := 1.

(** [protocol_feature_activation::reflector_init], run after unpacking. *)
Fixpoint reflector_init_loop (l : list digest) (s : gset digest) : result unit :=
  match l with
  | [] => Ok tt
  | d :: l =>
      _ ← dcd_assert (bool_decide (d ∉ s)) ill_formed_protocol_feature_activation;
      reflector_init_loop l ({[d]} ∪ s)
  end.

Definition reflector_init (protocol_features : list digest) : result unit :=
  _ ← dcd_assert (0 <? length protocol_features)%nat ill_formed_protocol_feature_activation;
  reflector_init_loop protocol_features ∅.

(** [protocol_feature_activation_set( orig, additional, true )]: the union of
    the ordered sets, refused when the two are not disjoint or the second one
    repeats a digest. *)
Definition protocol_feature_activation_set (orig_pfa_set : gset digest)
    (additional_features : list digest) : result (gset digest) :=
  let protocol_features := orig_pfa_set ∪ list_to_set additional_features in
  let expected_size := (size orig_pfa_set + length additional_features)%nat in
  _ ← dcd_assert (size protocol_features =? expected_size)%nat invalid_block_header_extension;
  Ok protocol_features.

(** [emplace_extension]: before the first extension with a greater id. *)
Fixpoint emplace_extension (exts : list (Z * list Z)) (eid : Z) (data : list Z) :
    list (Z * list Z) :=
  match exts with
  | [] => [(eid, data)]
  | e :: exts' => if eid <? fst e then (eid, data) :: exts
                  else e :: emplace_extension exts' eid data
  end.

Section extensions.
Context `{Serialization}.

(** [decompose_t::extract]: no match is [None], a match also says whether
    the extension must be unique. *)
Definition extract (id : Z) (data : list Z) : result (option (block_header_extension * bool)) :=
  if id =? pfa_extension_id then
    l ← unpack_features data;
    _ ← reflector_init l;
    Ok (Some (pfa_extension l, true))
  else if id =? schedule_change_extension_id then
    s ← unpack_schedule data;
    Ok (Some (schedule_change_extension s, true))
  else Ok None.

(** The loop over the extensions. The multimap [results] is the list of its
    entries in the order of the keys: the ids are ascending, so an entry is
    emplaced at the end. *)
Fixpoint extract_loop (i : nat) (id_type_lower_bound : Z) (exts : list (Z * list Z))
    (results : list (Z * block_header_extension)) : result (list (Z * block_header_extension)) :=
  match exts with
  | [] => Ok results
  | (id, data) :: exts =>
      _ ← dcd_assert (id_type_lower_bound <=? id) invalid_block_header_extension;
      found ← extract id data;
      match found with
      | None => Throw invalid_block_header_extension
      | Some (ext, enforce_unique) =>
          _ ← dcd_assert (negb enforce_unique || (i =? 0)%nat || (id_type_lower_bound <? id))
                invalid_block_header_extension;
          extract_loop (S i) id exts (results ++ [(id, ext)])
      end
  end.

Definition validate_and_extract_header_extensions (h : block_header) :
    result (list (Z * block_header_extension)) :=
  extract_loop 0 0 (h_header_extensions h) [].
End extensions.

(** [exts.count( id )] and [exts.lower_bound( id )->second] *)
Definition ext_count (id : Z) (exts : list (Z * block_header_extension)) : nat :=
  length (filter (fun e => fst e = id) exts).
Definition ext_lower_bound (id : Z) (exts : list (Z * block_header_extension)) :
    result block_header_extension :=
  match filter (fun e => id <= fst e) exts with
  | e :: _ => Ok (snd e)
  | [] => Throw undefined_behaviour
  end.
(** [std::get<...>] on the variant *)
Definition get_pfa (e : block_header_extension) : result (list digest) :=
  match e with pfa_extension l => Ok l | _ => Throw bad_variant_access end.
Definition get_schedule_change (e : block_header_extension) : result producer_authority_schedule :=
  match e with schedule_change_extension s => Ok s | _ => Throw bad_variant_access end.

(** ** Lemmas *)
Lemma land_byte (x : Z) : Z.land x 0xFF = x mod 256.
Proof. change 0xFF with (Z.ones 8). by rewrite Z.land_ones. Qed.

(** The four bytes of a 32-bit word, in reverse. *)
Lemma endian_reverse_u32_bytes (a b c d : Z) :
  0 <= a < 256 -> 0 <= b < 256 -> 0 <= c < 256 -> 0 <= d < 256 ->
  endian_reverse_u32 (a + 256 * b + 65536 * c + 16777216 * d) =
    d + 256 * c + 65536 * b + 16777216 * a.
Proof.
  intros Ha Hb Hc Hd. unfold endian_reverse_u32. rewrite !land_byte, !Z.shiftr_div_pow2 by lia.
  set (x := a + 256 * b + 65536 * c + 16777216 * d).
  replace (x / 2 ^ 0x18 mod 256) with d by (subst x; dlia).
  replace (x / 2 ^ 0x10 mod 256) with c by (subst x; dlia).
  replace (x / 2 ^ 0x08 mod 256) with b by (subst x; dlia).
  replace (x mod 256) with a by (subst x; dlia). clear x.
  rewrite (lor_add_shiftl _ _ 0x08), (lor_add_shiftl _ _ 0x10), (lor_add_shiftl _ _ 0x18) by lia.
  lia.
Qed.

Lemma u32_bytes (x : Z) : fits 32 x -> exists a b c d,
  0 <= a < 256 /\ 0 <= b < 256 /\ 0 <= c < 256 /\ 0 <= d < 256 /\
  x = a + 256 * b + 65536 * c + 16777216 * d.
Proof.
  intros [H0 H1].
  exists (x mod 256), (x / 256 mod 256), (x / 65536 mod 256), (x / 16777216).
  split_and!; dlia.
Qed.

Lemma endian_reverse_u32_fits (x : Z) : fits 32 x -> fits 32 (endian_reverse_u32 x).
Proof.
  intros (a & b & c & d & ? & ? & ? & ? & ->)%u32_bytes.
  rewrite endian_reverse_u32_bytes by done. split; lia.
Qed.

Lemma endian_reverse_u32_involutive (x : Z) :
  fits 32 x -> endian_reverse_u32 (endian_reverse_u32 x) = x.
Proof.
  intros (a & b & c & d & ? & ? & ? & ? & ->)%u32_bytes. by rewrite !endian_reverse_u32_bytes.
Qed.

(** The block number is stored in the identifier. *)
Lemma num_from_calculate_id `{Crypto} (h : block_header) :
  fits 64 (hash0 (hash_header h)) ->
  num_from_id (calculate_id h) = header_block_num h.
Proof.
  intros [H0 H1]. unfold num_from_id, calculate_id. simpl.
  set (r := endian_reverse_u32 (header_block_num h)).
  assert (Hn : fits 32 (header_block_num h)) by (apply wrap_fits; lia).
  assert (Hr : fits 32 r) by (by apply endian_reverse_u32_fits). destruct Hr as [Hr0 Hr1].
  assert (Hw : Z.land (hash0 (hash_header h)) 0xffffffff00000000 =
               hash0 (hash_header h) / 2 ^ 32 * 2 ^ 32).
  { rewrite <- Z.shiftr_div_pow2, <- Z.shiftl_mul_pow2 by lia.
    rewrite <- Z.ldiff_ones_r by lia.
    replace 0xffffffff00000000 with (Z.ldiff (Z.ones 64) (Z.ones 32)) by done.
    apply Z.bits_inj'. intros i Hi. rewrite Z.land_spec, !Z.ldiff_spec.
    destruct (Z.ltb_spec i 64) as [Hlt|Hge].
    - rewrite Z.ones_spec_low by lia. done.
    - rewrite (Z.bits_above_log2 (hash0 (hash_header h)) i); [done|lia|].
      destruct (Z.eq_dec (hash0 (hash_header h)) 0) as [->|]; [simpl; lia|].
      apply Z.lt_le_trans with 64; [apply Z.log2_lt_pow2; lia | lia]. }
  rewrite Hw.
  replace (u32 (u64 (hash0 (hash_header h) / 2 ^ 32 * 2 ^ 32 + r))) with r;
    [by apply endian_reverse_u32_involutive|].
  rewrite (wrap_small 64) by (split; dlia).
  unfold wrap. rewrite Z.add_comm, Z_mod_plus_full. symmetry. by apply Z.mod_small.
Qed.
