(* ===== verification/BlockHeaderState.v ===== *)
(** * Block header states: the model

    The state a block header is validated against and its successor
    (libraries/chain/block_header_state.cpp and its header). A [shared_ptr] to a
    set of activated protocol features is the set; the derived structs of the
    source are records with a coercion to their base. *)

From S2P Require Import Prelude Types Authority Merkle BlockHeader.

Record schedule_info := mk_schedule_info {
  schedule_lib_num : Z;
  schedule_hash : digest;
  schedule : producer_authority_schedule
}.

Record rate_info := mk_rate_info {
  rate_lib_num : Z;
  rate_hash : digest;
  rate_rate_info : producer_rate_info
}.

Record block_header_state_common := mk_common {
  block_num : Z;
  dpos_proposed_irreversible_blocknum : Z;
  dpos_irreversible_blocknum : Z;
  active_schedule : producer_authority_schedule;
  active_rate : producer_rate_info;
  blockroot_merkle : incremental_merkle;
  producer_to_last_produced : gmap account_name Z;
  producer_to_last_implied_irb : gmap account_name Z;
  valid_block_signing_authority : block_signing_authority_v0;
  confirm_count : list Z
}.

Record pending_block_header_state := mk_pending {
  pending_common :> block_header_state_common;
  prev_activated_protocol_features : gset digest;
  prev_pending_schedule : schedule_info;
  prev_pending_rate : rate_info;
  was_pending_promoted : bool;
  was_pending_rate_promoted : bool;
  previous : block_id;
  producer : account_name;
  timestamp : Z;
  active_schedule_version : Z;
  active_rate_version : Z;
  confirmed : Z
}.

Record block_header_state := mk_bhs {
  bhs_common :> block_header_state_common;
  id : block_id;
  header : signed_block_header;
  pending_schedule : schedule_info;
  pending_rate : rate_info;
  activated_protocol_features : gset digest;
  additional_signatures : list signature;
  header_exts : list (Z * block_header_extension)
}.

(** [protocol_feature_set]: what the header state asks of it. *)
Definition builtin_digests := builtin_protocol_feature_t -> option digest.

Definition is_builtin_activated (pfa : gset digest) (pfs : builtin_digests)
    (feature_codename : builtin_protocol_feature_t) : bool :=
  match pfs feature_codename with
  | Some d => bool_decide (d ∈ pfa)
  | None => false
  end.

Definition get_scheduled_producer (s : block_header_state_common) (slot : Z) :
    result producer_authority :=
  let n := Z.of_nat (length (producers (active_schedule s))) * config.producer_repetitions in
  if n =? 0 then Throw undefined_behaviour
  else vec_get (producers (active_schedule s))
         (Z.to_nat (slot mod n / config.producer_repetitions)).

(** The values the vote for irreversibility is taken on. *)
Definition dpos_blocknums (s : block_header_state_common) (producer_of_next_block : account_name) :
    list Z :=
  map (fun i => if fst i =? producer_of_next_block
                then dpos_proposed_irreversible_blocknum s else snd i)
    (map_to_list (producer_to_last_implied_irb s)).

(** [nth_element] puts at [index] what a sort would put there. *)
Definition calc_dpos_last_irreversible (s : block_header_state_common)
    (producer_of_next_block : account_name) : result Z :=
  let blocknums := dpos_blocknums s producer_of_next_block in
  if (length blocknums =? 0)%nat then Ok 0
  else
    let index := ((length blocknums - 1) / 3)%nat in
    vec_get (merge_sort Z.le blocknums) index.

(** The confirmation loop of [next]: [i] is one more than the loop variable of
    the source, so that zero is the exit of [while( i >= 0 && ... )]. *)
Fixpoint confirm_loop (block_num : Z) (i : nat) (blocks_to_confirm : Z) (confirm_count : list Z)
    (proposed : Z) : result (list Z * Z) :=
  match i with
  | O => Ok (confirm_count, proposed)
  | S i =>
      if blocks_to_confirm =? 0 then Ok (confirm_count, proposed)
      else
        c ← vec_get confirm_count i;
        let c := u8 (c - 1) in
        let confirm_count := <[i := c]> confirm_count in
        if c =? 0 then
          let block_num_for_i := u32 (block_num - u32 (Z.of_nat (length confirm_count - 1 - i))) in
          Ok (if (i =? length confirm_count - 1)%nat then [] else drop (S i) confirm_count,
              block_num_for_i)
        else confirm_loop block_num i (u32 (blocks_to_confirm - 1)) confirm_count proposed
  end.

(** "grow the confirmed count" *)
Definition grow_confirm_count (cc : list Z) (required_confs : Z) : list Z :=
  if (length cc <? config.maximum_tracked_dpos_confirmations)%nat
  then cc ++ [u8 required_confs]
  else drop 1 cc ++ [u8 required_confs].

(** The map of a promoted schedule: the producer of the block gets [own], a
    producer that was tracked keeps its number, a new one gets [lib]. *)
Definition promoted_map (ps : list producer_authority) (producer : account_name)
    (own lib : Z) (old : gmap account_name Z) : gmap account_name Z :=
  foldl (fun m pro =>
    if producer_name pro =? producer then <[producer_name pro := own]> m
    else match old !! producer_name pro with
         | Some existing => <[producer_name pro := existing]> m
         | None => <[producer_name pro := lib]> m
         end) ∅ ps.

Section state.
Context `{Crypto} `{Serialization}.

(** [block_header_state::next( block_timestamp_type, uint16_t )] *)
Definition next_pending (s : block_header_state) (when num_prev_blocks_to_confirm : Z) :
    result pending_block_header_state :=
  when ← (if negb (when =? 0) then
            _ ← dcd_assert (h_timestamp (h_base (header s)) <? when) block_validate_exception;
            Ok when
          else Ok (u32 (h_timestamp (h_base (header s)) + 1)));
  proauth ← get_scheduled_producer s when;
  _ ← match producer_to_last_produced s !! producer_name proauth with
      | Some last => dcd_assert (last <? u32 (u32 (block_num s + 1) - num_prev_blocks_to_confirm))
                       producer_double_confirm
      | None => Ok tt
      end;
  let bn := u32 (block_num s + 1) in
  blockroot ← append hash_pair (blockroot_merkle s) (id s);
  let num_active_producers := Z.of_nat (length (producers (active_schedule s))) in
  let required_confs := u32 (u32 (num_active_producers * 2 / 3) + 1) in
  let cc := grow_confirm_count (confirm_count s) required_confs in
  '(cc, proposed) ← confirm_loop bn (length cc) (u32 (num_prev_blocks_to_confirm + 1)) cc
                      (dpos_proposed_irreversible_blocknum s);
  lib ← calc_dpos_last_irreversible s (producer_name proauth);
  let promote := (0 <? length (producers (schedule (pending_schedule s))))%nat &&
                 (schedule_lib_num (pending_schedule s) <=? lib) in
  let promote_rate := f64_positive (pri_rate (rate_rate_info (pending_rate s))) &&
                      (rate_lib_num (pending_rate s) <=? lib) in
  let new_schedule := schedule (pending_schedule s) in
  Ok (mk_pending
    (mk_common bn proposed lib
      (if promote then new_schedule else active_schedule s)
      (if promote_rate then rate_rate_info (pending_rate s) else active_rate s)
      blockroot
      (if promote
       then <[producer_name proauth := bn]>
              (promoted_map (producers new_schedule) (producer_name proauth) bn lib
                 (producer_to_last_produced s))
       else <[producer_name proauth := bn]> (producer_to_last_produced s))
      (if promote
       then promoted_map (producers new_schedule) (producer_name proauth)
              (dpos_proposed_irreversible_blocknum s) lib (producer_to_last_implied_irb s)
       else <[producer_name proauth := dpos_proposed_irreversible_blocknum s]>
              (producer_to_last_implied_irb s))
      (producer_auth proauth) cc)
    (activated_protocol_features s) (pending_schedule s) (pending_rate s)
    promote promote_rate (id s) (producer_name proauth) when
    (sched_version (active_schedule s)) (pri_version (active_rate s)) num_prev_blocks_to_confirm).

(** The schedule as a block header before [wtmsig_block_signatures] carries it. *)
Fixpoint downgrade_producers (ps : list producer_authority) : result (list legacy_producer_key) :=
  match ps with
  | [] => Ok []
  | p :: ps =>
      match bsa_keys (producer_auth p) with
      | [kw] =>
          _ ← dcd_assert (kw_weight kw =? bsa_threshold (producer_auth p))
                producer_schedule_exception;
          rest ← downgrade_producers ps;
          Ok (mk_legacy_key (producer_name p) (kw_key kw) :: rest)
      | _ => Throw producer_schedule_exception
      end
  end.

(** [pending_block_header_state::make_block_header]: the signature is left as
    it is constructed. *)
Definition make_block_header (p : pending_block_header_state) (transaction_mroot action_mroot : digest)
    (new_producers : option producer_authority_schedule) (new_rate : option producer_rate_info)
    (new_protocol_feature_activations : list digest) (pfs : builtin_digests) :
    result signed_block_header :=
  let exts := if (0 <? length new_protocol_feature_activations)%nat
              then emplace_extension [] pfa_extension_id
                     (pack_features new_protocol_feature_activations)
              else [] in
  '(exts, legacy_producers) ←
    match new_producers with
    | None => Ok (exts, None)
    | Some np =>
        if is_builtin_activated (prev_activated_protocol_features p) pfs wtmsig_block_signatures then
          Ok (emplace_extension exts schedule_change_extension_id (pack_schedule np), None)
        else
          downgraded ← downgrade_producers (producers np);
          Ok (exts, Some (mk_legacy_schedule (sched_version np) downgraded))
    end;
  Ok (mk_signed_header
    (mk_header (timestamp p) (producer p) (confirmed p) (previous p) transaction_mroot action_mroot
       (active_schedule_version p) legacy_producers (active_rate_version p)
       (match new_rate with
        | Some r => Some (mk_shared_rate (pri_version r) (pri_rate r))
        | None => None
        end) exts)
    (mk_signature 0 [])).

Definition activation_validator := Z -> gset digest -> list digest -> result unit.

(** The [h.new_producers] part of [_finish_next] *)
Definition check_new_producers (p : pending_block_header_state) (h : block_header)
    (wtmsig_enabled : bool) : result (option (producer_authority_schedule * digest)) :=
  match h_new_producers h with
  | None => Ok None
  | Some new_producers =>
      _ ← dcd_assert (negb wtmsig_enabled) producer_schedule_exception;
      _ ← dcd_assert (negb (was_pending_promoted p)) producer_schedule_exception;
      _ ← dcd_assert (lps_version new_producers =? u32 (sched_version (active_schedule p) + 1))
            producer_schedule_exception;
      _ ← dcd_assert (length (producers (schedule (prev_pending_schedule p))) =? 0)%nat
            producer_schedule_exception;
      Ok (Some (schedule_of_legacy new_producers, hash_legacy_schedule new_producers))
  end.

(** The [h.new_rate] part of [_finish_next] *)
Definition check_new_rate (p : pending_block_header_state) (h : block_header) :
    result (option (producer_rate_info * digest)) :=
  match h_new_rate h with
  | None => Ok None
  | Some new_rate =>
      _ ← dcd_assert (negb (was_pending_rate_promoted p)) producer_schedule_exception;
      _ ← dcd_assert (sri_version new_rate =? u32 (pri_version (active_rate p) + 1))
            producer_schedule_exception;
      _ ← dcd_assert (f64_eq (pri_rate (rate_rate_info (prev_pending_rate p))) 0)
            producer_schedule_exception;
      Ok (Some (mk_rate (sri_version new_rate) (sri_rate new_rate), hash_rate (h_new_rate h)))
  end.

(** The [producer_schedule_change_extension] part of [_finish_next]; [prior] is
    what [check_new_producers] left. *)
Definition check_schedule_change (p : pending_block_header_state)
    (exts : list (Z * block_header_extension)) (wtmsig_enabled : bool)
    (prior : option (producer_authority_schedule * digest)) :
    result (option (producer_authority_schedule * digest)) :=
  if (0 <? ext_count schedule_change_extension_id exts)%nat then
    _ ← dcd_assert wtmsig_enabled producer_schedule_exception;
    _ ← dcd_assert (negb (was_pending_promoted p)) producer_schedule_exception;
    e ← ext_lower_bound schedule_change_extension_id exts;
    new_producer_schedule ← get_schedule_change e;
    _ ← dcd_assert (sched_version new_producer_schedule =? u32 (sched_version (active_schedule p) + 1))
          producer_schedule_exception;
    _ ← dcd_assert (length (producers (schedule (prev_pending_schedule p))) =? 0)%nat
          producer_schedule_exception;
    Ok (Some (new_producer_schedule, hash_schedule new_producer_schedule))
  else Ok prior.

(** The [protocol_feature_activation] part of [_finish_next]: the key that is
    counted is the boolean [extension_id() > 0], that is 0. *)
Definition check_feature_activation (p : pending_block_header_state)
    (exts : list (Z * block_header_extension)) (validator : activation_validator) :
    result (gset digest) :=
  if negb (Nat.eqb (ext_count (if 0 <? pfa_extension_id then 1 else 0) exts) 0) then
    e ← ext_lower_bound pfa_extension_id exts;
    new_protocol_features ← get_pfa e;
    _ ← validator (timestamp p) (prev_activated_protocol_features p) new_protocol_features;
    protocol_feature_activation_set (prev_activated_protocol_features p) new_protocol_features
  else Ok (prev_activated_protocol_features p).

(** [pending_block_header_state::_finish_next] *)
Definition _finish_next (p : pending_block_header_state) (h : signed_block_header)
    (pfs : builtin_digests) (validator : activation_validator) : result block_header_state :=
  let hb := h_base h in
  _ ← dcd_assert (h_timestamp hb =? timestamp p) block_validate_exception;
  _ ← dcd_assert (bool_decide (h_previous hb = previous p)) unlinkable_block_exception;
  _ ← dcd_assert (h_confirmed hb =? confirmed p) block_validate_exception;
  _ ← dcd_assert (h_producer hb =? producer p) wrong_producer;
  _ ← dcd_assert (h_schedule_version hb =? active_schedule_version p) producer_schedule_exception;
  _ ← dcd_assert (h_rate_version hb =? active_rate_version p) producer_schedule_exception;
  exts ← validate_and_extract_header_extensions hb;
  let wtmsig_enabled :=
    (match h_new_producers hb with Some _ => true | None => false end ||
     (0 <? ext_count schedule_change_extension_id exts)%nat) &&
    is_builtin_activated (prev_activated_protocol_features p) pfs wtmsig_block_signatures in
  maybe_new_producers ← check_new_producers p hb wtmsig_enabled;
  maybe_new_rate ← check_new_rate p hb;
  maybe_new_producer_schedule ← check_schedule_change p exts wtmsig_enabled maybe_new_producers;
  new_activated ← check_feature_activation p exts validator;
  let pend_sched :=
    match maybe_new_producer_schedule with
    | Some (sch, hash) => mk_schedule_info (block_num p) hash sch
    | None =>
        mk_schedule_info (schedule_lib_num (prev_pending_schedule p))
          (schedule_hash (prev_pending_schedule p))
          (if was_pending_promoted p
           then mk_schedule (sched_version (schedule (prev_pending_schedule p))) []
           else schedule (prev_pending_schedule p))
    end in
  let pend_rate :=
    match maybe_new_rate with
    | Some (ri, hash) => mk_rate_info (block_num p) hash ri
    | None =>
        mk_rate_info (rate_lib_num (prev_pending_rate p)) (rate_hash (prev_pending_rate p))
          (if was_pending_rate_promoted p
           then mk_rate (pri_version (rate_rate_info (prev_pending_rate p))) (pri_rate rate_default)
           else rate_rate_info (prev_pending_rate p))
    end in
  Ok (mk_bhs (pending_common p) (calculate_id hb) h pend_sched pend_rate new_activated [] exts).

Definition sig_digest (s : block_header_state) : result digest :=
  root ← get_root (blockroot_merkle s);
  let header_bmroot := hash_pair (hash_header (h_base (header s)), root) in
  Ok (hash_pair (header_bmroot, schedule_hash (pending_schedule s))).

Fixpoint collect_keys (d : digest) (sigs : list signature) (keys : gset public_key) :
    result (gset public_key) :=
  match sigs with
  | [] => Ok keys
  | s :: sigs =>
      k ← recover s d;
      _ ← dcd_assert (bool_decide (k ∉ keys)) wrong_signing_key;
      collect_keys d sigs ({[k]} ∪ keys)
  end.

Definition verify_signee (s : block_header_state) : result unit :=
  let num_keys_in_authority := length (bsa_keys (valid_block_signing_authority s)) in
  _ ← dcd_assert (1 + length (additional_signatures s) <=? num_keys_in_authority)%nat
        wrong_signing_key;
  digest ← sig_digest s;
  k ← recover (h_producer_signature (header s)) digest;
  keys ← collect_keys digest (additional_signatures s) {[k]};
  let '(is_satisfied, relevant_sig_count) :=
    keys_satisfy_and_relevant (valid_block_signing_authority s) keys in
  _ ← dcd_assert (relevant_sig_count =? size keys)%nat wrong_signing_key;
  dcd_assert is_satisfied wrong_signing_key.

Definition with_signatures (s : block_header_state) (h : signed_block_header)
    (sigs : list signature) : block_header_state :=
  mk_bhs (bhs_common s) (id s) h (pending_schedule s) (pending_rate s)
    (activated_protocol_features s) sigs (header_exts s).

(** [block_header_state::sign]: the state after the call. *)
Definition sign (s : block_header_state) (signer : digest -> list signature) :
    result block_header_state :=
  d ← sig_digest s;
  match last (signer d) with
  | None => Throw no_block_signatures
  | Some sg =>
      let s := with_signatures s (mk_signed_header (h_base (header s)) sg) (removelast (signer d)) in
      _ ← verify_signee s;
      Ok s
  end.

(** [finish_next] of a block that was received *)
Definition finish_next (p : pending_block_header_state) (h : signed_block_header)
    (sigs : list signature) (pfs : builtin_digests) (validator : activation_validator)
    (skip_validate_signee : bool) : result block_header_state :=
  _ ← (if (0 <? length sigs)%nat then
         dcd_assert (is_builtin_activated (prev_activated_protocol_features p) pfs
                       wtmsig_block_signatures) producer_schedule_exception
       else Ok tt);
  result ← _finish_next p h pfs validator;
  let result := if (0 <? length sigs)%nat then with_signatures result (header result) sigs
                else result in
  _ ← (if skip_validate_signee then Ok tt else verify_signee result);
  Ok result.

(** [finish_next] of a block that is produced: also returns the signed header. *)
Definition finish_next_sign (p : pending_block_header_state) (h : signed_block_header)
    (pfs : builtin_digests) (validator : activation_validator) (signer : digest -> list signature) :
    result (block_header_state * signed_block_header) :=
  result ← _finish_next p h pfs validator;
  result ← sign result signer;
  _ ← (if (0 <? length (additional_signatures result))%nat then
         dcd_assert (is_builtin_activated (prev_activated_protocol_features p) pfs
                       wtmsig_block_signatures) producer_schedule_exception
       else Ok tt);
  Ok (result, mk_signed_header (h_base h) (h_producer_signature (header result))).

(** [block_header_state::next( const signed_block_header&, ... )] *)
Definition next (s : block_header_state) (h : signed_block_header) (sigs : list signature)
    (pfs : builtin_digests) (validator : activation_validator) (skip_validate_signee : bool) :
    result block_header_state :=
  p ← next_pending s (h_timestamp (h_base h)) (h_confirmed (h_base h));
  finish_next p h sigs pfs validator skip_validate_signee.

Definition get_new_protocol_feature_activations (s : block_header_state) : result (list digest) :=
  if (ext_count pfa_extension_id (header_exts s) =? 0)%nat then Ok []
  else e ← ext_lower_bound pfa_extension_id (header_exts s); get_pfa e.
End state.

Definition has_pending_producers (s : block_header_state) : bool :=
  (0 <? length (producers (schedule (pending_schedule s))))%nat.
Definition has_pending_rate (s : block_header_state) : bool :=
  f64_positive (pri_rate (rate_rate_info (pending_rate s))).

(** ** Version 2 snapshots *)
Record snapshot_block_header_state_v2 := mk_snapshot_v2 {
  sn_block_num : Z;
  sn_dpos_proposed_irreversible_blocknum : Z;
  sn_dpos_irreversible_blocknum : Z;
  sn_active_schedule : legacy_schedule;
  sn_blockroot_merkle : incremental_merkle;
  sn_producer_to_last_produced : gmap account_name Z;
  sn_producer_to_last_implied_irb : gmap account_name Z;
  sn_block_signing_key : public_key;
  sn_confirm_count : list Z;
  sn_id : block_id;
  sn_header : signed_block_header;
  sn_pending_lib_num : Z;
  sn_pending_hash : digest;
  sn_pending_schedule : legacy_schedule;
  sn_activated_protocol_features : gset digest
}.

(** [block_header_state( legacy::snapshot_block_header_state_v2&& )]: the
    members the snapshot does not have are default constructed. *)
Definition of_snapshot_v2 (sn : snapshot_block_header_state_v2) : block_header_state :=
  mk_bhs
    (mk_common (sn_block_num sn) (sn_dpos_proposed_irreversible_blocknum sn)
       (sn_dpos_irreversible_blocknum sn) (schedule_of_legacy (sn_active_schedule sn))
       rate_default (sn_blockroot_merkle sn) (sn_producer_to_last_produced sn)
       (sn_producer_to_last_implied_irb sn)
       (mk_bsa 1 [mk_kw (sn_block_signing_key sn) 1]) (sn_confirm_count sn))
    (sn_id sn) (sn_header sn)
    (mk_schedule_info (sn_pending_lib_num sn) (sn_pending_hash sn)
       (schedule_of_legacy (sn_pending_schedule sn)))
    (mk_rate_info 0 digest_zero rate_default)
    (sn_activated_protocol_features sn) [] [].
