(* ===== verification/Samples.v ===== *)
(** * Concrete instances of the interfaces

    A [Crypto] and a [Serialization] that compute, and a few header states, at
    which the theorems on block headers are instantiated. The hash mixes its
    input without any claim to be a good hash; a signature is read as the key it
    was made with; an extension is serialized as its code in a countable type. *)

From S2P Require Import Prelude Types Authority Merkle BlockHeader BlockHeaderState.

Definition mix (l : list Z) : digest :=
  let m k := u64 (foldl (fun h x => h * 1099511628211 + x + k) (14695981039346656037 + k) l) in
  mk_digest (m 0) (m 1) (m 2) (m 3).

Definition digest_words (d : digest) : list Z := [hash0 d; hash1 d; hash2 d; hash3 d].

#[global] Instance sample_crypto : Crypto := {
  hash_header h := mix ([h_timestamp h; h_producer h; h_confirmed h]
    ++ digest_words (h_previous h) ++ digest_words (h_transaction_mroot h)
    ++ digest_words (h_action_mroot h) ++ [h_schedule_version h; h_rate_version h]);
  hash_pair '(a, b) := mix (digest_words a ++ digest_words b);
  hash_legacy_schedule s := mix (lps_version s :: map lpk_producer_name (lps_producers s));
  hash_schedule s := mix (sched_version s :: map producer_name (producers s));
  hash_rate r := match r with Some r => mix [sri_version r; sri_rate r] | None => mix [] end;
  recover sg _ := Ok (mk_public_key (sig_which sg) (sig_data sg))
}.

Definition encode_Z {A} `{Countable A} (a : A) : list Z := [Zpos (encode a)].
Definition decode_Z {A} `{Countable A} (l : list Z) : result A :=
  match l with
  | [Zpos c] => match decode c with Some a => Ok a | None => Throw unpack_error end
  | _ => Throw unpack_error
  end.

Lemma decode_encode_Z {A} `{Countable A} (a : A) : decode_Z (encode_Z a) = Ok a.
Proof. unfold decode_Z, encode_Z. by rewrite decode_encode. Qed.

#[global] Instance sample_serialization : Serialization := {
  pack_features := encode_Z;
  unpack_features := decode_Z;
  pack_schedule := encode_Z;
  unpack_schedule := decode_Z
}.

#[global] Instance sample_serialization_laws : SerializationLaws sample_serialization.
Proof. split; intros; apply decode_encode_Z. Qed.

(** ** A chain of four producers *)
Definition sample_key (n : Z) : public_key := mk_public_key 0 [n].
Definition sample_producer (n : Z) : producer_authority :=
  mk_producer n (mk_bsa 1 [mk_kw (sample_key n) 1]).
Definition sample_schedule (v : Z) (l : list Z) : producer_authority_schedule :=
  mk_schedule v (map sample_producer l).

Definition sample_header (slot : Z) : signed_block_header :=
  mk_signed_header
    (mk_header slot 1 0 (mk_digest (endian_reverse_u32 8) 0 0 0) digest_zero digest_zero
       0 None 0 None [])
    (mk_signature 0 [1]).

(** Block 9, produced by the first producer in slot 11; the last three blocks
    are tracked. *)
Definition sample_state : block_header_state :=
  mk_bhs
    (mk_common 9 6 5 (sample_schedule 0 [1; 2; 3; 4]) rate_default imerkle_empty
       {[1 := 9; 2 := 6; 3 := 7; 4 := 8]} {[1 := 6; 2 := 5; 3 := 5; 4 := 4]}
       (producer_auth (sample_producer 1)) [1; 2; 3])
    (mk_digest (endian_reverse_u32 9) 7 7 7) (sample_header 11)
    (mk_schedule_info 0 digest_zero (sample_schedule 0 []))
    (mk_rate_info 0 digest_zero rate_default) ∅ [] [].

Definition no_features : builtin_digests := fun _ => None.
Definition accept_all : activation_validator := fun _ _ _ => Ok tt.

(** The block after [sample_state], with a proposal for the producer rate. *)
Definition sample_next_header (new_rate : option shared_rate_info) : signed_block_header :=
  mk_signed_header
    (mk_header 12 2 1 (id sample_state) digest_zero digest_zero 0 None 0 new_rate [])
    (mk_signature 0 [2]).
