(* ===== verification/Dpos.v ===== *)
(** * Irreversibility: the DPoS part of the block header state

    What [calc_dpos_last_irreversible] computes, the invariant that
    [block_header_state::next] preserves on the confirmation counters and the
    numbers derived from them, the monotonicity of the irreversible block
    number and the guard against confirming a range twice. *)

From Stdlib Require Import Sorted.
From S2P Require Import Prelude Types Authority Merkle BlockHeader BlockHeaderState Samples.

(** ** The vote *)
Definition at_least (b : Z) (l : list Z) : nat := length (filter (fun x => b <= x) l).

Lemma at_least_le (b : Z) (l : list Z) : (at_least b l <= length l)%nat.
Proof. apply length_filter. Qed.

Lemma at_least_cons (b x : Z) (l : list Z) :
  at_least b (x :: l) = Nat.add (if decide (b <= x) then 1 else 0) (at_least b l).
Proof. unfold at_least. rewrite filter_cons. by case_decide. Qed.

#[global] Instance at_least_perm (b : Z) : Proper ((≡ₚ) ==> eq) (at_least b).
Proof. intros l l' Hl. unfold at_least. by rewrite Hl. Qed.

Lemma at_least_all (b : Z) (l : list Z) :
  Forall (fun x => b <= x) l -> at_least b l = length l.
Proof.
  induction 1 as [|x l Hx Hl IH]; [done|]. rewrite at_least_cons, IH. by case_decide.
Qed.

Lemma at_least_mono {A} (b : Z) (f g : A -> Z) (l : list A) :
  (forall x, x ∈ l -> b <= f x -> b <= g x) -> (at_least b (map f l) <= at_least b (map g l))%nat.
Proof.
  induction l as [|x l IH]; intros Hfg; [done|]. simpl. rewrite !at_least_cons.
  specialize (IH (fun y Hy => Hfg y (list_elem_of_further _ _ _ Hy))).
  pose proof (Hfg x (list_elem_of_here _ _)). repeat case_decide; lia || naive_solver lia.
Qed.

(** The element at an index of a sorted list bounds [b] exactly when everything
    from that index on does. *)
Lemma sorted_at_least (b x : Z) (l : list Z) (i : nat) :
  StronglySorted Z.le l -> l !! i = Some x ->
  b <= x <-> (length l - i <= at_least b l)%nat.
Proof.
  intros HS. revert i. induction HS as [|a l HS IH Ha]; intros i Hi; [done|].
  rewrite at_least_cons. pose proof (at_least_le b l). simpl.
  assert (Hall : b <= a -> at_least b l = length l).
  { intros. apply at_least_all. eapply Forall_impl; [exact Ha|]. simpl. lia. }
  destruct i as [|i]; simpl in Hi.
  - injection Hi as ->. case_decide; [rewrite Hall by done|]; split; lia.
  - rewrite Forall_forall in Ha. specialize (Ha x (list_elem_of_lookup_2 _ _ _ Hi)).
    specialize (IH i Hi). case_decide as Hba; [rewrite Hall in * by done|]; split; intros; lia || (apply IH; lia).
Qed.

Lemma one_third_index (n c : nat) :
  (0 < n)%nat -> (n - (n - 1) / 3 <= c <-> 2 * n < 3 * c)%nat.
Proof.
  intros Hn. pose proof (Nat.div_mod_eq (n - 1) 3).
  pose proof (Nat.mod_upper_bound (n - 1) 3 ltac:(lia)). lia.
Qed.

Lemma dpos_blocknums_length (s : block_header_state_common) (p : account_name) :
  length (dpos_blocknums s p) = size (producer_to_last_implied_irb s).
Proof. unfold dpos_blocknums. by rewrite length_map, length_map_to_list. Qed.

Lemma calc_dpos_none (s : block_header_state_common) (p : account_name) :
  size (producer_to_last_implied_irb s) = 0%nat -> calc_dpos_last_irreversible s p = Ok 0.
Proof. intros Hn. unfold calc_dpos_last_irreversible. by rewrite dpos_blocknums_length, Hn. Qed.

Lemma calc_dpos_quorum (s : block_header_state_common) (p : account_name) :
  size (producer_to_last_implied_irb s) <> 0%nat ->
  exists lib, calc_dpos_last_irreversible s p = Ok lib /\ lib ∈ dpos_blocknums s p /\
    forall b, b <= lib <->
      (2 * size (producer_to_last_implied_irb s) < 3 * at_least b (dpos_blocknums s p))%nat.
Proof.
  intros Hn. unfold calc_dpos_last_irreversible. rewrite dpos_blocknums_length.
  rewrite (proj2 (Nat.eqb_neq _ 0) Hn).
  set (votes := dpos_blocknums s p). set (n := size _) in *.
  assert (HP : merge_sort Z.le votes ≡ₚ votes) by apply merge_sort_Permutation.
  assert (HL : length (merge_sort Z.le votes) = n)
    by (rewrite HP; apply dpos_blocknums_length).
  destruct (lookup_lt_is_Some_2 (merge_sort Z.le votes) ((n - 1) / 3)%nat) as [lib Hlib].
  { rewrite HL. pose proof (Nat.Div0.div_le_upper_bound (n - 1) 3 (n - 1) ltac:(lia)). lia. }
  exists lib. split; [by apply vec_get_ok|]. split.
  - rewrite <- HP. by eapply list_elem_of_lookup_2.
  - intros b. rewrite (sorted_at_least b lib _ _ (StronglySorted_merge_sort _ votes) Hlib), HP.
    replace (length votes) with n by (symmetry; apply dpos_blocknums_length). apply one_third_index. lia.
Qed.

Lemma calc_dpos_total (s : block_header_state_common) (p : account_name) :
  exists lib, calc_dpos_last_irreversible s p = Ok lib.
Proof.
  destruct (decide (size (producer_to_last_implied_irb s) = 0%nat)) as [Hn|Hn].
  - exists 0. by apply calc_dpos_none.
  - destruct (calc_dpos_quorum s p Hn) as (lib & ? & _). eauto.
Qed.

(** C11. The irreversible block number a new block implies always exists, and it
    is the greatest number that more than two thirds of the tracked producers
    are at or above, the producer of the new block voting with the proposed
    number; without tracked producers it is 0. *)
Theorem calc_dpos_last_irreversible_spec (s : block_header_state_common) (p : account_name) :
  exists lib, calc_dpos_last_irreversible s p = Ok lib /\
    let votes := dpos_blocknums s p in
    let n := size (producer_to_last_implied_irb s) in
    if (n =? 0)%nat then lib = 0
    else lib ∈ votes /\ forall b, b <= lib <-> (2 * n < 3 * at_least b votes)%nat.
Proof.
  cbv zeta. destruct (Nat.eqb_spec (size (producer_to_last_implied_irb s)) 0) as [Hn|Hn].
  - exists 0. split; [by apply calc_dpos_none | done].
  - by apply calc_dpos_quorum.
Qed.

(** ** The successor state, field by field *)
Definition header_time (s : block_header_state) : Z := h_timestamp (h_base (header s)).

Definition required_confs (s : block_header_state_common) : Z :=
  u32 (u32 (Z.of_nat (length (producers (active_schedule s))) * 2 / 3) + 1).

Record next_facts `{Crypto} (s : block_header_state) (w n : Z) (p : pending_block_header_state) :
    Prop := {
  nf_producer : exists pa, get_scheduled_producer s (timestamp p) = Ok pa /\
    producer_name pa = producer p /\ producer_auth pa = valid_block_signing_authority p;
  nf_time : if w =? 0 then timestamp p = u32 (header_time s + 1)
            else timestamp p = w /\ header_time s < w;
  nf_guard : forall last, producer_to_last_produced s !! producer p = Some last ->
    last < u32 (u32 (block_num s + 1) - n);
  nf_num : block_num p = u32 (block_num s + 1);
  nf_root : append hash_pair (blockroot_merkle s) (id s) = Ok (blockroot_merkle p);
  nf_confirm : let cc := grow_confirm_count (confirm_count s) (required_confs s) in
    confirm_loop (block_num p) (length cc) (u32 (n + 1)) cc (dpos_proposed_irreversible_blocknum s)
      = Ok (confirm_count p, dpos_proposed_irreversible_blocknum p);
  nf_lib : calc_dpos_last_irreversible s (producer p) = Ok (dpos_irreversible_blocknum p);
  nf_promoted : was_pending_promoted p =
    (0 <? length (producers (schedule (pending_schedule s))))%nat &&
    (schedule_lib_num (pending_schedule s) <=? dpos_irreversible_blocknum p);
  nf_rate_promoted : was_pending_rate_promoted p =
    f64_positive (pri_rate (rate_rate_info (pending_rate s))) &&
    (rate_lib_num (pending_rate s) <=? dpos_irreversible_blocknum p);
  nf_schedule : active_schedule p =
    if was_pending_promoted p then schedule (pending_schedule s) else active_schedule s;
  nf_rate : active_rate p =
    if was_pending_rate_promoted p then rate_rate_info (pending_rate s) else active_rate s;
  nf_produced : producer_to_last_produced p =
    <[producer p := block_num p]>
      (if was_pending_promoted p
       then promoted_map (producers (active_schedule p)) (producer p) (block_num p)
              (dpos_irreversible_blocknum p) (producer_to_last_produced s)
       else producer_to_last_produced s);
  nf_irb : producer_to_last_implied_irb p =
    if was_pending_promoted p
    then promoted_map (producers (active_schedule p)) (producer p)
           (dpos_proposed_irreversible_blocknum s) (dpos_irreversible_blocknum p)
           (producer_to_last_implied_irb s)
    else <[producer p := dpos_proposed_irreversible_blocknum s]> (producer_to_last_implied_irb s);
  nf_prev : prev_pending_schedule p = pending_schedule s /\ prev_pending_rate p = pending_rate s /\
    prev_activated_protocol_features p = activated_protocol_features s /\
    previous p = id s /\ active_schedule_version p = sched_version (active_schedule s) /\
    active_rate_version p = pri_version (active_rate s) /\ confirmed p = n
}.

Lemma next_pending_facts `{Crypto} (s : block_header_state) (w n : Z)
    (p : pending_block_header_state) :
  next_pending s w n = Ok p -> next_facts s w n p.
Proof.
  unfold next_pending. intros H0. apply bind_ok_inv in H0 as (t & Ht & H0).
  apply bind_ok_inv in H0 as (pa & Hpa & H0).
  apply bind_ok_inv in H0 as (u & Hg & H0). cbv zeta in H0.
  apply bind_ok_inv in H0 as (root & Hroot & H0).
  apply bind_ok_inv in H0 as ([cc prop] & Hcc & H0).
  apply bind_ok_inv in H0 as (lib & Hlib & H0). injection H0 as <-.
  set (pr := (0 <? _)%nat && _). set (rr := f64_positive _ && _).
  split; cbn [timestamp producer pending_common block_num blockroot_merkle confirm_count
    dpos_proposed_irreversible_blocknum dpos_irreversible_blocknum was_pending_promoted
    was_pending_rate_promoted active_schedule active_rate producer_to_last_produced
    producer_to_last_implied_irb valid_block_signing_authority]; try done.
  - eauto.
  - unfold header_time. destruct (w =? 0); simpl in Ht; bind_ok; breflect; done.
  - intros last Hl. rewrite Hl in Hg. apply dcd_assert_ok, Z.ltb_lt in Hg. done.
  - by destruct pr.
  - by destruct pr.
Qed.

(** ** The confirmation counters *)
Definition counters_ok (cc : list Z) : Prop := Forall (fun c => 1 <= c <= 255) cc.

Lemma confirm_loop_spec (bn : Z) (i : nat) (btc : Z) (cc : list Z) (prop : Z) :
  counters_ok cc -> (i <= length cc)%nat -> Z.of_nat (length cc) <= bn < 2 ^ 32 ->
  exists cc' prop', confirm_loop bn i btc cc prop = Ok (cc', prop') /\ counters_ok cc' /\
    (length cc' = length cc /\ prop' = prop \/
     (length cc' < length cc)%nat /\ prop' = bn - Z.of_nat (length cc')).
Proof.
  revert btc cc. induction i as [|i IH]; intros btc cc Hok Hi Hbn; simpl; [eauto 10|].
  destruct (btc =? 0); [eauto 10|].
  destruct (lookup_lt_is_Some_2 cc i ltac:(lia)) as [c Hc].
  rewrite (proj2 (vec_get_ok cc i c) Hc). simpl.
  assert (Hc1 : 1 <= c <= 255) by (eapply Forall_lookup_1 in Hok; eauto).
  rewrite (wrap_small 8) by (split; lia). rewrite length_insert.
  destruct (Z.eqb_spec (c - 1) 0) as [Hz|Hz].
  - eexists _, _. split; [done|].
    replace (if (i =? length cc - 1)%nat then [] else drop (S i) (<[i:=c - 1]> cc))
      with (drop (S i) cc).
    2: { destruct (Nat.eqb_spec i (length cc - 1)).
         - apply drop_ge. lia.
         - symmetry. apply drop_insert_lt. lia. }
    split; [by apply Forall_drop|]. right. rewrite length_drop. split; [lia|].
    rewrite (wrap_small 32 (Z.of_nat _)) by (split; lia). rewrite wrap_small by (split; lia). lia.
  - destruct (IH (u32 (btc - 1)) (<[i:=c - 1]> cc)) as (cc' & prop' & E & Hok' & Hcase).
    + apply Forall_insert; [done|lia].
    + rewrite length_insert. lia.
    + by rewrite length_insert.
    + rewrite length_insert in Hcase. eauto 10.
Qed.

Lemma grow_confirm_count_spec (cc : list Z) (r : Z) :
  counters_ok cc -> 1 <= r <= 255 -> (length cc <= config.maximum_tracked_dpos_confirmations)%nat ->
  let cc' := grow_confirm_count cc r in
  counters_ok cc' /\ (length cc' <= config.maximum_tracked_dpos_confirmations)%nat /\
  (0 < length cc' <= S (length cc))%nat.
Proof.
  intros Hok Hr Hl. unfold grow_confirm_count. simpl.
  assert (0 < config.maximum_tracked_dpos_confirmations)%nat by (apply Nat.ltb_lt; reflexivity).
  rewrite (wrap_small 8) by (split; lia).
  destruct (Nat.ltb_spec (length cc) config.maximum_tracked_dpos_confirmations) as [Hlt|Hge];
    rewrite length_app; simpl length; (split; [|lia || (rewrite length_drop; lia)]).
  - apply Forall_app. split; [done | by apply Forall_singleton].
  - apply Forall_app. split; [by apply Forall_drop | by apply Forall_singleton].
Qed.

Lemma promoted_map_Forall (P : Z -> Prop) (ps : list producer_authority) (prod own lib : Z)
    (old : gmap account_name Z) :
  P own -> P lib -> map_Forall (fun _ b => P b) old ->
  map_Forall (fun _ b => P b) (promoted_map ps prod own lib old).
Proof.
  intros Ho Hl Hold. unfold promoted_map.
  assert (H0 : map_Forall (fun _ b => P b) (∅ : gmap account_name Z)) by apply map_Forall_empty.
  revert H0. generalize (∅ : gmap account_name Z). induction ps as [|pa ps IH]; intros m Hm; simpl; [done|].
  apply IH. destruct (_ =? _); [by apply map_Forall_insert_2|].
  destruct (old !! _) as [e|] eqn:E; apply map_Forall_insert_2; try done.
  by apply (Hold _ _ E).
Qed.

(** ** The invariant *)
Record dpos_inv (s : block_header_state_common) : Prop := {
  inv_num : block_num s < 2 ^ 32;
  inv_schedule : Z.of_nat (length (producers (active_schedule s))) <= config.max_producers;
  inv_tracked : (length (confirm_count s) <= config.maximum_tracked_dpos_confirmations)%nat;
  inv_counters : counters_ok (confirm_count s);
  inv_proposed : 0 <= dpos_proposed_irreversible_blocknum s;
  inv_window : dpos_proposed_irreversible_blocknum s + Z.of_nat (length (confirm_count s))
    <= block_num s;
  inv_irb : map_Forall (fun _ b => 0 <= b <= dpos_proposed_irreversible_blocknum s)
    (producer_to_last_implied_irb s);
  inv_lib : 0 <= dpos_irreversible_blocknum s <= dpos_proposed_irreversible_blocknum s;
  inv_produced : map_Forall (fun _ b => 0 <= b <= block_num s) (producer_to_last_produced s)
}.

Lemma required_confs_bound (s : block_header_state_common) :
  dpos_inv s -> 1 <= required_confs s <= 255.
Proof.
  intros [_ Hs _ _ _ _ _ _ _]. unfold required_confs, config.max_producers in *.
  rewrite (wrap_small 32 (_ / 3)) by (split; dlia). rewrite wrap_small by (split; dlia). dlia.
Qed.

(** The new number is voted on with numbers that do not exceed the proposed one. *)
Lemma calc_dpos_bound (s : block_header_state_common) (p : account_name) (lib : Z) :
  dpos_inv s -> calc_dpos_last_irreversible s p = Ok lib ->
  0 <= lib <= dpos_proposed_irreversible_blocknum s.
Proof.
  intros I E. pose proof (inv_proposed _ I) as Hp.
  destruct (decide (size (producer_to_last_implied_irb s) = 0%nat)) as [Hn|Hn].
  - rewrite calc_dpos_none in E by done. injection E as <-. lia.
  - destruct (calc_dpos_quorum s p Hn) as (lib' & E' & Hin & _). rewrite E in E'.
    injection E' as <-. unfold dpos_blocknums in Hin.
    apply list_elem_of_fmap in Hin as ([q v] & -> & Hq%elem_of_map_to_list). simpl.
    destruct (q =? p); [lia|]. apply (inv_irb _ I _ _ Hq).
Qed.

(** What a step adds to the window of tracked blocks. *)
Lemma next_window `{Crypto} (s : block_header_state) (w n : Z) (p : pending_block_header_state) :
  dpos_inv s -> block_num s + 1 < 2 ^ 32 -> next_facts s w n p ->
  counters_ok (confirm_count p) /\
  (length (confirm_count p) <= config.maximum_tracked_dpos_confirmations)%nat /\
  dpos_proposed_irreversible_blocknum s <= dpos_proposed_irreversible_blocknum p /\
  dpos_proposed_irreversible_blocknum p + Z.of_nat (length (confirm_count p)) <= block_num p /\
  block_num p = block_num s + 1.
Proof.
  intros I Hbn F. pose proof (nf_confirm _ _ _ _ F) as Hc. pose proof (nf_num _ _ _ _ F) as Hn.
  destruct I as [? ? Ht Hk Hp Hw ? ? ?].
  rewrite wrap_small in Hn by (split; lia). cbv zeta in Hc.
  destruct (grow_confirm_count_spec (confirm_count s) (required_confs s)) as (Gok & Gl & Gs);
    [done | by apply required_confs_bound | done |].
  set (cc := grow_confirm_count _ _) in *. rewrite Hn in Hc |- *.
  destruct (confirm_loop_spec (block_num s + 1) (length cc) (u32 (n + 1)) cc
    (dpos_proposed_irreversible_blocknum s)) as (cc' & prop' & E & Hok & Hcase); [done..|lia|].
  rewrite Hc in E. injection E as -> ->.
  destruct Hcase as [[-> ->]|[Hlt ->]]; split_and!; done || lia.
Qed.

(** C27. [next] preserves the DPoS invariant: at most 1024 blocks are tracked,
    every counter is at least 1 and fits its byte, the proposed irreversible
    block lies before the tracked window, and the numbers implied by producers,
    the irreversible number and the last produced numbers stay below it; the
    block number grows by one and the proposed number never decreases. *)
Theorem next_pending_dpos_inv `{Crypto} (s : block_header_state) (w n : Z)
    (p : pending_block_header_state) :
  dpos_inv s -> block_num s + 1 < 2 ^ 32 ->
  Z.of_nat (length (producers (schedule (pending_schedule s)))) <= config.max_producers ->
  next_pending s w n = Ok p ->
  dpos_inv p /\ block_num p = block_num s + 1 /\
  dpos_proposed_irreversible_blocknum s <= dpos_proposed_irreversible_blocknum p /\
  dpos_irreversible_blocknum p <= dpos_proposed_irreversible_blocknum s.
Proof.
  intros I Hbn Hps F%next_pending_facts.
  destruct (next_window s w n p I Hbn F) as (Hok & Hl & Hm & Hw & Hn).
  pose proof (calc_dpos_bound _ _ _ I (nf_lib _ _ _ _ F)) as Hlib.
  pose proof (inv_proposed _ I). pose proof (inv_irb _ I) as Hirb.
  pose proof (inv_produced _ I) as Hprod. pose proof (inv_window _ I).
  split_and!; try lia. split; try done; try lia.
  - rewrite (nf_schedule _ _ _ _ F). destruct (was_pending_promoted p); [done | apply I].
  - rewrite (nf_irb _ _ _ _ F).
    assert (map_Forall (fun _ b => 0 <= b <= dpos_proposed_irreversible_blocknum p)
      (producer_to_last_implied_irb s)) by (eapply map_Forall_impl; [exact Hirb|]; simpl; lia).
    destruct (was_pending_promoted p); [apply promoted_map_Forall | apply map_Forall_insert_2];
      done || lia.
  - rewrite (nf_produced _ _ _ _ F). apply map_Forall_insert_2; [lia|].
    assert (map_Forall (fun _ b => 0 <= b <= block_num p) (producer_to_last_produced s))
      by (eapply map_Forall_impl; [exact Hprod|]; simpl; lia).
    destruct (was_pending_promoted p); [apply promoted_map_Forall|]; done || lia.
Qed.

(** ** Monotonicity *)
Lemma lookup_size_nonzero {A} (m : gmap Z A) (k : Z) (v : A) : m !! k = Some v -> size m <> 0%nat.
Proof. intros Hk Hs%map_size_empty_inv. by rewrite Hs in Hk. Qed.

(** The vote of one tracked producer. *)
Definition vote (s : block_header_state_common) (p : account_name) (i : account_name * Z) : Z :=
  if fst i =? p then dpos_proposed_irreversible_blocknum s else snd i.

Lemma votes_insert (s : block_header_state_common) (m : gmap account_name Z) (q p x : Z) :
  producer_to_last_implied_irb s = <[q := x]> m ->
  dpos_blocknums s p ≡ₚ vote s p (q, x) :: map (vote s p) (map_to_list (delete q m)).
Proof.
  intros Hm. unfold dpos_blocknums. rewrite Hm, <- insert_delete_eq.
  by rewrite (map_to_list_insert (delete q m)) by apply lookup_delete_eq.
Qed.

(** Of the producers other than [q], a later vote has at least as many at or
    above a number that the proposed block reaches. *)
Lemma votes_rest_mono (s s' : block_header_state_common) (q q' b : Z) (m : gmap account_name Z) :
  b <= dpos_proposed_irreversible_blocknum s' -> m !! q = None ->
  (at_least b (map (vote s q) (map_to_list m)) <= at_least b (map (vote s' q') (map_to_list m)))%nat.
Proof.
  intros Hb Hq. apply at_least_mono. intros [k v] Hin%elem_of_map_to_list. unfold vote. simpl.
  destruct (Z.eqb_spec k q) as [->|]; [by rewrite Hq in Hin|]. by destruct (k =? q').
Qed.

(** A vote that is repeated after the producer's entry was raised to the
    proposed number carries at least as far. *)
Lemma calc_dpos_mono (s s' : block_header_state_common) (q q' lib lib' : Z) :
  dpos_inv s ->
  dpos_proposed_irreversible_blocknum s <= dpos_proposed_irreversible_blocknum s' ->
  producer_to_last_implied_irb s' =
    <[q := dpos_proposed_irreversible_blocknum s]> (producer_to_last_implied_irb s) ->
  calc_dpos_last_irreversible s q = Ok lib -> calc_dpos_last_irreversible s' q' = Ok lib' ->
  lib <= lib'.
Proof.
  intros I Hp Hm E E'. pose proof (calc_dpos_bound _ _ _ I E) as Hlib.
  destruct (calc_dpos_quorum s' q') as (l' & El' & _ & Hq').
  { rewrite Hm. eapply lookup_size_nonzero, lookup_insert_eq. }
  rewrite E' in El'. injection El' as <-. apply Hq'.
  rewrite (votes_insert s' _ q q' _ Hm), at_least_cons, Hm, map_size_insert.
  rewrite decide_True by (unfold vote; simpl; destruct (q =? q'); lia).
  pose proof (votes_rest_mono s s' q q' lib (delete q (producer_to_last_implied_irb s))
    ltac:(lia) (lookup_delete_eq _ _)) as Hrest.
  destruct (producer_to_last_implied_irb s !! q) as [v|] eqn:Ev.
  - assert (Hs : producer_to_last_implied_irb s = <[q := v]> (producer_to_last_implied_irb s))
      by (by rewrite insert_id).
    destruct (calc_dpos_quorum s q) as (l & El & _ & Hq).
    { by eapply lookup_size_nonzero. }
    rewrite E in El. injection El as <-. specialize (proj1 (Hq lib) ltac:(lia)) as Hc.
    rewrite (votes_insert s _ q q v Hs), at_least_cons in Hc. case_decide; simpl in *; lia.
  - destruct (decide (size (producer_to_last_implied_irb s) = 0%nat)) as [Hz|Hz]; [lia|].
    destruct (calc_dpos_quorum s q Hz) as (l & El & _ & Hq).
    rewrite E in El. injection El as <-. specialize (proj1 (Hq lib) ltac:(lia)) as Hc.
    change (dpos_blocknums s q) with (map (vote s q) (map_to_list (producer_to_last_implied_irb s))) in Hc.
    rewrite delete_id in Hrest |- * by done. lia.
Qed.

(** C34. Along a chain of header states the irreversible block number never
    decreases at a block that does not promote a pending schedule. *)
Theorem lib_monotone `{Crypto} (s s' : block_header_state) (w n w' n' : Z)
    (p p' : pending_block_header_state) :
  dpos_inv s -> block_num s + 1 < 2 ^ 32 ->
  next_pending s w n = Ok p -> was_pending_promoted p = false ->
  bhs_common s' = pending_common p -> next_pending s' w' n' = Ok p' ->
  dpos_irreversible_blocknum p <= dpos_irreversible_blocknum p'.
Proof.
  intros I Hbn F%next_pending_facts Hnp Hs' F'%next_pending_facts.
  destruct (next_window s w n p I Hbn F) as (_ & _ & Hm & _ & _).
  pose proof (nf_irb _ _ _ _ F) as Hirb. rewrite Hnp in Hirb.
  eapply (calc_dpos_mono s s' (producer p) (producer p')); rewrite ?Hs'; try done.
  - apply (nf_lib _ _ _ _ F).
  - rewrite <- Hs'. apply (nf_lib _ _ _ _ F').
Qed.

(** ** Double confirmation *)

(** A block that confirms [n] predecessors, with [n] not beyond the genesis
    block, is refused when its producer already produced one of the blocks it
    confirms: every block in the confirmed range is above the last block of
    that producer; and the new block becomes that last block. *)
Theorem confirmed_range_is_fresh `{Crypto} (s : block_header_state) (w n : Z)
    (p : pending_block_header_state) (last : Z) :
  0 <= block_num s -> block_num s + 1 < 2 ^ 32 -> 0 <= n <= block_num s + 1 ->
  producer_to_last_produced s !! producer p = Some last ->
  next_pending s w n = Ok p ->
  (forall b, block_num p - n <= b < block_num p -> last < b) /\
  producer_to_last_produced p !! producer p = Some (block_num p).
Proof.
  intros H0 Hbn Hn Hl F%next_pending_facts. pose proof (nf_guard _ _ _ _ F last Hl) as Hg.
  rewrite (nf_produced _ _ _ _ F), lookup_insert_eq. split; [|done].
  rewrite (nf_num _ _ _ _ F). rewrite !wrap_small in * by (split; lia || (rewrite ?wrap_small by (split; lia); lia)). lia.
Qed.

(** Whatever number of confirmations a block claims, only the guard can refuse it. *)
Lemma guard_decides `{Crypto} (s : block_header_state) (w n : Z) (p0 : pending_block_header_state) (last : Z) :
  dpos_inv s -> block_num s + 1 < 2 ^ 32 -> next_pending s w 0 = Ok p0 ->
  producer_to_last_produced s !! producer p0 = Some last ->
  if last <? u32 (block_num p0 - n)
  then exists p, next_pending s w n = Ok p /\ producer p = producer p0 /\ block_num p = block_num p0
  else next_pending s w n = Throw producer_double_confirm.
Proof.
  intros I Hbn E Hl. pose proof (inv_window _ I). pose proof (inv_proposed _ I).
  destruct (grow_confirm_count_spec (confirm_count s) (required_confs s)) as (Gok & _ & Gs); [apply I|by apply required_confs_bound|apply I|].
  unfold next_pending in *. apply bind_ok_inv in E as (t & -> & E). cbn [mbind result_bind].
  apply bind_ok_inv in E as (pa & -> & E). cbn [mbind result_bind]. apply bind_ok_inv in E as (u & _ & E). cbv zeta in E |- *.
  apply bind_ok_inv in E as (root & -> & E). apply bind_ok_inv in E as ([cc0 prop0] & _ & E).
  apply bind_ok_inv in E as (lib & Hlib & E). rewrite Hlib. injection E as <-.
  cbn [producer pending_common block_num] in *. rewrite Hl. unfold dcd_assert. destruct (last <? _); [|done]. cbn [mbind result_bind].
  fold (required_confs s). set (cc := grow_confirm_count _ _) in *.
  destruct (confirm_loop_spec (u32 (block_num s + 1)) (length cc) (u32 (n + 1)) cc (dpos_proposed_irreversible_blocknum s))
    as (cc' & prop' & -> & _); [done..|rewrite wrap_small by (split; lia); lia|]. by eexists.
Qed.


(** ** Witnesses *)
Lemma sample_state_inv : dpos_inv sample_state.
Proof.
  split; try (vm_compute; intuition congruence).
  - apply Nat.leb_le. reflexivity.
  - repeat constructor; lia.
  - apply map_Forall_to_list. vm_compute. repeat constructor; discriminate.
  - apply map_Forall_to_list. vm_compute. repeat constructor; discriminate.
Qed.

Lemma next_pending_dpos_inv_witness :
  exists p, next_pending sample_state 12 1 = Ok p /\ dpos_inv p.
Proof.
  eexists. split; [vm_compute; reflexivity|].
  eapply (next_pending_dpos_inv sample_state 12 1);
    [apply sample_state_inv | vm_compute; reflexivity | vm_compute; discriminate |
     vm_compute; reflexivity].
Defined.

(** The header state that continues a pending state, whatever its header. *)
Definition sample_succ (p : pending_block_header_state) (h : signed_block_header) :
    block_header_state :=
  mk_bhs (pending_common p) (mk_digest (endian_reverse_u32 10) 8 8 8) h
    (prev_pending_schedule p) (prev_pending_rate p) (prev_activated_protocol_features p) [] [].

Lemma lib_monotone_witness :
  exists p p', next_pending sample_state 12 1 = Ok p /\
    next_pending (sample_succ p (sample_header 12)) 24 1 = Ok p' /\
    dpos_irreversible_blocknum p <= dpos_irreversible_blocknum p'.
Proof.
  eexists _, _. split; [vm_compute; reflexivity|]. split; [vm_compute; reflexivity|].
  eapply (lib_monotone sample_state (sample_succ _ (sample_header 12)) 12 1 24 1);
    [apply sample_state_inv | vm_compute; reflexivity | vm_compute; reflexivity |
     reflexivity | reflexivity | vm_compute; reflexivity].
Defined.

Lemma confirmed_range_is_fresh_witness :
  exists p, next_pending sample_state 12 1 = Ok p /\
    (forall b, block_num p - 1 <= b < block_num p -> 6 < b).
Proof.
  eexists. split; [vm_compute; reflexivity|].
  eapply (confirmed_range_is_fresh sample_state 12 1);
    [vm_compute; discriminate | vm_compute; reflexivity | split; vm_compute; discriminate |
     vm_compute; reflexivity | vm_compute; reflexivity].
Defined.

