(* ===== verification/HeaderChain.v ===== *)
(** * Chains of block header states

    What an accepted header has in common with the state it extends, how
    producer schedules and the producer rate succeed one another, what the
    signatures of a block must satisfy, and that a header made by
    [make_block_header] is accepted. *)

From S2P Require Import Prelude Types Authority Merkle BlockHeader BlockHeaderState Samples Dpos.

Section chain.
Context `{Crypto} `{Serialization}.

(** ** The result of [_finish_next] *)
Record finish_facts (p : pending_block_header_state) (h : signed_block_header)
    (pfs : builtin_digests) (validator : activation_validator) (s : block_header_state) : Prop := {
  ff_time : h_timestamp (h_base h) = timestamp p;
  ff_previous : h_previous (h_base h) = previous p;
  ff_confirmed : h_confirmed (h_base h) = confirmed p;
  ff_producer : h_producer (h_base h) = producer p;
  ff_common : bhs_common s = pending_common p;
  ff_id : id s = calculate_id (h_base h);
  ff_header : header s = h;
  ff_features : check_feature_activation p (header_exts s) validator =
    Ok (activated_protocol_features s);
  ff_schedule :
    pending_schedule s = mk_schedule_info (schedule_lib_num (prev_pending_schedule p))
      (schedule_hash (prev_pending_schedule p))
      (if was_pending_promoted p
       then mk_schedule (sched_version (schedule (prev_pending_schedule p))) []
       else schedule (prev_pending_schedule p)) \/
    was_pending_promoted p = false /\ producers (schedule (prev_pending_schedule p)) = [] /\
    schedule_lib_num (pending_schedule s) = block_num p /\
    sched_version (schedule (pending_schedule s)) = u32 (sched_version (active_schedule p) + 1);
  ff_rate :
    match h_new_rate (h_base h) with
    | None =>
        pending_rate s = mk_rate_info (rate_lib_num (prev_pending_rate p))
          (rate_hash (prev_pending_rate p))
          (if was_pending_rate_promoted p
           then mk_rate (pri_version (rate_rate_info (prev_pending_rate p))) 0
           else rate_rate_info (prev_pending_rate p))
    | Some r =>
        was_pending_rate_promoted p = false /\
        f64_eq (pri_rate (rate_rate_info (prev_pending_rate p))) 0 = true /\
        sri_version r = u32 (pri_version (active_rate p) + 1) /\
        rate_lib_num (pending_rate s) = block_num p /\
        rate_rate_info (pending_rate s) = mk_rate (sri_version r) (sri_rate r)
    end
}.

Lemma check_new_producers_ok (p : pending_block_header_state) (h : block_header) (b : bool)
    (o : option (producer_authority_schedule * digest)) :
  check_new_producers p h b = Ok o ->
  match o with
  | None => True
  | Some (sch, _) => was_pending_promoted p = false /\
      producers (schedule (prev_pending_schedule p)) = [] /\
      sched_version sch = u32 (sched_version (active_schedule p) + 1)
  end.
Proof.
  unfold check_new_producers. destruct (h_new_producers h); intros E; bind_ok; [|done].
  breflect. split_and!; try done. by apply length_zero_iff_nil, Nat.eqb_eq.
Qed.

Lemma check_schedule_change_ok (p : pending_block_header_state)
    (exts : list (Z * block_header_extension)) (b : bool)
    (prior o : option (producer_authority_schedule * digest)) :
  check_schedule_change p exts b prior = Ok o ->
  o = prior \/
  match o with
  | None => False
  | Some (sch, _) => was_pending_promoted p = false /\
      producers (schedule (prev_pending_schedule p)) = [] /\
      sched_version sch = u32 (sched_version (active_schedule p) + 1)
  end.
Proof.
  unfold check_schedule_change. destruct (0 <? _)%nat; intros E; bind_ok; [|by left].
  right. breflect. split_and!; try done. by apply length_zero_iff_nil, Nat.eqb_eq.
Qed.

Lemma check_new_rate_ok (p : pending_block_header_state) (h : block_header)
    (o : option (producer_rate_info * digest)) :
  check_new_rate p h = Ok o ->
  match h_new_rate h, o with
  | None, None => True
  | Some r, Some (ri, _) => was_pending_rate_promoted p = false /\
      f64_eq (pri_rate (rate_rate_info (prev_pending_rate p))) 0 = true /\
      sri_version r = u32 (pri_version (active_rate p) + 1) /\
      ri = mk_rate (sri_version r) (sri_rate r)
  | _, _ => False
  end.
Proof.
  unfold check_new_rate. destruct (h_new_rate h); intros E; bind_ok; [|done].
  breflect. by split_and!.
Qed.

Lemma finish_facts_intro (p : pending_block_header_state) (h : signed_block_header)
    (pfs : builtin_digests) (validator : activation_validator) (s : block_header_state) :
  _finish_next p h pfs validator = Ok s -> finish_facts p h pfs validator s.
Proof.
  unfold _finish_next. intros E.
  do 6 (apply bind_ok_inv in E as (? & ?%dcd_assert_ok & E)). breflect.
  apply bind_ok_inv in E as (exts & Hexts & E). cbv zeta in E.
  apply bind_ok_inv in E as (np & Hnp%check_new_producers_ok & E).
  apply bind_ok_inv in E as (nr & Hnr%check_new_rate_ok & E).
  apply bind_ok_inv in E as (ns & Hns%check_schedule_change_ok & E).
  apply bind_ok_inv in E as (act & Hact & E). injection E as <-.
  split; try done; simpl.
  - assert (Hs : match ns with
      | None => True
      | Some (sch, _) => was_pending_promoted p = false /\
          producers (schedule (prev_pending_schedule p)) = [] /\
          sched_version sch = u32 (sched_version (active_schedule p) + 1)
      end) by (destruct Hns as [->|Hns]; [done | by destruct ns as [[]|]]).
    destruct ns as [[sch hs]|]; [right; simpl; tauto | by left].
  - destruct (h_new_rate (h_base h)), nr as [[ri hr]|]; try done.
    destruct Hnr as (? & ? & ? & ->). by split_and!.
Qed.

(** A step of the chain, with its pending state. *)
Lemma next_inv (s : block_header_state) (h : signed_block_header) (sigs : list signature)
    (pfs : builtin_digests) (validator : activation_validator) (skip : bool)
    (s' : block_header_state) :
  next s h sigs pfs validator skip = Ok s' ->
  exists p, next_facts s (h_timestamp (h_base h)) (h_confirmed (h_base h)) p /\
    finish_facts p h pfs validator s' /\ (skip = false -> verify_signee s' = Ok tt).
Proof.
  unfold next. intros E. apply bind_ok_inv in E as (p & Hp%next_pending_facts & E).
  unfold finish_next in E. apply bind_ok_inv in E as (u & _ & E).
  apply bind_ok_inv in E as (s0 & F%finish_facts_intro & E). cbv zeta in E.
  apply bind_ok_inv in E as (v & Hv & E). injection E as <-. exists p. split; [done|]. split.
  - destruct (0 <? length sigs)%nat; [|done]. destruct F. by split.
  - intros ->. by destruct v.
Qed.

(** ** Links *)

(** An accepted header names the state it extends as its predecessor, is
    produced by the producer scheduled for its slot, lies strictly later, and
    its state has the next block number, which is also the number encoded in
    its identifier. *)
Theorem next_links (s : block_header_state) (h : signed_block_header) (sigs : list signature)
    (pfs : builtin_digests) (validator : activation_validator) (skip : bool)
    (s' : block_header_state) :
  0 <= header_time s < 2 ^ 32 - 1 -> 0 <= block_num s < 2 ^ 32 - 1 ->
  num_from_id (id s) = block_num s -> fits 64 (hash0 (hash_header (h_base h))) ->
  next s h sigs pfs validator skip = Ok s' ->
  header s' = h /\ h_previous (h_base h) = id s /\ header_time s < header_time s' /\
  (exists pa, get_scheduled_producer s (header_time s') = Ok pa /\
     producer_name pa = h_producer (h_base h) /\
     producer_auth pa = valid_block_signing_authority s') /\
  block_num s' = block_num s + 1 /\ num_from_id (id s') = block_num s'.
Proof.
  intros Ht Hb Hid Hf (p & F & G & _)%next_inv.
  assert (Hprev : h_previous (h_base h) = id s)
    by (rewrite (ff_previous _ _ _ _ _ G); apply (nf_prev _ _ _ _ F)).
  pose proof (nf_num _ _ _ _ F) as Hn. pose proof (nf_time _ _ _ _ F) as Htp.
  rewrite wrap_small in Hn by (split; lia).
  assert (Ht' : header_time s' = timestamp p)
    by (unfold header_time; rewrite (ff_header _ _ _ _ _ G); apply G).
  split; [apply G|]. split; [done|]. split; [|split; [|split]].
  - rewrite Ht'. rewrite <- (ff_time _ _ _ _ _ G) in Htp |- *.
    destruct (Z.eqb_spec (h_timestamp (h_base h)) 0) as [Hz|Hz]; [|lia].
    rewrite wrap_small in Htp by (split; lia). lia.
  - rewrite Ht', (ff_common _ _ _ _ _ G), (ff_producer _ _ _ _ _ G). apply (nf_producer _ _ _ _ F).
  - by rewrite (ff_common _ _ _ _ _ G).
  - rewrite (ff_id _ _ _ _ _ G), num_from_calculate_id by done.
    unfold header_block_num. rewrite Hprev, Hid, (ff_common _ _ _ _ _ G), Hn.
    apply wrap_small. split; lia.
Qed.

(** ** The root of all block identifiers *)

(** [extends ids s]: [s] was reached from a state with an empty block root, and
    [ids] are the identifiers of the states before [s], oldest first. *)
Inductive extends : list block_id -> block_header_state -> Prop :=
  | extends_root (s : block_header_state) : blockroot_merkle s = imerkle_empty -> extends [] s
  | extends_next ids (s : block_header_state) h sigs pfs validator skip s' :
      extends ids s -> next s h sigs pfs validator skip = Ok s' -> extends (ids ++ [id s]) s'.

(** The block root of a header state is the Merkle root of the identifiers
    of all its predecessors, in order. *)
Theorem blockroot_is_merkle_root (ids : list block_id) (s : block_header_state) :
  extends ids s -> Z.of_nat (length ids) <= 2 ^ 63 ->
  exists r, get_root (blockroot_merkle s) = Ok r /\ merkle hash_pair ids = Ok r.
Proof.
  intros E Hl. apply imerkle_inv_root. revert Hl.
  induction E as [s Hs|ids s h sigs pfs v skip s' E IH (p & F & G & _)%next_inv]; intros Hl.
  - rewrite Hs. apply imerkle_inv_empty.
  - rewrite length_app in Hl. simpl in Hl.
    destruct (append_inv hash_pair ids (blockroot_merkle s) (id s)) as (m & Hm & Hi);
      [lia | apply IH; lia |].
    rewrite (nf_root _ _ _ _ F) in Hm. injection Hm as <-. by rewrite (ff_common _ _ _ _ _ G).
Qed.

(** ** Producer schedules *)
Definition schedule_inv (s : block_header_state) : Prop :=
  producers (schedule (pending_schedule s)) <> [] ->
  sched_version (schedule (pending_schedule s)) = u32 (sched_version (active_schedule s) + 1).

(** Producer schedules succeed one another by single steps: a block keeps
    the active schedule, or replaces it by the pending one, which then is not
    empty, was proposed in a block that is now irreversible and has the next
    version; and a pending schedule that waits is not replaced. *)
Theorem schedule_succession (s : block_header_state) (h : signed_block_header)
    (sigs : list signature) (pfs : builtin_digests) (validator : activation_validator)
    (skip : bool) (s' : block_header_state) :
  schedule_inv s -> next s h sigs pfs validator skip = Ok s' ->
  schedule_inv s' /\
  (active_schedule s' = active_schedule s /\
   (producers (schedule (pending_schedule s)) <> [] -> pending_schedule s' = pending_schedule s) \/
   active_schedule s' = schedule (pending_schedule s) /\
   producers (active_schedule s') <> [] /\
   schedule_lib_num (pending_schedule s) <= dpos_irreversible_blocknum s' /\
   sched_version (active_schedule s') = u32 (sched_version (active_schedule s) + 1) /\
   producers (schedule (pending_schedule s')) = []).
Proof.
  intros I (p & F & G & _)%next_inv. unfold schedule_inv in *.
  destruct (nf_prev _ _ _ _ F) as (Hps & _).
  pose proof (nf_promoted _ _ _ _ F) as Hpr. pose proof (nf_schedule _ _ _ _ F) as Hsch.
  pose proof (ff_schedule _ _ _ _ _ G) as Hff. rewrite Hps in Hff.
  rewrite (ff_common _ _ _ _ _ G). destruct (was_pending_promoted p).
  - destruct Hff as [Hff|[[=] _]]. rewrite Hff, Hsch. symmetry in Hpr. breflect.
    assert (Hne : producers (schedule (pending_schedule s)) <> [])
      by (intros Hnil; by rewrite Hnil in *).
    split; [done|]. right. split_and!; auto.
  - rewrite Hsch. destruct Hff as [Hff|(_ & He & _ & Hv)].
    + destruct (pending_schedule s) as [l hs sch] eqn:Ep; simpl in *.
      rewrite Hff; simpl. split; [done|]. by left.
    + split; [by rewrite <- Hsch|]. left. split; [done|]. by intros [].
Qed.

(** ** The producer rate *)

(** The producer rate is replaced only by the pending rate, which then is
    positive and was announced in a block that is now irreversible, and a block
    that announces a new rate has no other rate pending and gives it the version
    after the active one. *)
Theorem rate_succession (s : block_header_state) (h : signed_block_header)
    (sigs : list signature) (pfs : builtin_digests) (validator : activation_validator)
    (skip : bool) (s' : block_header_state) :
  next s h sigs pfs validator skip = Ok s' ->
  (active_rate s' = active_rate s \/
   active_rate s' = rate_rate_info (pending_rate s) /\
   f64_positive (pri_rate (active_rate s')) = true /\
   rate_lib_num (pending_rate s) <= dpos_irreversible_blocknum s') /\
  (forall r, h_new_rate (h_base h) = Some r ->
     active_rate s' = active_rate s /\
     f64_eq (pri_rate (rate_rate_info (pending_rate s))) 0 = true /\
     sri_version r = u32 (pri_version (active_rate s) + 1) /\
     rate_rate_info (pending_rate s') = mk_rate (sri_version r) (sri_rate r)).
Proof.
  intros (p & F & G & _)%next_inv. destruct (nf_prev _ _ _ _ F) as (_ & Hpr & _).
  pose proof (nf_rate_promoted _ _ _ _ F) as Hp. pose proof (nf_rate _ _ _ _ F) as Hr.
  pose proof (ff_rate _ _ _ _ _ G) as Hff. rewrite Hpr in Hff. rewrite (ff_common _ _ _ _ _ G).
  split.
  - destruct (was_pending_rate_promoted p); [right|by left]. symmetry in Hp. breflect.
    rewrite Hr. by split_and!.
  - intros r Er. rewrite Er in Hff. destruct Hff as (Hf & He & Hv & _ & Hi).
    rewrite Hf in Hr. rewrite Hr in *. by split_and!.
Qed.

(** A rate that is neither positive nor zero: a negative number or a NaN. *)
Definition rate_stuck (r : Z) : Prop := f64_positive r = false /\ f64_eq r 0 = false.

Inductive descends (s : block_header_state) : block_header_state -> Prop :=
  | descends_refl : descends s s
  | descends_next s1 h sigs pfs validator skip s2 :
      descends s s1 -> next s1 h sigs pfs validator skip = Ok s2 -> descends s s2.

Lemma rate_stuck_next (s : block_header_state) (h : signed_block_header)
    (sigs : list signature) (pfs : builtin_digests) (validator : activation_validator)
    (skip : bool) (s' : block_header_state) :
  rate_stuck (pri_rate (rate_rate_info (pending_rate s))) ->
  next s h sigs pfs validator skip = Ok s' ->
  rate_rate_info (pending_rate s') = rate_rate_info (pending_rate s) /\
  active_rate s' = active_rate s /\ h_new_rate (h_base h) = None.
Proof.
  intros [Hpos Hz] (p & F & G & _)%next_inv. destruct (nf_prev _ _ _ _ F) as (_ & Hpr & _).
  pose proof (nf_rate_promoted _ _ _ _ F) as Hp. rewrite Hpos in Hp. simpl in Hp.
  pose proof (nf_rate _ _ _ _ F) as Hr. rewrite Hp in Hr.
  pose proof (ff_rate _ _ _ _ _ G) as Hff. rewrite Hpr, Hp in Hff.
  rewrite (ff_common _ _ _ _ _ G).
  destruct (h_new_rate (h_base h)); [destruct Hff as (_ & He & _); congruence|].
  by rewrite Hff.
Qed.

Lemma rate_stuck_descends (s s' : block_header_state) :
  rate_stuck (pri_rate (rate_rate_info (pending_rate s))) -> descends s s' ->
  rate_rate_info (pending_rate s') = rate_rate_info (pending_rate s) /\
  active_rate s' = active_rate s.
Proof.
  intros Hs. induction 1 as [|s1 h sigs pfs v skip s2 D [IH1 IH2] E]; [done|].
  destruct (rate_stuck_next s1 h sigs pfs v skip s2) as (H1 & H2 & _); [by rewrite IH1|done|].
  by rewrite H1, H2.
Qed.

(** ** Signatures *)

(** The keys a list of signatures recovers to. *)
Definition recovers (d : digest) (sigs : list signature) (ks : list public_key) : Prop :=
  Forall2 (fun sg k => recover sg d = Ok k) sigs ks.

Lemma collect_keys_ok (d : digest) (sigs : list signature) (keys keys' : gset public_key) :
  collect_keys d sigs keys = Ok keys' <->
  exists ks, recovers d sigs ks /\ NoDup ks /\ (forall k, k ∈ ks -> k ∉ keys) /\
    keys' = list_to_set ks ∪ keys.
Proof.
  revert keys. induction sigs as [|sg sigs IH]; intros keys; simpl.
  { split.
    - intros [= <-]. exists []. split_and!; [constructor | constructor | set_solver | set_solver].
    - intros (ks & R & _ & _ & ->). inversion R; subst. f_equal. set_solver. }
  split.
  - intros E. apply bind_ok_inv in E as (k & Hk & E).
    apply bind_ok_inv in E as (u & Hu%dcd_assert_ok & E). breflect.
    apply IH in E as (ks & R & ND & Hd & ->). exists (k :: ks). split_and!.
    + by constructor.
    + constructor; [|done]. intros Hin. set_solver.
    + set_solver.
    + set_solver.
  - intros (ks & R & ND & Hd & ->). inversion R as [|? k ? ks' Hk R']; subst.
    inversion ND as [|? ? Hnk ND']; subst. rewrite Hk. simpl.
    rewrite bool_decide_eq_true_2 by (apply Hd; set_solver). simpl. apply IH.
    exists ks'. split_and!; [done|done| |set_solver]. intros k' Hk' [->%elem_of_singleton|]%elem_of_union; set_solver.
Qed.

(** The relevant keys are all of them exactly when the authority knows them. *)
Lemma presented_all (a : block_signing_authority_v0) (keys : gset public_key) :
  NoDup (map kw_key (bsa_keys a)) ->
  length (presented keys (bsa_keys a)) = size keys <->
  (forall k, k ∈ keys -> k ∈ map kw_key (bsa_keys a)).
Proof.
  intros ND.
  assert (Hset : list_to_set (map kw_key (presented keys (bsa_keys a))) ⊆ keys).
  { intros k Hk%elem_of_list_to_set. apply list_elem_of_fmap in Hk as (kw & -> & Hkw).
    by apply list_elem_of_filter in Hkw as [? _]. }
  assert (NDp : NoDup (map kw_key (presented keys (bsa_keys a)))).
  { unfold presented. clear Hset. revert ND. generalize (bsa_keys a) as l.
    induction l as [|kw l IH]; intros ND; simpl; [constructor|]. inversion ND; subst.
    rewrite filter_cons. case_decide; [|by apply IH]. simpl. constructor; [|by apply IH].
    intros (kw' & ? & [_ ?]%list_elem_of_filter)%list_elem_of_fmap.
    match goal with Hn : _ ∉ _ |- _ => apply Hn end. apply list_elem_of_fmap. eauto. }
  assert (Hsz : size (list_to_set (C:=gset public_key) (map kw_key (presented keys (bsa_keys a))))
    = length (presented keys (bsa_keys a))) by (rewrite size_list_to_set, length_map; done).
  rewrite <- Hsz. split.
  - intros He k Hk. assert (Heq : list_to_set (map kw_key (presented keys (bsa_keys a))) = keys).
    { apply set_eq. apply set_subseteq_size_equiv; [done | lia]. }
    rewrite <- Heq in Hk. apply elem_of_list_to_set, list_elem_of_fmap in Hk as (kw & -> & Hkw).
    apply list_elem_of_filter in Hkw as [_ ?]. apply list_elem_of_fmap. eauto.
  - intros Hin. f_equal. apply set_eq. intros k. split; [apply Hset|]. intros Hk.
    apply elem_of_list_to_set, list_elem_of_fmap.
    destruct (proj1 (list_elem_of_fmap _ _ _) (Hin k Hk)) as (kw & -> & Hkw).
    exists kw. split; [done|]. by apply list_elem_of_filter.
Qed.

(** The types of a block signing authority whose keys are listed once. *)
Definition signing_authority_ok (a : block_signing_authority_v0) : Prop :=
  fits 32 (bsa_threshold a) /\ Forall (fun k => fits 16 (kw_weight k)) (bsa_keys a) /\
  NoDup (map kw_key (bsa_keys a)).

(** The signatures of a block are accepted exactly when they recover to
    distinct keys, no more than the authority lists, all of them keys of the
    authority of the scheduled producer, whose weights reach its threshold. *)
Theorem verify_signee_spec (s : block_header_state) :
  signing_authority_ok (valid_block_signing_authority s) ->
  verify_signee s = Ok tt <->
  exists d ks, sig_digest s = Ok d /\
    recovers d (h_producer_signature (header s) :: additional_signatures s) ks /\ NoDup ks /\
    (length ks <= length (bsa_keys (valid_block_signing_authority s)))%nat /\
    Forall (fun k => k ∈ map kw_key (bsa_keys (valid_block_signing_authority s))) ks /\
    bsa_threshold (valid_block_signing_authority s) <=
      weights_sum kw_weight
        (presented (list_to_set ks) (bsa_keys (valid_block_signing_authority s))).
Proof.
  intros (Hth & HW & ND). unfold verify_signee. split.
  - intros E. apply bind_ok_inv in E as (? & Hl%dcd_assert_ok%Nat.leb_le & E).
    apply bind_ok_inv in E as (d & Hd & E). apply bind_ok_inv in E as (k & Hk & E).
    apply bind_ok_inv in E as (keys & (ks & R & NDk & Hnk & ->)%collect_keys_ok & E).
    rewrite keys_satisfy_and_relevant_eq in E by done.
    apply bind_ok_inv in E as (? & Hrel%dcd_assert_ok%Nat.eqb_eq & Hsat%dcd_assert_ok%Z.leb_le).
    rewrite presented_all in Hrel by done. exists d, (k :: ks).
    replace (list_to_set ks ∪ {[k]}) with (list_to_set (C:=gset public_key) (k :: ks)) in *
      by set_solver.
    split_and!; try done.
    + by constructor.
    + constructor; [|done]. intros Hin. by apply (Hnk k Hin), elem_of_singleton.
    + simpl. by rewrite <- (Forall2_length _ _ _ R).
    + apply Forall_forall. intros k' Hk'. apply Hrel. by apply elem_of_list_to_set.
  - intros (d & ks0 & Hd & R & NDk & Hl & Hin & Hw).
    inversion R as [|? k ? ks Hk R']; subst. inversion NDk as [|? ? Hnk NDk']; subst.
    pose proof (Forall2_length _ _ _ R') as Hlen. simpl in Hl.
    rewrite (proj2 (Nat.leb_le _ _)) by (simpl; lia). simpl. rewrite Hd. simpl. rewrite Hk. simpl.
    rewrite (proj2 (collect_keys_ok d (additional_signatures s) {[k]} (list_to_set ks ∪ {[k]}))).
    2: { exists ks. split_and!; try done. intros k' Hk' ->%elem_of_singleton. done. }
    simpl. replace (list_to_set ks ∪ {[k]}) with (list_to_set (C:=gset public_key) (k :: ks))
      by set_solver.
    rewrite keys_satisfy_and_relevant_eq by done.
    rewrite (proj2 (presented_all _ _ ND)), Nat.eqb_refl.
    + simpl. rewrite (proj2 (Z.leb_le _ _)); done.
    + intros k' Hk'%elem_of_list_to_set. rewrite Forall_forall in Hin. by apply Hin.
Qed.

(** ** A produced header is accepted *)
Lemma reflector_init_loop_ok (l : list digest) (s : gset digest) :
  NoDup l -> (forall d, d ∈ l -> d ∉ s) -> reflector_init_loop l s = Ok tt.
Proof.
  intros ND. revert s. induction ND as [|d l Hd ND IH]; intros s Hs; simpl; [done|].
  rewrite bool_decide_eq_true_2 by (apply Hs; set_solver). simpl. apply IH. set_solver.
Qed.

Lemma activation_set_ok (s : gset digest) (l : list digest) :
  NoDup l -> (forall d, d ∈ l -> d ∉ s) ->
  protocol_feature_activation_set s l = Ok (s ∪ list_to_set l).
Proof.
  intros ND Hd. unfold protocol_feature_activation_set.
  rewrite size_union by set_solver. rewrite size_list_to_set by done.
  by rewrite Nat.eqb_refl.
Qed.

(** What the producer may put into a header on top of a pending state. *)
Record producible (p : pending_block_header_state) (new_producers : option producer_authority_schedule)
    (new_rate : option producer_rate_info) (features : list digest)
    (validator : activation_validator) : Prop := {
  pr_producers : forall sch, new_producers = Some sch -> was_pending_promoted p = false /\
    sched_version sch = u32 (sched_version (active_schedule p) + 1) /\
    producers (schedule (prev_pending_schedule p)) = [];
  pr_rate : forall r, new_rate = Some r -> was_pending_rate_promoted p = false /\
    pri_version r = u32 (pri_version (active_rate p) + 1) /\
    f64_eq (pri_rate (rate_rate_info (prev_pending_rate p))) 0 = true;
  pr_features : NoDup features /\
    (forall d, d ∈ features -> d ∉ prev_activated_protocol_features p) /\
    validator (timestamp p) (prev_activated_protocol_features p) features = Ok tt
}.

Lemma downgrade_length (ps : list producer_authority) (l : list legacy_producer_key) :
  downgrade_producers ps = Ok l -> length l = length ps.
Proof.
  revert l. induction ps as [|p ps IH]; intros l E; simpl in E; [by simplify_eq|].
  destruct (bsa_keys (producer_auth p)) as [|kw [|]]; [done| |done]. bind_ok. simpl. f_equal. by apply IH.
Qed.

Lemma make_block_header_exts `{!SerializationLaws _} (p : pending_block_header_state)
    (tm am : digest) (np : option producer_authority_schedule) (nr : option producer_rate_info)
    (features : list digest) (pfs : builtin_digests) (h : signed_block_header) :
  NoDup features -> make_block_header p tm am np nr features pfs = Ok h ->
  let wtmsig := is_builtin_activated (prev_activated_protocol_features p) pfs
                  wtmsig_block_signatures in
  exists lp,
    h_base h = mk_header (timestamp p) (producer p) (confirmed p) (previous p) tm am
      (active_schedule_version p) lp (active_rate_version p)
      (match nr with Some r => Some (mk_shared_rate (pri_version r) (pri_rate r)) | None => None end)
      (h_header_extensions (h_base h)) /\
    validate_and_extract_header_extensions (h_base h) =
      Ok ((if (0 <? length features)%nat then [(pfa_extension_id, pfa_extension features)] else []) ++
          match np with
          | Some sch => if wtmsig then [(schedule_change_extension_id, schedule_change_extension sch)]
                        else []
          | None => []
          end) /\
    match np with
    | Some sch => if wtmsig then lp = None
                  else exists l, lp = Some (mk_legacy_schedule (sched_version sch) l) /\
                         length l = length (producers sch)
    | None => lp = None
    end.
Proof.
  intros ND E. cbv zeta. unfold make_block_header in E.
  apply bind_ok_inv in E as ([exts lp] & El & E). injection E as <-. exists lp. simpl.
  split; [done|]. unfold validate_and_extract_header_extensions. simpl.
  assert (Hinit : (0 <? length features)%nat = true -> reflector_init features = Ok tt).
  { intros Hl. unfold reflector_init. rewrite Hl. simpl. apply reflector_init_loop_ok; [done|set_solver]. }
  destruct (0 <? length features)%nat; destruct np as [sch|]; simpl in El;
    [|injection El as <- <-| |injection El as <- <-];
    try (destruct (is_builtin_activated _ _ _); [injection El as <- <-|bind_ok; simplify_eq]);
    simpl; unfold extract; simpl; rewrite ?unpack_pack_features; simpl; rewrite ?Hinit by done;
    simpl; rewrite ?unpack_pack_schedule; simpl; eauto using downgrade_length.
Qed.

Lemma produced_rate (p : pending_block_header_state) (np : option producer_authority_schedule)
    (nr : option producer_rate_info) (features : list digest) (validator : activation_validator)
    (hb : block_header) :
  producible p np nr features validator ->
  h_new_rate hb = (match nr with
                   | Some r => Some (mk_shared_rate (pri_version r) (pri_rate r))
                   | None => None
                   end) ->
  check_new_rate p hb = Ok (match nr with Some r => Some (r, hash_rate (h_new_rate hb)) | None => None end).
Proof.
  intros P Hr. unfold check_new_rate. rewrite Hr. destruct nr as [[v x]|]; [|done].
  destruct (pr_rate _ _ _ _ _ P _ eq_refl) as (-> & Hv & Hz). simpl in *.
  by rewrite <- Hv, Z.eqb_refl, Hz.
Qed.

Lemma produced_features (p : pending_block_header_state) (np : option producer_authority_schedule)
    (nr : option producer_rate_info) (features : list digest) (validator : activation_validator)
    (rest : list (Z * block_header_extension)) :
  producible p np nr features validator -> Forall (fun e => fst e = schedule_change_extension_id) rest ->
  check_feature_activation p
    ((if (0 <? length features)%nat then [(pfa_extension_id, pfa_extension features)] else []) ++ rest)
    validator = Ok (prev_activated_protocol_features p ∪ list_to_set features).
Proof.
  intros P Hrest. destruct (pr_features _ _ _ _ _ P) as (ND & Hdis & Hval).
  unfold check_feature_activation. destruct features as [|d features].
  - simpl. replace (ext_count 0 rest) with 0%nat; [simpl; f_equal; set_solver|].
    unfold ext_count. induction Hrest as [|e rest He _ IH]; [done|].
    rewrite filter_cons_False; [done|]. rewrite He. done.
  - simpl. rewrite Hval. simpl. by apply activation_set_ok.
Qed.

Lemma produced_schedule (p : pending_block_header_state) (np : option producer_authority_schedule)
    (nr : option producer_rate_info) (features : list digest) (validator : activation_validator)
    (wtmsig : bool) (hb : block_header) :
  producible p np nr features validator ->
  match np with
  | Some sch => if wtmsig then h_new_producers hb = None
                else exists l, h_new_producers hb = Some (mk_legacy_schedule (sched_version sch) l) /\
                       length l = length (producers sch)
  | None => h_new_producers hb = None
  end ->
  let exts := (if (0 <? length features)%nat then [(pfa_extension_id, pfa_extension features)] else []) ++
    match np with
    | Some sch => if wtmsig then [(schedule_change_extension_id, schedule_change_extension sch)] else []
    | None => []
    end in
  let enabled := (match h_new_producers hb with Some _ => true | None => false end ||
     (0 <? ext_count schedule_change_extension_id exts)%nat) && wtmsig in
  exists o1 o2, check_new_producers p hb enabled = Ok o1 /\
    check_schedule_change p exts enabled o1 = Ok o2 /\
    match np with
    | None => o2 = None
    | Some sch => exists sch' hs, o2 = Some (sch', hs) /\ sched_version sch' = sched_version sch /\
                  length (producers sch') = length (producers sch) /\ (wtmsig = true -> sch' = sch)
    end.
Proof.
  intros P Hlp. cbv zeta.
  unfold check_new_producers, check_schedule_change, ext_count, ext_lower_bound.
  destruct np as [sch|]; [|rewrite Hlp; destruct (0 <? length features)%nat; simpl; eauto].
  destruct (pr_producers _ _ _ _ _ P sch eq_refl) as (-> & Hv & Hp). rewrite Hp.
  destruct wtmsig; [rewrite Hlp | destruct Hlp as (l & -> & Hl)];
    destruct (0 <? length features)%nat; simpl; rewrite <- Hv, Z.eqb_refl; simpl;
    eexists _, _; (split; [done|]); (split; [done|]);
    eexists _, _; (split; [reflexivity|]); (split; [done|]); split; try done;
    simpl; by rewrite length_map.
Qed.

(** The state that a produced header leads to. *)
Lemma produced_finish `{!SerializationLaws _} (p : pending_block_header_state)
    (tm am : digest) (np : option producer_authority_schedule) (nr : option producer_rate_info)
    (features : list digest) (pfs : builtin_digests) (validator : activation_validator)
    (h : signed_block_header) :
  producible p np nr features validator ->
  make_block_header p tm am np nr features pfs = Ok h ->
  exists s, _finish_next p h pfs validator = Ok s /\ bhs_common s = pending_common p /\
    activated_protocol_features s = prev_activated_protocol_features p ∪ list_to_set features /\
    rate_rate_info (pending_rate s) =
      (match nr with
       | Some r => r
       | None => if was_pending_rate_promoted p
                 then mk_rate (pri_version (rate_rate_info (prev_pending_rate p))) 0
                 else rate_rate_info (prev_pending_rate p)
       end) /\
    match np with
    | Some sch =>
        sched_version (schedule (pending_schedule s)) = sched_version sch /\
        length (producers (schedule (pending_schedule s))) = length (producers sch) /\
        (is_builtin_activated (prev_activated_protocol_features p) pfs wtmsig_block_signatures = true ->
         schedule (pending_schedule s) = sch)
    | None => schedule (pending_schedule s) =
        if was_pending_promoted p then mk_schedule (sched_version (schedule (prev_pending_schedule p))) []
        else schedule (prev_pending_schedule p)
    end.
Proof.
  intros P E. destruct (pr_features _ _ _ _ _ P) as (ND & _).
  destruct (make_block_header_exts p tm am np nr features pfs h ND E) as (lp & Hb & Hx & Hlp).
  assert (Hr : h_new_rate (h_base h) = match nr with
    | Some r => Some (mk_shared_rate (pri_version r) (pri_rate r)) | None => None end)
    by (by rewrite Hb).
  replace lp with (h_new_producers (h_base h)) in Hlp by (by rewrite Hb).
  destruct (produced_schedule p np nr features validator _ (h_base h) P Hlp)
    as (o1 & o2 & H1 & H2 & Ho).
  unfold _finish_next. rewrite Hx. cbn [mbind result_bind].
  rewrite H1, (produced_rate p np nr features validator (h_base h) P Hr). simpl. rewrite H2.
  rewrite (produced_features p np nr features validator _ P)
    by (destruct np; [destruct (is_builtin_activated _ _ _); repeat constructor | constructor]).
  rewrite Hb. simpl. rewrite !Z.eqb_refl. simpl. rewrite bool_decide_eq_true_2 by done. simpl.
  eexists. split; [reflexivity|]. split; [done|]. split; [done|]. split; [by destruct nr|].
  destruct np as [sch|]; [|by subst o2]. destruct Ho as (sch' & hs & -> & ?). done.
Qed.

(** A header that [make_block_header] builds on a pending state is accepted
    by [_finish_next] on that state, when what is announced may be announced
    there: the state it leads to has the announced rate pending, the announced
    features activated, and the announced schedule pending (with the version
    it was given, and unchanged where the block may carry it in full). *)
Theorem produced_header_accepted `{!SerializationLaws _} (p : pending_block_header_state)
    (tm am : digest) (np : option producer_authority_schedule) (nr : option producer_rate_info)
    (features : list digest) (pfs : builtin_digests) (validator : activation_validator)
    (h : signed_block_header) :
  producible p np nr features validator ->
  make_block_header p tm am np nr features pfs = Ok h ->
  exists s, _finish_next p h pfs validator = Ok s /\
    activated_protocol_features s = prev_activated_protocol_features p ∪ list_to_set features /\
    (forall r, nr = Some r -> rate_rate_info (pending_rate s) = r) /\
    (forall sch, np = Some sch ->
       sched_version (schedule (pending_schedule s)) = sched_version sch /\
       (is_builtin_activated (prev_activated_protocol_features p) pfs wtmsig_block_signatures = true ->
        schedule (pending_schedule s) = sch)).
Proof.
  intros P E. destruct (produced_finish _ _ _ _ _ _ _ _ _ P E) as (s & Hs & _ & Ha & Hr & Hp).
  exists s. split; [done|]. split; [done|]. split; [by intros r ->|]. intros sch ->. naive_solver.
Qed.
End chain.

(** ** Witnesses and a rate that cannot be replaced *)
Lemma next_links_witness :
  let h := sample_next_header None in
  exists s', next sample_state h [] no_features accept_all false = Ok s' /\
    h_previous (h_base h) = id sample_state /\ block_num s' = block_num sample_state + 1.
Proof.
  intros h. eexists. split; [vm_compute; reflexivity|].
  match goal with |- _ /\ block_num (bhs_common ?s') = _ =>
    destruct (next_links sample_state h [] no_features accept_all false s')
      as (_ & Hp & _ & _ & Hb & _);
      [split; vm_compute; congruence | split; vm_compute; congruence | vm_compute; reflexivity
      | split; vm_compute; congruence | vm_compute; reflexivity |]
  end.
  by split.
Defined.

Lemma blockroot_is_merkle_root_witness :
  exists s', extends [id sample_state] s' /\
    exists r, get_root (blockroot_merkle s') = Ok r /\ merkle hash_pair [id sample_state] = Ok r.
Proof.
  eexists. split.
  - apply (extends_next [] sample_state (sample_next_header None) [] no_features accept_all false);
      [by constructor | vm_compute; reflexivity].
  - apply blockroot_is_merkle_root; [|vm_compute; congruence].
    apply (extends_next [] sample_state (sample_next_header None) [] no_features accept_all false);
      [by constructor | vm_compute; reflexivity].
Defined.

Lemma schedule_succession_witness :
  exists s', next sample_state (sample_next_header None) [] no_features accept_all false = Ok s' /\
    schedule_inv s'.
Proof.
  eexists. split; [vm_compute; reflexivity|].
  eapply (schedule_succession sample_state (sample_next_header None) [] no_features accept_all false);
    [by intros [] | vm_compute; reflexivity].
Defined.

Lemma rate_succession_witness :
  let r := mk_shared_rate 1 f64_one in
  exists s', next sample_state (sample_next_header (Some r)) [] no_features accept_all false = Ok s' /\
    rate_rate_info (pending_rate s') = mk_rate 1 f64_one.
Proof.
  intros r.
  destruct (next sample_state (sample_next_header (Some r)) [] no_features accept_all false)
    as [s'|] eqn:E; [|vm_compute in E; discriminate E].
  exists s'. split; [done|]. destruct (rate_succession _ _ _ _ _ _ _ E) as [_ Hr].
  by destruct (Hr r eq_refl) as (_ & _ & _ & ?).
Defined.

Lemma verify_signee_spec_witness :
  exists s', next sample_state (sample_next_header None) [] no_features accept_all true = Ok s' /\
    exists d ks, sig_digest s' = Ok d /\ NoDup ks /\
      recovers d (h_producer_signature (header s') :: additional_signatures s') ks.
Proof.
  eexists. split; [vm_compute; reflexivity|].
  match goal with |- exists d ks, sig_digest ?s' = _ /\ _ =>
    destruct (proj1 (verify_signee_spec s' ltac:(split_and!;
      [by split | repeat constructor; simpl; lia | apply NoDup_singleton])) ltac:(vm_compute; reflexivity))
      as (d & ks & Hd & R & ND & _) end.
  exists d, ks. by split_and!.
Defined.

Lemma produced_header_accepted_witness :
  let d := mk_digest 1 2 3 4 in
  let r := mk_rate 1 f64_one in
  let sch := sample_schedule 1 [2; 3] in
  exists p h s, next_pending sample_state 12 1 = Ok p /\
    make_block_header p digest_zero digest_zero (Some sch) (Some r) [d] no_features = Ok h /\
    _finish_next p h no_features accept_all = Ok s /\ rate_rate_info (pending_rate s) = r.
Proof.
  intros d r sch.
  destruct (next_pending sample_state 12 1) as [p|] eqn:Ep; [|vm_compute in Ep; discriminate Ep].
  destruct (make_block_header p digest_zero digest_zero (Some sch) (Some r) [d] no_features)
    as [h|] eqn:Eh; vm_compute in Ep; injection Ep as <-; [|vm_compute in Eh; discriminate Eh].
  eapply produced_header_accepted with (validator := accept_all) in Eh as Eh'.
  - destruct Eh' as (s & Hs & _ & Hr & _). eexists _, h, s. split_and!; [done..|]. by apply Hr.
  - split.
    + intros ? [= <-]. vm_compute. by split_and!.
    + intros ? [= <-]. vm_compute. by split_and!.
    + split; [apply NoDup_singleton|]. split; [|done]. intros ? _. apply not_elem_of_empty.
Defined.

(** Nothing in the validation of a header keeps a rate of -1.0 from becoming
    the pending rate, and once it is, neither the pending nor the active
    rate changes in any state that descends from that block. *)
Theorem negative_rate_blocks_rate_changes :
  let h := sample_next_header (Some (mk_shared_rate 1 f64_minus_one)) in
  exists s, next sample_state h [] no_features accept_all false = Ok s /\
    rate_rate_info (pending_rate s) = mk_rate 1 f64_minus_one /\
    forall s', descends s s' ->
      active_rate s' = active_rate s /\ rate_rate_info (pending_rate s') = mk_rate 1 f64_minus_one.
Proof.
  intros h. eexists. split; [vm_compute; reflexivity|]. split; [done|].
  intros s' D. apply rate_stuck_descends in D as [Hp Ha]; [|by split].
  by rewrite Ha, Hp.
Qed.
