(* ===== verification/ForkDatabase.v ===== *)
(** * The fork database: the model

    The tree of reversible blocks above the last irreversible one
    (libraries/chain/fork_database.cpp).

    A [block_state_ptr] is modelled by the address of the object together with
    the part of the object that never changes, its block header state. The one
    member that changes after construction, [validated], is shared by every
    copy of the pointer, so it is kept in the database as the set of the
    addresses of the objects whose flag is set. The multi-index container is a
    map by identifier; its other two indices are functions of its content. *)

From S2P Require Import Prelude Types Authority Merkle BlockHeader BlockHeaderState.

Record block_state_ptr := mk_ptr {
  addr : Z;
  bsp_state :> block_header_state
}.

Record fork_database := mk_fork_db {
  index : gmap block_id block_state_ptr;
  root : option block_state_ptr;
  head : option block_state_ptr;
  validated : gset Z
}.

Definition bs_id (p : block_state_ptr) : block_id := id p.
Definition bs_num (p : block_state_ptr) : Z := block_num p.
Definition prev_id (p : block_state_ptr) : block_id := h_previous (h_base (header p)).

Definition is_valid (db : fork_database) (p : block_state_ptr) : bool :=
  bool_decide (addr p ∈ validated db).

(** Dereferencing a pointer that may be null. *)
Definition deref {A} (p : option A) : result A :=
  match p with Some a => Ok a | None => Throw undefined_behaviour end.

(** ** Orders *)
Definition first_preferred (lhs rhs : block_header_state_common) : bool :=
  (dpos_irreversible_blocknum rhs <? dpos_irreversible_blocknum lhs) ||
  ((dpos_irreversible_blocknum rhs =? dpos_irreversible_blocknum lhs) &&
   (block_num rhs <? block_num lhs)).

Definition bs_preferred (lhs rhs : block_state_ptr) : bool := first_preferred lhs rhs.

(** The key of the index [by_lib_block_num]. Its comparators are
    [std::greater] on the first three members and [sha256_less] on the words of
    the identifier; the greater ones are negated. *)
Definition by_lib_key (db : fork_database) (p : block_state_ptr) : list Z :=
  [ - (if is_valid db p then 1 else 0);
    - dpos_irreversible_blocknum p;
    - block_num p;
    hash0 (id p); hash1 (id p); hash2 (id p); hash3 (id p) ].

Definition by_lib_less (db : fork_database) (p q : block_state_ptr) : bool :=
  data_less (by_lib_key db p) (by_lib_key db q).

(** The first element of a container in an order. *)
Fixpoint first_by {A} (less : A -> A -> bool) (l : list A) : option A :=
  match l with
  | [] => None
  | a :: l => match first_by less l with
              | None => Some a
              | Some b => if less b a then Some b else Some a
              end
  end.

Definition blocks (db : fork_database) : list block_state_ptr := map snd (map_to_list (index db)).

(** [index.get<by_lib_block_num>().begin()] *)
Definition by_lib_begin (db : fork_database) : option block_state_ptr :=
  first_by (by_lib_less db) (blocks db).

(** [index.get<by_lib_block_num>().lower_bound( false )]: the first block that
    is not valid. *)
Definition by_lib_lower_bound_false (db : fork_database) : option block_state_ptr :=
  first_by (by_lib_less db) (filter (fun p => is_valid db p = false) (blocks db)).

(** ** Operations *)
Definition get_block (db : fork_database) (i : block_id) : option block_state_ptr := index db !! i.

Definition get_block_header (db : fork_database) (i : block_id) : result (option block_state_ptr) :=
  r ← deref (root db);
  Ok (if bool_decide (bs_id r = i) then Some r else index db !! i).

(** [reset]: [a] is the address of the new object. *)
Definition reset (db : fork_database) (a : Z) (root_bhs : block_header_state) : fork_database :=
  let r := mk_ptr a root_bhs in
  mk_fork_db ∅ (Some r) (Some r) ({[a]} ∪ validated db).

Definition rollback_head_to_root (db : fork_database) : fork_database :=
  mk_fork_db (index db) (root db) (root db)
    (validated db ∖ list_to_set (map addr (blocks db))).

(** [fork_database_impl::add]; of the exceptions of the validator those of
    the chain are thrown on, the others become [fork_database_exception]. *)
Definition rethrow (r : result unit) (chain_exception : exn -> bool) : result unit :=
  match r with
  | Throw e => Throw (if chain_exception e then e else fork_database_exception)
  | Ok u => Ok u
  end.

Definition is_chain_exception (e : exn) : bool :=
  match e with
  | bad_variant_access | bad_optional_access | out_of_range | logic_error | overflow_exception | unpack_error => false
  | _ => true
  end.

Definition check_activation (n prev_bh : block_state_ptr) (validator : activation_validator) :
    result unit :=
  if (0 <? ext_count pfa_extension_id (header_exts n))%nat then
    e ← ext_lower_bound pfa_extension_id (header_exts n);
    new_protocol_features ← get_pfa e;
    validator (h_timestamp (h_base (header n))) (activated_protocol_features prev_bh)
      new_protocol_features
  else Ok tt.

Definition add_impl (db : fork_database) (n : option block_state_ptr) (ignore_duplicate validate : bool)
    (validator : activation_validator) : result fork_database :=
  _ ← dcd_assert (match root db with Some _ => true | None => false end) fork_database_exception;
  match n with
  | None => Throw fork_database_exception
  | Some n =>
      prev_bh ← get_block_header db (prev_id n);
      match prev_bh with
      | None => Throw unlinkable_block_exception
      | Some prev_bh =>
          _ ← (if validate then rethrow (check_activation n prev_bh validator) is_chain_exception
               else Ok tt);
          match index db !! id n with
          | Some _ => if ignore_duplicate then Ok db else Throw fork_database_exception
          | None =>
              let db := mk_fork_db (<[id n := n]> (index db)) (root db) (head db) (validated db) in
              candidate ← deref (by_lib_begin db);
              Ok (if is_valid db candidate
                  then mk_fork_db (index db) (root db) (Some candidate) (validated db) else db)
          end
      end
  end.

Definition add (db : fork_database) (n : option block_state_ptr) (ignore_duplicate : bool) :
    result fork_database :=
  add_impl db n ignore_duplicate false (fun _ _ _ => Ok tt).

Definition pending_head (db : fork_database) : result (option block_state_ptr) :=
  match by_lib_lower_bound_false db with
  | Some p => h ← deref (head db); Ok (if bs_preferred p h then Some p else head db)
  | None => Ok (head db)
  end.

(** The loops along [previous]; a chain of the index has no more blocks than
    the index. *)
Fixpoint branch_loop (fuel : nat) (db : fork_database) (s : option block_state_ptr) :
    result (list block_state_ptr) :=
  match s with
  | None => Ok []
  | Some s =>
      match fuel with
      | O => Throw nontermination
      | S fuel => rest ← branch_loop fuel db (get_block db (prev_id s)); Ok (s :: rest)
      end
  end.

Definition fuel (db : fork_database) : nat := S (size (index db)).
#[global] Arguments fuel : simpl never.

Definition fetch_branch (db : fork_database) (h : block_id) (trim_after_block_num : Z) :
    result (list block_state_ptr) :=
  l ← branch_loop (fuel db) db (get_block db h);
  Ok (filter (fun s => bs_num s <= trim_after_block_num) l).

Fixpoint search_loop (fuel : nat) (db : fork_database) (s : option block_state_ptr) (num : Z) :
    result (option block_state_ptr) :=
  match s with
  | None => Ok None
  | Some s =>
      match fuel with
      | O => Throw nontermination
      | S fuel => if bs_num s =? num then Ok (Some s)
                  else search_loop fuel db (get_block db (prev_id s)) num
      end
  end.

Definition search_on_branch (db : fork_database) (h : block_id) (num : Z) :
    result (option block_state_ptr) :=
  search_loop (fuel db) db (get_block db h) num.

(** [(i == my->root->id) ? my->root : get_block( i )], refused when null *)
Definition block_or_root (db : fork_database) (i : block_id) : result block_state_ptr :=
  o ← get_block_header db i;
  match o with Some p => Ok p | None => Throw fork_db_block_not_found end.

(** [get_block( i )], refused when null *)
Definition block_not_null (db : fork_database) (i : block_id) : result block_state_ptr :=
  match get_block db i with Some p => Ok p | None => Throw fork_db_block_not_found end.

(** The first two loops of [fetch_branch_from]: down to the number of [other]. *)
Fixpoint descend (fuel : nat) (db : fork_database) (b : block_state_ptr) (num : Z)
    (acc : list block_state_ptr) : result (block_state_ptr * list block_state_ptr) :=
  if num <? bs_num b then
    match fuel with
    | O => Throw nontermination
    | S fuel => b' ← block_or_root db (prev_id b); descend fuel db b' num (acc ++ [b])
    end
  else Ok (b, acc).

(** The third loop: in step, until both have the same predecessor. *)
Fixpoint descend_both (fuel : nat) (db : fork_database) (b1 b2 : block_state_ptr)
    (acc1 acc2 : list block_state_ptr) :
    result (list block_state_ptr * list block_state_ptr) :=
  if bool_decide (prev_id b1 = prev_id b2) then Ok (acc1 ++ [b1], acc2 ++ [b2])
  else
    match fuel with
    | O => Throw nontermination
    | S fuel =>
        b1' ← block_not_null db (prev_id b1);
        b2' ← block_not_null db (prev_id b2);
        descend_both fuel db b1' b2' (acc1 ++ [b1]) (acc2 ++ [b2])
    end.

Definition fetch_branch_from (db : fork_database) (first second : block_id) :
    result (list block_state_ptr * list block_state_ptr) :=
  first_branch ← block_or_root db first;
  second_branch ← block_or_root db second;
  '(first_branch, acc1) ← descend (fuel db) db first_branch (bs_num second_branch) [];
  '(second_branch, acc2) ← descend (fuel db) db second_branch (bs_num first_branch) [];
  if bool_decide (bs_id first_branch = bs_id second_branch) then Ok (acc1, acc2)
  else descend_both (fuel db) db first_branch second_branch acc1 acc2.

(** The blocks built directly on [i], the range of the index [by_prev]. *)
Definition children (db : fork_database) (i : block_id) : list block_id :=
  map bs_id (filter (fun p => prev_id p = i) (blocks db)).

(** The loop that grows [remove_queue]: [done] are the entries before the loop
    variable, [todo] those from it on. *)
Fixpoint remove_loop (fuel : nat) (db : fork_database) (head_id : block_id)
    (done todo : list block_id) : result (list block_id) :=
  match todo with
  | [] => Ok done
  | i :: todo =>
      match fuel with
      | O => Throw nontermination
      | S fuel =>
          _ ← dcd_assert (bool_decide (i <> head_id)) fork_database_exception;
          remove_loop fuel db head_id (done ++ [i]) (todo ++ children db i)
      end
  end.

Definition erase_all (db : fork_database) (l : list block_id) : fork_database :=
  mk_fork_db (foldl (fun m i => delete i m) (index db) l) (root db) (head db) (validated db).

Definition remove (db : fork_database) (i : block_id) : result fork_database :=
  h ← deref (head db);
  queue ← remove_loop (fuel db) db (bs_id h) [] [i];
  Ok (erase_all db queue).

(** [mark_valid]: the flag that is read is that of [h], the flag that is set is
    that of the block in the index. *)
Definition mark_valid (db : fork_database) (h : block_state_ptr) : result fork_database :=
  if is_valid db h then Ok db
  else
    match index db !! id h with
    | None => Throw fork_database_exception
    | Some p =>
        let db := mk_fork_db (index db) (root db) (head db) ({[addr p]} ∪ validated db) in
        candidate ← deref (by_lib_begin db);
        cur ← deref (head db);
        Ok (if bs_preferred candidate cur
            then mk_fork_db (index db) (root db) (Some candidate) (validated db) else db)
    end.

(** The loop of [advance_root] that collects the blocks below the new root. *)
Fixpoint blocks_to_remove_loop (fuel : nat) (db : fork_database) (root_id : block_id)
    (b : block_state_ptr) (acc : list block_id) : result (list block_id) :=
  match fuel with
  | O => Throw nontermination
  | S fuel =>
      let acc := acc ++ [prev_id b] in
      match get_block db (prev_id b) with
      | Some b' => blocks_to_remove_loop fuel db root_id b' acc
      | None => _ ← dcd_assert (bool_decide (prev_id b = root_id)) fork_database_exception; Ok acc
      end
  end.

(** [advance_root] erases blocks before it can throw: the result carries the
    database as the call leaves it. *)
Fixpoint remove_each (db : fork_database) (l : list block_id) : fork_database * result unit :=
  match l with
  | [] => (db, Ok tt)
  | i :: l => match remove db i with
              | Ok db' => remove_each db' l
              | Throw e => (db, Throw e)
              end
  end.

Definition advance_root_checks (db : fork_database) (i : block_id) :
    result (block_state_ptr * list block_id) :=
  _ ← dcd_assert (match root db with Some _ => true | None => false end) fork_database_exception;
  r ← deref (root db);
  match get_block db i with
  | None => Throw fork_database_exception
  | Some new_root =>
      _ ← dcd_assert (is_valid db new_root) fork_database_exception;
      l ← blocks_to_remove_loop (fuel db) db (bs_id r) new_root [];
      Ok (new_root, l)
  end.

Definition advance_root (db : fork_database) (i : block_id) : fork_database * result unit :=
  match advance_root_checks db i with
  | Throw e => (db, Throw e)
  | Ok (new_root, blocks_to_remove) =>
      let db := mk_fork_db (delete i (index db)) (root db) (head db) (validated db) in
      match remove_each db blocks_to_remove with
      | (db, Ok _) => (mk_fork_db (index db) (Some new_root) (head db) (validated db), Ok tt)
      | (db, Throw e) => (db, Throw e)
      end
  end.
