(* ===== verification/ForkTree.v ===== *)
(** * The fork database: its tree and its head

    The invariant of the fork database, that every operation preserves it, and
    what the operations that walk, cut and re-root the tree compute; then the
    branches as lists. *)

From S2P Require Import Prelude Types Authority Merkle BlockHeader BlockHeaderState ForkDatabase.

(** ** First elements *)
Lemma first_by_spec {A} (less : A -> A -> bool) (l : list A) (b : A) :
  (forall x y, less x y = true -> less y x = false) ->
  (forall x y z, less x y = false -> less y z = false -> less x z = false) ->
  first_by less l = Some b -> b ∈ l /\ forall q, q ∈ l -> less q b = false.
Proof.
  intros Hasym Hneg. revert b. induction l as [|a l IH]; intros b; simpl; [done|].
  assert (Hirr : forall x, less x x = false).
  { intros x. destruct (less x x) eqn:E; [|done]. by rewrite <- (Hasym x x E). }
  destruct (first_by less l) as [c|] eqn:E.
  - destruct (IH c eq_refl) as [Hc Hmin].
    destruct (less c a) eqn:Eca; intros [= <-].
    + split; [by constructor|]. intros q [->|Hq]%elem_of_cons; auto.
    + split; [by constructor|]. intros q [->|Hq]%elem_of_cons; [auto|].
      by apply (Hneg _ c); auto.
  - intros [= <-]. split; [by constructor|]. intros q [->|Hq]%elem_of_cons; [auto|].
    exfalso. clear IH. destruct l as [|x l]; [by apply elem_of_nil in Hq|]. simpl in E.
    by repeat case_match.
Qed.

Lemma first_by_is_Some {A} (less : A -> A -> bool) (l : list A) (a : A) :
  a ∈ l -> is_Some (first_by less l).
Proof. intros Ha. destruct l; simpl; [by apply elem_of_nil in Ha|]. repeat case_match; eauto. Qed.

Lemma elem_of_blocks (db : fork_database) (p : block_state_ptr) :
  p ∈ blocks db <-> exists i, index db !! i = Some p.
Proof.
  unfold blocks. rewrite list_elem_of_fmap. split.
  - intros ([i q] & -> & Hq%elem_of_map_to_list). eauto.
  - intros [i Hi]. exists (i, p). by rewrite elem_of_map_to_list.
Qed.

Lemma by_lib_begin_spec (db : fork_database) (c : block_state_ptr) :
  by_lib_begin db = Some c ->
  (exists i, index db !! i = Some c) /\
  forall i q, index db !! i = Some q -> by_lib_less db q c = false.
Proof.
  intros E. apply first_by_spec in E as [Hc Hmin].
  - split; [by apply elem_of_blocks|]. intros i q Hq. apply Hmin, elem_of_blocks. eauto.
  - intros x y. apply data_less_asym.
  - intros x y z. by apply data_less_negtrans.
Qed.

Lemma by_lib_begin_is_Some (db : fork_database) (i : block_id) (p : block_state_ptr) :
  index db !! i = Some p -> exists c, by_lib_begin db = Some c.
Proof. intros Hp. apply first_by_is_Some with p, elem_of_blocks. eauto. Qed.

(** The first block of the order is valid if any is, and then none that is
    valid is preferred over it. *)
Lemma by_lib_less_valid (db : fork_database) (q c : block_state_ptr) :
  by_lib_less db q c = false -> is_valid db q = true ->
  is_valid db c = true /\ bs_preferred q c = false.
Proof.
  unfold by_lib_less, by_lib_key, bs_preferred, first_preferred. intros H Hq. rewrite Hq in H.
  destruct (is_valid db c); simpl in H; [|done]. split; [done|].
  apply orb_false_iff in H as [H1 H2]. rewrite orb_false_iff, andb_false_iff, !Z.ltb_ge, !Z.eqb_neq in *.
  destruct H2 as [H2|H2]; [by apply Z.eqb_neq in H2 | lia] || (breflect; lia).
Qed.

Lemma bs_preferred_negtrans (p q r : block_state_ptr) :
  bs_preferred p q = false -> bs_preferred q r = false -> bs_preferred p r = false.
Proof.
  unfold bs_preferred, first_preferred. rewrite !orb_false_iff, !andb_false_iff, !Z.ltb_ge, !Z.eqb_neq.
  lia.
Qed.

(** ** The invariant *)

(** A node of the tree: the root or a block of the index. *)
Definition node (db : fork_database) (r : block_state_ptr) (i : block_id) : option block_state_ptr :=
  if bool_decide (bs_id r = i) then Some r else index db !! i.

Record fork_inv (db : fork_database) (r h : block_state_ptr) : Prop := {
  fi_root : root db = Some r;
  fi_head : head db = Some h;
  fi_key : forall i p, index db !! i = Some p -> bs_id p = i;
  fi_root_fresh : index db !! bs_id r = None;
  fi_link : forall i p, index db !! i = Some p ->
    exists q, node db r (prev_id p) = Some q /\ bs_num p = bs_num q + 1;
  fi_num : num_from_id (bs_id r) = bs_num r /\
    forall i p, index db !! i = Some p -> num_from_id (bs_id p) = bs_num p;
  fi_addr : forall i j p q, index db !! i = Some p -> index db !! j = Some q ->
    addr p = addr q -> i = j;
  fi_addr_root : forall i p, index db !! i = Some p -> addr p <> addr r;
  fi_root_valid : is_valid db r = true;
  fi_head_in : h = r \/ index db !! bs_id h = Some h;
  fi_head_valid : is_valid db h = true;
  fi_best : forall i p, index db !! i = Some p -> is_valid db p = true -> bs_preferred p h = false
}.

Definition fork_ok (db : fork_database) : Prop := exists r h, fork_inv db r h.

Lemma reset_inv (db : fork_database) (a : Z) (bhs : block_header_state) :
  num_from_id (id bhs) = block_num bhs ->
  fork_inv (reset db a bhs) (mk_ptr a bhs) (mk_ptr a bhs).
Proof.
  intros Hn.
  assert (Hv : is_valid (reset db a bhs) (mk_ptr a bhs) = true)
    by (apply bool_decide_eq_true; simpl; set_solver).
  split; simpl; try done. by left.
Qed.

Lemma rollback_inv (db : fork_database) (r h : block_state_ptr) :
  fork_inv db r h -> fork_inv (rollback_head_to_root db) r r.
Proof.
  intros I.
  assert (Hr : is_valid (rollback_head_to_root db) r = true).
  { unfold is_valid. simpl. apply bool_decide_eq_true, elem_of_difference. split.
    - apply (proj1 (bool_decide_eq_true _)), I.
    - rewrite elem_of_list_to_set, list_elem_of_fmap. intros (p & Ha & [i Hi]%elem_of_blocks).
      by apply (fi_addr_root _ _ _ I i p Hi). }
  destruct I. split; simpl; try done; [by left|].
  intros i p Hp Hv. unfold is_valid in Hv. simpl in Hv.
  apply bool_decide_eq_true, elem_of_difference in Hv as [_ Hv]. destruct Hv.
  apply elem_of_list_to_set, list_elem_of_fmap. exists p. split; [done|]. apply elem_of_blocks. eauto.
Qed.

Lemma candidate_best (db : fork_database) (c : block_state_ptr) (i : block_id) (p : block_state_ptr) :
  by_lib_begin db = Some c -> index db !! i = Some p -> is_valid db p = true ->
  is_valid db c = true /\ bs_preferred p c = false.
Proof.
  intros Hc Hp Hv. apply by_lib_less_valid; [|done]. by eapply by_lib_begin_spec.
Qed.

Lemma candidate_in (db : fork_database) (r c : block_state_ptr) :
  (forall i p, index db !! i = Some p -> bs_id p = i) -> by_lib_begin db = Some c ->
  index db !! bs_id c = Some c.
Proof.
  intros Hk Hc. apply by_lib_begin_spec in Hc as [[i Hi] _]. by rewrite (Hk i c Hi).
Qed.

Lemma mark_valid_inv (db db' : fork_database) (r h p : block_state_ptr) :
  fork_inv db r h -> mark_valid db p = Ok db' -> exists h', fork_inv db' r h'.
Proof.
  intros I. unfold mark_valid. destruct (is_valid db p); [intros [= <-]; eauto|].
  destruct (index db !! id p) as [q|] eqn:Eq; [|discriminate]. simpl.
  set (db1 := mk_fork_db _ _ _ _). intros E.
  apply bind_ok_inv in E as (c & Hc & E). apply bind_ok_inv in E as (cur & Hcur & E).
  rewrite (fi_head _ _ _ I) in Hcur. injection Hcur as <-.
  destruct (by_lib_begin db1) as [c'|] eqn:Ec; [|discriminate Hc]. injection Hc as <-.
  assert (Hmono : forall x, is_valid db x = true -> is_valid db1 x = true).
  { intros x. unfold is_valid. rewrite !bool_decide_eq_true. subst db1. simpl. set_solver. }
  assert (Hqv : is_valid db1 q = true).
  { unfold is_valid, db1. simpl. apply bool_decide_eq_true. set_solver. }
  destruct (candidate_best db1 c' _ q Ec Eq Hqv) as [Hcv _].
  pose proof (candidate_best db1 c') as Hbest.
  pose proof (candidate_in db1 r c' (fi_key _ _ _ I) Ec) as Hcin.
  injection E as <-. destruct (bs_preferred c' h) eqn:Epref; [exists c' | exists h];
    (split; simpl; [apply I | | try apply I ..]); try done; try (by right); try (apply Hmono, I).
  - intros i x Hx Hv. by eapply Hbest.
  - apply I.
  - intros i x Hx Hv. apply (bs_preferred_negtrans x c' h); [|done]. by eapply Hbest.
Qed.

(** A block that a caller may add: it was built on [q] by [next], in an object
    of its own. *)
Definition new_block (db : fork_database) (r n : block_state_ptr) : Prop :=
  num_from_id (bs_id n) = bs_num n /\
  (forall q, node db r (prev_id n) = Some q -> bs_num n = bs_num q + 1) /\
  addr n <> addr r /\ forall i p, index db !! i = Some p -> addr n <> addr p.

Lemma node_num_ge (db : fork_database) (r h : block_state_ptr) (i : block_id) (q : block_state_ptr) :
  fork_inv db r h -> node db r i = Some q -> bs_num r <= bs_num q.
Proof.
  intros I. remember (Z.to_nat (bs_num q)) as n eqn:En. revert i q En.
  assert (Hpos : forall i q, node db r i = Some q -> 0 <= bs_num q).
  { intros i q Hq. unfold node in Hq. case_bool_decide; [simplify_eq|].
    - rewrite <- (proj1 (fi_num _ _ _ I)). unfold num_from_id.
      apply endian_reverse_u32_fits, wrap_fits. lia.
    - rewrite <- (proj2 (fi_num _ _ _ I) _ _ Hq). unfold num_from_id.
      apply endian_reverse_u32_fits, wrap_fits. lia. }
  induction n as [n IH] using lt_wf_ind. intros i q En Hq.
  unfold node in Hq. case_bool_decide; [simplify_eq; lia|].
  destruct (fi_link _ _ _ I i q Hq) as (q' & Hq' & Hnum).
  pose proof (Hpos _ _ Hq'). specialize (IH (Z.to_nat (bs_num q')) ltac:(lia) _ _ eq_refl Hq'). lia.
Qed.

Lemma add_inv (db db' : fork_database) (r h n : block_state_ptr) (ign v : bool)
    (validator : activation_validator) :
  fork_inv db r h -> new_block db r n -> add_impl db (Some n) ign v validator = Ok db' ->
  exists h', fork_inv db' r h'.
Proof.
  intros I (Hnum & Hprev & Har & Ha) E. unfold add_impl in E.
  apply bind_ok_inv in E as (u & _ & E). apply bind_ok_inv in E as (o & Ho & E).
  unfold get_block_header in Ho. rewrite (fi_root _ _ _ I) in Ho. simpl in Ho. injection Ho as <-.
  fold (node db r (prev_id n)) in E.
  destruct (node db r (prev_id n)) as [q|] eqn:Eq; [|discriminate].
  apply bind_ok_inv in E as (u' & _ & E). specialize (Hprev q eq_refl).
  change (id n) with (bs_id n) in E.
  destruct (index db !! bs_id n) eqn:Ei; [destruct ign; simplify_eq; eauto|].
  cbv zeta in E. set (db1 := mk_fork_db _ _ _ _) in E.
  apply bind_ok_inv in E as (c & Hc & E).
  destruct (by_lib_begin db1) as [c'|] eqn:Ec; [|discriminate Hc]. injection Hc as <-.
  assert (Hnr : bs_id n <> bs_id r).
  { intros He. pose proof (node_num_ge _ _ _ _ _ I Eq). destruct (fi_num _ _ _ I) as [Hr _].
    rewrite He in Hnum. lia. }
  assert (Hidx : forall i p, index db1 !! i = Some p -> i = bs_id n /\ p = n \/ index db !! i = Some p).
  { intros i p Hp. unfold db1 in Hp. simpl in Hp. apply lookup_insert_Some in Hp. naive_solver. }
  assert (Hkey : forall i p, index db1 !! i = Some p -> bs_id p = i).
  { intros i p [[-> ->]|Hp]%Hidx; [done | by apply (fi_key _ _ _ I)]. }
  assert (Hnode : forall i x, node db r i = Some x -> node db1 r i = Some x).
  { intros i x. unfold node. case_bool_decide; [done|]. intros Hx. simpl.
    rewrite lookup_insert_ne; [done|]. intros <-. congruence. }
  assert (Hcommon : forall h', index db1 !! bs_id h' = Some h' \/ h' = r -> is_valid db1 h' = true ->
    (forall i p, index db1 !! i = Some p -> is_valid db1 p = true -> bs_preferred p h' = false) ->
    fork_inv (mk_fork_db (index db1) (root db1) (Some h') (validated db1)) r h').
  { intros h' Hin Hv Hb. split; simpl; try done; try apply I.
    - rewrite lookup_insert_ne by done. apply I.
    - intros i p [[-> ->]|Hp]%Hidx.
      + exists q. split; [by apply Hnode | done].
      + destruct (fi_link _ _ _ I i p Hp) as (x & Hx & ?). exists x. split; [by apply Hnode | done].
    - split; [apply I|]. intros i p [[-> ->]|Hp]%Hidx; [done|].
      by apply (proj2 (fi_num _ _ _ I) i).
    - intros i j x y [[-> ->]|Hx]%Hidx [[-> ->]|Hy]%Hidx Hxy; [done| | |].
      + by destruct (Ha j y).
      + by destruct (Ha i x).
      + by apply (fi_addr _ _ _ I i j x y).
    - intros i p [[-> ->]|Hp]%Hidx; [done|]. by apply (fi_addr_root _ _ _ I i).
    - destruct Hin; auto. }
  injection E as <-. destruct (is_valid db1 c') eqn:Ecv.
  - exists c'. apply Hcommon; [left; by apply (candidate_in db1 r) | done |].
    intros i p Hp Hv. by eapply candidate_best.
  - exists h. replace db1 with (mk_fork_db (index db1) (root db1) (Some h) (validated db1))
      by (unfold db1; simpl; by rewrite (fi_head _ _ _ I)).
    apply Hcommon; [|apply I|].
    + destruct (fi_head_in _ _ _ I) as [->|Hh]; [by right|]. left. simpl.
      rewrite lookup_insert_ne; [done|]. intros He. rewrite He in Ei. congruence.
    + intros i p Hp Hv. destruct (candidate_best db1 c' i p Ec Hp Hv). congruence.
Qed.

(** ** Descendants and removal *)

(** [desc m i c]: [c] is [i] or a block of [m] built, in some steps, on [i]. *)
Inductive desc (m : gmap block_id block_state_ptr) (i : block_id) : block_id -> Prop :=
  | desc_refl : desc m i i
  | desc_child j c p : desc m i j -> m !! c = Some p -> prev_id p = j -> desc m i c.

(** What the removal of a subtree needs of the index. *)
Definition numbered (m : gmap block_id block_state_ptr) : Prop :=
  (forall i p, m !! i = Some p -> bs_id p = i) /\
  (forall i p q, m !! i = Some p -> m !! prev_id p = Some q -> bs_num p = bs_num q + 1).

Lemma fork_inv_numbered (db : fork_database) (r h : block_state_ptr) :
  fork_inv db r h -> numbered (index db).
Proof.
  intros I. split; [apply I|]. intros i p q Hp Hq.
  destruct (fi_link _ _ _ I i p Hp) as (x & Hx & Hn). unfold node in Hx.
  case_bool_decide as Hr; [|congruence]. rewrite <- Hr, (fi_root_fresh _ _ _ I) in Hq. done.
Qed.

Lemma desc_in (m : gmap block_id block_state_ptr) (i c : block_id) :
  desc m i c -> c = i \/ is_Some (m !! c).
Proof. destruct 1; eauto. Qed.

Lemma desc_num (m : gmap block_id block_state_ptr) (i c : block_id) (p q : block_state_ptr) :
  numbered m -> desc m i c -> m !! i = Some p -> m !! c = Some q -> bs_num p <= bs_num q.
Proof.
  intros [_ HN] D Hp. revert q. induction D as [|j c x D IH Hc Hj]; intros q Hq; [simplify_eq; lia|].
  rewrite Hc in Hq. injection Hq as <-. subst j. destruct (desc_in _ _ _ D) as [He|[y Hy]].
  - rewrite <- He in Hp. rewrite (HN c x p Hc Hp). lia.
  - rewrite (HN c x y Hc Hy). specialize (IH y Hy). lia.
Qed.

(** A block is not built on its own descendants. *)
Lemma desc_no_cycle (m : gmap block_id block_state_ptr) (i j : block_id) (p : block_state_ptr) :
  numbered m -> desc m i j -> m !! i = Some p -> prev_id p <> j.
Proof.
  intros HN D Hp <-. destruct (desc_in _ _ _ D) as [He|[q Hq]].
  - pose proof (proj2 HN i p p Hp) as Hn. rewrite He in Hn. specialize (Hn Hp). lia.
  - pose proof (desc_num _ _ _ _ _ HN D Hp Hq) as Hle. rewrite (proj2 HN i p q Hp Hq) in Hle. lia.
Qed.

Lemma elem_of_children (db : fork_database) (i c : block_id) :
  (forall i p, index db !! i = Some p -> bs_id p = i) ->
  c ∈ children db i <-> exists p, index db !! c = Some p /\ prev_id p = i.
Proof.
  intros HK. unfold children. rewrite list_elem_of_fmap. split.
  - intros (p & -> & [Hi [j Hj]%elem_of_blocks]%list_elem_of_filter). exists p.
    by rewrite (HK _ _ Hj).
  - intros (p & Hp & Hi). exists p. split; [symmetry; by apply HK|].
    apply list_elem_of_filter. split; [done|]. apply elem_of_blocks. eauto.
Qed.

Lemma NoDup_children (db : fork_database) (i : block_id) :
  (forall i p, index db !! i = Some p -> bs_id p = i) -> NoDup (children db i).
Proof.
  intros HK. unfold children, blocks.
  assert (Hb : map bs_id (map snd (map_to_list (index db))) = map fst (map_to_list (index db))).
  { rewrite map_map. apply map_ext_in. intros [j p] Hj%list_elem_of_In%elem_of_map_to_list.
    by apply HK. }
  assert (HN : NoDup (map bs_id (map snd (map_to_list (index db)))))
    by (rewrite Hb; apply NoDup_fst_map_to_list).
  revert HN. generalize (map snd (map_to_list (index db))) as l.
  induction l as [|p l IH]; intros HN; [constructor|]. inversion HN as [|? ? Hp HN']; subst.
  rewrite filter_cons. case_decide; [|by apply IH]. simpl. constructor; [|by apply IH].
  intros (q & Hq & [_ Hin]%list_elem_of_filter)%list_elem_of_fmap. apply Hp.
  rewrite Hq. apply list_elem_of_fmap. eauto.
Qed.

(** The state of the loop: the entries are distinct, they descend from [i],
    and what is built on an entry that was handled is an entry. *)
Record queue_inv (db : fork_database) (i : block_id) (dn todo : list block_id) : Prop := {
  qi_nodup : NoDup (dn ++ todo);
  qi_desc : forall c, c ∈ dn ++ todo -> desc (index db) i c;
  qi_parent : forall c, c ∈ dn ++ todo -> c = i \/
    exists p, index db !! c = Some p /\ prev_id p ∈ dn;
  qi_closed : forall c p, index db !! c = Some p -> prev_id p ∈ dn -> c ∈ dn ++ todo
}.

Lemma queue_step (db : fork_database) (i j : block_id) (dn todo : list block_id) :
  numbered (index db) -> queue_inv db i dn (j :: todo) ->
  queue_inv db i (dn ++ [j]) (todo ++ children db j).
Proof.
  intros HN Q. pose proof (qi_nodup _ _ _ _ Q) as ND.
  assert (Hj : desc (index db) i j) by (apply Q; set_solver).
  assert (Heq : (dn ++ [j]) ++ todo ++ children db j = (dn ++ j :: todo) ++ children db j)
    by (by rewrite <- !app_assoc).
  assert (Hch : forall c, c ∈ children db j -> desc (index db) i c).
  { intros c (p & Hp & He)%elem_of_children; [|apply HN]. by apply (desc_child _ _ j c p). }
  split; rewrite ?Heq.
  - apply NoDup_app. split; [done|]. split; [|apply NoDup_children, HN].
    intros c Hc Hcc. apply elem_of_children in Hcc as (p & Hp & He); [|apply HN].
    destruct (qi_parent _ _ _ _ Q c Hc) as [->|(p' & Hp' & Hdn)].
    + by apply (desc_no_cycle (index db) i j p HN Hj Hp).
    + simplify_eq. apply NoDup_app in ND as (_ & ND & _). apply (ND _ Hdn). by constructor.
  - intros c [Hc|Hc]%elem_of_app; [by apply Q | by apply Hch].
  - intros c [Hc|Hc]%elem_of_app.
    + destruct (qi_parent _ _ _ _ Q c Hc) as [|(p & Hp & Hd)]; [by left|]. right. exists p. set_solver.
    + apply elem_of_children in Hc as (p & Hp & He); [|apply HN]. right. exists p. set_solver.
  - intros c p Hp [Hd|Hd%list_elem_of_singleton]%elem_of_app; apply elem_of_app.
    + left. by apply (qi_closed _ _ _ _ Q c p).
    + right. apply elem_of_children; [apply HN | eauto].
Qed.

Lemma queue_length (db : fork_database) (i : block_id) (dn todo : list block_id) :
  queue_inv db i dn todo -> (length (dn ++ todo) <= S (size (index db)))%nat.
Proof.
  intros Q. rewrite <- (size_list_to_set (C:=gset block_id) (dn ++ todo)) by apply Q.
  transitivity (size ({[i]} ∪ dom (index db))).
  - apply subseteq_size. intros c Hc%elem_of_list_to_set.
    destruct (qi_parent _ _ _ _ Q c Hc) as [->|(p & Hp & _)]; [set_solver|].
    apply elem_of_union_r. by apply elem_of_dom.
  - rewrite size_union_alt, size_singleton.
    transitivity (1 + size (dom (index db)))%nat; [|by rewrite size_dom].
    apply Nat.add_le_mono_l, subseteq_size. set_solver.
Qed.

(** The loop ends, with all the descendants, or it meets the head. *)
Lemma remove_loop_spec (db : fork_database) (i hid : block_id) (f : nat) (dn todo : list block_id) :
  numbered (index db) -> queue_inv db i dn todo -> hid ∉ dn ->
  (S (size (index db)) <= length dn + f)%nat ->
  (remove_loop f db hid dn todo = Throw fork_database_exception /\ desc (index db) i hid) \/
  exists q, remove_loop f db hid dn todo = Ok q /\ queue_inv db i q [] /\ hid ∉ q /\
    forall c, c ∈ dn ++ todo -> c ∈ q.
Proof.
  intros HN. revert dn todo. induction f as [|f IH]; intros dn [|j todo] Q Hh Hf; simpl.
  - right. exists dn. rewrite app_nil_r. auto.
  - exfalso. pose proof (queue_length _ _ _ _ Q) as Hl. rewrite length_app in Hl. simpl in Hl. lia.
  - right. exists dn. rewrite app_nil_r. auto.
  - case_bool_decide as Hj; simpl.
    + destruct (IH (dn ++ [j]) (todo ++ children db j)) as [[E D]|(q & E & Q' & Hq & Hsub)].
      * by apply queue_step.
      * set_solver.
      * rewrite length_app. simpl. lia.
      * by left.
      * right. exists q. split_and!; try done. intros c Hc. apply Hsub. set_solver.
    + left. split; [done|]. destruct (decide (j = hid)) as [->|]; [|by destruct Hj]. apply Q. set_solver.
Qed.

Lemma queue_desc (db : fork_database) (i c : block_id) (q : list block_id) :
  queue_inv db i q [] -> i ∈ q -> c ∈ q <-> desc (index db) i c.
Proof.
  intros Q Hi. pose proof (qi_desc _ _ _ _ Q) as Hd. pose proof (qi_closed _ _ _ _ Q) as Hc.
  rewrite app_nil_r in *. split; [auto|].
  induction 1 as [|j c p D IH Hp Hj]; [done|]. apply (Hc c p Hp). by rewrite Hj.
Qed.

Lemma erase_lookup (db : fork_database) (q : list block_id) (c : block_id) :
  index (erase_all db q) !! c = if decide (c ∈ q) then None else index db !! c.
Proof.
  unfold erase_all. simpl. generalize (index db) as m. induction q as [|j q IH]; intros m; simpl; [done|].
  rewrite IH. destruct (decide (c = j)) as [->|Hne].
  - rewrite lookup_delete_eq. repeat case_decide; set_solver.
  - rewrite lookup_delete_ne by done. repeat case_decide; set_solver.
Qed.

(** What [remove] does on any numbered index. *)
Lemma remove_cases (db : fork_database) (h : block_state_ptr) (i : block_id) :
  numbered (index db) -> head db = Some h ->
  (remove db i = Throw fork_database_exception /\ desc (index db) i (bs_id h)) \/
  exists db', remove db i = Ok db' /\ ~ desc (index db) i (bs_id h) /\
    root db' = root db /\ head db' = head db /\ validated db' = validated db /\
    forall c p, index db' !! c = Some p <-> index db !! c = Some p /\ ~ desc (index db) i c.
Proof.
  intros HN Hh. unfold remove. rewrite Hh. cbn [deref mbind result_bind].
  destruct (remove_loop_spec db i (bs_id h) (fuel db) [] [i] HN) as [[-> D]|(q & -> & Q & Hq & Hsub)].
  - split; simpl.
    + apply NoDup_singleton.
    + intros c ->%list_elem_of_singleton. constructor.
    + intros c ->%list_elem_of_singleton. by left.
    + intros c p _ Hin. by apply elem_of_nil in Hin.
  - apply not_elem_of_nil.
  - unfold fuel. simpl. lia.
  - by left.
  - assert (Hi : i ∈ q) by (apply Hsub; set_solver).
    right. exists (erase_all db q). split_and!; try done.
    + by rewrite <- (queue_desc db i _ q Q Hi).
    + intros c p. rewrite erase_lookup, <- (queue_desc db i c q Q Hi). case_decide; naive_solver.
Qed.

(** Cutting away a set of blocks closed under descent, other than the head. *)
Lemma cut_inv (db db' : fork_database) (r h : block_state_ptr) (cut : block_id -> Prop) :
  fork_inv db r h -> root db' = root db -> head db' = head db -> validated db' = validated db ->
  (forall c p, index db' !! c = Some p <-> index db !! c = Some p /\ ~ cut c) ->
  (forall c p, index db !! c = Some p -> cut (prev_id p) -> cut c) -> ~ cut (bs_id h) ->
  fork_inv db' r h.
Proof.
  intros I Hr Hh Hv Hi Hclosed Hcut.
  assert (Hsub : forall c p, index db' !! c = Some p -> index db !! c = Some p)
    by (intros c p Hc; by apply Hi in Hc as [? _]).
  assert (Hval : forall p, is_valid db' p = is_valid db p) by (intros; unfold is_valid; by rewrite Hv).
  destruct I. split; rewrite ?Hr, ?Hh, ?Hval; eauto.
  - destruct (index db' !! bs_id r) eqn:E; [apply Hsub in E; congruence | done].
  - intros c p Hp. destruct (fi_link0 c p (Hsub _ _ Hp)) as (q & Hq & Hn). exists q. split; [|done].
    unfold node in *. case_bool_decide; [done|]. apply Hi. split; [done|].
    apply Hi in Hp as [Hp Hnc]. eauto.
  - split; [apply fi_num0|]. intros c p Hp. eapply fi_num0; eauto.
  - destruct fi_head_in0 as [|Hin]; [by left|]. right. by apply Hi.
Qed.

Lemma desc_closed (m : gmap block_id block_state_ptr) (i c : block_id) (p : block_state_ptr) :
  m !! c = Some p -> desc m i (prev_id p) -> desc m i c.
Proof. intros. by apply (desc_child m i (prev_id p) c p). Qed.

Lemma remove_inv (db db' : fork_database) (r h : block_state_ptr) (i : block_id) :
  fork_inv db r h -> remove db i = Ok db' -> fork_inv db' r h.
Proof.
  intros I E. destruct (remove_cases db h i (fork_inv_numbered _ _ _ I) (fi_head _ _ _ I))
    as [[E' _]|(db1 & E' & Hnd & Hr & Hh & Hv & Hi)]; [congruence|].
  rewrite E in E'. injection E' as <-. eapply cut_inv; eauto using desc_closed.
Qed.

(** [remove] takes away exactly the block and everything built on it, or
    refuses, and changes nothing, exactly when the head is among them. *)
Theorem remove_spec (db : fork_database) (r h : block_state_ptr) (i : block_id) :
  fork_inv db r h ->
  (desc (index db) i (bs_id h) /\ remove db i = Throw fork_database_exception) \/
  (~ desc (index db) i (bs_id h) /\ exists db', remove db i = Ok db' /\
     root db' = root db /\ head db' = head db /\
     forall c p, index db' !! c = Some p <-> index db !! c = Some p /\ ~ desc (index db) i c).
Proof.
  intros I. destruct (remove_cases db h i (fork_inv_numbered _ _ _ I) (fi_head _ _ _ I))
    as [[E D]|(db1 & E & Hnd & Hr & Hh & Hv & Hi)]; [by left|]. right. split; [done|]. eauto 6.
Qed.

(** ** Walking towards the root *)

(** The blocks of the index below a number: the measure of every walk. *)
Definition below (m : gmap block_id block_state_ptr) (n : Z) : nat :=
  size (filter (fun ip : block_id * block_state_ptr => bs_num (snd ip) < n) m).

Lemma below_lt (m : gmap block_id block_state_ptr) (i : block_id) (p : block_state_ptr) (n : Z) :
  m !! i = Some p -> bs_num p < n -> (below m (bs_num p) < below m n)%nat.
Proof.
  intros Hp Hn. apply map_subset_size. split.
  - apply map_subseteq_spec. intros j q [Hj Hq]%map_lookup_filter_Some.
    apply map_lookup_filter_Some. simpl in *. split; [done | lia].
  - intros Hs. apply (lookup_weaken _ _ i p) in Hs; [|by apply map_lookup_filter_Some].
    apply map_lookup_filter_Some in Hs as [_ Hs]. simpl in Hs. lia.
Qed.

Lemma below_le (m : gmap block_id block_state_ptr) (n : Z) : (below m n <= size m)%nat.
Proof. apply map_subseteq_size, map_filter_subseteq. Qed.

(** [branch db r s l]: [l] are the blocks from [s] down to the root, exclusive. *)
Inductive branch (db : fork_database) (r : block_state_ptr) :
    block_state_ptr -> list block_state_ptr -> Prop :=
  | branch_root : branch db r r []
  | branch_block s q l : index db !! bs_id s = Some s -> node db r (prev_id s) = Some q ->
      branch db r q l -> branch db r s (s :: l).

Lemma node_get_block (db : fork_database) (r h : block_state_ptr) (i : block_id) (q : block_state_ptr) :
  fork_inv db r h -> node db r i = Some q ->
  q = r /\ get_block db i = None \/ get_block db i = Some q /\ index db !! bs_id q = Some q.
Proof.
  intros I. unfold node, get_block. case_bool_decide as Hr.
  - intros [= <-]. left. subst i. split; [done | apply I].
  - intros Hq. right. split; [done|]. by rewrite (fi_key _ _ _ I _ _ Hq).
Qed.

Lemma branch_loop_ok (db : fork_database) (r h s : block_state_ptr) (f : nat) :
  fork_inv db r h -> index db !! bs_id s = Some s -> (below (index db) (bs_num s) < f)%nat ->
  exists l, branch_loop f db (Some s) = Ok l /\ branch db r s l.
Proof.
  intros I. revert s. induction f as [|f IH]; intros s Hs Hf; [lia|]. simpl.
  destruct (fi_link _ _ _ I _ _ Hs) as (q & Hq & Hn).
  destruct (node_get_block _ _ _ _ _ I Hq) as [[-> ->]|[-> Hin]].
  - replace (branch_loop f db None) with (@Ok (list block_state_ptr) []) by (by destruct f).
    simpl. exists [s]. split; [done|]. econstructor; [done..|constructor].
  - pose proof (below_lt (index db) _ q (bs_num s) Hin ltac:(lia)).
    destruct (IH q Hin ltac:(lia)) as (l & -> & Hb). simpl. exists (s :: l).
    split; [done|]. by econstructor.
Qed.

Lemma fuel_enough (db : fork_database) (n : Z) : (below (index db) n < fuel db)%nat.
Proof. unfold fuel. pose proof (below_le (index db) n). lia. Qed.

(** [fetch_branch] of a block of the fork database ends, with the blocks from
    it down to the root, the root excluded, whose number does not exceed the
    bound; of any other block it is empty. *)
Theorem fetch_branch_spec (db : fork_database) (r h : block_state_ptr) (i : block_id) (trim : Z) :
  fork_inv db r h ->
  match get_block db i with
  | None => fetch_branch db i trim = Ok []
  | Some s => exists l, branch db r s l /\
      fetch_branch db i trim = Ok (filter (fun b => bs_num b <= trim) l)
  end.
Proof.
  intros I. unfold fetch_branch. destruct (get_block db i) as [s|] eqn:E; [|done].
  assert (Hs : index db !! bs_id s = Some s) by (by rewrite (fi_key _ _ _ I _ _ E)).
  destruct (branch_loop_ok db r h s (fuel db) I Hs (fuel_enough _ _)) as (l & -> & Hb). eauto.
Qed.

(** [path db r s l a]: walking from [s] towards the root passes the blocks [l]
    and then arrives at [a]. *)
Inductive path (db : fork_database) (r : block_state_ptr) :
    block_state_ptr -> list block_state_ptr -> block_state_ptr -> Prop :=
  | path_nil s : path db r s [] s
  | path_cons s q l a : index db !! bs_id s = Some s -> node db r (prev_id s) = Some q ->
      path db r q l a -> path db r s (s :: l) a.

Lemma path_snoc (db : fork_database) (r s b q : block_state_ptr) (l : list block_state_ptr) :
  path db r s l b -> index db !! bs_id b = Some b -> node db r (prev_id b) = Some q ->
  path db r s (l ++ [b]) q.
Proof.
  intros P Hb Hq. induction P as [s|s x l a Hs Hx P IH]; simpl.
  - econstructor; [done..|constructor].
  - econstructor; [done..|]. by apply IH.
Qed.

(** The root or a block of the index. *)
Definition is_node (db : fork_database) (r b : block_state_ptr) : Prop :=
  node db r (bs_id b) = Some b.

Lemma node_is_node (db : fork_database) (r h : block_state_ptr) (i : block_id) (q : block_state_ptr) :
  fork_inv db r h -> node db r i = Some q -> is_node db r q /\ bs_id q = i.
Proof.
  intros I Hq. assert (Hi : bs_id q = i).
  { unfold node in Hq. case_bool_decide; [by simplify_eq|]. by apply (fi_key _ _ _ I). }
  split; [|done]. unfold is_node. by rewrite Hi.
Qed.

Lemma block_or_root_node (db : fork_database) (r h : block_state_ptr) (i : block_id) :
  fork_inv db r h ->
  block_or_root db i = match node db r i with
                       | Some q => Ok q
                       | None => Throw fork_db_block_not_found
                       end.
Proof.
  intros I. unfold block_or_root, get_block_header. by rewrite (fi_root _ _ _ I).
Qed.

(** Above the root a node is a block of the index, one above its predecessor. *)
Lemma is_node_above (db : fork_database) (r h b : block_state_ptr) :
  fork_inv db r h -> is_node db r b -> b <> r ->
  index db !! bs_id b = Some b /\
  exists q, node db r (prev_id b) = Some q /\ is_node db r q /\ bs_id q = prev_id b /\
    bs_num b = bs_num q + 1 /\ bs_num r <= bs_num q.
Proof.
  intros I Hb Hne. unfold is_node, node in Hb. case_bool_decide as Hr; [by simplify_eq|].
  split; [done|]. destruct (fi_link _ _ _ I _ _ Hb) as (q & Hq & Hn). exists q.
  destruct (node_is_node _ _ _ _ _ I Hq) as [Hq1 Hq2]. split_and!; try done. by eapply node_num_ge.
Qed.

(** Two nodes with the number of the root are the root. *)
Lemma is_node_root (db : fork_database) (r h b : block_state_ptr) :
  fork_inv db r h -> is_node db r b -> bs_num b = bs_num r -> bs_id b = bs_id r.
Proof.
  intros I Hb Hn. unfold is_node, node in Hb. case_bool_decide as Hr; [congruence|].
  destruct (fi_link _ _ _ I _ _ Hb) as (q & Hq & Hq').
  pose proof (node_num_ge _ _ _ _ _ I Hq). lia.
Qed.

Lemma descend_ok (db : fork_database) (r h s b : block_state_ptr) (num : Z) (f : nat)
    (acc : list block_state_ptr) :
  fork_inv db r h -> is_node db r b -> path db r s acc b -> bs_num r <= num ->
  (below (index db) (bs_num b) < f)%nat ->
  exists b' l, descend f db b num acc = Ok (b', l) /\ is_node db r b' /\ path db r s l b' /\
    bs_num b' = Z.min (bs_num b) num /\ (bs_num b <= num -> l = acc /\ b' = b).
Proof.
  intros I. revert b acc. induction f as [|f IH]; intros b acc Hb P Hnum Hf; [lia|]. simpl.
  destruct (Z.ltb_spec num (bs_num b)) as [Hlt|Hge].
  - destruct (is_node_above _ _ _ _ I Hb) as (Hin & q & Hq & Hqn & _ & Hn & _); [intros ->; lia|].
    rewrite (block_or_root_node _ _ _ _ I), Hq. simpl.
    destruct (decide (num < bs_num q)) as [Hq1|Hq1].
    + destruct (IH q (acc ++ [b])) as (b' & l & E & ? & ? & ? & _); [done|by eapply path_snoc|done| |].
      * destruct (node_get_block _ _ _ _ _ I Hq) as [[-> _]|[_ Hqi]]; [lia|].
        pose proof (below_lt (index db) _ q (bs_num b) Hqi ltac:(lia)). lia.
      * exists b', l. split; [done|]. split; [done|]. split; [done|]. split; [lia|].
        intros; exfalso; lia.
    + replace (descend f db q num (acc ++ [b])) with (Ok (q, acc ++ [b]))
        by (destruct f; simpl; by rewrite (proj2 (Z.ltb_ge num (bs_num q))) by lia).
      exists q, (acc ++ [b]). split; [done|]. split; [done|]. split; [by eapply path_snoc|].
      split; [lia|]. intros; exfalso; lia.
  - exists b, acc. split_and!; try done. lia.
Qed.

(** Two branches that meet in [a] and in no block above it. *)
Definition meet_at (db : fork_database) (r s1 s2 a : block_state_ptr)
    (l1 l2 : list block_state_ptr) : Prop :=
  path db r s1 l1 a /\ path db r s2 l2 a /\
  (l1 = [] \/ l2 = [] \/
   exists x y, last l1 = Some x /\ last l2 = Some y /\ bs_id x <> bs_id y).

Lemma descend_both_ok (db : fork_database) (r h s1 s2 b1 b2 : block_state_ptr) (f : nat)
    (acc1 acc2 : list block_state_ptr) :
  fork_inv db r h -> is_node db r b1 -> is_node db r b2 ->
  path db r s1 acc1 b1 -> path db r s2 acc2 b2 -> bs_num b1 = bs_num b2 -> bs_id b1 <> bs_id b2 ->
  (below (index db) (bs_num b1) < f)%nat ->
  exists l1 l2 a, descend_both f db b1 b2 acc1 acc2 = Ok (l1, l2) /\ meet_at db r s1 s2 a l1 l2.
Proof.
  intros I. revert b1 b2 acc1 acc2. induction f as [|f IH]; intros b1 b2 acc1 acc2 H1 H2 P1 P2 Hn Hne Hf; [lia|].
  assert (Hr : b1 <> r /\ b2 <> r).
  { split; intros ->; apply Hne; [symmetry|]; eapply is_node_root; eauto. }
  destruct (is_node_above _ _ _ _ I H1 (proj1 Hr)) as (Hi1 & q1 & Hq1 & Hqn1 & Hid1 & Hn1 & Hge1).
  destruct (is_node_above _ _ _ _ I H2 (proj2 Hr)) as (Hi2 & q2 & Hq2 & Hqn2 & Hid2 & Hn2 & Hge2).
  simpl. case_bool_decide as Hp.
  - exists (acc1 ++ [b1]), (acc2 ++ [b2]), q1. split; [done|]. split; [by eapply path_snoc|].
    split; [eapply path_snoc; eauto; congruence|]. right. right.
    exists b1, b2. by rewrite !last_snoc.
  - assert (Hq : q1 <> r /\ q2 <> r).
    { split; intros ->; apply Hp; rewrite <- Hid1, <- Hid2; [symmetry|];
        eapply is_node_root; eauto; lia. }
    unfold block_not_null.
    destruct (node_get_block _ _ _ _ _ I Hq1) as [[? _]|[-> Hx1]]; [by destruct Hq|].
    destruct (node_get_block _ _ _ _ _ I Hq2) as [[? _]|[-> Hx2]]; [by destruct Hq|]. simpl.
    pose proof (below_lt (index db) _ q1 (bs_num b1) Hx1 ltac:(lia)).
    apply IH; try done; [by eapply path_snoc | by eapply path_snoc | lia | congruence | lia].
Qed.

(** [fetch_branch_from] of two blocks, each the root or a block of the fork
    database, ends with the two branches from them down to their last common
    ancestor, the ancestor excluded. *)
Theorem fetch_branch_from_spec (db : fork_database) (r h s1 s2 : block_state_ptr) :
  fork_inv db r h -> is_node db r s1 -> is_node db r s2 ->
  exists l1 l2 a, fetch_branch_from db (bs_id s1) (bs_id s2) = Ok (l1, l2) /\
    meet_at db r s1 s2 a l1 l2.
Proof.
  intros I H1 H2. unfold fetch_branch_from. rewrite !(block_or_root_node _ _ _ _ I).
  unfold is_node in H1, H2. rewrite H1, H2. cbn [mbind result_bind].
  pose proof (node_num_ge _ _ _ _ _ I H1). pose proof (node_num_ge _ _ _ _ _ I H2).
  destruct (descend_ok db r h s1 s1 (bs_num s2) (fuel db) [] I H1 (path_nil _ _ _)) as
    (b1 & l1 & -> & Hb1 & P1 & Hn1 & Hs1); [done | apply fuel_enough |]. cbn [mbind result_bind].
  destruct (descend_ok db r h s2 s2 (bs_num b1) (fuel db) [] I H2 (path_nil _ _ _)) as
    (b2 & l2 & -> & Hb2 & P2 & Hn2 & Hs2); [lia | apply fuel_enough |]. cbn [mbind result_bind].
  case_bool_decide as He.
  - assert (b1 = b2) as <- by (unfold is_node in Hb1, Hb2; rewrite He in Hb1; congruence).
    exists l1, l2, b1. split; [done|]. split; [done|]. split; [done|].
    destruct (Z.le_ge_cases (bs_num s1) (bs_num s2)); [left; by apply Hs1|].
    right. left. apply Hs2. lia.
  - eapply descend_both_ok; eauto; [lia | apply fuel_enough].
Qed.

(** ** Advancing the root *)
Lemma blocks_to_remove_ok (db : fork_database) (r h s : block_state_ptr) (f : nat)
    (acc : list block_id) :
  fork_inv db r h -> index db !! bs_id s = Some s -> (below (index db) (bs_num s) < f)%nat ->
  exists l, branch db r s l /\
    blocks_to_remove_loop f db (bs_id r) s acc = Ok (acc ++ map prev_id l).
Proof.
  intros I. revert s acc. induction f as [|f IH]; intros s acc Hs Hf; [lia|]. simpl.
  destruct (fi_link _ _ _ I _ _ Hs) as (q & Hq & Hn).
  destruct (node_get_block _ _ _ _ _ I Hq) as [[-> ->]|[-> Hin]].
  - destruct (node_is_node _ _ _ _ _ I Hq) as [_ Hid]. rewrite bool_decide_eq_true_2 by done. simpl.
    exists [s]. split; [|done]. econstructor; [done..|constructor].
  - pose proof (below_lt (index db) _ q (bs_num s) Hin ltac:(lia)).
    destruct (IH q (acc ++ [prev_id s]) Hin ltac:(lia)) as (l & Hb & ->). exists (s :: l).
    split; [by econstructor|]. simpl. by rewrite <- app_assoc.
Qed.

Lemma branch_prev (db : fork_database) (r h s : block_state_ptr) (l : list block_state_ptr) :
  fork_inv db r h -> branch db r s l ->
  (l <> [] -> bs_id r ∈ map prev_id l) /\
  forall a, a ∈ map prev_id l -> exists q, node db r a = Some q /\ bs_num q < bs_num s.
Proof.
  intros I B. induction B as [|s q l Hs Hq B [IH1 IH2]]; simpl.
  { split; [done|]. intros a Ha. by apply elem_of_nil in Ha. }
  destruct (fi_link _ _ _ I _ _ Hs) as (q' & Hq' & Hn). rewrite Hq in Hq'. injection Hq' as <-.
  split.
  - intros _. destruct l as [|x l]; [|right; by apply IH1].
    inversion B; subst. destruct (node_is_node _ _ _ _ _ I Hq) as [_ <-]. by constructor.
  - intros a [->|Ha]%elem_of_cons; [exists q; split; [done|lia]|].
    destruct (IH2 a Ha) as (x & Hx & ?). exists x. split; [done|lia].
Qed.

(** Descent after a cut. *)
Lemma desc_cut (m m' : gmap block_id block_state_ptr) (cut : block_id -> Prop) (a c : block_id) :
  (forall c p, m' !! c = Some p <-> m !! c = Some p /\ ~ cut c) ->
  (forall c p, m !! c = Some p -> cut (prev_id p) -> cut c) -> ~ cut c ->
  desc m' a c <-> desc m a c.
Proof.
  intros Hm Hcl Hc. split.
  - intros D. clear Hc. induction D as [|j c p D IH Hp Hj]; [constructor|].
    apply Hm in Hp as [Hp _]. by apply (desc_child m a j c p).
  - intros D. induction D as [|j c p D IH Hp Hj]; [constructor|]. subst j.
    apply (desc_child m' a (prev_id p) c p); [|by apply Hm|done]. apply IH. intros Hcut.
    apply Hc. by apply (Hcl c p).
Qed.

Lemma desc_mono (m m' : gmap block_id block_state_ptr) (a c : block_id) :
  (forall c p, m' !! c = Some p -> m !! c = Some p) -> desc m' a c -> desc m a c.
Proof.
  intros Hm D. induction D as [|j c p D IH Hp Hj]; [constructor|].
  apply (desc_child m a j c p); auto.
Qed.

Lemma remove_each_cases (db : fork_database) (h : block_state_ptr) (l : list block_id) :
  numbered (index db) -> head db = Some h ->
  (exists db', remove_each db l = (db', Ok tt) /\ root db' = root db /\ head db' = head db /\
     validated db' = validated db /\ (forall a, a ∈ l -> ~ desc (index db) a (bs_id h)) /\
     forall c p, index db' !! c = Some p <->
       index db !! c = Some p /\ forall a, a ∈ l -> ~ desc (index db) a c) \/
  (exists db' a, remove_each db l = (db', Throw fork_database_exception) /\ a ∈ l /\
     desc (index db) a (bs_id h)).
Proof.
  revert db. induction l as [|i l IH]; intros db HN Hh; simpl.
  { left. exists db. split_and!; try done; [by intros a ?%elem_of_nil|].
    intros c p. split; [|by intros []]. intros Hp. split; [done|]. by intros a ?%elem_of_nil. }
  destruct (remove_cases db h i HN Hh) as [[-> D]|(db1 & -> & Hnd & Hr & Hh1 & Hv & Hi)].
  { right. exists db, i. split; [done|]. split; [constructor|done]. }
  assert (Hsub : forall c p, index db1 !! c = Some p -> index db !! c = Some p)
    by (intros c p Hc; by apply Hi in Hc as [? _]).
  assert (HN1 : numbered (index db1)).
  { destruct HN as [HK HN]. split; [eauto|]. intros c p q Hp Hq. eauto. }
  assert (Hcut : forall a c, ~ desc (index db) i c -> desc (index db1) a c <-> desc (index db) a c).
  { intros a c Hc. by apply (desc_cut _ _ (desc (index db) i)); eauto using desc_closed. }
  destruct (IH db1 HN1 ltac:(congruence)) as
    [(db2 & E & Hr2 & Hh2 & Hv2 & Hnd2 & Hi2)|(db2 & a & E & Ha & D)].
  - left. exists db2. split_and!; try congruence.
    + intros a [->|Ha]%elem_of_cons; [done|]. rewrite <- Hcut by done. auto.
    + intros c p. rewrite Hi2, Hi. split.
      * intros [[Hc Hnc] Hall]. split; [done|]. intros a [->|Ha]%elem_of_cons; [done|].
        rewrite <- Hcut by done. auto.
      * intros [Hc Hall]. assert (Hnc : ~ desc (index db) i c) by (apply Hall; constructor).
        split; [done|]. intros a Ha. rewrite Hcut by done. apply Hall. by constructor.
  - right. exists db2, a. split; [done|]. split; [by constructor|]. by apply (desc_mono _ (index db1)).
Qed.

Lemma desc_root_all (db : fork_database) (r h : block_state_ptr) (c : block_id) (p : block_state_ptr) :
  fork_inv db r h -> index db !! c = Some p -> desc (index db) (bs_id r) c.
Proof.
  intros I Hp. assert (Hs : index db !! bs_id p = Some p) by (by rewrite (fi_key _ _ _ I _ _ Hp)).
  destruct (branch_loop_ok db r h p (fuel db) I Hs (fuel_enough _ _)) as (l & _ & B).
  rewrite <- (fi_key _ _ _ I _ _ Hp). clear Hp Hs c.
  induction B as [|s q l Hs Hq B IH]; [constructor|].
  destruct (node_is_node _ _ _ _ _ I Hq) as [_ Hid].
  by apply (desc_child _ _ (bs_id q) (bs_id s) s).
Qed.

(** What is left when the blocks below the new root are removed. *)
Lemma survivors (db : fork_database) (r h n : block_state_ptr) (l : list block_state_ptr) (c : block_id) :
  fork_inv db r h -> index db !! bs_id n = Some n -> branch db r n l ->
  c = bs_id r \/ is_Some (index db !! c) ->
  (forall a, a ∈ map prev_id l -> ~ desc (delete (bs_id n) (index db)) a c) <->
  desc (index db) (bs_id n) c.
Proof.
  intros I Hn B Hc. pose proof (fi_root_fresh _ _ _ I) as Hrf. set (m := index db) in *. set (m1 := delete (bs_id n) m).
  destruct (branch_prev _ _ _ _ _ I B) as [Hroot Hanc].
  assert (Hl : l <> []).
  { intros ->. inversion B; subst. congruence. }
  specialize (Hroot Hl).
  assert (Hup : forall a, a ∈ map prev_id l -> ~ desc m (bs_id n) a).
  { intros a (q & Hq & Hlt)%Hanc D. unfold node in Hq. case_bool_decide as He.
    - subst a. destruct (desc_in _ _ _ D) as [E|[x E]]; congruence.
    - pose proof (desc_num m _ _ _ _ (fork_inv_numbered _ _ _ I) D Hn Hq). lia. }
  split.
  - intros Hno. assert (D : desc m (bs_id r) c).
    { destruct Hc as [->|[p Hp]]; [constructor | by eapply desc_root_all]. }
    assert (Hsplit : desc m1 (bs_id r) c \/ desc m (bs_id n) c).
    { clear Hno Hc. induction D as [|j c p D IH Hp Hj]; [left; constructor|].
      destruct (decide (c = bs_id n)) as [->|Hne]; [right; constructor|].
      destruct IH as [IH|IH]; [left|right].
      - apply (desc_child m1 _ j c p); [done| |done]. subst m1. by rewrite lookup_delete_ne.
      - by apply (desc_child m _ j c p). }
    destruct Hsplit as [Hs|]; [|done]. by destruct (Hno _ Hroot).
  - intros D a Ha D1. clear Hc. revert D.
    induction D1 as [|j c p D1 IH Hp Hj]; [by apply Hup|]. intros D.
    apply lookup_delete_Some in Hp as [Hne Hp].
    inversion D as [|j' c' p' D' Hp' Hj']; subst; [done|]. apply IH.
    change (m !! c = Some p) in Hp. change (m !! c = Some p') in Hp'. congruence.
Qed.

(** The database with a new root and only what is built on it. *)
Lemma reroot_inv (db db' : fork_database) (r h n : block_state_ptr) :
  fork_inv db r h -> index db !! bs_id n = Some n -> is_valid db n = true ->
  root db' = Some n -> head db' = Some h -> validated db' = validated db ->
  desc (index db) (bs_id n) (bs_id h) ->
  (forall c p, index db' !! c = Some p <->
     index db !! c = Some p /\ c <> bs_id n /\ desc (index db) (bs_id n) c) ->
  fork_inv db' n h.
Proof.
  intros I Hn Hnv Hr Hh Hv Hd Hi.
  assert (Hsub : forall c p, index db' !! c = Some p -> index db !! c = Some p)
    by (intros c p Hc; by apply Hi in Hc as [? _]).
  assert (Hval : forall p, is_valid db' p = is_valid db p) by (intros; unfold is_valid; by rewrite Hv).
  destruct I. split; rewrite ?Hval; eauto.
  - destruct (index db' !! bs_id n) eqn:E; [|done]. by apply Hi in E as (_ & [] & _).
  - intros c p (Hp & Hne & D)%Hi. destruct (fi_link0 c p Hp) as (q & Hq & Hnum).
    inversion D as [|j c' p' D' Hp' Hj]; subst; [done|]. rewrite Hp in Hp'. injection Hp' as <-.
    exists q. split; [|done]. unfold node in Hq.
    destruct (bool_decide_reflect (bs_id r = prev_id p)) as [Hr1|Hr1].
    { exfalso. destruct (desc_in _ _ _ D') as [E|[x E]]; congruence. }
    unfold node. case_bool_decide as Hn1; [congruence|]. apply Hi. by split_and!.
  - split; [eapply fi_num0; eauto|]. intros c p Hp. eapply fi_num0; eauto.
  - intros c p (Hp & Hne & _)%Hi E. apply Hne. by apply (fi_addr0 c (bs_id n) p n).
  - destruct (decide (bs_id h = bs_id n)) as [He|Hne].
    + left. destruct fi_head_in0 as [->|Hin]; congruence.
    + right. apply Hi. destruct fi_head_in0 as [->|Hin]; [|by split_and!].
      exfalso. destruct (desc_in _ _ _ Hd) as [E|[x E]]; congruence.
Qed.

Lemma advance_root_cases (db : fork_database) (r h n : block_state_ptr) :
  fork_inv db r h -> index db !! bs_id n = Some n -> is_valid db n = true ->
  (desc (index db) (bs_id n) (bs_id h) /\ exists db', advance_root db (bs_id n) = (db', Ok tt) /\
     root db' = Some n /\ head db' = Some h /\ validated db' = validated db /\
     forall c p, index db' !! c = Some p <->
       index db !! c = Some p /\ c <> bs_id n /\ desc (index db) (bs_id n) c) \/
  (~ desc (index db) (bs_id n) (bs_id h) /\
   exists db', advance_root db (bs_id n) = (db', Throw fork_database_exception)).
Proof.
  intros I Hn Hv. unfold advance_root, advance_root_checks, get_block.
  rewrite (fi_root _ _ _ I), Hn. cbn [deref dcd_assert mbind result_bind]. rewrite Hv. simpl dcd_assert.
  cbn [mbind result_bind].
  destruct (blocks_to_remove_ok db r h n (fuel db) [] I Hn (fuel_enough _ _)) as (l & B & E).
  rewrite <- (fi_root _ _ _ I). rewrite (fi_root _ _ _ I). rewrite E. simpl app. cbv iota beta.
  cbn [mbind result_bind]. set (db1 := mk_fork_db _ _ _ _).
  assert (HN1 : numbered (index db1)).
  { destruct (fork_inv_numbered _ _ _ I) as [HK HN]. split; simpl.
    - intros c p [_ Hp]%lookup_delete_Some. by apply HK.
    - intros c p q [_ Hp]%lookup_delete_Some [_ Hq]%lookup_delete_Some. by apply (HN c). }
  assert (Hhn : bs_id h = bs_id r \/ is_Some (index db !! bs_id h)).
  { destruct (fi_head_in _ _ _ I) as [->|Hin]; [by left | right; eauto]. }
  pose proof (survivors _ _ _ _ _ (bs_id h) I Hn B Hhn) as Hsh.
  destruct (remove_each_cases db1 h (map prev_id l) HN1 (fi_head _ _ _ I)) as
    [(db2 & -> & Hr2 & Hh2 & Hv2 & Hnd & Hi)|(db2 & a & -> & Ha & D)].
  - left. split; [by apply Hsh|]. eexists. split; [done|]. simpl. rewrite Hh2, Hv2.
    split_and!; try done; [apply I|]. intros c p. rewrite Hi. simpl. rewrite lookup_delete_Some. split.
    + intros [[Hne Hp] Hall]. split_and!; try done. apply (survivors _ _ _ _ _ c I Hn B); eauto.
    + intros (Hp & Hne & D). split; [done|]. apply (survivors _ _ _ _ _ c I Hn B); eauto.
  - right. split; [|by exists db2]. intros Hd. by apply (proj2 Hsh Hd a Ha).
Qed.

(** The root advances to a validated block exactly when the head is that
    block or is built on it. Then the block is the new root and the index keeps
    exactly the blocks built on it. Otherwise the call throws. *)
Theorem advance_root_spec (db : fork_database) (r h n : block_state_ptr) :
  fork_inv db r h -> index db !! bs_id n = Some n -> is_valid db n = true ->
  (desc (index db) (bs_id n) (bs_id h) /\ exists db', advance_root db (bs_id n) = (db', Ok tt) /\
     fork_inv db' n h /\
     forall c p, index db' !! c = Some p <->
       index db !! c = Some p /\ c <> bs_id n /\ desc (index db) (bs_id n) c) \/
  (~ desc (index db) (bs_id n) (bs_id h) /\
   exists db', advance_root db (bs_id n) = (db', Throw fork_database_exception)).
Proof.
  intros I Hn Hv. destruct (advance_root_cases db r h n I Hn Hv) as
    [(D & db' & E & Hr & Hh & Hval & Hi)|?]; [left|by right].
  split; [done|]. exists db'. split_and!; try done. by eapply reroot_inv.
Qed.

(** ** Reachable states *)

(** The head is the block or is built on it, if the block is one that the root can advance to. *)
Definition below_head (db : fork_database) (i : block_id) : Prop :=
  forall h n, head db = Some h -> index db !! i = Some n -> is_valid db n = true -> desc (index db) i (bs_id h).

(** The databases that calls lead to: a reset, blocks that link to a known one,
    and every other operation that changes the database. An operation that throws
    leaves the database as it is; only [advance_root] erases blocks before it can
    throw, when the head is not built on the new root ([advance_orphans]). *)
Inductive reachable : fork_database -> Prop :=
  | reach_reset db a bhs : num_from_id (id bhs) = block_num bhs -> reachable (reset db a bhs)
  | reach_rollback db : reachable db -> reachable (rollback_head_to_root db)
  | reach_add db r n ign v validator db' : reachable db -> root db = Some r -> new_block db r n ->
      add_impl db (Some n) ign v validator = Ok db' -> reachable db'
  | reach_remove db i db' : reachable db -> remove db i = Ok db' -> reachable db'
  | reach_mark_valid db p db' : reachable db -> mark_valid db p = Ok db' -> reachable db'
  | reach_advance db i db' : reachable db -> advance_root db i = (db', Ok tt) -> reachable db'
  | reach_advance_throws db i db' e : reachable db -> below_head db i -> advance_root db i = (db', Throw e) -> reachable db'.

Lemma advance_root_inv (db db' : fork_database) (r h : block_state_ptr) (i : block_id) :
  fork_inv db r h -> advance_root db i = (db', Ok tt) -> exists r' h', fork_inv db' r' h'.
Proof.
  intros I E. destruct (index db !! i) as [n|] eqn:En; [destruct (is_valid db n) eqn:Ev|].
  - pose proof (fi_key _ _ _ I _ _ En) as Hi0. rewrite <- Hi0 in E, En. clear Hi0.
    destruct (advance_root_cases db r h n I En Ev) as
      [(D & db1 & E1 & Hr & Hh & Hval & Hi)|(_ & db1 & E1)]; rewrite E in E1; simplify_eq.
    exists n, h. by eapply reroot_inv.
  - unfold advance_root, advance_root_checks, get_block in E.
    rewrite (fi_root _ _ _ I), En in E. simpl in E. rewrite Ev in E. done.
  - unfold advance_root, advance_root_checks, get_block in E.
    by rewrite (fi_root _ _ _ I), En in E.
Qed.

Lemma advance_root_throws (db db' : fork_database) (r h : block_state_ptr) (i : block_id) (e : exn) :
  fork_inv db r h -> below_head db i -> advance_root db i = (db', Throw e) -> db' = db.
Proof.
  intros I Hb E. destruct (index db !! i) as [n|] eqn:En; [destruct (is_valid db n) eqn:Ev|].
  - pose proof (Hb h n (fi_head _ _ _ I) En Ev) as D. pose proof (fi_key _ _ _ I _ _ En) as Hi0. rewrite <- Hi0 in *. clear Hi0.
    destruct (advance_root_cases db r h n I En Ev) as [(_ & db1 & E1 & _)|(Hn & _)]; [|done]. by rewrite E in E1.
  - unfold advance_root, advance_root_checks, get_block in E. rewrite (fi_root _ _ _ I), En in E. simpl in E. rewrite Ev in E.
    by injection E as <- _.
  - unfold advance_root, advance_root_checks, get_block in E. rewrite (fi_root _ _ _ I), En in E. by injection E as <- _.
Qed.

Lemma reachable_ok (db : fork_database) : reachable db -> fork_ok db.
Proof.
  induction 1 as [db a bhs Hn|db _ (r & h & I)|db r n ign v w db' _ (r' & h & I) Hr Hn E
                 |db i db' _ (r & h & I) E|db p db' _ (r & h & I) E|db i db' _ (r & h & I) E
                 |db i db' e _ (r & h & I) Hb E].
  - eexists _, _. by apply reset_inv.
  - eexists _, _. by eapply rollback_inv.
  - rewrite (fi_root _ _ _ I) in Hr. injection Hr as ->. exists r. by eapply add_inv.
  - exists r, h. by eapply remove_inv.
  - exists r. by eapply mark_valid_inv.
  - by eapply advance_root_inv.
  - rewrite (advance_root_throws _ _ _ _ _ _ I Hb E). by exists r, h.
Qed.

(** C26. In every state the operations lead to, also ones that throw, the fork database is a tree, provided that the
    root is not advanced to a valid block on which the head is not built, which erases blocks and then throws: its
    blocks are filed under their identifiers, the root is not among them, and
    from every block the links to the predecessor lead down to the root, the
    block numbers decreasing by one. *)
Theorem fork_database_is_a_tree (db : fork_database) :
  reachable db ->
  exists r, root db = Some r /\ index db !! bs_id r = None /\
    forall i p, index db !! i = Some p -> bs_id p = i /\
      (exists l, branch db r p l /\ Z.of_nat (length l) = bs_num p - bs_num r).
Proof.
  intros (r & h & I)%reachable_ok. exists r. split; [apply I|]. split; [apply I|].
  intros i p Hp. pose proof (fi_key _ _ _ I _ _ Hp) as Hid. split; [done|]. rewrite <- Hid in Hp.
  destruct (branch_loop_ok db r h p (fuel db) I Hp (fuel_enough _ _)) as (l & _ & B).
  exists l. split; [done|]. clear Hp Hid i. induction B as [|s q l Hs Hq B IH]; simpl; [lia|].
  destruct (fi_link _ _ _ I _ _ Hs) as (q' & Hq' & Hn). rewrite Hq in Hq'. injection Hq' as <-. lia.
Qed.

(** C13. In every state the operations lead to, the head is the root or a block of
    the tree, it is validated, and no validated block has a greater pair of
    irreversible block number and block number. *)
Theorem fork_database_head_is_best (db : fork_database) :
  reachable db ->
  exists r h, root db = Some r /\ head db = Some h /\ (h = r \/ index db !! bs_id h = Some h) /\
    is_valid db h = true /\
    forall i p, index db !! i = Some p -> is_valid db p = true -> bs_preferred p h = false.
Proof. intros (r & h & [])%reachable_ok. exists r, h. by split_and!. Qed.

(** ** A database with a fork *)
Definition sample_block (a num lib salt : Z) (prev : block_id) : block_state_ptr :=
  mk_ptr a
    (mk_bhs
       (mk_common num lib lib schedule_empty rate_default imerkle_empty ∅ ∅ (mk_bsa 1 []) [])
       (mk_digest (endian_reverse_u32 num) salt 0 0)
       (mk_signed_header
          (mk_header num 0 0 prev digest_zero digest_zero 0 None 0 None []) (mk_signature 0 []))
       (mk_schedule_info 0 digest_zero schedule_empty) (mk_rate_info 0 digest_zero rate_default) ∅ [] []).

Definition sample_root : block_state_ptr := sample_block 1 9 5 0 digest_zero.
Definition block_a10 : block_state_ptr := sample_block 2 10 6 1 (bs_id sample_root).
Definition block_a11 : block_state_ptr := sample_block 3 11 6 1 (bs_id block_a10).
Definition block_b10 : block_state_ptr := sample_block 4 10 6 2 (bs_id sample_root).

Definition ok_or {A} (d : A) (r : result A) : A := match r with Ok a => a | Throw _ => d end.

Definition sample_db0 : fork_database :=
  reset (mk_fork_db ∅ None None ∅) 1 (bsp_state sample_root).
Definition sample_db1 : fork_database :=
  Eval vm_compute in ok_or sample_db0 (add sample_db0 (Some block_a10) false).
Definition sample_db2 : fork_database :=
  Eval vm_compute in ok_or sample_db0 (add sample_db1 (Some block_a11) false).
Definition sample_db3 : fork_database :=
  Eval vm_compute in ok_or sample_db0 (add sample_db2 (Some block_b10) false).
Definition sample_db : fork_database :=
  Eval vm_compute in ok_or sample_db0 (mark_valid sample_db3 block_a10).

Lemma sample_new_block (db : fork_database) (n q : block_state_ptr) :
  num_from_id (bs_id n) = bs_num n -> node db sample_root (prev_id n) = Some q ->
  bs_num n = bs_num q + 1 -> addr n <> addr sample_root ->
  forallb (fun p => negb (addr n =? addr p)) (blocks db) = true -> new_block db sample_root n.
Proof.
  intros Hn Hq Hq1 Ha HF. split_and!; try done; [by intros ? ?; simplify_eq|].
  intros i p Hp. rewrite forallb_forall in HF. apply Z.eqb_neq, negb_true_iff, HF.
  apply list_elem_of_In, elem_of_blocks. eauto.
Qed.

Ltac sample_block_tac :=
  eapply sample_new_block;
  [ vm_compute; reflexivity | vm_compute; reflexivity | vm_compute; reflexivity
  | vm_compute; discriminate | vm_compute; reflexivity ].

Lemma sample_db_reachable : reachable sample_db.
Proof.
  assert (R0 : reachable sample_db0) by (by apply reach_reset).
  assert (R1 : reachable sample_db1)
    by (eapply (reach_add sample_db0 sample_root block_a10 false false (fun _ _ _ => Ok tt));
        [exact R0 | reflexivity | sample_block_tac | vm_compute; reflexivity]).
  assert (R2 : reachable sample_db2)
    by (eapply (reach_add sample_db1 sample_root block_a11 false false (fun _ _ _ => Ok tt));
        [exact R1 | reflexivity | sample_block_tac | vm_compute; reflexivity]).
  assert (R3 : reachable sample_db3)
    by (eapply (reach_add sample_db2 sample_root block_b10 false false (fun _ _ _ => Ok tt));
        [exact R2 | reflexivity | sample_block_tac | vm_compute; reflexivity]).
  eapply (reach_mark_valid sample_db3 block_a10); [exact R3 | vm_compute; reflexivity].
Qed.

(** The root is advanced to a valid block off the branch of the head: the call throws, and the block on it has lost its
    predecessor. *)
Definition block_b11 : block_state_ptr := sample_block 5 11 5 2 (bs_id block_b10).
Definition sample_off_branch : result fork_database :=
  db ← mark_valid sample_db block_a11; db ← add db (Some block_b11) false; mark_valid db block_b10.

Theorem advance_orphans :
  match (db ← sample_off_branch; Ok (advance_root db (bs_id block_b10))) with
  | Ok (db', res) => res = Throw fork_database_exception /\ (head db' = Some block_a11) /\
      index db' !! bs_id block_b11 = Some block_b11 /\ index db' !! prev_id block_b11 = None /\ root db' = Some sample_root
  | Throw _ => False
  end.
Proof. vm_compute. split_and!; reflexivity. Qed.

Lemma remove_spec_witness :
  exists r h, fork_inv sample_db r h /\ bs_id h = bs_id block_a10 /\
    exists db', remove sample_db (bs_id block_b10) = Ok db' /\
      (index db' !! bs_id block_a11 = Some block_a11).
Proof.
  destruct (reachable_ok _ sample_db_reachable) as (r & h & I). exists r, h. split; [exact I|].
  assert (Hh : h = block_a10) by (pose proof (fi_head _ _ _ I) as E; vm_compute in E; injection E as <-; reflexivity).
  subst h. split; [reflexivity|].
  assert (Hno : ~ desc (index sample_db) (bs_id block_b10) (bs_id block_a11)).
  { intros D. inversion D as [|j c p D' Hp Hj]. subst j c. vm_compute in Hp. injection Hp as <-.
    inversion D' as [|j c p D2 Hp Hj]. subst j c. vm_compute in Hp. injection Hp as <-.
    inversion D2 as [|j c p D3 Hp Hj]. subst j c. vm_compute in Hp. discriminate Hp. }
  destruct (remove_spec sample_db r block_a10 (bs_id block_b10) I) as [[D _]|(_ & db' & E & _ & _ & Hi)].
  - exfalso. apply Hno. apply (desc_child _ _ (bs_id block_a10) _ block_a11);
      [exact D | vm_compute; reflexivity | reflexivity].
  - exists db'. split; [exact E|]. apply Hi. split; [vm_compute; reflexivity | exact Hno].
Defined.

Lemma fetch_branch_spec_witness :
  exists r h, fork_inv sample_db r h /\
    exists l, branch sample_db r block_a11 l /\
      fetch_branch sample_db (bs_id block_a11) 10 = Ok (filter (fun b => bs_num b <= 10) l).
Proof.
  destruct (reachable_ok _ sample_db_reachable) as (r & h & I). exists r, h. split; [exact I|].
  exact (fetch_branch_spec sample_db r h (bs_id block_a11) 10 I).
Defined.

Lemma fetch_branch_from_spec_witness :
  exists r h, fork_inv sample_db r h /\
    exists l1 l2 a, fetch_branch_from sample_db (bs_id block_a11) (bs_id block_b10) = Ok (l1, l2) /\
      meet_at sample_db r block_a11 block_b10 a l1 l2.
Proof.
  destruct (reachable_ok _ sample_db_reachable) as (r & h & I). exists r, h. split; [exact I|].
  assert (Hr : r = sample_root) by (pose proof (fi_root _ _ _ I) as E; vm_compute in E; injection E as <-; reflexivity).
  subst r. apply (fetch_branch_from_spec sample_db sample_root h); [exact I | vm_compute; reflexivity | vm_compute; reflexivity].
Defined.

Lemma advance_root_spec_witness :
  exists r h, fork_inv sample_db r h /\
    exists db', advance_root sample_db (bs_id block_a10) = (db', Ok tt) /\ fork_inv db' block_a10 h.
Proof.
  destruct (reachable_ok _ sample_db_reachable) as (r & h & I). exists r, h. split; [exact I|].
  assert (Hh : h = block_a10) by (pose proof (fi_head _ _ _ I) as E; vm_compute in E; injection E as <-; reflexivity).
  subst h. destruct (advance_root_spec sample_db r block_a10 block_a10 I) as [(_ & db' & E & I' & _)|[D _]];
    [vm_compute; reflexivity | vm_compute; reflexivity | exists db'; split; [exact E | exact I'] |
     exfalso; apply D; constructor].
Defined.

Lemma fork_database_is_a_tree_witness : exists r, root sample_db = Some r.
Proof.
  destruct (fork_database_is_a_tree sample_db sample_db_reachable) as (r & Hr & _). by exists r.
Defined.

Lemma fork_database_head_is_best_witness : exists h, head sample_db = Some h /\ is_valid sample_db h = true.
Proof.
  destruct (fork_database_head_is_best sample_db sample_db_reachable) as (r & h & _ & Hh & _ & Hv & _).
  by exists h.
Defined.

(** * Branches

    The branch of a block as a list, and what the operations that the controller calls on a new block
    do to the tree and to the head of the fork database. *)

(** ** Branches as lists, newest block first *)
Definition top (r : block_state_ptr) (bs : list block_state_ptr) : block_state_ptr :=
  match bs with [] => r | b :: _ => b end.

Section branches.
Context (f : fork_database) (r hf : block_state_ptr) (I : fork_inv f r hf).

Lemma branch_top (b : block_state_ptr) (bs : list block_state_ptr) : branch f r b bs -> b = top r bs.
Proof. by destruct 1. Qed.

Lemma branch_cons_inv (b x : block_state_ptr) (bs : list block_state_ptr) :
  branch f r b (x :: bs) -> x = b /\ index f !! bs_id b = Some b /\
    node f r (prev_id b) = Some (top r bs) /\ branch f r (top r bs) bs.
Proof.
  inversion 1 as [|s q l Hs Hq B]; subst. by rewrite <- (branch_top _ _ B).
Qed.

Lemma block_prev (b : block_state_ptr) : index f !! bs_id b = Some b -> prev_id b <> bs_id b.
Proof.
  intros Hb E. destruct (fi_link _ _ _ I _ _ Hb) as (q & Hq & Hn). rewrite E in Hq. unfold node in Hq.
  case_bool_decide as Hr; [by rewrite <- Hr, (fi_root_fresh _ _ _ I) in Hb|]. rewrite Hb in Hq. simplify_eq. lia.
Qed.

Lemma branch_num (b : block_state_ptr) (bs : list block_state_ptr) :
  branch f r b bs -> bs_num b = bs_num r + Z.of_nat (length bs).
Proof.
  induction 1 as [|s q l Hs Hq B IH]; simpl; [lia|].
  destruct (fi_link _ _ _ I _ _ Hs) as (q' & Hq' & Hn). rewrite Hq in Hq'. simplify_eq. lia.
Qed.

Lemma branch_elem (b x : block_state_ptr) (bs : list block_state_ptr) :
  branch f r b bs -> x ∈ bs -> index f !! bs_id x = Some x /\ bs_num r < bs_num x <= bs_num b /\
    exists l1 l2, bs = l1 ++ x :: l2 /\ branch f r x (x :: l2).
Proof.
  induction 1 as [|s q l Hs Hq B IH]; [by intros ?%elem_of_nil|].
  pose proof (branch_num _ _ B) as Hn.
  pose proof (branch_num s (s :: l) (branch_block _ _ _ _ _ Hs Hq B)) as Hn'. simpl in Hn'.
  intros [->|Hx]%elem_of_cons.
  - split; [done|]. split; [lia|]. exists [], l. split; [done|]. by econstructor.
  - destruct (IH Hx) as (? & ? & l1 & l2 & -> & ?). split; [done|]. split; [lia|]. exists (s :: l1), l2. done.
Qed.

Lemma branch_unique (b : block_state_ptr) (bs bs' : list block_state_ptr) :
  branch f r b bs -> branch f r b bs' -> bs = bs'.
Proof.
  intros B. revert bs'. induction B as [|s q l Hs Hq B IH]; intros bs' B'.
  - inversion B' as [|s q l Hs Hq B]; subst; [done|]. by rewrite (fi_root_fresh _ _ _ I) in Hs.
  - inversion B' as [|? q' l' Hs' Hq' B'']; subst; [by rewrite (fi_root_fresh _ _ _ I) in Hs|].
    rewrite Hq in Hq'. simplify_eq. f_equal. by apply IH.
Qed.

Lemma branch_exists (b : block_state_ptr) : is_node f r b -> exists bs, branch f r b bs.
Proof.
  unfold is_node, node. case_bool_decide as Hr; [intros [= <-]; exists []; constructor|]. intros Hi.
  destruct (branch_loop_ok f r hf b (fuel f) I Hi (fuel_enough _ _)) as (l & _ & B). by exists l.
Qed.

Lemma branch_is_node (b : block_state_ptr) (bs : list block_state_ptr) : branch f r b bs -> is_node f r b.
Proof.
  unfold is_node, node. destruct 1 as [|s q l Hs _ _]; [by rewrite bool_decide_eq_true_2|].
  case_bool_decide as Hr; [|done]. by rewrite <- Hr, (fi_root_fresh _ _ _ I) in Hs.
Qed.

Lemma path_branch (s a : block_state_ptr) (l rest : list block_state_ptr) :
  path f r s l a -> branch f r a rest -> branch f r s (l ++ rest).
Proof. induction 1 as [|s q l a Hs Hq P IH]; simpl; [done|]. intros B. econstructor; eauto. Qed.

Lemma path_prev (s a y : block_state_ptr) (l : list block_state_ptr) :
  path f r s l a -> last l = Some y -> prev_id y = bs_id a.
Proof.
  induction 1 as [s|s q l a Hs Hq P IH]; [done|]. destruct l as [|x l].
  - intros [= <-]. inversion P; subst. symmetry. by destruct (node_is_node _ _ _ _ _ I Hq).
  - rewrite last_cons_cons. apply IH.
Qed.

Lemma path_top (s a : block_state_ptr) (l : list block_state_ptr) : path f r s l a -> s = top a l.
Proof. by destruct 1. Qed.

Lemma path_node_end (s a : block_state_ptr) (l : list block_state_ptr) :
  path f r s l a -> is_node f r s -> exists rest, branch f r a rest.
Proof.
  induction 1 as [s|s q l a Hs Hq P IH]; [apply branch_exists|]. intros _. apply IH.
  by destruct (node_is_node _ _ _ _ _ I Hq).
Qed.

Lemma branch_nums_below (b : block_state_ptr) (bs : list block_state_ptr) (n : Z) :
  branch f r b bs -> bs_num b < n ->
  (list_to_map (map (fun x => (bs_num x, x)) bs) : gmap Z block_state_ptr) !! n = None.
Proof.
  intros B Hn. apply not_elem_of_list_to_map. rewrite <- list_fmap_compose. simpl.
  intros (x & -> & Hx)%list_elem_of_fmap. simpl in *.
  destruct (branch_elem _ _ _ B Hx) as (_ & ? & _). lia.
Qed.

Lemma branch_tail (t b : block_state_ptr) (l l2 : list block_state_ptr) :
  branch f r t (l ++ b :: l2) -> branch f r b (b :: l2).
Proof.
  revert t. induction l as [|x l IH]; intros t B; simpl in B.
  - by pose proof B as (<- & _)%branch_cons_inv.
  - apply branch_cons_inv in B as (_ & _ & _ & B). by apply IH in B.
Qed.
End branches.

(** A branch depends only on the blocks in it. *)
Lemma branch_sub (f f' : fork_database) (r b : block_state_ptr) (bs : list block_state_ptr) :
  branch f r b bs -> (forall x, x ∈ bs -> index f' !! bs_id x = Some x) ->
  (forall i p, index f !! i = Some p -> bs_id p = i) -> branch f' r b bs.
Proof.
  induction 1 as [|s q l Hs Hq B IH]; intros Hin Hk; [constructor|].
  econstructor; [apply Hin; by left| |apply IH; [|done]; intros x Hx; apply Hin; by right].
  unfold node in *. case_bool_decide; [done|]. destruct B as [|q q' l Hq1 Hq2 B].
  - by rewrite (Hk _ _ Hq) in *.
  - rewrite <- (Hk _ _ Hq). apply Hin. right. left.
Qed.

(** ** What the operations of the fork database do to the head *)
Lemma mark_valid_head (f : fork_database) (r hf b : block_state_ptr) :
  fork_inv f r hf -> index f !! bs_id b = Some b ->
  exists f', mark_valid f b = Ok f' /\ fork_inv f' r (if bs_preferred b hf then b else hf) /\
    index f' = index f /\ validated f' = {[addr b]} ∪ validated f.
Proof.
  intros I Hb. unfold mark_valid. destruct (is_valid f b) eqn:Ev.
  - rewrite (fi_best _ _ _ I _ _ Hb Ev). exists f. split_and!; try done.
    apply bool_decide_eq_true in Ev. set_solver.
  - change (id b) with (bs_id b). rewrite Hb. set (db := mk_fork_db _ _ _ _).
    destruct (by_lib_begin_is_Some db (bs_id b) b Hb) as [cand Hc]. rewrite Hc. simpl.
    rewrite (fi_head _ _ _ I). simpl. set (f' := if bs_preferred cand hf then _ else _).
    assert (E : mark_valid f b = Ok f').
    { unfold mark_valid. rewrite Ev. change (id b) with (bs_id b). rewrite Hb. fold db. rewrite Hc. simpl.
      by rewrite (fi_head _ _ _ I). }
    assert (Hx : index f' = index f /\ validated f' = {[addr b]} ∪ validated f) by (unfold f'; by destruct (bs_preferred cand hf)).
    destruct (mark_valid_inv _ _ _ _ _ I E) as (h' & I'). exists f'. split; [done|]. split; [|done].
    destruct Hx as [Hx Hv].
    assert (Hbest : bs_preferred b h' = false).
    { apply (fi_best _ _ _ I' (bs_id b)); [by rewrite Hx|]. apply bool_decide_eq_true. rewrite Hv. set_solver. }
    assert (Hh : h' = hf \/ (h' = cand /\ bs_preferred cand hf = true)).
    { pose proof (fi_head _ _ _ I') as Hh. unfold f' in Hh.
      destruct (bs_preferred cand hf); simpl in Hh; [simplify_eq; by right|].
      rewrite (fi_head _ _ _ I) in Hh. simplify_eq. by left. }
    destruct Hh as [->|[-> Hp]]; [by rewrite Hbest|].
    destruct (by_lib_begin_spec _ _ Hc) as [[i Hi] _]. simpl in Hi.
    pose proof (fi_head_valid _ _ _ I') as Hcv. apply bool_decide_eq_true in Hcv. rewrite Hv in Hcv.
    apply elem_of_union in Hcv as [Hcv%elem_of_singleton|Hcv].
    + assert (i = bs_id b) as -> by (eapply (fi_addr _ _ _ I); eauto). rewrite Hb in Hi. simplify_eq. by rewrite Hp.
    + rewrite (fi_best _ _ _ I _ _ Hi) in Hp; [done|]. by apply bool_decide_eq_true.
Qed.

(** Equal irreversible number and block number. *)
Definition same_rank (a b : block_state_ptr) : Prop :=
  dpos_irreversible_blocknum a = dpos_irreversible_blocknum b /\ bs_num a = bs_num b.

Lemma bs_preferred_true (a b : block_state_ptr) :
  bs_preferred a b = true <->
  dpos_irreversible_blocknum b < dpos_irreversible_blocknum a \/
  dpos_irreversible_blocknum b = dpos_irreversible_blocknum a /\ bs_num b < bs_num a.
Proof.
  unfold bs_preferred, first_preferred, bs_num.
  by rewrite orb_true_iff, andb_true_iff, !Z.ltb_lt, Z.eqb_eq.
Qed.

Lemma same_rank_iff (a b : block_state_ptr) :
  bs_preferred a b = false -> bs_preferred b a = false -> same_rank a b.
Proof. rewrite <- !not_true_iff_false, !bs_preferred_true. unfold same_rank. lia. Qed.

Lemma same_rank_preferred (a b x : block_state_ptr) :
  same_rank a b -> bs_preferred x a = bs_preferred x b /\ bs_preferred a x = bs_preferred b x.
Proof.
  unfold same_rank, bs_preferred, first_preferred, bs_num. intros [E1 E2]. by rewrite E1, E2.
Qed.

(** Adding a block that is not valid: the head is the old one or another valid block. *)
Lemma add_head (f f' : fork_database) (r hf n : block_state_ptr) :
  fork_inv f r hf -> new_block f r n -> is_valid f n = false -> add f (Some n) false = Ok f' ->
  index f !! bs_id n = None /\ is_Some (node f r (prev_id n)) /\
  index f' = <[bs_id n := n]> (index f) /\ validated f' = validated f /\
  exists hf', fork_inv f' r hf' /\ (hf' = hf \/ index f !! bs_id hf' = Some hf' /\ is_valid f hf' = true).
Proof.
  intros I N Hn E. unfold add in E. destruct (add_inv _ _ _ _ _ _ _ _ I N E) as [hf' I'].
  unfold add_impl in E. apply bind_ok_inv in E as ([] & _ & E). apply bind_ok_inv in E as (o & Ho & E).
  unfold get_block_header in Ho. rewrite (fi_root _ _ _ I) in Ho. simpl in Ho. injection Ho as <-.
  fold (node f r (prev_id n)) in E. destruct (node f r (prev_id n)) as [q|] eqn:Eq; [|discriminate].
  simpl in E. change (id n) with (bs_id n) in E. destruct (index f !! bs_id n) eqn:Ei; [discriminate|].
  cbv zeta in E. set (db1 := mk_fork_db _ _ _ _) in E.
  destruct (by_lib_begin db1) as [c|] eqn:Ec; [|discriminate E]. simpl in E. injection E as <-.
  split; [done|]. split; [done|]. split; [by destruct (is_valid db1 c)|]. split; [by destruct (is_valid db1 c)|].
  exists hf'. split; [done|]. pose proof (fi_head _ _ _ I') as Hh. destruct (is_valid db1 c) eqn:Ev.
  - simpl in Hh. injection Hh as <-. right. pose proof (candidate_in _ r _ (fi_key _ _ _ I') Ec) as Hc. split; [|done].
    simpl in Hc. apply lookup_insert_Some in Hc as [[_ ->]|[_ Hc]]; [|done].
    change (is_valid f c = true) in Ev. congruence.
  - simpl in Hh. rewrite (fi_head _ _ _ I) in Hh. left. congruence.
Qed.

(** The pending head is the head, when no block is preferred over it, or a block that is not valid and is. *)
Lemma pending_head_spec (f : fork_database) (r hf : block_state_ptr) :
  fork_inv f r hf -> exists t, pending_head f = Ok (Some t) /\
    (t = hf /\ (forall i b, index f !! i = Some b -> bs_preferred b hf = false) \/
     index f !! bs_id t = Some t /\ is_valid f t = false /\ bs_preferred t hf = true).
Proof.
  intros I. unfold pending_head, by_lib_lower_bound_false.
  assert (Hin : forall p i, index f !! i = Some p -> is_valid f p = false ->
    p ∈ filter (fun p => is_valid f p = false) (blocks f)).
  { intros p i Hp Hv. apply list_elem_of_filter. split; [done|]. apply elem_of_blocks. eauto. }
  destruct (first_by _ _) as [p|] eqn:E.
  - apply first_by_spec in E as [Hp Hmin];
      [|intros x y; apply data_less_asym|intros x y z; by apply data_less_negtrans].
    apply list_elem_of_filter in Hp as [Hv [i Hi]%elem_of_blocks].
    rewrite (fi_head _ _ _ I). simpl. destruct (bs_preferred p hf) eqn:Ep.
    + exists p. split; [done|]. right. by rewrite (fi_key _ _ _ I _ _ Hi).
    + exists hf. split; [done|]. left. split; [done|]. intros j b Hb.
      destruct (is_valid f b) eqn:Evb; [by apply (fi_best _ _ _ I j)|].
      apply (bs_preferred_negtrans b p hf); [|done]. specialize (Hmin b (Hin _ _ Hb Evb)).
      unfold by_lib_less, by_lib_key in Hmin. rewrite Evb, Hv in Hmin. simpl in Hmin.
      apply not_true_iff_false. rewrite bs_preferred_true. unfold bs_num.
      apply orb_false_iff in Hmin as [H1 H2]. apply andb_false_iff in H2 as [H2|H2]; breflect; try lia.
  - exists hf. rewrite (fi_head _ _ _ I). split; [done|]. left. split; [done|]. intros j b Hb.
    destruct (is_valid f b) eqn:Evb; [by apply (fi_best _ _ _ I j)|].
    destruct (first_by_is_Some (by_lib_less f) _ _ (Hin _ _ Hb Evb)) as [x Ex]. congruence.
Qed.

(** A branch of a part of the tree is a branch of the tree. *)
Lemma node_sub (f f' : fork_database) (r q : block_state_ptr) (i : block_id) :
  (forall j p, index f !! j = Some p -> index f' !! j = Some p) -> node f r i = Some q -> node f' r i = Some q.
Proof. unfold node. case_bool_decide; auto. Qed.

Lemma branch_super (f f' : fork_database) (r b : block_state_ptr) (bs : list block_state_ptr) :
  (forall i p, index f !! i = Some p -> index f' !! i = Some p) -> branch f r b bs -> branch f' r b bs.
Proof.
  intros Hs. induction 1 as [|s q l Hs' Hq B IH]; [constructor|].
  econstructor; [by apply Hs|by eapply node_sub|done].
Qed.

Lemma branch_above (f : fork_database) (r hf n b : block_state_ptr) (l1 l2 : list block_state_ptr) :
  fork_inv f r hf -> branch f r b (l1 ++ n :: l2) -> desc (index f) (bs_id n) (bs_id b).
Proof.
  intros I. revert b. induction l1 as [|x l1 IH]; intros b B; simpl in B.
  - apply branch_cons_inv in B as (-> & _). constructor.
  - apply branch_cons_inv in B as (-> & Hb & Hq & B). destruct (node_is_node _ _ _ _ _ I Hq) as [_ Hqi].
    econstructor; [by apply IH|done|done].
Qed.

(** ** The tree above a new root *)
Section reroot.
Context (f f' : fork_database) (r hf n : block_state_ptr) (I : fork_inv f r hf).
Hypothesis Hn : index f !! bs_id n = Some n.
Hypothesis Hi : forall c p, index f' !! c = Some p <->
  index f !! c = Some p /\ c <> bs_id n /\ desc (index f) (bs_id n) c.

Lemma reroot_node (i : block_id) (q : block_state_ptr) : node f' n i = Some q -> node f r i = Some q.
Proof.
  unfold node. case_bool_decide as E.
  - intros [= <-]. rewrite bool_decide_eq_false_2; [by rewrite <- E|].
    intros Hr. rewrite E, <- Hr, (fi_root_fresh _ _ _ I) in Hn. done.
  - intros (Hq & _ & _)%Hi. rewrite bool_decide_eq_false_2; [done|].
    intros Hr. by rewrite <- Hr, (fi_root_fresh _ _ _ I) in Hq.
Qed.

Lemma reroot_branch (b : block_state_ptr) (l l2 : list block_state_ptr) :
  branch f' n b l -> branch f r n l2 -> branch f r b (l ++ l2).
Proof.
  induction 1 as [|s q l Hs Hq B IH]; [done|]. intros B2. simpl.
  econstructor; [by apply Hi in Hs as [? _]|by apply reroot_node|by apply IH].
Qed.

Lemma reroot_above (b : block_state_ptr) (l1 l2 : list block_state_ptr) :
  branch f r b (l1 ++ n :: l2) -> branch f' n b l1.
Proof.
  revert b. induction l1 as [|x l1 IH]; intros b B; simpl in B.
  - apply branch_cons_inv in B as (-> & _). constructor.
  - pose proof (branch_num _ _ _ I _ _ B) as Hb. pose proof (branch_above f r hf n b (x :: l1) l2 I B) as D'.
    apply branch_cons_inv in B as (-> & Hb' & Hq & B). pose proof (IH _ B) as B'.
    set (q := top r (l1 ++ n :: l2)) in *. destruct (node_is_node _ _ _ _ _ I Hq) as [_ Hqi].
    assert (Hnb : bs_id b <> bs_id n).
    { intros E. rewrite E, Hn in Hb'. simplify_eq.
      destruct (branch_elem _ _ _ I _ b _ B ltac:(set_solver)) as (_ & [_ Hle] & _).
      rewrite (branch_num _ _ _ I _ _ B) in Hle. simpl in Hb. rewrite length_app in Hb, Hle. simpl in *. lia. }
    econstructor; [by apply Hi| |exact B'].
    unfold node. case_bool_decide as E.
    + f_equal. destruct l1 as [|y l1]; [done|].
      apply branch_cons_inv in B as (_ & Hq' & _). fold q in Hq'. rewrite Hqi, <- E in Hq'. congruence.
    + destruct B' as [|q' q2 l3 Hq1 _ _]; [by rewrite Hqi in E|]. by rewrite <- Hqi.
Qed.
End reroot.
