(* ===== verification/UndoIndex.v ===== *)
(** * The undo index: the model

    The container with an undo stack in which the chain state is kept
    (libraries/chainbase/include/chainbase/undo_index.hpp).

    A node is identified by its primary key: a key names at most one node, in
    the main table or in the list of removed values, and [_current] of a saved
    value is the node of its key. The two linked lists [_old_values] and
    [_removed_values] with the end markers that each [undo_state] keeps into
    them are represented by their segments: an [undo_state] holds the entries
    in front of its markers, and what lies behind the markers of the oldest
    state is [old_base] and [removed_base]. Memory management is left out. *)

From S2P Require Import Prelude.

Section undo_index.
(** The secondary indices, all [ordered_unique]: the keys they compare. *)
Context {value key : Type} `{EqDecision key} (unique_keys : list (value -> key)).

Record node := mk_node { _item : value; _mtime : Z }.

(** An entry of [_old_values] is the key of its node and the saved node. *)
Record undo_state := mk_undo_state {
  old_next_id : Z;
  ctime : Z;
  old_values : list (Z * node);
  removed_values : list (Z * node)
}.

Record undo_index := mk_undo_index {
  table : gmap Z node;
  _undo_stack : list undo_state;
  old_base : list (Z * node);
  removed_base : list (Z * node);
  _next_id : Z;
  _revision : Z;
  _monotonic_revision : Z
}.

Definition undo_index_empty : undo_index := mk_undo_index ∅ [] [] [] 0 0 0.

Definition with_table (u : undo_index) (t : gmap Z node) : undo_index :=
  mk_undo_index t (_undo_stack u) (old_base u) (removed_base u) (_next_id u) (_revision u)
    (_monotonic_revision u).
Definition with_stack (u : undo_index) (st : list undo_state) : undo_index :=
  mk_undo_index (table u) st (old_base u) (removed_base u) (_next_id u) (_revision u)
    (_monotonic_revision u).

(** Two values that some secondary index does not tell apart. *)
Definition conflict (v w : value) : bool := existsb (fun k => bool_decide (k v = k w)) unique_keys.

(** [insert_impl] and [post_modify] fail when a secondary index has the key. *)
Definition conflicts (t : gmap Z node) (v : value) : bool :=
  existsb (fun jn => conflict v (_item (snd jn))) (map_to_list t).

(** [emplace]: [c] is the constructor, which is given the new key. *)
Definition emplace (u : undo_index) (c : Z -> value) : result undo_index :=
  let v := c (_next_id u) in
  if conflicts (table u) v then Throw logic_error
  else
    let mtime := match _undo_stack u with [] => 0 | _ :: _ => _monotonic_revision u end in
    Ok (mk_undo_index (<[_next_id u := mk_node v mtime]> (table u)) (_undo_stack u)
          (old_base u) (removed_base u) (i64 (_next_id u + 1)) (_revision u)
          (_monotonic_revision u)).

Definition push_removed (s : undo_state) (i : Z) (n : node) : undo_state :=
  mk_undo_state (old_next_id s) (ctime s) (old_values s) ((i, n) :: removed_values s).
Definition push_old (s : undo_state) (i : Z) (n : node) : undo_state :=
  mk_undo_state (old_next_id s) (ctime s) ((i, n) :: old_values s) (removed_values s).

(** [remove] with [on_remove] *)
Definition remove (u : undo_index) (i : Z) : result undo_index :=
  match table u !! i with
  | None => Throw undefined_behaviour
  | Some n =>
      let u := with_table u (delete i (table u)) in
      Ok (match _undo_stack u with
          | [] => u
          | s :: st => if old_next_id s <=? i then u else with_stack u (push_removed s i n :: st)
          end)
  end.

Definition remove_object (u : undo_index) (i : Z) : result undo_index :=
  match table u !! i with
  | None => Throw out_of_range
  | Some _ => remove u i
  end.

(** [on_modify]: whether a backup was made, and the index after it. *)
Definition on_modify (u : undo_index) (i : Z) (n : node) : bool * undo_index :=
  match _undo_stack u with
  | [] => (false, u)
  | s :: st =>
      if ctime s <=? _mtime n then (false, u)
      else (true, with_table (with_stack u (push_old s i n :: st))
                    (<[i := mk_node (_item n) (_monotonic_revision u)]> (table u)))
  end.

(** [modify]: the index as the call leaves it, also when it throws. With a backup
    the value is restored and the backup dropped; without one the object is
    removed. *)
Definition modify (u : undo_index) (i : Z) (m : value -> value) : undo_index * result unit :=
  match table u !! i with
  | None => (u, Throw undefined_behaviour)
  | Some n =>
      let '(backup, u1) := on_modify u i n in
      let mtime := if backup then _monotonic_revision u else _mtime n in
      let u2 := with_table u1 (<[i := mk_node (m (_item n)) mtime]> (table u1)) in
      if conflicts (delete i (table u)) (m (_item n)) then
        if backup then
          (with_table u (<[i := mk_node (_item n) mtime]> (table u)), Throw logic_error)
        else
          (match remove u2 i with Ok u3 => u3 | Throw _ => u2 end, Throw logic_error)
      else (u2, Ok tt)
  end.

Definition set_revision (u : undo_index) (revision : Z) : result undo_index :=
  match _undo_stack u with
  | _ :: _ => Throw logic_error
  | [] =>
      if 9223372036854775807 <? revision then Throw logic_error
      else if revision <? _revision u then Throw logic_error
      else Ok (mk_undo_index (table u) [] (old_base u) (removed_base u) (_next_id u) revision
                 (_monotonic_revision u))
  end.

(** [add_session] *)
Definition add_session (u : undo_index) : undo_index :=
  let mr := u64 (_monotonic_revision u + 1) in
  mk_undo_index (table u) (mk_undo_state (_next_id u) mr [] [] :: _undo_stack u)
    (old_base u) (removed_base u) (_next_id u) (i64 (_revision u + 1)) mr.

(** Restoring one saved value: the node is in the table or among the removed
    ones, unless it was saved after the session began. *)
Definition restore_old (ct : Z) (tr : gmap Z node * list (Z * node)) (o : Z * node) :
    gmap Z node * list (Z * node) :=
  if _mtime (snd o) <? ct then
    (alter (fun _ => snd o) (fst o) (fst tr),
     map (fun jn => if fst jn =? fst o then (fst jn, snd o) else jn) (snd tr))
  else tr.

(** Putting one removed node back into the table: [insert_impl] may refuse. *)
Definition restore_removed (next : Z) (t : gmap Z node) (jn : Z * node) : gmap Z node :=
  if fst jn <? next then
    if conflicts t (_item (snd jn)) then t else <[fst jn := snd jn]> t
  else t.

(** [undo]: new keys are erased, saved values restored, removed nodes put back. *)
Definition undo (u : undo_index) : undo_index :=
  match _undo_stack u with
  | [] => u
  | s :: st =>
      let t := filter (fun jn : Z * node => fst jn < old_next_id s) (table u) in
      let '(t, removed) := foldl (restore_old (ctime s)) (t, removed_values s) (old_values s) in
      let t := foldl (restore_removed (old_next_id s)) t removed in
      mk_undo_index t st (old_base u) (removed_base u) (old_next_id s) (i64 (_revision u - 1))
        (_monotonic_revision u)
  end.

(** [compress_impl( session )] on the entries of the last session: the saved
    values that are redundant, then the removed nodes that were new. *)
Fixpoint compress_old (session_start : Z) (removed old : list (Z * node)) :
    list (Z * node) * list (Z * node) :=
  match old with
  | [] => ([], removed)
  | o :: old =>
      if session_start <=? _mtime (snd o) then compress_old session_start removed old
      else if existsb (fun jn => fst jn =? fst o) removed then
        compress_old session_start
          (map (fun jn => if fst jn =? fst o then (fst jn, snd o) else jn) removed) old
      else
        let '(old', removed') := compress_old session_start removed old in (o :: old', removed')
  end.

Definition compress_impl (session_start next : Z) (s : undo_state) : undo_state :=
  let '(old, removed) := compress_old session_start (removed_values s) (old_values s) in
  mk_undo_state (old_next_id s) (ctime s) old
    (filter (fun jn => fst jn < next) removed).

Definition compress_last_undo_session (u : undo_index) : result undo_index :=
  match _undo_stack u with
  | [] => Throw undefined_behaviour
  | s :: st => Ok (with_stack u (compress_impl (ctime s) (old_next_id s) s :: st))
  end.

(** The entries of the last session become entries of the one below. *)
Definition merge (s1 s2 : undo_state) : undo_state :=
  mk_undo_state (old_next_id s2) (ctime s2) (old_values s1 ++ old_values s2)
    (removed_values s1 ++ removed_values s2).

Definition squash_fast (u : undo_index) : undo_index :=
  match _undo_stack u with
  | [] => u
  | [s] => mk_undo_index (table u) [] [] [] (_next_id u) (i64 (_revision u - 1))
             (_monotonic_revision u)
  | s1 :: s2 :: st =>
      mk_undo_index (table u) (merge s1 s2 :: st) (old_base u) (removed_base u) (_next_id u)
        (i64 (_revision u - 1)) (_monotonic_revision u)
  end.

(** [squash], that is [squash_and_compress] *)
Definition squash (u : undo_index) : undo_index :=
  match _undo_stack u with
  | s1 :: s2 :: st =>
      squash_fast (with_stack u (compress_impl (ctime s2) (old_next_id s2) s1 :: s2 :: st))
  | _ => squash_fast u
  end.

(** [commit]: the last [_revision - revision] sessions are kept; of the entries
    behind them one is left in each list. *)
Definition commit (u : undo_index) (revision : Z) : undo_index :=
  let revision := Z.min revision (_revision u) in
  if revision =? _revision u then
    mk_undo_index (table u) [] [] [] (_next_id u) (_revision u) (_monotonic_revision u)
  else if u64 (_revision u - revision) <? Z.of_nat (length (_undo_stack u)) then
    let k := Z.to_nat (_revision u - revision) in
    mk_undo_index (table u) (take k (_undo_stack u))
      (take 1 (concat (map old_values (drop k (_undo_stack u))) ++ old_base u))
      (take 1 (concat (map removed_values (drop k (_undo_stack u))) ++ removed_base u))
      (_next_id u) (_revision u) (_monotonic_revision u)
  else u.

(** [undo_all] *)
Definition undo_all (u : undo_index) : undo_index :=
  Nat.iter (length (_undo_stack u)) undo u.
(** ** When two values conflict *)
Lemma conflict_sym (v w : value) : conflict v w = conflict w v.
Proof.
  unfold conflict. induction unique_keys as [|k l IH]; simpl; [done|]. rewrite IH. f_equal.
  apply bool_decide_ext. split; congruence.
Qed.

Lemma conflicts_false (t : gmap Z node) (v : value) :
  conflicts t v = false <->
  forall j m, t !! j = Some m -> conflict v (_item m) = false.
Proof.
  unfold conflicts. split.
  - intros E j m Hm. destruct (conflict v (_item m)) eqn:Ec; [|done].
    rewrite <- E. symmetry. apply existsb_exists. exists (j, m). split; [|done].
    by apply list_elem_of_In, elem_of_map_to_list.
  - intros Hall. apply not_true_iff_false. rewrite existsb_exists.
    intros ([j m] & Hin%list_elem_of_In%elem_of_map_to_list & Hc). simpl in Hc.
    rewrite (Hall j m Hin) in Hc. done.
Qed.
End undo_index.

#[global] Arguments node : clear implicits.
#[global] Arguments undo_state : clear implicits.
#[global] Arguments undo_index : clear implicits.
