(* ===== verification/UndoRefine.v ===== *)
(** * The undo index refines a stack of snapshots

    The specification of the undo index is a table with a stack of snapshots of
    it. The refinement relates each [undo_state] to the snapshot that [undo]
    must restore; every operation preserves it. *)

From S2P Require Import Prelude UndoIndex.

Section refine.
Context {value key : Type} `{EqDecision key} (unique_keys : list (value -> key)).
Abbreviation node := (node value).
Abbreviation undo_state := (undo_state value).
Abbreviation undo_index := (undo_index value).

(** ** The entries of a session about one key *)

(** The saved nodes of key [i] that are older than the session. *)
Definition olds (ct : Z) (l : list (Z * node)) (i : Z) : list node :=
  map snd (filter (fun o => fst o = i /\ _mtime (snd o) < ct) l).

(** The removed nodes of key [i]. *)
Definition rems (l : list (Z * node)) (i : Z) : list node :=
  map snd (filter (fun o => fst o = i) l).

Lemma olds_app (ct : Z) (l k : list (Z * node)) (i : Z) :
  olds ct (l ++ k) i = olds ct l i ++ olds ct k i.
Proof. unfold olds. by rewrite filter_app, map_app. Qed.

Lemma rems_app (l k : list (Z * node)) (i : Z) : rems (l ++ k) i = rems l i ++ rems k i.
Proof. unfold rems. by rewrite filter_app, map_app. Qed.

Lemma olds_cons (ct j i : Z) (n : node) (l : list (Z * node)) :
  olds ct ((j, n) :: l) i =
    if decide (j = i /\ _mtime n < ct) then n :: olds ct l i else olds ct l i.
Proof. unfold olds. rewrite filter_cons. simpl. by case_decide. Qed.

Lemma rems_cons (j i : Z) (n : node) (l : list (Z * node)) :
  rems ((j, n) :: l) i = if decide (j = i) then n :: rems l i else rems l i.
Proof. unfold rems. rewrite filter_cons. simpl. by case_decide. Qed.

Lemma olds_older (ct i : Z) (n : node) (l : list (Z * node)) :
  n ∈ olds ct l i -> _mtime n < ct.
Proof. intros ([j m] & -> & [[_ ?] _]%list_elem_of_filter)%list_elem_of_fmap. done. Qed.

(** ** What a session records

    [t] is the table while the session is the last one, [sn] the table when it
    was started. *)
Definition key_ok (t : gmap Z node) (s : undo_state) (sn : gmap Z node) (i : Z) : Prop :=
  if i <? old_next_id s then
    match olds (ctime s) (old_values s) i, rems (removed_values s) i with
    | [], [] => t !! i = sn !! i /\ forall n, t !! i = Some n -> _mtime n < ctime s
    | [], [n] => t !! i = None /\ sn !! i = Some n /\ _mtime n < ctime s
    | [o], [] => sn !! i = Some o /\ exists n, t !! i = Some n /\ ctime s <= _mtime n
    | [o], [n] => sn !! i = Some o /\ t !! i = None /\ ctime s <= _mtime n
    | _, _ => False
    end
  else
    sn !! i = None /\ olds (ctime s) (old_values s) i = [] /\
    forall n, t !! i = Some n -> ctime s <= _mtime n.

Definition session_ok (t : gmap Z node) (s : undo_state) (sn : gmap Z node) : Prop :=
  forall i, key_ok t s sn i.

(** ** Conflicts *)
Definition conflict_free (t : gmap Z node) : Prop :=
  forall i j n m, i <> j -> t !! i = Some n -> t !! j = Some m ->
    conflict unique_keys (_item n) (_item m) = false.

Lemma conflict_free_insert (t : gmap Z node) (i : Z) (n : node) :
  conflict_free t -> conflicts unique_keys (delete i t) (_item n) = false ->
  conflict_free (<[i := n]> t).
Proof.
  intros Hcf Hc. rewrite conflicts_false in Hc.
  intros a b x y Hab Ha%lookup_insert_Some Hb%lookup_insert_Some.
  destruct Ha as [[<- <-]|[Hia Ha]], Hb as [[<- <-]|[Hib Hb]]; [done| | |by apply (Hcf a b)].
  - apply (Hc b). by rewrite lookup_delete_ne.
  - rewrite conflict_sym. apply (Hc a). by rewrite lookup_delete_ne.
Qed.

Lemma conflict_free_sub (t t' : gmap Z node) :
  conflict_free t -> (forall i n, t' !! i = Some n -> t !! i = Some n) -> conflict_free t'.
Proof. intros Hcf Hs i j n m Hij Hi Hj. apply (Hcf i j); auto. Qed.

(** ** Undo *)
Lemma restore_old_table (ct : Z) (l r : list (Z * node)) (t : gmap Z node) (i : Z) :
  fst (foldl (restore_old ct) (t, r) l) !! i =
    match last (olds ct l i) with Some o => (fun _ => o) <$> t !! i | None => t !! i end.
Proof.
  revert t r. induction l as [|[j n] l IH]; intros t r; [done|].
  cbn [foldl]. unfold restore_old at 2. simpl fst; simpl snd. rewrite olds_cons.
  destruct (Z.ltb_spec (_mtime n) ct) as [Hlt|Hge].
  - rewrite IH. destruct (decide (j = i)) as [->|Hne].
    + rewrite lookup_alter_eq. rewrite decide_True by done.
      destruct (olds ct l i) as [|o l'] eqn:E; [done|]. rewrite last_cons_cons.
      destruct (last (o :: l')) eqn:El; [by destruct (t !! i)|].
      by apply last_None in El.
    + rewrite lookup_alter_ne by done. by rewrite decide_False by naive_solver.
  - rewrite IH. by rewrite decide_False by naive_solver lia.
Qed.

Lemma restore_old_removed (ct : Z) (l r : list (Z * node)) (t : gmap Z node) :
  snd (foldl (restore_old ct) (t, r) l) =
    map (fun jn => (fst jn, default (snd jn) (last (olds ct l (fst jn))))) r.
Proof.
  revert t r. induction l as [|[j n] l IH]; intros t r.
  { simpl. induction r as [|[] r IH]; simpl; congruence. }
  cbn [foldl]. unfold restore_old at 2. simpl fst; simpl snd.
  destruct (Z.ltb_spec (_mtime n) ct) as [Hlt|Hge]; rewrite IH; [rewrite map_map|];
    apply map_ext; intros [k m]; simpl; rewrite olds_cons.
  - destruct (Z.eqb_spec k j) as [->|Hne]; simpl.
    + rewrite decide_True by done. destruct (olds ct l j) as [|o l'] eqn:E; [done|].
      rewrite last_cons_cons. destruct (last (o :: l')) eqn:El; [done | by apply last_None in El].
    + by rewrite decide_False by naive_solver.
  - by rewrite decide_False by naive_solver lia.
Qed.

(** The removed nodes go back where the snapshot has them. *)
Lemma restore_removed_all (next : Z) (r : list (Z * node)) (t sn : gmap Z node) :
  conflict_free sn ->
  (forall i, if i <? next then
     match rems r i with
     | [] => t !! i = sn !! i
     | [n] => t !! i = None /\ sn !! i = Some n
     | _ => False
     end
   else t !! i = None /\ sn !! i = None) ->
  foldl (restore_removed unique_keys next) t r = sn.
Proof.
  intros Hcf. revert t. induction r as [|[j n] r IH]; intros t Hi; simpl.
  { apply map_eq. intros i. specialize (Hi i). destruct (i <? next); simpl in Hi; [done|].
    by destruct Hi as [-> ->]. }
  unfold restore_removed at 2. simpl. pose proof (Hi j) as Hj. rewrite rems_cons, decide_True in Hj by done.
  destruct (Z.ltb_spec j next) as [Hlt|Hge].
  - destruct (rems r j) eqn:Er; [|done]. destruct Hj as [Htj Hsj].
    assert (Hsub : forall i m, t !! i = Some m -> sn !! i = Some m).
    { intros i m Hm. specialize (Hi i). destruct (i <? next); [|by destruct Hi; congruence].
      destruct (rems _ i) as [|x [|]]; [congruence | by destruct Hi; congruence | done]. }
    rewrite (proj2 (conflicts_false unique_keys t (_item n))).
    + apply IH. intros i. specialize (Hi i). rewrite rems_cons in Hi.
      destruct (decide (j = i)) as [<-|Hne].
      * rewrite (proj2 (Z.ltb_lt j next) Hlt), Er, lookup_insert_eq. done.
      * by rewrite lookup_insert_ne.
    + intros k m Hm. apply (Hcf j k); [intros ->; congruence | done | by apply Hsub].
  - apply IH. intros i. specialize (Hi i). rewrite rems_cons in Hi.
    destruct (decide (j = i)) as [<-|Hne]; [|done].
    by rewrite (proj2 (Z.ltb_ge j next) Hge) in *.
Qed.

Lemma rems_map (f : Z -> node -> node) (r : list (Z * node)) (i : Z) :
  rems (map (fun jn => (fst jn, f (fst jn) (snd jn))) r) i = map (f i) (rems r i).
Proof.
  induction r as [|[j n] r IH]; [done|]. simpl. rewrite !rems_cons. case_decide; [|done].
  subst. simpl. by rewrite IH.
Qed.

Lemma undo_restores (t sn : gmap Z node) (s : undo_state) :
  session_ok t s sn -> conflict_free sn ->
  let t1 := filter (fun jn : Z * node => fst jn < old_next_id s) t in
  let '(t2, removed) := foldl (restore_old (ctime s)) (t1, removed_values s) (old_values s) in
  foldl (restore_removed unique_keys (old_next_id s)) t2 removed = sn.
Proof.
  intros Hok Hcf t1.
  destruct (foldl (restore_old (ctime s)) (t1, removed_values s) (old_values s)) as [t2 removed] eqn:E.
  assert (Ht : forall i, t2 !! i = match last (olds (ctime s) (old_values s) i) with
    | Some o => (fun _ => o) <$> t1 !! i | None => t1 !! i end).
  { intros i. rewrite <- (restore_old_table _ _ (removed_values s)), E. done. }
  assert (Hr : removed = map (fun jn => (fst jn, default (snd jn)
      (last (olds (ctime s) (old_values s) (fst jn))))) (removed_values s)).
  { by rewrite <- (restore_old_removed _ _ _ t1), E. }
  apply restore_removed_all; [done|]. intros i. specialize (Hok i). unfold key_ok in Hok.
  rewrite Ht, Hr, (rems_map (fun j n => default n (last (olds (ctime s) (old_values s) j)))).
  assert (Hf : t1 !! i = if i <? old_next_id s then t !! i else None).
  { unfold t1. destruct (Z.ltb_spec i (old_next_id s)) as [Hlt|Hge].
    - destruct (t !! i) as [n|] eqn:Et; [by apply map_lookup_filter_Some|].
      apply map_lookup_filter_None. by left.
    - apply map_lookup_filter_None. right. simpl. lia. }
  rewrite Hf. destruct (i <? old_next_id s).
  - destruct (olds _ _ i) as [|o [|]] eqn:Eo; destruct (rems _ i) as [|n0 [|]] eqn:En; simpl; try done.
    + tauto.
    + destruct Hok as (-> & -> & _). done.
    + destruct Hok as (-> & n & -> & _). done.
    + destruct Hok as (-> & -> & _). done.
  - destruct Hok as (-> & -> & _). done.
Qed.

(** ** The stack *)
Definition table_ok (t : gmap Z node) (next mr : Z) : Prop :=
  conflict_free t /\ forall i n, t !! i = Some n -> i < next /\ _mtime n <= mr.

(** Each session was started on the table that the ones below it restore. *)
Fixpoint stack_ok (t : gmap Z node) (next mr : Z) (st : list undo_state)
    (sns : list (gmap Z node)) : Prop :=
  table_ok t next mr /\
  match st, sns with
  | [], [] => True
  | s :: st, sn :: sns =>
      session_ok t s sn /\ ctime s <= mr /\ old_next_id s <= next /\
      stack_ok sn (old_next_id s) (ctime s - 1) st sns
  | _, _ => False
  end.

Lemma stack_ok_table (t : gmap Z node) (next mr : Z) (st : list undo_state)
    (sns : list (gmap Z node)) :
  stack_ok t next mr st sns -> table_ok t next mr.
Proof. destruct st; by intros []. Qed.

Lemma stack_ok_mono (t : gmap Z node) (next mr mr' : Z) (st : list undo_state)
    (sns : list (gmap Z node)) :
  mr <= mr' -> stack_ok t next mr st sns -> stack_ok t next mr' st sns.
Proof.
  intros Hm H. assert (Ht : table_ok t next mr').
  { apply stack_ok_table in H as [? Ht]. split; [done|]. intros i n Hn. destruct (Ht i n Hn). lia. }
  destruct st as [|s st], sns as [|sn sns]; simpl in *; try tauto.
  destruct H as (_ & ? & ? & ? & ?). split_and!; done || lia.
Qed.

(** ** Each operation on the last session *)
Lemma key_ok_ext (t t' : gmap Z node) (s : undo_state) (sn : gmap Z node) (i : Z) :
  t' !! i = t !! i -> key_ok t s sn i -> key_ok t' s sn i.
Proof. unfold key_ok. by intros ->. Qed.

Lemma create_session (t : gmap Z node) (s : undo_state) (sn : gmap Z node) (i : Z) (n : node) :
  session_ok t s sn -> old_next_id s <= i -> ctime s <= _mtime n -> session_ok (<[i := n]> t) s sn.
Proof.
  intros Hok Hi Hn j. destruct (decide (j = i)) as [->|Hne].
  - specialize (Hok i). unfold key_ok in *. rewrite (proj2 (Z.ltb_ge i (old_next_id s)) Hi) in *.
    destruct Hok as (? & ? & _). split_and!; try done. rewrite lookup_insert_eq. by intros ? [= <-].
  - apply (key_ok_ext t); [by rewrite lookup_insert_ne | apply Hok].
Qed.

Lemma modify_session (t : gmap Z node) (s : undo_state) (sn : gmap Z node) (i : Z) (n n' : node) :
  session_ok t s sn -> t !! i = Some n -> ctime s <= _mtime n -> _mtime n' = _mtime n ->
  session_ok (<[i := n']> t) s sn.
Proof.
  intros Hok Hn Hc Hm j. destruct (decide (j = i)) as [->|Hne].
  - specialize (Hok i). unfold key_ok in *. rewrite lookup_insert_eq, Hn in *.
    destruct (i <? old_next_id s).
    + destruct (olds _ _ i) as [|o [|]], (rems (removed_values s) i) as [|r [|]]; try done.
      * destruct Hok as [_ Hok]. specialize (Hok n eq_refl). lia.
      * by destruct Hok.
      * destruct Hok as [Hs _]. split; [done|]. exists n'. split; [done|lia].
      * by destruct Hok as (_ & ? & _).
    + destruct Hok as (? & ? & _). split_and!; try done. intros ? [= <-]. lia.
  - apply (key_ok_ext t); [by rewrite lookup_insert_ne | apply Hok].
Qed.

Lemma backup_session (t : gmap Z node) (s : undo_state) (sn : gmap Z node) (i : Z) (n n' : node) :
  session_ok t s sn -> t !! i = Some n -> _mtime n < ctime s -> ctime s <= _mtime n' ->
  session_ok (<[i := n']> t) (push_old s i n) sn.
Proof.
  intros Hok Hn Hc Hm j. specialize (Hok j). unfold key_ok in *. simpl. rewrite olds_cons.
  destruct (decide (j = i)) as [->|Hne].
  - rewrite lookup_insert_eq, Hn in *. rewrite decide_True by done.
    destruct (i <? old_next_id s).
    + destruct (olds _ _ i) as [|o [|]], (rems (removed_values s) i) as [|r [|]]; try done.
      * destruct Hok as [<- _]. split; [done|]. by exists n'.
      * by destruct Hok.
      * destruct Hok as (_ & x & [= <-] & ?). lia.
      * by destruct Hok as (_ & ? & _).
    + destruct Hok as (_ & _ & Hok). specialize (Hok n eq_refl). lia.
  - rewrite lookup_insert_ne by done. by rewrite decide_False by naive_solver.
Qed.

Lemma remove_session (t : gmap Z node) (s : undo_state) (sn : gmap Z node) (i : Z) (n : node) :
  session_ok t s sn -> t !! i = Some n ->
  session_ok (delete i t) (if old_next_id s <=? i then s else push_removed s i n) sn.
Proof.
  intros Hok Hn j. specialize (Hok j).
  destruct (decide (j = i)) as [->|Hne].
  - unfold key_ok in *. rewrite Hn in Hok. rewrite Z.leb_antisym.
    destruct (i <? old_next_id s) eqn:Ei; simpl; rewrite Ei, lookup_delete_eq.
    + rewrite rems_cons, decide_True by done.
      destruct (olds _ _ i) as [|o [|]], (rems (removed_values s) i) as [|r [|]]; try done.
      * destruct Hok as [<- Hok]. split_and!; try done. by apply Hok.
      * by destruct Hok.
      * destruct Hok as (? & x & [= <-] & ?). by split_and!.
      * by destruct Hok as (_ & ? & _).
    + destruct Hok as (? & ? & _). by split_and!.
  - destruct (old_next_id s <=? i); unfold key_ok in *; simpl; rewrite ?rems_cons;
      rewrite lookup_delete_ne, ?decide_False by done; done.
Qed.

(** ** Squashing two sessions *)
Lemma olds_narrow (c c' : Z) (l : list (Z * node)) (i : Z) :
  c' <= c -> olds c' l i = filter (fun n => _mtime n < c') (olds c l i).
Proof.
  intros Hc. induction l as [|[j n] l IH]; [done|]. rewrite !olds_cons, IH.
  destruct (decide (j = i)); [|by rewrite !decide_False by naive_solver].
  destruct (decide (_mtime n < c')).
  - rewrite !decide_True by (split; [done|lia]). by rewrite filter_cons_True.
  - rewrite (decide_False (P := j = i /\ _mtime n < c')) by naive_solver.
    case_decide; [by rewrite filter_cons_False | done].
Qed.

Lemma merge_session (t sn1 sn2 : gmap Z node) (s1 s2 : undo_state) :
  session_ok t s1 sn1 -> session_ok sn1 s2 sn2 -> ctime s2 <= ctime s1 ->
  old_next_id s2 <= old_next_id s1 -> session_ok t (merge s1 s2) sn2.
Proof.
  intros H1 H2 Hc Hn i. specialize (H1 i). specialize (H2 i). unfold key_ok in *. simpl.
  rewrite olds_app, rems_app. rewrite (olds_narrow (ctime s1) (ctime s2) (old_values s1)) by done.
  destruct (Z.ltb_spec i (old_next_id s2)) as [Hi|Hi].
  - rewrite (proj2 (Z.ltb_lt i (old_next_id s1))) in H1 by lia.
    destruct (olds (ctime s1) (old_values s1) i) as [|o1 [|]],
      (rems (removed_values s1) i) as [|r1 [|]]; try done; simpl.
    + destruct H1 as [-> _]. exact H2.
    + destruct H1 as (Ht & Hs & Hm). rewrite Hs in H2.
      destruct (olds (ctime s2) _ i) as [|o2 [|]], (rems (removed_values s2) i) as [|r2 [|]];
        try done; destruct_and? H2; try done.
      * split_and!; auto.
      * by match goal with H : exists _, _ |- _ => destruct H as (? & [= <-] & ?) end.
    + destruct H1 as (Hs & n & Ht & Hm). rewrite Hs, Ht in *. rewrite filter_cons, filter_nil.
      destruct (olds (ctime s2) _ i) as [|o2 [|]], (rems (removed_values s2) i) as [|r2 [|]];
        try done; destruct_and? H2; try done.
      * rewrite decide_True by auto. split; [done|]. exists n. split; [done|lia].
      * match goal with H : exists _, _ |- _ => destruct H as (? & [= <-] & ?) end.
        rewrite decide_False by lia. split; [done|]. exists n. split; [done|lia].
    + destruct H1 as (Hs & Ht & Hm). rewrite Hs in H2. rewrite filter_cons, filter_nil.
      destruct (olds (ctime s2) _ i) as [|o2 [|]], (rems (removed_values s2) i) as [|r2 [|]];
        try done; destruct_and? H2; try done.
      * rewrite decide_True by auto. split_and!; try done. lia.
      * match goal with H : exists _, _ |- _ => destruct H as (? & [= <-] & ?) end.
        rewrite decide_False by lia. split_and!; try done. lia.
  - destruct H2 as (Hs2 & Ho2 & Hm2). rewrite Ho2, app_nil_r. split; [done|].
    destruct (Z.ltb_spec i (old_next_id s1)) as [Hi1|Hi1].
    + destruct (olds (ctime s1) (old_values s1) i) as [|o1 [|]],
        (rems (removed_values s1) i) as [|r1 [|]]; try done; rewrite ?filter_cons, filter_nil.
      * destruct H1 as [-> _]. auto.
      * destruct H1 as [-> _]. by split.
      * destruct H1 as (Hs & n & -> & Hm). specialize (Hm2 o1 Hs). rewrite decide_False by lia.
        split; [done|]. intros ? [= <-]. lia.
      * destruct H1 as (Hs & -> & Hm). specialize (Hm2 o1 Hs). rewrite decide_False by lia. by split.
    + destruct H1 as (Hs1 & Ho1 & Hm1). rewrite Ho1, filter_nil. split; [done|].
      intros n Hn'. specialize (Hm1 n Hn'). lia.
Qed.

(** ** Compression *)
Lemma compress_old_spec (c : Z) (l r : list (Z * node)) :
  compress_old c r l =
    (filter (fun o => _mtime (snd o) < c /\ rems r (fst o) = []) l,
     map (fun jn => (fst jn, default (snd jn) (last (olds c l (fst jn))))) r).
Proof.
  revert r. induction l as [|[i n] l IH]; intros r; simpl.
  { f_equal. induction r as [|[] r IH]; simpl; congruence. }
  assert (Hex : existsb (fun jn => fst jn =? i) r = false <-> rems r i = []).
  { clear IH. induction r as [|[j m] r IH]; simpl; [done|]. rewrite rems_cons.
    destruct (Z.eqb_spec j i), (decide (j = i)); simpl; done. }
  rewrite filter_cons. simpl. destruct (Z.leb_spec c (_mtime n)) as [Hge|Hlt].
  - rewrite IH, decide_False by (intros []; lia). f_equal. apply map_ext. intros [j m]. simpl.
    rewrite olds_cons. by rewrite decide_False by (intros []; lia).
  - destruct (existsb _ r) eqn:E.
    + rewrite decide_False by (intros [_ Hr]; apply Hex in Hr; congruence). rewrite IH. f_equal.
      * apply list_filter_iff. intros [j m]. simpl.
        assert (Hr : rems (map (fun jn => if fst jn =? i then (fst jn, n) else jn) r) j = [] <->
          rems r j = []); [|by rewrite Hr].
        clear -r. induction r as [|[k x] r IHr]; simpl; [done|]. destruct (k =? i); simpl;
          rewrite !rems_cons; by case_decide.
      * rewrite map_map. apply map_ext. intros [j m]. simpl. rewrite olds_cons.
        destruct (Z.eqb_spec j i) as [->|Hne]; simpl.
        -- rewrite decide_True by done. destruct (olds c l i) as [|o l'] eqn:Eo; [done|].
           rewrite last_cons_cons. destruct (last (o :: l')) eqn:El; [done|by apply last_None in El].
        -- by rewrite decide_False by naive_solver.
    + rewrite decide_True by (split; [done|]; by apply Hex). rewrite IH. f_equal.
      apply map_ext_in. intros [j m] Hin%list_elem_of_In. simpl. rewrite olds_cons.
      rewrite decide_False; [done|]. intros [-> _].
      apply not_true_iff_false in E. apply E, existsb_exists. exists (j, m).
      split; [by apply list_elem_of_In | apply Z.eqb_refl].
Qed.

Lemma rems_filter_next (next : Z) (r : list (Z * node)) (i : Z) :
  i < next -> rems (filter (fun jn => fst jn < next) r) i = rems r i.
Proof.
  intros Hi. induction r as [|[j n] r IH]; [done|]. rewrite filter_cons, rems_cons. simpl.
  case_decide; [by rewrite rems_cons, IH|]. rewrite decide_False by (intros ->; lia). done.
Qed.

Lemma olds_filter (c : Z) (l r : list (Z * node)) (i : Z) :
  olds c (filter (fun o => _mtime (snd o) < c /\ rems r (fst o) = []) l) i =
    match rems r i with [] => olds c l i | _ => [] end.
Proof.
  induction l as [|[j n] l IH]; [by destruct (rems r i)|]. rewrite filter_cons, olds_cons. simpl.
  case_decide as H1; rewrite ?olds_cons, IH.
  - case_decide as H2; [|done]. destruct H1 as [_ H1], H2 as [-> _]. by rewrite H1.
  - destruct (decide (j = i /\ _mtime n < c)) as [[-> Hm]|]; [|done].
    destruct (rems r i); [|done]. naive_solver.
Qed.

(** Compressing the last session for the session below does not change what
    the two record together. *)
Lemma compress_session (t sn : gmap Z node) (s1 s2 : undo_state) :
  session_ok t (merge s1 s2) sn ->
  session_ok t (merge (compress_impl (ctime s2) (old_next_id s2) s1) s2) sn.
Proof.
  intros Hok i. specialize (Hok i). unfold compress_impl. rewrite compress_old_spec.
  unfold key_ok in *. simpl in *. rewrite !olds_app, !rems_app in *. rewrite olds_filter.
  destruct (Z.ltb_spec i (old_next_id s2)) as [Hi|Hi].
  - rewrite rems_filter_next by done.
    rewrite (rems_map (fun j n => default n (last (olds (ctime s2) (old_values s1) j)))).
    destruct (rems (removed_values s1) i) as [|r1 [|]]; simpl.
    + done.
    + pose proof (olds_older (ctime s2) i) as Hold.
      destruct (olds (ctime s2) (old_values s1) i) as [|o1 [|]] eqn:E1; simpl in *.
      * done.
      * destruct (olds (ctime s2) (old_values s2) i), (rems (removed_values s2) i); simpl in *; try done.
        destruct Hok as (? & ? & _). split_and!; try done.
        apply (Hold o1 (old_values s1)). rewrite E1. constructor.
      * by destruct (rems (removed_values s2) i).
    + by destruct (olds (ctime s2) (old_values s1) i ++ olds (ctime s2) (old_values s2) i) as [|? [|]].
  - destruct Hok as (Hs & Ho & Hm). apply app_eq_nil in Ho as [-> ->].
    split; [done|]. split; [by destruct (rems _ i) | done].
Qed.

Lemma session_merge_nil (s : undo_state) :
  merge s (mk_undo_state (old_next_id s) (ctime s) [] []) = s.
Proof. destruct s. unfold merge. simpl. by rewrite !app_nil_r. Qed.

Lemma compress_last_session (t sn : gmap Z node) (s : undo_state) :
  session_ok t s sn -> session_ok t (compress_impl (ctime s) (old_next_id s) s) sn.
Proof.
  intros Hok. rewrite <- (session_merge_nil s) in Hok.
  apply (compress_session t sn s (mk_undo_state (old_next_id s) (ctime s) [] [])) in Hok.
  simpl in Hok. replace (merge _ _) with (compress_impl (ctime s) (old_next_id s) s) in Hok; [done|].
  unfold compress_impl. destruct (compress_old _ _ _). unfold merge. simpl. by rewrite !app_nil_r.
Qed.

(** ** The specification *)

(** A table of values, the next key, the revision, and a snapshot of the first
    two for every session, the last one first. *)
Record snapshots := mk_snapshots {
  sp_table : gmap Z value;
  sp_next : Z;
  sp_revision : Z;
  sp_saved : list (gmap Z value * Z)
}.

Inductive op :=
  | Emplace (c : Z -> value)
  | Modify (i : Z) (m : value -> value)
  | Remove (i : Z)
  | Start_session
  | Undo
  | Squash
  | Squash_fast
  | Compress
  | Commit (revision : Z)
  | Set_revision (revision : Z).

Definition spec_op (sp : snapshots) (o : op) : snapshots :=
  let '(mk_snapshots t next rev saved) := sp in
  match o with
  | Emplace c => mk_snapshots (<[next := c next]> t) (next + 1) rev saved
  | Modify i m => mk_snapshots (alter m i t) next rev saved
  | Remove i => mk_snapshots (delete i t) next rev saved
  | Start_session => mk_snapshots t next (rev + 1) ((t, next) :: saved)
  | Undo => match saved with
            | [] => sp
            | (t', next') :: saved => mk_snapshots t' next' (rev - 1) saved
            end
  | Squash | Squash_fast => match saved with
              | [] => sp
              | _ :: saved => mk_snapshots t next (rev - 1) saved
              end
  | Compress => sp
  | Commit r => mk_snapshots t next rev
                  (if r <? rev then take (Z.to_nat (rev - r)) saved else [])
  | Set_revision r => mk_snapshots t next r saved
  end.

Definition run_op (u : undo_index) (o : op) : result undo_index :=
  match o with
  | Emplace c => emplace unique_keys u c
  | Modify i m => match modify unique_keys u i m with
                  | (u, Ok _) => Ok u
                  | (_, Throw e) => Throw e
                  end
  | Remove i => remove u i
  | Start_session => Ok (add_session u)
  | Undo => Ok (undo unique_keys u)
  | Squash => Ok (squash u)
  | Squash_fast => Ok (squash_fast u)
  | Compress => compress_last_undo_session u
  | Commit r => Ok (commit u r)
  | Set_revision r => set_revision u r
  end.

Definition snapshot_of (s : undo_state) (sn : gmap Z node) : gmap Z value * Z :=
  (_item <$> sn, old_next_id s).

(** The undo index [u] implements [sp]. *)
Definition refines (u : undo_index) (sp : snapshots) : Prop :=
  exists sns, stack_ok (table u) (_next_id u) (_monotonic_revision u) (_undo_stack u) sns /\
    sp = mk_snapshots (_item <$> table u) (_next_id u) (_revision u)
           (zip_with snapshot_of (_undo_stack u) sns).

(** No counter is at the end of its range. *)
Definition counters_small (u : undo_index) : Prop :=
  0 <= _next_id u < 2 ^ 63 - 1 /\ 0 <= _monotonic_revision u < 2 ^ 64 - 1 /\
  - 2 ^ 63 < _revision u < 2 ^ 63 - 1.

Lemma table_ok_insert (t : gmap Z node) (next next' mr i : Z) (n : node) :
  table_ok t next mr -> conflicts unique_keys (delete i t) (_item n) = false ->
  next <= next' -> i < next' -> _mtime n <= mr -> table_ok (<[i := n]> t) next' mr.
Proof.
  intros [Hcf Ht] Hc Hnext Hi Hm. split; [by apply conflict_free_insert|].
  intros j x [[<- <-]|[_ Hx]]%lookup_insert_Some; [done|]. destruct (Ht j x Hx). lia.
Qed.

Lemma emplace_refines (u u' : undo_index) (sp : snapshots) (c : Z -> value) :
  refines u sp -> counters_small u -> emplace unique_keys u c = Ok u' ->
  refines u' (spec_op sp (Emplace c)).
Proof.
  intros (sns & Hst & ->) (Hn & Hmr & _). unfold emplace.
  destruct (conflicts unique_keys (table u) (c (_next_id u))) eqn:Ec; intros [= <-].
  rewrite (swrap_small 64) by (unfold sfits; lia). exists sns. simpl. rewrite fmap_insert. split; [|done].
  pose proof (stack_ok_table _ _ _ _ _ Hst) as Ht.
  assert (Hd : delete (_next_id u) (table u) = table u).
  { apply delete_id. destruct (table u !! _next_id u) eqn:E; [|done].
    destruct (proj2 Ht _ _ E). lia. }
  destruct (_undo_stack u) as [|s st], sns as [|sn sns]; simpl in *; try tauto.
  - split; [|done]. apply (table_ok_insert _ (_next_id u)); rewrite ?Hd; simpl; done || lia.
  - destruct Hst as (_ & Hok & Hc & Hnx & Hst).
    split; [apply (table_ok_insert _ (_next_id u)); rewrite ?Hd; simpl; done || lia|].
    split; [by apply create_session|]. split_and!; done || lia.
Qed.

Lemma modify_refines (u u' : undo_index) (sp : snapshots) (i : Z) (m : value -> value) :
  refines u sp -> modify unique_keys u i m = (u', Ok tt) -> refines u' (spec_op sp (Modify i m)).
Proof.
  intros (sns & Hst & ->). unfold modify. destruct (table u !! i) as [n|] eqn:En; [|done].
  pose proof (stack_ok_table _ _ _ _ _ Hst) as Ht. destruct (proj2 Ht i n En) as [Hi Hm].
  assert (Hal : forall mt, alter m i (_item <$> table u) = _item <$> <[i := mk_node (m (_item n)) mt]> (table u)).
  { intros mt. rewrite fmap_insert. apply map_eq. intros j. destruct (decide (j = i)) as [->|].
    - by rewrite lookup_alter_eq, lookup_insert_eq, lookup_fmap, En.
    - by rewrite lookup_alter_ne, lookup_insert_ne. }
  unfold on_modify. destruct (_undo_stack u) as [|s st] eqn:Es, sns as [|sn sns]; simpl in Hst; try tauto.
  - destruct (conflicts _ _ _) eqn:Ec; intros [= <-]. exists []. simpl. rewrite Es, <- Hal.
    split; [|done]. split; [|done]. by apply (table_ok_insert _ (_next_id u)).
  - destruct Hst as (_ & Hok & Hc & Hnx & Hst).
    destruct (Z.leb_spec (ctime s) (_mtime n)) as [Hle|Hlt];
      destruct (conflicts _ _ _) eqn:Ec; intros [= <-]; exists (sn :: sns); simpl.
    + rewrite Es, <- Hal. simpl. split; [|done]. split; [by apply (table_ok_insert _ (_next_id u))|].
      split; [by apply (modify_session _ _ _ _ n)|]. by split_and!.
    + rewrite insert_insert_eq, <- Hal. split; [|done].
      split; [by apply (table_ok_insert _ (_next_id u)); simpl|].
      split; [by apply backup_session|]. by split_and!.
Qed.

Lemma remove_refines (u u' : undo_index) (sp : snapshots) (i : Z) :
  refines u sp -> remove u i = Ok u' -> refines u' (spec_op sp (Remove i)).
Proof.
  intros (sns & Hst & ->). unfold remove. destruct (table u !! i) as [n|] eqn:En; [|done].
  pose proof (stack_ok_table _ _ _ _ _ Hst) as [Hcf Ht].
  assert (Ht' : table_ok (delete i (table u)) (_next_id u) (_monotonic_revision u)).
  { split; [|by intros j x [_ Hx]%lookup_delete_Some; eauto].
    apply (conflict_free_sub (table u)); [done|]. by intros j x [_ Hx]%lookup_delete_Some. }
  intros [= <-]. simpl.
  destruct (_undo_stack u) as [|s st] eqn:Es, sns as [|sn sns]; simpl in Hst; try tauto.
  - exists []. simpl. by rewrite Es, fmap_delete.
  - destruct Hst as (_ & Hok & Hc & Hnx & Hst).
    pose proof (remove_session _ _ _ _ _ Hok En) as Hok'. exists (sn :: sns).
    destruct (old_next_id s <=? i); simpl; rewrite ?Es, fmap_delete; simpl; by split_and!.
Qed.

Lemma undo_refines (u : undo_index) (sp : snapshots) :
  refines u sp -> counters_small u -> refines (undo unique_keys u) (spec_op sp Undo).
Proof.
  intros (sns & Hst & ->) (_ & _ & Hrev). unfold undo.
  destruct (_undo_stack u) as [|s st] eqn:Es, sns as [|sn sns]; simpl in Hst; try tauto.
  - exists []. rewrite Es. by split.
  - destruct Hst as (_ & Hok & Hc & Hnx & Hst).
    pose proof (undo_restores (table u) sn s Hok (proj1 (stack_ok_table _ _ _ _ _ Hst))) as Hr.
    cbv zeta in Hr. destruct (foldl _ _ _) as [t2 removed]. rewrite Hr.
    exists sns. simpl. rewrite (swrap_small 64) by (unfold sfits; lia). split; [|done].
    apply (stack_ok_mono _ _ (ctime s - 1)); [lia | done].
Qed.

Lemma start_refines (u : undo_index) (sp : snapshots) :
  refines u sp -> counters_small u -> refines (add_session u) (spec_op sp Start_session).
Proof.
  intros (sns & Hst & ->) (_ & Hmr & Hrev). pose proof (stack_ok_table _ _ _ _ _ Hst) as Ht.
  exists (table u :: sns). unfold add_session. simpl.
  rewrite (wrap_small 64) by (split; lia). rewrite (swrap_small 64) by (unfold sfits; lia).
  rewrite Z.add_simpl_r. split; [|done]. split_and!; try done; try lia.
  - destruct Ht as [? Ht]. split; [done|]. intros i n Hn. destruct (Ht i n Hn). lia.
  - intros i. unfold key_ok. simpl. destruct (Z.ltb_spec i (_next_id u)).
    + split; [done|]. intros n Hn. destruct (proj2 Ht i n Hn). lia.
    + assert (Hi : table u !! i = None).
      { destruct (table u !! i) eqn:E; [|done]. destruct (proj2 Ht _ _ E). lia. }
      rewrite Hi. by split_and!.
Qed.

(** Replacing the two last sessions by one that records both. *)
Lemma squash_stack (t : gmap Z node) (next mr : Z) (s1 s2 s : undo_state) (st : list undo_state)
    (sn1 sn2 : gmap Z node) (sns : list (gmap Z node)) :
  stack_ok t next mr (s1 :: s2 :: st) (sn1 :: sn2 :: sns) ->
  (session_ok t (merge s1 s2) sn2 -> session_ok t s sn2) ->
  ctime s = ctime s2 -> old_next_id s = old_next_id s2 ->
  stack_ok t next mr (s :: st) (sn2 :: sns).
Proof.
  intros (Ht & H1 & Hc1 & Hn1 & (_ & H2 & Hc2 & Hn2 & Hst)) Hs Hc Hn. simpl. rewrite Hc, Hn.
  split_and!; try done; try lia. apply Hs. apply (merge_session t sn1); done || lia.
Qed.

Lemma squash_fast_refines (u : undo_index) (sp : snapshots) :
  refines u sp -> counters_small u -> refines (squash_fast u) (spec_op sp Squash_fast).
Proof.
  intros (sns & Hst & ->) (_ & _ & Hrev). unfold squash_fast.
  destruct (_undo_stack u) as [|s1 [|s2 st]] eqn:Es.
  - destruct sns; simpl in Hst; try tauto. exists []. rewrite Es. by split.
  - destruct sns as [|sn [|]]; simpl in Hst; try tauto. exists []. simpl.
    rewrite (swrap_small 64) by (unfold sfits; lia). split; [|done]. split; [apply Hst | done].
  - destruct sns as [|sn1 [|sn2 sns]]; try (simpl in Hst; tauto). exists (sn2 :: sns). simpl.
    rewrite (swrap_small 64) by (unfold sfits; lia). split; [|done].
    exact (squash_stack _ _ _ s1 s2 (merge s1 s2) st sn1 sn2 sns Hst (fun H => H) eq_refl eq_refl).
Qed.

Lemma squash_refines (u : undo_index) (sp : snapshots) :
  refines u sp -> counters_small u -> refines (squash u) (spec_op sp Squash).
Proof.
  intros R Hs. unfold squash. destruct (_undo_stack u) as [|s1 [|s2 st]] eqn:Es;
    [by apply (squash_fast_refines u sp)..|].
  destruct R as (sns & Hst & ->). rewrite Es in Hst.
  destruct sns as [|sn1 [|sn2 sns]]; try (simpl in Hst; tauto). exists (sn2 :: sns).
  destruct Hs as (_ & _ & Hrev). rewrite Es. simpl.
  rewrite (swrap_small 64) by (unfold sfits; lia). split.
  - exact (squash_stack _ _ _ s1 s2 (merge (compress_impl (ctime s2) (old_next_id s2) s1) s2)
      st sn1 sn2 sns Hst (compress_session _ _ _ _) eq_refl eq_refl).
  - done.
Qed.

Lemma compress_refines (u u' : undo_index) (sp : snapshots) :
  refines u sp -> compress_last_undo_session u = Ok u' -> refines u' (spec_op sp Compress).
Proof.
  intros (sns & Hst & ->). unfold compress_last_undo_session.
  destruct (_undo_stack u) as [|s st] eqn:Es; [done|]. intros [= <-].
  destruct sns as [|sn sns]; [simpl in Hst; tauto|].
  exists (sn :: sns). simpl.
  assert (Hc : ctime (compress_impl (ctime s) (old_next_id s) s) = ctime s /\
    old_next_id (compress_impl (ctime s) (old_next_id s) s) = old_next_id s).
  { unfold compress_impl. by destruct (compress_old _ _ _). }
  destruct Hc as [Hc Hn]. unfold snapshot_of. rewrite Hc, Hn. split; [|reflexivity].
  destruct Hst as (Ht & H1 & ? & ? & ?). split_and!; try done. by apply compress_last_session.
Qed.

Lemma stack_ok_take (t : gmap Z node) (next mr : Z) (k : nat) (st : list undo_state)
    (sns : list (gmap Z node)) :
  stack_ok t next mr st sns -> stack_ok t next mr (take k st) (take k sns).
Proof.
  revert t next mr st sns. induction k as [|k IH]; intros t next mr st sns Hst.
  - simpl. split; [by eapply stack_ok_table | done].
  - destruct st as [|s st], sns as [|sn sns]; simpl in *; try tauto.
    destruct Hst as (? & ? & ? & ? & ?). split_and!; try done. by apply IH.
Qed.

Lemma stack_ok_length (t : gmap Z node) (next mr : Z) (st : list undo_state)
    (sns : list (gmap Z node)) :
  stack_ok t next mr st sns -> length sns = length st.
Proof.
  revert t next mr sns. induction st as [|s st IH]; intros t next mr [|sn sns] Hst; simpl in *; try tauto.
  destruct Hst as (_ & _ & _ & _ & Hst). f_equal. by eapply IH.
Qed.

Lemma commit_refines (u : undo_index) (sp : snapshots) (r : Z) :
  refines u sp -> counters_small u -> sfits 64 r ->
  refines (commit u r) (spec_op sp (Commit r)).
Proof.
  intros (sns & Hst & ->) (_ & _ & Hrev) Hr. unfold commit. simpl. unfold sfits in Hr.
  pose proof (stack_ok_length _ _ _ _ _ Hst) as Hlen.
  destruct (Z.ltb_spec r (_revision u)) as [Hlt|Hge].
  - rewrite (proj2 (Z.eqb_neq _ _)) by lia. rewrite Z.min_l by lia.
    rewrite (wrap_small 64) by (split; lia).
    destruct (Z.ltb_spec (_revision u - r) (Z.of_nat (length (_undo_stack u)))) as [Hk|Hk].
    + exists (take (Z.to_nat (_revision u - r)) sns). simpl. split; [by apply stack_ok_take|].
      f_equal. apply zip_with_take.
    + exists sns. split; [done|]. f_equal. apply take_ge.
      rewrite length_zip_with. lia.
  - rewrite (proj2 (Z.eqb_eq _ _)) by lia. exists []. simpl.
    split; [|done]. split; [by eapply stack_ok_table | done].
Qed.

Lemma undo_op_refines (u u' : undo_index) (sp : snapshots) (o : op) :
  refines u sp -> counters_small u ->
  (forall r, o = Commit r -> sfits 64 r) ->
  run_op u o = Ok u' -> refines u' (spec_op sp o).
Proof.
  intros R Hs Hr E. destruct o as [c|i m|i| | | | | |r|r]; simpl in E.
  - by eapply emplace_refines.
  - destruct (modify unique_keys u i m) as [u1 [[]|]] eqn:Em; simplify_eq. by eapply modify_refines.
  - by eapply remove_refines.
  - injection E as <-. by apply start_refines.
  - injection E as <-. by apply undo_refines.
  - injection E as <-. by apply squash_refines.
  - injection E as <-. by apply squash_fast_refines.
  - by eapply compress_refines.
  - injection E as <-. apply commit_refines; auto.
  - unfold set_revision in E. destruct (_undo_stack u) as [|s st] eqn:Es; [|done].
    destruct (_ <? r); [done|]. destruct (r <? _); [done|]. injection E as <-.
    destruct R as (sns & Hst & ->). exists sns. rewrite Es in *. by split.
Qed.

(** The states in which a sequence of operations is at some point. *)
Inductive reaches : undo_index -> list op -> undo_index -> Prop :=
  | reaches_here u ops : reaches u ops u
  | reaches_cons u o ops u1 u2 : run_op u o = Ok u1 -> reaches u1 ops u2 -> reaches u (o :: ops) u2.

(** C6. The undo index implements a table with a stack of snapshots: a sequence of operations none of which is refused
    takes an index that implements a state of the specification to one that implements the state after the same
    sequence, as long as the identifiers, modification times and revisions stay in range. In particular undoing the
    last session restores every value, key and counter it started from, also after sessions were squashed, compressed
    or committed. (After a refused modification it need not, see [failed_modify_defeats_undo].) *)
Theorem undo_index_refines_snapshots (u u' : undo_index) (sp : snapshots) (ops : list op) :
  refines u sp -> (forall u1, reaches u ops u1 -> counters_small u1) ->
  Forall (fun o => forall r, o = Commit r -> sfits 64 r) ops ->
  foldM run_op u ops = Ok u' -> refines u' (foldl spec_op sp ops).
Proof.
  intros R Hs Hr. revert u sp R Hs. induction Hr as [|o ops Ho _ IH]; intros u sp R Hs E; simpl in *.
  { by injection E as <-. }
  apply bind_ok_inv in E as (u1 & E1 & E). apply (IH u1); [| |done].
  - apply (undo_op_refines u); try done. apply Hs. constructor.
  - intros u2 H2. apply Hs. by apply (reaches_cons u o ops u1).
Qed.


Lemma empty_refines : refines undo_index_empty (mk_snapshots ∅ 0 0 []).
Proof.
  exists []. simpl. split; [|by rewrite fmap_empty]. split; [|done].
  split; [intros ???? _ Hi; by rewrite lookup_empty in Hi | intros ?? Hi; by rewrite lookup_empty in Hi].
Qed.

(** ** Rolling a session back *)
Definition data_op (o : op) : Prop :=
  match o with Emplace _ | Modify _ _ | Remove _ => True | _ => False end.

Lemma refines_counters (u : undo_index) (sp : snapshots) :
  refines u sp -> sp_next sp = _next_id u /\ sp_revision sp = _revision u.
Proof. by intros (sns & _ & ->). Qed.

Lemma data_op_monotonic (u u' : undo_index) (o : op) :
  data_op o -> run_op u o = Ok u' -> _monotonic_revision u' = _monotonic_revision u.
Proof.
  destruct o; try done; simpl; intros _.
  - unfold emplace. destruct (conflicts _ _ _); by intros [= <-].
  - unfold modify, on_modify. destruct (table u !! i); [|done].
    destruct (_undo_stack u) as [|s st]; [|destruct (_ <=? _)]; destruct (conflicts _ _ _); try done;
      by intros [= <-].
  - unfold remove. destruct (table u !! i); [|done]. intros [= <-]. simpl.
    destruct (_undo_stack u) as [|s st]; [done|]. by destruct (_ <=? _).
Qed.

Lemma spec_data_op (sp : snapshots) (o : op) :
  data_op o -> sp_saved (spec_op sp o) = sp_saved sp /\
    sp_revision (spec_op sp o) = sp_revision sp /\
    sp_next sp <= sp_next (spec_op sp o) <= sp_next sp + 1.
Proof. destruct sp, o; simpl; try done; intros _; split_and!; done || lia. Qed.

Lemma data_ops_refine (u u' : undo_index) (sp : snapshots) (ops : list op) :
  Forall data_op ops -> refines u sp -> counters_small u ->
  _next_id u + Z.of_nat (length ops) < 2 ^ 63 - 1 -> foldM run_op u ops = Ok u' ->
  exists sp', refines u' sp' /\ counters_small u' /\ sp_saved sp' = sp_saved sp /\
    sp_revision sp' = sp_revision sp.
Proof.
  intros Ho. revert u sp. induction Ho as [|o ops Hd _ IH]; intros u sp R Hs Hlen E; simpl in *.
  { injection E as <-. eauto. }
  apply bind_ok_inv in E as (u1 & E1 & E).
  pose proof (undo_op_refines u u1 sp o R Hs ltac:(by intros r ->) E1) as R1.
  destruct (spec_data_op sp o Hd) as (Hsv & Hrv & Hnx).
  destruct (refines_counters _ _ R) as [Hn Hr]. destruct (refines_counters _ _ R1) as [Hn1 Hr1].
  pose proof (data_op_monotonic _ _ _ Hd E1) as Hm. destruct Hs as (? & ? & ?).
  destruct (IH u1 (spec_op sp o) R1) as (sp' & R' & Hs' & ? & ?); [|lia|done|].
  - unfold counters_small. rewrite Hm. lia.
  - exists sp'. split_and!; congruence.
Qed.

(** Rolling back a session undoes it entirely: after any sequence of creations,
    modifications and removals that succeed in a session, undoing the session
    gives back the table of values, the next key and the revision from before
    the session was started. *)
Theorem session_rollback (u u' : undo_index) (sp : snapshots) (ops : list op) :
  refines u sp -> counters_small u -> _revision u + 1 < 2 ^ 63 - 1 ->
  _monotonic_revision u + 1 < 2 ^ 64 - 1 ->
  _next_id u + Z.of_nat (length ops) < 2 ^ 63 - 1 -> Forall data_op ops ->
  foldM run_op (add_session u) ops = Ok u' ->
  _item <$> table (undo unique_keys u') = _item <$> table u /\
  _next_id (undo unique_keys u') = _next_id u /\ _revision (undo unique_keys u') = _revision u.
Proof.
  intros R Hs Hrev Hmr Hlen Ho E. pose proof (start_refines u sp R Hs) as R1.
  assert (Hs1 : counters_small (add_session u)).
  { destruct Hs as (? & ? & ?). unfold counters_small, add_session. simpl.
    rewrite (wrap_small 64), (swrap_small 64) by (unfold fits, sfits; lia). lia. }
  destruct (data_ops_refine (add_session u) u' _ ops Ho R1 Hs1) as (sp' & R' & Hs' & Hsv & Hrv); [done|done|].
  pose proof (undo_refines _ _ R' Hs') as (sns & _ & Hu).
  destruct R as (sns0 & _ & ->). destruct sp' as [t' n' r' saved']. simpl in *. subst saved' r'.
  injection Hu as Ht Hn Hr _. rewrite <- Ht, <- Hn, <- Hr. split_and!; [done..|lia].
Qed.
(** C38. A modification that a secondary index refuses can escape undo. Whatever an index holds, when in a new session a
    modification of an object is refused and then another one of the same object is accepted, undoing the session does
    not undo it: the refused one gave the object its value back, but left it stamped as modified in the session, so that
    the second kept no backup. *)
Theorem failed_modify_defeats_undo (u : undo_index) (sp : snapshots) (i : Z) (n : node) (m1 m2 : value -> value) :
  refines u sp -> counters_small u -> table u !! i = Some n ->
  conflicts unique_keys (delete i (table u)) (m1 (_item n)) = true ->
  conflicts unique_keys (delete i (table u)) (m2 (_item n)) = false ->
  exists u1 u2, modify unique_keys (add_session u) i m1 = (u1, Throw logic_error) /\ _item <$> table u1 = _item <$> table u /\
    modify unique_keys u1 i m2 = (u2, Ok tt) /\
    (_item <$> table (undo unique_keys u2)) !! i = Some (m2 (_item n)).
Proof.
  intros R Hs Hi Hc1 Hc2. destruct R as (sns & Hst & _). pose proof (stack_ok_table _ _ _ _ _ Hst) as [_ Ht].
  destruct (Ht i n Hi) as [Hlt Hm]. destruct Hs as (_ & Hr & _). set (mr := u64 (_monotonic_revision u + 1)).
  assert (Emr : mr = _monotonic_revision u + 1) by (unfold mr; apply wrap_small; split; lia).
  set (u1 := with_table (add_session u) (<[i := mk_node (_item n) mr]> (table u))).
  set (u2 := with_table u1 (<[i := mk_node (m2 (_item n)) mr]> (table u1))). exists u1, u2. split_and!.
  - unfold modify, on_modify, add_session. cbn [table _undo_stack ctime _monotonic_revision]. rewrite Hi. fold mr.
    destruct (Z.leb_spec mr (_mtime n)); [lia|]. by rewrite Hc1.
  - unfold u1. simpl. rewrite fmap_insert. apply insert_id. by rewrite lookup_fmap, Hi.
  - unfold modify, on_modify. unfold u1 at 1. cbn [table with_table]. rewrite lookup_insert_eq. cbn [_undo_stack with_table add_session u1 ctime _mtime].
    rewrite Z.leb_refl. cbn [_item].
    replace (delete i (table u1)) with (delete i (table u)) by (unfold u1; simpl; by rewrite delete_insert_eq).
    by rewrite Hc2.
  - unfold undo. cbn [_undo_stack u2 u1 with_table add_session old_next_id old_values removed_values foldl table].
    rewrite lookup_fmap. rewrite (proj2 (map_lookup_filter_Some _ _ i (mk_node (m2 (_item n)) mr))); [done|].
    split; [apply lookup_insert_eq|]. simpl. lia.
Qed.
End refine.

(** ** An instance: values are pairs of a unique name and a balance *)
Definition sample_keys : list (Z * Z -> Z) := [fst].

Definition sample_index : undo_index (Z * Z) :=
  mk_undo_index {[0 := mk_node (10, 100) 0; 1 := mk_node (20, 200) 0]} [] [] [] 2 0 0.

Lemma sample_index_refines :
  refines sample_keys sample_index (mk_snapshots {[0 := (10, 100); 1 := (20, 200)]} 2 0 []).
Proof.
  exists []. split; [|vm_compute; reflexivity]. split; [|done]. split.
  - intros i j n m Hij Hi Hj. unfold sample_index in Hi, Hj. simpl in Hi, Hj.
    apply lookup_insert_Some in Hi as [[<- <-]|[_ Hi]], Hj as [[<- <-]|[_ Hj]]; try done;
      repeat match goal with H : {[_ := _]} !! _ = Some _ |- _ =>
        apply lookup_singleton_Some in H as [<- <-] end; done.
  - intros i n Hi. unfold sample_index in Hi. simpl in Hi.
    apply lookup_insert_Some in Hi as [[<- <-]|[_ [<- <-]%lookup_singleton_Some]]; simpl; lia.
Qed.

Lemma undo_index_refines_snapshots_witness :
  exists u', foldM (run_op sample_keys) sample_index [Start_session; Remove 1] = Ok u' /\
    refines sample_keys u'
      (foldl spec_op (mk_snapshots {[0 := (10, 100); 1 := (20, 200)]} 2 0 [])
         [Start_session; Remove 1]).
Proof.
  eexists. split; [reflexivity|].
  apply (undo_index_refines_snapshots sample_keys sample_index);
    [apply sample_index_refines | | by repeat constructor | reflexivity].
  intros u1 H1. unfold counters_small.
  inversion H1 as [|? ? ? ? ? E1 H2]; subst; [simpl; lia|]. injection E1 as <-.
  inversion H2 as [|? ? ? ? ? E2 H3]; subst; [vm_compute; intuition congruence|].
  injection E2 as <-. inversion H3; subst. vm_compute. intuition congruence.
Defined.

Lemma session_rollback_witness :
  exists u', foldM (run_op sample_keys) (add_session sample_index)
    [Modify 0 (fun _ => (10, 999)); Remove 1; Emplace (fun _ => (20, 5))] = Ok u' /\
    _item <$> table (undo sample_keys u') = _item <$> table sample_index.
Proof.
  eexists. split; [reflexivity|].
  eapply (session_rollback sample_keys sample_index _ _
    [Modify 0 (fun _ => (10, 999)); Remove 1; Emplace (fun _ => (20, 5))]);
    [apply sample_index_refines | vm_compute; intuition congruence | vm_compute; reflexivity |
     vm_compute; reflexivity | vm_compute; reflexivity | by repeat constructor | reflexivity].
Defined.

Lemma failed_modify_defeats_undo_witness :
  exists u1 u2, modify sample_keys (add_session sample_index) 0 (fun _ => (20, 7)) = (u1, Throw logic_error) /\
    modify sample_keys u1 0 (fun _ => (10, 999)) = (u2, Ok tt) /\
    (_item <$> table (undo sample_keys u2)) !! 0 = Some (10, 999) /\ (_item <$> table sample_index) !! 0 = Some (10, 100).
Proof.
  destruct (failed_modify_defeats_undo sample_keys sample_index _ 0 (mk_node (10, 100) 0) (fun _ => (20, 7)) (fun _ => (10, 999))
    sample_index_refines) as (u1 & u2 & A & _ & B & C);
    [vm_compute; intuition congruence | vm_compute; reflexivity | vm_compute; reflexivity | vm_compute; reflexivity |].
  exists u1, u2. exact (conj A (conj B (conj C eq_refl))).
Defined.
