(* ===== verification/Database.v ===== *)
(** * The tables of the database

    How the components use the undo index: [create], [find], [get], [modify] and
    [remove] of libraries/chainbase/include/chainbase/chainbase.hpp on one table,
    and what these operations do to the contents of the table, that is to the
    objects without the bookkeeping of the undo sessions. The clients of the
    database are proved against the lemmas of this file. *)

From S2P Require Import Prelude UndoIndex.

Section table.
(** The keys of the secondary indices are tuples of integers. *)
Context {value : Type} (unique_keys : list (value -> list Z)).
Abbreviation tbl := (undo_index value).

(** The objects of a table, by primary key. *)
Definition contents (u : tbl) : gmap Z value := _item <$> table u.

Definition db_find (u : tbl) (i : Z) : option value := contents u !! i.

Definition db_get (u : tbl) (i : Z) : result value :=
  match db_find u i with Some v => Ok v | None => Throw out_of_range end.

(** [find< object, index >( key )] on a unique secondary index *)
Definition db_find_by (f : value -> list Z) (u : tbl) (x : list Z) : option value :=
  match filter (fun iv => f (snd iv) = x) (map_to_list (contents u)) with
  | iv :: _ => Some (snd iv)
  | [] => None
  end.

Definition db_get_by (f : value -> list Z) (u : tbl) (x : list Z) : result value :=
  match db_find_by f u x with Some v => Ok v | None => Throw out_of_range end.

(** [create]: the table and the new object *)
Definition db_create (u : tbl) (c : Z -> value) : result (tbl * value) :=
  u' ← emplace unique_keys u c; Ok (u', c (_next_id u)).

(** [modify]: an exception is raised in an undo session, which is then undone *)
Definition db_modify (u : tbl) (i : Z) (m : value -> value) : result tbl :=
  match modify unique_keys u i m with
  | (u', Ok _) => Ok u'
  | (_, Throw e) => Throw e
  end.

Definition db_remove (u : tbl) (i : Z) : result tbl := remove u i.

(** ** Uniqueness *)

(** No two objects of the table have the same key in some index. *)
Definition unique (m : gmap Z value) : Prop :=
  forall i j v w, m !! i = Some v -> m !! j = Some w -> conflict unique_keys v w = true -> i = j.

Definition free (m : gmap Z value) (v : value) : Prop :=
  forall i w, m !! i = Some w -> conflict unique_keys v w = false.

Lemma conflicts_free (t : gmap Z (node value)) (v : value) :
  conflicts unique_keys t v = false <-> free (_item <$> t) v.
Proof.
  rewrite conflicts_false. unfold free. split.
  - intros H i w. rewrite lookup_fmap. destruct (t !! i) as [n|] eqn:E; [|done]. intros [= <-]. by apply (H i).
  - intros H j m Hm. apply (H j). by rewrite lookup_fmap, Hm.
Qed.

Lemma conflict_refl_keys (v w w' : value) :
  Forall (fun k => k w = k w') unique_keys -> conflict unique_keys v w = conflict unique_keys v w'.
Proof.
  unfold conflict. induction 1 as [|k l Hk _ IH]; simpl; [done|]. by rewrite Hk, IH.
Qed.

Lemma unique_insert (m : gmap Z value) (i : Z) (v : value) :
  unique m -> free m v -> unique (<[i := v]> m).
Proof.
  intros Hu Hf j k x y [[<- <-]|[Hj Hx]]%lookup_insert_Some [[<- <-]|[Hk Hy]]%lookup_insert_Some Hc;
    [done| | |by eapply Hu].
  - by rewrite (Hf _ _ Hy) in Hc.
  - rewrite conflict_sym, (Hf _ _ Hx) in Hc. done.
Qed.

Lemma unique_delete (m : gmap Z value) (i : Z) : unique m -> unique (delete i m).
Proof.
  intros Hu j k x y [_ Hx]%lookup_delete_Some [_ Hy]%lookup_delete_Some. by apply Hu.
Qed.

(** A change that keeps the secondary keys. *)
Definition keeps_keys (f : value -> value) : Prop := forall v, Forall (fun k => k v = k (f v)) unique_keys.

Lemma unique_alter (m : gmap Z value) (f : value -> value) (i : Z) :
  keeps_keys f -> unique m -> unique (alter f i m).
Proof.
  intros Hk Hu j k x y Hx Hy Hc.
  assert (Hget : forall l z, alter f i m !! l = Some z ->
            exists z', m !! l = Some z' /\ Forall (fun k => k z' = k z) unique_keys).
  { intros l z. destruct (decide (i = l)) as [<-|Hne].
    - rewrite lookup_alter_eq. destruct (m !! i) as [z'|] eqn:E; [|done]. intros [= <-]. eauto.
    - rewrite lookup_alter_ne by done. intros E. exists z. split; [done|]. by apply Forall_true. }
  destruct (Hget _ _ Hx) as (x' & Ex & Kx), (Hget _ _ Hy) as (y' & Ey & Ky).
  apply (Hu j k x' y' Ex Ey). by rewrite (conflict_refl_keys _ _ _ Ky), conflict_sym,
    (conflict_refl_keys _ _ _ Kx), conflict_sym.
Qed.

(** ** What the operations do to the contents *)
Lemma db_create_spec (u u' : tbl) (c : Z -> value) (v : value) :
  db_create u c = Ok (u', v) ->
  v = c (_next_id u) /\ contents u' = <[_next_id u := v]> (contents u) /\
  _next_id u' = i64 (_next_id u + 1) /\ free (contents u) v.
Proof.
  unfold db_create, emplace. destruct (conflicts _ _ _) eqn:E; [done|]. intros [= <- <-].
  split; [done|]. unfold contents. simpl. rewrite fmap_insert. simpl.
  repeat (split; [done|]). by apply conflicts_free.
Qed.

Lemma db_create_ok (u : tbl) (c : Z -> value) :
  free (contents u) (c (_next_id u)) -> exists u', db_create u c = Ok (u', c (_next_id u)).
Proof.
  intros H%conflicts_free. unfold db_create, emplace. rewrite H. by eexists.
Qed.

Lemma db_remove_spec (u u' : tbl) (i : Z) :
  db_remove u i = Ok u' ->
  contents u' = delete i (contents u) /\ _next_id u' = _next_id u /\ is_Some (contents u !! i).
Proof.
  unfold db_remove, remove, contents. destruct (table u !! i) eqn:E; [|done].
  rewrite <- fmap_delete, lookup_fmap, E. destruct (_undo_stack _) as [|s st]; simpl; [by intros [= <-]|].
  destruct (old_next_id s <=? i); by intros [= <-].
Qed.

Lemma db_remove_ok (u : tbl) (i : Z) (v : value) :
  contents u !! i = Some v -> exists u', db_remove u i = Ok u'.
Proof.
  unfold contents, db_remove, remove. rewrite lookup_fmap. destruct (table u !! i); [|done]. by eexists.
Qed.

Lemma modify_contents (u : tbl) (i : Z) (m : value -> value) (u' : tbl) (r : unit) :
  modify unique_keys u i m = (u', Ok r) ->
  contents u' = alter m i (contents u) /\ _next_id u' = _next_id u.
Proof.
  unfold modify, contents. destruct (table u !! i) as [n|] eqn:E; [|done].
  assert (Ha : alter m i (_item <$> table u) = <[i := m (_item n)]> (_item <$> table u)).
  { apply map_eq. intros j. destruct (decide (i = j)) as [<-|].
    - by rewrite lookup_alter_eq, lookup_insert_eq, lookup_fmap, E.
    - by rewrite lookup_alter_ne, lookup_insert_ne. }
  rewrite Ha. unfold on_modify.
  destruct (conflicts _ _ _), (_undo_stack u) as [|s st] eqn:Es; simpl; try done;
    try (destruct (ctime s <=? _mtime n)); simpl; try done; intros [= <- _]; simpl;
    by rewrite !fmap_insert, ?insert_insert_eq.
Qed.

Lemma db_modify_spec (u u' : tbl) (i : Z) (m : value -> value) :
  db_modify u i m = Ok u' -> contents u' = alter m i (contents u) /\ _next_id u' = _next_id u.
Proof.
  unfold db_modify. destruct (modify _ _ _ _) as [u1 [r|e]] eqn:E; [|done]. intros [= <-].
  by eapply modify_contents.
Qed.

Lemma db_modify_free (u : tbl) (i : Z) (m : value -> value) (v : value) :
  contents u !! i = Some v -> free (delete i (contents u)) (m v) -> exists u', db_modify u i m = Ok u'.
Proof.
  intros Hv Hf. unfold db_modify, modify. unfold contents in *. rewrite lookup_fmap in Hv.
  destruct (table u !! i) as [n|] eqn:E; [|done]. injection Hv as <-. rewrite <- fmap_delete in Hf.
  apply conflicts_free in Hf. unfold on_modify. rewrite Hf. destruct (_undo_stack u) as [|s st]; [by eexists|].
  destruct (ctime s <=? _mtime n); by eexists.
Qed.

Lemma db_modify_ok (u : tbl) (i : Z) (m : value -> value) (v : value) :
  contents u !! i = Some v -> unique (contents u) -> keeps_keys m -> exists u', db_modify u i m = Ok u'.
Proof.
  intros Hv Hu Hk. apply (db_modify_free u i m v Hv). intros j w [Hne Hw]%lookup_delete_Some.
  apply not_true_iff_false. rewrite conflict_sym, <- (conflict_refl_keys _ v _ (Hk _)), conflict_sym.
  intros Hc. apply Hne. by eapply Hu.
Qed.

(** ** Looking up by a secondary key *)
Lemma db_find_by_Some (f : value -> list Z) (u : tbl) (x : list Z) (v : value) :
  db_find_by f u x = Some v -> exists i, contents u !! i = Some v /\ f v = x.
Proof.
  unfold db_find_by. destruct (filter _ _) as [|[i w] l] eqn:E; [done|]. intros [= <-].
  assert (Hin : (i, w) ∈ filter (fun iv => f (snd iv) = x) (map_to_list (contents u))) by (rewrite E; left).
  apply list_elem_of_filter in Hin as [Hf Hin%elem_of_map_to_list]. eauto.
Qed.

Lemma db_find_by_None (f : value -> list Z) (u : tbl) (x : list Z) :
  db_find_by f u x = None <-> forall i v, contents u !! i = Some v -> f v <> x.
Proof.
  unfold db_find_by. destruct (filter _ _) as [|[i w] l] eqn:E; split; try done.
  - intros _ i v Hv Hf. assert (Hin : (i, v) ∈ filter (fun iv => f (snd iv) = x) (map_to_list (contents u))).
    { apply list_elem_of_filter. split; [done|]. by apply elem_of_map_to_list. }
    rewrite E in Hin. by apply elem_of_nil in Hin.
  - intros H. assert (Hin : (i, w) ∈ filter (fun iv => f (snd iv) = x) (map_to_list (contents u))) by (rewrite E; left).
    apply list_elem_of_filter in Hin as [Hf Hin%elem_of_map_to_list]. by apply H in Hin.
Qed.

Lemma db_find_by_unique (f : value -> list Z) (u : tbl) (i : Z) (v : value) :
  f ∈ unique_keys -> unique (contents u) -> contents u !! i = Some v -> db_find_by f u (f v) = Some v.
Proof.
  intros Hf Hu Hv. destruct (db_find_by f u (f v)) as [w|] eqn:E.
  - apply db_find_by_Some in E as (j & Hw & Hfw). f_equal. assert (j = i); [|congruence].
    eapply Hu; [exact Hw|exact Hv|]. unfold conflict. apply existsb_exists. exists f.
    split; [by apply list_elem_of_In|]. by apply bool_decide_eq_true.
  - pose proof (proj1 (db_find_by_None f u (f v)) E i v Hv). done.
Qed.

(** ** Well-formed tables *)
Context (id_of : value -> Z).

(** An object is stored under its identifier, below the next one to be given, and
    the secondary keys are unique. *)
Definition table_ok (u : tbl) : Prop :=
  0 <= _next_id u /\ (forall i v, contents u !! i = Some v -> id_of v = i /\ 0 <= i < _next_id u) /\
  unique (contents u).

(** There is room for [k] more objects. *)
Definition room (k : Z) (u : tbl) : Prop := _next_id u + k < 2 ^ 63.

Lemma table_ok_fresh (u : tbl) : table_ok u -> contents u !! _next_id u = None.
Proof.
  intros (_ & Hi & _). destruct (contents u !! _next_id u) as [v|] eqn:E; [|done]. apply Hi in E. lia.
Qed.

Lemma table_ok_create (u u' : tbl) (c : Z -> value) (v : value) :
  table_ok u -> room 1 u -> id_of (c (_next_id u)) = _next_id u -> db_create u c = Ok (u', v) ->
  table_ok u' /\ v = c (_next_id u) /\ contents u' = <[_next_id u := v]> (contents u) /\
  _next_id u' = _next_id u + 1 /\ free (contents u) v.
Proof.
  intros (Hn & Hi & Hu) Hr Hid Hc. apply db_create_spec in Hc as (-> & Hc & Hnext & Hf).
  assert (Hnext' : _next_id u' = _next_id u + 1).
  { rewrite Hnext. apply swrap_small; [lia|]. unfold sfits, room in *. lia. }
  split; [|done]. split; [lia|]. rewrite Hc, Hnext'. split; [|by apply unique_insert].
  intros i v [[<- <-]|[_ Hv]]%lookup_insert_Some; [lia|]. apply Hi in Hv. lia.
Qed.

Lemma table_ok_modify (u u' : tbl) (i : Z) (m : value -> value) :
  table_ok u -> keeps_keys m -> (forall v, id_of (m v) = id_of v) -> db_modify u i m = Ok u' ->
  table_ok u' /\ contents u' = alter m i (contents u) /\ _next_id u' = _next_id u.
Proof.
  intros (Hn & Hi & Hu) Hk Hid Hm. apply db_modify_spec in Hm as [Hc Hnext]. split; [|done].
  split; [lia|]. rewrite Hc, Hnext. split; [|by apply unique_alter].
  intros j v Hv. destruct (decide (i = j)) as [<-|].
  - rewrite lookup_alter_eq in Hv. destruct (contents u !! i) as [w|] eqn:E; [|done].
    injection Hv as <-. rewrite Hid. by apply Hi.
  - rewrite lookup_alter_ne in Hv by done. by apply Hi.
Qed.

(** A change of the keys that the table accepts. *)
Lemma table_ok_rekey (u u' : tbl) (i : Z) (m : value -> value) :
  table_ok u -> (forall v, id_of (m v) = id_of v) -> db_modify u i m = Ok u' ->
  table_ok u' /\ contents u' = alter m i (contents u) /\ _next_id u' = _next_id u.
Proof.
  intros (Hn & Hi & Hu) Hid Hm. pose proof (db_modify_spec _ _ _ _ Hm) as [Hc Hnext]. split; [|done].
  split; [lia|]. rewrite Hc, Hnext. split.
  { intros j v Hv. destruct (decide (i = j)) as [<-|].
    - rewrite lookup_alter_eq in Hv. destruct (contents u !! i) as [w|] eqn:E; [|done].
      injection Hv as <-. rewrite Hid. by apply Hi.
    - rewrite lookup_alter_ne in Hv by done. by apply Hi. }
  destruct (contents u !! i) as [v|] eqn:E.
  - assert (Hf : free (delete i (contents u)) (m v)).
    { unfold db_modify, modify in Hm. unfold contents in E. rewrite lookup_fmap in E.
      destruct (table u !! i) as [n|] eqn:Et; [|done]. injection E as <-. destruct (on_modify u i n) as [b u1].
      destruct (conflicts unique_keys (delete i (table u)) (m (_item n))) eqn:Ec; [by destruct b|].
      apply conflicts_free in Ec. unfold contents. by rewrite <- fmap_delete. }
    assert (alter m i (contents u) = <[i := m v]> (delete i (contents u))) as ->.
    { rewrite insert_delete_eq. apply map_eq. intros j. destruct (decide (i = j)) as [<-|].
      - by rewrite lookup_alter_eq, lookup_insert_eq, E.
      - by rewrite lookup_alter_ne, lookup_insert_ne. }
    by apply unique_insert; [apply unique_delete|].
  - rewrite alter_id; [done|]. intros ? ?. congruence.
Qed.

Lemma db_create_throw (u : tbl) (c : Z -> value) (e : exn) :
  db_create u c = Throw e -> e = logic_error /\ ~ free (contents u) (c (_next_id u)).
Proof.
  unfold db_create, emplace. destruct (conflicts _ _ _) eqn:E; [|done]. intros [= <-]. split; [done|].
  intros Hf%conflicts_free. unfold contents in *. congruence.
Qed.

Lemma table_ok_remove (u u' : tbl) (i : Z) :
  table_ok u -> db_remove u i = Ok u' ->
  table_ok u' /\ contents u' = delete i (contents u) /\ _next_id u' = _next_id u.
Proof.
  intros (Hn & Hi & Hu) Hm. apply db_remove_spec in Hm as (Hc & Hnext & _). split; [|done].
  split; [lia|]. rewrite Hc, Hnext. split; [|by apply unique_delete].
  intros j v [_ Hv]%lookup_delete_Some. by apply Hi.
Qed.
End table.
