(* ===== verification/UnappliedQueue.v ===== *)
(** * The queue of unapplied transactions

    libraries/chain/include/dcd/chain/unapplied_transaction_queue.hpp. The
    multi-index container is the list of its elements in the order they were
    inserted; its indices are found in it. A transaction is what the queue looks
    at: its identifier, its expiration and its estimated size. The callbacks a
    caller passes are opaque numbers, and the calls the queue makes to them are
    the events it returns. [sizeof_unapplied] is the constant
    [sizeof(unapplied_transaction)]. *)

From S2P Require Import Prelude Types.

Inductive trx_enum_type :=
  | unknown | persisted | forked | aborted | incoming_persisted | incoming.

#[global] Instance trx_enum_type_eq_dec : EqDecision trx_enum_type.
Proof. solve_decision. Defined.

Record transaction_metadata := mk_trx {
  trx_id : digest;
  trx_expiration : Z;
  trx_estimated_size : Z
}.

Record unapplied_transaction := mk_unapplied {
  trx_meta : transaction_metadata;
  expiry : Z;
  trx_type : trx_enum_type;
  next : option Z
}.

Record unapplied_transaction_queue := mk_queue {
  queue : list unapplied_transaction;
  max_transaction_queue_size : Z;
  size_in_bytes : Z;
  incoming_count : Z
}.

(** What the queue tells its caller. *)
Inductive event :=
  | expired_callback (id : digest) (type : trx_enum_type)
  | expired_next (f : Z)
  | duplicate_next (f : Z).

Definition unapplied_id (t : unapplied_transaction) : digest := trx_id (trx_meta t).
Definition is_incoming (t : trx_enum_type) : bool :=
  match t with incoming | incoming_persisted => true | _ => false end.
Definition is_persisted (t : trx_enum_type) : bool :=
  match t with persisted | incoming_persisted => true | _ => false end.

(** [queue.get<by_trx_id>().find( id )] *)
Definition find_trx (q : list unapplied_transaction) (id : digest) : option unapplied_transaction :=
  match filter (fun t => unapplied_id t = id) q with t :: _ => Some t | [] => None end.

(** Erasing and modifying the element with an identifier. *)
Definition erase_id (q : list unapplied_transaction) (id : digest) : list unapplied_transaction :=
  filter (fun t => unapplied_id t <> id) q.
Definition modify_id (q : list unapplied_transaction) (id : digest)
    (f : unapplied_transaction -> unapplied_transaction) : list unapplied_transaction :=
  map (fun t => if bool_decide (unapplied_id t = id) then f t else t) q.

Definition set_type (ty : trx_enum_type) (t : unapplied_transaction) : unapplied_transaction :=
  mk_unapplied (trx_meta t) (expiry t) ty (next t).
Definition set_next (n : option Z) (t : unapplied_transaction) : unapplied_transaction :=
  mk_unapplied (trx_meta t) (expiry t) (trx_type t) n.

Section queue.
Context (sizeof_unapplied : Z).

Definition calc_size (trx : transaction_metadata) : Z :=
  u64 (sizeof_unapplied + trx_estimated_size trx).

Definition set_max_transaction_queue_size (u : unapplied_transaction_queue) (v : Z) :
    unapplied_transaction_queue :=
  mk_queue (queue u) v (size_in_bytes u) (incoming_count u).

Definition clear (u : unapplied_transaction_queue) : unapplied_transaction_queue :=
  mk_queue [] (max_transaction_queue_size u) (size_in_bytes u) (incoming_count u).

Definition get_trx (u : unapplied_transaction_queue) (id : digest) : option transaction_metadata :=
  match find_trx (queue u) id with Some t => Some (trx_meta t) | None => None end.

(** [added], after the element was inserted: the state also when it throws. *)
Definition added (u : unapplied_transaction_queue) (t : unapplied_transaction) :
    unapplied_transaction_queue * result unit :=
  let size := calc_size (trx_meta t) in
  let total := u64 (size_in_bytes u + size) in
  let ok := mk_queue (queue u) (max_transaction_queue_size u) total in
  if is_incoming (trx_type t) then
    let count := u64 (incoming_count u + 1) in
    if total <? max_transaction_queue_size u then (ok count, Ok tt)
    else (mk_queue (queue u) (max_transaction_queue_size u) (size_in_bytes u) count,
          Throw tx_resource_exhaustion)
  else (ok (incoming_count u), Ok tt).

(** [removed], before the element is erased *)
Definition removed (u : unapplied_transaction_queue) (t : unapplied_transaction) :
    unapplied_transaction_queue :=
  mk_queue (queue u) (max_transaction_queue_size u)
    (u64 (size_in_bytes u - calc_size (trx_meta t)))
    (if is_incoming (trx_type t) then u64 (incoming_count u - 1) else incoming_count u).

Definition with_queue (u : unapplied_transaction_queue) (q : list unapplied_transaction) :
    unapplied_transaction_queue :=
  mk_queue q (max_transaction_queue_size u) (size_in_bytes u) (incoming_count u).

(** [erase( itr )]: [t] is the element of the iterator. *)
Definition erase (u : unapplied_transaction_queue) (t : unapplied_transaction) :
    unapplied_transaction_queue :=
  let u := removed u t in with_queue u (erase_id (queue u) (unapplied_id t)).

(** [queue.insert( ... )] followed by [added]; nothing on a known identifier. *)
Definition insert_added (u : unapplied_transaction_queue) (t : unapplied_transaction) :
    unapplied_transaction_queue * result unit :=
  match find_trx (queue u) (unapplied_id t) with
  | Some _ => (u, Ok tt)
  | None => added (with_queue u (queue u ++ [t])) t
  end.

Definition fresh_trx (trx : transaction_metadata) (ty : trx_enum_type) (n : option Z) :
    unapplied_transaction := mk_unapplied trx (trx_expiration trx) ty n.

(** [add_forked]: the branch has its last block first; each block is the list of
    its transactions. [add_aborted] is the same on one list. *)
Definition add_all (ty : trx_enum_type) (u : unapplied_transaction_queue)
    (trxs : list transaction_metadata) : unapplied_transaction_queue :=
  foldl (fun u trx => fst (insert_added u (fresh_trx trx ty None))) u trxs.

Definition add_forked (u : unapplied_transaction_queue)
    (forked_branch : list (list transaction_metadata)) : unapplied_transaction_queue :=
  foldl (add_all forked) u (rev forked_branch).

Definition add_aborted (u : unapplied_transaction_queue) (aborted_trxs : list transaction_metadata) :
    unapplied_transaction_queue := add_all aborted u aborted_trxs.

Definition add_persisted (u : unapplied_transaction_queue) (trx : transaction_metadata) :
    unapplied_transaction_queue * result unit :=
  match find_trx (queue u) (trx_id trx) with
  | None => insert_added u (fresh_trx trx persisted None)
  | Some t =>
      (match trx_type t with
       | persisted => u
       | _ => mk_queue (modify_id (queue u) (trx_id trx) (set_type persisted))
                (max_transaction_queue_size u) (size_in_bytes u)
                (if is_incoming (trx_type t) then u64 (incoming_count u - 1) else incoming_count u)
       end, Ok tt)
  end.

Definition add_incoming (u : unapplied_transaction_queue) (trx : transaction_metadata)
    (persist_until_expired : bool) (n : option Z) : unapplied_transaction_queue * result unit :=
  let ty := if persist_until_expired then incoming_persisted else incoming in
  match find_trx (queue u) (trx_id trx) with
  | None => insert_added u (fresh_trx trx ty n)
  | Some t =>
      (mk_queue (modify_id (queue u) (trx_id trx) (fun t => set_next n (set_type ty t)))
         (max_transaction_queue_size u) (size_in_bytes u)
         (if is_incoming (trx_type t) then incoming_count u else u64 (incoming_count u + 1)), Ok tt)
  end.

(** [queue.get<by_expiry>().begin()]: the first of those that expire first. *)
Fixpoint first_to_expire (q : list unapplied_transaction) : option unapplied_transaction :=
  match q with
  | [] => None
  | t :: q => match first_to_expire q with
              | Some t' => if expiry t' <? expiry t then Some t' else Some t
              | None => Some t
              end
  end.

(** [clear_expired]: [now k] is the clock at the [k]-th iteration. *)
Fixpoint clear_expired_loop (fuel : nat) (now : nat -> Z) (k : nat) (pending_block_time deadline : Z)
    (u : unapplied_transaction_queue) : unapplied_transaction_queue * list event * result bool :=
  match first_to_expire (queue u) with
  | None => (u, [], Ok true)
  | Some t =>
      if pending_block_time <? expiry t then (u, [], Ok true)
      else if deadline <=? now k then (u, [], Ok false)
      else
        match fuel with
        | O => (u, [], Throw nontermination)
        | S fuel =>
            let ev := expired_callback (unapplied_id t) (trx_type t) ::
                      match next t with Some f => [expired_next f] | None => [] end in
            let '(u', evs, r) :=
              clear_expired_loop fuel now (S k) pending_block_time deadline (erase u t) in
            (u', ev ++ evs, r)
        end
  end.

Definition clear_expired (u : unapplied_transaction_queue) (now : nat -> Z)
    (pending_block_time deadline : Z) : unapplied_transaction_queue * list event * result bool :=
  clear_expired_loop (length (queue u)) now 0 pending_block_time deadline u.

(** [clear_applied]: the identifiers of the packed transactions of a block. *)
Definition clear_applied_one (u : unapplied_transaction_queue) (id : digest) :
    unapplied_transaction_queue * list event :=
  match find_trx (queue u) id with
  | None => (u, [])
  | Some t =>
      let ev := match next t with Some f => [duplicate_next f] | None => [] end in
      (if negb (is_persisted (trx_type t)) then erase u t
       else match next t with
            | Some _ => with_queue u (modify_id (queue u) id (set_next None))
            | None => u
            end, ev)
  end.

Fixpoint clear_applied_loop (u : unapplied_transaction_queue) (ids : list digest) :
    unapplied_transaction_queue * list event :=
  match ids with
  | [] => (u, [])
  | id :: ids =>
      let '(u, ev) := clear_applied_one u id in
      let '(u, evs) := clear_applied_loop u ids in (u, ev ++ evs)
  end.

Definition clear_applied (u : unapplied_transaction_queue) (ids : list digest) :
    unapplied_transaction_queue * list event :=
  match queue u with
  | [] => (u, [])
  | _ :: _ => clear_applied_loop u ids
  end.

(** ** The accounting *)
Definition total_size (q : list unapplied_transaction) : Z :=
  foldr (fun t s => calc_size (trx_meta t) + s) 0 q.
Definition total_incoming (q : list unapplied_transaction) : Z :=
  foldr (fun t s => (if is_incoming (trx_type t) then 1 else 0) + s) 0 q.

(** Identifiers are unique and the two counters are those of the content. *)
Record queue_inv (u : unapplied_transaction_queue) : Prop := {
  qv_ids : NoDup (map unapplied_id (queue u));
  qv_size : size_in_bytes u = u64 (total_size (queue u));
  qv_incoming : incoming_count u = u64 (total_incoming (queue u))
}.

Lemma find_trx_Some (q : list unapplied_transaction) (id : digest) (t : unapplied_transaction) :
  find_trx q id = Some t -> t ∈ q /\ unapplied_id t = id.
Proof.
  unfold find_trx. destruct (filter _ q) as [|x l] eqn:E; [done|]. intros [= ->].
  assert (Ht : t ∈ filter (fun t => unapplied_id t = id) q) by (rewrite E; constructor).
  apply list_elem_of_filter in Ht. tauto.
Qed.

Lemma find_trx_None (q : list unapplied_transaction) (id : digest) :
  find_trx q id = None -> id ∉ map unapplied_id q.
Proof.
  unfold find_trx. destruct (filter _ q) as [|x l] eqn:E; [|done]. intros _ (t & -> & Ht)%list_elem_of_fmap.
  assert (Hin : t ∈ filter (fun x => unapplied_id x = unapplied_id t) q)
    by (by apply list_elem_of_filter).
  rewrite E in Hin. by apply elem_of_nil in Hin.
Qed.

(** Splitting the queue at its element with an identifier. *)
Lemma queue_split (q : list unapplied_transaction) (t : unapplied_transaction) :
  NoDup (map unapplied_id q) -> t ∈ q ->
  exists q1 q2, q = q1 ++ t :: q2 /\ erase_id q (unapplied_id t) = q1 ++ q2 /\
    forall f, modify_id q (unapplied_id t) f = q1 ++ f t :: q2.
Proof.
  intros ND Hin. apply list_elem_of_split in Hin as (q1 & q2 & ->).
  rewrite map_app in ND. simpl in ND. apply NoDup_app in ND as (ND1 & Hd & ND2).
  inversion ND2 as [|? ? Hn ND2']; subst.
  assert (H1 : Forall (fun x => unapplied_id x <> unapplied_id t) q1).
  { apply Forall_forall. intros x Hx E. apply (Hd (unapplied_id x)).
    - apply list_elem_of_fmap. eauto.
    - rewrite E. constructor. }
  assert (H2 : Forall (fun x => unapplied_id x <> unapplied_id t) q2).
  { apply Forall_forall. intros x Hx E. apply Hn. rewrite <- E. apply list_elem_of_fmap. eauto. }
  exists q1, q2. split; [done|]. split.
  - unfold erase_id. rewrite filter_app, filter_cons_False by (by intros []).
    by rewrite !filter_Forall_id by done.
  - intros f. unfold modify_id. rewrite map_app. simpl. rewrite bool_decide_eq_true_2 by done.
    assert (Hid : forall l, Forall (fun x => unapplied_id x <> unapplied_id t) l ->
      map (fun x => if bool_decide (unapplied_id x = unapplied_id t) then f x else x) l = l).
    { induction 1 as [|x l Hx Hl IH]; simpl; [done|]. by rewrite bool_decide_eq_false_2, IH. }
    by rewrite !Hid.
Qed.

Lemma total_size_app (q1 q2 : list unapplied_transaction) :
  total_size (q1 ++ q2) = total_size q1 + total_size q2.
Proof. induction q1; simpl; lia. Qed.
Lemma total_incoming_app (q1 q2 : list unapplied_transaction) :
  total_incoming (q1 ++ q2) = total_incoming q1 + total_incoming q2.
Proof. induction q1; simpl; lia. Qed.

Lemma wrap_sub (x y : Z) : u64 (u64 x - y) = u64 (x - y).
Proof. unfold wrap. apply Zminus_mod_idemp_l. Qed.
Lemma wrap_add (x y : Z) : u64 (u64 x + y) = u64 (x + y).
Proof. unfold wrap. apply Zplus_mod_idemp_l. Qed.

(** ** The accounting is kept *)
Lemma erase_inv (u : unapplied_transaction_queue) (t : unapplied_transaction) :
  queue_inv u -> t ∈ queue u -> queue_inv (erase u t).
Proof.
  intros [ND Hs Hi] Hin. destruct (queue_split _ _ ND Hin) as (q1 & q2 & Hq & He & _).
  split; simpl; rewrite He.
  - rewrite Hq, map_app in ND. rewrite map_app. simpl in ND. apply NoDup_app in ND as (? & Hd & ND2).
    inversion ND2; subst. apply NoDup_app. split_and!; try done. intros x Hx Hx2. apply (Hd x Hx). by constructor.
  - rewrite Hs, wrap_sub, Hq, !total_size_app. f_equal. simpl. lia.
  - rewrite Hi, Hq, !total_incoming_app. simpl. destruct (is_incoming (trx_type t)).
    + rewrite wrap_sub. f_equal. lia.
    + done.
Qed.

(** Changing an element without touching its transaction. *)
Lemma modify_inv (u : unapplied_transaction_queue) (t : unapplied_transaction)
    (f : unapplied_transaction -> unapplied_transaction) (count : Z) :
  queue_inv u -> t ∈ queue u -> trx_meta (f t) = trx_meta t ->
  count = u64 (incoming_count u + (if is_incoming (trx_type (f t)) then 1 else 0)
                 - (if is_incoming (trx_type t) then 1 else 0)) ->
  queue_inv (mk_queue (modify_id (queue u) (unapplied_id t) f) (max_transaction_queue_size u)
               (size_in_bytes u) count).
Proof.
  intros [ND Hs Hi] Hin Hf Hc. destruct (queue_split _ _ ND Hin) as (q1 & q2 & Hq & _ & Hm).
  split; simpl; rewrite Hm.
  - rewrite Hq in ND. rewrite map_app in *. simpl in *. unfold unapplied_id at 2. by rewrite Hf.
  - rewrite Hs, Hq, !total_size_app. simpl. by rewrite Hf.
  - rewrite Hc, Hi, Hq, !total_incoming_app. simpl. rewrite <- Z.add_sub_assoc, wrap_add. f_equal. lia.
Qed.

Lemma insert_added_inv (u u' : unapplied_transaction_queue) (t : unapplied_transaction) :
  queue_inv u -> insert_added u t = (u', Ok tt) -> queue_inv u'.
Proof.
  intros [ND Hs Hi]. unfold insert_added.
  destruct (find_trx (queue u) (unapplied_id t)) eqn:E; [intros [= <-]; by split|].
  apply find_trx_None in E.
  assert (ND' : NoDup (map unapplied_id (queue u ++ [t]))).
  { rewrite map_app. apply NoDup_app. split_and!; [done| |apply NoDup_singleton].
    intros x Hx ->%list_elem_of_singleton. done. }
  unfold added. simpl. destruct (is_incoming (trx_type t)) eqn:Et;
    [destruct (_ <? _); [|done]|]; intros [= <-]; split; simpl; try done.
  - rewrite Hs, wrap_add, total_size_app. simpl. f_equal. lia.
  - rewrite Hi, wrap_add, total_incoming_app. simpl. rewrite Et. f_equal.
  - rewrite Hs, wrap_add, total_size_app. simpl. f_equal. lia.
  - rewrite Hi, total_incoming_app. simpl. rewrite Et. f_equal. lia.
Qed.

Lemma insert_added_ok (u : unapplied_transaction_queue) (t : unapplied_transaction) :
  is_incoming (trx_type t) = false -> snd (insert_added u t) = Ok tt.
Proof.
  intros Ht. unfold insert_added, added. destruct (find_trx _ _); [done|]. simpl. by rewrite Ht.
Qed.

Lemma add_all_inv (ty : trx_enum_type) (u : unapplied_transaction_queue)
    (trxs : list transaction_metadata) :
  is_incoming ty = false -> queue_inv u -> queue_inv (add_all ty u trxs).
Proof.
  intros Hty. revert u. induction trxs as [|trx trxs IH]; intros u Hu; simpl; [done|].
  apply IH. pose proof (insert_added_ok u (fresh_trx trx ty None) Hty) as Hok.
  destruct (insert_added u _) as [u1 r] eqn:E. simpl in *. subst r. by eapply insert_added_inv.
Qed.

Lemma clear_applied_one_inv (u : unapplied_transaction_queue) (id : digest) :
  queue_inv u -> queue_inv (fst (clear_applied_one u id)).
Proof.
  intros Hu. unfold clear_applied_one. destruct (find_trx (queue u) id) as [t|] eqn:E; [|done].
  apply find_trx_Some in E as [Hin <-]. simpl. destruct (is_persisted _); simpl; [|by apply erase_inv].
  destruct (next t); [|done]. unfold with_queue. apply modify_inv; try done. simpl.
  rewrite Z.add_simpl_r. destruct Hu as [_ _ ->]. by rewrite wrap_idem.
Qed.

(** The operations of the queue. *)
Inductive queue_op :=
  | Q_forked (branch : list (list transaction_metadata))
  | Q_aborted (trxs : list transaction_metadata)
  | Q_persisted (trx : transaction_metadata)
  | Q_incoming (trx : transaction_metadata) (persist : bool) (n : option Z)
  | Q_erase (t : unapplied_transaction)
  | Q_clear_expired (now : nat -> Z) (pending_block_time deadline : Z)
  | Q_clear_applied (ids : list digest)
  | Q_set_max (v : Z).

Definition run_queue_op (u : unapplied_transaction_queue) (o : queue_op) :
    unapplied_transaction_queue * result unit :=
  match o with
  | Q_forked b => (add_forked u b, Ok tt)
  | Q_aborted l => (add_aborted u l, Ok tt)
  | Q_persisted trx => add_persisted u trx
  | Q_incoming trx p n => add_incoming u trx p n
  | Q_erase t => (erase u t, Ok tt)
  | Q_clear_expired now pbt dl =>
      let '(u, _, r) := clear_expired u now pbt dl in (u, _ ← r; Ok tt)
  | Q_clear_applied ids => (fst (clear_applied u ids), Ok tt)
  | Q_set_max v => (set_max_transaction_queue_size u v, Ok tt)
  end.

Lemma first_to_expire_spec (q : list unapplied_transaction) (t : unapplied_transaction) :
  first_to_expire q = Some t -> t ∈ q /\ Forall (fun x => expiry t <= expiry x) q.
Proof.
  revert t. induction q as [|x q IH]; intros t; simpl; [done|].
  destruct (first_to_expire q) as [y|] eqn:E.
  - destruct (IH y eq_refl) as [Hy Hall]. destruct (Z.ltb_spec (expiry y) (expiry x)); intros [= <-].
    + split; [by constructor|]. constructor; [lia|done].
    + split; [constructor|]. constructor; [lia|]. eapply Forall_impl; [exact Hall|]. simpl. lia.
  - intros [= <-]. split; [constructor|]. constructor; [lia|].
    destruct q as [|z q]; [constructor|]. simpl in E. by repeat case_match.
Qed.

Lemma clear_expired_loop_inv (fuel : nat) (now : nat -> Z) (k : nat) (pbt dl : Z)
    (u : unapplied_transaction_queue) :
  queue_inv u -> queue_inv (fst (fst (clear_expired_loop fuel now k pbt dl u))).
Proof.
  revert k u. induction fuel as [|fuel IH]; intros k u Hu; simpl;
    destruct (first_to_expire (queue u)) as [t|] eqn:E; try done;
    destruct (_ <? _); try done; destruct (_ <=? _); try done.
  apply first_to_expire_spec in E as [Hin _].
  specialize (IH (S k) (erase u t) (erase_inv u t Hu Hin)). by destruct (clear_expired_loop _ _ _ _ _ _) as [[]].
Qed.

Lemma add_persisted_inv (u u' : unapplied_transaction_queue) (trx : transaction_metadata) :
  queue_inv u -> add_persisted u trx = (u', Ok tt) -> queue_inv u'.
Proof.
  intros Hu. unfold add_persisted. destruct (find_trx _ _) as [t|] eqn:E; [|by apply insert_added_inv].
  apply find_trx_Some in E as [Hin Hid]. rewrite <- Hid.
  destruct (trx_type t) eqn:Et; intros [= <-]; try done; (apply modify_inv; try done);
    simpl; rewrite Et; simpl; rewrite ?Z.add_0_r, ?Z.sub_0_r; try done;
    destruct Hu as [_ _ ->]; by rewrite wrap_idem.
Qed.

Lemma add_incoming_inv (u u' : unapplied_transaction_queue) (trx : transaction_metadata) (b : bool)
    (n : option Z) :
  queue_inv u -> add_incoming u trx b n = (u', Ok tt) -> queue_inv u'.
Proof.
  intros Hu. unfold add_incoming. destruct (find_trx _ _) as [t|] eqn:E; [|by apply insert_added_inv].
  apply find_trx_Some in E as [Hin Hid]. rewrite <- Hid. intros [= <-]. apply modify_inv; try done.
  simpl. destruct b; simpl; (destruct (is_incoming (trx_type t)); [|by rewrite Z.sub_0_r]);
    rewrite Z.add_simpl_r; destruct Hu as [_ _ ->];
    by rewrite wrap_idem.
Qed.

(** Every operation of the queue that does not throw keeps the accounting:
    identifiers stay unique, and the byte and incoming counters are the sums
    over the transactions in the queue. *)
Theorem queue_accounting (u u' : unapplied_transaction_queue) (o : queue_op) :
  queue_inv u -> (forall t, o = Q_erase t -> t ∈ queue u) ->
  run_queue_op u o = (u', Ok tt) -> queue_inv u'.
Proof.
  intros Hu He E. destruct o as [b|l|trx|trx p n|t|now pbt dl|ids|v]; simpl in E.
  - injection E as <-. unfold add_forked. revert u Hu He. induction (rev b) as [|x l IH]; intros u Hu He; simpl; [done|].
    apply IH; [by apply add_all_inv | done].
  - injection E as <-. by apply add_all_inv.
  - by eapply add_persisted_inv.
  - by eapply add_incoming_inv.
  - injection E as <-. apply erase_inv; auto.
  - unfold clear_expired in E. pose proof (clear_expired_loop_inv (length (queue u)) now 0 pbt dl u Hu) as Hi.
    destruct (clear_expired_loop _ _ _ _ _ _) as [[u1 ev] r]. simpl in *. by destruct r; simplify_eq.
  - injection E as <-. unfold clear_applied. destruct (queue u) eqn:Eq; [done|]. clear He Eq. revert u Hu.
    induction ids as [|id ids IH]; intros u Hu; simpl; [done|].
    pose proof (clear_applied_one_inv u id Hu) as H1. destruct (clear_applied_one u id) as [u1 e1].
    specialize (IH u1 H1). by destruct (clear_applied_loop u1 ids).
  - injection E as <-. by destruct Hu.
Qed.

(** ** Expired transactions *)

(** The transactions a caller was told to have expired, in order. *)
Definition reported (evs : list event) : list (digest * trx_enum_type) :=
  omap (fun e => match e with expired_callback id ty => Some (id, ty) | _ => None end) evs.

Lemma erase_queue (u : unapplied_transaction_queue) (t : unapplied_transaction) :
  NoDup (map unapplied_id (queue u)) -> t ∈ queue u ->
  queue u ≡ₚ t :: queue (erase u t) /\ NoDup (map unapplied_id (queue (erase u t))).
Proof.
  intros ND Hin. destruct (queue_split _ _ ND Hin) as (q1 & q2 & Hq & He & _). simpl. rewrite He.
  assert (HP : queue u ≡ₚ t :: q1 ++ q2) by (rewrite Hq; symmetry; apply Permutation_middle).
  split; [done|]. rewrite HP in ND. simpl in ND. by inversion ND.
Qed.

Lemma clear_expired_loop_spec (fuel : nat) (now : nat -> Z) (k : nat) (pbt dl : Z)
    (u : unapplied_transaction_queue) :
  NoDup (map unapplied_id (queue u)) -> (length (queue u) <= fuel)%nat ->
  exists u' evs b gone, clear_expired_loop fuel now k pbt dl u = (u', evs, Ok b) /\
    queue u ≡ₚ gone ++ queue u' /\
    Forall (fun t => expiry t <= pbt) gone /\
    reported evs = map (fun t => (unapplied_id t, trx_type t)) gone /\
    (b = true -> Forall (fun t => pbt < expiry t) (queue u')) /\
    ((forall k, now k < dl) -> b = true).
Proof.
  revert k u. induction fuel as [|fuel IH]; intros k u ND Hf; simpl;
    destruct (first_to_expire (queue u)) as [t|] eqn:E.
  - apply first_to_expire_spec in E as [Hin _]. destruct (queue u); [by apply elem_of_nil in Hin | simpl in Hf; lia].
  - exists u, [], true, []. split_and!; try done. intros _.
    destruct (queue u) as [|x q]; [constructor|]. simpl in E. by repeat case_match.
  - apply first_to_expire_spec in E as [Hin Hmin].
    destruct (Z.ltb_spec pbt (expiry t)) as [Hlt|Hge].
    + exists u, [], true, []. split_and!; try done. intros _.
      eapply Forall_impl; [exact Hmin|]. simpl. lia.
    + destruct (Z.leb_spec dl (now k)) as [Hd|Hd].
      * exists u, [], false, []. split_and!; try done. intros Hk. specialize (Hk k). lia.
      * destruct (erase_queue u t ND Hin) as [HP ND'].
        destruct (IH (S k) (erase u t)) as (u' & evs & b & gone & -> & HP' & HF & HR & Hb & Hk); [done| |].
        { apply Permutation_length in HP. simpl in HP, Hf |- *. lia. }
        exists u', (expired_callback (unapplied_id t) (trx_type t) ::
          match next t with Some f => [expired_next f] | None => [] end ++ evs), b, (t :: gone).
        split; [done|]. split; [by rewrite HP, HP'|]. split; [by constructor|]. split; [|done].
        simpl. rewrite <- HR. by destruct (next t).
  - exists u, [], true, []. split_and!; try done. intros _.
    destruct (queue u) as [|x q]; [constructor|]. simpl in E. by repeat case_match.
Qed.

(** [clear_expired] ends; it takes out only transactions that have expired,
    reports each of them once, and keeps all others; when it returns true
    nothing that has expired is left, and it does so if the clock stays before
    the deadline. *)
Theorem clear_expired_spec (u : unapplied_transaction_queue) (now : nat -> Z) (pbt dl : Z) :
  queue_inv u ->
  exists u' evs b gone, clear_expired u now pbt dl = (u', evs, Ok b) /\
    queue u ≡ₚ gone ++ queue u' /\
    Forall (fun t => expiry t <= pbt) gone /\
    reported evs = map (fun t => (unapplied_id t, trx_type t)) gone /\
    (b = true -> Forall (fun t => pbt < expiry t) (queue u')) /\
    ((forall k, now k < dl) -> b = true).
Proof. intros [ND _ _]. by apply clear_expired_loop_spec. Qed.
End queue.

(** ** Samples and what goes wrong *)
Definition sample_trx (n : Z) : transaction_metadata := mk_trx (mk_digest n 0 0 0) (1000 + n) 500.
Definition sample_queue : unapplied_transaction_queue := mk_queue [] 1000 0 0.

Lemma sample_queue_inv : queue_inv 100 sample_queue.
Proof. split; [constructor | done | done]. Qed.

Lemma queue_accounting_witness :
  exists u', run_queue_op 100 sample_queue (Q_incoming (sample_trx 1) false (Some 7)) = (u', Ok tt) /\
    queue_inv 100 u'.
Proof.
  eexists. split; [reflexivity|].
  apply (queue_accounting 100 sample_queue _ (Q_incoming (sample_trx 1) false (Some 7)));
    [apply sample_queue_inv | done | reflexivity].
Defined.

Lemma clear_expired_spec_witness :
  exists u' evs b, clear_expired 100 (add_aborted 100 sample_queue [sample_trx 1; sample_trx 2])
    (fun _ => 5) 1001 10 = (u', evs, Ok b) /\ (b = true -> Forall (fun t => 1001 < expiry t) (queue u')).
Proof.
  destruct (clear_expired_spec 100 (add_aborted 100 sample_queue [sample_trx 1; sample_trx 2])
    (fun _ => 5) 1001 10) as (u' & evs & b & gone & E & _ & _ & _ & Hb & _).
  - split; [|vm_compute; reflexivity|vm_compute; reflexivity].
    apply NoDup_cons. split; [|apply NoDup_singleton]. intros E%list_elem_of_singleton. discriminate E.
  - by exists u', evs, b.
Defined.

(** A transaction that is refused because the queue is full is nevertheless in
    the queue and counted as incoming, while its bytes are not counted; when it
    is erased later, the byte counter wraps around below zero. *)
Theorem refused_transaction_stays_queued :
  exists u1 u2 t,
    add_incoming 100 sample_queue (sample_trx 1) false None = (u1, Ok tt) /\
    add_incoming 100 u1 (sample_trx 2) false None = (u2, Throw tx_resource_exhaustion) /\
    queue u2 = queue u1 ++ [t] /\ incoming_count u2 = 2 /\ size_in_bytes u2 = 600 /\
    size_in_bytes (fold_left (erase 100) (queue u2) u2) = 2 ^ 64 - 600.
Proof.
  set (u1 := fst (add_incoming 100 sample_queue (sample_trx 1) false None)).
  exists u1, (fst (add_incoming 100 u1 (sample_trx 2) false None)), (fresh_trx (sample_trx 2) incoming None).
  split_and!; vm_compute; reflexivity.
Qed.

(** [clear] empties the queue but keeps both counters, so that afterwards they
    no longer describe the queue. *)
Theorem clear_breaks_accounting :
  exists u, queue_inv 100 u /\ queue (clear u) = [] /\ ~ queue_inv 100 (clear u).
Proof.
  exists (fst (add_incoming 100 sample_queue (sample_trx 1) false None)).
  split; [split; [apply NoDup_singleton | reflexivity | reflexivity]|].
  split; [done|]. intros [_ Hs _]. vm_compute in Hs. discriminate Hs.
Qed.
