(* ===== verification/AuthorityChecker.v ===== *)
(** * The authority checker

    Whether a set of keys, permissions and a delay satisfies an authority
    (libraries/chain/include/dcd/chain/authority_checker.hpp). The function that
    looks an authority up is a parameter, as it is of the C++ template; the
    members of the checker that do not change during a check are the record
    [checker], the others and the permission cache are its [state]. *)

From S2P Require Import Prelude Types Authority.

Inductive permission_cache_status := being_evaluated | permission_unsatisfied | permission_satisfied.

Record checker := mk_checker {
  permission_to_authority : permission_level -> result authority;
  recursion_depth_limit : nat;
  provided_keys : list public_key;
  provided_permissions : gset permission_level;
  provided_delay : Z
}.

Record state := mk_state {
  _used_keys : list bool;
  cached_permissions : gmap permission_level permission_cache_status
}.

(** The entries of an authority, as the map of the checker mixes them. *)
Inductive meta_permission :=
  | meta_account (p : permission_level_weight)
  | meta_key (k : key_weight)
  | meta_wait (w : wait_weight).

Definition meta_weight (m : meta_permission) : Z :=
  match m with
  | meta_account p => plw_weight p
  | meta_key k => kw_weight k
  | meta_wait w => ww_weight w
  end.
Definition meta_priority (m : meta_permission) : Z :=
  match m with meta_account _ => 1 | meta_key _ => 2 | meta_wait _ => 3 end.

(** [std::greater] on the pair of weight and priority *)
Definition meta_greater (a b : meta_permission) : bool :=
  (meta_weight b <? meta_weight a) ||
  ((meta_weight b =? meta_weight a) && (meta_priority b <? meta_priority a)).

(** [flat_multimap::emplace]: behind the elements with an equal key *)
Fixpoint meta_emplace (m : meta_permission) (l : list meta_permission) : list meta_permission :=
  match l with
  | [] => [m]
  | x :: l => if meta_greater m x then m :: x :: l else x :: meta_emplace m l
  end.

Definition metas (a : authority) : list meta_permission :=
  map meta_account (accounts a) ++ map meta_key (keys a) ++ map meta_wait (waits a).

Definition meta_permission_map (a : authority) : list meta_permission :=
  foldl (fun l m => meta_emplace m l) [] (metas a).

Definition permission_status_in_cache
    (permissions : gmap permission_level permission_cache_status) (level : permission_level) :
    option permission_cache_status :=
  match permissions !! level with
  | Some s => Some s
  | None => permissions !! mk_level (actor level) 0
  end.

(** The position of a key among the provided ones. *)
Fixpoint key_index (k : public_key) (l : list public_key) : option nat :=
  match l with
  | [] => None
  | x :: l => if bool_decide (x = k) then Some 0%nat
              else match key_index k l with Some i => Some (S i) | None => None end
  end.

Section checker.
Context (c : checker).

(** [weight_tally_visitor::operator()]: the new total weight and state. [check]
    evaluates an authority one level deeper. *)
Definition visit (check : authority -> state -> result (bool * state)) (depth : nat)
    (m : meta_permission) (total_weight : Z) (st : state) : result (Z * state) :=
  match m with
  | meta_wait w =>
      Ok (if ww_wait_sec w * 1000000 <=? provided_delay c
          then u32 (total_weight + ww_weight w) else total_weight, st)
  | meta_key k =>
      match key_index (kw_key k) (provided_keys c) with
      | Some i => Ok (u32 (total_weight + kw_weight k),
                      mk_state (<[i := true]> (_used_keys st)) (cached_permissions st))
      | None => Ok (total_weight, st)
      end
  | meta_account p =>
      match permission_status_in_cache (cached_permissions st) (plw_permission p) with
      | None =>
          if (depth <? recursion_depth_limit c)%nat then
            match permission_to_authority c (plw_permission p) with
            | Throw permission_query_exception => Ok (total_weight, st)
            | Throw e => Throw e
            | Ok auth =>
                let st := mk_state (_used_keys st)
                            (<[plw_permission p := being_evaluated]> (cached_permissions st)) in
                '(r, st) ← check auth st;
                let status := if r : bool then permission_satisfied else permission_unsatisfied in
                Ok (if r then u32 (total_weight + plw_weight p) else total_weight,
                    mk_state (_used_keys st) (<[plw_permission p := status]> (cached_permissions st)))
            end
          else Ok (total_weight, st)
      | Some permission_satisfied => Ok (u32 (total_weight + plw_weight p), st)
      | Some _ => Ok (total_weight, st)
      end
  end.

(** The loop over the meta permissions; [saved] is what the key reverter puts
    back when the threshold is not reached. *)
Fixpoint tally_loop (check : authority -> state -> result (bool * state)) (depth : nat)
    (threshold : Z) (saved : list bool) (perms : list meta_permission) (total_weight : Z) (st : state) :
    result (bool * state) :=
  match perms with
  | [] => Ok (false, mk_state saved (cached_permissions st))
  | m :: perms =>
      '(total_weight, st) ← visit check depth m total_weight st;
      if threshold <=? total_weight then Ok (true, st)
      else tally_loop check depth threshold saved perms total_weight st
  end.

(** The private [satisfied]: the fuel bounds the depth of the recursion. *)
Fixpoint satisfied_at (fuel depth : nat) (auth : authority) (st : state) : result (bool * state) :=
  match fuel with
  | O => Throw nontermination
  | S fuel =>
      tally_loop (satisfied_at fuel (S depth)) depth (threshold auth) (_used_keys st)
        (meta_permission_map auth) 0 st
  end.

(** One more than the limit: the authority at the limit is still evaluated. *)
Definition fuel : nat := S (recursion_depth_limit c).

Definition initialize_permission_cache : gmap permission_level permission_cache_status :=
  gset_to_gmap permission_satisfied (provided_permissions c).

(** The checker as it is constructed, with the cache of the first call. *)
Definition init_state : state :=
  mk_state (replicate (length (provided_keys c)) false) initialize_permission_cache.

(** [satisfied( authority )] and [satisfied( permission_level )] on a fresh cache;
    the keys used so far are kept. *)
Definition satisfied_authority (auth : authority) (used : list bool) : result (bool * state) :=
  satisfied_at fuel 0 auth (mk_state used initialize_permission_cache).

Definition satisfied (p : permission_level) (used : list bool) : result (bool * state) :=
  '(w, st) ← visit (satisfied_at fuel 1) 0 (meta_account (mk_plw p 1)) 0
               (mk_state used initialize_permission_cache);
  Ok (0 <? w, st).

(** The overloads with a delay of their own, which they put in place of the provided
    one for the duration of the call. *)
Definition with_delay (delay : Z) : checker :=
  mk_checker (permission_to_authority c) (recursion_depth_limit c) (provided_keys c)
    (provided_permissions c) delay.

Definition all_keys_used (used : list bool) : bool := forallb (fun b => b) used.

(** [filter_data_by_marker] *)
Definition used_keys (used : list bool) : list public_key :=
  map fst (filter (fun kb => snd kb = true) (zip (provided_keys c) used)).
Definition unused_keys (used : list bool) : list public_key :=
  map fst (filter (fun kb => snd kb = false) (zip (provided_keys c) used)).

(** ** What it means to satisfy an authority *)
Inductive meta_sat : meta_permission -> Prop :=
  | ms_key k : kw_key k ∈ provided_keys c -> meta_sat (meta_key k)
  | ms_wait w : ww_wait_sec w * 1000000 <= provided_delay c -> meta_sat (meta_wait w)
  | ms_account p : level_sat (plw_permission p) -> meta_sat (meta_account p)
with level_sat : permission_level -> Prop :=
  | ls_provided l : l ∈ provided_permissions c -> level_sat l
  | ls_any l : level_sat (mk_level (actor l) 0) -> level_sat l
  | ls_authority l a : permission_to_authority c l = Ok a -> auth_sat a -> level_sat l
with auth_sat : authority -> Prop :=
  | as_weights a counted : counted ⊆+ metas a -> Forall meta_sat counted ->
      threshold a <= weights_sum meta_weight counted -> auth_sat a.

(** ** The map is the authority *)
Lemma meta_emplace_perm (m : meta_permission) (l : list meta_permission) :
  meta_emplace m l ≡ₚ m :: l.
Proof.
  induction l as [|x l IH]; simpl; [done|]. destruct (meta_greater m x); [done|].
  rewrite IH. apply Permutation_swap.
Qed.

Lemma meta_permission_map_perm (a : authority) : meta_permission_map a ≡ₚ metas a.
Proof.
  unfold meta_permission_map. rewrite <- (app_nil_l (metas a)) at 2. generalize (@nil meta_permission) as acc.
  induction (metas a) as [|m l IH]; intros acc; simpl; [by rewrite app_nil_r|].
  rewrite IH, meta_emplace_perm. simpl. by rewrite Permutation_middle.
Qed.

Lemma key_index_Some (k : public_key) (l : list public_key) (i : nat) :
  key_index k l = Some i -> l !! i = Some k.
Proof.
  revert i. induction l as [|x l IH]; intros i; simpl; [done|]. case_bool_decide; [by intros [= <-]; subst|].
  destruct (key_index k l) as [j|] eqn:E; [|done]. intros [= <-]. simpl. by apply IH.
Qed.

Lemma key_index_None (k : public_key) (l : list public_key) : key_index k l = None -> k ∉ l.
Proof.
  induction l as [|x l IH]; simpl; [by intros _ ?%elem_of_nil|]. case_bool_decide; [done|].
  destruct (key_index k l); [done|]. intros _ [?| ?]%elem_of_cons; [congruence|by apply IH].
Qed.

(** ** The cache and the keys *)

(** What the cache may claim. *)
Definition cache_ok (cache : gmap permission_level permission_cache_status) : Prop :=
  forall l, cache !! l = Some permission_satisfied -> level_sat l.

(** More keys are marked. *)
Definition used_more (used used' : list bool) : Prop :=
  length used' = length used /\ forall i, used !! i = Some true -> used' !! i = Some true.

#[local] Instance used_more_preorder : PreOrder used_more.
Proof.
  split; [by split|]. intros x y z [Hl1 H1] [Hl2 H2]. split; [congruence|]. auto.
Qed.

(** ** Weights *)

(** The widths of the fields. *)
Definition auth_fits (a : authority) : Prop := Forall (fun m => fits 16 (meta_weight m)) (metas a).

(** One visit adds the weight of a satisfied entry, or nothing. *)
Definition counts (m : meta_permission) (total_weight total_weight' : Z) : Prop :=
  meta_sat m /\ total_weight' = u32 (total_weight + meta_weight m) \/ total_weight' = total_weight.

Lemma counts_bound (m : meta_permission) (t t' : Z) :
  fits 16 (meta_weight m) -> 0 <= t -> counts m t t' ->
  0 <= t' /\ (t' <= t \/ meta_sat m /\ t' <= t + meta_weight m).
Proof.
  intros Hf Ht [[Hm ->]| ->]; [|lia]. unfold fits, wrap in *.
  assert (0 <= t + meta_weight m) by lia.
  pose proof (Z.mod_pos_bound (t + meta_weight m) (2 ^ 32)).
  pose proof (Z.mod_le (t + meta_weight m) (2 ^ 32)). split; [lia|]. right. split; [done|lia].
Qed.

(** ** Totality, soundness and the keys *)

(** What one evaluation of an authority promises to its caller. *)
Definition check_ok (check : authority -> state -> result (bool * state)) : Prop :=
  forall auth st, auth_fits auth -> cache_ok (cached_permissions st) ->
  (exists e, check auth st = Throw e /\ e <> nontermination) \/
  (exists r st', check auth st = Ok (r, st') /\ cache_ok (cached_permissions st') /\
     used_more (_used_keys st) (_used_keys st') /\
     (r = true -> auth_sat auth) /\ (r = false -> _used_keys st' = _used_keys st)).

Definition lookup_ok : Prop :=
  forall l, match permission_to_authority c l with
            | Ok a => auth_fits a
            | Throw e => e <> nontermination
            end.

Lemma cache_ok_insert (cache : gmap permission_level permission_cache_status) (l : permission_level)
    (s : permission_cache_status) :
  cache_ok cache -> (s = permission_satisfied -> level_sat l) -> cache_ok (<[l := s]> cache).
Proof.
  intros Hc Hs l' [[<- E]|[_ E]]%lookup_insert_Some; [by apply Hs|by apply Hc].
Qed.

Lemma status_sat (cache : gmap permission_level permission_cache_status) (l : permission_level) :
  cache_ok cache -> permission_status_in_cache cache l = Some permission_satisfied -> level_sat l.
Proof.
  unfold permission_status_in_cache. intros Hc.
  destruct (cache !! l) eqn:E; [intros [= ->]; by apply Hc|]. intros E'. by apply ls_any, Hc.
Qed.

Lemma used_more_insert (used : list bool) (i : nat) : used_more used (<[i := true]> used).
Proof.
  split; [apply length_insert|]. intros j Hj. destruct (decide (i = j)) as [<-|].
  - apply list_lookup_insert_eq. by eapply lookup_lt_Some.
  - by rewrite list_lookup_insert_ne.
Qed.

Lemma visit_ok (check : authority -> state -> result (bool * state)) (depth : nat)
    (m : meta_permission) (t : Z) (st : state) :
  lookup_ok -> ((depth < recursion_depth_limit c)%nat -> check_ok check) ->
  cache_ok (cached_permissions st) ->
  (exists e, visit check depth m t st = Throw e /\ e <> nontermination) \/
  (exists t' st', visit check depth m t st = Ok (t', st') /\ cache_ok (cached_permissions st') /\
     used_more (_used_keys st) (_used_keys st') /\ counts m t t').
Proof.
  intros HL HC Hc. destruct m as [p|k|w]; simpl.
  - destruct (permission_status_in_cache _ _) as [s|] eqn:Es.
    + right. destruct s; eexists _, st; (split; [reflexivity|]); (split; [done|]); (split; [done|]);
        [by right|by right|]. left. split; [by eapply ms_account, status_sat|done].
    + destruct (Nat.ltb_spec depth (recursion_depth_limit c)) as [Hd|_]; [|right; exists t, st; by repeat (split; [done|]); right].
      pose proof (HL (plw_permission p)) as HLp.
      destruct (permission_to_authority c (plw_permission p)) as [a|e] eqn:Ea.
      * destruct (HC Hd a (mk_state (_used_keys st) (<[plw_permission p := being_evaluated]> (cached_permissions st))))
          as [(e & -> & He)|(r & st' & -> & Hc' & Hu & Ht & _)];
          [done|by apply cache_ok_insert|left; by eexists|right]. simpl.
        eexists _, _; split; [reflexivity|]. split; [|split; [done|]]; destruct r; simpl.
        -- apply cache_ok_insert; [done|]. intros _. eapply ls_authority; eauto.
        -- by apply cache_ok_insert.
        -- left. split; [|done]. apply ms_account. eapply ls_authority; eauto.
        -- by right.
      * destruct e; first [left; eexists; split; [reflexivity|done] | right; exists t, st; by repeat (split; [done|]); right].
  - right. destruct (key_index _ _) as [i|] eqn:E; eexists _, _; (split; [reflexivity|]); simpl;
      (split; [done|]); split; [apply used_more_insert| |done|by right].
    left. split; [|done]. apply ms_key. apply key_index_Some in E. by eapply list_elem_of_lookup_2.
  - right. eexists _, st; split; [reflexivity|]. split; [done|]. split; [done|].
    destruct (Z.leb_spec (ww_wait_sec w * 1000000) (provided_delay c)); [left|by right].
    split; [by apply ms_wait|done].
Qed.

Lemma tally_loop_ok (check : authority -> state -> result (bool * state)) (depth : nat)
    (th : Z) (saved : list bool) (perms : list meta_permission) (t : Z) (st : state) :
  lookup_ok -> ((depth < recursion_depth_limit c)%nat -> check_ok check) ->
  cache_ok (cached_permissions st) -> used_more saved (_used_keys st) ->
  Forall (fun m => fits 16 (meta_weight m)) perms -> 0 <= t ->
  (exists e, tally_loop check depth th saved perms t st = Throw e /\ e <> nontermination) \/
  (exists r st', tally_loop check depth th saved perms t st = Ok (r, st') /\
     cache_ok (cached_permissions st') /\ used_more saved (_used_keys st') /\
     (r = false -> _used_keys st' = saved) /\
     (r = true -> exists counted, counted ⊆+ perms /\ Forall meta_sat counted /\
                    th <= t + weights_sum meta_weight counted)).
Proof.
  intros HL HC. revert t st. induction perms as [|m perms IH]; intros t st Hc Hu Hf Ht; simpl.
  { right. eexists _, _; split; [reflexivity|]. by split. }
  apply Forall_cons in Hf as [Hm Hf].
  destruct (visit_ok check depth m t st HL HC Hc) as [(e & -> & He)|(t' & st1 & -> & Hc1 & Hu1 & Hcnt)];
    [left; by eexists|simpl].
  pose proof (counts_bound m t t' Hm Ht Hcnt) as [Ht' Hle].
  assert (Hadd : forall counted, counted ⊆+ perms -> Forall meta_sat counted ->
            th <= t' + weights_sum meta_weight counted ->
            exists counted', counted' ⊆+ m :: perms /\ Forall meta_sat counted' /\
              th <= t + weights_sum meta_weight counted').
  { intros k Hk Hs Hth. destruct Hle as [Hle|[Hms Hle]].
    - exists k. split; [by apply submseteq_cons|]. split; [done|lia].
    - exists (m :: k). split; [by apply submseteq_skip|]. split; [by constructor|simpl; lia]. }
  destruct (Z.leb_spec th t') as [Hth|Hth].
  - right. eexists true, st1. split; [done|]. split; [done|]. split; [by transitivity (_used_keys st)|].
    split; [done|]. intros _. apply (Hadd []); [apply submseteq_nil_l|constructor|simpl; lia].
  - destruct (IH t' st1) as [(e & -> & He)|(r & st' & -> & H1 & H2 & H3 & H4)]; auto.
    { by transitivity (_used_keys st). }
    { left. by eexists. }
    right. exists r, st'. repeat (split; [done|]). intros Hr. destruct (H4 Hr) as (k & ? & ? & ?). by apply (Hadd k).
Qed.

#[local] Instance weights_sum_proper : Proper ((≡ₚ) ==> (=)) (weights_sum meta_weight).
Proof. induction 1; simpl; lia. Qed.

Lemma satisfied_at_ok (n depth : nat) :
  lookup_ok -> (recursion_depth_limit c < n + depth)%nat -> (0 < n)%nat -> check_ok (satisfied_at n depth).
Proof.
  intros HL. revert depth. induction n as [|n IH]; intros depth Hd Hn; [lia|]. intros auth st Hf Hc. simpl.
  destruct (tally_loop_ok (satisfied_at n (S depth)) depth (threshold auth) (_used_keys st)
              (meta_permission_map auth) 0 st HL) as [H|(r & st' & -> & H1 & H2 & H3 & H4)]; auto.
  - intros Hlt. apply IH; lia.
  - done.
  - unfold auth_fits in Hf. by rewrite meta_permission_map_perm.
  - lia.
  - right. exists r, st'. repeat (split; [done|]). split; [|done]. intros Hr.
    destruct (H4 Hr) as (k & Hk & Hs & Hth). apply (as_weights auth k); [|done|lia].
    by rewrite <- meta_permission_map_perm.
Qed.

Lemma initial_cache_ok : cache_ok initialize_permission_cache.
Proof.
  intros l [Hl _]%lookup_gset_to_gmap_Some. by apply ls_provided.
Qed.

Lemma satisfied_sound (l : permission_level) (used : list bool) (st : state) :
  lookup_ok -> satisfied l used = Ok (true, st) -> level_sat l /\ used_more used (_used_keys st).
Proof.
  intros HL. unfold satisfied.
  destruct (visit_ok (satisfied_at fuel 1) 0 (meta_account (mk_plw l 1)) 0
              (mk_state used initialize_permission_cache) HL) as [(e & -> & _)|(t & st' & -> & _ & Hu & Hc)];
    [|apply initial_cache_ok|done|].
  { intros Hlt. apply satisfied_at_ok; [done|unfold fuel; lia..]. }
  simpl. intros [= Ht <-]. split; [|done]. apply Z.ltb_lt in Ht.
  destruct Hc as [[Hs _]| ->]; [by inversion Hs|lia].
Qed.

(** ** Exactness on permissions that do not refer to each other in a cycle *)
Context (rank : permission_level -> nat).

(** What [validate] ensures of the authorities that are stored. *)
Definition auth_wf (a : authority) : Prop :=
  auth_fits a /\ weights_sum meta_weight (metas a) < 2 ^ 32 /\ 0 < threshold a.

(** The levels that name no permission. *)
Definition level_empty (l : permission_level) : Prop := actor l = 0 \/ permission l = 0.

(** An entry that refers to a permission refers to one of rank below [bound]. *)
Definition below (bound : nat) (m : meta_permission) : Prop :=
  match m with
  | meta_account p => (rank (plw_permission p) < bound)%nat /\ ~ level_empty (plw_permission p)
  | _ => True
  end.

(** The lookup of a level that may name a permission fails only with the exception
    for permissions that do not exist; an authority refers to permissions of a
    smaller rank only. *)
Definition lookup_acyclic : Prop :=
  forall l, match permission_to_authority c l with
            | Ok a => auth_wf a /\ permission l <> 0 /\ Forall (below (rank l)) (metas a)
            | Throw e => e <> nontermination /\ (e = permission_query_exception \/ level_empty l)
            end.

(** The cache is right; what is being evaluated is in [B]. *)
Definition cache_exact (B : permission_level -> Prop)
    (cache : gmap permission_level permission_cache_status) : Prop :=
  (forall l, l ∈ provided_permissions c -> cache !! l = Some permission_satisfied) /\
  forall l s, cache !! l = Some s ->
    match s with
    | permission_satisfied => level_sat l
    | permission_unsatisfied => ~ level_sat l /\ permission l <> 0
    | being_evaluated => B l /\ permission l <> 0
    end.

Definition check_exact (bound : nat) (check : authority -> state -> result (bool * state)) : Prop :=
  forall auth st (B : permission_level -> Prop), auth_wf auth -> Forall (below bound) (metas auth) ->
  (forall l, B l -> (bound <= rank l)%nat) -> cache_exact B (cached_permissions st) ->
  exists r st', check auth st = Ok (r, st') /\ cache_exact B (cached_permissions st') /\
    (r = true <-> auth_sat auth).

Definition counts_exact (m : meta_permission) (t t' : Z) : Prop :=
  meta_sat m /\ t' = u32 (t + meta_weight m) \/ ~ meta_sat m /\ t' = t.

(** Only a provided wildcard stands for all the permissions of an account. *)
Lemma wildcard_provided (l : permission_level) :
  lookup_acyclic -> level_sat l -> permission l = 0 -> l ∈ provided_permissions c.
Proof.
  intros HL. revert l. fix IH 2. intros l [l' Hl|l' Hl|l' a Ha _] H0; [done| |].
  - replace l' with (mk_level (actor l') 0) by (destruct l'; simpl in *; congruence). by apply IH.
  - pose proof (HL l') as H. rewrite Ha in H. by destruct H as (_ & H & _).
Qed.

Lemma status_exact (B : permission_level -> Prop) (cache : gmap permission_level permission_cache_status)
    (l : permission_level) (s : permission_cache_status) :
  lookup_acyclic -> cache_exact B cache -> permission_status_in_cache cache l = Some s ->
  match s with
  | permission_satisfied => level_sat l
  | permission_unsatisfied => ~ level_sat l
  | being_evaluated => B l
  end.
Proof.
  unfold permission_status_in_cache. intros HL [_ Hc].
  destruct (cache !! l) as [s'|] eqn:E; intros [= <-] || intros E'.
  - apply Hc in E. by destruct s' as [| |]; naive_solver.
  - apply Hc in E'. destruct s; simpl in E'; [naive_solver..|by apply ls_any].
Qed.

Lemma level_sat_uncached (B : permission_level -> Prop)
    (cache : gmap permission_level permission_cache_status) (l : permission_level) :
  lookup_acyclic -> cache_exact B cache -> permission_status_in_cache cache l = None ->
  level_sat l -> exists a, permission_to_authority c l = Ok a /\ auth_sat a.
Proof.
  unfold permission_status_in_cache. intros HL [Hp _] Hn Hs. destruct Hs as [l' Hl|l' Hl|l' a Ha Hs].
  - by rewrite (Hp _ Hl) in Hn.
  - apply wildcard_provided in Hl; [|done..]. destruct (cache !! l'); [done|]. by rewrite (Hp _ Hl) in Hn.
  - by exists a.
Qed.

Lemma cache_exact_evaluate (B : permission_level -> Prop)
    (cache : gmap permission_level permission_cache_status) (l : permission_level) :
  permission_status_in_cache cache l = None -> permission l <> 0 -> cache_exact B cache ->
  cache_exact (fun x => x = l \/ B x) (<[l := being_evaluated]> cache).
Proof.
  unfold permission_status_in_cache. intros Hn H0 [Hp Hc]. split.
  - intros x Hx. rewrite lookup_insert_ne; [by apply Hp|]. intros ->. by rewrite (Hp _ Hx) in Hn.
  - intros x s [[<- <-]|[_ E]]%lookup_insert_Some; [naive_solver|]. apply Hc in E. destruct s; naive_solver.
Qed.

Lemma cache_exact_settle (B : permission_level -> Prop)
    (cache : gmap permission_level permission_cache_status) (l : permission_level) (r : bool) :
  permission l <> 0 -> (r = true <-> level_sat l) -> cache_exact (fun x => x = l \/ B x) cache ->
  cache_exact B (<[l := if r then permission_satisfied else permission_unsatisfied]> cache).
Proof.
  intros H0 Hr [Hp Hc]. split.
  - intros x Hx. destruct (decide (l = x)) as [<-|]; [|rewrite lookup_insert_ne by done; by apply Hp].
    rewrite lookup_insert_eq. destruct r; [done|]. pose proof (ls_provided l Hx). naive_solver.
  - intros x s [[<- <-]|[Hne E]]%lookup_insert_Some.
    + destruct r; [by apply Hr|]. split; [|done]. intros ?%Hr. done.
    + apply Hc in E. destruct s; [|done..]. destruct E as [[->|?] ?]; [done|by split].
Qed.

Lemma visit_exact (check : authority -> state -> result (bool * state)) (depth bound : nat)
    (m : meta_permission) (t : Z) (st : state) (B : permission_level -> Prop) :
  lookup_acyclic -> (bound + depth <= recursion_depth_limit c)%nat -> below bound m ->
  (forall n, (n < bound)%nat -> check_exact n check) ->
  (forall l, B l -> (bound <= rank l)%nat) -> cache_exact B (cached_permissions st) ->
  exists t' st', visit check depth m t st = Ok (t', st') /\ cache_exact B (cached_permissions st') /\
    counts_exact m t t'.
Proof.
  intros HL Hd Hb HC HB Hc. destruct m as [p|k|w]; simpl in *; [destruct Hb as [Hb Hne]|..].
  - destruct (permission_status_in_cache _ _) as [s|] eqn:Es.
    + pose proof (status_exact B _ _ s HL Hc Es) as Hs.
      destruct s; eexists _, st; (split; [reflexivity|]); (split; [done|]).
      * apply HB in Hs. lia.
      * right. split; [|done]. inversion 1. done.
      * left. split; [by apply ms_account|done].
    + destruct (Nat.ltb_spec depth (recursion_depth_limit c)) as [_|?]; [|lia].
      pose proof (HL (plw_permission p)) as HLp.
      destruct (permission_to_authority c (plw_permission p)) as [a|e] eqn:Ea.
      * destruct HLp as (Hwf & H0 & Hr).
        destruct (HC _ Hb a (mk_state (_used_keys st) (<[plw_permission p := being_evaluated]> (cached_permissions st)))
                    (fun x => x = plw_permission p \/ B x)) as (r & st' & -> & Hc' & Hsat); [done|done| |by apply cache_exact_evaluate|].
        { intros l [->|?%HB]; lia. }
        assert (Hl : r = true <-> level_sat (plw_permission p)).
        { rewrite Hsat. split; [by apply ls_authority|]. intros H.
          destruct (level_sat_uncached B _ _ HL Hc Es H) as (a' & Ea' & ?). congruence. }
        eexists _, _; split; [reflexivity|]. split; [by apply cache_exact_settle|].
        destruct r; [left|right]; (split; [|done]).
        -- by apply ms_account, Hl.
        -- inversion 1 as [| |p' Hp']. subst. by apply Hl in Hp'.
      * destruct HLp as [_ [-> |?]]; [|done]. exists t, st. split; [done|]. split; [done|]. right. split; [|done].
        inversion 1 as [| |p' Hp']. subst.
        destruct (level_sat_uncached B _ _ HL Hc Es Hp') as (a' & Ea' & ?). congruence.
  - destruct (key_index _ _) as [i|] eqn:E; eexists _, _; (split; [reflexivity|]); simpl; (split; [done|]).
    + left. split; [|done]. apply ms_key. apply key_index_Some in E. by eapply list_elem_of_lookup_2.
    + right. split; [|done]. inversion 1 as [k' Hk| |]. subst. by apply key_index_None in E.
  - eexists _, st; split; [reflexivity|]. split; [done|].
    destruct (Z.leb_spec (ww_wait_sec w * 1000000) (provided_delay c)); [left|right]; (split; [|done]).
    + by apply ms_wait.
    + inversion 1. lia.
Qed.

Lemma weights_sum_nonneg (l : list meta_permission) :
  Forall (fun m => fits 16 (meta_weight m)) l -> 0 <= weights_sum meta_weight l.
Proof. induction 1 as [|m l [Hm _] _ IH]; simpl; lia. Qed.

Lemma tally_loop_exact (check : authority -> state -> result (bool * state)) (depth bound : nat)
    (th : Z) (saved : list bool) (perms : list meta_permission) (t : Z) (st : state)
    (B : permission_level -> Prop) :
  lookup_acyclic -> (bound + depth <= recursion_depth_limit c)%nat -> Forall (below bound) perms ->
  (forall n, (n < bound)%nat -> check_exact n check) ->
  (forall l, B l -> (bound <= rank l)%nat) -> cache_exact B (cached_permissions st) ->
  Forall (fun m => fits 16 (meta_weight m)) perms -> 0 <= t < th ->
  t + weights_sum meta_weight perms < 2 ^ 32 ->
  exists r st', tally_loop check depth th saved perms t st = Ok (r, st') /\
    cache_exact B (cached_permissions st') /\
    if r : bool then exists counted, counted ⊆+ perms /\ Forall meta_sat counted /\
                       th <= t + weights_sum meta_weight counted
    else forall counted, counted ⊆+ perms -> Forall meta_sat counted ->
           t + weights_sum meta_weight counted < th.
Proof.
  intros HL Hd Hb HC HB. revert t st.
  induction perms as [|m perms IH]; intros t st Hc Hf Ht Hsum; simpl.
  { eexists false, _; split; [reflexivity|]. split; [done|].
    intros k ->%submseteq_nil_r _. simpl. lia. }
  apply Forall_cons in Hf as [Hm Hf]. apply Forall_cons in Hb as [Hbm Hb]. specialize (IH Hb). simpl in Hsum.
  pose proof (weights_sum_nonneg _ Hf) as Hnn.
  destruct (visit_exact check depth bound m t st B HL Hd Hbm HC HB Hc) as (t' & st1 & -> & Hc1 & Hcnt); simpl.
  assert (Ht' : meta_sat m /\ t' = t + meta_weight m \/ ~ meta_sat m /\ t' = t).
  { destruct Hcnt as [[? ->]|[? ->]]; [left|by right]. split; [done|]. apply wrap_small.
    unfold fits in *. lia. }
  unfold fits in Hm. specialize (IH t' st1 Hc1 Hf).
  destruct (Z.leb_spec th t') as [Hth|Hth].
  - exists true, st1. split; [done|]. split; [done|]. destruct Ht' as [[Hs ->]|[_ ->]]; [|lia].
    exists [m]. split; [apply submseteq_skip, submseteq_nil_l|]. split; [by repeat constructor|simpl; lia].
  - destruct IH as (r & st' & -> & Hc' & H); [lia|lia|].
    exists r, st'. split; [done|]. split; [done|]. destruct r.
    + destruct H as (k & Hk & Hs & Hle). destruct Ht' as [[Hms ->]|[_ ->]].
      * exists (m :: k). split; [by apply submseteq_skip|]. split; [by constructor|simpl; lia].
      * exists k. split; [by apply submseteq_cons|]. by split.
    + intros k [Hk|(k' & -> & Hk')]%submseteq_cons_r Hs.
      * specialize (H k Hk Hs). destruct Ht' as [[_ ->]|[_ ->]]; lia.
      * apply Forall_cons in Hs as [Hms Hs]. specialize (H k' Hk' Hs). simpl.
        destruct Ht' as [[_ ->]|[? _]]; [lia|done].
Qed.

Lemma satisfied_at_exact (n depth bound : nat) :
  lookup_acyclic -> (bound + depth <= recursion_depth_limit c)%nat -> (recursion_depth_limit c < n + depth)%nat ->
  check_exact bound (satisfied_at n depth).
Proof.
  intros HL. revert depth bound. induction n as [|n IH]; intros depth bound Hd Hn; [lia|].
  intros auth st B (Hf & Hsum & Hth) Hb HB Hc. simpl. pose proof (meta_permission_map_perm auth) as HP.
  destruct (tally_loop_exact (satisfied_at n (S depth)) depth bound (threshold auth) (_used_keys st)
              (meta_permission_map auth) 0 st B HL) as (r & st' & -> & Hc' & H); auto.
  - by rewrite HP.
  - intros k Hk. apply IH; lia.
  - unfold auth_fits in Hf. by rewrite HP.
  - done.
  - rewrite HP. lia.
  - exists r, st'. split; [done|]. split; [done|]. destruct r.
    + split; [|done]. intros _. destruct H as (k & Hk & Hs & Hle). rewrite HP in Hk. by apply (as_weights auth k).
    + split; [done|]. intros Ha. destruct Ha as [a k Hk Hs Hle]. rewrite <- HP in Hk. specialize (H k Hk Hs). lia.
Qed.

Lemma initial_cache_exact (B : permission_level -> Prop) : cache_exact B initialize_permission_cache.
Proof.
  split.
  - intros l Hl. by apply lookup_gset_to_gmap_Some.
  - intros l s [Hl <-]%lookup_gset_to_gmap_Some. by apply ls_provided.
Qed.
End checker.

Definition satisfied_override (c : checker) (p : permission_level) (delay : Z) (used : list bool) :
    result (bool * state) := satisfied (with_delay c delay) p used.
Definition satisfied_authority_override (c : checker) (auth : authority) (delay : Z) (used : list bool) :
    result (bool * state) := satisfied_authority (with_delay c delay) auth used.

(** ** The claims *)

(** Totality and soundness of the authority checker, for any lookup function,
    cyclic or not: the recursion never exceeds the depth limit; the answer is an
    exception of the lookup, or a verdict. When the verdict is true, a set of
    satisfied entries of the authority (presented keys, waits within the delay,
    permissions that are provided or whose own authority is satisfied) really has
    a weight that reaches the threshold, in spite of the cache and of the 32-bit
    wrap-around of the total; the keys marked before are still marked. When it is
    false, the marks on the keys are as they were. *)
Theorem satisfied_authority_sound (c : checker) (auth : authority) (used : list bool) :
  lookup_ok c -> auth_fits auth ->
  match satisfied_authority c auth used with
  | Throw e => e <> nontermination
  | Ok (true, st) => auth_sat c auth /\ used_more used (_used_keys st)
  | Ok (false, st) => _used_keys st = used
  end.
Proof.
  intros HL Hf. unfold satisfied_authority.
  destruct (satisfied_at_ok c (fuel c) 0 HL ltac:(unfold fuel; lia) ltac:(unfold fuel; lia) auth
    (mk_state used (initialize_permission_cache c)) Hf (initial_cache_ok c))
    as [(e & -> & He)|(r & st & -> & _ & Hu & Ht & Hr)]; [done|].
  destruct r; [split; [by apply Ht|done]|by apply Hr].
Qed.

(** C15. Exactness of the authority checker: when the permissions do not refer to
    each other in a cycle and their nesting stays within the depth limit, the
    checker says true of a permission level exactly when the level is provided, is
    covered by a provided wildcard of its account, or has an authority that is
    satisfied. *)
Theorem satisfied_exact (c : checker) (rank : permission_level -> nat) (l : permission_level)
    (used : list bool) :
  lookup_acyclic c rank -> (rank l < recursion_depth_limit c)%nat -> ~ level_empty l ->
  exists r st, satisfied c l used = Ok (r, st) /\ (r = true <-> level_sat c l).
Proof.
  intros HL Hr Hne. unfold satisfied.
  destruct (visit_exact c rank (satisfied_at c (fuel c) 1) 0 (recursion_depth_limit c)
              (meta_account (mk_plw l 1)) 0 (mk_state used (initialize_permission_cache c)) (fun _ => False))
    as (t & st & -> & _ & Hcnt); auto using initial_cache_exact; [lia|done| |done|].
  { intros n Hn. apply satisfied_at_exact; [done|lia|unfold fuel; lia]. }
  eexists _, _. split; [reflexivity|]. simpl. rewrite Z.ltb_lt.
  destruct Hcnt as [[Hs ->]|[Hs ->]].
  - split; [by inversion Hs|]. intros _. by vm_compute.
  - split; [lia|]. intros H. destruct Hs. by apply ms_account.
Qed.

(** ** A system of three permissions *)

(** Permission 5 of account 1 takes the key [1] and permission 5 of account 2,
    which takes the key [2] or a wait of a minute. *)
Definition sample_lookup (l : permission_level) : result authority :=
  if bool_decide (l = mk_level 1 5) then
    Ok (mk_authority 3 [mk_kw (mk_public_key 0 [1]) 1] [mk_plw (mk_level 2 5) 2] [])
  else if bool_decide (l = mk_level 2 5) then
    Ok (mk_authority 1 [mk_kw (mk_public_key 0 [2]) 1] [] [mk_ww 60 1])
  else Throw permission_query_exception.

Definition sample_checker : checker :=
  mk_checker sample_lookup 6 [mk_public_key 0 [1]; mk_public_key 0 [2]] ∅ 0.

Definition sample_rank (l : permission_level) : nat := if bool_decide (actor l = 1) then 1%nat else 0%nat.

Lemma sample_lookup_acyclic : lookup_acyclic sample_checker sample_rank.
Proof.
  intros l. simpl. unfold sample_lookup. case_bool_decide; [subst|case_bool_decide; [subst|by split; [|left]]].
  all: split; [split; [repeat constructor; simpl; lia|simpl; lia]|]; split; [done|].
  all: repeat constructor; try (vm_compute; lia). all: intros [?|?]; done.
Qed.

Lemma sample_lookup_ok : lookup_ok sample_checker.
Proof.
  intros l. pose proof (sample_lookup_acyclic l) as H.
  destruct (permission_to_authority sample_checker l); apply H.
Qed.

Lemma satisfied_authority_sound_witness :
  match satisfied_authority sample_checker
          (mk_authority 2 [] [mk_plw (mk_level 1 5) 2; mk_plw (mk_level 7 7) 1] []) [false; false] with
  | Throw e => e <> nontermination
  | Ok (true, st) =>
      auth_sat sample_checker (mk_authority 2 [] [mk_plw (mk_level 1 5) 2; mk_plw (mk_level 7 7) 1] []) /\
      used_more [false; false] (_used_keys st)
  | Ok (false, st) => _used_keys st = [false; false]
  end.
Proof.
  apply (satisfied_authority_sound sample_checker _ [false; false]); [apply sample_lookup_ok|].
  repeat constructor; simpl; lia.
Defined.

Lemma satisfied_exact_witness :
  exists r st, satisfied sample_checker (mk_level 1 5) [false; false] = Ok (r, st) /\
    (r = true <-> level_sat sample_checker (mk_level 1 5)).
Proof.
  apply (satisfied_exact sample_checker sample_rank); [apply sample_lookup_acyclic|vm_compute; lia|].
  intros [?|?]; done.
Defined.

(** Account 3's permission takes permission 5 of account 4 or permission 5 of
    account 5; the former asks for more than permission 5 of account 5, the only
    one of its entries that can be satisfied. *)
Definition revert_lookup (l : permission_level) : result authority :=
  if bool_decide (l = mk_level 3 5) then
    Ok (mk_authority 1 [] [mk_plw (mk_level 4 5) 2; mk_plw (mk_level 5 5) 1] [])
  else if bool_decide (l = mk_level 4 5) then
    Ok (mk_authority 2 [mk_kw (mk_public_key 0 [9]) 1] [mk_plw (mk_level 5 5) 1] [])
  else if bool_decide (l = mk_level 5 5) then
    Ok (mk_authority 1 [mk_kw (mk_public_key 0 [1]) 1] [] [])
  else Throw permission_query_exception.

Definition revert_checker (ks : list public_key) : checker := mk_checker revert_lookup 6 ks ∅ 0.

(** A key may be needed and not be reported as used: a permission found to be
    satisfied inside an authority that then fails stays in the cache as satisfied,
    while the mark on its key is taken back; a later use of the permission does
    not mark the key again. Here the level is satisfied with the key and not
    without it, and the set of used keys is empty. *)
Theorem cached_permission_loses_key :
  let k := mk_public_key 0 [1] in
  (exists st, satisfied (revert_checker [k]) (mk_level 3 5) [false] = Ok (true, st) /\
              used_keys (revert_checker [k]) (_used_keys st) = [] /\
              all_keys_used (_used_keys st) = false) /\
  (exists st, satisfied (revert_checker []) (mk_level 3 5) [] = Ok (false, st)).
Proof. split; eexists; [split; [vm_compute; reflexivity|by vm_compute]|vm_compute; reflexivity]. Qed.
