(* ===== verification/AuthorizationManager.v ===== *)
(** * The authorization manager: the model

    The tables of permissions, of their usage and of the links from actions to
    permissions, and the operations of
    libraries/chain/authorization_manager.cpp on them. Each table is an undo
    index with its unique secondary keys; an index whose key ends in the primary
    key cannot conflict and is left out. An exception leaves the state to the undo
    session of the transaction, so it carries no state. *)

From S2P Require Import Prelude Types Authority AuthorityChecker UndoIndex Database.

Record permission_usage_object := mk_usage { puo_id : Z; last_used : Z }.

Record permission_object := mk_permission {
  po_id : Z;
  usage_id : Z;
  parent : Z;
  owner : account_name;
  name : permission_name;
  last_updated : Z;
  auth : authority
}.

Record permission_link_object := mk_link {
  plo_id : Z;
  plo_account : account_name;
  plo_code : account_name;
  message_type : action_name;
  required_permission : permission_name
}.

Record generated_transaction_object := mk_gto {
  gto_id : Z;
  trx_id : digest;
  sender : account_name;
  sender_id : Z;
  payer : account_name;
  delay_until : Z;
  expiration : Z;
  published : Z;
  packed_trx : list Z
}.

Record account_object := mk_account {
  ao_id : Z;
  ao_name : account_name;
  creation_date : Z;
  abi : list Z
}.

Record account_metadata_object := mk_metadata {
  amo_id : Z;
  amo_name : account_name;
  recv_sequence : Z;
  auth_sequence : Z;
  code_sequence : Z;
  abi_sequence : Z;
  code_hash : digest;
  last_code_update : Z;
  flags : Z;
  vm_type : Z;
  vm_version : Z
}.

(** The tables, as members of one record. *)
Record database := mk_database {
  permissions : undo_index permission_object;
  usages : undo_index permission_usage_object;
  links : undo_index permission_link_object;
  account_index : undo_index account_object;
  metadata : undo_index account_metadata_object;
  generated : undo_index generated_transaction_object
}.

Definition with_permissions (db : database) (t : undo_index permission_object) : database :=
  mk_database t (usages db) (links db) (account_index db) (metadata db) (generated db).
Definition with_usages (db : database) (t : undo_index permission_usage_object) : database :=
  mk_database (permissions db) t (links db) (account_index db) (metadata db) (generated db).
Definition with_links (db : database) (t : undo_index permission_link_object) : database :=
  mk_database (permissions db) (usages db) t (account_index db) (metadata db) (generated db).
Definition with_accounts (db : database) (t : undo_index account_object)
    (m : undo_index account_metadata_object) : database :=
  mk_database (permissions db) (usages db) (links db) t m (generated db).
Definition with_generated (db : database) (t : undo_index generated_transaction_object) : database :=
  mk_database (permissions db) (usages db) (links db) (account_index db) (metadata db) t.

Definition by_owner (p : permission_object) : list Z := [owner p; name p].
Definition by_action_name (l : permission_link_object) : list Z := [plo_account l; plo_code l; message_type l].
Definition by_account_name (a : account_object) : list Z := [ao_name a].
Definition by_metadata_name (a : account_metadata_object) : list Z := [amo_name a].
Definition by_trx_id (g : generated_transaction_object) : list Z :=
  [hash0 (trx_id g); hash1 (trx_id g); hash2 (trx_id g); hash3 (trx_id g)].
Definition by_sender_id (g : generated_transaction_object) : list Z := [sender g; sender_id g].

Definition permission_keys := [by_owner].
Definition usage_keys : list (permission_usage_object -> list Z) := [].
Definition link_keys := [by_action_name].
Definition account_keys := [by_account_name].
Definition metadata_keys := [by_metadata_name].
Definition generated_keys := [by_trx_id; by_sender_id].

(** What is read of the controller and of its configuration. *)
Record control := mk_control {
  num_supported_key_types : Z;
  pending_block_time : Z;
  is_builtin_activated : builtin_protocol_feature_t -> bool;
  max_transaction_delay : Z;
  max_authority_depth : Z;
  key_blacklist : gset public_key;
  checks_key_list : bool
}.

(** ** Actions *)
Record action := mk_action {
  act_account : account_name;
  act_name : action_name;
  authorization : list permission_level;
  act_data : list Z
}.

(** [transaction_header] and [transaction]; the expiration is in seconds. *)
Record transaction := mk_transaction {
  trx_expiration : Z;
  ref_block_num : Z;
  ref_block_prefix : Z;
  max_net_usage_words : Z;
  max_cpu_usage_ms : Z;
  delay_sec : Z;
  context_free_actions : list action;
  actions : list action;
  transaction_extensions : list (Z * list Z)
}.

Record updateauth := mk_updateauth {
  ua_account : account_name; ua_permission : permission_name; ua_parent : permission_name; ua_auth : authority }.
Record deleteauth := mk_deleteauth { da_account : account_name; da_permission : permission_name }.
Record linkauth := mk_linkauth {
  la_account : account_name; la_code : account_name; la_type : action_name; la_requirement : permission_name }.
Record unlinkauth := mk_unlinkauth {
  ul_account : account_name; ul_code : account_name; ul_type : action_name }.
Record canceldelay := mk_canceldelay { canceling_auth : permission_level; cd_trx_id : digest }.
Record newaccount := mk_newaccount {
  na_creator : account_name; na_name : account_name; na_owner : authority; na_active : authority }.

Definition updateauth_name : action_name := Eval vm_compute in n_ "updateauth".
Definition deleteauth_name : action_name := Eval vm_compute in n_ "deleteauth".
Definition linkauth_name : action_name := Eval vm_compute in n_ "linkauth".
Definition unlinkauth_name : action_name := Eval vm_compute in n_ "unlinkauth".
Definition canceldelay_name : action_name := Eval vm_compute in n_ "canceldelay".

(** The deserialization of the data of the native actions and of the deferred
    transactions. *)
Class ActionData := {
  unpack_updateauth : list Z -> result updateauth;
  unpack_deleteauth : list Z -> result deleteauth;
  unpack_linkauth : list Z -> result linkauth;
  unpack_unlinkauth : list Z -> result unlinkauth;
  unpack_canceldelay : list Z -> result canceldelay;
  unpack_transaction : list Z -> result transaction
}.

(** ** Permissions *)

(** The loop of [permission_object::satisfies], at [p] in the chain of parents. *)
Fixpoint satisfies_walk (fuel : nat) (index : undo_index permission_object) (id : Z)
    (p : permission_object) : result bool :=
  match fuel with
  | O => Throw nontermination
  | S fuel =>
      if id =? parent p then Ok true
      else if parent p =? 0 then Ok false
      else match db_find index (parent p) with
           | None => Throw undefined_behaviour
           | Some p => satisfies_walk fuel index id p
           end
  end.

(** No chain of parents is longer than the table. *)
Definition satisfies (self other : permission_object) (index : undo_index permission_object) : result bool :=
  if negb (owner self =? owner other) then Ok false
  else if (po_id self =? po_id other) || (po_id self =? parent other) then Ok true
  else match db_find index (parent other) with
       | None => Throw undefined_behaviour
       | Some p => satisfies_walk (S (size (contents index))) index (po_id self) p
       end.

Section manager.
Context (ctl : control).

(** The permission with identifier 0 is reserved. *)
Definition initialize_database (db : database) : result database :=
  '(t, _) ← db_create permission_keys (permissions db)
              (fun i => mk_permission i 0 0 0 0 0 (mk_authority 0 [] [] []));
  Ok (with_permissions db t).

Definition check_key_types (a : authority) : result unit :=
  dcd_assert (forallb (fun k => key_which (kw_key k) <? num_supported_key_types ctl) (keys a))
    unactivated_key_type.

Definition create_permission (db : database) (account : account_name) (n : permission_name)
    (par : Z) (a : authority) (initial_creation_time : Z) : result (database * permission_object) :=
  _ ← check_key_types a;
  let creation_time := if initial_creation_time =? 0 then pending_block_time ctl else initial_creation_time in
  '(ut, perm_usage) ← db_create usage_keys (usages db) (fun i => mk_usage i creation_time);
  '(pt, perm) ← db_create permission_keys (permissions db)
                  (fun i => mk_permission i (puo_id perm_usage) par account n creation_time a);
  Ok (with_permissions (with_usages db ut) pt, perm).

Definition set_auth (a : authority) (time : Z) (p : permission_object) : permission_object :=
  mk_permission (po_id p) (usage_id p) (parent p) (owner p) (name p) time a.

Definition modify_permission (db : database) (p : permission_object) (a : authority) : result database :=
  _ ← check_key_types a;
  t ← db_modify permission_keys (permissions db) (po_id p) (set_auth a (pending_block_time ctl));
  Ok (with_permissions db t).

Definition has_children (t : undo_index permission_object) (i : Z) : bool :=
  existsb (fun jp => parent (snd jp) =? i) (map_to_list (contents t)).

Definition remove_permission (db : database) (p : permission_object) : result database :=
  _ ← dcd_assert (negb (has_children (permissions db) (po_id p))) action_validate_exception;
  ut ← remove_object (usages db) (usage_id p);
  pt ← db_remove (permissions db) (po_id p);
  Ok (with_permissions (with_usages db ut) pt).

Definition update_permission_usage (db : database) (p : permission_object) : result database :=
  puo ← db_get (usages db) (usage_id p);
  t ← db_modify usage_keys (usages db) (puo_id puo)
        (fun u => mk_usage (puo_id u) (pending_block_time ctl));
  Ok (with_usages db t).

Definition get_permission_last_used (db : database) (p : permission_object) : result Z :=
  puo ← db_get (usages db) (usage_id p); Ok (last_used puo).

(** An exception that is not one of the chain's becomes a [permission_query_exception]. *)
Definition find_permission (db : database) (level : permission_level) : result (option permission_object) :=
  _ ← dcd_assert (negb (actor level =? 0) && negb (permission level =? 0)) invalid_permission;
  Ok (db_find_by by_owner (permissions db) [actor level; permission level]).

Definition get_permission (db : database) (level : permission_level) : result permission_object :=
  _ ← dcd_assert (negb (actor level =? 0) && negb (permission level =? 0)) invalid_permission;
  match db_find_by by_owner (permissions db) [actor level; permission level] with
  | Some p => Ok p
  | None => Throw permission_query_exception
  end.

Definition lookup_linked_permission (db : database) (authorizer_account scope : account_name)
    (act_name : action_name) : option permission_name :=
  let link := match db_find_by by_action_name (links db) [authorizer_account; scope; act_name] with
              | Some l => Some l
              | None => db_find_by by_action_name (links db) [authorizer_account; scope; 0]
              end in
  required_permission <$> link.

Definition lookup_minimum_permission (db : database) (authorizer_account scope : account_name)
    (act_name : action_name) : result (option permission_name) :=
  _ ← (if scope =? config.system_account_name then
         dcd_assert (negb (act_name =? updateauth_name) && negb (act_name =? deleteauth_name)
                     && negb (act_name =? linkauth_name) && negb (act_name =? unlinkauth_name)
                     && negb (act_name =? canceldelay_name)) unlinkable_min_permission_action
       else Ok tt);
  match lookup_linked_permission db authorizer_account scope act_name with
  | None => Ok (Some config.active_name)
  | Some linked => Ok (if linked =? config.dcd_any_name then None else Some linked)
  end.

(** [auths.size() == 1], and the element *)
Definition single_auth (auths : list permission_level) : result permission_level :=
  match auths with [a] => Ok a | _ => Throw irrelevant_auth_exception end.

(** [DCD_ASSERT( get_permission(auth).satisfies( min, ... ), ... )] *)
Definition assert_satisfies (db : database) (level : permission_level) (min : permission_object) : result unit :=
  p ← get_permission db level;
  b ← satisfies p min (permissions db);
  dcd_assert b irrelevant_auth_exception.

Definition check_updateauth_authorization (db : database) (update : updateauth)
    (auths : list permission_level) : result unit :=
  level ← single_auth auths;
  _ ← dcd_assert (actor level =? ua_account update) irrelevant_auth_exception;
  found ← find_permission db (mk_level (ua_account update) (ua_permission update));
  min_permission ← match found with
                   | Some p => Ok p
                   | None => get_permission db (mk_level (ua_account update) (ua_parent update))
                   end;
  assert_satisfies db level min_permission.

Definition check_deleteauth_authorization (db : database) (del : deleteauth)
    (auths : list permission_level) : result unit :=
  level ← single_auth auths;
  _ ← dcd_assert (actor level =? da_account del) irrelevant_auth_exception;
  min_permission ← get_permission db (mk_level (da_account del) (da_permission del));
  assert_satisfies db level min_permission.

Definition check_linkauth_authorization (db : database) (link : linkauth)
    (auths : list permission_level) : result unit :=
  level ← single_auth auths;
  _ ← dcd_assert (actor level =? la_account link) irrelevant_auth_exception;
  _ ← (if (la_code link =? config.system_account_name)
          || negb (is_builtin_activated ctl fix_linkauth_restriction) then
         dcd_assert (negb (la_type link =? updateauth_name) && negb (la_type link =? deleteauth_name)
                     && negb (la_type link =? linkauth_name) && negb (la_type link =? unlinkauth_name)
                     && negb (la_type link =? canceldelay_name)) action_validate_exception
       else Ok tt);
  linked_permission_name ← lookup_minimum_permission db (la_account link) (la_code link) (la_type link);
  match linked_permission_name with
  | None => Ok tt
  | Some n =>
      p ← get_permission db level;
      min ← get_permission db (mk_level (la_account link) n);
      b ← satisfies p min (permissions db);
      dcd_assert b irrelevant_auth_exception
  end.

Definition check_unlinkauth_authorization (db : database) (unlink : unlinkauth)
    (auths : list permission_level) : result unit :=
  level ← single_auth auths;
  _ ← dcd_assert (actor level =? ul_account unlink) irrelevant_auth_exception;
  match lookup_linked_permission db (ul_account unlink) (ul_code unlink) (ul_type unlink) with
  | None => Throw transaction_exception
  | Some n =>
      if n =? config.dcd_any_name then Ok tt
      else
        p ← get_permission db level;
        min ← get_permission db (mk_level (ul_account unlink) n);
        b ← satisfies p min (permissions db);
        dcd_assert b irrelevant_auth_exception
  end.

Context `{ActionData}.

(** [lower_bound] on the unique index of transaction identifiers followed by the
    comparison of the identifier is a lookup of the identifier. *)
Definition check_canceldelay_authorization (db : database) (cancel : canceldelay)
    (auths : list permission_level) : result Z :=
  level ← single_auth auths;
  p ← get_permission db level;
  min ← get_permission db (canceling_auth cancel);
  b ← satisfies p min (permissions db);
  _ ← dcd_assert b irrelevant_auth_exception;
  let d := cd_trx_id cancel in
  match db_find_by by_trx_id (generated db) [hash0 d; hash1 d; hash2 d; hash3 d] with
  | None => Throw tx_not_found
  | Some g =>
      _ ← dcd_assert (sender g =? 0) tx_not_found;
      trx ← unpack_transaction (packed_trx g);
      _ ← dcd_assert (existsb (fun a => bool_decide (canceling_auth cancel ∈ authorization a)) (actions trx))
            action_validate_exception;
      Ok (delay_until g - published g)
  end.

(** ** Checking a transaction *)
Definition microseconds_maximum : Z := 9223372036854775807.

Definition effective_delay (provided_delay : Z) : Z :=
  if max_transaction_delay ctl * 1000000 <=? provided_delay then microseconds_maximum else provided_delay.

(** The native action special cases: whether the action is one, and its delay. *)
Definition check_special_case (db : database) (act : action) (delay : Z) : result (bool * Z) :=
  if act_account act =? config.system_account_name then
    if act_name act =? updateauth_name then
      d ← unpack_updateauth (act_data act);
      _ ← check_updateauth_authorization db d (authorization act); Ok (true, delay)
    else if act_name act =? deleteauth_name then
      d ← unpack_deleteauth (act_data act);
      _ ← check_deleteauth_authorization db d (authorization act); Ok (true, delay)
    else if act_name act =? linkauth_name then
      d ← unpack_linkauth (act_data act);
      _ ← check_linkauth_authorization db d (authorization act); Ok (true, delay)
    else if act_name act =? unlinkauth_name then
      d ← unpack_unlinkauth (act_data act);
      _ ← check_unlinkauth_authorization db d (authorization act); Ok (true, delay)
    else if act_name act =? canceldelay_name then
      d ← unpack_canceldelay (act_data act);
      canceled ← check_canceldelay_authorization db d (authorization act);
      Ok (true, Z.max delay canceled)
    else Ok (false, delay)
  else Ok (false, delay).

(** The body of the loop over the declared authorizations of an action. *)
Definition check_declared (db : database) (act : action) (special_case : bool) (delay : Z)
    (satisfied_authorizations : gset permission_level)
    (to_satisfy : gmap permission_level Z) (declared : permission_level) :
    result (gmap permission_level Z) :=
  _ ← (if special_case then Ok tt
       else
         min_permission_name ← lookup_minimum_permission db (actor declared) (act_account act) (act_name act);
         match min_permission_name with
         | None => Ok tt
         | Some n =>
             min_permission ← get_permission db (mk_level (actor declared) n);
             assert_satisfies db declared min_permission
         end);
  if bool_decide (declared ∈ satisfied_authorizations) then Ok to_satisfy
  else Ok (match to_satisfy !! declared with
           | None => <[declared := delay]> to_satisfy
           | Some d => if delay <? d then <[declared := delay]> to_satisfy else to_satisfy
           end).

Definition permissions_to_satisfy (db : database) (actions : list action) (effective_provided_delay : Z)
    (satisfied_authorizations : gset permission_level) : result (gmap permission_level Z) :=
  foldM (fun m act =>
           '(special_case, delay) ← check_special_case db act effective_provided_delay;
           foldM (check_declared db act special_case delay satisfied_authorizations) m (authorization act))
    ∅ actions.

(** The lookup that the checkers are given. *)
Definition permission_authority (db : database) (level : permission_level) : result authority :=
  p ← get_permission db level; Ok (auth p).

Definition make_auth_checker (db : database) (ks : list public_key) (perms : gset permission_level)
    (delay : Z) : checker :=
  mk_checker (permission_authority db) (Z.to_nat (max_authority_depth ctl)) ks perms delay.

(** [check_authorization( actions, ... )]: the loop that would ask the checker about
    [permissions_to_satisfy], and the test of unused keys, are commented out. *)
Definition check_authorization (db : database) (actions : list action) (ks : list public_key)
    (perms : gset permission_level) (provided_delay : Z) (allow_unused_keys : bool)
    (satisfied_authorizations : gset permission_level) : result unit :=
  let effective_provided_delay := effective_delay provided_delay in
  let checker := make_auth_checker db ks perms effective_provided_delay in
  _ ← permissions_to_satisfy db actions effective_provided_delay satisfied_authorizations;
  Ok tt.

(** [check_authorization( account, permission, ... )]: all its tests are commented out. *)
Definition check_authorization_level (db : database) (account : account_name) (perm : permission_name)
    (ks : list public_key) (perms : gset permission_level) (provided_delay : Z)
    (allow_unused_keys : bool) : result unit :=
  let checker := make_auth_checker db ks perms (effective_delay provided_delay) in
  Ok tt.

Definition get_required_keys (db : database) (actions : list action) (candidate_keys : list public_key)
    (provided_delay : Z) : result (list public_key) :=
  let checker := make_auth_checker db candidate_keys ∅ provided_delay in
  used ← foldM (fun used declared_auth =>
                  '(r, st) ← satisfied checker declared_auth used;
                  _ ← dcd_assert r unsatisfied_authorization;
                  Ok (_used_keys st))
           (replicate (length candidate_keys) false) (concat (map authorization actions));
  Ok (used_keys checker used).
End manager.
