(* ===== verification/SystemContract.v ===== *)
(** * The native actions on accounts and permissions

    The handlers of libraries/chain/dcd_contract.cpp for [newaccount],
    [updateauth], [deleteauth], [linkauth], [unlinkauth] and [canceldelay], and
    the creation of native accounts by the controller. A handler is given the
    deserialized data and the authorizations of its action. *)

From S2P Require Import Prelude Name Types BlockTimestamp Authority AuthorityChecker UndoIndex Database AuthorizationManager.

(** [str.find( "dcd." ) == 0] *)
Definition starts_with_dcd (n : Z) : bool :=
  bool_decide (take 4 (to_string n) = String.list_ascii_of_string "dcd.").

(** [apply_context::require_authorization( account )] *)
Definition require_authorization (auths : list permission_level) (account : account_name) : result unit :=
  dcd_assert (existsb (fun a => actor a =? account) auths) missing_auth_exception.

Definition transaction_id_to_sender_id (tid : digest) : Z := hash3 tid * 2 ^ 64 + hash2 tid.

Section contract.
Context (ctl : control).

Definition find_account (db : database) (n : account_name) : option account_object :=
  db_find_by by_account_name (account_index db) [n].

(** [check_key_list] of the controller *)
Definition check_key_list (k : public_key) : result unit :=
  dcd_assert (bool_decide (k ∉ key_blacklist ctl)) key_blacklist_exception.

(** The check of one account of an authority. *)
Definition check_authority_account (db : database) (a : permission_level_weight) : result unit :=
  let l := plw_permission a in
  _ ← dcd_assert (match find_account db (actor l) with Some _ => true | None => false end)
        action_validate_exception;
  if (permission l =? config.owner_name) || (permission l =? config.active_name) then Ok tt
  else if permission l =? config.dcd_code_name then Ok tt
  else match get_permission db l with
       | Ok _ => Ok tt
       | Throw permission_query_exception => Throw action_validate_exception
       | Throw e => Throw e
       end.

Definition validate_authority_precondition (db : database) (a : authority) : result unit :=
  _ ← foldM (fun _ x => check_authority_account db x) tt (accounts a);
  if checks_key_list ctl then foldM (fun _ k => check_key_list (kw_key k)) tt (keys a)
  else Ok tt.

(** The block timestamp type has half a second of resolution. *)
Definition new_account_objects (db : database) (n : account_name) (time : Z) (abi : list Z) (flags : Z) :
    result database :=
  '(at', _) ← db_create account_keys (account_index db)
                (fun i => mk_account i n (set_time_point time) abi);
  '(mt, _) ← db_create metadata_keys (metadata db)
               (fun i => mk_metadata i n 0 0 0 0 digest_zero 0 flags 0 0);
  Ok (with_accounts db at' mt).

(** The two permissions every account has. *)
Definition new_account_permissions (db : database) (n : account_name) (owner_auth active_auth : authority)
    (time : Z) : result database :=
  '(db, owner_permission) ← create_permission ctl db n config.owner_name 0 owner_auth time;
  '(db, active_permission) ← create_permission ctl db n config.active_name (po_id owner_permission) active_auth time;
  Ok db.

Definition is_privileged (m : account_metadata_object) : bool := Z.testbit (flags m) 0.

Definition apply_dcd_newaccount (db : database) (auths : list permission_level) (create : newaccount) :
    result database :=
  _ ← require_authorization auths (na_creator create);
  _ ← dcd_assert (validate (na_owner create)) action_validate_exception;
  _ ← dcd_assert (validate (na_active create)) action_validate_exception;
  _ ← dcd_assert (negb (na_name create =? 0)) action_validate_exception;
  _ ← dcd_assert (length (to_string (na_name create)) <=? 12)%nat action_validate_exception;
  creator ← db_get_by by_metadata_name (metadata db) [na_creator create];
  _ ← (if is_privileged creator then Ok tt
       else dcd_assert (negb (starts_with_dcd (na_name create))) action_validate_exception);
  _ ← dcd_assert (match find_account db (na_name create) with None => true | Some _ => false end)
        account_name_exists_exception;
  db ← new_account_objects db (na_name create) (pending_block_time ctl) [] 0;
  _ ← validate_authority_precondition db (na_owner create);
  _ ← validate_authority_precondition db (na_active create);
  new_account_permissions db (na_name create) (na_owner create) (na_active create) 0.

(** [create_native_account] of the controller; the abi of the system account is a
    constant of the program. *)
Definition create_native_account (dcd_abi_bin : list Z) (db : database) (initial_timestamp : Z)
    (n : account_name) (owner_auth active_auth : authority) (privileged : bool) : result database :=
  db ← new_account_objects db n initial_timestamp
         (if n =? config.system_account_name then dcd_abi_bin else [])
         (if privileged then 1 else 0);
  new_account_permissions db n owner_auth active_auth initial_timestamp.

(** The guards of [updateauth] on the names. *)
Definition check_updateauth_names (update : updateauth) : result unit :=
  _ ← dcd_assert (negb (ua_permission update =? 0)) action_validate_exception;
  _ ← dcd_assert (negb (starts_with_dcd (ua_permission update))) action_validate_exception;
  dcd_assert (negb (ua_permission update =? ua_parent update)) action_validate_exception.

Definition check_updateauth_parent (update : updateauth) : result unit :=
  _ ← (if ua_permission update =? config.active_name
       then dcd_assert (ua_parent update =? config.owner_name) action_validate_exception else Ok tt);
  if ua_permission update =? config.owner_name
  then dcd_assert (ua_parent update =? 0) action_validate_exception
  else dcd_assert (negb (ua_parent update =? 0)) action_validate_exception.

Definition check_updateauth_waits (update : updateauth) : result unit :=
  match last (waits (ua_auth update)) with
  | None => Ok tt
  | Some w => dcd_assert (ww_wait_sec w <=? max_transaction_delay ctl) action_validate_exception
  end.

Definition apply_dcd_updateauth (db : database) (auths : list permission_level) (update : updateauth) :
    result database :=
  _ ← require_authorization auths (ua_account update);
  _ ← check_updateauth_names update;
  _ ← db_get_by by_account_name (account_index db) [ua_account update];
  _ ← dcd_assert (validate (ua_auth update)) action_validate_exception;
  _ ← check_updateauth_parent update;
  _ ← check_updateauth_waits update;
  _ ← validate_authority_precondition db (ua_auth update);
  found ← find_permission db (mk_level (ua_account update) (ua_permission update));
  parent_id ← (if ua_permission update =? config.owner_name then Ok 0
               else p ← get_permission db (mk_level (ua_account update) (ua_parent update)); Ok (po_id p));
  match found with
  | Some p =>
      _ ← dcd_assert (parent_id =? parent p) action_validate_exception;
      modify_permission ctl db p (ua_auth update)
  | None =>
      '(db, _) ← create_permission ctl db (ua_account update) (ua_permission update) parent_id (ua_auth update) 0;
      Ok db
  end.

Definition is_linked (db : database) (account : account_name) (perm : permission_name) : bool :=
  existsb (fun jl => (plo_account (snd jl) =? account) && (required_permission (snd jl) =? perm))
    (map_to_list (contents (links db))).

Definition apply_dcd_deleteauth (db : database) (auths : list permission_level) (remove : deleteauth) :
    result database :=
  _ ← require_authorization auths (da_account remove);
  _ ← dcd_assert (negb (da_permission remove =? config.active_name)) action_validate_exception;
  _ ← dcd_assert (negb (da_permission remove =? config.owner_name)) action_validate_exception;
  _ ← dcd_assert (negb (is_linked db (da_account remove) (da_permission remove))) action_validate_exception;
  p ← get_permission db (mk_level (da_account remove) (da_permission remove));
  remove_permission db p.

(** [find< permission_object, by_name >( n )]: some permission has the name. *)
Definition permission_name_exists (db : database) (n : permission_name) : bool :=
  existsb (fun jp => name (snd jp) =? n) (map_to_list (contents (permissions db))).

Definition set_required (n : permission_name) (l : permission_link_object) : permission_link_object :=
  mk_link (plo_id l) (plo_account l) (plo_code l) (message_type l) n.

Definition apply_dcd_linkauth (db : database) (auths : list permission_level) (requirement : linkauth) :
    result database :=
  _ ← dcd_assert (negb (la_requirement requirement =? 0)) action_validate_exception;
  _ ← require_authorization auths (la_account requirement);
  _ ← dcd_assert (match find_account db (la_account requirement) with Some _ => true | None => false end)
        account_query_exception;
  _ ← dcd_assert (match find_account db (la_code requirement) with Some _ => true | None => false end)
        account_query_exception;
  _ ← (if la_requirement requirement =? config.dcd_any_name then Ok tt
       else dcd_assert
              (if is_builtin_activated ctl only_link_to_existing_permission then
                 match db_find_by by_owner (permissions db)
                         [la_account requirement; la_requirement requirement] with
                 | Some _ => true
                 | None => false
                 end
               else permission_name_exists db (la_requirement requirement))
              permission_query_exception);
  match db_find_by by_action_name (links db)
          [la_account requirement; la_code requirement; la_type requirement] with
  | Some link =>
      _ ← dcd_assert (negb (required_permission link =? la_requirement requirement)) action_validate_exception;
      t ← db_modify link_keys (links db) (plo_id link) (set_required (la_requirement requirement));
      Ok (with_links db t)
  | None =>
      '(t, _) ← db_create link_keys (links db)
                  (fun i => mk_link i (la_account requirement) (la_code requirement) (la_type requirement)
                              (la_requirement requirement));
      Ok (with_links db t)
  end.

Definition apply_dcd_unlinkauth (db : database) (auths : list permission_level) (unlink : unlinkauth) :
    result database :=
  _ ← require_authorization auths (ul_account unlink);
  match db_find_by by_action_name (links db) [ul_account unlink; ul_code unlink; ul_type unlink] with
  | None => Throw action_validate_exception
  | Some link =>
      t ← db_remove (links db) (plo_id link);
      Ok (with_links db t)
  end.

(** [apply_context::cancel_deferred_transaction] *)
Definition cancel_deferred_transaction (db : database) (sid : Z) (sndr : account_name) :
    result (database * bool) :=
  match db_find_by by_sender_id (generated db) [sndr; sid] with
  | None => Ok (db, false)
  | Some g =>
      t ← db_remove (generated db) (gto_id g);
      Ok (with_generated db t, true)
  end.

Definition apply_dcd_canceldelay (db : database) (auths : list permission_level) (cancel : canceldelay) :
    result database :=
  _ ← require_authorization auths (actor (canceling_auth cancel));
  '(db, _) ← cancel_deferred_transaction db (transaction_id_to_sender_id (cd_trx_id cancel)) 0;
  Ok db.
End contract.
