(* ===== verification/TransactionTypes.v ===== *)
(** * Transactions: data

    The reference block of a transaction, its extensions and what is packed and hashed of it
    (libraries/chain/transaction.cpp, include/dcd/chain/transaction.hpp). *)

From S2P Require Import Prelude Types Asset BlockHeader Authority AuthorizationManager.

Definition set_reference_block (t : transaction) (reference_block : block_id) : transaction :=
  mk_transaction (trx_expiration t) (u16 (num_from_id reference_block)) (u32 (hash1 reference_block)) (max_net_usage_words t)
    (max_cpu_usage_ms t) (delay_sec t) (context_free_actions t) (actions t) (transaction_extensions t).

Definition verify_reference_block (t : transaction) (reference_block : block_id) : bool :=
  (ref_block_num t =? u16 (num_from_id reference_block)) && (ref_block_prefix t =? u32 (hash1 reference_block)).

Definition first_authorizer (t : transaction) : account_name :=
  match concat (map authorization (actions t)) with l :: _ => actor l | [] => 0 end.

(** ** Extensions *)
Record deferred_transaction_generation_context := mk_generation_context {
  gc_sender_trx_id : digest;
  gc_sender_id : Z;
  gc_sender : account_name
}.

Definition generation_context_id : Z := 0.

(** The packing of transactions and of the data that the node packs itself, and the identifier of a transaction, the
    hash of its packed form. *)
Class TransactionData := {
  pack_transaction : transaction -> list Z;
  transaction_id : transaction -> digest;
  pack_fee_parameter : account_name -> asset -> list Z;
  pack_block_header : block_header -> list Z;
  pack_onerror : Z -> list Z -> list Z;
  pack_generation_context : deferred_transaction_generation_context -> list Z;
  unpack_generation_context : list Z -> result deferred_transaction_generation_context
}.

Section extensions.
Context `{TransactionData}.

(** [reflector_init] of the extension, run after unpacking *)
Definition check_generation_context (g : deferred_transaction_generation_context) : result unit :=
  dcd_assert (negb (gc_sender g =? 0)) ill_formed_deferred_transaction_generation_context.

(** The loop over the extensions. There is one kind, which must be unique; the multimap [results] is the list of its
    entries. *)
Fixpoint extract_transaction_extensions (i : nat) (id_type_lower_bound : Z) (exts : list (Z * list Z))
    (results : list deferred_transaction_generation_context) : result (list deferred_transaction_generation_context) :=
  match exts with
  | [] => Ok results
  | (id, data) :: exts =>
      _ ← dcd_assert (id_type_lower_bound <=? id) invalid_transaction_extension;
      _ ← dcd_assert (id =? generation_context_id) invalid_transaction_extension;
      g ← unpack_generation_context data;
      _ ← check_generation_context g;
      _ ← dcd_assert ((i =? 0)%nat || (id_type_lower_bound <? id)) invalid_transaction_extension;
      extract_transaction_extensions (S i) id exts (results ++ [g])
  end.

Definition validate_and_extract_extensions (t : transaction) : result (list deferred_transaction_generation_context) :=
  extract_transaction_extensions 0 0 (transaction_extensions t) [].
End extensions.

(** [expiration], [ref_block_num] and [ref_block_prefix] are reset. *)
Definition without_reference (t : transaction) (exts : list (Z * list Z)) : transaction :=
  mk_transaction 0 0 0 (max_net_usage_words t) (max_cpu_usage_ms t) (delay_sec t) (context_free_actions t) (actions t) exts.

(** The conversion from a point in time to seconds, which cuts it. *)
Definition to_seconds (time : Z) : Z := u32 (Z.quot time 1000000).

Definition with_expiration (t : transaction) (expire : Z) : transaction :=
  mk_transaction expire (ref_block_num t) (ref_block_prefix t) (max_net_usage_words t) (max_cpu_usage_ms t) (delay_sec t)
    (context_free_actions t) (actions t) (transaction_extensions t).
