(* ===== verification/Fees.v ===== *)
(** * Fees

    What a transaction costs (libraries/chain/transaction_fee_manager.cpp and .hpp, and [apply_dcd_setfee] of
    libraries/chain/dcd_contract.cpp). Fees are set in dollars and paid in the core token at the rate that the
    producers agreed on, a double. A double is its 64 bits; its arithmetic is that of the Standard Library's
    specification of IEEE 754. *)

From S2P Require Import Prelude Name Types Asset BlockHeader Authority UndoIndex Database AuthorizationManager SystemContract.
From Stdlib Require Import SpecFloat.

(** ** Doubles *)
Definition prec : Z := 53.
Definition emax : Z := 1024.

Definition f64_decode (bits : Z) : spec_float :=
  let s := Z.testbit bits 63 in
  let e := Z.land (Z.shiftr bits 52) 0x7FF in
  let m := Z.land bits (Z.ones 52) in
  if e =? 0x7FF then if m =? 0 then S754_infinity s else S754_nan
  else if e =? 0 then match m with Zpos p => S754_finite s p (-1074) | _ => S754_zero s end
  else match m + 2 ^ 52 with Zpos p => S754_finite s p (e - 1075) | _ => S754_zero s end.

(** A conversion from an unsigned integer *)
Definition f64_of_u64 (n : Z) : spec_float := binary_normalize prec emax n 0 false.

(** [int64_t( x )]: the fraction is dropped; undefined for other values than those of the type. *)
Definition int64_of_f64 (x : spec_float) : result Z :=
  match x with
  | S754_zero _ => Ok 0
  | S754_finite s m e =>
      let n := if 0 <=? e then Z.shiftl (Zpos m) e else Z.shiftr (Zpos m) (- e) in
      signed64 (if s then - n else n)
  | _ => Throw undefined_behaviour
  end.

(** ** Objects *)
Record action_fee_object := mk_fee_object {
  afo_id : Z;
  afo_account : account_name;
  afo_message_type : action_name;
  afo_fee : asset
}.

Definition by_fee_action (f : action_fee_object) : list Z := [afo_account f; afo_message_type f].
Definition fee_keys := [by_fee_action].

Definition core_symbol : symbol := Eval vm_compute in mk_symbol 0x44434405.
Definition usd_symbol (decimals : Z) : symbol := mk_symbol (0x44535500 + decimals).

Definition defaultfee_name : action_name := Eval vm_compute in n_ "defaultfee".

(** The rate and the native fees, which the constructor sets. *)
Record transaction_fee_manager := mk_fee_manager {
  contract_cur_rate : Z;
  fee_map : list ((account_name * action_name) * asset)
}.

Definition init_native_fee (m : transaction_fee_manager) (acc : account_name) (act : action_name) (fee : asset) :
    transaction_fee_manager :=
  mk_fee_manager (contract_cur_rate m) (((acc, act), fee) :: fee_map m).

Definition new_fee_manager : transaction_fee_manager :=
  init_native_fee (mk_fee_manager f64_one []) config.system_account_name defaultfee_name (mk_asset 0 (usd_symbol 4)).

Definition core (n : Z) : asset := mk_asset n core_symbol.

Section fees.
Context (m : transaction_fee_manager) (fees : undo_index action_fee_object).

Definition get_core_from_usd (usd : asset) : result asset :=
  core_precision ← sym_precision core_symbol;
  usd_precision ← sym_precision (sym usd);
  let product := f64_of_u64 (u64 (amount usd * core_precision)) in
  let divisor := SFmul prec emax (f64_of_u64 usd_precision) (f64_decode (contract_cur_rate m)) in
  n ← int64_of_f64 (SFdiv prec emax product divisor);
  make_asset n core_symbol.

Definition find_fee (account : account_name) (act : action_name) : option action_fee_object :=
  db_find_by by_fee_action fees [account; act].

Definition get_native_fee (acc : account_name) (act : action_name) : result asset :=
  match list_find (fun e => fst e = (acc, act)) (fee_map m) with
  | Some (_, (_, fee)) => get_core_from_usd fee
  | None => Ok (core 0)
  end.

(** The fee of an entry of the table, added to an empty asset. *)
Definition table_fee (f : action_fee_object) : result asset :=
  c ← get_core_from_usd (afo_fee f);
  asset_add_assign (core 0) c.

(** An exception while the entry is converted is logged, and the search goes on. *)
Definition required_fee_of (account : account_name) (act : action_name) : result asset :=
  match match find_fee account act with
        | Some f => match table_fee f with
                    | Throw undefined_behaviour => Some (Throw undefined_behaviour)
                    | Ok a => Some (Ok a)
                    | Throw _ => None
                    end
        | None => None
        end with
  | Some r => r
  | None =>
      native_fee ← get_native_fee account act;
      if negb (asset_eqb native_fee (core 0)) then Ok native_fee
      else
        match find_fee config.system_account_name defaultfee_name with
        | Some f => table_fee f
        | None => get_native_fee config.system_account_name defaultfee_name
        end
  end.

(** The fee of all actions of a transaction. *)
Fixpoint required_fee_loop (actions : list action) (fee : asset) : result asset :=
  match actions with
  | [] => Ok fee
  | act :: actions =>
      f ← required_fee_of (act_account act) (act_name act);
      fee ← asset_add_assign fee f;
      required_fee_loop actions fee
  end.
Definition get_required_fee (actions : list action) : result asset := required_fee_loop actions (core 0).

(** What is shown of a fee: in core tokens, in dollars, and the rate. *)
Record action_fee_info := mk_fee_info { core_fee : asset; usd_fee : asset; cur_rate : Z }.

Definition table_fee_info (f : action_fee_object) : result action_fee_info :=
  c ← get_core_from_usd (afo_fee f); Ok (mk_fee_info c (afo_fee f) (contract_cur_rate m)).

Definition get_action_fee (account : account_name) (act : action_name) : result action_fee_info :=
  match match find_fee account act with
        | Some f => match table_fee_info f with
                    | Throw undefined_behaviour => Some (Throw undefined_behaviour)
                    | Ok a => Some (Ok a)
                    | Throw _ => None
                    end
        | None => None
        end with
  | Some r => r
  | None =>
      match find_fee config.system_account_name defaultfee_name with
      | Some f => table_fee_info f
      | None =>
          c ← get_native_fee config.system_account_name defaultfee_name;
          match list_find (fun e => fst e = (config.system_account_name, defaultfee_name)) (fee_map m) with
          | Some (_, (_, fee)) => Ok (mk_fee_info c fee (contract_cur_rate m))
          | None => Throw undefined_behaviour
          end
      end
  end.
End fees.

(** ** Setting a fee *)
Record setfee := mk_setfee { sf_account : account_name; sf_action : action_name; sf_fee : asset }.

Definition apply_dcd_setfee (fees : undo_index action_fee_object) (auths : list permission_level) (act : setfee) :
    result (undo_index action_fee_object) :=
  _ ← require_authorization auths config.system_account_name;
  match db_find_by by_fee_action fees [sf_account act; sf_action act] with
  | None =>
      '(u, _) ← db_create fee_keys fees (fun i => mk_fee_object i (sf_account act) (sf_action act) (sf_fee act));
      Ok u
  | Some f =>
      db_modify fee_keys fees (afo_id f)
        (fun o => mk_fee_object (afo_id o) (afo_account o) (afo_message_type o) (sf_fee act))
  end.

(** ** What is charged *)

(** The native fees are those of the constructor, and at the rate nothing costs nothing. *)
Definition rate_ok (m : transaction_fee_manager) : Prop :=
  fee_map m = fee_map new_fee_manager /\ get_core_from_usd m (mk_asset 0 (usd_symbol 4)) = Ok (core 0).

(** The entry for every other action, or nothing. *)
Definition default_fee (m : transaction_fee_manager) (fees : undo_index action_fee_object) : result asset :=
  match find_fee fees config.system_account_name defaultfee_name with
  | Some f => table_fee m f
  | None => Ok (core 0)
  end.

Lemma get_native_fee_none (m : transaction_fee_manager) (a n : Z) : rate_ok m -> get_native_fee m a n = Ok (core 0).
Proof.
  intros [Hm Hr]. unfold get_native_fee. rewrite Hm. unfold new_fee_manager, init_native_fee. cbn [fee_map].
  destruct (decide ((config.system_account_name, defaultfee_name) = (a, n))) as [E|Hne].
  - rewrite (list_find_cons_eq _ _ E) || (simpl; rewrite decide_True by done). done.
  - simpl. by rewrite decide_False.
Qed.

Lemma required_fee_default (m : transaction_fee_manager) (fees : undo_index action_fee_object) (a n : Z) :
  rate_ok m ->
  required_fee_of m fees a n =
  match find_fee fees a n with
  | Some f => match table_fee m f with
              | Ok c => Ok c
              | Throw undefined_behaviour => Throw undefined_behaviour
              | Throw _ => default_fee m fees
              end
  | None => default_fee m fees
  end.
Proof.
  intros R. unfold required_fee_of, default_fee. rewrite !(get_native_fee_none m _ _ R).
  destruct (find_fee fees a n) as [f|]; [|done]. by destruct (table_fee m f) as [c|[]].
Qed.

Lemma find_fee_Some (u : undo_index action_fee_object) (a n : Z) (f : action_fee_object) :
  table_ok fee_keys afo_id u ->
  find_fee u a n = Some f <-> contents u !! afo_id f = Some f /\ afo_account f = a /\ afo_message_type f = n.
Proof.
  intros T. unfold find_fee. split.
  - intros (i & Hi & [= <- <-])%db_find_by_Some. destruct T as (_ & Hid & _). by destruct (Hid _ _ Hi) as [-> _].
  - intros (Hf & <- & <-). eapply (db_find_by_unique fee_keys by_fee_action); [left|apply T|exact Hf].
Qed.

Lemma find_fee_None (u : undo_index action_fee_object) (a n i : Z) (f : action_fee_object) :
  find_fee u a n = None -> contents u !! i = Some f -> ~ (afo_account f = a /\ afo_message_type f = n).
Proof. intros E Hf [<- <-]. by apply (proj1 (db_find_by_None _ _ _) E _ _ Hf). Qed.

(** The table after [setfee]: the entry of the action, all others as before. *)
Lemma setfee_lookup (u u' : undo_index action_fee_object) (auths : list permission_level) (act : setfee) :
  table_ok fee_keys afo_id u -> room 1 u -> apply_dcd_setfee u auths act = Ok u' ->
  table_ok fee_keys afo_id u' /\
  (exists i, find_fee u' (sf_account act) (sf_action act) =
     Some (mk_fee_object i (sf_account act) (sf_action act) (sf_fee act))) /\
  forall a n, ~ (a = sf_account act /\ n = sf_action act) -> find_fee u' a n = find_fee u a n.
Proof.
  intros T R E. unfold apply_dcd_setfee in E. destruct (require_authorization _ _) as [[]|]; [|done]. simpl in E.
  fold (find_fee u (sf_account act) (sf_action act)) in E.
  destruct (find_fee u (sf_account act) (sf_action act)) as [f|] eqn:Ef.
  - apply (find_fee_Some _ _ _ _ T) in Ef as (Hf & Ha & Hn).
    eapply (table_ok_modify fee_keys afo_id) in E as (T' & Hc & _); [|done|by intros o; repeat constructor|done].
    assert (Hf' : contents u' !! afo_id f = Some (mk_fee_object (afo_id f) (sf_account act) (sf_action act) (sf_fee act))).
    { rewrite Hc, lookup_alter_eq, Hf. simpl. by rewrite Ha, Hn. }
    split; [done|]. split; [exists (afo_id f); by apply find_fee_Some|]. intros a n Hne. apply option_eq. intros g.
    rewrite !find_fee_Some by done. destruct (decide (afo_id g = afo_id f)) as [Eg|Hg].
    + rewrite Eg, Hf', Hf. split; intros ([= <-] & <- & <-); by destruct Hne.
    + rewrite Hc, lookup_alter_ne by done. done.
  - destruct (db_create _ _ _) as [[u1 f]|] eqn:Ec; [|done]. injection E as <-.
    eapply (table_ok_create fee_keys afo_id) in Ec as (T' & -> & Hc & _); [|done|done|done]. split; [done|]. split.
    + exists (_next_id u). apply find_fee_Some; [done|]. simpl. by rewrite Hc, lookup_insert_eq.
    + intros a n Hne. apply option_eq. intros g. rewrite !find_fee_Some by done. rewrite Hc, lookup_insert_Some.
      pose proof (table_ok_fresh _ _ _ T) as Hfr. split.
      * intros ([[Eg <-]|[_ Hg]] & <- & <-); [by destruct Hne|done].
      * intros (Hg & <- & <-). split; [|done]. right. split; [congruence|done].
Qed.

(** A fee that the system account sets is what the action costs from then on: the conversion of the dollars
    at the current rate, or, when the conversion throws, what actions without a fee cost. Unless it was the default
    that was set, no other action costs something else. *)
Theorem setfee_sets_fee (m : transaction_fee_manager) (u u' : undo_index action_fee_object)
    (auths : list permission_level) (act : setfee) :
  rate_ok m -> table_ok fee_keys afo_id u -> room 1 u -> apply_dcd_setfee u auths act = Ok u' ->
  (exists l, l ∈ auths /\ actor l = config.system_account_name) /\ table_ok fee_keys afo_id u' /\
  (forall c, get_core_from_usd m (sf_fee act) = Ok c -> required_fee_of m u' (sf_account act) (sf_action act) = Ok c) /\
  (forall e, e <> undefined_behaviour -> get_core_from_usd m (sf_fee act) = Throw e ->
     required_fee_of m u' (sf_account act) (sf_action act) = default_fee m u') /\
  (forall a n, ~ (a = sf_account act /\ n = sf_action act) ->
     ~ (sf_account act = config.system_account_name /\ sf_action act = defaultfee_name) ->
     required_fee_of m u' a n = required_fee_of m u a n).
Proof.
  intros Rt T R E. destruct (setfee_lookup u u' auths act T R E) as (T' & [i Hi] & Ho).
  assert (Hadd : forall c, get_core_from_usd m (sf_fee act) = Ok c -> asset_add_assign (core 0) c = Ok c).
  { intros c Hc. unfold get_core_from_usd, make_asset in Hc. bind_ok. simplify_eq. breflect.
    unfold asset_add_assign, is_amount_within_range, max_amount in *. breflect. cbn [sym core amount].
    rewrite bool_decide_eq_true_2 by done. cbn [dcd_assert mbind result_bind]. unfold signed64.
    rewrite (proj2 (Z.leb_le _ _)), (proj2 (Z.ltb_lt _ _)) by lia. done. }
  split_and!; [| done | | |].
  - unfold apply_dcd_setfee, require_authorization in E. destruct (existsb _ _) eqn:Ex; [|done].
    apply existsb_exists in Ex as (l & Hl & Hx). exists l. split; [by apply list_elem_of_In|by apply Z.eqb_eq].
  - intros c Hc. rewrite required_fee_default, Hi by done. unfold table_fee. cbn [afo_fee]. rewrite Hc. cbn [mbind result_bind].
    by rewrite (Hadd c Hc).
  - intros e He Hc. rewrite required_fee_default, Hi by done. unfold table_fee. cbn [afo_fee]. rewrite Hc. cbn [mbind result_bind].
    by destruct e.
  - intros a n Hne Hd. rewrite !required_fee_default by done. unfold default_fee. rewrite !Ho; [done|naive_solver|done].
Qed.

Lemma setfee_sets_fee_witness :
  let act := mk_setfee 5 7 (mk_asset 25000 (usd_symbol 4)) in
  exists u', apply_dcd_setfee undo_index_empty [mk_level config.system_account_name config.active_name] act = Ok u' /\
    required_fee_of new_fee_manager u' 5 7 = Ok (core 250000).
Proof.
  intros act. eexists. split; [reflexivity|].
  refine (proj1 (proj2 (proj2 (setfee_sets_fee new_fee_manager undo_index_empty _
    [mk_level config.system_account_name config.active_name] act _ _ _ _))) _ _); [split; reflexivity|by split|by vm_compute|reflexivity|reflexivity].
Defined.

(** Fees are not checked for their sign or size. The product with the precision wraps around, so that a
    negative fee of one dollar costs 18446744072.70955 tokens, and a fee of 18446744073.7096 dollars 0.00004. *)
Theorem negative_fee_is_charged :
  get_core_from_usd new_fee_manager (mk_asset (-10000) (usd_symbol 4)) = Ok (core 1844674407270955) /\
  get_core_from_usd new_fee_manager (mk_asset 184467440737096 (usd_symbol 4)) = Ok (core 4).
Proof. split; reflexivity. Qed.
