(* ===== verification/CodeActions.v ===== *)
(** * Contracts of accounts

    The native actions that install the code and the interface of a contract (libraries/chain/dcd_contract.cpp:
    [apply_dcd_setcode], [apply_dcd_setabi]; code_object.hpp). Accounts with the same code share one object that
    counts them. The hash of the code and the validation of WebAssembly are parameters. *)

From S2P Require Import Prelude Types Authority UndoIndex Database AuthorizationManager SystemContract.

Record code_object := mk_code {
  co_id : Z;
  co_hash : digest;
  co_code : list Z;
  code_ref_count : Z;
  first_block_used : Z;
  co_vm_type : Z;
  co_vm_version : Z
}.

Definition code_key (h : digest) (vmtype vmversion : Z) : list Z :=
  [hash0 h; hash1 h; hash2 h; hash3 h; vmtype; vmversion].
Definition by_code_hash (o : code_object) : list Z := code_key (co_hash o) (co_vm_type o) (co_vm_version o).
Definition code_keys := [by_code_hash].

Class Code := {
  hash_code : list Z -> digest;
  validate_code : list Z -> result unit
}.

Record setcode := mk_setcode { sc_account : account_name; sc_vmtype : Z; sc_vmversion : Z; sc_code : list Z }.
Record setabi := mk_setabi { sa_account : account_name; sa_abi : list Z }.

Definition add_refs (d : Z) (o : code_object) : code_object :=
  mk_code (co_id o) (co_hash o) (co_code o) (u64 (code_ref_count o + d)) (first_block_used o) (co_vm_type o) (co_vm_version o).

Definition with_code (h : digest) (vmtype vmversion time : Z) (a : account_metadata_object) : account_metadata_object :=
  mk_metadata (amo_id a) (amo_name a) (recv_sequence a) (auth_sequence a) (u64 (code_sequence a + 1)) (abi_sequence a)
    h time (flags a) vmtype vmversion.

Definition with_abi_sequence (a : account_metadata_object) : account_metadata_object :=
  mk_metadata (amo_id a) (amo_name a) (recv_sequence a) (auth_sequence a) (code_sequence a) (u64 (abi_sequence a + 1))
    (code_hash a) (last_code_update a) (flags a) (vm_type a) (vm_version a).

Section actions.
Context `{Code} (head_block_num pending_block_time : Z).

(** An account gives up its code. *)
Definition drop_code (codes : undo_index code_object) (account : account_metadata_object) (h : digest) :
    result (undo_index code_object) :=
  old ← db_get_by by_code_hash codes (code_key (code_hash account) (vm_type account) (vm_version account));
  _ ← dcd_assert (negb (bool_decide (co_hash old = h))) set_exact_code;
  if code_ref_count old =? 1 then db_remove codes (co_id old)
  else db_modify code_keys codes (co_id old) (add_refs (-1)).

(** And takes the new one. *)
Definition take_code (codes : undo_index code_object) (act : setcode) (h : digest) : result (undo_index code_object) :=
  match db_find_by by_code_hash codes (code_key h (sc_vmtype act) (sc_vmversion act)) with
  | Some o => db_modify code_keys codes (co_id o) (add_refs 1)
  | None =>
      '(u, _) ← db_create code_keys codes
        (fun i => mk_code i h (sc_code act) 1 (u32 (head_block_num + 1)) (sc_vmtype act) (sc_vmversion act));
      Ok u
  end.

Definition apply_dcd_setcode (db : database) (codes : undo_index code_object) (auths : list permission_level)
    (act : setcode) : result (database * undo_index code_object) :=
  _ ← require_authorization auths (sc_account act);
  _ ← dcd_assert (sc_vmtype act =? 0) invalid_contract_vm_type;
  _ ← dcd_assert (sc_vmversion act =? 0) invalid_contract_vm_version;
  let has_code := negb (bool_decide (sc_code act = [])) in
  h ← (if has_code then _ ← validate_code (sc_code act); Ok (hash_code (sc_code act)) else Ok digest_zero);
  account ← db_get_by by_metadata_name (metadata db) [sc_account act];
  let existing_code := negb (bool_decide (code_hash account = digest_zero)) in
  _ ← dcd_assert (has_code || existing_code) set_exact_code;
  codes ← (if existing_code then drop_code codes account h else Ok codes);
  codes ← (if has_code then take_code codes act h else Ok codes);
  mt ← db_modify metadata_keys (metadata db) (amo_id account)
         (with_code h (sc_vmtype act) (sc_vmversion act) pending_block_time);
  Ok (with_accounts db (account_index db) mt, codes).

Definition apply_dcd_setabi (db : database) (auths : list permission_level) (act : setabi) : result database :=
  _ ← require_authorization auths (sa_account act);
  account ← db_get_by by_account_name (account_index db) [sa_account act];
  t ← db_modify account_keys (account_index db) (ao_id account)
        (fun a => mk_account (ao_id a) (ao_name a) (creation_date a) (sa_abi act));
  m ← db_get_by by_metadata_name (metadata db) [sa_account act];
  mt ← db_modify metadata_keys (metadata db) (amo_id m) with_abi_sequence;
  Ok (with_accounts db t mt).
End actions.

(** ** References *)

(** The accounts that run the code with a hash. *)
Definition users (h : digest) (m : gmap Z account_metadata_object) : nat := size (filter (fun ia => code_hash (snd ia) = h) m).

Lemma users_insert (h : digest) (m : gmap Z account_metadata_object) (i : Z) (a a' : account_metadata_object) :
  m !! i = Some a ->
  (users h (<[i := a']> m) + (if bool_decide (code_hash a = h) then 1 else 0) =
   users h m + (if bool_decide (code_hash a' = h) then 1 else 0))%nat.
Proof.
  intros Hi.
  assert (Hins : forall b n, n !! i = None ->
            users h (<[i := b]> n) = (users h n + if bool_decide (code_hash b = h) then 1 else 0)%nat).
  { intros b n Hn. unfold users. case_bool_decide.
    - rewrite map_filter_insert_True by done. rewrite map_size_insert_None; [lia|]. apply map_lookup_filter_None. by left.
    - rewrite map_filter_insert_False by done. rewrite delete_id by done. lia. }
  rewrite <- (insert_delete_id m i a) at 2 by done. rewrite <- insert_delete_eq.
  rewrite !Hins by apply lookup_delete_eq. lia.
Qed.

Lemma users_pos (h : digest) (m : gmap Z account_metadata_object) (i : Z) (a : account_metadata_object) :
  m !! i = Some a -> code_hash a = h -> (0 < users h m)%nat.
Proof.
  intros Hi Hh. pose proof (users_insert h m i a a Hi) as E. unfold users.
  assert (Hin : filter (fun ia => code_hash (snd ia) = h) m !! i = Some a) by (by apply map_lookup_filter_Some).
  apply Nat.neq_0_lt_0. intros E0%map_size_empty_inv. by rewrite E0 in Hin.
Qed.

(** The objects are those of the hashes that [f] counts, and hold code with these hashes. *)
Record represents `{Code} (codes : undo_index code_object) (f : digest -> nat) : Prop := {
  rp_table : table_ok code_keys co_id codes;
  rp_count : forall i o, contents codes !! i = Some o ->
    co_vm_type o = 0 /\ co_vm_version o = 0 /\ co_hash o <> digest_zero /\
    code_ref_count o = Z.of_nat (f (co_hash o)) /\ 0 < code_ref_count o < 2 ^ 64 /\
    hash_code (co_code o) = co_hash o;
  rp_found : forall h, h <> digest_zero -> (0 < f h)%nat -> exists i o, contents codes !! i = Some o /\ co_hash o = h
}.

Definition shift (h : digest) (d : Z) (f : digest -> nat) : digest -> nat :=
  fun h' => if bool_decide (h' = h) then Z.to_nat (Z.of_nat (f h') + d) else f h'.

Lemma code_key_inj (h h' : digest) (a b a' b' : Z) : code_key h a b = code_key h' a' b' -> h = h' /\ a = a' /\ b = b'.
Proof. destruct h, h'. intros [= -> -> -> -> -> ->]. done. Qed.

Lemma represents_ext `{Code} (codes : undo_index code_object) (f g : digest -> nat) :
  (forall h, h <> digest_zero -> f h = g h) -> represents codes f -> represents codes g.
Proof.
  intros E [H1 H2 H3]. split; [done| |].
  - intros i o Ho. destruct (H2 i o Ho) as (A & B & C & D & F). rewrite <- E by done. done.
  - intros h Hh. rewrite <- E by done. by apply H3.
Qed.

Lemma code_unique `{Code} (codes : undo_index code_object) (f : digest -> nat) (i j : Z) (o o' : code_object) :
  represents codes f -> contents codes !! i = Some o -> contents codes !! j = Some o' -> co_hash o = co_hash o' -> i = j.
Proof.
  intros R Ho Ho' E. destruct (rp_count _ _ R _ _ Ho) as (A & B & _). destruct (rp_count _ _ R _ _ Ho') as (A' & B' & _).
  destruct (rp_table _ _ R) as (_ & _ & Hu). eapply Hu; [done|done|]. unfold conflict, code_keys. simpl.
  rewrite orb_false_r. apply bool_decide_eq_true_2. unfold by_code_hash. by rewrite E, A, A', B, B'.
Qed.

Lemma add_refs_keeps (d : Z) : keeps_keys code_keys (add_refs d).
Proof. intros o. by repeat constructor. Qed.

(** One reference more or less to an object that stays. *)
Lemma represents_shift `{Code} (codes u : undo_index code_object) (f : digest -> nat) (d : Z) (o : code_object) :
  represents codes f -> contents codes !! co_id o = Some o -> db_modify code_keys codes (co_id o) (add_refs d) = Ok u ->
  0 < code_ref_count o + d < 2 ^ 64 -> represents u (shift (co_hash o) d f).
Proof.
  intros R Ho E Hd. destruct (rp_count _ _ R _ _ Ho) as (A & B & C & D & _ & G).
  eapply (table_ok_modify code_keys co_id) in E as (T & Hc & _); [|apply R|apply add_refs_keeps|done]. split; [done| |].
  - intros i o'. rewrite Hc. destruct (decide (co_id o = i)) as [<-|Hne].
    + rewrite lookup_alter_eq, Ho. intros [= <-]. simpl. unfold shift. rewrite bool_decide_eq_true_2 by done.
      rewrite wrap_small by (split; lia). split_and!; try done; try lia.
    + rewrite lookup_alter_ne by done. intros Ho'. unfold shift. rewrite bool_decide_eq_false_2; [exact (rp_count _ _ R _ _ Ho')|].
      intros Eh. apply Hne. by eapply (code_unique _ _ _ _ o o' R).
  - intros h Hh Hf. rewrite Hc. destruct (decide (h = co_hash o)) as [->|Hne].
    + exists (co_id o), (add_refs d o). by rewrite lookup_alter_eq, Ho.
    + unfold shift in Hf. rewrite bool_decide_eq_false_2 in Hf by done. destruct (rp_found _ _ R h Hh Hf) as (i & o' & Ho' & <-).
      exists i, o'. split; [|done]. rewrite lookup_alter_ne; [done|]. intros <-. congruence.
Qed.

Lemma drop_code_spec `{Code} (codes u : undo_index code_object) (f : digest -> nat) (a : account_metadata_object) (h : digest) :
  represents codes f -> code_hash a <> digest_zero -> (0 < f (code_hash a))%nat ->
  drop_code codes a h = Ok u -> represents u (shift (code_hash a) (-1) f) /\ code_hash a <> h.
Proof.
  intros R Hz Hf E. unfold drop_code, db_get_by in E. destruct (db_find_by _ _ _) as [o|] eqn:Eo; [|done]. cbn [mbind result_bind] in E.
  apply db_find_by_Some in Eo as (i & Ho & Hk). apply code_key_inj in Hk as (Hh & _ & _).
  destruct (rp_table _ _ R) as (_ & Hid & _). destruct (Hid _ _ Ho) as [<- _]. clear Hid. case_bool_decide as Hne; [done|].
  cbn [negb dcd_assert mbind result_bind] in E. rewrite Hh in Hne. split; [|done]. rewrite <- Hh.
  destruct (rp_count _ _ R _ _ Ho) as (A & B & C & D & F). destruct (Z.eqb_spec (code_ref_count o) 1) as [E1|E1].
  - eapply (table_ok_remove code_keys co_id) in E as (T & Hc & _); [|apply R]. split; [done| |].
    + intros j o'. rewrite Hc. intros [Hj Ho']%lookup_delete_Some. unfold shift. rewrite bool_decide_eq_false_2; [exact (rp_count _ _ R _ _ Ho')|].
      intros Eh. apply Hj. by eapply (code_unique _ _ _ _ o o' R).
    + intros h' Hh' Hf'. unfold shift in Hf'. case_bool_decide; [subst; lia|].
      destruct (rp_found _ _ R h' Hh' Hf') as (j & o' & Ho' & <-). exists j, o'. split; [|done]. rewrite Hc, lookup_delete_ne; [done|].
      intros <-. congruence.
  - eapply represents_shift; try done. lia.
Qed.

Lemma take_code_spec `{Code} (n : Z) (codes u : undo_index code_object) (f : digest -> nat) (act : setcode) (h : digest) :
  represents codes f -> h <> digest_zero -> sc_vmtype act = 0 -> sc_vmversion act = 0 -> room 1 codes ->
  Z.of_nat (f h) + 1 < 2 ^ 64 -> hash_code (sc_code act) = h -> take_code n codes act h = Ok u -> represents u (shift h 1 f).
Proof.
  intros R Hz Hv1 Hv2 Rm Hb Hsc E. unfold take_code in E. rewrite Hv1, Hv2 in E.
  destruct (db_find_by _ _ _) as [o|] eqn:Eo.
  - apply db_find_by_Some in Eo as (i & Ho & Hk). apply code_key_inj in Hk as (<- & _ & _).
    destruct (rp_table _ _ R) as (_ & Hid & _). destruct (Hid _ _ Ho) as [<- _].
    destruct (rp_count _ _ R _ _ Ho) as (A & B & C & D & F). eapply represents_shift; try done. lia.
  - destruct (db_create _ _ _) as [[u1 o]|] eqn:Ec; [|done]. injection E as <-.
    assert (H0 : f h = 0%nat).
    { destruct (f h) eqn:Efh; [done|]. destruct (rp_found _ _ R h Hz ltac:(lia)) as (i & o' & Ho' & <-).
      destruct (rp_count _ _ R _ _ Ho') as (A & B & _). destruct (proj1 (db_find_by_None _ _ _) Eo i o' Ho').
      unfold by_code_hash. by rewrite A, B. }
    eapply (table_ok_create code_keys co_id) in Ec as (T & -> & Hc & _); [|apply R|done|done].
    pose proof (table_ok_fresh _ _ _ (rp_table _ _ R)) as Hfr. split; [done| |].
    + intros i o'. rewrite Hc. unfold shift. intros [[<- <-]|[Hi Ho']]%lookup_insert_Some.
      * simpl. rewrite bool_decide_eq_true_2, H0 by done. split_and!; done.
      * rewrite bool_decide_eq_false_2; [exact (rp_count _ _ R _ _ Ho')|]. intros Eh. destruct (rp_count _ _ R _ _ Ho') as (_ & _ & _ & D & F).
        rewrite Eh in D. lia.
    + intros h' Hh' Hf'. unfold shift in Hf'. rewrite Hc. case_bool_decide as Eh.
      * subst. exists (_next_id codes). eexists. by rewrite lookup_insert_eq.
      * destruct (rp_found _ _ R h' Hh' Hf') as (j & o' & Ho' & <-). exists j, o'. split; [|done].
        rewrite lookup_insert_ne; [done|congruence].
Qed.

(** Every code object counts the accounts that run it, of which there is one, and every account that has code
    finds its object. *)
Record codes_ok `{Code} (db : database) (codes : undo_index code_object) : Prop := {
  ck_metadata : table_ok metadata_keys amo_id (metadata db);
  ck_codes : represents codes (fun h => users h (contents (metadata db)));
  ck_vm : forall i a, contents (metadata db) !! i = Some a -> code_hash a <> digest_zero -> vm_type a = 0 /\ vm_version a = 0
}.

Lemma metadata_by_name (db : database) (n : account_name) (a : account_metadata_object) :
  table_ok metadata_keys amo_id (metadata db) -> db_get_by by_metadata_name (metadata db) [n] = Ok a ->
  contents (metadata db) !! amo_id a = Some a /\ amo_name a = n.
Proof.
  intros (_ & Hid & _) E. unfold db_get_by in E. destruct (db_find_by _ _ _) as [a'|] eqn:Ea; [|done]. injection E as <-.
  apply db_find_by_Some in Ea as (i & Ha & [= Hn]). by destruct (Hid _ _ Ha) as [-> _].
Qed.

Lemma modify_metadata (mt : undo_index account_metadata_object) (g : account_metadata_object -> account_metadata_object)
    (a : account_metadata_object) :
  table_ok metadata_keys amo_id mt -> contents mt !! amo_id a = Some a ->
  (forall x, amo_id (g x) = amo_id x /\ amo_name (g x) = amo_name x) ->
  exists mt', db_modify metadata_keys mt (amo_id a) g = Ok mt' /\ table_ok metadata_keys amo_id mt' /\
    contents mt' = <[amo_id a := g a]> (contents mt).
Proof.
  intros T Ha Hg. assert (K : keeps_keys metadata_keys g).
  { intros x. constructor; [|constructor]. unfold by_metadata_name. by rewrite (proj2 (Hg x)). }
  destruct (db_modify_ok metadata_keys mt (amo_id a) g a Ha) as [mt' E]; [apply T|done|]. exists mt'. split; [done|].
  apply (table_ok_modify metadata_keys amo_id) in E as (T' & Hc & _); [|done|done|intros x; apply Hg]. split; [done|].
  rewrite Hc. apply map_eq. intros i. destruct (decide (amo_id a = i)) as [<-|].
  - by rewrite lookup_alter_eq, lookup_insert_eq, Ha.
  - by rewrite lookup_alter_ne, lookup_insert_ne.
Qed.

Section invariant.
Context `{Code} (head_block_num pending_block_time : Z).
Abbreviation setcode_of := (apply_dcd_setcode head_block_num pending_block_time).

(** The code objects after one account has changed its code. *)
Lemma swap_codes (codes u1 u : undo_index code_object) (m : gmap Z account_metadata_object) (a a' : account_metadata_object)
    (act : setcode) (h : digest) :
  represents codes (fun h => users h m) -> m !! amo_id a = Some a -> code_hash a' = h ->
  sc_vmtype act = 0 -> sc_vmversion act = 0 -> room 1 u1 -> (forall h, Z.of_nat (users h m) + 1 < 2 ^ 64) ->
  (sc_code act <> [] <-> h <> digest_zero) -> (sc_code act <> [] -> hash_code (sc_code act) = h) ->
  (if negb (bool_decide (code_hash a = digest_zero)) then drop_code codes a h else Ok codes) = Ok u1 ->
  (if negb (bool_decide (sc_code act = [])) then take_code head_block_num u1 act h else Ok u1) = Ok u ->
  represents u (fun h => users h (<[amo_id a := a']> m)).
Proof.
  intros R Ha Hh Hv1 Hv2 Rm Hb Hz Hsc E1 E2. pose proof (fun h' => users_insert h' m (amo_id a) a a' Ha) as Hu.
  assert (R1 : represents u1 (fun h' => if bool_decide (h' = code_hash a) then pred (users h' m) else users h' m)).
  { destruct (decide (code_hash a = digest_zero)) as [Hc|Hc].
    - rewrite bool_decide_eq_true_2 in E1 by done. injection E1 as <-. eapply represents_ext; [|exact R]. intros h' Hh'. cbn. by rewrite bool_decide_eq_false_2 by congruence.
    - rewrite bool_decide_eq_false_2 in E1 by done.
      apply (drop_code_spec _ _ _ _ _ R) in E1 as [E1 _]; [|done|by eapply users_pos].
      eapply represents_ext; [|exact E1]. intros h' Hh'. unfold shift.
      destruct (decide (h' = code_hash a)) as [->|]; [|by rewrite !bool_decide_eq_false_2].
      rewrite !bool_decide_eq_true_2 by done. pose proof (users_pos _ _ _ _ Ha eq_refl). lia. }
  assert (Hne : code_hash a <> digest_zero -> code_hash a <> h).
  { intros Hc. rewrite bool_decide_eq_false_2 in E1 by done. simpl in E1.
    apply (drop_code_spec _ _ _ _ _ R) in E1 as [_ ?]; [done|done|by eapply users_pos]. }
  destruct (decide (sc_code act = [])) as [Hc|Hc].
  - rewrite bool_decide_eq_true_2 in E2 by done. injection E2 as <-. assert (h = digest_zero) by (destruct (decide (h = digest_zero)); [done|tauto]).
    eapply represents_ext; [|exact R1]. intros h' Hh'. cbn. specialize (Hu h'). rewrite Hh in Hu.
    rewrite (bool_decide_eq_false_2 (h = h')) in Hu by congruence.
    destruct (decide (h' = code_hash a)) as [->|]; [rewrite !bool_decide_eq_true_2 in * by done; lia|].
    rewrite !bool_decide_eq_false_2 in * by congruence. lia.
  - rewrite bool_decide_eq_false_2 in E2 by done. assert (Hhz : h <> digest_zero) by tauto.
    apply (take_code_spec head_block_num _ _ _ _ _ R1) in E2; try done;
      [|specialize (Hb h); destruct (bool_decide (h = code_hash a)); lia|by apply Hsc].
    eapply represents_ext; [|exact E2]. intros h' Hh'. unfold shift. cbv beta. specialize (Hu h'). rewrite Hh in Hu.
    destruct (decide (h' = h)) as [->|Hn1].
    + rewrite (bool_decide_eq_true_2 (h = h)) by done. rewrite (bool_decide_eq_true_2 (h = h)) in Hu by done.
      destruct (decide (code_hash a = h)) as [Ea|Ea]; [destruct (Hne ltac:(congruence) Ea)|].
      rewrite (bool_decide_eq_false_2 (code_hash a = h)) in Hu by done.
      rewrite (bool_decide_eq_false_2 (h = code_hash a)) by congruence. lia.
    + rewrite (bool_decide_eq_false_2 (h' = h)) by done. rewrite (bool_decide_eq_false_2 (h = h')) in Hu by congruence.
      destruct (decide (h' = code_hash a)) as [->|Hn2].
      * rewrite (bool_decide_eq_true_2 (code_hash a = code_hash a)) by done.
        rewrite (bool_decide_eq_true_2 (code_hash a = code_hash a)) in Hu by done. lia.
      * rewrite (bool_decide_eq_false_2 (h' = code_hash a)) by done.
        rewrite (bool_decide_eq_false_2 (code_hash a = h')) in Hu by congruence. lia.
Qed.

(** The objects of an account that has code are there, so no lookup or change of them fails. *)
Lemma drop_code_total (codes : undo_index code_object) (f : digest -> nat) (a : account_metadata_object) (h : digest) :
  represents codes f -> code_hash a <> digest_zero -> (0 < f (code_hash a))%nat -> vm_type a = 0 -> vm_version a = 0 ->
  if bool_decide (code_hash a = h) then drop_code codes a h = Throw set_exact_code
  else exists u, drop_code codes a h = Ok u /\ _next_id u = _next_id codes.
Proof.
  intros R Hz Hf Hv1 Hv2. destruct (rp_found _ _ R _ Hz Hf) as (i & o & Ho & Eh).
  destruct (rp_count _ _ R _ _ Ho) as (A & B & _). destruct (rp_table _ _ R) as (_ & Hid & Hu).
  destruct (Hid _ _ Ho) as [<- _]. unfold drop_code, db_get_by.
  assert (code_key (code_hash a) (vm_type a) (vm_version a) = by_code_hash o) as ->.
  { unfold by_code_hash. by rewrite Eh, A, B, Hv1, Hv2. }
  rewrite (db_find_by_unique code_keys by_code_hash codes (co_id o) o) by (done || by left).
  cbn [mbind result_bind]. rewrite Eh. destruct (bool_decide _); [done|]. cbn [negb dcd_assert mbind result_bind].
  destruct (code_ref_count o =? 1).
  - destruct (db_remove_ok codes (co_id o) o Ho) as [u E]. exists u. split; [done|]. by apply db_remove_spec in E as (_ & E & _).
  - destruct (db_modify_ok code_keys codes (co_id o) (add_refs (-1)) o Ho Hu) as [u E]; [apply add_refs_keeps|].
    exists u. split; [done|]. by apply db_modify_spec in E as [_ E].
Qed.

Lemma take_code_total (codes : undo_index code_object) (f : digest -> nat) (act : setcode) (h : digest) :
  represents codes f -> exists u, take_code head_block_num codes act h = Ok u.
Proof.
  intros R. destruct (rp_table _ _ R) as (_ & Hid & Hu). unfold take_code. destruct (db_find_by _ _ _) as [o|] eqn:Eo.
  - apply db_find_by_Some in Eo as (i & Ho & _). destruct (Hid _ _ Ho) as [<- _].
    apply (db_modify_ok code_keys codes (co_id o) (add_refs 1) o Ho Hu). apply add_refs_keeps.
  - edestruct (db_create_ok code_keys codes) as [u ->]; [|by eexists]. intros i o Ho. unfold conflict, code_keys. simpl.
    rewrite orb_false_r. apply bool_decide_eq_false_2. intros E. by eapply (proj1 (db_find_by_None _ _ _) Eo).
Qed.

(** The hash that an account has with the code; zero is the hash of no code. *)
Definition new_hash (code : list Z) : digest := if bool_decide (code = []) then digest_zero else hash_code code.

(** Why the code of an account cannot be set. *)
Definition setcode_refused (db : database) (auths : list permission_level) (act : setcode) (e : exn) : Prop :=
  (e = missing_auth_exception /\ existsb (fun a => actor a =? sc_account act) auths = false) \/
  (e = invalid_contract_vm_type /\ sc_vmtype act <> 0) \/
  (e = invalid_contract_vm_version /\ sc_vmversion act <> 0) \/
  (sc_code act <> [] /\ validate_code (sc_code act) = Throw e) \/
  (e = out_of_range /\ forall i a, contents (metadata db) !! i = Some a -> amo_name a <> sc_account act) \/
  (e = set_exact_code /\ exists i a, contents (metadata db) !! i = Some a /\ amo_name a = sc_account act /\
     code_hash a = new_hash (sc_code act)).

(** What it does otherwise: the account [i] alone has the hash and the machine of the code. *)
Definition setcode_done (db db' : database) (act : setcode) : Prop :=
  exists i a, contents (metadata db) !! i = Some a /\ amo_name a = sc_account act /\ code_hash a <> new_hash (sc_code act) /\
    contents (metadata db') = <[i := with_code (new_hash (sc_code act)) 0 0 pending_block_time a]> (contents (metadata db)) /\
    db' = with_accounts db (account_index db) (metadata db').

(** The changes to the code objects, once the account is known. *)
Lemma swap_codes_total (db : database) (codes : undo_index code_object) (a : account_metadata_object) (act : setcode) :
  codes_ok db codes -> contents (metadata db) !! amo_id a = Some a -> sc_vmtype act = 0 -> sc_vmversion act = 0 ->
  (sc_code act <> [] -> hash_code (sc_code act) <> digest_zero) -> room 1 codes ->
  Z.of_nat (size (contents (metadata db))) + 1 < 2 ^ 64 -> code_hash a <> new_hash (sc_code act) ->
  exists u1 u,
    (if negb (bool_decide (code_hash a = digest_zero)) then drop_code codes a (new_hash (sc_code act)) else Ok codes) = Ok u1 /\
    (if negb (bool_decide (sc_code act = [])) then take_code head_block_num u1 act (new_hash (sc_code act)) else Ok u1) = Ok u /\
    forall a', code_hash a' = new_hash (sc_code act) -> represents u (fun h => users h (<[amo_id a := a']> (contents (metadata db)))).
Proof.
  intros [_ R V] Ha Hv1 Hv2 Hh Rm Hb Hne. set (h := new_hash (sc_code act)) in *.
  assert (E1 : exists u1, (if negb (bool_decide (code_hash a = digest_zero)) then drop_code codes a h else Ok codes) = Ok u1 /\
                 _next_id u1 = _next_id codes).
  { destruct (decide (code_hash a = digest_zero)) as [Hz|Hz]; [rewrite bool_decide_eq_true_2 by done; by exists codes|].
    rewrite bool_decide_eq_false_2 by done. destruct (V _ _ Ha Hz) as [V1 V2].
    pose proof (drop_code_total codes _ a h R Hz (users_pos _ _ _ _ Ha eq_refl) V1 V2) as T.
    by rewrite bool_decide_eq_false_2 in T. }
  destruct E1 as (u1 & E1 & En).
  assert (R1 : exists f, represents u1 f).
  { destruct (decide (code_hash a = digest_zero)) as [Hz|Hz].
    - rewrite bool_decide_eq_true_2 in E1 by done. injection E1 as <-. by eexists.
    - rewrite bool_decide_eq_false_2 in E1 by done.
      apply (drop_code_spec _ _ _ _ _ R) in E1 as [E1 _]; [by eexists|done|by eapply users_pos]. }
  destruct R1 as [f R1].
  assert (E2 : exists u, (if negb (bool_decide (sc_code act = [])) then take_code head_block_num u1 act h else Ok u1) = Ok u).
  { destruct (bool_decide (sc_code act = [])); [by eexists|]. by eapply take_code_total. }
  destruct E2 as [u E2]. exists u1, u. split; [done|]. split; [done|]. intros a' Ea'.
  apply (swap_codes codes u1 u (contents (metadata db)) a a' act h); try done.
  - unfold room in *. lia.
  - intros h'. pose proof (map_size_filter (fun ia => code_hash (snd ia) = h') (contents (metadata db))). unfold users. lia.
  - unfold h, new_hash. destruct (decide (sc_code act = [])) as [Hc|Hc];
      [by rewrite bool_decide_eq_true_2|rewrite bool_decide_eq_false_2 by done]. split; [done|by intros _].
  - intros Hc. unfold h, new_hash. by rewrite bool_decide_eq_false_2.
Qed.

(** The code the account already has, or none when it has none. *)
Lemma setcode_same (db : database) (codes : undo_index code_object) (a : account_metadata_object) (act : setcode) :
  codes_ok db codes -> contents (metadata db) !! amo_id a = Some a ->
  (sc_code act <> [] -> hash_code (sc_code act) <> digest_zero) -> code_hash a = new_hash (sc_code act) ->
  (_ ← dcd_assert (negb (bool_decide (sc_code act = [])) || negb (bool_decide (code_hash a = digest_zero))) set_exact_code;
   if negb (bool_decide (code_hash a = digest_zero)) then drop_code codes a (new_hash (sc_code act)) else Ok codes) =
  Throw set_exact_code.
Proof.
  intros [_ R V] Ha Hh He. unfold new_hash in *. destruct (decide (sc_code act = [])) as [Hc|Hc].
  - rewrite (bool_decide_eq_true_2 (sc_code act = [])) in * by done. by rewrite bool_decide_eq_true_2.
  - rewrite (bool_decide_eq_false_2 (sc_code act = [])) in * by done.
    assert (Hz : code_hash a <> digest_zero) by (rewrite He; auto).
    rewrite (bool_decide_eq_false_2 (code_hash a = digest_zero)) by done. cbn [negb orb dcd_assert mbind result_bind].
    destruct (V _ _ Ha Hz) as [V1 V2].
    pose proof (drop_code_total codes _ a (hash_code (sc_code act)) R Hz (users_pos _ _ _ _ Ha eq_refl) V1 V2) as T.
    by rewrite bool_decide_eq_true_2 in T.
Qed.

Lemma bind_assoc {A B C} (m : result A) (f : A -> result B) (g : B -> result C) :
  (a ← m; b ← f a; g b) = (b ← (a ← m; f a); g b).
Proof. by destruct m. Qed.

Definition checked_hash (code : list Z) : result digest :=
  if negb (bool_decide (code = [])) then _ ← validate_code code; Ok (hash_code code) else Ok digest_zero.

Lemma checked_hash_spec (code : list Z) :
  match checked_hash code with
  | Ok h => h = new_hash code
  | Throw e => code <> [] /\ validate_code code = Throw e
  end.
Proof.
  unfold checked_hash, new_hash. destruct (decide (code = [])) as [->|Hc]; [done|].
  rewrite bool_decide_eq_false_2 by done. cbn [negb]. by destruct (validate_code code).
Qed.

(** Setting the code of an account, on every branch. *)
Lemma setcode_wp (db : database) (codes : undo_index code_object) (auths : list permission_level) (act : setcode) :
  codes_ok db codes -> (sc_code act <> [] -> hash_code (sc_code act) <> digest_zero) -> room 1 codes ->
  Z.of_nat (size (contents (metadata db))) + 1 < 2 ^ 64 ->
  match setcode_of db codes auths act with
  | Ok (db', codes') => setcode_done db db' act /\ codes_ok db' codes'
  | Throw e => setcode_refused db auths act e
  end.
Proof.
  intros K Hh Rm Hb. unfold apply_dcd_setcode, require_authorization, setcode_refused.
  destruct (existsb _ _) eqn:Ea; cbn [mbind result_bind dcd_assert]; [|tauto].
  destruct (Z.eqb_spec (sc_vmtype act) 0) as [Hv1|]; cbn [mbind result_bind dcd_assert]; [|tauto].
  destruct (Z.eqb_spec (sc_vmversion act) 0) as [Hv2|]; cbn [mbind result_bind dcd_assert]; [|tauto].
  change (if negb (bool_decide (sc_code act = [])) then _ ← validate_code (sc_code act); Ok (hash_code (sc_code act))
          else Ok digest_zero) with (checked_hash (sc_code act)).
  pose proof (checked_hash_spec (sc_code act)) as Hw. destruct (checked_hash _) as [h|e]; cbn [mbind result_bind]; [subst h|tauto].
  destruct (db_get_by _ _ _) as [a|e] eqn:Eg; cbn [mbind result_bind].
  2:{ unfold db_get_by in Eg. destruct (db_find_by _ _ _) eqn:Ef; [done|]. injection Eg as <-. do 4 right. left. split; [done|].
      intros i a Ha En. apply (proj1 (db_find_by_None _ _ _) Ef i a Ha). unfold by_metadata_name. by rewrite En. }
  apply metadata_by_name in Eg as [Ha En]; [|apply K].
  rewrite bind_assoc. destruct (decide (code_hash a = new_hash (sc_code act))) as [He|He].
  { rewrite (setcode_same db codes a act K Ha Hh He). cbn [mbind result_bind]. do 5 right. split; [done|]. by exists (amo_id a), a. }
  assert (Ho : negb (bool_decide (sc_code act = [])) || negb (bool_decide (code_hash a = digest_zero)) = true).
  { unfold new_hash in He. destruct (decide (sc_code act = [])) as [Hc|Hc]; [|by rewrite bool_decide_eq_false_2].
    rewrite bool_decide_eq_true_2 in * by done. by rewrite bool_decide_eq_false_2. }
  rewrite Ho. cbn [dcd_assert mbind result_bind].
  destruct (swap_codes_total db codes a act K Ha Hv1 Hv2 Hh Rm Hb He) as (u1 & u & -> & E2 & R). cbn [mbind result_bind].
  rewrite E2. cbn [mbind result_bind]. rewrite Hv1, Hv2.
  destruct (modify_metadata (metadata db) (with_code (new_hash (sc_code act)) 0 0 pending_block_time) a) as (mt & Em & T & Hc);
    [apply K|done|done|]. rewrite Em. cbn [mbind result_bind]. split.
  - exists (amo_id a), a. done.
  - split; simpl; [done|rewrite Hc; by apply R|]. rewrite Hc. intros i b [[<- <-]|[_ Hi]]%lookup_insert_Some; [done|].
    by apply (ck_vm _ _ K i).
Qed.
End invariant.
