(* ===== verification/PermissionState.v ===== *)
(** * Accounts, permissions and links as the native actions keep them

    The invariant of the tables that the native actions work on, its
    preservation by every action, and what the actions do. First the tree of
    the permissions of an account. *)

From S2P Require Import Prelude Name Types BlockTimestamp Authority AuthorityChecker UndoIndex Database AuthorizationManager SystemContract.

(** * The tree of permissions

    The permissions of an account form a tree under its [owner] permission; the operations of the authorization manager keep it
    one, and [satisfies] walks it: a permission satisfies another one exactly when it is the other one or one of its ancestors. *)

(** ** Trees *)
Abbreviation perm_map := (gmap Z permission_object).

Record node_ok (m : perm_map) (i : Z) (p : permission_object) : Prop := {
  node_name : name p <> 0;
  node_owner : owner p <> 0;
  node_parent : 0 <= parent p < i;
  node_has_parent : exists q, m !! parent p = Some q /\ (parent p <> 0 -> owner q = owner p);
  node_root : parent p = 0 <-> name p = config.owner_name
}.

(** The reserved permission is there, and every other one hangs below its parent. *)
Record tree_ok (m : perm_map) : Prop := {
  tree_reserved : exists p, m !! 0 = Some p /\ owner p = 0 /\ name p = 0 /\ parent p = 0;
  tree_ids : forall i p, m !! i = Some p -> po_id p = i /\ 0 <= i;
  tree_nodes : forall i p, m !! i = Some p -> i <> 0 -> node_ok m i p
}.

(** [i] is [j] or an ancestor of [j]. *)
Inductive ancestor (m : perm_map) (i : Z) : Z -> Prop :=
  | ancestor_refl : ancestor m i i
  | ancestor_step j p : m !! j = Some p -> j <> 0 -> ancestor m i (parent p) -> ancestor m i j.

Lemma ancestor_inv (m : perm_map) (i j : Z) (p : permission_object) :
  m !! j = Some p -> i <> j -> ancestor m i j -> j <> 0 /\ ancestor m i (parent p).
Proof. intros Hj Hne H. destruct H as [|j p' Hp' H0 H]; [done|]. simplify_eq. done. Qed.

Lemma ancestor_owner (m : perm_map) (i j : Z) (p q : permission_object) :
  tree_ok m -> i <> 0 -> m !! i = Some p -> m !! j = Some q -> ancestor m i j -> owner p = owner q.
Proof.
  intros HT Hi Hp Hq H. revert q Hq. induction H as [|j q' Hj H0 H IH]; intros q Hq; [congruence|].
  rewrite Hj in Hq. injection Hq as <-. destruct (tree_nodes m HT j q' Hj H0) as [_ _ _ (r & Hr & Ho) _].
  destruct (decide (parent q' = 0)) as [E|E]; [|rewrite <- Ho by done; by apply IH].
  rewrite E in H. inversion H; by subst.
Qed.

(** ** [satisfies] *)

(** The permissions below [k] bound the steps that are left. *)
Definition below_count (m : perm_map) (k : Z) : nat := size (filter (fun jp : Z * permission_object => fst jp < k) m).

Lemma below_count_lt (m : perm_map) (i k : Z) (p : permission_object) :
  m !! i = Some p -> i < k -> (below_count m i < below_count m k)%nat.
Proof.
  intros Hi Hk. apply map_subset_size, map_subset_alt. split.
  - apply map_subseteq_spec. intros j q [Hj Hlt]%map_lookup_filter_Some.
    apply map_lookup_filter_Some. simpl in *. split; [done|lia].
  - exists i. split; [apply map_lookup_filter_None; right; simpl; lia|].
    exists p. by apply map_lookup_filter_Some.
Qed.

Lemma below_count_size (m : perm_map) (k : Z) : (below_count m k <= size m)%nat.
Proof. apply map_subseteq_size, map_filter_subseteq. Qed.

Lemma satisfies_walk_spec (u : undo_index permission_object) (id k : Z) (p : permission_object) (n : nat) :
  tree_ok (contents u) -> id <> 0 -> contents u !! k = Some p -> k <> 0 ->
  (below_count (contents u) k < n)%nat ->
  exists b, satisfies_walk n u id p = Ok b /\ (b = true <-> ancestor (contents u) id (parent p)).
Proof.
  intros HT Hid. revert k p. induction n as [|n IH]; intros k p Hk Hk0 Hn; [lia|]. simpl.
  destruct (tree_nodes _ HT k p Hk Hk0) as [_ _ Hlt (q & Hq & _) _].
  destruct (Z.eqb_spec id (parent p)) as [->|Hne]; [exists true; split; [done|]; split; [constructor|done]|].
  destruct (Z.eqb_spec (parent p) 0) as [E|E].
  { exists false. split; [done|]. split; [done|]. rewrite E. intros H. inversion H; by subst. }
  unfold db_find. rewrite Hq. destruct (IH (parent p) q Hq E) as (b & -> & Hb).
  { pose proof (below_count_lt _ _ k q Hq). lia. }
  exists b. split; [done|]. rewrite Hb. split; [by apply (ancestor_step _ _ _ q)|].
  intros H. by apply (ancestor_inv _ _ _ q) in H as [_ H].
Qed.

Lemma satisfies_ancestor (u : undo_index permission_object) (i j : Z) (p q : permission_object) :
  tree_ok (contents u) -> i <> 0 -> j <> 0 -> contents u !! i = Some p -> contents u !! j = Some q ->
  exists b, satisfies p q u = Ok b /\ (b = true <-> ancestor (contents u) i j).
Proof.
  intros HT Hi Hj Hp Hq. unfold satisfies.
  destruct (tree_ids _ HT i p Hp) as [-> _], (tree_ids _ HT j q Hq) as [-> _].
  destruct (tree_nodes _ HT j q Hq Hj) as [_ _ Hlt (r & Hr & _) _].
  destruct (Z.eqb_spec (owner p) (owner q)) as [Ho|Ho]; simpl.
  2:{ exists false. split; [done|]. split; [done|]. intros H. by apply (ancestor_owner _ _ _ p q) in H. }
  destruct (Z.eqb_spec i j) as [<-|Hne]; simpl; [exists true; split; [done|]; split; [constructor|done]|].
  assert (Hstep : ancestor (contents u) i j <-> ancestor (contents u) i (parent q)).
  { split; [|by apply (ancestor_step _ _ _ q)]. intros H. by apply (ancestor_inv _ _ _ q) in H as [_ H]. }
  destruct (Z.eqb_spec i (parent q)) as [->|Hne'].
  { exists true. split; [done|]. rewrite Hstep. split; [constructor|done]. }
  unfold db_find. rewrite Hr. destruct (decide (parent q = 0)) as [E|E].
  - exists false. destruct (tree_reserved _ HT) as (z & Hz & _ & _ & Hpz).
    rewrite E in Hr. simplify_eq. cbn [satisfies_walk]. rewrite Hpz. simpl.
    destruct (Z.eqb_spec i 0); [done|]. split; [done|]. rewrite Hstep, E.
    split; [done|]. intros H. inversion H; by subst.
  - destruct (satisfies_walk_spec u i (parent q) r (S (size (contents u)))) as (b & Hb & Hanc); auto.
    { pose proof (below_count_size (contents u) (parent q)). lia. }
    exists b. split; [done|]. rewrite Hstep, Hanc. split; [by apply (ancestor_step _ _ _ r)|].
    intros H. by apply (ancestor_inv _ _ _ r) in H as [_ H].
Qed.

(** ** The operations keep the tree *)
Lemma tree_insert (m : perm_map) (i : Z) (p : permission_object) :
  tree_ok m -> m !! i = None -> po_id p = i -> node_ok m i p -> tree_ok (<[i := p]> m).
Proof.
  intros HT Hi Hid [Hn Ho Hp (q & Hq & Hqo) Hr].
  assert (Hext : forall j r, m !! j = Some r -> <[i := p]> m !! j = Some r).
  { intros j r Hj. rewrite lookup_insert_ne; [done|]. intros ->. congruence. }
  split.
  - destruct (tree_reserved m HT) as (z & Hz & ?). exists z. auto.
  - intros j r [[<- <-]|[_ Hj]]%lookup_insert_Some; [lia|by apply (tree_ids m HT)].
  - intros j r [[<- <-]|[_ Hj]]%lookup_insert_Some H0; [split; eauto|].
    destruct (tree_nodes m HT j r Hj H0) as [? ? ? (q' & Hq' & ?) ?]. split; eauto.
Qed.

Lemma lookup_alter_auth (m : perm_map) (a : authority) (time i j : Z) (r : permission_object) :
  alter (set_auth a time) i m !! j = Some r ->
  exists r', m !! j = Some r' /\ po_id r = po_id r' /\ owner r = owner r' /\ name r = name r' /\
    parent r = parent r' /\ usage_id r = usage_id r'.
Proof.
  destruct (decide (i = j)) as [<-|]; [rewrite lookup_alter_eq|rewrite lookup_alter_ne by done; by exists r].
  destruct (m !! i) as [r'|]; [|done]. intros [= <-]. by exists r'.
Qed.

Lemma alter_auth_lookup (m : perm_map) (a : authority) (time i j : Z) (r : permission_object) :
  m !! j = Some r ->
  exists r', alter (set_auth a time) i m !! j = Some r' /\ owner r' = owner r /\ name r' = name r /\
    parent r' = parent r.
Proof.
  intros Hj. destruct (decide (i = j)) as [<-|].
  - rewrite lookup_alter_eq, Hj. simpl. by eexists.
  - rewrite lookup_alter_ne by done. by exists r.
Qed.

Lemma tree_alter (m : perm_map) (a : authority) (time i : Z) :
  tree_ok m -> tree_ok (alter (set_auth a time) i m).
Proof.
  intros HT. split.
  - destruct (tree_reserved m HT) as (z & Hz & Hz1 & Hz2 & Hz3).
    destruct (alter_auth_lookup m a time i 0 z Hz) as (r' & ? & ? & ? & ?). exists r'. by repeat split; congruence.
  - intros j r (r' & Hr' & -> & _)%lookup_alter_auth. by apply (tree_ids m HT).
  - intros j r (r' & Hr' & _ & Ho & Hn & Hp & _)%lookup_alter_auth H0.
    destruct (tree_nodes m HT j r' Hr' H0) as [H1 H2 H3 (q & Hq & Hqo) H5].
    split; rewrite ?Ho, ?Hn, ?Hp; auto.
    destruct (alter_auth_lookup m a time i _ q Hq) as (q' & Hq' & Ho' & _). exists q'. split; [done|].
    rewrite Ho'. done.
Qed.

Lemma tree_delete (m : perm_map) (i : Z) :
  tree_ok m -> i <> 0 -> (forall j p, m !! j = Some p -> parent p <> i) -> tree_ok (delete i m).
Proof.
  intros HT Hi Hc. split.
  - destruct (tree_reserved m HT) as (z & Hz & ?). exists z. by rewrite lookup_delete_ne by congruence.
  - intros j r [_ Hj]%lookup_delete_Some. by apply (tree_ids m HT).
  - intros j r [_ Hj]%lookup_delete_Some H0.
    destruct (tree_nodes m HT j r Hj H0) as [? ? ? (q & Hq & ?) ?]. split; auto.
    exists q. split; [|done]. rewrite lookup_delete_ne; [done|]. intros E. by apply (Hc j r Hj).
Qed.

(** * Accounts, permissions and links *)

(** ** The invariant *)
Definition has_perm (db : database) (a : account_name) (n : permission_name) : Prop :=
  exists i p, contents (permissions db) !! i = Some p /\ owner p = a /\ name p = n.

Definition has_account (db : database) (a : account_name) : Prop :=
  exists i o, contents (account_index db) !! i = Some o /\ ao_name o = a.

(** All but the permissions that every account must have. *)
Record db_core (db : database) : Prop := {
  ok_perms : table_ok permission_keys po_id (permissions db);
  ok_tree : tree_ok (contents (permissions db));
  ok_usages : table_ok usage_keys puo_id (usages db);
  ok_usage : forall i p, contents (permissions db) !! i = Some p -> i <> 0 ->
    is_Some (contents (usages db) !! usage_id p);
  ok_usage_inj : forall i j p q, contents (permissions db) !! i = Some p ->
    contents (permissions db) !! j = Some q -> i <> 0 -> j <> 0 -> usage_id p = usage_id q -> i = j;
  ok_links : table_ok link_keys plo_id (links db);
  ok_accounts : table_ok account_keys ao_id (account_index db);
  ok_metadata : table_ok metadata_keys amo_id (metadata db);
  ok_generated : table_ok generated_keys gto_id (generated db);
  ok_account_name : forall i a, contents (account_index db) !! i = Some a -> ao_name a <> 0;
  ok_perm_account : forall i p, contents (permissions db) !! i = Some p -> i <> 0 -> has_account db (owner p)
}.

(** Every account has its [owner] and its [active] permission. *)
Definition accounts_complete (db : database) : Prop :=
  forall a, has_account db a -> has_perm db a config.owner_name /\ has_perm db a config.active_name.

Definition db_ok (db : database) : Prop := db_core db /\ accounts_complete db.

(** Room for the objects that one action creates. *)
Definition db_room (db : database) : Prop :=
  room 2 (permissions db) /\ room 2 (usages db) /\ room 2 (links db) /\ room 2 (account_index db) /\
  room 2 (metadata db).

(** ** Looking up *)
Lemma find_permission_Some (db : database) (l : permission_level) (p : permission_object) :
  db_core db -> find_permission db l = Ok (Some p) ->
  contents (permissions db) !! po_id p = Some p /\ po_id p <> 0 /\ owner p = actor l /\ name p = permission l.
Proof.
  intros HD. unfold find_permission. intros H. bind_ok. breflect.
  apply db_find_by_Some in H as (i & Hi & E). unfold by_owner in E. injection E as Ho Hn.
  destruct (tree_ids _ (ok_tree db HD) i p Hi) as [<- _]. split; [done|]. split; [|done].
  intros E0. destruct (tree_reserved _ (ok_tree db HD)) as (z & Hz & Hz1 & _). rewrite E0 in Hi. congruence.
Qed.

Lemma get_permission_find (db : database) (l : permission_level) (p : permission_object) :
  get_permission db l = Ok p -> find_permission db l = Ok (Some p).
Proof.
  unfold get_permission, find_permission. intros H. bind_ok. simpl.
  destruct (db_find_by _ _ _); simplify_eq. done.
Qed.

Lemma get_permission_Some (db : database) (l : permission_level) (p : permission_object) :
  db_core db -> get_permission db l = Ok p ->
  contents (permissions db) !! po_id p = Some p /\ po_id p <> 0 /\ owner p = actor l /\ name p = permission l.
Proof. intros HD H%get_permission_find. by apply find_permission_Some. Qed.

Lemma get_permission_ok (db : database) (i : Z) (p : permission_object) :
  db_core db -> contents (permissions db) !! i = Some p -> i <> 0 ->
  get_permission db (mk_level (owner p) (name p)) = Ok p.
Proof.
  intros HD Hi H0. destruct (tree_nodes _ (ok_tree db HD) i p Hi H0) as [Hn Ho _ _ _].
  unfold get_permission. simpl. destruct (Z.eqb_spec (owner p) 0), (Z.eqb_spec (name p) 0); try done. simpl.
  change [owner p; name p] with (by_owner p).
  rewrite (db_find_by_unique permission_keys by_owner (permissions db) i p); [done|by left|apply (ok_perms db HD)|done].
Qed.

Lemma get_permission_has (db : database) (a : account_name) (n : permission_name) :
  db_core db -> has_perm db a n -> a <> 0 -> exists p, get_permission db (mk_level a n) = Ok p.
Proof.
  intros HD (i & p & Hp & <- & <-) Ha. exists p. apply (get_permission_ok db i); [done..|].
  intros ->. destruct (tree_reserved _ (ok_tree db HD)) as (z & Hz & Hz1 & _). congruence.
Qed.

(** ** Creating a permission *)
Definition parent_ok (db : database) (account : account_name) (n : permission_name) (par : Z) : Prop :=
  (exists q, contents (permissions db) !! par = Some q /\ (par <> 0 -> owner q = account)) /\
  (par = 0 <-> n = config.owner_name).

Lemma create_permission_inv (ctl : control) (db db' : database) (account : account_name)
    (n : permission_name) (par : Z) (a : authority) (time : Z) (p : permission_object) :
  db_core db -> room 1 (permissions db) -> room 1 (usages db) ->
  n <> 0 -> account <> 0 -> has_account db account -> parent_ok db account n par ->
  create_permission ctl db account n par a time = Ok (db', p) ->
  db_core db' /\ account_index db' = account_index db /\ metadata db' = metadata db /\ links db' = links db /\
  generated db' = generated db /\
  _next_id (permissions db') = _next_id (permissions db) + 1 /\ _next_id (usages db') = _next_id (usages db) + 1 /\
  po_id p = _next_id (permissions db) /\ po_id p <> 0 /\ owner p = account /\ name p = n /\ auth p = a /\ parent p = par /\
  contents (permissions db') = <[po_id p := p]> (contents (permissions db)).
Proof.
  intros HD Hr Hru Hn Ha Hacc [(q & Hq & Hqo) Hroot] H. unfold create_permission in H. bind_ok_pairs.
  apply (table_ok_create usage_keys puo_id) in E0 as (Hut & -> & Huc & Hun & _); [|apply HD|done|done].
  apply (table_ok_create permission_keys po_id) in E1 as (Hpt & -> & Hpc & Hpn & _); [|apply HD|done|done].
  simpl in *.
  pose proof (ok_perms db HD) as HP. pose proof (table_ok_fresh _ _ _ HP) as Hfresh.
  pose proof (table_ok_fresh _ _ _ (ok_usages db HD)) as Hufresh.
  destruct (proj1 (proj2 HP) par q Hq) as [_ Hpar].
  assert (H0 : _next_id (permissions db) <> 0).
  { intros E0. rewrite E0 in Hpar. lia. }
  split; [|by repeat (split; [done|])].
  assert (Husage : forall i p, contents (permissions db) !! i = Some p -> i <> 0 -> usage_id p <> _next_id (usages db)).
  { intros i p' Hp Hi Eu. destruct (ok_usage db HD i p' Hp Hi) as [x Hx]. rewrite Eu in Hx. congruence. }
  split; simpl; rewrite ?Hpc, ?Huc; try apply HD; auto.
  - apply tree_insert; [apply HD|done|done|]. split; simpl; auto. exists q. by split.
  - intros i p [[<- <-]|[_ Hp]]%lookup_insert_Some Hi; simpl; [rewrite lookup_insert_eq; by eexists|].
    rewrite lookup_insert_ne; [by apply (ok_usage db HD i)|]. intros Eu. by eapply (Husage i p).
  - intros i j p p' [[<- <-]|[_ Hp]]%lookup_insert_Some [[<- <-]|[_ Hp']]%lookup_insert_Some Hi Hj Eu; simpl in Eu.
    + done.
    + exfalso. by eapply (Husage j p').
    + exfalso. by eapply (Husage i p).
    + by eapply (ok_usage_inj db HD).
  - intros i p [[<- <-]|[_ Hp]]%lookup_insert_Some Hi; simpl; [done|]. by apply (ok_perm_account db HD i).
Qed.

(** ** New accounts *)
Lemma new_account_objects_inv (db db' : database) (n : account_name) (time : Z) (b : list Z) (f : Z) :
  db_core db -> room 1 (account_index db) -> room 1 (metadata db) -> n <> 0 ->
  new_account_objects db n time b f = Ok db' ->
  db_core db' /\ has_account db' n /\ permissions db' = permissions db /\ usages db' = usages db /\
  links db' = links db /\ (forall a, has_account db' a -> a = n \/ has_account db a).
Proof.
  intros HD Hr Hrm Hn H. unfold new_account_objects in H. bind_ok_pairs.
  apply (table_ok_create account_keys ao_id) in E as (Hat & -> & Hac & _ & _); [|apply HD|done|done].
  apply (table_ok_create metadata_keys amo_id) in E0 as (Hmt & -> & _ & _ & _); [|apply HD|done|done].
  pose proof (table_ok_fresh _ _ _ (ok_accounts db HD)) as Hfresh.
  assert (Hmono : forall a, has_account db a -> has_account (with_accounts db u u0) a).
  { intros a (i & o & Ho & Ha). exists i, o. simpl. split; [|done]. rewrite Hac, lookup_insert_ne; congruence. }
  split; [|split; [|repeat (split; [done|])]].
  - split; simpl; rewrite ?Hac; try apply HD; auto.
    + intros i a [[<- <-]|[_ Hi]]%lookup_insert_Some; [done|]. by apply (ok_account_name db HD i).
    + intros i p Hp Hi. apply Hmono. by apply (ok_perm_account db HD i).
  - eexists _, _. simpl. rewrite Hac, lookup_insert_eq. split; [done|]. done.
  - intros a (i & o & Ho & Ha). simpl in Ho. rewrite Hac in Ho.
    apply lookup_insert_Some in Ho as [[_ <-]|[_ Ho]]; [by left|right; by exists i, o].
Qed.

Lemma has_perm_insert (db db' : database) (a : account_name) (n : permission_name) (p : permission_object) :
  contents (permissions db') = <[po_id p := p]> (contents (permissions db)) ->
  contents (permissions db) !! po_id p = None ->
  has_perm db a n -> has_perm db' a n.
Proof.
  intros Hc Hf (i & q & Hq & Ho & Hn). exists i, q. rewrite Hc, lookup_insert_ne; [done|congruence].
Qed.

Lemma new_account_permissions_inv (ctl : control) (db db' : database) (n : account_name)
    (oa aa : authority) (time : Z) :
  db_core db -> room 2 (permissions db) -> room 2 (usages db) -> n <> 0 -> has_account db n ->
  new_account_permissions ctl db n oa aa time = Ok db' ->
  db_core db' /\ account_index db' = account_index db /\ links db' = links db /\
  has_perm db' n config.owner_name /\ has_perm db' n config.active_name /\
  (forall a m, has_perm db a m -> has_perm db' a m).
Proof.
  unfold room. intros HD Hr Hru Hn Hacc H. unfold new_account_permissions in H. bind_ok_pairs.
  destruct (tree_reserved _ (ok_tree db HD)) as (z & Hz & Hz1 & Hz2 & Hz3).
  pose proof (table_ok_fresh _ _ _ (ok_perms db HD)) as Hfresh.
  apply create_permission_inv in E as (HD1 & Ha1 & _ & Hl1 & _ & Hn1 & Hnu1 & Hid1 & Hne1 & Ho1 & Hname1 & _ & _ & Hc1);
    [|done|unfold room; lia|unfold room; lia|done|done|done|split; [by exists z|done]].
  pose proof (table_ok_fresh _ _ _ (ok_perms _ HD1)) as Hfresh1.
  assert (Hp1 : contents (permissions d) !! po_id p = Some p) by (by rewrite Hc1, lookup_insert_eq).
  apply create_permission_inv in E0 as (HD2 & Ha2 & _ & Hl2 & _ & _ & _ & Hid2 & _ & Ho2 & Hname2 & _ & _ & Hc2);
    [|done|unfold room; lia|unfold room; lia|done|done| |split; [by exists p|done]].
  2:{ destruct Hacc as (i & o & ?). exists i, o. by rewrite Ha1. }
  assert (Hmono2 : forall a m, has_perm d a m -> has_perm db' a m).
  { intros a m. apply (has_perm_insert d db' a m p0); [done|]. by rewrite Hid2. }
  split; [done|]. split; [congruence|]. split; [congruence|]. split; [|split].
  - apply Hmono2. by exists (po_id p), p.
  - exists (po_id p0), p0. by rewrite Hc2, lookup_insert_eq.
  - intros a m H. apply Hmono2. apply (has_perm_insert db d a m p); [done| |done]. by rewrite Hid1.
Qed.

Lemma validate_has_account (db : database) (a : account_name) (o : account_object) :
  find_account db a = Some o -> has_account db a.
Proof.
  unfold find_account. intros (i & Ho & E)%db_find_by_Some. exists i, o. split; [done|].
  unfold by_account_name in E. congruence.
Qed.

(** The common part of [newaccount] and of the native accounts. *)
Lemma new_account_inv (ctl : control) (db db1 db2 : database) (n : account_name) (oa aa : authority)
    (time1 time2 : Z) (b : list Z) (f : Z) :
  db_ok db -> db_room db -> n <> 0 -> new_account_objects db n time1 b f = Ok db1 ->
  new_account_permissions ctl db1 n oa aa time2 = Ok db2 ->
  db_ok db2 /\ links db2 = links db /\ (forall a m, has_perm db a m -> has_perm db2 a m).
Proof.
  intros [HD HA] (Hr1 & Hr2 & _ & Hr4 & Hr5) Hn H1 H2.
  apply new_account_objects_inv in H1 as (HD1 & Hn1 & Hp1 & Hu1 & Hl1 & Hold); [|done|unfold room in *; lia|unfold room in *; lia|done].
  apply new_account_permissions_inv in H2 as (HD2 & Ha2 & Hl2 & Hown & Hact & Hmono); [|done|congruence|congruence|done|done].
  assert (Hmono' : forall a m, has_perm db a m -> has_perm db2 a m).
  { intros a m (i & p & ?). apply Hmono. exists i, p. by rewrite Hp1. }
  split; [|split; [congruence|done]]. split; [done|]. intros a (i & o & Ho & Ha). rewrite Ha2 in Ho.
  destruct (Hold a ltac:(by exists i, o)) as [->|Hacc]; [done|]. destruct (HA a Hacc). by split; apply Hmono'.
Qed.

(** ** Changing and removing a permission *)
Lemma has_perm_alter (db db' : database) (a : authority) (time i : Z) (acc : account_name) (n : permission_name) :
  contents (permissions db') = alter (set_auth a time) i (contents (permissions db)) ->
  has_perm db acc n -> has_perm db' acc n.
Proof.
  intros Hc (j & q & Hq & Ho & Hn).
  destruct (alter_auth_lookup _ a time i j q Hq) as (q' & Hq' & Ho' & Hn' & _).
  exists j, q'. rewrite Hc. by repeat split; congruence.
Qed.

Lemma modify_permission_inv (ctl : control) (db db' : database) (p : permission_object) (a : authority) :
  db_ok db -> modify_permission ctl db p a = Ok db' ->
  db_ok db' /\ links db' = links db /\
  contents (permissions db') = alter (set_auth a (pending_block_time ctl)) (po_id p) (contents (permissions db)).
Proof.
  intros [HD HA] H. unfold modify_permission in H. bind_ok_pairs.
  apply (table_ok_modify permission_keys po_id) in E0 as (Hpt & Hpc & _);
    [|apply HD|intros v; by repeat constructor|done].
  split; [|done]. split.
  - split; simpl; rewrite ?Hpc; try apply HD; auto.
    + apply tree_alter, HD.
    + intros i q (q' & Hq' & _ & _ & _ & _ & ->)%lookup_alter_auth. by apply (ok_usage db HD i).
    + intros i j q r (q' & Hq' & _ & _ & _ & _ & ->)%lookup_alter_auth
        (r' & Hr' & _ & _ & _ & _ & ->)%lookup_alter_auth. by apply (ok_usage_inj db HD).
    + intros i q (q' & Hq' & _ & -> & _)%lookup_alter_auth. by apply (ok_perm_account db HD i).
  - intros acc Hacc. destruct (HA acc Hacc). by split; eapply has_perm_alter.
Qed.

Lemma has_children_false (t : undo_index permission_object) (i : Z) :
  has_children t i = false -> forall j p, contents t !! j = Some p -> parent p <> i.
Proof.
  intros H j p Hj E. apply not_true_iff_false in H. apply H, existsb_exists. exists (j, p).
  split; [by apply list_elem_of_In, elem_of_map_to_list|]. by apply Z.eqb_eq.
Qed.

Lemma remove_permission_inv (db db' : database) (p : permission_object) :
  db_core db -> contents (permissions db) !! po_id p = Some p -> po_id p <> 0 ->
  remove_permission db p = Ok db' ->
  db_core db' /\ links db' = links db /\ account_index db' = account_index db /\
  contents (permissions db') = delete (po_id p) (contents (permissions db)) /\
  (forall j q, contents (permissions db) !! j = Some q -> parent q <> po_id p).
Proof.
  intros HD Hp H0 H. unfold remove_permission in H. bind_ok_pairs.
  breflect. pose proof (has_children_false _ _ Heqb) as Hch.
  unfold remove_object in E0. destruct (table (usages db) !! usage_id p) eqn:Eu; [|done].
  apply (table_ok_remove usage_keys puo_id) in E0 as (Hut & Huc & _); [|apply HD].
  apply (table_ok_remove permission_keys po_id) in E1 as (Hpt & Hpc & _); [|apply HD].
  split; [|by repeat (split; [done|])].
  split; simpl; rewrite ?Hpc, ?Huc; try apply HD; auto.
  - apply tree_delete; [apply HD|done..].
  - intros i q [Hne Hq]%lookup_delete_Some Hi. rewrite lookup_delete_ne; [by apply (ok_usage db HD i)|].
    intros E. apply Hne. by eapply (ok_usage_inj db HD).
  - intros i j q r [_ Hq]%lookup_delete_Some [_ Hr]%lookup_delete_Some. by apply (ok_usage_inj db HD).
  - intros i q [_ Hq]%lookup_delete_Some. by apply (ok_perm_account db HD i).
Qed.

Lemma delete_keeps (db db' : database) (p : permission_object) (a : account_name) (n : permission_name) :
  db_core db -> contents (permissions db) !! po_id p = Some p ->
  contents (permissions db') = delete (po_id p) (contents (permissions db)) ->
  n <> name p \/ a <> owner p -> has_perm db a n -> has_perm db' a n.
Proof.
  intros HD Hp Hc Hne (i & q & Hq & Ho & Hn). exists i, q. rewrite Hc, lookup_delete_ne; [done|].
  intros <-. simplify_eq. destruct Hne; done.
Qed.

(** ** The actions *)

(** The permission has the parent that the action declares. *)
Definition declared_parent (db : database) (d : updateauth) (p : permission_object) : Prop :=
  if ua_permission d =? config.owner_name then parent p = 0
  else exists q, get_permission db (mk_level (ua_account d) (ua_parent d)) = Ok q /\ parent p = po_id q.

Lemma updateauth_inv (ctl : control) (db db' : database) (auths : list permission_level) (d : updateauth) :
  db_ok db -> db_room db -> apply_dcd_updateauth ctl db auths d = Ok db' ->
  db_ok db' /\ links db' = links db /\ (forall a n, has_perm db a n -> has_perm db' a n) /\
  ((exists p, find_permission db (mk_level (ua_account d) (ua_permission d)) = Ok (Some p) /\
      contents (permissions db') = alter (set_auth (ua_auth d) (pending_block_time ctl)) (po_id p) (contents (permissions db)) /\
      declared_parent db d p)
   \/ (exists p, contents (permissions db) !! po_id p = None /\ po_id p <> 0 /\
      contents (permissions db') = <[po_id p := p]> (contents (permissions db)) /\
      owner p = ua_account d /\ name p = ua_permission d /\ auth p = ua_auth d /\
      declared_parent db d p)).
Proof.
  intros [HD HA] Hroom H. unfold apply_dcd_updateauth, check_updateauth_names in H. bind_ok_pairs. breflect.
  rename a6 into found, a7 into parent_id.
  assert (Hdecl : forall p, parent p = parent_id -> declared_parent db d p).
  { unfold declared_parent. intros p ->. destruct (ua_permission d =? _); bind_ok; [done|by eexists]. }
  destruct found as [p|].
  - bind_ok. breflect. apply modify_permission_inv in H as (HD' & Hl & Hc); [|done]. split; [done|]. split; [done|].
    split; [|left; exists p; auto]. intros acc n. by eapply has_perm_alter.
  - bind_ok_pairs. destruct (tree_reserved _ (ok_tree db HD)) as (z & Hz & Hz1 & Hz2 & Hz3).
    assert (Hacc : has_account db (ua_account d)).
    { unfold db_get_by in E1. destruct (db_find_by _ _ _) eqn:Ef; simplify_eq. by eapply validate_has_account. }
    assert (Hacc0 : ua_account d <> 0).
    { destruct Hacc as (i & o & Ho & <-). by apply (ok_account_name db HD i). }
    pose proof (table_ok_fresh _ _ _ (ok_perms db HD)) as Hfresh.
    assert (Hpar : parent_ok db (ua_account d) (ua_permission d) parent_id).
    { destruct (Z.eqb_spec (ua_permission d) config.owner_name) as [E9|E9].
      - simplify_eq. split; [by exists z|done].

      - bind_ok. apply get_permission_Some in E2 as (Hq & Hq0 & Hqo & _); [|done].
        split; [by eexists|]. by split. }
    destruct Hroom as (Hr1 & Hr2 & _). unfold room in *.
    apply create_permission_inv in E0
      as (HD' & Ha' & _ & Hl & _ & _ & _ & Hid & Hid0 & Ho & Hn & Hau & Hp & Hc); auto; try (unfold room; lia).
    assert (Hmono : forall a n, has_perm db a n -> has_perm db' a n).
    { intros acc n. apply (has_perm_insert db db' acc n p); [done|]. by rewrite Hid. }
    split; [|split; [done|split; [done|]]].
    + split; [done|]. intros acc (i & o & Hi). rewrite Ha' in Hi. destruct (HA acc ltac:(by exists i, o)). by split; apply Hmono.
    + right. exists p. rewrite Hid in *. repeat (split; [done|]). by apply Hdecl.
Qed.

(** Links to permissions that exist. *)
Definition links_exist (db : database) : Prop :=
  forall i l, contents (links db) !! i = Some l ->
    required_permission l = config.dcd_any_name \/ has_perm db (plo_account l) (required_permission l).

Lemma links_exist_mono (db db' : database) :
  links db' = links db -> (forall a n, has_perm db a n -> has_perm db' a n) ->
  links_exist db -> links_exist db'.
Proof. intros Hl Hm H i l Hi. rewrite Hl in Hi. destruct (H i l Hi); [by left|right; by apply Hm]. Qed.

Lemma is_linked_false (db : database) (a : account_name) (n : permission_name) :
  is_linked db a n = false ->
  forall i l, contents (links db) !! i = Some l -> ~ (plo_account l = a /\ required_permission l = n).
Proof.
  intros H i l Hi [Ha Hn]. apply not_true_iff_false in H. apply H, existsb_exists. exists (i, l).
  split; [by apply list_elem_of_In, elem_of_map_to_list|]. simpl. rewrite Ha, Hn, !Z.eqb_refl. done.
Qed.

Lemma deleteauth_inv (db db' : database) (auths : list permission_level) (d : deleteauth) :
  db_ok db -> apply_dcd_deleteauth db auths d = Ok db' ->
  db_ok db' /\ (links_exist db -> links_exist db') /\
  exists p, get_permission db (mk_level (da_account d) (da_permission d)) = Ok p /\
    contents (permissions db') = delete (po_id p) (contents (permissions db)) /\
    (forall j q, contents (permissions db) !! j = Some q -> parent q <> po_id p).
Proof.
  intros [HD HA] H. unfold apply_dcd_deleteauth in H. bind_ok. breflect.
  match goal with E : get_permission _ _ = Ok ?p |- _ => rename p into q, E into Eq end.
  pose proof (get_permission_Some db _ q HD Eq) as (Hq & Hq0 & Hqo & Hqn). simpl in *.
  apply remove_permission_inv in H as (HD' & Hl & Ha & Hc & Hch); [|done..].
  split; [split; [done|]|split; [|by exists q]].
  - intros acc (i & o & Hi). rewrite Ha in Hi. destruct (HA acc ltac:(by exists i, o)).
    split; (apply (delete_keeps db db' q); [done..| |done]); left; congruence.
  - intros HL i l Hi. rewrite Hl in Hi. destruct (HL i l Hi) as [|Hp]; [by left|right].
    apply (delete_keeps db db' q); [done..| |done].
    destruct (decide (required_permission l = name q)); [right|by left]. intros E1.
    eapply is_linked_false; [eassumption|exact Hi|]. split; congruence.
Qed.

Lemma with_links_ok (db : database) (t : undo_index permission_link_object) :
  db_ok db -> table_ok link_keys plo_id t -> db_ok (with_links db t).
Proof. intros [[] HA] Ht. split; [split; auto|done]. Qed.

Lemma linkauth_inv (ctl : control) (db db' : database) (auths : list permission_level) (d : linkauth) :
  db_ok db -> db_room db -> apply_dcd_linkauth ctl db auths d = Ok db' ->
  db_ok db' /\
  (is_builtin_activated ctl only_link_to_existing_permission = true -> links_exist db -> links_exist db').
Proof.
  intros HD (_ & _ & Hr & _) H. unfold apply_dcd_linkauth in H. bind_ok_pairs. breflect.
  assert (Hreq : is_builtin_activated ctl only_link_to_existing_permission = true ->
            la_requirement d = config.dcd_any_name \/ has_perm db (la_account d) (la_requirement d)).
  { intros Hf. match goal with E : (if la_requirement d =? _ then _ else _) = Ok _ |- _ => rename E into Ereq end.
    destruct (Z.eqb_spec (la_requirement d) config.dcd_any_name); [by left|right]. rewrite Hf in Ereq.
    destruct (db_find_by by_owner _ _) as [p|] eqn:Ep; [|done].
    apply db_find_by_Some in Ep as (i & Hi & Ho). unfold by_owner in Ho. exists i, p. by simplify_eq. }
  destruct (db_find_by by_action_name _ _) as [link|] eqn:El; bind_ok_pairs.
  - match goal with E : db_modify _ _ _ _ = Ok _ |- _ => rename E into Em end.
    apply (table_ok_modify link_keys plo_id) in Em as (Ht & Hc & _); [|apply HD|intros v; by repeat constructor|done].
    split; [by apply with_links_ok|]. intros Hf HL i l Hi. simpl in Hi. rewrite Hc in Hi.
    apply db_find_by_Some in El as (j & Hj & Ek). unfold by_action_name in Ek. simplify_eq.
    destruct (ok_links db (proj1 HD)) as (_ & Hids & _). destruct (Hids j link Hj) as [Hid _].
    rewrite Hid in Hi.
    destruct (decide (j = i)) as [<-|]; [|rewrite lookup_alter_ne in Hi by done; by apply (HL i)].
    rewrite lookup_alter_eq, Hj in Hi. injection Hi as <-. simpl. replace (plo_account link) with (la_account d) by congruence. by apply Hreq.
  - match goal with E : db_create _ _ _ = Ok _ |- _ => rename E into Ec end.
    apply (table_ok_create link_keys plo_id) in Ec as (Ht & -> & Hc & _ & _);
      [|apply HD|unfold room in *; lia|done].
    split; [by apply with_links_ok|]. intros Hf HL i l Hi. simpl in Hi. rewrite Hc in Hi.
    apply lookup_insert_Some in Hi as [[_ <-]|[_ Hi]]; [simpl; by apply Hreq|by apply (HL i)].
Qed.

Lemma unlinkauth_inv (db db' : database) (auths : list permission_level) (d : unlinkauth) :
  db_ok db -> apply_dcd_unlinkauth db auths d = Ok db' -> db_ok db' /\ (links_exist db -> links_exist db').
Proof.
  intros HD H. unfold apply_dcd_unlinkauth in H. bind_ok.
  destruct (db_find_by _ _ _) as [link|]; [|done]. bind_ok.
  apply (table_ok_remove link_keys plo_id) in E0 as (Ht & Hc & _); [|apply HD].
  split; [by apply with_links_ok|]. intros HL i l Hi. simpl in Hi. rewrite Hc in Hi.
  apply lookup_delete_Some in Hi as [_ Hi]. by apply (HL i).
Qed.

Lemma canceldelay_inv (db db' : database) (auths : list permission_level) (d : canceldelay) :
  db_ok db -> apply_dcd_canceldelay db auths d = Ok db' -> db_ok db' /\ (links_exist db -> links_exist db').
Proof.
  intros [[] HA] H. unfold apply_dcd_canceldelay, cancel_deferred_transaction in H.
  destruct (db_find_by _ _ _) as [g|]; bind_ok_pairs; [|done].
  match goal with E : db_remove _ _ = Ok _ |- _ => apply (table_ok_remove generated_keys gto_id) in E as (Ht & _ & _) end;
    [|done].
  split; [|done]. split; [split; auto|done].
Qed.

(** ** Steps *)
Inductive native_step (ctl : control) (db : database) : database -> Prop :=
  | ns_native_account b time n oa aa pr db' : n <> 0 ->
      create_native_account ctl b db time n oa aa pr = Ok db' -> native_step ctl db db'
  | ns_newaccount auths d db' : apply_dcd_newaccount ctl db auths d = Ok db' -> native_step ctl db db'
  | ns_updateauth auths d db' : apply_dcd_updateauth ctl db auths d = Ok db' -> native_step ctl db db'
  | ns_deleteauth auths d db' : apply_dcd_deleteauth db auths d = Ok db' -> native_step ctl db db'
  | ns_linkauth auths d db' : apply_dcd_linkauth ctl db auths d = Ok db' -> native_step ctl db db'
  | ns_unlinkauth auths d db' : apply_dcd_unlinkauth db auths d = Ok db' -> native_step ctl db db'
  | ns_canceldelay auths d db' : apply_dcd_canceldelay db auths d = Ok db' -> native_step ctl db db'
  | ns_usage p db' : update_permission_usage ctl db p = Ok db' -> native_step ctl db db'.

Lemma update_usage_inv (ctl : control) (db db' : database) (p : permission_object) :
  db_ok db -> update_permission_usage ctl db p = Ok db' -> db_ok db' /\ (links_exist db -> links_exist db').
Proof.
  intros [[] HA] H. unfold update_permission_usage in H. bind_ok.
  match goal with E : db_modify _ _ _ _ = Ok _ |- _ => apply (table_ok_modify usage_keys puo_id) in E as (Ht & Hc & _) end;
    [|done|constructor|done].
  split; [|done]. split; [split; simpl; auto|done].
  intros i q Hq Hi. rewrite Hc. destruct (ok_usage0 i q Hq Hi) as [x Hx].
  destruct (decide (puo_id a = usage_id q)) as [->|].
  - rewrite lookup_alter_eq, Hx. by eexists.
  - rewrite lookup_alter_ne by done. by eexists.
Qed.

Lemma native_step_ok (ctl : control) (db db' : database) :
  db_ok db -> db_room db -> native_step ctl db db' ->
  db_ok db' /\
  (is_builtin_activated ctl only_link_to_existing_permission = true -> links_exist db -> links_exist db').
Proof.
  intros HD HR [b time n oa aa pr db1 Hn H|auths d db1 H|auths d db1 H|auths d db1 H|auths d db1 H|auths d db1 H|auths d db1 H|p db1 H].
  - unfold create_native_account in H. bind_ok.
    eapply new_account_inv in H as (H1 & H2 & H3); eauto. split; [done|]. intros _. by apply links_exist_mono.
  - unfold apply_dcd_newaccount in H. bind_ok. breflect.
    eapply new_account_inv in H as (H1 & H2 & H3); eauto. split; [done|]. intros _. by apply links_exist_mono.
  - apply updateauth_inv in H as (H1 & H2 & H3 & _); [|done..]. split; [done|]. intros _. by apply links_exist_mono.
  - apply deleteauth_inv in H as (H1 & H2 & _); auto.
  - by eapply linkauth_inv.
  - apply unlinkauth_inv in H as []; auto.
  - apply canceldelay_inv in H as []; auto.
  - apply update_usage_inv in H as []; auto.
Qed.

(** ** Reachable states *)
Definition empty_db : database :=
  mk_database undo_index_empty undo_index_empty undo_index_empty undo_index_empty undo_index_empty
    undo_index_empty.

(** What native actions lead to from a new database, under controls that satisfy [P]. *)
Inductive reachable (P : control -> Prop) : database -> Prop :=
  | reachable_init db : initialize_database empty_db = Ok db -> reachable P db
  | reachable_step ctl db db' : reachable P db -> P ctl -> db_room db -> native_step ctl db db' -> reachable P db'.

Lemma empty_table_ok {value} (ks : list (value -> list Z)) (id_of : value -> Z) :
  table_ok ks id_of undo_index_empty.
Proof.
  assert (He : contents (@undo_index_empty value) = ∅) by reflexivity.
  split; [done|]. unfold unique. rewrite He. split; [intros i v H|intros i j v w H]; by rewrite lookup_empty in H.
Qed.

Lemma initial_ok (db : database) : initialize_database empty_db = Ok db -> db_ok db /\ links_exist db.
Proof.
  unfold initialize_database. intros H. bind_ok_pairs.
  apply (table_ok_create permission_keys po_id) in E as (Ht & -> & Hc & _ & _);
    [|apply empty_table_ok|unfold room; simpl; lia|done].
  simpl in Hc. change (contents undo_index_empty) with (∅ : gmap Z permission_object) in Hc.
  assert (Hone : forall i p, contents u !! i = Some p -> i = 0).
  { intros i p. rewrite Hc. by intros [[<- _]|[_ H]]%lookup_insert_Some. }
  split; [split|].
  - split; simpl; auto using empty_table_ok; try (intros i p Hp Hi; by apply Hone in Hp).
    + split.
      * eexists. rewrite Hc, lookup_insert_eq. split; [done|]. done.
      * intros i p. rewrite Hc. intros [[<- <-]|[_ H]]%lookup_insert_Some; [done|by rewrite lookup_empty in H].
      * intros i p Hp Hi. by apply Hone in Hp.
    + intros i j p q Hp Hq Hi. by apply Hone in Hp.
  - intros a (i & o & Ho & _). discriminate Ho.
  - intros i l Hl. discriminate Hl.
Qed.

Lemma native_reachable_ok (P : control -> Prop) (db : database) :
  reachable P db ->
  db_ok db /\ ((forall ctl, P ctl -> is_builtin_activated ctl only_link_to_existing_permission = true) ->
               links_exist db).
Proof.
  induction 1 as [db H|ctl db db' _ [IH1 IH2] HP HR Hs]; [apply initial_ok in H as []; auto|].
  apply native_step_ok in Hs as [H1 H2]; [|done..]. split; [done|]. intros Hf. apply H2; auto.
Qed.

(** ** What the lookups depend on *)
Lemma get_permission_ext (db db' : database) (l : permission_level) :
  db_core db -> db_core db' ->
  (forall i p, owner p = actor l -> name p = permission l ->
     contents (permissions db) !! i = Some p <-> contents (permissions db') !! i = Some p) ->
  get_permission db l = get_permission db' l.
Proof.
  intros HD HD' H. assert (Hk : forall p, by_owner p = [actor l; permission l] <-> owner p = actor l /\ name p = permission l).
  { unfold by_owner. intros p. split; [by intros [= -> ->]|by intros [-> ->]]. }
  unfold get_permission. destruct (dcd_assert _ _); simpl; [|done].
  destruct (db_find_by by_owner (permissions db) _) as [p|] eqn:E, (db_find_by by_owner (permissions db') _) as [p'|] eqn:E'; [| | |done].
  - apply db_find_by_Some in E as (i & Hi & Hp), E' as (j & Hj & Hp'). f_equal.
    destruct (proj1 (Hk p) Hp), (proj1 (Hk p') Hp'). apply H in Hi; [|done..].
    assert (i = j); [|congruence]. destruct (ok_perms db' HD') as (_ & _ & Hu).
    apply (Hu i j p p' Hi Hj). unfold conflict, permission_keys. simpl. rewrite Hp, Hp'. by rewrite bool_decide_eq_true_2.
  - apply db_find_by_Some in E as (i & Hi & Hp). destruct (proj1 (Hk p) Hp). apply H in Hi; [|done..].
    by apply (proj1 (db_find_by_None _ _ _) E' i p) in Hi.
  - apply db_find_by_Some in E' as (i & Hi & Hp). destruct (proj1 (Hk p') Hp). apply H in Hi; [|done..].
    by apply (proj1 (db_find_by_None _ _ _) E i p') in Hi.
Qed.

Lemma get_permission_errors (db : database) (l : permission_level) (e : exn) :
  get_permission db l = Throw e -> e = invalid_permission /\ level_empty l \/ e = permission_query_exception.
Proof.
  unfold get_permission, dcd_assert, level_empty.
  destruct (Z.eqb_spec (actor l) 0), (Z.eqb_spec (permission l) 0); simpl; try (intros [= <-]; by auto).
  destruct (db_find_by _ _ _); [done|]. intros [= <-]. by right.
Qed.

(** The declared level is relevant to the action: the action is linked to
    [dcd.any], or the level is the required permission or one of its ancestors. *)
Definition relevant (db : database) (act : action) (declared : permission_level) : Prop :=
  lookup_minimum_permission db (actor declared) (act_account act) (act_name act) = Ok None \/
  exists n p q,
    lookup_minimum_permission db (actor declared) (act_account act) (act_name act) = Ok (Some n) /\
    get_permission db declared = Ok p /\ get_permission db (mk_level (actor declared) n) = Ok q /\
    ancestor (contents (permissions db)) (po_id p) (po_id q).

Lemma assert_satisfies_ok (db : database) (l k : permission_level) (q : permission_object) :
  db_core db -> get_permission db k = Ok q ->
  is_ok (assert_satisfies db l q) = true <->
  exists p, get_permission db l = Ok p /\ ancestor (contents (permissions db)) (po_id p) (po_id q).
Proof.
  intros HD Hq. unfold assert_satisfies. destruct (get_permission db l) as [p|e] eqn:Hp; simpl; [|naive_solver].
  apply get_permission_Some in Hp as (Hp & Hp0 & _ & _), Hq as (Hq & Hq0 & _ & _); [|done..].
  destruct (satisfies_ancestor (permissions db) (po_id p) (po_id q) p q (ok_tree db HD)) as (b & -> & Ha); [done..|].
  simpl. destruct b; simpl; naive_solver.
Qed.

Lemma check_declared_ok (db : database) (act : action) (delay : Z) (sat : gset permission_level)
    (m : gmap permission_level Z) (l : permission_level) :
  db_core db -> is_ok (check_declared db act false delay sat m l) = true <-> relevant db act l.
Proof.
  intros HD. unfold check_declared, relevant.
  destruct (lookup_minimum_permission _ _ _ _) as [[n|]|e]; simpl; [|case_bool_decide; simpl; naive_solver|naive_solver].
  destruct (get_permission db (mk_level (actor l) n)) as [q|e] eqn:Hq; simpl.
  2:{ split; [done|]. intros [?|(n' & p & q & ? & _ & ? & _)]; congruence. }
  pose proof (assert_satisfies_ok db l (mk_level (actor l) n) q HD Hq) as H.
  destruct (assert_satisfies db l q) as [[]|e]; simpl in *.
  - split; [|by case_bool_decide]. intros _. destruct (proj1 H eq_refl) as (p & Hp & Ha). right. by exists n, p, q.
  - split; [done|]. intros [?|(n' & p & q' & Hn & Hp & Hq' & Ha)]; [done|].
    injection Hn as <-. apply H. exists p. split; [done|]. by replace q with q' by congruence.
Qed.

(** ** The claims *)

(** C14. Whatever native actions are executed, and in whatever order: the
    permissions of every account form a tree below its [owner] permission, with
    unique names and identifiers and one usage record each; every permission
    belongs to an account; every account has its [owner] and [active]
    permissions; the tables of links, accounts and deferred transactions have
    unique keys. *)
Theorem permission_state_invariant (db : database) : reachable (fun _ => True) db -> db_ok db.
Proof. by intros [H _]%native_reachable_ok. Qed.

(** [permission_object::satisfies] on a reachable state: it always returns, it
    reads no permission that is not there, and it says true exactly when the
    permission is the other one or one of its ancestors in the tree. *)
Theorem satisfies_spec (db : database) (l k : permission_level) (p q : permission_object) :
  reachable (fun _ => True) db -> get_permission db l = Ok p -> get_permission db k = Ok q ->
  exists b, satisfies p q (permissions db) = Ok b /\
    (b = true <-> ancestor (contents (permissions db)) (po_id p) (po_id q)) /\
    (b = true -> actor l = actor k).
Proof.
  intros [[HD _] _]%native_reachable_ok Hp Hq.
  apply get_permission_Some in Hp as (Hp & Hp0 & Hpo & _), Hq as (Hq & Hq0 & Hqo & _); [|done..].
  destruct (satisfies_ancestor (permissions db) (po_id p) (po_id q) p q (ok_tree db HD)) as (b & Hb & Ha); [done..|].
  exists b. split; [done|]. split; [done|]. intros Ht%Ha.
  rewrite <- Hpo, <- Hqo. by apply (ancestor_owner _ _ _ p q (ok_tree db HD)) in Ht.
Qed.

(** Once only links to existing permissions are allowed, the permission that an
    action requires of an account always exists: the lookup that follows
    [lookup_minimum_permission] in the checks cannot fail, since deleting a
    permission that is linked is refused. *)
Theorem minimum_permission_exists (db : database) (a scope : account_name) (act : action_name) (n : permission_name) :
  reachable (fun ctl => is_builtin_activated ctl only_link_to_existing_permission = true) db ->
  has_account db a -> lookup_minimum_permission db a scope act = Ok (Some n) ->
  exists p, get_permission db (mk_level a n) = Ok p.
Proof.
  intros [[HD HA] HL]%native_reachable_ok Hacc H. specialize (HL ltac:(done)).
  assert (Ha0 : a <> 0) by (destruct Hacc as (i & o & Ho & <-); by apply (ok_account_name db HD i)).
  apply get_permission_has; [done| |done].
  unfold lookup_minimum_permission in H. apply bind_ok_inv in H as (_ & _ & H).
  destruct (lookup_linked_permission db a scope act) as [linked|] eqn:E; [|simplify_eq; by apply HA].
  destruct (Z.eqb_spec linked config.dcd_any_name) as [|Hne]; simplify_eq.
  unfold lookup_linked_permission in E.
  assert (exists x l, db_find_by by_action_name (links db) (a :: x) = Some l /\ required_permission l = n)
    as (x & l & Hl & <-).
  { destruct (db_find_by by_action_name (links db) [a; scope; act]) as [l|] eqn:E1; simpl in E.
    - exists [scope; act], l. by simplify_eq.
    - destruct (db_find_by by_action_name (links db) [a; scope; 0]) as [l|] eqn:E2; simplify_eq/=. by exists [scope; 0], l. }
  apply db_find_by_Some in Hl as (i & Hi & Ek). unfold by_action_name in Ek. simplify_eq.
  by destruct (HL i l Hi).
Qed.

(** [updateauth]: afterwards the permission exists, has the declared authority,
    which is a valid one, and the declared parent; every other permission of every
    account is found as before. *)
Theorem updateauth_spec (ctl : control) (db db' : database) (auths : list permission_level) (d : updateauth) :
  db_ok db -> db_room db -> apply_dcd_updateauth ctl db auths d = Ok db' ->
  (exists p, get_permission db' (mk_level (ua_account d) (ua_permission d)) = Ok p /\
     auth p = ua_auth d /\ validate (auth p) = true /\ declared_parent db d p) /\
  (forall l, l <> mk_level (ua_account d) (ua_permission d) -> get_permission db' l = get_permission db l).
Proof.
  intros HD HR H.
  assert (Hv : validate (ua_auth d) = true).
  { unfold apply_dcd_updateauth in H. bind_ok. done. }
  apply updateauth_inv in H as ([HD' _] & _ & _ & Hcase); [|done..]. destruct HD as [HD _].
  destruct Hcase as [(p & Hp & Hc & Hdecl)|(p & Hfresh & H0 & Hc & Ho & Hn & Ha & Hdecl)].
  - apply find_permission_Some in Hp as (Hp & Hp0 & Ho & Hn); [|done]. simpl in *. split.
    + exists (set_auth (ua_auth d) (pending_block_time ctl) p). split; [|done]. rewrite <- Ho, <- Hn.
      change (owner p) with (owner (set_auth (ua_auth d) (pending_block_time ctl) p)).
      change (name p) with (name (set_auth (ua_auth d) (pending_block_time ctl) p)).
      apply (get_permission_ok db' (po_id p)); [done| |done]. by rewrite Hc, lookup_alter_eq, Hp.
    + intros l Hl. apply get_permission_ext; [done..|]. intros i q Hqo Hqn. rewrite Hc.
      destruct (decide (po_id p = i)) as [<-|]; [|by rewrite lookup_alter_ne].
      rewrite lookup_alter_eq, Hp. destruct l as [x y]; simpl in *.
      split; intros E; simplify_eq/=; destruct Hl; congruence.
  - split.
    + exists p. rewrite <- Ho, <- Hn, Ha. split; [|done]. apply (get_permission_ok db' (po_id p)); [done| |done].
      by rewrite Hc, lookup_insert_eq.
    + intros l Hl. apply get_permission_ext; [done..|]. intros i q Hqo Hqn. rewrite Hc.
      destruct (decide (po_id p = i)) as [<-|]; [|by rewrite lookup_insert_ne].
      rewrite lookup_insert_eq, Hfresh. destruct l as [x y]; simpl in *.
      split; intros E; simplify_eq/=; destruct Hl; congruence.
Qed.

(** C35. [check_authorization] of the actions of a transaction that are not actions of
    the system account succeeds exactly when every declared authorization is
    relevant to its action, whatever keys, permissions and delay are provided: no
    signature of the declared accounts is needed, since the calls of the
    authority checker are commented out. *)
Theorem check_authorization_spec `{ActionData} (ctl : control) (db : database) (actions : list action)
    (ks : list public_key) (perms : gset permission_level) (delay : Z) (allow_unused_keys : bool)
    (sat : gset permission_level) :
  db_ok db -> Forall (fun act => act_account act <> config.system_account_name) actions ->
  check_authorization ctl db actions ks perms delay allow_unused_keys sat = Ok tt <->
  Forall (fun act => Forall (relevant db act) (authorization act)) actions.
Proof.
  intros [HD _] Hsys. unfold check_authorization.
  assert (Hok : is_ok (permissions_to_satisfy ctl db actions (effective_delay ctl delay) sat) = true <->
                Forall (fun act => Forall (relevant db act) (authorization act)) actions).
  { apply foldM_ok_iff. intros m act Hact. unfold check_special_case.
    rewrite Forall_forall in Hsys. destruct (Z.eqb_spec (act_account act) config.system_account_name) as [E|_];
      [by apply Hsys in E|]. simpl.
    apply foldM_ok_iff. intros m' l _. by apply check_declared_ok. }
  rewrite <- Hok. by destruct (permissions_to_satisfy _ _ _ _ _).
Qed.

Lemma permission_authority_ok (ctl : control) (db : database) (ks : list public_key)
    (perms : gset permission_level) (delay : Z) :
  db_core db -> (forall i p, contents (permissions db) !! i = Some p -> auth_fits (auth p)) ->
  lookup_ok (make_auth_checker ctl db ks perms delay).
Proof.
  intros HD Hf l. simpl. unfold permission_authority. destruct (get_permission db l) as [p|e] eqn:E; simpl.
  - apply get_permission_Some in E as (Hp & _); [|done]. by eapply Hf.
  - apply get_permission_errors in E as [[-> _]| ->]; done.
Qed.

(** [get_required_keys]: when it returns, the keys it returns are among the
    candidates, and every authorization that the transaction declares is satisfied
    by the candidate keys and the delay alone. *)
Theorem get_required_keys_sound (ctl : control) (db : database) (actions : list action)
    (candidate_keys : list public_key) (delay : Z) (required : list public_key) :
  db_ok db -> (forall i p, contents (permissions db) !! i = Some p -> auth_fits (auth p)) ->
  get_required_keys ctl db actions candidate_keys delay = Ok required ->
  required ⊆ candidate_keys /\
  Forall (level_sat (make_auth_checker ctl db candidate_keys ∅ delay)) (concat (map authorization actions)).
Proof.
  intros [HD _] Hf H. unfold get_required_keys in H.
  pose proof (permission_authority_ok ctl db candidate_keys ∅ delay HD Hf) as HL.
  set (c := make_auth_checker ctl db candidate_keys ∅ delay) in *.
  bind_ok. split.
  - unfold used_keys. intros k. rewrite list_elem_of_fmap. intros ([k' b] & -> & Hk).
    apply list_elem_of_filter in Hk as [_ Hk]. by apply elem_of_zip_l in Hk.
  - revert E. generalize (replicate (length candidate_keys) false) as used.
    induction (concat (map authorization actions)) as [|l ls IH]; intros used E; [constructor|].
    simpl in E. bind_ok_pairs. constructor; [|by eapply IH].
    match goal with E : satisfied c l used = Ok _ |- _ => by apply satisfied_sound in E as [] end.
Qed.

(** ** A chain with the system account and two users *)
Definition sample_control : control := mk_control 2 1000000000000000 (fun _ => true) 3888000 6 ∅ false.
Definition sample_user_key (n : Z) : public_key := mk_public_key 0 [n].
Definition key_authority (n : Z) : authority := mk_authority 1 [mk_kw (sample_user_key n) 1] [] [].
Definition alice : account_name := Eval vm_compute in n_ "alice".
Definition bob : account_name := Eval vm_compute in n_ "bob".
Definition trade : permission_name := Eval vm_compute in n_ "trade".
Definition transfer : action_name := Eval vm_compute in n_ "transfer".

Definition from_ok (r : result database) : database := match r with Ok db => db | Throw _ => empty_db end.

Definition sample_db0 := Eval vm_compute in from_ok (initialize_database empty_db).
Definition sample_db1 := Eval vm_compute in
  from_ok (create_native_account sample_control [1] sample_db0 999 config.system_account_name
             (key_authority 1) (key_authority 1) true).
Definition new_user (n k : Z) : newaccount :=
  mk_newaccount config.system_account_name n (key_authority k) (key_authority (k + 1)).
Definition system_auth : list permission_level := [mk_level config.system_account_name config.active_name].
Definition sample_db2 := Eval vm_compute in
  from_ok (apply_dcd_newaccount sample_control sample_db1 system_auth (new_user alice 10)).
Definition sample_db3 := Eval vm_compute in
  from_ok (apply_dcd_newaccount sample_control sample_db2 system_auth (new_user bob 20)).
Definition alice_auth : list permission_level := [mk_level alice config.active_name].
Definition trade_auth : authority :=
  mk_authority 2 [mk_kw (sample_user_key 12) 1] [mk_plw (mk_level bob config.active_name) 1] [mk_ww 60 1].
Definition new_trade : updateauth := mk_updateauth alice trade config.active_name trade_auth.
Definition sample_db4 := Eval vm_compute in
  from_ok (apply_dcd_updateauth sample_control sample_db3 alice_auth new_trade).
Definition sample_db5 := Eval vm_compute in
  from_ok (apply_dcd_linkauth sample_control sample_db4 alice_auth (mk_linkauth alice bob transfer trade)).

(** Proves [db_room] and [reachable] of a concrete state. *)
Ltac solve_room := vm_compute; repeat split; reflexivity.

Lemma sample_reachable3 (P : control -> Prop) : P sample_control -> reachable P sample_db3.
Proof.
  intros HP.
  apply (reachable_step P sample_control sample_db2); [|done|solve_room|].
  2:{ apply (ns_newaccount _ _ system_auth (new_user bob 20)). by vm_compute. }
  apply (reachable_step P sample_control sample_db1); [|done|solve_room|].
  2:{ apply (ns_newaccount _ _ system_auth (new_user alice 10)). by vm_compute. }
  apply (reachable_step P sample_control sample_db0); [|done|solve_room|].
  2:{ apply (ns_native_account _ _ [1] 999 config.system_account_name (key_authority 1) (key_authority 1) true); [done|].
      by vm_compute. }
  apply reachable_init. by vm_compute.
Qed.

Lemma sample_reachable (P : control -> Prop) : P sample_control -> reachable P sample_db5.
Proof.
  intros HP.
  apply (reachable_step P sample_control sample_db4); [|done|solve_room|].
  2:{ apply (ns_linkauth _ _ alice_auth (mk_linkauth alice bob transfer trade)). by vm_compute. }
  apply (reachable_step P sample_control sample_db3); [by apply sample_reachable3|done|solve_room|].
  apply (ns_updateauth _ _ alice_auth new_trade). by vm_compute.
Qed.

Lemma permission_state_invariant_witness : db_ok sample_db5.
Proof. apply permission_state_invariant. by apply sample_reachable. Defined.

Definition found_permission (db : database) (l : permission_level) : permission_object :=
  match get_permission db l with Ok p => p | Throw _ => mk_permission 0 0 0 0 0 0 (key_authority 0) end.
Definition alice_owner := Eval vm_compute in found_permission sample_db5 (mk_level alice config.owner_name).
Definition alice_trade := Eval vm_compute in found_permission sample_db5 (mk_level alice trade).

Lemma satisfies_spec_witness :
  exists b, satisfies alice_owner alice_trade (permissions sample_db5) = Ok b /\
    (b = true <-> ancestor (contents (permissions sample_db5)) (po_id alice_owner) (po_id alice_trade)) /\
    (b = true -> alice = alice).
Proof.
  apply (satisfies_spec sample_db5 (mk_level alice config.owner_name) (mk_level alice trade));
    [by apply sample_reachable|by vm_compute..].
Defined.

Lemma minimum_permission_exists_witness : exists p, get_permission sample_db5 (mk_level alice trade) = Ok p.
Proof.
  apply (minimum_permission_exists sample_db5 alice bob transfer trade).
  - by apply sample_reachable.
  - exists 1. eexists. split; [vm_compute; reflexivity|reflexivity].
  - by vm_compute.
Defined.

Lemma updateauth_spec_witness :
  (exists p, get_permission sample_db4 (mk_level alice trade) = Ok p /\
     auth p = trade_auth /\ validate (auth p) = true /\ declared_parent sample_db3 new_trade p) /\
  (forall l, l <> mk_level alice trade -> get_permission sample_db4 l = get_permission sample_db3 l).
Proof.
  apply (updateauth_spec sample_control sample_db3 sample_db4 alice_auth new_trade);
    [|solve_room|by vm_compute].
  by apply (native_reachable_ok (fun _ => True)), sample_reachable3.
Defined.

(** A deserialization that accepts no data. *)
#[local] Instance sample_action_data : ActionData := {
  unpack_updateauth _ := Throw unpack_error;
  unpack_deleteauth _ := Throw unpack_error;
  unpack_linkauth _ := Throw unpack_error;
  unpack_unlinkauth _ := Throw unpack_error;
  unpack_canceldelay _ := Throw unpack_error;
  unpack_transaction _ := Throw unpack_error
}.

Definition sample_action : action := mk_action bob transfer [mk_level alice trade] [].

(** The transfer is authorized without any key. *)
Lemma check_authorization_spec_witness :
  check_authorization sample_control sample_db5 [sample_action] [] ∅ 0 false ∅ = Ok tt <->
  Forall (fun act => Forall (relevant sample_db5 act) (authorization act)) [sample_action].
Proof.
  apply (check_authorization_spec sample_control sample_db5 [sample_action] [] ∅ 0 false ∅).
  - by apply (native_reachable_ok (fun _ => True)), sample_reachable.
  - by repeat constructor.
Defined.

Lemma sample_auths_fit (i : Z) (p : permission_object) :
  contents (permissions sample_db5) !! i = Some p -> auth_fits (auth p).
Proof.
  intros H. assert (Hall : map_Forall (fun _ p => auth_fits (auth p)) (contents (permissions sample_db5))).
  { apply map_Forall_to_list. vm_compute map_to_list. repeat constructor; simpl; lia. }
  by apply (Hall i).
Qed.

Lemma get_required_keys_sound_witness :
  [sample_user_key 12; sample_user_key 21] ⊆ [sample_user_key 12; sample_user_key 21; sample_user_key 30] /\
  Forall (level_sat (make_auth_checker sample_control sample_db5
            [sample_user_key 12; sample_user_key 21; sample_user_key 30] ∅ 0)) [mk_level alice trade].
Proof.
  apply (get_required_keys_sound sample_control sample_db5 [sample_action]).
  - by apply (native_reachable_ok (fun _ => True)), sample_reachable.
  - apply sample_auths_fit.
  - by vm_compute.
Defined.
