(* ===== verification/CodeReferences.v ===== *)
(** * The code of the accounts in a chain

    The counts of the code objects (CodeActions) in every state that the native actions and the changes of code and
    interface reach from a new database. *)

From S2P Require Import Prelude Name Types Authority AuthorityChecker UndoIndex Database AuthorizationManager.
From S2P Require Import SystemContract CodeActions PermissionState.

(** A native action leaves the metadata as it is, or adds that of a new account, which has no code. *)
Definition new_metadata (n : account_name) (f : Z) (i : Z) : account_metadata_object :=
  mk_metadata i n 0 0 0 0 digest_zero 0 f 0 0.

Lemma create_permission_metadata (ctl : control) (db db' : database) (a : account_name) (n : permission_name) (p : Z)
    (au : authority) (t : Z) (o : permission_object) :
  create_permission ctl db a n p au t = Ok (db', o) -> metadata db' = metadata db.
Proof. unfold create_permission. intros H. by bind_ok_pairs. Qed.

Lemma new_account_metadata (ctl : control) (db db1 db' : database) (n : account_name) (time t : Z) (abi : list Z) (f : Z)
    (oa aa : authority) :
  new_account_objects db n time abi f = Ok db1 -> new_account_permissions ctl db1 n oa aa t = Ok db' ->
  exists u o, db_create metadata_keys (metadata db) (new_metadata n f) = Ok (u, o) /\ metadata db' = u.
Proof.
  unfold new_account_objects, new_account_permissions. intros H1 H2. bind_ok_pairs.
  repeat match goal with E : create_permission _ _ _ _ _ _ _ = Ok _ |- _ => apply create_permission_metadata in E end.
  eexists _, _. split; [done|]. simpl in *. congruence.
Qed.

Lemma native_step_metadata (ctl : control) (db db' : database) :
  native_step ctl db db' ->
  metadata db' = metadata db \/
  exists n f u o, db_create metadata_keys (metadata db) (new_metadata n f) = Ok (u, o) /\ metadata db' = u.
Proof.
  intros [b time n oa aa pr db1 Hn H|auths d db1 H|auths d db1 H|auths d db1 H|auths d db1 H|auths d db1 H|auths d db1 H|p db1 H].
  - unfold create_native_account in H. bind_ok. right. eexists _, _. by eapply new_account_metadata.
  - unfold apply_dcd_newaccount in H. bind_ok. right. eexists _, _. by eapply new_account_metadata.
  - left. unfold apply_dcd_updateauth in H. bind_ok.
    match goal with o : option permission_object |- _ => destruct o end; unfold modify_permission in H; bind_ok_pairs; [done|].
    by eapply create_permission_metadata.
  - left. unfold apply_dcd_deleteauth, remove_permission in H. by bind_ok.
  - left. unfold apply_dcd_linkauth in H. bind_ok. destruct (db_find_by by_action_name _ _); by bind_ok_pairs.
  - left. unfold apply_dcd_unlinkauth in H. bind_ok. destruct (db_find_by _ _ _); by bind_ok.
  - left. unfold apply_dcd_canceldelay, cancel_deferred_transaction in H. bind_ok.
    destruct (db_find_by _ _ _); by bind_ok_pairs.
  - left. unfold update_permission_usage in H. by bind_ok.
Qed.

Section chain.
Context `{Code}.

Lemma metadata_codes_ok (db db' : database) (codes : undo_index code_object) :
  metadata db' = metadata db -> codes_ok db codes -> codes_ok db' codes.
Proof. intros E [H1 H2 H3]. split; by rewrite E. Qed.

(** Changes of the metadata that leave the code alone. *)
Lemma same_users (m : gmap Z account_metadata_object) (i : Z) (a a' : account_metadata_object) (h : digest) :
  m !! i = Some a -> code_hash a' = code_hash a -> users h (<[i := a']> m) = users h m.
Proof. intros Ha E. pose proof (users_insert h m i a a' Ha) as Hu. rewrite E in Hu. lia. Qed.

Lemma setabi_codes_ok (db db' : database) (codes : undo_index code_object) (auths : list permission_level) (act : setabi) :
  codes_ok db codes -> apply_dcd_setabi db auths act = Ok db' -> codes_ok db' codes.
Proof.
  intros K E. unfold apply_dcd_setabi in E. bind_ok.
  match goal with E : db_get_by by_metadata_name _ _ = Ok ?a |- _ => rename a into m; apply metadata_by_name in E as [Ha _]; [|apply K] end.
  destruct (modify_metadata (metadata db) with_abi_sequence m) as (mt & Em & T & Hc); [apply K|done|done|].
  match goal with E : db_modify metadata_keys _ _ _ = Ok ?t |- _ => assert (t = mt) as -> by congruence end.
  destruct K as [K1 K2 K3]. split; simpl; [done| |].
  - eapply represents_ext; [|exact K2]. intros h _. rewrite Hc. by erewrite same_users.
  - rewrite Hc. intros i b [[<- <-]|[_ Hi]]%lookup_insert_Some; simpl; eauto.
Qed.

Lemma users_fresh (m : gmap Z account_metadata_object) (i : Z) (a : account_metadata_object) (h : digest) :
  m !! i = None -> code_hash a <> h -> users h (<[i := a]> m) = users h m.
Proof. intros Hi Ha. unfold users. rewrite map_filter_insert_False by done. by rewrite delete_id. Qed.

Lemma native_codes_ok (ctl : control) (db db' : database) (codes : undo_index code_object) :
  codes_ok db codes -> room 1 (metadata db) -> native_step ctl db db' -> codes_ok db' codes.
Proof.
  intros K Rm [E|(n & f & u & o & E & <-)]%native_step_metadata; [by eapply metadata_codes_ok|]. destruct K as [K1 K2 K3].
  pose proof (table_ok_fresh _ _ _ K1) as Hf.
  apply (table_ok_create metadata_keys amo_id) in E as (T & -> & Hc & _); [|done|done|done].
  split; [done| |].
  - eapply represents_ext; [|exact K2]. intros h Hh. rewrite Hc. by rewrite users_fresh.
  - rewrite Hc. intros i b [[<- <-]|[_ Hi]]%lookup_insert_Some; simpl; eauto.
Qed.

(** The identifiers of the objects bound their number. *)
Lemma table_size {value} (ks : list (value -> list Z)) (id_of : value -> Z) (u : undo_index value) :
  table_ok ks id_of u -> Z.of_nat (size (contents u)) <= _next_id u.
Proof.
  intros (Hn & Hid & _). rewrite <- size_dom.
  assert (Hs : dom (contents u) ⊆@{gset Z} list_to_set (seqZ 0 (_next_id u))).
  { intros i [v Hv]%elem_of_dom. apply elem_of_list_to_set, elem_of_seqZ. destruct (Hid _ _ Hv) as [_ ?]. lia. }
  apply subseteq_size in Hs. rewrite size_list_to_set, length_seqZ in Hs by apply NoDup_seqZ. lia.
Qed.

(** The states of a chain, with the heights and the times that its blocks give. *)
Inductive chain_state : database -> undo_index code_object -> Prop :=
  | cs_init db : initialize_database empty_db = Ok db -> chain_state db undo_index_empty
  | cs_native ctl db db' codes : chain_state db codes -> db_room db -> native_step ctl db db' -> chain_state db' codes
  | cs_setabi db db' codes auths act : chain_state db codes -> apply_dcd_setabi db auths act = Ok db' -> chain_state db' codes
  | cs_setcode n t db db' codes codes' auths act : chain_state db codes -> room 1 codes -> room 1 (metadata db) ->
      (sc_code act <> [] -> hash_code (sc_code act) <> digest_zero) ->
      apply_dcd_setcode n t db codes auths act = Ok (db', codes') -> chain_state db' codes'.

Lemma chain_state_ok (db : database) (codes : undo_index code_object) : chain_state db codes -> codes_ok db codes.
Proof.
  induction 1 as [db E|ctl db db' codes _ IH R E|db db' codes auths act _ IH E|n t db db' codes codes' auths act _ IH R Rm Hh E].
  - split; [apply (initial_ok db E)| |].
    + split; [apply empty_table_ok|by intros i o Ho|]. intros h Hh Hu. unfold initialize_database in E. bind_ok_pairs.
      change (0 < users h ∅)%nat in Hu. unfold users in Hu. rewrite map_filter_empty, map_size_empty in Hu. lia.
    + unfold initialize_database in E. bind_ok_pairs. by intros i a Ha.
  - eapply native_codes_ok; [done| |done]. destruct R as (_ & _ & _ & _ & R). unfold room in *. lia.
  - by eapply setabi_codes_ok.
  - pose proof (table_size metadata_keys amo_id (metadata db) (ck_metadata _ _ IH)) as Hs. unfold room in *.
    pose proof (setcode_wp n t db codes auths act IH Hh R ltac:(lia)) as S. rewrite E in S. apply S.
Qed.
(** C24. In every state of a chain, a code object counts the accounts that run its code, there are such accounts, the
    object holds code with its hash, and every account that has code finds an object. *)
Theorem code_references (db : database) (codes : undo_index code_object) : chain_state db codes -> codes_ok db codes.
Proof. apply chain_state_ok. Qed.

(** Setting the code of an account in a state of a chain is refused only for want of authority, a foreign
    machine, invalid code, an unknown account, or because the account has that code (or has none to clear).
    Otherwise this account alone changes, to the hash of the code, and afterwards every code object counts the
    accounts that run it, every account finds its code, and code that no account runs is gone. *)
Theorem setcode_spec (n t : Z) (db : database) (codes : undo_index code_object) (auths : list permission_level) (act : setcode) :
  chain_state db codes -> (sc_code act <> [] -> hash_code (sc_code act) <> digest_zero) -> room 1 codes -> room 1 (metadata db) ->
  match apply_dcd_setcode n t db codes auths act with
  | Ok (db', codes') => setcode_done t db db' act /\ codes_ok db' codes'
  | Throw e => setcode_refused db auths act e
  end.
Proof.
  intros K%chain_state_ok Hh R Rm. pose proof (table_size metadata_keys amo_id (metadata db) (ck_metadata _ _ K)) as Hs.
  unfold room in *. apply setcode_wp; [done..|lia].
Qed.
End chain.

(** ** A chain where two accounts share their code *)
#[local] Instance sample_code : Code :=
  {| hash_code c := mk_digest (hd 0 c) (Z.of_nat (length c)) 1 1;
     validate_code c := dcd_assert (bool_decide (c !! 0%nat = Some 0)) wasm_execution_error |}.

Lemma reachable_chain (P : control -> Prop) (db : database) : reachable P db -> chain_state db undo_index_empty.
Proof. induction 1; [by apply cs_init|by eapply cs_native]. Qed.

Definition install (n : account_name) (c : list Z) : setcode := mk_setcode n 0 0 c.
Definition bob_auth : list permission_level := [mk_level bob config.active_name].
Definition from_codes (r : result (database * undo_index code_object)) : database * undo_index code_object :=
  match r with Ok x => x | Throw _ => (empty_db, undo_index_empty) end.
Definition one_contract := Eval vm_compute in
  from_codes (apply_dcd_setcode 2 1000 sample_db3 undo_index_empty alice_auth (install alice [0; 97])).
Definition two_contracts := Eval vm_compute in
  from_codes (apply_dcd_setcode 3 2000 (fst one_contract) (snd one_contract) bob_auth (install bob [0; 97])).

Lemma two_contracts_reached : chain_state (fst two_contracts) (snd two_contracts).
Proof.
  apply (cs_setcode 3 2000 (fst one_contract) _ (snd one_contract) _ bob_auth (install bob [0; 97]));
    [|reflexivity|reflexivity|intros _; discriminate|by vm_compute].
  apply (cs_setcode 2 1000 sample_db3 _ undo_index_empty _ alice_auth (install alice [0; 97]));
    [|reflexivity|reflexivity|intros _; discriminate|by vm_compute].
  apply (reachable_chain (fun _ => True)). by apply sample_reachable3.
Qed.

Lemma code_references_witness :
  codes_ok (fst two_contracts) (snd two_contracts) /\
  code_ref_count <$> (contents (snd two_contracts) !! 0) = Some 2.
Proof. split; [apply code_references, two_contracts_reached|by vm_compute]. Defined.

Lemma setcode_spec_witness :
  (exists db' codes', apply_dcd_setcode 4 3000 (fst two_contracts) (snd two_contracts) bob_auth (install bob []) = Ok (db', codes') /\
     setcode_done 3000 (fst two_contracts) db' (install bob []) /\ codes_ok db' codes') /\
  setcode_refused (fst two_contracts) bob_auth (install bob [0; 97]) set_exact_code.
Proof.
  pose proof (setcode_spec 4 3000 (fst two_contracts) (snd two_contracts) bob_auth (install bob []) two_contracts_reached) as S1.
  pose proof (setcode_spec 4 3000 (fst two_contracts) (snd two_contracts) bob_auth (install bob [0; 97]) two_contracts_reached) as S2.
  split.
  - destruct (apply_dcd_setcode _ _ _ _ _ (install bob [])) as [[db' codes']|e] eqn:E; [|by vm_compute in E].
    exists db', codes'. split; [done|]. apply S1; [done|reflexivity|reflexivity].
  - destruct (apply_dcd_setcode _ _ _ _ _ (install bob [0; 97])) as [[db' codes']|e] eqn:E; [by vm_compute in E|].
    assert (e = set_exact_code) as -> by (vm_compute in E; congruence).
    apply S2; [intros _; discriminate|reflexivity|reflexivity].
Defined.
