(* ===== verification/NodeLists.v ===== *)
(** * Lists of accounts that a node accepts or refuses

    The subjective lists of a producing node (libraries/chain/controller.cpp: [check_actor_list], [check_contract_list],
    [check_action_list], [sender_avoids_whitelist_blacklist_enforcement]). The sets are sorted vectors
    ([boost::container::flat_set]); an iterator into one is the rest of the vector. *)

From S2P Require Import Prelude Types Authority AuthorizationManager.

Record node_lists := mk_lists {
  sender_bypass_whiteblacklist : list account_name;
  actor_whitelist : list account_name;
  actor_blacklist : list account_name;
  contract_whitelist : list account_name;
  contract_blacklist : list account_name;
  action_blacklist : list (account_name * action_name)
}.

(** [std::lower_bound]: the first element that is not less. *)
Fixpoint list_lower_bound (l : list Z) (x : Z) : list Z :=
  match l with
  | [] => []
  | y :: r => if y <? x then list_lower_bound r x else l
  end.

(** The loop over the actors in the whitelist; the search goes on behind the last one found. *)
Fixpoint subset_loop (lower_bound actors : list Z) : bool :=
  match actors with
  | [] => true
  | actor :: actors =>
      match list_lower_bound lower_bound actor with
      | [] => false
      | x :: rest => if x =? actor then subset_loop rest actors else false
      end
  end.

(** And in the blacklist. *)
Fixpoint intersects_loop (lower_bound actors : list Z) : bool :=
  match actors with
  | [] => false
  | actor :: actors =>
      match list_lower_bound lower_bound actor with
      | [] => false
      | x :: rest => if x =? actor then true else intersects_loop (x :: rest) actors
      end
  end.

(** [*s.cbegin()] and [*s.crbegin()] of a set that is not empty *)
Definition front (s : list Z) : Z := hd 0 s.
Definition back (s : list Z) : Z := List.last s 0.

Definition is_subset (actors whitelist : list Z) : bool :=
  if (front whitelist <=? front actors) && (back actors <=? back whitelist) then subset_loop whitelist actors else false.

Definition intersects (actors blacklist : list Z) : bool :=
  if (front actors <=? back blacklist) && (front blacklist <=? back actors) then intersects_loop blacklist actors else false.

Section lists.
Context (conf : node_lists).

Definition sender_avoids_whitelist_blacklist_enforcement (sender : account_name) : bool :=
  (0 <? length (sender_bypass_whiteblacklist conf))%nat && bool_decide (sender ∈ sender_bypass_whiteblacklist conf).

Definition check_actor_list (actors : list account_name) : result unit :=
  if (length actors =? 0)%nat then Ok tt
  else if (0 <? length (actor_whitelist conf))%nat then
    dcd_assert (is_subset actors (actor_whitelist conf)) actor_whitelist_exception
  else if (0 <? length (actor_blacklist conf))%nat then
    dcd_assert (negb (intersects actors (actor_blacklist conf))) actor_blacklist_exception
  else Ok tt.

Definition check_contract_list (code : account_name) : result unit :=
  if (0 <? length (contract_whitelist conf))%nat then
    dcd_assert (bool_decide (code ∈ contract_whitelist conf)) contract_whitelist_exception
  else if (0 <? length (contract_blacklist conf))%nat then
    dcd_assert (negb (bool_decide (code ∈ contract_blacklist conf))) contract_blacklist_exception
  else Ok tt.

Definition check_action_list (code : account_name) (act : action_name) : result unit :=
  if (0 <? length (action_blacklist conf))%nat then
    dcd_assert (negb (bool_decide ((code, act) ∈ action_blacklist conf))) action_blacklist_exception
  else Ok tt.
End lists.

(** [flat_set::insert] *)
Fixpoint set_insert (x : Z) (s : list Z) : list Z :=
  match s with
  | [] => [x]
  | y :: r => if x <? y then x :: s else if x =? y then s else y :: set_insert x r
  end.

(** ** The loops decide inclusion and intersection *)
Abbreviation ascending := (StronglySorted Z.lt).

Lemma ascending_cons (x : Z) (l : list Z) : ascending (x :: l) <-> ascending l /\ forall y, y ∈ l -> x < y.
Proof.
  split.
  - intros H. apply StronglySorted_inv in H as [H1 H2]. split; [done|]. intros y Hy. by eapply Forall_forall in H2.
  - intros [H1 H2]. constructor; [done|]. by apply Forall_forall.
Qed.

Lemma lower_bound_spec (l : list Z) (x : Z) :
  ascending l -> ascending (list_lower_bound l x) /\
  forall y, y ∈ list_lower_bound l x <-> y ∈ l /\ x <= y.
Proof.
  induction l as [|z l IH]; intros Hl; simpl; [split; [done|set_solver]|].
  apply ascending_cons in Hl as [Hl Hz]. destruct (Z.ltb_spec z x) as [Hlt|Hle].
  - destruct (IH Hl) as [IH1 IH2]. split; [done|]. intros y. rewrite IH2, elem_of_cons. split; [tauto|].
    intros [[->|Hy] ?]; [lia|done].
  - split; [by apply ascending_cons|]. intros y. rewrite elem_of_cons. split; [|tauto].
    intros [->|Hy]; (split; [tauto|]); [done|]. apply Hz in Hy. lia.
Qed.

Lemma lower_bound_head (l : list Z) (x y : Z) (r : list Z) :
  ascending l -> list_lower_bound l x = y :: r -> (y = x <-> x ∈ l) /\ forall z, z ∈ l -> x < z -> y <> x -> z ∈ y :: r.
Proof.
  intros Hl E. destruct (lower_bound_spec l x Hl) as [Ha Hs]. rewrite E in Ha, Hs. apply ascending_cons in Ha as [_ Hy].
  split; [split|].
  - intros ->. apply Hs. left.
  - intros Hx. assert (Hin : x ∈ y :: r) by (apply Hs; split; [done|lia]). apply elem_of_cons in Hin as [->|Hin]; [done|].
    apply Hy in Hin. assert (Hle : x <= y) by (apply Hs; left). lia.
  - intros z Hz Hxz _. apply Hs. split; [done|lia].
Qed.

(** What is left behind an element that was found. *)
Lemma lower_bound_rest (l : list Z) (x : Z) (r : list Z) :
  ascending l -> list_lower_bound l x = x :: r -> ascending r /\ forall y, x < y -> y ∈ r <-> y ∈ l.
Proof.
  intros Hl E. destruct (lower_bound_spec l x Hl) as [Ha Hs]. rewrite E in Ha, Hs. apply ascending_cons in Ha as [Ha _].
  split; [done|]. intros y Hy. split.
  - intros Hin. apply Hs. by right.
  - intros Hin. assert (H : y ∈ x :: r) by (apply Hs; split; [done|lia]). apply elem_of_cons in H as [->|H]; [lia|done].
Qed.

Lemma subset_loop_spec (actors l : list Z) :
  ascending actors -> ascending l -> subset_loop l actors = true <-> forall a, a ∈ actors -> a ∈ l.
Proof.
  revert l. induction actors as [|a actors IH]; intros l Ha Hl; simpl; [split; [set_solver|done]|].
  apply ascending_cons in Ha as [Ha Hlt]. destruct (list_lower_bound l a) as [|x r] eqn:E.
  - split; [done|]. intros H. destruct (lower_bound_spec l a Hl) as [_ Hs]. rewrite E in Hs.
    assert (Hn : a ∈ []) by (apply Hs; split; [apply H; left|lia]). by apply elem_of_nil in Hn.
  - destruct (lower_bound_head l a x r Hl E) as [Hx _]. destruct (Z.eqb_spec x a) as [->|Hne].
    + destruct (lower_bound_rest l a r Hl E) as [Hr Hin]. rewrite (IH r Ha Hr). split.
      * intros H b [->|Hb]%elem_of_cons; [by apply Hx|]. apply Hin; auto.
      * intros H b Hb. apply Hin; [auto|]. apply H. by right.
    + split; [done|]. intros H. destruct Hne. apply Hx, H. left.
Qed.

Lemma intersects_loop_spec (actors l : list Z) :
  ascending actors -> ascending l -> intersects_loop l actors = true <-> exists a, a ∈ actors /\ a ∈ l.
Proof.
  revert l. induction actors as [|a actors IH]; intros l Ha Hl; simpl; [split; [done|set_solver]|].
  apply ascending_cons in Ha as [Ha Hlt]. destruct (lower_bound_spec l a Hl) as [Hr Hs].
  destruct (list_lower_bound l a) as [|x r] eqn:E.
  - split; [done|]. intros (b & [->|Hb]%elem_of_cons & Hin).
    + assert (Hn : a ∈ []) by (apply Hs; split; [done|lia]). by apply elem_of_nil in Hn.
    + assert (Hn : b ∈ []) by (apply Hs; split; [done|apply Hlt in Hb; lia]). by apply elem_of_nil in Hn.
  - destruct (lower_bound_head l a x r Hl E) as [Hx _]. destruct (Z.eqb_spec x a) as [->|Hne].
    + split; [|done]. intros _. exists a. split; [left|by apply Hx].
    + rewrite (IH (x :: r) Ha Hr). split.
      * intros (b & Hb & Hin). exists b. split; [by right|]. by apply Hs.
      * intros (b & [->|Hb]%elem_of_cons & Hin); [by destruct Hne; apply Hx|]. exists b. split; [done|]. apply Hs.
        split; [done|]. apply Hlt in Hb. lia.
Qed.

(** The extents. *)
Lemma front_le (l : list Z) (x : Z) : ascending l -> x ∈ l -> front l <= x.
Proof. destruct l as [|y l]; [set_solver|]. intros [_ H]%ascending_cons [->|Hx]%elem_of_cons; simpl; [lia|]. apply H in Hx. lia. Qed.

Lemma le_back (l : list Z) (x : Z) : ascending l -> x ∈ l -> x <= back l.
Proof.
  unfold back. revert x. induction l as [|y l IH]; [set_solver|]. intros x [Hl H]%ascending_cons Hx. destruct l as [|z l].
  - apply elem_of_cons in Hx as [->|Hx]; [done|set_solver].
  - change (List.last (y :: z :: l) 0) with (List.last (z :: l) 0). apply elem_of_cons in Hx as [->|Hx]; [|by apply IH].
    etrans; [|apply (IH z Hl); left]. specialize (H z ltac:(left)). lia.
Qed.

Lemma front_in (l : list Z) : l <> [] -> front l ∈ l.
Proof. destruct l; [done|]. left. Qed.
Lemma back_in (l : list Z) : l <> [] -> back l ∈ l.
Proof. intros H. unfold back. rewrite (app_removelast_last 0 H) at 2. set_solver. Qed.

Lemma is_subset_spec (actors l : list Z) :
  ascending actors -> ascending l -> actors <> [] -> is_subset actors l = true <-> forall a, a ∈ actors -> a ∈ l.
Proof.
  intros Ha Hl Hne. unfold is_subset. rewrite <- subset_loop_spec by done.
  destruct ((front l <=? front actors) && (back actors <=? back l)) eqn:E; [done|]. split; [done|].
  rewrite subset_loop_spec by done. intros H.
  pose proof (front_le l (front actors) Hl (H _ (front_in _ Hne))). pose proof (le_back l (back actors) Hl (H _ (back_in _ Hne))).
  apply andb_false_iff in E as [E|E]; lia.
Qed.

Lemma intersects_spec (actors l : list Z) :
  ascending actors -> ascending l -> intersects actors l = true <-> exists a, a ∈ actors /\ a ∈ l.
Proof.
  intros Ha Hl. unfold intersects. rewrite <- intersects_loop_spec by done.
  destruct ((front actors <=? back l) && (front l <=? back actors)) eqn:E; [done|]. split; [done|].
  rewrite intersects_loop_spec by done. intros (x & Hx & Hin).
  pose proof (front_le _ _ Ha Hx). pose proof (le_back _ _ Ha Hx). pose proof (front_le _ _ Hl Hin). pose proof (le_back _ _ Hl Hin).
  apply andb_false_iff in E as [E|E]; lia.
Qed.

(** The sets that [insert] builds are sorted. *)
Lemma set_insert_spec (x : Z) (s : list Z) : ascending s -> ascending (set_insert x s) /\ forall y, y ∈ set_insert x s <-> y = x \/ y ∈ s.
Proof.
  induction s as [|z s IH]; intros Hs; simpl; [split; [repeat constructor|set_solver]|].
  pose proof Hs as [Ha Hz]%ascending_cons. destruct (Z.ltb_spec x z) as [Hlt|Hge].
  - split; [|set_solver]. apply ascending_cons. split; [done|]. intros y [->|Hy]%elem_of_cons; [done|]. apply Hz in Hy. lia.
  - destruct (Z.eqb_spec x z) as [->|Hne]; [split; [done|set_solver]|]. destruct (IH Ha) as [IH1 IH2]. split.
    + apply ascending_cons. split; [done|]. intros y [->|Hy]%IH2; [lia|auto].
    + intros y. rewrite elem_of_cons, IH2, elem_of_cons. tauto.
Qed.

(** The check of the authorizing accounts, which compares the extents of two sorted vectors and then searches
    each account behind the one found before, accepts exactly the sets that are included in the whitelist or, when
    there is none, that have no account on the blacklist. *)
Theorem check_actor_list_spec (conf : node_lists) (actors : list account_name) :
  ascending actors -> ascending (actor_whitelist conf) -> ascending (actor_blacklist conf) ->
  check_actor_list conf actors =
    if bool_decide (actor_whitelist conf <> []) then
      if bool_decide (Forall (fun a => a ∈ actor_whitelist conf) actors) then Ok tt else Throw actor_whitelist_exception
    else
      if bool_decide (Forall (fun a => a ∉ actor_blacklist conf) actors) then Ok tt else Throw actor_blacklist_exception.
Proof.
  intros Ha Hw Hb. unfold check_actor_list. destruct actors as [|a actors]; [by destruct (bool_decide _)|]. set (l := a :: actors) in *.
  change (length l =? 0)%nat with false. cbn [negb]. destruct (actor_whitelist conf) as [|w ws] eqn:Ew; cbn [length Nat.ltb Nat.leb].
  - rewrite bool_decide_eq_false_2 by naive_solver. pose proof (intersects_spec l (actor_blacklist conf) Ha Hb) as Hi.
    destruct (actor_blacklist conf) as [|b bs] eqn:Eb; cbn [length Nat.ltb Nat.leb].
    + rewrite bool_decide_eq_true_2; [done|]. apply Forall_forall. set_solver.
    + destruct (intersects l (b :: bs)) eqn:E; cbn [negb dcd_assert].
      * rewrite bool_decide_eq_false_2; [done|]. intros H. destruct (proj1 Hi eq_refl) as (x & Hx & Hin).
        by eapply Forall_forall in H.
      * rewrite bool_decide_eq_true_2; [done|]. apply Forall_forall. intros x Hx Hin.
        by assert (false = true) by (apply Hi; eauto).
  - rewrite bool_decide_eq_true_2 by done. pose proof (is_subset_spec l (w :: ws) Ha Hw ltac:(done)) as Hi.
    destruct (is_subset l (w :: ws)) eqn:E; cbn [dcd_assert].
    + rewrite bool_decide_eq_true_2; [done|]. apply Forall_forall. by apply Hi.
    + rewrite bool_decide_eq_false_2; [done|]. rewrite Forall_forall. intros H. by assert (false = true) by (by apply Hi).
Qed.

Lemma check_actor_list_spec_witness :
  check_actor_list (mk_lists [] [1; 4; 6; 9] [] [] [] []) [4; 9] = Ok tt /\
  check_actor_list (mk_lists [] [] [2; 5] [] [] []) [1; 5; 7] = Throw actor_blacklist_exception.
Proof.
  split.
  - rewrite check_actor_list_spec by (simpl; repeat constructor). by vm_compute.
  - rewrite check_actor_list_spec by (simpl; repeat constructor). by vm_compute.
Defined.
