(* ===== verification/Whitelist.v ===== *)
(** * Whitelisted intrinsics

    The multimap from hashes to names of libraries/chain/whitelisted_intrinsics.cpp,
    as the list of its entries in order. [std::hash] is a parameter: nothing is
    assumed of it, in particular not that it has no collisions. *)

From S2P Require Import Prelude.

Section whitelist.
Context (hash : string -> Z).

Abbreviation whitelist := (list (Z * string)).

(** [flat_multimap::lower_bound]: the entries from the first with a hash of at least [h] *)
Fixpoint lower_bound (h : Z) (l : whitelist) : whitelist :=
  match l with
  | [] => []
  | e :: l' => if fst e <? h then lower_bound h l' else l
  end.

(** The scan of the entries with hash [h]: the position where it stops. *)
Fixpoint find_intrinsic_helper (h : Z) (n : string) (l : whitelist) : bool * whitelist :=
  match l with
  | [] => (false, [])
  | e :: l' =>
      if fst e =? h then
        if bool_decide (snd e = n) then (true, l) else find_intrinsic_helper h n l'
      else (false, l)
  end.

(** The iterator to the entry, as the entries from it on; [None] is the end. *)
Definition find_intrinsic (l : whitelist) (h : Z) (n : string) : option whitelist :=
  match find_intrinsic_helper h n (lower_bound h l) with
  | (true, rest) => Some rest
  | (false, _) => None
  end.

Definition is_intrinsic_whitelisted (l : whitelist) (n : string) : bool :=
  fst (find_intrinsic_helper (hash n) n (lower_bound (hash n) l)).

(** [emplace] of a multimap: behind the entries with the same hash *)
Fixpoint emplace (e : Z * string) (l : whitelist) : whitelist :=
  match l with
  | [] => [e]
  | x :: l' => if fst e <? fst x then e :: l else x :: emplace e l'
  end.

Definition add_intrinsic_to_whitelist (l : whitelist) (n : string) : result whitelist :=
  match find_intrinsic l (hash n) n with
  | Some _ => Throw database_exception
  | None => Ok (emplace (hash n, n) l)
  end.

Definition remove_intrinsic_from_whitelist (l : whitelist) (n : string) : result whitelist :=
  match find_intrinsic l (hash n) n with
  | None => Throw database_exception
  | Some rest => Ok (take (length l - length rest) l ++ drop 1 rest)
  end.

(** [s] is the set of names in its order. *)
Definition reset_intrinsic_whitelist (s : list string) : whitelist :=
  foldl (fun l n => emplace (hash n, n) l) [] s.

Definition convert_intrinsic_whitelist_to_set (l : whitelist) : gset string := list_to_set (map snd l).

(** ** The invariant *)
Definition entry_le (x y : Z * string) : Prop := fst x <= fst y.

Definition whitelist_ok (l : whitelist) : Prop :=
  StronglySorted entry_le l /\ Forall (fun e => fst e = hash (snd e)) l /\ NoDup (map snd l).

Lemma lower_bound_split (h : Z) (l : whitelist) :
  StronglySorted entry_le l ->
  exists l1, l = l1 ++ lower_bound h l /\ Forall (fun e => fst e < h) l1 /\
    Forall (fun e => h <= fst e) (lower_bound h l).
Proof.
  induction 1 as [|e l Hs IH Hle]; simpl; [by exists []|].
  destruct (Z.ltb_spec (fst e) h) as [Hlt|Hge].
  - destruct IH as (l1 & E & H1 & H2). exists (e :: l1). split; [simpl; by f_equal|]. split; [by constructor|done].
  - exists []. split; [done|]. split; [constructor|]. constructor; [lia|].
    eapply Forall_impl; [exact Hle|]. unfold entry_le. intros x Hx. lia.
Qed.

(** The helper finds the first entry with the name, and only if there is one. *)
Lemma helper_spec (h : Z) (n : string) (l : whitelist) :
  StronglySorted entry_le l -> Forall (fun e => h <= fst e) l ->
  match find_intrinsic_helper h n l with
  | (true, rest) => exists l1 l2, l = l1 ++ rest /\ rest = (h, n) :: l2
  | (false, _) => (h, n) ∉ l
  end.
Proof.
  induction 1 as [|e l Hs IH Hle]; simpl; intros Hh; [apply not_elem_of_nil|].
  apply Forall_cons in Hh as [Hh0 Hh]. destruct (Z.eqb_spec (fst e) h) as [E|E].
  - case_bool_decide as En; [exists [], l; split; [done|]; destruct e; simpl in *; congruence|].
    specialize (IH Hh). destruct (find_intrinsic_helper h n l) as [[|] rest].
    + destruct IH as (l1 & l2 & -> & ->). by exists (e :: l1), l2.
    + intros [<-|?]%elem_of_cons; done.
  - intros [<-|Hin]%elem_of_cons; [done|]. rewrite Forall_forall in Hle. apply Hle in Hin.
    unfold entry_le in Hin. simpl in Hin. lia.
Qed.

Lemma ok_lower_sorted (h : Z) (l : whitelist) :
  StronglySorted entry_le l -> StronglySorted entry_le (lower_bound h l).
Proof. induction 1; simpl; [constructor|]. destruct (_ <? _); [done|by constructor]. Qed.

Lemma find_intrinsic_spec (l : whitelist) (h : Z) (n : string) :
  StronglySorted entry_le l ->
  match find_intrinsic l h n with
  | Some rest => exists l1 l2, l = l1 ++ rest /\ rest = (h, n) :: l2
  | None => (h, n) ∉ l
  end.
Proof.
  intros Hs. unfold find_intrinsic. destruct (lower_bound_split h l Hs) as (l0 & E & H0 & H1).
  pose proof (helper_spec h n (lower_bound h l) (ok_lower_sorted h l Hs) H1) as H.
  destruct (find_intrinsic_helper _ _ _) as [[|] rest].
  - destruct H as (l1 & l2 & E1 & ->). exists (l0 ++ l1), l2. split; [|done]. rewrite E, E1 at 1. by rewrite app_assoc.
  - rewrite E. intros [Hin|?]%elem_of_app; [|done]. rewrite Forall_forall in H0. apply H0 in Hin. simpl in Hin. lia.
Qed.

(** Under the invariant, an entry is its name. *)
Lemma entry_name (l : whitelist) (n : string) :
  whitelist_ok l -> (hash n, n) ∈ l <-> n ∈ convert_intrinsic_whitelist_to_set l.
Proof.
  intros (_ & Hh & _). unfold convert_intrinsic_whitelist_to_set. rewrite elem_of_list_to_set, list_elem_of_fmap.
  split; [intros H; by exists (hash n, n)|]. intros ([h m] & -> & Hin). rewrite Forall_forall in Hh.
  pose proof (Hh _ Hin) as E. simpl in *. by rewrite <- E.
Qed.

Lemma emplace_perm (e : Z * string) (l : whitelist) : emplace e l ≡ₚ e :: l.
Proof. induction l as [|x l IH]; simpl; [done|]. destruct (_ <? _); [done|]. rewrite IH. apply Permutation_swap. Qed.

Lemma emplace_sorted (e : Z * string) (l : whitelist) :
  StronglySorted entry_le l -> StronglySorted entry_le (emplace e l).
Proof.
  induction 1 as [|x l Hs IH Hle]; simpl; [by repeat constructor|].
  destruct (Z.ltb_spec (fst e) (fst x)) as [Hlt|Hge].
  - constructor; [by constructor|]. constructor; [unfold entry_le; lia|].
    eapply Forall_impl; [exact Hle|]. unfold entry_le. intros. lia.
  - constructor; [done|]. rewrite emplace_perm. constructor; [unfold entry_le; lia|done].
Qed.

Lemma emplace_ok (n : string) (l : whitelist) :
  whitelist_ok l -> n ∉ convert_intrinsic_whitelist_to_set l ->
  whitelist_ok (emplace (hash n, n) l) /\
  convert_intrinsic_whitelist_to_set (emplace (hash n, n) l) = {[n]} ∪ convert_intrinsic_whitelist_to_set l.
Proof.
  intros (Hs & Hh & Hn) Hnew. unfold convert_intrinsic_whitelist_to_set in *. split.
  - split; [by apply emplace_sorted|]. rewrite emplace_perm. split; [by constructor|]. simpl.
    constructor; [|done]. by rewrite elem_of_list_to_set in Hnew.
  - apply set_eq. intros x. rewrite elem_of_list_to_set, emplace_perm. simpl.
    rewrite elem_of_cons. set_solver.
Qed.

Lemma erase_ok (l1 l2 : whitelist) (n : string) :
  whitelist_ok (l1 ++ (hash n, n) :: l2) ->
  whitelist_ok (l1 ++ l2) /\
  convert_intrinsic_whitelist_to_set (l1 ++ l2) =
    convert_intrinsic_whitelist_to_set (l1 ++ (hash n, n) :: l2) ∖ {[n]}.
Proof.
  assert (HP : l1 ++ (hash n, n) :: l2 ≡ₚ (hash n, n) :: (l1 ++ l2)) by (by rewrite Permutation_middle).
  intros (Hs & Hh & Hn). rewrite HP in Hh, Hn. simpl in Hn. apply Forall_cons in Hh as [_ Hh].
  apply NoDup_cons in Hn as [Hnew Hn]. split.
  - split; [|done]. apply StronglySorted_app in Hs as (H1 & H2 & H3). apply StronglySorted_app.
    apply StronglySorted_inv in H3 as [H3 _]. split; [|done]. intros x y Hx Hy. apply H1; [done|]. by right.
  - unfold convert_intrinsic_whitelist_to_set. apply set_eq. intros x.
    rewrite elem_of_difference, !elem_of_list_to_set, HP, elem_of_singleton. simpl. rewrite elem_of_cons.
    split; [intros Hx; split; [by right|]; by intros ->|]. intros [[->|?] ?]; done.
Qed.
End whitelist.

(** ** The claims *)

(** The whitelist implements a set of names, whatever the hash function, also
    when hashes collide: membership is membership in the set, adding succeeds
    exactly for a name that is not in it and adds it, removing succeeds exactly for
    a name that is in it and removes it, and the order of the entries and the
    absence of duplicates are kept. *)
Theorem whitelist_refines_set (hash : string -> Z) (l : list (Z * string)) (n : string) :
  whitelist_ok hash l ->
  (is_intrinsic_whitelisted hash l n = true <-> n ∈ convert_intrinsic_whitelist_to_set l) /\
  match add_intrinsic_to_whitelist hash l n with
  | Ok l' => n ∉ convert_intrinsic_whitelist_to_set l /\ whitelist_ok hash l' /\
             convert_intrinsic_whitelist_to_set l' = {[n]} ∪ convert_intrinsic_whitelist_to_set l
  | Throw e => e = database_exception /\ n ∈ convert_intrinsic_whitelist_to_set l
  end /\
  match remove_intrinsic_from_whitelist hash l n with
  | Ok l' => n ∈ convert_intrinsic_whitelist_to_set l /\ whitelist_ok hash l' /\
             convert_intrinsic_whitelist_to_set l' = convert_intrinsic_whitelist_to_set l ∖ {[n]}
  | Throw e => e = database_exception /\ n ∉ convert_intrinsic_whitelist_to_set l
  end.
Proof.
  intros Hok. pose proof (find_intrinsic_spec l (hash n) n (proj1 Hok)) as H.
  pose proof (entry_name hash l n Hok) as HE.
  unfold is_intrinsic_whitelisted, add_intrinsic_to_whitelist, remove_intrinsic_from_whitelist, find_intrinsic in *.
  destruct (find_intrinsic_helper _ _ _) as [[|] rest]; simpl.
  - destruct H as (l1 & l2 & -> & ->).
    assert (Hin : n ∈ convert_intrinsic_whitelist_to_set (l1 ++ (hash n, n) :: l2)).
    { apply HE, elem_of_app. right. left. }
    split; [by split|]. split; [by split|]. split; [done|].
    replace (take _ _) with l1; [by apply erase_ok|].
    rewrite length_app, Nat.add_sub. by rewrite take_app_length.
  - assert (Hnin : n ∉ convert_intrinsic_whitelist_to_set l) by (by rewrite <- HE).
    split; [by split|]. split; [|by split]. split; [done|]. by apply emplace_ok.
Qed.

Lemma whitelist_refines_set_witness :
  let hash := fun s => Z.of_nat (String.length s) in
  let l := [(3, "abc"); (3, "xyz"); (6, "kv_set")]%string in
  (is_intrinsic_whitelisted hash l "xyz" = true <-> "xyz"%string ∈ convert_intrinsic_whitelist_to_set l) /\
  match add_intrinsic_to_whitelist hash l "xyz" with
  | Ok l' => "xyz"%string ∉ convert_intrinsic_whitelist_to_set l /\ whitelist_ok hash l' /\
             convert_intrinsic_whitelist_to_set l' = {["xyz"%string]} ∪ convert_intrinsic_whitelist_to_set l
  | Throw e => e = database_exception /\ "xyz"%string ∈ convert_intrinsic_whitelist_to_set l
  end /\
  match remove_intrinsic_from_whitelist hash l "xyz" with
  | Ok l' => "xyz"%string ∈ convert_intrinsic_whitelist_to_set l /\ whitelist_ok hash l' /\
             convert_intrinsic_whitelist_to_set l' = convert_intrinsic_whitelist_to_set l ∖ {["xyz"%string]}
  | Throw e => e = database_exception /\ "xyz"%string ∉ convert_intrinsic_whitelist_to_set l
  end.
Proof.
  intros hash l. apply (whitelist_refines_set hash l "xyz").
  split; [|split].
  - repeat constructor; simpl; unfold entry_le; simpl; lia.
  - by repeat constructor.
  - simpl. apply (bool_decide_eq_true_1 (NoDup ["abc"; "xyz"; "kv_set"]%string)). by vm_compute.
Defined.
