(* ===== verification/ProtocolFeatures.v ===== *)
(** * Protocol features: the model

    The set of features a node recognizes and the manager of the activated ones
    (libraries/chain/protocol_feature_manager.cpp), and what the controller does
    with them: checking the features a block announces, pre-activation, and the
    activation at the start of a block (libraries/chain/controller.cpp).

    An iterator into the set of recognized features is the digest it points to,
    [None] the end of the set; [None] also is [no_previous]. *)

From S2P Require Import Prelude Types Whitelist.

Record subjective_restrictions := mk_restrictions {
  earliest_allowed_activation_time : Z;
  preactivation_required : bool;
  enabled : bool
}.

Record builtin_protocol_feature := mk_builtin_feature {
  bf_codename : builtin_protocol_feature_t;
  bf_description_digest : digest;
  bf_dependencies : gset digest;
  bf_restrictions : subjective_restrictions
}.

Record protocol_feature := mk_feature {
  feature_digest : digest;
  description_digest : digest;
  dependencies : gset digest;
  pf_earliest_allowed_activation_time : Z;
  pf_preactivation_required : bool;
  pf_enabled : bool;
  builtin_feature : option builtin_protocol_feature_t
}.

(** [static_cast<uint32_t>( codename )] *)
Definition builtin_index (f : builtin_protocol_feature_t) : nat :=
  match f with
  | preactivate_feature => 0
  | only_link_to_existing_permission => 1
  | replace_deferred => 2
  | no_duplicate_deferred_id => 3
  | fix_linkauth_restriction => 4
  | disallow_empty_producer_schedule => 5
  | restrict_action_to_self => 6
  | only_bill_first_authorizer => 7
  | forward_setcode => 8
  | get_sender => 9
  | ram_restrictions => 10
  | webauthn_key => 11
  | wtmsig_block_signatures => 12
  | action_return_value => 13
  | kv_database => 14
  | configurable_wasm_limits => 15
  | blockchain_parameters => 16
  end.

(** The fields of the table of builtin features that are not texts. *)
Definition builtin_dependencies (f : builtin_protocol_feature_t) : list builtin_protocol_feature_t :=
  match f with no_duplicate_deferred_id => [replace_deferred] | _ => [] end.
Definition default_restrictions (f : builtin_protocol_feature_t) : subjective_restrictions :=
  match f with
  | preactivate_feature => mk_restrictions 0 false true
  | _ => mk_restrictions 0 true true
  end.

(** The digests: of the descriptions, and of a feature as it is packed. *)
Class FeatureDigests := {
  spec_description_digest : builtin_protocol_feature_t -> digest;
  hash_feature : digest * gset digest * builtin_protocol_feature_t -> digest
}.

Section features.
Context `{FeatureDigests}.

(** [builtin_protocol_feature::digest] *)
Definition bf_digest (f : builtin_protocol_feature) : digest :=
  hash_feature (bf_description_digest f, bf_dependencies f, bf_codename f).

(** ** The set of recognized features *)
Record protocol_feature_set := mk_pfs {
  _recognized_protocol_features : gmap digest protocol_feature;
  _recognized_builtin_protocol_features : list (option digest)
}.

Definition pfs_empty : protocol_feature_set := mk_pfs ∅ [].

Inductive recognized_t := unrecognized | disabled | too_early | ready.

Definition is_recognized (s : protocol_feature_set) (d : digest) (now : Z) : recognized_t :=
  match _recognized_protocol_features s !! d with
  | None => unrecognized
  | Some f =>
      if negb (pf_enabled f) then disabled
      else if now <? pf_earliest_allowed_activation_time f then too_early
      else ready
  end.

Definition get_builtin_digest (s : protocol_feature_set) (f : builtin_protocol_feature_t) : option digest :=
  match _recognized_builtin_protocol_features s !! builtin_index f with
  | None => None
  | Some it => it
  end.

Definition get_protocol_feature (s : protocol_feature_set) (d : digest) : result protocol_feature :=
  match _recognized_protocol_features s !! d with
  | None => Throw protocol_feature_exception
  | Some f => Ok f
  end.

Definition validate_dependencies (s : protocol_feature_set) (d : digest) (validator : digest -> bool) : bool :=
  match _recognized_protocol_features s !! d with
  | None => false
  | Some f => forallb validator (elements (dependencies f))
  end.

Definition make_default_builtin_protocol_feature (codename : builtin_protocol_feature_t)
    (handle_dependency : builtin_protocol_feature_t -> digest) : builtin_protocol_feature :=
  mk_builtin_feature codename (spec_description_digest codename)
    (list_to_set (map handle_dependency (builtin_dependencies codename))) (default_restrictions codename).

(** The builtin dependencies that the dependencies of the feature satisfy. *)
Definition satisfied_step (s : protocol_feature_set) (expected acc : list builtin_protocol_feature_t)
    (d : digest) : result (list builtin_protocol_feature_t) :=
  match _recognized_protocol_features s !! d with
  | None => Throw protocol_feature_exception
  | Some f =>
      match builtin_feature f with
      | Some b => if bool_decide (b ∈ expected) && bool_decide (b ∉ acc) then Ok (b :: acc) else Ok acc
      | None => Ok acc
      end
  end.

(** [push_back( end )] up to the index, which is then set *)
Definition set_builtin (l : list (option digest)) (i : nat) (d : digest) : list (option digest) :=
  <[i := Some d]> (l ++ replicate (S i - length l) None).

Definition add_feature (s : protocol_feature_set) (f : builtin_protocol_feature) :
    result protocol_feature_set :=
  let indx := builtin_index (bf_codename f) in
  _ ← dcd_assert (match _recognized_builtin_protocol_features s !! indx with Some (Some _) => false | _ => true end)
        protocol_feature_exception;
  let expected := builtin_dependencies (bf_codename f) in
  satisfied ← foldM (satisfied_step s expected) [] (elements (bf_dependencies f));
  _ ← dcd_assert (length expected <=? length satisfied)%nat protocol_feature_validation_exception;
  let d := bf_digest f in
  _ ← dcd_assert (match _recognized_protocol_features s !! d with None => true | Some _ => false end)
        protocol_feature_exception;
  let feature := mk_feature d (bf_description_digest f) (bf_dependencies f)
                   (earliest_allowed_activation_time (bf_restrictions f))
                   (preactivation_required (bf_restrictions f)) (enabled (bf_restrictions f))
                   (Some (bf_codename f)) in
  Ok (mk_pfs (<[d := feature]> (_recognized_protocol_features s))
        (set_builtin (_recognized_builtin_protocol_features s) indx d)).

(** ** The manager of the activated features *)
Definition not_active : Z := 4294967295.

Record builtin_protocol_feature_entry := mk_entry {
  previous : option nat;
  activation_block_num : Z
}.

Record protocol_feature_manager := mk_pfm {
  _protocol_feature_set : protocol_feature_set;
  _activated_protocol_features : list (digest * Z);
  _builtin_protocol_features : list builtin_protocol_feature_entry;
  _head_of_builtin_activation_list : option nat;
  _initialized : bool
}.

Definition pfm_new (s : protocol_feature_set) : protocol_feature_manager :=
  mk_pfm s []
    (replicate (length (_recognized_builtin_protocol_features s)) (mk_entry None not_active)) None false.

Definition activate_feature (m : protocol_feature_manager) (d : digest) (current_block_num : Z) :
    result protocol_feature_manager :=
  _ ← dcd_assert (_initialized m) protocol_feature_exception;
  match _recognized_protocol_features (_protocol_feature_set m) !! d with
  | None => Throw protocol_feature_exception
  | Some f =>
      _ ← dcd_assert (match last (_activated_protocol_features m) with
                      | Some l => snd l <=? current_block_num
                      | None => true
                      end) protocol_feature_exception;
      match builtin_feature f with
      | None => Throw protocol_feature_exception
      | Some b =>
          let indx := builtin_index b in
          match _builtin_protocol_features m !! indx with
          | None => Throw protocol_feature_exception
          | Some e =>
              _ ← dcd_assert (activation_block_num e =? not_active) protocol_feature_exception;
              Ok (mk_pfm (_protocol_feature_set m)
                    (_activated_protocol_features m ++ [(d, current_block_num)])
                    (<[indx := mk_entry (_head_of_builtin_activation_list m) current_block_num]>
                       (_builtin_protocol_features m))
                    (Some indx) (_initialized m))
          end
      end
  end.

(** [init]: the features that the database says are activated *)
Definition pfm_init (m : protocol_feature_manager) (activated : list (digest * Z)) :
    result protocol_feature_manager :=
  _ ← dcd_assert (negb (_initialized m)) protocol_feature_exception;
  foldM (fun m e => activate_feature m (fst e) (snd e))
    (mk_pfm (_protocol_feature_set m) (_activated_protocol_features m) (_builtin_protocol_features m)
       (_head_of_builtin_activation_list m) true) activated.

Definition is_builtin_activated (m : protocol_feature_manager) (f : builtin_protocol_feature_t)
    (current_block_num : Z) : bool :=
  match _builtin_protocol_features m !! builtin_index f with
  | None => false
  | Some e => activation_block_num e <=? current_block_num
  end.

(** The first loop of [popped_blocks_to], along the activation list. *)
Fixpoint pop_builtins (fuel : nat) (block_num : Z) (head : option nat)
    (l : list builtin_protocol_feature_entry) : result (option nat * list builtin_protocol_feature_entry) :=
  match head with
  | None => Ok (None, l)
  | Some i =>
      match fuel with
      | O => Throw nontermination
      | S fuel =>
          match l !! i with
          | None => Throw undefined_behaviour
          | Some e =>
              if activation_block_num e <=? block_num then Ok (Some i, l)
              else pop_builtins fuel block_num (previous e) (<[i := mk_entry None not_active]> l)
          end
      end
  end.

(** The second loop, from the back of the vector. *)
Fixpoint pop_activated (block_num : Z) (rev_activated : list (digest * Z)) : list (digest * Z) :=
  match rev_activated with
  | e :: l => if block_num <? snd e then pop_activated block_num l else rev_activated
  | [] => []
  end.

(** Each step of the first loop deactivates one entry. *)
Definition popped_blocks_to (m : protocol_feature_manager) (block_num : Z) : result protocol_feature_manager :=
  _ ← dcd_assert (_initialized m) protocol_feature_exception;
  '(head, l) ← pop_builtins (S (length (_builtin_protocol_features m))) block_num
                 (_head_of_builtin_activation_list m) (_builtin_protocol_features m);
  Ok (mk_pfm (_protocol_feature_set m)
        (rev (pop_activated block_num (rev (_activated_protocol_features m)))) l head (_initialized m)).

(** The position of the first activation at or after, or after, a block; the end of
    the activations is [None]. *)
Definition position (p : Z -> bool) (m : protocol_feature_manager) : option nat :=
  fst <$> list_find (fun e => p (snd e) = true) (_activated_protocol_features m).
Definition pfm_lower_bound (m : protocol_feature_manager) (block_num : Z) : option nat :=
  position (fun n => block_num <=? n) m.
Definition pfm_upper_bound (m : protocol_feature_manager) (block_num : Z) : option nat :=
  position (fun n => block_num <? n) m.
Definition at_activation_ordinal (m : protocol_feature_manager) (activation_ordinal : nat) : option nat :=
  if (length (_activated_protocol_features m) <=? activation_ordinal)%nat then None else Some activation_ordinal.

(** ** The controller *)

(** The checks of one announced feature; [before] are those announced before it. *)
Definition check_protocol_feature (s : protocol_feature_set) (timestamp : Z) (currently_activated : gset digest)
    (before : list digest) (d : digest) : result unit :=
  _ ← dcd_assert (match is_recognized s d timestamp with ready => true | _ => false end)
        protocol_feature_exception;
  _ ← dcd_assert (bool_decide (d ∉ currently_activated)) protocol_feature_exception;
  dcd_assert (validate_dependencies s d
                (fun x => bool_decide (x ∈ currently_activated) || bool_decide (x ∈ before)))
    protocol_feature_exception.

Fixpoint check_protocol_features_from (s : protocol_feature_set) (timestamp : Z)
    (currently_activated : gset digest) (before new_features : list digest) : result unit :=
  match new_features with
  | [] => Ok tt
  | d :: l =>
      _ ← check_protocol_feature s timestamp currently_activated before d;
      check_protocol_features_from s timestamp currently_activated (before ++ [d]) l
  end.

Definition check_protocol_features (s : protocol_feature_set) (timestamp : Z)
    (currently_activated : gset digest) (new_features : list digest) : result unit :=
  check_protocol_features_from s timestamp currently_activated [] new_features.

Record protocol_state_object := mk_pso {
  activated_protocol_features : list (digest * Z);
  preactivated_protocol_features : list digest;
  whitelisted_intrinsics : list (Z * string);
  pso_num_supported_key_types : Z
}.

(** [controller::preactivate_feature]; [is_activated] are the features of the block
    being built. *)
Definition preactivate (s : protocol_feature_set) (cur_time : Z) (is_producing_block : bool)
    (is_activated : gset digest) (pso : protocol_state_object) (d : digest) : result protocol_state_object :=
  _ ← dcd_assert (match is_recognized s d cur_time with ready => true | _ => false end)
        (if is_producing_block then subjective_block_production_exception
         else protocol_feature_bad_block_exception);
  _ ← dcd_assert (bool_decide (d ∉ is_activated)) protocol_feature_exception;
  _ ← dcd_assert (bool_decide (d ∉ preactivated_protocol_features pso)) protocol_feature_exception;
  _ ← dcd_assert (validate_dependencies s d
                    (fun x => bool_decide (x ∈ is_activated)
                              || bool_decide (x ∈ preactivated_protocol_features pso)))
        protocol_feature_exception;
  Ok (mk_pso (activated_protocol_features pso) (preactivated_protocol_features pso ++ [d])
        (whitelisted_intrinsics pso) (pso_num_supported_key_types pso)).

(** The intrinsics that the activation handlers add. *)
Definition activated_intrinsics (f : builtin_protocol_feature_t) : list string :=
  match f with
  | preactivate_feature => ["preactivate_feature"; "is_feature_activated"]
  | get_sender => ["get_sender"]
  | wtmsig_block_signatures => ["set_proposed_producers_ex"]
  | action_return_value => ["set_action_return_value"]
  | kv_database =>
      ["kv_erase"; "kv_set"; "kv_get"; "kv_get_data"; "kv_it_create"; "kv_it_destroy"; "kv_it_status";
       "kv_it_compare"; "kv_it_key_compare"; "kv_it_move_to_end"; "kv_it_next"; "kv_it_prev";
       "kv_it_lower_bound"; "kv_it_key"; "kv_it_value"; "set_kv_parameters_packed";
       "get_kv_parameters_packed"]
  | configurable_wasm_limits => ["set_wasm_parameters_packed"; "get_wasm_parameters_packed"]
  | blockchain_parameters => ["get_parameters_packed"; "set_parameters_packed"]
  | _ => []
  end%string.

(** [trigger_activation_handler]; the handler of [replace_deferred] is empty. *)
Definition trigger_activation_handler (hash : string -> Z) (pso : protocol_state_object)
    (f : builtin_protocol_feature_t) : result protocol_state_object :=
  wl ← foldM (add_intrinsic_to_whitelist hash) (whitelisted_intrinsics pso) (activated_intrinsics f);
  Ok (mk_pso (activated_protocol_features pso) (preactivated_protocol_features pso) wl
        (match f with webauthn_key => 3 | _ => pso_num_supported_key_types pso end)).

(** The state of the loop of [start_block] over the new activations. *)
Record activation_state := mk_activation {
  as_map : gmap digest bool;
  num_preactivated_that_have_activated : nat;
  as_pso : protocol_state_object;
  as_manager : protocol_feature_manager
}.

Definition activation_step (hash : string -> Z) (block_num : Z) (st : activation_state) (d : digest) :
    result activation_state :=
  f ← get_protocol_feature (_protocol_feature_set (as_manager st)) d;
  '(m, n) ← match as_map st !! d with
            | None =>
                _ ← dcd_assert (negb (pf_preactivation_required f)) protocol_feature_exception;
                Ok (<[d := true]> (as_map st), num_preactivated_that_have_activated st)
            | Some b =>
                _ ← dcd_assert (negb b) block_validate_exception;
                Ok (<[d := true]> (as_map st), S (num_preactivated_that_have_activated st))
            end;
  pso ← match builtin_feature f with
        | Some b => trigger_activation_handler hash (as_pso st) b
        | None => Ok (as_pso st)
        end;
  manager ← activate_feature (as_manager st) d block_num;
  Ok (mk_activation m n pso manager).

(** The part of [start_block] that activates features. *)
Definition activate_features (hash : string -> Z) (block_num : Z) (manager : protocol_feature_manager)
    (pso : protocol_state_object) (new_features : list digest) :
    result (protocol_feature_manager * protocol_state_object) :=
  let preactivated := preactivated_protocol_features pso in
  match new_features with
  | [] =>
      _ ← dcd_assert (length preactivated =? 0)%nat block_validate_exception;
      Ok (manager, pso)
  | _ :: _ =>
      st ← foldM (activation_step hash block_num)
             (mk_activation (list_to_map (map (fun d => (d, false)) preactivated)) 0 pso manager) new_features;
      _ ← dcd_assert ((length preactivated =? 0)%nat
                      || (num_preactivated_that_have_activated st =? length preactivated)%nat)
            block_validate_exception;
      Ok (as_manager st,
          mk_pso (activated_protocol_features (as_pso st) ++ map (fun d => (d, block_num)) new_features) []
            (whitelisted_intrinsics (as_pso st)) (pso_num_supported_key_types (as_pso st)))
  end.
End features.
