(* ===== verification/FeatureProofs.v ===== *)
(** * Protocol features: the set and the manager

    The set of recognized features is closed under dependencies; the manager,
    with its vector of activations and its list threaded through an array,
    implements a log of activations that is cut when blocks are popped. *)

From S2P Require Import Prelude Types Whitelist ProtocolFeatures.

Section features.
Context `{FeatureDigests}.

(** ** The set *)
Record pfs_ok (s : protocol_feature_set) : Prop := {
  pfs_digest : forall d f, _recognized_protocol_features s !! d = Some f -> feature_digest f = d;
  pfs_builtin : forall d f, _recognized_protocol_features s !! d = Some f ->
    exists b, builtin_feature f = Some b /\ get_builtin_digest s b = Some d;
  pfs_recognized : forall b d, get_builtin_digest s b = Some d ->
    exists f, _recognized_protocol_features s !! d = Some f /\ builtin_feature f = Some b;
  pfs_closed : forall d f, _recognized_protocol_features s !! d = Some f ->
    forall x, x ∈ dependencies f -> is_Some (_recognized_protocol_features s !! x);
  pfs_expected : forall d f b e, _recognized_protocol_features s !! d = Some f -> builtin_feature f = Some b ->
    e ∈ builtin_dependencies b ->
    exists x g, x ∈ dependencies f /\ _recognized_protocol_features s !! x = Some g /\ builtin_feature g = Some e
}.

Lemma builtin_index_inj (a b : builtin_protocol_feature_t) : builtin_index a = builtin_index b -> a = b.
Proof. destruct a, b; done. Qed.

Lemma set_builtin_lookup (l : list (option digest)) (i j : nat) (d : digest) :
  (set_builtin l i d !! j) = if decide (i = j) then Some (Some d) else
    match l !! j with Some x => Some x | None => if (j <? i)%nat then Some None else None end.
Proof.
  unfold set_builtin. destruct (decide (i = j)) as [<-|Hne].
  - apply list_lookup_insert_eq. rewrite length_app, length_replicate. lia.
  - rewrite list_lookup_insert_ne by done. destruct (l !! j) as [x|] eqn:E.
    + apply lookup_app_l_Some. done.
    + apply lookup_ge_None in E. rewrite lookup_app_r by done.
      destruct (Nat.ltb_spec j i).
      * apply lookup_replicate. split; [done|lia].
      * apply lookup_ge_None. rewrite length_replicate. lia.
Qed.

Lemma get_builtin_set (r r' : gmap digest protocol_feature) (l : list (option digest))
    (b c : builtin_protocol_feature_t) (d : digest) :
  get_builtin_digest (mk_pfs r (set_builtin l (builtin_index b) d)) c =
  if decide (b = c) then Some d else get_builtin_digest (mk_pfs r' l) c.
Proof.
  unfold get_builtin_digest. simpl. rewrite set_builtin_lookup.
  destruct (decide (b = c)) as [<-|Hne]; [by rewrite decide_True|].
  rewrite decide_False by (intros E; by apply Hne, builtin_index_inj).
  destruct (l !! builtin_index c); [done|]. by destruct (_ <? _)%nat.
Qed.

Lemma satisfied_spec (s : protocol_feature_set) (expected acc res : list builtin_protocol_feature_t) (l : list digest) :
  NoDup acc -> acc ⊆ expected -> foldM (satisfied_step s expected) acc l = Ok res ->
  NoDup res /\ res ⊆ expected /\ Forall (fun d => is_Some (_recognized_protocol_features s !! d)) l /\
  (forall b, b ∈ res -> b ∈ acc \/ exists d f, d ∈ l /\ _recognized_protocol_features s !! d = Some f /\
                                   builtin_feature f = Some b).
Proof.
  revert acc. induction l as [|d l IH]; intros acc Hn Hs Hf; simpl in Hf.
  { simplify_eq. split; [done|]. split; [done|]. split; [constructor|]. auto. }
  bind_ok. unfold satisfied_step in E. destruct (_recognized_protocol_features s !! d) as [f|] eqn:Ed; [|done].
  assert (Hcase : a = acc \/ exists b, builtin_feature f = Some b /\ a = b :: acc /\ b ∈ expected /\ b ∉ acc).
  { destruct (builtin_feature f) as [b|]; [|simplify_eq; by left].
    destruct (bool_decide _ && bool_decide _) eqn:Eb; simplify_eq; [right|by left]. breflect. eauto. }
  assert (Ha : NoDup a /\ a ⊆ expected).
  { destruct Hcase as [->|(b & _ & -> & Hb & Hb')]; [done|]. split; [by constructor|].
    intros x [->|Hx]%elem_of_cons; [done|by apply Hs]. }
  destruct (IH a (proj1 Ha) (proj2 Ha) Hf) as (H1 & H2 & H3 & H4).
  split; [done|]. split; [done|]. split; [constructor; [by eexists|done]|].
  intros b Hb. destruct (H4 b Hb) as [Hin|(d' & f' & ? & ?)]; [|right; exists d', f'; split; [by right|done]].
  destruct Hcase as [->|(b' & Hb' & -> & _)]; [by left|].
  apply elem_of_cons in Hin as [->|?]; [right; exists d, f; split; [left|done]|by left].
Qed.

Lemma add_feature_ok (s s' : protocol_feature_set) (f : builtin_protocol_feature) :
  pfs_ok s -> add_feature s f = Ok s' ->
  pfs_ok s' /\ get_builtin_digest s' (bf_codename f) = Some (bf_digest f) /\
  (forall b, b <> bf_codename f -> get_builtin_digest s' b = get_builtin_digest s b).
Proof.
  intros [Hd Hb Hr Hc He] Ha. destruct s as [r l]. unfold add_feature in Ha. bind_ok. simpl in *.
  apply satisfied_spec in E0 as (Hnd & Hsub & Hall & Hsat);
    [|constructor|apply list_subseteq_nil].
  rename Heqb into Hfresh, Heqb0 into Hlen, Heqb1 into Hfree. apply Nat.leb_le in Hlen.
  destruct (r !! bf_digest f) eqn:Enew; [done|].
  assert (Hexp : forall e, e ∈ builtin_dependencies (bf_codename f) -> e ∈ a0).
  { intros e Hin. rewrite (submseteq_length_Permutation a0 (builtin_dependencies (bf_codename f))); [done| |done].
    apply NoDup_submseteq; [done|]. intros x Hx. by apply Hsub. }
  assert (Hdeps : forall x, x ∈ bf_dependencies f -> is_Some (r !! x)).
  { intros x Hx. rewrite Forall_forall in Hall. by apply Hall, elem_of_elements. }
  assert (Hkeep : forall x g, r !! x = Some g ->
    <[bf_digest f := mk_feature (bf_digest f) (bf_description_digest f) (bf_dependencies f)
       (earliest_allowed_activation_time (bf_restrictions f)) (preactivation_required (bf_restrictions f))
       (enabled (bf_restrictions f)) (Some (bf_codename f))]> r !! x = Some g).
  { intros x g Hx. rewrite lookup_insert_ne; [done|]. intros <-. congruence. }
  assert (Hother : forall b d, get_builtin_digest (mk_pfs r l) b = Some d -> b <> bf_codename f).
  { intros b d Hget ->. unfold get_builtin_digest in Hget. simpl in Hget.
    destruct (l !! builtin_index (bf_codename f)) as [[|]|]; done. }
  split; [split; simpl|split].
  - intros d g [[<- <-]|[_ Hg]]%lookup_insert_Some; [done|by apply Hd].
  - intros d g [[<- <-]|[_ Hg]]%lookup_insert_Some; simpl.
    + eexists. split; [done|]. by rewrite (get_builtin_set _ r), decide_True.
    + destruct (Hb d g Hg) as (b & Hgb & Hget). exists b. split; [done|].
      rewrite (get_builtin_set _ r), decide_False; [done|]. intros <-. by eapply Hother.
  - intros b d. rewrite (get_builtin_set _ r). destruct (decide (bf_codename f = b)) as [<-|Hne].
    + intros [= <-]. eexists. rewrite lookup_insert_eq. split; [done|done].
    + intros Hget. destruct (Hr b d Hget) as (g & Hg & ?). exists g. auto.
  - intros d g [[<- <-]|[_ Hg]]%lookup_insert_Some x Hx; simpl in Hx.
    + destruct (Hdeps x Hx) as [y Hy]. eexists. by apply Hkeep.
    + destruct (Hc d g Hg x Hx) as [y Hy]. eexists. by apply Hkeep.
  - intros d g b e [[<- <-]|[_ Hg]]%lookup_insert_Some Hgb Hin; simpl in *.
    + simplify_eq. destruct (Hsat e (Hexp e Hin)) as [?%elem_of_nil|(x & y & Hx & Hy & Hyb)]; [done|].
      exists x, y. split; [by apply elem_of_elements|]. auto.
    + destruct (He d g b e Hg Hgb Hin) as (x & y & ? & ? & ?). exists x, y. auto.
  - by rewrite (get_builtin_set _ r), decide_True.
  - intros b Hne. by rewrite (get_builtin_set _ r), decide_False.
Qed.

Lemma pfs_empty_ok : pfs_ok pfs_empty.
Proof. split; intros * Hx; discriminate Hx. Qed.

(** The sets that a node can build. *)
Inductive pfs_built : protocol_feature_set -> Prop :=
  | built_empty : pfs_built pfs_empty
  | built_add s f s' : pfs_built s -> add_feature s f = Ok s' -> pfs_built s'.

Lemma built_ok (s : protocol_feature_set) : pfs_built s -> pfs_ok s.
Proof. induction 1 as [|s f s' _ IH Ha]; [apply pfs_empty_ok|]. by apply add_feature_ok in Ha as []. Qed.

(** ** The activation list *)
Abbreviation entries := (list builtin_protocol_feature_entry).

(** The list threaded through the array, from its head. *)
Inductive chain (l : entries) : option nat -> list (nat * Z) -> Prop :=
  | chain_nil : chain l None []
  | chain_cons i n p c : l !! i = Some (mk_entry p n) -> chain l p c -> chain l (Some i) ((i, n) :: c).

Lemma chain_insert (l : entries) (h : option nat) (c : list (nat * Z)) (i : nat) (e : builtin_protocol_feature_entry) :
  i ∉ map fst c -> chain l h c -> chain (<[i := e]> l) h c.
Proof.
  intros Hi Hc. induction Hc as [|j n p c Hj Hc IH]; [constructor|].
  simpl in Hi. apply not_elem_of_cons in Hi as [Hne Hi]. apply (chain_cons _ _ _ p); [|by apply IH].
  by rewrite list_lookup_insert_ne.
Qed.

(** What the chain leaves out is inactive. *)
Definition inactive_outside (l : entries) (c : list (nat * Z)) : Prop :=
  forall i e, l !! i = Some e -> i ∉ map fst c -> e = mk_entry None not_active.

Fixpoint pop_chain (block_num : Z) (c : list (nat * Z)) : list (nat * Z) :=
  match c with
  | x :: c' => if block_num <? snd x then pop_chain block_num c' else c
  | [] => []
  end.

Lemma pop_builtins_spec (n : nat) (block_num : Z) (h : option nat) (l : entries) (c : list (nat * Z)) :
  chain l h c -> NoDup (map fst c) -> inactive_outside l c -> (length c < n)%nat ->
  exists h' l', pop_builtins n block_num h l = Ok (h', l') /\ chain l' h' (pop_chain block_num c) /\
    inactive_outside l' (pop_chain block_num c) /\ length l' = length l.
Proof.
  revert h l c. induction n as [|n IH]; intros h l c Hc Hn Hi Hlen; [lia|].
  destruct Hc as [|i k p c Hik Hc]; simpl.
  { exists None, l. split; [done|]. split; [constructor|done]. }
  rewrite Hik. simpl. destruct (Z.leb_spec k block_num), (Z.ltb_spec block_num k); try lia.
  { exists (Some i), l. split; [done|]. split; [by apply (chain_cons _ _ _ p)|done]. }
  simpl in Hn. apply NoDup_cons in Hn as [Hni Hn].
  destruct (IH p (<[i := mk_entry None not_active]> l) c) as (h' & l' & -> & Hc' & Hi' & Hl').
  - by apply chain_insert.
  - done.
  - intros j e Hj Hnj. destruct (decide (i = j)) as [<-|Hne].
    + rewrite list_lookup_insert_eq in Hj by (by eapply lookup_lt_Some). congruence.
    + rewrite list_lookup_insert_ne in Hj by done. apply (Hi j e Hj). simpl.
      apply not_elem_of_cons. done.
  - simpl in Hlen. lia.
  - exists h', l'. rewrite length_insert in Hl'. done.
Qed.

(** ** The manager *)

(** The builtin feature a digest stands for, as an index of the array. *)
Definition index_of (s : protocol_feature_set) (d : digest) : option nat :=
  match _recognized_protocol_features s !! d with
  | Some f => builtin_index <$> builtin_feature f
  | None => None
  end.

Abbreviation log := (list (digest * Z)).

(** The chain is the log, newest first. *)
Definition threads (s : protocol_feature_set) (c : list (nat * Z)) (lg : log) : Prop :=
  Forall2 (fun x e => index_of s (fst e) = Some (fst x) /\ snd x = snd e) c (rev lg).

Definition log_sorted (lg : log) : Prop := StronglySorted (fun x y => snd x <= snd y) lg.

Record pfm_ok (m : protocol_feature_manager) (lg : log) : Prop := {
  pfm_set : pfs_ok (_protocol_feature_set m);
  pfm_log : _activated_protocol_features m = lg;
  pfm_initialized : _initialized m = true;
  pfm_length : length (_builtin_protocol_features m) =
               length (_recognized_builtin_protocol_features (_protocol_feature_set m));
  pfm_sorted : log_sorted lg;
  pfm_bounds : Forall (fun e => snd e < not_active) lg;
  pfm_chain : exists c, chain (_builtin_protocol_features m) (_head_of_builtin_activation_list m) c /\
    NoDup (map fst c) /\ inactive_outside (_builtin_protocol_features m) c /\
    threads (_protocol_feature_set m) c lg
}.

Lemma chain_lookup (l : entries) (h : option nat) (c : list (nat * Z)) (i : nat) (n : Z) :
  chain l h c -> (i, n) ∈ c -> exists p, l !! i = Some (mk_entry p n).
Proof.
  induction 1 as [|j k p c Hj Hc IH]; [by intros ?%elem_of_nil|]. intros [[= -> ->]|Hin]%elem_of_cons; [by exists p|by apply IH].
Qed.

Lemma threads_in (s : protocol_feature_set) (c : list (nat * Z)) (lg : log) (i : nat) (n : Z) :
  threads s c lg -> (i, n) ∈ c <-> exists d, (d, n) ∈ lg /\ index_of s d = Some i /\ (i, n) ∈ c.
Proof.
  intros Ht. split; [|by intros (d & _ & _ & ?)]. intros Hin.
  apply list_elem_of_lookup in Hin as [k Hk]. destruct (Forall2_lookup_l _ _ _ _ _ Ht Hk) as ([d n'] & Hd & Hi & Hn).
  simpl in *. subst. exists d. split; [|split; [done|by eapply list_elem_of_lookup_2]].
  apply list_elem_of_In, in_rev, list_elem_of_In. by eapply list_elem_of_lookup_2.
Qed.

Lemma threads_log (s : protocol_feature_set) (c : list (nat * Z)) (lg : log) (d : digest) (n : Z) :
  threads s c lg -> (d, n) ∈ lg -> exists i, index_of s d = Some i /\ (i, n) ∈ c.
Proof.
  intros Ht Hin. apply list_elem_of_In, in_rev, list_elem_of_In, list_elem_of_lookup in Hin as [k Hk].
  destruct (Forall2_lookup_r _ _ _ _ _ Ht Hk) as ([i n'] & Hi & Hd & Hn). simpl in *. subst.
  exists i. split; [done|]. by eapply list_elem_of_lookup_2.
Qed.

(** Whether a feature is active is what the log says. *)
Lemma activated_log (m : protocol_feature_manager) (lg : log) (f : builtin_protocol_feature_t) (n : Z) :
  pfm_ok m lg -> n < not_active ->
  is_builtin_activated m f n = true <->
  exists d k, (d, k) ∈ lg /\ k <= n /\ index_of (_protocol_feature_set m) d = Some (builtin_index f).
Proof.
  intros [_ _ _ _ _ _ (c & Hc & Hnd & Hin & Ht)] Hn. unfold is_builtin_activated. split.
  - destruct (_builtin_protocol_features m !! builtin_index f) as [e|] eqn:E; [|done]. intros Hle%Z.leb_le.
    destruct (decide (builtin_index f ∈ map fst c)) as [Hf|Hf].
    + apply list_elem_of_fmap in Hf as ([i k] & Hi & Hik). simpl in Hi. subst i.
      destruct (chain_lookup _ _ _ _ _ Hc Hik) as [p Hp]. rewrite Hp in E. simplify_eq. simpl in Hle.
      apply (threads_in _ _ _ _ _ Ht) in Hik as (d & Hd & Hi & _). by exists d, k.
    + apply (Hin _ _ E) in Hf as ->. simpl in Hle. lia.
  - intros (d & k & Hd & Hk & Hi). destruct (threads_log _ _ _ _ _ Ht Hd) as (i & Hi' & Hik).
    rewrite Hi in Hi'. simplify_eq. destruct (chain_lookup _ _ _ _ _ Hc Hik) as [p ->]. simpl. by apply Z.leb_le.
Qed.

(** ** Popping *)
Definition kept (n : Z) (lg : log) : log := filter (fun e : digest * Z => snd e <= n) lg.

Lemma pop_activated_kept (n : Z) (lg : log) :
  log_sorted lg -> pop_activated n (rev lg) = rev (kept n lg).
Proof.
  induction lg as [|e lg IH] using rev_ind; intros Hs; [done|].
  apply StronglySorted_app in Hs as (Hle & Hs & _). unfold kept in *. rewrite rev_app_distr, filter_app. simpl.
  destruct (Z.ltb_spec n (snd e)) as [Hlt|Hge].
  - rewrite IH by done. rewrite filter_cons_False by lia. by rewrite app_nil_r.
  - rewrite filter_cons_True by lia. rewrite rev_app_distr. simpl. rewrite filter_Forall_id; [done|].
    apply Forall_forall. intros x Hx. specialize (Hle x e Hx ltac:(left)). lia.
Qed.

Lemma kept_Forall (P : digest * Z -> Prop) (n : Z) (lg : log) : Forall P lg -> Forall P (kept n lg).
Proof. rewrite !Forall_forall. intros HP x [_ Hx]%list_elem_of_filter. by apply HP. Qed.

Lemma kept_sorted (n : Z) (lg : log) : log_sorted lg -> log_sorted (kept n lg).
Proof.
  unfold log_sorted, kept. induction 1 as [|e lg Hs IH Hle]; [constructor|]. rewrite filter_cons.
  destruct (decide _); [|done]. constructor; [done|]. by apply (kept_Forall _ n).
Qed.

Lemma pop_threads (s : protocol_feature_set) (n : Z) (c : list (nat * Z)) (lg : log) :
  log_sorted lg -> threads s c lg -> threads s (pop_chain n c) (kept n lg).
Proof.
  intros Hs. unfold threads. rewrite <- pop_activated_kept by done.
  induction 1 as [|x e c l [Hi Hn] Hf IH]; simpl; [constructor|]. rewrite Hn.
  destruct (n <? snd e); [done|by constructor].
Qed.

Lemma pop_chain_suffix (n : Z) (c : list (nat * Z)) : exists c0, c = c0 ++ pop_chain n c.
Proof.
  induction c as [|x c [c0 IH]]; simpl; [by exists []|]. destruct (n <? snd x); [|by exists []].
  exists (x :: c0). simpl. by f_equal.
Qed.

Lemma chain_length (l : entries) (h : option nat) (c : list (nat * Z)) :
  chain l h c -> NoDup (map fst c) -> (length c <= length l)%nat.
Proof.
  intros Hc Hn. rewrite <- (length_fmap fst c). rewrite <- (length_seq (length l) 0).
  apply submseteq_length, NoDup_submseteq; [done|]. intros i Hi.
  apply list_elem_of_fmap in Hi as ([j n] & -> & Hj). destruct (chain_lookup _ _ _ _ _ Hc Hj) as [p Hp].
  apply elem_of_seq. apply lookup_lt_Some in Hp. simpl. lia.
Qed.

Lemma popped_ok (m : protocol_feature_manager) (lg : log) (n : Z) :
  pfm_ok m lg -> exists m', popped_blocks_to m n = Ok m' /\ pfm_ok m' (kept n lg) /\
    _protocol_feature_set m' = _protocol_feature_set m.
Proof.
  intros [Hset Hlog Hinit Hlen Hs Hb (c & Hc & Hnd & Hin & Ht)]. unfold popped_blocks_to.
  destruct (pop_builtins_spec (S (length (_builtin_protocol_features m))) n _ _ c Hc Hnd Hin)
    as (h' & l' & Hpop & Hc' & Hin' & Hl').
  { pose proof (chain_length _ _ _ Hc Hnd). lia. }
  rewrite Hinit, Hpop. eexists. split; [reflexivity|]. split; [|done]. split; simpl; auto.
  - rewrite Hlog, pop_activated_kept by done. apply rev_involutive.
  - congruence.
  - by apply kept_sorted.
  - by apply kept_Forall.
  - exists (pop_chain n c). split; [done|]. split; [|split; [done|by apply pop_threads]].
    destruct (pop_chain_suffix n c) as [c0 E]. rewrite E, map_app in Hnd. by apply NoDup_app in Hnd as (_ & _ & ?).
Qed.

(** ** Activating *)
Lemma index_of_length (s : protocol_feature_set) (d : digest) (i : nat) :
  pfs_ok s -> index_of s d = Some i -> (i < length (_recognized_builtin_protocol_features s))%nat.
Proof.
  intros Hs. unfold index_of. destruct (_recognized_protocol_features s !! d) as [f|] eqn:E; [|done].
  destruct (pfs_builtin s Hs d f E) as (b & -> & Hb). intros [= <-]. unfold get_builtin_digest in Hb.
  destruct (_recognized_builtin_protocol_features s !! builtin_index b) eqn:Eb; [|done]. by eapply lookup_lt_Some.
Qed.

Lemma index_of_inj (s : protocol_feature_set) (d e : digest) (i : nat) :
  pfs_ok s -> index_of s d = Some i -> index_of s e = Some i -> d = e.
Proof.
  intros Hs. unfold index_of. destruct (_recognized_protocol_features s !! d) as [f|] eqn:Ed; [|done].
  destruct (_recognized_protocol_features s !! e) as [g|] eqn:Ee; [|done].
  destruct (pfs_builtin s Hs d f Ed) as (b & -> & Hb), (pfs_builtin s Hs e g Ee) as (b' & -> & Hb').
  simpl. intros [= <-] [= E]. apply builtin_index_inj in E as ->. congruence.
Qed.

Lemma activate_threads (s : protocol_feature_set) (c : list (nat * Z)) (lg : log) (d : digest) (i : nat) (n : Z) :
  index_of s d = Some i -> threads s c lg -> threads s ((i, n) :: c) (lg ++ [(d, n)]).
Proof. intros Hi Ht. unfold threads. rewrite rev_app_distr. simpl. by constructor. Qed.

(** What an activation needs. *)
Definition can_activate (s : protocol_feature_set) (lg : log) (d : digest) (n : Z) : Prop :=
  is_Some (_recognized_protocol_features s !! d) /\ Forall (fun e => snd e <= n) lg /\ d ∉ map fst lg.

Lemma last_sorted (lg : log) (n : Z) :
  log_sorted lg ->
  (match last lg with Some l => snd l <=? n | None => true end) = true <-> Forall (fun e => snd e <= n) lg.
Proof.
  intros Hs. destruct lg as [|e lg _] using rev_ind; [by split|]. rewrite last_snoc, Z.leb_le.
  apply StronglySorted_app in Hs as (Hle & _ & _). rewrite Forall_app, Forall_singleton. split; [|by intros []].
  intros He. split; [|done]. apply Forall_forall. intros x Hx. specialize (Hle x e Hx ltac:(left)). lia.
Qed.

Lemma inactive_iff (m : protocol_feature_manager) (lg : log) (d : digest) (i : nat) (e : builtin_protocol_feature_entry) :
  pfm_ok m lg -> index_of (_protocol_feature_set m) d = Some i -> _builtin_protocol_features m !! i = Some e ->
  activation_block_num e = not_active <-> d ∉ map fst lg.
Proof.
  intros [Hset _ _ _ _ Hb (c & Hc & Hnd & Hin & Ht)] Hi He. split.
  - intros En Hd. apply list_elem_of_fmap in Hd as ([d' k] & -> & Hd). simpl in *.
    destruct (threads_log _ _ _ _ _ Ht Hd) as (j & Hj & Hjk). simplify_eq.
    destruct (chain_lookup _ _ _ _ _ Hc Hjk) as [p Hp]. rewrite Hp in He. simplify_eq. simpl in *.
    rewrite Forall_forall in Hb. apply Hb in Hd. simpl in Hd. lia.
  - intros Hd. rewrite (Hin i e He); [done|]. intros Hic. apply list_elem_of_fmap in Hic as ([j k] & -> & Hjk).
    apply (threads_in _ _ _ _ _ Ht) in Hjk as (d' & Hd' & Hj & _). simpl in Hi.
    apply Hd, list_elem_of_fmap. exists (d', k). split; [|done]. simpl. by eapply index_of_inj.
Qed.

Lemma activate_ok (m : protocol_feature_manager) (lg : log) (d : digest) (n : Z) :
  pfm_ok m lg -> n < not_active ->
  match activate_feature m d n with
  | Ok m' => can_activate (_protocol_feature_set m) lg d n /\ pfm_ok m' (lg ++ [(d, n)]) /\
             _protocol_feature_set m' = _protocol_feature_set m
  | Throw e => e = protocol_feature_exception /\ ~ can_activate (_protocol_feature_set m) lg d n
  end.
Proof.
  intros Hok Hn. pose proof Hok as [Hset Hlog Hinit Hlen Hs Hb (c & Hc & Hnd & Hin & Ht)].
  unfold activate_feature, can_activate. rewrite Hinit, Hlog. simpl.
  destruct (_recognized_protocol_features _ !! d) as [f|] eqn:Ed; [|split; [done|]; by intros ([x Hx] & _)].
  destruct (pfs_builtin _ Hset d f Ed) as (b & Hbf & Hget).
  assert (Hi : index_of (_protocol_feature_set m) d = Some (builtin_index b)) by (unfold index_of; by rewrite Ed, Hbf).
  pose proof (last_sorted lg n Hs) as Hlast. unfold dcd_assert.
  destruct (match last lg with Some l => snd l <=? n | None => true end); simpl.
  2:{ split; [done|]. intros (_ & Hle & _). by apply Hlast in Hle. }
  rewrite Hbf. pose proof (index_of_length _ _ _ Hset Hi) as Hlt. rewrite <- Hlen in Hlt.
  destruct (lookup_lt_is_Some_2 _ _ Hlt) as [e He]. rewrite He.
  pose proof (inactive_iff m lg d _ e Hok Hi He) as Hact.
  destruct (Z.eqb_spec (activation_block_num e) not_active) as [En|En]; simpl.
  2:{ split; [done|]. intros (_ & _ & Hd). by apply Hact in Hd. }
  pose proof (proj1 Hact En) as Hd. pose proof (proj1 Hlast eq_refl) as Hle.
  assert (Hnew : builtin_index b ∉ map fst c).
  { intros Hic. apply list_elem_of_fmap in Hic as ([j k] & Hj & Hjk).
    apply (threads_in _ _ _ _ _ Ht) in Hjk as (d' & Hd' & Hj' & _). simpl in Hj. subst j.
    apply Hd, list_elem_of_fmap. exists (d', k). split; [|done]. simpl. by eapply index_of_inj. }
  split; [by split; [eexists|]|]. split; [|done]. split; simpl; auto.
  - by rewrite length_insert.
  - apply StronglySorted_app. split; [|split; [done|by repeat constructor]].
    intros x y Hx ->%list_elem_of_singleton. rewrite Forall_forall in Hle. by apply Hle.
  - apply Forall_app. split; [done|]. by constructor.
  - exists ((builtin_index b, n) :: c). split; [|split; [by constructor|split; [|by apply activate_threads]]].
    + apply (chain_cons _ _ _ (_head_of_builtin_activation_list m)); [by apply list_lookup_insert_eq|by apply chain_insert].
    + intros j e' Hj Hnj. simpl in Hnj. apply not_elem_of_cons in Hnj as [Hne Hnj].
      rewrite list_lookup_insert_ne in Hj by done. by apply (Hin j).
Qed.

(** ** The controller *)
Lemma validate_dependencies_spec (s : protocol_feature_set) (d : digest) (v : digest -> bool) :
  validate_dependencies s d v = true <->
  exists f, _recognized_protocol_features s !! d = Some f /\ forall x, x ∈ dependencies f -> v x = true.
Proof.
  unfold validate_dependencies. destruct (_recognized_protocol_features s !! d) as [f|]; [|naive_solver].
  rewrite forallb_forall. split.
  - intros Hv. exists f. split; [done|]. intros x Hx. by apply Hv, list_elem_of_In, elem_of_elements.
  - intros (g & [= <-] & Hg) x Hx. by apply Hg, elem_of_elements, list_elem_of_In.
Qed.

(** The feature may be activated on top of [active]. *)
Definition admissible (s : protocol_feature_set) (timestamp : Z) (currently_activated active : gset digest)
    (d : digest) : Prop :=
  exists f, _recognized_protocol_features s !! d = Some f /\ pf_enabled f = true /\
    pf_earliest_allowed_activation_time f <= timestamp /\ d ∉ currently_activated /\ dependencies f ⊆ active.

Lemma is_recognized_ready (s : protocol_feature_set) (d : digest) (t : Z) :
  (match is_recognized s d t with ready => true | _ => false end) = true <->
  exists f, _recognized_protocol_features s !! d = Some f /\ pf_enabled f = true /\
    pf_earliest_allowed_activation_time f <= t.
Proof.
  unfold is_recognized. destruct (_recognized_protocol_features s !! d) as [f|]; [|naive_solver].
  destruct (pf_enabled f) eqn:Ee; simpl; [|naive_solver].
  destruct (Z.ltb_spec t (pf_earliest_allowed_activation_time f)); split; try done.
  - intros (g & [= <-] & _ & ?). lia.
  - intros _. by exists f.
Qed.

Lemma check_one_spec (s : protocol_feature_set) (t : Z) (A : gset digest) (before : list digest) (d : digest) :
  check_protocol_feature s t A before d = Ok tt <-> admissible s t A (A ∪ list_to_set before) d.
Proof.
  unfold check_protocol_feature, admissible. pose proof (is_recognized_ready s d t) as Hr.
  pose proof (validate_dependencies_spec s d (fun x => bool_decide (x ∈ A) || bool_decide (x ∈ before))) as Hv.
  unfold dcd_assert. destruct (match is_recognized s d t with ready => true | _ => false end); simpl.
  2:{ split; [done|]. intros (f & Hf & He & Ht & _). assert (false = true) by (apply Hr; by exists f). done. }
  case_bool_decide as Hd; simpl; [|split; [done|]; by intros (f & _ & _ & _ & ? & _)].
  destruct (proj1 Hr eq_refl) as (f & Hf & He & Ht).
  assert (Hset : forall x, bool_decide (x ∈ A) || bool_decide (x ∈ before) = true <-> x ∈ A ∪ list_to_set before).
  { intros x. rewrite orb_true_iff, !bool_decide_eq_true, elem_of_union, elem_of_list_to_set. done. }
  destruct (validate_dependencies _ _ _); simpl; split; try done.
  - intros _. destruct (proj1 Hv eq_refl) as (g & Hg & Hx). exists f. rewrite Hf in Hg. simplify_eq.
    repeat (split; [done|]). intros x Hin. by apply Hset, Hx.
  - intros (g & Hg & _ & _ & _ & Hsub). assert (false = true); [|done]. apply Hv. exists g.
    split; [done|]. intros x Hx. by apply Hset, Hsub.
Qed.

Lemma check_from_spec (s : protocol_feature_set) (t : Z) (A : gset digest) (before new : list digest) :
  check_protocol_features_from s t A before new = Ok tt <->
  forall i d, new !! i = Some d -> admissible s t A (A ∪ list_to_set (before ++ take i new)) d.
Proof.
  revert before. induction new as [|d new IH]; intros before; simpl; [split; [|done]; intros _ i d Hd; by rewrite lookup_nil in Hd|].
  pose proof (check_one_spec s t A before d) as H1.
  destruct (check_protocol_feature s t A before d) as [[]|e]; simpl.
  - rewrite IH. split.
    + intros Hall [|i] x Hx; simpl in *; [simplify_eq; rewrite app_nil_r; by apply H1|].
      specialize (Hall i x Hx). by rewrite <- app_assoc in Hall.
    + intros Hall i x Hx. specialize (Hall (S i) x Hx). simpl in Hall. by rewrite <- app_assoc.
  - split; [done|]. intros Hall. specialize (Hall 0%nat d eq_refl). simpl in Hall. rewrite app_nil_r in Hall.
    by apply H1 in Hall.
Qed.

(** Every activated feature has its dependencies activated. *)
Definition deps_closed (s : protocol_feature_set) (A : gset digest) : Prop :=
  forall d f, d ∈ A -> _recognized_protocol_features s !! d = Some f -> dependencies f ⊆ A.

Lemma admissible_closed (s : protocol_feature_set) (t : Z) (A : gset digest) (new : list digest) :
  deps_closed s A ->
  (forall i d, new !! i = Some d -> admissible s t A (A ∪ list_to_set (take i new)) d) ->
  deps_closed s (A ∪ list_to_set new).
Proof.
  intros Hc Hall d f Hd Hf x Hx. apply elem_of_union in Hd as [Hd|Hd].
  - apply elem_of_union. left. by apply (Hc d f).
  - apply elem_of_list_to_set, list_elem_of_lookup in Hd as [i Hi].
    destruct (Hall i d Hi) as (g & Hg & _ & _ & _ & Hsub). simplify_eq. apply Hsub in Hx.
    apply elem_of_union in Hx as [Hx|Hx]; [by apply elem_of_union_l|]. apply elem_of_union_r.
    rewrite elem_of_list_to_set in *. by eapply elem_of_take in Hx as (j & Hj%list_elem_of_lookup_2 & _).
Qed.
Lemma index_builtin (s : protocol_feature_set) (d : digest) (f : builtin_protocol_feature_t) :
  pfs_ok s -> index_of s d = Some (builtin_index f) <-> get_builtin_digest s f = Some d.
Proof.
  intros Hs. unfold index_of. split.
  - destruct (_recognized_protocol_features s !! d) as [g|] eqn:E; [|done].
    destruct (pfs_builtin s Hs d g E) as (b & -> & Hb). intros [= Hi]. by apply builtin_index_inj in Hi as <-.
  - intros Hb. destruct (pfs_recognized s Hs f d Hb) as (g & -> & ->). done.
Qed.

(** The managers of a set of features, with the log of their activations. *)
Inductive pfm_reach (s : protocol_feature_set) : protocol_feature_manager -> log -> Prop :=
  | reach_init m : pfm_init (pfm_new s) [] = Ok m -> pfm_reach s m []
  | reach_activate m lg d n m' : pfm_reach s m lg -> n < not_active ->
      activate_feature m d n = Ok m' -> pfm_reach s m' (lg ++ [(d, n)])
  | reach_pop m lg n m' : pfm_reach s m lg -> popped_blocks_to m n = Ok m' -> pfm_reach s m' (kept n lg).

Lemma init_ok (s : protocol_feature_set) (m : protocol_feature_manager) :
  pfs_ok s -> pfm_init (pfm_new s) [] = Ok m -> pfm_ok m [] /\ _protocol_feature_set m = s.
Proof.
  intros Hs. unfold pfm_init, pfm_new. simpl. intros [= <-]. split; [|done]. split; simpl; auto.
  - apply length_replicate.
  - constructor.
  - exists []. split; [constructor|]. split; [constructor|]. split; [|constructor].
    intros i e He _. by apply lookup_replicate in He as [-> _].
Qed.

Lemma reach_ok (s : protocol_feature_set) (m : protocol_feature_manager) (lg : log) :
  pfs_ok s -> pfm_reach s m lg -> pfm_ok m lg /\ _protocol_feature_set m = s.
Proof.
  intros Hs. induction 1 as [m Hi|m lg d n m' _ [IH1 IH2] Hn Ha|m lg n m' _ [IH1 IH2] Hp].
  - by apply init_ok.
  - pose proof (activate_ok m lg d n IH1 Hn) as Hok. rewrite Ha in Hok. destruct Hok as (_ & ? & ?). split; [done|congruence].
  - destruct (popped_ok m lg n IH1) as (m1 & Hm1 & Hok & Hs1). rewrite Hp in Hm1. simplify_eq. split; [done|congruence].
Qed.

(** ** The loop of [start_block] *)

(** What the loop has seen. *)
Definition seen_ok (pre seen : list digest) (st : activation_state) : Prop :=
  NoDup seen /\
  (forall d, as_map st !! d = if bool_decide (d ∈ seen) then Some true
                              else if bool_decide (d ∈ pre) then Some false else None) /\
  num_preactivated_that_have_activated st = length (filter (fun d => d ∈ pre) seen).

Lemma seen_ok_init (pre : list digest) (pso : protocol_state_object) (m : protocol_feature_manager) :
  seen_ok pre [] (mk_activation (list_to_map (map (fun d => (d, false)) pre)) 0 pso m).
Proof.
  split; [constructor|]. split; [|done]. intros d. simpl.
  induction pre as [|x pre IH]; simpl; [by rewrite lookup_empty|].
  destruct (decide (x = d)) as [->|Hne].
  - rewrite lookup_insert_eq. by rewrite bool_decide_eq_true_2 by left.
  - rewrite lookup_insert_ne by done. rewrite IH, (bool_decide_ext (d ∈ x :: pre) (d ∈ pre)); [done|].
    rewrite elem_of_cons. naive_solver.
Qed.

Lemma trigger_keeps (hash : string -> Z) (pso pso' : protocol_state_object) (f : builtin_protocol_feature_t) :
  trigger_activation_handler hash pso f = Ok pso' ->
  activated_protocol_features pso' = activated_protocol_features pso.
Proof. unfold trigger_activation_handler. intros Ht. by bind_ok. Qed.

Lemma activation_step_ok (hash : string -> Z) (n : Z) (pre seen : list digest) (lg : log)
    (st st' : activation_state) (d : digest) :
  n < not_active -> pfm_ok (as_manager st) lg -> seen_ok pre seen st ->
  activation_step hash n st d = Ok st' ->
  pfm_ok (as_manager st') (lg ++ [(d, n)]) /\ seen_ok pre (seen ++ [d]) st' /\
  _protocol_feature_set (as_manager st') = _protocol_feature_set (as_manager st) /\
  activated_protocol_features (as_pso st') = activated_protocol_features (as_pso st) /\
  (d ∈ pre \/ exists f, _recognized_protocol_features (_protocol_feature_set (as_manager st)) !! d = Some f /\
                  pf_preactivation_required f = false).
Proof.
  intros Hn Hok (Hnd & Hmap & Hnum) Hs. unfold activation_step in Hs. bind_ok_pairs.
  rename a into f. unfold get_protocol_feature in E.
  destruct (_recognized_protocol_features _ !! d) as [f'|] eqn:Ef; simplify_eq.
  match goal with Ha : activate_feature _ _ _ = Ok _ |- _ => rename Ha into Hact end.
  match goal with Hm : match as_map st !! d with _ => _ end = Ok _ |- _ => rename Hm into Emap end.
  match goal with Hp : match builtin_feature f with _ => _ end = Ok _ |- _ => rename Hp into Epso end.
  pose proof (activate_ok (as_manager st) lg d n Hok Hn) as Ha. rewrite Hact in Ha.
  destruct Ha as (_ & Hok' & Hset). split; [done|].
  assert (Hpso : activated_protocol_features a0 = activated_protocol_features (as_pso st)).
  { destruct (builtin_feature f); [by eapply trigger_keeps|congruence]. }
  rewrite Hmap in Emap.
  assert (Hd : d ∉ seen) by (intros Hin; by rewrite bool_decide_eq_true_2 in Emap).
  rewrite bool_decide_eq_false_2 in Emap by done.
  assert (Hm : g = <[d := true]> (as_map st) /\
               n0 = (num_preactivated_that_have_activated st + if bool_decide (d ∈ pre) then 1 else 0)%nat /\
               (d ∈ pre \/ pf_preactivation_required f = false)).
  { case_bool_decide; bind_ok_pairs; (split; [done|]); (split; [lia|]); [by left|]. breflect. by right. }
  destruct Hm as (-> & -> & Hpre). split; [|split; [done|split; [done|]]].
  2:{ destruct Hpre as [?|?]; [by left|right; by exists f]. }
  split; [|split].
  - apply NoDup_app. split; [done|]. split; [|apply NoDup_singleton]. by intros x Hx ->%list_elem_of_singleton.
  - intros x. simpl. destruct (decide (d = x)) as [<-|Hne].
    + rewrite lookup_insert_eq, bool_decide_eq_true_2; [done|]. apply elem_of_app. right. left.
    + rewrite lookup_insert_ne, Hmap by done.
      rewrite (bool_decide_ext (x ∈ seen ++ [d]) (x ∈ seen)); [done|].
      rewrite elem_of_app, list_elem_of_singleton. naive_solver.
  - simpl. rewrite Hnum, filter_app, length_app. f_equal. case_bool_decide.
    + by rewrite filter_cons_True.
    + by rewrite filter_cons_False.
Qed.

Lemma activation_loop_ok (hash : string -> Z) (n : Z) (pre seen new : list digest) (lg : log)
    (st st' : activation_state) :
  n < not_active -> pfm_ok (as_manager st) lg -> seen_ok pre seen st ->
  foldM (activation_step hash n) st new = Ok st' ->
  pfm_ok (as_manager st') (lg ++ map (fun d => (d, n)) new) /\ seen_ok pre (seen ++ new) st' /\
  activated_protocol_features (as_pso st') = activated_protocol_features (as_pso st) /\
  Forall (fun d => d ∈ pre \/ exists f, _recognized_protocol_features (_protocol_feature_set (as_manager st)) !! d = Some f /\
                  pf_preactivation_required f = false) new.
Proof.
  intros Hn. revert seen lg st. induction new as [|d new IH]; intros seen lg st Hok Hseen Hf; simpl in Hf.
  { simplify_eq. simpl. rewrite !app_nil_r. split; [done|]. split; [done|]. split; [done|constructor]. }
  bind_ok. apply (activation_step_ok _ _ pre seen lg) in E as (Hok1 & Hseen1 & Hset & Hpso & Hd); [|done..].
  apply (IH (seen ++ [d]) (lg ++ [(d, n)])) in Hf as (Hok2 & Hseen2 & Hpso2 & Hall); [|done..].
  rewrite <- app_assoc in Hok2, Hseen2. split; [done|]. split; [done|]. split; [congruence|].
  constructor; [done|]. by rewrite Hset in Hall.
Qed.
End features.

(** ** The claims *)

(** The features a node recognizes, however its set was built: every feature is
    stored under its digest, the table of builtin features and the set agree on
    which digest stands for which builtin feature, all the dependencies of a
    recognized feature are recognized, and they include the builtin features it must
    depend on. *)
Theorem feature_set_consistent `{FeatureDigests} (s : protocol_feature_set) : pfs_built s -> pfs_ok s.
Proof. apply built_ok. Qed.

(** The checks of the features a block announces succeed exactly when each one is
    recognized, enabled and not too early, is not activated yet, and depends only
    on features that are activated or announced before it; so activating them
    leaves every activated feature with its dependencies activated. *)
Theorem check_protocol_features_spec `{FeatureDigests} (s : protocol_feature_set) (t : Z) (A : gset digest)
    (new : list digest) :
  (check_protocol_features s t A new = Ok tt <->
   forall i d, new !! i = Some d -> admissible s t A (A ∪ list_to_set (take i new)) d) /\
  (check_protocol_features s t A new = Ok tt -> deps_closed s A -> deps_closed s (A ∪ list_to_set new)).
Proof.
  pose proof (check_from_spec s t A [] new) as Hspec. split; [exact Hspec|].
  intros Hok Hc. apply (admissible_closed s t); [done|]. by apply Hspec.
Qed.

(** C16. The manager of activated features implements a log of activations. After any
    sequence of activations and of popped blocks: its vector is the log; a builtin
    feature is active at a block exactly when the log has an activation of it at
    that block or before; an activation succeeds exactly for a recognized feature
    that is not in the log, at a block not before the last one; popping blocks
    always returns, and cuts the log at the block. *)
Theorem feature_manager_refines_log `{FeatureDigests} (s : protocol_feature_set)
    (m : protocol_feature_manager) (lg : list (digest * Z)) :
  pfs_built s -> pfm_reach s m lg ->
  _activated_protocol_features m = lg /\
  (forall f n, n < not_active ->
     is_builtin_activated m f n = true <->
     exists d k, (d, k) ∈ lg /\ k <= n /\ get_builtin_digest s f = Some d) /\
  (forall d n, n < not_active -> is_ok (activate_feature m d n) = true <-> can_activate s lg d n) /\
  (forall n, exists m', popped_blocks_to m n = Ok m' /\ pfm_reach s m' (kept n lg)).
Proof.
  intros Hs%built_ok Hr. destruct (reach_ok s m lg Hs Hr) as [Hok Hset]. split; [by apply pfm_log|]. split; [|split].
  - intros f n Hn. rewrite (activated_log m lg f n Hok Hn), Hset.
    setoid_rewrite (index_builtin s _ f Hs). done.
  - intros d n Hn. pose proof (activate_ok m lg d n Hok Hn) as Ha. rewrite Hset in Ha.
    destruct (activate_feature m d n) as [m'|e]; simpl; (split; [|done || by intros ?%(proj2 Ha)]); [|done]. intros _. apply Ha.
  - intros n. destruct (popped_ok m lg n Hok) as (m' & Hm' & _). exists m'. split; [done|]. by eapply reach_pop.
Qed.

(** The activation of features at the start of a block: when it succeeds, every
    pre-activated feature is among the activated ones, no feature is activated
    twice, and one that was not pre-activated does not require it; the manager and
    the state record the same activations, and nothing stays pre-activated. *)
Theorem activate_features_spec `{FeatureDigests} (hash : string -> Z) (block_num : Z)
    (manager manager' : protocol_feature_manager) (pso pso' : protocol_state_object)
    (lg : list (digest * Z)) (new : list digest) :
  pfm_ok manager lg -> block_num < not_active -> NoDup (preactivated_protocol_features pso) ->
  activate_features hash block_num manager pso new = Ok (manager', pso') ->
  preactivated_protocol_features pso ⊆ new /\ NoDup new /\
  (forall d f, d ∈ new -> d ∉ preactivated_protocol_features pso ->
     _recognized_protocol_features (_protocol_feature_set manager) !! d = Some f ->
     pf_preactivation_required f = false) /\
  pfm_ok manager' (lg ++ map (fun d => (d, block_num)) new) /\
  activated_protocol_features pso' = activated_protocol_features pso ++ map (fun d => (d, block_num)) new /\
  preactivated_protocol_features pso' = [].
Proof.
  intros Hok Hn Hpre Ha. unfold activate_features in Ha. set (pre := preactivated_protocol_features pso) in *.
  destruct new as [|d new].
  - bind_ok_pairs. rewrite Nat.eqb_eq in *. destruct (preactivated_protocol_features pso') eqn:E; [|done].
    simpl. rewrite !app_nil_r. split; [by apply list_subseteq_nil|]. split; [constructor|].
    split; [by intros ? ? ?%elem_of_nil|]. done.
  - bind_ok_pairs. apply (activation_loop_ok hash block_num pre [] (d :: new) lg) in E as (Hok' & (Hnd & _ & Hnum) & Hpso & Hall);
      [|done|done|apply seen_ok_init].
    simpl in Hpso. rewrite app_nil_l in *. split; [|split; [done|split; [|split; [done|split; [by rewrite Hpso|done]]]]].
    + intros x Hx. destruct (Nat.eqb_spec (length pre) 0) as [E0|_]; [by destruct pre; [apply elem_of_nil in Hx|]|].
      simpl in *. rewrite Nat.eqb_eq in *.
      assert (HP : filter (fun d => d ∈ pre) (d :: new) ≡ₚ pre).
      { apply submseteq_length_Permutation; [|lia]. apply NoDup_submseteq; [by apply NoDup_filter|].
        by intros y [Hy _]%list_elem_of_filter. }
      rewrite <- HP in Hx. by apply list_elem_of_filter in Hx as [_ Hx].
    + intros x f Hx Hxp Hf. rewrite Forall_forall in Hall. destruct (Hall x Hx) as [?|(g & Hg & Hreq)]; [done|].
      simpl in Hg. congruence.
Qed.

(** ** A node that knows two features *)
#[local] Instance sample_digests : FeatureDigests := {
  spec_description_digest f := mk_digest (Z.of_nat (builtin_index f)) 0 0 0;
  hash_feature '(d, deps, f) := mk_digest (Z.of_nat (builtin_index f)) (hash0 d) (Z.of_nat (size deps)) 1
}.

Definition feature_replace : builtin_protocol_feature :=
  make_default_builtin_protocol_feature replace_deferred (fun _ => digest_zero).
Definition d_replace : digest := Eval vm_compute in bf_digest feature_replace.
Definition feature_nodup : builtin_protocol_feature :=
  make_default_builtin_protocol_feature no_duplicate_deferred_id (fun _ => d_replace).
Definition d_nodup : digest := Eval vm_compute in bf_digest feature_nodup.

Definition from_ok_set (r : result protocol_feature_set) : protocol_feature_set :=
  match r with Ok s => s | Throw _ => pfs_empty end.
Definition sample_set1 := Eval vm_compute in from_ok_set (add_feature pfs_empty feature_replace).
Definition sample_set2 := Eval vm_compute in from_ok_set (add_feature sample_set1 feature_nodup).

Lemma sample_set_built : pfs_built sample_set2.
Proof.
  apply (built_add sample_set1 feature_nodup); [|by vm_compute].
  apply (built_add pfs_empty feature_replace); [constructor|by vm_compute].
Qed.

Lemma feature_set_consistent_witness : pfs_ok sample_set2.
Proof. apply feature_set_consistent. apply sample_set_built. Defined.

Definition from_ok_manager (r : result protocol_feature_manager) : protocol_feature_manager :=
  match r with Ok m => m | Throw _ => pfm_new pfs_empty end.
Definition sample_manager0 := Eval vm_compute in from_ok_manager (pfm_init (pfm_new sample_set2) []).
Definition sample_manager1 := Eval vm_compute in from_ok_manager (activate_feature sample_manager0 d_replace 5).
Definition sample_manager2 := Eval vm_compute in from_ok_manager (activate_feature sample_manager1 d_nodup 9).
Definition sample_manager3 := Eval vm_compute in from_ok_manager (popped_blocks_to sample_manager2 7).

Lemma sample_manager_reach : pfm_reach sample_set2 sample_manager3 [(d_replace, 5)].
Proof.
  change [(d_replace, 5)] with (kept 7 ([] ++ [(d_replace, 5)] ++ [(d_nodup, 9)])).
  rewrite app_assoc. apply (reach_pop _ sample_manager2); [|by vm_compute].
  apply (reach_activate _ sample_manager1); [|done|by vm_compute].
  apply (reach_activate _ sample_manager0); [|done|by vm_compute].
  apply reach_init. by vm_compute.
Qed.

Lemma feature_manager_refines_log_witness :
  _activated_protocol_features sample_manager3 = [(d_replace, 5)] /\
  (forall f n, n < not_active ->
     is_builtin_activated sample_manager3 f n = true <->
     exists d k, (d, k) ∈ [(d_replace, 5)] /\ k <= n /\ get_builtin_digest sample_set2 f = Some d) /\
  (forall d n, n < not_active ->
     is_ok (activate_feature sample_manager3 d n) = true <-> can_activate sample_set2 [(d_replace, 5)] d n) /\
  (forall n, exists m', popped_blocks_to sample_manager3 n = Ok m' /\
                   pfm_reach sample_set2 m' (kept n [(d_replace, 5)])).
Proof. apply feature_manager_refines_log; [apply sample_set_built|apply sample_manager_reach]. Defined.

Lemma check_protocol_features_spec_witness :
  check_protocol_features sample_set2 1 ∅ [d_replace; d_nodup] = Ok tt /\
  deps_closed sample_set2 (∅ ∪ list_to_set [d_replace; d_nodup]).
Proof.
  assert (Hok : check_protocol_features sample_set2 1 ∅ [d_replace; d_nodup] = Ok tt) by (by vm_compute).
  split; [done|]. apply (proj2 (check_protocol_features_spec sample_set2 1 ∅ [d_replace; d_nodup]) Hok).
  intros d f Hd%elem_of_empty. destruct Hd.
Defined.

Definition sample_pso : protocol_state_object := mk_pso [] [d_replace] [] 2.
Definition sample_activation :=
  Eval vm_compute in activate_features (fun s => Z.of_nat (String.length s)) 5 sample_manager0 sample_pso [d_replace].

Lemma activate_features_spec_witness :
  exists manager' pso', sample_activation = Ok (manager', pso') /\
  [d_replace] ⊆ [d_replace] /\ NoDup [d_replace] /\
  (forall d f, d ∈ [d_replace] -> d ∉ [d_replace] ->
     _recognized_protocol_features sample_set2 !! d = Some f -> pf_preactivation_required f = false) /\
  pfm_ok manager' ([] ++ [(d_replace, 5)]) /\
  activated_protocol_features pso' = [] ++ [(d_replace, 5)] /\ preactivated_protocol_features pso' = [].
Proof.
  eexists _, _. split; [reflexivity|].
  apply (activate_features_spec (fun s => Z.of_nat (String.length s)) 5 sample_manager0 _ sample_pso _ [] [d_replace]).
  - apply (init_ok sample_set2); [by apply built_ok, sample_set_built|by vm_compute].
  - done.
  - apply NoDup_singleton.
  - by vm_compute.
Defined.
