(* ===== verification/Effects.v ===== *)
(** * State and exceptions

    The monad of the operations that change an object and may throw: the state
    that an exception leaves behind is part of the result. *)

From S2P Require Import Prelude.

Definition M (S A : Type) : Type := S -> S * result A.

#[global] Instance M_ret (S : Type) : MRet (M S) := fun A a s => (s, Ok a).
#[global] Instance M_bind (S : Type) : MBind (M S) := fun A B f m s =>
  match m s with
  | (s', Ok a) => f a s'
  | (s', Throw e) => (s', Throw e)
  end.

(** The same with fuel for the recursion: [None] when it is used up. *)
Definition F (S A : Type) : Type := S -> option (S * result A).

#[global] Instance F_ret (S : Type) : MRet (F S) := fun A a s => Some (s, Ok a).
#[global] Instance F_bind (S : Type) : MBind (F S) := fun A B f m s =>
  match m s with
  | Some (s', Ok a) => f a s'
  | Some (s', Throw e) => Some (s', Throw e)
  | None => None
  end.

Definition now {S A} (m : M S A) : F S A := fun s => Some (m s).

Fixpoint each {S A} (f : A -> F S unit) (l : list A) : F S unit :=
  match l with
  | [] => mret tt
  | a :: l => _ ← f a; each f l
  end.

Section operations.
Context {S : Type}.

Definition get : M S S := fun s => (s, Ok s).
Definition update (f : S -> S) : M S unit := fun s => (f s, Ok tt).
Definition throw {A} (e : exn) : M S A := fun s => (s, Throw e).
Definition lift {A} (r : result A) : M S A := fun s => (s, r).
Definition check (b : bool) (e : exn) : M S unit := lift (dcd_assert b e).

(** [try { m } catch( ... ) { h; }] *)
Definition catch {A} (m : M S A) (h : exn -> M S A) : M S A := fun s =>
  match m s with
  | (s', Ok a) => (s', Ok a)
  | (s', Throw e) => h e s'
  end.

(** What an exception runs on its way: [try { m } catch( ... ) { h; throw; }], and a scoped exit
    that is cancelled when [m] returns. An exception of [h] replaces the first one. *)
Definition on_exception {A} (m : M S A) (h : M S unit) : M S A :=
  catch m (fun e => _ ← h; throw e).

Definition unless (b : bool) (m : M S unit) : M S unit := if b then mret tt else m.
Definition when (b : bool) (m : M S unit) : M S unit := if b then m else mret tt.

Fixpoint for_each {A} (f : A -> M S unit) (l : list A) : M S unit :=
  match l with
  | [] => mret tt
  | a :: l => _ ← f a; for_each f l
  end.
End operations.

(** ** Triples

    [triple P m Q R]: from a state in [P], [m] returns a value and a state in [Q], or throws and
    leaves a state in [R]. *)
Definition triple {S A} (P : S -> Prop) (m : M S A) (Q : A -> S -> Prop) (R : S -> Prop) : Prop :=
  forall s, P s -> match m s with
                   | (s', Ok a) => Q a s'
                   | (s', Throw e) => R s'
                   end.

Section triples.
Context {S : Type}.
Implicit Types P R : S -> Prop.

Lemma triple_ret {A} P R (a : A) : triple P (mret a) (fun x s => x = a /\ P s) R.
Proof. by intros s. Qed.

Lemma triple_bind {A B} P R (m : M S A) (f : A -> M S B) (Q' : A -> S -> Prop) (Q : B -> S -> Prop) :
  triple P m Q' R -> (forall a, triple (Q' a) (f a) Q R) -> triple P (m ≫= f) Q R.
Proof.
  intros Hm Hf s Hs. unfold mbind, M_bind. specialize (Hm s Hs).
  destruct (m s) as [s' [a|e]]; [by apply Hf|done].
Qed.

Lemma triple_weaken {A} P P' R R' (m : M S A) (Q Q' : A -> S -> Prop) :
  triple P m Q R -> (forall s, P' s -> P s) -> (forall a s, Q a s -> Q' a s) -> (forall s, R s -> R' s) ->
  triple P' m Q' R'.
Proof.
  intros Hm HP HQ HR s Hs. specialize (Hm s (HP s Hs)). destruct (m s) as [s' [a|e]]; auto.
Qed.

Lemma triple_get P R : triple P get (fun a s => a = s /\ P s) R.
Proof. by intros s. Qed.

Lemma triple_lift {A} P (r : result A) : triple P (lift r) (fun a s => r = Ok a /\ P s) P.
Proof. intros s Hs. unfold lift. by destruct r. Qed.

Lemma triple_check P (b : bool) (e : exn) : triple P (check b e) (fun _ s => b = true /\ P s) P.
Proof. intros s Hs. unfold check, lift. by destruct b. Qed.

Lemma triple_throw {A} P (e : exn) (Q : A -> S -> Prop) : triple P (throw e) Q P.
Proof. by intros s. Qed.

Lemma triple_update P R (f : S -> S) (Q : S -> Prop) :
  (forall s, P s -> Q (f s)) -> triple P (update f) (fun _ => Q) R.
Proof. intros Hf s Hs. by apply Hf. Qed.

Lemma triple_for_each {A} P (f : A -> M S unit) (l : list A) :
  (forall a, triple P (f a) (fun _ => P) P) -> triple P (for_each f l) (fun _ => P) P.
Proof.
  intros Hf. induction l as [|a l IH]; simpl; [by intros s|].
  apply (triple_bind P P _ _ (fun _ => P)); [apply Hf|]. by intros _.
Qed.

(** The common case of a sequence that preserves [P]. *)
Lemma preserve_bind {A B} P (m : M S A) (f : A -> M S B) :
  triple P m (fun _ => P) P -> (forall a, triple P (f a) (fun _ => P) P) ->
  triple P (m ≫= f) (fun _ => P) P.
Proof. intros Hm Hf. by apply (triple_bind P P m f (fun _ => P)). Qed.

Lemma preserve_get {B} P (f : S -> M S B) :
  (forall s0, P s0 -> triple P (f s0) (fun _ => P) P) -> triple P (get ≫= f) (fun _ => P) P.
Proof. intros Hf s Hs. by apply (Hf s). Qed.

Lemma preserve_check P (b : bool) (e : exn) : triple P (check b e) (fun _ => P) P.
Proof. intros s Hs. unfold check, lift. by destruct b. Qed.

Lemma preserve_throw {A} P (e : exn) : triple P (throw (A := A) e) (fun _ => P) P.
Proof. by intros s. Qed.

Lemma preserve_ret {A} P (a : A) : triple P (mret a) (fun _ => P) P.
Proof. by intros s. Qed.

Lemma preserve_lift {A B} P (r : result A) (f : A -> M S B) :
  (forall a, r = Ok a -> triple P (f a) (fun _ => P) P) -> triple P (lift r ≫= f) (fun _ => P) P.
Proof.
  intros Hf s Hs. unfold mbind, M_bind, lift. destruct r as [a|e]; [|done]. by apply (Hf a).
Qed.
End triples.

#[export] Hint Resolve preserve_check preserve_throw preserve_ret : dcd.

(** ** Evaluation *)
Lemma bind_Ok {S A B} (m : M S A) (f : A -> M S B) (s s' : S) (a : A) :
  m s = (s', Ok a) -> (m ≫= f) s = f a s'.
Proof. intros Hm. unfold mbind, M_bind. by rewrite Hm. Qed.

Lemma bind_Throw {S A B} (m : M S A) (f : A -> M S B) (s s' : S) (e : exn) :
  m s = (s', Throw e) -> (m ≫= f) s = (s', Throw e).
Proof. intros Hm. unfold mbind, M_bind. by rewrite Hm. Qed.

Lemma bind_Ok_inv {S A B} (m : M S A) (f : A -> M S B) (s s' : S) (b : B) :
  (m ≫= f) s = (s', Ok b) -> exists s1 a, m s = (s1, Ok a) /\ f a s1 = (s', Ok b).
Proof. unfold mbind, M_bind. destruct (m s) as [s1 [a|e]]; [eauto|discriminate]. Qed.

Lemma bind_eq {S A B} (m : M S A) (f : A -> M S B) (s : S) :
  (m ≫= f) s = match m s with
               | (s', Ok a) => f a s'
               | (s', Throw e) => (s', Throw e)
               end.
Proof. done. Qed.

Lemma on_exception_eq {S A} (m : M S A) (h : M S unit) (s : S) :
  on_exception m h s =
  match m s with
  | (s', Ok a) => (s', Ok a)
  | (s', Throw e) => match h s' with
                     | (s'', Ok _) => (s'', Throw e)
                     | (s'', Throw e') => (s'', Throw e')
                     end
  end.
Proof. done. Qed.

Lemma get_bind {S B} (f : S -> M S B) (s : S) : (get ≫= f) s = f s s.
Proof. done. Qed.

Lemma lift_bind {S A B} (r : result A) (f : A -> M S B) (s : S) :
  (lift r ≫= f) s = match r with Ok a => f a s | Throw e => (s, Throw e) end.
Proof. by destruct r. Qed.

Lemma check_bind {S B} (b : bool) (e : exn) (f : unit -> M S B) (s : S) :
  (check b e ≫= f) s = if b then f tt s else (s, Throw e).
Proof. by destruct b. Qed.

Lemma update_bind {S B} (g : S -> S) (f : unit -> M S B) (s : S) : (update g ≫= f) s = f tt (g s).
Proof. done. Qed.

Lemma ret_bind {S A B} (a : A) (f : A -> M S B) (s : S) : (mret a ≫= f) s = f a s.
Proof. done. Qed.

Lemma lift_Ok {S A} (r : result A) (s s' : S) (a : A) : lift r s = (s', Ok a) <-> s' = s /\ r = Ok a.
Proof. unfold lift. split; [intros [= -> ->]; done|by intros [-> ->]]. Qed.

Lemma check_true {S} (e : exn) (s : S) : check true e s = (s, Ok tt).
Proof. done. Qed.

Lemma for_each_app {S A} (f : A -> M S unit) (l1 l2 : list A) (s : S) :
  for_each f (l1 ++ l2) s = (for_each f l1 ≫= fun _ => for_each f l2) s.
Proof.
  revert s. induction l1 as [|a l1 IH]; intros s; [done|]. cbn [app for_each]. rewrite !bind_eq.
  destruct (f a s) as [s' [[]|e]]; [apply IH|done].
Qed.

(** ** Weakest preconditions

    [wp E m Q s]: from [s], [m] returns a value and a state in [Q], or throws an exception in [E]. *)
Definition wp {S A} (E : exn -> Prop) (m : M S A) (Q : A -> S -> Prop) (s : S) : Prop :=
  match m s with
  | (s', Ok a) => Q a s'
  | (_, Throw e) => E e
  end.

Section wp.
Context {S : Type} (E : exn -> Prop).

Lemma wp_bind {A B} (m : M S A) (f : A -> M S B) (Q : B -> S -> Prop) (s : S) :
  wp E m (fun a => wp E (f a) Q) s -> wp E (m ≫= f) Q s.
Proof. unfold wp, mbind, M_bind. by destruct (m s) as [s' [a|e]]. Qed.

Lemma wp_mono {A} (m : M S A) (Q Q' : A -> S -> Prop) (s : S) :
  wp E m Q s -> (forall a s', Q a s' -> Q' a s') -> wp E m Q' s.
Proof. unfold wp. destruct (m s) as [s' [a|e]]; auto. Qed.

Lemma wp_seq {A B} (m : M S A) (f : A -> M S B) (Q : A -> S -> Prop) (Q' : B -> S -> Prop) (s : S) :
  wp E m Q s -> (forall a s', Q a s' -> wp E (f a) Q' s') -> wp E (m ≫= f) Q' s.
Proof. intros Hm Hf. apply wp_bind. by eapply wp_mono. Qed.

Lemma wp_ret {A} (a : A) (Q : A -> S -> Prop) (s : S) : Q a s -> wp E (mret a) Q s.
Proof. done. Qed.

Lemma wp_get {B} (f : S -> M S B) (Q : B -> S -> Prop) (s : S) : wp E (f s) Q s -> wp E (get ≫= f) Q s.
Proof. done. Qed.

Lemma wp_update (g : S -> S) (Q : unit -> S -> Prop) (s : S) : Q tt (g s) -> wp E (update g) Q s.
Proof. done. Qed.

Lemma wp_throw {A} (e : exn) (Q : A -> S -> Prop) (s : S) : E e -> wp E (throw e) Q s.
Proof. done. Qed.

Lemma wp_lift {A B} (r : result A) (f : A -> M S B) (Q : B -> S -> Prop) (s : S) :
  (forall e, r = Throw e -> E e) -> (forall a, r = Ok a -> wp E (f a) Q s) -> wp E (lift r ≫= f) Q s.
Proof. intros He Hf. destruct r as [a|e]; [by apply (Hf a)|by apply (He e)]. Qed.

Lemma wp_lift_end {A} (r : result A) (Q : A -> S -> Prop) (s : S) :
  (forall e, r = Throw e -> E e) -> (forall a, r = Ok a -> Q a s) -> wp E (lift r) Q s.
Proof. intros He Hf. destruct r as [a|e]; [by apply (Hf a)|by apply (He e)]. Qed.

Lemma wp_check {B} (b : bool) (e : exn) (f : unit -> M S B) (Q : B -> S -> Prop) (s : S) :
  E e -> (b = true -> wp E (f tt) Q s) -> wp E (check b e ≫= f) Q s.
Proof. intros He Hf. destruct b; [by apply Hf|done]. Qed.

Lemma wp_run {A} (m : M S A) (Q : A -> S -> Prop) (s s' : S) (a : A) : wp E m Q s -> m s = (s', Ok a) -> Q a s'.
Proof. unfold wp. intros H E'. by rewrite E' in H. Qed.
End wp.
