(* ===== verification/Raw.v ===== *)
(** * Serialization

    Integers and lists of identifiers in the format of fc (libraries/fc/include/fc/io/raw.hpp,
    datastream.hpp). A stream that is read is the list of the bytes that are left, and an operation
    on it is one of the monad of [Effects]; what is packed is a list of bytes, and a stream of a fixed
    size takes it when it is not longer. The machine is little-endian. *)

From S2P Require Import Prelude Effects.

(** ** Data streams *)

(** [datastream< const char* >::get] and [read] *)
Definition ds_get : M (list Z) Z := fun s =>
  match s with
  | b :: s => (s, Ok b)
  | [] => ([], Throw out_of_range)
  end.

Definition ds_read (n : nat) : M (list Z) (list Z) := fun s =>
  if (n <=? length s)%nat then (drop n s, Ok (take n s)) else (s, Throw out_of_range).

(** [datastream< char* >( data, s )]: [write] of the packed values to the first [s] bytes of a
    buffer. *)
Definition ds_write (buffer : list Z) (s : nat) (bytes : list Z) : result (list Z) :=
  if (length bytes <=? s)%nat then Ok (bytes ++ drop (length bytes) buffer) else Throw out_of_range.

(** [fc::raw::pack_size] *)
Definition pack_size (bytes : list Z) : nat := length bytes.

(** ** Integers: the bytes of their representation *)
Fixpoint pack_uint (n : nat) (v : Z) : list Z :=
  match n with
  | O => []
  | S n => Z.land v 0xff :: pack_uint n (Z.shiftr v 8)
  end.

Fixpoint from_bytes (l : list Z) : Z :=
  match l with
  | [] => 0
  | b :: l => Z.lor b (Z.shiftl (from_bytes l) 8)
  end.

Definition unpack_uint (n : nat) : M (list Z) Z := l ← ds_read n; mret (from_bytes l).

Definition pack_uint16 : Z -> list Z := pack_uint 2.
Definition pack_uint32 : Z -> list Z := pack_uint 4.
Definition pack_uint64 : Z -> list Z := pack_uint 8.
Definition unpack_uint16 : M (list Z) Z := unpack_uint 2.
Definition unpack_uint32 : M (list Z) Z := unpack_uint 4.
Definition unpack_uint64 : M (list Z) Z := unpack_uint 8.

(** ** [unsigned_int]: seven bits a byte, the lowest first *)
Fixpoint pack_varint (fuel : nat) (val : Z) : list Z :=
  match fuel with
  | O => []
  | S fuel =>
      let b := Z.land val 0x7f in
      let val := Z.shiftr val 7 in
      Z.lor b (Z.shiftl (if 0 <? val then 1 else 0) 7) :: (if val =? 0 then [] else pack_varint fuel val)
  end.

(** The value has 32 bits, five groups of seven. *)
Definition pack_unsigned_int (v : Z) : list Z := pack_varint 5 v.

Fixpoint unpack_varint (fuel : nat) (v by_ : Z) : M (list Z) Z :=
  match fuel with
  | O => throw nontermination
  | S fuel =>
      b ← ds_get;
      let v := Z.lor v (u32 (Z.shiftl (Z.land b 0x7f) by_)) in
      let by_ := by_ + 7 in
      if negb (Z.land b 0x80 =? 0) && (by_ <? 32) then unpack_varint fuel v by_ else mret (u32 v)
  end.

Definition unpack_unsigned_int : M (list Z) Z := unpack_varint 5 0 0.

(** ** Lists *)
Definition MAX_NUM_ARRAY_ELEMENTS : Z := 1024 * 1024.

Definition pack_ids (l : list Z) : list Z :=
  pack_unsigned_int (u32 (Z.of_nat (length l))) ++ concat (map pack_unsigned_int l).

Fixpoint unpack_n {A} (n : nat) (m : M (list Z) A) : M (list Z) (list A) :=
  match n with
  | O => mret []
  | S n => a ← m; l ← unpack_n n m; mret (a :: l)
  end.

Definition unpack_ids : M (list Z) (list Z) :=
  size ← unpack_unsigned_int;
  _ ← check (size <=? MAX_NUM_ARRAY_ELEMENTS) assert_exception;
  unpack_n (Z.to_nat size) unpack_unsigned_int.

(** ** What was packed is unpacked *)
Lemma pack_uint_length (n : nat) (v : Z) : length (pack_uint n v) = n.
Proof. revert v. induction n as [|n IH]; intros v; simpl; [done|]. by rewrite IH. Qed.

Lemma from_pack_uint (n : nat) (v : Z) : 0 <= v < 256 ^ Z.of_nat n -> from_bytes (pack_uint n v) = v.
Proof.
  revert v. induction n as [|n IH]; intros v Hv; [simpl in *; lia|]. cbn [pack_uint from_bytes].
  rewrite Nat2Z.inj_succ, Z.pow_succ_r in Hv by lia.
  change 0xff with (Z.ones 8). rewrite Z.land_ones, Z.shiftr_div_pow2 by lia. change (2 ^ 8) with 256.
  rewrite IH by (split; [apply Z.div_pos; lia|apply Z.div_lt_upper_bound; lia]).
  rewrite lor_add_shiftl; [|lia|apply Z.mod_pos_bound; lia]. pose proof (Z.div_mod v 256). change (2 ^ 8) with 256. lia.
Qed.

Lemma ds_read_app (l s : list Z) : ds_read (length l) (l ++ s) = (s, Ok l).
Proof.
  unfold ds_read. rewrite length_app. destruct (Nat.leb_spec (length l) (length l + length s)); [|lia].
  by rewrite drop_app_length, take_app_length.
Qed.

Lemma unpack_pack_uint (n : nat) (v : Z) (s : list Z) :
  0 <= v < 256 ^ Z.of_nat n -> unpack_uint n (pack_uint n v ++ s) = (s, Ok v).
Proof.
  intros Hv. unfold unpack_uint. rewrite bind_eq.
  pose proof (ds_read_app (pack_uint n v) s) as E. rewrite pack_uint_length in E. rewrite E.
  by rewrite from_pack_uint.
Qed.

(** The flag that more groups follow. *)
Lemma flag_table :
  forallb (fun m => (Z.land m 0x80 =? 0) && negb (Z.land (128 + m) 0x80 =? 0)) (seqZ 0 128) = true.
Proof. by vm_compute. Qed.

Lemma flag_clear (m : Z) : 0 <= m < 128 -> (Z.land m 0x80 =? 0) = true.
Proof.
  intros Hm. pose proof flag_table as H. rewrite forallb_forall in H.
  specialize (H m ltac:(apply list_elem_of_In, elem_of_seqZ; lia)). by apply andb_true_iff in H as [H _].
Qed.
Lemma flag_set (m : Z) : 0 <= m < 128 -> (Z.land (128 + m) 0x80 =? 0) = false.
Proof.
  intros Hm. pose proof flag_table as H. rewrite forallb_forall in H.
  specialize (H m ltac:(apply list_elem_of_In, elem_of_seqZ; lia)). by apply andb_true_iff in H as [_ H%negb_true_iff].
Qed.

(** The groups that are left are read to the bits above those that were read. *)
Lemma unpack_pack_varint (fuel : nat) (v by_ val : Z) (s : list Z) :
  0 <= by_ -> 0 <= v < 2 ^ by_ -> 0 <= val -> v + val * 2 ^ by_ < 2 ^ 32 -> by_ + 7 * Z.of_nat fuel >= 32 -> by_ < 32 ->
  unpack_varint fuel v by_ (pack_varint fuel val ++ s) = (s, Ok (v + val * 2 ^ by_)).
Proof.
  revert v by_ val. induction fuel as [|fuel IH]; intros v by_ val Hby Hv Hval Hfit Hfuel Hlt; [simpl in Hfuel; lia|].
  cbn [pack_varint unpack_varint app]. rewrite bind_eq. unfold ds_get.
  change 0x7f with (Z.ones 7). rewrite !Z.land_ones, Z.shiftr_div_pow2 by lia. change (2 ^ 7) with 128.
  pose proof (Z.mod_pos_bound val 128 ltac:(lia)) as Hm. pose proof (Z.div_mod val 128 ltac:(lia)) as Hd.
  pose proof (Z.div_pos val 128 Hval ltac:(lia)) as Hq.
  set (q := val / 128) in *. set (m := val mod 128) in *.
  set (c := if 0 <? q then 1 else 0). assert (Hc : c = if 0 <? q then 1 else 0) by done.
  rewrite lor_add_shiftl by (change (2 ^ 7) with 128; lia). change (2 ^ 7) with 128.
  assert (Hb : (m + c * 128) mod 128 = m) by (rewrite Z.mod_add by lia; apply Z.mod_small; lia). rewrite Hb.
  assert (Hp : 0 < 2 ^ by_) by (apply Z.pow_pos_nonneg; lia).
  assert (Hmb : m * 2 ^ by_ < 2 ^ 32) by nia.
  rewrite wrap_small by (unfold fits; rewrite Z.shiftl_mul_pow2 by lia; nia). rewrite lor_add_shiftl by lia.
  assert (Htop : (Z.land (m + c * 128) 0x80 =? 0) = (q =? 0)).
  { unfold c. destruct (Z.ltb_spec 0 q).
    - rewrite Z.add_comm, Z.mul_1_l, flag_set by lia. symmetry. apply Z.eqb_neq. lia.
    - replace q with 0 by lia. rewrite Z.mul_0_l, Z.add_0_r, flag_clear by lia. done. }
  rewrite Htop. destruct (Z.eqb_spec q 0) as [E|Hne]; cbn [negb andb].
  - replace val with m by lia. unfold mret, M_ret. simpl app. by rewrite wrap_small by (unfold fits; nia).
  - assert (Hpow : 2 ^ (by_ + 7) = 128 * 2 ^ by_) by (rewrite Z.pow_add_r by lia; change (2 ^ 7) with 128; lia).
    assert (Hlt' : by_ + 7 < 32).
    { destruct (Z.lt_ge_cases (by_ + 7) 32) as [|Hge]; [done|]. exfalso.
      pose proof (Z.pow_le_mono_r 2 32 (by_ + 7) ltac:(lia) Hge). nia. }
    rewrite (proj2 (Z.ltb_lt _ _) Hlt'). cbv iota. rewrite IH; [|nia..]. f_equal. f_equal. nia.
Qed.

Lemma unpack_pack_unsigned_int (v : Z) (s : list Z) :
  fits 32 v -> unpack_unsigned_int (pack_unsigned_int v ++ s) = (s, Ok v).
Proof.
  intros Hv. unfold unpack_unsigned_int, pack_unsigned_int. rewrite unpack_pack_varint; unfold fits in *; try lia.
  f_equal. f_equal. lia.
Qed.

Lemma unpack_pack_n (l s : list Z) :
  Forall (fits 32) l ->
  unpack_n (length l) unpack_unsigned_int (concat (map pack_unsigned_int l) ++ s) = (s, Ok l).
Proof.
  induction 1 as [|v l Hv Hl IH]; [done|]. cbn [length unpack_n map concat]. rewrite <- (assoc_L (++)).
  rewrite (bind_Ok _ _ _ _ _ (unpack_pack_unsigned_int v _ Hv)). by rewrite (bind_Ok _ _ _ _ _ IH).
Qed.

Lemma unpack_pack_ids (l s : list Z) :
  Forall (fits 32) l -> Z.of_nat (length l) <= MAX_NUM_ARRAY_ELEMENTS -> unpack_ids (pack_ids l ++ s) = (s, Ok l).
Proof.
  intros Hl Hm. unfold unpack_ids, pack_ids.
  assert (Hf : fits 32 (Z.of_nat (length l))) by (unfold MAX_NUM_ARRAY_ELEMENTS, fits in *; lia).
  rewrite wrap_small by done. rewrite <- (assoc_L (++)).
  rewrite (bind_Ok _ _ _ _ _ (unpack_pack_unsigned_int _ _ Hf)).
  rewrite check_bind, (proj2 (Z.leb_le _ _)) by done.
  by rewrite Nat2Z.id, unpack_pack_n.
Qed.

(** The value that is read from bytes has their width. *)
Lemma from_bytes_fits (l : list Z) : Forall (fits 8) l -> fits (8 * Z.of_nat (length l)) (from_bytes l).
Proof.
  induction 1 as [|b l Hb Hl IH]; [by vm_compute|]. cbn [from_bytes length]. unfold fits in *. change (2 ^ 8) with 256 in Hb.
  rewrite lor_add_shiftl by (change (2 ^ 8) with 256; lia). rewrite Nat2Z.inj_succ.
  replace (8 * Z.succ (Z.of_nat (length l))) with (8 * Z.of_nat (length l) + 8) by lia.
  rewrite Z.pow_add_r by lia. change (2 ^ 8) with 256. nia.
Qed.

(** Reading leaves bytes. *)
Definition typed_read {A} (Q : A -> Prop) (m : M (list Z) A) : Prop :=
  triple (Forall (fits 8)) m (fun a s => Q a /\ Forall (fits 8) s) (Forall (fits 8)).

Lemma typed_uint (n : nat) : typed_read (fits (8 * Z.of_nat n)) (unpack_uint n).
Proof.
  intros s Hs. unfold unpack_uint. rewrite bind_eq. unfold ds_read.
  destruct (Nat.leb_spec n (length s)) as [Hn|]; [|done]. unfold mret, M_ret.
  split; [|by apply Forall_drop]. replace n with (length (take n s)) at 1 by (rewrite length_take; lia).
  by apply from_bytes_fits, Forall_take.
Qed.

Lemma typed_varint : typed_read (fun _ => True) unpack_unsigned_int.
Proof.
  assert (Hn : forall n v by_, typed_read (fun _ => True) (unpack_varint n v by_)); [|by apply Hn].
  intros n. induction n as [|n IH]; intros v by_ s Hs; [done|].
  cbn [unpack_varint]. rewrite bind_eq. unfold ds_get. destruct s as [|b s]; [done|]. apply Forall_cons in Hs as [_ Hs].
  destruct (_ && _); [by apply IH|done].
Qed.
