(* ===== verification/Store.v ===== *)
(** * Stores of keys and values

    What a session of the key-value store uses of the store below it (libraries/chain_kv/include/b1/session/session.hpp,
    where it is the parent: another session or the database): reads, iterators, and batches of writes and erasures. An
    iterator is the key it is at, or nothing at the end. A read may change the store, which caches what it reads.

    [StoreLaws] says that a store implements a map whose keys are in lexicographic order. *)

From S2P Require Import Prelude Effects Lex SharedBytes.

Abbreviation iterator := (option (list Z)) (only parsing).

(** [m] returns from [s] *)
Notation returns m s Q := (wp (fun _ => False) m Q s) (only parsing).

(** ** The interface *)
Class Store (S : Type) := {
  read : list Z -> M S (option (list Z));
  find : list Z -> M S iterator;
  begin : M S iterator;
  lower_bound : list Z -> M S iterator;
  (** [operator++] and [operator--] *)
  incr : iterator -> M S iterator;
  decr : iterator -> M S iterator;
  (** [( *it ).second] *)
  deref : S -> iterator -> option (list Z);
  write_all : list (list Z * list Z) -> M S unit;
  erase_all : list (list Z) -> M S unit
}.

(** [it.key()] *)
Definition key_of (it : iterator) : list Z := default [] it.

(** A batch on a map *)
Definition insert_all (l : list (list Z * list Z)) (m : gmap (list Z) (list Z)) : gmap (list Z) (list Z) :=
  foldl (fun m kv => <[kv.1 := kv.2]> m) m l.
Definition delete_all (l : list (list Z)) (m : gmap (list Z) (list Z)) : gmap (list Z) (list Z) :=
  foldl (fun m k => delete k m) m l.

(** ** The laws *)
Class StoreModel (S : Type) `{Store S} := {
  (** the keys and their values *)
  st_map : S -> gmap (list Z) (list Z);
  (** those of the stores below it *)
  st_below : S -> list (gmap (list Z) (list Z));
  (** the store is well-formed *)
  st_ok : S -> Prop;
  (** [begin] is at the first key *)
  st_begin : S -> Prop;
  (** an iterator can be moved and dereferenced *)
  st_valid : S -> iterator -> Prop
}.

(** What a read keeps *)
Definition unchanged {S} `{StoreModel S} (s s' : S) : Prop :=
  st_ok s' /\ st_map s' = st_map s /\ st_below s' = st_below s /\ (st_begin s -> st_begin s') /\ forall it, st_valid s it -> st_valid s' it.

Abbreviation stored m := (fun k => is_Some (m !! k)).

Class StoreLaws (S : Type) `{StoreModel S} := {
  st_nonempty (s : S) k v : st_ok s -> st_map s !! k = Some v -> k <> [] /\ v <> [];
  st_end (s : S) : st_valid s None;
  st_deref (s : S) it : st_ok s -> st_valid s it -> deref s it = (k ← it; st_map s !! k) /\ (is_Some it -> is_Some (deref s it));
  st_read (s : S) k : st_ok s -> k <> [] -> returns (read k) s (fun v s' => unchanged s s' /\ v = st_map s !! k);
  st_find (s : S) k : st_ok s -> k <> [] -> returns (find k) s (fun it s' => unchanged s s' /\ st_valid s' it /\
    it = (_ ← st_map s !! k; Some k));
  st_first (s : S) : st_ok s -> st_begin s -> returns begin s (fun it s' => unchanged s s' /\ st_valid s' it /\
    nearest_up (stored (st_map s)) it);
  st_lower_bound (s : S) k : st_ok s -> k <> [] -> returns (lower_bound k) s (fun it s' => unchanged s s' /\ st_valid s' it /\
    nearest_up (fun x => is_Some (st_map s !! x) /\ k ≤ₖ x) it);
  st_incr (s : S) k : st_ok s -> st_valid s (Some k) -> returns (incr (Some k)) s (fun it s' => unchanged s s' /\ st_valid s' it /\
    nearest_up (fun x => is_Some (st_map s !! x) /\ k <ₖ x) it);
  st_decr (s : S) k : st_ok s -> st_valid s (Some k) -> returns (decr (Some k)) s (fun it s' => unchanged s s' /\ st_valid s' it /\
    nearest_down (fun x => is_Some (st_map s !! x) /\ x <ₖ k) it);
  st_last (s : S) : st_ok s -> returns (decr None) s (fun it s' => unchanged s s' /\ st_valid s' it /\
    nearest_down (stored (st_map s)) it);
  st_write (s : S) l : st_ok s -> Forall (fun kv => kv.1 <> [] /\ kv.2 <> []) l -> returns (write_all l) s (fun _ s' =>
    st_ok s' /\ st_map s' = insert_all l (st_map s) /\ st_below s' = st_below s /\ (l <> [] \/ st_begin s -> st_begin s'));
  st_erase (s : S) l : st_ok s -> Forall (fun k => k <> []) l -> returns (erase_all l) s (fun _ s' =>
    st_ok s' /\ st_map s' = delete_all l (st_map s) /\ st_below s' = st_below s)
}.

Lemma unchanged_refl {S} `{StoreModel S} (s : S) : st_ok s -> unchanged s s.
Proof. intros Hs. by split_and!. Qed.
Lemma unchanged_trans {S} `{StoreModel S} (a b c : S) : unchanged a b -> unchanged b c -> unchanged a c.
Proof. intros (A1 & A2 & A3 & A4 & A5) (B1 & B2 & B3 & B4 & B5). split_and!; [done|congruence|congruence|auto|auto]. Qed.
