(* ===== verification/Session.v ===== *)
(** * Sessions of the key-value store

    [session<Parent>] (libraries/chain_kv/include/b1/session/session.hpp): a cache of keys over a parent, which is the
    database or another session. A key of the cache is deleted, updated or was read from the parent, and knows whether the
    keys before and after it are in the cache too, so that an iterator asks the parent only where they are not.

    The parent of a session is a value of the model that the operations of the session change, as it has one child. An
    iterator of the cache is the key it is at. The comparisons of [shared_bytes] are those of the sequences of bytes
    ([SharedBytes.sb_lt_lex], [SharedBytes.sb_eq_spec]). *)

From S2P Require Import Prelude Effects Lex SharedBytes Store.

Record value_state := mk_value_state {
  next_in_cache : bool;
  previous_in_cache : bool;
  deleted : bool;
  updated : bool;
  version : Z;
  value : list Z
}.

(** [value_state{}] *)
Definition no_value : value_state := mk_value_state false false false false 0 [].

Definition set_next (e : value_state) : value_state :=
  mk_value_state true (previous_in_cache e) (deleted e) (updated e) (version e) (value e).
Definition set_previous (e : value_state) : value_state :=
  mk_value_state (next_in_cache e) true (deleted e) (updated e) (version e) (value e).
Definition set_value (v : list Z) (e : value_state) : value_state :=
  mk_value_state (next_in_cache e) (previous_in_cache e) (deleted e) (updated e) (version e) v.
Definition set_written (v : list Z) (e : value_state) : value_state :=
  mk_value_state (next_in_cache e) (previous_in_cache e) false true (version e) v.
Definition set_erased (e : value_state) : value_state :=
  mk_value_state (next_in_cache e) (previous_in_cache e) true false (u64 (version e + 1)) (value e).

Abbreviation cache_type := (gmap (list Z) value_state) (only parsing).

Record session (P : Type) := mk_session { m_cache : cache_type; m_parent : P }.
Arguments mk_session {P}.
Arguments m_cache {P}.
Arguments m_parent {P}.

Section session.
Context {P : Type} `{!Store P}.

Definition cache_of : M (session P) cache_type := s ← get; mret (m_cache s).
Definition modify (f : cache_type -> cache_type) : M (session P) unit := update (fun s => mk_session (f (m_cache s)) (m_parent s)).

(** [std::visit( ..., m_parent )] *)
Definition visit {A} (m : M P A) : M (session P) A := fun s =>
  let (p, r) := m (m_parent s) in (mk_session (m_cache s) p, r).

(** [m_cache.emplace( key, value_state{} )]: whether the key was inserted *)
Definition emplace (key : list Z) : M (session P) bool :=
  c ← cache_of;
  match c !! key with
  | Some _ => mret false
  | None => _ ← modify (insert key no_value); mret true
  end.

(** [*( *pit ).second] *)
Definition parent_value (pit : iterator) : M (session P) (list Z) :=
  s ← get;
  match deref (m_parent s) pit with
  | Some v => mret v
  | None => throw undefined_behaviour
  end.

(** The key and the value that an iterator of the parent is at become a key of the cache, unless the key is one already. *)
Definition emplace_from (pit : iterator) : M (session P) unit :=
  inserted ← emplace (key_of pit);
  if inserted : bool then v ← parent_value pit; modify (alter (set_value v) (key_of pit)) else mret tt.

(** The [update] of [prime_cache_] *)
Definition prime (pit : iterator) : M (session P) unit :=
  s ← get;
  match deref (m_parent s) pit with
  | None => throw bad_optional_access
  | Some v =>
      inserted ← emplace (key_of pit);
      if inserted : bool then modify (alter (set_value v) (key_of pit)) else mret tt
  end.

Definition prime_cache_ : M (session P) unit :=
  begin ← visit begin;
  if bool_decide (begin = None) then mret tt else
  _ ← prime begin;
  end_ ← visit (decr None);
  prime end_.

(** [session::session( parent )], [attach] *)
Definition attach : M (session P) unit := prime_cache_.
Definition clear : M (session P) unit := modify (fun _ => ∅).

Definition previous_key_ (it : list Z) (pit pbegin : iterator) : M (session P) unit :=
  if bool_decide (it = []) then mret tt else
  _ ← (if bool_decide (pit = pbegin) then mret tt else
    pit ← visit (decr pit);
    _ ← (if bool_decide (pit = None) then mret tt else emplace_from pit);
    _ ← visit (incr pit);
    mret tt);
  c ← cache_of;
  match key_before c it with
  | None => mret tt
  | Some previous_it =>
      _ ← modify (alter set_next previous_it);
      modify (alter set_previous it)
  end.

Definition next_key_ (it : list Z) (pit : iterator) : M (session P) iterator :=
  if bool_decide (it = []) then mret pit else
  let decrement := bool_decide (key_of pit = it) in
  pit ← (if decrement then visit (incr pit) else mret pit);
  _ ← (if bool_decide (pit = None) then mret tt else emplace_from pit);
  pit ← (if decrement then visit (decr pit) else mret pit);
  c ← cache_of;
  _ ← match key_after c it with
      | None => mret tt
      | Some next_it =>
          _ ← modify (alter set_previous next_it);
          modify (alter set_next it)
      end;
  mret pit.

(** A flag of a key of the cache *)
Definition flag (f : value_state -> bool) (key : list Z) : M (session P) bool :=
  c ← cache_of; mret (from_option f false (c !! key)).

(** A new key between two keys that are known to be next to each other *)
Definition in_known_order (key : list Z) : M (session P) bool :=
  c ← cache_of;
  match key_before c key with
  | Some previous => flag next_in_cache previous
  | None => match key_after c key with Some next => flag previous_in_cache next | None => mret false end
  end.

Definition update_iterator_cache_ (key : list Z) : M (session P) unit :=
  inserted ← emplace key;
  if negb inserted then mret tt else
  known ← in_known_order key;
  if known : bool then modify (alter (fun e => set_previous (set_next e)) key) else
  next ← flag next_in_cache key;
  previous ← flag previous_in_cache key;
  if next && previous then mret tt else
  pit ← visit (lower_bound key);
  pit ← (if next then mret pit else next_key_ key pit);
  previous ← flag previous_in_cache key;
  if previous : bool then mret tt else
  begin ← visit begin;
  previous_key_ key pit begin.

(** [updated_keys], [deleted_keys] *)
Definition updated_keys (s : session P) : gset (list Z) := dom (filter (fun kv => updated kv.2 = true) (m_cache s)).
Definition deleted_keys (s : session P) : gset (list Z) := dom (filter (fun kv => deleted kv.2 = true) (m_cache s)).

(** The batches of [commit]; the keys of each are different, so their order, that of a hash table, does not matter. *)
Definition deletes (c : cache_type) : list (list Z) :=
  omap (fun kv => if deleted kv.2 then Some kv.1 else None) (map_to_list c).
Definition updates (c : cache_type) : list (list Z * list Z) :=
  omap (fun kv => if deleted kv.2 then None else if updated kv.2 then Some (kv.1, value kv.2) else None) (map_to_list c).

Definition commit : M (session P) unit :=
  c ← cache_of;
  if bool_decide (c = ∅) then mret tt else
  _ ← (if (0 <? length (deletes c))%nat then visit (erase_all (deletes c)) else mret tt);
  _ ← (if (0 <? length (updates c))%nat then visit (write_all (updates c)) else mret tt);
  clear.

(** ** Reads and writes *)
Definition read_parent (key : list Z) : M (session P) (option (list Z)) :=
  v ← visit (read key);
  match v with
  | None => mret None
  | Some v =>
      _ ← update_iterator_cache_ key;
      _ ← modify (alter (set_value v) key);
      mret (Some v)
  end.

Definition session_read (key : list Z) : M (session P) (option (list Z)) :=
  c ← cache_of;
  match c !! key with
  | Some e =>
      if deleted e then mret None else
      if bool_decide (value e <> []) then mret (Some (value e)) else read_parent key
  | None => read_parent key
  end.

Definition contains (key : list Z) : M (session P) bool :=
  c ← cache_of;
  match c !! key with
  | Some e =>
      if deleted e then mret false else
      if bool_decide (value e <> []) then mret true else v ← read_parent key; mret (bool_decide (v <> None))
  | None => v ← read_parent key; mret (bool_decide (v <> None))
  end.

Definition write (key v : list Z) : M (session P) unit :=
  _ ← update_iterator_cache_ key;
  modify (alter (set_written v) key).

Definition erase (key : list Z) : M (session P) unit :=
  _ ← update_iterator_cache_ key;
  modify (alter set_erased key).

(** ** Iterators *)

(** [first_not_deleted_in_iterator_cache_] on the cache. Past the last key the code reads the flag of the end iterator, too;
    its callers do not look at the flag then. *)
Fixpoint first_not_deleted (fuel : nat) (c : cache_type) (it : iterator) (previous_known : bool) : result (iterator * bool) :=
  match fuel, it with
  | O, _ => Throw nontermination
  | _, None => Ok (None, previous_known)
  | S fuel, Some k =>
      match c !! k with
      | None => Throw undefined_behaviour
      | Some e =>
          let previous_known := if previous_known then previous_in_cache e else false in
          if deleted e then first_not_deleted fuel c (key_after c k) previous_known else Ok (Some k, previous_known)
      end
  end.

(** [first_not_deleted_in_iterator_cache_] on the parent *)
Fixpoint first_not_deleted_parent (fuel : nat) (pit : iterator) : M (session P) iterator :=
  match fuel, pit with
  | O, _ => throw nontermination
  | _, None => mret None
  | S fuel, Some k =>
      gone ← flag deleted k;
      if gone : bool then pit ← visit (incr pit); first_not_deleted_parent fuel pit else mret (Some k)
  end.

(** The iterators of the cache take at most as many steps as it has keys. *)
Definition steps (c : cache_type) : nat := S (S (base.size c)).

Definition session_find (key : list Z) : M (session P) iterator :=
  c ← cache_of;
  _ ← match c !! key with
      | Some _ => mret tt
      | None =>
          pit ← visit (find key);
          if bool_decide (pit = None) then mret tt else
          inserted ← emplace key;
          if inserted : bool then v ← parent_value pit; modify (alter (set_value v) key) else mret tt
      end;
  c ← cache_of;
  mret (match c !! key with Some e => if deleted e then None else Some key | None => None end).

Definition session_begin : M (session P) iterator :=
  c ← cache_of;
  let begin_ := key_first c in
  '(it, previous_in_cache) ← lift (first_not_deleted (steps c) c begin_ true);
  if bool_decide (it = None) || (bool_decide (it <> begin_) && negb previous_in_cache) then
    let pending_key := key_of it in
    pit ← visit begin;
    pit ← first_not_deleted_parent (steps c) pit;
    if bool_decide (pit <> None) && bool_decide (key_of pit <ₖ pending_key) then _ ← emplace_from pit; mret pit
    else mret it
  else mret it.

Definition session_lower_bound (key : list Z) : M (session P) iterator :=
  c ← cache_of;
  '(it, previous_in_cache) ← lift (first_not_deleted (steps c) c (key_from c key) true);
  it ← (if bool_decide (it = None) || (bool_decide (key_of it <> key) && negb previous_in_cache) then
          let pending_key := key_of it in
          pit ← visit (lower_bound key);
          pit ← first_not_deleted_parent (steps c) pit;
          if bool_decide (pit <> None) && (bool_decide (pending_key = []) || bool_decide (key_of pit <ₖ pending_key)) then
            _ ← emplace_from pit; mret pit
          else mret it
        else mret it);
  gone ← (match it with Some k => flag deleted k | None => mret false end);
  mret (if gone : bool then None else it).

(** The [update_cache] of [move_next_] *)
Definition update_next (it : list Z) : M (session P) bool :=
  c ← cache_of;
  let pending_key := key_of (key_after c it) in
  pit ← visit (lower_bound it);
  pit ← (if bool_decide (pit <> None) && bool_decide (key_of pit = it) then visit (incr pit) else mret pit);
  s ← get;
  let value := deref (m_parent s) pit in
  let key := key_of pit in
  let key := if bool_decide (key = []) || (bool_decide (pending_key <> []) && bool_decide (pending_key <ₖ key)) then pending_key else key in
  if bool_decide (key <> []) then
    inserted ← emplace key;
    _ ← modify (alter set_previous key);
    _ ← modify (alter set_next it);
    _ ← (if inserted : bool then
           match value with Some v => modify (alter (set_value v) key) | None => throw undefined_behaviour end
         else mret tt);
    mret true
  else mret false.

(** The [update_cache] of [move_previous_] *)
Definition update_previous (it : list Z) : M (session P) bool :=
  c ← cache_of;
  let pending_key := key_of (key_before c it) in
  pit ← visit (lower_bound it);
  begin_ ← visit begin;
  '(key, value) ← (if bool_decide (pit <> begin_) then
      pit ← visit (decr pit);
      s ← get;
      mret (key_of pit, deref (m_parent s) pit)
    else mret ([], None));
  let key := if bool_decide (key = []) || (bool_decide (pending_key <> []) && bool_decide (key <ₖ pending_key)) then pending_key else key in
  if bool_decide (key <> []) then
    inserted ← emplace key;
    _ ← modify (alter set_next key);
    _ ← modify (alter set_previous it);
    _ ← (if inserted : bool then
           match value with Some v => modify (alter (set_value v) key) | None => throw undefined_behaviour end
         else mret tt);
    mret true
  else mret false.

(** [move_], with the parameters of [move_next_] and of [move_previous_]: [test] is the flag that is tested, [move] a step in
    the cache. *)
Fixpoint move_ (fuel : nat) (test : value_state -> bool) (move : cache_type -> iterator -> iterator) (update_cache : list Z -> M (session P) bool)
    (it : iterator) : M (session P) iterator :=
  match fuel with
  | O => throw nontermination
  | S fuel =>
      known ← (match it with
               | None => mret true
               | Some k => known ← flag test k; if known : bool then mret true else update_cache k
               end);
      if negb known then mret None else
      c ← cache_of;
      match move c it with
      | None => mret None
      | Some k => gone ← flag deleted k; if negb gone then mret (Some k) else move_ fuel test move update_cache (Some k)
      end
  end.

Definition move_next_ (it : iterator) : M (session P) iterator :=
  c ← cache_of;
  match it with
  | None => mret (key_first c)
  | Some _ => move_ (steps c) next_in_cache (fun c it => k ← it; key_after c k) update_next it
  end.

Definition move_previous_ (it : iterator) : M (session P) iterator :=
  c ← cache_of;
  if bool_decide (it = key_first c) then mret None else
  move_ (steps c) previous_in_cache (fun c it => match it with Some k => key_before c k | None => key_last c end) update_previous it.

(** The value an iterator is at *)
Definition session_deref (s : session P) (it : iterator) : option (list Z) := k ← it; value <$> m_cache s !! k.

#[global] Instance session_store : Store (session P) := {
  read := session_read;
  find := session_find;
  begin := session_begin;
  lower_bound := session_lower_bound;
  incr := move_next_;
  decr := move_previous_;
  deref := session_deref;
  write_all := for_each (fun kv => write kv.1 kv.2);
  erase_all := for_each erase
}.

(** ** Iterators with versions *)
Record session_iterator := mk_session_iterator { m_iterator_version : Z; m_active_iterator : iterator }.

Definition version_of (s : session P) (it : iterator) : Z := from_option version 0 (k ← it; m_cache s !! k).

(** What [find], [begin], [end] and [lower_bound] return *)
Definition find_iterator (key : list Z) : M (session P) session_iterator :=
  it ← session_find key; s ← get; mret (mk_session_iterator (version_of s (Some key)) it).
Definition begin_iterator : M (session P) session_iterator :=
  it ← session_begin; s ← get; mret (mk_session_iterator (version_of s it) it).
Definition end_iterator : session_iterator := mk_session_iterator 0 None.
Definition lower_bound_iterator (key : list Z) : M (session P) session_iterator :=
  it ← session_lower_bound key; s ← get; mret (mk_session_iterator (version_of s it) it).

(** [session_iterator::operator++], [operator--], [deleted], [key], [operator*] *)
Definition increment (it : session_iterator) : M (session P) session_iterator :=
  active ← move_next_ (m_active_iterator it); mret (mk_session_iterator (m_iterator_version it) active).
Definition decrement (it : session_iterator) : M (session P) session_iterator :=
  active ← move_previous_ (m_active_iterator it); mret (mk_session_iterator (m_iterator_version it) active).
Definition iterator_deleted (s : session P) (it : session_iterator) : bool :=
  match m_active_iterator it with
  | None => false
  | Some k => match m_cache s !! k with
              | Some e => deleted e || negb (m_iterator_version it =? version e)
              | None => false
              end
  end.
Definition iterator_key (it : session_iterator) : list Z := key_of (m_active_iterator it).
End session.
