(* ===== verification/SessionProofs.v ===== *)
(** * Sessions implement ordered maps

    A session over a store that implements an ordered map implements an ordered map ([Store.StoreLaws]): the map of its
    parent with the keys of its cache written over it. *)

From S2P Require Import Prelude Effects Lex SharedBytes Store Session.

Abbreviation kmap := (gmap (list Z) (list Z)) (only parsing).

(** ** The cache *)

(** The parent has no key between [k] and the key after it in the cache. *)
Definition next_known (c : cache_type) (pm : kmap) (k : list Z) : Prop :=
  (exists k', is_Some (c !! k') /\ k <ₖ k') /\ forall x, is_Some (pm !! x) -> k <ₖ x -> exists k', is_Some (c !! k') /\ k <ₖ k' /\ k' ≤ₖ x.
Definition previous_known (c : cache_type) (pm : kmap) (k : list Z) : Prop :=
  (exists k', is_Some (c !! k') /\ k' <ₖ k) /\ forall x, is_Some (pm !! x) -> x <ₖ k -> exists k', is_Some (c !! k') /\ x ≤ₖ k' /\ k' <ₖ k.

(** A key that is not deleted has a value, which is that of the parent unless it was written; one that is deleted is not written. *)
Definition live_ok (pm : kmap) (k : list Z) (e : value_state) : Prop :=
  if deleted e then updated e = false else value e <> [] /\ (updated e = false -> pm !! k = Some (value e)).

(** The invariant of a cache over the map [pm]; the key [pending] was emplaced and waits for its value. *)
Record cache_ok (pending : option (list Z)) (c : cache_type) (pm : kmap) : Prop := {
  co_key k : is_Some (c !! k) -> k <> [];
  co_live k e : c !! k = Some e -> pending <> Some k -> live_ok pm k e;
  co_next k e : c !! k = Some e -> next_in_cache e = true -> next_known c pm k;
  co_previous k e : c !! k = Some e -> previous_in_cache e = true -> previous_known c pm k;
  (** the first and the last key of the parent are in the cache, or keys beyond them *)
  co_low x : is_Some (pm !! x) -> exists k, is_Some (c !! k) /\ k ≤ₖ x;
  co_high x : is_Some (pm !! x) -> exists k, is_Some (c !! k) /\ x ≤ₖ k
}.

(** The map of a session *)
Definition overlay (e : option value_state) (v : option (list Z)) : option (list Z) :=
  match e with Some e => if deleted e then None else Some (value e) | None => v end.
Definition view (c : cache_type) (pm : kmap) : kmap := merge overlay c pm.

Lemma lookup_view (c : cache_type) (pm : kmap) (k : list Z) : view c pm !! k = overlay (c !! k) (pm !! k).
Proof. unfold view. rewrite lookup_merge. destruct (c !! k), (pm !! k); reflexivity. Qed.

(** What the iteration of a cache changes: it sets flags, and adds keys of the parent. *)
Definition core (e : value_state) : bool * bool * Z * list Z := (deleted e, updated e, version e, value e).
Definition grows (pm : kmap) (c c' : cache_type) : Prop := forall k,
  match c !! k with
  | Some e => exists e', c' !! k = Some e' /\ core e' = core e
  | None => match c' !! k with Some e' => exists v, pm !! k = Some v /\ core e' = (false, false, 0, v) | None => True end
  end.

Lemma cache_grows_refl (pm : kmap) (c : cache_type) : grows pm c c.
Proof. intros k. destruct (c !! k) as [e|]; [by exists e|done]. Qed.
Lemma cache_grows_trans (pm : kmap) (a b c : cache_type) : grows pm a b -> grows pm b c -> grows pm a c.
Proof.
  intros H1 H2 k. specialize (H1 k). specialize (H2 k). destruct (a !! k) as [e|].
  - destruct H1 as (e' & E & C). rewrite E in H2. destruct H2 as (e'' & E' & C'). exists e''. split; [done|congruence].
  - destruct (b !! k) as [e|].
    + destruct H1 as (v & E & C). destruct H2 as (e'' & -> & C'). exists v. split; [done|congruence].
    + done.
Qed.
Lemma grows_cached (pm : kmap) (c c' : cache_type) (k : list Z) : grows pm c c' -> is_Some (c !! k) -> is_Some (c' !! k).
Proof. intros H [e E]. specialize (H k). rewrite E in H. destruct H as (e' & -> & _). by eexists. Qed.

Lemma grows_view (pm : kmap) (c c' : cache_type) : grows pm c c' -> view c' pm = view c pm.
Proof.
  intros H. apply map_eq. intros k. rewrite !lookup_view. specialize (H k). destruct (c !! k) as [e|].
  - destruct H as (e' & -> & [= E1 E2 E3 E4]). simpl. by rewrite E1, E4.
  - destruct (c' !! k) as [e'|]; [|done]. destruct H as (v & -> & [= E1 E2 E3 E4]). simpl. by rewrite E1, E4.
Qed.

Lemma alter_core (pm : kmap) (c : cache_type) (f : value_state -> value_state) (k : list Z) :
  (forall e, core (f e) = core e) -> grows pm c (alter f k c).
Proof.
  intros Hf x. destruct (decide (x = k)) as [->|Hne].
  - rewrite lookup_alter_eq. destruct (c !! k) as [e|]; simpl; [by exists (f e)|done].
  - rewrite lookup_alter_ne by done. destruct (c !! x) as [e|]; [by exists e|done].
Qed.
Lemma alter_is_Some (c : cache_type) (f : value_state -> value_state) (k x : list Z) : is_Some (alter f k c !! x) <-> is_Some (c !! x).
Proof.
  destruct (decide (x = k)) as [->|Hne]; [rewrite lookup_alter_eq|by rewrite lookup_alter_ne]. by rewrite fmap_is_Some.
Qed.

(** The flags stay true when keys are added. *)
Lemma next_known_mono (c c' : cache_type) (pm : kmap) (k : list Z) :
  (forall x, is_Some (c !! x) -> is_Some (c' !! x)) -> next_known c pm k -> next_known c' pm k.
Proof. intros H [(k' & H1 & H2) H3]. split; [eauto|]. intros x Hx Hk. destruct (H3 x Hx Hk) as (k'' & ? & ? & ?). eauto. Qed.
Lemma previous_known_mono (c c' : cache_type) (pm : kmap) (k : list Z) :
  (forall x, is_Some (c !! x) -> is_Some (c' !! x)) -> previous_known c pm k -> previous_known c' pm k.
Proof. intros H [(k' & H1 & H2) H3]. split; [eauto|]. intros x Hx Hk. destruct (H3 x Hx Hk) as (k'' & ? & ? & ?). eauto. Qed.

(** A new key, without flags *)
Lemma cache_ok_add (pending : option (list Z)) (c : cache_type) (pm : kmap) (k : list Z) (e : value_state) :
  cache_ok pending c pm -> c !! k = None -> k <> [] -> next_in_cache e = false -> previous_in_cache e = false ->
  (pending <> Some k -> live_ok pm k e) -> cache_ok pending (<[k := e]> c) pm.
Proof.
  intros [K L N V Lo Hi] Hk Hne Hn Hp He.
  assert (Hgrow : forall x, is_Some (c !! x) -> is_Some (<[k := e]> c !! x)) by (intros x Hx; apply lookup_insert_is_Some'; by right).
  split.
  - intros x [->|Hx]%lookup_insert_is_Some'; [done|]. by apply K.
  - intros x e' [[<- <-]|[? ?]]%lookup_insert_Some; [done|by apply L].
  - intros x e' [[<- <-]|[? Hx]]%lookup_insert_Some; [congruence|]. intros F. apply (next_known_mono c); [done|by apply (N x e')].
  - intros x e' [[<- <-]|[? Hx]]%lookup_insert_Some; [congruence|]. intros F. apply (previous_known_mono c); [done|by apply (V x e')].
  - intros x Hx. destruct (Lo x Hx) as (y & ? & ?). eauto.
  - intros x Hx. destruct (Hi x Hx) as (y & ? & ?). eauto.
Qed.

(** A change of the entry of a key *)
Lemma cache_ok_alter (pending pending' : option (list Z)) (c : cache_type) (pm : kmap) (f : value_state -> value_state) (k : list Z) :
  cache_ok pending c pm ->
  (forall x, pending' <> Some x -> pending <> Some x \/ x = k) ->
  (forall e, c !! k = Some e -> (pending' <> Some k -> live_ok pm k (f e)) /\
    (next_in_cache (f e) = true -> next_in_cache e = true \/ next_known c pm k) /\
    (previous_in_cache (f e) = true -> previous_in_cache e = true \/ previous_known c pm k)) ->
  cache_ok pending' (alter f k c) pm.
Proof.
  intros [K L N V Lo Hi] Hpend Hf.
  assert (Hsame : forall x, is_Some (alter f k c !! x) <-> is_Some (c !! x)) by (intros x; apply alter_is_Some).
  assert (Hgrow : forall x, is_Some (c !! x) -> is_Some (alter f k c !! x)) by (intros x; apply Hsame).
  assert (Hcase : forall x e', alter f k c !! x = Some e' -> (x <> k /\ c !! x = Some e') \/ (x = k /\ exists e, c !! k = Some e /\ e' = f e)).
  { intros x e'. destruct (decide (x = k)) as [->|Hne]; [rewrite lookup_alter_eq|rewrite lookup_alter_ne by done; by left].
    intros (e & ? & ->)%fmap_Some. right. eauto. }
  split.
  - intros x Hx. by apply K, Hsame.
  - intros x e' [[Hne Hx]|[-> (e & He & ->)]]%Hcase Hp; [|by apply (Hf e)]. destruct (Hpend x Hp); [by apply L|done].
  - intros x e' [[Hne Hx]|[-> (e & He & ->)]]%Hcase F; apply (next_known_mono c); try done; [by apply (N x e')|].
    destruct (Hf e He) as (_ & H & _). destruct (H F); [by apply (N k e)|done].
  - intros x e' [[Hne Hx]|[-> (e & He & ->)]]%Hcase F; apply (previous_known_mono c); try done; [by apply (V x e')|].
    destruct (Hf e He) as (_ & _ & H). destruct (H F); [by apply (V k e)|done].
  - intros x Hx. destruct (Lo x Hx) as (y & ? & ?). eauto.
  - intros x Hx. destruct (Hi x Hx) as (y & ? & ?). eauto.
Qed.

Lemma cache_ok_set_next (pending : option (list Z)) (c : cache_type) (pm : kmap) (k : list Z) :
  cache_ok pending c pm -> next_known c pm k -> cache_ok pending (alter set_next k c) pm.
Proof.
  intros H Hk. apply (cache_ok_alter pending); [done|auto|]. intros e He. split_and!; [|auto|auto]. exact (co_live pending c pm H k e He).
Qed.
Lemma cache_ok_set_previous (pending : option (list Z)) (c : cache_type) (pm : kmap) (k : list Z) :
  cache_ok pending c pm -> previous_known c pm k -> cache_ok pending (alter set_previous k c) pm.
Proof.
  intros H Hk. apply (cache_ok_alter pending); [done|auto|]. intros e He. split_and!; [|auto|auto]. exact (co_live pending c pm H k e He).
Qed.
Lemma set_next_core (e : value_state) : core (set_next e) = core e.
Proof. done. Qed.
Lemma set_previous_core (e : value_state) : core (set_previous e) = core e.
Proof. done. Qed.

(** Two keys next to each other in the cache, when the parent's key after the first or before the second is in the cache *)
Lemma adjacent_up (c : cache_type) (pm : kmap) (a b : list Z) (pit : iterator) :
  is_Some (c !! a) -> key_after c a = Some b -> nearest_up (fun x => is_Some (pm !! x) /\ a <ₖ x) pit ->
  (forall k, pit = Some k -> is_Some (c !! k)) -> next_known c pm a /\ previous_known c pm b.
Proof.
  intros Ha Hb Hpit Hc. pose proof (key_after_spec c a) as Hs. rewrite Hb in Hs. destruct Hs as [[Hb1 Hb2] Hs].
  assert (Hgap : forall x, is_Some (pm !! x) -> a <ₖ x -> b ≤ₖ x).
  { intros x Hx Hax. destruct pit as [k|]; [|by destruct (Hpit x)]. destruct Hpit as [[Hk1 Hk2] Hpit].
    specialize (Hpit x (conj Hx Hax)). specialize (Hs k (conj (Hc k eq_refl) Hk2)). key_order. }
  split; (split; [eauto|]); intros x Hx Hlt.
  - exists b. auto.
  - destruct (key_cases a x) as [Hax|[Hax|Hax]]; [specialize (Hgap x Hx Hax); exfalso; key_order| |]; exists a; (split; [done|]; split; [key_order|done]).
Qed.
Lemma adjacent_down (c : cache_type) (pm : kmap) (a b : list Z) (pit : iterator) :
  is_Some (c !! b) -> key_before c b = Some a -> nearest_down (fun x => is_Some (pm !! x) /\ x <ₖ b) pit ->
  (forall k, pit = Some k -> is_Some (c !! k)) -> next_known c pm a /\ previous_known c pm b.
Proof.
  intros Hb Ha Hpit Hc. pose proof (key_before_spec c b) as Hs. rewrite Ha in Hs. destruct Hs as [[Ha1 Ha2] Hs].
  assert (Hgap : forall x, is_Some (pm !! x) -> x <ₖ b -> x ≤ₖ a).
  { intros x Hx Hxb. destruct pit as [k|]; [|by destruct (Hpit x)]. destruct Hpit as [[Hk1 Hk2] Hpit].
    specialize (Hpit x (conj Hx Hxb)). specialize (Hs k (conj (Hc k eq_refl) Hk2)). key_order. }
  split; (split; [eauto|]); intros x Hx Hlt.
  - destruct (key_cases x b) as [Hxb|[Hxb|Hxb]]; [specialize (Hgap x Hx Hxb); exfalso; key_order| |]; exists b; (split; [done|]; split; [done|key_order]).
  - exists a. auto.
Qed.

(** A new key between keys that are known to be next to each other *)
Lemma between_known (c : cache_type) (pm : kmap) (e : value_state) (k a : list Z) :
  c !! k = None -> key_before (<[k := e]> c) k = Some a -> next_known c pm a ->
  next_known (<[k := e]> c) pm k /\ previous_known (<[k := e]> c) pm k.
Proof.
  intros Hk Ha [(b & Hb & Hab) Hgap]. pose proof (key_before_spec (<[k := e]> c) k) as Hs. rewrite Ha in Hs. destruct Hs as [[Ha1 Ha2] Hs].
  assert (Hin : forall x, is_Some (c !! x) -> is_Some (<[k := e]> c !! x)) by (intros x Hx; apply lookup_insert_is_Some'; by right).
  assert (Hout : forall x, is_Some (c !! x) -> a <ₖ x -> k <ₖ x).
  { intros x Hx Hax. destruct (key_cases k x) as [H|[H|H]]; [done|subst x; rewrite Hk in Hx; by destruct Hx|].
    specialize (Hs x (conj (Hin x Hx) H)). exfalso. key_order. }
  split; split.
  - exists b. auto.
  - intros x Hx Hkx. destruct (Hgap x Hx ltac:(key_order)) as (y & Hy & Hay & Hyx). exists y. auto.
  - exists a. auto.
  - intros x Hx Hxk. destruct (key_cases a x) as [H|H].
    + destruct (Hgap x Hx H) as (y & Hy & Hay & Hyx). specialize (Hout y Hy Hay). exfalso. key_order.
    + exists a. split; [done|]. split; [|done]. destruct H as [H|H]; [subst x|]; key_order.
Qed.

(** ** The parent *)
Section session_proofs.
Context {P : Type} {SP : Store P} {MP : StoreModel P} {HP : StoreLaws P}.
Implicit Types s : session P.

Definition parent_ok (p0 p : P) : Prop := st_ok p /\ st_begin p /\ st_map p = st_map p0 /\ st_below p = st_below p0.

(** The state while an operation runs, that started with the parent [p0] and the cache [c0] *)
Definition running (p0 : P) (pending : option (list Z)) (c0 : cache_type) s : Prop :=
  parent_ok p0 (m_parent s) /\ cache_ok pending (m_cache s) (st_map p0) /\ grows (st_map p0) c0 (m_cache s).

(** What the parent does leaves the cache as it is. *)
Definition visited s s' : Prop := m_cache s' = m_cache s /\ unchanged (m_parent s) (m_parent s').

Lemma running_visited (p0 : P) (pending : option (list Z)) (c0 : cache_type) s s' :
  running p0 pending c0 s -> visited s s' -> running p0 pending c0 s'.
Proof.
  intros ((H1 & H2 & H3 & H4) & Hc & Hg) (E & U1 & U2 & U3 & U4 & U5). unfold running, parent_ok. rewrite E. split_and!; [done|auto|congruence|congruence|done|done].
Qed.

Lemma visit_returns {A} (m : M P A) s (Q : A -> P -> Prop) :
  returns m (m_parent s) (fun a p => unchanged (m_parent s) p /\ Q a p) ->
  returns (visit m) s (fun a s' => visited s s' /\ Q a (m_parent s')).
Proof. unfold wp, visit. destruct (m (m_parent s)) as [p [a|e]]; [|done]. intros [H1 H2]. by split_and!. Qed.

(** The steps on the cache *)
Lemma wp_cache {B} (f : cache_type -> M (session P) B) s (Q : B -> session P -> Prop) : returns (f (m_cache s)) s Q -> returns (cache_of ≫= f) s Q.
Proof. done. Qed.
Lemma wp_modify (g : cache_type -> cache_type) s (Q : unit -> session P -> Prop) : Q tt (mk_session (g (m_cache s)) (m_parent s)) -> returns (modify g) s Q.
Proof. done. Qed.
Lemma wp_flag {B} (f : value_state -> bool) k (g : bool -> M (session P) B) s (Q : B -> session P -> Prop) :
  returns (g (from_option f false (m_cache s !! k))) s Q -> returns (flag f k ≫= g) s Q.
Proof. done. Qed.
Lemma wp_emplace k s (Q : bool -> session P -> Prop) :
  (forall e, m_cache s !! k = Some e -> Q false s) ->
  (m_cache s !! k = None -> Q true (mk_session (<[k := no_value]> (m_cache s)) (m_parent s))) -> returns (emplace k) s Q.
Proof. intros H1 H2. unfold emplace. apply wp_cache. destruct (m_cache s !! k) as [e|]; [by eapply H1|by apply H2]. Qed.

(** The operations of the parent *)
Definition at_key (pm : kmap) (pit : iterator) : Prop := match pit with Some k => k <> [] /\ is_Some (pm !! k) | None => True end.

Section parent.
Context (p0 : P).
Local Notation pm := (st_map p0).

Lemma valid_at_key (p : P) pit : parent_ok p0 p -> st_valid p pit -> at_key pm pit.
Proof.
  intros (H1 & _ & <- & _) Hv. destruct pit as [k|]; [|done]. destruct (st_deref p (Some k) H1 Hv) as [E Hs]. simpl in E. rewrite E in Hs.
  destruct (Hs ltac:(by eexists)) as [v Hk]. split; [|by eexists]. by apply (st_nonempty p k v).
Qed.
Lemma visit_lower_bound s k : parent_ok p0 (m_parent s) -> k <> [] -> returns (visit (lower_bound k)) s (fun pit s' =>
  visited s s' /\ st_valid (m_parent s') pit /\ nearest_up (fun x => is_Some (pm !! x) /\ k ≤ₖ x) pit).
Proof. intros (H1 & _ & <- & _) Hk. exact (visit_returns _ _ _ (st_lower_bound _ _ H1 Hk)). Qed.
Lemma visit_begin s : parent_ok p0 (m_parent s) -> returns (visit begin) s (fun pit s' =>
  visited s s' /\ st_valid (m_parent s') pit /\ nearest_up (stored pm) pit).
Proof. intros (H1 & H2 & <- & _). exact (visit_returns _ _ _ (st_first _ H1 H2)). Qed.
Lemma visit_incr s k : parent_ok p0 (m_parent s) -> st_valid (m_parent s) (Some k) -> returns (visit (incr (Some k))) s (fun pit s' =>
  visited s s' /\ st_valid (m_parent s') pit /\ nearest_up (fun x => is_Some (pm !! x) /\ k <ₖ x) pit).
Proof. intros (H1 & _ & <- & _) Hv. exact (visit_returns _ _ _ (st_incr _ _ H1 Hv)). Qed.
Lemma visit_decr s k : parent_ok p0 (m_parent s) -> st_valid (m_parent s) (Some k) -> returns (visit (decr (Some k))) s (fun pit s' =>
  visited s s' /\ st_valid (m_parent s') pit /\ nearest_down (fun x => is_Some (pm !! x) /\ x <ₖ k) pit).
Proof. intros (H1 & _ & <- & _) Hv. exact (visit_returns _ _ _ (st_decr _ _ H1 Hv)). Qed.
Lemma visit_last s : parent_ok p0 (m_parent s) -> returns (visit (decr None)) s (fun pit s' =>
  visited s s' /\ st_valid (m_parent s') pit /\ nearest_down (stored pm) pit).
Proof. intros (H1 & _ & <- & _). exact (visit_returns _ _ _ (st_last _ H1)). Qed.
Lemma visit_read s k : parent_ok p0 (m_parent s) -> k <> [] -> returns (visit (read k)) s (fun v s' => visited s s' /\ v = pm !! k).
Proof. intros (H1 & _ & <- & _) Hk. exact (visit_returns _ _ _ (st_read _ _ H1 Hk)). Qed.
Lemma visit_find s k : parent_ok p0 (m_parent s) -> k <> [] -> returns (visit (find k)) s (fun pit s' =>
  visited s s' /\ st_valid (m_parent s') pit /\ pit = (_ ← pm !! k; Some k)).
Proof. intros (H1 & _ & <- & _) Hk. exact (visit_returns _ _ _ (st_find _ _ H1 Hk)). Qed.

(** A key of the parent becomes a key of the cache. *)
Lemma emplace_from_ok (pending : option (list Z)) (c0 : cache_type) s k :
  running p0 pending c0 s -> st_valid (m_parent s) (Some k) -> pending <> Some k \/ is_Some (m_cache s !! k) ->
  returns (emplace_from (Some k)) s (fun _ s' => running p0 pending c0 s' /\ m_parent s' = m_parent s /\ is_Some (m_cache s' !! k) /\
    (forall x, is_Some (m_cache s !! x) -> is_Some (m_cache s' !! x)) /\ (forall x, is_Some (m_cache s' !! x) -> x = k \/ is_Some (m_cache s !! x))).
Proof.
  intros (Hp & Hc & Hg) Hv Hpend. pose proof (valid_at_key _ _ Hp Hv) as [Hne _]. destruct Hp as (P1 & P2 & P3 & P4).
  destruct (st_deref (m_parent s) (Some k) P1 Hv) as [E Hs]. simpl in E. rewrite P3 in E. specialize (Hs ltac:(by eexists)).
  assert (Hv' : st_map (m_parent s) !! k = deref (m_parent s) (Some k)) by congruence. destruct Hs as [v Hs]. rewrite Hs in E, Hv'.
  unfold emplace_from. simpl key_of. apply wp_bind, wp_emplace.
  { intros e Ek. apply wp_ret. split_and!; [by split_and!|done|by eexists|auto|auto]. }
  intros Ek. destruct Hpend as [Hpend|[? ?]]; [|congruence]. unfold parent_value. cbn [negb]. apply wp_bind, wp_get. cbn [m_parent]. rewrite Hs.
  apply wp_ret, wp_modify. cbn [m_cache m_parent]. rewrite alter_insert_eq. cbn [m_cache m_parent]. split_and!; try done; cbn [m_cache m_parent].
  - split_and!; [by split_and!| |].
    + apply cache_ok_add; try done. intros _. split; [by apply (st_nonempty _ k v) in Hv' as [_ ?]|done].
    + eapply cache_grows_trans; [exact Hg|]. intros x. cbn [m_cache]. destruct (decide (x = k)) as [->|Hx].
      * rewrite Ek, lookup_insert_eq. by exists v.
      * rewrite lookup_insert_ne by done. destruct (m_cache s !! x) as [e|]; [by exists e|done].
  - rewrite lookup_insert_eq. by eexists.
  - intros x Hx. apply lookup_insert_is_Some'. by right.
  - intros x [->|Hx]%lookup_insert_is_Some'; auto.
Qed.

(** Keys below an iterator *)
Definition below (it : iterator) (x : list Z) : Prop := match it with Some k => x <ₖ k | None => True end.

Lemma visit_back s pit : parent_ok p0 (m_parent s) -> st_valid (m_parent s) pit -> returns (visit (decr pit)) s (fun pit' s' =>
  visited s s' /\ st_valid (m_parent s') pit' /\ nearest_down (fun x => is_Some (pm !! x) /\ below pit x) pit').
Proof.
  intros Hp Hv. destruct pit as [k|]; [by apply visit_decr|]. eapply wp_mono; [by apply visit_last|].
  intros pit' s' (H1 & H2 & H3). split_and!; [done..|]. eapply nearest_down_iff; [|exact H3]. intros x. simpl. tauto.
Qed.

(** A step up and a step down *)
Lemma up_down (k : list Z) (pit : iterator) :
  is_Some (pm !! k) -> nearest_up (fun x => is_Some (pm !! x) /\ k <ₖ x) pit -> nearest_down (fun x => is_Some (pm !! x) /\ below pit x) (Some k).
Proof.
  intros Hk Hpit. split.
  - split; [done|]. destruct pit as [k'|]; [apply Hpit|done].
  - intros x [Hx Hb]. destruct (key_cases k x) as [Hlt|[->|Hlt]]; [|key_order|key_order].
    destruct pit as [k'|]; simpl in *; [|by destruct (Hpit x)]. destruct Hpit as [_ Hpit]. specialize (Hpit x (conj Hx Hlt)). key_order.
Qed.
Lemma from_down (k : list Z) (pit pit' : iterator) :
  nearest_up (fun x => is_Some (pm !! x) /\ k ≤ₖ x) pit -> nearest_down (fun x => is_Some (pm !! x) /\ below pit x) pit' ->
  nearest_down (fun x => is_Some (pm !! x) /\ x <ₖ k) pit'.
Proof.
  intros Hpit. apply nearest_down_iff. intros x. split; intros [Hx Hb]; (split; [done|]).
  - destruct (key_cases x k) as [Hlt|Hge]; [done|]. exfalso. assert (Hle : k ≤ₖ x) by (destruct Hge as [->|?]; key_order).
    destruct pit as [k'|]; simpl in *; [|by destruct (Hpit x)]. destruct Hpit as [_ Hpit]. specialize (Hpit x (conj Hx Hle)). key_order.
  - destruct pit as [k'|]; simpl in *; [|done]. destruct Hpit as [[_ Hpit] _]. key_order.
Qed.

Lemma set_flags (pending : option (list Z)) (c0 : cache_type) s a b :
  running p0 pending c0 s -> next_known (m_cache s) pm a -> previous_known (m_cache s) pm b ->
  returns (_ ← modify (alter set_previous b); modify (alter set_next a)) s (fun _ s' => running p0 pending c0 s' /\ m_parent s' = m_parent s /\
    forall x, is_Some (m_cache s' !! x) <-> is_Some (m_cache s !! x)).
Proof.
  intros (Hp & Hc & Hg) Ha Hb. apply wp_bind, wp_modify, wp_modify. cbn [m_cache m_parent]. split_and!; [split; [done|]|done|]; cbn [m_cache].
  - split.
    + apply cache_ok_set_next; [by apply cache_ok_set_previous|]. eapply next_known_mono; [|exact Ha]. intros x. by rewrite alter_is_Some.
    + eapply cache_grows_trans; [exact Hg|]. eapply cache_grows_trans; apply alter_core; [apply set_previous_core|apply set_next_core].
  - intros x. by rewrite !alter_is_Some.
Qed.
Lemma set_flags' (pending : option (list Z)) (c0 : cache_type) s a b :
  running p0 pending c0 s -> next_known (m_cache s) pm a -> previous_known (m_cache s) pm b ->
  returns (_ ← modify (alter set_next a); modify (alter set_previous b)) s (fun _ s' => running p0 pending c0 s' /\ m_parent s' = m_parent s /\
    forall x, is_Some (m_cache s' !! x) <-> is_Some (m_cache s !! x)).
Proof.
  intros (Hp & Hc & Hg) Ha Hb. apply wp_bind, wp_modify, wp_modify. cbn [m_cache m_parent]. split_and!; [split; [done|]|done|]; cbn [m_cache].
  - split.
    + apply cache_ok_set_previous; [by apply cache_ok_set_next|]. eapply previous_known_mono; [|exact Hb]. intros x. by rewrite alter_is_Some.
    + eapply cache_grows_trans; [exact Hg|]. eapply cache_grows_trans; apply alter_core; [apply set_next_core|apply set_previous_core].
  - intros x. by rewrite !alter_is_Some.
Qed.

Lemma emplace_from_if (pending : option (list Z)) (c0 : cache_type) s pit :
  running p0 pending c0 s -> st_valid (m_parent s) pit -> (forall k, pending = Some k -> is_Some (m_cache s !! k)) ->
  returns (if bool_decide (pit = None) then mret tt else emplace_from pit) s (fun _ s' => running p0 pending c0 s' /\ m_parent s' = m_parent s /\
    (forall k, pit = Some k -> is_Some (m_cache s' !! k)) /\ (forall x, is_Some (m_cache s !! x) -> is_Some (m_cache s' !! x))).
Proof.
  intros Hr Hv Hpend. destruct pit as [k|]; [rewrite bool_decide_false by done|rewrite bool_decide_true by done; by split_and!].
  eapply wp_mono; [apply (emplace_from_ok pending c0); [done..|]|].
  - destruct (decide (pending = Some k)) as [->|]; [right; by apply Hpend|by left].
  - intros _ s' (H1 & H2 & H3 & H4 & _). split_and!; [done|done| |done]. by intros ? [= <-].
Qed.

Lemma first_step (pending : option (list Z)) (c0 : cache_type) s it pit :
  it <> [] -> running p0 pending c0 s -> st_valid (m_parent s) pit -> nearest_up (fun x => is_Some (pm !! x) /\ it ≤ₖ x) pit ->
  returns (if bool_decide (key_of pit = it) then visit (incr pit) else mret pit) s (fun pit' s' => running p0 pending c0 s' /\ m_cache s' = m_cache s /\
    st_valid (m_parent s') pit /\ st_valid (m_parent s') pit' /\ nearest_up (fun x => is_Some (pm !! x) /\ it <ₖ x) pit' /\ (key_of pit <> it -> pit' = pit)).
Proof.
  intros Hit Hr Hv Hn. pose proof Hr as (Hp & _). pose proof (valid_at_key _ _ Hp Hv) as Hat. case_bool_decide as Hd.
  - destruct pit as [k|]; [simpl in Hd; subst k|].
    + eapply wp_mono; [by apply visit_incr|]. intros pit' s' (H1 & H2 & H3).
      split_and!; [by eapply running_visited|apply H1|by apply H1|done|done|done].
    + by destruct Hit.
  - apply wp_ret. split_and!; try done. destruct pit as [k|]; simpl in *.
    + destruct Hn as [[Hn1 Hn2] Hn3]. split; [split; [done|key_order]|]. intros x [Hx Hlt]. apply Hn3. split; [done|key_order].
    + intros x [Hx Hlt]. apply (Hn x). split; [done|key_order].
Qed.

Lemma next_key_ok (pending : option (list Z)) (c0 : cache_type) s it pit :
  it <> [] -> running p0 pending c0 s -> is_Some (m_cache s !! it) -> (forall k, pending = Some k -> is_Some (m_cache s !! k)) ->
  st_valid (m_parent s) pit -> nearest_up (fun x => is_Some (pm !! x) /\ it ≤ₖ x) pit ->
  returns (next_key_ it pit) s (fun pit' s' => running p0 pending c0 s' /\ pit' = pit /\ st_valid (m_parent s') pit /\
    forall x, is_Some (m_cache s !! x) -> is_Some (m_cache s' !! x)).
Proof.
  intros Hit Hr Hk Hpend Hv Hn. unfold next_key_. rewrite bool_decide_false by done.
  eapply wp_seq; [by apply (first_step pending c0)|]. intros pit1 s1 (R1 & E1 & V1 & V1' & N1 & Hsame).
  eapply wp_seq; [apply (emplace_from_if pending c0); [done..|by rewrite E1]|]. intros _ s2 (R2 & E2 & C2 & M2).
  assert (Hback : returns (if bool_decide (key_of pit = it) then visit (decr pit1) else mret pit1) s2 (fun pit' s' =>
    running p0 pending c0 s' /\ m_cache s' = m_cache s2 /\ pit' = pit /\ st_valid (m_parent s') pit)).
  { case_bool_decide as Hd.
    - destruct pit as [k|]; [simpl in Hd; subst k|by destruct Hit]. eapply wp_mono; [apply visit_back; [apply R2|by rewrite E2]|].
      intros pit' s' (H1 & H2 & H3). assert (pit' = Some it) as ->; [|by split_and!; [eapply running_visited|apply H1|done|done]].
      eapply nearest_down_unique; [|apply up_down; [apply Hn|exact N1]|exact H3]. done.
    - apply wp_ret. rewrite Hsame by done. split_and!; [done|done|done|by rewrite E2]. }
  eapply wp_seq; [exact Hback|]. intros pit' s3 (R3 & E3 & -> & V3). apply wp_cache. apply wp_bind. pose proof Hk as [e He].
  destruct (key_after (m_cache s3) it) as [next_it|] eqn:Ea.
  - destruct (adjacent_up (m_cache s3) pm it next_it pit1) as [A B]; [|done|done|by rewrite E3|].
    { rewrite E3. apply M2. rewrite E1. by eexists. }
    eapply wp_mono; [by apply (set_flags pending c0)|]. intros _ s4 (R4 & E4 & M4). apply wp_ret. split_and!; [done|done|by rewrite E4|].
    intros x Hx. apply M4. rewrite E3. apply M2. by rewrite E1.
  - apply wp_ret, wp_ret. split_and!; try done. intros x Hx. rewrite E3. apply M2. by rewrite E1.
Qed.

(** When the first key from [it] on is not the first of the parent, the parent has a key before [it]. *)
Lemma not_first (it : list Z) (pit pbegin : iterator) :
  nearest_up (fun x => is_Some (pm !! x) /\ it ≤ₖ x) pit -> nearest_up (stored pm) pbegin ->
  if bool_decide (pit = pbegin) then forall x, ~ (is_Some (pm !! x) /\ x <ₖ it) else exists x, is_Some (pm !! x) /\ x <ₖ it.
Proof.
  intros Hn Hb. case_bool_decide as Hd.
  - subst pbegin. intros x [Hx Hlt]. destruct pit as [k|]; simpl in *; [|by destruct (Hb x)].
    destruct Hb as [_ Hb], Hn as [[_ Hn] _]. specialize (Hb x Hx). key_order.
  - destruct pbegin as [b|]; [|destruct pit as [k|]; [|done]; exfalso; by apply (Hb k), Hn]. destruct Hb as [Hb1 Hb2]. exists b. split; [done|].
    apply key_lt_le. intros Hle. destruct pit as [k|]; [|by apply (Hn b)]. destruct Hn as [[Hn1 _] Hn]. specialize (Hn b (conj Hb1 Hle)).
    specialize (Hb2 k Hn1). apply Hd. f_equal. key_order.
Qed.

(** The key of the parent before [it] becomes a key of the cache. *)
Lemma load_previous (pending : option (list Z)) (c0 : cache_type) s it pit pbegin :
  running p0 pending c0 s -> (forall k, pending = Some k -> is_Some (m_cache s !! k)) ->
  st_valid (m_parent s) pit -> nearest_up (fun x => is_Some (pm !! x) /\ it ≤ₖ x) pit -> nearest_up (stored pm) pbegin ->
  returns (if bool_decide (pit = pbegin) then mret tt else
    pit ← visit (decr pit); _ ← (if bool_decide (pit = None) then mret tt else emplace_from pit); _ ← visit (incr pit); mret tt) s (fun _ s' =>
      running p0 pending c0 s' /\ (forall x, is_Some (m_cache s !! x) -> is_Some (m_cache s' !! x)) /\
      exists pit', nearest_down (fun x => is_Some (pm !! x) /\ x <ₖ it) pit' /\ forall k, pit' = Some k -> is_Some (m_cache s' !! k)).
Proof.
  intros Hr Hpend Hv Hn Hb. pose proof (not_first it pit pbegin Hn Hb) as Hf. destruct (bool_decide (pit = pbegin)).
  - apply wp_ret. split_and!; [done|auto|]. by exists None.
  - eapply wp_seq; [by apply visit_back; [apply Hr|]|]. intros pit1 s1 (H1 & H2 & H3). pose proof (running_visited _ _ _ _ _ Hr H1) as R1.
    pose proof H1 as (E1 & _). apply (from_down it) in H3; [|done]. destruct pit1 as [k1|]; [|destruct Hf as [x Hx]; by destruct (H3 x)].
    eapply wp_seq; [apply (emplace_from_if pending c0); [done|done|by rewrite E1]|]. intros _ s2 (R2 & E2 & C2 & M2).
    eapply wp_seq; [apply visit_incr; [apply R2|by rewrite E2]|]. intros pit3 s3 (V3 & _). apply wp_ret. pose proof V3 as (E3 & _).
    split_and!; [by eapply running_visited|intros x Hx; rewrite E3; apply M2; by rewrite E1|]. exists (Some k1). split; [done|]. by rewrite E3.
Qed.

Lemma previous_key_ok (pending : option (list Z)) (c0 : cache_type) s it pit pbegin :
  it <> [] -> running p0 pending c0 s -> is_Some (m_cache s !! it) -> (forall k, pending = Some k -> is_Some (m_cache s !! k)) ->
  st_valid (m_parent s) pit -> nearest_up (fun x => is_Some (pm !! x) /\ it ≤ₖ x) pit -> nearest_up (stored pm) pbegin ->
  returns (previous_key_ it pit pbegin) s (fun _ s' => running p0 pending c0 s' /\ forall x, is_Some (m_cache s !! x) -> is_Some (m_cache s' !! x)).
Proof.
  intros Hit Hr Hk Hpend Hv Hn Hb. unfold previous_key_. rewrite bool_decide_false by done.
  eapply wp_seq; [by apply (load_previous pending c0 s it)|]. intros _ s1 (R1 & M1 & pit' & N1 & C1). apply wp_cache.
  destruct (key_before (m_cache s1) it) as [a|] eqn:Ea; [|by apply wp_ret].
  destruct (adjacent_down (m_cache s1) pm a it pit') as [A B]; [by apply M1|done..|].
  eapply wp_mono; [by apply (set_flags' pending c0)|]. intros _ s2 (R2 & _ & M2). split; [done|]. intros x Hx. by apply M2, M1.
Qed.

(** ** The cache around a key *)
Definition emplaced (key : list Z) (c : cache_type) : cache_type := match c !! key with Some _ => c | None => <[key := no_value]> c end.

Lemma cache_ok_pending (pending : option (list Z)) (c : cache_type) : cache_ok None c pm -> cache_ok pending c pm.
Proof. intros [K L N V Lo Hi]. split; try done. intros k e Hk _. by apply L. Qed.

(** Two keys of the cache around a new key *)
Lemma known_order (c : cache_type) (key : list Z) :
  cache_ok None c pm -> c !! key = None ->
  let c1 := <[key := no_value]> c in
  match key_before c1 key with
  | Some previous => from_option next_in_cache false (c1 !! previous)
  | None => match key_after c1 key with Some next => from_option previous_in_cache false (c1 !! next) | None => false end
  end = true -> next_known c1 pm key /\ previous_known c1 pm key.
Proof.
  intros Hc Hk c1. subst c1. destruct (key_before _ key) as [a|] eqn:Ea.
  - intros F. pose proof (key_before_spec (<[key := no_value]> c) key) as Hs. rewrite Ea in Hs. destruct Hs as [[_ Hlt] _].
    rewrite lookup_insert_ne in F by (intros ->; key_order). destruct (c !! a) as [e|] eqn:Ee; [|done].
    apply (between_known _ _ _ _ a); [done|done|]. by apply (co_next None c pm Hc a e).
  - destruct (key_after _ key) as [b|] eqn:Eb; [|done]. intros F. exfalso.
    pose proof (key_before_spec (<[key := no_value]> c) key) as Hs. rewrite Ea in Hs.
    pose proof (key_after_spec (<[key := no_value]> c) key) as Hs'. rewrite Eb in Hs'. destruct Hs' as [[_ Hlt] Hs'].
    rewrite lookup_insert_ne in F by (intros ->; key_order). destruct (c !! b) as [e|] eqn:Ee; [|done].
    destruct (co_previous None c pm Hc b e Ee F) as [(x & Hx & Hxb) _].
    assert (Hx' : is_Some (<[key := no_value]> c !! x)) by (apply lookup_insert_is_Some'; by right).
    destruct (key_cases x key) as [H1|[->|H1]]; [by apply (Hs x)|rewrite Hk in Hx; by destruct Hx|]. specialize (Hs' x (conj Hx' H1)). key_order.
Qed.

Lemma in_known_order_eq key s : in_known_order key s = (s, Ok
  match key_before (m_cache s) key with
  | Some previous => from_option next_in_cache false (m_cache s !! previous)
  | None => match key_after (m_cache s) key with Some next => from_option previous_in_cache false (m_cache s !! next) | None => false end
  end).
Proof.
  unfold in_known_order. rewrite bind_eq. change (cache_of s) with (s, Ok (m_cache s)). cbv beta iota. destruct (key_before (m_cache s) key); [done|]. by destruct (key_after (m_cache s) key).
Qed.

Lemma load_around key s1 :
  key <> [] -> running p0 (Some key) (m_cache s1) s1 -> m_cache s1 !! key = Some no_value ->
  returns (next ← flag next_in_cache key;
    previous ← flag previous_in_cache key;
    if next && previous then mret tt else
    pit ← visit (lower_bound key);
    pit ← (if next then mret pit else next_key_ key pit);
    previous ← flag previous_in_cache key;
    if previous : bool then mret tt else
    begin ← visit begin;
    previous_key_ key pit begin) s1 (fun _ s' => running p0 (Some key) (m_cache s1) s' /\ is_Some (m_cache s' !! key)).
Proof.
  intros Hne Hr He. apply wp_flag, wp_flag. rewrite He. cbn [from_option next_in_cache previous_in_cache no_value andb].
  eapply wp_seq; [apply visit_lower_bound; [apply Hr|done]|]. intros pit s2 (V2 & H2 & N2).
  pose proof (running_visited _ _ _ _ _ Hr V2) as R2. pose proof V2 as (E2 & _).
  assert (Hk : is_Some (m_cache s2 !! key)) by (rewrite E2, He; by eexists).
  eapply wp_seq; [apply (next_key_ok (Some key) (m_cache s1)); [done..|by intros ? [= <-]|done|done]|]. intros pit' s3 (R3 & -> & H3 & M3).
  apply wp_flag. destruct (from_option previous_in_cache false (m_cache s3 !! key)); [apply wp_ret; split; [done|by apply M3]|].
  eapply wp_seq; [apply visit_begin, R3|]. intros b s4 (V4 & _ & N4). pose proof (running_visited _ _ _ _ _ R3 V4) as R4. pose proof V4 as (E4 & U4).
  assert (Hk' : is_Some (m_cache s4 !! key)) by (rewrite E4; by apply M3).
  eapply wp_mono; [apply (previous_key_ok (Some key) (m_cache s1)); [done..|by intros ? [= <-]|by apply U4|done|done]|].
  intros _ s5 (R5 & M5). split; [done|by apply M5].
Qed.

Lemma update_iterator_cache_ok key s :
  key <> [] -> parent_ok p0 (m_parent s) -> cache_ok None (m_cache s) pm ->
  returns (update_iterator_cache_ key) s (fun _ s' => running p0 (Some key) (emplaced key (m_cache s)) s' /\ is_Some (m_cache s' !! key)).
Proof.
  intros Hne Hp Hc. unfold update_iterator_cache_, emplaced. apply wp_bind, wp_emplace.
  - intros e He. rewrite He. apply wp_ret. split_and!; [|by eexists]. split_and!; [done|by apply cache_ok_pending|apply cache_grows_refl].
  - intros He. rewrite He. cbn [negb]. set (s1 := mk_session (<[key:=no_value]> (m_cache s)) (m_parent s)).
    assert (R1 : running p0 (Some key) (m_cache s1) s1).
    { split_and!; [done|apply cache_ok_add; try done; by apply cache_ok_pending|apply cache_grows_refl]. }
    change (<[key:=no_value]> (m_cache s)) with (m_cache s1). apply wp_bind. unfold wp at 1. rewrite in_known_order_eq.
    pose proof (known_order (m_cache s) key Hc He) as Hko. change (<[key:=no_value]> (m_cache s)) with (m_cache s1) in Hko. cbv zeta in Hko.
    assert (E1 : m_cache s1 !! key = Some no_value) by apply lookup_insert_eq.
    destruct (match key_before (m_cache s1) key with Some _ => _ | None => _ end); [|by apply load_around].
    destruct (Hko eq_refl) as [A B]. apply wp_modify. cbn [m_cache]. split; [|rewrite alter_is_Some, E1; by eexists]. split_and!; [done| |].
    + apply (cache_ok_alter (Some key)); [apply R1|auto|]. intros e E. by split_and!; [|right|right].
    + by apply alter_core.
Qed.
End parent.

(** ** The session as a store *)
Definition session_map s : kmap := view (m_cache s) (st_map (m_parent s)).
Definition session_ok s : Prop := parent_ok (m_parent s) (m_parent s) /\ cache_ok None (m_cache s) (st_map (m_parent s)).
(** The cache has a key that is not deleted, or the session has no key. *)
Definition session_first s : Prop := (exists k e, m_cache s !! k = Some e /\ deleted e = false) \/ session_map s = ∅.
Definition session_valid s (it : iterator) : Prop := match it with Some k => exists e, m_cache s !! k = Some e /\ deleted e = false | None => True end.

#[global] Instance session_model : StoreModel (session P) := {
  st_map := session_map;
  st_below s := st_map (m_parent s) :: st_below (m_parent s);
  st_ok := session_ok;
  st_begin := session_first;
  st_valid := session_valid
}.

Lemma grows_live (pm : kmap) (c c' : cache_type) k :
  grows pm c c' -> (exists e, c !! k = Some e /\ deleted e = false) -> exists e, c' !! k = Some e /\ deleted e = false.
Proof. intros Hg (e & He & Hd). specialize (Hg k). rewrite He in Hg. destruct Hg as (e' & -> & [= E1 _ _ _]). exists e'. split; [done|congruence]. Qed.

(** An operation that only loads keys of the parent changes nothing. *)
Lemma unchanged_running s s' : running (m_parent s) None (m_cache s) s' -> unchanged s s'.
Proof.
  intros (Hp & Hc & Hg). pose proof Hp as (P1 & P2 & P3 & P4). assert (Hm : session_map s' = session_map s).
  { unfold session_map. rewrite P3. by apply grows_view. }
  split; [split; [by split_and!|by rewrite P3]|]. split; [done|]. split; [simpl; congruence|]. split.
  - intros [(k & Hk)|He]; [left; exists k; by eapply grows_live|right; simpl in *; congruence].
  - intros [k|]; [|done]. simpl. by eapply grows_live.
Qed.
Lemma running_start s : session_ok s -> running (m_parent s) None (m_cache s) s.
Proof. intros [H1 H2]. split_and!; [done..|apply cache_grows_refl]. Qed.

Lemma emplaced_other (pm : kmap) (c c' : cache_type) (key k : list Z) :
  grows pm (emplaced key c) c' -> k <> key -> overlay (c' !! k) (pm !! k) = overlay (c !! k) (pm !! k).
Proof.
  intros Hg Hne. apply grows_view in Hg. apply (f_equal (lookup k)) in Hg. rewrite !lookup_view in Hg. rewrite Hg. unfold emplaced.
  destruct (c !! key); [done|]. by rewrite lookup_insert_ne.
Qed.

(** The entry of the key gets its value after the cache was updated around it. *)
Lemma settle (p0 : P) (f : value_state -> value_state) key s s' :
  cache_ok None (m_cache s) (st_map p0) -> running p0 (Some key) (emplaced key (m_cache s)) s' -> is_Some (m_cache s' !! key) ->
  (forall e, next_in_cache (f e) = next_in_cache e /\ previous_in_cache (f e) = previous_in_cache e) ->
  (forall e, m_cache s' !! key = Some e -> live_ok (st_map p0) key (f e)) ->
  cache_ok None (alter f key (m_cache s')) (st_map p0) /\
  exists e, m_cache s' !! key = Some e /\ alter f key (m_cache s') !! key = Some (f e) /\
    forall k, view (alter f key (m_cache s')) (st_map p0) !! k = if decide (k = key) then overlay (Some (f e)) ((st_map p0) !! k) else view (m_cache s) (st_map p0) !! k.
Proof.
  intros Hc (_ & Hc' & Hg) [e He] Hf Hl. split.
  - apply (cache_ok_alter (Some key)); [done|intros x _; destruct (decide (x = key)); [by right|left; congruence]|].
    intros e' He'. destruct (Hf e') as [-> ->]. split_and!; auto.
  - exists e. assert (E : alter f key (m_cache s') !! key = Some (f e)) by (rewrite lookup_alter_eq, He; done). split_and!; [done|done|].
    intros k. rewrite !lookup_view. destruct (decide (k = key)) as [->|Hne]; [by rewrite E|].
    rewrite lookup_alter_ne by done. by apply (emplaced_other (st_map p0) (m_cache s) (m_cache s') key).
Qed.

Lemma session_write_ok key v s : session_ok s -> key <> [] -> v <> [] ->
  returns (write key v) s (fun _ s' => session_ok s' /\ session_map s' = <[key := v]> (session_map s) /\ st_below s' = st_below s /\ session_first s').
Proof.
  intros [Hp Hc] Hk Hv. unfold write. eapply wp_seq; [by apply (update_iterator_cache_ok (m_parent s))|].
  intros _ s' (R & Hs). apply wp_modify. destruct (settle _ (set_written v) key s s' Hc R Hs) as (C & e & E0 & E & V); [done|by intros e|].
  destruct R as ((P1 & P2 & P3 & P4) & _). unfold session_ok, session_map, session_first. cbn [m_cache m_parent]. rewrite P3. split_and!.
  - by split_and!.
  - done.
  - apply map_eq. intros k. rewrite V. destruct (decide (k = key)) as [->|]; [by rewrite lookup_insert_eq|by rewrite lookup_insert_ne].
  - simpl. congruence.
  - left. by exists key, (set_written v e).
Qed.

Lemma session_erase_ok key s : session_ok s -> key <> [] ->
  returns (erase key) s (fun _ s' => session_ok s' /\ session_map s' = delete key (session_map s) /\ st_below s' = st_below s).
Proof.
  intros [Hp Hc] Hk. unfold erase. eapply wp_seq; [by apply (update_iterator_cache_ok (m_parent s))|].
  intros _ s' (R & Hs). apply wp_modify. destruct (settle _ set_erased key s s' Hc R Hs) as (C & e & E0 & E & V); [done|done|].
  destruct R as ((P1 & P2 & P3 & P4) & _). unfold session_ok, session_map. cbn [m_cache m_parent]. rewrite P3. split_and!.
  - by split_and!.
  - done.
  - apply map_eq. intros k. rewrite V. destruct (decide (k = key)) as [->|]; [by rewrite lookup_delete_eq|by rewrite lookup_delete_ne].
  - simpl. congruence.
Qed.

Lemma read_parent_ok key s : session_ok s -> key <> [] -> m_cache s !! key = None ->
  returns (read_parent key) s (fun v s' => unchanged s s' /\ v = session_map s !! key).
Proof.
  intros Hs Hk He. pose proof Hs as [Hp Hc]. unfold read_parent. eapply wp_seq; [by apply (visit_read (m_parent s))|].
  intros v s1 (V1 & ->). pose proof V1 as (E1 & _). pose proof (running_visited _ _ _ _ _ (running_start s Hs) V1) as R1.
  assert (Ev : st_map (m_parent s) !! key = session_map s !! key) by (unfold session_map; by rewrite lookup_view, He). rewrite Ev.
  destruct (session_map s !! key) as [v|] eqn:Em; [|apply wp_ret; split; [by apply unchanged_running|done]].
  eapply wp_seq; [apply (update_iterator_cache_ok (m_parent s)); [done|apply R1|apply R1]|].
  intros _ s2 (R2 & Hs2). apply wp_bind, wp_modify, wp_ret. split; [|done].
  assert (Hv : v <> []) by (destruct Hp as (P1 & _); by apply (st_nonempty _ _ _ P1) in Ev as [_ ?]).
  assert (Hcore : forall e, m_cache s2 !! key = Some e -> core e = (false, false, 0, [])).
  { intros e Ee. destruct R2 as (_ & _ & Hg). specialize (Hg key). unfold emplaced in Hg. rewrite E1, He, lookup_insert_eq in Hg.
    destruct Hg as (e' & Ee' & Hcore). rewrite Ee in Ee'. by injection Ee' as <-. }
  destruct (settle (m_parent s) (set_value v) key s1 s2) as (C & e & E0 & E & V); [apply R1|done|done|done| |].
  { intros e Ee. injection (Hcore e Ee) as Hd _ _ _. unfold live_ok. simpl. rewrite Hd. by split. }
  apply unchanged_running. split_and!; [apply R2|done|]. cbn [m_cache]. intros k. destruct (decide (k = key)) as [->|Hne].
  - rewrite He, E. exists v. split; [done|]. by injection (Hcore e E0) as E1' E2' E3' E4'; unfold core; simpl; rewrite E1', E2', E3'.
  - rewrite lookup_alter_ne by done. destruct R2 as (_ & _ & Hg). specialize (Hg k). unfold emplaced in Hg. rewrite E1, He, lookup_insert_ne in Hg by done. done.
Qed.

Lemma session_live k e s : session_ok s -> m_cache s !! k = Some e -> deleted e = false -> value e <> [] /\ session_map s !! k = Some (value e).
Proof.
  intros [_ Hc] He Hd. pose proof (co_live None _ _ Hc k e He ltac:(done)) as Hl. unfold live_ok in Hl. rewrite Hd in Hl. destruct Hl as [Hv _]. split; [done|]. unfold session_map. by rewrite lookup_view, He; simpl; rewrite Hd.
Qed.
Lemma session_gone k e s : m_cache s !! k = Some e -> deleted e = true -> session_map s !! k = None.
Proof. intros He Hd. unfold session_map. by rewrite lookup_view, He; simpl; rewrite Hd. Qed.

Lemma session_read_ok key s : session_ok s -> key <> [] -> returns (session_read key) s (fun v s' => unchanged s s' /\ v = session_map s !! key).
Proof.
  intros Hs Hk. unfold session_read. apply wp_cache. destruct (m_cache s !! key) as [e|] eqn:He; [|by apply read_parent_ok].
  destruct (deleted e) eqn:Hd.
  - apply wp_ret. split; [by apply unchanged_refl|]. by rewrite (session_gone key e).
  - destruct (session_live key e s Hs He Hd) as [Hv E]. rewrite bool_decide_true by done. apply wp_ret. split; [by apply unchanged_refl|done].
Qed.
Lemma contains_ok key s : session_ok s -> key <> [] ->
  returns (contains key) s (fun b s' => unchanged s s' /\ b = bool_decide (is_Some (session_map s !! key))).
Proof.
  intros Hs Hk. unfold contains. apply wp_cache. destruct (m_cache s !! key) as [e|] eqn:He.
  - destruct (deleted e) eqn:Hd.
    + apply wp_ret. split; [by apply unchanged_refl|]. by rewrite (session_gone key e).
    + destruct (session_live key e s Hs He Hd) as [Hv E]. rewrite bool_decide_true by done. apply wp_ret. split; [by apply unchanged_refl|]. by rewrite E.
  - eapply wp_seq; [by apply read_parent_ok|]. intros v s' (U & ->). apply wp_ret. split; [done|]. apply bool_decide_ext. apply not_eq_None_Some.
Qed.

Lemma session_find_ok key s : session_ok s -> key <> [] ->
  returns (session_find key) s (fun it s' => unchanged s s' /\ session_valid s' it /\ it = (_ ← session_map s !! key; Some key)).
Proof.
  intros Hs Hk. unfold session_find. pose proof (running_start s Hs) as R. apply wp_cache.
  assert (Hload : returns (match m_cache s !! key with
    | Some _ => mret tt
    | None => pit ← visit (find key); if bool_decide (pit = None) then mret tt else
        inserted ← emplace key; if inserted : bool then v ← parent_value pit; modify (alter (set_value v) key) else mret tt
    end) s (fun _ s' => running (m_parent s) None (m_cache s) s' /\ (m_cache s' !! key = None -> session_map s !! key = None))).
  { destruct (m_cache s !! key) as [e|] eqn:He; [apply wp_ret; split; [done|congruence]|].
    eapply wp_seq; [by apply (visit_find (m_parent s)); [apply Hs|]|]. intros pit s1 (V1 & H1 & ->).
    pose proof (running_visited _ _ _ _ _ R V1) as R1. pose proof V1 as (E1 & _).
    assert (Ev : session_map s !! key = st_map (m_parent s) !! key) by (unfold session_map; by rewrite lookup_view, He). rewrite Ev.
    destruct (st_map (m_parent s) !! key) as [v|]; cbn [mbind option_bind] in *; [|by apply wp_ret].
    rewrite bool_decide_false by done. eapply wp_mono; [apply (emplace_from_ok (m_parent s) None (m_cache s) s1 key); [done|done|by left]|].
    intros _ s2 (R2 & _ & [e2 He2] & _). split; [done|congruence]. }
  eapply wp_seq; [exact Hload|]. intros _ s1 (R1 & N1). apply wp_cache, wp_ret. pose proof (unchanged_running _ _ R1) as U. split; [done|].
  pose proof U as (O1 & M1 & _). change (session_map s1 = session_map s) in M1. destruct (m_cache s1 !! key) as [e|] eqn:He.
  - destruct (deleted e) eqn:Hd; [rewrite <- M1, (session_gone key e) by done; done|].
    destruct (session_live key e s1 O1 He Hd) as [_ E]. rewrite <- M1, E. split; [by exists e|done].
  - by rewrite N1.
Qed.

Lemma session_deref_ok s it : session_ok s -> session_valid s it ->
  session_deref s it = (k ← it; session_map s !! k) /\ (is_Some it -> is_Some (session_deref s it)).
Proof.
  intros Hs Hv. destruct it as [k|]; [|by split; [|intros [? ?]]]. destruct Hv as (e & He & Hd). destruct (session_live k e s Hs He Hd) as [_ E].
  unfold session_deref. simpl. rewrite He, E. by split.
Qed.

(** ** Commit *)
Lemma session_nonempty s k v : session_ok s -> session_map s !! k = Some v -> k <> [] /\ v <> [].
Proof.
  intros Hs. pose proof Hs as [(P1 & _) Hc]. destruct (m_cache s !! k) as [e|] eqn:He.
  - destruct (deleted e) eqn:Hd; [by rewrite (session_gone k e)|]. destruct (session_live k e s Hs He Hd) as [Hv ->]. intros [= <-].
    split; [apply (co_key None _ _ Hc); by eexists|done].
  - unfold session_map. rewrite lookup_view, He. simpl. by apply st_nonempty.
Qed.
End session_proofs.
