(* ===== verification/SessionIterators.v ===== *)
(** * The iterators of sessions

    The searches of a session ([Session.session_begin], [Session.session_lower_bound], [Session.move_next_],
    [Session.move_previous_]) find the nearest key of the map of the session, with enough fuel for their loops: the keys that a loop passes
    are deleted in the cache, and it passes each one once. *)

From S2P Require Import Prelude Effects Lex SharedBytes Store Session SessionProofs.

(** ** Deleted keys *)
Definition live (c : cache_type) (x : list Z) : Prop := exists e, c !! x = Some e /\ deleted e = false.
Definition gone (c : cache_type) : gset (list Z) := dom (filter (fun kv => deleted kv.2 = true) c).

Lemma elem_of_gone (c : cache_type) (x : list Z) : x ∈ gone c <-> exists e, c !! x = Some e /\ deleted e = true.
Proof.
  unfold gone. rewrite elem_of_dom. split.
  - intros [e He]. apply map_lookup_filter_Some in He. by exists e.
  - intros (e & He). exists e. by apply map_lookup_filter_Some.
Qed.
Lemma live_or_gone (c : cache_type) (x : list Z) : is_Some (c !! x) -> live c x \/ x ∈ gone c.
Proof. intros [e He]. rewrite elem_of_gone. destruct (deleted e) eqn:Hd; [right|left]; by exists e. Qed.
Lemma gone_not_live (c : cache_type) (x : list Z) : x ∈ gone c -> ~ live c x.
Proof. rewrite elem_of_gone. intros (e & He & Hd) (e' & He' & Hd'). congruence. Qed.
Lemma live_cached (c : cache_type) (x : list Z) : live c x -> is_Some (c !! x).
Proof. intros (e & He & _). by exists e. Qed.
Lemma gone_cached (c : cache_type) (x : list Z) : x ∈ gone c -> is_Some (c !! x).
Proof. rewrite elem_of_gone. intros (e & He & _). by exists e. Qed.
Lemma flag_gone (c : cache_type) (x : list Z) : from_option deleted false (c !! x) = true <-> x ∈ gone c.
Proof. rewrite elem_of_gone. destruct (c !! x) as [e|]; simpl; [|split; [done|by intros (? & ? & ?)]]. split; [by exists e|by intros (? & [= <-] & ?)]. Qed.

Lemma gone_grows (pm : kmap) (c c' : cache_type) : grows pm c c' -> gone c' = gone c.
Proof.
  intros Hg. apply set_eq. intros x. rewrite !elem_of_gone. specialize (Hg x). destruct (c !! x) as [e|].
  - destruct Hg as (e' & -> & [= E1 _ _ _]). split; intros (y & [= <-] & ?); [exists e|exists e']; by split; [|congruence].
  - destruct (c' !! x) as [e'|]; [|done]. destruct Hg as (v & _ & [= E1 _ _ _]). split; intros (y & ? & ?); [congruence|done].
Qed.

(** How many deleted keys a loop can pass *)
Definition up_to (it : iterator) (x : list Z) : Prop := match it with Some k => k ≤ₖ x | None => False end.
#[global] Instance up_to_dec it x : Decision (up_to it x).
Proof. destruct it; apply _. Defined.
#[global] Instance below_dec it x : Decision (below it x).
Proof. destruct it; apply _. Defined.
Definition gone_up (g : gset (list Z)) (it : iterator) : nat := base.size (filter (up_to it) g).
Definition gone_down (g : gset (list Z)) (it : iterator) : nat := base.size (filter (below it) g).

Lemma gone_up_step (g : gset (list Z)) (k : list Z) (it : iterator) :
  k ∈ g -> (forall x, up_to it x -> k <ₖ x) -> (gone_up g it < gone_up g (Some k))%nat.
Proof.
  intros Hk Hit. apply subset_size. split.
  - intros x. rewrite !elem_of_filter. intros [Hx ?]. split; [|done]. specialize (Hit x Hx). simpl. key_order.
  - intros Hsub. assert (H : k ∈ filter (up_to it) g) by (apply Hsub, elem_of_filter; split; [simpl; key_order|done]).
    apply elem_of_filter in H as [H _]. specialize (Hit k H). key_order.
Qed.
Lemma gone_down_step (g : gset (list Z)) (k : list Z) (it : iterator) :
  k ∈ g -> below it k -> (gone_down g (Some k) < gone_down g it)%nat.
Proof.
  intros Hk Hit. apply subset_size. split.
  - intros x. rewrite !elem_of_filter. intros [Hx ?]. split; [|done]. destruct it; simpl in *; [key_order|done].
  - intros Hsub. assert (H : k ∈ filter (below (Some k)) g) by (apply Hsub, elem_of_filter; by split).
    apply elem_of_filter in H as [H _]. simpl in H. key_order.
Qed.
Lemma gone_size (c : cache_type) : (base.size (gone c) <= base.size c)%nat.
Proof. unfold gone. rewrite <- (size_dom (D := gset (list Z)) c). apply subseteq_size, dom_filter_subseteq. Qed.
Lemma gone_up_steps (c : cache_type) (it : iterator) : (gone_up (gone c) it < steps c)%nat.
Proof. pose proof (gone_size c). unfold gone_up, steps. pose proof (subseteq_size (filter (up_to it) (gone c)) (gone c) ltac:(set_solver)). lia. Qed.
Lemma gone_down_steps (c : cache_type) (it : iterator) : (gone_down (gone c) it < steps c)%nat.
Proof. pose proof (gone_size c). unfold gone_down, steps. pose proof (subseteq_size (filter (below it) (gone c)) (gone c) ltac:(set_solver)). lia. Qed.

(** ** The nearer one of two keys *)
Definition nearer (a b : iterator) : iterator :=
  match a, b with
  | Some x, Some y => if bool_decide (x <ₖ y) then Some x else Some y
  | Some x, None => Some x
  | None, _ => b
  end.
Definition nearer_down (a b : iterator) : iterator :=
  match a, b with
  | Some x, Some y => if bool_decide (y <ₖ x) then Some x else Some y
  | Some x, None => Some x
  | None, _ => b
  end.

Lemma nearer_or (A B : list Z -> Prop) (a b : iterator) : nearest_up A a -> nearest_up B b -> nearest_up (fun x => A x \/ B x) (nearer a b).
Proof.
  intros Ha Hb. destruct a as [x|], b as [y|]; simpl in *; [case_bool_decide as Hlt| | |].
  - destruct Ha as [Ha1 Ha2], Hb as [Hb1 Hb2]. split; [auto|]. intros z [?|?]; [auto|]. assert (y ≤ₖ z) by auto. key_order.
  - destruct Ha as [Ha1 Ha2], Hb as [Hb1 Hb2]. split; [auto|]. intros z [?|?]; [|auto]. assert (x ≤ₖ z) by auto. key_order.
  - destruct Ha as [Ha1 Ha2]. split; [auto|]. intros z [?|?]; [auto|]. by destruct (Hb z).
  - destruct Hb as [Hb1 Hb2]. split; [auto|]. intros z [?|?]; [|auto]. by destruct (Ha z).
  - intros z [?|?]; [by destruct (Ha z)|by destruct (Hb z)].
Qed.
Lemma nearer_down_or (A B : list Z -> Prop) (a b : iterator) :
  nearest_down A a -> nearest_down B b -> nearest_down (fun x => A x \/ B x) (nearer_down a b).
Proof.
  intros Ha Hb. destruct a as [x|], b as [y|]; simpl in *; [case_bool_decide as Hlt| | |].
  - destruct Ha as [Ha1 Ha2], Hb as [Hb1 Hb2]. split; [auto|]. intros z [?|?]; [auto|]. assert (z ≤ₖ y) by auto. key_order.
  - destruct Ha as [Ha1 Ha2], Hb as [Hb1 Hb2]. split; [auto|]. intros z [?|?]; [|auto]. assert (z ≤ₖ x) by auto. key_order.
  - destruct Ha as [Ha1 Ha2]. split; [auto|]. intros z [?|?]; [auto|]. by destruct (Hb z).
  - destruct Hb as [Hb1 Hb2]. split; [auto|]. intros z [?|?]; [|auto]. by destruct (Ha z).
  - intros z [?|?]; [by destruct (Ha z)|by destruct (Hb z)].
Qed.

(** The choice of the code between two keys that are empty at the end *)
Definition not_empty (it : iterator) : Prop := it <> Some [].
Lemma choose_nearer (a b : iterator) : not_empty a -> not_empty b ->
  (if bool_decide (key_of b = []) || (bool_decide (key_of a <> []) && bool_decide (key_of a <ₖ key_of b)) then key_of a else key_of b) = key_of (nearer a b).
Proof.
  unfold not_empty. intros Ha Hb. destruct a as [x|], b as [y|]; simpl.
  - rewrite (bool_decide_false (y = [])), (bool_decide_true (x <> [])) by congruence. simpl. by case_bool_decide.
  - done.
  - rewrite (bool_decide_false (y = [])) by congruence. done.
  - done.
Qed.
Lemma choose_nearer_down (a b : iterator) : not_empty a -> not_empty b ->
  (if bool_decide (key_of b = []) || (bool_decide (key_of a <> []) && bool_decide (key_of b <ₖ key_of a)) then key_of a else key_of b) = key_of (nearer_down a b).
Proof.
  unfold not_empty. intros Ha Hb. destruct a as [x|], b as [y|]; simpl.
  - rewrite (bool_decide_false (y = [])), (bool_decide_true (x <> [])) by congruence. simpl. by case_bool_decide.
  - done.
  - rewrite (bool_decide_false (y = [])) by congruence. done.
  - done.
Qed.

(** ** The first key of the cache that is not deleted *)
Lemma up_to_after (c : cache_type) (k x : list Z) : is_Some (c !! x) -> (up_to (key_after c k) x <-> k <ₖ x).
Proof.
  intros Hx. pose proof (key_after_spec c k) as Hs. destruct (key_after c k) as [b|]; simpl in *.
  - destruct Hs as [[_ Hb] Hs]. split; [intros H; key_order|auto].
  - split; [done|]. intros H. by destruct (Hs x).
Qed.

Lemma first_not_deleted_ok (c : cache_type) (fuel : nat) (it : iterator) (known : bool) :
  (forall k, it = Some k -> is_Some (c !! k)) -> (gone_up (gone c) it < fuel)%nat ->
  exists it' known', first_not_deleted fuel c it known = Ok (it', known') /\
    nearest_up (fun x => live c x /\ up_to it x) it' /\
    (known' = true -> known = true /\ forall x e, c !! x = Some e -> up_to it x -> (forall k, it' = Some k -> x ≤ₖ k) -> previous_in_cache e = true).
Proof.
  revert it known. induction fuel as [|fuel IH]; intros it known Hit Hfuel; [lia|]. destruct it as [k|]; cbn [first_not_deleted].
  - destruct (Hit k eq_refl) as [e He]. rewrite He. destruct (deleted e) eqn:Hd.
    + assert (Hg : k ∈ gone c) by (apply elem_of_gone; by exists e). pose proof (key_after_spec c k) as Hs.
      destruct (IH (key_after c k) (if known then previous_in_cache e else false)) as (it' & known' & E & N & K).
      { intros k' Ek. rewrite Ek in Hs. apply Hs. }
      { pose proof (gone_up_step (gone c) k (key_after c k) Hg) as Hstep. enough (forall x, up_to (key_after c k) x -> k <ₖ x) as H by (specialize (Hstep H); lia).
        intros x Hx. destruct (key_after c k) as [b|]; [|done]. destruct Hs as [[_ Hb] _]. simpl in Hx. key_order. }
      exists it', known'. split_and!; [done| |].
      * eapply nearest_up_iff; [|exact N]. intros x. split; intros [Hl Hu]; (split; [done|]); pose proof (live_cached c x Hl) as Hx.
        -- apply (up_to_after c k x Hx) in Hu. simpl. key_order.
        -- apply (up_to_after c k x Hx). destruct (key_cases k x) as [?|[->|?]]; [done|by destruct (gone_not_live c x)|]. simpl in Hu. key_order.
      * intros F. destruct (K F) as [Hp K']. split; [by destruct known|]. intros x e' He' Hu Hle.
        destruct (key_cases k x) as [Hlt|[<-|Hlt]]; [|rewrite He in He'; injection He' as <-; by destruct known|simpl in Hu; key_order].
        apply (K' x e' He'); [by apply up_to_after; [eexists|]|done].
    + exists (Some k), (if known then previous_in_cache e else false). split_and!; [done| |].
      * split; [split; [by exists e|simpl; key_order]|]. by intros x [_ Hx].
      * intros F. split; [by destruct known|]. intros x e' He' Hu Hle. specialize (Hle k eq_refl). simpl in Hu. assert (x = k) as -> by key_order. rewrite He in He'. injection He' as <-.
        by destruct known.
  - exists None, known. split_and!; [done|by intros x [_ ?]|]. by intros ->.
Qed.

(** ** Searches *)
Section session_iterators.
Context {P : Type} {SP : Store P} {MP : StoreModel P} {HP : StoreLaws P}.
Implicit Types s : session P.

(** The first key of the parent, from an iterator on, that is not deleted in the cache *)
Lemma first_not_deleted_parent_ok (p0 : P) (c0 : cache_type) (fuel : nat) (pit : iterator) s :
  running p0 None c0 s -> st_valid (m_parent s) pit -> (gone_up (gone (m_cache s)) pit < fuel)%nat ->
  returns (first_not_deleted_parent fuel pit) s (fun pit' s' => running p0 None c0 s' /\ m_cache s' = m_cache s /\ st_valid (m_parent s') pit' /\
    nearest_up (fun x => (is_Some ((st_map p0) !! x) /\ x ∉ gone (m_cache s)) /\ up_to pit x) pit').
Proof.
  revert pit s. induction fuel as [|fuel IH]; intros pit s Hr Hv Hfuel; [lia|]. destruct pit as [k|]; cbn [first_not_deleted_parent].
  - apply wp_flag. destruct (valid_at_key p0 _ _ (proj1 Hr) Hv) as [_ Hk]. pose proof (flag_gone (m_cache s) k) as Hg.
    destruct (from_option deleted false (m_cache s !! k)).
    + assert (Hk' : k ∈ gone (m_cache s)) by by apply Hg. eapply wp_seq; [by apply (visit_incr p0); [apply Hr|]|].
      intros pit1 s1 (V1 & H1 & N1). pose proof V1 as (E1 & _). pose proof (running_visited _ _ _ _ _ Hr V1) as R1.
      assert (Hup : forall x, is_Some ((st_map p0) !! x) -> up_to pit1 x <-> k <ₖ x).
      { intros x Hx. destruct pit1 as [k1|]; simpl in *; [|split; [done|intros H; by destruct (N1 x)]].
        destruct N1 as [[_ N1] N2]. split; [intros H; key_order|auto]. }
      eapply wp_mono; [apply (IH pit1 s1 R1 H1)|].
      { rewrite E1. enough (gone_up (gone (m_cache s)) pit1 < gone_up (gone (m_cache s)) (Some k))%nat by lia.
        apply gone_up_step; [done|]. intros x Hx. destruct pit1 as [k1|]; [|done]. destruct N1 as [[_ N1] _]. simpl in Hx. key_order. }
      intros pit' s' (R' & E' & V' & N'). split_and!; [done|congruence|done|]. rewrite E1 in N'. eapply nearest_up_iff; [|exact N'].
      intros x. split; intros [[Hx Hx'] Hu]; (split; [done|]); simpl in *.
      * apply (Hup x Hx) in Hu. key_order.
      * apply (Hup x Hx). destruct (key_cases k x) as [?|[->|?]]; [done|done|key_order].
    + apply wp_ret. split_and!; try done. split; [split; [split; [done|]|simpl; key_order]|by intros x [_ ?]].
      intros H. apply Hg in H. done.
  - apply wp_ret. split_and!; try done. by intros x [_ ?].
Qed.

(** The keys of a session: those of the cache that are not deleted, and those of the parent that are not in the cache *)
Lemma view_stored (c : cache_type) (pm : kmap) x : is_Some (view c pm !! x) <-> live c x \/ is_Some (pm !! x) /\ c !! x = None.
Proof.
  unfold live. rewrite lookup_view. destruct (c !! x) as [e|]; simpl.
  - destruct (deleted e) eqn:Hd; split.
    + by intros [? ?].
    + intros [(e' & [= <-] & ?)|[_ ?]]; congruence.
    + left. by exists e.
    + by eexists.
  - split; [by right|]. by intros [(e & ? & ?)|[? _]].
Qed.
Lemma session_stored s x : is_Some (session_map s !! x) <-> live (m_cache s) x \/ is_Some (st_map (m_parent s) !! x) /\ m_cache s !! x = None.
Proof. apply view_stored. Qed.
Lemma parent_stored s x : is_Some (st_map (m_parent s) !! x) -> x ∉ gone (m_cache s) -> is_Some (session_map s !! x).
Proof.
  intros Hx Hg. rewrite session_stored. destruct (m_cache s !! x) as [e|] eqn:He; [|by right]. left.
  destruct (live_or_gone (m_cache s) x) as [?|?]; [by rewrite He; eexists|done..].
Qed.

(** A key of the parent that was found is put into the cache, and an iterator is at it. *)
Lemma settle_found s s1 k :
  running (m_parent s) None (m_cache s) s1 -> m_cache s1 = m_cache s -> st_valid (m_parent s1) (Some k) -> k ∉ gone (m_cache s) ->
  returns (_ ← emplace_from (Some k); mret (Some k)) s1 (fun it s' => unchanged s s' /\ session_valid s' it /\ it = Some k /\ live (m_cache s') k).
Proof.
  intros R1 E1 V1 Hg. eapply wp_seq; [apply (emplace_from_ok (m_parent s) None (m_cache s)); [done|done|by left]|].
  intros _ s2 (R2 & _ & C2 & _). apply wp_ret. assert (Hl : live (m_cache s2) k).
  { destruct (live_or_gone _ _ C2) as [?|Hg']; [done|]. rewrite (gone_grows (st_map (m_parent s)) (m_cache s)) in Hg' by apply R2. done. }
  split_and!; [by apply unchanged_running|done|done|done].
Qed.

Lemma first_live_ok s (it0 : iterator) :
  (forall k, it0 = Some k -> is_Some (m_cache s !! k)) ->
  exists it known, first_not_deleted (steps (m_cache s)) (m_cache s) it0 true = Ok (it, known) /\
    nearest_up (fun x => live (m_cache s) x /\ up_to it0 x) it /\
    (known = true -> forall x e, m_cache s !! x = Some e -> up_to it0 x -> (forall k, it = Some k -> x ≤ₖ k) -> previous_in_cache e = true).
Proof.
  intros Hit. destruct (first_not_deleted_ok (m_cache s) (steps (m_cache s)) it0 true Hit (gone_up_steps _ _)) as (it & known & E & N & K).
  exists it, known. split_and!; [done|done|]. intros F. by apply K.
Qed.

Lemma nearer_ok s (Q : list Z -> Prop) (pit it : iterator) :
  nearest_up (fun x => (is_Some (st_map (m_parent s) !! x) /\ x ∉ gone (m_cache s)) /\ Q x) pit -> nearest_up (fun x => live (m_cache s) x /\ Q x) it ->
  nearest_up (fun x => is_Some (session_map s !! x) /\ Q x) (nearer pit it).
Proof.
  intros Hp Hl. eapply nearest_up_iff; [|exact (nearer_or _ _ _ _ Hp Hl)]. intros x. split.
  - intros [[[Hx Hg] HQ]|[Hx HQ]]; (split; [|done]); [by apply parent_stored|]. apply session_stored. by left.
  - intros [[Hx|[Hx Hn]]%session_stored HQ]; [by right|left]. split_and!; [done| |done]. intros Hg%gone_cached. rewrite Hn in Hg. by destruct Hg.
Qed.

Lemma live_valid s it (Q : list Z -> Prop) : nearest_up (fun x => live (m_cache s) x /\ Q x) it -> session_valid s it.
Proof. destruct it as [k|]; [|done]. by intros [[? _] _]. Qed.

(** A key of the parent is taken when it is nearer. *)
Lemma take_nearer s s1 pit it (take : bool) (Q : list Z -> Prop) :
  session_ok s -> running (m_parent s) None (m_cache s) s1 -> m_cache s1 = m_cache s -> st_valid (m_parent s1) pit ->
  nearest_up (fun x => (is_Some (st_map (m_parent s) !! x) /\ x ∉ gone (m_cache s)) /\ Q x) pit -> nearest_up (fun x => live (m_cache s) x /\ Q x) it ->
  nearer pit it = (if take then pit else it) -> (take = true -> pit <> None) ->
  returns (if take then _ ← emplace_from pit; mret pit else mret it) s1 (fun it s' => unchanged s s' /\ session_valid s' it /\
    nearest_up (fun x => is_Some (session_map s !! x) /\ Q x) it).
Proof.
  intros Hs R1 E1 V1 Hp Hl Hn Ht. pose proof (nearer_ok s Q pit it Hp Hl) as N. rewrite Hn in N. destruct take.
  - destruct pit as [k|]; [|by destruct Ht]. eapply wp_mono; [apply (settle_found s s1 k); [done..|apply Hp]|]. intros ? s' (U & V & -> & _). done.
  - apply wp_ret. split_and!; [by apply unchanged_running| |done]. apply (live_valid s1 it Q). by rewrite E1.
Qed.

Lemma session_begin_ok s : session_ok s -> session_first s ->
  returns session_begin s (fun it s' => unchanged s s' /\ session_valid s' it /\ nearest_up (stored (session_map s)) it).
Proof.
  intros Hs Hb. pose proof Hs as [Hp Hc]. unfold session_begin. apply wp_cache. pose proof (key_first_spec (m_cache s)) as Hf.
  assert (Hup : forall x, is_Some (m_cache s !! x) -> up_to (key_first (m_cache s)) x).
  { intros x Hx. destruct (key_first (m_cache s)) as [b|]; simpl in *; [by apply Hf|by destruct (Hf x)]. }
  destruct (first_live_ok s (key_first (m_cache s))) as (it & known & -> & N & K); [intros k Ek; rewrite Ek in Hf; apply Hf|].
  apply wp_lift; [done|]. intros ? [= <-].
  assert (N' : nearest_up (fun x => live (m_cache s) x /\ True) it).
  { eapply nearest_up_iff; [|exact N]. intros x. split; intros [Hx _]; (split; [done|]); [done|by apply Hup, live_cached]. }
  eapply (wp_mono _ _ (fun it s' => unchanged s s' /\ session_valid s' it /\ nearest_up (fun x => is_Some (session_map s !! x) /\ True) it)).
  2: { intros it' s' (H1 & H2 & H3). split_and!; [done..|]. eapply nearest_up_iff; [|exact H3]. intros x. simpl. tauto. }
  destruct (bool_decide (it = None) || (bool_decide (it <> key_first (m_cache s)) && negb known)) eqn:Hask.
  - eapply wp_seq; [apply (visit_begin (m_parent s)), Hp|]. intros pit s1 (V1 & H1 & N1).
    pose proof (running_visited _ _ _ _ _ (running_start s Hs) V1) as R1. pose proof V1 as (E1 & _).
    eapply wp_seq; [apply (first_not_deleted_parent_ok (m_parent s) (m_cache s)); [done|done|rewrite E1; apply gone_up_steps]|].
    intros pit' s2 (R2 & E2 & V2 & N2). rewrite E1 in N2.
    assert (N2' : nearest_up (fun x => (is_Some (st_map (m_parent s) !! x) /\ x ∉ gone (m_cache s)) /\ True) pit').
    { eapply nearest_up_iff; [|exact N2]. intros x. split; intros [[Hx Hg] _]; (split; [done|]); [done|].
      destruct pit as [b|]; simpl in *; [by apply N1|by destruct (N1 x)]. }
    apply take_nearer; [done|done|congruence|done|done|done| |].
    + destruct pit' as [k1|]; [|done]. rewrite (bool_decide_true (Some k1 <> None)) by done. destruct it as [k|]; simpl; [by case_bool_decide|].
      exfalso. destruct Hb as [(k & Hk)|He]; [by apply (N' k)|]. destruct N2' as [[[H2 H3] _] _]. pose proof (parent_stored s k1 H2 H3) as [v Hv].
        change (session_map s !! k1 = Some v) in Hv. by rewrite He in Hv.
    + intros [Ht _]%andb_true_iff. by apply bool_decide_eq_true in Ht.
  - apply orb_false_iff in Hask as [Hit Hask]. apply bool_decide_eq_false in Hit. destruct it as [k|]; [|done]. apply wp_ret.
    assert (Hfirst : forall x, is_Some (m_cache s !! x) -> k ≤ₖ x).
    { destruct (key_first (m_cache s)) as [b|] eqn:Eb; [|by destruct N as [[_ ?] _]]. destruct Hf as [Hf1 Hf2].
      apply andb_false_iff in Hask as [Hask|Hask]; [apply bool_decide_eq_false, dec_stable in Hask; by injection Hask as ->|].
      apply negb_false_iff in Hask. exfalso. destruct Hf1 as [e He]. destruct (co_previous None _ _ Hc b e He) as [(y & Hy & Hlt) _].
      - apply (K Hask b e He); [simpl; key_order|]. intros ? [= <-]. by destruct N as [[_ ?] _].
      - specialize (Hf2 y Hy). key_order. }
    split_and!; [by apply unchanged_refl|by apply (live_valid s (Some k) (fun _ => True))|]. split.
    + split; [|done]. apply session_stored. left. by destruct N' as [[? _] _].
    + intros x [[Hx|[Hx _]]%session_stored _]; [by apply N'|]. destruct (co_low None _ _ Hc x Hx) as (y & Hy & Hle). specialize (Hfirst y Hy). key_order.
Qed.

(** Without a key in the cache that is not deleted, [begin] is the end. *)
Lemma session_begin_none s : session_ok s -> (forall x, ~ live (m_cache s) x) -> returns session_begin s (fun it _ => it = None).
Proof.
  intros Hs Hl. pose proof Hs as [Hp _]. unfold session_begin. apply wp_cache. pose proof (key_first_spec (m_cache s)) as Hf.
  destruct (first_live_ok s (key_first (m_cache s))) as (it & known & -> & N & _); [intros k Ek; rewrite Ek in Hf; apply Hf|].
  apply wp_lift; [done|]. intros ? [= <-]. destruct it as [k|]; [destruct N as [[N _] _]; by destruct (Hl k)|]. rewrite bool_decide_true by done. cbn [orb].
  eapply wp_seq; [apply (visit_begin (m_parent s)), Hp|]. intros pit s1 (V1 & H1 & N1).
  pose proof (running_visited _ _ _ _ _ (running_start s Hs) V1) as R1. pose proof V1 as (E1 & _).
  eapply wp_seq; [apply (first_not_deleted_parent_ok (m_parent s) (m_cache s)); [done|done|rewrite E1; apply gone_up_steps]|].
  intros pit' s2 _. rewrite (bool_decide_false (key_of pit' <ₖ key_of None)) by (simpl; by destruct (key_of pit')). by rewrite andb_false_r.
Qed.

(** Where the keys of the cache know the keys before them, the parent has no key that is not in the cache. *)
Lemma previous_flags (c : cache_type) (pm : kmap) (key k x : list Z) :
  cache_ok None c pm -> is_Some (c !! k) ->
  (forall y e, c !! y = Some e -> up_to (key_from c key) y -> y ≤ₖ k -> previous_in_cache e = true) ->
  is_Some (pm !! x) -> c !! x = None -> key ≤ₖ x -> k ≤ₖ x.
Proof.
  intros Hc Hk Hflags Hx Hn Hle. apply key_le_lt. intros Hlt. pose proof (key_from_spec c x) as Hz. destruct (key_from c x) as [z|].
  - destruct Hz as [[[e He] Hxz] Hz]. assert (Hzk : z ≤ₖ k) by (apply Hz; split; [done|key_order]).
    assert (Hu : up_to (key_from c key) z).
    { pose proof (key_from_spec c key) as Hs. destruct (key_from c key) as [b|]; simpl in *; [apply Hs|destruct (Hs z)]; (split; [by eexists|key_order]). }
    destruct (co_previous None c pm Hc z e He (Hflags z e He Hu Hzk)) as [_ Hp].
    assert (Hxz' : x <ₖ z) by (destruct (key_cases x z) as [?|[<-|?]]; [done|congruence|key_order]).
    destruct (Hp x Hx Hxz') as (y & Hy & Hxy & Hyz). specialize (Hz y (conj Hy Hxy)). key_order.
  - apply (Hz k). split; [done|key_order].
Qed.

Lemma first_live_from key s (it : iterator) :
  nearest_up (fun x => live (m_cache s) x /\ up_to (key_from (m_cache s) key) x) it -> nearest_up (fun x => live (m_cache s) x /\ key ≤ₖ x) it.
Proof.
  apply nearest_up_iff. intros x. pose proof (key_from_spec (m_cache s) key) as Hf. destruct (key_from (m_cache s) key) as [b|]; simpl in *.
  - destruct Hf as [[_ Hb] Hf]. split; intros [Hx Hle]; (split; [done|]); [key_order|]. apply Hf. split; [by apply live_cached|done].
  - split; [by intros [_ ?]|]. intros [Hx Hle]. destruct (Hf x). split; [by apply live_cached|done].
Qed.

(** The search of [session_lower_bound] in the parent *)
Lemma ask_lower_bound key it s :
  session_ok s -> key <> [] -> nearest_up (fun x => live (m_cache s) x /\ key ≤ₖ x) it ->
  returns (pit ← visit (lower_bound key);
    pit ← first_not_deleted_parent (steps (m_cache s)) pit;
    if bool_decide (pit <> None) && (bool_decide (key_of it = []) || bool_decide (key_of pit <ₖ key_of it)) then _ ← emplace_from pit; mret pit
    else mret it) s (fun it s' => unchanged s s' /\ session_valid s' it /\ nearest_up (fun x => is_Some (session_map s !! x) /\ key ≤ₖ x) it).
Proof.
  intros Hs Hk N. pose proof Hs as [Hp Hc]. eapply wp_seq; [by apply (visit_lower_bound (m_parent s))|]. intros pit s1 (V1 & H1 & N1).
  pose proof (running_visited _ _ _ _ _ (running_start s Hs) V1) as R1. pose proof V1 as (E1 & _).
  eapply wp_seq; [apply (first_not_deleted_parent_ok (m_parent s) (m_cache s)); [done|done|rewrite E1; apply gone_up_steps]|].
  intros pit' s2 (R2 & E2 & V2 & N2). rewrite E1 in N2.
  assert (N2' : nearest_up (fun x => (is_Some (st_map (m_parent s) !! x) /\ x ∉ gone (m_cache s)) /\ key ≤ₖ x) pit').
  { eapply nearest_up_iff; [|exact N2]. intros x. split; intros [[Hx Hg] Hu]; (split; [done|]); destruct pit as [b|]; simpl in *; try done.
    - destruct N1 as [[_ ?] _]. key_order.
    - by apply N1.
    - by destruct (N1 x). }
  apply take_nearer; [done|done|congruence|done|done|done| |].
  - destruct pit' as [k1|]; [|done]. rewrite (bool_decide_true (Some k1 <> None)) by done. destruct it as [k|]; [|done].
    rewrite (bool_decide_false (key_of (Some k) = [])); [simpl; by case_bool_decide|]. apply (co_key None _ _ Hc), live_cached, N.
  - intros [Ht _]%andb_true_iff. by apply bool_decide_eq_true in Ht.
Qed.

Lemma session_lower_bound_ok key s : session_ok s -> key <> [] ->
  returns (session_lower_bound key) s (fun it s' => unchanged s s' /\ session_valid s' it /\ nearest_up (fun x => is_Some (session_map s !! x) /\ key ≤ₖ x) it).
Proof.
  intros Hs Hk. pose proof Hs as [Hp Hc]. unfold session_lower_bound. apply wp_cache.
  destruct (first_live_ok s (key_from (m_cache s) key)) as (it & known & -> & N & K).
  { intros k Ek. pose proof (key_from_spec (m_cache s) key) as Hf. rewrite Ek in Hf. apply Hf. }
  apply first_live_from in N. apply wp_lift; [done|]. intros ? [= <-].
  eapply (wp_seq _ _ _ (fun it s' => unchanged s s' /\ session_valid s' it /\ nearest_up (fun x => is_Some (session_map s !! x) /\ key ≤ₖ x) it)).
  - destruct (bool_decide (it = None) || (bool_decide (key_of it <> key) && negb known)) eqn:Hask; [by apply ask_lower_bound|].
    apply orb_false_iff in Hask as [Hit Hask]. apply bool_decide_eq_false in Hit. destruct it as [k|]; [|done]. apply wp_ret.
    split_and!; [by apply unchanged_refl|by apply (live_valid s (Some k) (fun x => key ≤ₖ x))|]. destruct N as [[N1 N2] N3]. split.
    + split; [|done]. apply session_stored. by left.
    + intros x [[Hx|[Hx Hn]]%session_stored Hle]; [by apply N3|]. apply andb_false_iff in Hask as [Hask|Hask].
      * apply bool_decide_eq_false, dec_stable in Hask. simpl in Hask. by subst k.
      * apply negb_false_iff in Hask. apply (previous_flags (m_cache s) (st_map (m_parent s)) key k x); [done|by apply live_cached| |done..].
        intros y e He Hu Hy. apply (K Hask y e He Hu). by intros ? [= <-].
  - intros it' s' (U & V & N'). destruct it' as [k|]; [|apply wp_bind, wp_ret, wp_ret; by split_and!]. apply wp_flag. destruct V as (e & He & Hd). rewrite He.
    cbn [from_option]. rewrite Hd. apply wp_ret. split_and!; [done|by exists e|done].
Qed.

(** ** Steps *)

(** A change of an entry that keeps the invariant of every cache with the same keys *)
Definition sets_flag (pm : kmap) (c : cache_type) (f : value_state -> value_state) (k : list Z) : Prop :=
  (forall e, core (f e) = core e) /\
  forall pending c', (forall x, is_Some (c' !! x) <-> is_Some (c !! x)) -> cache_ok pending c' pm -> cache_ok pending (alter f k c') pm.

Lemma sets_next (pm : kmap) (c : cache_type) (k : list Z) : next_known c pm k -> sets_flag pm c set_next k.
Proof. intros Hk. split; [done|]. intros pending c' Hd Hc. apply cache_ok_set_next; [done|]. eapply next_known_mono; [|done]. intros x. apply Hd. Qed.
Lemma sets_previous (pm : kmap) (c : cache_type) (k : list Z) : previous_known c pm k -> sets_flag pm c set_previous k.
Proof. intros Hk. split; [done|]. intros pending c' Hd Hc. apply cache_ok_set_previous; [done|]. eapply previous_known_mono; [|done]. intros x. apply Hd. Qed.

(** [key] becomes a key of the cache with the value of the parent, and two flags are set. *)
Lemma link_ok (p0 : P) (c0 : cache_type) (key k1 k2 : list Z) (f1 f2 : value_state -> value_state) (v : option (list Z)) s :
  running p0 None c0 s -> is_Some (m_cache s !! key) \/ is_Some ((st_map p0) !! key) /\ v = (st_map p0) !! key ->
  sets_flag (st_map p0) (emplaced key (m_cache s)) f1 k1 -> sets_flag (st_map p0) (emplaced key (m_cache s)) f2 k2 ->
  returns (inserted ← emplace key;
    _ ← modify (alter f1 k1);
    _ ← modify (alter f2 k2);
    _ ← (if inserted : bool then match v with Some v => modify (alter (set_value v) key) | None => throw undefined_behaviour end else mret tt);
    mret true) s (fun b s' => b = true /\ running p0 None c0 s' /\ m_parent s' = m_parent s /\
      forall x, is_Some (m_cache s' !! x) <-> is_Some (emplaced key (m_cache s) !! x)).
Proof.
  intros (Hp & Hc & Hg) Hk [C1 F1] [C2 F2]. unfold emplaced in *. apply wp_bind, wp_emplace.
  - intros e He. rewrite He in F1, F2 |- *. apply wp_bind, wp_modify, wp_bind, wp_modify, wp_bind, wp_ret, wp_ret. cbn [m_cache m_parent].
    split_and!; [done| |done|intros x; by rewrite !alter_is_Some]. split_and!; [done| |].
    + apply F2; [intros x; apply alter_is_Some|]. by apply F1.
    + eapply cache_grows_trans; [exact Hg|]. eapply cache_grows_trans; by apply alter_core.
  - intros He. rewrite He in F1, F2, Hk |- *. destruct Hk as [[? ?]|[[w Hw] ->]]; [done|]. rewrite Hw.
    assert (Hne : key <> [] /\ w <> []) by (destruct Hp as (P1 & _ & P3 & _); rewrite <- P3 in Hw; by apply (st_nonempty _ _ _ P1 Hw)). destruct Hne as [Hk Hv].
    apply wp_bind, wp_modify, wp_bind, wp_modify, wp_bind, wp_modify, wp_ret. cbn [m_cache m_parent].
    set (c3 := alter f2 k2 (alter f1 k1 (<[key:=no_value]> (m_cache s)))).
    assert (G3 : grows (st_map p0) (<[key:=no_value]> (m_cache s)) c3) by (eapply cache_grows_trans; by apply alter_core).
    assert (K3 : cache_ok (Some key) c3 (st_map p0)).
    { apply F2; [intros x; apply alter_is_Some|]. apply F1; [done|]. apply cache_ok_add; try done. by apply cache_ok_pending. }
    assert (E3 : exists e, c3 !! key = Some e /\ core e = (false, false, 0, [])).
    { specialize (G3 key). rewrite lookup_insert_eq in G3. exact G3. }
    destruct E3 as (e3 & E3 & [= A1 A2 A3 A4]).
    split_and!; [done| |done|intros x; unfold c3; by rewrite !alter_is_Some]. split_and!; [done| |]; cbn [m_cache].
    + apply (cache_ok_alter (Some key)); [done|intros x _; destruct (decide (x = key)); [by right|left; congruence]|].
      intros e Ee. split_and!; [|auto|auto]. intros _. rewrite E3 in Ee. injection Ee as <-. unfold live_ok. simpl. rewrite A1. by split.
    + eapply cache_grows_trans; [exact Hg|]. intros x. destruct (decide (x = key)) as [->|Hx].
      * rewrite He, lookup_alter_eq, E3. exists w. split; [done|]. unfold core. simpl. by rewrite A1, A2, A3.
      * rewrite lookup_alter_ne by done. specialize (G3 x). by rewrite lookup_insert_ne in G3.
Qed.

Lemma emplaced_cached (c : cache_type) (key x : list Z) : is_Some (emplaced key c !! x) <-> x = key \/ is_Some (c !! x).
Proof.
  unfold emplaced. destruct (c !! key) as [e|] eqn:He; [|rewrite lookup_insert_is_Some'; naive_solver].
  split; [by right|]. intros [->|?]; [by rewrite He; eexists|done].
Qed.

(** The nearest key above [k], of the cache or of the parent, and the flags around it *)
Lemma link_next (c : cache_type) (pm : kmap) (k key : list Z) :
  is_Some (c !! k) -> nearest_up (fun x => (is_Some (c !! x) \/ is_Some (pm !! x)) /\ k <ₖ x) (Some key) ->
  next_known (emplaced key c) pm k /\ previous_known (emplaced key c) pm key.
Proof.
  intros Hk [[_ Hlt] Hn]. assert (Hkey : is_Some (emplaced key c !! key)) by (apply emplaced_cached; by left).
  assert (Hk' : is_Some (emplaced key c !! k)) by (apply emplaced_cached; by right).
  split; (split; [eauto|]); intros x Hx Hxk.
  - exists key. split_and!; auto.
  - exists k. split; [done|]. split; [|done]. apply key_le_lt. intros H. specialize (Hn x (conj (or_intror Hx) H)). key_order.
Qed.
Lemma link_previous (c : cache_type) (pm : kmap) (k key : list Z) :
  is_Some (c !! k) -> nearest_down (fun x => (is_Some (c !! x) \/ is_Some (pm !! x)) /\ x <ₖ k) (Some key) ->
  next_known (emplaced key c) pm key /\ previous_known (emplaced key c) pm k.
Proof.
  intros Hk [[_ Hlt] Hn]. assert (Hkey : is_Some (emplaced key c !! key)) by (apply emplaced_cached; by left).
  assert (Hk' : is_Some (emplaced key c !! k)) by (apply emplaced_cached; by right).
  split; (split; [eauto|]); intros x Hx Hxk.
  - exists k. split; [done|]. split; [done|]. apply key_le_lt. intros H. specialize (Hn x (conj (or_intror Hx) H)). key_order.
  - exists key. split_and!; auto.
Qed.

Lemma cached_not_empty (pm : kmap) (c : cache_type) (it : iterator) :
  cache_ok None c pm -> (forall k, it = Some k -> is_Some (c !! k)) -> not_empty it.
Proof. intros Hc Hit ->. by apply (co_key None c pm Hc []); [apply Hit|]. Qed.
Lemma valid_not_empty (p0 : P) (p : P) (pit : iterator) : parent_ok p0 p -> st_valid p pit -> not_empty pit.
Proof. intros Hp Hv ->. by destruct (valid_at_key p0 p _ Hp Hv). Qed.
Lemma deref_at (p0 : P) (p : P) (pit : iterator) (k : list Z) :
  parent_ok p0 p -> st_valid p pit -> pit = Some k -> is_Some ((st_map p0) !! k) /\ deref p pit = (st_map p0) !! k.
Proof.
  intros Hp Hv ->. pose proof (valid_at_key p0 p _ Hp Hv) as [_ Hk]. destruct Hp as (P1 & _ & P3 & _). destruct (st_deref p (Some k) P1 Hv) as [E _].
  simpl in E. rewrite P3 in E. done.
Qed.
Lemma nearer_either (a b : iterator) (k : list Z) : nearer a b = Some k -> a = Some k \/ b = Some k.
Proof. destruct a as [x|], b as [y|]; simpl; [case_bool_decide| | |]; naive_solver. Qed.
Lemma nearer_down_either (a b : iterator) (k : list Z) : nearer_down a b = Some k -> a = Some k \/ b = Some k.
Proof. destruct a as [x|], b as [y|]; simpl; [case_bool_decide| | |]; naive_solver. Qed.

Lemma key_not_empty (p0 : P) (c0 : cache_type) (key : list Z) s :
  running p0 None c0 s -> is_Some (m_cache s !! key) \/ is_Some ((st_map p0) !! key) -> key <> [].
Proof.
  intros ((P1 & _ & P3 & _) & Hc & _) [Hx|[v Hx]]; [by apply (co_key None _ _ Hc)|]. rewrite <- P3 in Hx. by apply (st_nonempty _ _ _ P1 Hx).
Qed.

Lemma update_next_ok (p0 : P) (c0 : cache_type) (k : list Z) s :
  running p0 None c0 s -> is_Some (m_cache s !! k) ->
  returns (update_next k) s (fun b s' => running p0 None c0 s' /\ (forall x, is_Some (m_cache s !! x) -> is_Some (m_cache s' !! x)) /\
    if b : bool then next_known (m_cache s') (st_map p0) k else forall x, ~ ((is_Some (m_cache s' !! x) \/ is_Some ((st_map p0) !! x)) /\ k <ₖ x)).
Proof.
  intros Hr Hk. pose proof Hr as (_ & Hc & _). assert (Hne : k <> []) by by apply (co_key None _ _ Hc). unfold update_next. apply wp_cache.
  eapply wp_seq; [apply visit_lower_bound; [apply Hr|done]|]. intros pit s1 (V1 & H1 & N1). pose proof (running_visited _ _ _ _ _ Hr V1) as R1.
  pose proof V1 as (E1 & _). replace (bool_decide (pit <> None) && bool_decide (key_of pit = k)) with (bool_decide (key_of pit = k)).
  2: { destruct pit as [x|]; [done|]. by rewrite (bool_decide_false (key_of None = k)). }
  eapply wp_seq; [by apply (first_step p0 None c0)|]. intros pit2 s2 (R2 & E2 & _ & V2 & N2 & _). apply wp_get.
  pose proof (key_after_spec (m_cache s) k) as Ha.
  rewrite choose_nearer; [|apply (cached_not_empty (st_map p0) (m_cache s)); [done|intros x Ex; rewrite Ex in Ha; apply Ha]|apply (valid_not_empty p0 (m_parent s2)); [apply R2|done]].
  assert (Es : m_cache s2 = m_cache s) by congruence.
  assert (Hn : nearest_up (fun x => (is_Some (m_cache s2 !! x) \/ is_Some ((st_map p0) !! x)) /\ k <ₖ x) (nearer (key_after (m_cache s) k) pit2)).
  { rewrite Es. eapply nearest_up_iff; [|exact (nearer_or _ _ _ _ Ha N2)]. intros x. tauto. }
  destruct (nearer (key_after (m_cache s) k) pit2) as [key|] eqn:En; simpl key_of.
  - assert (Hkey : is_Some (m_cache s2 !! key) \/ is_Some ((st_map p0) !! key) /\ deref (m_parent s2) pit2 = (st_map p0) !! key).
    { apply nearer_either in En as [En|En]; [left; rewrite En in Ha; rewrite Es; apply Ha|right; by apply deref_at; [apply R2|..]]. }
    rewrite bool_decide_true by (by apply (key_not_empty p0 c0 key s2); [|destruct Hkey as [?|[? _]]; auto]).
    destruct (link_next (m_cache s2) (st_map p0) k key) as [L1 L2]; [by rewrite Es|done|].
    eapply wp_mono; [apply (link_ok p0 c0 key key k set_previous set_next); [done|done|by apply sets_previous|by apply sets_next]|].
    intros b s3 (-> & R3 & _ & D3). split_and!; [done|intros x Hx; apply D3, emplaced_cached; right; by rewrite Es|].
    eapply next_known_mono; [|exact L1]. intros x. apply D3.
  - rewrite bool_decide_false by naive_solver. apply wp_ret. split_and!; [done|by rewrite Es|]. exact Hn.
Qed.

Lemma update_previous_ok (p0 : P) (c0 : cache_type) (k : list Z) s :
  running p0 None c0 s -> is_Some (m_cache s !! k) ->
  returns (update_previous k) s (fun b s' => running p0 None c0 s' /\ (forall x, is_Some (m_cache s !! x) -> is_Some (m_cache s' !! x)) /\
    if b : bool then previous_known (m_cache s') (st_map p0) k else forall x, ~ ((is_Some (m_cache s' !! x) \/ is_Some ((st_map p0) !! x)) /\ x <ₖ k)).
Proof.
  intros Hr Hk. pose proof Hr as (_ & Hc & _). assert (Hne : k <> []) by by apply (co_key None _ _ Hc). unfold update_previous. apply wp_cache.
  eapply wp_seq; [apply visit_lower_bound; [apply Hr|done]|]. intros pit s1 (V1 & H1 & N1). pose proof (running_visited _ _ _ _ _ Hr V1) as R1.
  eapply wp_seq; [apply visit_begin, R1|]. intros b s2 (V2 & _ & NB). pose proof (running_visited _ _ _ _ _ R1 V2) as R2.
  pose proof (not_first p0 k pit b N1 NB) as Hf.
  eapply (wp_seq _ _ _ (fun kv s3 => running p0 None c0 s3 /\ m_cache s3 = m_cache s /\ exists pit', kv = (key_of pit', deref (m_parent s3) pit') /\
    st_valid (m_parent s3) pit' /\ nearest_down (fun x => is_Some ((st_map p0) !! x) /\ x <ₖ k) pit')).
  { destruct (decide (pit = b)) as [Hd|Hd];
      [rewrite bool_decide_true in Hf by done; rewrite (bool_decide_false (pit <> b)) by auto|rewrite (bool_decide_true (pit <> b)) by done].
    - apply wp_ret. split_and!; [done|by rewrite (proj1 V2), (proj1 V1)|]. exists None. split_and!; [|apply st_end|done].
      destruct (st_deref (m_parent s2) None (proj1 (proj1 R2)) (st_end _)) as [E _]. by rewrite E.
    - eapply wp_seq; [apply (visit_back p0); [apply R2|by apply V2]|]. intros pit' s3 (V3 & H3 & N3). apply wp_get, wp_ret.
      split_and!; [by eapply running_visited|by rewrite (proj1 V3), (proj1 V2), (proj1 V1)|]. exists pit'. split_and!; [done|done|by eapply from_down]. }
  intros kv s3 (R3 & Es & pit' & -> & V3 & N3). pose proof (key_before_spec (m_cache s) k) as Ha.
  rewrite choose_nearer_down; [|apply (cached_not_empty (st_map p0) (m_cache s)); [done|intros x Ex; rewrite Ex in Ha; apply Ha]|apply (valid_not_empty p0 (m_parent s3)); [apply R3|done]].
  assert (Hn : nearest_down (fun x => (is_Some (m_cache s3 !! x) \/ is_Some ((st_map p0) !! x)) /\ x <ₖ k) (nearer_down (key_before (m_cache s) k) pit')).
  { rewrite Es. eapply nearest_down_iff; [|exact (nearer_down_or _ _ _ _ Ha N3)]. intros x. tauto. }
  destruct (nearer_down (key_before (m_cache s) k) pit') as [key|] eqn:En; simpl key_of.
  - assert (Hkey : is_Some (m_cache s3 !! key) \/ is_Some ((st_map p0) !! key) /\ deref (m_parent s3) pit' = (st_map p0) !! key).
    { apply nearer_down_either in En as [En|En]; [left; rewrite En in Ha; rewrite Es; apply Ha|right; by apply deref_at; [apply R3|..]]. }
    rewrite bool_decide_true by (by apply (key_not_empty p0 c0 key s3); [|destruct Hkey as [?|[? _]]; auto]).
    destruct (link_previous (m_cache s3) (st_map p0) k key) as [L1 L2]; [by rewrite Es|done|].
    eapply wp_mono; [apply (link_ok p0 c0 key key k set_next set_previous); [done|done|by apply sets_next|by apply sets_previous]|].
    intros b' s4 (-> & R4 & _ & D4). split_and!; [done|intros x Hx; apply D4, emplaced_cached; right; by rewrite Es|].
    eapply previous_known_mono; [|exact L2]. intros x. apply D4.
  - rewrite bool_decide_false by naive_solver. apply wp_ret. split_and!; [done|by rewrite Es|]. exact Hn.
Qed.

(** ** The loops of [move_] *)
Lemma view_or (c : cache_type) (pm : kmap) x : is_Some (view c pm !! x) -> is_Some (c !! x) \/ is_Some (pm !! x).
Proof. rewrite view_stored. intros [?%live_cached|[? _]]; auto. Qed.
Lemma gone_not_viewed (c : cache_type) (pm : kmap) x : x ∈ gone c -> ~ is_Some (view c pm !! x).
Proof. intros Hg. rewrite view_stored. intros [?|[_ Hn]]; [by destruct (gone_not_live c x)|]. apply gone_cached in Hg as [? ?]. congruence. Qed.

(** The next key of the cache is the next key of the session, or is deleted. *)
Lemma next_known_after (c : cache_type) (pm : kmap) (k : list Z) :
  next_known c pm k -> exists k', key_after c k = Some k' /\ is_Some (c !! k') /\ k <ₖ k' /\ forall x, is_Some (view c pm !! x) -> k <ₖ x -> k' ≤ₖ x.
Proof.
  intros [(y & Hy & Hky) Hp]. pose proof (key_after_spec c k) as Hs. destruct (key_after c k) as [k'|]; [|by destruct (Hs y)].
  destruct Hs as [[H1 H2] Hs]. exists k'. split_and!; [done..|]. intros x Hx Hlt. apply view_or in Hx as [Hx|Hx]; [by apply Hs|].
  destruct (Hp x Hx Hlt) as (z & Hz & Hkz & Hzx). specialize (Hs z (conj Hz Hkz)). key_order.
Qed.
Lemma previous_known_before (c : cache_type) (pm : kmap) (k : list Z) :
  previous_known c pm k -> exists k', key_before c k = Some k' /\ is_Some (c !! k') /\ k' <ₖ k /\ forall x, is_Some (view c pm !! x) -> x <ₖ k -> x ≤ₖ k'.
Proof.
  intros [(y & Hy & Hky) Hp]. pose proof (key_before_spec c k) as Hs. destruct (key_before c k) as [k'|]; [|by destruct (Hs y)].
  destruct Hs as [[H1 H2] Hs]. exists k'. split_and!; [done..|]. intros x Hx Hlt. apply view_or in Hx as [Hx|Hx]; [by apply Hs|].
  destruct (Hp x Hx Hlt) as (z & Hz & Hxz & Hzk). specialize (Hs z (conj Hz Hzk)). key_order.
Qed.

Lemma known_next (p0 : P) (c0 : cache_type) (k : list Z) s :
  running p0 None c0 s -> is_Some (m_cache s !! k) ->
  returns (known ← flag next_in_cache k; if known : bool then mret true else update_next k) s (fun b s' => running p0 None c0 s' /\
    if b : bool then next_known (m_cache s') (st_map p0) k else forall x, ~ (is_Some (view c0 (st_map p0) !! x) /\ k <ₖ x)).
Proof.
  intros Hr [e He]. apply wp_flag. rewrite He. simpl from_option. destruct (next_in_cache e) eqn:Hn.
  - apply wp_ret. split; [done|]. destruct Hr as (_ & Hc & _). by apply (co_next None _ _ Hc k e).
  - eapply wp_mono; [apply (update_next_ok p0 c0); [done|by eexists]|]. intros b s' (R & _ & Hb). split; [done|]. destruct b; [done|].
    intros x [Hx Hlt]. rewrite <- (grows_view (st_map p0) c0 (m_cache s')) in Hx by apply R. apply view_or in Hx. by apply (Hb x).
Qed.
Lemma known_previous (p0 : P) (c0 : cache_type) (k : list Z) s :
  running p0 None c0 s -> is_Some (m_cache s !! k) ->
  returns (known ← flag previous_in_cache k; if known : bool then mret true else update_previous k) s (fun b s' => running p0 None c0 s' /\
    if b : bool then previous_known (m_cache s') (st_map p0) k else forall x, ~ (is_Some (view c0 (st_map p0) !! x) /\ x <ₖ k)).
Proof.
  intros Hr [e He]. apply wp_flag. rewrite He. simpl from_option. destruct (previous_in_cache e) eqn:Hn.
  - apply wp_ret. split; [done|]. destruct Hr as (_ & Hc & _). by apply (co_previous None _ _ Hc k e).
  - eapply wp_mono; [apply (update_previous_ok p0 c0); [done|by eexists]|]. intros b s' (R & _ & Hb). split; [done|]. destruct b; [done|].
    intros x [Hx Hlt]. rewrite <- (grows_view (st_map p0) c0 (m_cache s')) in Hx by apply R. apply view_or in Hx. by apply (Hb x).
Qed.

Definition gone_above (g : gset (list Z)) (k : list Z) : nat := base.size (filter (fun x => k <ₖ x) g).
Lemma gone_above_step (g : gset (list Z)) (k k' : list Z) : k' ∈ g -> k <ₖ k' -> (gone_above g k' < gone_above g k)%nat.
Proof.
  intros Hk Hlt. apply subset_size. split.
  - intros x. rewrite !elem_of_filter. intros [Hx ?]. split; [key_order|done].
  - intros Hsub. assert (H : k' ∈ filter (fun x => k' <ₖ x) g) by (apply Hsub, elem_of_filter; by split). apply elem_of_filter in H as [H _]. key_order.
Qed.
Lemma gone_above_steps (c : cache_type) (k : list Z) : (gone_above (gone c) k < steps c)%nat.
Proof. pose proof (gone_size c). unfold gone_above, steps. pose proof (subseteq_size (filter (fun x => k <ₖ x) (gone c)) (gone c) ltac:(set_solver)). lia. Qed.

Lemma move_next_loop (p0 : P) (c0 : cache_type) (fuel : nat) (k : list Z) s :
  running p0 None c0 s -> is_Some (m_cache s !! k) -> (gone_above (gone c0) k < fuel)%nat ->
  returns (move_ fuel next_in_cache (fun c it => k ← it; key_after c k) update_next (Some k)) s (fun it s' => running p0 None c0 s' /\
    session_valid s' it /\ nearest_up (fun x => is_Some (view c0 (st_map p0) !! x) /\ k <ₖ x) it).
Proof.
  revert k s. induction fuel as [|fuel IH]; intros k s Hr Hk Hfuel; [lia|]. cbn [move_].
  eapply wp_seq; [by apply (known_next p0 c0)|]. intros b s1 (R1 & Hb). destruct b; cbn [negb]; [|by apply wp_ret].
  apply wp_cache. destruct (next_known_after _ _ _ Hb) as (k' & Ek & Hk' & Hlt & Hn). cbn [mbind option_bind]. rewrite Ek.
  rewrite (grows_view (st_map p0) c0) in Hn by apply R1. pose proof (gone_grows (st_map p0) c0 (m_cache s1) ltac:(apply R1)) as Hg.
  apply wp_flag. pose proof (flag_gone (m_cache s1) k') as Hf. destruct (from_option deleted false (m_cache s1 !! k')); cbn [negb].
  - assert (Hk1 : k' ∈ gone c0) by (rewrite <- Hg; by apply Hf). eapply wp_mono; [apply (IH k' s1 R1 Hk')|].
    + pose proof (gone_above_step (gone c0) k k' Hk1 Hlt). lia.
    + intros it s' (R' & V' & N'). split_and!; [done..|]. eapply nearest_up_iff; [|exact N']. intros x. split; intros [Hx Hlt']; (split; [done|]); [key_order|].
      specialize (Hn x Hx Hlt'). destruct (key_cases k' x) as [?|[->|?]]; [done|by destruct (gone_not_viewed c0 (st_map p0) x)|key_order].
  - apply wp_ret. assert (Hl : live (m_cache s1) k') by (destruct (live_or_gone _ _ Hk') as [?|?%Hf]; done).
    split_and!; [done|done|]. split; [|intros x [Hx Hlt']; by apply Hn]. split; [|done].
    rewrite <- (grows_view (st_map p0) c0 (m_cache s1)) by apply R1. apply view_stored. by left.
Qed.

(** A step down in the cache, from an iterator whose previous key is known or from the end *)
Definition move_down (c : cache_type) (it : iterator) : iterator := match it with Some k => key_before c k | None => key_last c end.

Lemma step_down (c : cache_type) (pm : kmap) (it : iterator) :
  cache_ok None c pm -> (forall k, it = Some k -> previous_known c pm k) ->
  match move_down c it with
  | Some k' => is_Some (c !! k') /\ below it k' /\ forall x, is_Some (view c pm !! x) -> below it x -> x ≤ₖ k'
  | None => forall x, ~ (is_Some (view c pm !! x) /\ below it x)
  end.
Proof.
  intros Hc Hit. destruct it as [k|]; simpl.
  - destruct (previous_known_before c pm k (Hit k eq_refl)) as (k' & -> & ?). done.
  - pose proof (key_last_spec c) as Hs. destruct (key_last c) as [k'|]; simpl in Hs.
    + destruct Hs as [Hk Hs]. split_and!; [done..|]. intros x Hx _. apply view_or in Hx as [Hx|Hx]; [by apply Hs|].
      destruct (co_high None c pm Hc x Hx) as (y & Hy & Hle). specialize (Hs y Hy). key_order.
    + intros x [Hx _]. apply view_or in Hx as [Hx|Hx]; [by apply (Hs x)|]. destruct (co_high None c pm Hc x Hx) as (y & Hy & _). by apply (Hs y).
Qed.

Lemma known_down (p0 : P) (c0 : cache_type) (it : iterator) s :
  running p0 None c0 s -> (forall k, it = Some k -> is_Some (m_cache s !! k)) ->
  returns (match it with
           | None => mret true
           | Some k => known ← flag previous_in_cache k; if known : bool then mret true else update_previous k
           end) s (fun b s' => running p0 None c0 s' /\
    if b : bool then forall k, it = Some k -> previous_known (m_cache s') (st_map p0) k else forall x, ~ (is_Some (view c0 (st_map p0) !! x) /\ below it x)).
Proof.
  intros Hr Hit. destruct it as [k|]; [|by apply wp_ret]. eapply wp_mono; [apply (known_previous p0 c0); [done|by apply Hit]|].
  intros b s' (R & Hb). split; [done|]. destruct b; [by intros ? [= <-]|done].
Qed.

Lemma move_previous_loop (p0 : P) (c0 : cache_type) (fuel : nat) (it : iterator) s :
  running p0 None c0 s -> (forall k, it = Some k -> is_Some (m_cache s !! k)) -> (gone_down (gone c0) it < fuel)%nat ->
  returns (move_ fuel previous_in_cache move_down update_previous it) s (fun it' s' => running p0 None c0 s' /\
    session_valid s' it' /\ nearest_down (fun x => is_Some (view c0 (st_map p0) !! x) /\ below it x) it').
Proof.
  revert it s. induction fuel as [|fuel IH]; intros it s Hr Hit Hfuel; [lia|]. cbn [move_].
  eapply wp_seq; [by apply (known_down p0 c0)|]. intros b s1 (R1 & Hb). destruct b; cbn [negb]; [|by apply wp_ret].
  apply wp_cache. pose proof (step_down (m_cache s1) (st_map p0) it ltac:(apply R1) Hb) as Hs. rewrite (grows_view (st_map p0) c0) in Hs by apply R1.
  destruct (move_down (m_cache s1) it) as [k'|]; [|by apply wp_ret]. destruct Hs as (Hk' & Hlt & Hn).
  pose proof (gone_grows (st_map p0) c0 (m_cache s1) ltac:(apply R1)) as Hg.
  apply wp_flag. pose proof (flag_gone (m_cache s1) k') as Hf. destruct (from_option deleted false (m_cache s1 !! k')); cbn [negb].
  - assert (Hk1 : k' ∈ gone c0) by (rewrite <- Hg; by apply Hf). eapply wp_mono; [apply (IH (Some k') s1 R1)|].
    + by intros ? [= <-].
    + pose proof (gone_down_step (gone c0) k' it Hk1 Hlt). lia.
    + intros it' s' (R' & V' & N'). split_and!; [done..|]. eapply nearest_down_iff; [|exact N']. intros x.
      split; intros [Hx Hlt']; (split; [done|]); simpl in *; [destruct it; simpl in *; [key_order|done]|].
      specialize (Hn x Hx Hlt'). destruct (key_cases x k') as [?|[->|?]]; [done|by destruct (gone_not_viewed c0 (st_map p0) k')|key_order].
  - apply wp_ret. assert (Hl : live (m_cache s1) k') by (destruct (live_or_gone _ _ Hk') as [?|?%Hf]; done).
    split_and!; [done|done|]. split; [|intros x [Hx Hlt']; by apply Hn]. split; [|done].
    rewrite <- (grows_view (st_map p0) c0 (m_cache s1)) by apply R1. apply view_stored. by left.
Qed.

Lemma move_next_ok s k : session_ok s -> session_valid s (Some k) -> returns (move_next_ (Some k)) s (fun it s' =>
  unchanged s s' /\ session_valid s' it /\ nearest_up (fun x => is_Some (session_map s !! x) /\ k <ₖ x) it).
Proof.
  intros Hs (e & He & _). unfold move_next_. apply wp_cache.
  eapply wp_mono; [apply (move_next_loop (m_parent s) (m_cache s)); [by apply running_start|by eexists|apply gone_above_steps]|].
  intros it s' (R & V & N). split_and!; [by apply unchanged_running|done|done].
Qed.

Lemma move_previous_ok s it : session_ok s -> session_valid s it -> returns (move_previous_ it) s (fun it' s' =>
  unchanged s s' /\ session_valid s' it' /\ nearest_down (fun x => is_Some (session_map s !! x) /\ below it x) it').
Proof.
  intros Hs Hv. pose proof Hs as [_ Hc]. unfold move_previous_. apply wp_cache. pose proof (key_first_spec (m_cache s)) as Hf. case_bool_decide as Hd.
  - apply wp_ret. split_and!; [by apply unchanged_refl|done|]. rewrite Hd. intros x [Hx Hlt]. apply view_or in Hx.
    assert (Hy : exists y, is_Some (m_cache s !! y) /\ y ≤ₖ x) by (destruct Hx as [Hx|Hx]; [exists x; split; [done|key_order]|by apply (co_low None _ _ Hc)]).
    destruct Hy as (y & Hy & Hle). destruct (key_first (m_cache s)) as [b|]; simpl in *; [|by apply (Hf y)]. destruct Hf as [_ Hf]. specialize (Hf y Hy). key_order.
  - eapply wp_mono; [apply (move_previous_loop (m_parent s) (m_cache s)); [by apply running_start| |apply gone_down_steps]|].
    + intros k ->. destruct Hv as (e & He & _). by eexists.
    + intros it' s' (R & V & N). split_and!; [by apply unchanged_running|done|done].
Qed.
End session_iterators.
