(* ===== verification/SessionStore.v ===== *)
(** * Sessions are stores

    A session satisfies the laws of a store when its parent does ([session_laws]); a session is opened on its parent with
    the keys and values of the parent ([new_session_ok]), and [commit] writes the keys and values of the session into the parent ([commit_ok]).
    The versions of the keys that iterators rely on are at the end. *)

From S2P Require Import Prelude Effects Lex SharedBytes Store Session SessionProofs SessionIterators.

(** ** Batches *)
Lemma lookup_delete_all (l : list (list Z)) (m : kmap) (k : list Z) : delete_all l m !! k = if decide (k ∈ l) then None else m !! k.
Proof.
  unfold delete_all. revert m. induction l as [|x l IH]; intros m; cbn [foldl]; [by rewrite decide_False by set_solver|]. rewrite IH.
  destruct (decide (k ∈ l)) as [H|H]; [by rewrite decide_True by set_solver|]. destruct (decide (k = x)) as [->|Hne].
  - rewrite decide_True by set_solver. apply lookup_delete_eq.
  - rewrite decide_False by set_solver. by rewrite lookup_delete_ne.
Qed.
Lemma lookup_insert_all_None (l : list (list Z * list Z)) (m : kmap) (k : list Z) : k ∉ l.*1 -> insert_all l m !! k = m !! k.
Proof.
  unfold insert_all. revert m. induction l as [|[x v] l IH]; intros m Hk; [done|]. cbn [foldl]. rewrite IH by set_solver. apply lookup_insert_ne. set_solver.
Qed.
Lemma lookup_insert_all (l : list (list Z * list Z)) (m : kmap) (k v : list Z) : NoDup l.*1 -> (k, v) ∈ l -> insert_all l m !! k = Some v.
Proof.
  unfold insert_all. revert m. induction l as [|[x w] l IH]; intros m Hd Hk; [by apply not_elem_of_nil in Hk|]. cbn [foldl]. apply NoDup_cons in Hd as [Hx Hd].
  apply elem_of_cons in Hk as [[= -> ->]|Hk]; [|by apply IH]. pose proof (lookup_insert_all_None l (<[x := w]> m) x Hx) as E. unfold insert_all in E.
  etransitivity; [exact E|apply lookup_insert_eq].
Qed.

Lemma elem_of_deletes (c : cache_type) (k : list Z) : k ∈ deletes c <-> k ∈ gone c.
Proof.
  unfold deletes. rewrite list_elem_of_omap, elem_of_gone. split.
  - intros ([k' e] & Hin & E). apply elem_of_map_to_list in Hin. simpl in E. destruct (deleted e) eqn:Hd; [|done]. injection E as <-. by exists e.
  - intros (e & He & Hd). exists (k, e). split; [by apply elem_of_map_to_list|]. simpl. by rewrite Hd.
Qed.
Lemma elem_of_updates (c : cache_type) (k v : list Z) :
  (k, v) ∈ updates c <-> exists e, c !! k = Some e /\ deleted e = false /\ updated e = true /\ value e = v.
Proof.
  unfold updates. rewrite list_elem_of_omap. split.
  - intros ([k' e] & Hin & E). apply elem_of_map_to_list in Hin. simpl in E. destruct (deleted e) eqn:Hd; [done|].
    destruct (updated e) eqn:Hu; [|done]. injection E as <- <-. by exists e.
  - intros (e & He & Hd & Hu & <-). exists (k, e). split; [by apply elem_of_map_to_list|]. simpl. by rewrite Hd, Hu.
Qed.
Lemma updates_nodup (c : cache_type) : NoDup (updates c).*1.
Proof.
  unfold updates. pose proof (NoDup_fst_map_to_list c) as Hd. revert Hd. generalize (map_to_list c). intros l.
  assert (Hsub : forall (l : list (list Z * value_state)) k,
    k ∈ (omap (fun kv => if deleted kv.2 then None else if updated kv.2 then Some (kv.1, value kv.2) else None) l).*1 -> k ∈ l.*1).
  { clear l. intros l k. rewrite !list_elem_of_fmap. intros ([k' v] & -> & ([k2 e] & Hin & E)%list_elem_of_omap). exists (k2, e). split; [|done].
    simpl in *. destruct (deleted e), (updated e); congruence. }
  induction l as [|[k e] l IH]; intros Hd; [constructor|]. cbn [fmap list_fmap] in Hd. apply NoDup_cons in Hd as [Hk Hd]. simpl in Hk.
  specialize (IH Hd). simpl. destruct (deleted e); [done|]. destruct (updated e); [|done]. apply NoDup_cons. split; [|done]. intros H%Hsub. done.
Qed.

(** The batches of [commit] make the map of the parent that of the session. *)
Lemma commit_map (c : cache_type) (pm : kmap) : cache_ok None c pm -> insert_all (updates c) (delete_all (deletes c) pm) = view c pm.
Proof.
  intros Hc. apply map_eq. intros k. rewrite lookup_view. destruct (c !! k) as [e|] eqn:He; simpl.
  - destruct (deleted e) eqn:Hd; [|destruct (updated e) eqn:Hu].
    + rewrite lookup_insert_all_None, lookup_delete_all, decide_True; [done|apply elem_of_deletes, elem_of_gone; by exists e|].
      rewrite list_elem_of_fmap. intros ([k' v] & -> & (e' & He' & Hd' & _)%elem_of_updates). simpl in *. congruence.
    + apply lookup_insert_all; [apply updates_nodup|]. apply elem_of_updates. by exists e.
    + rewrite lookup_insert_all_None, lookup_delete_all, decide_False.
      * pose proof (co_live None c pm Hc k e He ltac:(done)) as Hl. unfold live_ok in Hl. rewrite Hd in Hl. by apply Hl.
      * rewrite elem_of_deletes, elem_of_gone. intros (e' & He' & Hd'). congruence.
      * rewrite list_elem_of_fmap. intros ([k' v] & -> & (e' & He' & _ & Hu' & _)%elem_of_updates). simpl in *. congruence.
  - rewrite lookup_insert_all_None, lookup_delete_all, decide_False; [done| |].
    + rewrite elem_of_deletes. intros [e He']%gone_cached. congruence.
    + rewrite list_elem_of_fmap. intros ([k' v] & -> & (e' & He' & _)%elem_of_updates). simpl in *. congruence.
Qed.

Section session_store.
Context {P : Type} {SP : Store P} {MP : StoreModel P} {HP : StoreLaws P}.
Implicit Types s : session P.

Lemma write_all_ok (l : list (list Z * list Z)) s :
  session_ok s -> Forall (fun kv => kv.1 <> [] /\ kv.2 <> []) l -> returns (for_each (fun kv => write kv.1 kv.2) l) s (fun _ s' =>
    session_ok s' /\ session_map s' = insert_all l (session_map s) /\ st_below s' = st_below s /\ (l <> [] \/ session_first s -> session_first s')).
Proof.
  revert s. induction l as [|[k v] l IH]; intros s Hs Hl; cbn [for_each].
  - apply wp_ret. split_and!; [done..|]. by intros [?|?].
  - apply Forall_cons in Hl as [[Hk Hv] Hl]. eapply wp_seq; [by apply session_write_ok|]. intros _ s1 (H1 & H2 & B1 & H3).
    eapply wp_mono; [by apply IH|]. intros _ s2 (H4 & H5 & B2 & H6). split_and!; [done|by rewrite H5, H2|congruence|]. intros _. apply H6. by right.
Qed.
Lemma erase_all_ok (l : list (list Z)) s :
  session_ok s -> Forall (fun k => k <> []) l -> returns (for_each erase l) s (fun _ s' => session_ok s' /\ session_map s' = delete_all l (session_map s) /\ st_below s' = st_below s).
Proof.
  revert s. induction l as [|k l IH]; intros s Hs Hl; cbn [for_each]; [by apply wp_ret|].
  apply Forall_cons in Hl as [Hk Hl]. eapply wp_seq; [by apply session_erase_ok|]. intros _ s1 (H1 & H2 & B1).
  eapply wp_mono; [by apply IH|]. intros _ s2 (H4 & H5 & B2). split_and!; [done|by rewrite H5, H2|congruence].
Qed.

#[global] Instance session_laws : StoreLaws (session P).
Proof.
  split.
  - apply session_nonempty.
  - done.
  - apply session_deref_ok.
  - intros s k. apply session_read_ok.
  - intros s k. apply session_find_ok.
  - apply session_begin_ok.
  - intros s k. apply session_lower_bound_ok.
  - apply move_next_ok.
  - intros s k Hs Hv. by apply (move_previous_ok s (Some k)).
  - intros s Hs. eapply wp_mono; [by apply (move_previous_ok s None)|]. intros it s' (H1 & H2 & H3). split_and!; [done..|].
    eapply nearest_down_iff; [|exact H3]. intros x. simpl. tauto.
  - intros s l. apply write_all_ok.
  - intros s l. apply erase_all_ok.
Qed.

Lemma commit_ok s : session_ok s -> returns commit s (fun _ s' =>
  m_cache s' = ∅ /\ st_ok (m_parent s') /\ st_map (m_parent s') = session_map s /\ st_below (m_parent s') = st_below (m_parent s) /\
  (updates (m_cache s) <> [] \/ deletes (m_cache s) = [] -> st_begin (m_parent s'))).
Proof.
  intros [(P1 & P2 & _) Hc]. unfold commit. apply wp_cache. case_bool_decide as Hem.
  { apply wp_ret. split_and!; [done|done| |done|done]. unfold session_map. rewrite Hem. apply map_eq. intros k. by rewrite lookup_view, lookup_empty. }
  assert (Hdel : returns (if (0 <? length (deletes (m_cache s)))%nat then visit (erase_all (deletes (m_cache s))) else mret tt) s (fun _ s' =>
    m_cache s' = m_cache s /\ st_ok (m_parent s') /\ st_map (m_parent s') = delete_all (deletes (m_cache s)) (st_map (m_parent s)) /\
    st_below (m_parent s') = st_below (m_parent s) /\ (deletes (m_cache s) = [] -> st_begin (m_parent s')))).
  { destruct (deletes (m_cache s)) as [|k l] eqn:Ed; [by apply wp_ret|]. cbn [length Nat.ltb Nat.leb]. rewrite <- Ed.
    assert (Hne : Forall (fun k => k <> []) (deletes (m_cache s))).
    { apply Forall_forall. intros x. rewrite elem_of_deletes. intros Hx%gone_cached. by apply (co_key None _ _ Hc). }
    pose proof (st_erase (m_parent s) _ P1 Hne) as He. unfold wp, visit in *. destruct (erase_all _ (m_parent s)) as [p [[]|]]; [|done].
    destruct He as (H1 & H2 & H3). split_and!; [done..|]. by rewrite Ed. }
  eapply wp_seq; [exact Hdel|]. intros _ s1 (E1 & O1 & M1 & L1 & B1).
  assert (Hupd : returns (if (0 <? length (updates (m_cache s)))%nat then visit (write_all (updates (m_cache s))) else mret tt) s1 (fun _ s' =>
    st_ok (m_parent s') /\ st_map (m_parent s') = insert_all (updates (m_cache s)) (st_map (m_parent s1)) /\
    st_below (m_parent s') = st_below (m_parent s1) /\ (updates (m_cache s) <> [] \/ st_begin (m_parent s1) -> st_begin (m_parent s')))).
  { destruct (updates (m_cache s)) as [|kv l] eqn:Eu; [apply wp_ret; split_and!; [done..|by intros [?|?]]|]. cbn [length Nat.ltb Nat.leb]. rewrite <- Eu.
    assert (Hne : Forall (fun kv => kv.1 <> [] /\ kv.2 <> []) (updates (m_cache s))).
    { apply Forall_forall. intros [x v] (e & He & Hd & _ & <-)%elem_of_updates. split; simpl; [apply (co_key None _ _ Hc); by eexists|].
      pose proof (co_live None _ _ Hc x e He ltac:(done)) as Hl. unfold live_ok in Hl. rewrite Hd in Hl. by apply Hl. }
    pose proof (st_write (m_parent s1) _ O1 Hne) as Hw. unfold wp, visit in *. by destruct (write_all _ (m_parent s1)) as [p [[]|]]. }
  eapply wp_seq; [exact Hupd|]. intros _ s2 (O2 & M2 & L2 & B2). apply wp_modify. cbn [m_cache m_parent]. split_and!; [done|done| |congruence|].
  - rewrite M2, M1. by apply commit_map.
  - intros [H|H]; apply B2; auto.
Qed.

(** ** Opening a session *)
Definition loaded (k v : list Z) (c : cache_type) : cache_type := match c !! k with Some _ => c | None => <[k := set_value v no_value]> c end.

Lemma prime_eq s k v : deref (m_parent s) (Some k) = Some v -> prime (Some k) s = (mk_session (loaded k v (m_cache s)) (m_parent s), Ok tt).
Proof.
  intros Hd. unfold prime. rewrite get_bind, Hd, bind_eq. unfold loaded, emplace. simpl key_of. rewrite bind_eq. change (cache_of s) with (s, Ok (m_cache s)).
  cbv beta iota. destruct (m_cache s !! k); [by destruct s|]. unfold modify. rewrite update_bind. unfold mret, M_ret, update. cbn [m_cache m_parent].
  by rewrite alter_insert_eq.
Qed.

Lemma loaded_cached (k v x : list Z) (c : cache_type) : is_Some (loaded k v c !! x) <-> x = k \/ is_Some (c !! x).
Proof.
  unfold loaded. destruct (c !! k) as [e|] eqn:He; [|rewrite lookup_insert_is_Some'; naive_solver]. split; [by right|]. intros [->|?]; [by rewrite He; eexists|done].
Qed.
Lemma loaded_grows (pm : kmap) (k v : list Z) (c : cache_type) : pm !! k = Some v -> grows pm c (loaded k v c).
Proof.
  intros Hk x. unfold loaded. destruct (c !! k) as [e|] eqn:He; [apply cache_grows_refl|]. destruct (decide (x = k)) as [->|Hne].
  - rewrite He, lookup_insert_eq. by exists v.
  - rewrite lookup_insert_ne by done. destruct (c !! x) as [e|]; [by exists e|done].
Qed.

Lemma parent_ok_unchanged (p0 p p' : P) : parent_ok p0 p -> unchanged p p' -> parent_ok p0 p'.
Proof. intros (? & ? & ? & ?) (? & ? & ? & ? & ?). split_and!; [done|auto|congruence|congruence]. Qed.
Lemma parent_ok_refl (p : P) : st_ok p -> st_begin p -> parent_ok p p.
Proof. intros H1 H2. by split_and!. Qed.

(** [prime_cache_] loads the first and the last key of the parent. *)
Lemma prime_cache_spec s : parent_ok (m_parent s) (m_parent s) ->
  returns prime_cache_ s (fun _ s' => unchanged (m_parent s) (m_parent s') /\
    ((st_map (m_parent s) = ∅ /\ m_cache s' = m_cache s) \/
     exists b v e w, st_map (m_parent s) !! b = Some v /\ st_map (m_parent s) !! e = Some w /\
       (forall x, is_Some (st_map (m_parent s) !! x) -> b ≤ₖ x /\ x ≤ₖ e) /\ m_cache s' = loaded e w (loaded b v (m_cache s)))).
Proof.
  intros Hp. set (p0 := m_parent s) in *. unfold prime_cache_. eapply wp_seq; [by apply (visit_begin p0)|]. intros pit s1 (V1 & H1 & N1).
  pose proof V1 as (E1 & U1). destruct pit as [b|]; [rewrite bool_decide_false by done|rewrite bool_decide_true by done].
  - assert (Hp1 : parent_ok p0 (m_parent s1)) by by eapply parent_ok_unchanged.
    destruct (deref_at p0 (m_parent s1) (Some b) b Hp1 H1 eq_refl) as [[v Hv] Ed]. rewrite Hv in Ed.
    apply wp_bind. unfold wp at 1. rewrite (prime_eq s1 b v Ed). cbn [m_cache m_parent].
    eapply wp_seq; [apply (visit_last p0); done|]. intros pit2 s2 (V2 & H2 & N2). pose proof V2 as (E2 & U2). cbn [m_cache m_parent] in E2, U2.
    destruct pit2 as [e|]; [|destruct (N2 b); by eexists].
    assert (Hp2 : parent_ok p0 (m_parent s2)) by by eapply parent_ok_unchanged.
    destruct (deref_at p0 (m_parent s2) (Some e) e Hp2 H2 eq_refl) as [[w Hw] Ed2]. rewrite Hw in Ed2.
    unfold wp. rewrite (prime_eq s2 e w Ed2). cbn [m_cache m_parent]. split; [by eapply unchanged_trans|]. right.
    exists b, v, e, w. split_and!; [done|done| |by rewrite E2, E1]. intros x Hx. split; [by apply N1|by apply N2].
  - apply wp_ret. split; [done|]. left. split; [|done]. apply map_eq. intros k. rewrite lookup_empty. destruct ((st_map p0) !! k) as [v|] eqn:E; [|done].
    destruct (N1 k). by rewrite E; eexists.
Qed.

Lemma loaded_entry (k v x : list Z) (e : value_state) (c : cache_type) :
  loaded k v c !! x = Some e -> c !! x = Some e \/ x = k /\ e = set_value v no_value.
Proof.
  unfold loaded. destruct (c !! k); [by left|]. intros [[<- <-]|[? ?]]%lookup_insert_Some; [by right|by left].
Qed.

(** The first and the last key of the parent alone make a cache. *)
Lemma primed_ok (pm : kmap) (b v e w : list Z) :
  (forall k v, pm !! k = Some v -> k <> [] /\ v <> []) -> pm !! b = Some v -> pm !! e = Some w ->
  (forall x, is_Some (pm !! x) -> b ≤ₖ x /\ x ≤ₖ e) -> cache_ok None (loaded e w (loaded b v ∅)) pm.
Proof.
  intros Hne Hb He Hn. assert (Hent : forall x d, loaded e w (loaded b v ∅) !! x = Some d -> exists u, pm !! x = Some u /\ d = set_value u no_value).
  { intros x d [[E|[-> ->]]%loaded_entry|[-> ->]]%loaded_entry; [done|by exists v|by exists w]. }
  split.
  - intros k [d (u & Hu & _)%Hent]. by apply (Hne k u).
  - intros k d (u & Hu & ->)%Hent _. split; [by apply (Hne k u)|done].
  - by intros k d (u & _ & ->)%Hent.
  - by intros k d (u & _ & ->)%Hent.
  - intros x Hx. exists b. split; [|by apply Hn]. rewrite !loaded_cached. auto.
  - intros x Hx. exists e. split; [|by apply Hn]. rewrite loaded_cached. auto.
Qed.
Lemma cache_ok_loaded (c : cache_type) (pm : kmap) (k v : list Z) :
  (forall k v, pm !! k = Some v -> k <> [] /\ v <> []) -> cache_ok None c pm -> pm !! k = Some v -> cache_ok None (loaded k v c) pm.
Proof.
  intros Hne Hc Hk. unfold loaded. destruct (c !! k) eqn:E; [done|]. apply cache_ok_add; try done; [by apply (Hne k v)|].
  intros _. split; [by apply (Hne k v)|done].
Qed.

Lemma new_session_ok (p : P) : st_ok p -> st_begin p ->
  returns attach (mk_session ∅ p) (fun _ s => session_ok s /\ session_map s = st_map p /\ session_first s /\ unchanged p (m_parent s)).
Proof.
  intros H1 H2. pose proof (parent_ok_refl p H1 H2) as Hp. eapply wp_mono; [by apply prime_cache_spec|]. cbn [m_cache m_parent].
  intros _ s (U & Hcase). pose proof U as (_ & EM & _). assert (Hempty : forall pm, view ∅ pm = pm).
  { intros pm. apply map_eq. intros k. by rewrite lookup_view, lookup_empty. }
  assert (Hne : forall k v, st_map p !! k = Some v -> k <> [] /\ v <> []) by (intros k v; by apply st_nonempty).
  assert (Hg : cache_ok None (m_cache s) (st_map p) /\ view (m_cache s) (st_map p) = st_map p /\ session_first s).
  { destruct Hcase as [[Hpm Hc]|(b & v & e & w & Hb & He & Hn & Hc)].
    - unfold session_first, session_map. rewrite EM, Hpm, Hc. split_and!; [|apply Hempty|right].
      + split; [intros k [? ?]|intros ? ? ?|intros ? ? ?|intros ? ? ?|intros x [? ?]|intros x [? ?]]; done.
      + apply Hempty.
    - assert (Hgr : grows (st_map p) ∅ (m_cache s)) by (rewrite Hc; eapply cache_grows_trans; by apply loaded_grows). split_and!.
      + rewrite Hc. by apply primed_ok.
      + by rewrite (grows_view _ ∅).
      + left. assert (Hx : is_Some (m_cache s !! b)) by (rewrite Hc, !loaded_cached; auto). destruct Hx as [d Hd]. exists b, d. split; [done|].
        specialize (Hgr b). rewrite lookup_empty, Hd in Hgr. by destruct Hgr as (u & _ & [= ? _ _ _]). }
  destruct Hg as (G1 & G2 & G3). unfold session_ok, session_map. rewrite EM. split_and!; [|done|done|done|done].
  pose proof (parent_ok_unchanged p p _ Hp U) as (? & ? & _). by apply parent_ok_refl.
Qed.

(** A session on a new parent with the same keys and values, whose cache was kept *)
Lemma attach_ok s : session_ok s -> returns attach s (fun _ s' => unchanged s s' /\ unchanged (m_parent s) (m_parent s')).
Proof.
  intros Hs. pose proof Hs as [Hp Hc]. eapply wp_mono; [by apply prime_cache_spec|]. intros _ s' (U & Hcase). split; [|done].
  assert (Hne : forall k v, st_map (m_parent s) !! k = Some v -> k <> [] /\ v <> []) by (destruct Hp as (? & _); intros k v; by apply st_nonempty).
  apply unchanged_running. split; [by eapply parent_ok_unchanged|].
  destruct Hcase as [[_ ->]|(b & v & e & w & Hb & He & Hn & ->)]; [split; [done|apply cache_grows_refl]|]. split.
  - by repeat apply cache_ok_loaded.
  - eapply cache_grows_trans; by apply loaded_grows.
Qed.
End session_store.

(** ** Scans *)

(** [for( auto it = s.begin(); it != s.end(); ++it )], collecting the keys *)
Section scan.
Context {S : Type} `{Store S}.
Fixpoint scan_from (fuel : nat) (it : iterator) : M S (list (list Z)) :=
  match fuel, it with
  | O, _ => throw nontermination
  | _, None => mret []
  | Datatypes.S fuel, Some k => it ← incr (Some k); l ← scan_from fuel it; mret (k :: l)
  end.
Definition scan (fuel : nat) : M S (list (list Z)) := it ← begin; scan_from fuel it.
End scan.

Section scan_proofs.
Context {S : Type} {SS : Store S} {MS : StoreModel S} {LS : StoreLaws S}.
Implicit Types s : S.

Definition keys_of (m : kmap) : gset (list Z) := dom m.

Lemma scan_from_ok (fuel : nat) (it : iterator) s :
  st_ok s -> st_valid s it -> (gone_up (keys_of (st_map s)) it < fuel)%nat ->
  returns (scan_from fuel it) s (fun l s' => unchanged s s' /\ StronglySorted KeyOrder.lt l /\ forall x, x ∈ l <-> is_Some (st_map s !! x) /\ up_to it x).
Proof.
  revert it s. induction fuel as [|fuel IH]; intros it s Hs Hv Hf; [lia|]. destruct it as [k|]; cbn [scan_from].
  - assert (Hk : is_Some (st_map s !! k)).
    { destruct (st_deref s (Some k) Hs Hv) as [E Hd]. simpl in E. rewrite <- E. apply Hd. by eexists. }
    eapply wp_seq; [by apply st_incr|]. intros it s1 (U1 & V1 & N1). pose proof U1 as (O1 & M1 & _).
    assert (Hup : forall x, is_Some (st_map s !! x) -> up_to it x <-> k <ₖ x).
    { intros x Hx. destruct it as [b|]; simpl in *; [|split; [done|intros Hlt; by destruct (N1 x)]]. destruct N1 as [[_ N1] N2]. split; [intros Hu; key_order|auto]. }
    eapply wp_seq; [apply (IH it s1 O1 V1)|].
    { rewrite M1. enough (gone_up (keys_of (st_map s)) it < gone_up (keys_of (st_map s)) (Some k))%nat by lia. apply gone_up_step; [by apply elem_of_dom|].
      intros x Hu. destruct it as [b|]; [|done]. destruct N1 as [[_ N1] _]. simpl in Hu. key_order. }
    intros l s2 (U2 & Sl & Hl). rewrite M1 in Hl. apply wp_ret. split_and!; [by eapply unchanged_trans| |].
    + constructor; [done|]. apply Forall_forall. intros x [Hx Hu]%Hl. by apply (Hup x Hx).
    + intros x. rewrite elem_of_cons, Hl. split.
      * intros [->|[Hx Hu]]; (split; [done|]); simpl; [key_order|]. apply (Hup x Hx) in Hu. key_order.
      * intros [Hx Hu]. simpl in Hu. destruct (key_cases k x) as [?|[->|?]]; [right; split; [done|by apply (Hup x Hx)]|by left|key_order].
  - apply wp_ret. split_and!; [by apply unchanged_refl|constructor|]. intros x. split; [by intros ?%elem_of_nil|by intros [_ ?]].
Qed.

(** A scan of a store gives its keys in order. *)
Lemma scan_ok s : st_ok s -> st_begin s ->
  returns (scan (Datatypes.S (base.size (st_map s)))) s (fun l s' => unchanged s s' /\ StronglySorted KeyOrder.lt l /\ forall x, x ∈ l <-> is_Some (st_map s !! x)).
Proof.
  intros Hs Hb. unfold scan. eapply wp_seq; [by apply st_first|]. intros it s1 (U1 & V1 & N1). pose proof U1 as (O1 & M1 & _).
  eapply wp_mono; [apply (scan_from_ok _ it s1 O1 V1)|].
  - rewrite M1. pose proof (subseteq_size (filter (up_to it) (keys_of (st_map s))) (keys_of (st_map s)) ltac:(set_solver)) as Hsz.
    unfold gone_up. unfold keys_of in *. rewrite size_dom in Hsz. lia.
  - intros l s2 (U2 & Sl & Hl). split_and!; [by eapply unchanged_trans|done|]. intros x. rewrite Hl, M1. split; [by intros [? _]|]. intros Hx. split; [done|].
    destruct it as [b|]; simpl in *; [by apply N1|by destruct (N1 x)].
Qed.
End scan_proofs.

(** * Versions of keys

    A key of the cache gets another version only when it is erased. As long as no erased key was written again, the keys that
    can be reached have the version 0: reads and moves of iterators keep it so. *)

Section versions.
Context {P : Type} `{!Store P}.
Implicit Types s : session P.

(** Every key that is not deleted has the version of a new one. *)
Definition fresh s : Prop := forall k e, m_cache s !! k = Some e -> deleted e = false -> version e = 0.
Abbreviation kept m := (triple fresh m (fun _ => fresh) fresh).

Lemma kept_visit {A} (m : M P A) : kept (visit m).
Proof. intros s Hs. unfold visit. by destruct (m (m_parent s)) as [p [a|e]]. Qed.
Lemma kept_cache_of : kept cache_of.
Proof. by intros s. Qed.
Lemma kept_flag (f : value_state -> bool) (k : list Z) : kept (flag f k).
Proof. by intros s. Qed.
Lemma kept_get : kept (get (S := session P)).
Proof. by intros s. Qed.
Lemma kept_lift {A} (r : result A) : kept (lift (S := session P) r).
Proof. intros s Hs. unfold lift. by destruct r. Qed.

Lemma kept_emplace (k : list Z) : kept (emplace k).
Proof.
  intros s Hs. unfold emplace. rewrite bind_eq. change (cache_of s) with (s, Ok (m_cache s)). cbv beta iota. destruct (m_cache s !! k); [done|].
  intros x e. cbn [m_cache]. rewrite lookup_insert_Some. intros [[_ <-]|[_ He]]; [done|by apply (Hs x)].
Qed.

Lemma kept_alter (f : value_state -> value_state) (k : list Z) :
  (forall e, deleted (f e) = deleted e /\ version (f e) = version e) -> kept (modify (alter f k)).
Proof.
  intros Hf s Hs x e. unfold modify, update. cbn [m_cache]. rewrite lookup_alter_Some. intros [(_ & e' & He & ->)|[_ He]]; [|by apply (Hs x)].
  destruct (Hf e') as [-> ->]. by apply (Hs x).
Qed.

(** Goes through an operation; the operations that it calls are left to [auto]. *)
Ltac kept_tac :=
  repeat lazymatch goal with
  | |- triple _ (mbind _ _) _ _ => apply preserve_bind; [|let x := fresh "x" in intros x]
  | |- triple _ (mret _) _ _ => apply preserve_ret
  | |- triple _ (throw _) _ _ => apply preserve_throw
  | |- triple _ (visit _) _ _ => apply kept_visit
  | |- triple _ cache_of _ _ => apply kept_cache_of
  | |- triple _ (flag _ _) _ _ => apply kept_flag
  | |- triple _ get _ _ => apply kept_get
  | |- triple _ (lift _) _ _ => apply kept_lift
  | |- triple _ (emplace _) _ _ => apply kept_emplace
  | |- triple _ (modify (alter _ _)) _ _ => apply kept_alter; done
  | |- triple _ (match ?x with _ => _ end) _ _ => destruct x
  end.

Lemma kept_parent_value (pit : iterator) : kept (parent_value pit).
Proof. unfold parent_value. kept_tac. Qed.
Lemma kept_emplace_from (pit : iterator) : kept (emplace_from pit).
Proof. unfold emplace_from. kept_tac; auto using kept_parent_value. Qed.
Lemma kept_next_key (it : list Z) (pit : iterator) : kept (next_key_ it pit).
Proof. unfold next_key_. cbv zeta. kept_tac; auto using kept_emplace_from. Qed.
Lemma kept_previous_key (it : list Z) (pit pbegin : iterator) : kept (previous_key_ it pit pbegin).
Proof. unfold previous_key_. kept_tac; auto using kept_emplace_from. Qed.
Lemma kept_in_known_order (k : list Z) : kept (in_known_order k).
Proof. unfold in_known_order. kept_tac. Qed.
Lemma kept_update_iterator_cache (k : list Z) : kept (update_iterator_cache_ k).
Proof. unfold update_iterator_cache_. kept_tac; auto using kept_in_known_order, kept_next_key, kept_previous_key. Qed.
Lemma kept_read_parent (k : list Z) : kept (read_parent k).
Proof. unfold read_parent. kept_tac; auto using kept_update_iterator_cache. Qed.
Lemma kept_read (k : list Z) : kept (session_read k).
Proof. unfold session_read. kept_tac; auto using kept_read_parent. Qed.

Lemma kept_first_not_deleted_parent (fuel : nat) (pit : iterator) : kept (first_not_deleted_parent fuel pit).
Proof. revert pit. induction fuel as [|fuel IH]; intros pit; simpl; [by destruct pit; kept_tac|]. kept_tac; auto. Qed.
Lemma kept_lower_bound (k : list Z) : kept (session_lower_bound k).
Proof. unfold session_lower_bound. kept_tac; auto using kept_first_not_deleted_parent, kept_emplace_from. Qed.
Lemma kept_update_next (it : list Z) : kept (update_next it).
Proof. unfold update_next. cbv zeta. kept_tac. Qed.
Lemma kept_update_previous (it : list Z) : kept (update_previous it).
Proof. unfold update_previous. cbv zeta. kept_tac. Qed.
Lemma kept_move (fuel : nat) (test : value_state -> bool) (move : cache_type -> iterator -> iterator) (update_cache : list Z -> M (session P) bool) (it : iterator) :
  (forall k, kept (update_cache k)) -> kept (move_ fuel test move update_cache it).
Proof. intros Hu. revert it. induction fuel as [|fuel IH]; intros it; simpl; [kept_tac|]. kept_tac; auto. Qed.
Lemma kept_move_next (it : iterator) : kept (move_next_ it).
Proof. unfold move_next_. kept_tac; auto using kept_move, kept_update_next. Qed.
Lemma kept_move_previous (it : iterator) : kept (move_previous_ it).
Proof. unfold move_previous_. kept_tac; auto using kept_move, kept_update_previous. Qed.
End versions.

(** What returns and keeps the versions *)
Lemma returns_kept {P : Type} `{!Store P} {A} (m : M (session P) A) (s : session P) (Q : A -> session P -> Prop) :
  triple fresh m (fun _ => fresh) fresh -> returns m s Q -> returns m s (fun a s' => Q a s' /\ (fresh s -> fresh s')).
Proof. intros Hk Hm. unfold wp in *. specialize (Hk s). destruct (m s) as [s' [a|e]]; [|done]. split; [done|]. intros Hs. by apply Hk. Qed.
