(* ===== verification/RocksSession.v ===== *)
(** * The session on the database

    [session<rocksdb_t>] (libraries/chain_kv/include/b1/session/rocks_session.hpp) at the bottom of the sessions: its operations on
    RocksDB, which is a parameter ([RocksDB]) with the documented behaviour of an ordered map of bytes ([RocksLaws]). The pool of iterators
    that are used again is left out: an iterator is where it is positioned. *)

From S2P Require Import Prelude Effects Lex SharedBytes Store.

(** What the session uses of [rocksdb::DB] and [rocksdb::Iterator]; an iterator that is not valid is at no key. *)
Class RocksDB (D : Type) := {
  Get : list Z -> D -> option (list Z);
  Put : list Z -> list Z -> D -> D;
  Delete : list Z -> D -> D;
  Write : list (list Z * list Z) -> D -> D;
  Seek : list Z -> D -> option (list Z);
  SeekToFirst : D -> option (list Z);
  SeekToLast : D -> option (list Z);
  Next : list Z -> D -> option (list Z);
  Prev : list Z -> D -> option (list Z);
  value_at : list Z -> D -> option (list Z)
}.

Class RocksLaws (D : Type) `{RocksDB D} := {
  contents : D -> gmap (list Z) (list Z);
  Get_spec d k : Get k d = contents d !! k;
  Put_spec d k v : contents (Put k v d) = <[k := v]> (contents d);
  Delete_spec d k : contents (Delete k d) = delete k (contents d);
  Write_spec d l : contents (Write l d) = insert_all l (contents d);
  Seek_spec d k : nearest_up (fun x => is_Some (contents d !! x) /\ k ≤ₖ x) (Seek k d);
  SeekToFirst_spec d : nearest_up (fun x => is_Some (contents d !! x)) (SeekToFirst d);
  SeekToLast_spec d : nearest_down (fun x => is_Some (contents d !! x)) (SeekToLast d);
  Next_spec d k : is_Some (contents d !! k) -> nearest_up (fun x => is_Some (contents d !! x) /\ k <ₖ x) (Next k d);
  Prev_spec d k : is_Some (contents d !! k) -> nearest_down (fun x => is_Some (contents d !! x) /\ x <ₖ k) (Prev k d);
  value_at_spec d k : value_at k d = contents d !! k
}.

Record rocks_session (D : Type) := mk_rocks_session { m_db : D }.
Arguments mk_rocks_session {D}.
Arguments m_db {D}.

Section rocks_session.
Context {D : Type} {DB : RocksDB D}.

Definition on_db (f : D -> D) : M (rocks_session D) unit := update (fun s => mk_rocks_session (f (m_db s))).
Definition of_db {A} (f : D -> A) : M (rocks_session D) A := s ← get; mret (f (m_db s)).

Definition rocks_read (key : list Z) : M (rocks_session D) (option (list Z)) := of_db (Get key).
Definition rocks_write (key value : list Z) : M (rocks_session D) unit := on_db (Put key value).
Definition rocks_erase (key : list Z) : M (rocks_session D) unit := on_db (Delete key).

(** The batches *)
Definition rocks_write_all (key_values : list (list Z * list Z)) : M (rocks_session D) unit := on_db (Write key_values).
Definition rocks_erase_all (keys : list (list Z)) : M (rocks_session D) unit := for_each rocks_erase keys.

(** The iterators; [Refresh] leaves one that is not valid. *)
Definition rocks_find (key : list Z) : M (rocks_session D) iterator :=
  it ← of_db (Seek key);
  mret (match it with Some k => if bool_decide (k <> key) then None else it | None => None end).
Definition rocks_begin : M (rocks_session D) iterator := of_db SeekToFirst.
Definition rocks_lower_bound (key : list Z) : M (rocks_session D) iterator := of_db (Seek key).
Definition rocks_incr (it : iterator) : M (rocks_session D) iterator :=
  match it with None => of_db SeekToFirst | Some k => of_db (Next k) end.
Definition rocks_decr (it : iterator) : M (rocks_session D) iterator :=
  match it with None => of_db SeekToLast | Some k => of_db (Prev k) end.
Definition rocks_deref (s : rocks_session D) (it : iterator) : option (list Z) :=
  match it with None => None | Some k => value_at k (m_db s) end.

#[global] Instance rocks_store : Store (rocks_session D) := {
  read := rocks_read;
  find := rocks_find;
  begin := rocks_begin;
  lower_bound := rocks_lower_bound;
  incr := rocks_incr;
  decr := rocks_decr;
  deref := rocks_deref;
  write_all := rocks_write_all;
  erase_all := rocks_erase_all
}.

(** ** The laws *)
Context {DL : RocksLaws D}.

#[global] Instance rocks_model : StoreModel (rocks_session D) := {
  st_map s := contents (m_db s);
  st_below _ := [];
  st_ok s := forall k v, contents (m_db s) !! k = Some v -> k <> [] /\ v <> [];
  st_begin _ := True;
  st_valid s it := forall k, it = Some k -> is_Some (contents (m_db s) !! k)
}.

Lemma insert_all_nonempty (l : list (list Z * list Z)) (m : gmap (list Z) (list Z)) :
  Forall (fun kv => kv.1 <> [] /\ kv.2 <> []) l -> (forall k v, m !! k = Some v -> k <> [] /\ v <> []) ->
  forall k v, insert_all l m !! k = Some v -> k <> [] /\ v <> [].
Proof.
  unfold insert_all. revert m. induction l as [|[k v] l IH]; intros m Hl Hm; [done|]. apply Forall_cons in Hl as [Hkv Hl]. apply IH; [done|].
  intros k' v' [[<- <-]|[_ ?]]%lookup_insert_Some; auto.
Qed.

Lemma rocks_erase_all_ok (l : list (list Z)) (s : rocks_session D) : exists s', rocks_erase_all l s = (s', Ok tt) /\ contents (m_db s') = delete_all l (contents (m_db s)).
Proof.
  unfold rocks_erase_all, delete_all. revert s. induction l as [|k l IH]; intros s; [by exists s|]. cbn [for_each foldl].
  destruct (IH (mk_rocks_session (Delete k (m_db s)))) as (s' & E & C). exists s'. split; [exact E|]. by rewrite C; cbn [m_db]; rewrite Delete_spec.
Qed.

Lemma delete_all_sub (l : list (list Z)) (m : gmap (list Z) (list Z)) (k v : list Z) : delete_all l m !! k = Some v -> m !! k = Some v.
Proof.
  unfold delete_all. revert m. induction l as [|x l IH]; intros m; [done|]. cbn [foldl]. intros H%IH. by apply lookup_delete_Some in H as [_ ?].
Qed.

#[global] Instance rocks_laws : StoreLaws (rocks_session D).
Proof.
  split.
  - intros s k v Hs. apply Hs.
  - by intros s k.
  - intros s [k|] Hs Hv; simpl; [|by split; [|intros [? ?]]]. rewrite value_at_spec. split; [done|]. intros _. by apply Hv.
  - intros s k Hs _. split; [by apply unchanged_refl|apply Get_spec].
  - intros s k Hs _. unfold find, rocks_store, rocks_find. apply wp_bind. split; [by apply unchanged_refl|]. cbn.
    pose proof (Seek_spec (m_db s) k) as Hk. destruct (Seek k (m_db s)) as [x|]; simpl in Hk.
    + destruct Hk as [[Hx Hle] Hk]. case_bool_decide as Hne.
      * split; [done|]. destruct (contents (m_db s) !! k) as [v|] eqn:E; [|done]. exfalso. apply Hne.
        specialize (Hk k). rewrite E in Hk. specialize (Hk ltac:(split; [by eexists|key_order])). key_order.
      * subst x. destruct Hx as [v E]. rewrite E. split; [|done]. intros ? [= <-]. by rewrite E.
    + split; [done|]. destruct (contents (m_db s) !! k) as [v|] eqn:E; [|done]. destruct (Hk k). rewrite E. split; [by eexists|key_order].
  - intros s Hs _. split; [by apply unchanged_refl|]. pose proof (SeekToFirst_spec (m_db s)) as Hk. split; [|done].
    intros k E. simpl in E. rewrite E in Hk. apply Hk.
  - intros s k Hs _. split; [by apply unchanged_refl|]. pose proof (Seek_spec (m_db s) k) as Hk. split; [|done].
    intros x E. simpl in E. rewrite E in Hk. apply Hk.
  - intros s k Hs Hv. split; [by apply unchanged_refl|]. pose proof (Next_spec (m_db s) k (Hv k eq_refl)) as Hk. split; [|done].
    intros x E. simpl in E. rewrite E in Hk. apply Hk.
  - intros s k Hs Hv. split; [by apply unchanged_refl|]. pose proof (Prev_spec (m_db s) k (Hv k eq_refl)) as Hk. split; [|done].
    intros x E. simpl in E. rewrite E in Hk. apply Hk.
  - intros s Hs. split; [by apply unchanged_refl|]. pose proof (SeekToLast_spec (m_db s)) as Hk. split; [|done].
    intros x E. simpl in E. rewrite E in Hk. apply Hk.
  - intros s l Hs Hl. unfold wp. simpl. rewrite Write_spec. split_and!; [by apply insert_all_nonempty|done..].
  - intros s l Hs Hl. unfold wp. simpl. destruct (rocks_erase_all_ok l s) as (s' & -> & C). simpl. rewrite C. split_and!; [|done|done].
    intros k v H%delete_all_sub. by apply Hs.
Qed.
End rocks_session.

(** ** A database that is a map *)
Module MapDB.
#[global] Instance map_db : RocksDB (gmap (list Z) (list Z)) := {
  Get k d := d !! k;
  Put k v d := <[k := v]> d;
  Delete k d := delete k d;
  Write := insert_all;
  Seek k d := key_from d k;
  SeekToFirst := key_first;
  SeekToLast := key_last;
  Next k d := key_after d k;
  Prev k d := key_before d k;
  value_at k d := d !! k
}.
#[global] Instance map_db_laws : RocksLaws (gmap (list Z) (list Z)).
Proof.
  refine {| contents := fun d => d |}; intros d; try done.
  - apply key_from_spec.
  - apply key_first_spec.
  - apply key_last_spec.
  - intros k _. apply key_after_spec.
  - intros k _. apply key_before_spec.
Defined.
End MapDB.
