(* ===== verification/UndoStack.v ===== *)
(** * The stack of sessions

    [undo_stack] (libraries/chain_kv/include/b1/session/undo_stack.hpp): sessions on top of each other over the session on the database, with
    a revision for each. A stack implements a stack of maps: [push] puts a copy of the top map on it, [squash] replaces the two top
    maps by the top one, [undo] drops the top one, and [commit] drops the maps below a revision.

    The deque is a list with the top session first; the pointer from a session to its parent is the nesting of [build]. *)

From S2P Require Import Prelude Effects Lex SharedBytes Store Session SessionProofs SessionIterators SessionStore.

Section levels.
Context (R : Type).

(** [n] sessions on top of each other *)
Fixpoint level (n : nat) : Type := match n with O => R | S n => session (level n) end.

Context {SR : Store R}.
#[global] Instance level_store : forall n, Store (level n) :=
  fix store n := match n with O => SR | S n => @session_store (level n) (store n) end.

(** The sessions with their caches, over the head *)
Fixpoint build (head : R) (l : list cache_type) : level (length l) :=
  match l with [] => head | c :: l => mk_session c (build head l) end.
Fixpoint head_of (n : nat) : level n -> R := match n with O => fun s => s | S n => fun s => head_of n (m_parent s) end.
Fixpoint caches_of (n : nat) : level n -> list cache_type := match n with O => fun _ => [] | S n => fun s => m_cache s :: caches_of n (m_parent s) end.
End levels.
Arguments build {R}.
Arguments head_of {R n}.
Arguments caches_of {R n}.

Record undo_stack (R : Type) := mk_undo_stack {
  m_revision : Z;
  m_head : R;
  m_sessions : list cache_type
}.
Arguments mk_undo_stack {R}.
Arguments m_revision {R}.
Arguments m_head {R}.
Arguments m_sessions {R}.

Section undo_stack.
Context {R : Type} {SR : Store R}.

Definition set_revision (r : Z) : M (undo_stack R) unit := update (fun st => mk_undo_stack r (m_head st) (m_sessions st)).

(** An operation of a session; those above it, [upper], keep their caches. *)
Definition on_level {A} (n : nat) (m : M (level R n) A) (s : level R n) (upper : list cache_type) : M (undo_stack R) A := fun st =>
  let (s', r) := m s in (mk_undo_stack (m_revision st) (head_of s') (upper ++ caches_of s'), r).

(** An operation on the top of the stack: a session, or the head *)
Definition on_top {A} (m : forall n, M (level R n) A) : M (undo_stack R) A := fun st =>
  on_level (length (m_sessions st)) (m _) (build (m_head st) (m_sessions st)) [] st.

(** [m_sessions.emplace_back( *m_head )], [m_sessions.emplace_back( m_sessions.back(), nullptr )] *)
Definition emplace_back : M (undo_stack R) unit := fun st =>
  on_level (S (length (m_sessions st))) attach (mk_session ∅ (build (m_head st) (m_sessions st))) [] st.

Definition push : M (undo_stack R) unit :=
  _ ← emplace_back;
  st ← get;
  set_revision (m_revision st + 1).

(** [m_sessions[i].commit()]: the session with [i] sessions below it *)
Definition commit_session (i : nat) : M (undo_stack R) unit := fun st =>
  let upper := take (length (m_sessions st) - S i) (m_sessions st) in
  match drop (length (m_sessions st) - S i) (m_sessions st) with
  | [] => (st, Throw undefined_behaviour)
  | c :: lower => on_level (S (length lower)) commit (mk_session c (build (m_head st) lower)) upper st
  end.

(** [m_sessions.pop_back()] of a session that was detached, so that its destructor commits nothing *)
Definition pop_back : M (undo_stack R) unit := update (fun st => mk_undo_stack (m_revision st) (m_head st) (tail (m_sessions st))).

Definition squash : M (undo_stack R) unit :=
  st ← get;
  if bool_decide (m_sessions st = []) then mret tt else
  _ ← commit_session (length (m_sessions st) - 1);
  _ ← pop_back;
  set_revision (m_revision st - 1).

Definition undo : M (undo_stack R) unit :=
  st ← get;
  if bool_decide (m_sessions st = []) then mret tt else
  _ ← pop_back;
  set_revision (m_revision st - 1).

(** [for (int64_t i = start_index; i >= 0; --i) { m_sessions[i].commit(); }] *)
Fixpoint commit_down (n : nat) : M (undo_stack R) unit :=
  match n with
  | O => mret tt
  | S i => _ ← commit_session i; commit_down i
  end.

(** [m_sessions.front().attach( *m_head )] *)
Definition attach_front : M (undo_stack R) unit := fun st =>
  match last (m_sessions st) with
  | None => (st, Throw undefined_behaviour)
  | Some c => on_level 1 attach (mk_session c (m_head st) : level R 1) (removelast (m_sessions st)) st
  end.

Definition commit_revision (revision : Z) : M (undo_stack R) unit :=
  st ← get;
  if bool_decide (m_sessions st = []) then mret tt else
  let revision := Z.min revision (m_revision st) in
  let initial_revision := i64 (m_revision st - Z.of_nat (length (m_sessions st)) + 1) in
  if bool_decide (revision < initial_revision) then mret tt else
  let start_index := revision - initial_revision in
  _ ← commit_down (Z.to_nat (start_index + 1));
  _ ← update (fun st => mk_undo_stack (m_revision st) (m_head st) (take (length (m_sessions st) - Z.to_nat (start_index + 1)) (m_sessions st)));
  st ← get;
  if bool_decide (m_sessions st = []) then mret tt else attach_front.

Definition empty (st : undo_stack R) : bool := bool_decide (m_sessions st = []).
Definition stack_size (st : undo_stack R) : Z := Z.of_nat (length (m_sessions st)).
Definition revision (st : undo_stack R) : Z := m_revision st.
(** [revision( revision )] *)
Definition raise_revision (revision : Z) : M (undo_stack R) unit :=
  st ← get;
  if negb (empty st) then mret tt else
  if bool_decide (revision <= m_revision st) then mret tt else set_revision revision.
End undo_stack.

(** ** Runs *)
Inductive stack_op :=
  | op_push
  | op_squash
  | op_undo
  | op_commit (revision : Z)
  | op_write (key value : list Z)
  | op_erase (key : list Z)
  | op_read (key : list Z)
  | op_lower_bound (key : list Z).

Section runs.
Context {R : Type} {SR : Store R}.

(** An operation of the stack, or of its top *)
Definition step (o : stack_op) : M (undo_stack R) (option (list Z)) :=
  match o with
  | op_push => _ ← push; mret None
  | op_squash => _ ← squash; mret None
  | op_undo => _ ← undo; mret None
  | op_commit r => _ ← commit_revision r; mret None
  | op_write k v => _ ← on_top (fun n => write_all [(k, v)]); mret None
  | op_erase k => _ ← on_top (fun n => erase_all [k]); mret None
  | op_read k => on_top (fun n => read k)
  | op_lower_bound k => on_top (fun n => lower_bound k)
  end.

Fixpoint run (os : list stack_op) : M (undo_stack R) (list (option (list Z))) :=
  match os with
  | [] => mret []
  | o :: os => r ← step o; rs ← run os; mret (r :: rs)
  end.
End runs.

(** The stack of maps, the top one first, and the revision of the top *)
Definition abstract_step (o : stack_op) (a : Z * list kmap) : (Z * list kmap) * option (list Z) :=
  let '(rev, ms) := a in
  let top := hd ∅ ms in
  match o with
  | op_push => ((rev + 1, top :: ms), None)
  | op_squash => (if bool_decide (length ms <= 1)%nat then (rev, ms) else (rev - 1, top :: drop 2 ms), None)
  | op_undo => (if bool_decide (length ms <= 1)%nat then (rev, ms) else (rev - 1, tail ms), None)
  | op_commit r => ((rev, take (Z.to_nat (rev - Z.min r rev + 1)) ms), None)
  | op_write k v => ((rev, <[k := v]> top :: tail ms), None)
  | op_erase k => ((rev, delete k top :: tail ms), None)
  | op_read k => ((rev, ms), top !! k)
  | op_lower_bound k => ((rev, ms), key_from top k)
  end.
Fixpoint abstract_run (os : list stack_op) (a : Z * list kmap) : (Z * list kmap) * list (option (list Z)) :=
  match os with
  | [] => (a, [])
  | o :: os => let '(a, r) := abstract_step o a in let '(a, rs) := abstract_run os a in (a, r :: rs)
  end.

(** The operations that are covered: keys are not empty, and written values are not empty, since a read takes an empty value for
    one that is missing. *)
Definition op_ok (o : stack_op) : Prop :=
  match o with
  | op_write k v => k <> [] /\ v <> []
  | op_erase k | op_read k | op_lower_bound k => k <> []
  | _ => True
  end.

(** ** Stacks of maps *)

(** The store at the bottom can always be the parent of a session. *)
Class Bottom (R : Type) `{StoreModel R} := {
  bottom_first (h : R) : st_ok h -> st_begin h;
  bottom_below (h : R) : st_below h = []
}.

Section refinement.
Context {R : Type} {SR : Store R} {MR : StoreModel R} {LR : StoreLaws R} {BR : Bottom R}.
Implicit Types st : undo_stack R.

#[global] Instance level_model : forall n, StoreModel (level R n) :=
  fix model n := match n with O => MR | S n => @session_model (level R n) (level_store R n) (model n) end.
#[global] Instance level_laws : forall n, StoreLaws (level R n).
Proof. induction n as [|n IH]; [exact LR|]. exact (@session_laws (level R n) (level_store R n) (level_model n) IH). Qed.

(** The maps, from the top down to that of the head *)
Definition maps {n} (s : level R n) : list kmap := st_map s :: st_below s.
Definition stack_maps st : list kmap := maps (build (m_head st) (m_sessions st)).
Definition stack_ok st : Prop := st_ok (build (m_head st) (m_sessions st)).
(** The top of the stack can be the parent of a session. *)
Definition stack_first st : Prop := st_begin (build (m_head st) (m_sessions st)).

(** A store and what is left of it in the stack *)
Lemma rebuild n (s : level R n) : let s' := build (head_of s) (caches_of s) in
  st_map s' = st_map s /\ st_below s' = st_below s /\ (st_ok s -> st_ok s') /\ (st_begin s -> st_begin s').
Proof.
  induction n as [|n IH]; [done|]. destruct s as [c p]. cbn. destruct (IH p) as (H1 & H2 & H3 & H4). cbn zeta in *. split_and!.
  - unfold session_map. cbn. by rewrite H1.
  - by rewrite H1, H2.
  - intros [(P1 & P2 & _) Hc]. split; cbn in *; [|by rewrite H1]. by apply parent_ok_refl; auto.
  - intros [H|H]; [left; exact H|right]. unfold session_map in *. cbn in *. by rewrite H1.
Qed.

Lemma length_caches n (s : level R n) : length (caches_of s) = n.
Proof. induction n as [|n IH]; [done|]. cbn. by rewrite IH. Qed.
Lemma head_of_build (h : R) (l : list cache_type) : head_of (build h l) = h.
Proof. induction l as [|c l IH]; [done|]. exact IH. Qed.
Lemma caches_of_build (h : R) (l : list cache_type) : caches_of (build h l) = l.
Proof. induction l as [|c l IH]; [done|]. cbn. by rewrite IH. Qed.

(** The maps of sessions over a store with the map [m] *)
Fixpoint upper_maps (l : list cache_type) (m : kmap) : list kmap :=
  match l with [] => [] | c :: l => view c (hd m (upper_maps l m)) :: upper_maps l m end.

Lemma maps_app (h : R) (u l : list cache_type) : maps (build h (u ++ l)) = upper_maps u (st_map (build h l)) ++ maps (build h l).
Proof.
  induction u as [|c u IH]; [done|]. set (m := st_map (build h l)) in *.
  assert (Hhd : st_map (build h (u ++ l)) = hd m (upper_maps u m)) by (unfold maps in IH; destruct (upper_maps u m); by injection IH as -> _).
  change (maps (build h ((c :: u) ++ l))) with (view c (st_map (build h (u ++ l))) :: maps (build h (u ++ l))). by rewrite IH, Hhd.
Qed.

(** Sessions over a store that is replaced by one with the same map *)
Lemma swap_lower (h h' : R) (u l l' : list cache_type) :
  st_ok (build h (u ++ l)) -> st_ok (build h' l') -> st_map (build h' l') = st_map (build h l) -> (st_begin (build h l) -> st_begin (build h' l')) ->
  st_ok (build h' (u ++ l')) /\ (st_begin (build h (u ++ l)) -> st_begin (build h' (u ++ l'))) /\ st_map (build h' (u ++ l')) = st_map (build h (u ++ l)).
Proof.
  intros Hu Hl' Hm Hb. induction u as [|c u IH]; [done|]. destruct Hu as [(P1 & P2 & _) Hc]. cbn [m_parent m_cache build app] in P1, P2, Hc.
  destruct (IH P1) as (H1 & H2 & H3). assert (Em : st_map (build h' ((c :: u) ++ l')) = st_map (build h ((c :: u) ++ l))).
  { change (view c (st_map (build h' (u ++ l'))) = view c (st_map (build h (u ++ l)))). by rewrite H3. }
  split_and!; [|intros [H|H]; [by left|right; etransitivity; [exact Em|exact H]]|done]. split; cbn [m_parent m_cache build app]; [by apply parent_ok_refl; auto|by rewrite H3].
Qed.

(** ** The operations *)
Lemma on_level_returns {A} n (m : M (level R n) A) (s : level R n) (u : list cache_type) st (Q : A -> level R n -> Prop) (Q' : A -> undo_stack R -> Prop) :
  returns m s Q -> (forall a s', Q a s' -> Q' a (mk_undo_stack (m_revision st) (head_of s') (u ++ caches_of s'))) -> returns (on_level n m s u) st Q'.
Proof. unfold wp, on_level. intros Hm HQ. destruct (m s) as [s' [a|e]]; [by apply HQ|done]. Qed.

(** The top of the stack is read or written. *)
Lemma stack_rebuild (r : Z) n (s : level R n) : st_ok s ->
  let st := mk_undo_stack r (head_of s) (caches_of s) in stack_ok st /\ stack_maps st = maps s /\ (st_begin s -> stack_first st).
Proof. intros Hs. destruct (rebuild n s) as (H1 & H2 & H3 & H4). cbn zeta in *. unfold stack_ok, stack_maps, stack_first, maps. cbn. rewrite H1, H2. auto. Qed.

Lemma push_ok st : stack_ok st -> stack_first st -> returns push st (fun _ st' =>
  stack_ok st' /\ stack_first st' /\ stack_maps st' = hd ∅ (stack_maps st) :: stack_maps st /\
  m_revision st' = m_revision st + 1 /\ length (m_sessions st') = S (length (m_sessions st))).
Proof.
  intros Hs Hb. unfold push. eapply (wp_seq _ _ _ (fun _ st1 => stack_ok st1 /\ stack_first st1 /\ stack_maps st1 = hd ∅ (stack_maps st) :: stack_maps st /\
    m_revision st1 = m_revision st /\ length (m_sessions st1) = S (length (m_sessions st)))).
  - unfold emplace_back, wp. eapply (on_level_returns (S _) attach); [by apply new_session_ok|]. intros [] s (H1 & H2 & H3 & U).
    destruct (stack_rebuild (m_revision st) (S _) s H1) as (A1 & A2 & A3). cbn [app]. split_and!; [exact A1|by apply A3| |done|].
    + etransitivity; [exact A2|]. destruct U as (_ & U1 & U2 & _). change (maps s) with (session_map s :: st_map (m_parent s) :: st_below (m_parent s)).
      by rewrite H2, U1, U2.
    + cbn [m_sessions]. by rewrite length_caches.
  - intros _ st1 (H1 & H2 & H3 & H4 & H5). apply wp_get, wp_update. cbn [m_revision m_sessions]. by rewrite H4.
Qed.

Lemma commit_session_ok (i : nat) st (u : list cache_type) (c : cache_type) (l : list cache_type) :
  i = length l -> m_sessions st = u ++ c :: l -> st_ok (build (m_head st) (c :: l)) ->
  returns (commit_session i) st (fun _ st' => m_revision st' = m_revision st /\ exists l', m_sessions st' = u ++ ∅ :: l' /\ length l' = length l /\
    st_ok (build (m_head st') l') /\ st_map (build (m_head st') l') = st_map (build (m_head st) (c :: l)) /\
    st_below (build (m_head st') l') = st_below (build (m_head st) l) /\ (updates c <> [] \/ deletes c = [] -> st_begin (build (m_head st') l'))).
Proof.
  intros -> El Hs. unfold commit_session, wp. rewrite El, length_app. cbn [length]. replace (length u + S (length l) - S (length l))%nat with (length u) by lia.
  rewrite take_app_length, drop_app_length. eapply (on_level_returns (S _) commit); [by apply commit_ok|]. intros [] s (H1 & H2 & H3 & H4 & H5).
  cbn [m_revision m_sessions m_head]. split; [done|]. destruct (rebuild _ (m_parent s)) as (E1 & E2 & E3 & E4). exists (caches_of (m_parent s)).
  cbn zeta in *. split_and!; [|by rewrite length_caches|by apply E3| | |].
  - change (caches_of s) with (m_cache s :: caches_of (m_parent s)). by rewrite H1.
  - etransitivity; [exact E1|]. exact H3.
  - etransitivity; [exact E2|]. exact H4.
  - intros H. by apply E4, H5.
Qed.

Lemma squash_ok st (c : cache_type) (l : list cache_type) : stack_ok st -> m_sessions st = c :: l ->
  returns squash st (fun _ st' => stack_ok st' /\ stack_maps st' = hd ∅ (stack_maps st) :: drop 2 (stack_maps st) /\
    m_revision st' = m_revision st - 1 /\ length (m_sessions st') = length l /\ (updates c <> [] \/ deletes c = [] -> stack_first st')).
Proof.
  intros Hs El. unfold squash. apply wp_get. rewrite El, bool_decide_false by done. cbn [length]. rewrite Nat.sub_1_r. cbn [Nat.pred].
  unfold stack_ok, stack_maps in *. rewrite El in *. eapply wp_seq; [by apply (commit_session_ok _ st [] c l)|].
  intros _ st1 (_ & l' & E1 & E2 & H1 & H2 & H3 & H4). unfold pop_back, set_revision. apply wp_bind, wp_update, wp_update. cbn [m_head m_sessions m_revision].
  rewrite E1. cbn [app tail]. split_and!; [done| |done|done|done]. unfold maps. rewrite H2, H3. done.
Qed.

Lemma undo_ok st (c : cache_type) (l : list cache_type) : stack_ok st -> m_sessions st = c :: l ->
  returns undo st (fun _ st' => stack_ok st' /\ stack_first st' /\ stack_maps st' = tail (stack_maps st) /\ m_revision st' = m_revision st - 1 /\ m_sessions st' = l).
Proof.
  intros Hs El. unfold undo. apply wp_get. rewrite El, bool_decide_false by done. unfold pop_back, set_revision. apply wp_bind, wp_update, wp_update.
  unfold stack_ok, stack_first, stack_maps in *. cbn [m_head m_sessions m_revision]. rewrite El in *. cbn [tail]. destruct Hs as [(P1 & P2 & _) _]. by split_and!.
Qed.

Lemma commit_down_ok (n : nat) st (u l : list cache_type) :
  n = length l -> m_sessions st = u ++ l -> st_ok (build (m_head st) l) ->
  returns (commit_down n) st (fun _ st' => m_revision st' = m_revision st /\ st_ok (m_head st') /\ st_map (m_head st') = st_map (build (m_head st) l) /\
    exists l', m_sessions st' = u ++ l' /\ length l' = n).
Proof.
  revert st u l. induction n as [|n IH]; intros st u l En El Hs; destruct l as [|c l]; try done; cbn [commit_down].
  - apply wp_ret. split_and!; [done|exact Hs|done|]. by exists [].
  - cbn in En. injection En as En. eapply wp_seq; [by apply (commit_session_ok _ st u c l)|]. intros _ st1 (E0 & l1 & E1 & E2 & H1 & H2 & _).
    eapply wp_mono; [apply (IH st1 (u ++ [∅]) l1); [congruence|by rewrite <- app_assoc|done]|]. intros _ st2 (E3 & H3 & H4 & l2 & E4 & E5).
    split_and!; [congruence|done|by rewrite H4, H2|]. exists (∅ :: l2). split; [by rewrite E4, <- app_assoc|cbn; lia].
Qed.

Lemma lower_ok (h : R) (u l : list cache_type) : st_ok (build h (u ++ l)) -> st_ok (build h l).
Proof. induction u as [|c u IH]; [done|]. intros [(P1 & _) _]. by apply IH. Qed.
Lemma length_maps (h : R) (l : list cache_type) : length (maps (build h l)) = S (length l).
Proof.
  induction l as [|c l IH]; [unfold maps; cbn; by rewrite bottom_below|].
  change (maps (build h (c :: l))) with (view c (st_map (build h l)) :: maps (build h l)). cbn [length]. by rewrite IH.
Qed.
Lemma length_upper_maps (u : list cache_type) (m : kmap) : length (upper_maps u m) = length u.
Proof. induction u as [|c u IH]; [done|]. cbn. by rewrite IH. Qed.

(** The sessions above stay, on a head that has taken over the map of those below. *)
Lemma rebase_ok (h h' : R) (u l : list cache_type) :
  st_ok (build h (u ++ l)) -> st_ok h' -> st_map h' = st_map (build h l) ->
  st_ok (build h' u) /\ (st_begin (build h (u ++ l)) -> st_begin (build h' u)) /\ maps (build h' u) = take (S (length u)) (maps (build h (u ++ l))).
Proof.
  intros Hs Hh Hm. destruct (swap_lower h h' u l [] Hs Hh Hm) as (H1 & H2 & _); [intros _; by apply bottom_first|]. rewrite app_nil_r in H1, H2.
  split_and!; [done|done|]. pose proof (maps_app h' u []) as Ha. rewrite app_nil_r in Ha. rewrite Ha, maps_app.
  change (st_map (build h' [])) with (st_map h'). rewrite Hm. rewrite take_app_ge by (rewrite length_upper_maps; lia).
  rewrite length_upper_maps. replace (S (length u) - length u)%nat with 1%nat by lia. f_equal.
  change (maps (build h' [])) with (st_map h' :: st_below h'). by rewrite bottom_below, Hm.
Qed.

Lemma attach_front_ok st : stack_ok st -> m_sessions st <> [] -> returns attach_front st (fun _ st' =>
  stack_ok st' /\ (stack_first st -> stack_first st') /\ stack_maps st' = stack_maps st /\ m_revision st' = m_revision st /\ length (m_sessions st') = length (m_sessions st)).
Proof.
  intros Hs Hne. destruct (exists_last Hne) as (u & c & El). unfold stack_ok, stack_first, stack_maps, attach_front, wp in *.
  rewrite El, last_snoc, removelast_last. rewrite El in Hs. pose proof (lower_ok _ u [c] Hs) as Hl.
  eapply (on_level_returns 1 attach); [exact (attach_ok (P := R) _ Hl)|]. intros [] s [U UP]. cbn [m_head m_sessions m_revision].
  change (caches_of s) with [m_cache s]. change (head_of s) with (m_parent s). destruct s as [c' h']. cbn [m_cache m_parent] in *.
  destruct U as (U1 & U2 & U3 & U4 & _). destruct (swap_lower (m_head st) h' u [c] [c'] Hs U1 U2 U4) as (H1 & H2 & H3).
  split_and!; [done|done| |done|by rewrite !length_app]. rewrite !maps_app. f_equal; [apply (f_equal (upper_maps u)); exact U2|]. unfold maps.
  f_equal; [exact U2|exact U3].
Qed.

Lemma commit_revision_ok (rev : Z) st :
  stack_ok st -> 0 <= m_revision st - Z.of_nat (length (m_sessions st)) -> m_revision st < 2 ^ 63 - 1 ->
  returns (commit_revision rev) st (fun _ st' => stack_ok st' /\ (stack_first st -> stack_first st') /\ m_revision st' = m_revision st /\
    (length (m_sessions st') <= length (m_sessions st))%nat /\
    stack_maps st' = take (Z.to_nat (m_revision st - Z.min rev (m_revision st) + 1)) (stack_maps st)).
Proof.
  intros Hs H0 H63. unfold commit_revision. apply wp_get. set (n := length (m_sessions st)) in *. set (r := Z.min rev (m_revision st)).
  assert (Hr : r <= m_revision st) by (subst r; lia). assert (Hn : length (stack_maps st) = S n) by apply length_maps.
  case_bool_decide as Hem.
  { apply wp_ret. split_and!; [done..|lia|]. rewrite take_ge; [done|]. rewrite Hn. unfold n. rewrite Hem. cbn [length]. lia. }
  assert (Ei : i64 (m_revision st - Z.of_nat n + 1) = m_revision st - Z.of_nat n + 1).
  { unfold swrap. rewrite Z.mod_small by lia. rewrite (proj2 (Z.ltb_lt _ _)) by lia. done. }
  cbv zeta. rewrite Ei. case_bool_decide as Hlt.
  { apply wp_ret. split_and!; [done..|lia|]. rewrite take_ge; [done|]. rewrite Hn. lia. }
  set (k := Z.to_nat (r - (m_revision st - Z.of_nat n + 1) + 1)). set (u := take (n - k) (m_sessions st)). set (l := drop (n - k) (m_sessions st)).
  assert (El : m_sessions st = u ++ l) by (symmetry; apply take_drop).
  assert (Lu : length u = (n - k)%nat) by (unfold u; rewrite length_take; fold n; lia).
  assert (Ll : length l = k) by (unfold l; rewrite length_drop; fold n; lia).
  assert (Hs' : st_ok (build (m_head st) (u ++ l))) by (unfold stack_ok in Hs; by rewrite <- El).
  eapply wp_seq; [apply (commit_down_ok k st u l); [done|done|by eapply lower_ok]|]. intros _ st1 (E1 & H1 & H2 & l1 & E2 & E3).
  apply wp_bind, wp_update, wp_get. cbn [m_sessions m_head m_revision]. rewrite E2, length_app, E3. replace (length u + k - k)%nat with (length u) by lia.
  rewrite take_app_length. destruct (rebase_ok (m_head st) (m_head st1) u l Hs' H1 H2) as (A1 & A2 & A3).
  assert (Hfin : forall st', stack_maps st' = maps (build (m_head st1) u) -> stack_maps st' = take (Z.to_nat (m_revision st - r + 1)) (stack_maps st)).
  { intros st' ->. rewrite A3. unfold stack_maps. rewrite El. f_equal. lia. }
  assert (Hb : stack_first st -> st_begin (build (m_head st1) u)) by (unfold stack_first; rewrite El; exact A2).
  case_bool_decide as Hu.
  - apply wp_ret. unfold stack_ok, stack_first. cbn [m_sessions m_head m_revision]. split_and!; [done|done|done|lia|by apply Hfin].
  - eapply wp_mono; [apply attach_front_ok; [exact A1|exact Hu]|]. cbn [m_sessions m_head m_revision]. intros _ st2 (B1 & B2 & B3 & B4 & B5).
    split_and!; [done|intros H; by apply B2, Hb|congruence|lia|by apply Hfin].
Qed.

(** ** Refinement *)
Lemma on_top_ok {A} (m : forall n, M (level R n) A) st (Q : A -> level R (length (m_sessions st)) -> Prop) :
  returns (m _) (build (m_head st) (m_sessions st)) (fun a s => st_ok s /\ Q a s) ->
  returns (on_top m) st (fun a st' => stack_ok st' /\ m_revision st' = m_revision st /\ length (m_sessions st') = length (m_sessions st) /\
    exists s, Q a s /\ stack_maps st' = maps s).
Proof.
  intros Hm. unfold on_top, wp. eapply on_level_returns; [exact Hm|]. intros a s [Hs HQ]. cbn [app m_revision m_sessions].
  destruct (stack_rebuild (m_revision st) _ s Hs) as (A1 & A2 & _). split_and!; [exact A1|done|by rewrite length_caches|by exists s].
Qed.

Definition revision_ok (k : Z) st : Prop := 0 <= m_revision st - Z.of_nat (length (m_sessions st)) /\ m_revision st + k < 2 ^ 63 - 1.

Lemma stack_maps_eq st : stack_maps st = st_map (build (m_head st) (m_sessions st)) :: st_below (build (m_head st) (m_sessions st)).
Proof. done. Qed.
Lemma length_stack_maps st : length (stack_maps st) = S (length (m_sessions st)).
Proof. apply length_maps. Qed.

(** What a step leaves *)
Definition refined (o : stack_op) (k : Z) st (r : option (list Z)) st' : Prop :=
  stack_ok st' /\ revision_ok k st' /\ abstract_step o (m_revision st, stack_maps st) = ((m_revision st', stack_maps st'), r).

Lemma stack_squash_refines (k : Z) st : 0 <= k -> stack_ok st -> revision_ok (k + 1) st -> returns (step op_squash) st (refined op_squash k st).
Proof.
  intros Hk Hs Hr. unfold refined, revision_ok in *. pose proof (length_stack_maps st) as Hl. cbn [step abstract_step]. destruct (m_sessions st) as [|c l] eqn:El; cbn [length] in Hl, Hr.
  - unfold squash. apply wp_bind, wp_get. rewrite El, bool_decide_true by done. apply wp_ret, wp_ret. rewrite bool_decide_true, El by lia.
    split_and!; [done|cbn [length]; lia|lia|done].
  - eapply wp_seq; [by apply (squash_ok st c l)|]. intros _ st' (H1 & H2 & H3 & H4 & _). apply wp_ret. rewrite bool_decide_false by lia.
    split_and!; [done|lia|lia|by rewrite H3, H2].
Qed.
Lemma stack_undo_refines (k : Z) st : 0 <= k -> stack_ok st -> revision_ok (k + 1) st -> returns (step op_undo) st (refined op_undo k st).
Proof.
  intros Hk Hs Hr. unfold refined, revision_ok in *. pose proof (length_stack_maps st) as Hl. cbn [step abstract_step]. destruct (m_sessions st) as [|c l] eqn:El; cbn [length] in Hl, Hr.
  - unfold undo. apply wp_bind, wp_get. rewrite El, bool_decide_true by done. apply wp_ret, wp_ret. rewrite bool_decide_true, El by lia.
    split_and!; [done|cbn [length]; lia|lia|done].
  - eapply wp_seq; [by apply (undo_ok st c l)|]. intros _ st' (H1 & _ & H2 & H3 & H4). apply wp_ret. rewrite bool_decide_false by lia.
    split_and!; [done|rewrite H4; lia|lia|by rewrite H3, H2].
Qed.
Lemma read_refines (k : Z) (key : list Z) st :
  0 <= k -> stack_ok st -> revision_ok (k + 1) st -> key <> [] -> returns (step (op_read key)) st (refined (op_read key) k st).
Proof.
  intros Hk Hs [Hr1 Hr2] Hkey. cbn [step]. eapply wp_mono.
  - apply (on_top_ok (fun n => read key)). eapply wp_mono; [by apply st_read|]. intros v s (U & Ev). split; [apply U|]. exact (conj U Ev).
  - intros v st' (H1 & H2 & H3 & s & ((_ & H4 & H5 & _) & ->) & H6). split_and!; [done|unfold revision_ok; lia|]. cbn [abstract_step].
    rewrite H2, H6. unfold maps. by rewrite H4, H5.
Qed.
Lemma lower_bound_refines (k : Z) (key : list Z) st :
  0 <= k -> stack_ok st -> revision_ok (k + 1) st -> key <> [] -> returns (step (op_lower_bound key)) st (refined (op_lower_bound key) k st).
Proof.
  intros Hk Hs [Hr1 Hr2] Hkey. cbn [step]. eapply wp_mono.
  - apply (on_top_ok (fun n => lower_bound key)). eapply wp_mono; [by apply st_lower_bound|]. intros it s (U & _ & N). split; [apply U|]. exact (conj U N).
  - intros it st' (H1 & H2 & H3 & s & ((_ & H4 & H5 & _) & N) & H6). split_and!; [done|unfold revision_ok; lia|]. cbn [abstract_step].
    rewrite H2, H6. unfold maps. rewrite H4, H5, stack_maps_eq. cbn [hd]. f_equal. eapply nearest_up_unique; [|exact N|apply key_from_spec]. done.
Qed.

Lemma step_refines (o : stack_op) (k : Z) st :
  0 <= k -> stack_ok st -> revision_ok (k + 1) st -> op_ok o -> (o = op_push -> stack_first st) -> returns (step o) st (refined o k st).
Proof.
  intros Hk Hs Hr Ho Hpush. destruct o as [| | |r|key v|key|key|key]; cbn [op_ok] in Ho.
  - eapply wp_seq; [by apply push_ok; auto|]. intros _ st' (H1 & _ & H2 & H3 & H4). destruct Hr. apply wp_ret. split_and!; [done|unfold revision_ok; lia|].
    cbn. by rewrite H3, H2.
  - by apply stack_squash_refines.
  - by apply stack_undo_refines.
  - destruct Hr. eapply wp_seq; [apply (commit_revision_ok r st); [done|done|lia]|]. intros _ st' (H1 & _ & H3 & H4 & H5). apply wp_ret.
    split_and!; [done|unfold revision_ok; lia|]. cbn [abstract_step]. by rewrite H3, H5.
  - eapply wp_seq; [apply (on_top_ok (fun n => write_all [(key, v)])); apply st_write; [done|by constructor]|].
    intros [] st' (H1 & H2 & H3 & s & (H4 & H5 & _) & H6). destruct Hr. apply wp_ret. split_and!; [done|unfold revision_ok; lia|]. cbn [abstract_step].
    rewrite H2, H6. unfold maps. by rewrite H4, H5.
  - eapply wp_seq; [apply (on_top_ok (fun n => erase_all [key])); apply st_erase; [done|by constructor]|].
    intros [] st' (H1 & H2 & H3 & s & (H4 & H5) & H6). destruct Hr. apply wp_ret. split_and!; [done|unfold revision_ok; lia|]. cbn [abstract_step].
    rewrite H2, H6. unfold maps. by rewrite H4, H5.
  - by apply read_refines.
  - by apply lower_bound_refines.
Qed.

(** Every [push] of a run finds the top of the stack with a key in its cache that is not deleted, or empty. *)
Fixpoint pushes_ok (os : list stack_op) st : Prop :=
  match os with
  | [] => True
  | o :: os => (o = op_push -> stack_first st) /\ match step o st with (st', Ok _) => pushes_ok os st' | (_, Throw _) => False end
  end.

(** A test of this: the top of the stack is the head, or has a key that is not deleted. *)
Definition top_first st : bool :=
  match m_sessions st with [] => true | c :: _ => existsb (fun kv => negb (deleted kv.2)) (map_to_list c) end.
Fixpoint pushes_test (os : list stack_op) st : bool :=
  match os with
  | [] => true
  | o :: os => match o with op_push => top_first st | _ => true end && match step o st with (st', Ok _) => pushes_test os st' | (_, Throw _) => false end
  end.

Lemma top_first_ok st : stack_ok st -> top_first st = true -> stack_first st.
Proof.
  unfold stack_ok, top_first, stack_first. destruct (m_sessions st) as [|c l]; intros Hs; [intros _; by apply bottom_first|].
  intros ([k e] & Hin & Hd)%existsb_exists. left. exists k, e. cbn in *. split; [by apply elem_of_map_to_list, list_elem_of_In|by apply negb_true_iff in Hd].
Qed.

Lemma pushes_test_ok (os : list stack_op) st :
  stack_ok st -> revision_ok (Z.of_nat (length os)) st -> Forall op_ok os -> pushes_test os st = true -> pushes_ok os st.
Proof.
  revert st. induction os as [|o os IH]; intros st Hs Hr Ho Ht; [done|]. cbn [pushes_test] in Ht. apply andb_true_iff in Ht as [Ht1 Ht].
  apply Forall_cons in Ho as [Ho1 Ho]. cbn [length] in Hr. rewrite Nat2Z.inj_succ in Hr.
  assert (Hp : o = op_push -> stack_first st) by (intros ->; by apply top_first_ok). split; [done|].
  pose proof (step_refines o (Z.of_nat (length os)) st ltac:(lia) Hs Hr Ho1 Hp) as Hstep. unfold wp in Hstep.
  destruct (step o st) as [st1 [r|e]]; [|done]. destruct Hstep as (H1 & H2 & _). by apply IH.
Qed.

(** A run of operations on the stack of sessions returns, with the results of the run on the stack of maps, and leaves its maps. *)
Theorem undo_stack_refines (os : list stack_op) st :
  stack_ok st -> revision_ok (Z.of_nat (length os)) st -> Forall op_ok os -> pushes_ok os st ->
  exists st' rs, run os st = (st', Ok rs) /\ stack_ok st' /\ abstract_run os (m_revision st, stack_maps st) = ((m_revision st', stack_maps st'), rs).
Proof.
  revert st. induction os as [|o os IH]; intros st Hs Hr Ho Hp; [by exists st, []|]. apply Forall_cons in Ho as [Ho1 Ho]. destruct Hp as [Hp1 Hp].
  pose proof (step_refines o (Z.of_nat (length os)) st) as Hstep. cbn [length] in Hr. rewrite Nat2Z.inj_succ in Hr.
  specialize (Hstep ltac:(lia) Hs Hr Ho1 Hp1). unfold wp in Hstep. destruct (step o st) as [st1 [r|e]] eqn:E; [|done].
  destruct Hstep as (H1 & H2 & H3). destruct (IH st1 H1 H2 Ho Hp) as (st2 & rs & E2 & H4 & H5). exists st2, (r :: rs). split_and!; [|done|].
  - cbn [run]. by rewrite (bind_Ok _ _ _ _ _ E), (bind_Ok _ _ _ _ _ E2).
  - cbn [abstract_run]. by rewrite H3, H5.
Qed.
End refinement.
