(* ===== verification/UndoStackFile.v ===== *)
(** * The file of the stack of sessions

    [undo_stack::close] writes the sessions of the stack to a file, and [undo_stack::open] reads them back
    (libraries/chain_kv/include/b1/session/undo_stack.hpp): what was written and erased in each session is written and erased again
    in a new one. A file is the list of its bytes. *)

From S2P Require Import Prelude Effects Lex SharedBytes Raw Store Session SessionProofs SessionIterators SessionStore UndoStack.

Definition undo_stack_magic_number : Z := 0x30510ABC.
Definition undo_stack_min_supported_version : Z := 1.
Definition undo_stack_max_supported_version : Z := 1.

(** [operator<<] and [operator>>] of [shared_bytes] *)
Definition pack_bytes (b : list Z) : list Z := pack_uint64 (size b) ++ b.
Definition unpack_bytes : M (list Z) (list Z) := sz ← unpack_uint64; ds_read (Z.to_nat sz).

Section file.
Context {R : Type} {SR : Store R}.

(** ** Closing *)

(** [session.read( key )]; the parents of all sessions but the first one are destroyed by then. *)
Definition close_read (head : option R) (c : cache_type) (key : list Z) : result (option (list Z)) :=
  match c !! key with
  | Some e =>
      if deleted e then Ok None else
      if bool_decide (value e <> []) then Ok (Some (value e)) else
      match head with Some h => (session_read key (mk_session c h)).2 | None => Throw undefined_behaviour end
  | None => match head with Some h => (session_read key (mk_session c h)).2 | None => Throw undefined_behaviour end
  end.

(** The keys in the order of a hash table, which does not matter *)
Definition keys_with (f : value_state -> bool) (c : cache_type) : list (list Z) := omap (fun kv => if f kv.2 then Some kv.1 else None) (map_to_list c).

Fixpoint close_updates (head : option R) (c : cache_type) (keys : list (list Z)) : result (option (list Z)) :=
  match keys with
  | [] => Ok (Some [])
  | key :: keys =>
      v ← close_read head c key;
      match v with
      | None => Ok None
      | Some v => rest ← close_updates head c keys; Ok (rest ≫= fun rest => Some (pack_bytes key ++ pack_bytes v ++ rest))
      end
  end.

Definition close_session (head : option R) (c : cache_type) : result (option (list Z)) :=
  u ← close_updates head c (keys_with updated c);
  Ok (u ≫= fun u => Some (pack_uint64 (Z.of_nat (length (keys_with updated c))) ++ u ++
                          pack_uint64 (Z.of_nat (length (keys_with deleted c))) ++ concat (map pack_bytes (keys_with deleted c)))).

(** The sessions from the front of the deque on *)
Fixpoint close_sessions (head : option R) (l : list cache_type) : result (option (list Z)) :=
  match l with
  | [] => Ok (Some [])
  | c :: l =>
      b ← close_session head c;
      match b with
      | None => Ok None
      | Some b => rest ← close_sessions None l; Ok (rest ≫= fun rest => Some (b ++ rest))
      end
  end.

(** The file, or nothing when it was removed because a value was not found *)
Definition close (st : undo_stack R) : result (option (list Z)) :=
  b ← close_sessions (Some (m_head st)) (rev (m_sessions st));
  Ok (b ≫= fun b => Some (pack_uint32 undo_stack_magic_number ++ pack_uint32 undo_stack_max_supported_version ++
                          pack_uint64 (u64 (m_revision st)) ++ pack_uint64 (Z.of_nat (length (m_sessions st))) ++ b)).

(** ** Opening *)
Definition reader : Type := list Z * undo_stack R.
Definition of_file {A} (m : M (list Z) A) : M reader A := fun s => let (b, r) := m s.1 in ((b, s.2), r).
Definition of_stack {A} (m : M (undo_stack R) A) : M reader A := fun s => let (st, r) := m s.2 in ((s.1, st), r).

Fixpoint repeat_n (n : nat) (m : M reader unit) : M reader unit :=
  match n with O => mret tt | S n => _ ← m; repeat_n n m end.

Definition open_update : M reader unit :=
  key ← of_file unpack_bytes; v ← of_file unpack_bytes; _ ← of_stack (step (op_write key v)); mret tt.
Definition open_delete : M reader unit := key ← of_file unpack_bytes; _ ← of_stack (step (op_erase key)); mret tt.

Definition open_session : M reader unit :=
  _ ← of_stack push;
  num_updated_keys ← of_file unpack_uint64;
  _ ← repeat_n (Z.to_nat num_updated_keys) open_update;
  num_deleted_keys ← of_file unpack_uint64;
  repeat_n (Z.to_nat num_deleted_keys) open_delete.

Definition open_file : M reader unit :=
  totem ← of_file unpack_uint32;
  _ ← check (totem =? undo_stack_magic_number) chain_exception;
  version ← of_file unpack_uint32;
  _ ← check ((undo_stack_min_supported_version <=? version) && (version <=? undo_stack_max_supported_version)) chain_exception;
  rev ← of_file unpack_uint64;
  num_sessions ← of_file unpack_uint64;
  _ ← repeat_n (Z.to_nat num_sessions) open_session;
  of_stack (set_revision (i64 rev)).

Definition open (content : list Z) : M (undo_stack R) unit := fun st =>
  let (s, r) := open_file (content, st) in (s.2, r).
End file.

(** ** What was written is read *)
Definition packable (b : list Z) : Prop := Z.of_nat (length b) < 2 ^ 64.

Lemma unpack_pack_bytes (b s : list Z) : packable b -> unpack_bytes (pack_bytes b ++ s) = (s, Ok b).
Proof.
  unfold packable. intros Hb. unfold unpack_bytes, pack_bytes, unpack_uint64, pack_uint64, size. rewrite <- app_assoc, bind_eq, unpack_pack_uint.
  - rewrite Nat2Z.id. apply ds_read_app.
  - change (256 ^ Z.of_nat 8) with (2 ^ 64). lia.
Qed.

Section roundtrip.
Context {R : Type} {SR : Store R}.
Implicit Types st : undo_stack R.

Lemma of_file_bind {A B} (m : M (list Z) A) (f : A -> M (@reader R) B) (b b' : list Z) st (a : A) :
  m b = (b', Ok a) -> (of_file m ≫= f) (b, st) = f a (b', st).
Proof. intros E. rewrite bind_eq. unfold of_file. cbn [fst snd]. by rewrite E. Qed.
Lemma of_stack_bind {A B} (m : M (undo_stack R) A) (f : A -> M reader B) (b : list Z) st st' (a : A) :
  m st = (st', Ok a) -> (of_stack m ≫= f) (b, st) = f a (b, st').
Proof. intros E. rewrite bind_eq. unfold of_stack. cbn [fst snd]. by rewrite E. Qed.

(** The operations that make a session again *)
Definition write_ops (l : list (list Z * list Z)) : list stack_op := map (fun kv => op_write kv.1 kv.2) l.
Definition erase_ops (l : list (list Z)) : list stack_op := map op_erase l.
Definition session_ops (c : cache_type) : list stack_op := op_push :: write_ops (updates c) ++ erase_ops (deletes c).
Fixpoint stack_ops (l : list cache_type) : list stack_op := match l with [] => [] | c :: l => stack_ops l ++ session_ops c end.

Definition pack_pair (kv : list Z * list Z) : list Z := pack_bytes kv.1 ++ pack_bytes kv.2.
Definition session_bytes (c : cache_type) : list Z :=
  pack_uint64 (Z.of_nat (length (updates c))) ++ concat (map pack_pair (updates c)) ++
  pack_uint64 (Z.of_nat (length (deletes c))) ++ concat (map pack_bytes (deletes c)).
Definition cache_packable (c : cache_type) : Prop :=
  Z.of_nat (length (updates c)) < 2 ^ 64 /\ Z.of_nat (length (deletes c)) < 2 ^ 64 /\
  Forall (fun kv => packable kv.1 /\ packable kv.2) (updates c) /\ Forall packable (deletes c).

#[global] Instance cache_packable_dec (c : cache_type) : Decision (cache_packable c).
Proof. unfold cache_packable, packable. apply _. Defined.

Lemma run_cons_inv (o : stack_op) (os : list stack_op) st st' rs : run (o :: os) st = (st', Ok rs) ->
  exists st1 r rs', step o st = (st1, Ok r) /\ run os st1 = (st', Ok rs').
Proof. cbn [run]. intros (st1 & r & E1 & (st2 & rs' & E2 & [= <- <-])%bind_Ok_inv)%bind_Ok_inv. by exists st1, r, rs'. Qed.
Lemma run_app_inv (os os' : list stack_op) st st' rs : run (os ++ os') st = (st', Ok rs) ->
  exists st1 rs1 rs2, run os st = (st1, Ok rs1) /\ run os' st1 = (st', Ok rs2).
Proof.
  revert st rs. induction os as [|o os IH]; intros st rs H; [by exists st, [], rs|].
  apply run_cons_inv in H as (st1 & r & rs' & E1 & (st2 & rs1 & rs2 & E2 & E3)%IH). exists st2, (r :: rs1), rs2. split; [|done].
  cbn [run]. by rewrite (bind_Ok _ _ _ _ _ E1), (bind_Ok _ _ _ _ _ E2).
Qed.

Lemma open_updates_ok (l : list (list Z * list Z)) (s : list Z) st st' rs :
  Forall (fun kv => packable kv.1 /\ packable kv.2) l -> run (write_ops l) st = (st', Ok rs) ->
  repeat_n (length l) open_update (concat (map pack_pair l) ++ s, st) = ((s, st'), Ok tt).
Proof.
  revert st rs. induction l as [|[k v] l IH]; intros st rs Hl Hr; [by injection Hr as <- _|]. apply Forall_cons in Hl as [[Hk Hv] Hl].
  apply run_cons_inv in Hr as (st1 & r & rs' & E1 & E2). cbn [length repeat_n map concat]. unfold pack_pair at 1. cbn [fst snd]. rewrite <- !app_assoc, bind_eq.
  unfold open_update. rewrite (of_file_bind _ _ _ _ _ _ (unpack_pack_bytes k _ Hk)), (of_file_bind _ _ _ _ _ _ (unpack_pack_bytes v _ Hv)).
  rewrite (of_stack_bind _ _ _ _ _ _ E1). by apply (IH st1 rs').
Qed.
Lemma open_deletes_ok (l : list (list Z)) (s : list Z) st st' rs :
  Forall packable l -> run (erase_ops l) st = (st', Ok rs) ->
  repeat_n (length l) open_delete (concat (map pack_bytes l) ++ s, st) = ((s, st'), Ok tt).
Proof.
  revert st rs. induction l as [|k l IH]; intros st rs Hl Hr; [by injection Hr as <- _|]. apply Forall_cons in Hl as [Hk Hl].
  apply run_cons_inv in Hr as (st1 & r & rs' & E1 & E2). cbn [length repeat_n map concat]. rewrite <- !app_assoc, bind_eq.
  unfold open_delete. rewrite (of_file_bind _ _ _ _ _ _ (unpack_pack_bytes k _ Hk)), (of_stack_bind _ _ _ _ _ _ E1). by apply (IH st1 rs').
Qed.

Lemma open_session_ok (c : cache_type) (s : list Z) st st' rs :
  cache_packable c -> run (session_ops c) st = (st', Ok rs) -> open_session (session_bytes c ++ s, st) = ((s, st'), Ok tt).
Proof.
  intros (H1 & H2 & H3 & H4) Hr. apply run_cons_inv in Hr as (st1 & r & rs' & E1 & (st2 & rs1 & rs2 & E2 & E3)%run_app_inv).
  assert (Ep : push st = (st1, Ok tt)).
  { cbn [step] in E1. apply bind_Ok_inv in E1 as (stx & [] & E1 & [= <- <-]). done. }
  unfold open_session, session_bytes. rewrite (of_stack_bind _ _ _ _ _ _ Ep). rewrite <- !app_assoc.
  assert (Hu : forall n b, Z.of_nat n < 2 ^ 64 -> unpack_uint64 (pack_uint64 (Z.of_nat n) ++ b) = (b, Ok (Z.of_nat n))).
  { intros n b Hn. apply unpack_pack_uint. change (256 ^ Z.of_nat 8) with (2 ^ 64). lia. }
  rewrite (of_file_bind _ _ _ _ _ _ (Hu _ _ H1)), Nat2Z.id, bind_eq, (open_updates_ok _ _ _ _ _ H3 E2).
  rewrite (of_file_bind _ _ _ _ _ _ (Hu _ _ H2)), Nat2Z.id. by apply (open_deletes_ok _ _ _ _ rs2).
Qed.

Lemma repeat_n_snoc (n : nat) (m : M (@reader R) unit) x : repeat_n (S n) m x = (repeat_n n m ≫= fun _ => m) x.
Proof.
  revert x. induction n as [|n IH]; intros x.
  - change (repeat_n 1 m x) with ((m ≫= fun _ => mret tt) x). change ((repeat_n 0 m ≫= fun _ => m) x) with (m x). rewrite bind_eq. by destruct (m x) as [y [[]|e]].
  - change (repeat_n (S (S n)) m x) with ((m ≫= fun _ => repeat_n (S n) m) x). rewrite !bind_eq. change (repeat_n (S n) m x) with ((m ≫= fun _ => repeat_n n m) x).
    rewrite bind_eq. destruct (m x) as [y [[]|e]]; [|done]. by rewrite IH, bind_eq.
Qed.
Lemma open_sessions_ok (l : list cache_type) (s : list Z) st st' rs :
  Forall cache_packable l -> run (stack_ops l) st = (st', Ok rs) ->
  repeat_n (length l) open_session (concat (map session_bytes (rev l)) ++ s, st) = ((s, st'), Ok tt).
Proof.
  revert s st' rs. induction l as [|c l IH]; intros s st' rs Hl Hr; [by injection Hr as <- _|]. apply Forall_cons in Hl as [Hc Hl].
  cbn [stack_ops] in Hr. apply run_app_inv in Hr as (st1 & rs1 & rs2 & E1 & E2). cbn [length rev]. rewrite repeat_n_snoc, bind_eq, map_app, concat_app, <- app_assoc.
  rewrite (IH _ st1 rs1 Hl E1). cbn [map concat]. rewrite app_nil_r. by apply (open_session_ok c s st1 st' rs2).
Qed.

(** What [close] writes *)
Lemma keys_with_updated (c : cache_type) :
  (forall k e, c !! k = Some e -> updated e = true -> deleted e = false) -> keys_with updated c = (updates c).*1.
Proof.
  intros Hc. unfold keys_with, updates. assert (H : Forall (fun kv => updated kv.2 = true -> deleted kv.2 = false) (map_to_list c)).
  { apply Forall_forall. intros [k e] Hin%elem_of_map_to_list. by apply (Hc k e). }
  induction H as [|[k e] l Hke _ IH]; [done|]. simpl in *. destruct (updated e); [|by destruct (deleted e)]. rewrite Hke by done. simpl. f_equal. exact IH.
Qed.

Lemma close_updates_ok (head : option R) (c : cache_type) (l : list (list Z * list Z)) :
  Forall (fun kv => exists e, c !! kv.1 = Some e /\ deleted e = false /\ value e = kv.2 /\ kv.2 <> []) l ->
  close_updates head c l.*1 = Ok (Some (concat (map pack_pair l))).
Proof.
  induction 1 as [|[k v] l (e & He & Hd & Hv & Hne) _ IH]; [done|]. cbn [fmap list_fmap close_updates fst snd] in *. unfold close_read. rewrite He, Hd, Hv.
  rewrite bool_decide_true by done. cbn. rewrite IH. cbn. unfold pack_pair at 2. cbn. by rewrite <- app_assoc.
Qed.

Lemma close_session_ok (head : option R) (c : cache_type) (pm : kmap) : cache_ok None c pm -> close_session head c = Ok (Some (session_bytes c)).
Proof.
  intros Hc. assert (Hst : forall k e, c !! k = Some e -> updated e = true -> deleted e = false).
  { intros k e He Hu. pose proof (co_live None c pm Hc k e He ltac:(done)) as Hl. unfold live_ok in Hl. destruct (deleted e); [congruence|done]. }
  unfold close_session. rewrite (keys_with_updated c Hst), close_updates_ok.
  - cbn. unfold session_bytes. by rewrite length_fmap.
  - apply Forall_forall. intros [k v] (e & He & Hd & _ & Hv)%elem_of_updates. exists e. cbn. split_and!; [done..|]. subst v.
    pose proof (co_live None c pm Hc k e He ltac:(done)) as Hl. unfold live_ok in Hl. rewrite Hd in Hl. by apply Hl.
Qed.

Lemma close_sessions_ok (head : option R) (l : list cache_type) :
  Forall (fun c => exists pm, cache_ok None c pm) l -> close_sessions head l = Ok (Some (concat (map session_bytes l))).
Proof.
  intros Hl. revert head. induction Hl as [|c l [pm Hc] _ IH]; intros head; [done|]. cbn [close_sessions]. rewrite (close_session_ok head c pm Hc). cbn. by rewrite IH.
Qed.

(** The maps that the operations make *)
Lemma abstract_run_app (os os' : list stack_op) (a : Z * list kmap) :
  abstract_run (os ++ os') a = let '(a, rs) := abstract_run os a in let '(a, rs') := abstract_run os' a in (a, rs ++ rs').
Proof.
  revert a. induction os as [|o os IH]; intros a; cbn [app abstract_run]; [by destruct (abstract_run os' a)|].
  destruct (abstract_step o a) as [a1 r]. rewrite IH. destruct (abstract_run os a1) as [a2 rs]. by destruct (abstract_run os' a2).
Qed.
Lemma abstract_writes (l : list (list Z * list Z)) (r : Z) (m : kmap) (ms : list kmap) :
  (abstract_run (write_ops l) (r, m :: ms)).1 = (r, insert_all l m :: ms).
Proof.
  unfold insert_all. revert m. induction l as [|[k v] l IH]; intros m; [done|]. cbn [write_ops map abstract_run abstract_step hd tl foldl fst snd].
  specialize (IH (<[k := v]> m)). fold (write_ops l). by destruct (abstract_run (write_ops l) _).
Qed.
Lemma abstract_erases (l : list (list Z)) (r : Z) (m : kmap) (ms : list kmap) :
  (abstract_run (erase_ops l) (r, m :: ms)).1 = (r, delete_all l m :: ms).
Proof.
  unfold delete_all. revert m. induction l as [|k l IH]; intros m; [done|]. cbn [erase_ops map abstract_run abstract_step hd tl foldl fst snd].
  specialize (IH (delete k m)). fold (erase_ops l). by destruct (abstract_run (erase_ops l) _).
Qed.

(** The writes and the erasures of a session concern different keys. *)
Lemma reopened_map (c : cache_type) (pm : kmap) : cache_ok None c pm -> delete_all (deletes c) (insert_all (updates c) pm) = view c pm.
Proof.
  intros Hc. rewrite <- (commit_map c pm Hc). apply map_eq. intros k. rewrite lookup_delete_all.
  destruct (decide (k ∈ deletes c)) as [Hk|Hk].
  - rewrite lookup_insert_all_None, lookup_delete_all; [by rewrite decide_True|]. apply elem_of_deletes, elem_of_gone in Hk as (e & He & Hd).
    rewrite list_elem_of_fmap. intros ([k' v] & -> & (e' & He' & Hd' & _)%elem_of_updates). simpl in *. congruence.
  - destruct (decide (k ∈ (updates c).*1)) as [Hu|Hu].
    + apply list_elem_of_fmap in Hu as ([k' v] & -> & Hin). rewrite !(lookup_insert_all _ _ k' v); auto using updates_nodup.
    + rewrite !lookup_insert_all_None by done. by rewrite lookup_delete_all, decide_False.
Qed.

Lemma abstract_session (c : cache_type) (r : Z) (m : kmap) (ms : list kmap) : cache_ok None c m ->
  (abstract_run (session_ops c) (r, m :: ms)).1 = (r + 1, view c m :: m :: ms).
Proof.
  intros Hc. cbn [session_ops abstract_run abstract_step hd]. rewrite abstract_run_app. pose proof (abstract_writes (updates c) (r + 1) m (m :: ms)) as Hw.
  destruct (abstract_run (write_ops (updates c)) _) as [a rs]. cbn [fst] in Hw. subst a.
  pose proof (abstract_erases (deletes c) (r + 1) (insert_all (updates c) m) (m :: ms)) as He. destruct (abstract_run (erase_ops _) _) as [a rs']. cbn [fst] in *. subst a.
  by rewrite reopened_map.
Qed.

Context {MR : StoreModel R} {LR : StoreLaws R} {BR : Bottom R}.

Lemma caches_ok (h : R) (l : list cache_type) : st_ok (build h l) -> Forall (fun c => exists pm, cache_ok None c pm) l.
Proof. induction l as [|c l IH]; intros Hs; [done|]. destruct Hs as [(P1 & _) Hc]. constructor; [by eexists|]. by apply IH. Qed.

Lemma abstract_stack (h : R) (l : list cache_type) : st_ok (build h l) ->
  (abstract_run (stack_ops l) (0, [st_map h])).1 = (Z.of_nat (length l), maps (build h l)).
Proof.
  induction l as [|c l IH]; intros Hs; [cbn; unfold maps; cbn; by rewrite bottom_below|]. destruct Hs as [(P1 & _) Hc]. cbn [stack_ops]. rewrite abstract_run_app.
  specialize (IH P1). destruct (abstract_run (stack_ops l) _) as [a rs]. cbn [fst] in IH. subst a.
  pose proof (abstract_session c (Z.of_nat (length l)) (st_map (build h l)) (st_below (build h l)) Hc) as Ha. unfold maps.
  destruct (abstract_run (session_ops c) _) as [a rs']. cbn [fst] in *. subst a. f_equal. cbn [length]. lia.
Qed.

Lemma session_ops_ok (c : cache_type) (pm : kmap) : cache_ok None c pm -> Forall op_ok (session_ops c).
Proof.
  intros Hc. constructor; [done|]. apply Forall_app. split; apply Forall_map, Forall_forall.
  - intros [k v] (e & He & Hd & _ & <-)%elem_of_updates. cbn. split; [apply (co_key None c pm Hc); by eexists|].
    pose proof (co_live None c pm Hc k e He ltac:(done)) as Hl. unfold live_ok in Hl. rewrite Hd in Hl. by apply Hl.
  - intros k Hk%elem_of_deletes%gone_cached. by apply (co_key None c pm Hc).
Qed.
Lemma stack_ops_ok (h : R) (l : list cache_type) : st_ok (build h l) -> Forall op_ok (stack_ops l).
Proof.
  induction l as [|c l IH]; intros Hs; [done|]. destruct Hs as [(P1 & _) Hc]. apply Forall_app. split; [by apply IH|by apply (session_ops_ok c (st_map (build h l)))].
Qed.

Lemma length_stack_ops (l : list cache_type) : (length l <= length (stack_ops l))%nat.
Proof. induction l as [|c l IH]; [done|]. cbn [stack_ops length]. rewrite length_app. cbn [session_ops length]. lia. Qed.

Lemma revision_roundtrip (r : Z) : - 2 ^ 63 <= r < 2 ^ 63 -> i64 (u64 r) = r.
Proof.
  intros Hr. unfold swrap, wrap. rewrite Zmod_mod. destruct (Z.ltb_spec (r mod 2 ^ 64) (2 ^ (64 - 1))) as [H|H].
  - destruct (Z.le_gt_cases 0 r); [by rewrite Z.mod_small by lia|]. rewrite <- (Z_mod_plus_full r 1), Z.mod_small in H by lia. lia.
  - destruct (Z.le_gt_cases 0 r); [rewrite Z.mod_small in H by lia; lia|]. rewrite <- (Z_mod_plus_full r 1), Z.mod_small by lia. lia.
Qed.

(** The file that [close] writes is read by [open]. *)
Definition file_bytes st : list Z :=
  pack_uint32 undo_stack_magic_number ++ pack_uint32 undo_stack_max_supported_version ++ pack_uint64 (u64 (m_revision st)) ++
  pack_uint64 (Z.of_nat (length (m_sessions st))) ++ concat (map session_bytes (rev (m_sessions st))).

Lemma open_file_bytes st st0 st' rs :
  Z.of_nat (length (m_sessions st)) < 2 ^ 64 -> Forall cache_packable (m_sessions st) -> run (stack_ops (m_sessions st)) st0 = (st', Ok rs) ->
  open (file_bytes st) st0 = (mk_undo_stack (i64 (u64 (m_revision st))) (m_head st') (m_sessions st'), Ok tt).
Proof.
  intros Hn Hp Hr. unfold open, file_bytes, open_file.
  assert (H32 : forall v b, 0 <= v < 2 ^ 32 -> unpack_uint32 (pack_uint32 v ++ b) = (b, Ok v)) by (intros v b Hv; by apply unpack_pack_uint).
  assert (H64 : forall v b, 0 <= v < 2 ^ 64 -> unpack_uint64 (pack_uint64 v ++ b) = (b, Ok v)) by (intros v b Hv; by apply unpack_pack_uint).
  rewrite (of_file_bind _ _ _ _ _ _ (H32 undo_stack_magic_number _ ltac:(done))), check_bind, Z.eqb_refl.
  rewrite (of_file_bind _ _ _ _ _ _ (H32 undo_stack_max_supported_version _ ltac:(done))), check_bind. cbn [andb Z.leb].
  change (_ && _) with true. cbv iota. rewrite (of_file_bind _ _ _ _ _ _ (H64 (u64 (m_revision st)) _ ltac:(apply Z.mod_pos_bound; lia))).
  rewrite (of_file_bind _ _ _ _ _ _ (H64 (Z.of_nat (length (m_sessions st))) _ ltac:(lia))), Nat2Z.id, bind_eq.
  pose proof (open_sessions_ok (m_sessions st) [] st0 st' rs Hp Hr) as E. rewrite app_nil_r in E. rewrite E. done.
Qed.

(** A stack that was closed and is opened on the same database *)
Definition reopened st : undo_stack R := mk_undo_stack 0 (m_head st) [].

Lemma reopened_ok st : stack_ok st -> stack_ok (reopened st).
Proof. intros Hs. apply (lower_ok (m_head st) (m_sessions st) []). by rewrite app_nil_r. Qed.

Theorem undo_stack_reopens st :
  stack_ok st -> - 2 ^ 63 <= m_revision st < 2 ^ 63 -> Z.of_nat (length (stack_ops (m_sessions st))) < 2 ^ 63 - 1 -> Forall cache_packable (m_sessions st) ->
  pushes_ok (stack_ops (m_sessions st)) (reopened st) ->
  exists content st', close st = Ok (Some content) /\ open content (reopened st) = (st', Ok tt) /\
    stack_ok st' /\ m_revision st' = m_revision st /\ stack_maps st' = stack_maps st.
Proof.
  intros Hs Hr Hn Hp Hpush. pose proof (reopened_ok st Hs) as Hh.
  destruct (undo_stack_refines (stack_ops (m_sessions st)) (reopened st)) as (st' & rs & E & H1 & H2); [done|split; cbn; lia|by eapply stack_ops_ok|done|].
  pose proof (length_stack_ops (m_sessions st)) as Hl. exists (file_bytes st). eexists. split.
  { unfold close. rewrite close_sessions_ok by (apply Forall_rev; by eapply caches_ok). done. }
  split; [by apply (open_file_bytes st (reopened st) st' rs); [lia|..]|]. rewrite revision_roundtrip by done.
  unfold stack_ok, stack_maps. cbn [m_head m_sessions m_revision]. split_and!; [exact H1|done|].
  pose proof (abstract_stack (m_head st) (m_sessions st) Hs) as Ha. assert (Em : stack_maps (reopened st) = [st_map (m_head st)]).
  { unfold stack_maps, maps. cbn. by rewrite bottom_below. }
  rewrite Em in H2. change (m_revision (reopened st)) with 0 in H2. rewrite H2 in Ha. exact (f_equal snd Ha).
Qed.
End roundtrip.
