(* ===== verification/KeyValueStore.v ===== *)
(** * The key-value store

    Sessions over the database: what a stack of them does ([key_value_stack_refines]), what iterators of a session see
    ([session_scan]), and where they fail: the first key is missed when all keys of the cache are deleted
    ([begin_misses_keys]), and an iterator that moves to a key that was erased and written again takes it for deleted ([moved_iterator_deleted]). *)

From S2P Require Import Prelude Effects Lex SharedBytes Store Session SessionProofs SessionIterators SessionStore RocksSession UndoStack UndoStackFile.

#[global] Instance rocks_bottom {D : Type} {DB : RocksDB D} {DL : RocksLaws D} : Bottom (rocks_session D).
Proof. by split. Qed.


(** C31. A stack of sessions that is closed is opened again from the file with the same maps and the same revision, from the changes
    of each session that the file holds, when the sessions that are made from them can be pushed. *)
Theorem key_value_stack_reopens {D : Type} {DB : RocksDB D} (DL : RocksLaws D) (st : undo_stack (rocks_session D)) :
  stack_ok st -> - 2 ^ 63 <= m_revision st < 2 ^ 63 -> Z.of_nat (length (stack_ops (m_sessions st))) < 2 ^ 63 - 1 -> Forall cache_packable (m_sessions st) ->
  pushes_ok (stack_ops (m_sessions st)) (reopened st) ->
  exists content st', close st = Ok (Some content) /\ open content (reopened st) = (st', Ok tt) /\
    stack_ok st' /\ m_revision st' = m_revision st /\ stack_maps st' = stack_maps st.
Proof. apply undo_stack_reopens. Qed.

(** C20. A loop from [begin] to [end] over a session whose cache has a key that is not deleted, or which has no key at
    all, gives exactly the keys of the session, in order and each once: those of its parent and of its cache that are
    not deleted, whatever was read, written and erased before; and it changes no key and no value. (For all other
    sessions the loop gives nothing, see [begin_exact].) *)
Theorem session_scan {P : Type} {SP : Store P} {MP : StoreModel P} (LP : StoreLaws P) (s : session P) :
  session_ok s -> session_first s ->
  exists s' l, scan (S (base.size (session_map s))) s = (s', Ok l) /\ StronglySorted KeyOrder.lt l /\ (forall k, k ∈ l <-> is_Some (session_map s !! k)) /\
    session_ok s' /\ session_map s' = session_map s.
Proof.
  intros Hs Hf. pose proof (scan_ok s Hs Hf) as H. unfold wp in H. change (st_map s) with (session_map s) in H. destruct (scan _ s) as [s' [l|e]]; [|done].
  destruct H as ((U1 & U2 & _) & H1 & H2). by exists s', l.
Qed.

(** C37. [begin] is at the first key of the session exactly when the cache has a key that is not deleted, or the session has no
    key at all: otherwise it is the end, although there are keys, because the key of the parent is compared with an empty one. *)
Theorem begin_exact {P : Type} {SP : Store P} {MP : StoreModel P} (LP : StoreLaws P) (s : session P) :
  session_ok s -> exists s' it, session_begin s = (s', Ok it) /\ (nearest_up (fun k => is_Some (session_map s !! k)) it <-> session_first s) /\
    (~ session_first s -> it = None /\ exists k, is_Some (session_map s !! k)).
Proof.
  intros Hs. destruct (decide (Exists (fun kv => deleted kv.2 = false) (map_to_list (m_cache s)))) as [Hl|Hl].
  - assert (Hf : session_first s).
    { apply Exists_exists in Hl as ([k e] & Hin & Hd). left. exists k, e. split; [by apply elem_of_map_to_list|done]. }
    pose proof (session_begin_ok s Hs Hf) as H. unfold wp in H. destruct (session_begin s) as [s' [it|]]; [|done]. exists s', it. split; [done|].
    destruct H as (_ & _ & H). done.
  - assert (Hn : forall x, ~ live (m_cache s) x).
    { intros k (e & He & Hd). apply Hl, Exists_exists. exists (k, e). split; [by apply elem_of_map_to_list|done]. }
    pose proof (session_begin_none s Hs Hn) as H. unfold wp in H. destruct (session_begin s) as [s' [it|]]; [|done]. exists s', it. split; [done|]. subst it.
    assert (Hf : session_first s <-> session_map s = ∅).
    { split; [|by right]. intros [(k & e & He & Hd)|He]; [destruct (Hn k); by exists e|done]. }
    rewrite Hf. split; [split|].
    + intros H. apply map_eq. intros k. rewrite lookup_empty. destruct (session_map s !! k) eqn:E; [|done]. destruct (H k). by eexists.
    + intros He k [v Hv]. by rewrite He in Hv.
    + intros Hne. split; [done|]. apply map_choose in Hne as (k & v & Hk). by exists k, v.
Qed.

(** ** Samples *)
Module KvSamples.
Import MapDB.

Definition kv (k v : Z) : list Z * list Z := ([k], [v]).
Definition db0 : gmap (list Z) (list Z) := list_to_map [kv 1 10; kv 2 20; kv 3 30].
Definition head0 : rocks_session (gmap (list Z) (list Z)) := mk_rocks_session db0.
Definition session0 : session (rocks_session (gmap (list Z) (list Z))) := mk_session ∅ head0.
Definition stack0 : undo_stack (rocks_session (gmap (list Z) (list Z))) := mk_undo_stack 5 head0 [].
Definition ops0 : list stack_op :=
  [op_push; op_write [4] [40]; op_push; op_erase [1]; op_lower_bound [1]; op_squash; op_read [1]; op_commit 5; op_commit 6; op_read [4]; op_push; op_erase [4];
   op_undo; op_lower_bound [3; 0]].

Lemma head0_ok : st_ok head0.
Proof.
  intros k v H. apply elem_of_list_to_map_2 in H. rewrite !elem_of_cons, elem_of_nil in H. unfold kv in H. naive_solver.
Qed.

Example ops0_results : exists st, run ops0 stack0 = (st, Ok [None; None; None; None; Some [2]; None; None; None; None; Some [40]; None; None; None; Some [4]]) /\
  m_revision st = 6.
Proof. eexists. vm_compute. split; reflexivity. Qed.

Lemma stack0_pushes : pushes_ok ops0 stack0.
Proof. apply pushes_test_ok; [exact head0_ok|split; cbn; lia|repeat constructor; discriminate|vm_compute; reflexivity]. Qed.


(** A stack with two sessions *)
Definition ops1 : list stack_op := [op_push; op_write [4] [40]; op_erase [1]; op_push; op_write [2] [21]; op_erase [4]].
Definition stack1 : undo_stack (rocks_session (gmap (list Z) (list Z))) := (run ops1 stack0).1.

Lemma stack1_ok : stack_ok stack1.
Proof.
  assert (Ho : Forall op_ok ops1) by (repeat constructor; discriminate). assert (Hr : revision_ok (Z.of_nat (length ops1)) stack0) by (split; cbn; lia).
  destruct (undo_stack_refines ops1 stack0 head0_ok Hr Ho) as (st' & rs & E & H & _); [|unfold stack1; by rewrite E].
  apply pushes_test_ok; [exact head0_ok|done|done|vm_compute; reflexivity].
Qed.

Lemma stack1_pushes : pushes_ok (stack_ops (m_sessions stack1)) (reopened stack1).
Proof.
  apply pushes_test_ok; [apply reopened_ok, stack1_ok| |exact (stack_ops_ok _ _ stack1_ok)|vm_compute; reflexivity]. split; [cbn; lia|vm_compute; reflexivity].
Qed.
Lemma stack1_packable : Forall cache_packable (m_sessions stack1).
Proof. apply (bool_decide_unpack _). vm_compute. exact I. Qed.
Lemma stack1_size : length (m_sessions stack1) = 2%nat /\ m_revision stack1 = 7 /\ length (stack_ops (m_sessions stack1)) = 6%nat.
Proof. vm_compute. done. Qed.

Lemma key_value_stack_reopens_witness : length (m_sessions stack1) = 2%nat /\ exists content st', close stack1 = Ok (Some content) /\
  open content (reopened stack1) = (st', Ok tt) /\ m_revision st' = m_revision stack1 /\ stack_maps st' = stack_maps stack1.
Proof.
  destruct stack1_size as (H1 & H2 & H3). split; [exact H1|].
  destruct (key_value_stack_reopens map_db_laws stack1) as (content & st' & A & B & _ & C & D); [exact stack1_ok|rewrite H2; lia|rewrite H3; lia|exact stack1_packable|
    exact stack1_pushes|]. exists content, st'. exact (conj A (conj B (conj C D))).
Defined.

Lemma session0_opened : exists s, attach session0 = (s, Ok tt) /\ session_ok s /\ session_first s /\ session_map s = db0.
Proof.
  pose proof (new_session_ok head0 head0_ok I) as H. unfold wp in H. change (mk_session ∅ head0) with session0 in H.
  destruct (attach session0) as [s [[]|e]]; [|done]. destruct H as (H1 & H2 & H3 & _). by exists s.
Qed.

Lemma session_scan_witness : exists (s s' : session (rocks_session (gmap (list Z) (list Z)))) l, session_ok s /\ session_first s /\
  scan (S (base.size (session_map s))) s = (s', Ok l) /\ StronglySorted KeyOrder.lt l /\ (forall k, k ∈ l <-> is_Some (session_map s !! k)).
Proof.
  destruct session0_opened as (s & _ & H1 & H2 & _). destruct (session_scan rocks_laws s H1 H2) as (s' & l & A & B & C & _). by exists s, s', l.
Defined.

(** A session of which all keys in the cache are deleted *)
Definition erased_ends : M (session (rocks_session (gmap (list Z) (list Z)))) unit :=
  _ ← attach; _ ← erase [1]; erase [3].
Definition session_erased : session (rocks_session (gmap (list Z) (list Z))) := (erased_ends session0).1.

Lemma session_erased_ok : session_ok session_erased.
Proof.
  assert (H : returns erased_ends session0 (fun _ s => session_ok s)).
  { eapply wp_seq; [exact (new_session_ok head0 head0_ok I)|]. intros _ s (H1 & _). eapply wp_seq; [by apply session_erase_ok|].
    intros _ s1 (H2 & _). eapply wp_mono; [by apply session_erase_ok|]. intros _ s2 (H3 & _). exact H3. }
  unfold session_erased, wp in *. destruct (erased_ends session0) as [s [x|e]]; done.
Qed.

Lemma session_erased_keys : bool_decide (map_Forall (fun _ e => deleted e = true) (m_cache session_erased)) = true /\ session_map session_erased !! [2] = Some [20].
Proof. split; vm_compute; reflexivity. Qed.

Lemma session_erased_first : ~ session_first session_erased.
Proof.
  destruct session_erased_keys as [H1%bool_decide_eq_true H2]. intros [(k & e & He & Hd)|He]; [|by rewrite He in H2]. specialize (H1 k e He). simpl in H1. congruence.
Qed.

Lemma begin_exact_witness : session_ok session_erased /\ ~ session_first session_erased /\
  exists s' it, session_begin session_erased = (s', Ok it) /\ it = None /\ exists k, is_Some (session_map session_erased !! k).
Proof.
  split; [exact session_erased_ok|]. split; [exact session_erased_first|].
  destruct (begin_exact rocks_laws session_erased session_erased_ok) as (s' & it & A & _ & B). destruct (B session_erased_first) as [C D]. by exists s', it.
Defined.

Definition run_session {A} (m : M (session (rocks_session (gmap (list Z) (list Z)))) A) : result A := (m session0).2.
End KvSamples.

(** The keys 1 and 3 are erased, which are all keys of the cache: [begin] is the end, although the key 2 can be read and found. *)
Theorem begin_misses_keys :
  KvSamples.run_session (_ ← KvSamples.erased_ends; it ← session_begin; v ← session_read [2]; low ← session_lower_bound [1]; mret (it, v, low)) =
  Ok (None, Some [20], Some [2]).
Proof. vm_compute. reflexivity. Qed.

(** The key 2 is erased and written again; an iterator that comes to it from the key before takes it for deleted. *)
Theorem moved_iterator_deleted :
  KvSamples.run_session (_ ← attach; _ ← erase [2]; _ ← write [2] [21]; it ← begin_iterator; it ← increment it; found ← find_iterator [2]; s ← get;
    mret (iterator_key it, session_deref s (m_active_iterator it), iterator_deleted s it, iterator_deleted s found)) =
  Ok ([2], Some [21], true, false).
Proof. vm_compute. reflexivity. Qed.

(** A value without bytes that is written over one of the parent is not read back. *)
Theorem empty_value_lost : KvSamples.run_session (_ ← attach; _ ← write [2] []; session_read [2]) = Ok (Some [20]).
Proof. vm_compute. reflexivity. Qed.
