(* ===== verification/ContractTables.v ===== *)
(** * The tables of contracts: the model

    The rows that contracts keep by primary key and their secondary indices
    (libraries/chain/apply_context.cpp: [db_*_i64_chainbase], [find_or_create_table], [remove_table];
    apply_context.hpp: [generic_index]; contract_table_objects.hpp), and the iterators through which a contract
    sees them (backing_store/db_chainbase_iter_store.hpp).

    A pointer to an object of the database is its identifier. An object that was removed can still be read through
    a pointer as long as an undo session keeps it; when it was created in the current session its memory is
    freed. The five secondary indices are the same code for other key types: a key is an integer, for the
    floating point types its bits, and [secondary_rank] is what its order compares. *)

From S2P Require Import Prelude Lex Effects Types Authority UndoIndex Database AuthorizationManager SystemContract.

Inductive index_kind :=
  | key_value | index64 | index128 | index256 | index_double | index_long_double.

#[global] Instance index_kind_eq_dec : EqDecision index_kind.
Proof. solve_decision. Defined.

Definition all_kinds : list index_kind :=
  [key_value; index64; index128; index256; index_double; index_long_double].

Record table_id_object := mk_table {
  ti_id : Z;
  ti_code : account_name;
  ti_scope : Z;
  ti_table : Z;
  ti_payer : account_name;
  ti_count : Z
}.

(** The blob of a row, or the secondary key of an index object. *)
Inductive payload := blob (b : list Z) | secondary (k : Z).

Record object := mk_object {
  o_id : Z;
  t_id : Z;
  primary_key : Z;
  o_payer : account_name;
  o_value : payload
}.

(** ** The order of the indices *)

(** Bits of a floating point number that is not a NaN, in the order of [f64_lt] and [f128_lt]. *)
Definition float_rank (w bits : Z) : Z :=
  let m := Z.land bits (Z.ones (w - 1)) in if Z.testbit bits (w - 1) then - m else m.

Definition secondary_rank (k : index_kind) (v : Z) : Z :=
  match k with
  | index_double => float_rank 64 v
  | index_long_double => float_rank 128 v
  | _ => v
  end.

Definition by_code_scope_table (t : table_id_object) : list Z := [ti_code t; ti_scope t; ti_table t].
Definition by_primary (o : object) : list Z := [t_id o; primary_key o].
Definition by_secondary (k : index_kind) (o : object) : list Z :=
  [t_id o; match o_value o with secondary v => secondary_rank k v | blob _ => 0 end; primary_key o].

Definition table_keys := [by_code_scope_table].
Definition object_keys (k : index_kind) : list (object -> list Z) :=
  match k with key_value => [by_primary] | _ => [by_primary; by_secondary k] end.

(** An index is ordered by the lists of its keys; a search may name only the first ones. *)
Section search.
Context (f : object -> list Z).

Definition versus (key : list Z) (o : object) : comparison := lex (take (length key) (f o)) key.

Fixpoint first_of (l : list object) : option object :=
  match l with
  | [] => None
  | o :: l => match first_of l with
              | None => Some o
              | Some o' => match lex (f o) (f o') with Gt => Some o' | _ => Some o end
              end
  end.

Fixpoint last_of (l : list object) : option object :=
  match l with
  | [] => None
  | o :: l => match last_of l with
              | None => Some o
              | Some o' => match lex (f o) (f o') with Lt => Some o' | _ => Some o end
              end
  end.

Definition objects_in (u : undo_index object) : list object := map snd (map_to_list (contents u)).

Definition index_find (u : undo_index object) (key : list Z) : option object :=
  first_of (filter (fun o => versus key o = Eq) (objects_in u)).
Definition lower_bound (u : undo_index object) (key : list Z) : option object :=
  first_of (filter (fun o => versus key o <> Lt) (objects_in u)).
Definition upper_bound (u : undo_index object) (key : list Z) : option object :=
  first_of (filter (fun o => versus key o = Gt) (objects_in u)).
(** [++itr] and [--itr] *)
Definition object_after (u : undo_index object) (o : object) : option object :=
  first_of (filter (fun x => lex (f o) (f x) = Lt) (objects_in u)).
Definition object_before (u : undo_index object) (o : object) : option object :=
  last_of (filter (fun x => lex (f x) (f o) = Lt) (objects_in u)).
(** [--itr] for [itr = idx.upper_bound( key )] *)
Definition last_upto (u : undo_index object) (key : list Z) : option object :=
  last_of (filter (fun o => versus key o <> Gt) (objects_in u)).
End search.

(** ** Iterators *)
Record iter_store := mk_iter_store {
  _table_cache : gmap Z (Z * Z);
  _end_iterator_to_table : list Z;
  _iterator_to_object : list (option Z);
  _object_to_iterator : gmap Z Z
}.

Definition iter_store_empty : iter_store := mk_iter_store ∅ [] [] ∅.

Definition index_to_end_iterator (indx : nat) : Z := - (Z.of_nat indx + 2).

(** The negation of the least integer overflows. *)
Definition end_iterator_to_index (ei : Z) : result nat :=
  if ei =? - 2 ^ 31 then Throw undefined_behaviour else Ok (Z.to_nat (- ei - 2)).

Definition cache_table (s : iter_store) (tobj : Z) : iter_store * Z :=
  match _table_cache s !! tobj with
  | Some (_, ei) => (s, ei)
  | None =>
      let ei := index_to_end_iterator (length (_end_iterator_to_table s)) in
      (mk_iter_store (<[tobj := (tobj, ei)]> (_table_cache s)) (_end_iterator_to_table s ++ [tobj])
         (_iterator_to_object s) (_object_to_iterator s), ei)
  end.

Definition get_table (s : iter_store) (i : Z) : result Z :=
  match _table_cache s !! i with Some (p, _) => Ok p | None => Throw table_not_in_cache end.

Definition get_end_iterator_by_table_id (s : iter_store) (i : Z) : result Z :=
  match _table_cache s !! i with Some (_, ei) => Ok ei | None => Throw table_not_in_cache end.

Definition find_table_by_end_iterator (s : iter_store) (ei : Z) : result (option Z) :=
  _ ← dcd_assert (ei <? -1) invalid_table_iterator;
  indx ← end_iterator_to_index ei;
  Ok (_end_iterator_to_table s !! indx).

Definition store_get (s : iter_store) (iterator : Z) : result Z :=
  _ ← dcd_assert (negb (iterator =? -1)) invalid_table_iterator;
  _ ← dcd_assert (0 <=? iterator) table_operation_not_permitted;
  match _iterator_to_object s !! Z.to_nat iterator with
  | None => Throw invalid_table_iterator
  | Some None => Throw table_operation_not_permitted
  | Some (Some p) => Ok p
  end.

Definition store_remove (s : iter_store) (iterator : Z) : result iter_store :=
  _ ← dcd_assert (negb (iterator =? -1)) invalid_table_iterator;
  _ ← dcd_assert (0 <=? iterator) table_operation_not_permitted;
  match _iterator_to_object s !! Z.to_nat iterator with
  | None => Throw invalid_table_iterator
  | Some None => Ok s
  | Some (Some p) =>
      Ok (mk_iter_store (_table_cache s) (_end_iterator_to_table s)
            (<[Z.to_nat iterator := None]> (_iterator_to_object s)) (delete p (_object_to_iterator s)))
  end.

Definition store_add (s : iter_store) (obj : Z) : iter_store * Z :=
  match _object_to_iterator s !! obj with
  | Some it => (s, it)
  | None =>
      let it := Z.of_nat (length (_iterator_to_object s)) in
      (mk_iter_store (_table_cache s) (_end_iterator_to_table s) (_iterator_to_object s ++ [Some obj])
         (<[obj := it]> (_object_to_iterator s)), it)
  end.

(** ** The state *)
Record contract_db := mk_contract_db {
  tables : undo_index table_id_object;
  objects : index_kind -> undo_index object;
  stores : index_kind -> iter_store
}.

Definition set_tables (t : undo_index table_id_object) (s : contract_db) : contract_db :=
  mk_contract_db t (objects s) (stores s).
Definition set_objects (k : index_kind) (u : undo_index object) (s : contract_db) : contract_db :=
  mk_contract_db (tables s) (fun k' => if decide (k = k') then u else objects s k') (stores s).
Definition set_store (k : index_kind) (st : iter_store) (s : contract_db) : contract_db :=
  mk_contract_db (tables s) (objects s) (fun k' => if decide (k = k') then st else stores s k').

(** What is read of the context of the action. *)
Record apply_env := mk_apply_env {
  receiver : account_name;
  ctx_action : action;
  privileged : bool;
  ram_restrictions : bool;
  is_ram_billing_in_notify_allowed : bool
}.

(** Reading through a pointer: an object of the table, or one that an undo session keeps. *)
Definition deref_object {V} (u : undo_index V) (i : Z) : result V :=
  match contents u !! i with
  | Some v => Ok v
  | None =>
      match list_find (fun e => fst e = i) (concat (map removed_values (_undo_stack u)) ++ removed_base u) with
      | Some (_, (_, n)) => Ok (_item n)
      | None => Throw undefined_behaviour
      end
  end.

(** ** Sizes *)
Definition overhead_per_row_per_index_ram_bytes : Z := 32.
Definition billable (value : Z) : Z := (value + 16 - 1) / 16 * 16.
Definition billable_table : Z := billable (44 + overhead_per_row_per_index_ram_bytes * 2).
Definition billable_object (k : index_kind) : Z :=
  billable match k with
           | key_value => 32 + 8 + 4 + overhead_per_row_per_index_ram_bytes * 2
           | index64 | index_double => 24 + 8 + overhead_per_row_per_index_ram_bytes * 3
           | index128 | index_long_double => 24 + 16 + overhead_per_row_per_index_ram_bytes * 3
           | index256 => 24 + 32 + overhead_per_row_per_index_ram_bytes * 3
           end.

Definition value_size (v : payload) : Z :=
  match v with blob b => Z.of_nat (length b) | secondary _ => 0 end.

(** ** Operations *)
Section operations.
Context (env : apply_env).
Abbreviation Op := (M contract_db).

(** [apply_context::update_db_usage]: only the permission to charge is checked. *)
Definition update_db_usage (payer : account_name) (delta : Z) : result unit :=
  if 0 <? delta then
    if negb (privileged env || (payer =? receiver env) || ram_restrictions env) then
      _ ← dcd_assert (is_ram_billing_in_notify_allowed env || (receiver env =? act_account (ctx_action env)))
            subjective_block_production_exception;
      require_authorization (authorization (ctx_action env)) payer
    else Ok tt
  else Ok tt.

Definition find_table (code scope table : Z) : Op (option table_id_object) :=
  s ← get; mret (db_find_by by_code_scope_table (tables s) [code; scope; table]).

Definition find_or_create_table (code scope table payer : Z) : Op table_id_object :=
  existing_tid ← find_table code scope table;
  match existing_tid with
  | Some t => mret t
  | None =>
      _ ← lift (update_db_usage payer billable_table);
      s ← get;
      '(u, t) ← lift (db_create table_keys (tables s) (fun i => mk_table i code scope table payer 0));
      _ ← update (set_tables u);
      mret t
  end.

Definition remove_table (tid : table_id_object) : Op unit :=
  _ ← lift (update_db_usage (ti_payer tid) (- billable_table));
  s ← get;
  u ← lift (db_remove (tables s) (ti_id tid));
  update (set_tables u).

(** [++t.count] and [--t.count] *)
Definition add_count (d : Z) (t : table_id_object) : table_id_object :=
  mk_table (ti_id t) (ti_code t) (ti_scope t) (ti_table t) (ti_payer t) (u32 (ti_count t + d)).

Definition modify_table (i : Z) (m : table_id_object -> table_id_object) : Op unit :=
  s ← get; u ← lift (db_modify table_keys (tables s) i m); update (set_tables u).

Definition create_object (k : index_kind) (c : Z -> object) : Op object :=
  s ← get;
  '(u, o) ← lift (db_create (object_keys k) (objects s k) c);
  _ ← update (set_objects k u);
  mret o.

Definition cache (k : index_kind) (t : Z) : Op Z :=
  s ← get;
  let '(st, ei) := cache_table (stores s k) t in
  _ ← update (set_store k st); mret ei.

Definition add_iterator (k : index_kind) (o : object) : Op Z :=
  s ← get;
  let '(st, it) := store_add (stores s k) (o_id o) in
  _ ← update (set_store k st); mret it.

Definition at_iterator (k : index_kind) (iterator : Z) : Op object :=
  s ← get;
  p ← lift (store_get (stores s k) iterator);
  lift (deref_object (objects s k) p).

(** The table of an object whose iterator is known. *)
Definition table_of (k : index_kind) (o : object) : Op table_id_object :=
  s ← get;
  p ← lift (get_table (stores s k) (t_id o));
  lift (deref_object (tables s) p).

(** The end of [db_store_i64_chainbase] and of [store]: a new object, in the count of its table, with an
    iterator. *)
Definition store_object (k : index_kind) (tab : table_id_object) (payer id : Z) (v : payload) : Op Z :=
  obj ← create_object k (fun i => mk_object i (ti_id tab) id payer v);
  _ ← modify_table (ti_id tab) (add_count 1);
  _ ← lift (update_db_usage payer (value_size v + billable_object k));
  _ ← cache k (ti_id tab);
  add_iterator k obj.

Definition db_store_i64 (scope table payer id : Z) (buffer : list Z) : Op Z :=
  tab ← find_or_create_table (receiver env) scope table payer;
  _ ← check (negb (payer =? 0)) invalid_table_payer;
  store_object key_value tab payer id (blob buffer).

Definition idx_store (k : index_kind) (scope table payer id value : Z) : Op Z :=
  _ ← check (negb (payer =? 0)) invalid_table_payer;
  tab ← find_or_create_table (receiver env) scope table payer;
  store_object k tab payer id (secondary value).

(** The object at an iterator and its table, which must be one of the contract that runs. *)
Definition own_object (k : index_kind) (iterator : Z) : Op (object * table_id_object) :=
  obj ← at_iterator k iterator;
  table_obj ← table_of k obj;
  _ ← check (ti_code table_obj =? receiver env) table_access_violation;
  mret (obj, table_obj).

Definition set_value (payer : Z) (v : payload) (o : object) : object :=
  mk_object (o_id o) (t_id o) (primary_key o) payer v.

Definition modify_object (k : index_kind) (i : Z) (m : object -> object) : Op unit :=
  s ← get; u ← lift (db_modify (object_keys k) (objects s k) i m); update (set_objects k u).

Definition db_update_i64 (iterator payer : Z) (buffer : list Z) : Op unit :=
  '(obj, _) ← own_object key_value iterator;
  let old_size := value_size (o_value obj) + billable_object key_value in
  let new_size := value_size (blob buffer) + billable_object key_value in
  let payer := if payer =? 0 then o_payer obj else payer in
  _ ← (if negb (o_payer obj =? payer) then
         _ ← lift (update_db_usage (o_payer obj) (- old_size));
         lift (update_db_usage payer new_size)
       else if negb (old_size =? new_size) then lift (update_db_usage (o_payer obj) (new_size - old_size))
       else mret tt);
  modify_object key_value (o_id obj) (set_value payer (blob buffer)).

Definition idx_update (k : index_kind) (iterator payer value : Z) : Op unit :=
  '(obj, _) ← own_object k iterator;
  let payer := if payer =? 0 then o_payer obj else payer in
  _ ← (if negb (o_payer obj =? payer) then
         _ ← lift (update_db_usage (o_payer obj) (- billable_object k));
         lift (update_db_usage payer (billable_object k))
       else mret tt);
  modify_object k (o_id obj) (set_value payer (secondary value)).

(** [db_remove_i64_chainbase] and [remove]: the table goes with its last object. *)
Definition remove_at (k : index_kind) (iterator : Z) : Op unit :=
  '(obj, table_obj) ← own_object k iterator;
  _ ← lift (update_db_usage (o_payer obj) (- (value_size (o_value obj) + billable_object k)));
  _ ← modify_table (ti_id table_obj) (add_count (-1));
  s ← get;
  u ← lift (db_remove (objects s k) (o_id obj));
  _ ← update (set_objects k u);
  s ← get;
  table_obj ← lift (deref_object (tables s) (ti_id table_obj));
  _ ← when (ti_count table_obj =? 0) (remove_table table_obj);
  s ← get;
  st ← lift (store_remove (stores s k) iterator);
  update (set_store k st).

(** The size of the value when the buffer is empty, otherwise what is copied. *)
Definition db_get_i64 (iterator : Z) (buffer_size : nat) : Op (Z * list Z) :=
  obj ← at_iterator key_value iterator;
  let v := match o_value obj with blob b => b | secondary _ => [] end in
  if (buffer_size =? 0)%nat then mret (Z.of_nat (length v), [])
  else let copied := take (Nat.min buffer_size (length v)) v in
       mret (Z.of_nat (length copied), copied).

Definition idx_get (k : index_kind) (iterator : Z) : Op object := at_iterator k iterator.

(** Searches return the iterator with the object, if one was found. *)
Definition search (k : index_kind) (code scope table : Z)
    (find : undo_index object -> Z -> option object) : Op (Z * option object) :=
  tab ← find_table code scope table;
  match tab with
  | None => mret (-1, None)
  | Some tab =>
      table_end_itr ← cache k (ti_id tab);
      s ← get;
      match find (objects s k) (ti_id tab) with
      | None => mret (table_end_itr, None)
      | Some o =>
          if t_id o =? ti_id tab then it ← add_iterator k o; mret (it, Some o)
          else mret (table_end_itr, None)
      end
  end.

Definition find_primary (k : index_kind) (code scope table id : Z) : Op (Z * option object) :=
  search k code scope table (fun u t => index_find by_primary u [t; id]).
Definition lowerbound_primary (k : index_kind) (code scope table id : Z) : Op (Z * option object) :=
  search k code scope table (fun u t => lower_bound by_primary u [t; id]).
Definition upperbound_primary (k : index_kind) (code scope table id : Z) : Op (Z * option object) :=
  search k code scope table (fun u t => upper_bound by_primary u [t; id]).
Definition find_secondary (k : index_kind) (code scope table v : Z) : Op (Z * option object) :=
  search k code scope table (fun u t => index_find (by_secondary k) u [t; secondary_rank k v]).
Definition lowerbound_secondary (k : index_kind) (code scope table v : Z) : Op (Z * option object) :=
  search k code scope table (fun u t => lower_bound (by_secondary k) u [t; secondary_rank k v]).
Definition upperbound_secondary (k : index_kind) (code scope table v : Z) : Op (Z * option object) :=
  search k code scope table (fun u t => upper_bound (by_secondary k) u [t; secondary_rank k v]).

Definition end_iterator (k : index_kind) (code scope table : Z) : Op Z :=
  tab ← find_table code scope table;
  match tab with None => mret (-1) | Some tab => cache k (ti_id tab) end.

(** [next_primary], [next_secondary] and [db_next_i64_chainbase]: [f] is the key of the index. *)
Definition next_at (f : object -> list Z) (k : index_kind) (iterator : Z) : Op (Z * option object) :=
  if iterator <? -1 then mret (-1, None)
  else
    obj ← at_iterator k iterator;
    s ← get;
    match object_after f (objects s k) obj with
    | Some o => if t_id o =? t_id obj then it ← add_iterator k o; mret (it, Some o)
                else ei ← lift (get_end_iterator_by_table_id (stores s k) (t_id obj)); mret (ei, None)
    | None => ei ← lift (get_end_iterator_by_table_id (stores s k) (t_id obj)); mret (ei, None)
    end.

Definition previous_at (f : object -> list Z) (k : index_kind) (iterator : Z) : Op (Z * option object) :=
  s ← get;
  '(found, t) ← (if iterator <? -1 then
                   tab ← lift (find_table_by_end_iterator (stores s k) iterator);
                   match tab with
                   | None => throw invalid_table_iterator
                   | Some p => tab ← lift (deref_object (tables s) p);
                               mret (last_upto f (objects s k) [ti_id tab], ti_id tab)
                   end
                 else
                   obj ← at_iterator k iterator;
                   mret (object_before f (objects s k) obj, t_id obj));
  match found with
  | None => mret (-1, None)
  | Some o => if t_id o =? t then it ← add_iterator k o; mret (it, Some o) else mret (-1, None)
  end.

Definition next_primary (k : index_kind) : Z -> Op (Z * option object) := next_at by_primary k.
Definition next_secondary (k : index_kind) : Z -> Op (Z * option object) := next_at (by_secondary k) k.
Definition previous_primary (k : index_kind) : Z -> Op (Z * option object) := previous_at by_primary k.
Definition previous_secondary (k : index_kind) : Z -> Op (Z * option object) := previous_at (by_secondary k) k.
End operations.
