(* ===== verification/ContractTableProofs.v ===== *)
(** * The tables of contracts stay consistent

    What every operation on the tables of contracts preserves: objects belong to existing tables, the count of a
    table is the number of its objects, a table without objects does not exist, and iterators lead to
    existing objects. On this rest the behaviour of the operations as operations on maps, and that no
    operation reads freed memory, with one exception. *)

From S2P Require Import Prelude Effects Types Authority UndoIndex Database AuthorizationManager SystemContract Lex ContractTables.

(** ** The order of keys *)

(** The least and the greatest of a list. *)
Lemma first_of_spec (f : object -> list Z) (l : list object) (o : object) :
  first_of f l = Some o -> o ∈ l /\ forall x, x ∈ l -> lex (f o) (f x) <> Gt.
Proof.
  revert o. induction l as [|y l IH]; intros o; simpl; [done|]. destruct (first_of f l) as [o'|] eqn:E.
  - destruct (IH o' eq_refl) as [Hin Hle]. destruct (lex (f y) (f o')) eqn:Ec; intros [= <-].
    1, 2: split; [left|]; intros x [->|Hx]%elem_of_cons; [by rewrite lex_refl|];
      eapply lex_not_gt; [|by apply Hle]; by rewrite Ec.
    split; [by right|]. intros x [->|Hx]%elem_of_cons; [|by apply Hle]. apply lex_gt in Ec. by rewrite Ec.
  - intros [= <-]. destruct l as [|z l]; [|simpl in E; destruct (first_of f l); [destruct (lex _ _)|]; done].
    split; [left|]. intros x [->|[]%elem_of_nil]%elem_of_cons. by rewrite lex_refl.
Qed.

Lemma first_of_None (f : object -> list Z) (l : list object) : first_of f l = None -> l = [].
Proof. destruct l as [|y l]; simpl; [done|]. destruct (first_of f l); [destruct (lex _ _)|]; done. Qed.

Lemma last_of_spec (f : object -> list Z) (l : list object) (o : object) :
  last_of f l = Some o -> o ∈ l /\ forall x, x ∈ l -> lex (f x) (f o) <> Gt.
Proof.
  revert o. induction l as [|y l IH]; intros o; simpl; [done|]. destruct (last_of f l) as [o'|] eqn:E.
  - destruct (IH o' eq_refl) as [Hin Hle]. destruct (lex (f y) (f o')) eqn:Ec; intros [= <-].
    2: split; [by right|]; intros x [->|Hx]%elem_of_cons; [by rewrite Ec|by apply Hle].
    all: split; [left|]; intros x [->|Hx]%elem_of_cons; [by rewrite lex_refl|].
    + apply lex_eq in Ec. rewrite Ec. by apply Hle.
    + eapply lex_not_gt; [by apply Hle|]. apply lex_gt in Ec. by rewrite Ec.
  - intros [= <-]. destruct l as [|z l]; [|simpl in E; destruct (last_of f l); [destruct (lex _ _)|]; done].
    split; [left|]. intros x [->|[]%elem_of_nil]%elem_of_cons. by rewrite lex_refl.
Qed.

Lemma last_of_None (f : object -> list Z) (l : list object) : last_of f l = None -> l = [].
Proof. destruct l as [|y l]; simpl; [done|]. destruct (last_of f l); [destruct (lex _ _)|]; done. Qed.

Lemma elem_of_objects_in (u : undo_index object) (o : object) :
  o ∈ objects_in u <-> exists i, contents u !! i = Some o.
Proof.
  unfold objects_in. rewrite list_elem_of_fmap. split.
  - intros ([i o'] & -> & Hin%elem_of_map_to_list). eauto.
  - intros [i Hi%elem_of_map_to_list]. by exists (i, o).
Qed.

(** Every search returns the least or the greatest object in a range. *)
Lemma first_in_range (f : object -> list Z) (P : object -> Prop) `{!forall o, Decision (P o)} (u : undo_index object) :
  match first_of f (filter P (objects_in u)) with
  | Some o => (exists i, contents u !! i = Some o) /\ P o /\
              forall i x, contents u !! i = Some x -> P x -> lex (f o) (f x) <> Gt
  | None => forall i x, contents u !! i = Some x -> ~ P x
  end.
Proof.
  destruct (first_of f _) as [o|] eqn:E.
  - apply first_of_spec in E as [[HP Hin%elem_of_objects_in]%list_elem_of_filter Hle]. split_and!; [done..|].
    intros i x Hx Hp. apply Hle, list_elem_of_filter. split; [done|]. apply elem_of_objects_in. eauto.
  - apply first_of_None in E. intros i x Hx Hp. eapply not_elem_of_nil. rewrite <- E. apply list_elem_of_filter.
    split; [exact Hp|]. apply elem_of_objects_in. eauto.
Qed.

Lemma last_in_range (f : object -> list Z) (P : object -> Prop) `{!forall o, Decision (P o)} (u : undo_index object) :
  match last_of f (filter P (objects_in u)) with
  | Some o => (exists i, contents u !! i = Some o) /\ P o /\
              forall i x, contents u !! i = Some x -> P x -> lex (f x) (f o) <> Gt
  | None => forall i x, contents u !! i = Some x -> ~ P x
  end.
Proof.
  destruct (last_of f _) as [o|] eqn:E.
  - apply last_of_spec in E as [[HP Hin%elem_of_objects_in]%list_elem_of_filter Hle]. split_and!; [done..|].
    intros i x Hx Hp. apply Hle, list_elem_of_filter. split; [done|]. apply elem_of_objects_in. eauto.
  - apply last_of_None in E. intros i x Hx Hp. eapply not_elem_of_nil. rewrite <- E. apply list_elem_of_filter.
    split; [exact Hp|]. apply elem_of_objects_in. eauto.
Qed.

Lemma first_in (f : object -> list Z) (P : object -> Prop) `{!forall o, Decision (P o)} (u : undo_index object) (x : object) :
  first_of f (filter P (objects_in u)) = Some x -> exists i, contents u !! i = Some x.
Proof. intros E. pose proof (first_in_range f P u) as Hr. rewrite E in Hr. by destruct Hr. Qed.

Lemma last_in (f : object -> list Z) (P : object -> Prop) `{!forall o, Decision (P o)} (u : undo_index object) (x : object) :
  last_of f (filter P (objects_in u)) = Some x -> exists i, contents u !! i = Some x.
Proof. intros E. pose proof (last_in_range f P u) as Hr. rewrite E in Hr. by destruct Hr. Qed.

(** ** The invariant *)

(** The objects of a table. *)
Definition in_table (t : Z) (m : gmap Z object) : gmap Z object := filter (fun io => t_id (snd io) = t) m.
Definition total (s : contract_db) (t : Z) : nat :=
  sum_list_with (fun k => size (in_table t (contents (objects s k)))) all_kinds.

(** Iterators and objects correspond to each other, iterators lead to objects, whose tables are cached,
    and the end iterators are those of the cache. *)
Record store_ok (st : iter_store) (m : gmap Z object) : Prop := {
  so_iter : forall n i, _iterator_to_object st !! n = Some (Some i) <-> _object_to_iterator st !! i = Some (Z.of_nat n);
  so_nat : forall i it, _object_to_iterator st !! i = Some it -> 0 <= it;
  so_live : forall n i, _iterator_to_object st !! n = Some (Some i) ->
    exists o, m !! i = Some o /\ is_Some (_table_cache st !! t_id o);
  so_cache : forall i p ei, _table_cache st !! i = Some (p, ei) ->
    p = i /\ exists n, ei = index_to_end_iterator n /\ _end_iterator_to_table st !! n = Some i;
  so_ends : forall n i, _end_iterator_to_table st !! n = Some i -> _table_cache st !! i = Some (i, index_to_end_iterator n)
}.

(** The table [x], if any, may be empty: it was just created. *)
Record inv (x : option Z) (s : contract_db) : Prop := {
  ok_tables : table_ok table_keys ti_id (tables s);
  ok_objects : forall k, table_ok (object_keys k) o_id (objects s k);
  ok_member : forall k i o, contents (objects s k) !! i = Some o -> is_Some (contents (tables s) !! t_id o);
  ok_count : forall i t, contents (tables s) !! i = Some t ->
    ti_count t = Z.of_nat (total s i) /\ (x <> Some i -> 0 < ti_count t);
  ok_store : forall k, store_ok (stores s k) (contents (objects s k))
}.
Abbreviation db_ok := (inv None).

(** Identifiers and the counts of the tables do not overflow. *)
Record room_left (s : contract_db) : Prop := {
  rl_tables : room 1 (tables s);
  rl_objects : forall k, room 1 (objects s k);
  rl_count : forall i, Z.of_nat (total s i) + 1 < 2 ^ 32
}.

(** *** Counting *)
Lemma in_table_insert (t i : Z) (m : gmap Z object) (o : object) :
  m !! i = None ->
  size (in_table t (<[i := o]> m)) = (size (in_table t m) + if bool_decide (t_id o = t) then 1 else 0)%nat.
Proof.
  intros Hi. unfold in_table. case_bool_decide as Ht.
  - rewrite map_filter_insert_True by done. rewrite map_size_insert_None; [lia|].
    apply map_lookup_filter_None. by left.
  - rewrite map_filter_insert_False by done. rewrite delete_id by done. lia.
Qed.

Lemma in_table_delete (t i : Z) (m : gmap Z object) (o : object) :
  m !! i = Some o ->
  (size (in_table t (delete i m)) + if bool_decide (t_id o = t) then 1 else 0)%nat = size (in_table t m).
Proof.
  intros Hi. rewrite <- (in_table_insert t i (delete i m) o) by apply lookup_delete_eq.
  by rewrite insert_delete_id.
Qed.

Lemma in_table_alter (t i : Z) (m : gmap Z object) (f : object -> object) :
  (forall o, t_id (f o) = t_id o) -> size (in_table t (alter f i m)) = size (in_table t m).
Proof.
  intros Hf. destruct (m !! i) as [o|] eqn:E.
  - rewrite <- (insert_delete_id m i o) at 1 by done. rewrite alter_insert_eq.
    rewrite in_table_insert, Hf by apply lookup_delete_eq. by apply in_table_delete.
  - assert (alter f i m = m) as ->; [|done]. by apply alter_id; intros ? ?; congruence.
Qed.

Lemma total_set (s : contract_db) (k : index_kind) (u : undo_index object) (t : Z) (a b : nat) :
  (size (in_table t (contents u)) + a = size (in_table t (contents (objects s k))) + b)%nat ->
  (total (set_objects k u s) t + a = total s t + b)%nat.
Proof. intros H. unfold total, all_kinds. destruct k; simpl; lia. Qed.

Lemma total_ge (s : contract_db) (k : index_kind) (t : Z) :
  (size (in_table t (contents (objects s k))) <= total s t)%nat.
Proof. unfold total, all_kinds. destruct k; simpl; lia. Qed.

Lemma total_pos (s : contract_db) (k : index_kind) (i : Z) (o : object) :
  contents (objects s k) !! i = Some o -> (0 < total s (t_id o))%nat.
Proof.
  intros Hi. pose proof (total_ge s k (t_id o)) as Hle.
  assert (Hin : in_table (t_id o) (contents (objects s k)) !! i = Some o) by (by apply map_lookup_filter_Some).
  pose proof (in_table_delete (t_id o) i _ o Hi) as Hd. rewrite bool_decide_eq_true_2 in Hd by done. lia.
Qed.

Lemma objects_set_eq (s : contract_db) (k : index_kind) (u : undo_index object) : objects (set_objects k u s) k = u.
Proof. simpl. by rewrite decide_True. Qed.

Lemma objects_set_ne (s : contract_db) (k k' : index_kind) (u : undo_index object) :
  k <> k' -> objects (set_objects k u s) k' = objects s k'.
Proof. intros H. simpl. by rewrite decide_False. Qed.

Lemma stores_set_eq (s : contract_db) (k : index_kind) (st : iter_store) : stores (set_store k st s) k = st.
Proof. simpl. by rewrite decide_True. Qed.

Lemma stores_set_ne (s : contract_db) (k k' : index_kind) (st : iter_store) :
  k <> k' -> stores (set_store k st s) k' = stores s k'.
Proof. intros H. simpl. by rewrite decide_False. Qed.

(** *** Iterators *)

(** Objects that keep their tables keep the iterators valid. *)
Lemma store_ok_mono (st : iter_store) (m m' : gmap Z object) :
  store_ok st m -> (forall i o, m !! i = Some o -> exists o', m' !! i = Some o' /\ t_id o' = t_id o) -> store_ok st m'.
Proof.
  intros [H1 H2 H3 H4 H5] Hm. split; try done. intros n i Hn. destruct (H3 n i Hn) as (o & Ho & Hc).
  destruct (Hm i o Ho) as (o' & Ho' & E). exists o'. by rewrite E.
Qed.

Lemma store_get_ok (st : iter_store) (m : gmap Z object) (it i : Z) :
  store_ok st m -> store_get st it = Ok i ->
  0 <= it /\ _iterator_to_object st !! Z.to_nat it = Some (Some i) /\ _object_to_iterator st !! i = Some it /\
  exists o, m !! i = Some o /\ is_Some (_table_cache st !! t_id o).
Proof.
  intros SO E. unfold store_get in E. bind_ok. breflect.
  destruct (_ !! Z.to_nat it) as [[p|]|] eqn:Ei; simplify_eq. split; [done|]. split; [done|].
  pose proof (proj1 (so_iter _ _ SO _ _) Ei) as Ho. rewrite Z2Nat.id in Ho by done. split; [done|].
  by apply (so_live _ _ SO _ _ Ei).
Qed.

Lemma store_get_intro (st : iter_store) (n : nat) (i : Z) :
  _iterator_to_object st !! n = Some (Some i) -> store_get st (Z.of_nat n) = Ok i.
Proof.
  intros E. unfold store_get.
  replace (Z.of_nat n =? -1) with false by (symmetry; apply Z.eqb_neq; lia).
  replace (0 <=? Z.of_nat n) with true by (symmetry; apply Z.leb_le; lia). simpl. by rewrite Nat2Z.id, E.
Qed.

Lemma cache_table_ok (st st' : iter_store) (m : gmap Z object) (t ei : Z) :
  store_ok st m -> cache_table st t = (st', ei) ->
  store_ok st' m /\ _table_cache st' !! t = Some (t, ei) /\
  (forall i x, _table_cache st !! i = Some x -> _table_cache st' !! i = Some x) /\
  _iterator_to_object st' = _iterator_to_object st /\ _object_to_iterator st' = _object_to_iterator st /\
  exists l, _end_iterator_to_table st' = _end_iterator_to_table st ++ l.
Proof.
  intros SO E. unfold cache_table in E. destruct (_table_cache st !! t) as [[p e]|] eqn:Et; simplify_eq.
  - destruct (so_cache _ _ SO _ _ _ Et) as [-> _]. split_and!; try done. exists []. by rewrite app_nil_r.
  - pose proof SO as [H1 H2 H3 H4 H5]. simpl. split_and!; try done; [|apply lookup_insert_eq| |by eexists].
    2:{ intros i x Hi. rewrite lookup_insert_ne; [done|]. congruence. }
    split; simpl; try done.
    + intros n i Hn. destruct (H3 n i Hn) as (o & Ho & [x Hx]). exists o. split; [done|].
      exists x. rewrite lookup_insert_ne; [done|congruence].
    + intros i p ei [[<- [= <- <-]]|[Hne Hi]]%lookup_insert_Some.
      * split; [done|]. eexists. split; [done|]. by rewrite list_lookup_middle.
      * destruct (H4 _ _ _ Hi) as (-> & n & -> & Hn). split; [done|]. exists n. split; [done|]. by apply lookup_app_l_Some.
    + intros n i [Hn|[Hle Hn]]%lookup_app_Some.
      * pose proof (H5 _ _ Hn) as Hc. rewrite lookup_insert_ne; [done|congruence].
      * apply list_lookup_singleton_Some in Hn as [Hn <-]. rewrite lookup_insert_eq.
        replace n with (length (_end_iterator_to_table st)) by lia. done.
Qed.

Lemma store_add_ok (st st' : iter_store) (m : gmap Z object) (o : object) (i it : Z) :
  store_ok st m -> m !! i = Some o -> is_Some (_table_cache st !! t_id o) -> store_add st i = (st', it) ->
  store_ok st' m /\ store_get st' it = Ok i /\
  (forall n x, _iterator_to_object st !! n = Some x -> _iterator_to_object st' !! n = Some x) /\
  _table_cache st' = _table_cache st /\ _end_iterator_to_table st' = _end_iterator_to_table st.
Proof.
  intros SO Ho Hc E. pose proof SO as [H1 H2 H3 H4 H5]. unfold store_add in E.
  destruct (_object_to_iterator st !! i) as [it'|] eqn:Ei; simplify_eq.
  - split; [done|]. pose proof (H2 _ _ Ei) as Hp. split; [|done].
    rewrite <- (Z2Nat.id it) by done. apply store_get_intro, H1. by rewrite Z2Nat.id.
  - split_and!; try done; [|by apply store_get_intro; simpl; rewrite list_lookup_middle|by intros; apply lookup_app_l_Some].
    split; simpl; try done.
    + intros n j. rewrite lookup_insert_Some, lookup_app_Some. split.
      * intros [Hn|[Hle Hn]]; [right|left].
        -- pose proof (proj1 (H1 _ _) Hn). split; [congruence|done].
        -- apply list_lookup_singleton_Some in Hn as [Hn [= ->]]. split; [done|lia].
      * intros [[<- Hn]|[Hne Hn%H1]]; [right|by left]. split; [lia|].
        replace (n - length (_iterator_to_object st))%nat with 0%nat by lia. done.
    + intros j it [[<- <-]|[Hne Hn]]%lookup_insert_Some; [lia|by eapply H2].
    + intros n j [Hn|[Hle Hn]]%lookup_app_Some; [by eapply H3|].
      apply list_lookup_singleton_Some in Hn as [Hn [= ->]]. eauto.
Qed.

Lemma store_remove_ok (st : iter_store) (m : gmap Z object) (it i : Z) :
  store_ok st m -> store_get st it = Ok i ->
  exists st', store_remove st it = Ok st' /\ store_ok st' (delete i m) /\
    (forall n x, n <> Z.to_nat it -> _iterator_to_object st !! n = Some x -> _iterator_to_object st' !! n = Some x) /\
    _iterator_to_object st' !! Z.to_nat it = Some None.
Proof.
  intros SO Hg. destruct (store_get_ok _ _ _ _ SO Hg) as (Hp & Hi & Ho & _). unfold store_remove.
  replace (it =? -1) with false by (symmetry; apply Z.eqb_neq; lia). rewrite (proj2 (Z.leb_le 0 it)) by done. simpl.
  rewrite Hi. eexists. split; [done|]. pose proof SO as [H1 H2 H3 H4 H5]. split_and!; simpl; try done;
    [|intros n x Hn; by rewrite list_lookup_insert_ne|by rewrite list_lookup_insert_eq by (by eapply lookup_lt_Some)].
  split; simpl; try done.
  - intros n j. rewrite lookup_delete_Some. destruct (decide (n = Z.to_nat it)) as [->|Hn].
    + rewrite list_lookup_insert_eq by (by eapply lookup_lt_Some). split; [done|].
      intros [Hne Hj%H1]. congruence.
    + rewrite list_lookup_insert_ne by done. rewrite H1. split; [|by intros [_ ?]]. intros Hj. split; [|done].
      intros ->. rewrite Ho in Hj. simplify_eq. rewrite Nat2Z.id in Hn. done.
  - intros j it' [_ Hj]%lookup_delete_Some. by eapply H2.
  - intros n j Hn. destruct (decide (n = Z.to_nat it)) as [->|Hne];
      [by rewrite list_lookup_insert_eq in Hn by (by eapply lookup_lt_Some)|].
    rewrite list_lookup_insert_ne in Hn by done. destruct (H3 _ _ Hn) as (o & Hm & Hc). exists o. split; [|done].
    rewrite lookup_delete_ne; [done|]. intros ->. apply H1 in Hn. rewrite Ho in Hn. simplify_eq. by rewrite Nat2Z.id in Hne.
Qed.

(** ** The operations *)

(** The object [o] is in the table with the key. *)
Definition holds (s : contract_db) (k : index_kind) (key : list Z) (o : object) : Prop :=
  contents (objects s k) !! o_id o = Some o /\
  exists t, contents (tables s) !! t_id o = Some t /\ by_code_scope_table t = key.

Section operations.
Context (env : apply_env) (Exc : exn -> Prop).

(** Who is charged decides, not how much; refunds are never refused. *)
Lemma usage_throw (payer delta : Z) (e : exn) :
  update_db_usage env payer delta = Throw e -> update_db_usage env payer 1 = Throw e.
Proof. unfold update_db_usage. by destruct (0 <? delta). Qed.

Lemma usage_refund (payer delta : Z) : delta <= 0 -> update_db_usage env payer delta = Ok tt.
Proof. intros H. unfold update_db_usage. by rewrite (proj2 (Z.ltb_ge 0 delta)) by done. Qed.

Lemma object_size_nonneg (k : index_kind) (v : payload) : 0 <= value_size v + billable_object k.
Proof.
  assert (0 <= billable_object k) by (by destruct k). assert (0 <= value_size v) by (destruct v; unfold value_size; lia). lia.
Qed.

Lemma deref_contents {V} (u : undo_index V) (i : Z) (v : V) : contents u !! i = Some v -> deref_object u i = Ok v.
Proof. unfold deref_object. by intros ->. Qed.

Lemma object_id (x : option Z) (s : contract_db) (k : index_kind) (i : Z) (o : object) :
  inv x s -> contents (objects s k) !! i = Some o -> o_id o = i.
Proof. intros I Ho. by destruct (ok_objects _ _ I k) as (_ & Hi & _); apply Hi in Ho as [? _]. Qed.

Lemma table_id (x : option Z) (s : contract_db) (i : Z) (t : table_id_object) :
  inv x s -> contents (tables s) !! i = Some t -> ti_id t = i.
Proof. intros I Ht. by destruct (ok_tables _ _ I) as (_ & Hi & _); apply Hi in Ht as [? _]. Qed.

Lemma by_primary_unique (x : option Z) (s : contract_db) (k : index_kind) (i : Z) (o : object) :
  inv x s -> contents (objects s k) !! i = Some o -> db_find_by by_primary (objects s k) [t_id o; primary_key o] = Some o.
Proof.
  intros I Ho. eapply (db_find_by_unique (object_keys k) by_primary); [destruct k; left|apply (ok_objects _ _ I k)|exact Ho].
Qed.

(** The object at an iterator exists, and so does its table. *)
Lemma at_iterator_wp (s : contract_db) (k : index_kind) (it : Z) :
  db_ok s -> (forall e, store_get (stores s k) it = Throw e -> Exc e) ->
  wp Exc (at_iterator k it) (fun o s' => s' = s /\ store_get (stores s k) it = Ok (o_id o) /\
    contents (objects s k) !! o_id o = Some o /\ is_Some (_table_cache (stores s k) !! t_id o)) s.
Proof.
  intros I He. unfold at_iterator. apply wp_get, wp_lift; [exact He|]. intros i Hi.
  destruct (store_get_ok _ _ _ _ (ok_store _ _ I k) Hi) as (_ & _ & _ & o & Ho & Hc).
  rewrite (deref_contents _ _ _ Ho). apply wp_lift_end; [done|]. intros ? [= <-].
  by rewrite (object_id _ _ _ _ _ I Ho).
Qed.

Lemma table_of_wp (s : contract_db) (k : index_kind) (o : object) :
  db_ok s -> contents (objects s k) !! o_id o = Some o -> is_Some (_table_cache (stores s k) !! t_id o) ->
  wp Exc (table_of k o) (fun t s' => s' = s /\ contents (tables s) !! t_id o = Some t) s.
Proof.
  intros I Ho [[p ei] Hc]. unfold table_of. apply wp_get. unfold get_table. rewrite Hc.
  apply wp_lift; [done|]. intros ? [= <-]. destruct (so_cache _ _ (ok_store _ _ I k) _ _ _ Hc) as [-> _].
  destruct (ok_member _ _ I k _ _ Ho) as [t Ht]. rewrite (deref_contents _ _ _ Ht).
  apply wp_lift_end; [done|]. by intros ? [= <-].
Qed.

(** Why an iterator is refused: it leads to no object, or to one of another contract. *)
Definition refused_at (s : contract_db) (k : index_kind) (it : Z) (e : exn) : Prop :=
  store_get (stores s k) it = Throw e \/
  e = table_access_violation /\ exists i o t, store_get (stores s k) it = Ok i /\ contents (objects s k) !! i = Some o /\
    contents (tables s) !! t_id o = Some t /\ ti_code t <> receiver env.

Lemma own_object_wp (s : contract_db) (k : index_kind) (it : Z) :
  db_ok s -> (forall e, refused_at s k it e -> Exc e) ->
  wp Exc (own_object env k it) (fun '(o, t) s' => s' = s /\ store_get (stores s k) it = Ok (o_id o) /\
    contents (objects s k) !! o_id o = Some o /\ contents (tables s) !! t_id o = Some t /\ ti_id t = t_id o /\
    ti_code t = receiver env) s.
Proof.
  intros I He. unfold own_object. eapply wp_seq; [apply at_iterator_wp; [done|intros e Hx; apply He; by left]|]. intros o ? (-> & Hg & Ho & Hc).
  eapply wp_seq; [by apply table_of_wp|]. intros t ? (-> & Ht). destruct (Z.eqb_spec (ti_code t) (receiver env)) as [Hr|Hr].
  - apply wp_ret. by rewrite (table_id _ _ _ _ I Ht).
  - apply He. right. split; [done|]. by exists (o_id o), o, t.
Qed.

(** A new table is empty. *)
Lemma total_fresh (s : contract_db) (i : Z) : db_ok s -> contents (tables s) !! i = None -> total s i = 0%nat.
Proof.
  intros I Hi. assert (Hk : forall k, size (in_table i (contents (objects s k))) = 0%nat).
  { intros k. apply map_size_empty_iff, map_eq. intros j. rewrite lookup_empty.
    apply map_lookup_filter_None. right. intros o Ho Ht. simpl in Ht. destruct (ok_member _ _ I k _ _ Ho) as [t E].
    congruence. }
  unfold total, all_kinds. simpl. by rewrite !Hk.
Qed.

Definition table_extends (s s1 : contract_db) : Prop :=
  objects s1 = objects s /\ stores s1 = stores s /\
  forall i t, contents (tables s) !! i = Some t -> contents (tables s1) !! i = Some t.

Lemma find_or_create_wp (s : contract_db) (code scope table payer : Z) :
  db_ok s -> room 1 (tables s) -> (forall e, update_db_usage env payer 1 = Throw e -> Exc e) ->
  wp Exc (find_or_create_table env code scope table payer) (fun t s1 => inv (Some (ti_id t)) s1 /\
    contents (tables s1) !! ti_id t = Some t /\ by_code_scope_table t = [code; scope; table] /\ table_extends s s1) s.
Proof.
  intros I R He. unfold find_or_create_table, find_table. apply wp_bind, wp_get, wp_ret.
  destruct (db_find_by _ _ _) as [t|] eqn:Ef.
  - apply db_find_by_Some in Ef as (i & Ht & Hk). apply wp_ret. rewrite (table_id _ _ _ _ I Ht). split_and!; try done.
    destruct I as [I1 I2 I3 I4 I5]. split; try done. intros j t' Hj. destruct (I4 _ _ Hj) as [Hc Hp]. split; [done|]. auto.
  - apply wp_lift; [intros e Hx; by eapply He, usage_throw|]. intros _ _. apply wp_get, wp_lift.
    { intros e [_ Hn]%db_create_throw. destruct Hn. intros i t Hi. unfold conflict, table_keys. simpl.
      rewrite orb_false_r. apply bool_decide_eq_false_2. intros Hk. by eapply db_find_by_None. }
    intros [u t] Hc. eapply table_ok_create in Hc as (T & -> & Hu & Hn & _); [|apply I|done|done].
    pose proof (table_ok_fresh _ _ _ (ok_tables _ _ I)) as Hf. apply wp_bind, wp_update, wp_ret. simpl.
    rewrite Hu, lookup_insert_eq. split_and!; try done.
    2:{ split; [done|]. split; [done|]. intros i t Hi. simpl. rewrite Hu, lookup_insert_ne; [done|congruence]. }
    pose proof (total_fresh s _ I Hf) as H0. destruct I as [I1 I2 I3 I4 I5]. split; simpl; try done.
    + intros k i o Ho. rewrite Hu. destruct (I3 _ _ _ Ho) as [t Ht]. exists t.
      rewrite lookup_insert_ne; [done|congruence].
    + intros i t. rewrite Hu. intros [[<- <-]|[Hne Hi]]%lookup_insert_Some.
      * simpl. change (total (set_tables u s) (_next_id (tables s))) with (total s (_next_id (tables s))). by rewrite H0.
      * destruct (I4 _ _ Hi) as [H1 H2]. split; [done|]. intros _. by apply H2.
Qed.

(** *** Iterators are only added *)
Definition iters_kept (s s' : contract_db) : Prop :=
  forall k n x, _iterator_to_object (stores s k) !! n = Some x -> _iterator_to_object (stores s' k) !! n = Some x.
Definition same_data (s s' : contract_db) : Prop := tables s' = tables s /\ objects s' = objects s.

Lemma iters_kept_refl (s : contract_db) : iters_kept s s.
Proof. by intros ? ? ?. Qed.
#[local] Hint Resolve iters_kept_refl : core.

Lemma set_store_inv (x : option Z) (s : contract_db) (k : index_kind) (st : iter_store) :
  inv x s -> store_ok st (contents (objects s k)) -> inv x (set_store k st s).
Proof.
  intros [I1 I2 I3 I4 I5] SO. split; try done. intros k'. destruct (decide (k = k')) as [<-|Hne].
  - by rewrite stores_set_eq.
  - rewrite stores_set_ne by done. apply I5.
Qed.

Lemma set_store_kept (s : contract_db) (k : index_kind) (st : iter_store) :
  (forall n x, _iterator_to_object (stores s k) !! n = Some x -> _iterator_to_object st !! n = Some x) ->
  iters_kept s (set_store k st s).
Proof.
  intros Hk k' n x Hn. destruct (decide (k = k')) as [<-|Hne]; [rewrite stores_set_eq; by apply Hk|].
  by rewrite stores_set_ne.
Qed.

Lemma cache_wp (x : option Z) (s : contract_db) (k : index_kind) (t : Z) :
  inv x s -> wp Exc (cache k t) (fun ei s' => inv x s' /\ same_data s s' /\ iters_kept s s' /\
    _table_cache (stores s' k) !! t = Some (t, ei) /\
    forall i y, _table_cache (stores s k) !! i = Some y -> _table_cache (stores s' k) !! i = Some y) s.
Proof.
  intros I. unfold cache. apply wp_get. destruct (cache_table (stores s k) t) as [st ei] eqn:E.
  destruct (cache_table_ok _ _ _ _ _ (ok_store _ _ I k) E) as (SO & Hc & Hm & Hi & _).
  apply wp_bind, wp_update, wp_ret. rewrite stores_set_eq. split_and!; try done; [by apply set_store_inv|].
  apply set_store_kept. by rewrite Hi.
Qed.

Lemma add_iterator_wp (x : option Z) (s : contract_db) (k : index_kind) (o : object) :
  inv x s -> contents (objects s k) !! o_id o = Some o -> is_Some (_table_cache (stores s k) !! t_id o) ->
  wp Exc (add_iterator k o) (fun it s' => inv x s' /\ same_data s s' /\ iters_kept s s' /\
    store_get (stores s' k) it = Ok (o_id o)) s.
Proof.
  intros I Ho Hc. unfold add_iterator. apply wp_get. destruct (store_add (stores s k) (o_id o)) as [st it] eqn:E.
  destruct (store_add_ok _ _ _ _ _ _ (ok_store _ _ I k) Ho Hc E) as (SO & Hg & Hm & _).
  apply wp_bind, wp_update, wp_ret. rewrite stores_set_eq. split_and!; try done; [by apply set_store_inv|].
  by apply set_store_kept.
Qed.

(** *** A new object *)
Lemma add_object_inv (s : contract_db) (k : index_kind) (u : undo_index object) (tu : undo_index table_id_object)
    (o : object) (tab : table_id_object) :
  inv (Some (t_id o)) s -> contents (tables s) !! t_id o = Some tab -> contents (objects s k) !! o_id o = None ->
  table_ok (object_keys k) o_id u -> contents u = <[o_id o := o]> (contents (objects s k)) ->
  table_ok table_keys ti_id tu -> contents tu = alter (add_count 1) (t_id o) (contents (tables s)) ->
  Z.of_nat (total s (t_id o)) + 1 < 2 ^ 32 -> db_ok (set_tables tu (set_objects k u s)).
Proof.
  intros [I1 I2 I3 I4 I5] Ht Hf Tu Hu Tt Htu Hb.
  assert (Htot : forall i, total (set_tables tu (set_objects k u s)) i =
            (total s i + if bool_decide (t_id o = i) then 1 else 0)%nat).
  { intros i. change (total (set_tables tu (set_objects k u s)) i) with (total (set_objects k u s) i).
    enough (total (set_objects k u s) i + 0 = total s i + if bool_decide (t_id o = i) then 1 else 0)%nat by lia.
    apply total_set. rewrite Hu, in_table_insert by done. lia. }
  split; simpl; try done.
  - intros k'. destruct (decide (k = k')) as [<-|]; [done|apply I2].
  - intros k' i o' Ho'. rewrite Htu, lookup_alter_is_Some. destruct (decide (k = k')) as [<-|]; [|by eapply I3].
    rewrite Hu in Ho'. apply lookup_insert_Some in Ho' as [[<- <-]|[_ Ho']]; [by exists tab|by eapply I3].
  - intros i t. rewrite Htu, Htot. intros Hi. destruct (decide (t_id o = i)) as [<-|Hne].
    + rewrite lookup_alter_eq, Ht in Hi. injection Hi as <-. destruct (I4 _ _ Ht) as [Hc _]. simpl.
      rewrite Hc, bool_decide_eq_true_2 by done. rewrite wrap_small by (split; lia). lia.
    + rewrite lookup_alter_ne in Hi by done. destruct (I4 _ _ Hi) as [Hc Hp].
      rewrite bool_decide_eq_false_2, Nat.add_0_r by done. split; [done|]. intros _. apply Hp. congruence.
  - intros k'. destruct (decide (k = k')) as [<-|]; [|apply I5]. rewrite Hu. eapply store_ok_mono; [apply I5|].
    intros i o' Ho'. exists o'. split; [|done]. rewrite lookup_insert_ne; [done|congruence].
Qed.

Lemma add_count_keeps (d : Z) : keeps_keys table_keys (add_count d).
Proof. intros t. by repeat constructor. Qed.

Record stored (s s' : contract_db) (k : index_kind) (o : object) : Prop := {
  st_new : contents (objects s k) !! o_id o = None;
  st_free : free (object_keys k) (contents (objects s k)) o;
  st_here : contents (objects s' k) = <[o_id o := o]> (contents (objects s k));
  st_there : forall k', k <> k' -> objects s' k' = objects s k';
  st_tables : contents (tables s') = alter (add_count 1) (t_id o) (contents (tables s))
}.

(** The secondary key contains the primary key: only the primary key can be taken. *)
Lemma conflict_primary (k : index_kind) (o o' : object) :
  conflict (object_keys k) o o' = true -> by_primary o = by_primary o'.
Proof.
  unfold conflict. rewrite existsb_exists. intros (f & Hin & Hf%bool_decide_eq_true).
  assert (f = by_primary \/ f = by_secondary k) as [-> | -> ] by (destruct k; simpl in Hin; naive_solver); [done|].
  injection Hf as E1 _ E2. unfold by_primary. by rewrite E1, E2.
Qed.

Lemma not_free (k : index_kind) (m : gmap Z object) (o : object) :
  ~ free (object_keys k) m o -> exists i o', m !! i = Some o' /\ by_primary o' = by_primary o.
Proof.
  intros Hn. destruct (decide (map_Forall (fun _ o' => by_primary o' <> by_primary o) m)) as [Hd|Hd].
  - destruct Hn. intros i w Hw. apply not_true_iff_false. intros Hc%conflict_primary. by eapply Hd.
  - apply map_not_Forall in Hd as (i & o' & Ho' & Hx); [|apply _]. exists i, o'. split; [done|]. by apply dec_stable.
Qed.

Lemma store_object_wp (s : contract_db) (k : index_kind) (tab : table_id_object) (payer id : Z) (v : payload) :
  inv (Some (ti_id tab)) s -> contents (tables s) !! ti_id tab = Some tab -> room 1 (objects s k) ->
  Z.of_nat (total s (ti_id tab)) + 1 < 2 ^ 32 -> (forall e, update_db_usage env payer 1 = Throw e -> Exc e) ->
  (forall i o, contents (objects s k) !! i = Some o -> by_primary o = [ti_id tab; id] -> Exc logic_error) ->
  wp Exc (store_object env k tab payer id v) (fun it s' => db_ok s' /\ iters_kept s s' /\
    exists j, stored s s' k (mk_object j (ti_id tab) id payer v) /\ store_get (stores s' k) it = Ok j) s.
Proof.
  intros I Ht R Hb He Hd. unfold store_object. apply wp_bind. unfold create_object. apply wp_get, wp_lift.
  { intros e [-> Hn]%db_create_throw. destruct (not_free _ _ _ Hn) as (i & o & Ho & Hk). by eapply Hd. }
  intros [u o] Hc. eapply table_ok_create in Hc as (Tu & -> & Hu & _ & Hfree); [|apply I|done|done].
  pose proof (table_ok_fresh _ _ _ (ok_objects _ _ I k)) as Hf.
  set (o := mk_object _ _ _ _ _) in *. apply wp_bind, wp_update, wp_ret.
  apply wp_bind. unfold modify_table. apply wp_get.
  destruct (db_modify_ok table_keys (tables s) (ti_id tab) (add_count 1) tab Ht) as [tu Em];
    [apply I|apply add_count_keeps|].
  simpl tables. rewrite Em. apply wp_lift; [done|]. intros ? [= <-]. apply wp_update.
  apply table_ok_modify with (id_of := ti_id) in Em as (Tt & Htu & _); [|apply I|apply add_count_keeps|done].
  pose proof (add_object_inv s k u tu o tab I Ht Hf Tu Hu Tt Htu Hb) as I'.
  set (s1 := set_tables tu (set_objects k u s)) in *.
  assert (Ho : contents (objects s1 k) !! o_id o = Some o).
  { change (objects s1 k) with (objects (set_objects k u s) k). rewrite objects_set_eq, Hu. apply lookup_insert_eq. }
  assert (S1 : stored s s1 k o).
  { split; [done|done| | |done].
    - change (objects s1 k) with (objects (set_objects k u s) k). by rewrite objects_set_eq.
    - intros k' Hk. change (objects s1 k') with (objects (set_objects k u s) k'). by rewrite objects_set_ne. }
  assert (K1 : iters_kept s s1) by (intros ? ? ? Hn; exact Hn). clearbody s1.
  apply wp_lift; [intros e Hx; by eapply He, usage_throw|]. intros _ _.
  eapply wp_seq; [by apply cache_wp|]. intros ei s2 (I2 & [D1 D2] & K2 & Hc2 & _).
  eapply wp_mono; [apply add_iterator_wp; [exact I2|by rewrite D2|by eexists]|].
  intros it s3 (I3 & [D3 D4] & K3 & Hg). split; [done|]. split.
  { intros k' n x Hn. by apply K3, K2, K1. }
  exists (_next_id (objects s k)). split; [|exact Hg]. destruct S1 as [H1 H2 H3 H4 H5].
  split; rewrite ?D4, ?D3, ?D2, ?D1; done.
Qed.

(** *** A new value *)
Lemma modify_object_wp (s : contract_db) (k : index_kind) (o : object) (payer : Z) (v : payload) :
  db_ok s -> contents (objects s k) !! o_id o = Some o ->
  wp Exc (modify_object k (o_id o) (set_value payer v)) (fun _ s' => db_ok s' /\ tables s' = tables s /\
    stores s' = stores s /\ contents (objects s' k) = <[o_id o := set_value payer v o]> (contents (objects s k)) /\
    forall k', k <> k' -> objects s' k' = objects s k') s.
Proof.
  intros I Ho. unfold modify_object. apply wp_get.
  destruct (db_modify_free (object_keys k) (objects s k) (o_id o) (set_value payer v) o Ho) as [u Hm].
  { intros j w [Hne Hw]%lookup_delete_Some. apply not_true_iff_false. intros Hc%conflict_primary.
    pose proof (by_primary_unique _ _ _ _ _ I Ho) as Hu. pose proof (by_primary_unique _ _ _ _ _ I Hw) as Hu'.
    injection Hc as E1 E2. rewrite <- E1, <- E2, Hu in Hu'. injection Hu' as <-. by rewrite (object_id _ _ _ _ _ I Hw) in Hne. }
  rewrite Hm. apply wp_lift; [done|]. intros ? [= <-]. apply table_ok_rekey with (id_of := o_id) in Hm as (Tu & Hu & _); [|apply I|done].
  apply wp_update.
  assert (Hu' : contents u = <[o_id o := set_value payer v o]> (contents (objects s k))).
  { rewrite Hu. apply map_eq. intros i. destruct (decide (o_id o = i)) as [<-|].
    - by rewrite lookup_alter_eq, lookup_insert_eq, Ho.
    - by rewrite lookup_alter_ne, lookup_insert_ne. }
  rewrite objects_set_eq. split_and!; try done; [|by intros; apply objects_set_ne].
  destruct I as [I1 I2 I3 I4 I5]. split; simpl; try done.
  - intros k'. destruct (decide (k = k')) as [<-|]; [done|apply I2].
  - intros k' i o' Ho'. destruct (decide (k = k')) as [<-|]; [|by eapply I3]. rewrite Hu' in Ho'.
    apply lookup_insert_Some in Ho' as [[<- <-]|[_ Ho']]; [apply (I3 _ _ _ Ho)|by eapply I3].
  - intros i t Hi. enough (total (set_objects k u s) i = total s i) as -> by (by apply I4).
    enough (total (set_objects k u s) i + 0 = total s i + 0)%nat by lia. apply total_set.
    rewrite Hu, in_table_alter; done.
  - intros k'. destruct (decide (k = k')) as [<-|]; [|apply I5]. rewrite Hu'. eapply store_ok_mono; [apply I5|].
    intros i o' Ho'. destruct (decide (o_id o = i)) as [<-|].
    + rewrite lookup_insert_eq. eexists. split; [done|]. rewrite Ho in Ho'. by simplify_eq.
    + rewrite lookup_insert_ne by done. eauto.
Qed.

(** *** The end of an object *)
Lemma total_other (s s' : contract_db) (k : index_kind) (i : Z) (a b : nat) :
  (forall k', k <> k' -> contents (objects s' k') = contents (objects s k')) ->
  (size (in_table i (contents (objects s' k))) + a = size (in_table i (contents (objects s k))) + b)%nat ->
  (total s' i + a = total s i + b)%nat.
Proof.
  intros Hk H. unfold total, all_kinds. simpl.
  destruct k; try rewrite (Hk key_value) by done; try rewrite (Hk index64) by done; try rewrite (Hk index128) by done;
    try rewrite (Hk index256) by done; try rewrite (Hk index_double) by done; try rewrite (Hk index_long_double) by done; lia.
Qed.

Lemma remove_object_inv (s s' : contract_db) (k : index_kind) (o : object) (tab : table_id_object) :
  db_ok s -> contents (objects s k) !! o_id o = Some o -> contents (tables s) !! t_id o = Some tab ->
  table_ok (object_keys k) o_id (objects s' k) -> contents (objects s' k) = delete (o_id o) (contents (objects s k)) ->
  (forall k', k <> k' -> objects s' k' = objects s k' /\ stores s' k' = stores s k') ->
  store_ok (stores s' k) (contents (objects s' k)) ->
  table_ok table_keys ti_id (tables s') ->
  contents (tables s') = (if ti_count tab =? 1 then delete (t_id o) (contents (tables s))
                          else alter (add_count (-1)) (t_id o) (contents (tables s))) ->
  Z.of_nat (total s (t_id o)) < 2 ^ 32 -> db_ok s'.
Proof.
  intros I Ho Ht Tu Hu Hk SO Tt Htu Hb.
  assert (Htot : forall i, (total s' i + (if bool_decide (t_id o = i) then 1 else 0) = total s i)%nat).
  { intros i. enough (total s' i + (if bool_decide (t_id o = i) then 1 else 0) = total s i + 0)%nat by lia.
    apply (total_other s s' k); [by intros k' Hne; destruct (Hk k' Hne) as [-> _]|].
    rewrite Hu, (in_table_delete i _ _ o) by done. lia. }
  destruct I as [I1 I2 I3 I4 I5]. destruct (I4 _ _ Ht) as [Hc Hp]. specialize (Hp ltac:(done)).
  assert (Hmem : forall k' i o', contents (objects s' k') !! i = Some o' ->
            is_Some (contents (tables s) !! t_id o') /\ (t_id o' = t_id o -> ti_count tab <> 1)).
  { intros k' i o' Ho'. pose proof (total_pos s' k' i o' Ho') as Hpos. split.
    - destruct (decide (k = k')) as [<-|Hne]; [|by destruct (Hk k' Hne) as [E _]; rewrite E in Ho'; eapply I3].
      rewrite Hu in Ho'. apply lookup_delete_Some in Ho' as [_ Ho']. by eapply I3.
    - intros E. specialize (Htot (t_id o)). rewrite bool_decide_eq_true_2 in Htot by done. rewrite E in Hpos. lia. }
  split; try done.
  - intros k'. destruct (decide (k = k')) as [<-|Hne]; [done|]. destruct (Hk k' Hne) as [-> _]. apply I2.
  - intros k' i o' Ho'. destruct (Hmem _ _ _ Ho') as [Hs Hn]. rewrite Htu. destruct (Z.eqb_spec (ti_count tab) 1).
    + rewrite lookup_delete_ne; [done|]. intros E. by apply Hn.
    + by rewrite lookup_alter_is_Some.
  - intros i t Hi. specialize (Htot i). rewrite Htu in Hi. destruct (Z.eqb_spec (ti_count tab) 1) as [H1|H1].
    + apply lookup_delete_Some in Hi as [Hne Hi]. destruct (I4 _ _ Hi) as [Hci Hpi].
      rewrite bool_decide_eq_false_2, Nat.add_0_r in Htot by done. rewrite Htot. auto.
    + destruct (decide (t_id o = i)) as [<-|Hne].
      * rewrite lookup_alter_eq, Ht in Hi. injection Hi as <-. simpl. rewrite bool_decide_eq_true_2 in Htot by done.
        rewrite wrap_small by (split; lia). lia.
      * rewrite lookup_alter_ne in Hi by done. destruct (I4 _ _ Hi) as [Hci Hpi].
        rewrite bool_decide_eq_false_2, Nat.add_0_r in Htot by done. rewrite Htot. auto.
  - intros k'. destruct (decide (k = k')) as [<-|Hne]; [done|]. destruct (Hk k' Hne) as [-> ->]. apply I5.
Qed.

Record removed (s s' : contract_db) (k : index_kind) (it : Z) (o : object) : Prop := {
  rm_here : contents (objects s' k) = delete (o_id o) (contents (objects s k));
  rm_there : forall k', k <> k' -> objects s' k' = objects s k' /\ stores s' k' = stores s k';
  rm_tables : forall i t, i <> t_id o -> contents (tables s') !! i = Some t <-> contents (tables s) !! i = Some t;
  rm_table : forall t, contents (tables s) !! t_id o = Some t ->
    contents (tables s') !! t_id o = if ti_count t =? 1 then None else Some (add_count (-1) t);
  rm_iters : forall n x, n <> Z.to_nat it -> _iterator_to_object (stores s k) !! n = Some x ->
    _iterator_to_object (stores s' k) !! n = Some x;
  rm_gone : _iterator_to_object (stores s' k) !! Z.to_nat it = Some None
}.

Lemma remove_at_wp (s : contract_db) (k : index_kind) (it : Z) :
  db_ok s -> (forall i, Z.of_nat (total s i) < 2 ^ 32) -> (forall e, refused_at s k it e -> Exc e) ->
  wp Exc (remove_at env k it) (fun _ s' => db_ok s' /\ exists o t, store_get (stores s k) it = Ok (o_id o) /\
    contents (objects s k) !! o_id o = Some o /\ contents (tables s) !! t_id o = Some t /\
    ti_code t = receiver env /\ removed s s' k it o) s.
Proof.
  intros I Hb He. unfold remove_at. eapply wp_seq; [by apply own_object_wp|].
  intros [o t] ? (-> & Hg & Ho & Ht & Hid & Hr).
  rewrite usage_refund by (pose proof (object_size_nonneg k (o_value o)); lia). apply wp_lift; [done|]. intros _ _.
  destruct (ok_count _ _ I _ _ Ht) as [Hc Hp]. specialize (Hp ltac:(done)). specialize (Hb (t_id o)).
  rewrite Hid. apply wp_bind. unfold modify_table. apply wp_get.
  destruct (db_modify_ok table_keys (tables s) (t_id o) (add_count (-1)) t Ht) as [tu Em];
    [apply I|apply add_count_keeps|].
  rewrite Em. apply wp_lift; [done|]. intros ? [= <-]. apply wp_update.
  apply table_ok_modify with (id_of := ti_id) in Em as (Tt & Htu & _); [|apply I|apply add_count_keeps|done].
  apply wp_get. simpl objects. destruct (db_remove_ok _ _ _ Ho) as [u Er]. rewrite Er.
  apply wp_lift; [done|]. intros ? [= <-]. apply table_ok_remove with (id_of := o_id) (unique_keys := object_keys k) in Er as (Tu & Hu & _);
    [|apply I]. apply wp_bind, wp_update, wp_get. simpl tables.
  assert (Ht' : contents tu !! t_id o = Some (add_count (-1) t)) by (by rewrite Htu, lookup_alter_eq, Ht).
  rewrite (deref_contents _ _ _ Ht'). apply wp_lift; [done|]. intros ? [= <-].
  assert (Hz : (ti_count (add_count (-1) t) =? 0) = (ti_count t =? 1)).
  { simpl. rewrite wrap_small by (split; lia). destruct (Z.eqb_spec (ti_count t) 1); [apply Z.eqb_eq|apply Z.eqb_neq]; lia. }
  rewrite Hz. destruct (store_remove_ok _ _ _ _ (ok_store _ _ I k) Hg) as (st & Es & SO & Hkeep & Hgone).
  set (s1 := set_objects k u (set_tables tu s)).
  assert (Hend : forall tf, table_ok table_keys ti_id tf ->
    contents tf = (if ti_count t =? 1 then delete (t_id o) (contents (tables s))
                   else alter (add_count (-1)) (t_id o) (contents (tables s))) ->
    let s' := set_store k st (set_tables tf s1) in db_ok s' /\ removed s s' k it o).
  { intros tf Tf Hf s'. assert (Hk : forall k', k <> k' -> objects s' k' = objects s k' /\ stores s' k' = stores s k').
    { intros k' Hne. split; [apply (objects_set_ne (set_tables tu s) k k' u Hne)|apply (stores_set_ne s k k' st Hne)]. }
    assert (Hs' : stores s' k = st) by apply (stores_set_eq s). assert (Ho' : objects s' k = u) by apply (objects_set_eq s).
    split.
    - eapply (remove_object_inv s s' k o t); rewrite ?Hs', ?Ho', ?Hu; done.
    - split; rewrite ?Ho', ?Hs'; try done.
      + intros i x Hne. simpl. rewrite Hf. destruct (_ =? 1); [by rewrite lookup_delete_ne|by rewrite lookup_alter_ne].
      + intros x Hx. simpl. rewrite Hf. rewrite Ht in Hx. injection Hx as <-.
        destruct (_ =? 1); [by rewrite lookup_delete_eq|by rewrite lookup_alter_eq, Ht]. }
  destruct (ti_count t =? 1) eqn:E1; cbn [when].
  - apply wp_bind. unfold remove_table. rewrite usage_refund by done. apply wp_lift; [done|]. intros _ _. apply wp_get.
    change (ti_id (add_count (-1) t)) with (ti_id t). rewrite Hid. simpl tables.
    destruct (db_remove_ok _ _ _ Ht') as [tf Ef]. rewrite Ef. apply wp_lift; [done|]. intros ? [= <-]. apply wp_update.
    apply table_ok_remove with (id_of := ti_id) (unique_keys := table_keys) in Ef as (Tf & Hf & _); [|done].
    apply wp_get. simpl stores. rewrite Es. apply wp_lift; [done|]. intros ? [= <-]. apply wp_update.
    destruct (Hend tf Tf) as [Hok Hrm]; [by rewrite Hf, Htu, delete_alter_eq|]. split; [done|]. by exists o, t.
  - apply wp_bind, wp_ret, wp_get. simpl stores. rewrite Es. apply wp_lift; [done|]. intros ? [= <-]. apply wp_update.
    destruct (Hend tu Tt Htu) as [Hok Hrm]. split; [done|]. by exists o, t.
Qed.

(** *** Searching *)

(** [it] is the end iterator of the table [t]. *)
Definition ends (s : contract_db) (k : index_kind) (it t : Z) : Prop := _table_cache (stores s k) !! t = Some (t, it).

Definition found_at (s : contract_db) (k : index_kind) (it : Z) (o : object) : Prop :=
  store_get (stores s k) it = Ok (o_id o) /\ contents (objects s k) !! o_id o = Some o.

Lemma search_wp (s : contract_db) (k : index_kind) (code scope table : Z)
    (find : undo_index object -> Z -> option object) :
  db_ok s -> (forall u t o, find u t = Some o -> exists i, contents u !! i = Some o) ->
  wp Exc (search k code scope table find) (fun '(it, found) s' => db_ok s' /\ same_data s s' /\ iters_kept s s' /\
    match db_find_by by_code_scope_table (tables s) [code; scope; table] with
    | None => it = -1 /\ found = None
    | Some t =>
        match find (objects s k) (ti_id t) with
        | Some o => if t_id o =? ti_id t then found = Some o /\ found_at s' k it o
                    else found = None /\ ends s' k it (ti_id t)
        | None => found = None /\ ends s' k it (ti_id t)
        end
    end) s.
Proof.
  intros I Hfind. unfold search, find_table. apply wp_bind, wp_get, wp_ret.
  destruct (db_find_by _ _ _) as [t|] eqn:Et; [|by apply wp_ret].
  eapply wp_seq; [by apply cache_wp|]. intros ei s1 (I1 & [D1 D2] & K1 & Hc & Hm). apply wp_get. rewrite D2.
  destruct (find (objects s k) (ti_id t)) as [o|] eqn:Ef; [|by apply wp_ret].
  destruct (Z.eqb_spec (t_id o) (ti_id t)) as [E|]; [|by apply wp_ret].
  destruct (Hfind _ _ _ Ef) as [i Hi]. pose proof (object_id _ _ _ _ _ I Hi) as Hid. rewrite <- Hid in Hi.
  eapply wp_seq; [apply add_iterator_wp; [exact I1|by rewrite D2|rewrite E; by eexists]|].
  intros it s2 (I2 & [D3 D4] & K2 & Hg). apply wp_ret. split; [done|]. split; [split; congruence|].
  split; [intros k' n x Hn; by apply K2, K1|]. split; [done|]. split; [done|]. by rewrite D4, D2.
Qed.

(** What an iterator moves to: an object of the same table, or the end that is given. *)
Lemma next_wp (s : contract_db) (f : object -> list Z) (k : index_kind) (it : Z) :
  db_ok s -> (forall e, store_get (stores s k) it = Throw e -> Exc e) ->
  wp Exc (next_at f k it) (fun '(it', found) s' => db_ok s' /\ same_data s s' /\ iters_kept s s' /\
    if it <? -1 then it' = -1 /\ found = None
    else exists o, found_at s k it o /\
      match object_after f (objects s k) o with
      | Some x => if t_id x =? t_id o then found = Some x /\ found_at s' k it' x
                  else found = None /\ ends s' k it' (t_id o)
      | None => found = None /\ ends s' k it' (t_id o)
      end) s.
Proof.
  intros I He. unfold next_at. destruct (it <? -1); [by apply wp_ret|].
  eapply wp_seq; [by apply at_iterator_wp|]. intros o ? (-> & Hg & Ho & [[p ei] Hc]). apply wp_get.
  destruct (so_cache _ _ (ok_store _ _ I k) _ _ _ Hc) as [-> _].
  assert (Hend : forall P : Prop, P -> wp Exc (ei ← lift (get_end_iterator_by_table_id (stores s k) (t_id o)); mret (ei, None))
    (fun '(it', found) s' => db_ok s' /\ same_data s s' /\ iters_kept s s' /\ found = (None : option object) /\ ends s' k it' (t_id o) /\ P) s).
  { intros P HP. unfold get_end_iterator_by_table_id. rewrite Hc. apply wp_lift; [done|]. intros ? [= <-]. by apply wp_ret. }
  destruct (object_after f (objects s k) o) as [x|] eqn:Ex.
  - destruct (Z.eqb_spec (t_id x) (t_id o)) as [E|Hne].
    + destruct (first_in _ _ _ _ Ex) as [i Hi]. pose proof (object_id _ _ _ _ _ I Hi) as Hid. rewrite <- Hid in Hi.
      eapply wp_seq; [apply (add_iterator_wp None); [done|exact Hi|rewrite E; by eexists]|].
      intros it' s' (I' & D & K & Hg'). apply wp_ret. split_and!; try done. exists o. split; [done|].
      rewrite Ex, (proj2 (Z.eqb_eq _ _) E). split; [done|]. split; [done|]. by destruct D as [_ ->].
    + eapply wp_mono; [by apply (Hend True)|]. intros [it' found] s' (I' & D & K & -> & Hz & _). split_and!; try done.
      exists o. split; [done|]. rewrite Ex, (proj2 (Z.eqb_neq _ _) Hne). done.
  - eapply wp_mono; [by apply (Hend True)|]. intros [it' found] s' (I' & D & K & -> & Hz & _). split_and!; try done.
    exists o. split; [done|]. by rewrite Ex.
Qed.

(** An end iterator that can be moved back: its table still exists. *)
Definition live_end (s : contract_db) (k : index_kind) (it : Z) : Prop :=
  it < -1 -> it <> - 2 ^ 31 /\
    forall i, _end_iterator_to_table (stores s k) !! Z.to_nat (- it - 2) = Some i -> is_Some (contents (tables s) !! i).

Lemma previous_end_wp (s : contract_db) (k : index_kind) (x : option object) (t : Z) :
  db_ok s -> (forall o, x = Some o -> exists i, contents (objects s k) !! i = Some o) ->
  (x <> None -> is_Some (_table_cache (stores s k) !! t)) ->
  wp Exc (match x with
           | None => mret (-1, None)
           | Some o => if t_id o =? t then it ← add_iterator k o; mret (it, Some o) else mret (-1, None)
           end) (fun '(it', found) s' => db_ok s' /\ same_data s s' /\ iters_kept s s' /\
    match x with
    | Some o => if t_id o =? t then found = Some o /\ found_at s' k it' o else it' = -1 /\ found = None
    | None => it' = -1 /\ found = None
    end) s.
Proof.
  intros I Hx Hc. destruct x as [o|]; [|by apply wp_ret]. destruct (Z.eqb_spec (t_id o) t) as [E|]; [|by apply wp_ret].
  destruct (Hx o eq_refl) as [i Hi]. pose proof (object_id _ _ _ _ _ I Hi) as Hid. rewrite <- Hid in Hi.
  eapply wp_seq; [apply (add_iterator_wp None); [done|exact Hi|rewrite E; by apply Hc]|].
  intros it' s' (I' & D & K & Hg). apply wp_ret. split_and!; try done. split; [done|]. by destruct D as [_ ->].
Qed.

Lemma previous_wp (s : contract_db) (f : object -> list Z) (k : index_kind) (it : Z) :
  db_ok s -> live_end s k it -> (-1 <= it -> forall e, store_get (stores s k) it = Throw e -> Exc e) ->
  (it < -1 -> _end_iterator_to_table (stores s k) !! Z.to_nat (- it - 2) = None -> Exc invalid_table_iterator) ->
  wp Exc (previous_at f k it) (fun '(it', found) s' => db_ok s' /\ same_data s s' /\ iters_kept s s' /\
    exists x t, (if it <? -1 then ends s k it t /\ x = last_upto f (objects s k) [t]
                 else exists o, found_at s k it o /\ t = t_id o /\ x = object_before f (objects s k) o) /\
      match x with
      | Some o => if t_id o =? t then found = Some o /\ found_at s' k it' o else it' = -1 /\ found = None
      | None => it' = -1 /\ found = None
      end) s.
Proof.
  intros I L He Hnone. unfold previous_at. apply wp_get. destruct (Z.ltb_spec it (-1)) as [Hlt|Hge].
  - destruct (L Hlt) as [Hmin Hlive]. apply wp_bind, wp_lift.
    { unfold find_table_by_end_iterator, end_iterator_to_index. rewrite (proj2 (Z.ltb_lt it (-1))) by done.
      rewrite (proj2 (Z.eqb_neq it _)) by done. done. }
    unfold find_table_by_end_iterator, end_iterator_to_index. rewrite (proj2 (Z.ltb_lt it (-1))) by done.
    rewrite (proj2 (Z.eqb_neq it _)) by done. intros tab [= <-].
    destruct (_ !! Z.to_nat (- it - 2)) as [i|] eqn:Ei; [|by apply wp_throw, Hnone].
    destruct (Hlive i eq_refl) as [t Ht]. rewrite (deref_contents _ _ _ Ht). apply wp_lift; [done|]. intros ? [= <-]. apply wp_ret.
    rewrite (table_id _ _ _ _ I Ht). pose proof (so_ends _ _ (ok_store _ _ I k) _ _ Ei) as Hc.
    assert (Hei : ends s k it i).
    { unfold ends. rewrite Hc. do 2 f_equal. unfold index_to_end_iterator. lia. }
    eapply wp_mono; [apply previous_end_wp; [done| |by eexists]|].
    + intros o Ho. by apply last_in in Ho.
    + intros [it' found] s' (I' & D & K & Hr). split_and!; try done. eexists _, i. split; [by split|]. exact Hr.
  - apply wp_bind. eapply wp_seq; [by apply at_iterator_wp; [|apply He]|]. intros o ? (-> & Hg & Ho & Hc). apply wp_ret.
    eapply wp_mono; [apply previous_end_wp; [done| |done]|].
    + intros x Hx. by apply last_in in Hx.
    + intros [it' found] s' (I' & D & K & Hr). split_and!; try done. eexists _, (t_id o). split; [|exact Hr].
      by exists o.
Qed.
End operations.

#[export] Hint Resolve iters_kept_refl : core.
