(* ===== verification/ContractTableSpec.v ===== *)
(** * The tables of contracts as maps

    The abstract view of the tables of contracts: for each index, contract, scope and table a map from primary
    keys to rows ([rows]), and iterators that lead to rows ([points]). Every host function is one [call]; the
    theorems say what a call does in this view, that it keeps the tables consistent, and when it reads memory
    that was freed. *)

From S2P Require Import Prelude Lex Effects Types Authority UndoIndex Database AuthorizationManager SystemContract.
From S2P Require Import ContractTables ContractTableProofs.

(** ** The view *)

(** The payer and the value of a row. *)
Abbreviation row := (account_name * payload)%type.

Definition row_of (o : object) : row := (o_payer o, o_value o).

Definition rows (s : contract_db) (k : index_kind) (key : list Z) (p : Z) : option row :=
  t ← db_find_by by_code_scope_table (tables s) key;
  o ← db_find_by by_primary (objects s k) [ti_id t; p];
  Some (row_of o).

(** The table and the primary key of the row at an iterator. *)
Definition points (s : contract_db) (k : index_kind) (it : Z) : option (list Z * Z) :=
  match store_get (stores s k) it with
  | Ok i =>
      o ← contents (objects s k) !! i;
      t ← contents (tables s) !! t_id o;
      Some (by_code_scope_table t, primary_key o)
  | Throw _ => None
  end.

(** The map with one row changed. *)
Definition put (m : index_kind -> list Z -> Z -> option row) (k : index_kind) (key : list Z) (p : Z) (r : option row) :
    index_kind -> list Z -> Z -> option row :=
  fun k' key' p' => if decide (k' = k /\ key' = key /\ p' = p) then r else m k' key' p'.

Definition same_rows (m m' : index_kind -> list Z -> Z -> option row) : Prop := forall k key p, m k key p = m' k key p.

(** The two orders of an index, and the place of a row in them. *)
Inductive ordering := in_primary | in_secondary.

Definition index_key (d : ordering) (k : index_kind) : object -> list Z :=
  match d with in_primary => by_primary | in_secondary => by_secondary k end.

Definition place (d : ordering) (k : index_kind) (p : Z) (r : row) : list Z :=
  match d with
  | in_primary => [p]
  | in_secondary => [match snd r with secondary v => secondary_rank k v | blob _ => 0 end; p]
  end.

(** *** Objects and rows *)
Lemma index_key_place (d : ordering) (k : index_kind) (o : object) :
  index_key d k o = t_id o :: place d k (primary_key o) (row_of o).
Proof. by destruct d. Qed.

Lemma by_table_unique (x : option Z) (s : contract_db) (i : Z) (t : table_id_object) :
  inv x s -> contents (tables s) !! i = Some t ->
  db_find_by by_code_scope_table (tables s) (by_code_scope_table t) = Some t.
Proof. intros I Ht. eapply (db_find_by_unique table_keys); [left|apply (ok_tables _ _ I)|exact Ht]. Qed.

Lemma rows_holds (x : option Z) (s : contract_db) (k : index_kind) (key : list Z) (o : object) :
  inv x s -> holds s k key o -> rows s k key (primary_key o) = Some (row_of o).
Proof.
  intros I (Ho & t & Ht & <-). unfold rows. rewrite (by_table_unique _ _ _ _ I Ht). simpl.
  rewrite (table_id _ _ _ _ I Ht), (by_primary_unique _ _ _ _ _ I Ho). done.
Qed.

Lemma rows_Some (x : option Z) (s : contract_db) (k : index_kind) (key : list Z) (p : Z) (r : row) :
  inv x s -> rows s k key p = Some r <-> exists o, holds s k key o /\ primary_key o = p /\ row_of o = r.
Proof.
  intros I. split.
  - unfold rows. destruct (db_find_by by_code_scope_table _ _) as [t|] eqn:Et; simpl; [|done].
    destruct (db_find_by by_primary _ _) as [o|] eqn:Eo; simpl; [|done]. intros [= <-].
    apply db_find_by_Some in Et as (i & Ht & Hk). apply db_find_by_Some in Eo as (j & Ho & [= Hid <-]).
    exists o. split_and!; try done. pose proof (object_id _ _ _ _ _ I Ho) as Hj. rewrite <- Hj in Ho. split; [done|].
    exists t. rewrite Hid. by rewrite (table_id _ _ _ _ I Ht).
  - intros (o & H & <- & <-). by eapply rows_holds.
Qed.

Lemma holds_unique (x : option Z) (s : contract_db) (k : index_kind) (key : list Z) (o o' : object) :
  inv x s -> holds s k key o -> holds s k key o' -> primary_key o = primary_key o' -> o = o'.
Proof.
  intros I (Ho & t & Ht & Hk) (Ho' & t' & Ht' & Hk') E.
  pose proof (by_table_unique _ _ _ _ I Ht) as Hu. pose proof (by_table_unique _ _ _ _ I Ht') as Hu'.
  rewrite Hk in Hu. rewrite Hk', Hu in Hu'. injection Hu' as <-.
  pose proof (by_primary_unique _ _ _ _ _ I Ho) as Hp. pose proof (by_primary_unique _ _ _ _ _ I Ho') as Hp'.
  rewrite <- (table_id _ _ _ _ I Ht), E in Hp. rewrite <- (table_id _ _ _ _ I Ht'), Hp in Hp'. congruence.
Qed.

Lemma points_Some (x : option Z) (s : contract_db) (k : index_kind) (it : Z) (key : list Z) (p : Z) :
  inv x s -> points s k it = Some (key, p) <->
    exists o, store_get (stores s k) it = Ok (o_id o) /\ holds s k key o /\ primary_key o = p.
Proof.
  intros I. unfold points. split.
  - destruct (store_get _ _) as [i|]; [|done]. destruct (contents (objects s k) !! i) as [o|] eqn:Ho; simpl; [|done].
    destruct (contents (tables s) !! t_id o) as [t|] eqn:Ht; simpl; [|done]. intros [= <- <-].
    pose proof (object_id _ _ _ _ _ I Ho) as <-. exists o. split_and!; try done. split; [done|]. eauto.
  - intros (o & -> & (-> & t & Ht & <-) & <-). simpl. by rewrite Ht.
Qed.

(** ** Changes of the tables in the view *)

Lemma same_rows_put (x y : option Z) (s s' : contract_db) (k : index_kind) (key : list Z) (p : Z) (r : option row) :
  inv x s -> inv y s' ->
  (forall k' key' o', holds s' k' key' o' /\ ~ (k' = k /\ key' = key /\ primary_key o' = p) <->
                      holds s k' key' o' /\ ~ (k' = k /\ key' = key /\ primary_key o' = p)) ->
  rows s' k key p = r -> same_rows (rows s') (put (rows s) k key p r).
Proof.
  intros I I' Hh Hr k' key' p'. unfold put. destruct (decide _) as [(-> & -> & ->)|Hne]; [done|].
  apply option_eq. intros r'. rewrite (rows_Some _ _ _ _ _ _ I'), (rows_Some _ _ _ _ _ _ I).
  split; intros (o & Ho & <- & <-); exists o; split_and!; try done; apply (Hh k' key' o); by split.
Qed.

Lemma same_data_rows (s s' : contract_db) : same_data s s' -> same_rows (rows s') (rows s).
Proof. intros [Ht Ho] k key p. unfold rows. by rewrite Ht, Ho. Qed.

Lemma store_get_mono (st st' : iter_store) (it i : Z) :
  (forall x, _iterator_to_object st !! Z.to_nat it = Some x -> _iterator_to_object st' !! Z.to_nat it = Some x) ->
  store_get st it = Ok i -> store_get st' it = Ok i.
Proof.
  intros H. unfold store_get. destruct (negb _); simpl; [|done]. destruct (0 <=? it); simpl; [|done].
  destruct (_iterator_to_object st !! _) as [[p|]|] eqn:E; try done. by rewrite (H _ eq_refl).
Qed.

(** Iterators keep leading to the same rows. *)
Definition points_kept (s s' : contract_db) : Prop :=
  forall k it kp, points s k it = Some kp -> points s' k it = Some kp.

Lemma points_kept_intro (x y : option Z) (s s' : contract_db) :
  inv x s -> inv y s' -> iters_kept s s' ->
  (forall k key o, holds s k key o -> exists o', holds s' k key o' /\ o_id o' = o_id o /\ primary_key o' = primary_key o) ->
  points_kept s s'.
Proof.
  intros I I' K H k it [key p]. rewrite (points_Some _ _ _ _ _ _ I), (points_Some _ _ _ _ _ _ I').
  intros (o & Hg & Ho & <-). destruct (H _ _ _ Ho) as (o' & Ho' & Ei & Ep). exists o'. split_and!; try done.
  rewrite Ei. eapply store_get_mono; [|exact Hg]. intros z Hz. by apply K.
Qed.

Lemma same_data_holds (s s' : contract_db) (k : index_kind) (key : list Z) (o : object) :
  same_data s s' -> holds s' k key o <-> holds s k key o.
Proof. intros [Ht Ho]. unfold holds. by rewrite Ht, Ho. Qed.

Lemma same_data_points (x y : option Z) (s s' : contract_db) :
  inv x s -> inv y s' -> same_data s s' -> iters_kept s s' -> points_kept s s'.
Proof.
  intros I I' D K. eapply points_kept_intro; try done. intros k key o Ho. exists o.
  split; [by apply (same_data_holds s s')|done].
Qed.

Lemma table_extends_holds (x : option Z) (s s1 : contract_db) (k : index_kind) (key : list Z) (o : object) :
  inv x s -> table_extends s s1 -> holds s1 k key o <-> holds s k key o.
Proof.
  intros I (Eo & _ & Ht). unfold holds. rewrite Eo. split; intros (Ho & t & Hk & Hkey); (split; [done|]).
  - destruct (ok_member _ _ I k _ _ Ho) as [t' Ht']. exists t'. split; [done|]. apply Ht in Ht'. congruence.
  - eauto.
Qed.

Lemma stored_holds (s s' : contract_db) (k : index_kind) (o : object) (t : table_id_object) (k' : index_kind)
    (key' : list Z) (o' : object) :
  stored s s' k o -> contents (tables s) !! t_id o = Some t ->
  holds s' k' key' o' <-> holds s k' key' o' \/ (k' = k /\ o' = o /\ key' = by_code_scope_table t).
Proof.
  intros [H1 H2 H3 H4 H5] Ht.
  assert (Htab : forall i, (exists t', contents (tables s') !! i = Some t' /\ by_code_scope_table t' = key') <->
                           exists t', contents (tables s) !! i = Some t' /\ by_code_scope_table t' = key').
  { intros i. rewrite H5. destruct (decide (t_id o = i)) as [<-|Hne]; [rewrite lookup_alter_eq|by rewrite lookup_alter_ne].
    rewrite Ht. simpl. split; intros (t' & [= <-] & <-); by eexists. }
  unfold holds. rewrite Htab. destruct (decide (k = k')) as [<-|Hne]; [|rewrite H4 by done; naive_solver].
  rewrite H3. split.
  - intros [[[Hi ->]|[Hne Ho']]%lookup_insert_Some (t' & Ht' & Hk)]; [right|left; eauto].
    rewrite Ht in Ht'. by simplify_eq.
  - intros [[Ho' Hx]|(_ & -> & ->)]; (split; [|by eauto]); [|by rewrite lookup_insert_eq].
    rewrite lookup_insert_ne; [done|congruence].
Qed.

Lemma removed_holds (s s' : contract_db) (k : index_kind) (it : Z) (o : object) (k' : index_kind)
    (key' : list Z) (o' : object) :
  db_ok s -> db_ok s' -> removed s s' k it o -> contents (objects s k) !! o_id o = Some o ->
  holds s' k' key' o' <-> holds s k' key' o' /\ ~ (k' = k /\ o' = o).
Proof.
  intros I I' [H1 H2 H3 H4 H5] Ho.
  assert (Hobj : contents (objects s' k') !! o_id o' = Some o' <->
                 contents (objects s k') !! o_id o' = Some o' /\ ~ (k' = k /\ o' = o)).
  { destruct (decide (k = k')) as [<-|Hne]; [|destruct (H2 k' Hne) as [-> _]; naive_solver].
    rewrite H1, lookup_delete_Some. split; [naive_solver|]. intros [Hx Hy]. split; [|done].
    intros E. rewrite <- E in Hx. apply Hy. split; [done|]. congruence. }
  assert (Htab : forall t', is_Some (contents (tables s') !! t_id o') -> contents (tables s) !! t_id o' = Some t' ->
    exists t2, contents (tables s') !! t_id o' = Some t2 /\ by_code_scope_table t2 = by_code_scope_table t').
  { intros t' [t2 Hs] Ht'. destruct (decide (t_id o' = t_id o)) as [E|Hne]; [|exists t'; split; [by apply H3|done]].
    rewrite E in *. exists t2. split; [done|]. rewrite (H4 _ Ht') in Hs. destruct (_ =? 1); by simplify_eq. }
  unfold holds. rewrite Hobj. split.
  - intros ([Ho' Hne] & t2 & Ht2 & Hk). split; [|done]. split; [done|].
    destruct (ok_member _ _ I k' _ _ Ho') as [t' Ht']. exists t'. split; [done|].
    destruct (Htab t' ltac:(eauto) Ht') as (t3 & Ht3 & E). congruence.
  - intros ((Ho' & t' & Ht' & Hk) & Hne). split; [done|].
    destruct (Htab t') as (t2 & Ht2 & E); [|done|exists t2; by rewrite E].
    eapply (ok_member _ _ I' k' (o_id o')). by apply Hobj.
Qed.

Lemma modified_holds (s s' : contract_db) (k : index_kind) (o : object) (payer : Z) (v : payload) (key : list Z)
    (k' : index_kind) (key' : list Z) (o' : object) :
  db_ok s -> holds s k key o -> tables s' = tables s ->
  contents (objects s' k) = <[o_id o := set_value payer v o]> (contents (objects s k)) ->
  (forall k', k <> k' -> objects s' k' = objects s k') ->
  holds s' k' key' o' /\ ~ (k' = k /\ key' = key /\ primary_key o' = primary_key o) <->
  holds s k' key' o' /\ ~ (k' = k /\ key' = key /\ primary_key o' = primary_key o).
Proof.
  intros I (Ho & t & Ht & Hk) Et Eo Ek. unfold holds. rewrite Et.
  destruct (decide (k = k')) as [<-|Hne]; [|rewrite Ek by done; naive_solver]. rewrite Eo.
  split; intros [[Ho' (t' & Ht' & Hk')] Hn]; (split; [|done]); (split; [|by eauto]).
  - apply lookup_insert_Some in Ho' as [[Hi <-]|[_ Ho']]; [|done]. simpl in Ht'. rewrite Ht in Ht'. simplify_eq. by destruct Hn.
  - rewrite lookup_insert_ne; [done|]. intros E. rewrite <- E, Ho in Ho'. simplify_eq. by destruct Hn.
Qed.

Lemma modified_here (s s' : contract_db) (k : index_kind) (o : object) (payer : Z) (v : payload) (key : list Z) :
  holds s k key o -> tables s' = tables s ->
  contents (objects s' k) = <[o_id o := set_value payer v o]> (contents (objects s k)) ->
  holds s' k key (set_value payer v o).
Proof. intros (Ho & t & Ht & Hk) Et Eo. unfold holds. rewrite Et, Eo. simpl. rewrite lookup_insert_eq. eauto. Qed.

(** ** The calls that change rows *)
Inductive write :=
  | w_store_i64 (scope table payer id : Z) (buffer : list Z)
  | w_update_i64 (iterator payer : Z) (buffer : list Z)
  | w_idx_store (k : index_kind) (scope table payer id value : Z)
  | w_idx_update (k : index_kind) (iterator payer value : Z)
  | w_remove (k : index_kind) (iterator : Z).

Definition perform (env : apply_env) (w : write) : M contract_db (option Z) :=
  match w with
  | w_store_i64 scope table payer id buffer => it ← db_store_i64 env scope table payer id buffer; mret (Some it)
  | w_update_i64 it payer buffer => _ ← db_update_i64 env it payer buffer; mret None
  | w_idx_store k scope table payer id value => it ← idx_store env k scope table payer id value; mret (Some it)
  | w_idx_update k it payer value => _ ← idx_update env k it payer value; mret None
  | w_remove k it => _ ← remove_at env k it; mret None
  end.

(** What they mean for the maps: a row is added, with an iterator; the row at an iterator, which belongs to the
    contract that runs, is replaced, or is removed with the iterator. *)
Definition adds (env : apply_env) (k : index_kind) (scope table payer id : Z) (v : payload)
    (s : contract_db) (it : option Z) (s' : contract_db) : Prop :=
  let key := [receiver env; scope; table] in
  payer <> 0 /\ rows s k key id = None /\ same_rows (rows s') (put (rows s) k key id (Some (payer, v))) /\
  points_kept s s' /\ exists i, it = Some i /\ points s' k i = Some (key, id).

Definition replaces (env : apply_env) (k : index_kind) (it payer : Z) (v : payload)
    (s s' : contract_db) : Prop :=
  exists scope table p old, points s k it = Some ([receiver env; scope; table], p) /\
    rows s k [receiver env; scope; table] p = Some old /\
    same_rows (rows s') (put (rows s) k [receiver env; scope; table] p (Some (if payer =? 0 then fst old else payer, v))) /\
    points_kept s s'.

Definition removes (env : apply_env) (k : index_kind) (it : Z) (s s' : contract_db) : Prop :=
  exists scope table p, points s k it = Some ([receiver env; scope; table], p) /\
    same_rows (rows s') (put (rows s) k [receiver env; scope; table] p None) /\
    points s' k it = None /\
    forall k' it' kp, (k', it') <> (k, it) -> points s k' it' = Some kp -> points s' k' it' = Some kp.

Definition meaning (env : apply_env) (w : write) (s : contract_db) (it : option Z) (s' : contract_db) : Prop :=
  match w with
  | w_store_i64 scope table payer id buffer => adds env key_value scope table payer id (blob buffer) s it s'
  | w_update_i64 iterator payer buffer => replaces env key_value iterator payer (blob buffer) s s'
  | w_idx_store k scope table payer id value => adds env k scope table payer id (secondary value) s it s'
  | w_idx_update k iterator payer value => replaces env k iterator payer (secondary value) s s'
  | w_remove k iterator => removes env k iterator s s'
  end.

(** Why they are refused: somebody has to pay and must agree to, a row must not exist yet, an iterator must
    lead to a row of the contract that runs. *)
Definition refused_add (env : apply_env) (k : index_kind) (scope table payer id : Z) (s : contract_db) (e : exn) : Prop :=
  update_db_usage env payer 1 = Throw e \/ (e = invalid_table_payer /\ payer = 0) \/
  (e = logic_error /\ is_Some (rows s k [receiver env; scope; table] id)).

Definition refused_iterator (env : apply_env) (k : index_kind) (it : Z) (s : contract_db) (e : exn) : Prop :=
  store_get (stores s k) it = Throw e \/
  (e = table_access_violation /\ exists code scope table p, points s k it = Some ([code; scope; table], p) /\ code <> receiver env).

Definition refused_replace (env : apply_env) (k : index_kind) (it payer : Z) (s : contract_db) (e : exn) : Prop :=
  refused_iterator env k it s e \/
  exists key p old, points s k it = Some (key, p) /\ rows s k key p = Some old /\
    update_db_usage env (if payer =? 0 then fst old else payer) 1 = Throw e.

Definition refused (env : apply_env) (w : write) (s : contract_db) (e : exn) : Prop :=
  match w with
  | w_store_i64 scope table payer id _ => refused_add env key_value scope table payer id s e
  | w_update_i64 iterator payer _ => refused_replace env key_value iterator payer s e
  | w_idx_store k scope table payer id _ => refused_add env k scope table payer id s e
  | w_idx_update k iterator payer _ => refused_replace env k iterator payer s e
  | w_remove k iterator => refused_iterator env k iterator s e
  end.

Section writes.
Context (env : apply_env).

Lemma refused_at_iterator (s : contract_db) (k : index_kind) (it : Z) (e : exn) :
  refused_at env s k it e -> refused_iterator env k it s e.
Proof.
  intros [H|(-> & i & o & t & Hg & Ho & Ht & Hne)]; [by left|right]. split; [done|].
  exists (ti_code t), (ti_scope t), (ti_table t), (primary_key o). split; [|done].
  unfold points. rewrite Hg, Ho. simpl. by rewrite Ht.
Qed.

(** [find_or_create_table] and [store_object] *)
Lemma adds_wp (s : contract_db) (k : index_kind) (scope table payer id : Z) (v : payload) :
  db_ok s -> room_left s -> payer <> 0 ->
  wp (refused_add env k scope table payer id s)
    (tab ← find_or_create_table env (receiver env) scope table payer; store_object env k tab payer id v)
    (fun it s' => db_ok s' /\ adds env k scope table payer id v s (Some it) s') s.
Proof.
  intros I R Hp. eapply wp_seq; [apply find_or_create_wp; [done|apply R|intros e He; by left]|].
  intros t s1 (I1 & Ht & Hk & Hx).
  assert (Htot : forall i, total s1 i = total s i) by (intros i; unfold total; destruct Hx as (-> & _); done).
  eapply wp_mono; [apply store_object_wp; [done|done|destruct Hx as (-> & _); apply R|rewrite Htot; apply R|intros e He; by left|]|].
  { intros i o Ho [= Hto Hid]. right; right. split; [done|]. pose proof (object_id _ _ _ _ _ I1 Ho) as Ei. rewrite <- Ei in Ho.
    assert (Hh : holds s k [receiver env; scope; table] o).
    { apply (table_extends_holds _ _ _ _ _ _ I Hx). split; [done|]. exists t. by rewrite Hto. }
    rewrite <- Hid, (rows_holds _ _ _ _ _ I Hh). by eexists. }
  intros it s' (I' & K & j & S & Hg). split; [done|]. split; [done|].
  set (o := mk_object j (ti_id t) id payer v) in *.
  assert (Hh : forall k' key' o', holds s' k' key' o' <-> holds s k' key' o' \/ (k' = k /\ o' = o /\ key' = by_code_scope_table t)).
  { intros k' key' o'. rewrite <- (table_extends_holds _ s s1) by done. by apply (stored_holds s1). }
  rewrite Hk in Hh. assert (Ho : holds s' k [receiver env; scope; table] o) by (apply Hh; by right).
  assert (Hnone : rows s k [receiver env; scope; table] id = None).
  { apply eq_None_not_Some. intros [r (o' & Ho' & Hid & _)%(rows_Some None)]; [|done].
    assert (o' = o) as -> by (eapply (holds_unique None s'); [done|apply Hh; by left|exact Ho|exact Hid]).
    apply (table_extends_holds _ _ _ _ _ _ I Hx) in Ho' as [Ho' _]. by rewrite (st_new _ _ _ _ S) in Ho'. }
  split; [done|]. split_and!.
  - eapply (same_rows_put None None); [done..| |apply (rows_holds None s' k _ o); done].
    intros k' key' o'. rewrite Hh. split; intros [Ha Hb]; (split; [|done]); [|by left].
    destruct Ha as [Ha|(-> & -> & ->)]; [done|]. by destruct Hb.
  - eapply (points_kept_intro None None); try done.
    + intros k' n x Hn. apply K. by destruct Hx as (_ & -> & _).
    + intros k' key' o' Ho'. exists o'. split; [apply Hh; by left|done].
  - exists it. split; [done|]. apply (points_Some None); [done|]. by exists o.
Qed.

Lemma replaces_wp (Exc : exn -> Prop) (s : contract_db) (k : index_kind) (it payer : Z) (v : payload) (o : object) (t : table_id_object) :
  db_ok s -> store_get (stores s k) it = Ok (o_id o) -> contents (objects s k) !! o_id o = Some o ->
  contents (tables s) !! t_id o = Some t -> ti_code t = receiver env ->
  wp Exc (modify_object k (o_id o) (set_value (if payer =? 0 then o_payer o else payer) v))
    (fun _ s' => db_ok s' /\ replaces env k it payer v s s') s.
Proof.
  intros I Hg Ho Ht Hr. eapply wp_mono; [by apply modify_object_wp|]. intros _ s' (I' & Et & Es & Eo & Ek).
  split; [done|]. set (key := [receiver env; ti_scope t; ti_table t]).
  assert (Hh : holds s k key o) by (split; [done|]; exists t; split; [done|]; unfold by_code_scope_table; by rewrite Hr).
  pose proof (modified_here _ _ _ _ _ _ _ Hh Et Eo) as Hh'.
  exists (ti_scope t), (ti_table t), (primary_key o), (row_of o). fold key. split_and!.
  - apply (points_Some None); [done|]. by exists o.
  - by apply (rows_holds None).
  - eapply (same_rows_put None None); [done..| |by apply (rows_holds None _ _ _ _ I' Hh')].
    intros k' key' o'. by eapply (modified_holds s).
  - eapply (points_kept_intro None None); [done..|intros ? ? ?; by rewrite Es|].
    intros k' key' o' Ho'. destruct (decide (k' = k /\ key' = key /\ primary_key o' = primary_key o)) as [(-> & -> & E)|Hne].
    + pose proof (holds_unique _ _ _ _ _ _ I Ho' Hh E) as ->. by eexists.
    + exists o'. split; [|done]. by apply (modified_holds s s' k o _ v key k' key' o' I Hh Et Eo Ek).
Qed.

Lemma removes_intro (s s' : contract_db) (k : index_kind) (it : Z) (o : object) (t : table_id_object) :
  db_ok s -> db_ok s' -> store_get (stores s k) it = Ok (o_id o) -> contents (objects s k) !! o_id o = Some o ->
  contents (tables s) !! t_id o = Some t -> ti_code t = receiver env -> removed s s' k it o ->
  removes env k it s s'.
Proof.
  intros I I' Hg Ho Ht Hr Rm. set (key := [receiver env; ti_scope t; ti_table t]).
  assert (Hh : holds s k key o) by (split; [done|]; exists t; split; [done|]; unfold by_code_scope_table; by rewrite Hr).
  pose proof (fun k' key' o' => removed_holds s s' k it o k' key' o' I I' Rm Ho) as Hx.
  exists (ti_scope t), (ti_table t), (primary_key o). fold key. split_and!.
  - apply (points_Some None); [done|]. by exists o.
  - eapply (same_rows_put None None); [done..| |].
    + intros k' key' o'. rewrite Hx. split; [naive_solver|]. intros [Ha Hb]. split; [|done]. split; [done|].
      intros [-> ->]. destruct Hb. split_and!; try done. destruct Ha as (_ & t' & Ht' & <-).
      rewrite Ht in Ht'. injection Ht' as <-. unfold key, by_code_scope_table. by rewrite Hr.
    + apply eq_None_not_Some. intros [r (o' & [Ho' Hne]%Hx & E & _)%(rows_Some None)]; [|done].
      apply Hne. split; [done|]. by apply (holds_unique None s k key).
  - unfold points, store_get. destruct (negb _); simpl; [|done]. destruct (0 <=? it); simpl; [|done].
    by rewrite (rm_gone _ _ _ _ _ Rm).
  - intros k' it' [key' p'] Hne. rewrite !(points_Some None) by done. intros (o' & Hg' & Ho' & <-). exists o'.
    destruct (store_get_ok _ _ _ _ (ok_store _ _ I k') Hg') as (Hp' & Hi' & Hoi' & _).
    destruct (store_get_ok _ _ _ _ (ok_store _ _ I k) Hg) as (Hp & Hi & Hoi & _).
    destruct (decide (k = k')) as [<-|Hk].
    + split_and!; [|apply Hx; split; [done|]|done].
      * eapply store_get_mono; [|exact Hg']. intros x Hn. apply (rm_iters _ _ _ _ _ Rm); [|done].
        intros E%Z2Nat.inj; by subst.
      * intros [_ ->]. congruence.
    + destruct (rm_there _ _ _ _ _ Rm k' Hk) as [_ ->]. split_and!; try done. apply Hx. split; [done|]. by intros [-> _].
Qed.

Lemma charged (s : contract_db) (k : index_kind) (it payer : Z) (o : object) (t : table_id_object) (e : exn) :
  db_ok s -> store_get (stores s k) it = Ok (o_id o) -> contents (objects s k) !! o_id o = Some o ->
  contents (tables s) !! t_id o = Some t ->
  update_db_usage env (if payer =? 0 then o_payer o else payer) 1 = Throw e -> refused_replace env k it payer s e.
Proof.
  intros I Hg Ho Ht He. right. exists (by_code_scope_table t), (primary_key o), (row_of o).
  assert (Hh : holds s k (by_code_scope_table t) o) by (split; [done|]; by exists t).
  split_and!; [|by eapply rows_holds|done]. apply (points_Some None); [done|]. by exists o.
Qed.

(** A new payer is charged for all, the old one for what is added. *)
Lemma charge_wp (Exc : exn -> Prop) (c : bool) (p q x y z : Z) (m : M contract_db unit)
    (Q : unit -> contract_db -> Prop) (s : contract_db) :
  x <= 0 -> (forall e, update_db_usage env q 1 = Throw e -> Exc e) -> wp Exc m Q s ->
  wp Exc (_ ← (if negb (p =? q) then _ ← lift (update_db_usage env p x); lift (update_db_usage env q y)
               else if c then lift (update_db_usage env p z) else mret tt); m) Q s.
Proof.
  intros Hx He H. eapply (wp_seq _ _ _ (fun _ s' => s' = s)); [|by intros _ ? ->].
  destruct (Z.eqb_spec p q) as [->|Hne]; simpl; [destruct c; [|done]|rewrite (usage_refund env p x Hx); apply wp_lift; [done|]; intros _ _].
  all: apply wp_lift_end; [intros e Hx'; by eapply He, usage_throw|done].
Qed.

Lemma perform_wp (w : write) (s : contract_db) :
  db_ok s -> room_left s -> wp (refused env w s) (perform env w) (fun it s' => db_ok s' /\ meaning env w s it s') s.
Proof.
  intros I R. destruct w as [scope table payer id b|it payer b|k scope table payer id v|k it payer v|k it]; simpl perform; apply wp_bind.
  - unfold db_store_i64. destruct (Z.eqb_spec payer 0) as [->|Hp].
    + eapply wp_seq; [apply find_or_create_wp; [done|apply R|intros e He; by left]|]. intros ? ? _. right; by left.
    + by apply (adds_wp s key_value).
  - unfold db_update_i64. eapply wp_seq; [apply own_object_wp; [done|intros e He; left; by apply refused_at_iterator]|].
    intros [o t] ? (-> & Hg & Ho & Ht & _ & Hr). apply charge_wp; [|intros e; by eapply charged|by eapply replaces_wp].
    pose proof (object_size_nonneg key_value (o_value o)). lia.
  - unfold idx_store. destruct (Z.eqb_spec payer 0) as [->|Hp]; [right; by left|]. by apply (adds_wp s k).
  - unfold idx_update. eapply wp_seq; [apply own_object_wp; [done|intros e He; left; by apply refused_at_iterator]|].
    intros [o t] ? (-> & Hg & Ho & Ht & _ & Hr). apply (charge_wp _ false _ _ _ _ 0); [|intros e; by eapply charged|by eapply replaces_wp].
    pose proof (object_size_nonneg k (secondary 0)). simpl in *. lia.
  - eapply wp_mono; [apply remove_at_wp; [done|intros i; pose proof (rl_count _ R i); lia|apply refused_at_iterator]|].
    intros _ s' (I' & o & t & Hg & Ho & Ht & Hr & Rm). split; [done|]. by eapply removes_intro.
Qed.
(** C17. Every host function that changes rows is the operation on the map of the table that its name says: store
    adds a row that was not there and returns an iterator to it, update replaces and remove removes the row at the
    iterator, which must belong to the contract that runs. All other rows, of this and of other contracts, and what
    all other iterators lead to, stay the same, and the tables stay consistent. A call fails only for one of the
    listed reasons, none of which is a broken invariant. *)
Theorem writes_refine (w : write) (s : contract_db) :
  db_ok s -> room_left s -> wp (refused env w s) (perform env w) (fun it s' => db_ok s' /\ meaning env w s it s') s.
Proof. apply perform_wp. Qed.
End writes.
