(* ===== verification/ContractTableReads.v ===== *)
(** * Searching the tables of contracts

    What the host functions that search an index and move iterators find, in the view of [ContractTableSpec], and the
    reachable states of the tables: on them every call is safe, except that an end iterator outlives its table. *)

From S2P Require Import Prelude Lex Effects Types Authority UndoIndex Database AuthorizationManager SystemContract.
From S2P Require Import ContractTables ContractTableProofs ContractTableSpec.

(** ** The nearest object of a table *)
Section nearest.
Context (d : ordering) (k : index_kind) (u : undo_index object) (t : Z) (P : object -> Prop).
Context `{!forall o, Decision (P o)} (sel : list Z -> Prop).
Context (P_sel : forall o, t_id o = t -> P o <-> sel (place d k (primary_key o) (row_of o))).

Abbreviation spot o := (place d k (primary_key o) (row_of o)).

Lemma least_in_table :
  (forall o, P o -> t <= t_id o) ->
  match first_of (index_key d k) (filter P (objects_in u)) with
  | Some o =>
      if t_id o =? t then sel (spot o) /\ forall i o', contents u !! i = Some o' -> t_id o' = t -> sel (spot o') -> lex (spot o) (spot o') <> Gt
      else forall i o', contents u !! i = Some o' -> t_id o' = t -> ~ sel (spot o')
  | None => forall i o', contents u !! i = Some o' -> t_id o' = t -> ~ sel (spot o')
  end.
Proof.
  intros Hle. pose proof (first_in_range (index_key d k) P u) as Hr. destruct (first_of _ _) as [o|].
  - destruct Hr as (_ & Po & Hmin). destruct (Z.eqb_spec (t_id o) t) as [E|Hne].
    + split; [by apply P_sel|]. intros i o' Ho' E' Hs. specialize (Hmin _ _ Ho' (proj2 (P_sel _ E') Hs)).
      rewrite !index_key_place, E, E' in Hmin. simpl in Hmin. by rewrite Z.compare_refl in Hmin.
    + intros i o' Ho' E' Hs. specialize (Hmin _ _ Ho' (proj2 (P_sel _ E') Hs)). specialize (Hle _ Po).
      rewrite !index_key_place in Hmin. simpl in Hmin. rewrite (proj2 (Z.compare_gt_iff (t_id o) (t_id o'))) in Hmin by lia. done.
  - intros i o' Ho' E' Hs. eapply Hr; [done|]. by apply P_sel.
Qed.

Lemma greatest_in_table :
  (forall o, P o -> t_id o <= t) ->
  match last_of (index_key d k) (filter P (objects_in u)) with
  | Some o =>
      if t_id o =? t then sel (spot o) /\ forall i o', contents u !! i = Some o' -> t_id o' = t -> sel (spot o') -> lex (spot o') (spot o) <> Gt
      else forall i o', contents u !! i = Some o' -> t_id o' = t -> ~ sel (spot o')
  | None => forall i o', contents u !! i = Some o' -> t_id o' = t -> ~ sel (spot o')
  end.
Proof.
  intros Hle. pose proof (last_in_range (index_key d k) P u) as Hr. destruct (last_of _ _) as [o|].
  - destruct Hr as (_ & Po & Hmax). destruct (Z.eqb_spec (t_id o) t) as [E|Hne].
    + split; [by apply P_sel|]. intros i o' Ho' E' Hs. specialize (Hmax _ _ Ho' (proj2 (P_sel _ E') Hs)).
      rewrite !index_key_place, E, E' in Hmax. simpl in Hmax. by rewrite Z.compare_refl in Hmax.
    + intros i o' Ho' E' Hs. specialize (Hmax _ _ Ho' (proj2 (P_sel _ E') Hs)). specialize (Hle _ Po).
      rewrite !index_key_place in Hmax. simpl in Hmax. rewrite (proj2 (Z.compare_gt_iff (t_id o') (t_id o))) in Hmax by lia. done.
  - intros i o' Ho' E' Hs. eapply Hr; [done|]. by apply P_sel.
Qed.
End nearest.

(** ** The calls that search *)
Inductive look := l_find | l_lower | l_upper.

Definition selects (q : look) (c : comparison) : Prop :=
  match q with l_find => c = Eq | l_lower => c <> Lt | l_upper => c = Gt end.

Inductive read :=
  | r_search (q : look) (d : ordering) (k : index_kind) (code scope table x : Z)
  | r_end (k : index_kind) (code scope table : Z)
  | r_next (d : ordering) (k : index_kind) (iterator : Z)
  | r_previous (d : ordering) (k : index_kind) (iterator : Z).

Definition observe (r : read) : M contract_db (Z * option object) :=
  match r with
  | r_search l_find in_primary k code scope table x => find_primary k code scope table x
  | r_search l_lower in_primary k code scope table x => lowerbound_primary k code scope table x
  | r_search l_upper in_primary k code scope table x => upperbound_primary k code scope table x
  | r_search l_find in_secondary k code scope table x => find_secondary k code scope table x
  | r_search l_lower in_secondary k code scope table x => lowerbound_secondary k code scope table x
  | r_search l_upper in_secondary k code scope table x => upperbound_secondary k code scope table x
  | r_end k code scope table => ei ← end_iterator k code scope table; mret (ei, None)
  | r_next in_primary k it => next_primary k it
  | r_next in_secondary k it => next_secondary k it
  | r_previous in_primary k it => previous_primary k it
  | r_previous in_secondary k it => previous_secondary k it
  end.

(** The table of an end iterator. *)
Definition end_of (s : contract_db) (k : index_kind) (it : Z) : option (list Z) :=
  if it <? -1 then
    i ← _end_iterator_to_table (stores s k) !! Z.to_nat (- it - 2);
    t ← contents (tables s) !! i;
    Some (by_code_scope_table t)
  else None.

(** The end of a table, or -1 when the table does not exist. *)
Definition at_end (s : contract_db) (k : index_kind) (key : list Z) (it : Z) : Prop :=
  end_of s k it = Some key \/ (it = -1 /\ db_find_by by_code_scope_table (tables s) key = None).

(** The answer is the row of the table that is nearest in one direction among those selected. *)
Definition nearest (up : bool) (d : ordering) (k : index_kind) (key : list Z) (sel : list Z -> Prop) (miss : Z -> Prop)
    (s s' : contract_db) (it : Z) (found : option object) : Prop :=
  match found with
  | Some o =>
      let here := place d k (primary_key o) (row_of o) in
      points s' k it = Some (key, primary_key o) /\ rows s k key (primary_key o) = Some (row_of o) /\ sel here /\
      forall p r, rows s k key p = Some r -> sel (place d k p r) ->
        if up then lex here (place d k p r) <> Gt else lex (place d k p r) here <> Gt
  | None => miss it /\ forall p r, rows s k key p = Some r -> ~ sel (place d k p r)
  end.

Definition search_key (d : ordering) (k : index_kind) (x : Z) : Z :=
  match d with in_primary => x | in_secondary => secondary_rank k x end.

Definition answer (r : read) (s : contract_db) (it : Z) (found : option object) (s' : contract_db) : Prop :=
  match r with
  | r_search q d k code scope table x =>
      let key := [code; scope; table] in
      nearest true d k key (fun pl => selects q (hd 0 pl ?= search_key d k x)) (at_end s' k key) s s' it found
  | r_end k code scope table => found = None /\ at_end s' k [code; scope; table] it
  | r_next d k i =>
      if i <? -1 then it = -1 /\ found = None
      else exists key p r, points s k i = Some (key, p) /\ rows s k key p = Some r /\
             nearest true d k key (fun pl => lex (place d k p r) pl = Lt) (at_end s' k key) s s' it found
  | r_previous d k i =>
      if i <? -1 then exists key, end_of s k i = Some key /\
             nearest false d k key (fun _ => True) (fun it => it = -1) s s' it found
      else exists key p r, points s k i = Some (key, p) /\ rows s k key p = Some r /\
             nearest false d k key (fun pl => lex pl (place d k p r) = Lt) (fun it => it = -1) s s' it found
  end.

Definition refused_read (r : read) (s : contract_db) (e : exn) : Prop :=
  match r with
  | r_next _ k it => store_get (stores s k) it = Throw e
  | r_previous _ k it =>
      if it <? -1 then e = invalid_table_iterator /\ end_of s k it = None else store_get (stores s k) it = Throw e
  | _ => False
  end.

(** [previous] may be called on the end of an existing table. *)
Definition safe (r : read) (s : contract_db) : Prop :=
  match r with r_previous _ k it => live_end s k it | _ => True end.

(** *** From objects to rows *)
Lemma holds_table (s : contract_db) (k : index_kind) (t : table_id_object) (o : object) :
  db_ok s -> contents (tables s) !! ti_id t = Some t ->
  holds s k (by_code_scope_table t) o <-> contents (objects s k) !! o_id o = Some o /\ t_id o = ti_id t.
Proof.
  intros I Ht. unfold holds. split.
  - intros (Ho & t' & Ht' & Hk). split; [done|]. pose proof (by_table_unique _ _ _ _ I Ht) as Hu.
    rewrite <- Hk, (by_table_unique _ _ _ _ I Ht') in Hu. injection Hu as <-. by rewrite (table_id _ _ _ _ I Ht').
  - intros [Ho Hid]. split; [done|]. exists t. by rewrite Hid.
Qed.

Lemma nearest_intro (up : bool) (d : ordering) (k : index_kind) (t : table_id_object) (sel : list Z -> Prop)
    (miss : Z -> Prop) (s s' : contract_db) (it : Z) (x found : option object) :
  db_ok s -> db_ok s' -> same_data s s' -> contents (tables s) !! ti_id t = Some t ->
  (let spot o := place d k (primary_key o) (row_of o) in
   match x with
   | Some o =>
       if t_id o =? ti_id t then sel (spot o) /\
         forall i o', contents (objects s k) !! i = Some o' -> t_id o' = ti_id t -> sel (spot o') ->
           if up then lex (spot o) (spot o') <> Gt else lex (spot o') (spot o) <> Gt
       else forall i o', contents (objects s k) !! i = Some o' -> t_id o' = ti_id t -> ~ sel (spot o')
   | None => forall i o', contents (objects s k) !! i = Some o' -> t_id o' = ti_id t -> ~ sel (spot o')
   end) ->
  match x with
  | Some o => if t_id o =? ti_id t then found = Some o /\ found_at s' k it o else found = None /\ miss it
  | None => found = None /\ miss it
  end -> nearest up d k (by_code_scope_table t) sel miss s s' it found.
Proof.
  intros I I' D Ht Hx Hf. pose proof (fun o => holds_table s k t o I Ht) as Hh.
  assert (Hno : (forall i o', contents (objects s k) !! i = Some o' -> t_id o' = ti_id t ->
      ~ sel (place d k (primary_key o') (row_of o'))) -> found = None /\ miss it ->
      nearest up d k (by_code_scope_table t) sel miss s s' it found).
  { intros Hn [-> Hm]. split; [done|]. intros p r (o & [Ho Hid]%Hh & <- & <-)%(rows_Some None); [|done]. by eapply Hn. }
  simpl in Hx. destruct x as [o|]; [|by apply Hno]. destruct (Z.eqb_spec (t_id o) (ti_id t)) as [E|]; [|by apply Hno].
  destruct Hf as [-> [Hg Ho]]. destruct Hx as [Hs Hmin]. destruct D as [D1 D2]. rewrite D2 in Ho.
  assert (Hho : holds s k (by_code_scope_table t) o) by (apply Hh; by split). simpl. split_and!.
  - apply (points_Some None); [done|]. exists o. split_and!; try done. by apply (same_data_holds s s').
  - by apply (rows_holds None).
  - done.
  - intros p r (o' & [Ho' Hid]%Hh & <- & <-)%(rows_Some None); [|done]. by apply (Hmin (o_id o')).
Qed.

Lemma ends_end_of (s : contract_db) (k : index_kind) (it : Z) (t : table_id_object) :
  db_ok s -> contents (tables s) !! ti_id t = Some t -> ends s k it (ti_id t) ->
  end_of s k it = Some (by_code_scope_table t).
Proof.
  intros I Ht He. destruct (so_cache _ _ (ok_store _ _ I k) _ _ _ He) as (_ & n & -> & Hn).
  unfold end_of, index_to_end_iterator. rewrite (proj2 (Z.ltb_lt _ _)) by lia.
  replace (Z.to_nat (- - (Z.of_nat n + 2) - 2)) with n by lia. rewrite Hn. simpl. by rewrite Ht.
Qed.

(** *** Searching *)
Definition run_look (q : look) (f : object -> list Z) (u : undo_index object) (key : list Z) : option object :=
  match q with l_find => index_find f u key | l_lower => lower_bound f u key | l_upper => upper_bound f u key end.

Lemma observe_search (q : look) (d : ordering) (k : index_kind) (code scope table x : Z) :
  observe (r_search q d k code scope table x) =
  search k code scope table (fun u t => run_look q (index_key d k) u [t; search_key d k x]).
Proof. by destruct q, d. Qed.

Lemma run_look_in (q : look) (f : object -> list Z) (u : undo_index object) (key : list Z) (o : object) :
  run_look q f u key = Some o -> exists i, contents u !! i = Some o.
Proof. destruct q; simpl; apply first_in. Qed.

Lemma versus_place (d : ordering) (k : index_kind) (o : object) (t x : Z) :
  versus (index_key d k) [t; x] o =
  match t_id o ?= t with Eq => hd 0 (place d k (primary_key o) (row_of o)) ?= x | c => c end.
Proof.
  unfold versus. rewrite index_key_place. destruct d; simpl; destruct (t_id o ?= t); try done; by destruct (_ ?= x).
Qed.

Lemma run_look_nearest (q : look) (d : ordering) (k : index_kind) (u : undo_index object) (t x : Z) :
  let spot o := place d k (primary_key o) (row_of o) in
  let sel pl := selects q (hd 0 pl ?= x) in
  match run_look q (index_key d k) u [t; x] with
  | Some o =>
      if t_id o =? t then sel (spot o) /\ forall i o', contents u !! i = Some o' -> t_id o' = t -> sel (spot o') -> lex (spot o) (spot o') <> Gt
      else forall i o', contents u !! i = Some o' -> t_id o' = t -> ~ sel (spot o')
  | None => forall i o', contents u !! i = Some o' -> t_id o' = t -> ~ sel (spot o')
  end.
Proof.
  destruct q; apply least_in_table; intros o; rewrite versus_place; try (intros ->; by rewrite Z.compare_refl);
    destruct (Z.compare_spec (t_id o) t); intros ?; try done; lia.
Qed.

Lemma search_answer (q : look) (d : ordering) (k : index_kind) (code scope table x : Z) (s : contract_db) (Exc : exn -> Prop) :
  db_ok s -> let r := r_search q d k code scope table x in
  wp Exc (observe r) (fun '(it, found) s' => db_ok s' /\ same_data s s' /\ iters_kept s s' /\ answer r s it found s') s.
Proof.
  intros I r. unfold r. rewrite observe_search.
  eapply wp_mono; [apply search_wp; [done|]; intros u t o; apply run_look_in|].
  intros [it found] s' (I' & D & K & Hs). split_and!; try done. simpl.
  destruct (db_find_by by_code_scope_table (tables s) [code; scope; table]) as [t|] eqn:Et.
  - apply db_find_by_Some in Et as (i & Ht & <-). pose proof (table_id _ _ _ _ I Ht) as <-.
    eapply nearest_intro; try done; [apply run_look_nearest|].
    assert (He : ends s' k it (ti_id t) -> at_end s' k (by_code_scope_table t) it).
    { intros He. left. apply ends_end_of; try done. destruct D as [-> _]. done. }
    destruct (run_look _ _ _ _) as [o|]; [destruct (_ =? _)|]; [done|naive_solver..].
  - destruct Hs as [-> ->]. split; [right; split; [done|]; by destruct D as [-> _]|].
    intros p r0. unfold rows. by rewrite Et.
Qed.

(** *** Moving *)
Lemma found_at_view (s : contract_db) (k : index_kind) (it : Z) (o : object) :
  db_ok s -> found_at s k it o -> exists t, contents (tables s) !! ti_id t = Some t /\ ti_id t = t_id o /\
    points s k it = Some (by_code_scope_table t, primary_key o) /\ rows s k (by_code_scope_table t) (primary_key o) = Some (row_of o).
Proof.
  intros I [Hg Ho]. destruct (ok_member _ _ I k _ _ Ho) as [t Ht]. pose proof (table_id _ _ _ _ I Ht) as Hid.
  exists t. rewrite Hid. assert (Hh : holds s k (by_code_scope_table t) o) by (split; [done|]; by exists t).
  split_and!; try done; [|by apply (rows_holds None)]. apply (points_Some None); [done|]. by exists o.
Qed.

Lemma lex_index_key (d : ordering) (k : index_kind) (o o' : object) :
  lex (index_key d k o) (index_key d k o') =
  match t_id o ?= t_id o' with
  | Eq => lex (place d k (primary_key o) (row_of o)) (place d k (primary_key o') (row_of o'))
  | c => c
  end.
Proof. rewrite !index_key_place. done. Qed.

Lemma next_answer (d : ordering) (k : index_kind) (i : Z) (s : contract_db) :
  db_ok s -> let r := r_next d k i in wp (refused_read r s) (observe r)
    (fun '(it, found) s' => db_ok s' /\ same_data s s' /\ iters_kept s s' /\ answer r s it found s') s.
Proof.
  intros I r. assert (observe r = next_at (index_key d k) k i) as -> by (by destruct d).
  eapply wp_mono; [by apply next_wp|]. intros [it found] s' (I' & D & K & Hr). split_and!; try done. simpl.
  destruct (i <? -1); [done|]. destruct Hr as (o & Hfound & Hr).
  destruct (found_at_view _ _ _ _ I Hfound) as (t & Ht & Hid & Hp & Hrow).
  exists (by_code_scope_table t), (primary_key o), (row_of o). split_and!; try done. rewrite <- Hid in Hr.
  eapply (nearest_intro true d k t _ _ s s' it (object_after (index_key d k) (objects s k) o)); try done.
  - apply (least_in_table d k (objects s k) (ti_id t) (fun x => lex (index_key d k o) (index_key d k x) = Lt)
             (fun pl => lex (place d k (primary_key o) (row_of o)) pl = Lt)); intros x; rewrite lex_index_key, <- Hid.
    + intros ->. by rewrite Z.compare_refl.
    + destruct (Z.compare_spec (ti_id t) (t_id x)); intros ?; try done; lia.
  - assert (He : ends s' k it (ti_id t) -> at_end s' k (by_code_scope_table t) it).
    { intros He. left. apply ends_end_of; try done. destruct D as [-> _]. done. }
    destruct (object_after _ _ _) as [x|]; [destruct (_ =? _)|]; [done|naive_solver..].
Qed.

Lemma previous_answer (d : ordering) (k : index_kind) (i : Z) (s : contract_db) :
  let r := r_previous d k i in db_ok s -> safe r s -> wp (refused_read r s) (observe r)
    (fun '(it, found) s' => db_ok s' /\ same_data s s' /\ iters_kept s s' /\ answer r s it found s') s.
Proof.
  intros r I L. assert (observe r = previous_at (index_key d k) k i) as -> by (by destruct d).
  eapply wp_mono; [apply previous_wp; [done|done|..]; simpl|].
  - intros Hi e. by rewrite (proj2 (Z.ltb_ge i (-1))).
  - intros Hi Hn. rewrite (proj2 (Z.ltb_lt i (-1))) by done. split; [done|]. unfold end_of.
    by rewrite (proj2 (Z.ltb_lt i (-1))), Hn.
  - intros [it found] s' (I' & D & K & x & ti & Hx & Hr). split_and!; try done. simpl. destruct (i <? -1) eqn:Ei.
    + destruct Hx as [He ->]. destruct (so_cache _ _ (ok_store _ _ I k) _ _ _ He) as (_ & n & En & Hn).
      apply Z.ltb_lt in Ei. destruct (L Ei) as [_ Hlive].
      assert (Z.to_nat (- i - 2) = n) as Hnn by (unfold index_to_end_iterator in En; lia).
      rewrite Hnn in Hlive. destruct (Hlive _ Hn) as [t Ht]. pose proof (table_id _ _ _ _ I Ht) as <-.
      exists (by_code_scope_table t). split; [by apply ends_end_of|].
      eapply (nearest_intro false d k t _ _ s s' it (last_upto (index_key d k) (objects s k) [ti_id t])); try done;
        [|destruct (last_upto _ _ _) as [y|]; [destruct (_ =? _)|]; clear -Hr; tauto].
      apply (greatest_in_table d k (objects s k) (ti_id t) (fun y => versus (index_key d k) [ti_id t] y <> Gt)
               (fun _ => True)); intros y; unfold versus; rewrite index_key_place; simpl.
      * intros ->. by rewrite Z.compare_refl.
      * destruct (Z.compare_spec (t_id y) (ti_id t)); intros ?; try done; lia.
    + destruct Hx as (o & Hfound & -> & ->). destruct (found_at_view _ _ _ _ I Hfound) as (t & Ht & Hid & Hp & Hrow).
      exists (by_code_scope_table t), (primary_key o), (row_of o). split_and!; try done. rewrite <- Hid in Hr.
      eapply (nearest_intro false d k t _ _ s s' it (object_before (index_key d k) (objects s k) o)); try done;
        [|destruct (object_before _ _ _) as [y|]; [destruct (_ =? _)|]; clear -Hr; tauto].
      apply (greatest_in_table d k (objects s k) (ti_id t) (fun x => lex (index_key d k x) (index_key d k o) = Lt)
               (fun pl => lex pl (place d k (primary_key o) (row_of o)) = Lt)); intros x; rewrite lex_index_key, <- Hid.
      * intros ->. by rewrite Z.compare_refl.
      * destruct (Z.compare_spec (t_id x) (ti_id t)); intros ?; try done; lia.
Qed.

Lemma end_answer (k : index_kind) (code scope table : Z) (s : contract_db) (Exc : exn -> Prop) :
  let r := r_end k code scope table in db_ok s -> wp Exc (observe r)
    (fun '(it, found) s' => db_ok s' /\ same_data s s' /\ iters_kept s s' /\ answer r s it found s') s.
Proof.
  intros r I. simpl. unfold end_iterator, find_table. apply wp_bind, wp_bind, wp_get, wp_ret.
  destruct (db_find_by _ _ _) as [t|] eqn:Et.
  - eapply wp_mono; [by apply cache_wp|]. intros ei s' (I' & D & K & He & _). apply wp_ret. split_and!; try done.
    apply db_find_by_Some in Et as (i & Ht & <-). pose proof (table_id _ _ _ _ I Ht) as <-. left.
    apply ends_end_of; try done. by destruct D as [-> _].
  - apply wp_ret. split_and!; try done. by right.
Qed.

Lemma observe_wp (r : read) (s : contract_db) :
  db_ok s -> safe r s ->
  wp (refused_read r s) (observe r)
    (fun '(it, found) s' => db_ok s' /\ same_rows (rows s') (rows s) /\ points_kept s s' /\ answer r s it found s') s.
Proof.
  intros I Hs. eapply (wp_mono _ _ (fun '(it, found) s' => db_ok s' /\ same_data s s' /\ iters_kept s s' /\ answer r s it found s')).
  - destruct r; [by apply search_answer|by apply end_answer|by apply next_answer|by apply previous_answer].
  - intros [it found] s' (I' & D & K & Ha). split_and!; try done; [by apply same_data_rows|by eapply same_data_points].
Qed.

(** C18. The host functions that search an index or move an iterator change no row and no iterator, and what they
    find is the nearest row of the same table in the order of the index: find, lowerbound and upperbound the
    first row with an equal, an equal or greater, a greater key; next and previous the neighbours of the row at
    the iterator, previous on an end iterator the last row. Otherwise they return the end iterator of the table or
    -1. They fail only when the iterator leads to no row. *)
Theorem reads_answer (r : read) (s : contract_db) :
  db_ok s -> safe r s ->
  wp (refused_read r s) (observe r)
    (fun '(it, found) s' => db_ok s' /\ same_rows (rows s') (rows s) /\ points_kept s s' /\ answer r s it found s') s.
Proof. apply observe_wp. Qed.

(** ** Reachable states *)

(** Undefined behaviour, and the exception that announces a broken invariant, do not occur. *)
Definition fine (e : exn) : Prop := e <> undefined_behaviour /\ e <> table_not_in_cache.

Lemma store_get_fine (st : iter_store) (it : Z) (e : exn) : store_get st it = Throw e -> fine e.
Proof.
  unfold store_get. destruct (negb _); simpl; [|by intros [= <-]]. destruct (0 <=? it); simpl; [|by intros [= <-]].
  destruct (_ !! _) as [[]|]; by intros [= <-].
Qed.

Lemma usage_fine (env : apply_env) (payer delta : Z) (e : exn) : update_db_usage env payer delta = Throw e -> fine e.
Proof.
  unfold update_db_usage, require_authorization. destruct (0 <? delta); [|done]. destruct (negb _); [|done].
  destruct (_ || _); simpl; [destruct (existsb _ _)|]; simpl; by intros [= <-].
Qed.

Lemma refused_iterator_fine (env : apply_env) (k : index_kind) (it : Z) (s : contract_db) (e : exn) :
  refused_iterator env k it s e -> fine e.
Proof. intros [H|[-> _]]; [by eapply store_get_fine|done]. Qed.

Lemma refused_fine (env : apply_env) (w : write) (s : contract_db) (e : exn) : refused env w s e -> fine e.
Proof.
  destruct w; simpl; try (intros [H|[[-> _]|[-> _]]]; [by eapply usage_fine|done..]);
    try (intros [H|(key & p & old & _ & _ & H)]; [by eapply refused_iterator_fine|by eapply usage_fine]).
  by apply refused_iterator_fine.
Qed.

Lemma refused_read_fine (r : read) (s : contract_db) (e : exn) : refused_read r s e -> fine e.
Proof.
  destruct r as [| | d k it|d k it]; simpl; try done; [apply store_get_fine|].
  destruct (it <? -1); [by intros [-> _]|apply store_get_fine].
Qed.

(** Each action starts without iterators. *)
Definition new_action (s : contract_db) : contract_db := mk_contract_db (tables s) (objects s) (fun _ => iter_store_empty).

Definition no_tables : contract_db :=
  mk_contract_db undo_index_empty (fun _ => undo_index_empty) (fun _ => iter_store_empty).

(** The states of the tables in a transaction whose actions make any calls, in any order. *)
Inductive reached : contract_db -> Prop :=
  | reached_start : reached no_tables
  | reached_action (s : contract_db) : reached s -> reached (new_action s)
  | reached_write (env : apply_env) (w : write) (s s' : contract_db) (it : option Z) :
      reached s -> room_left s -> perform env w s = (s', Ok it) -> reached s'
  | reached_read (r : read) (s s' : contract_db) (x : Z * option object) :
      reached s -> safe r s -> observe r s = (s', Ok x) -> reached s'.

Lemma no_tables_ok : db_ok no_tables.
Proof. by split. Qed.

Lemma reached_ok (s : contract_db) : reached s -> db_ok s.
Proof.
  induction 1 as [|s _ [I1 I2 I3 I4 I5]|env w s s' it _ I R E|r s s' x _ I Hs E].
  - apply no_tables_ok.
  - by split.
  - pose proof (wp_run _ _ _ _ _ _ (perform_wp env w s I R) E) as [? _]. done.
  - pose proof (wp_run _ _ _ _ _ _ (observe_wp r s I Hs) E) as Hx. by destruct x, Hx.
Qed.

(** C25. Whatever calls the actions of a transaction make, in any order and for any contracts, no call reads freed
    memory or finds its cache of tables broken: the count of each table is the number of its objects, so that a
    table disappears exactly with its last object, and every iterator leads to an object that exists. The
    exception is previous on the end iterator of a table that no longer exists. *)
Theorem tables_memory_safe (s : contract_db) :
  reached s -> (forall i t, contents (tables s) !! i = Some t -> ti_count t = Z.of_nat (total s i) /\ 0 < ti_count t) /\
    (forall env w e, room_left s -> snd (perform env w s) = Throw e -> fine e) /\
    (forall r e, safe r s -> snd (observe r s) = Throw e -> fine e).
Proof.
  intros I%reached_ok. split_and!.
  - intros i t Ht. destruct (ok_count _ _ I _ _ Ht) as [? H]. split; [done|]. by apply H.
  - intros env w e R E. pose proof (perform_wp env w s I R) as H. unfold wp in H.
    destruct (perform env w s) as [s' [it|e']]; [done|]. injection E as <-. by eapply refused_fine.
  - intros r e Hs E. pose proof (observe_wp r s I Hs) as H. unfold wp in H.
    destruct (observe r s) as [s' [x|e']]; [done|]. injection E as <-. by eapply refused_read_fine.
Qed.

(** ** A run *)

(** A contract that stores a row, asks for the end of the table, removes the row and moves back from the end. *)
Definition back_from_end (env : apply_env) (scope table id : Z) : M contract_db (Z * option object) :=
  it ← db_store_i64 env scope table (receiver env) id [];
  ei ← end_iterator key_value (receiver env) scope table;
  _ ← remove_at env key_value it;
  previous_primary key_value ei.

Definition sample_env : apply_env := mk_apply_env 5 (mk_action 5 6 [] []) false false false.

(** An undo session over all tables, as each transaction has one. *)
Definition session (s : contract_db) : contract_db :=
  mk_contract_db (add_session (tables s)) (fun k => add_session (objects s k)) (stores s).

Definition after {A} (s : contract_db) (m : M contract_db A) : contract_db := fst (m s).

(** The store of iterators keeps the pointer of a table that was removed. When a table was created in the same
    undo session its memory is freed with its last row, and previous on its end iterator reads it; when the table is
    older, the undo session still has it and the answer is -1. The least integer makes previous overflow in
    any state. *)
Theorem end_iterator_dangles :
  snd (back_from_end sample_env 1 2 3 (session no_tables)) = Throw undefined_behaviour /\
  (let s := session (after no_tables (db_store_i64 sample_env 1 2 5 3 [])) in
   let s := after s (it ← find_primary key_value 5 1 2 3; remove_at sample_env key_value (fst it)) in
   snd (previous_primary key_value (-2) s) = Ok (-1, None)) /\
  forall d k s, snd (observe (r_previous d k (- 2 ^ 31)) s) = Throw undefined_behaviour.
Proof. split_and!; [reflexivity|reflexivity|]. by intros [] k s. Qed.

Abbreviation one_row := (w_store_i64 1 2 5 3 [7; 8]).
Abbreviation with_row := (after no_tables (perform sample_env one_row)).

Lemma no_tables_room : room_left no_tables.
Proof. by split. Qed.

Lemma with_row_reached : reached with_row.
Proof. eapply (reached_write sample_env one_row _ _ (Some 0)); [apply reached_start|apply no_tables_room|reflexivity]. Qed.

Lemma writes_refine_witness :
  snd (perform sample_env one_row no_tables) = Ok (Some 0) /\ meaning sample_env one_row no_tables (Some 0) with_row.
Proof.
  pose proof (writes_refine sample_env one_row no_tables no_tables_ok no_tables_room) as H. unfold wp in H.
  split; [reflexivity|]. assert (E : perform sample_env one_row no_tables = (with_row, Ok (Some 0))) by reflexivity.
  rewrite E in H. exact (proj2 H).
Defined.

Lemma reads_answer_witness :
  let r := r_search l_lower in_primary key_value 5 1 2 0 in
  exists o, snd (observe r with_row) = Ok (0, Some o) /\ answer r with_row 0 (Some o) (after with_row (observe r)).
Proof.
  intros r. pose proof (reads_answer r with_row (reached_ok _ with_row_reached) I) as H. unfold wp in H.
  exists (mk_object 0 0 3 5 (blob [7; 8])). split; [reflexivity|].
  assert (E : observe r with_row = (after with_row (observe r), Ok (0, Some (mk_object 0 0 3 5 (blob [7; 8]))))) by reflexivity.
  rewrite E in H. apply H.
Defined.

Lemma tables_memory_safe_witness :
  let r := r_next in_primary key_value 9 in
  snd (observe r with_row) = Throw invalid_table_iterator /\ fine invalid_table_iterator.
Proof.
  intros r. assert (E : snd (observe r with_row) = Throw invalid_table_iterator) by reflexivity. split; [exact E|].
  exact (proj2 (proj2 (tables_memory_safe with_row with_row_reached)) r _ I E).
Defined.
