(* ===== verification/ChainConfig.v ===== *)
(** * The configuration of the chain

    The parameters that producers vote on (libraries/chain/include/dcd/chain/chain_config.hpp,
    chain_config.cpp), their checks, and their serialization by identifier. *)

From S2P Require Import Prelude Effects Raw.

(** ** Parameters *)
Record chain_config_v0 := mk_config_v0 {
  max_block_net_usage : Z;
  target_block_net_usage_pct : Z;
  max_transaction_net_usage : Z;
  base_per_transaction_net_usage : Z;
  net_usage_leeway : Z;
  context_free_discount_net_usage_num : Z;
  context_free_discount_net_usage_den : Z;
  max_block_cpu_usage : Z;
  target_block_cpu_usage_pct : Z;
  max_transaction_cpu_usage : Z;
  min_transaction_cpu_usage : Z;
  max_transaction_lifetime : Z;
  deferred_trx_expiration_window : Z;
  max_transaction_delay : Z;
  max_inline_action_size : Z;
  max_inline_action_depth : Z;
  max_authority_depth : Z
}.

Record chain_config_v1 := mk_config_v1 {
  base :> chain_config_v0;
  max_action_return_value_size : Z
}.

(** The identifier of a parameter is its position among the members. *)
Module ids.
Definition PARAMS_COUNT_v0 : Z := 17.
Definition max_action_return_value_size_id : Z := PARAMS_COUNT_v0.
Definition PARAMS_COUNT : nat := 18.
End ids.

Module limits.
Definition percent_100 : Z := 10000.
Definition percent_1 : Z := 100.
Definition min_net_usage_delta_between_base_and_max_for_trx : Z := 10 * 1024.
Definition MAX_SIZE_OF_BYTE_ARRAYS : Z := 20 * 1024 * 1024.
Definition default_max_action_return_value_size : Z := 256.
End limits.

(** ** [validate] *)
Definition validate_v0 (c : chain_config_v0) : result unit :=
  _ ← dcd_assert (target_block_net_usage_pct c <=? limits.percent_100) action_validate_exception;
  _ ← dcd_assert (limits.percent_1 / 10 <=? target_block_net_usage_pct c) action_validate_exception;
  _ ← dcd_assert (target_block_cpu_usage_pct c <=? limits.percent_100) action_validate_exception;
  _ ← dcd_assert (limits.percent_1 / 10 <=? target_block_cpu_usage_pct c) action_validate_exception;
  _ ← dcd_assert (max_transaction_net_usage c <? max_block_net_usage c) action_validate_exception;
  _ ← dcd_assert (max_transaction_cpu_usage c <? max_block_cpu_usage c) action_validate_exception;
  _ ← dcd_assert (base_per_transaction_net_usage c <? max_transaction_net_usage c) action_validate_exception;
  _ ← dcd_assert (limits.min_net_usage_delta_between_base_and_max_for_trx <=?
                    u32 (max_transaction_net_usage c - base_per_transaction_net_usage c)) action_validate_exception;
  _ ← dcd_assert (0 <? context_free_discount_net_usage_den c) action_validate_exception;
  _ ← dcd_assert (context_free_discount_net_usage_num c <=? context_free_discount_net_usage_den c)
        action_validate_exception;
  _ ← dcd_assert (min_transaction_cpu_usage c <=? max_transaction_cpu_usage c) action_validate_exception;
  _ ← dcd_assert (max_transaction_cpu_usage c <? u32 (max_block_cpu_usage c - min_transaction_cpu_usage c))
        action_validate_exception;
  dcd_assert (1 <=? max_authority_depth c) action_validate_exception.

Definition validate_v1 (c : chain_config_v1) : result unit :=
  _ ← validate_v0 c;
  dcd_assert (max_action_return_value_size c <=? limits.MAX_SIZE_OF_BYTE_ARRAYS) action_validate_exception.

(** ** [operator==] *)
Definition config_v0_eq (lhs rhs : chain_config_v0) : bool :=
  (max_block_net_usage lhs =? max_block_net_usage rhs) &&
  (target_block_net_usage_pct lhs =? target_block_net_usage_pct rhs) &&
  (max_transaction_net_usage lhs =? max_transaction_net_usage rhs) &&
  (base_per_transaction_net_usage lhs =? base_per_transaction_net_usage rhs) &&
  (net_usage_leeway lhs =? net_usage_leeway rhs) &&
  (context_free_discount_net_usage_num lhs =? context_free_discount_net_usage_num rhs) &&
  (context_free_discount_net_usage_den lhs =? context_free_discount_net_usage_den rhs) &&
  (max_block_cpu_usage lhs =? max_block_cpu_usage rhs) &&
  (target_block_cpu_usage_pct lhs =? target_block_cpu_usage_pct rhs) &&
  (max_transaction_cpu_usage lhs =? max_transaction_cpu_usage rhs) &&
  (max_transaction_cpu_usage lhs =? max_transaction_cpu_usage rhs) &&
  (max_transaction_lifetime lhs =? max_transaction_lifetime rhs) &&
  (deferred_trx_expiration_window lhs =? deferred_trx_expiration_window rhs) &&
  (max_transaction_delay lhs =? max_transaction_delay rhs) &&
  (max_inline_action_size lhs =? max_inline_action_size rhs) &&
  (max_inline_action_depth lhs =? max_inline_action_depth rhs) &&
  (max_authority_depth lhs =? max_authority_depth rhs).

Definition config_v1_eq (lhs rhs : chain_config_v1) : bool :=
  (max_action_return_value_size lhs =? max_action_return_value_size rhs) && config_v0_eq lhs rhs.

(** [operator=( const Base& )]: the parameters of the first version. *)
Definition assign_v0 (c : chain_config_v1) (b : chain_config_v0) : chain_config_v1 :=
  mk_config_v1 b (max_action_return_value_size c).

(** ** One parameter *)

(** [config_entry_validator]: [action_return_value] is whether that feature is active. *)
Definition entry_allowed (action_return_value : bool) (i : Z) : bool :=
  if i =? ids.max_action_return_value_size_id then action_return_value else true.

Definition pack_entry_v0 (arv : bool) (c : chain_config_v0) (i : Z) : result (list Z) :=
  _ ← dcd_assert (entry_allowed arv i) unsupported_feature;
  match i with
  | 0 => Ok (pack_uint64 (max_block_net_usage c))
  | 1 => Ok (pack_uint32 (target_block_net_usage_pct c))
  | 2 => Ok (pack_uint32 (max_transaction_net_usage c))
  | 3 => Ok (pack_uint32 (base_per_transaction_net_usage c))
  | 4 => Ok (pack_uint32 (net_usage_leeway c))
  | 5 => Ok (pack_uint32 (context_free_discount_net_usage_num c))
  | 6 => Ok (pack_uint32 (context_free_discount_net_usage_den c))
  | 7 => Ok (pack_uint32 (max_block_cpu_usage c))
  | 8 => Ok (pack_uint32 (target_block_cpu_usage_pct c))
  | 9 => Ok (pack_uint32 (max_transaction_cpu_usage c))
  | 10 => Ok (pack_uint32 (min_transaction_cpu_usage c))
  | 11 => Ok (pack_uint32 (max_transaction_lifetime c))
  | 12 => Ok (pack_uint32 (deferred_trx_expiration_window c))
  | 13 => Ok (pack_uint32 (max_transaction_delay c))
  | 14 => Ok (pack_uint32 (max_inline_action_size c))
  | 15 => Ok (pack_uint16 (max_inline_action_depth c))
  | 16 => Ok (pack_uint16 (max_authority_depth c))
  | _ => Throw config_parse_error
  end.

Definition pack_entry (arv : bool) (c : chain_config_v1) (i : Z) : result (list Z) :=
  _ ← dcd_assert (entry_allowed arv i) unsupported_feature;
  if i =? ids.max_action_return_value_size_id then Ok (pack_uint32 (max_action_return_value_size c))
  else pack_entry_v0 arv c i.

(** The parameter that is unpacked replaces the member of the configuration. *)
Definition unpack_entry_v0 (arv : bool) (c : chain_config_v0) (i : Z) : M (list Z) chain_config_v0 :=
  _ ← check (entry_allowed arv i) unsupported_feature;
  let '(mk_config_v0 a0 a1 a2 a3 a4 a5 a6 a7 a8 a9 a10 a11 a12 a13 a14 a15 a16) := c in
  match i with
  | 0 => v ← unpack_uint64; mret (mk_config_v0 v a1 a2 a3 a4 a5 a6 a7 a8 a9 a10 a11 a12 a13 a14 a15 a16)
  | 1 => v ← unpack_uint32; mret (mk_config_v0 a0 v a2 a3 a4 a5 a6 a7 a8 a9 a10 a11 a12 a13 a14 a15 a16)
  | 2 => v ← unpack_uint32; mret (mk_config_v0 a0 a1 v a3 a4 a5 a6 a7 a8 a9 a10 a11 a12 a13 a14 a15 a16)
  | 3 => v ← unpack_uint32; mret (mk_config_v0 a0 a1 a2 v a4 a5 a6 a7 a8 a9 a10 a11 a12 a13 a14 a15 a16)
  | 4 => v ← unpack_uint32; mret (mk_config_v0 a0 a1 a2 a3 v a5 a6 a7 a8 a9 a10 a11 a12 a13 a14 a15 a16)
  | 5 => v ← unpack_uint32; mret (mk_config_v0 a0 a1 a2 a3 a4 v a6 a7 a8 a9 a10 a11 a12 a13 a14 a15 a16)
  | 6 => v ← unpack_uint32; mret (mk_config_v0 a0 a1 a2 a3 a4 a5 v a7 a8 a9 a10 a11 a12 a13 a14 a15 a16)
  | 7 => v ← unpack_uint32; mret (mk_config_v0 a0 a1 a2 a3 a4 a5 a6 v a8 a9 a10 a11 a12 a13 a14 a15 a16)
  | 8 => v ← unpack_uint32; mret (mk_config_v0 a0 a1 a2 a3 a4 a5 a6 a7 v a9 a10 a11 a12 a13 a14 a15 a16)
  | 9 => v ← unpack_uint32; mret (mk_config_v0 a0 a1 a2 a3 a4 a5 a6 a7 a8 v a10 a11 a12 a13 a14 a15 a16)
  | 10 => v ← unpack_uint32; mret (mk_config_v0 a0 a1 a2 a3 a4 a5 a6 a7 a8 a9 v a11 a12 a13 a14 a15 a16)
  | 11 => v ← unpack_uint32; mret (mk_config_v0 a0 a1 a2 a3 a4 a5 a6 a7 a8 a9 a10 v a12 a13 a14 a15 a16)
  | 12 => v ← unpack_uint32; mret (mk_config_v0 a0 a1 a2 a3 a4 a5 a6 a7 a8 a9 a10 a11 v a13 a14 a15 a16)
  | 13 => v ← unpack_uint32; mret (mk_config_v0 a0 a1 a2 a3 a4 a5 a6 a7 a8 a9 a10 a11 a12 v a14 a15 a16)
  | 14 => v ← unpack_uint32; mret (mk_config_v0 a0 a1 a2 a3 a4 a5 a6 a7 a8 a9 a10 a11 a12 a13 v a15 a16)
  | 15 => v ← unpack_uint16; mret (mk_config_v0 a0 a1 a2 a3 a4 a5 a6 a7 a8 a9 a10 a11 a12 a13 a14 v a16)
  | 16 => v ← unpack_uint16; mret (mk_config_v0 a0 a1 a2 a3 a4 a5 a6 a7 a8 a9 a10 a11 a12 a13 a14 a15 v)
  | _ => throw config_parse_error
  end.

Definition unpack_entry (arv : bool) (c : chain_config_v1) (i : Z) : M (list Z) chain_config_v1 :=
  _ ← check (entry_allowed arv i) unsupported_feature;
  if i =? ids.max_action_return_value_size_id then v ← unpack_uint32; mret (mk_config_v1 c v)
  else b ← unpack_entry_v0 arv c i; mret (mk_config_v1 b (max_action_return_value_size c)).

(** ** A range of parameters *)
Definition visit (visited : list bool) (i : Z) : result (list bool) :=
  _ ← dcd_assert (i <? Z.of_nat (length visited)) config_parse_error;
  _ ← dcd_assert (negb (default false (visited !! Z.to_nat i))) config_parse_error;
  Ok (<[Z.to_nat i := true]> visited).

Fixpoint pack_entries (arv : bool) (c : chain_config_v1) (visited : list bool) (l : list Z) : result (list Z) :=
  match l with
  | [] => Ok []
  | i :: l =>
      visited ← visit visited i;
      e ← pack_entry arv c i;
      rest ← pack_entries arv c visited l;
      Ok (pack_unsigned_int i ++ e ++ rest)
  end.

Definition pack_range (arv : bool) (c : chain_config_v1) (l : list Z) : result (list Z) :=
  rest ← pack_entries arv c (replicate ids.PARAMS_COUNT false) l;
  Ok (pack_unsigned_int (u32 (Z.of_nat (length l))) ++ rest).

Fixpoint unpack_entries (n : nat) (arv : bool) (c : chain_config_v1) (visited : list bool) :
    M (list Z) chain_config_v1 :=
  match n with
  | O => mret c
  | S n =>
      i ← unpack_unsigned_int;
      visited ← lift (visit visited i);
      c ← unpack_entry arv c i;
      unpack_entries n arv c visited
  end.

Definition unpack_range (arv : bool) (c : chain_config_v1) : M (list Z) chain_config_v1 :=
  n ← unpack_unsigned_int;
  unpack_entries (Z.to_nat n) arv c (replicate ids.PARAMS_COUNT false).

(** ** The whole configuration of the first version, as reflected *)
Definition pack_config_v0 (c : chain_config_v0) : list Z :=
  pack_uint64 (max_block_net_usage c) ++
  pack_uint32 (target_block_net_usage_pct c) ++
  pack_uint32 (max_transaction_net_usage c) ++
  pack_uint32 (base_per_transaction_net_usage c) ++
  pack_uint32 (net_usage_leeway c) ++
  pack_uint32 (context_free_discount_net_usage_num c) ++
  pack_uint32 (context_free_discount_net_usage_den c) ++
  pack_uint32 (max_block_cpu_usage c) ++
  pack_uint32 (target_block_cpu_usage_pct c) ++
  pack_uint32 (max_transaction_cpu_usage c) ++
  pack_uint32 (min_transaction_cpu_usage c) ++
  pack_uint32 (max_transaction_lifetime c) ++
  pack_uint32 (deferred_trx_expiration_window c) ++
  pack_uint32 (max_transaction_delay c) ++
  pack_uint32 (max_inline_action_size c) ++
  pack_uint16 (max_inline_action_depth c) ++
  pack_uint16 (max_authority_depth c).

Definition unpack_config_v0 : M (list Z) chain_config_v0 :=
  a0 ← unpack_uint64;
  a1 ← unpack_uint32;
  a2 ← unpack_uint32;
  a3 ← unpack_uint32;
  a4 ← unpack_uint32;
  a5 ← unpack_uint32;
  a6 ← unpack_uint32;
  a7 ← unpack_uint32;
  a8 ← unpack_uint32;
  a9 ← unpack_uint32;
  a10 ← unpack_uint32;
  a11 ← unpack_uint32;
  a12 ← unpack_uint32;
  a13 ← unpack_uint32;
  a14 ← unpack_uint32;
  a15 ← unpack_uint16;
  a16 ← unpack_uint16;
  mret (mk_config_v0 a0 a1 a2 a3 a4 a5 a6 a7 a8 a9 a10 a11 a12 a13 a14 a15 a16).
