(* ===== verification/Parameters.v ===== *)
(** * Parameters that contracts read and write

    The host functions of a privileged contract on the parameters in the global properties
    (libraries/chain/webassembly/privileged.cpp): the configuration of the chain, the limits of the
    WebAssembly engine (wasm_config.hpp, wasm_config.cpp) and those of the key-value database
    (kv_config.hpp). The memory of the contract is the list of bytes that is passed. *)

From S2P Require Import Prelude Effects Raw ChainConfig.

(** ** The limits of the engine *)
Record wasm_config := mk_wasm_config {
  max_mutable_global_bytes : Z;
  max_table_elements : Z;
  max_section_elements : Z;
  max_linear_memory_init : Z;
  max_func_local_bytes : Z;
  max_nested_structures : Z;
  max_symbol_bytes : Z;
  max_module_bytes : Z;
  max_code_bytes : Z;
  max_pages : Z;
  max_call_depth : Z
}.

Definition validate_wasm (c : wasm_config) : result unit :=
  _ ← dcd_assert (4 <=? max_section_elements c) action_validate_exception;
  _ ← dcd_assert (8 <=? max_func_local_bytes c) action_validate_exception;
  _ ← dcd_assert (1 <=? max_nested_structures c) action_validate_exception;
  _ ← dcd_assert (32 <=? max_symbol_bytes c) action_validate_exception;
  _ ← dcd_assert (256 <=? max_module_bytes c) action_validate_exception;
  _ ← dcd_assert (32 <=? max_code_bytes c) action_validate_exception;
  _ ← dcd_assert (1 <=? max_pages c) action_validate_exception;
  dcd_assert (2 <=? max_call_depth c) action_validate_exception.

Definition pack_wasm_config (c : wasm_config) : list Z :=
  pack_uint32 (max_mutable_global_bytes c) ++ pack_uint32 (max_table_elements c) ++
  pack_uint32 (max_section_elements c) ++ pack_uint32 (max_linear_memory_init c) ++
  pack_uint32 (max_func_local_bytes c) ++ pack_uint32 (max_nested_structures c) ++
  pack_uint32 (max_symbol_bytes c) ++ pack_uint32 (max_module_bytes c) ++
  pack_uint32 (max_code_bytes c) ++ pack_uint32 (max_pages c) ++ pack_uint32 (max_call_depth c).

Definition unpack_wasm_config : M (list Z) wasm_config :=
  a0 ← unpack_uint32;
  a1 ← unpack_uint32;
  a2 ← unpack_uint32;
  a3 ← unpack_uint32;
  a4 ← unpack_uint32;
  a5 ← unpack_uint32;
  a6 ← unpack_uint32;
  a7 ← unpack_uint32;
  a8 ← unpack_uint32;
  a9 ← unpack_uint32;
  a10 ← unpack_uint32;
  mret (mk_wasm_config a0 a1 a2 a3 a4 a5 a6 a7 a8 a9 a10).

(** ** The limits of the key-value database *)
Record kv_database_config := mk_kv_config {
  max_key_size : Z;
  max_value_size : Z;
  max_iterators : Z
}.

Definition pack_kv_config (c : kv_database_config) : list Z :=
  pack_uint32 (max_key_size c) ++ pack_uint32 (max_value_size c) ++ pack_uint32 (max_iterators c).

Definition unpack_kv_config : M (list Z) kv_database_config :=
  a0 ← unpack_uint32;
  a1 ← unpack_uint32;
  a2 ← unpack_uint32;
  mret (mk_kv_config a0 a1 a2).

(** ** The global properties *)
Record parameters := mk_parameters {
  configuration : chain_config_v1;
  kv_configuration : kv_database_config;
  wasm_configuration : wasm_config
}.

(** The limits of the engine on a new chain, and the parameters that it starts with. *)
Definition default_initial_wasm_configuration : wasm_config :=
  mk_wasm_config 1024 1024 8192 (64 * 1024) 8192 1024 8192 (20 * 1024 * 1024) (20 * 1024 * 1024) 528 251.

Definition initial_parameters (initial_configuration : chain_config_v0) : parameters :=
  mk_parameters (mk_config_v1 initial_configuration limits.default_max_action_return_value_size)
    (mk_kv_config 0 0 0) default_initial_wasm_configuration.

Definition with_configuration (g : parameters) (c : chain_config_v1) : parameters :=
  mk_parameters c (kv_configuration g) (wasm_configuration g).

(** What is unpacked from a buffer. *)
Definition unpack_from {A} (m : M (list Z) A) (buffer : list Z) : result A := snd (m buffer).

(** ** Host functions: the value that is returned, and the buffer *)
Definition get_wasm_parameters_packed (g : parameters) (buffer : list Z) (max_version : Z) :
    result (Z * list Z) :=
  let params := wasm_configuration g in
  let version := Z.min max_version 0 in
  let s := pack_size (pack_wasm_config params) in
  if (length buffer =? 0)%nat then Ok (Z.of_nat s, buffer)
  else if (s <=? length buffer)%nat then
    buffer ← ds_write buffer s (pack_uint32 version ++ pack_wasm_config params);
    Ok (Z.of_nat s, buffer)
  else Ok (Z.of_nat s, buffer).

Definition set_wasm_parameters_packed (g : parameters) (buffer : list Z) : result parameters :=
  cfg ← unpack_from (version ← unpack_uint32;
                     _ ← check (version =? 0) wasm_config_unknown_version;
                     unpack_wasm_config) buffer;
  _ ← validate_wasm cfg;
  Ok (mk_parameters (configuration g) (kv_configuration g) cfg).

Definition get_blockchain_parameters_packed (g : parameters) (buffer : list Z) : result (Z * list Z) :=
  let packed := pack_config_v0 (configuration g) in
  let s := pack_size packed in
  if (length buffer =? 0)%nat then Ok (Z.of_nat s, buffer)
  else if (s <=? length buffer)%nat then buffer ← ds_write buffer s packed; Ok (Z.of_nat s, buffer)
  else Ok (0, buffer).

Definition set_blockchain_parameters_packed (g : parameters) (buffer : list Z) : result parameters :=
  cfg ← unpack_from unpack_config_v0 buffer;
  _ ← validate_v0 cfg;
  Ok (with_configuration g (assign_v0 (configuration g) cfg)).

(** [arv]: whether the feature [action_return_value] is active. *)
Definition get_parameters_packed (arv : bool) (g : parameters) (packed_ids buffer : list Z) :
    result (Z * list Z) :=
  l ← unpack_from unpack_ids packed_ids;
  packed ← pack_range arv (configuration g) l;
  let s := pack_size packed in
  if (length buffer =? 0)%nat then Ok (Z.of_nat s, buffer)
  else
    _ ← dcd_assert (s <=? length buffer)%nat config_parse_error;
    buffer ← ds_write buffer s packed;
    Ok (Z.of_nat s, buffer).

Definition set_parameters_packed (arv : bool) (g : parameters) (buffer : list Z) : result parameters :=
  cfg ← unpack_from (unpack_range arv (configuration g)) buffer;
  _ ← validate_v1 cfg;
  Ok (with_configuration g cfg).

Definition get_kv_parameters_packed (g : parameters) (buffer : list Z) (max_version : Z) : result (Z * list Z) :=
  let params := kv_configuration g in
  let version := Z.min max_version 0 in
  let s := (pack_size (pack_uint32 version) + pack_size (pack_kv_config params))%nat in
  if (s <=? length buffer)%nat then
    buffer ← ds_write buffer s (pack_uint32 version ++ pack_kv_config params);
    Ok (Z.of_nat s, buffer)
  else Ok (Z.of_nat s, buffer).

Definition set_kv_parameters_packed (g : parameters) (buffer : list Z) : result parameters :=
  cfg ← unpack_from (version ← unpack_uint32;
                     _ ← check (version =? 0) kv_unknown_parameters_version;
                     unpack_kv_config) buffer;
  Ok (mk_parameters (configuration g) cfg (wasm_configuration g)).
