(* ===== verification/ParameterProofs.v ===== *)
(** * The parameters: typing, validity and round trips

    The host functions keep the parameters within the widths of their types and valid, and what the
    functions that read parameters return can be written back. *)

From S2P Require Import Prelude Effects Raw ChainConfig Parameters.

(** ** Parameters by identifier *)
Definition param (c : chain_config_v1) (i : Z) : Z :=
  match i with
  | 0 => max_block_net_usage c
  | 1 => target_block_net_usage_pct c
  | 2 => max_transaction_net_usage c
  | 3 => base_per_transaction_net_usage c
  | 4 => net_usage_leeway c
  | 5 => context_free_discount_net_usage_num c
  | 6 => context_free_discount_net_usage_den c
  | 7 => max_block_cpu_usage c
  | 8 => target_block_cpu_usage_pct c
  | 9 => max_transaction_cpu_usage c
  | 10 => min_transaction_cpu_usage c
  | 11 => max_transaction_lifetime c
  | 12 => deferred_trx_expiration_window c
  | 13 => max_transaction_delay c
  | 14 => max_inline_action_size c
  | 15 => max_inline_action_depth c
  | 16 => max_authority_depth c
  | 17 => max_action_return_value_size c
  | _ => 0
  end.

Definition known (i : Z) : Prop := 0 <= i < 18.

(** The size of a parameter in bytes. *)
Definition width (i : Z) : nat := if i =? 0 then 8 else if (i =? 15) || (i =? 16) then 2 else 4.

Lemma known_cases (i : Z) : known i -> i ∈ [0; 1; 2; 3; 4; 5; 6; 7; 8; 9; 10; 11; 12; 13; 14; 15; 16; 17].
Proof. intros Hi. apply (elem_of_seqZ 0 18 i). unfold known in Hi. lia. Qed.

(** Case analysis on a known identifier. *)
Ltac each_id H :=
  apply known_cases in H;
  repeat (apply elem_of_cons in H; destruct H as [->|H]); [..|by apply elem_of_nil in H].

Lemma config_ext (c c' : chain_config_v1) : (forall i, known i -> param c i = param c' i) -> c = c'.
Proof.
  intros E.
  pose proof (E 0 ltac:(by vm_compute)) as E0.
  pose proof (E 1 ltac:(by vm_compute)) as E1.
  pose proof (E 2 ltac:(by vm_compute)) as E2.
  pose proof (E 3 ltac:(by vm_compute)) as E3.
  pose proof (E 4 ltac:(by vm_compute)) as E4.
  pose proof (E 5 ltac:(by vm_compute)) as E5.
  pose proof (E 6 ltac:(by vm_compute)) as E6.
  pose proof (E 7 ltac:(by vm_compute)) as E7.
  pose proof (E 8 ltac:(by vm_compute)) as E8.
  pose proof (E 9 ltac:(by vm_compute)) as E9.
  pose proof (E 10 ltac:(by vm_compute)) as E10.
  pose proof (E 11 ltac:(by vm_compute)) as E11.
  pose proof (E 12 ltac:(by vm_compute)) as E12.
  pose proof (E 13 ltac:(by vm_compute)) as E13.
  pose proof (E 14 ltac:(by vm_compute)) as E14.
  pose proof (E 15 ltac:(by vm_compute)) as E15.
  pose proof (E 16 ltac:(by vm_compute)) as E16.
  pose proof (E 17 ltac:(by vm_compute)) as E17.
  destruct c as [[] ?], c' as [[] ?]. simpl in *. by subst.
Qed.

(** The configuration with another value for a parameter. *)
Definition set_param (c : chain_config_v1) (i v : Z) : chain_config_v1 :=
  let p j := if j =? i then v else param c j in
  mk_config_v1 (mk_config_v0 (p 0) (p 1) (p 2) (p 3) (p 4) (p 5) (p 6) (p 7) (p 8) (p 9) (p 10) (p 11) (p 12) (p 13) (p 14) (p 15) (p 16)) (p 17).

Lemma param_set_param (c : chain_config_v1) (i v j : Z) :
  known j -> param (set_param c i v) j = if j =? i then v else param c j.
Proof. intros Hj. by each_id Hj. Qed.

Definition config_fits (c : chain_config_v1) : Prop := forall i, known i -> fits (8 * Z.of_nat (width i)) (param c i).

(** ** One entry *)
Lemma pack_entry_known (arv : bool) (c : chain_config_v1) (i : Z) :
  known i -> entry_allowed arv i = true -> pack_entry arv c i = Ok (pack_uint (width i) (param c i)).
Proof.
  intros Hi Ha. unfold pack_entry. rewrite Ha. simpl dcd_assert. cbn [mbind result_bind]. unfold pack_entry_v0. rewrite Ha.
  by each_id Hi.
Qed.

Lemma unpack_entry_known (arv : bool) (c : chain_config_v1) (i v : Z) (s : list Z) :
  known i -> entry_allowed arv i = true -> fits (8 * Z.of_nat (width i)) v ->
  unpack_entry arv c i (pack_uint (width i) v ++ s) = (s, Ok (set_param c i v)).
Proof.
  intros Hi Ha Hv. unfold unpack_entry. rewrite check_bind, Ha.
  assert (Hr : forall n, n = width i -> unpack_uint n (pack_uint (width i) v ++ s) = (s, Ok v)).
  { intros n ->. apply unpack_pack_uint. unfold fits in Hv. by rewrite Z.pow_mul_r in Hv by lia. }
  destruct (Z.eqb_spec i ids.max_action_return_value_size_id) as [->|Hne].
  - rewrite (bind_Ok _ _ _ _ _ (Hr 4%nat eq_refl)). by destruct c as [[] ?].
  - unfold unpack_entry_v0. rewrite bind_eq, check_bind, Ha.
    assert (Hcfg : forall n (k : Z -> chain_config_v0), n = width i ->
      (v' ← unpack_uint n; mret (k v')) (pack_uint (width i) v ++ s) = (s, Ok (k v))).
    { intros n k Hn. by rewrite (bind_Ok _ _ _ _ _ (Hr n Hn)). }
    unfold unpack_uint16, unpack_uint32, unpack_uint64. destruct c as [[] ?]. cbn [base]. each_id Hi; try done; cbv beta iota; by rewrite Hcfg.
Qed.

(** ** Ranges *)

(** The identifiers [seen] were visited. *)
Definition visited_by (visited : list bool) (seen : gset Z) : Prop :=
  length visited = ids.PARAMS_COUNT /\
  forall i, known i -> visited !! Z.to_nat i = Some (bool_decide (i ∈ seen)).

Lemma visited_none : visited_by (replicate ids.PARAMS_COUNT false) ∅.
Proof.
  split; [done|]. intros i Hi. unfold known, ids.PARAMS_COUNT in *. rewrite bool_decide_eq_false_2 by set_solver.
  apply lookup_replicate. split; [done|lia].
Qed.

Lemma visit_spec (visited : list bool) (seen : gset Z) (i : Z) :
  visited_by visited seen -> 0 <= i ->
  (known i /\ i ∉ seen /\ exists visited', visit visited i = Ok visited' /\ visited_by visited' ({[i]} ∪ seen)) \/
  (~ (known i /\ i ∉ seen) /\ visit visited i = Throw config_parse_error).
Proof.
  intros [Hl Hv] Hi. unfold visit. rewrite Hl. unfold ids.PARAMS_COUNT in *.
  destruct (Z.ltb_spec i (Z.of_nat 18)) as [Hlt|]; simpl; [|right; split; [unfold known; lia|done]].
  assert (Hk : known i) by (unfold known; lia). rewrite (Hv i Hk). simpl.
  case_bool_decide as Hs; simpl; [right; split; [tauto|done]|]. left. split_and!; [done..|].
  eexists. split; [reflexivity|]. split; [by rewrite length_insert|]. intros j Hj.
  destruct (decide (j = i)) as [->|Hne].
  - rewrite list_lookup_insert_eq by lia. by rewrite bool_decide_eq_true_2 by set_solver.
  - rewrite list_lookup_insert_ne by (unfold known in *; lia). rewrite Hv by done.
    f_equal. apply bool_decide_ext. set_solver.
Qed.

(** The configuration with the parameters [l] of another one. *)
Definition take_params (c c' : chain_config_v1) (l : list Z) : chain_config_v1 :=
  foldl (fun c' i => set_param c' i (param c i)) c' l.

Lemma take_params_param (c c' : chain_config_v1) (l : list Z) (j : Z) :
  known j -> param (take_params c c' l) j = if bool_decide (j ∈ l) then param c j else param c' j.
Proof.
  intros Hj. unfold take_params. revert c'. induction l as [|i l IH]; intros c'; cbn [foldl]; [done|].
  rewrite IH, param_set_param by done. destruct (Z.eqb_spec j i) as [->|Hne].
  - rewrite (bool_decide_eq_true_2 (i ∈ i :: l)) by set_solver. by case_bool_decide.
  - rewrite (bool_decide_ext (j ∈ i :: l) (j ∈ l)) by set_solver. done.
Qed.

(** Which ranges can be packed, and that they are unpacked. *)
Lemma pack_entries_spec (arv : bool) (c c' : chain_config_v1) (visited : list bool) (seen : gset Z) (l s : list Z) :
  config_fits c -> visited_by visited seen -> Forall (fits 32) l ->
  match pack_entries arv c visited l with
  | Ok bytes => unpack_entries (length l) arv c' visited (bytes ++ s) = (s, Ok (take_params c c' l))
  | Throw _ => ~ (NoDup l /\ (forall i, i ∈ l -> known i /\ i ∉ seen /\ entry_allowed arv i = true))
  end.
Proof.
  intros Hc. revert c' visited seen s. induction l as [|i l IH]; intros c' visited seen s Hv Hl; [done|].
  apply Forall_cons in Hl as [Hi Hl]. cbn [pack_entries]. unfold fits in Hi.
  destruct (visit_spec visited seen i Hv (proj1 Hi)) as [(Hk & Hs & v' & E & Hv')|[Hno ->]].
  2:{ simpl. intros [_ Hall]. destruct (Hall i ltac:(set_solver)) as (? & ? & _). by apply Hno. }
  rewrite E. cbn [mbind result_bind]. destruct (entry_allowed arv i) eqn:Ea.
  2:{ unfold pack_entry. rewrite Ea. simpl. intros [_ Hall]. destruct (Hall i ltac:(set_solver)) as (_ & _ & ?). congruence. }
  rewrite pack_entry_known by done. cbn [mbind result_bind].
  specialize (IH (set_param c' i (param c i)) v' ({[i]} ∪ seen) s Hv' Hl).
  destruct (pack_entries arv c v' l) as [bytes|e]; cbn [mbind result_bind].
  - cbn [length unpack_entries]. rewrite <- !(assoc_L (++)).
    rewrite (bind_Ok _ _ _ _ _ (unpack_pack_unsigned_int i _ Hi)), lift_bind, E.
    by rewrite (bind_Ok _ _ _ _ _ (unpack_entry_known arv c' i (param c i) _ Hk Ea (Hc i Hk))).
  - intros [[Hni Hnd]%NoDup_cons Hall]. apply IH. split; [done|]. intros j Hj.
    destruct (Hall j ltac:(set_solver)) as (? & ? & ?). split_and!; try done. intros [->%elem_of_singleton|?]%elem_of_union; done.
Qed.

(** C30. Parameters that a contract reads by identifier can be written back, to this or another state: the
    bytes that [get_parameters_packed] leaves in the memory make [set_parameters_packed] take exactly the
    parameters that were asked for, and leave the others; the result is installed when it is valid. The
    parameters can be read when no identifier is repeated and all are known and allowed. *)
Theorem parameters_roundtrip (arv : bool) (g g' : parameters) (l buffer : list Z) :
  config_fits (configuration g) -> Forall (fits 32) l -> Z.of_nat (length l) <= MAX_NUM_ARRAY_ELEMENTS ->
  (forall n out, get_parameters_packed arv g (pack_ids l) buffer = Ok (n, out) -> buffer <> [] ->
     exists c, set_parameters_packed arv g' out = (_ ← validate_v1 c; Ok (with_configuration g' c)) /\
       forall i, known i ->
         param c i = if bool_decide (i ∈ l) then param (configuration g) i else param (configuration g') i) /\
  (NoDup l -> (forall i, i ∈ l -> known i /\ entry_allowed arv i = true) ->
     exists n, get_parameters_packed arv g (pack_ids l) [] = Ok (n, []) /\
       forall buffer, n <= Z.of_nat (length buffer) ->
         exists out, get_parameters_packed arv g (pack_ids l) buffer = Ok (n, out)).
Proof.
  intros Hc Hl Hm. set (c' := configuration g').
  assert (Hf : fits 32 (Z.of_nat (length l))) by (unfold MAX_NUM_ARRAY_ELEMENTS, fits in *; lia).
  pose proof (fun s => pack_entries_spec arv (configuration g) c' _ _ l s Hc visited_none Hl) as Hspec.
  unfold get_parameters_packed, unpack_from. rewrite <- (app_nil_r (pack_ids l)), unpack_pack_ids by done.
  cbn [snd mbind result_bind]. unfold pack_range.
  destruct (pack_entries arv (configuration g) _ l) as [rest|e] eqn:Ep; cbn [mbind result_bind].
  2:{ split; [done|]. intros Hnd Hall. destruct (Hspec []). split; [done|]. intros i Hi.
      destruct (Hall i Hi). split_and!; [done|set_solver|done]. }
  remember (pack_unsigned_int (u32 (Z.of_nat (length l))) ++ rest) as packed eqn:Epk. unfold ds_write, pack_size. split.
  - intros n out. destruct (Nat.eqb_spec (length buffer) 0) as [E|Hne]; [by apply nil_length_inv in E|].
    destruct (length packed <=? length buffer)%nat eqn:El; [|done]. cbn [mbind result_bind dcd_assert]. rewrite Nat.leb_refl.
    cbn [mbind result_bind]. intros [= <- <-] _. exists (take_params (configuration g) c' l).
    split; [|intros i Hi; by apply take_params_param].
    unfold set_parameters_packed, unpack_from, unpack_range. rewrite Epk, <- (assoc_L (++)).
    rewrite wrap_small by done. rewrite (bind_Ok _ _ _ _ _ (unpack_pack_unsigned_int _ _ Hf)), Nat2Z.id.
    by rewrite Hspec.
  - intros _ _. exists (Z.of_nat (length packed)). split; [done|]. intros b Hb.
    destruct (Nat.eqb_spec (length b) 0) as [E|Hne]; [by exists b|].
    rewrite (proj2 (Nat.leb_le (length packed) (length b))) by lia. cbn [mbind result_bind dcd_assert].
    rewrite Nat.leb_refl. by eexists.
Qed.

(** ** Validity *)
Record config_valid (c : chain_config_v1) : Prop := {
  cv_net_pct : 10 <= target_block_net_usage_pct c <= 10000;
  cv_cpu_pct : 10 <= target_block_cpu_usage_pct c <= 10000;
  cv_net : base_per_transaction_net_usage c + 10240 <= max_transaction_net_usage c < max_block_net_usage c;
  cv_discount : context_free_discount_net_usage_num c <= context_free_discount_net_usage_den c /\
    0 < context_free_discount_net_usage_den c;
  cv_cpu : min_transaction_cpu_usage c <= max_transaction_cpu_usage c /\
    max_transaction_cpu_usage c + min_transaction_cpu_usage c < max_block_cpu_usage c;
  cv_depth : 1 <= max_authority_depth c;
  cv_return : max_action_return_value_size c <= 20971520
}.

Lemma validate_v0_bounds (c : chain_config_v1) :
  config_fits c -> validate_v0 c = Ok tt -> max_action_return_value_size c <= 20971520 -> config_valid c.
Proof.
  intros Hf E Hr. unfold validate_v0 in E. bind_ok. breflect.
  pose proof (Hf 2 ltac:(by vm_compute)) as F2. pose proof (Hf 3 ltac:(by vm_compute)) as F3.
  pose proof (Hf 7 ltac:(by vm_compute)) as F7. pose proof (Hf 9 ltac:(by vm_compute)) as F9.
  pose proof (Hf 10 ltac:(by vm_compute)) as F10.
  unfold fits in F2, F3, F7, F9, F10. simpl in F2, F3, F7, F9, F10.
  change (2 ^ (8 * Z.of_nat (width _))) with (2 ^ 32) in *.
  rewrite wrap_small in Heqb4, Heqb0 by (split; lia).
  unfold limits.percent_100, limits.percent_1, limits.min_net_usage_delta_between_base_and_max_for_trx in *.
  change (100 / 10) with 10 in *. split; lia.
Qed.

Definition wasm_fits (c : wasm_config) : Prop :=
  Forall (fits 32) [max_mutable_global_bytes c; max_table_elements c; max_section_elements c;
    max_linear_memory_init c; max_func_local_bytes c; max_nested_structures c; max_symbol_bytes c;
    max_module_bytes c; max_code_bytes c; max_pages c; max_call_depth c].

Definition kv_fits (c : kv_database_config) : Prop :=
  Forall (fits 32) [max_key_size c; max_value_size c; max_iterators c].

(** The parameters have the widths of their types, and are valid. *)
Record parameters_ok (g : parameters) : Prop := {
  po_config : config_fits (configuration g);
  po_valid : config_valid (configuration g);
  po_wasm : wasm_fits (wasm_configuration g);
  po_wasm_valid : validate_wasm (wasm_configuration g) = Ok tt;
  po_kv : kv_fits (kv_configuration g)
}.

(** The calls that change the parameters, on buffers of bytes. *)
Inductive parameters_step (g : parameters) : parameters -> Prop :=
  | step_wasm buffer g' : Forall (fits 8) buffer ->
      set_wasm_parameters_packed g buffer = Ok g' -> parameters_step g g'
  | step_blockchain buffer g' : Forall (fits 8) buffer ->
      set_blockchain_parameters_packed g buffer = Ok g' -> parameters_step g g'
  | step_range arv buffer g' : Forall (fits 8) buffer ->
      set_parameters_packed arv g buffer = Ok g' -> parameters_step g g'
  | step_kv buffer g' : Forall (fits 8) buffer ->
      set_kv_parameters_packed g buffer = Ok g' -> parameters_step g g'.

(** ** What is read is typed *)
Lemma typed_bind {A B} (P : A -> Prop) (Q : B -> Prop) (m : M (list Z) A) (f : A -> M (list Z) B) :
  typed_read P m -> (forall a, P a -> typed_read Q (f a)) -> typed_read Q (m ≫= f).
Proof.
  intros Hm Hf. eapply triple_bind; [exact Hm|]. intros a s [Ha Hs]. by apply (Hf a Ha).
Qed.

Lemma typed_ret {A} (Q : A -> Prop) (a : A) : Q a -> typed_read Q (mret a).
Proof. by intros Ha s Hs. Qed.

Lemma typed_check {B} (Q : B -> Prop) (b : bool) (e : exn) (f : unit -> M (list Z) B) :
  typed_read Q (f tt) -> typed_read Q (check b e ≫= f).
Proof. intros Hf s Hs. rewrite check_bind. destruct b; [by apply Hf|done]. Qed.

Lemma typed_throw {A} (Q : A -> Prop) (e : exn) : typed_read Q (throw e).
Proof. by intros s Hs. Qed.

Lemma typed_unpack {A} (Q : A -> Prop) (m : M (list Z) A) (buffer : list Z) (a : A) :
  typed_read Q m -> Forall (fits 8) buffer -> unpack_from m buffer = Ok a -> Q a.
Proof.
  intros Hm Hb. specialize (Hm buffer Hb). unfold unpack_from. destruct (m buffer) as [s [x|e]]; [|done].
  simpl. intros [= <-]. apply Hm.
Qed.

Ltac typed_fields :=
  repeat match goal with
  | |- typed_read _ (unpack_uint16 ≫= _) => eapply typed_bind; [apply (typed_uint 2)|intros ? ?]
  | |- typed_read _ (unpack_uint32 ≫= _) => eapply typed_bind; [apply (typed_uint 4)|intros ? ?]
  | |- typed_read _ (unpack_uint64 ≫= _) => eapply typed_bind; [apply (typed_uint 8)|intros ? ?]
  end.

Lemma typed_config_v0 (v : Z) : fits 32 v -> typed_read (fun c => config_fits (mk_config_v1 c v)) unpack_config_v0.
Proof. intros Hv. unfold unpack_config_v0. typed_fields. apply typed_ret. intros i Hi. by each_id Hi. Qed.

Lemma typed_wasm : typed_read wasm_fits unpack_wasm_config.
Proof. unfold unpack_wasm_config. typed_fields. apply typed_ret. by repeat (apply Forall_cons; split; [done|]). Qed.

Lemma typed_kv : typed_read kv_fits unpack_kv_config.
Proof. unfold unpack_kv_config. typed_fields. apply typed_ret. by repeat (apply Forall_cons; split; [done|]). Qed.

Lemma typed_entry (arv : bool) (c : chain_config_v1) (i : Z) :
  config_fits c -> typed_read config_fits (unpack_entry arv c i).
Proof.
  intros Hc. unfold unpack_entry. apply typed_check. destruct (Z.eqb_spec i ids.max_action_return_value_size_id).
  - typed_fields. apply typed_ret. intros j Hj. pose proof (Hc j Hj) as Hcj. by each_id Hj.
  - eapply (typed_bind (fun b => config_fits (mk_config_v1 b (max_action_return_value_size c)))).
    2:{ intros b Hb. by apply typed_ret. }
    unfold unpack_entry_v0. apply typed_check. destruct c as [[] z]. cbn [base].
    repeat case_match; try apply typed_throw; typed_fields; apply typed_ret; intros j Hj;
      pose proof (Hc j Hj) as Hcj; by each_id Hj.
Qed.

Lemma typed_range (arv : bool) (c : chain_config_v1) : config_fits c -> typed_read config_fits (unpack_range arv c).
Proof.
  intros Hc. unfold unpack_range. eapply (typed_bind (fun _ => True)); [apply typed_varint|]. intros n _.
  generalize (replicate ids.PARAMS_COUNT false). revert c Hc.
  induction (Z.to_nat n) as [|k IH]; intros c Hc visited; cbn [unpack_entries]; [by apply typed_ret|].
  eapply (typed_bind (fun _ => True)); [apply typed_varint|]. intros i _.
  eapply (typed_bind (fun _ => True)); [intros s Hs; unfold lift; by destruct (visit visited i)|]. intros v _.
  eapply typed_bind; [by apply typed_entry|]. intros c' Hc'. by apply IH.
Qed.

Lemma parameters_step_ok (g g' : parameters) : parameters_ok g -> parameters_step g g' -> parameters_ok g'.
Proof.
  intros Hg Hs.
  destruct Hg as [Hc Hv Hw Hwv Hk].
  destruct Hs as [b g' Hb E|b g' Hb E|arv b g' Hb E|b g' Hb E].
  - unfold set_wasm_parameters_packed in E. bind_ok. destruct a0. split; simpl; try done.
    eapply typed_unpack; [|exact Hb|done]. eapply typed_bind; [apply (typed_uint 4)|]. intros v _.
    apply typed_check, typed_wasm.
  - unfold set_blockchain_parameters_packed in E. bind_ok. destruct a0.
    assert (Hf : config_fits (assign_v0 (configuration g) a)).
    { eapply (typed_unpack (fun c => config_fits (assign_v0 (configuration g) c))); [|exact Hb|done].
      apply typed_config_v0. apply (Hc 17). by vm_compute. }
    split; simpl; try done. apply validate_v0_bounds; [done|done|apply Hv].
  - unfold set_parameters_packed in E. bind_ok. unfold validate_v1 in E1. bind_ok. destruct a1.
    assert (Hf : config_fits a) by (eapply typed_unpack; [by apply typed_range|exact Hb|done]).
    split; simpl; try done. apply validate_v0_bounds; [done|done|].
    unfold limits.MAX_SIZE_OF_BYTE_ARRAYS in *. breflect. lia.
  - unfold set_kv_parameters_packed in E. bind_ok. split; simpl; try done.
    eapply typed_unpack; [|exact Hb|done]. eapply typed_bind; [apply (typed_uint 4)|]. intros v _.
    apply typed_check, typed_kv.
Qed.

(** C33. The host functions that write parameters keep them typed and valid: every member has the
    width of its type, a transaction fits a block with the reserve that the rules ask for, the discount for
    context free data is a proper fraction, an authority can be checked, and the limits of the engine are not
    below the minimum. *)
Theorem parameters_stay_valid (g g' : parameters) :
  parameters_ok g -> rtc parameters_step g g' -> parameters_ok g'.
Proof. intros Hg Hs. revert Hg. induction Hs; eauto using parameters_step_ok. Qed.

(** ** What the functions do not do *)

(** The limits of the engine cannot be read: [get_wasm_parameters_packed] asks for 44 bytes, but
    writes the version of four bytes before the 44 bytes of the limits, so that every buffer that is
    large enough makes it throw. *)
Theorem wasm_parameters_unreadable (g : parameters) (max_version : Z) (buffer : list Z) :
  get_wasm_parameters_packed g [] max_version = Ok (44, []) /\
  get_wasm_parameters_packed g buffer max_version =
    if (length buffer <? 44)%nat then Ok (44, buffer) else Throw out_of_range.
Proof.
  assert (Hs : pack_size (pack_wasm_config (wasm_configuration g)) = 44%nat)
    by (unfold pack_size, pack_wasm_config; rewrite !length_app; by unfold pack_uint32; rewrite !pack_uint_length).
  unfold get_wasm_parameters_packed. rewrite Hs. split; [done|].
  unfold ds_write. rewrite length_app. unfold pack_size in Hs. rewrite Hs. unfold pack_uint32. rewrite pack_uint_length.
  destruct (Nat.ltb_spec (length buffer) 44) as [Hlt|Hge].
  - destruct (Nat.eqb_spec (length buffer) 0); [done|]. rewrite (proj2 (Nat.leb_gt 44 (length buffer))) by lia. done.
  - destruct (Nat.eqb_spec (length buffer) 0); [lia|]. rewrite (proj2 (Nat.leb_le 44 (length buffer))) by lia. done.
Qed.

(** Two configurations are equal for [operator==] when they agree on every parameter but the minimal CPU
    usage of a transaction, which it does not compare; it compares the maximal one twice. *)
Theorem config_equality_ignores_min_cpu (c c' : chain_config_v1) :
  config_v1_eq c c' = true <-> forall i, known i -> i <> 10 -> param c i = param c' i.
Proof.
  split.
  - unfold config_v1_eq, config_v0_eq. intros E i Hi Hne. breflect. each_id Hi; done.
  - intros E. unfold config_v1_eq, config_v0_eq.
    repeat (apply andb_true_iff; split);
      apply Z.eqb_eq;
      first [apply (E 0); [by vm_compute|done] | apply (E 1); [by vm_compute|done] | apply (E 2); [by vm_compute|done]
            |apply (E 3); [by vm_compute|done] | apply (E 4); [by vm_compute|done] | apply (E 5); [by vm_compute|done]
            |apply (E 6); [by vm_compute|done] | apply (E 7); [by vm_compute|done] | apply (E 8); [by vm_compute|done]
            |apply (E 9); [by vm_compute|done] | apply (E 11); [by vm_compute|done] | apply (E 12); [by vm_compute|done]
            |apply (E 13); [by vm_compute|done] | apply (E 14); [by vm_compute|done] | apply (E 15); [by vm_compute|done]
            |apply (E 16); [by vm_compute|done] | apply (E 17); [by vm_compute|done]].
Qed.

(** ** The defaults of a new chain *)
Definition default_config : chain_config_v1 :=
  mk_config_v1 (mk_config_v0 1048576 1000 524288 12 500 20 100 200000 1000 150000 100 3600 600 3888000 524288 4 6)
    limits.default_max_action_return_value_size.
Definition default_parameters : parameters := initial_parameters (base default_config).

Lemma default_fits : config_fits default_config.
Proof. intros i Hi. each_id Hi; by split. Qed.

Lemma default_parameters_ok : parameters_ok default_parameters.
Proof.
  split; [apply default_fits| |by repeat (apply Forall_cons; split; [by split|])|done
         |by repeat (apply Forall_cons; split; [by split|])].
  split; unfold default_parameters, initial_parameters, default_config, limits.default_max_action_return_value_size; simpl; lia.
Qed.

Definition sample_read : Z * list Z :=
  match get_parameters_packed false default_parameters (pack_ids [0; 10]) (replicate 20 7) with
  | Ok x => x
  | Throw _ => (0, [])
  end.

Lemma sample_read_ok :
  get_parameters_packed false default_parameters (pack_ids [0; 10]) (replicate 20 7) = Ok (fst sample_read, snd sample_read).
Proof. by vm_compute. Qed.

Lemma parameters_roundtrip_witness :
  exists c, set_parameters_packed false default_parameters (snd sample_read) =
    (_ ← validate_v1 c; Ok (with_configuration default_parameters c)).
Proof.
  destruct (parameters_roundtrip false default_parameters default_parameters [0; 10] (replicate 20 7)) as [H1 _];
    [apply default_fits|by repeat (apply Forall_cons; split; [by split|])|by vm_compute|].
  destruct (H1 _ _ sample_read_ok) as (c & E & _); [done|]. by exists c.
Defined.

Definition sample_write : parameters :=
  match set_parameters_packed false default_parameters (snd sample_read) with
  | Ok g => g
  | Throw _ => default_parameters
  end.

Lemma sample_write_step : parameters_step default_parameters sample_write.
Proof.
  apply (step_range _ false (snd sample_read)); [|by vm_compute].
  by repeat (apply Forall_cons; split; [by vm_compute|]).
Qed.

Lemma parameters_stay_valid_witness : parameters_ok sample_write.
Proof.
  apply (parameters_stay_valid default_parameters); [apply default_parameters_ok|].
  apply rtc_once, sample_write_step.
Defined.

Lemma config_equality_ignores_min_cpu_witness :
  config_v1_eq default_config (set_param default_config 10 200) = true.
Proof.
  apply config_equality_ignores_min_cpu. intros i Hi Hne. rewrite param_set_param by done.
  destruct (Z.eqb_spec i 10); [done|reflexivity].
Defined.
