(* ===== verification/KvContext.v ===== *)
(** * The key-value interface of contracts

    What a contract reaches of the key-value database: the interface of a context and of its iterators and the usage that a context
    reports (libraries/chain/include/dcd/chain/backing_store/kv_context.hpp, backing_store/kv_context.cpp), and the iterators that
    a contract has by number (libraries/chain/apply_context.cpp, [kv_*]).

    A buffer that the caller passes to be filled is not an argument: an operation returns the bytes that it copies to the start of
    it. An operation that moves an iterator returns the iterator; when it throws, the action ends. *)

From S2P Require Import Prelude Effects Lex Types Database AuthorizationManager SystemContract ContractTables Parameters.

Inductive kv_it_stat := iterator_ok | iterator_erased | iterator_end.
(** [static_cast< int32_t >( status )] *)
Definition stat_code (s : kv_it_stat) : Z := match s with iterator_ok => 0 | iterator_erased => -1 | iterator_end => -2 end.

Inductive operation := op_create | op_update | op_erase.
Record kv_resource_trace := mk_kv_trace { trace_key : list Z; trace_op : operation }.

(** The size of a sequence of bytes, as a [uint32_t] *)
Definition size32 (b : list Z) : Z := u32 (Z.of_nat (length b)).

(** [if( offset < total ) memcpy( dest, b.data() + offset, std::min( size, total - offset ) )], where [total] is the size of [b]:
    the bytes that are copied *)
Definition copy_bytes (b : list Z) (total offset size : Z) : list Z :=
  if offset <? total then take (Z.to_nat (Z.min size (total - offset))) (drop (Z.to_nat offset) b) else [].

(** ** The usage of the database *)

(** The template parameter [Resource_manager] of the contexts; [R] is what its updates change. *)
Record resource_manager (R : Type) := mk_resource_manager {
  billable_size : Z;
  update_usage : account_name -> Z -> kv_resource_trace -> M R unit
}.
Arguments mk_resource_manager {R}.
Arguments billable_size {R}.
Arguments update_usage {R}.

Section usage.
Context {R : Type} (rm : resource_manager R).

Definition create_table_usage (payer : account_name) (key : list Z) (key_size value_size : Z) : M R Z :=
  let resource_delta := i64 (i64 (billable_size rm) + key_size + value_size) in
  _ ← update_usage rm payer resource_delta (mk_kv_trace key op_create);
  mret resource_delta.

Definition erase_table_usage (payer : account_name) (key : list Z) (key_size value_size : Z) : M R Z :=
  let resource_delta := i64 (- (i64 (billable_size rm) + key_size + value_size)) in
  _ ← update_usage rm payer resource_delta (mk_kv_trace key op_erase);
  mret resource_delta.

(** The sizes are added as [uint32_t]. *)
Definition update_table_usage (old_payer new_payer : account_name) (key : list Z) (key_size old_value_size new_value_size : Z) : M R Z :=
  let old_size := u32 (key_size + old_value_size) in
  let new_size := u32 (key_size + new_value_size) in
  let resource_delta := i64 (new_size - old_size) in
  _ ← (if negb (old_payer =? new_payer) then
         _ ← update_usage rm old_payer (i64 (- (old_size + billable_size rm))) (mk_kv_trace key op_update);
         update_usage rm new_payer (i64 (new_size + billable_size rm)) (mk_kv_trace key op_update)
       else if negb (old_size =? new_size) then update_usage rm new_payer resource_delta (mk_kv_trace key op_update)
       else mret tt);
  mret resource_delta.
End usage.

(** [config::billable_size_v< kv_object >] *)
Definition billable_kv_object : Z := 24 + (8 + 4) * 2 + 32 * 2.

(** [create_kv_resource_manager], [kv_resource_manager_update_ram]: [update_db_usage] changes no state. *)
Definition create_kv_resource_manager (env : apply_env) : resource_manager unit :=
  mk_resource_manager billable_kv_object (fun payer delta _ => lift (update_db_usage env payer delta)).

(** ** Contexts

    [kv_context] and [kv_iterator], with contexts in [S] and iterators in [I]. What [kv_it_next], [kv_it_prev] and
    [kv_it_lower_bound] find is the status and the sizes of the key and of the value; [kv_it_key] and [kv_it_value] return the status,
    the size and the bytes that are copied. *)
Class KvContext (S I : Type) := {
  kv_erase : Z -> list Z -> M S Z;
  kv_set : Z -> list Z -> list Z -> account_name -> M S Z;
  kv_get : Z -> list Z -> M S (bool * Z);
  kv_get_data : Z -> Z -> M S (Z * list Z);
  kv_it_create : Z -> list Z -> M S I;
  kv_it_destruct : I -> M S unit;
  kv_it_status : I -> M S kv_it_stat;
  kv_it_compare : I -> I -> M S Z;
  kv_it_key_compare : I -> list Z -> M S Z;
  kv_it_move_to_end : I -> M S (I * kv_it_stat);
  kv_it_next : I -> M S (I * (kv_it_stat * Z * Z));
  kv_it_prev : I -> M S (I * (kv_it_stat * Z * Z));
  kv_it_lower_bound : I -> list Z -> M S (I * (kv_it_stat * Z * Z));
  kv_it_key : I -> Z -> Z -> M S (kv_it_stat * Z * list Z);
  kv_it_value : I -> Z -> Z -> M S (kv_it_stat * Z * list Z)
}.

(** ** The calls of a contract *)
Inductive kv_call :=
  | call_erase (contract : Z) (key : list Z)
  | call_set (contract : Z) (key value : list Z) (payer : account_name)
  | call_get (contract : Z) (key : list Z)
  | call_get_data (offset data_size : Z)
  | call_it_create (contract : Z) (prefix : list Z)
  | call_it_destroy (itr : Z)
  | call_it_status (itr : Z)
  | call_it_compare (itr_a itr_b : Z)
  | call_it_key_compare (itr : Z) (key : list Z)
  | call_it_move_to_end (itr : Z)
  | call_it_next (itr : Z)
  | call_it_prev (itr : Z)
  | call_it_lower_bound (itr : Z) (key : list Z)
  | call_it_key (itr offset size : Z)
  | call_it_value (itr offset size : Z).

(** What a call returns and writes to its arguments: numbers, then bytes *)
Definition kv_result : Type := list Z * list Z.

Record apply_kv (S I : Type) := mk_apply_kv {
  kv_backing_store : option S;
  kv_iterators : list (option I);
  kv_destroyed_iterators : list Z
}.
Arguments mk_apply_kv {S I}.
Arguments kv_backing_store {S I}.
Arguments kv_iterators {S I}.
Arguments kv_destroyed_iterators {S I}.

(** The start of [exec_one]: a context-free action has no context. *)
Definition kv_start {S I} (context_free : bool) (s : S) : apply_kv S I :=
  mk_apply_kv (if context_free then None else Some s) [None] [].

Section calls.
Context {S I : Type} `{!KvContext S I}.
Abbreviation Op := (M (apply_kv S I)).

(** [kv_get_backing_store().m] *)
Definition on_backing_store {A} (m : M S A) : Op A := fun a =>
  match kv_backing_store a with
  | None => (a, Throw action_validate_exception)
  | Some s => let (s', r) := m s in (mk_apply_kv (Some s') (kv_iterators a) (kv_destroyed_iterators a), r)
  end.

(** [kv_check_iterator( itr )], and [*kv_iterators[itr]] *)
Definition kv_check_iterator (itr : Z) : Op I :=
  a ← get;
  match kv_iterators a !! Z.to_nat itr with
  | Some (Some i) => mret i
  | _ => throw kv_bad_iter
  end.

Definition set_iterator (itr : Z) (i : option I) : Op unit :=
  update (fun a => mk_apply_kv (kv_backing_store a) (<[Z.to_nat itr := i]> (kv_iterators a)) (kv_destroyed_iterators a)).

(** A method of an iterator; the iterator refers to the context that made it, so there is one. *)
Definition on_iterator {A} (itr : Z) (m : I -> M S A) : Op A := i ← kv_check_iterator itr; on_backing_store (m i).
Definition move_iterator {A} (itr : Z) (m : I -> M S (I * A)) : Op A :=
  '(i, r) ← on_iterator itr m; _ ← set_iterator itr (Some i); mret r.

(** The number of a new iterator *)
Definition new_iterator : Op Z :=
  a ← get;
  match last (kv_destroyed_iterators a) with
  | Some itr => _ ← update (fun a => mk_apply_kv (kv_backing_store a) (kv_iterators a) (removelast (kv_destroyed_iterators a))); mret itr
  | None =>
      _ ← check (Z.of_nat (length (kv_iterators a)) <=? 0xFFFFFFFF) kv_bad_iter;
      _ ← update (fun a => mk_apply_kv (kv_backing_store a) (kv_iterators a ++ [None]) (kv_destroyed_iterators a));
      mret (u32 (Z.of_nat (length (kv_iterators a))))
  end.

Definition apply_it_create (contract : Z) (prefix : list Z) : Op Z :=
  itr ← new_iterator;
  i ← on_backing_store (kv_it_create contract prefix);
  _ ← set_iterator itr (Some i);
  mret itr.

Definition apply_it_destroy (itr : Z) : Op unit :=
  i ← kv_check_iterator itr;
  _ ← update (fun a => mk_apply_kv (kv_backing_store a) (kv_iterators a) (kv_destroyed_iterators a ++ [itr]));
  _ ← on_backing_store (kv_it_destruct i);
  set_iterator itr None.

Definition apply_it_compare (itr_a itr_b : Z) : Op Z :=
  i ← kv_check_iterator itr_a; j ← kv_check_iterator itr_b; on_backing_store (kv_it_compare i j).

Definition number (z : Z) : kv_result := ([z], []).
Definition found_sizes (r : kv_it_stat * Z * Z) : kv_result := ([stat_code r.1.1; r.1.2; r.2], []).
Definition copied (r : kv_it_stat * Z * list Z) : kv_result := ([stat_code r.1.1; r.1.2], r.2).

Definition kv_apply (c : kv_call) : Op kv_result :=
  match c with
  | call_erase contract key => z ← on_backing_store (kv_erase contract key); mret (number z)
  | call_set contract key value payer => z ← on_backing_store (kv_set contract key value payer); mret (number z)
  | call_get contract key => r ← on_backing_store (kv_get contract key); mret ([Z.b2z r.1; r.2], [])
  | call_get_data offset data_size => r ← on_backing_store (kv_get_data offset data_size); mret ([r.1], r.2)
  | call_it_create contract prefix => itr ← apply_it_create contract prefix; mret (number itr)
  | call_it_destroy itr => _ ← apply_it_destroy itr; mret ([], [])
  | call_it_status itr => st ← on_iterator itr kv_it_status; mret (number (stat_code st))
  | call_it_compare itr_a itr_b => z ← apply_it_compare itr_a itr_b; mret (number z)
  | call_it_key_compare itr key => z ← on_iterator itr (fun i => kv_it_key_compare i key); mret (number z)
  | call_it_move_to_end itr => st ← move_iterator itr kv_it_move_to_end; mret (number (stat_code st))
  | call_it_next itr => r ← move_iterator itr kv_it_next; mret (found_sizes r)
  | call_it_prev itr => r ← move_iterator itr kv_it_prev; mret (found_sizes r)
  | call_it_lower_bound itr key => r ← move_iterator itr (fun i => kv_it_lower_bound i key); mret (found_sizes r)
  | call_it_key itr offset size => r ← on_iterator itr (fun i => kv_it_key i offset size); mret (copied r)
  | call_it_value itr offset size => r ← on_iterator itr (fun i => kv_it_value i offset size); mret (copied r)
  end.

Fixpoint kv_run (l : list kv_call) : Op (list kv_result) :=
  match l with
  | [] => mret []
  | c :: l => r ← kv_apply c; rs ← kv_run l; mret (r :: rs)
  end.
End calls.
