(* ===== verification/KvSpec.v ===== *)
(** * What a key-value context promises

    The specification of a key-value context: a map from contracts and keys to payers and values, in the order of the keys, in which every pair
    has an identity, so that an iterator can tell that its pair was erased, also when the key was set again. And the simulations that show
    that a context implements it, with what follows for the calls of a contract. At the end the accounting of the usage. *)

From S2P Require Import Prelude Effects Lex SharedBytes Types Parameters KvContext.

(** ** Keys with a prefix *)
Lemma prefix_cons_iff (x y : Z) (a b : list Z) : x :: a `prefix_of` y :: b <-> x = y /\ a `prefix_of` b.
Proof. split; [intros H; split; [by eapply prefix_cons_inv_1|by eapply prefix_cons_inv_2]|]. intros [-> H]. by apply prefix_cons. Qed.
Lemma prefix_between (p k x : list Z) : p ≤ₖ k -> k ≤ₖ x -> p `prefix_of` x -> p `prefix_of` k.
Proof.
  revert k x. induction p as [|a p IH]; intros k x H1 H2 Hp; [apply prefix_nil|]. destruct x as [|b x]; [by apply prefix_nil_not in Hp|].
  apply prefix_cons_iff in Hp as [<- Hp]. destruct k as [|c k]; [done|]. rewrite key_le_lt, lex_cons in H1, H2.
  assert (c = a) as -> by lia. apply prefix_cons, (IH k x); [..|done]; apply key_le_lt; naive_solver.
Qed.

Section prefix.
Context {A : Type} (p : list Z).
Implicit Types m : gmap (list Z) A.

Definition with_prefix m : gmap (list Z) A := filter (fun kv => p `prefix_of` kv.1) m.
Definition restrict (it : option (list Z)) : option (list Z) := k ← it; if decide (p `prefix_of` k) then Some k else None.

Lemma with_prefix_stored m (k : list Z) : is_Some (with_prefix m !! k) <-> is_Some (m !! k) /\ p `prefix_of` k.
Proof. unfold is_Some, with_prefix. setoid_rewrite map_lookup_filter_Some. naive_solver. Qed.

Lemma restrict_up m (P : list Z -> Prop) (it : option (list Z)) : (forall k, P k -> p ≤ₖ k) ->
  nearest_up (fun x => is_Some (m !! x) /\ P x) it -> nearest_up (fun x => is_Some (with_prefix m !! x) /\ P x) (restrict it).
Proof.
  intros HP. destruct it as [k|]; simpl.
  - intros [[Hk Pk] Hn]. case_decide as Hp; simpl.
    + rewrite with_prefix_stored. split; [done|]. intros x [[Hx _]%with_prefix_stored Px]. by apply Hn.
    + intros x [[Hx Hpx]%with_prefix_stored Px]. apply Hp, (prefix_between p k x); [by apply HP|by apply Hn|done].
  - intros Hn x [[Hx _]%with_prefix_stored Px]. by apply (Hn x).
Qed.

Lemma restrict_down m (P : list Z -> Prop) (it : option (list Z)) :
  (forall k x, P k -> p `prefix_of` x -> x ≤ₖ k -> p `prefix_of` k) ->
  nearest_down (fun x => is_Some (m !! x) /\ P x) it -> nearest_down (fun x => is_Some (with_prefix m !! x) /\ P x) (restrict it).
Proof.
  intros HP. destruct it as [k|]; simpl.
  - intros [[Hk Pk] Hn]. case_decide as Hp; simpl.
    + rewrite with_prefix_stored. split; [done|]. intros x [[Hx _]%with_prefix_stored Px]. by apply Hn.
    + intros x [[Hx Hpx]%with_prefix_stored Px]. apply Hp, (HP k x); [done|done|]. by apply Hn.
  - intros Hn x [[Hx _]%with_prefix_stored Px]. by apply (Hn x).
Qed.

(** Searches among the keys with the prefix *)
Lemma restrict_after m (k : list Z) : p `prefix_of` k -> restrict (key_after m k) = key_after (with_prefix m) k.
Proof.
  intros Hp. eapply nearest_up_unique; [|apply key_after_spec|apply restrict_up, key_after_spec]; [done|]. intros x Hx. apply prefix_le in Hp. key_order.
Qed.
Lemma restrict_before m (k : list Z) : p `prefix_of` k -> restrict (key_before m k) = key_before (with_prefix m) k.
Proof.
  intros Hp. eapply nearest_down_unique; [|apply key_before_spec|apply restrict_down, key_before_spec]; [done|]. intros y x Hy Hx Hxy.
  apply prefix_le in Hx. cbv beta in Hy. apply (prefix_between p y k); [key_order|key_order|done].
Qed.
Lemma restrict_from m (k : list Z) : restrict (key_from m (if decide (k <ₖ p) then p else k)) = key_from (with_prefix m) k.
Proof.
  eapply nearest_up_unique; [|apply key_from_spec|apply restrict_up, key_from_spec].
  - intros x. cbv beta. rewrite with_prefix_stored. split; intros [[Hx Hp] Hk]; (split; [done|]); pose proof (prefix_le p x Hp); case_decide; key_order.
  - intros x. case_decide; intros; key_order.
Qed.
Lemma restrict_first m : restrict (key_from m p) = key_first (with_prefix m).
Proof.
  eapply nearest_up_unique; [|apply key_first_spec|apply restrict_up, key_from_spec]; [|done].
  intros x. cbv beta. rewrite with_prefix_stored. split; [|tauto]. intros [Hx Hp]. split; [done|]. by apply prefix_le.
Qed.
Lemma restrict_last m (it : option (list Z)) :
  nearest_down (fun x => is_Some (m !! x) /\ (x ≤ₖ p \/ p `prefix_of` x)) it -> restrict it = key_last (with_prefix m).
Proof.
  intros Hit. eapply nearest_down_unique; [|apply key_last_spec|eapply restrict_down, Hit].
  - intros x. cbv beta. rewrite with_prefix_stored. tauto.
  - intros k x [Hk|Hk] Hx Hxk; [|done]. apply prefix_le in Hx. by assert (k = p) as -> by key_order.
Qed.
End prefix.

(** ** The specification *)
Record kv_pair := mk_kv_pair { p_id : Z; p_payer : account_name; p_value : list Z }.

Record kv_spec (R : Type) := mk_kv_spec {
  (** by contract and key *)
  pairs : gmap (list Z) kv_pair;
  next_pair : Z;
  open_iterators : Z;
  read_value : option (list Z);
  usage : R
}.
Arguments mk_kv_spec {R}.
Arguments pairs {R}.
Arguments next_pair {R}.
Arguments open_iterators {R}.
Arguments read_value {R}.
Arguments usage {R}.

(** An iterator is at the end, or at a pair. *)
Record spec_iterator := mk_spec_iterator { it_contract : Z; it_prefix : list Z; it_at : option (Z * list Z) }.

Definition size_of (b : list Z) : Z := Z.of_nat (length b).
Definition copy_of (b : list Z) (offset size : Z) : list Z := copy_bytes b (size_of b) offset size.
Definition sign (c : comparison) : Z := match c with Lt => -1 | Eq => 0 | Gt => 1 end.

Section spec.
Context {R : Type} (receiver : account_name) (rm : resource_manager R) (limits : kv_database_config).
Abbreviation st := (kv_spec R).
Abbreviation Op := (M st).

Definition on_usage {A} (m : M R A) : Op A := fun s =>
  let (r, x) := m (usage s) in (mk_kv_spec (pairs s) (next_pair s) (open_iterators s) (read_value s) r, x).
Definition set_pairs (m : gmap (list Z) kv_pair) (next : Z) : Op unit :=
  update (fun s => mk_kv_spec m next (open_iterators s) (read_value s) (usage s)).
Definition set_read (b : option (list Z)) : Op unit :=
  update (fun s => mk_kv_spec (pairs s) (next_pair s) (open_iterators s) b (usage s)).
Definition set_open (d : Z) : Op unit :=
  update (fun s => mk_kv_spec (pairs s) (next_pair s) (u32 (open_iterators s + d)) (read_value s) (usage s)).

Definition spec_erase (contract : Z) (key : list Z) : Op Z :=
  _ ← check (contract =? receiver) table_operation_not_permitted;
  _ ← set_read None;
  s ← get;
  match pairs s !! (contract :: key) with
  | None => mret 0
  | Some p =>
      delta ← on_usage (erase_table_usage rm (p_payer p) key (size_of key) (size_of (p_value p)));
      _ ← set_pairs (delete (contract :: key) (pairs s)) (next_pair s);
      mret delta
  end.

Definition spec_set (contract : Z) (key value : list Z) (payer : account_name) : Op Z :=
  _ ← check (contract =? receiver) table_operation_not_permitted;
  _ ← check (size_of key <=? max_key_size limits) kv_limit_exceeded;
  _ ← check (size_of value <=? max_value_size limits) kv_limit_exceeded;
  _ ← set_read None;
  s ← get;
  match pairs s !! (contract :: key) with
  | Some p =>
      delta ← on_usage (update_table_usage rm (p_payer p) payer key (size_of key) (size_of (p_value p)) (size_of value));
      _ ← set_pairs (<[contract :: key := mk_kv_pair (p_id p) payer value]> (pairs s)) (next_pair s);
      mret delta
  | None =>
      delta ← on_usage (create_table_usage rm payer key (size_of key) (size_of value));
      _ ← set_pairs (<[contract :: key := mk_kv_pair (next_pair s) payer value]> (pairs s)) (next_pair s + 1);
      mret delta
  end.

Definition spec_get (contract : Z) (key : list Z) : Op (bool * Z) :=
  s ← get;
  let v := p_value <$> pairs s !! (contract :: key) in
  _ ← set_read v;
  mret (match v with Some v => (true, size_of v) | None => (false, 0) end).

Definition spec_get_data (offset data_size : Z) : Op (Z * list Z) :=
  s ← get;
  mret (match read_value s with Some b => (size_of b, copy_of b offset data_size) | None => (0, []) end).

(** ** Iterators: over the keys of the contract that have the prefix *)
Definition selected (s : st) (i : spec_iterator) : gmap (list Z) kv_pair :=
  with_prefix (it_contract i :: it_prefix i) (pairs s).

(** The key and the pair that an iterator is at, unless the pair was erased *)
Definition spec_pair (s : st) (i : spec_iterator) : option (list Z * kv_pair) :=
  '(id, key) ← it_at i;
  p ← pairs s !! (it_contract i :: key);
  if p_id p =? id then Some (key, p) else None.

Definition spec_status (s : st) (i : spec_iterator) : kv_it_stat :=
  match it_at i, spec_pair s i with
  | None, _ => iterator_end
  | Some _, Some _ => iterator_ok
  | Some _, None => iterator_erased
  end.

Definition spec_it_create (contract : Z) (prefix : list Z) : Op spec_iterator :=
  s ← get;
  _ ← check (open_iterators s <? max_iterators limits) kv_bad_iter;
  _ ← check (size_of prefix <=? max_key_size limits) kv_bad_iter;
  _ ← set_open 1;
  mret (mk_spec_iterator contract prefix None).
Definition spec_it_destruct (i : spec_iterator) : Op unit := set_open (-1).

Definition spec_it_status (i : spec_iterator) : Op kv_it_stat := s ← get; mret (spec_status s i).

(** An iterator at an erased pair can only be moved to the end or by a search. *)
Definition spec_current (i : spec_iterator) : Op (option (list Z * kv_pair)) :=
  s ← get;
  match spec_status s i with
  | iterator_erased => throw kv_bad_iter
  | _ => mret (spec_pair s i)
  end.

Definition spec_it_compare (i j : spec_iterator) : Op Z :=
  _ ← check (it_contract i =? it_contract j) kv_bad_iter;
  a ← spec_current i;
  b ← spec_current j;
  mret (match a, b with
        | None, None => 0
        | Some _, None => -1
        | None, Some _ => 1
        | Some a, Some b => sign (lex a.1 b.1)
        end).

Definition spec_it_key_compare (i : spec_iterator) (key : list Z) : Op Z :=
  a ← spec_current i;
  mret (match a with None => 1 | Some a => sign (lex a.1 key) end).

Definition place (i : spec_iterator) (at_ : option (Z * list Z)) : spec_iterator := mk_spec_iterator (it_contract i) (it_prefix i) at_.

Definition spec_it_move_to_end (i : spec_iterator) : Op (spec_iterator * kv_it_stat) := mret (place i None, iterator_end).

(** The iterator at the key [it] of the selected ones *)
Definition arrive (i : spec_iterator) (it : option (list Z)) : Op (spec_iterator * (kv_it_stat * Z * Z)) :=
  s ← get;
  mret (match k ← it; p ← pairs s !! k; Some (tail k, p) with
        | Some (key, p) => (place i (Some (p_id p, key)), (iterator_ok, size_of key, size_of (p_value p)))
        | None => (place i None, (iterator_end, 0, 0))
        end).

Definition spec_it_next (i : spec_iterator) : Op (spec_iterator * (kv_it_stat * Z * Z)) :=
  a ← spec_current i;
  s ← get;
  arrive i (match a with Some (key, _) => key_after (selected s i) (it_contract i :: key) | None => key_first (selected s i) end).

Definition spec_it_prev (i : spec_iterator) : Op (spec_iterator * (kv_it_stat * Z * Z)) :=
  a ← spec_current i;
  s ← get;
  arrive i (match a with Some (key, _) => key_before (selected s i) (it_contract i :: key) | None => key_last (selected s i) end).

Definition spec_it_lower_bound (i : spec_iterator) (key : list Z) : Op (spec_iterator * (kv_it_stat * Z * Z)) :=
  s ← get; arrive i (key_from (selected s i) (it_contract i :: key)).

Definition spec_it_bytes (f : list Z * kv_pair -> list Z) (i : spec_iterator) (offset size : Z) : Op (kv_it_stat * Z * list Z) :=
  a ← spec_current i;
  mret (match a with None => (iterator_end, 0, []) | Some a => (iterator_ok, size_of (f a), copy_of (f a) offset size) end).

Definition spec_context : KvContext st spec_iterator := {|
  kv_erase := spec_erase;
  kv_set := spec_set;
  kv_get := spec_get;
  kv_get_data := spec_get_data;
  kv_it_create := spec_it_create;
  kv_it_destruct := spec_it_destruct;
  kv_it_status := spec_it_status;
  kv_it_compare := spec_it_compare;
  kv_it_key_compare := spec_it_key_compare;
  kv_it_move_to_end := spec_it_move_to_end;
  kv_it_next := spec_it_next;
  kv_it_prev := spec_it_prev;
  kv_it_lower_bound := spec_it_lower_bound;
  kv_it_key := spec_it_bytes fst;
  kv_it_value := spec_it_bytes (fun a => p_value a.2)
|}.
End spec.

(** ** Simulations *)

(** Two operations return and their results are in [Q], or they throw the same exception. *)
Definition agree {S1 S2 A1 A2} (m1 : M S1 A1) (m2 : M S2 A2) (s1 : S1) (s2 : S2) (Q : A1 -> A2 -> S1 -> S2 -> Prop) : Prop :=
  match m1 s1, m2 s2 with
  | (s1', Ok a1), (s2', Ok a2) => Q a1 a2 s1' s2'
  | (_, Throw e1), (_, Throw e2) => e1 = e2
  | _, _ => False
  end.

Section agree.
Context {S1 S2 : Type}.

Lemma agree_bind {A1 A2 B1 B2} (m1 : M S1 A1) (m2 : M S2 A2) (f1 : A1 -> M S1 B1) (f2 : A2 -> M S2 B2) (s1 : S1) (s2 : S2) Q Q' :
  agree m1 m2 s1 s2 Q -> (forall a1 a2 s1' s2', Q a1 a2 s1' s2' -> agree (f1 a1) (f2 a2) s1' s2' Q') ->
  agree (m1 ≫= f1) (m2 ≫= f2) s1 s2 Q'.
Proof.
  intros Hm Hf. unfold agree in Hm. unfold agree at 1. rewrite !bind_eq. destruct (m1 s1) as [s1' [a1|e1]], (m2 s2) as [s2' [a2|e2]]; try done.
  by apply (Hf a1 a2).
Qed.
Lemma agree_ret {A1 A2} (a1 : A1) (a2 : A2) (s1 : S1) (s2 : S2) (Q : A1 -> A2 -> S1 -> S2 -> Prop) : Q a1 a2 s1 s2 -> agree (mret a1) (mret a2) s1 s2 Q.
Proof. done. Qed.
Lemma agree_mono {A1 A2} (m1 : M S1 A1) (m2 : M S2 A2) (s1 : S1) (s2 : S2) (Q Q' : A1 -> A2 -> S1 -> S2 -> Prop) :
  agree m1 m2 s1 s2 Q -> (forall a1 a2 s1' s2', Q a1 a2 s1' s2' -> Q' a1 a2 s1' s2') -> agree m1 m2 s1 s2 Q'.
Proof. unfold agree. destruct (m1 s1) as [s1' [a1|e1]], (m2 s2) as [s2' [a2|e2]]; auto. Qed.
Lemma agree_check {B1 B2} (b : bool) (e : exn) (f1 : unit -> M S1 B1) (f2 : unit -> M S2 B2) (s1 : S1) (s2 : S2) Q :
  (b = true -> agree (f1 tt) (f2 tt) s1 s2 Q) -> agree (check b e ≫= f1) (check b e ≫= f2) s1 s2 Q.
Proof. intros H. destruct b; [by apply H|done]. Qed.
(** Steps of one side *)
Lemma agree_left {A1 A2 B1} (m1 : M S1 B1) (f1 : B1 -> M S1 A1) (m2 : M S2 A2) (s1 : S1) (s2 : S2) (P : B1 -> S1 -> Prop) Q :
  wp (fun _ => False) m1 P s1 -> (forall b s1', P b s1' -> agree (f1 b) m2 s1' s2 Q) -> agree (m1 ≫= f1) m2 s1 s2 Q.
Proof. intros Hm Hf. unfold wp in Hm. unfold agree at 1. rewrite bind_eq. destruct (m1 s1) as [s1' [b|e]]; [|done]. by apply Hf. Qed.
Lemma agree_left_eq {A1 A2 B1} (m1 : M S1 B1) (f1 : B1 -> M S1 A1) (m2 : M S2 A2) (s1 s1' : S1) (s2 : S2) (b : B1) Q :
  m1 s1 = (s1', Ok b) -> agree (f1 b) m2 s1' s2 Q -> agree (m1 ≫= f1) m2 s1 s2 Q.
Proof. intros Hm Hf. unfold agree at 1. by rewrite (bind_Ok m1 f1 s1 s1' b Hm). Qed.
Lemma agree_right_eq {A1 A2 B2} (m1 : M S1 A1) (m2 : M S2 B2) (f2 : B2 -> M S2 A2) (s1 : S1) (s2 s2' : S2) (b : B2) Q :
  m2 s2 = (s2', Ok b) -> agree m1 (f2 b) s1 s2' Q -> agree m1 (m2 ≫= f2) s1 s2 Q.
Proof. intros Hm Hf. unfold agree at 1. by rewrite (bind_Ok m2 f2 s2 s2' b Hm). Qed.
Lemma agree_get {B1 B2} (f1 : S1 -> M S1 B1) (f2 : S2 -> M S2 B2) (s1 : S1) (s2 : S2) Q : agree (f1 s1) (f2 s2) s1 s2 Q -> agree (get ≫= f1) (get ≫= f2) s1 s2 Q.
Proof. done. Qed.
End agree.

(** The arguments of a call: bytes, of a size that is a [uint32_t], and names *)
Definition bytes_ok (b : list Z) : Prop := Forall (fits 8) b /\ size_of b < 2 ^ 32.
Definition call_wf (c : kv_call) : Prop :=
  match c with
  | call_erase contract key | call_get contract key => fits 64 contract /\ bytes_ok key
  | call_set contract key value payer => fits 64 contract /\ bytes_ok key /\ bytes_ok value /\ fits 64 payer
  | call_it_create contract prefix => fits 64 contract /\ bytes_ok prefix
  | call_it_key_compare _ key | call_it_lower_bound _ key => bytes_ok key
  | _ => True
  end.

(** What the calls on a context must keep to for it to implement the specification: whether iterators stay what they are when pairs change,
    when an iterator can be made, which keys it can search, and which iterators can be compared. *)
Record kv_conditions (S I : Type) := mk_kv_conditions {
  writes_keep : Prop;
  may_create : S -> Prop;
  may_search : I -> list Z -> Prop;
  may_compare : I -> I -> Prop
}.
Arguments mk_kv_conditions {S I}.
Arguments writes_keep {S I}.
Arguments may_create {S I}.
Arguments may_search {S I}.
Arguments may_compare {S I}.

Section conditions.
Context {S I : Type} {C : KvContext S I} (k : kv_conditions S I).

Lemma check_iterator_eq (itr : Z) (a : apply_kv S I) :
  kv_check_iterator itr a = (a, match kv_iterators a !! Z.to_nat itr with Some (Some i) => Ok i | _ => Throw kv_bad_iter end).
Proof. unfold kv_check_iterator. rewrite get_bind. by destruct (kv_iterators a !! Z.to_nat itr) as [[i|]|]. Qed.

Definition with_iterator (a : apply_kv S I) (itr : Z) (P : I -> Prop) : Prop :=
  match kv_iterators a !! Z.to_nat itr with Some (Some i) => P i | _ => True end.

Definition call_ok (c : kv_call) (a : apply_kv S I) : Prop :=
  match c with
  | call_erase _ _ | call_set _ _ _ _ => writes_keep k \/ Forall (fun i => i = None) (kv_iterators a)
  | call_it_create _ _ => match kv_backing_store a with Some s => may_create k s | None => True end
  | call_it_lower_bound itr key => with_iterator a itr (fun i => may_search k i key)
  | call_it_compare itr_a itr_b => with_iterator a itr_a (fun i => with_iterator a itr_b (may_compare k i))
  | _ => True
  end.

(** A context stays. *)
Definition has_store (a : apply_kv S I) : Prop := is_Some (kv_backing_store a).
Abbreviation stays m := (triple has_store m (fun _ => has_store) has_store).

Lemma stays_step {A} (m : M (apply_kv S I) A) : (forall a, is_Some (kv_backing_store a) -> is_Some (kv_backing_store (m a).1)) -> stays m.
Proof. intros H a Ha. specialize (H a Ha). unfold has_store. by destruct (m a) as [a' [x|e]]. Qed.
Lemma stays_store {A} (m : M S A) : stays (on_backing_store m).
Proof. apply stays_step. intros a Ha. unfold on_backing_store. destruct (kv_backing_store a) as [s|]; [|by destruct Ha]. destruct (m s) as [s' r]. by eexists. Qed.
Lemma stays_check_iterator (itr : Z) : stays (kv_check_iterator itr).
Proof. apply stays_step. intros a. by rewrite check_iterator_eq. Qed.
Lemma stays_iterator {A} (itr : Z) (m : I -> M S A) : stays (on_iterator itr m).
Proof. apply preserve_bind; [apply stays_check_iterator|]. intros i. apply stays_store. Qed.
Lemma stays_move {A} (itr : Z) (m : I -> M S (I * A)) : stays (move_iterator itr m).
Proof. apply preserve_bind; [apply stays_iterator|]. intros [i r]. apply preserve_bind; [by apply stays_step|]. intros _. by apply stays_step. Qed.
Lemma stays_new_iterator : stays new_iterator.
Proof.
  apply stays_step. intros a Ha. unfold new_iterator. rewrite get_bind. destruct (last (kv_destroyed_iterators a)); [done|]. rewrite check_bind. by destruct (_ <=? _).
Qed.

Lemma stays_apply (c : kv_call) : stays (kv_apply c).
Proof.
  assert (Hret : forall A B (m : M (apply_kv S I) A) (f : A -> B), stays m -> stays (x ← m; mret (f x))) by (intros; apply preserve_bind; [done|]; intros ?; by apply stays_step).
  destruct c; cbn [kv_apply]; apply Hret; auto using stays_store, stays_iterator, stays_move.
  - unfold apply_it_create. apply preserve_bind; [apply stays_new_iterator|]. intros itr. apply preserve_bind; [apply stays_store|]. intros i. apply preserve_bind; by intros; apply stays_step.
  - unfold apply_it_destroy. apply preserve_bind; [apply stays_check_iterator|]. intros i. apply preserve_bind; [by apply stays_step|]. intros _. apply preserve_bind; [apply stays_store|].
    intros _. by apply stays_step.
  - unfold apply_it_compare. apply preserve_bind; [apply stays_check_iterator|]. intros i. apply preserve_bind; [apply stays_check_iterator|]. intros j. apply stays_store.
Qed.
Lemma stays_run (l : list kv_call) : stays (kv_run l).
Proof.
  induction l as [|c l IH]; cbn [kv_run]; [by apply stays_step|]. apply preserve_bind; [apply stays_apply|]. intros r. apply preserve_bind; [done|]. intros rs. by apply stays_step.
Qed.

(** Every call of a sequence keeps to the conditions. *)
Fixpoint calls_ok (l : list kv_call) (a : apply_kv S I) : Prop :=
  match l with
  | [] => True
  | c :: l => call_ok c a /\ match kv_apply c a with (a', Ok _) => calls_ok l a' | (_, Throw _) => True end
  end.
End conditions.

(** A context that simulates another one. [rel n] relates their states, with room for [n] more calls, and [rel_it] their iterators. *)
Section simulation.
Context {S1 I1 S2 I2 : Type} {C1 : KvContext S1 I1} {C2 : KvContext S2 I2} (k : kv_conditions S1 I1).
Context (rel : nat -> S1 -> S2 -> Prop) (rel_it : S1 -> S2 -> I1 -> I2 -> Prop).

Definition after {A1 A2} (n : nat) (keep : Prop) (s1 : S1) (s2 : S2) (Q : A1 -> A2 -> S1 -> S2 -> Prop) (a1 : A1) (a2 : A2) (s1' : S1) (s2' : S2) : Prop :=
  Q a1 a2 s1' s2' /\ rel n s1' s2' /\ (keep -> forall i1 i2, rel_it s1 s2 i1 i2 -> rel_it s1' s2' i1 i2).
Abbreviation same := (fun a1 a2 _ _ => a1 = a2).
Definition same_move {A} (r1 : I1 * A) (r2 : I2 * A) (s1 : S1) (s2 : S2) : Prop := rel_it s1 s2 r1.1 r2.1 /\ r1.2 = r2.2.

Record kv_simulation : Prop := {
  sim_erase n s1 s2 c key : rel (S n) s1 s2 -> fits 64 c -> bytes_ok key ->
    agree (kv_erase c key) (kv_erase c key) s1 s2 (after n (writes_keep k) s1 s2 same);
  sim_set n s1 s2 c key value payer : rel (S n) s1 s2 -> fits 64 c -> bytes_ok key -> bytes_ok value -> fits 64 payer ->
    agree (kv_set c key value payer) (kv_set c key value payer) s1 s2 (after n (writes_keep k) s1 s2 same);
  sim_get n s1 s2 c key : rel (S n) s1 s2 -> fits 64 c -> bytes_ok key ->
    agree (kv_get c key) (kv_get c key) s1 s2 (after n True s1 s2 same);
  sim_get_data n s1 s2 offset size : rel (S n) s1 s2 ->
    agree (kv_get_data offset size) (kv_get_data offset size) s1 s2 (after n True s1 s2 same);
  sim_create n s1 s2 c prefix : rel (S n) s1 s2 -> may_create k s1 -> fits 64 c -> bytes_ok prefix ->
    agree (kv_it_create c prefix) (kv_it_create c prefix) s1 s2 (after n True s1 s2 (fun i1 i2 s1' s2' => rel_it s1' s2' i1 i2));
  sim_destruct n s1 s2 i1 i2 : rel (S n) s1 s2 -> rel_it s1 s2 i1 i2 ->
    agree (kv_it_destruct i1) (kv_it_destruct i2) s1 s2 (after n True s1 s2 same);
  sim_status n s1 s2 i1 i2 : rel (S n) s1 s2 -> rel_it s1 s2 i1 i2 ->
    agree (kv_it_status i1) (kv_it_status i2) s1 s2 (after n True s1 s2 same);
  sim_compare n s1 s2 i1 i2 j1 j2 : rel (S n) s1 s2 -> rel_it s1 s2 i1 i2 -> rel_it s1 s2 j1 j2 -> may_compare k i1 j1 ->
    agree (kv_it_compare i1 j1) (kv_it_compare i2 j2) s1 s2 (after n True s1 s2 same);
  sim_key_compare n s1 s2 i1 i2 key : rel (S n) s1 s2 -> rel_it s1 s2 i1 i2 -> bytes_ok key ->
    agree (kv_it_key_compare i1 key) (kv_it_key_compare i2 key) s1 s2 (after n True s1 s2 same);
  sim_move_to_end n s1 s2 i1 i2 : rel (S n) s1 s2 -> rel_it s1 s2 i1 i2 ->
    agree (kv_it_move_to_end i1) (kv_it_move_to_end i2) s1 s2 (after n True s1 s2 same_move);
  sim_next n s1 s2 i1 i2 : rel (S n) s1 s2 -> rel_it s1 s2 i1 i2 ->
    agree (kv_it_next i1) (kv_it_next i2) s1 s2 (after n True s1 s2 same_move);
  sim_prev n s1 s2 i1 i2 : rel (S n) s1 s2 -> rel_it s1 s2 i1 i2 ->
    agree (kv_it_prev i1) (kv_it_prev i2) s1 s2 (after n True s1 s2 same_move);
  sim_lower_bound n s1 s2 i1 i2 key : rel (S n) s1 s2 -> rel_it s1 s2 i1 i2 -> may_search k i1 key -> bytes_ok key ->
    agree (kv_it_lower_bound i1 key) (kv_it_lower_bound i2 key) s1 s2 (after n True s1 s2 same_move);
  sim_key n s1 s2 i1 i2 offset size : rel (S n) s1 s2 -> rel_it s1 s2 i1 i2 ->
    agree (kv_it_key i1 offset size) (kv_it_key i2 offset size) s1 s2 (after n True s1 s2 same);
  sim_value n s1 s2 i1 i2 offset size : rel (S n) s1 s2 -> rel_it s1 s2 i1 i2 ->
    agree (kv_it_value i1 offset size) (kv_it_value i2 offset size) s1 s2 (after n True s1 s2 same)
}.

Context (sim : kv_simulation).

(** ** The calls of a contract *)
Definition rel_iterators (s1 : S1) (s2 : S2) : list (option I1) -> list (option I2) -> Prop := Forall2 (option_Forall2 (rel_it s1 s2)).
Definition apply_rel (n : nat) (a1 : apply_kv S1 I1) (a2 : apply_kv S2 I2) : Prop :=
  kv_destroyed_iterators a1 = kv_destroyed_iterators a2 /\
  match kv_backing_store a1, kv_backing_store a2 with
  | Some s1, Some s2 => rel n s1 s2 /\ rel_iterators s1 s2 (kv_iterators a1) (kv_iterators a2)
  | None, None => Forall2 (fun i j => i = None /\ j = None) (kv_iterators a1) (kv_iterators a2)
  | _, _ => False
  end.

Implicit Types (a : apply_kv S1 I1) (b : apply_kv S2 I2).

(** The two contexts of an application after an operation on them *)
Definition stores_after {A1 A2} (n : nat) a b (Q : A1 -> A2 -> S1 -> S2 -> Prop) (x1 : A1) (x2 : A2) a' b' : Prop :=
  apply_rel n a' b' /\ exists s1 s2, kv_backing_store a' = Some s1 /\ kv_backing_store b' = Some s2 /\ Q x1 x2 s1 s2 /\
    kv_iterators a' = kv_iterators a /\ kv_iterators b' = kv_iterators b.

Lemma agree_store {A1 A2} (n : nat) (keep : Prop) (m1 : M S1 A1) (m2 : M S2 A2) a b (Q : A1 -> A2 -> S1 -> S2 -> Prop) :
  apply_rel (S n) a b -> (keep \/ Forall (fun i => i = None) (kv_iterators a)) ->
  (forall s1 s2, kv_backing_store a = Some s1 -> kv_backing_store b = Some s2 -> rel (S n) s1 s2 -> rel_iterators s1 s2 (kv_iterators a) (kv_iterators b) -> agree m1 m2 s1 s2 (after n keep s1 s2 Q)) ->
  agree (on_backing_store m1) (on_backing_store m2) a b (stores_after n a b Q).
Proof.
  intros [Hd Hr] Hk Hm. unfold agree, on_backing_store. destruct (kv_backing_store a) as [s1|] eqn:E1, (kv_backing_store b) as [s2|] eqn:E2; try done.
  destruct Hr as [Hr Hi]. specialize (Hm s1 s2 eq_refl eq_refl Hr Hi). unfold agree in Hm. destruct (m1 s1) as [s1' [x1|e1]], (m2 s2) as [s2' [x2|e2]]; try done.
  destruct Hm as (HQ & Hr' & Hkeep). split; [|by exists s1', s2']. split; [done|]. cbn [kv_backing_store kv_iterators]. split; [done|].
  destruct Hk as [Hk|Hn]; [eapply Forall2_impl; [exact Hi|]; intros o1 o2 []; constructor; auto|].
  clear -Hi Hn. unfold rel_iterators in *. induction Hi as [|o1 o2 l1 l2 Ho Hi IH]; [constructor|]. apply Forall_cons in Hn as [-> Hn]. inversion Ho.
  constructor; [constructor|auto].
Qed.

Lemma agree_iterator {A1 A2} (n : nat) (itr : Z) (f1 : I1 -> M (apply_kv S1 I1) A1) (f2 : I2 -> M (apply_kv S2 I2) A2) a b Q :
  apply_rel (S n) a b ->
  (forall i1 i2 s1 s2, kv_iterators a !! Z.to_nat itr = Some (Some i1) -> kv_backing_store a = Some s1 -> kv_backing_store b = Some s2 ->
    rel_it s1 s2 i1 i2 -> agree (f1 i1) (f2 i2) a b Q) ->
  agree (kv_check_iterator itr ≫= f1) (kv_check_iterator itr ≫= f2) a b Q.
Proof.
  intros [Hd Hr] Hf. unfold agree at 1. rewrite !bind_eq, !check_iterator_eq.
  destruct (kv_backing_store a) as [s1|] eqn:E1, (kv_backing_store b) as [s2|] eqn:E2; try done.
  - destruct Hr as [_ Hi]. unfold rel_iterators in Hi. rewrite Forall2_lookup in Hi. specialize (Hi (Z.to_nat itr)).
    destruct Hi as [o1 o2 Ho|]; [|done]. destruct Ho as [i1 i2 Hit|]; [|done]. by apply (Hf i1 i2 s1 s2).
  - rewrite Forall2_lookup in Hr. specialize (Hr (Z.to_nat itr)). destruct Hr as [o1 o2 [-> ->]|]; done.
Qed.

Lemma apply_rel_set (n : nat) (itr : Z) (o1 : option I1) (o2 : option I2) a b s1 s2 :
  apply_rel n a b -> kv_backing_store a = Some s1 -> kv_backing_store b = Some s2 -> option_Forall2 (rel_it s1 s2) o1 o2 ->
  apply_rel n (mk_apply_kv (kv_backing_store a) (<[Z.to_nat itr := o1]> (kv_iterators a)) (kv_destroyed_iterators a))
    (mk_apply_kv (kv_backing_store b) (<[Z.to_nat itr := o2]> (kv_iterators b)) (kv_destroyed_iterators b)).
Proof.
  intros [Hd Hr] E1 E2 Ho. split; [done|]. cbn [kv_backing_store kv_iterators]. rewrite E1, E2 in *. destruct Hr as [Hr Hi]. split; [done|]. by apply Forall2_insert.
Qed.

(** A call of a method that reads an iterator, and of one that moves it *)
Lemma agree_method {A} (n : nat) (itr : Z) (m1 : I1 -> M S1 A) (m2 : I2 -> M S2 A) (r : A -> kv_result) a b :
  apply_rel (S n) a b ->
  (forall s1 s2 i1 i2, kv_iterators a !! Z.to_nat itr = Some (Some i1) -> rel (S n) s1 s2 -> rel_it s1 s2 i1 i2 -> agree (m1 i1) (m2 i2) s1 s2 (after n True s1 s2 same)) ->
  agree (x ← on_iterator itr m1; mret (r x)) (x ← on_iterator itr m2; mret (r x)) a b (fun r1 r2 a' b' => r1 = r2 /\ apply_rel n a' b').
Proof.
  intros Hr Hm. eapply agree_bind; [eapply (agree_iterator n itr); [done|]|].
  - intros i1 i2 s1 s2 L E1 E2 Hi. apply (agree_store n True); [done|by left|]. intros s1' s2' E1' E2' Hr' _. simplify_eq. by apply Hm.
  - intros x1 x2 a' b' (H & s1' & s2' & _ & _ & -> & _). by apply agree_ret.
Qed.

Lemma agree_move {A} (n : nat) (itr : Z) (m1 : I1 -> M S1 (I1 * A)) (m2 : I2 -> M S2 (I2 * A)) (r : A -> kv_result) a b :
  apply_rel (S n) a b ->
  (forall s1 s2 i1 i2, kv_iterators a !! Z.to_nat itr = Some (Some i1) -> rel (S n) s1 s2 -> rel_it s1 s2 i1 i2 -> agree (m1 i1) (m2 i2) s1 s2 (after n True s1 s2 same_move)) ->
  agree (x ← move_iterator itr m1; mret (r x)) (x ← move_iterator itr m2; mret (r x)) a b (fun r1 r2 a' b' => r1 = r2 /\ apply_rel n a' b').
Proof.
  intros Hr Hm. eapply agree_bind; [eapply agree_bind; [eapply (agree_iterator n itr); [done|]|]|].
  - intros i1 i2 s1 s2 L E1 E2 Hi. apply (agree_store n True); [done|by left|]. intros s1' s2' E1' E2' Hr' _. simplify_eq. by apply Hm.
  - intros [i1 x1] [i2 x2] a' b' (H & s1' & s2' & E1 & E2 & [Hi Hx] & _). simpl in Hi, Hx. subst x2.
    instantiate (1 := fun x1 x2 a' b' => x1 = x2 /\ apply_rel n a' b').
    eapply agree_left_eq; [reflexivity|]. eapply agree_right_eq; [reflexivity|]. apply agree_ret. split; [done|]. eapply apply_rel_set; [done..|]. by constructor.
  - intros x1 x2 a' b' [-> H]. by apply agree_ret.
Qed.

(** A call of a method of the context *)
Lemma agree_context {A} (n : nat) (keep : Prop) (m1 : M S1 A) (m2 : M S2 A) (r : A -> kv_result) a b :
  apply_rel (S n) a b -> (keep \/ Forall (fun i => i = None) (kv_iterators a)) ->
  (forall s1 s2, rel (S n) s1 s2 -> agree m1 m2 s1 s2 (after n keep s1 s2 same)) ->
  agree (x ← on_backing_store m1; mret (r x)) (x ← on_backing_store m2; mret (r x)) a b (fun r1 r2 a' b' => r1 = r2 /\ apply_rel n a' b').
Proof.
  intros Hr Hk Hm. eapply agree_bind; [by apply (agree_store n keep); [..|intros; apply Hm]|].
  intros x1 x2 a' b' (H & s1' & s2' & _ & _ & -> & _). by apply agree_ret.
Qed.

Lemma agree_new_iterator (n : nat) a b : apply_rel n a b -> agree new_iterator new_iterator a b (fun x1 x2 a' b' => x1 = x2 /\ apply_rel n a' b' /\
  kv_backing_store a' = kv_backing_store a).
Proof.
  intros [Hd Hr]. assert (Hlen : length (kv_iterators b) = length (kv_iterators a)).
  { destruct (kv_backing_store a), (kv_backing_store b); try done; [destruct Hr as [_ Hr]|]; by apply Forall2_length in Hr. }
  unfold new_iterator. apply agree_get. rewrite <- Hd, Hlen. destruct (last (kv_destroyed_iterators a)) as [itr|].
  - eapply agree_left_eq; [reflexivity|]. eapply agree_right_eq; [reflexivity|]. apply agree_ret. rewrite Hd. split_and!; [done| |done]. by split.
  - apply agree_check. intros _. eapply agree_left_eq; [reflexivity|]. eapply agree_right_eq; [reflexivity|]. apply agree_ret. split_and!; [done| |done].
    split; [done|]. cbn [kv_backing_store kv_iterators]. destruct (kv_backing_store a), (kv_backing_store b); try done.
    + destruct Hr as [Hr Hi]. split; [done|]. apply Forall2_app; [done|]. by repeat constructor.
    + apply Forall2_app; [done|]. by repeat constructor.
Qed.

Lemma agree_create (n : nat) (c : Z) (prefix : list Z) a b :
  apply_rel (S n) a b -> (forall s1, kv_backing_store a = Some s1 -> may_create k s1) -> fits 64 c -> bytes_ok prefix ->
  agree (apply_it_create c prefix) (apply_it_create c prefix) a b (fun x1 x2 a' b' => x1 = x2 /\ apply_rel n a' b').
Proof.
  intros Hr Hk Hc Hp. unfold apply_it_create. eapply agree_bind; [by apply agree_new_iterator|]. intros itr ? a1 b1 (<- & Hr1 & E1).
  eapply agree_bind; [apply (agree_store n True); [done|by left|]|].
  - intros s1 s2 E1' _ Hr' _. apply (sim_create sim); try done. apply Hk. congruence.
  - intros i1 i2 a2 b2 (Hr2 & s1 & s2 & E2 & E2' & Hi & _). eapply agree_left_eq; [reflexivity|]. eapply agree_right_eq; [reflexivity|]. apply agree_ret.
    split; [done|]. eapply apply_rel_set; [done..|]. by constructor.
Qed.

Lemma agree_destroy (n : nat) (itr : Z) a b : apply_rel (S n) a b ->
  agree (apply_it_destroy itr) (apply_it_destroy itr) a b (fun _ _ a' b' => apply_rel n a' b').
Proof.
  intros Hr. unfold apply_it_destroy. apply (agree_iterator n itr); [done|]. intros i1 i2 s1 s2 L E1 E2 Hi.
  eapply agree_left_eq; [reflexivity|]. eapply agree_right_eq; [reflexivity|]. pose proof Hr as [Hd Hr'].
  eapply agree_bind; [apply (agree_store n True)|].
  - split; [cbn [kv_destroyed_iterators]; by rewrite Hd|done].
  - by left.
  - cbn [kv_backing_store]. intros s1' s2' E1' E2' Hr1 _. simplify_eq. by apply (sim_destruct sim).
  - intros _ _ a2 b2 (Hr2 & s1' & s2' & E2' & E2'' & _). unfold agree, set_iterator, update. eapply apply_rel_set; [done..|constructor].
Qed.

Lemma agree_compare (n : nat) (itr_a itr_b : Z) a b : apply_rel (S n) a b -> call_ok k (call_it_compare itr_a itr_b) a ->
  agree (apply_it_compare itr_a itr_b) (apply_it_compare itr_a itr_b) a b (fun x1 x2 a' b' => x1 = x2 /\ apply_rel n a' b').
Proof.
  intros Hr Hok. simpl in Hok. unfold with_iterator in Hok. unfold apply_it_compare. apply (agree_iterator n itr_a); [done|]. intros i1 i2 s1 s2 L E1 E2 Hi.
  apply (agree_iterator n itr_b); [done|]. intros j1 j2 s1' s2' L' E1' E2' Hj. simplify_eq. rewrite L, L' in Hok.
  eapply agree_mono; [apply (agree_store n True); [done|by left|]|].
  - intros t1 t2 E3 E4 Hr' _. simplify_eq. by apply (sim_compare sim).
  - intros x1 x2 a' b' (H & s1' & s2' & _ & _ & -> & _). done.
Qed.

Lemma agree_apply (n : nat) (c : kv_call) a b : apply_rel (S n) a b -> call_wf c -> call_ok k c a ->
  agree (kv_apply c) (kv_apply c) a b (fun r1 r2 a' b' => r1 = r2 /\ apply_rel n a' b').
Proof.
  intros Hr Hwf Hok. destruct c; simpl in Hwf, Hok; cbn [kv_apply].
  - apply (agree_context n (writes_keep k)); [done..|]. intros s1 s2 Hs. destruct Hwf. by apply (sim_erase sim).
  - apply (agree_context n (writes_keep k)); [done..|]. intros s1 s2 Hs. destruct Hwf as (? & ? & ? & ?). by apply (sim_set sim).
  - apply (agree_context n True _ _ (fun r => ([Z.b2z r.1; r.2], []))); [done|by left|]. intros s1 s2 Hs. destruct Hwf. by apply (sim_get sim).
  - apply (agree_context n True _ _ (fun r => ([r.1], r.2))); [done|by left|]. intros s1 s2 Hs. by apply (sim_get_data sim).
  - eapply agree_bind; [apply (agree_create n); [done| |by apply Hwf..]|]; [intros s1 E; by rewrite E in Hok|]. intros x1 x2 a' b' [-> H]. by apply agree_ret.
  - eapply agree_bind; [by apply (agree_destroy n)|]. intros u1 u2 a' b' H. by apply agree_ret.
  - apply (agree_method n itr _ _ (fun st => number (stat_code st))); [done|]. intros s1 s2 i1 i2 L Hs Hi. by apply (sim_status sim).
  - eapply agree_bind; [by apply (agree_compare n)|]. intros x1 x2 a' b' [-> H]. by apply agree_ret.
  - apply (agree_method n itr); [done|]. intros s1 s2 i1 i2 L Hs Hi. by apply (sim_key_compare sim).
  - apply (agree_move n itr _ _ (fun st => number (stat_code st))); [done|]. intros s1 s2 i1 i2 L Hs Hi. by apply (sim_move_to_end sim).
  - apply (agree_move n itr); [done|]. intros s1 s2 i1 i2 L Hs Hi. by apply (sim_next sim).
  - apply (agree_move n itr); [done|]. intros s1 s2 i1 i2 L Hs Hi. by apply (sim_prev sim).
  - apply (agree_move n itr); [done|]. intros s1 s2 i1 i2 L Hs Hi. unfold with_iterator in Hok. rewrite L in Hok. by apply (sim_lower_bound sim).
  - apply (agree_method n itr); [done|]. intros s1 s2 i1 i2 L Hs Hi. by apply (sim_key sim).
  - apply (agree_method n itr); [done|]. intros s1 s2 i1 i2 L Hs Hi. by apply (sim_value sim).
Qed.

(** The calls of a contract give the same results on both. *)
Lemma agree_run (n : nat) (l : list kv_call) a b : apply_rel (length l + n) a b -> Forall call_wf l -> calls_ok k l a ->
  agree (kv_run l) (kv_run l) a b (fun r1 r2 a' b' => r1 = r2 /\ apply_rel n a' b').
Proof.
  revert a b. induction l as [|c l IH]; intros a b Hr Hwf Hok; cbn [kv_run]; [by apply agree_ret|]. apply Forall_cons in Hwf as [Hc Hwf]. destruct Hok as [H1 H2].
  pose proof (agree_apply (length l + n) c a b Hr Hc H1) as Ha. unfold agree at 1. rewrite !bind_eq. unfold agree in Ha.
  destruct (kv_apply c a) as [a' [r1|e1]], (kv_apply c b) as [b' [r2|e2]]; try done. destruct Ha as [-> Hr'].
  apply (agree_bind (kv_run l) (kv_run l) (fun rs => mret (r2 :: rs)) (fun rs => mret (r2 :: rs)) a' b' (fun r1 r2 a' b' => r1 = r2 /\ apply_rel n a' b')); [by apply IH|].
  intros rs1 rs2 a'' b'' [-> H]. by apply agree_ret.
Qed.

Lemma run_agrees (n : nat) (l : list kv_call) a b : apply_rel (length l + n) a b -> Forall call_wf l -> calls_ok k l a -> has_store a ->
  (kv_run l a).2 = (kv_run l b).2 /\
  (is_ok (kv_run l a).2 = true -> exists s1 s2, kv_backing_store (kv_run l a).1 = Some s1 /\ kv_backing_store (kv_run l b).1 = Some s2 /\ rel n s1 s2).
Proof.
  intros Hr Hwf Hok Hs. pose proof (agree_run n l a b Hr Hwf Hok) as H. pose proof (stays_run (C := C1) l a Hs) as Hst. unfold agree in H.
  destruct (kv_run l a) as [a' [x|e]], (kv_run l b) as [b' [y|e']]; try done; simpl.
  - destruct H as [-> [_ H]]. split; [done|]. intros _. destruct Hst as [s1 E1]. rewrite E1 in *. destruct (kv_backing_store b') as [s2|]; [|done]. destruct H as [H _]. by exists s1, s2.
  - subst e'. done.
Qed.
End simulation.

(** * The usage that is reported

    The deltas that a context passes to its resource manager add up: the balance of every payer changes by what the pairs that it pays for
    take, as long as the sizes of a key and of its value are less than 2^32 together. Beyond that they do not ([update_usage_wraps]). *)

(** A resource manager that keeps what is reported. That of the program checks that the contract may bill the payer and passes
    the report on to [apply_context::update_db_usage], which bills nothing; the reports are the same. *)
Definition ledger : Type := list (account_name * Z).
Definition ledger_manager : resource_manager ledger := mk_resource_manager billable_kv_object (fun payer delta _ => update (cons (payer, delta))).

Definition billed (payer : account_name) (l : ledger) : Z := foldr (fun e n => (if e.1 =? payer then e.2 else 0) + n) 0 l.

Lemma billed_cons (payer a d : Z) (l : ledger) : billed payer ((a, d) :: l) = (if a =? payer then d else 0) + billed payer l.
Proof. done. Qed.

(** What a pair takes *)
Definition pair_cost (payer : account_name) (k : list Z) (p : kv_pair) : Z :=
  if p_payer p =? payer then billable_kv_object + size_of (tail k) + size_of (p_value p) else 0.
Definition used (payer : account_name) (m : gmap (list Z) kv_pair) : Z := map_fold (fun k p n => pair_cost payer k p + n) 0 m.

Lemma used_insert (payer : Z) (m : gmap (list Z) kv_pair) (k : list Z) (p : kv_pair) : m !! k = None -> used payer (<[k := p]> m) = pair_cost payer k p + used payer m.
Proof. intros H. unfold used. rewrite map_fold_insert_L; [done|intros; lia|done]. Qed.
Lemma used_delete (payer : Z) (m : gmap (list Z) kv_pair) (k : list Z) (p : kv_pair) : m !! k = Some p -> used payer m = pair_cost payer k p + used payer (delete k m).
Proof. intros H. rewrite <- (used_insert payer (delete k m)) by apply lookup_delete_eq. by rewrite insert_delete_id. Qed.
Lemma used_replace (payer : Z) (m : gmap (list Z) kv_pair) (k : list Z) (p q : kv_pair) : m !! k = Some p ->
  used payer (<[k := q]> m) = used payer m - pair_cost payer k p + pair_cost payer k q.
Proof. intros H. rewrite (used_delete payer m k p H), <- insert_delete_eq, used_insert by apply lookup_delete_eq. lia. Qed.

Section usage.
Context (receiver : account_name) (limits : kv_database_config) (Hmax : max_key_size limits + max_value_size limits < 2 ^ 32).
Implicit Types t : kv_spec ledger.

(** The balance of every payer, less what its pairs take, is [base]; the sizes of every pair are less than 2^32 together. *)
Definition accounted (base : account_name -> Z) t : Prop :=
  (forall payer, billed payer (usage t) - used payer (pairs t) = base payer) /\
  forall k p, pairs t !! k = Some p -> size_of (tail k) + size_of (p_value p) < 2 ^ 32.

Context (base : account_name -> Z).
Abbreviation keeps m := (triple (accounted base) m (fun _ => accounted base) (fun _ => True)).

Lemma size_of_pos (b : list Z) : 0 <= size_of b.
Proof. unfold size_of. lia. Qed.

(** The reports *)
Lemma report_create (payer : Z) (key : list Z) (ks vs : Z) (l : ledger) : 0 <= ks < 2 ^ 32 -> 0 <= vs < 2 ^ 32 ->
  create_table_usage ledger_manager payer key ks vs l = ((payer, billable_kv_object + ks + vs) :: l, Ok (billable_kv_object + ks + vs)).
Proof.
  intros H1 H2. unfold create_table_usage, ledger_manager. cbn [billable_size update_usage]. unfold billable_kv_object.
  rewrite !swrap_small by (rewrite ?swrap_small; unfold sfits; lia). done.
Qed.
Lemma report_erase (payer : Z) (key : list Z) (ks vs : Z) (l : ledger) : 0 <= ks < 2 ^ 32 -> 0 <= vs < 2 ^ 32 ->
  erase_table_usage ledger_manager payer key ks vs l = ((payer, - (billable_kv_object + ks + vs)) :: l, Ok (- (billable_kv_object + ks + vs))).
Proof.
  intros H1 H2. unfold erase_table_usage, ledger_manager. cbn [billable_size update_usage]. unfold billable_kv_object.
  rewrite !swrap_small by (rewrite ?swrap_small; unfold sfits; lia). done.
Qed.
(** The reports of a change bill the difference to every payer. *)
Lemma report_update (old new : Z) (key : list Z) (ks vs ws : Z) (l l' : ledger) (d : Z) : 0 <= ks -> 0 <= vs -> 0 <= ws -> ks + vs < 2 ^ 32 -> ks + ws < 2 ^ 32 ->
  update_table_usage ledger_manager old new key ks vs ws l = (l', Ok d) -> d = ws - vs /\ forall payer,
  billed payer l' = billed payer l - (if old =? payer then billable_kv_object + ks + vs else 0) + (if new =? payer then billable_kv_object + ks + ws else 0).
Proof.
  intros H1 H2 H3 H4 H5. unfold update_table_usage, ledger_manager. cbn [billable_size update_usage]. cbv zeta.
  rewrite (wrap_small 32 (ks + vs)), (wrap_small 32 (ks + ws)) by (unfold fits; lia). unfold billable_kv_object.
  rewrite !swrap_small by (unfold sfits; lia). destruct (Z.eqb_spec old new) as [->|Hne]; cbn [negb].
  - destruct (Z.eqb_spec (ks + vs) (ks + ws)) as [E|E]; cbn [negb]; rewrite bind_eq; cbn; intros [= <- <-]; (split; [lia|]); intros payer; rewrite ?billed_cons; destruct (new =? payer); lia.
  - rewrite bind_eq. cbn. intros [= <- <-]. split; [lia|]. intros payer. rewrite !billed_cons. destruct (Z.eqb_spec old payer), (Z.eqb_spec new payer); lia.
Qed.

(** ** The operations *)
Lemma keeps_step {A} (m : M (kv_spec ledger) A) : (forall t, pairs (m t).1 = pairs t /\ usage (m t).1 = usage t) -> keeps m.
Proof. intros H t [H1 H2]. specialize (H t). destruct (m t) as [t' [a|e]]; [|done]. destruct H as [E1 E2]. simpl in *. split; [intros payer; rewrite E1, E2; apply H1|by rewrite E1]. Qed.

Lemma keeps_bind {A B} (m : M (kv_spec ledger) A) (f : A -> M (kv_spec ledger) B) : keeps m -> (forall a, keeps (f a)) -> keeps (m ≫= f).
Proof. intros Hm Hf t Ht. specialize (Hm t Ht). rewrite bind_eq. destruct (m t) as [t' [a|e]]; [by apply Hf|done]. Qed.
Lemma keeps_ret {A} (a : A) : keeps (mret a).
Proof. by intros t. Qed.
Lemma keeps_check (b : bool) (e : exn) : keeps (check b e).
Proof. intros t Ht. by destruct b. Qed.
Lemma keeps_get : keeps (get (S := kv_spec ledger)).
Proof. by intros t. Qed.
Lemma keeps_current (i : spec_iterator) : keeps (spec_current i).
Proof. apply keeps_step. intros t. unfold spec_current. rewrite get_bind. by destruct (spec_status t i). Qed.
Lemma keeps_arrive (i : spec_iterator) (it : option (list Z)) : keeps (arrive i it).
Proof. by apply keeps_step. Qed.

Lemma spec_erase_keeps (contract : Z) (key : list Z) : size_of key < 2 ^ 32 -> keeps (spec_erase receiver ledger_manager contract key).
Proof.
  intros Hk. unfold spec_erase. apply keeps_bind; [apply keeps_check|intros _]. apply keeps_bind; [by apply keeps_step|intros _]. intros t [H1 H2]. rewrite get_bind.
  destruct (pairs t !! (contract :: key)) as [p|] eqn:E; [|done]. pose proof (H2 _ _ E) as Hs. simpl in Hs. pose proof (size_of_pos key). pose proof (size_of_pos (p_value p)).
  rewrite bind_eq. unfold on_usage. rewrite report_erase by lia. rewrite bind_eq. cbn. split; cbn [usage pairs].
  - intros payer. rewrite <- (H1 payer), billed_cons, (used_delete payer _ _ _ E). unfold pair_cost. cbn [tail]. destruct (p_payer p =? payer); lia.
  - intros k q [_ Hq]%lookup_delete_Some. by apply (H2 k).
Qed.

Lemma spec_set_keeps (contract : Z) (key v : list Z) (payer : Z) : keeps (spec_set receiver ledger_manager limits contract key v payer).
Proof.
  unfold spec_set. apply keeps_bind; [apply keeps_check|intros _]. intros t Ht. rewrite check_bind. destruct (size_of key <=? max_key_size limits) eqn:Ek; [|done].
  rewrite check_bind. destruct (size_of v <=? max_value_size limits) eqn:Ev; [|done]. apply Z.leb_le in Ek, Ev. pose proof (size_of_pos key). pose proof (size_of_pos v).
  unfold set_read. rewrite update_bind, get_bind. destruct Ht as [H1 H2]. cbn [pairs next_pair]. destruct (pairs t !! (contract :: key)) as [p|] eqn:E.
  - pose proof (H2 _ _ E) as Hs. simpl in Hs. pose proof (size_of_pos (p_value p)). rewrite bind_eq. unfold on_usage. cbn [usage].
    destruct (update_table_usage _ _ _ _ _ _ _ _) as [l [d|e]] eqn:Eu; [|done]. apply report_update in Eu as [_ Hl]; [|lia..]. rewrite bind_eq. cbn. split; cbn [usage pairs].
    + intros q. rewrite <- (H1 q), Hl, (used_replace q _ _ _ _ E). unfold pair_cost. cbn [p_payer p_value tail]. destruct (p_payer p =? q), (payer =? q); lia.
    + intros k q [[<- <-]|[_ Hq]]%lookup_insert_Some; [simpl; lia|by apply (H2 k)].
  - rewrite bind_eq. unfold on_usage. cbn [usage]. rewrite report_create by lia. rewrite bind_eq. cbn. split; cbn [usage pairs].
    + intros q. rewrite <- (H1 q), billed_cons, used_insert by done. unfold pair_cost. cbn [p_payer p_value tail]. destruct (payer =? q); lia.
    + intros k q [[<- <-]|[_ Hq]]%lookup_insert_Some; [simpl; lia|by apply (H2 k)].
Qed.

(** ** The calls of a contract *)
Definition store_accounted (a : apply_kv (kv_spec ledger) spec_iterator) : Prop := match kv_backing_store a with Some t => accounted base t | None => True end.
Abbreviation keeps_all m := (triple store_accounted m (fun _ => store_accounted) (fun _ => True)).

Lemma all_store {A} (m : M (kv_spec ledger) A) : keeps m -> keeps_all (on_backing_store (I := spec_iterator) m).
Proof.
  intros Hm a Ha. unfold store_accounted in Ha. unfold on_backing_store. destruct (kv_backing_store a) as [t|]; [|done]. specialize (Hm t Ha).
  by destruct (m t) as [t' [x|e]].
Qed.
Lemma all_bind {A B} (m : M (apply_kv (kv_spec ledger) spec_iterator) A) (f : A -> M _ B) : keeps_all m -> (forall a, keeps_all (f a)) -> keeps_all (m ≫= f).
Proof. intros Hm Hf t Ht. specialize (Hm t Ht). rewrite bind_eq. destruct (m t) as [t' [a|e]]; [by apply Hf|done]. Qed.
Lemma all_step {A} (m : M (apply_kv (kv_spec ledger) spec_iterator) A) : (forall a, kv_backing_store (m a).1 = kv_backing_store a) -> keeps_all m.
Proof. intros H a Ha. specialize (H a). unfold store_accounted in *. destruct (m a) as [a' [x|e]]; [|done]. simpl in H. by rewrite H. Qed.
Lemma all_check_iterator (itr : Z) : keeps_all (kv_check_iterator itr).
Proof. apply all_step. intros a. by rewrite check_iterator_eq. Qed.
Lemma all_new_iterator : keeps_all new_iterator.
Proof.
  apply all_step. intros a. unfold new_iterator. rewrite get_bind. destruct (last (kv_destroyed_iterators a)); [done|]. rewrite check_bind. by destruct (_ <=? _).
Qed.

Ltac keeps_tac :=
  repeat lazymatch goal with
  | |- triple store_accounted (mbind _ _) _ _ => apply all_bind; [|let x := fresh "x" in intros x]
  | |- triple store_accounted (let '(_, _) := ?x in _) _ _ => destruct x
  | |- triple store_accounted (on_backing_store _) _ _ => apply all_store
  | |- triple store_accounted (on_iterator _ _) _ _ => unfold on_iterator
  | |- triple store_accounted (move_iterator _ _) _ _ => unfold move_iterator
  | |- triple store_accounted (kv_check_iterator _) _ _ => apply all_check_iterator
  | |- triple store_accounted new_iterator _ _ => apply all_new_iterator
  | |- triple store_accounted (set_iterator _ _) _ _ => by apply all_step
  | |- triple store_accounted (update _) _ _ => by apply all_step
  | |- triple store_accounted (mret _) _ _ => by apply all_step
  | |- triple (accounted base) (mbind _ _) _ _ => apply keeps_bind; [|let x := fresh "x" in intros x]
  | |- triple (accounted base) (mret _) _ _ => apply keeps_ret
  | |- triple (accounted base) (check _ _) _ _ => apply keeps_check
  | |- triple (accounted base) get _ _ => apply keeps_get
  | |- triple (accounted base) (spec_current _) _ _ => apply keeps_current
  | |- triple (accounted base) (arrive _ _) _ _ => apply keeps_arrive
  | |- triple (accounted base) (set_open _) _ _ => by apply keeps_step
  | |- triple (accounted base) (set_read _) _ _ => by apply keeps_step
  end.

Lemma kv_apply_accounted (c : kv_call) : call_wf c -> keeps_all (kv_apply (KvContext0 := spec_context receiver ledger_manager limits) c).
Proof.
  intros Hc. destruct c; cbn [kv_apply]; unfold apply_it_create, apply_it_destroy, apply_it_compare; keeps_tac; cbn [KvContext.kv_erase KvContext.kv_set KvContext.kv_get KvContext.kv_get_data KvContext.kv_it_create
    KvContext.kv_it_destruct KvContext.kv_it_status KvContext.kv_it_compare KvContext.kv_it_key_compare KvContext.kv_it_move_to_end KvContext.kv_it_next KvContext.kv_it_prev KvContext.kv_it_lower_bound
    KvContext.kv_it_key KvContext.kv_it_value spec_context]; unfold spec_get, spec_get_data, spec_it_create, spec_it_destruct, spec_it_status, spec_it_compare, spec_it_key_compare, spec_it_move_to_end, spec_it_next,
    spec_it_prev, spec_it_lower_bound, spec_it_bytes; cbv zeta; keeps_tac.
  - apply spec_erase_keeps. by destruct Hc as [_ [_ Hc]].
  - apply spec_set_keeps.
Qed.

Lemma kv_run_accounted (l : list kv_call) : Forall call_wf l -> keeps_all (kv_run (KvContext0 := spec_context receiver ledger_manager limits) l).
Proof.
  induction 1 as [|c l Hc Hl IH]; cbn [kv_run]; [by apply all_step|]. apply all_bind; [by apply kv_apply_accounted|]. intros r. apply all_bind; [done|]. intros rs. by apply all_step.
Qed.
End usage.

(** The sizes are added with 32 bits: the new payer is billed for the overhead only. *)
Theorem update_usage_wraps : update_table_usage ledger_manager 7 8 [] (2 ^ 32 - 1) 0 1 [] =
  ([(8, billable_kv_object); (7, - (billable_kv_object + 2 ^ 32 - 1))], Ok (- (2 ^ 32 - 1))).
Proof. vm_compute. reflexivity. Qed.
