(* ===== verification/KvChainbase.v ===== *)
(** * Key-value pairs in the database of the chain

    [kv_context_chainbase] and [kv_iterator_chainbase] (libraries/chain/include/dcd/chain/backing_store/kv_context_chainbase.hpp) on the
    index of [kv_object]s (kv_chainbase_objects.hpp), and the comparison of blobs (types.hpp).

    A pointer to an object is its identifier. Objects that are removed through the tracker can still be read: the tracker has
    them. An iterator of the index is the key that it is at, or nothing at the end; the index is ordered by the contract and then by the
    bytes of the key ([KvChainbaseProofs.index_order]). *)

From S2P Require Import Prelude Effects Lex Types UndoIndex Database Parameters KvContext.

Record kv_object := mk_kv_object {
  kv_id : Z;
  kv_contract : account_name;
  kv_key : list Z;
  kv_value : list Z;
  kv_payer : account_name
}.

(** ** Comparisons *)

(** [memcmp]: of its result, the standard fixes only the sign. *)
Fixpoint memcmp (a b : list Z) (n : nat) : Z :=
  match n, a, b with
  | S n, x :: a, y :: b => if x =? y then memcmp a b n else if x <? y then -1 else 1
  | _, _, _ => 0
  end.

Definition compare_blob (a b : list Z) : Z :=
  let r := memcmp a b (min (length a) (length b)) in
  if negb (r =? 0) then r else
  if (length a <? length b)%nat then -1 else
  if (length b <? length a)%nat then 1 else 0.

(** [compare_blob( a, blob_prefix )] *)
Definition compare_blob_prefix (a b : list Z) : Z :=
  let r := memcmp a b (min (length a) (length b)) in
  if negb (r =? 0) then r else
  if (length a <? length b)%nat then -1 else 0.

(** [unsigned_blob_less] *)
Definition unsigned_blob_less (a b : list Z) : bool := compare_blob a b <? 0.

(** The contract and the key: the composite key of the index, which [composite_key_compare< std::less< name >, unsigned_blob_less >] orders *)
Definition by_kv_key (o : kv_object) : list Z := kv_contract o :: kv_key o.
Definition index_less (a b : account_name * list Z) : bool := (a.1 <? b.1) || ((a.1 =? b.1) && unsigned_blob_less a.2 b.2).

Definition kv_keys : list (kv_object -> list Z) := [by_kv_key].
Abbreviation kv_index := (gmap (list Z) kv_object) (only parsing).

(** The index by contract and key *)
Definition by_key (m : gmap Z kv_object) : kv_index := list_to_map ((fun iv => (by_kv_key iv.2, iv.2)) <$> map_to_list m).

(** ** The context *)
Record chainbase_kv (R : Type) := mk_chainbase_kv {
  db : undo_index kv_object;
  tracker : gmap Z kv_object;
  num_iterators : Z;
  temp_data_buffer : option (list Z);
  resources : R
}.
Arguments mk_chainbase_kv {R}.
Arguments db {R}.
Arguments tracker {R}.
Arguments num_iterators {R}.
Arguments temp_data_buffer {R}.
Arguments resources {R}.

Record kv_iterator_chainbase := mk_kv_iterator { contract : account_name; prefix : list Z; current : option Z }.

Section context.
Context {R : Type} (receiver : account_name) (rm : resource_manager R) (limits : kv_database_config).
Abbreviation ctx := (chainbase_kv R).
Abbreviation Op := (M ctx).

Definition on_resources {A} (m : M R A) : Op A := fun s =>
  let (r, x) := m (resources s) in (mk_chainbase_kv (db s) (tracker s) (num_iterators s) (temp_data_buffer s) r, x).
Definition set_db (u : undo_index kv_object) : Op unit :=
  update (fun s => mk_chainbase_kv u (tracker s) (num_iterators s) (temp_data_buffer s) (resources s)).
Definition set_buffer (b : option (list Z)) : Op unit :=
  update (fun s => mk_chainbase_kv (db s) (tracker s) (num_iterators s) b (resources s)).
Definition count_iterators (d : Z) : Op unit :=
  update (fun s => mk_chainbase_kv (db s) (tracker s) (u32 (num_iterators s + d)) (temp_data_buffer s) (resources s)).

(** [tracker.remove( *kv )] *)
Definition tracker_remove (o : kv_object) : Op unit :=
  s ← get;
  u ← lift (db_remove (db s) (kv_id o));
  update (fun s => mk_chainbase_kv u (<[kv_id o := o]> (tracker s)) (num_iterators s) (temp_data_buffer s) (resources s)).
Definition is_removed (s : ctx) (p : Z) : bool := bool_decide (is_Some (tracker s !! p)).

(** [*p] *)
Definition deref (s : ctx) (p : Z) : result kv_object :=
  match contents (db s) !! p with
  | Some o => Ok o
  | None => match tracker s !! p with Some o => Ok o | None => Throw undefined_behaviour end
  end.

Definition find_kv (contract : Z) (key : list Z) : Op (option kv_object) :=
  s ← get; mret (db_find_by by_kv_key (db s) (contract :: key)).

Definition chainbase_erase (contract : Z) (key : list Z) : Op Z :=
  _ ← check (contract =? receiver) table_operation_not_permitted;
  _ ← set_buffer None;
  kv ← find_kv contract key;
  match kv with
  | None => mret 0
  | Some kv =>
      resource_delta ← on_resources (erase_table_usage rm (kv_payer kv) key (size32 (kv_key kv)) (size32 (kv_value kv)));
      _ ← tracker_remove kv;
      mret resource_delta
  end.

Definition chainbase_set (contract : Z) (key value : list Z) (payer : account_name) : Op Z :=
  _ ← check (contract =? receiver) table_operation_not_permitted;
  _ ← check (size32 key <=? max_key_size limits) kv_limit_exceeded;
  _ ← check (size32 value <=? max_value_size limits) kv_limit_exceeded;
  _ ← set_buffer None;
  kv ← find_kv contract key;
  match kv with
  | Some kv =>
      resource_delta ← on_resources (update_table_usage rm (kv_payer kv) payer key (size32 key) (size32 (kv_value kv)) (size32 value));
      s ← get;
      u ← lift (db_modify kv_keys (db s) (kv_id kv) (fun o => mk_kv_object (kv_id o) (kv_contract o) (kv_key o) value payer));
      _ ← set_db u;
      mret resource_delta
  | None =>
      resource_delta ← on_resources (create_table_usage rm payer key (size32 key) (size32 value));
      s ← get;
      '(u, _) ← lift (db_create kv_keys (db s) (fun i => mk_kv_object i contract key value payer));
      _ ← set_db u;
      mret resource_delta
  end.

Definition chainbase_get (contract : Z) (key : list Z) : Op (bool * Z) :=
  kv ← find_kv contract key;
  match kv with
  | Some kv => _ ← set_buffer (Some (kv_value kv)); mret (true, size32 (kv_value kv))
  | None => _ ← set_buffer None; mret (false, 0)
  end.

Definition chainbase_get_data (offset data_size : Z) : Op (Z * list Z) :=
  s ← get;
  mret (match temp_data_buffer s with
        | Some b => (size32 b, copy_bytes b (size32 b) offset data_size)
        | None => (0, [])
        end).

(** ** Iterators *)

Definition idx (s : ctx) : kv_index := by_key (contents (db s)).

(** [idx.upper_bound( boost::make_tuple( contract, blob_prefix ) )] *)
Definition after_prefix (contract : Z) (p k : list Z) : bool :=
  match k with
  | c :: key => if c =? contract then 0 <? compare_blob_prefix key p else contract <? c
  | [] => false
  end.
Definition upper_bound_prefix (s : ctx) (contract : Z) (p : list Z) : option (list Z) :=
  least (filter (fun k => after_prefix contract p k = true) (map_keys (idx s))).
(** [--it] *)
Definition index_before (s : ctx) (it : option (list Z)) : option (list Z) :=
  match it with Some k => key_before (idx s) k | None => key_last (idx s) end.

Definition chainbase_it_create (contract : Z) (prefix : list Z) : Op kv_iterator_chainbase :=
  s ← get;
  _ ← check (num_iterators s <? max_iterators limits) kv_bad_iter;
  _ ← check (size32 prefix <=? max_key_size limits) kv_bad_iter;
  _ ← count_iterators 1;
  mret (mk_kv_iterator contract prefix None).
Definition chainbase_it_destruct (i : kv_iterator_chainbase) : Op unit := count_iterators (-1).

Definition set_current (i : kv_iterator_chainbase) (c : option Z) : kv_iterator_chainbase := mk_kv_iterator (contract i) (prefix i) c.

Definition move_to (i : kv_iterator_chainbase) (it : option (list Z)) : Op (kv_iterator_chainbase * (kv_it_stat * Z * Z)) :=
  s ← get;
  mret (match k ← it; idx s !! k with
        | Some o =>
            if (kv_contract o =? contract i) && (length (prefix i) <=? length (kv_key o))%nat &&
               (memcmp (kv_key o) (prefix i) (length (prefix i)) =? 0) then
              (set_current i (Some (kv_id o)), (iterator_ok, size32 (kv_key o), size32 (kv_value o)))
            else (set_current i None, (iterator_end, 0, 0))
        | None => (set_current i None, (iterator_end, 0, 0))
        end).

Definition chainbase_it_status (i : kv_iterator_chainbase) : Op kv_it_stat :=
  s ← get;
  mret (match current i with
        | None => iterator_end
        | Some p => if negb (is_removed s p) then iterator_ok else iterator_erased
        end).

(** [DCD_ASSERT( !current || !tracker.is_removed( *current ), kv_bad_iter )], and what [current] is at *)
Definition check_current (i : kv_iterator_chainbase) : Op (option kv_object) :=
  s ← get;
  match current i with
  | None => mret None
  | Some p => _ ← check (negb (is_removed s p)) kv_bad_iter; o ← lift (deref s p); mret (Some o)
  end.

Definition chainbase_it_compare (i r : kv_iterator_chainbase) : Op Z :=
  _ ← check (contract i =? contract r) kv_bad_iter;
  o ← check_current i;
  o' ← check_current r;
  mret (match o', o with
        | None, None => 0
        | None, Some _ => -1
        | Some _, None => 1
        | Some o', Some o => compare_blob (kv_key o) (kv_key o')
        end).

Definition chainbase_it_key_compare (i : kv_iterator_chainbase) (key : list Z) : Op Z :=
  o ← check_current i;
  mret (match o with None => 1 | Some o => compare_blob (kv_key o) key end).

Definition chainbase_it_move_to_end (i : kv_iterator_chainbase) : Op (kv_iterator_chainbase * kv_it_stat) :=
  mret (set_current i None, iterator_end).

Definition chainbase_it_next (i : kv_iterator_chainbase) : Op (kv_iterator_chainbase * (kv_it_stat * Z * Z)) :=
  o ← check_current i;
  s ← get;
  match o with
  | Some o => move_to i (key_after (idx s) (by_kv_key o))
  | None => move_to i (key_from (idx s) (contract i :: prefix i))
  end.

Definition chainbase_it_prev (i : kv_iterator_chainbase) : Op (kv_iterator_chainbase * (kv_it_stat * Z * Z)) :=
  o ← check_current i;
  s ← get;
  let it := match o with
            | Some o => Some (by_kv_key o)
            | None => upper_bound_prefix s (contract i) (prefix i)
            end in
  if negb (bool_decide (it = key_first (idx s))) then move_to i (index_before s it)
  else mret (set_current i None, (iterator_end, 0, 0)).

Definition chainbase_it_lower_bound (i : kv_iterator_chainbase) (key : list Z) : Op (kv_iterator_chainbase * (kv_it_stat * Z * Z)) :=
  let clamped_key := if unsigned_blob_less key (prefix i) then prefix i else key in
  s ← get;
  move_to i (key_from (idx s) (contract i :: clamped_key)).

Definition chainbase_it_bytes (f : kv_object -> list Z) (i : kv_iterator_chainbase) (offset size : Z) : Op (kv_it_stat * Z * list Z) :=
  o ← check_current i;
  mret (match o with
        | None => (iterator_end, 0, [])
        | Some o => (iterator_ok, size32 (f o), copy_bytes (f o) (Z.of_nat (length (f o))) offset size)
        end).
Definition chainbase_it_key : kv_iterator_chainbase -> Z -> Z -> Op (kv_it_stat * Z * list Z) := chainbase_it_bytes kv_key.
Definition chainbase_it_value : kv_iterator_chainbase -> Z -> Z -> Op (kv_it_stat * Z * list Z) := chainbase_it_bytes kv_value.

Definition chainbase_it_payer (i : kv_iterator_chainbase) : Op (option account_name) :=
  s ← get;
  match current i with
  | None => mret None
  | Some p => o ← lift (deref s p); mret (Some (kv_payer o))
  end.

(** [create_kv_chainbase_context] *)
Definition create_kv_chainbase_context (u : undo_index kv_object) (r : R) : ctx := mk_chainbase_kv u ∅ 0 None r.

Definition chainbase_context : KvContext ctx kv_iterator_chainbase := {|
  kv_erase := chainbase_erase;
  kv_set := chainbase_set;
  kv_get := chainbase_get;
  kv_get_data := chainbase_get_data;
  kv_it_create := chainbase_it_create;
  kv_it_destruct := chainbase_it_destruct;
  kv_it_status := chainbase_it_status;
  kv_it_compare := chainbase_it_compare;
  kv_it_key_compare := chainbase_it_key_compare;
  kv_it_move_to_end := chainbase_it_move_to_end;
  kv_it_next := chainbase_it_next;
  kv_it_prev := chainbase_it_prev;
  kv_it_lower_bound := chainbase_it_lower_bound;
  kv_it_key := chainbase_it_key;
  kv_it_value := chainbase_it_value
|}.
End context.
