(* ===== verification/KvChainbaseProofs.v ===== *)
(** * The context on the database of the chain implements the specification

    [KvChainbase] simulates [KvSpec], without conditions: for every sequence of calls. *)

From S2P Require Import Prelude Effects Lex SharedBytes Types UndoIndex Database Parameters KvContext KvSpec KvChainbase.

(** ** Comparisons *)
Lemma memcmp_refl (a : list Z) (n : nat) : memcmp a a n = 0.
Proof. revert n. induction a as [|x a IH]; intros [|n]; simpl; try done. by rewrite Z.eqb_refl. Qed.

Lemma compare_blob_lex (a b : list Z) : compare_blob a b = sign (lex a b).
Proof.
  revert b. induction a as [|x a IH]; intros [|y b]; [done..|]. specialize (IH b). unfold compare_blob in *. cbn [length Nat.min memcmp lex] in *.
  destruct (Z.compare_spec x y) as [->|Hlt|Hgt].
  - rewrite Z.eqb_refl. exact IH.
  - rewrite (proj2 (Z.eqb_neq x y)), (proj2 (Z.ltb_lt x y)) by lia. done.
  - rewrite (proj2 (Z.eqb_neq x y)), (proj2 (Z.ltb_ge x y)) by lia. done.
Qed.

Lemma compare_blob_prefix_after (a p : list Z) : 0 < compare_blob_prefix a p <-> p <ₖ a /\ ~ p `prefix_of` a.
Proof.
  revert p. induction a as [|x a IH]; intros [|y p]; unfold compare_blob_prefix in *.
  - simpl. split; [lia|]. intros [_ []]. apply prefix_nil.
  - simpl. split; [lia|]. by intros [? _].
  - simpl. split; [lia|]. intros [_ []]. apply prefix_nil.
  - specialize (IH p). cbn [length Nat.min memcmp] in *. rewrite lex_cons. destruct (Z.eqb_spec x y) as [->|Hne].
    + rewrite prefix_cons_iff. etransitivity; [exact IH|]. split; [intros [? ?]; split; [by right|tauto]|]. intros [[?|[_ ?]] Hn]; [lia|]. split; [done|]. tauto.
    + destruct (Z.ltb_spec x y) as [Hlt|Hge]; simpl.
      * split; [lia|]. intros [[?|[? _]] _]; lia.
      * split; [|lia]. intros _. split; [left; lia|]. intros [? _]%prefix_cons_iff. lia.
Qed.

(** The order of the index is that of the lists of the contract and the bytes of the key. *)
Lemma index_order (a b : account_name * list Z) : index_less a b = true <-> a.1 :: a.2 <ₖ b.1 :: b.2.
Proof.
  unfold index_less, unsigned_blob_less. rewrite lex_cons, compare_blob_lex, orb_true_iff, andb_true_iff, !Z.ltb_lt, Z.eqb_eq. unfold KeyOrder.lt.
  destruct (lex a.2 b.2); simpl; intuition (lia || done).
Qed.

Lemma after_prefix_spec (c : Z) (p k : list Z) : after_prefix c p k = true <-> c :: p <ₖ k /\ ~ c :: p `prefix_of` k.
Proof.
  destruct k as [|x k]; simpl; [split; [done|by intros [? _]]|]. rewrite lex_cons, prefix_cons_iff. destruct (Z.eqb_spec x c) as [->|Hne].
  - rewrite Z.ltb_lt, compare_blob_prefix_after. intuition lia.
  - rewrite Z.ltb_lt. intuition lia.
Qed.

(** ** The index *)
Definition table_fine (m : gmap Z kv_object) : Prop := (forall i o, m !! i = Some o -> kv_id o = i) /\ unique kv_keys m.

Lemma conflict_key (o o' : kv_object) : conflict kv_keys o o' = true <-> by_kv_key o = by_kv_key o'.
Proof. unfold conflict, kv_keys. simpl. by rewrite orb_false_r, bool_decide_eq_true. Qed.

Lemma by_key_lookup (m : gmap Z kv_object) (k : list Z) (o : kv_object) :
  table_fine m -> by_key m !! k = Some o <-> m !! kv_id o = Some o /\ by_kv_key o = k.
Proof.
  intros [Hid Hu]. unfold by_key. rewrite <- elem_of_list_to_map.
  - rewrite list_elem_of_fmap. split.
    + intros ([i o'] & [= -> ->] & Hin%elem_of_map_to_list). simpl in *. by rewrite (Hid _ _ Hin).
    + intros [Hm <-]. exists (kv_id o, o). split; [done|]. by apply elem_of_map_to_list.
  - rewrite <- list_fmap_compose. apply NoDup_fmap_2_strong; [|apply NoDup_map_to_list]. intros [i x] [j y] Hx%elem_of_map_to_list Hy%elem_of_map_to_list E. simpl in E.
    assert (i = j) as ->; [|congruence]. apply (Hu i j x y Hx Hy). by apply conflict_key.
Qed.

Lemma by_key_insert (m : gmap Z kv_object) (o : kv_object) :
  table_fine m -> table_fine (<[kv_id o := o]> m) -> (forall o', m !! kv_id o = Some o' -> by_kv_key o' = by_kv_key o) ->
  by_key (<[kv_id o := o]> m) = <[by_kv_key o := o]> (by_key m).
Proof.
  intros Hm Hm' Ho. apply map_eq. intros k. apply option_eq. intros x. rewrite by_key_lookup by done. rewrite !lookup_insert_Some, by_key_lookup by done. split.
  - intros [[[E <-]|[E Hx]] Hk]; [by left|]. right. split; [|done]. intros Hk'. apply E. destruct Hm' as [Hid' Hu']. apply (Hu' _ _ o x); [apply lookup_insert_eq|by rewrite lookup_insert_ne|].
    apply conflict_key. congruence.
  - intros [[<- <-]|(Hk & Hx & <-)]; [by split; [left|]|]. split; [|done]. right. split; [|done]. intros E. apply Hk. rewrite E in Ho. by rewrite (Ho x).
Qed.

Lemma by_key_delete (m : gmap Z kv_object) (o : kv_object) :
  table_fine m -> m !! kv_id o = Some o -> by_key (delete (kv_id o) m) = delete (by_kv_key o) (by_key m).
Proof.
  intros Hm Ho. assert (Hm' : table_fine (delete (kv_id o) m)).
  { destruct Hm as [Hid Hu]. split; [|by apply unique_delete]. intros i x [_ ?]%lookup_delete_Some. by apply Hid. }
  apply map_eq. intros k. apply option_eq. intros x. rewrite by_key_lookup by done. rewrite !lookup_delete_Some, by_key_lookup by done. split.
  - intros [[E Hx] <-]. split_and!; [|done|done]. intros Hk. apply E. destruct Hm as [Hid Hu]. apply (Hu _ _ o x Ho Hx). by apply conflict_key.
  - intros (E & Hx & <-). split_and!; [|done|done]. intros Hk. rewrite Hk in Ho. congruence.
Qed.

(** The same keys with other values *)
Section fmap.
Context {A B : Type} (f : A -> B) (m : gmap (list Z) A).
Lemma stored_fmap (k : list Z) : is_Some ((f <$> m) !! k) <-> is_Some (m !! k).
Proof. by rewrite lookup_fmap, fmap_is_Some. Qed.
Lemma key_after_fmap (k : list Z) : key_after (f <$> m) k = key_after m k.
Proof. eapply nearest_up_unique; [|apply key_after_spec|apply key_after_spec]. intros x. cbv beta. by rewrite stored_fmap. Qed.
Lemma key_before_fmap (k : list Z) : key_before (f <$> m) k = key_before m k.
Proof. eapply nearest_down_unique; [|apply key_before_spec|apply key_before_spec]. intros x. cbv beta. by rewrite stored_fmap. Qed.
Lemma key_from_fmap (k : list Z) : key_from (f <$> m) k = key_from m k.
Proof. eapply nearest_up_unique; [|apply key_from_spec|apply key_from_spec]. intros x. cbv beta. by rewrite stored_fmap. Qed.
End fmap.

Section chainbase.
Context {R : Type} (receiver : account_name) (rm : resource_manager R) (limits : kv_database_config).
Implicit Types (s : chainbase_kv R) (i : kv_iterator_chainbase) (j : spec_iterator).

(** ** The invariant *)
Definition small (b : list Z) : Prop := size_of b < 2 ^ 32.

Record chainbase_ok s : Prop := {
  ch_table : table_ok kv_keys kv_id (db s);
  (** what was removed is not in the table *)
  ch_tracker p o : tracker s !! p = Some o -> contents (db s) !! p = None /\ p < _next_id (db s);
  ch_small p o : contents (db s) !! p = Some o -> small (kv_key o) /\ small (kv_value o);
  ch_buffer b : temp_data_buffer s = Some b -> small b
}.

Definition pair_of (o : kv_object) : kv_pair := mk_kv_pair (kv_id o) (kv_payer o) (kv_value o).

(** The map that a context implements *)
Definition chainbase_pairs s : kv_spec R := mk_kv_spec (pair_of <$> idx s) (_next_id (db s)) (num_iterators s) (temp_data_buffer s) (resources s).

Definition chainbase_rel (n : nat) s (t : kv_spec R) : Prop := chainbase_ok s /\ room (Z.of_nat n) (db s) /\ t = chainbase_pairs s.

(** A pointer is that of the pair of the iterator of the specification, or to an object that was removed. *)
Definition chainbase_rel_it s (t : kv_spec R) i j : Prop :=
  it_contract j = contract i /\ it_prefix j = prefix i /\
  match current i, it_at j with
  | None, None => True
  | Some p, Some (id, key) => id = p /\
      (is_Some (tracker s !! p) \/ exists o, contents (db s) !! p = Some o /\ by_kv_key o = contract i :: key /\ prefix i `prefix_of` key)
  | _, _ => False
  end.

Lemma fine_contents s : chainbase_ok s -> table_fine (contents (db s)).
Proof. intros [(_ & Hi & Hu) _ _ _]. split; [|done]. intros p o Ho. by apply (Hi p o). Qed.

Lemma idx_lookup s (k : list Z) (o : kv_object) : chainbase_ok s -> idx s !! k = Some o <-> contents (db s) !! kv_id o = Some o /\ by_kv_key o = k.
Proof. intros Hs. apply by_key_lookup. by apply fine_contents. Qed.

Lemma find_kv_idx s (c : Z) (key : list Z) : chainbase_ok s -> db_find_by by_kv_key (db s) (c :: key) = idx s !! (c :: key).
Proof.
  intros Hs. pose proof (fine_contents s Hs) as [Hid Hu]. destruct (idx s !! (c :: key)) as [o|] eqn:E.
  - apply (idx_lookup s) in E as [Ho <-]; [|done]. eapply db_find_by_unique; [|exact Hu|exact Ho]. by left.
  - apply db_find_by_None. intros p o Ho Hk. assert (idx s !! (c :: key) = Some o); [|congruence]. apply idx_lookup; [done|]. by rewrite (Hid p o Ho).
Qed.

Lemma size32_small (b : list Z) : small b -> size32 b = size_of b.
Proof. intros H. unfold size32, size_of in *. apply wrap_small. unfold small, size_of in H. unfold fits. lia. Qed.

(** ** Where an iterator is *)
Definition current_pair i (o : option kv_object) (a : option (list Z * kv_pair)) s : Prop :=
  match o, a with
  | None, None => True
  | Some o, Some (key, p) => idx s !! by_kv_key o = Some o /\ by_kv_key o = contract i :: key /\ prefix i `prefix_of` key /\ p = pair_of o
  | _, _ => False
  end.

Lemma tracked_no_pair s (p : Z) (k : list Z) (q : kv_pair) :
  chainbase_ok s -> is_Some (tracker s !! p) -> pairs (chainbase_pairs s) !! k = Some q -> p_id q <> p.
Proof.
  intros Hs [o Ho] Hq. cbn [pairs chainbase_pairs] in Hq. rewrite lookup_fmap in Hq. destruct (idx s !! k) as [x|] eqn:E; [|done]. injection Hq as <-.
  apply (idx_lookup s) in E as [Hx _]; [|done]. destruct (ch_tracker s Hs p o Ho) as [Hn _]. simpl. congruence.
Qed.

Lemma spec_pair_at s i j (p : Z) (key : list Z) : chainbase_ok s -> chainbase_rel_it s (chainbase_pairs s) i j -> it_at j = Some (p, key) ->
  (is_Some (tracker s !! p) /\ spec_pair (chainbase_pairs s) j = None) \/
  (tracker s !! p = None /\ exists o, contents (db s) !! p = Some o /\ spec_pair (chainbase_pairs s) j = Some (key, pair_of o) /\
    current_pair i (Some o) (Some (key, pair_of o)) s).
Proof.
  intros Hs (Hc & Hp & Hat) E. rewrite E in Hat. destruct (current i) as [p'|]; [|done]. destruct Hat as [<- [Ht|(o & Ho & Hk & Hpre)]].
  - left. split; [done|]. unfold spec_pair. rewrite E. cbn [mbind option_bind]. rewrite Hc. destruct (pairs _ !! _) as [q|] eqn:Eq; [|done]. cbn.
    rewrite (proj2 (Z.eqb_neq _ _)); [done|]. by eapply tracked_no_pair.
  - right. assert (Ht : tracker s !! p = None).
    { destruct (tracker s !! p) as [o'|] eqn:Et; [|done]. destruct (ch_tracker s Hs p o' Et). congruence. }
    split; [done|]. exists o. assert (Hid : kv_id o = p) by by apply (fine_contents s Hs).
    assert (Hi : idx s !! by_kv_key o = Some o) by (apply idx_lookup; [done|]; by rewrite Hid). split_and!; [done| |done].
    unfold spec_pair. rewrite E. cbn [mbind option_bind]. rewrite Hc. cbn [pairs chainbase_pairs]. rewrite lookup_fmap, <- Hk, Hi. cbn. by rewrite Hid, Z.eqb_refl.
Qed.

Lemma agree_current s i j : chainbase_ok s -> chainbase_rel_it s (chainbase_pairs s) i j ->
  agree (check_current i) (spec_current j) s (chainbase_pairs s) (fun o a s' t' => s' = s /\ t' = chainbase_pairs s /\ current_pair i o a s).
Proof.
  intros Hs Hi. unfold check_current, spec_current. apply agree_get. unfold spec_status. pose proof Hi as (_ & _ & Hat).
  destruct (current i) as [p|], (it_at j) as [[id key]|] eqn:E; try done; [|unfold spec_pair; by rewrite E]. destruct Hat as [-> _].
  destruct (spec_pair_at s i j p key Hs Hi E) as [[Ht ->]|(Ht & o & Ho & -> & Hcur)]; unfold is_removed, deref.
  - by rewrite bool_decide_true by done.
  - rewrite Ht, bool_decide_false by by intros [? ?]. cbn [negb]. eapply agree_left_eq; [reflexivity|]. rewrite Ho. by apply agree_ret.
Qed.

(** ** Where an iterator goes *)
Lemma memcmp_prefix (a p : list Z) : (length p <= length a)%nat /\ memcmp a p (length p) = 0 <-> p `prefix_of` a.
Proof.
  revert a. induction p as [|y p IH]; intros a; [split; [intros _; apply prefix_nil|split; [simpl; lia|by destruct a]]|].
  destruct a as [|x a]; [split; [simpl; lia|intros H; by apply prefix_nil_not in H]|]. rewrite prefix_cons_iff, <- IH. cbn [length memcmp].
  destruct (Z.eqb_spec x y) as [->|Hne]; [intuition lia|]. destruct (x <? y); intuition lia.
Qed.

Lemma agree_arrive (n : nat) s i j (it : option (list Z)) :
  chainbase_rel (S n) s (chainbase_pairs s) -> it_contract j = contract i -> it_prefix j = prefix i -> (forall k, it = Some k -> is_Some (idx s !! k)) ->
  agree (move_to i it) (arrive j (restrict (contract i :: prefix i) it)) s (chainbase_pairs s)
    (after chainbase_rel chainbase_rel_it n True s (chainbase_pairs s) (same_move chainbase_rel_it)).
Proof.
  intros (Hs & Hroom & _) Hc Hp Hit. assert (Hend : after chainbase_rel chainbase_rel_it n True s (chainbase_pairs s) (same_move chainbase_rel_it)
    (set_current i None, (iterator_end, 0, 0)) (place j None, (iterator_end, 0, 0)) s (chainbase_pairs s)).
  { split; [done|]. split; [|done]. split_and!; [done|unfold room in *; lia|done]. }
  unfold move_to, arrive. apply agree_get, agree_ret. destruct it as [k|]; [|exact Hend]. destruct (Hit k eq_refl) as [o Ho].
  unfold restrict. cbn [mbind option_bind]. rewrite Ho. pose proof (proj1 (idx_lookup s k o Hs) Ho) as [Hin Hk].
  assert (Hpre : contract i :: prefix i `prefix_of` k <-> (kv_contract o = contract i) /\ prefix i `prefix_of` kv_key o).
  { rewrite <- Hk. unfold by_kv_key. rewrite prefix_cons_iff. intuition congruence. }
  destruct (decide (contract i :: prefix i `prefix_of` k)) as [Hd|Hd].
  - apply Hpre in Hd as [E1 E2]. rewrite E1, Z.eqb_refl. pose proof (proj2 (memcmp_prefix _ _) E2) as [H1 H2]. rewrite (proj2 (Nat.leb_le _ _) H1), H2. cbn.
    rewrite lookup_fmap, Ho. cbn. destruct (ch_small s Hs _ _ Hin) as [S1 S2]. rewrite !size32_small by done. rewrite <- Hk. split; [|split; [|done]].
    + split; [|done]. split_and!; [done|done|]. cbn. split; [done|]. right. exists o. unfold by_kv_key. rewrite E1. by split_and!.
    + split_and!; [done|unfold room in *; lia|done].
  - assert (Hb : (kv_contract o =? contract i) && (length (prefix i) <=? length (kv_key o))%nat && (memcmp (kv_key o) (prefix i) (length (prefix i)) =? 0) = false).
    { apply not_true_iff_false. rewrite !andb_true_iff, !Z.eqb_eq, Nat.leb_le. intros [[E1 E2] E3]. apply Hd, Hpre. split; [done|]. by apply memcmp_prefix. }
    rewrite Hb. exact Hend.
Qed.

Abbreviation post n s := (after chainbase_rel chainbase_rel_it n True s (chainbase_pairs s)).
Abbreviation moved := (same_move chainbase_rel_it).
Abbreviation spec := (spec_context receiver rm limits).

Lemma post_same {A} (n : nat) s (a : A) : chainbase_ok s -> room (Z.of_nat (S n)) (db s) -> post n s (fun x y _ _ => x = y) a a s (chainbase_pairs s).
Proof. intros Hs Hr. split; [done|]. split; [|done]. split_and!; [done|unfold room in *; lia|done]. Qed.

Lemma rel_it_same s i j : chainbase_rel_it s (chainbase_pairs s) i j -> it_contract j = contract i /\ it_prefix j = prefix i.
Proof. by intros (? & ? & _). Qed.

Lemma index_next (n : nat) s i j : chainbase_rel (S n) s (chainbase_pairs s) -> chainbase_rel_it s (chainbase_pairs s) i j ->
  agree (chainbase_it_next i) (spec_it_next j) s (chainbase_pairs s) (post n s moved).
Proof.
  intros Hr Hi. pose proof Hr as (Hs & _ & _). destruct (rel_it_same s i j Hi) as [Hc Hp]. unfold chainbase_it_next, spec_it_next.
  eapply agree_bind; [by apply agree_current|]. intros o a ? ? (-> & -> & Hcur). apply agree_get. unfold selected. rewrite Hc, Hp. cbn [pairs chainbase_pairs].
  destruct o as [o|], a as [[key q]|]; try done.
  - destruct Hcur as (_ & Hk & Hpre & _). rewrite Hk, <- restrict_after by (by apply prefix_cons). rewrite key_after_fmap. apply agree_arrive; [done..|].
    intros k E. pose proof (key_after_spec (idx s) (contract i :: key)) as H. rewrite E in H. by destruct H as [[? _] _].
  - rewrite <- restrict_first, key_from_fmap. apply agree_arrive; [done..|].
    intros k E. pose proof (key_from_spec (idx s) (contract i :: prefix i)) as H. rewrite E in H. by destruct H as [[? _] _].
Qed.

Lemma index_lower_bound (n : nat) s i j (key : list Z) : chainbase_rel (S n) s (chainbase_pairs s) -> chainbase_rel_it s (chainbase_pairs s) i j ->
  agree (chainbase_it_lower_bound i key) (spec_it_lower_bound j key) s (chainbase_pairs s) (post n s moved).
Proof.
  intros Hr Hi. destruct (rel_it_same s i j Hi) as [Hc Hp]. unfold chainbase_it_lower_bound, spec_it_lower_bound. cbv zeta. apply agree_get.
  unfold selected. rewrite Hc, Hp. cbn [pairs chainbase_pairs]. rewrite <- restrict_from, key_from_fmap.
  assert (E : contract i :: (if unsigned_blob_less key (prefix i) then prefix i else key) =
    (if decide (contract i :: key <ₖ contract i :: prefix i) then contract i :: prefix i else contract i :: key)).
  { unfold unsigned_blob_less. rewrite compare_blob_lex. case_decide as Hd; rewrite lex_cons in Hd; unfold KeyOrder.lt in Hd; destruct (lex key (prefix i)); simpl; try done.
    - destruct Hd as [?|[_ ?]]; [lia|done].
    - destruct Hd as [?|[_ ?]]; [lia|done].
    - destruct Hd. by right. }
  rewrite E. apply agree_arrive; [done..|]. intros k Ek. pose proof (key_from_spec (idx s) (if decide (contract i :: key <ₖ contract i :: prefix i) then contract i :: prefix i else contract i :: key)) as H.
  rewrite Ek in H. by destruct H as [[? _] _].
Qed.

(** The key before the first one past the prefix *)
Lemma before_upper_bound s (c : Z) (p : list Z) :
  nearest_down (fun x => is_Some (idx s !! x) /\ (x ≤ₖ c :: p \/ c :: p `prefix_of` x)) (index_before s (upper_bound_prefix s c p)).
Proof.
  set (u := upper_bound_prefix s c p). assert (Hu : nearest_up (fun x => is_Some (idx s !! x) /\ c :: p <ₖ x /\ ~ c :: p `prefix_of` x) u).
  { eapply nearest_up_iff; [|apply least_spec]. intros k. rewrite list_elem_of_filter, elem_of_map_keys, after_prefix_spec. tauto. }
  assert (Hbelow : forall x, is_Some (idx s !! x) -> x ≤ₖ c :: p \/ c :: p `prefix_of` x <-> match u with Some k => x <ₖ k | None => True end).
  { intros x Hx. destruct (decide (c :: p `prefix_of` x)) as [Hp|Hp].
    - split; [intros _|by right]. destruct u as [k|]; [|done]. destruct Hu as [(_ & Hk & Hnp) _]. apply key_lt_le. intros Hkx. apply Hnp, (prefix_between _ k x); [key_order|done..].
    - destruct u as [k|]; simpl.
      + destruct Hu as [(Hk1 & Hk2 & Hk3) Hn]. split; [intros [?|?]; [key_order|done]|]. intros Hlt. left. apply key_le_lt. intros Hx'. specialize (Hn x (conj Hx (conj Hx' Hp))). key_order.
      + split; [done|]. intros _. left. apply key_le_lt. intros Hx'. by apply (Hu x). }
  destruct u as [k|]; simpl in *.
  - eapply nearest_down_iff; [|apply key_before_spec]. intros x. cbv beta. split; intros [Hx H]; (split; [done|]); by apply Hbelow.
  - eapply nearest_down_iff; [|apply key_last_spec]. intros x. cbv beta. split; [intros Hx; split; [done|]; by apply Hbelow|by intros [? _]].
Qed.

Lemma index_prev (n : nat) s i j : chainbase_rel (S n) s (chainbase_pairs s) -> chainbase_rel_it s (chainbase_pairs s) i j ->
  agree (chainbase_it_prev i) (spec_it_prev j) s (chainbase_pairs s) (post n s moved).
Proof.
  intros Hr Hi. pose proof Hr as (Hs & _ & _). destruct (rel_it_same s i j Hi) as [Hc Hp]. unfold chainbase_it_prev, spec_it_prev.
  eapply agree_bind; [by apply agree_current|]. intros o a ? ? (-> & -> & Hcur). apply agree_get. unfold selected. rewrite Hc, Hp. cbn [pairs chainbase_pairs].
  assert (Hstored : forall k, index_before s k = None \/ exists x, index_before s k = Some x /\ is_Some (idx s !! x)).
  { intros [k|]; simpl; [pose proof (key_before_spec (idx s) k) as H|pose proof (key_last_spec (idx s)) as H].
    - destruct (key_before (idx s) k) as [x|]; [right; exists x; split; [done|apply H]|by left].
    - destruct (key_last (idx s)) as [x|]; [right; exists x; split; [done|apply H]|by left]. }
  assert (Hmove : forall it it', restrict (contract i :: prefix i) (index_before s it) = it' ->
    agree (if negb (bool_decide (it = key_first (idx s))) then move_to i (index_before s it) else mret (set_current i None, (iterator_end, 0, 0))) (arrive j it')
      s (chainbase_pairs s) (post n s moved)).
  { intros it it' <-. case_bool_decide as Hf; cbn [negb].
    - assert (E : index_before s it = None).
      { destruct (Hstored it) as [?|(x & E & Hx)]; [done|]. pose proof (key_first_spec (idx s)) as H. rewrite <- Hf in H. destruct it as [k|]; [|by destruct (H x)].
        simpl in E. pose proof (key_before_spec (idx s) k) as Hb. rewrite E in Hb. destruct H as [_ H]. specialize (H x Hx). destruct Hb as [[_ Hb] _]. key_order. }
      rewrite E. by apply (agree_arrive n s i j None).
    - apply agree_arrive; [done..|]. intros k E. destruct (Hstored it) as [?|(x & E' & Hx)]; congruence. }
  destruct o as [o|], a as [[key q]|]; try done; apply Hmove.
  - destruct Hcur as (_ & Hk & Hpre & _). rewrite Hk. cbn [index_before]. rewrite <- (key_before_fmap pair_of (idx s)). apply restrict_before. by apply prefix_cons.
  - apply restrict_last. eapply nearest_down_iff; [|apply before_upper_bound]. intros x. cbv beta. by rewrite stored_fmap.
Qed.

(** ** Changes of the pairs *)

(** The iterators stay what they are when objects keep their keys or are removed. *)
Lemma rel_it_mono s s' (t t' : kv_spec R) i j :
  (forall p, is_Some (tracker s !! p) -> is_Some (tracker s' !! p)) ->
  (forall p o, contents (db s) !! p = Some o -> is_Some (tracker s' !! p) \/ exists o', contents (db s') !! p = Some o' /\ by_kv_key o' = by_kv_key o) ->
  chainbase_rel_it s t i j -> chainbase_rel_it s' t' i j.
Proof.
  intros Ht Ho (Hc & Hp & Hat). split_and!; [done..|]. destruct (current i) as [p|], (it_at j) as [[id key]|]; try done. destruct Hat as [-> [H|(o & Hin & Hk & Hpre)]].
  - split; [done|]. left. by apply Ht.
  - split; [done|]. destruct (Ho p o Hin) as [H|(o' & Hin' & Hk')]; [by left|]. right. exists o'. by rewrite Hk'.
Qed.

Definition with_buffer s (b : option (list Z)) : chainbase_kv R := mk_chainbase_kv (db s) (tracker s) (num_iterators s) b (resources s).
Definition with_resources s (r : R) : chainbase_kv R := mk_chainbase_kv (db s) (tracker s) (num_iterators s) (temp_data_buffer s) r.

Lemma ok_with_buffer s (b : option (list Z)) : chainbase_ok s -> (forall v, b = Some v -> small v) -> chainbase_ok (with_buffer s b).
Proof. by intros [H1 H2 H3 H4] Hb. Qed.
Lemma ok_with_resources s (r : R) : chainbase_ok s -> chainbase_ok (with_resources s r).
Proof. by intros [H1 H2 H3 H4]. Qed.

Lemma agree_resources {A} (m : M R A) s : agree (on_resources m) (on_usage m) s (chainbase_pairs s) (fun a1 a2 s' t' =>
  a1 = a2 /\ exists r, s' = with_resources s r /\ t' = chainbase_pairs (with_resources s r)).
Proof. unfold agree, on_resources, on_usage. cbn [usage chainbase_pairs]. destruct (m (resources s)) as [r [a|e]]; [|done]. split; [done|]. by exists r. Qed.

Lemma find_kv_eq s (c : Z) (key : list Z) : chainbase_ok s -> find_kv c key s = (s, Ok (idx s !! (c :: key))).
Proof. intros Hs. unfold find_kv. rewrite get_bind, find_kv_idx by done. done. Qed.

Lemma idx_object s (c : Z) (key : list Z) (o : kv_object) : chainbase_ok s -> idx s !! (c :: key) = Some o ->
  contents (db s) !! kv_id o = Some o /\ kv_contract o = c /\ kv_key o = key /\ small (kv_key o) /\ small (kv_value o).
Proof. intros Hs [Ho Hk]%idx_lookup; [|done]. injection Hk as Hc Hk. destruct (ch_small s Hs _ _ Ho). done. Qed.

(** A removed object goes to the tracker. *)
Lemma remove_ok s (o : kv_object) : chainbase_ok s -> contents (db s) !! kv_id o = Some o -> exists u,
  db_remove (db s) (kv_id o) = Ok u /\ _next_id u = _next_id (db s) /\
  let s' := mk_chainbase_kv u (<[kv_id o := o]> (tracker s)) (num_iterators s) (temp_data_buffer s) (resources s) in
  chainbase_ok s' /\ idx s' = delete (by_kv_key o) (idx s) /\
  forall t t' i j, chainbase_rel_it s t i j -> chainbase_rel_it s' t' i j.
Proof.
  intros Hs Ho. destruct (db_remove_ok (db s) (kv_id o) o Ho) as [u Hu]. exists u. split; [done|].
  destruct (table_ok_remove kv_keys kv_id _ _ _ (ch_table s Hs) Hu) as (Hok & Hc & Hn). split; [done|]. cbv zeta. split_and!.
  - split; cbn [db tracker temp_data_buffer]; [done| | |apply (ch_buffer s Hs)]; rewrite Hc.
    + intros p x. rewrite lookup_insert_Some, Hn. intros [[<- <-]|[Hne Hx]].
      * rewrite lookup_delete_eq. split; [done|]. destruct (ch_table s Hs) as (_ & Hi & _). apply Hi in Ho. lia.
      * rewrite lookup_delete_ne by done. by apply (ch_tracker s Hs p x).
    + intros p x [_ Hx]%lookup_delete_Some. by apply (ch_small s Hs p x).
  - unfold idx. cbn [db]. rewrite Hc. apply by_key_delete; [by apply fine_contents|done].
  - intros t t' i j. apply rel_it_mono; cbn [db tracker].
    + intros p Hp. rewrite lookup_insert_is_Some'. by right.
    + intros p x Hx. destruct (decide (p = kv_id o)) as [->|Hne]; [left; rewrite lookup_insert_eq; by eexists|]. right. exists x. by rewrite Hc, lookup_delete_ne.
Qed.

Lemma chainbase_erase_sim (n : nat) s (c : Z) (key : list Z) : chainbase_rel (S n) s (chainbase_pairs s) -> bytes_ok key ->
  agree (chainbase_erase receiver rm c key) (spec_erase receiver rm c key) s (chainbase_pairs s) (post n s (fun x y _ _ => x = y)).
Proof.
  intros (Hs & Hroom & _) [_ Hkey]. unfold chainbase_erase, spec_erase. apply agree_check. intros _. eapply agree_left_eq; [reflexivity|]. eapply agree_right_eq; [reflexivity|].
  change (mk_chainbase_kv (db s) (tracker s) (num_iterators s) None (resources s)) with (with_buffer s None).
  change (mk_kv_spec (pairs (chainbase_pairs s)) _ _ None _) with (chainbase_pairs (with_buffer s None)).
  pose proof (ok_with_buffer s None Hs ltac:(done)) as Hs1. eapply agree_left_eq; [by apply find_kv_eq|]. eapply agree_right_eq; [reflexivity|].
  cbn [pairs chainbase_pairs]. rewrite lookup_fmap. destruct (idx (with_buffer s None) !! (c :: key)) as [o|] eqn:E; cbn [fmap option_fmap option_map].
  2:{ apply agree_ret. split; [done|]. split; [split_and!; [done|unfold room in *; cbn; lia|done]|]. intros _ i j. apply rel_it_mono; [done|]. intros p o Ho. right. by exists o. }
  destruct (idx_object _ c key o Hs1 E) as (Ho & Hc & Hk & S1 & S2). rewrite Hk in *. rewrite !size32_small by done.
  eapply agree_bind; [apply agree_resources|]. intros d ? ? ? (<- & r & -> & ->). set (s2 := with_resources (with_buffer s None) r).
  pose proof (ok_with_resources _ r Hs1) as Hs2. change (chainbase_ok s2) in Hs2. destruct (remove_ok s2 o Hs2 Ho) as (u & Hu & Hn & Hok & Hidx & Hit).
  unfold tracker_remove. eapply agree_left_eq; [rewrite get_bind, Hu; reflexivity|]. eapply agree_right_eq; [reflexivity|]. apply agree_ret. split; [done|].
  assert (Hbk : by_kv_key o = c :: key) by (unfold by_kv_key; by rewrite Hc, Hk). split.
  - split_and!; [done|cbn [db]; unfold room in *; rewrite Hn; cbn; lia|]. unfold chainbase_pairs. f_equal; [|done]. by rewrite Hidx, fmap_delete, Hbk.
  - intros _ i j. exact (Hit (chainbase_pairs s) _ i j).
Qed.

(** An object with another value and payer, and a new object *)
Lemma modify_ok s (o : kv_object) (v : list Z) (payer : Z) : chainbase_ok s -> contents (db s) !! kv_id o = Some o -> small v ->
  let m := fun x => mk_kv_object (kv_id x) (kv_contract x) (kv_key x) v payer in exists u,
  db_modify kv_keys (db s) (kv_id o) m = Ok u /\ _next_id u = _next_id (db s) /\
  let s' := mk_chainbase_kv u (tracker s) (num_iterators s) (temp_data_buffer s) (resources s) in
  chainbase_ok s' /\ idx s' = <[by_kv_key o := m o]> (idx s) /\
  forall t t' i j, chainbase_rel_it s t i j -> chainbase_rel_it s' t' i j.
Proof.
  intros Hs Ho Hv m. assert (Hk : keeps_keys kv_keys m) by (intros x; by repeat constructor). pose proof (fine_contents s Hs) as Hf. pose proof Hf as [_ Hu].
  destruct (db_modify_ok kv_keys (db s) (kv_id o) m o Ho Hu Hk) as [u Em]. exists u. split; [done|].
  destruct (table_ok_modify kv_keys kv_id _ _ _ m (ch_table s Hs) Hk ltac:(done) Em) as (Hok & Hc & Hn). split; [done|]. cbv zeta.
  assert (Hc' : contents u = <[kv_id o := m o]> (contents (db s))).
  { rewrite Hc. apply map_eq. intros p. destruct (decide (p = kv_id o)) as [->|]; [by rewrite lookup_alter_eq, Ho, lookup_insert_eq|by rewrite lookup_alter_ne, lookup_insert_ne]. }
  assert (Hs' : chainbase_ok (mk_chainbase_kv u (tracker s) (num_iterators s) (temp_data_buffer s) (resources s))).
  { split; cbn [db tracker temp_data_buffer]; [done| | |apply (ch_buffer s Hs)].
    + intros p x Hx. destruct (ch_tracker s Hs p x Hx) as [Hnone Hlt]. rewrite Hn, Hc', lookup_insert_ne; [done|]. intros <-. congruence.
    + intros p x. rewrite Hc', lookup_insert_Some. intros [[<- <-]|[_ Hx]]; [|by apply (ch_small s Hs p x)]. destruct (ch_small s Hs _ _ Ho). done. }
  split_and!; [done| |].
  - unfold idx. cbn [db]. rewrite Hc'. change (kv_id o) with (kv_id (m o)). change (by_kv_key o) with (by_kv_key (m o)).
    apply by_key_insert; [done| |]; change (kv_id (m o)) with (kv_id o); [rewrite <- Hc'; apply (fine_contents _ Hs')|]. intros x Hx. assert (x = o) as -> by congruence. done.
  - intros t t' i j. apply rel_it_mono; cbn [db tracker]; [done|]. intros p x Hx. right. rewrite Hc'. destruct (decide (p = kv_id o)) as [->|].
    + exists (m o). rewrite lookup_insert_eq. split; [done|]. assert (x = o) as -> by congruence. done.
    + exists x. by rewrite lookup_insert_ne.
Qed.

Lemma create_ok s (c : Z) (key v : list Z) (payer : Z) : chainbase_ok s -> room 1 (db s) -> idx s !! (c :: key) = None -> small key -> small v ->
  let o := mk_kv_object (_next_id (db s)) c key v payer in exists u,
  db_create kv_keys (db s) (fun id => mk_kv_object id c key v payer) = Ok (u, o) /\ _next_id u = _next_id (db s) + 1 /\
  let s' := mk_chainbase_kv u (tracker s) (num_iterators s) (temp_data_buffer s) (resources s) in
  chainbase_ok s' /\ idx s' = <[c :: key := o]> (idx s) /\
  forall t t' i j, chainbase_rel_it s t i j -> chainbase_rel_it s' t' i j.
Proof.
  intros Hs Hroom Hnone Hkey Hv o. pose proof (fine_contents s Hs) as Hf. pose proof (table_ok_fresh kv_keys kv_id _ (ch_table s Hs)) as Hfresh.
  destruct (db_create_ok kv_keys (db s) (fun id => mk_kv_object id c key v payer)) as [u Eu].
  { intros p x Hx. apply not_true_iff_false. intros E%conflict_key. pose proof Hf as [Hid _]. assert (idx s !! (c :: key) = Some x); [|congruence].
    apply idx_lookup; [done|]. rewrite (Hid p x Hx). split; [done|]. by rewrite <- E. }
  exists u. split; [done|]. destruct (table_ok_create kv_keys kv_id _ _ (fun id => mk_kv_object id c key v payer) _ (ch_table s Hs) Hroom eq_refl Eu) as (Hok & _ & Hc & Hn & _). split; [done|]. cbv zeta. change (contents u = <[kv_id o := o]> (contents (db s))) in Hc. change (contents (db s) !! kv_id o = None) in Hfresh.
  assert (Hs' : chainbase_ok (mk_chainbase_kv u (tracker s) (num_iterators s) (temp_data_buffer s) (resources s))).
  { split; cbn [db tracker temp_data_buffer]; [done| | |apply (ch_buffer s Hs)].
    + intros p x Hx. destruct (ch_tracker s Hs p x Hx) as [Hp Hlt]. split; [|lia]. rewrite Hc, lookup_insert_ne; [done|]. change (kv_id o) with (_next_id (db s)). lia.
    + intros p x. rewrite Hc, lookup_insert_Some. intros [[<- <-]|[_ Hx]]; [done|by apply (ch_small s Hs p x)]. }
  split_and!; [done| |].
  - unfold idx. cbn [db]. rewrite Hc. change (c :: key) with (by_kv_key o). apply by_key_insert; [done| |congruence]. rewrite <- Hc. apply (fine_contents _ Hs').
  - intros t t' i j. apply rel_it_mono; cbn [db tracker]; [done|]. intros p x Hx. right. exists x. rewrite Hc, lookup_insert_ne; [done|]. congruence.
Qed.

Lemma chainbase_set_sim (n : nat) s (c : Z) (key v : list Z) (payer : Z) : chainbase_rel (S n) s (chainbase_pairs s) -> bytes_ok key -> bytes_ok v ->
  agree (chainbase_set receiver rm limits c key v payer) (spec_set receiver rm limits c key v payer) s (chainbase_pairs s) (post n s (fun x y _ _ => x = y)).
Proof.
  intros (Hs & Hroom & _) [_ Hkey] [_ Hv]. unfold chainbase_set, spec_set. rewrite !size32_small by done. do 3 (apply agree_check; intros _). eapply agree_left_eq; [reflexivity|]. eapply agree_right_eq; [reflexivity|].
  change (mk_chainbase_kv (db s) (tracker s) (num_iterators s) None (resources s)) with (with_buffer s None).
  change (mk_kv_spec (pairs (chainbase_pairs s)) _ _ None _) with (chainbase_pairs (with_buffer s None)).
  pose proof (ok_with_buffer s None Hs ltac:(done)) as Hs1. eapply agree_left_eq; [by apply find_kv_eq|]. eapply agree_right_eq; [reflexivity|].
  cbn [pairs chainbase_pairs]. rewrite lookup_fmap. destruct (idx (with_buffer s None) !! (c :: key)) as [o|] eqn:E; cbn [fmap option_fmap option_map].
  - destruct (idx_object _ c key o Hs1 E) as (Ho & Hc & Hk & S1 & S2). rewrite !size32_small by done.
    eapply agree_bind; [apply agree_resources|]. intros d ? ? ? (<- & r & -> & ->). set (s2 := with_resources (with_buffer s None) r).
    pose proof (ok_with_resources _ r Hs1) as Hs2. change (chainbase_ok s2) in Hs2. destruct (modify_ok s2 o v payer Hs2 Ho Hv) as (u & Hu & Hn & Hok & Hidx & Hit).
    eapply agree_left_eq; [reflexivity|]. eapply agree_left_eq; [unfold lift; by rewrite Hu|]. eapply agree_left_eq; [reflexivity|]. eapply agree_right_eq; [reflexivity|].
    apply agree_ret. split; [done|]. assert (Hbk : by_kv_key o = c :: key) by (unfold by_kv_key; by rewrite Hc, Hk). split.
    + split_and!; [done|cbn [db]; unfold room in *; rewrite Hn; cbn; lia|]. unfold chainbase_pairs. f_equal; [|done]. by rewrite Hidx, fmap_insert, Hbk.
    + intros _ i j. exact (Hit (chainbase_pairs s) _ i j).
  - eapply agree_bind; [apply agree_resources|]. intros d ? ? ? (<- & r & -> & ->). set (s2 := with_resources (with_buffer s None) r).
    pose proof (ok_with_resources _ r Hs1) as Hs2. change (chainbase_ok s2) in Hs2.
    destruct (create_ok s2 c key v payer Hs2 ltac:(unfold room in *; cbn; lia) E Hkey Hv) as (u & Hu & Hn & Hok & Hidx & Hit).
    eapply agree_left_eq; [reflexivity|]. eapply agree_left_eq; [unfold lift; by rewrite Hu|]. eapply agree_left_eq; [reflexivity|]. eapply agree_right_eq; [reflexivity|].
    apply agree_ret. split; [done|]. split.
    + split_and!; [done|cbn [db]; unfold room in *; rewrite Hn; cbn; lia|]. unfold chainbase_pairs. f_equal; [|done]. by rewrite Hidx, fmap_insert.
    + intros _ i j. exact (Hit (chainbase_pairs s) _ i j).
Qed.

(** ** Reads *)
Lemma chainbase_get_sim (n : nat) s (c : Z) (key : list Z) : chainbase_rel (S n) s (chainbase_pairs s) ->
  agree (chainbase_get c key) (spec_get c key) s (chainbase_pairs s) (post n s (fun x y _ _ => x = y)).
Proof.
  intros (Hs & Hroom & _). unfold chainbase_get, spec_get. eapply agree_left_eq; [by apply find_kv_eq|]. eapply agree_right_eq; [reflexivity|]. cbv zeta.
  cbn [pairs chainbase_pairs]. rewrite lookup_fmap. eapply agree_right_eq; [reflexivity|]. destruct (idx s !! (c :: key)) as [o|] eqn:E; cbn [fmap option_fmap option_map].
  - destruct (idx_object s c key o Hs E) as (Ho & _ & _ & _ & S2). eapply agree_left_eq; [reflexivity|]. apply agree_ret. rewrite size32_small by done. split; [done|]. split; [|done].
    split_and!; [|unfold room in *; cbn; lia|done]. apply (ok_with_buffer s (Some (kv_value o)) Hs). by intros v [= <-].
  - eapply agree_left_eq; [reflexivity|]. apply agree_ret. split; [done|]. split; [|done]. split_and!; [|unfold room in *; cbn; lia|done]. by apply (ok_with_buffer s None Hs).
Qed.

Lemma chainbase_get_data_sim (n : nat) s (offset size : Z) : chainbase_rel (S n) s (chainbase_pairs s) ->
  agree (chainbase_get_data offset size) (spec_get_data offset size) s (chainbase_pairs s) (post n s (fun x y _ _ => x = y)).
Proof.
  intros (Hs & Hroom & _). unfold chainbase_get_data, spec_get_data. apply agree_get, agree_ret. cbn [read_value chainbase_pairs].
  destruct (temp_data_buffer s) as [b|] eqn:E; [|by apply post_same]. rewrite size32_small by by apply (ch_buffer s Hs). by apply post_same.
Qed.

Lemma count_sim (n : nat) s (d : Z) : chainbase_rel (S n) s (chainbase_pairs s) ->
  agree (count_iterators d) (set_open d) s (chainbase_pairs s) (post n s (fun x y _ _ => x = y)).
Proof.
  intros ([H1 H2 H3 H4] & Hroom & _). split; [done|]. split; [|done]. split_and!; [by split|unfold room in *; cbn; lia|done].
Qed.

Lemma chainbase_create_sim (n : nat) s (c : Z) (prefix : list Z) : chainbase_rel (S n) s (chainbase_pairs s) -> bytes_ok prefix ->
  agree (chainbase_it_create limits c prefix) (spec_it_create limits c prefix) s (chainbase_pairs s) (post n s (fun i j s' t' => chainbase_rel_it s' t' i j)).
Proof.
  intros Hr [_ Hp]. unfold chainbase_it_create, spec_it_create. apply agree_get. rewrite size32_small by done. do 2 (apply agree_check; intros _).
  eapply agree_bind; [by apply count_sim|]. intros ? ? s1 t1 (_ & H1 & H2). by apply agree_ret.
Qed.

(** What only reads an iterator *)
Lemma read_iterator_sim {A} (n : nat) s i j (f : option kv_object -> A) (g : option (list Z * kv_pair) -> A) :
  chainbase_rel (S n) s (chainbase_pairs s) -> chainbase_rel_it s (chainbase_pairs s) i j -> (forall o a, current_pair i o a s -> f o = g a) ->
  agree (o ← check_current i; mret (f o)) (a ← spec_current j; mret (g a)) s (chainbase_pairs s) (post n s (fun x y _ _ => x = y)).
Proof.
  intros (Hs & Hroom & _) Hi Hfg. eapply agree_bind; [by apply agree_current|]. intros o a ? ? (-> & -> & Hcur). rewrite (Hfg o a Hcur). by apply agree_ret, post_same.
Qed.

Lemma chainbase_status_sim (n : nat) s i j : chainbase_rel (S n) s (chainbase_pairs s) -> chainbase_rel_it s (chainbase_pairs s) i j ->
  agree (chainbase_it_status i) (spec_it_status j) s (chainbase_pairs s) (post n s (fun x y _ _ => x = y)).
Proof.
  intros (Hs & Hroom & _) Hi. unfold chainbase_it_status, spec_it_status. apply agree_get, agree_ret. unfold spec_status. pose proof Hi as (_ & _ & Hat).
  destruct (current i) as [p|], (it_at j) as [[id key]|] eqn:E; try done; [|by apply post_same]. destruct Hat as [-> _].
  destruct (spec_pair_at s i j p key Hs Hi E) as [[Ht ->]|(Ht & o & Ho & -> & Hcur)]; unfold is_removed.
  - rewrite bool_decide_true by done. by apply post_same.
  - rewrite Ht, bool_decide_false by by intros [? ?]. by apply post_same.
Qed.

Lemma chainbase_compare_sim (n : nat) s i j i' j' : chainbase_rel (S n) s (chainbase_pairs s) ->
  chainbase_rel_it s (chainbase_pairs s) i j -> chainbase_rel_it s (chainbase_pairs s) i' j' ->
  agree (chainbase_it_compare i i') (spec_it_compare j j') s (chainbase_pairs s) (post n s (fun x y _ _ => x = y)).
Proof.
  intros (Hs & Hroom & _) Hi Hi'. destruct (rel_it_same s i j Hi) as [Hc _], (rel_it_same s i' j' Hi') as [Hc' _]. unfold chainbase_it_compare, spec_it_compare. rewrite Hc, Hc'.
  apply agree_check. intros _. eapply agree_bind; [by apply agree_current|]. intros o a ? ? (-> & -> & Hcur).
  eapply agree_bind; [by apply agree_current|]. intros o' a' ? ? (-> & -> & Hcur').
  destruct o as [o|], a as [[key p]|], o' as [o'|], a' as [[key' p']|]; try done; apply agree_ret; try by apply post_same.
  destruct Hcur as (_ & [= _ ->] & _), Hcur' as (_ & [= _ ->] & _). rewrite compare_blob_lex. by apply post_same.
Qed.

Definition chainbase_conditions : kv_conditions (chainbase_kv R) kv_iterator_chainbase :=
  mk_kv_conditions True (fun _ => True) (fun _ _ => True) (fun _ _ => True).

Lemma chainbase_simulation :
  kv_simulation (C1 := chainbase_context receiver rm limits) (C2 := spec_context receiver rm limits) chainbase_conditions chainbase_rel chainbase_rel_it.
Proof.
  split; intros n s t; intros; match goal with H : chainbase_rel _ _ _ |- _ => pose proof H as (Hs & Hroom & ->) end; cbn [chainbase_context spec_context KvContext.kv_erase KvContext.kv_set KvContext.kv_get
    KvContext.kv_get_data KvContext.kv_it_create KvContext.kv_it_destruct KvContext.kv_it_status KvContext.kv_it_compare KvContext.kv_it_key_compare KvContext.kv_it_move_to_end KvContext.kv_it_next
    KvContext.kv_it_prev KvContext.kv_it_lower_bound KvContext.kv_it_key KvContext.kv_it_value].
  - by apply chainbase_erase_sim.
  - by apply chainbase_set_sim.
  - by apply chainbase_get_sim.
  - by apply chainbase_get_data_sim.
  - by apply chainbase_create_sim.
  - by apply count_sim.
  - by apply chainbase_status_sim.
  - by apply chainbase_compare_sim.
  - apply read_iterator_sim; [done..|]. intros [o|] [[key' p]|]; try done. intros (_ & [= _ ->] & _). apply compare_blob_lex.
  - apply agree_ret. split; [|exact (proj2 (post_same n s tt Hs Hroom))]. match goal with H : chainbase_rel_it _ _ _ _ |- _ => destruct H as (? & ? & _) end. by split.
  - by apply index_next.
  - by apply index_prev.
  - by apply index_lower_bound.
  - apply read_iterator_sim; [done..|]. intros [o|] [[key' p]|]; try done. intros (E & [= _ E2] & _ & ->).
    apply idx_lookup in E as [E _]; [|done]. destruct (ch_small s Hs _ _ E). simpl. by rewrite size32_small, E2.
  - apply read_iterator_sim; [done..|]. intros [o|] [[key' p]|]; try done. intros (E & [= _ E2] & _ & ->).
    apply idx_lookup in E as [E _]; [|done]. destruct (ch_small s Hs _ _ E). simpl. by rewrite size32_small.
Qed.
End chainbase.
