(* ===== verification/KvRocksdb.v ===== *)
(** * Key-value pairs in a session of the key-value store

    [kv_context_rocksdb] and [kv_iterator_rocksdb] (libraries/chain/include/dcd/chain/backing_store/kv_context_rocksdb.hpp), and the payer in
    front of a value (chain_kv_payer.hpp). The session is that of [Session] over any parent.

    The comparisons of [shared_bytes] are those of the sequences of bytes, as in [Session]. *)

From S2P Require Import Prelude Effects Lex SharedBytes Raw Types Store Session Parameters KvContext.

(** ** Keys and values *)

(** [make_rocksdb_contract_kv_prefix], that is [rocksdb_contract_kv_prefix] *)
Definition rocks_prefix : list Z := [0x11].

(** [b1::chain_kv::insert_key] of an integer of 64 bits: its bytes, reversed *)
Definition insert_key (v : Z) : list Z := rev (pack_uint64 v).

Definition prefix_size : Z := Z.of_nat (length rocks_prefix) + 8.
Definition actual_key_size (raw_key_size : Z) : result Z :=
  _ ← dcd_assert (prefix_size <=? raw_key_size) kv_rocksdb_bad_value_size_exception;
  Ok (raw_key_size - prefix_size).
Definition actual_key_start (key : list Z) : list Z := drop (Z.to_nat prefix_size) key.

Definition make_prefix_key (contract : Z) (user_prefix : list Z) : list Z := rocks_prefix ++ insert_key contract ++ user_prefix.
Definition make_composite_key (contract : Z) (user_prefix key : list Z) : list Z := rocks_prefix ++ insert_key contract ++ user_prefix ++ key.

Definition compare_bytes (a b : list Z) : Z := if bool_decide (a <ₖ b) then -1 else if bool_decide (b <ₖ a) then 1 else 0.

Definition payer_in_value_size : Z := 8.
Definition actual_value_size (raw_value_size : Z) : result Z :=
  _ ← dcd_assert (payer_in_value_size <=? raw_value_size) kv_rocksdb_bad_value_size_exception;
  Ok (raw_value_size - payer_in_value_size).
Definition get_payer (data : list Z) : account_name := from_bytes (take (Z.to_nat payer_in_value_size) data).
Definition actual_value_start (data : list Z) : list Z := drop (Z.to_nat payer_in_value_size) data.

Record payer_payload := mk_payer_payload { pp_value : list Z; pp_value_size : Z; pp_payer : account_name }.

(** [payer_payload( data )] of a value that was read *)
Definition payload_of (data : list Z) : result payer_payload :=
  size ← actual_value_size (size32 data);
  Ok (mk_payer_payload (actual_value_start data) size (get_payer data)).
Definition as_payload (p : payer_payload) : list Z := pack_uint64 (pp_payer p) ++ take (Z.to_nat (pp_value_size p)) (pp_value p).

(** ** The context *)
Record rocksdb_kv (P R : Type) := mk_rocksdb_kv {
  rk_session : session P;
  rk_num_iterators : Z;
  rk_current_key : list Z;
  rk_current_value : option (list Z);
  rk_resources : R
}.
Arguments mk_rocksdb_kv {P R}.
Arguments rk_session {P R}.
Arguments rk_num_iterators {P R}.
Arguments rk_current_key {P R}.
Arguments rk_current_value {P R}.
Arguments rk_resources {P R}.

Record kv_iterator_rocksdb := mk_kv_iterator_rocksdb {
  kv_contract : account_name;
  kv_prefix : list Z;
  kv_begin : session_iterator;
  kv_end : session_iterator;
  kv_current : session_iterator
}.

Definition iterator_eq (a b : session_iterator) : bool := bool_decide (m_active_iterator a = m_active_iterator b).

Section context.
Context {P R : Type} `{!Store P} (receiver : account_name) (rm : resource_manager R) (limits : kv_database_config).
Abbreviation ctx := (rocksdb_kv P R).
Abbreviation Op := (M ctx).

Definition on_session {A} (m : M (session P) A) : Op A := fun c =>
  let (s, r) := m (rk_session c) in (mk_rocksdb_kv s (rk_num_iterators c) (rk_current_key c) (rk_current_value c) (rk_resources c), r).
Definition on_rk_resources {A} (m : M R A) : Op A := fun c =>
  let (s, r) := m (rk_resources c) in (mk_rocksdb_kv (rk_session c) (rk_num_iterators c) (rk_current_key c) (rk_current_value c) s, r).
Definition set_current (key : list Z) (v : option (list Z)) : Op unit :=
  update (fun c => mk_rocksdb_kv (rk_session c) (rk_num_iterators c) key v (rk_resources c)).
Definition count_rk_iterators (d : Z) : Op unit :=
  update (fun c => mk_rocksdb_kv (rk_session c) (u32 (rk_num_iterators c + d)) (rk_current_key c) (rk_current_value c) (rk_resources c)).

(** [try { try { m } FC_LOG_AND_RETHROW() } CATCH_AND_EXIT_DB_FAILURE()]: an exception ends the program. *)
Definition or_abort {A} (m : Op A) : Op A :=
  catch m (fun e => throw (match e with undefined_behaviour | nontermination => e | _ => program_abort end)).

Definition rocksdb_erase (contract : Z) (key : list Z) : Op Z :=
  _ ← check (contract =? receiver) table_operation_not_permitted;
  _ ← set_current [] None;
  pp ← or_abort (
    let composite_key := make_composite_key contract [] key in
    old_value ← on_session (session_read composite_key);
    match old_value with
    | None => mret None
    | Some old_value =>
        pp ← lift (payload_of old_value);
        _ ← on_session (erase composite_key);
        mret (Some pp)
    end);
  match pp with
  | None => mret 0
  | Some pp => on_rk_resources (erase_table_usage rm (pp_payer pp) key (size32 key) (pp_value_size pp))
  end.

Definition rocksdb_set (contract : Z) (key value : list Z) (payer : account_name) : Op Z :=
  _ ← check (contract =? receiver) table_operation_not_permitted;
  _ ← check (size32 key <=? max_key_size limits) kv_limit_exceeded;
  _ ← check (size32 value <=? max_value_size limits) kv_limit_exceeded;
  _ ← set_current [] None;
  old_pp ← or_abort (
    let composite_key := make_composite_key contract [] key in
    old_value ← on_session (session_read composite_key);
    old_pp ← (match old_value with
              | Some old_value => pp ← lift (payload_of old_value); mret (Some pp)
              | None => mret None
              end);
    let new_value := mk_payer_payload value (size32 value) payer in
    _ ← on_session (write composite_key (as_payload new_value));
    mret old_pp);
  match old_pp with
  | Some old_pp => on_rk_resources (update_table_usage rm (pp_payer old_pp) payer key (size32 key) (pp_value_size old_pp) (size32 value))
  | None => on_rk_resources (create_table_usage rm payer key (size32 key) (size32 value))
  end.

Definition rocksdb_get (contract : Z) (key : list Z) : Op (bool * Z) :=
  _ ← set_current [] None;
  let current_key := make_composite_key contract [] key in
  v ← or_abort (on_session (session_read current_key));
  _ ← set_current current_key v;
  match v with
  | Some v => size ← lift (actual_value_size (size32 v)); mret (true, size)
  | None => mret (false, 0)
  end.

Definition rocksdb_get_data (offset data_size : Z) : Op (Z * list Z) :=
  c ← get;
  match rk_current_value c with
  | Some v => temp_size ← lift (actual_value_size (size32 v)); mret (temp_size, copy_bytes (actual_value_start v) temp_size offset data_size)
  | None => mret (0, [])
  end.

(** ** Iterators *)
Definition rocksdb_it_create (contract : Z) (user_prefix : list Z) : Op kv_iterator_rocksdb :=
  c ← get;
  _ ← check (rk_num_iterators c <? max_iterators limits) kv_bad_iter;
  _ ← check (size32 user_prefix <=? max_key_size limits) kv_bad_iter;
  or_abort (
    let kv_prefix := make_prefix_key contract user_prefix in
    kv_begin ← on_session (lower_bound_iterator kv_prefix);
    kv_next_prefix ← lift (next kv_prefix);
    kv_end ← on_session (lower_bound_iterator kv_next_prefix);
    _ ← count_rk_iterators 1;
    mret (mk_kv_iterator_rocksdb contract kv_prefix kv_begin kv_end kv_end)).
Definition rocksdb_it_destruct (i : kv_iterator_rocksdb) : Op unit := count_rk_iterators (-1).

Definition set_kv_current (i : kv_iterator_rocksdb) (it : session_iterator) : kv_iterator_rocksdb :=
  mk_kv_iterator_rocksdb (kv_contract i) (kv_prefix i) (kv_begin i) (kv_end i) it.

Definition status (c : ctx) (i : kv_iterator_rocksdb) : kv_it_stat :=
  if iterator_eq (kv_current i) (kv_end i) then iterator_end
  else if iterator_deleted (rk_session c) (kv_current i) then iterator_erased
  else iterator_ok.
Definition rocksdb_it_status (i : kv_iterator_rocksdb) : Op kv_it_stat := c ← get; mret (status c i).

(** [DCD_ASSERT( !kv_current.deleted(), kv_bad_iter )] *)
Definition check_not_deleted (i : kv_iterator_rocksdb) : Op unit :=
  c ← get; check (negb (iterator_deleted (rk_session c) (kv_current i))) kv_bad_iter.

(** [( *kv_current ).second] *)
Definition current_second (c : ctx) (i : kv_iterator_rocksdb) : option (list Z) := session_deref (rk_session c) (m_active_iterator (kv_current i)).

Definition rocksdb_it_compare (i r : kv_iterator_rocksdb) : Op Z :=
  _ ← check (bool_decide (kv_prefix i = kv_prefix r)) kv_bad_iter;
  _ ← check_not_deleted i;
  _ ← check_not_deleted r;
  c ← get;
  mret (match status c i, status c r with
        | iterator_end, iterator_end => 0
        | iterator_end, _ => 1
        | _, iterator_end => -1
        | _, _ =>
            let result := compare_bytes (iterator_key (kv_current i)) (iterator_key (kv_current r)) in
            if negb (result =? 0) then result else
            match current_second c i, current_second c r with
            | Some v, Some w => compare_bytes v w
            | None, None => 1
            | _, _ => 0
            end
        end).

Definition rocksdb_it_key_compare (i : kv_iterator_rocksdb) (key : list Z) : Op Z :=
  _ ← check_not_deleted i;
  c ← get;
  mret (match status c i with
        | iterator_ok => compare_bytes (iterator_key (kv_current i)) (make_composite_key (kv_contract i) [] key)
        | _ => 1
        end).

Definition rocksdb_it_move_to_end (i : kv_iterator_rocksdb) : Op (kv_iterator_rocksdb * kv_it_stat) :=
  mret (set_kv_current i (kv_end i), iterator_end).

Definition get_current_key_value_sizes (i : kv_iterator_rocksdb) : Op (kv_it_stat * Z * Z) :=
  c ← get;
  match status c i with
  | iterator_ok =>
      v ← (match current_second c i with Some v => mret v | None => throw undefined_behaviour end);
      found_value_size ← lift (actual_value_size (size32 v));
      found_key_size ← lift (actual_key_size (size32 (iterator_key (kv_current i))));
      mret (iterator_ok, found_key_size, found_value_size)
  | st => mret (st, 0, 0)
  end.

(** The iterator at [it], with what it finds there *)
Definition arrive_at (i : kv_iterator_rocksdb) (it : session_iterator) : Op (kv_iterator_rocksdb * (kv_it_stat * Z * Z)) :=
  let i := set_kv_current i it in r ← get_current_key_value_sizes i; mret (i, r).

Definition rocksdb_it_next (i : kv_iterator_rocksdb) : Op (kv_iterator_rocksdb * (kv_it_stat * Z * Z)) :=
  _ ← check_not_deleted i;
  or_abort (
    it ← (if iterator_eq (kv_current i) (kv_end i) then mret (kv_begin i) else on_session (increment (kv_current i)));
    arrive_at i it).

Definition rocksdb_it_prev (i : kv_iterator_rocksdb) : Op (kv_iterator_rocksdb * (kv_it_stat * Z * Z)) :=
  _ ← check_not_deleted i;
  or_abort (
    it ← (if iterator_eq (kv_current i) (kv_begin i) then mret (kv_end i) else on_session (decrement (kv_current i)));
    arrive_at i it).

Definition rocksdb_it_lower_bound (i : kv_iterator_rocksdb) (key : list Z) : Op (kv_iterator_rocksdb * (kv_it_stat * Z * Z)) :=
  or_abort (
    let key_bytes := make_composite_key (kv_contract i) [] key in
    let key_bytes := if bool_decide (key_bytes <ₖ kv_prefix i) then kv_prefix i else key_bytes in
    it ← on_session (lower_bound_iterator key_bytes);
    arrive_at i it).

Definition rocksdb_it_key (i : kv_iterator_rocksdb) (offset size : Z) : Op (kv_it_stat * Z * list Z) :=
  _ ← check_not_deleted i;
  c ← get;
  let key := match status c i with iterator_ok => iterator_key (kv_current i) | _ => [] end in
  if bool_decide (key <> []) then
    actual_size ← lift (actual_key_size (size32 key));
    mret (iterator_ok, actual_size, copy_bytes (actual_key_start key) actual_size offset size)
  else mret (iterator_end, 0, []).

Definition rocksdb_it_value (i : kv_iterator_rocksdb) (offset size : Z) : Op (kv_it_stat * Z * list Z) :=
  _ ← check_not_deleted i;
  c ← get;
  match (match status c i with iterator_ok => current_second c i | _ => None end) with
  | Some v =>
      actual_size ← lift (actual_value_size (size32 v));
      mret (iterator_ok, actual_size, copy_bytes (actual_value_start v) actual_size offset size)
  | None => mret (iterator_end, 0, [])
  end.

Definition rocksdb_it_payer (i : kv_iterator_rocksdb) : Op (option account_name) :=
  _ ← check_not_deleted i;
  c ← get;
  match (match status c i with iterator_ok => current_second c i | _ => None end) with
  | Some v => pp ← lift (payload_of v); mret (Some (pp_payer pp))
  | None => mret None
  end.

(** [create_kv_rocksdb_context] *)
Definition create_kv_rocksdb_context (s : session P) (r : R) : ctx := mk_rocksdb_kv s 0 [] None r.

Definition rocksdb_context : KvContext ctx kv_iterator_rocksdb := {|
  kv_erase := rocksdb_erase;
  kv_set := rocksdb_set;
  kv_get := rocksdb_get;
  kv_get_data := rocksdb_get_data;
  kv_it_create := rocksdb_it_create;
  kv_it_destruct := rocksdb_it_destruct;
  kv_it_status := rocksdb_it_status;
  kv_it_compare := rocksdb_it_compare;
  kv_it_key_compare := rocksdb_it_key_compare;
  kv_it_move_to_end := rocksdb_it_move_to_end;
  kv_it_next := rocksdb_it_next;
  kv_it_prev := rocksdb_it_prev;
  kv_it_lower_bound := rocksdb_it_lower_bound;
  kv_it_key := rocksdb_it_key;
  kv_it_value := rocksdb_it_value
|}.
End context.
