(* ===== verification/KvRocksdbProofs.v ===== *)
(** * The context on a session implements the specification

    [KvRocksdb] simulates [KvSpec], when pairs change only while no iterator is open, an iterator is made only when no
    erased key was written again in the session, it does not search past its prefix, and only iterators with the same prefix are compared. *)

From S2P Require Import Prelude Effects Lex SharedBytes Raw Types Store Session SessionProofs SessionIterators SessionStore Parameters KvContext KvSpec KvRocksdb.

(** ** Keys and values *)
Definition raw_key (c : Z) (key : list Z) : list Z := make_composite_key c [] key.
Definition raw_value (p : kv_pair) : list Z := pack_uint64 (p_payer p) ++ p_value p.

Lemma insert_key_length (c : Z) : length (insert_key c) = 8%nat.
Proof. unfold insert_key, pack_uint64. by rewrite length_rev, pack_uint_length. Qed.
Lemma insert_key_inj (c d : Z) : fits 64 c -> fits 64 d -> insert_key c = insert_key d -> c = d.
Proof.
  intros Hc Hd E. apply (f_equal (@rev Z)) in E. unfold insert_key in E. rewrite !rev_involutive in E. apply (f_equal from_bytes) in E.
  unfold pack_uint64 in E. rewrite !from_pack_uint in E; [done|..]; unfold fits in *; simpl; lia.
Qed.

Lemma raw_key_eq (c : Z) (key : list Z) : raw_key c key = make_prefix_key c [] ++ key.
Proof. unfold raw_key, make_composite_key, make_prefix_key. by rewrite app_nil_r, <- app_assoc. Qed.
Lemma raw_key_inj (c d : Z) (a b : list Z) : fits 64 c -> fits 64 d -> raw_key c a = raw_key d b -> c = d /\ a = b.
Proof.
  intros Hc Hd E. unfold raw_key, make_composite_key in E. apply app_inv_head, app_inj_1 in E as [E E2]; [|by rewrite !insert_key_length].
  split; [by apply insert_key_inj|done].
Qed.
Lemma raw_key_ne (c : Z) (key : list Z) : raw_key c key <> [].
Proof. done. Qed.
Lemma raw_key_prefix (c : Z) (key : list Z) : rocks_prefix `prefix_of` raw_key c key.
Proof. by eexists. Qed.
Lemma raw_key_size (c : Z) (key : list Z) : size_of (raw_key c key) = size_of key + 9.
Proof. unfold size_of. rewrite raw_key_eq. unfold make_prefix_key. rewrite !length_app, insert_key_length. simpl. lia. Qed.

Lemma pack_uint_bytes (n : nat) (v : Z) : Forall byte_ok (pack_uint n v).
Proof.
  revert v. induction n as [|n IH]; intros v; simpl; constructor; [|apply IH]. unfold byte_ok. change 0xff with (Z.ones 8). rewrite Z.land_ones by lia.
  apply Z.mod_pos_bound. lia.
Qed.
Lemma prefix_key_bytes (c : Z) (p : list Z) : Forall byte_ok p -> Forall byte_ok (make_prefix_key c p).
Proof.
  intros Hp. unfold make_prefix_key. apply Forall_app. split; [repeat constructor; lia|]. apply Forall_app. split; [|done].
  unfold insert_key. apply Forall_rev, pack_uint_bytes.
Qed.

Lemma lt_app_same (p a b : list Z) : p ++ a <ₖ p ++ b <-> a <ₖ b.
Proof. induction p as [|x p IH]; [done|]. simpl. rewrite lex_cons, IH. intuition lia. Qed.
Lemma lex_app_same (p a b : list Z) : lex (p ++ a) (p ++ b) = lex a b.
Proof. induction p as [|x p IH]; [done|]. simpl. by rewrite Z.compare_refl. Qed.
Lemma raw_key_lt (c : Z) (a b : list Z) : raw_key c a <ₖ raw_key c b <-> c :: a <ₖ c :: b.
Proof. rewrite (raw_key_eq c a), (raw_key_eq c b), (lt_app_same (make_prefix_key c [])), (lex_cons c c). intuition lia. Qed.
Lemma raw_key_le (c : Z) (a b : list Z) : raw_key c a ≤ₖ raw_key c b <-> c :: a ≤ₖ c :: b.
Proof. rewrite (key_le_lt (raw_key c a)), (key_le_lt (c :: a)). by rewrite (raw_key_lt c b a). Qed.
Lemma prefix_key_raw (c : Z) (p : list Z) : make_prefix_key c p = raw_key c p.
Proof. unfold raw_key, make_composite_key. simpl. done. Qed.
Lemma prefix_of_raw (c : Z) (p key : list Z) : make_prefix_key c p `prefix_of` raw_key c key <-> c :: p `prefix_of` c :: key.
Proof.
  rewrite (prefix_key_raw c p), (raw_key_eq c p), (raw_key_eq c key), (prefix_cons_iff c c). split; [intros H%prefix_app_inv; done|intros [_ H]; by apply prefix_app].
Qed.
(** A key of another contract does not have the prefix. *)
Lemma prefix_of_raw_contract (c d : Z) (p key : list Z) : fits 64 c -> fits 64 d -> make_prefix_key c p `prefix_of` raw_key d key -> d = c.
Proof.
  intros Hc Hd [r E]. unfold raw_key, make_composite_key, make_prefix_key in E. rewrite <- app_assoc in E. apply app_inv_head in E. rewrite <- app_assoc in E.
  apply app_inj_1 in E as [E _]; [|by rewrite !insert_key_length]. by apply insert_key_inj.
Qed.

Lemma next_not_empty (b e : list Z) : next b = Ok e -> e <> [].
Proof. unfold next. generalize (rev (next_rev (rev b))). intros l. destruct l as [|x l]; [done|]. cbn. by intros [= <-]. Qed.
Lemma next_prefix (c : Z) (p : list Z) : Forall byte_ok p -> exists e, next (make_prefix_key c p) = Ok e /\ e <> [] /\
  forall a, Forall byte_ok a -> make_prefix_key c p `prefix_of` a <-> make_prefix_key c p ≤ₖ a /\ a <ₖ e.
Proof.
  intros Hp. pose proof (next_bounds_prefix _ (prefix_key_bytes c p Hp)) as H. destruct (next (make_prefix_key c p)) as [e|x] eqn:E.
  - exists e. split_and!; [done|by eapply next_not_empty|done].
  - destruct H as [_ H]. apply Forall_cons in H as [? _]. lia.
Qed.

Definition room_for_payer : Z := 2 ^ 32 - 16.

Lemma size32_bytes (b : list Z) : size_of b < 2 ^ 32 -> size32 b = size_of b.
Proof. intros H. unfold size32, size_of in *. apply wrap_small. unfold fits. lia. Qed.
Lemma raw_key_start (x : Z) (key : list Z) : actual_key_start (raw_key x key) = key.
Proof.
  unfold actual_key_start. rewrite raw_key_eq. apply drop_app_length'. unfold make_prefix_key. rewrite !length_app, insert_key_length. done.
Qed.
Lemma raw_key_actual (x : Z) (key : list Z) : size_of key < room_for_payer -> actual_key_size (size32 (raw_key x key)) = Ok (size_of key).
Proof.
  intros Sk. pose proof (raw_key_size x key) as Hsz. unfold room_for_payer in Sk. rewrite size32_bytes by lia. unfold actual_key_size, prefix_size. rewrite Hsz. unfold size_of in *. simpl length.
  rewrite (proj2 (Z.leb_le _ _)) by lia. cbn [dcd_assert mbind result_bind]. f_equal. lia.
Qed.

Lemma raw_value_start (p : kv_pair) : actual_value_start (raw_value p) = p_value p.
Proof. unfold actual_value_start, raw_value. apply drop_app_length'. symmetry. apply (pack_uint_length 8). Qed.
Lemma raw_value_payer (p : kv_pair) : fits 64 (p_payer p) -> get_payer (raw_value p) = p_payer p.
Proof.
  intros Hp. unfold get_payer, raw_value. rewrite take_app_length' by (symmetry; apply (pack_uint_length 8)). unfold pack_uint64. apply from_pack_uint. unfold fits in Hp. simpl. lia.
Qed.
Lemma raw_value_size (p : kv_pair) : size_of (p_value p) < room_for_payer -> actual_value_size (size32 (raw_value p)) = Ok (size_of (p_value p)).
Proof.
  intros Hs. assert (El : length (pack_uint64 (p_payer p)) = 8%nat) by apply pack_uint_length.
  unfold actual_value_size, raw_value, payer_in_value_size, size32. rewrite length_app, El. unfold size_of, room_for_payer in *. rewrite wrap_small by (unfold fits; lia).
  rewrite (proj2 (Z.leb_le _ _)) by lia. cbn [dcd_assert mbind result_bind]. f_equal. lia.
Qed.
Lemma raw_value_payload (p : kv_pair) : fits 64 (p_payer p) -> size_of (p_value p) < room_for_payer ->
  payload_of (raw_value p) = Ok (mk_payer_payload (p_value p) (size_of (p_value p)) (p_payer p)).
Proof. intros Hp Hs. unfold payload_of. rewrite raw_value_size by done. cbn [mbind result_bind]. by rewrite raw_value_start, raw_value_payer. Qed.
Lemma raw_value_ne (p : kv_pair) : raw_value p <> [].
Proof. done. Qed.

(** ** The pairs of a session *)
Abbreviation pair_map := (gmap (list Z) kv_pair) (only parsing).

Record kv_related (sm : kmap) (m : pair_map) : Prop := {
  kr_lookup c key : fits 64 c -> Forall byte_ok key -> sm !! raw_key c key = raw_value <$> m !! (c :: key);
  (** the keys with the prefix of the contracts are theirs *)
  kr_raw k : is_Some (sm !! k) -> rocks_prefix `prefix_of` k -> exists c key, fits 64 c /\ Forall byte_ok key /\ k = raw_key c key;
  kr_bytes k : is_Some (sm !! k) -> Forall byte_ok k;
  kr_pair k p : m !! k = Some p -> exists c key, k = c :: key /\ fits 64 c /\ Forall byte_ok key /\ size_of key < room_for_payer /\
    fits 64 (p_payer p) /\ size_of (p_value p) < room_for_payer
}.

Lemma related_insert (sm : kmap) (m : pair_map) (c : Z) (key : list Z) (p : kv_pair) :
  kv_related sm m -> fits 64 c -> Forall byte_ok key -> size_of key < room_for_payer -> fits 64 (p_payer p) -> size_of (p_value p) < room_for_payer ->
  kv_related (<[raw_key c key := raw_value p]> sm) (<[c :: key := p]> m).
Proof.
  intros Hr Hc Hk Sk Hp Sv. split.
  - intros d x Hd Hx. destruct (decide (c :: key = d :: x)) as [[= -> ->]|Hne]; [by rewrite !lookup_insert_eq|]. rewrite !lookup_insert_ne; [by apply (kr_lookup _ _ Hr)|done|].
    intros [-> ->]%raw_key_inj; done.
  - intros k [<- |[_ Hs]]%lookup_insert_is_Some Hpre; [by exists c, key|by apply (kr_raw _ _ Hr)].
  - intros k [<- |[_ Hs]]%lookup_insert_is_Some; [|by apply (kr_bytes _ _ Hr)]. rewrite raw_key_eq. apply Forall_app. split; [by apply prefix_key_bytes|done].
  - intros k q [[<- <-]|[_ Hq]]%lookup_insert_Some; [by exists c, key|by apply (kr_pair _ _ Hr)].
Qed.

Lemma related_delete (sm : kmap) (m : pair_map) (c : Z) (key : list Z) :
  kv_related sm m -> fits 64 c -> Forall byte_ok key -> kv_related (delete (raw_key c key) sm) (delete (c :: key) m).
Proof.
  intros Hr Hc Hk. split.
  - intros d x Hd Hx. destruct (decide (c :: key = d :: x)) as [[= -> ->]|Hne]; [by rewrite !lookup_delete_eq|]. rewrite !lookup_delete_ne; [by apply (kr_lookup _ _ Hr)|done|].
    intros [-> ->]%raw_key_inj; done.
  - intros k [_ Hs]%lookup_delete_is_Some. by apply (kr_raw _ _ Hr).
  - intros k [_ Hs]%lookup_delete_is_Some. by apply (kr_bytes _ _ Hr).
  - intros k q [_ Hq]%lookup_delete_Some. by apply (kr_pair _ _ Hr).
Qed.

(** A key of the session with the prefix is that of a pair. *)
Lemma related_pair (sm : kmap) (m : pair_map) (c : Z) (p : list Z) (k : list Z) :
  kv_related sm m -> fits 64 c -> is_Some (sm !! k) -> make_prefix_key c p `prefix_of` k ->
  exists key q, k = raw_key c key /\ Forall byte_ok key /\ m !! (c :: key) = Some q /\ sm !! k = Some (raw_value q) /\ c :: p `prefix_of` c :: key.
Proof.
  intros Hr Hc Hk Hp. destruct (kr_raw _ _ Hr k Hk) as (d & key & Hd & Hb & ->); [by etransitivity; [|exact Hp]; eexists|].
  assert (d = c) as -> by by eapply prefix_of_raw_contract. rewrite (kr_lookup _ _ Hr c key Hc Hb) in *. destruct (m !! (c :: key)) as [q|] eqn:Eq; [|by destruct Hk].
  exists key, q. split_and!; [done..|]. by apply prefix_of_raw.
Qed.
Lemma pair_related (sm : kmap) (m : pair_map) (c : Z) (p key : list Z) :
  kv_related sm m -> is_Some (m !! (c :: key)) -> c :: p `prefix_of` c :: key -> is_Some (sm !! raw_key c key) /\ make_prefix_key c p `prefix_of` raw_key c key.
Proof.
  intros Hr [q Hq] Hp. destruct (kr_pair _ _ Hr _ _ Hq) as (c' & key' & [= <- <-] & Hc & Hb & _). split; [|by apply prefix_of_raw].
  rewrite (kr_lookup _ _ Hr c key Hc Hb), Hq. by eexists.
Qed.

(** ** Searches in the session and among the pairs *)
Section search.
Context (sm : kmap) (m : pair_map) (x : Z) (p : list Z) (nxt : list Z) (e : iterator).
Context (Hr : kv_related sm m) (Hx : fits 64 x).
Context (Hnext : forall a, Forall byte_ok a -> make_prefix_key x p `prefix_of` a <-> make_prefix_key x p ≤ₖ a /\ a <ₖ nxt).
Context (He : nearest_up (fun y => is_Some (sm !! y) /\ nxt ≤ₖ y) e).

(** The iterator of the session is where the search among the pairs is, or at the first key past the prefix when the search found nothing. *)
Definition placed (sp : option (list Z)) (it : iterator) : Prop :=
  match sp with Some k => exists key, k = x :: key /\ it = Some (raw_key x key) | None => it = e end.

Lemma range_pair (k : list Z) : is_Some (sm !! k) -> make_prefix_key x p ≤ₖ k -> k <ₖ nxt -> exists key, k = raw_key x key /\ is_Some (with_prefix (x :: p) m !! (x :: key)).
Proof.
  intros Hk H1 H2. assert (Hp : make_prefix_key x p `prefix_of` k) by (apply Hnext; [by apply (kr_bytes _ _ Hr)|done]).
  destruct (related_pair sm m x p k Hr Hx Hk Hp) as (key & q & -> & _ & Hq & _ & Hpre). exists key. split; [done|]. apply with_prefix_stored. rewrite Hq. by split; [eexists|].
Qed.
Lemma pair_range (k : list Z) : is_Some (with_prefix (x :: p) m !! k) -> exists key, k = x :: key /\ is_Some (sm !! raw_key x key) /\
  make_prefix_key x p ≤ₖ raw_key x key /\ raw_key x key <ₖ nxt /\ x :: p `prefix_of` x :: key.
Proof.
  intros [Hk Hp]%with_prefix_stored. destruct Hk as [q Hq]. destruct (kr_pair _ _ Hr _ _ Hq) as (d & key & -> & _ & Hb & _).
  apply prefix_cons_iff in Hp as Hp'. destruct Hp' as [<- _]. exists key. destruct (pair_related sm m x p key Hr) as [H1 H2]; [by eexists|done|].
  pose proof (proj1 (Hnext _ (kr_bytes _ _ Hr _ H1)) H2) as [? ?]. done.
Qed.

Lemma locate_up (A Q : list Z -> Prop) (it sp : option (list Z)) :
  nearest_up (fun y => is_Some (sm !! y) /\ A y) it -> (forall y, A y -> make_prefix_key x p ≤ₖ y) -> (forall y, nxt ≤ₖ y -> A y) ->
  (forall key, is_Some (sm !! raw_key x key) -> x :: p `prefix_of` x :: key -> A (raw_key x key) <-> Q (x :: key)) ->
  nearest_up (fun y => is_Some (with_prefix (x :: p) m !! y) /\ Q y) sp -> placed sp it.
Proof.
  intros Hit HA1 HA2 HAQ Hsp. destruct sp as [k|]; simpl in *.
  - destruct Hsp as [[Hk Qk] Hmin]. destruct (pair_range k Hk) as (key & -> & Hs & Hlo & Hhi & Hpre). exists key. split; [done|]. apply (HAQ key Hs Hpre) in Qk.
    destruct it as [y|]; [|by destruct (Hit (raw_key x key))]. destruct Hit as [[Hy Ay] Hy']. specialize (Hy' _ (conj Hs Qk)).
    destruct (range_pair y Hy) as (key' & -> & Hin); [by apply HA1|key_order|]. destruct (pair_range _ Hin) as (? & [= <-] & Hst' & _ & _ & Hpre'). apply (HAQ key' Hst' Hpre') in Ay.
    specialize (Hmin _ (conj Hin Ay)). apply (proj1 (raw_key_le x key' key)) in Hy'. assert (x :: key' = x :: key) as [= ->] by key_order. done.
  - destruct it as [y|].
    + destruct Hit as [[Hy Ay] Hy']. assert (Hny : nxt ≤ₖ y).
      { apply key_le_lt. intros Hlt. destruct (range_pair y Hy) as (key' & -> & Hin); [by apply HA1|done|]. destruct (pair_range _ Hin) as (? & [= <-] & Hst' & _ & _ & Hpre').
        apply (HAQ key' Hst' Hpre') in Ay. by apply (Hsp (x :: key')). }
      destruct e as [y'|]; simpl in He; [|by destruct (He y)]. destruct He as [[Hs Hn] Hmin]. specialize (Hmin y (conj Hy Hny)). specialize (Hy' y' (conj Hs (HA2 y' Hn))). f_equal. key_order.
    + destruct e as [y'|]; [|done]. destruct He as [[Hs Hn] _]. destruct (Hit y'). split; [done|]. by apply HA2.
Qed.

Lemma locate_down (A Q : list Z -> Prop) (it sp : option (list Z)) (b : list Z) :
  nearest_down (fun y => is_Some (sm !! y) /\ A y) it -> (forall y, is_Some (sm !! y) -> A y -> y <ₖ nxt) ->
  is_Some (sm !! b) -> A b -> make_prefix_key x p ≤ₖ b ->
  (forall key, is_Some (sm !! raw_key x key) -> x :: p `prefix_of` x :: key -> A (raw_key x key) <-> Q (x :: key)) ->
  nearest_down (fun y => is_Some (with_prefix (x :: p) m !! y) /\ Q y) sp -> exists key, sp = Some (x :: key) /\ it = Some (raw_key x key).
Proof.
  intros Hit HA Hb Ab Hpb HAQ Hsp. destruct it as [y|]; simpl in Hit; [|by destruct (Hit b)]. destruct Hit as [[Hy Ay] Hmax]. pose proof (Hmax b (conj Hb Ab)) as Hby.
  destruct (range_pair y Hy) as (key & -> & Hin); [key_order|by apply HA|]. destruct (pair_range _ Hin) as (? & [= <-] & Hst & _ & _ & Hpre).
  exists key. split; [|done]. pose proof (proj1 (HAQ key Hst Hpre) Ay) as Qk. destruct sp as [k|]; simpl in Hsp; [|by destruct (Hsp (x :: key))]. destruct Hsp as [[Hk Qk'] Hmax'].
  destruct (pair_range k Hk) as (key' & -> & Hs' & _ & _ & Hpre'). apply (HAQ key' Hs' Hpre') in Qk'. specialize (Hmax _ (conj Hs' Qk')). specialize (Hmax' _ (conj Hin Qk)).
  apply (proj1 (raw_key_le x key' key)) in Hmax. f_equal. key_order.
Qed.
End search.

Section rocksdb.
Context {P R : Type} {SP : Store P} {MP : StoreModel P} {LP : StoreLaws P}.
Context (receiver : account_name) (rm : resource_manager R) (limits : kv_database_config).
(** A key and a value with what the context adds to them have a size of 32 bits. *)
Context (Hmax_key : max_key_size limits < room_for_payer) (Hmax_value : max_value_size limits < room_for_payer).
Implicit Types (c : rocksdb_kv P R) (t : kv_spec R) (i : kv_iterator_rocksdb) (j : spec_iterator).

Definition buffer_related (v : option (list Z)) (b : option (list Z)) : Prop :=
  match v, b with
  | Some v, Some b => exists q, v = raw_value q /\ b = p_value q /\ fits 64 (p_payer q) /\ size_of (p_value q) < room_for_payer
  | None, None => True
  | _, _ => False
  end.

Record rocksdb_rel (n : nat) c t : Prop := {
  rr_session : session_ok (rk_session c);
  rr_pairs : kv_related (session_map (rk_session c)) (pairs t);
  rr_iterators : open_iterators t = rk_num_iterators c;
  rr_buffer : buffer_related (rk_current_value c) (read_value t);
  rr_usage : usage t = rk_resources c
}.

(** An iterator of the session at a version of a new key *)
Definition at_pos (it : iterator) : session_iterator := mk_session_iterator 0 it.

Record rocksdb_rel_it c t i j : Prop := {
  ri_fresh : fresh (rk_session c);
  ri_contract : it_contract j = kv_contract i /\ fits 64 (kv_contract i);
  ri_prefix : kv_prefix i = make_prefix_key (kv_contract i) (it_prefix j) /\ Forall byte_ok (it_prefix j);
  ri_begin : exists b, kv_begin i = at_pos b /\ session_valid (rk_session c) b /\
    nearest_up (fun x => is_Some (session_map (rk_session c) !! x) /\ kv_prefix i ≤ₖ x) b;
  ri_end : exists e n, kv_end i = at_pos e /\ session_valid (rk_session c) e /\ next (kv_prefix i) = Ok n /\
    nearest_up (fun x => is_Some (session_map (rk_session c) !! x) /\ n ≤ₖ x) e;
  ri_current : match it_at j with
    | None => kv_current i = kv_end i
    | Some (id, key) => kv_current i = at_pos (Some (raw_key (kv_contract i) key)) /\ session_valid (rk_session c) (Some (raw_key (kv_contract i) key)) /\
        kv_contract i :: it_prefix j `prefix_of` kv_contract i :: key /\ exists p, pairs t !! (kv_contract i :: key) = Some p /\ p_id p = id
    end
}.

Definition rocksdb_conditions : kv_conditions (rocksdb_kv P R) kv_iterator_rocksdb :=
  mk_kv_conditions False (fun c => fresh (rk_session c))
    (fun i key => make_composite_key (kv_contract i) [] key <ₖ kv_prefix i \/ kv_prefix i `prefix_of` make_composite_key (kv_contract i) [] key)
    (fun i r => kv_contract i = kv_contract r -> kv_prefix i = kv_prefix r).

(** ** Steps of the session *)
Definition with_session c (s : session P) : rocksdb_kv P R := mk_rocksdb_kv s (rk_num_iterators c) (rk_current_key c) (rk_current_value c) (rk_resources c).

Lemma on_session_returns {A} (m : M (session P) A) c (Q : A -> session P -> Prop) :
  returns m (rk_session c) Q -> returns (on_session m) c (fun a c' => exists s, c' = with_session c s /\ Q a s).
Proof. unfold wp, on_session. destruct (m (rk_session c)) as [s [a|e]]; [|done]. intros H. by exists s. Qed.

Lemma returns_or_abort {A} (m : M (rocksdb_kv P R) A) c (Q : A -> rocksdb_kv P R -> Prop) : returns m c Q -> returns (or_abort m) c Q.
Proof. unfold wp, or_abort, catch. by destruct (m c) as [c' [a|e]]. Qed.

(** The right side returns, so the left side does not throw what [or_abort] would change. *)
Lemma agree_or_abort {A B S2} (m1 : M (rocksdb_kv P R) A) (m2 : M S2 B) c (s2 : S2) Q :
  (exists s2' b, m2 s2 = (s2', Ok b)) -> agree m1 m2 c s2 Q -> agree (or_abort m1) m2 c s2 Q.
Proof. intros (s2' & b & E). unfold agree, or_abort, catch. rewrite E. by destruct (m1 c) as [c' [a|e]]. Qed.

(** What a read keeps *)
Definition kept_session (s s' : session P) : Prop := unchanged s s' /\ (fresh s -> fresh s').

Lemma rel_keep (n n' : nat) c t (s : session P) : rocksdb_rel n c t -> kept_session (rk_session c) s -> rocksdb_rel n' (with_session c s) t.
Proof.
  intros [H1 H2 H3 H4 H5] [(U1 & U2 & _) _]. change (session_map s = session_map (rk_session c)) in U2. split; try done. cbn [rk_session with_session]. by rewrite U2.
Qed.
Lemma rel_weaken (n n' : nat) c t : rocksdb_rel n c t -> rocksdb_rel n' c t.
Proof. by intros []. Qed.

Lemma rel_it_keep c c' t t' i j :
  kept_session (rk_session c) (rk_session c') -> pairs t' = pairs t -> rocksdb_rel_it c t i j -> rocksdb_rel_it c' t' i j.
Proof.
  intros [(U1 & U2 & _ & _ & U5) Uf] Ep [H1 H2 H3 H4 H5 H6]. change (session_map (rk_session c') = session_map (rk_session c)) in U2. change (forall it, session_valid (rk_session c) it -> session_valid (rk_session c') it) in U5.
  split; rewrite ?U2, ?Ep; [auto|done|done| | |].
  - destruct H4 as (b & ? & ? & ?). exists b. auto.
  - destruct H5 as (e & m & ? & ? & ? & ?). exists e, m. auto.
  - destruct (it_at j) as [[id key]|]; [|done]. destruct H6 as (? & ? & ? & ?). auto.
Qed.
Lemma kept_refl (s : session P) : session_ok s -> kept_session s s.
Proof. intros Hs. split; [by apply unchanged_refl|done]. Qed.
Lemma kept_trans (s1 s2 s3 : session P) : kept_session s1 s2 -> kept_session s2 s3 -> kept_session s1 s3.
Proof. intros [U1 F1] [U2 F2]. split; [by eapply unchanged_trans|auto]. Qed.

Lemma read_returns c (k : list Z) : session_ok (rk_session c) -> k <> [] ->
  returns (on_session (session_read k)) c (fun v c' => exists s, c' = with_session c s /\ kept_session (rk_session c) s /\ v = session_map (rk_session c) !! k).
Proof.
  intros Hs Hk. eapply wp_mono; [apply on_session_returns, returns_kept; [apply kept_read|by apply session_read_ok]|].
  intros v c' (s & -> & ((U & E) & F)). by exists s.
Qed.

Lemma raw_lookup (n : nat) c t (x : Z) (key : list Z) : rocksdb_rel n c t -> fits 64 x -> bytes_ok key ->
  session_map (rk_session c) !! raw_key x key = raw_value <$> pairs t !! (x :: key).
Proof. intros [_ H _ _ _] Hx [Hk _]. by apply (kr_lookup _ _ H). Qed.

Abbreviation post n keep c t := (after rocksdb_rel rocksdb_rel_it n keep c t).

Lemma agree_rk_resources {A} (n : nat) (m : M R A) c t : rocksdb_rel n c t ->
  agree (on_rk_resources m) (on_usage m) c t (fun a1 a2 c' t' => a1 = a2 /\ exists r,
    c' = mk_rocksdb_kv (rk_session c) (rk_num_iterators c) (rk_current_key c) (rk_current_value c) r /\
    t' = mk_kv_spec (pairs t) (next_pair t) (open_iterators t) (read_value t) r).
Proof. intros [_ _ _ _ E]. unfold agree, on_rk_resources, on_usage. rewrite E. destruct (m (rk_resources c)) as [r [a|e]]; [|done]. split; [done|]. by exists r. Qed.

(** The specification changes the pairs after it reported the usage. *)
Lemma usage_then_pairs {A} (n n' : nat) (m : M R A) c t c0 t0 (pm : pair_map) (next : Z) :
  rocksdb_rel n c (mk_kv_spec pm next (open_iterators t) (read_value t) (usage t)) ->
  agree (on_rk_resources m) (d ← on_usage m; _ ← set_pairs pm next; mret d) c t (post n' False c0 t0 (fun x y _ _ => x = y)).
Proof.
  intros [H1 H2 H3 H4 H5]. cbn [usage] in H5. unfold agree. rewrite bind_eq. unfold on_rk_resources, on_usage. rewrite H5. destruct (m (rk_resources c)) as [r [a|e]]; [|done].
  split; [done|]. split; [|done]. by split.
Qed.

Lemma rocksdb_erase_sim (n : nat) c t (x : Z) (key : list Z) : rocksdb_rel (S n) c t -> fits 64 x -> bytes_ok key ->
  agree (rocksdb_erase receiver rm x key) (spec_erase receiver rm x key) c t (post n False c t (fun x y _ _ => x = y)).
Proof.
  intros Hr Hx Hkey. unfold rocksdb_erase, spec_erase. apply agree_check. intros _. eapply agree_left_eq; [reflexivity|]. eapply agree_right_eq; [reflexivity|].
  set (c1 := mk_rocksdb_kv _ _ _ _ _). set (t1 := mk_kv_spec _ _ _ _ _). assert (Hr1 : rocksdb_rel (S n) c1 t1) by by destruct Hr.
  eapply agree_right_eq; [reflexivity|]. cbv zeta. pose proof (raw_lookup _ c1 t1 x key Hr1 Hx Hkey) as El.
  destruct (pairs t1 !! (x :: key)) as [p|] eqn:Ep.
  - destruct (kr_pair _ _ (rr_pairs _ _ _ Hr1) _ _ Ep) as (? & ? & [= <- <-] & _ & Hb & Sk & Hp & Sv).
    eapply (agree_left _ _ _ _ _ (fun pp c' => pp = Some (mk_payer_payload (p_value p) (size_of (p_value p)) (p_payer p)) /\
      rocksdb_rel (S n) c' (mk_kv_spec (delete (x :: key) (pairs t1)) (next_pair t1) (open_iterators t1) (read_value t1) (usage t1)))).
    + apply returns_or_abort. eapply wp_seq; [by apply (read_returns c1 (raw_key x key)); [apply Hr1|]|]. intros v c2 (s & -> & U & ->). rewrite El. cbn [fmap option_fmap option_map].
      rewrite raw_value_payload by done. apply wp_lift; [done|]. intros pp [= <-]. pose proof (rel_keep (S n) (S n) c1 t1 s Hr1 U) as Hr2.
      eapply wp_seq; [apply on_session_returns, session_erase_ok; [apply Hr2|done]|]. intros _ c3 (s3 & -> & O3 & M3 & _). apply wp_ret. split; [done|].
      destruct Hr2 as [H1 H2 H3 H4 H5]. split; try done. cbn [rk_session with_session pairs] in *. change (make_composite_key x [] key) with (raw_key x key) in M3. rewrite M3. by apply related_delete.
    + intros pp c2 [-> Hr2]. cbn [pp_payer pp_value_size]. destruct Hkey as [_ Skey]. rewrite size32_bytes by done. by eapply usage_then_pairs.
  - eapply (agree_left _ _ _ _ _ (fun pp c' => pp = None /\ rocksdb_rel n c' t1)).
    + apply returns_or_abort. eapply wp_seq; [by apply (read_returns c1 (raw_key x key)); [apply Hr1|]|]. intros v c2 (s & -> & U & ->). rewrite El. apply wp_ret. split; [done|].
      by eapply rel_keep.
    + intros pp c2 [-> Hr2]. by apply agree_ret.
Qed.

Lemma as_payload_raw (v : list Z) (payer id : Z) : as_payload (mk_payer_payload v (size_of v) payer) = raw_value (mk_kv_pair id payer v).
Proof. unfold as_payload, raw_value. cbn [pp_payer pp_value pp_value_size p_payer p_value]. unfold size_of. by rewrite Nat2Z.id, firstn_all. Qed.

(** The database part of [kv_set]: the old pair, and the new one in its place *)
Definition payload_pair (p : kv_pair) : payer_payload := mk_payer_payload (p_value p) (size_of (p_value p)) (p_payer p).

Lemma set_returns (n : nat) c t (x : Z) (key v : list Z) (payer id next : Z) : rocksdb_rel (S n) c t -> fits 64 x -> bytes_ok key -> bytes_ok v -> fits 64 payer ->
  size_of key < room_for_payer -> size_of v < room_for_payer ->
  returns (or_abort (
    old_value ← on_session (session_read (raw_key x key));
    old_pp ← (match old_value with Some old_value => pp ← lift (payload_of old_value); mret (Some pp) | None => mret None end);
    _ ← on_session (write (raw_key x key) (as_payload (mk_payer_payload v (size_of v) payer)));
    mret old_pp)) c (fun pp c' => pp = payload_pair <$> pairs t !! (x :: key) /\
    rocksdb_rel (S n) c' (mk_kv_spec (<[x :: key := mk_kv_pair id payer v]> (pairs t)) next (open_iterators t) (read_value t) (usage t))).
Proof.
  intros Hr Hx Hkey Hv Hp Sk Sv. pose proof (raw_lookup _ c t x key Hr Hx Hkey) as El. apply returns_or_abort.
  eapply wp_seq; [by apply (read_returns c (raw_key x key)); [apply Hr|]|]. intros w c1 (s & -> & U & ->). rewrite El. pose proof (rel_keep (S n) (S n) c t s Hr U) as Hr1.
  eapply (wp_seq _ _ _ (fun pp c' => pp = payload_pair <$> pairs t !! (x :: key) /\ c' = with_session c s)).
  - destruct (pairs t !! (x :: key)) as [p|] eqn:Ep; cbn [fmap option_fmap option_map]; [|by apply wp_ret].
    destruct (kr_pair _ _ (rr_pairs _ _ _ Hr) _ _ Ep) as (? & ? & [= <- <-] & _ & _ & _ & Hp' & Sv'). rewrite raw_value_payload by done. apply wp_lift; [done|].
    intros pp [= <-]. by apply wp_ret.
  - intros pp c2 [-> ->]. destruct Hkey as [Hkey _]. destruct Hv as [_ Sv2]. rewrite (as_payload_raw v payer id).
    eapply wp_seq; [apply on_session_returns, session_write_ok; [apply Hr1|done|apply raw_value_ne]|]. intros _ c3 (s3 & -> & O3 & M3 & _). apply wp_ret. split; [done|].
    destruct Hr1 as [H1 H2 H3 H4 H5]. split; try done. cbn [rk_session with_session pairs] in *. rewrite M3. by apply related_insert.
Qed.

Lemma rocksdb_set_sim (n : nat) c t (x : Z) (key v : list Z) (payer : Z) : rocksdb_rel (S n) c t -> fits 64 x -> bytes_ok key -> bytes_ok v -> fits 64 payer ->
  agree (rocksdb_set receiver rm limits x key v payer) (spec_set receiver rm limits x key v payer) c t (post n False c t (fun x y _ _ => x = y)).
Proof.
  intros Hr Hx Hkey Hv Hp. unfold rocksdb_set, spec_set. pose proof Hkey as [_ Skey]. pose proof Hv as [_ Sv]. rewrite !size32_bytes by done.
  apply agree_check. intros _. apply agree_check. intros Lk%Z.leb_le. apply agree_check. intros Lv%Z.leb_le. eapply agree_left_eq; [reflexivity|]. eapply agree_right_eq; [reflexivity|].
  set (c1 := mk_rocksdb_kv _ _ _ _ _). set (t1 := mk_kv_spec _ _ _ _ _). assert (Hr1 : rocksdb_rel (S n) c1 t1) by by destruct Hr.
  eapply agree_right_eq; [reflexivity|]. cbv zeta.
  set (p' := from_option p_id (next_pair t1) (pairs t1 !! (x :: key))). set (next' := if pairs t1 !! (x :: key) then next_pair t1 else next_pair t1 + 1).
  eapply agree_left; [apply (set_returns n c1 t1 x key v payer p' next'); [done..|lia|lia]|]. intros pp c2 [-> Hr2]. subst p' next'.
  destruct (pairs t1 !! (x :: key)) as [p|] eqn:Ep; cbn [fmap option_fmap option_map from_option] in *; by eapply usage_then_pairs.
Qed.

Lemma rocksdb_get_sim (n : nat) c t (x : Z) (key : list Z) : rocksdb_rel (S n) c t -> fits 64 x -> bytes_ok key ->
  agree (rocksdb_get x key) (spec_get x key) c t (post n True c t (fun x y _ _ => x = y)).
Proof.
  intros Hr Hx Hkey. unfold rocksdb_get, spec_get. eapply agree_left_eq; [reflexivity|]. set (c1 := mk_rocksdb_kv _ _ _ _ _). cbv zeta.
  eapply agree_right_eq; [reflexivity|]. cbv zeta. eapply agree_right_eq; [reflexivity|].
  eapply agree_left; [apply returns_or_abort, (read_returns c1 (raw_key x key)); [apply Hr|done]|]. intros v c2 (s & -> & U & ->). change (rk_session c1) with (rk_session c).
  rewrite (raw_lookup _ c t x key Hr Hx Hkey). eapply agree_left_eq; [reflexivity|].
  assert (Hpost : forall w, buffer_related (raw_value <$> w) (p_value <$> w) -> forall a : bool * Z, post n True c t (fun x y _ _ => x = y) a a
    (mk_rocksdb_kv s (rk_num_iterators c) (raw_key x key) (raw_value <$> w) (rk_resources c)) (mk_kv_spec (pairs t) (next_pair t) (open_iterators t) (p_value <$> w) (usage t))).
  { intros w Hw a. split; [done|]. split; [|intros _ i j; by apply rel_it_keep]. destruct (rel_keep (S n) n c t s Hr U). by split. }
  destruct (pairs t !! (x :: key)) as [p|] eqn:Ep; cbn [fmap option_fmap option_map].
  - destruct (kr_pair _ _ (rr_pairs _ _ _ Hr) _ _ Ep) as (? & ? & [= <- <-] & _ & _ & _ & Hp & Sv). rewrite raw_value_size by done. eapply agree_left_eq; [reflexivity|]. apply agree_ret.
    apply (Hpost (Some p)). by exists p.
  - apply agree_ret. by apply (Hpost None).
Qed.

Lemma post_read {A} (n : nat) c t (s : session P) (a : A) : rocksdb_rel (S n) c t -> kept_session (rk_session c) s ->
  post n True c t (fun x y _ _ => x = y) a a (with_session c s) t.
Proof. intros Hr U. split; [done|]. split; [by eapply rel_keep|]. intros _ i j. by apply rel_it_keep. Qed.
Lemma rocks_post_same {A} (n : nat) c t (a : A) : rocksdb_rel (S n) c t -> post n True c t (fun x y _ _ => x = y) a a c t.
Proof. intros Hr. destruct c as [s a1 a2 a3 a4]. apply (post_read n _ t s a Hr). apply kept_refl, Hr. Qed.

Lemma rocksdb_get_data_sim (n : nat) c t (offset size : Z) : rocksdb_rel (S n) c t ->
  agree (rocksdb_get_data offset size) (spec_get_data offset size) c t (post n True c t (fun x y _ _ => x = y)).
Proof.
  intros Hr. unfold rocksdb_get_data, spec_get_data. apply agree_get. pose proof (rr_buffer _ _ _ Hr) as Hb.
  destruct (rk_current_value c) as [v|], (read_value t) as [b|]; try done; [|by apply agree_ret, rocks_post_same]. destruct Hb as (q & -> & -> & Hp & Sv).
  rewrite raw_value_size by done. eapply agree_left_eq; [reflexivity|]. apply agree_ret. rewrite raw_value_start. by apply rocks_post_same.
Qed.

(** ** Making an iterator *)
Lemma lower_bound_returns c (k : list Z) : session_ok (rk_session c) -> fresh (rk_session c) -> k <> [] ->
  returns (on_session (lower_bound_iterator k)) c (fun r c' => exists s it, c' = with_session c s /\ kept_session (rk_session c) s /\ r = at_pos it /\
    session_valid s it /\ nearest_up (fun x => is_Some (session_map (rk_session c) !! x) /\ k ≤ₖ x) it).
Proof.
  intros Hs Hf Hk. eapply wp_mono; [apply on_session_returns|].
  - unfold lower_bound_iterator. eapply wp_seq; [apply returns_kept; [apply kept_lower_bound|by apply session_lower_bound_ok]|]. intros it s ((U & V & N) & F).
    apply wp_get, wp_ret. instantiate (1 := fun r s => exists it, kept_session (rk_session c) s /\ r = at_pos it /\ session_valid s it /\
      nearest_up (fun x => is_Some (session_map (rk_session c) !! x) /\ k ≤ₖ x) it).
    exists it. split_and!; [done| |done|done]. unfold at_pos, version_of. f_equal. destruct it as [x|]; [|done]. destruct V as (d & Ed & Hd). cbn. rewrite Ed. by apply (F Hf x d).
  - intros r c' (s & -> & it & H). by exists s, it.
Qed.

Lemma rocksdb_create_sim (n : nat) c t (x : Z) (p : list Z) : rocksdb_rel (S n) c t -> fresh (rk_session c) -> fits 64 x -> bytes_ok p ->
  agree (rocksdb_it_create limits x p) (spec_it_create limits x p) c t (post n True c t (fun i j c' t' => rocksdb_rel_it c' t' i j)).
Proof.
  intros Hr Hf Hx [Hp Sp]. unfold rocksdb_it_create, spec_it_create. apply agree_get. rewrite (rr_iterators _ _ _ Hr), size32_bytes by done.
  do 2 (apply agree_check; intros _). eapply agree_right_eq; [reflexivity|]. apply agree_or_abort; [by do 2 eexists|]. cbv zeta.
  destruct (next_prefix x p Hp) as (nxt & En & Hne & Hnext).
  eapply agree_left; [apply lower_bound_returns; [apply Hr|done|done]|]. intros ? ? (s1 & b & -> & U1 & -> & V1 & N1). rewrite En. eapply agree_left_eq; [reflexivity|].
  eapply agree_left; [apply lower_bound_returns; [apply U1|by apply U1|done]|]. intros ? ? (s2 & e & -> & U2 & -> & V2 & N2).
  eapply agree_left_eq; [reflexivity|]. apply agree_ret. cbn [rk_session with_session] in *. pose proof (kept_trans _ _ _ U1 U2) as U.
  destruct U1 as [(_ & M1 & _) F1]. destruct U2 as [(O2 & M2 & _ & _ & W2) F2]. change (session_map s1 = session_map (rk_session c)) in M1. change (session_map s2 = session_map s1) in M2.
  split; [|split].
  - split; cbn [it_contract it_prefix it_at kv_contract kv_prefix kv_begin kv_end kv_current rk_session]; [by apply U|done|done| | |done].
    + exists b. rewrite M2, M1. split_and!; [done| |done]. by apply W2.
    + exists e, nxt. by rewrite M2.
  - destruct (rel_keep (S n) n c t s2 Hr U) as [H1 H2 H3 H4 H5]. split; try done. cbn [open_iterators rk_num_iterators with_session]. by rewrite (rr_iterators _ _ _ Hr).
  - intros _ i j. by apply rel_it_keep.
Qed.

(** ** Where an iterator is *)
Lemma not_deleted (n : nat) c t i j : rocksdb_rel n c t -> rocksdb_rel_it c t i j -> iterator_deleted (rk_session c) (kv_current i) = false.
Proof.
  intros Hr Hi. assert (Hpos : exists it, kv_current i = at_pos it /\ session_valid (rk_session c) it).
  { pose proof (ri_current _ _ _ _ Hi) as Hc. destruct (it_at j) as [[id key]|]; [destruct Hc as (-> & V & _); by eexists|]. destruct (ri_end _ _ _ _ Hi) as (e & m & E & V & _). exists e. by rewrite Hc, E. }
  destruct Hpos as (it & -> & V). unfold iterator_deleted, at_pos. cbn [m_active_iterator m_iterator_version]. destruct it as [k|]; [|done]. destruct V as (d & Ed & Hd).
  by rewrite Ed, Hd, (ri_fresh _ _ _ _ Hi k d Ed Hd).
Qed.

Lemma check_not_deleted_eq (n : nat) c t i j : rocksdb_rel n c t -> rocksdb_rel_it c t i j -> check_not_deleted i c = (c, Ok tt).
Proof. intros Hr Hi. unfold check_not_deleted. rewrite get_bind, (not_deleted n c t i j) by done. done. Qed.

(** The facts of an iterator that the searches use *)
Lemma iterator_range (n : nat) c t i j : rocksdb_rel n c t -> rocksdb_rel_it c t i j -> exists nxt e,
  kv_end i = at_pos e /\ session_valid (rk_session c) e /\ nearest_up (fun y => is_Some (session_map (rk_session c) !! y) /\ nxt ≤ₖ y) e /\
  (forall a, Forall byte_ok a -> make_prefix_key (kv_contract i) (it_prefix j) `prefix_of` a <-> make_prefix_key (kv_contract i) (it_prefix j) ≤ₖ a /\ a <ₖ nxt).
Proof.
  intros Hr Hi. destruct (ri_end _ _ _ _ Hi) as (e & nxt & E & V & En & N). destruct (ri_prefix _ _ _ _ Hi) as [Ep Hp]. rewrite Ep in En.
  destruct (next_prefix (kv_contract i) (it_prefix j) Hp) as (nxt' & En' & _ & H). rewrite En in En'. injection En' as <-. by exists nxt, e.
Qed.

Definition at_end c t i j : Prop := it_at j = None /\ spec_current j t = (t, Ok None) /\ status c i = iterator_end /\ kv_current i = kv_end i.
Definition at_key_of c t i j (key : list Z) (p : kv_pair) : Prop :=
  it_at j = Some (p_id p, key) /\ spec_current j t = (t, Ok (Some (key, p))) /\ status c i = iterator_ok /\
  kv_current i = at_pos (Some (raw_key (kv_contract i) key)) /\ pairs t !! (kv_contract i :: key) = Some p /\ current_second c i = Some (raw_value p) /\
  kv_contract i :: it_prefix j `prefix_of` kv_contract i :: key /\ session_valid (rk_session c) (Some (raw_key (kv_contract i) key)).

Lemma pair_at_key (n : nat) c t i j (nxt : list Z) (e : iterator) (key : list Z) (p : kv_pair) :
  rocksdb_rel n c t -> (forall a, Forall byte_ok a -> make_prefix_key (kv_contract i) (it_prefix j) `prefix_of` a <-> make_prefix_key (kv_contract i) (it_prefix j) ≤ₖ a /\ a <ₖ nxt) ->
  nearest_up (fun y => is_Some (session_map (rk_session c) !! y) /\ nxt ≤ₖ y) e -> pairs t !! (kv_contract i :: key) = Some p ->
  kv_contract i :: it_prefix j `prefix_of` kv_contract i :: key -> session_valid (rk_session c) (Some (raw_key (kv_contract i) key)) ->
  e <> Some (raw_key (kv_contract i) key) /\ session_deref (rk_session c) (Some (raw_key (kv_contract i) key)) = Some (raw_value p).
Proof.
  intros Hr Hnext N Hp Hpre V. destruct (kr_pair _ _ (rr_pairs _ _ _ Hr) _ _ Hp) as (? & ? & [= <- <-] & Hx & Hb & _). split.
  - intros ->. destruct (pair_related _ _ (kv_contract i) (it_prefix j) key (rr_pairs _ _ _ Hr)) as [H1 H2]; [by eexists|done|].
    apply (Hnext _ (kr_bytes _ _ (rr_pairs _ _ _ Hr) _ H1)) in H2 as [_ H2]. destruct N as [[_ N] _]. key_order.
  - destruct (session_deref_ok (rk_session c) _ (rr_session _ _ _ Hr) V) as [-> _]. cbn [mbind option_bind]. rewrite (kr_lookup _ _ (rr_pairs _ _ _ Hr) _ _ Hx Hb), Hp. done.
Qed.

Lemma current_cases (n : nat) c t i j : rocksdb_rel n c t -> rocksdb_rel_it c t i j -> at_end c t i j \/ exists key p, at_key_of c t i j key p.
Proof.
  intros Hr Hi. destruct (iterator_range n c t i j Hr Hi) as (nxt & e & Ee & Ve & Ne & Hnext). pose proof (ri_current _ _ _ _ Hi) as Hc. destruct (ri_contract _ _ _ _ Hi) as [Ec Hx].
  destruct (it_at j) as [[id key]|] eqn:Eat.
  - right. destruct Hc as (Ek & V & Hpre & p & Hp & <-). exists key, p. destruct (pair_at_key n c t i j nxt e key p Hr Hnext Ne Hp Hpre V) as [Hne Hd].
    assert (Esp : spec_pair t j = Some (key, p)) by (unfold spec_pair; rewrite Eat; cbn [mbind option_bind]; rewrite Ec, Hp; cbn; by rewrite Z.eqb_refl).
    unfold at_key_of. split_and!; try done.
    + unfold spec_current. rewrite get_bind. unfold spec_status. by rewrite Eat, Esp.
    + unfold status, iterator_eq. rewrite Ee, Ek. cbn [m_active_iterator at_pos]. rewrite bool_decide_false by done. rewrite <- Ek, (not_deleted n c t i j) by done. done.
    + unfold current_second. by rewrite Ek.
  - left. split_and!; [done| | |done].
    + unfold spec_current. rewrite get_bind. unfold spec_status, spec_pair. by rewrite Eat.
    + unfold status, iterator_eq. rewrite Hc. by rewrite bool_decide_true.
Qed.

(** ** Where an iterator goes *)
Lemma arrive_sim (n : nat) c t i j c0 (it sp : option (list Z)) (e : iterator) :
  rocksdb_rel (S n) c t -> rocksdb_rel_it c t i j -> kept_session (rk_session c0) (rk_session c) -> rocksdb_rel (S n) c0 t ->
  kv_end i = at_pos e -> session_valid (rk_session c) it ->
  (forall k, sp = Some k -> is_Some (selected t j !! k)) -> placed (kv_contract i) e sp it ->
  agree (arrive_at i (at_pos it)) (arrive j sp) c t (post n True c0 t (same_move rocksdb_rel_it)).
Proof.
  intros Hr Hi U Hr0 Ee V Hsel Hpl. destruct (iterator_range _ c t i j Hr Hi) as (nxt & e' & Ee' & Ve & Ne & Hnext). rewrite Ee in Ee'. injection Ee' as <-.
  assert (Hend : forall r : option (Z * list Z) * (kv_it_stat * Z * Z), rocksdb_rel_it c t (set_kv_current i (at_pos it)) (place j r.1) -> post n True c0 t (same_move rocksdb_rel_it) (set_kv_current i (at_pos it), r.2) (place j r.1, r.2) c t).
  { intros r H. split; [done|]. split; [by eapply rel_weaken|]. intros _ i' j'. by apply rel_it_keep. }
  unfold arrive_at, arrive. cbv zeta. eapply agree_right_eq; [reflexivity|]. destruct sp as [k|]; simpl in Hpl.
  - destruct Hpl as (key & -> & ->). destruct (Hsel _ eq_refl) as [p Hp]. apply map_lookup_filter_Some in Hp as [Hp Hpre]. simpl in Hpre. destruct (ri_contract _ _ _ _ Hi) as [Ec Hx].
    rewrite Ec in Hpre. cbn [mbind option_bind]. rewrite Hp. cbn [mbind option_bind tail].
    destruct (pair_at_key _ c t i j nxt e key p Hr Hnext Ne Hp Hpre V) as [Hne Hd]. destruct (kr_pair _ _ (rr_pairs _ _ _ Hr) _ _ Hp) as (? & ? & [= <- <-] & _ & Hb & Sk & Hpay & Sv).
    assert (Hi' : rocksdb_rel_it c t (set_kv_current i (at_pos (Some (raw_key (kv_contract i) key)))) (place j (Some (p_id p, key)))).
    { destruct Hi as [H1 H2 H3 H4 H5 H6]. split; try done. cbn. split_and!; [done|done|done|]. by exists p. }
    assert (Es : status c (set_kv_current i (at_pos (Some (raw_key (kv_contract i) key)))) = iterator_ok).
    { destruct (current_cases _ _ _ _ _ Hr Hi') as [(Ea & _)|(key' & p' & _ & _ & -> & _)]; [|done]. done. }
    unfold get_current_key_value_sizes. eapply agree_left_eq; [|apply agree_ret, (Hend (Some (p_id p, key), (iterator_ok, size_of key, size_of (p_value p)))); exact Hi'].
    rewrite get_bind, Es. unfold current_second. cbn [kv_current set_kv_current m_active_iterator at_pos iterator_key]. rewrite Hd, ret_bind, raw_value_size, lift_bind by done.
    unfold iterator_key. change (key_of (m_active_iterator (at_pos (Some (raw_key (kv_contract i) key))))) with (raw_key (kv_contract i) key). by rewrite raw_key_actual.
  - subst it. cbn [mbind option_bind]. assert (Hi' : rocksdb_rel_it c t (set_kv_current i (at_pos e)) (place j None)).
    { destruct Hi as [H1 H2 H3 H4 H5 H6]. split; try done. }
    unfold get_current_key_value_sizes. eapply agree_left_eq; [|apply agree_ret, (Hend (None, (iterator_end, 0, 0))); exact Hi'].
    rewrite get_bind. unfold status, iterator_eq. cbn [kv_current kv_end set_kv_current]. rewrite Ee, bool_decide_true by done. done.
Qed.

Lemma increment_returns c (k : list Z) : session_ok (rk_session c) -> session_valid (rk_session c) (Some k) ->
  returns (on_session (increment (at_pos (Some k)))) c (fun r c' => exists s it, c' = with_session c s /\ kept_session (rk_session c) s /\ r = at_pos it /\
    session_valid s it /\ nearest_up (fun y => is_Some (session_map (rk_session c) !! y) /\ k <ₖ y) it).
Proof.
  intros Hs V. eapply wp_mono; [apply on_session_returns|].
  - unfold increment. eapply wp_seq; [apply returns_kept; [apply kept_move_next|by apply move_next_ok]|]. intros it s ((U & V' & N) & F). apply wp_ret.
    instantiate (1 := fun r s => exists it, kept_session (rk_session c) s /\ r = at_pos it /\ session_valid s it /\ nearest_up (fun y => is_Some (session_map (rk_session c) !! y) /\ k <ₖ y) it).
    by exists it.
  - intros r c' (s & -> & it & H). by exists s, it.
Qed.
Lemma decrement_returns c (it0 : iterator) : session_ok (rk_session c) -> session_valid (rk_session c) it0 ->
  returns (on_session (decrement (at_pos it0))) c (fun r c' => exists s it, c' = with_session c s /\ kept_session (rk_session c) s /\ r = at_pos it /\
    session_valid s it /\ nearest_down (fun y => is_Some (session_map (rk_session c) !! y) /\ below it0 y) it).
Proof.
  intros Hs V. eapply wp_mono; [apply on_session_returns|].
  - unfold decrement. eapply wp_seq; [apply returns_kept; [apply kept_move_previous|by apply move_previous_ok]|]. intros it s ((U & V' & N) & F). apply wp_ret.
    instantiate (1 := fun r s => exists it, kept_session (rk_session c) s /\ r = at_pos it /\ session_valid s it /\ nearest_down (fun y => is_Some (session_map (rk_session c) !! y) /\ below it0 y) it).
    by exists it.
  - intros r c' (s & -> & it & H). by exists s, it.
Qed.

(** The moved iterator, after a step of the session *)
Lemma arrive_after (n : nat) c t i j (s : session P) (it sp : option (list Z)) (e : iterator) :
  rocksdb_rel (S n) c t -> rocksdb_rel_it c t i j -> kept_session (rk_session c) s -> kv_end i = at_pos e -> session_valid s it ->
  (forall k, sp = Some k -> is_Some (selected t j !! k)) -> placed (kv_contract i) e sp it ->
  agree (arrive_at i (at_pos it)) (arrive j sp) (with_session c s) t (post n True c t (same_move rocksdb_rel_it)).
Proof.
  intros Hr Hi U Ee V Hsel Hpl. apply (arrive_sim n (with_session c s) t i j c it sp e); [by eapply rel_keep|by eapply rel_it_keep|done|done|done|done|done|done].
Qed.

Lemma selected_up j t (Q : list Z -> Prop) (sp : option (list Z)) : nearest_up (fun y => is_Some (selected t j !! y) /\ Q y) sp -> forall k, sp = Some k -> is_Some (selected t j !! k).
Proof. intros H k ->. by destruct H as [[? _] _]. Qed.
Lemma selected_down j t (Q : list Z -> Prop) (sp : option (list Z)) : nearest_down (fun y => is_Some (selected t j !! y) /\ Q y) sp -> forall k, sp = Some k -> is_Some (selected t j !! k).
Proof. intros H k ->. by destruct H as [[? _] _]. Qed.

Lemma rocksdb_next_sim (n : nat) c t i j : rocksdb_rel (S n) c t -> rocksdb_rel_it c t i j ->
  agree (rocksdb_it_next i) (spec_it_next j) c t (post n True c t (same_move rocksdb_rel_it)).
Proof.
  intros Hr Hi. unfold rocksdb_it_next, spec_it_next. eapply agree_left_eq; [by eapply check_not_deleted_eq|].
  destruct (iterator_range _ c t i j Hr Hi) as (nxt & e & Ee & Ve & Ne & Hnext). destruct (ri_contract _ _ _ _ Hi) as [Ec Hx]. destruct (ri_prefix _ _ _ _ Hi) as [Ep Hpb].
  destruct (current_cases _ c t i j Hr Hi) as [(Ea & Esc & Es & Ek)|(key & p & Ea & Esc & Es & Ek & Hp & Hd & Hpre & V)].
  - eapply agree_right_eq; [exact Esc|]. eapply agree_right_eq; [reflexivity|]. apply agree_or_abort; [by do 2 eexists|].
    unfold iterator_eq at 1. rewrite Ek, bool_decide_true by done. destruct (ri_begin _ _ _ _ Hi) as (b & Eb & Vb & Nb). eapply agree_left_eq; [reflexivity|]. rewrite Eb.
    assert (Hsp : nearest_up (fun y => is_Some (selected t j !! y) /\ True) (key_first (selected t j))) by (eapply nearest_up_iff; [|apply key_first_spec]; intros y; cbv beta; tauto).
    apply (arrive_sim n c t i j c b _ e); [done|done|apply kept_refl, Hr|done|done|done|exact (selected_up _ _ _ _ Hsp)|].
    unfold selected in Hsp |- *. rewrite Ec in Hsp |- *. rewrite Ep in Nb. eapply (locate_up _ _ _ _ nxt e (rr_pairs _ _ _ Hr) Hx Hnext Ne _ (fun _ => True)); [exact Nb|done| |intros key _ Hk; split; [done|]; intros _; by apply prefix_le, prefix_of_raw|exact Hsp].
    intros y Hy. cbv beta. pose proof (Hnext _ (prefix_key_bytes (kv_contract i) _ Hpb)) as Hself. destruct (proj1 Hself (reflexivity _)) as [_ ?]. key_order.
  - eapply agree_right_eq; [exact Esc|]. eapply agree_right_eq; [reflexivity|]. apply agree_or_abort; [by do 2 eexists|].
    destruct (pair_at_key _ c t i j nxt e key p Hr Hnext Ne Hp Hpre V) as [Hne _]. unfold iterator_eq at 1. rewrite Ek, Ee. cbn [m_active_iterator at_pos].
    rewrite bool_decide_false by done. eapply agree_left; [apply increment_returns; [apply Hr|done]|]. intros ? ? (s & it & -> & U & -> & V' & N).
    pose proof (key_after_spec (selected t j) (kv_contract i :: key)) as Hsp. rewrite Ec.
    apply (arrive_after n c t i j s it _ e); [done|done|done|done|done|exact (selected_up _ _ _ _ Hsp)|].
    unfold selected in Hsp |- *. rewrite Ec in Hsp |- *. destruct (kr_pair _ _ (rr_pairs _ _ _ Hr) _ _ Hp) as (? & ? & [= <- <-] & _ & Hb & _).
    destruct (pair_related _ _ (kv_contract i) (it_prefix j) key (rr_pairs _ _ _ Hr)) as [H1 H2]; [by eexists|done|].
    apply (Hnext _ (kr_bytes _ _ (rr_pairs _ _ _ Hr) _ H1)) in H2 as [Hlo Hhi].
    eapply (locate_up _ _ _ _ nxt e (rr_pairs _ _ _ Hr) Hx Hnext Ne); [exact N|intros y Hy; key_order|intros y Hy; key_order| |exact Hsp].
    intros key' _ _. apply raw_key_lt.
Qed.

Lemma rocksdb_lower_bound_sim (n : nat) c t i j (key : list Z) : rocksdb_rel (S n) c t -> rocksdb_rel_it c t i j -> may_search rocksdb_conditions i key -> Forall byte_ok key ->
  agree (rocksdb_it_lower_bound i key) (spec_it_lower_bound j key) c t (post n True c t (same_move rocksdb_rel_it)).
Proof.
  intros Hr Hi Hsearch Hkey. cbn [may_search rocksdb_conditions] in Hsearch. unfold rocksdb_it_lower_bound, spec_it_lower_bound. change (make_composite_key (kv_contract i) [] key) with (raw_key (kv_contract i) key) in *.
  destruct (iterator_range _ c t i j Hr Hi) as (nxt & e & Ee & Ve & Ne & Hnext). destruct (ri_contract _ _ _ _ Hi) as [Ec Hx]. destruct (ri_prefix _ _ _ _ Hi) as [Ep Hpb].
  eapply agree_right_eq; [reflexivity|]. apply agree_or_abort; [by do 2 eexists|]. cbv zeta. rewrite Ep in *. set (pre := make_prefix_key (kv_contract i) (it_prefix j)) in *.
  set (from := if bool_decide (raw_key (kv_contract i) key <ₖ pre) then pre else raw_key (kv_contract i) key).
  assert (Hfrom : from <> [] /\ pre ≤ₖ from /\ raw_key (kv_contract i) key ≤ₖ from /\ (from = pre \/ from = raw_key (kv_contract i) key)).
  { subst from. case_bool_decide; split_and!; auto; key_order. }
  destruct Hfrom as (Hne & Hf1 & Hf2 & Hf3). assert (Hself : pre <ₖ nxt) by (apply (Hnext _ (prefix_key_bytes _ _ Hpb)); reflexivity).
  assert (Hf4 : from <ₖ nxt).
  { destruct Hf3 as [-> | ->]; [done|]. destruct Hsearch as [H|H]; [key_order|]. apply (Hnext (raw_key (kv_contract i) key)); [|done]. rewrite raw_key_eq. apply Forall_app. split; [by apply prefix_key_bytes|done]. }
  eapply agree_left; [apply lower_bound_returns; [apply Hr|apply Hi|done]|]. intros ? ? (s & it & -> & U & -> & V & N).
  pose proof (key_from_spec (selected t j) (it_contract j :: key)) as Hsp.
  apply (arrive_after n c t i j s it _ e); [done|done|done|done|done|exact (selected_up _ _ _ _ Hsp)|].
  unfold selected in Hsp |- *. rewrite Ec in Hsp |- *.
  eapply (locate_up _ _ _ _ nxt e (rr_pairs _ _ _ Hr) Hx Hnext Ne); [exact N|intros y Hy; key_order|intros y Hy; key_order| |exact Hsp].
  intros key' _ Hk'. cbv beta. rewrite <- raw_key_le. assert (pre ≤ₖ raw_key (kv_contract i) key') by by apply prefix_le, prefix_of_raw. destruct Hf3 as [E|E]; rewrite E in *; split; intros; key_order.
Qed.

(** A step back from the position [cur]; the search of the specification selects the keys in [Q]. *)
Lemma step_back (n : nat) c t i j (b cur e sp : option (list Z)) (nxt : list Z) (Q : list Z -> Prop) :
  rocksdb_rel (S n) c t -> rocksdb_rel_it c t i j -> kv_current i = at_pos cur -> session_valid (rk_session c) cur -> kv_begin i = at_pos b -> kv_end i = at_pos e ->
  nearest_up (fun y => is_Some (session_map (rk_session c) !! y) /\ make_prefix_key (kv_contract i) (it_prefix j) ≤ₖ y) b ->
  nearest_up (fun y => is_Some (session_map (rk_session c) !! y) /\ nxt ≤ₖ y) e -> session_valid (rk_session c) e ->
  (forall a, Forall byte_ok a -> make_prefix_key (kv_contract i) (it_prefix j) `prefix_of` a <-> make_prefix_key (kv_contract i) (it_prefix j) ≤ₖ a /\ a <ₖ nxt) ->
  nearest_down (fun y => is_Some (selected t j !! y) /\ Q y) sp ->
  (forall key, is_Some (session_map (rk_session c) !! raw_key (kv_contract i) key) -> kv_contract i :: it_prefix j `prefix_of` kv_contract i :: key ->
    below cur (raw_key (kv_contract i) key) <-> Q (kv_contract i :: key)) ->
  (forall y, is_Some (session_map (rk_session c) !! y) -> below cur y -> y <ₖ nxt) ->
  (forall k, cur = Some k -> is_Some (session_map (rk_session c) !! k) /\ make_prefix_key (kv_contract i) (it_prefix j) ≤ₖ k) ->
  agree (or_abort (it ← (if iterator_eq (kv_current i) (kv_begin i) then mret (kv_end i) else on_session (decrement (kv_current i))); arrive_at i it)) (arrive j sp) c t
    (post n True c t (same_move rocksdb_rel_it)).
Proof.
  intros Hr Hi Ek Vc Eb Ee Nb Ne Ve Hnext Hsp HQ Hbelow Hat. destruct (ri_contract _ _ _ _ Hi) as [Ec Hx]. apply agree_or_abort; [by do 2 eexists|].
  assert (Hsel : selected t j = with_prefix (kv_contract i :: it_prefix j) (pairs t)) by (unfold selected; by rewrite Ec).
  unfold iterator_eq. rewrite Ek, Eb, Ee. cbn [m_active_iterator at_pos]. case_bool_decide as Hcb.
  - assert (sp = None) as ->.
    { destruct sp as [k|]; [|done]. destruct Hsp as [[Hk Qk] _]. rewrite Hsel in Hk. destruct (pair_range _ _ _ _ nxt (rr_pairs _ _ _ Hr) Hnext k Hk) as (key & -> & Hs & Hlo & Hhi & Hpre).
      apply (HQ key Hs Hpre) in Qk. subst cur. destruct b as [k|]; simpl in *; [|by destruct (Nb (raw_key (kv_contract i) key))]. destruct Nb as [_ Nb]. specialize (Nb _ (conj Hs Hlo)). key_order. }
    eapply agree_left_eq; [reflexivity|]. by apply (arrive_sim n c t i j c e None e); [..|apply kept_refl, Hr| | | | |].
  - assert (Hb : exists k, b = Some k /\ below cur k).
    { destruct cur as [k|].
      - destruct (Hat k eq_refl) as [Hk Hpk]. destruct b as [k'|]; [|by destruct (Nb k)]. exists k'. split; [done|]. destruct Nb as [_ Nb]. specialize (Nb k (conj Hk Hpk)). simpl.
        destruct (key_cases k' k) as [?|[->|?]]; [done|congruence|key_order].
      - destruct b as [k'|]; [|done]. by exists k'. }
    destruct Hb as (k & -> & Hbk). destruct Nb as [[Hbs Hbp] _]. eapply agree_left; [apply decrement_returns; [apply Hr|done]|]. intros ? ? (s & it & -> & U & -> & V & N).
    assert (Hloc : exists key, sp = Some (kv_contract i :: key) /\ it = Some (raw_key (kv_contract i) key)).
    { pose proof Hsp as Hsp'. rewrite Hsel in Hsp'. by eapply (locate_down _ _ _ _ nxt (rr_pairs _ _ _ Hr) Hx Hnext _ Q it sp k); [exact N| | | | | |]. }
    destruct Hloc as (key & Esp & ->). apply (arrive_after n c t i j s _ sp e); [done|done|done|done|done|exact (selected_down _ _ _ _ Hsp)|]. rewrite Esp. by exists key.
Qed.

Lemma rocksdb_prev_sim (n : nat) c t i j : rocksdb_rel (S n) c t -> rocksdb_rel_it c t i j ->
  agree (rocksdb_it_prev i) (spec_it_prev j) c t (post n True c t (same_move rocksdb_rel_it)).
Proof.
  intros Hr Hi. unfold rocksdb_it_prev, spec_it_prev. eapply agree_left_eq; [by eapply check_not_deleted_eq|].
  destruct (iterator_range _ c t i j Hr Hi) as (nxt & e & Ee & Ve & Ne & Hnext). destruct (ri_contract _ _ _ _ Hi) as [Ec Hx]. destruct (ri_prefix _ _ _ _ Hi) as [Ep Hpb].
  destruct (ri_begin _ _ _ _ Hi) as (b & Eb & Vb & Nb). rewrite Ep in Nb. assert (Hself : make_prefix_key (kv_contract i) (it_prefix j) <ₖ nxt) by (apply (Hnext _ (prefix_key_bytes _ _ Hpb)); reflexivity).
  destruct (current_cases _ c t i j Hr Hi) as [(Ea & Esc & Es & Ek)|(key & p & Ea & Esc & Es & Ek & Hp & Hd & Hpre & V)]; (eapply agree_right_eq; [exact Esc|]); (eapply agree_right_eq; [reflexivity|]).
  - apply (step_back n c t i j b e e _ nxt (fun _ => True)); try done; [by rewrite Ek|eapply nearest_down_iff; [|apply key_last_spec]; intros y; cbv beta; tauto| | |].
    + intros key Hs Hpre. split; [done|]. intros _. apply prefix_of_raw in Hpre. apply (Hnext _ (kr_bytes _ _ (rr_pairs _ _ _ Hr) _ Hs)) in Hpre as [_ Hpre]. destruct e as [k|]; [|done]. destruct Ne as [[_ ?] _]. simpl. key_order.
    + intros y Hy Hbl. apply key_lt_le. intros Hny. destruct e as [k|]; [|by destruct (Ne y)]. destruct Ne as [_ Ne]. specialize (Ne y (conj Hy Hny)). simpl in Hbl. key_order.
    + intros k ->. destruct Ne as [[? ?] _]. split; [done|]. key_order.
  - destruct (pair_related _ _ (kv_contract i) (it_prefix j) key (rr_pairs _ _ _ Hr)) as [H1 H2]; [by eexists|done|]. apply (Hnext _ (kr_bytes _ _ (rr_pairs _ _ _ Hr) _ H1)) in H2 as [Hlo Hhi].
    rewrite Ec. apply (step_back n c t i j b (Some (raw_key (kv_contract i) key)) e _ nxt (fun y => y <ₖ kv_contract i :: key)); try done; [apply key_before_spec|..].
    + intros key' _ _. apply raw_key_lt.
    + intros y _ Hbl. simpl in Hbl. key_order.
    + intros k [= <-]. done.
Qed.

(** ** Reading an iterator *)
Lemma compare_bytes_lex (a b : list Z) : compare_bytes a b = sign (lex a b).
Proof.
  unfold compare_bytes. destruct (key_cases a b) as [H|[->|H]].
  - rewrite bool_decide_true by done. by rewrite H.
  - rewrite !bool_decide_false by key_order. by rewrite lex_refl.
  - rewrite bool_decide_false, bool_decide_true by key_order. by rewrite (proj2 (lex_gt a b) H).
Qed.
Lemma compare_raw (x : Z) (a b : list Z) : compare_bytes (raw_key x a) (raw_key x b) = sign (lex a b).
Proof. by rewrite compare_bytes_lex, (raw_key_eq x a), (raw_key_eq x b), lex_app_same. Qed.

(** An operation that reads an iterator: what it gives at the end, and at a key *)
Lemma read_sim {A} (n : nat) c t i j (m : M (rocksdb_kv P R) A) (g : option (list Z * kv_pair) -> A) :
  rocksdb_rel (S n) c t -> rocksdb_rel_it c t i j -> (at_end c t i j -> m c = (c, Ok (g None))) ->
  (forall key p, at_key_of c t i j key p -> m c = (c, Ok (g (Some (key, p))))) ->
  agree (_ ← check_not_deleted i; m) (a ← spec_current j; mret (g a)) c t (post n True c t (fun x y _ _ => x = y)).
Proof.
  intros Hr Hi He Hk. eapply agree_left_eq; [by eapply check_not_deleted_eq|]. destruct (current_cases _ c t i j Hr Hi) as [H|(key & p & H)].
  - pose proof H as (_ & Esc & _). eapply agree_right_eq; [exact Esc|]. unfold agree. rewrite (He H). by apply rocks_post_same.
  - pose proof H as (_ & Esc & _). eapply agree_right_eq; [exact Esc|]. unfold agree. rewrite (Hk key p H). by apply rocks_post_same.
Qed.

Lemma pair_sizes (n : nat) c t (x : Z) (key : list Z) (p : kv_pair) : rocksdb_rel n c t -> pairs t !! (x :: key) = Some p ->
  size_of key < room_for_payer /\ size_of (p_value p) < room_for_payer.
Proof. intros Hr Hp. destruct (kr_pair _ _ (rr_pairs _ _ _ Hr) _ _ Hp) as (? & ? & [= <- <-] & _ & _ & ? & _ & ?). done. Qed.

Lemma rocksdb_key_sim (n : nat) c t i j (offset size : Z) : rocksdb_rel (S n) c t -> rocksdb_rel_it c t i j ->
  agree (rocksdb_it_key i offset size) (spec_it_bytes fst j offset size) c t (post n True c t (fun x y _ _ => x = y)).
Proof.
  intros Hr Hi. apply (read_sim n c t i j); [done|done|..].
  - intros (_ & _ & Es & _). rewrite get_bind, Es. done.
  - intros key p (_ & _ & Es & Ek & Hp & _). destruct (pair_sizes _ c t _ _ _ Hr Hp) as [Sk _]. rewrite get_bind, Es. cbv zeta. rewrite Ek.
    change (iterator_key (at_pos (Some (raw_key (kv_contract i) key)))) with (raw_key (kv_contract i) key). rewrite bool_decide_true by apply raw_key_ne.
    rewrite raw_key_actual, lift_bind, raw_key_start by done. done.
Qed.
Lemma rocksdb_value_sim (n : nat) c t i j (offset size : Z) : rocksdb_rel (S n) c t -> rocksdb_rel_it c t i j ->
  agree (rocksdb_it_value i offset size) (spec_it_bytes (fun a => p_value a.2) j offset size) c t (post n True c t (fun x y _ _ => x = y)).
Proof.
  intros Hr Hi. apply (read_sim n c t i j); [done|done|..].
  - intros (_ & _ & Es & _). rewrite get_bind, Es. done.
  - intros key p (_ & _ & Es & Ek & Hp & Hd & _). destruct (pair_sizes _ c t _ _ _ Hr Hp) as [_ Sv]. rewrite get_bind, Es, Hd, raw_value_size, lift_bind, raw_value_start by done. done.
Qed.
Lemma rocksdb_key_compare_sim (n : nat) c t i j (key : list Z) : rocksdb_rel (S n) c t -> rocksdb_rel_it c t i j ->
  agree (rocksdb_it_key_compare i key) (spec_it_key_compare j key) c t (post n True c t (fun x y _ _ => x = y)).
Proof.
  intros Hr Hi. apply (read_sim n c t i j _ (fun a => match a with None => 1 | Some a => sign (lex a.1 key) end)); [done|done|..].
  - intros (_ & _ & Es & _). rewrite get_bind, Es. done.
  - intros key' p (_ & _ & Es & Ek & _). rewrite get_bind, Es, Ek.
    change (iterator_key (at_pos (Some (raw_key (kv_contract i) key')))) with (raw_key (kv_contract i) key'). change (make_composite_key (kv_contract i) [] key) with (raw_key (kv_contract i) key).
    by rewrite compare_raw.
Qed.

Lemma rocksdb_status_sim (n : nat) c t i j : rocksdb_rel (S n) c t -> rocksdb_rel_it c t i j ->
  agree (rocksdb_it_status i) (spec_it_status j) c t (post n True c t (fun x y _ _ => x = y)).
Proof.
  intros Hr Hi. unfold rocksdb_it_status, spec_it_status. apply agree_get, agree_ret.
  destruct (current_cases _ c t i j Hr Hi) as [(Ea & _ & Es & _)|(key & p & Ea & _ & Es & _ & Hp & _)]; rewrite Es; unfold spec_status; rewrite Ea; [by apply rocks_post_same|].
  destruct (ri_contract _ _ _ _ Hi) as [Ec _]. unfold spec_pair. rewrite Ea. cbn [mbind option_bind]. rewrite Ec, Hp. cbn [mbind option_bind]. rewrite Z.eqb_refl. by apply rocks_post_same.
Qed.

Lemma rocksdb_compare_sim (n : nat) c t i j i' j' : rocksdb_rel (S n) c t -> rocksdb_rel_it c t i j -> rocksdb_rel_it c t i' j' -> may_compare rocksdb_conditions i i' ->
  agree (rocksdb_it_compare i i') (spec_it_compare j j') c t (post n True c t (fun x y _ _ => x = y)).
Proof.
  intros Hr Hi Hi' Hc. unfold rocksdb_it_compare, spec_it_compare. destruct (ri_contract _ _ _ _ Hi) as [Ec Hx], (ri_contract _ _ _ _ Hi') as [Ec' Hx']. rewrite Ec, Ec'.
  assert (Eb : bool_decide (kv_prefix i = kv_prefix i') = (kv_contract i =? kv_contract i')).
  { destruct (Z.eqb_spec (kv_contract i) (kv_contract i')) as [E|E]; [apply bool_decide_true; by apply Hc|]. apply bool_decide_false. intros Ep. apply E.
    destruct (ri_prefix _ _ _ _ Hi) as [Ep1 _], (ri_prefix _ _ _ _ Hi') as [Ep' _]. rewrite Ep1, Ep', !prefix_key_raw in Ep. by apply raw_key_inj in Ep as [? _]. }
  rewrite Eb. apply agree_check. intros Exx%Z.eqb_eq. eapply agree_left_eq; [by eapply check_not_deleted_eq|]. eapply agree_left_eq; [by eapply (check_not_deleted_eq _ _ _ i')|].
  eapply agree_left_eq; [reflexivity|].
  destruct (current_cases _ c t i j Hr Hi) as [(_ & Esc & Es & _)|(key & p & _ & Esc & Es & Ek & Hp & Hd & _)],
    (current_cases _ c t i' j' Hr Hi') as [(_ & Esc' & Es' & _)|(key' & p' & _ & Esc' & Es' & Ek' & Hp' & Hd' & _)]; rewrite Es, Es';
    (eapply agree_right_eq; [exact Esc|]); (eapply agree_right_eq; [exact Esc'|]); apply agree_ret; try by apply rocks_post_same.
  rewrite Ek, Ek'. cbv zeta. change (iterator_key (at_pos (Some (raw_key (kv_contract i) key)))) with (raw_key (kv_contract i) key).
  change (iterator_key (at_pos (Some (raw_key (kv_contract i') key')))) with (raw_key (kv_contract i') key'). rewrite <- Exx in *. rewrite compare_raw. cbn [fst].
  destruct (lex key key') eqn:El; [|by apply rocks_post_same..]. apply lex_eq in El as <-. rewrite Hd, Hd'. assert (p' = p) as -> by congruence.
  rewrite compare_bytes_lex, lex_refl. by apply rocks_post_same.
Qed.

Lemma count_rk_sim (n : nat) c t (d : Z) : rocksdb_rel (S n) c t -> agree (count_rk_iterators d) (set_open d) c t (post n True c t (fun x y _ _ => x = y)).
Proof.
  intros Hr. split; [done|]. split; [|intros _ i j; apply rel_it_keep; [apply kept_refl, Hr|done]]. destruct Hr as [H1 H2 H3 H4 H5]. split; try done. cbn. by rewrite H3.
Qed.

Lemma fits_bytes (b : list Z) : Forall (fits 8) b -> Forall byte_ok b.
Proof. done. Qed.

Lemma rocksdb_simulation :
  kv_simulation (C1 := rocksdb_context receiver rm limits) (C2 := spec_context receiver rm limits) rocksdb_conditions rocksdb_rel rocksdb_rel_it.
Proof.
  split; intros n c t; intros.
  - by apply rocksdb_erase_sim.
  - by apply rocksdb_set_sim.
  - by apply rocksdb_get_sim.
  - by apply rocksdb_get_data_sim.
  - by apply rocksdb_create_sim.
  - by apply count_rk_sim.
  - by apply rocksdb_status_sim.
  - by apply rocksdb_compare_sim.
  - by apply rocksdb_key_compare_sim.
  - match goal with H : rocksdb_rel_it _ _ _ _ |- _ => destruct H as [H1 H2 H3 H4 H5 H6] end. apply agree_ret. split; [by split|]. match goal with H : rocksdb_rel _ _ _ |- _ => exact (proj2 (rocks_post_same n c t tt H)) end.
  - by apply rocksdb_next_sim.
  - by apply rocksdb_prev_sim.
  - match goal with H : bytes_ok _ |- _ => destruct H as [H _] end. by apply rocksdb_lower_bound_sim.
  - by apply rocksdb_key_sim.
  - by apply rocksdb_value_sim.
Qed.
End rocksdb.
