(* ===== verification/KvContracts.v ===== *)
(** * The key-value database of contracts

    The calls of a contract on the two backing stores: the context on the database of the chain implements the specification
    ([chainbase_refines]), the two give the same results ([backing_stores_agree]), and the usage that they report adds up
    ([usage_adds_up]). Where the two differ: an iterator on a session that searches past its prefix, or whose end is a key that was written since, leaves its prefix
    ([search_past_prefix], [write_past_end]), a search past the last key of the session has no defined result ([search_past_last]), iterators with different prefixes
    are compared by one only ([compare_prefixes]), and a key that was erased and set again is taken for erased ([set_again_erased]). *)

From S2P Require Import Prelude Effects Lex SharedBytes Types Store Session SessionProofs SessionIterators SessionStore RocksSession KeyValueStore.
From S2P Require Import UndoIndex Database Parameters KvContext KvSpec KvChainbase KvChainbaseProofs KvRocksdb KvRocksdbProofs.

Section contracts.
Context {R : Type} (receiver : account_name) (rm : resource_manager R) (limits : kv_database_config).

(** The calls of an action of a contract, on a new context *)
Definition chainbase_calls (l : list kv_call) (u : undo_index kv_object) (r : R) : apply_kv (chainbase_kv R) kv_iterator_chainbase * result (list kv_result) :=
  kv_run (KvContext0 := chainbase_context receiver rm limits) l (kv_start false (create_kv_chainbase_context u r)).
Definition rocksdb_calls {P : Type} `{!Store P} (l : list kv_call) (s : session P) (r : R) : apply_kv (rocksdb_kv P R) kv_iterator_rocksdb * result (list kv_result) :=
  kv_run (KvContext0 := rocksdb_context receiver rm limits) l (kv_start false (create_kv_rocksdb_context s r)).
Definition spec_calls (l : list kv_call) (t : kv_spec R) : apply_kv (kv_spec R) spec_iterator * result (list kv_result) :=
  kv_run (KvContext0 := spec_context receiver rm limits) l (kv_start false t).

(** The objects of a database, and the pairs that they are *)
Definition objects_ok (u : undo_index kv_object) : Prop :=
  table_ok kv_keys kv_id u /\ forall p o, contents u !! p = Some o -> size_of (kv_key o) < 2 ^ 32 /\ size_of (kv_value o) < 2 ^ 32.
Definition object_pairs (u : undo_index kv_object) : gmap (list Z) kv_pair := pair_of <$> by_key (contents u).

Lemma objects_chainbase_ok (u : undo_index kv_object) (r : R) : objects_ok u -> chainbase_ok (create_kv_chainbase_context u r).
Proof. intros [H1 H2]. by split. Qed.

Lemma start_rel {S1 I1 S2 I2} (rel : nat -> S1 -> S2 -> Prop) (rel_it : S1 -> S2 -> I1 -> I2 -> Prop) (n : nat) (s1 : S1) (s2 : S2) :
  rel n s1 s2 -> apply_rel rel rel_it n (kv_start false s1) (kv_start false s2).
Proof. intros H. split; [done|]. split; [done|]. repeat constructor. Qed.

Lemma chainbase_calls_ok (l : list kv_call) a : calls_ok (C := chainbase_context receiver rm limits) chainbase_conditions l a.
Proof.
  revert a. induction l as [|c l IH]; intros a; simpl; [done|]. split.
  - destruct c; simpl; auto; [by destruct (kv_backing_store a)|..]; unfold with_iterator; repeat case_match; done.
  - destruct (kv_apply c a) as [a' [r|e]]; [apply IH|done].
Qed.

(** The specification starts with the pairs of the database. *)
Definition spec_of (u : undo_index kv_object) (r : R) : kv_spec R := mk_kv_spec (object_pairs u) (_next_id u) 0 None r.

Lemma chainbase_spec (l : list kv_call) (u : undo_index kv_object) (r : R) :
  objects_ok u -> room (Z.of_nat (length l)) u -> Forall call_wf l ->
  (chainbase_calls l u r).2 = (spec_calls l (spec_of u r)).2 /\
  (is_ok (chainbase_calls l u r).2 = true -> exists s, kv_backing_store (chainbase_calls l u r).1 = Some s /\ chainbase_ok s /\
    kv_backing_store (spec_calls l (spec_of u r)).1 = Some (chainbase_pairs s)).
Proof.
  intros Hu Hr Hl. destruct (run_agrees _ _ _ (chainbase_simulation receiver rm limits) 0 l (kv_start false (create_kv_chainbase_context u r)) (kv_start false (spec_of u r))) as [H1 H2].
  - apply start_rel. split_and!; [by apply objects_chainbase_ok|by rewrite Nat.add_0_r|done].
  - done.
  - apply chainbase_calls_ok.
  - by eexists.
  - split; [done|]. intros Hok. destruct (H2 Hok) as (s & t & E1 & E2 & (Hs & _ & ->)). by exists s.
Qed.

(** The pairs in a session *)
Definition session_pairs {P : Type} `{StoreModel P} (s : session P) (m : gmap (list Z) kv_pair) : Prop := session_ok s /\ kv_related (session_map s) m.
Definition limits_ok : Prop := max_key_size limits < room_for_payer /\ max_value_size limits < room_for_payer.

Lemma rocksdb_spec {P : Type} {SP : Store P} {MP : StoreModel P} (LP : StoreLaws P) (l : list kv_call) (s : session P) (r : R) (u : undo_index kv_object) :
  limits_ok -> session_pairs s (object_pairs u) -> Forall call_wf l ->
  calls_ok (C := rocksdb_context receiver rm limits) rocksdb_conditions l (kv_start false (create_kv_rocksdb_context s r)) ->
  (rocksdb_calls l s r).2 = (spec_calls l (spec_of u r)).2 /\
  (is_ok (rocksdb_calls l s r).2 = true -> exists c t, kv_backing_store (rocksdb_calls l s r).1 = Some c /\ kv_backing_store (spec_calls l (spec_of u r)).1 = Some t /\
    session_pairs (rk_session c) (pairs t) /\ rk_resources c = usage t).
Proof.
  intros [M1 M2] [Hs Hr] Hl Hok. destruct (run_agrees _ _ _ (rocksdb_simulation receiver rm limits M1 M2) 0 l (kv_start false (create_kv_rocksdb_context s r)) (kv_start false (spec_of u r))) as [H1 H2].
  - by apply start_rel.
  - done.
  - done.
  - by eexists.
  - split; [done|]. intros Hok'. destruct (H2 Hok') as (c & t & E1 & E2 & [A1 A2 A3 A4 A5]). exists c, t. by split_and!.
Qed.
End contracts.

(** ** What is shown *)

(** C19. The key-value context on the database of the chain implements the specification of a map with iterators: every sequence of calls of a
    contract, with any iterators open while pairs are set and erased, gives the results of the specification or the same exception,
    and leaves its pairs, its usage and what was read. *)
Theorem chainbase_refines {R : Type} (receiver : account_name) (rm : resource_manager R) (limits : kv_database_config)
    (l : list kv_call) (u : undo_index kv_object) (r : R) :
  objects_ok u -> room (Z.of_nat (length l)) u -> Forall call_wf l ->
  (chainbase_calls receiver rm limits l u r).2 = (spec_calls receiver rm limits l (spec_of u r)).2 /\
  (is_ok (chainbase_calls receiver rm limits l u r).2 = true -> exists s,
    kv_backing_store (chainbase_calls receiver rm limits l u r).1 = Some s /\ chainbase_ok s /\
    kv_backing_store (spec_calls receiver rm limits l (spec_of u r)).1 = Some (chainbase_pairs s)).
Proof. apply chainbase_spec. Qed.

(** C8. The two backing stores of the key-value database agree: from the same pairs, a sequence of calls of a contract gives the same results or the same
    exception on both, and leaves the same pairs and the same usage; provided that pairs are set and erased only while no iterator is open, and that on the session
    an iterator is made only when no erased key was written again, searches no key past its prefix, and is compared only with iterators of its prefix. *)
Theorem backing_stores_agree {R P : Type} {SP : Store P} {MP : StoreModel P} (LP : StoreLaws P) (receiver : account_name) (rm : resource_manager R)
    (limits : kv_database_config) (l : list kv_call) (u : undo_index kv_object) (s : session P) (r : R) :
  limits_ok limits -> objects_ok u -> session_pairs s (object_pairs u) -> room (Z.of_nat (length l)) u -> Forall call_wf l ->
  calls_ok (C := rocksdb_context receiver rm limits) rocksdb_conditions l (kv_start false (create_kv_rocksdb_context s r)) ->
  (rocksdb_calls receiver rm limits l s r).2 = (chainbase_calls receiver rm limits l u r).2 /\
  (is_ok (chainbase_calls receiver rm limits l u r).2 = true -> exists c c',
    kv_backing_store (chainbase_calls receiver rm limits l u r).1 = Some c /\ kv_backing_store (rocksdb_calls receiver rm limits l s r).1 = Some c' /\
    session_pairs (rk_session c') (object_pairs (db c)) /\ rk_resources c' = resources c).
Proof.
  intros Hlim Hu Hs Hroom Hl Hok. destruct (chainbase_spec receiver rm limits l u r Hu Hroom Hl) as [A1 A2]. destruct (rocksdb_spec receiver rm limits LP l s r u Hlim Hs Hl Hok) as [B1 B2].
  rewrite A1, B1 in *. split; [done|]. intros H. destruct (A2 H) as (c & E1 & _ & E2). destruct (B2 H) as (c' & t & E3 & E4 & Hp & Er). exists c, c'. rewrite E2 in E4. injection E4 as <-. done.
Qed.

Lemma spec_accounted (receiver : account_name) (limits : kv_database_config) (l : list kv_call) (t t' : kv_spec ledger) (rs : list kv_result) b :
  max_key_size limits + max_value_size limits < 2 ^ 32 -> Forall call_wf l ->
  (forall k p, pairs t !! k = Some p -> size_of (tail k) + size_of (p_value p) < 2 ^ 32) ->
  spec_calls receiver ledger_manager limits l t = (b, Ok rs) -> kv_backing_store b = Some t' ->
  forall payer, billed payer (usage t') - billed payer (usage t) = used payer (pairs t') - used payer (pairs t).
Proof.
  intros Hmax Hl Hsz E Eb payer. set (base := fun payer => billed payer (usage t) - used payer (pairs t)).
  pose proof (kv_run_accounted receiver limits Hmax base l Hl (kv_start false t)) as H. fold (spec_calls receiver ledger_manager limits l t) in H. rewrite E in H.
  assert (Ha : store_accounted base b) by (apply H; by split). unfold store_accounted in Ha. rewrite Eb in Ha. destruct Ha as [Ha _]. specialize (Ha payer). subst base. simpl in Ha. lia.
Qed.

(** C21. The usage that the key-value contexts report adds up: over any sequence of calls that returns, the changes
    that are reported to the resource manager for a payer sum up to what the pairs that it pays for take more than
    before, with the overhead, the key and the value of each, whoever sets, replaces and erases them; when the key and
    the value of a pair are less than 2^32 bytes together. (The resource manager of the program bills nothing with
    these reports.) *)
Theorem usage_adds_up (receiver : account_name) (limits : kv_database_config) (l : list kv_call) (u : undo_index kv_object) (r : ledger) :
  max_key_size limits + max_value_size limits < 2 ^ 32 -> objects_ok u -> room (Z.of_nat (length l)) u -> Forall call_wf l ->
  (forall k p, object_pairs u !! k = Some p -> size_of (tail k) + size_of (p_value p) < 2 ^ 32) ->
  is_ok (chainbase_calls receiver ledger_manager limits l u r).2 = true -> exists s,
  kv_backing_store (chainbase_calls receiver ledger_manager limits l u r).1 = Some s /\
  forall payer, billed payer (resources s) - billed payer r = used payer (object_pairs (db s)) - used payer (object_pairs u).
Proof.
  intros Hmax Hu Hroom Hl Hsz Hok. destruct (chainbase_spec receiver ledger_manager limits l u r Hu Hroom Hl) as [A1 A2]. destruct (A2 Hok) as (s & E & _ & Es). exists s. split; [done|]. rewrite A1 in Hok.
  destruct (spec_calls receiver ledger_manager limits l (spec_of u r)) as [b [rs|e]] eqn:Eb; [|done].
  exact (spec_accounted receiver limits l (spec_of u r) (chainbase_pairs s) rs b Hmax Hl Hsz Eb Es).
Qed.

(** ** Samples *)

(** Whether calls keep to the conditions can be computed. *)
Section decisions.
Context {P R : Type} `{!Store P} (C : KvContext (rocksdb_kv P R) kv_iterator_rocksdb).

#[global] Instance fresh_dec (s : session P) : Decision (fresh s).
Proof. apply (map_Forall_dec (fun _ (e : value_state) => deleted e = false -> version e = 0)). Defined.
#[global] Instance with_iterator_dec (a : apply_kv (rocksdb_kv P R) kv_iterator_rocksdb) (itr : Z) (Q : kv_iterator_rocksdb -> Prop) `{!forall i, Decision (Q i)} :
  Decision (with_iterator a itr Q).
Proof. unfold with_iterator. destruct (kv_iterators a !! Z.to_nat itr) as [[i|]|]; apply _. Defined.
#[global] Instance none_dec {A} (l : list (option A)) : Decision (Forall (fun i => i = None) l).
Proof. apply Forall_dec. intros [x|]; [by right|by left]. Defined.
#[global] Instance call_ok_dec (c : kv_call) (a : apply_kv (rocksdb_kv P R) kv_iterator_rocksdb) : Decision (call_ok rocksdb_conditions c a).
Proof. destruct c; cbn [call_ok rocksdb_conditions writes_keep may_create may_search may_compare]; try apply _. destruct (kv_backing_store a); apply _. Defined.
#[global] Instance calls_ok_dec (l : list kv_call) (a : apply_kv (rocksdb_kv P R) kv_iterator_rocksdb) : Decision (calls_ok (C := C) rocksdb_conditions l a).
Proof. revert a. induction l as [|c l IH]; intros a; cbn [calls_ok]; [apply _|]. apply and_dec; [apply _|]. destruct (kv_apply c a) as [a' [r|e]]; [apply IH|apply _]. Defined.
End decisions.

Module KvCallSamples.
Import MapDB.

Definition limits0 : kv_database_config := mk_kv_config 1024 1024 16.
(** A database with keys before and after those of the contracts *)
Definition other_keys : gmap (list Z) (list Z) := list_to_map [([0x10], [1]); ([0x12; 3], [2])].
Definition session1 : session (rocks_session (gmap (list Z) (list Z))) := (attach (mk_session ∅ (mk_rocks_session other_keys))).1.

Lemma other_keys_ok : st_ok (mk_rocks_session other_keys).
Proof. intros k v H. apply elem_of_list_to_map_2 in H. rewrite !elem_of_cons, elem_of_nil in H. naive_solver. Qed.

Lemma other_keys_in (k : list Z) : is_Some (other_keys !! k) -> k = [0x10] \/ k = [0x12; 3].
Proof. intros [v Hv]. apply elem_of_list_to_map_2 in Hv. rewrite !elem_of_cons, elem_of_nil in Hv. naive_solver. Qed.

Lemma session1_pairs : session_pairs session1 (object_pairs undo_index_empty) /\ fresh session1.
Proof.
  assert (E : object_pairs undo_index_empty = ∅) by reflexivity. rewrite E. pose proof (new_session_ok (mk_rocks_session other_keys) other_keys_ok I) as H. unfold wp in H.
  assert (Ha : attach (mk_session ∅ (mk_rocks_session other_keys)) = (session1, Ok tt)) by (vm_compute; reflexivity). rewrite Ha in H. destruct H as (Hs & Hm & _).
  change (session_map session1 = other_keys) in Hm. pose proof other_keys_in as Hin.
  split; [|by apply (bool_decide_unpack _); vm_compute]. split; [done|]. rewrite Hm. split.
  - intros c key _ _. rewrite lookup_empty. destruct (other_keys !! raw_key c key) as [v|] eqn:Ev; [|done]. destruct (Hin (raw_key c key)) as [Ek|Ek]; [by eexists|..]; by apply (f_equal hd_error) in Ek.
  - intros k [->| ->]%Hin Hp; by apply prefix_cons_inv_1 in Hp.
  - intros k [->| ->]%Hin; repeat constructor; lia.
  - intros k p Hk. by rewrite lookup_empty in Hk.
Qed.

Lemma empty_ok : objects_ok undo_index_empty.
Proof.
  assert (E : contents (value := kv_object) undo_index_empty = ∅) by reflexivity. split; [split_and!; [done|..]|]; [|intros i j v w|]; intros *; rewrite E; by rewrite lookup_empty.
Qed.

(** A contract sets pairs, goes through those with the prefix 1, and erases one. *)
Definition calls0 : list kv_call :=
  [call_set 5 [1; 1] [10] 7; call_set 5 [1; 3] [30; 31] 7; call_set 5 [2] [40] 8; call_set 5 [1; 1] [11] 8; call_get 5 [1; 3]; call_get_data 1 9;
   call_it_create 5 [1]; call_it_next 1; call_it_next 1; call_it_value 1 0 9; call_it_next 1; call_it_prev 1; call_it_lower_bound 1 [1; 2]; call_it_key 1 0 9;
   call_it_create 5 [1]; call_it_compare 1 2; call_it_key_compare 1 [1; 3]; call_it_destroy 1; call_it_destroy 2; call_erase 5 [1; 1]; call_get 5 [1; 1]].

Lemma calls0_wf : Forall call_wf calls0.
Proof. repeat constructor; cbn; lia. Qed.
Lemma calls0_ok : calls_ok (C := rocksdb_context 5 ledger_manager limits0) rocksdb_conditions calls0 (kv_start false (create_kv_rocksdb_context session1 [])).
Proof. apply (bool_decide_unpack _). vm_compute. exact I. Qed.

Example calls0_results : (rocksdb_calls 5 ledger_manager limits0 calls0 session1 []).2 =
  Ok [([115], []); ([116], []); ([114], []); ([0], []); ([1; 2], []); ([2], [31]); ([1], []); ([0; 2; 1], []); ([0; 2; 2], []); ([0; 2], [30; 31]); ([-2; 0; 0], []);
      ([0; 2; 2], []); ([0; 2; 2], []); ([0; 2], [1; 3]); ([2], []); ([-1], []); ([0], []); ([], []); ([], []); ([-115], []); ([0; 0], [])].
Proof. vm_compute. reflexivity. Qed.

Lemma chainbase_refines_witness : objects_ok undo_index_empty /\ Forall call_wf calls0 /\
  (chainbase_calls 5 ledger_manager limits0 calls0 undo_index_empty []).2 = (spec_calls 5 ledger_manager limits0 calls0 (spec_of undo_index_empty [])).2.
Proof.
  split; [exact empty_ok|]. split; [exact calls0_wf|].
  apply (chainbase_refines 5 ledger_manager limits0 calls0 undo_index_empty []); [exact empty_ok|vm_compute; reflexivity|exact calls0_wf].
Defined.

Lemma backing_stores_agree_witness :
  (rocksdb_calls 5 ledger_manager limits0 calls0 session1 []).2 = (chainbase_calls 5 ledger_manager limits0 calls0 undo_index_empty []).2 /\
  is_ok (chainbase_calls 5 ledger_manager limits0 calls0 undo_index_empty []).2 = true.
Proof.
  split; [|vm_compute; reflexivity]. apply (backing_stores_agree rocks_laws 5 ledger_manager limits0 calls0 undo_index_empty session1 []);
    [split; reflexivity|exact empty_ok|exact (proj1 session1_pairs)|vm_compute; reflexivity|exact calls0_wf|exact calls0_ok].
Defined.

Lemma usage_adds_up_witness : exists s, kv_backing_store (chainbase_calls 5 ledger_manager limits0 calls0 undo_index_empty []).1 = Some s /\
  forall payer, billed payer (resources s) - billed payer [] = used payer (object_pairs (db s)) - used payer (object_pairs undo_index_empty).
Proof.
  apply (usage_adds_up 5 limits0 calls0 undo_index_empty []); [reflexivity|exact empty_ok|vm_compute; reflexivity|exact calls0_wf| |vm_compute; reflexivity].
  intros k p Hk. assert (E : object_pairs undo_index_empty = ∅) by reflexivity. rewrite E in Hk. rewrite lookup_empty in Hk. discriminate Hk.
Defined.
End KvCallSamples.

Section examples.
Import KvCallSamples.

(** The results of calls on the two backing stores *)
Definition on_both (l : list kv_call) : result (list kv_result) * result (list kv_result) :=
  ((chainbase_calls 5 ledger_manager limits0 l undo_index_empty []).2, (rocksdb_calls 5 ledger_manager limits0 l session1 []).2).
Definition last_results (n : nat) (r : result (list kv_result)) : result (list kv_result) := match r with Ok l => Ok (drop (length l - n) l) | Throw e => Throw e end.

(** An iterator over the keys with the prefix 1 searches the key 3: on a session it arrives at it, although it does not have the prefix. *)
Theorem search_past_prefix :
  let l := [call_set 5 [1] [10] 7; call_set 5 [2] [20] 7; call_set 5 [3] [30] 7; call_it_create 5 [1]; call_it_lower_bound 1 [3]; call_it_key 1 0 9] in
  last_results 2 (on_both l).1 = Ok [([-2; 0; 0], []); ([-2; 0], [])] /\ last_results 2 (on_both l).2 = Ok [([0; 1; 1], []); ([0; 1], [3])].
Proof. vm_compute. split; reflexivity. Qed.

(** When there is no key at all from there on, the value of the end is read. *)
Theorem search_past_last :
  let l := [call_set 5 [1] [10] 7; call_set 5 [2] [20] 7; call_it_create 5 [1]; call_it_lower_bound 1 [3]] in
  last_results 1 (on_both l).1 = Ok [([-2; 0; 0], [])] /\
  (rocksdb_calls 5 ledger_manager limits0 l (mk_session ∅ (mk_rocks_session (∅ : gmap (list Z) (list Z)))) []).2 = Throw undefined_behaviour.
Proof. vm_compute. split; reflexivity. Qed.

(** The end of an iterator on a session is the key 3, which is the first one past the prefix when the iterator is made: a key 2 that is set then is taken for one with the prefix. *)
Theorem write_past_end :
  let l := [call_set 5 [1] [10] 7; call_set 5 [3] [30] 7; call_it_create 5 [1]; call_set 5 [2] [20] 7; call_it_next 1; call_it_next 1; call_it_key 1 0 9] in
  last_results 2 (on_both l).1 = Ok [([-2; 0; 0], []); ([-2; 0], [])] /\ last_results 2 (on_both l).2 = Ok [([0; 1; 1], []); ([0; 1], [2])].
Proof. vm_compute. split; reflexivity. Qed.

(** Iterators of one contract with different prefixes *)
Theorem compare_prefixes :
  let l := [call_it_create 5 [1]; call_it_create 5 [2]; call_it_compare 1 2] in last_results 1 (on_both l).1 = Ok [([0], [])] /\ (on_both l).2 = Throw kv_bad_iter.
Proof. vm_compute. split; reflexivity. Qed.

(** The second key is erased and set again before the iterator is made: on a session the iterator takes it for erased, and cannot move on. *)
Theorem set_again_erased :
  let l := [call_set 5 [1] [10] 7; call_set 5 [2] [20] 7; call_erase 5 [2]; call_set 5 [2] [21] 7; call_it_create 5 []; call_it_next 1; call_it_next 1] in
  last_results 1 (on_both l).1 = Ok [([0; 1; 1], [])] /\ last_results 1 (on_both l).2 = Ok [([-1; 0; 0], [])] /\ (on_both (l ++ [call_it_next 1])).2 = Throw kv_bad_iter.
Proof. vm_compute. split_and!; reflexivity. Qed.
End examples.
