(* ===== verification/Proposals.v ===== *)
(** * Proposals of schedules and rates: the model

    The proposals that the global properties hold
    (libraries/chain/include/dcd/chain/global_property_object.hpp), how a transaction makes
    one, and how the start of a block turns one into the pending schedule or rate of the
    block (libraries/chain/controller.cpp). The stages of a pending block are here as well,
    because the queries for the active and the pending schedule depend on them. *)

From S2P Require Import Prelude Types Authority Merkle BlockHeader BlockHeaderState ForkDatabase ChainConfig Parameters.

Record global_property_object := mk_gpo {
  proposed_schedule_block_num : option Z;
  proposed_schedule : producer_authority_schedule;
  proposed_rate_block_num : option Z;
  proposed_rate : shared_rate_info;
  chain_id : digest;
  gpo_parameters : parameters
}.

Definition with_proposed_schedule (g : global_property_object) (n : option Z) (s : producer_authority_schedule) :
    global_property_object :=
  mk_gpo n s (proposed_rate_block_num g) (proposed_rate g) (chain_id g) (gpo_parameters g).
Definition with_proposed_rate (g : global_property_object) (n : option Z) (r : shared_rate_info) :
    global_property_object :=
  mk_gpo (proposed_schedule_block_num g) (proposed_schedule g) n r (chain_id g) (gpo_parameters g).

(** The object of a new chain, in which nothing is proposed. *)
Definition gpo_new (chain_id : digest) (p : parameters) : global_property_object :=
  mk_gpo None (mk_schedule 0 []) None (mk_shared_rate 0 0) chain_id p.

(** ** Receipts *)
Inductive status_enum := executed | soft_fail | hard_fail | delayed | expired.

#[global] Instance status_enum_eq_dec : EqDecision status_enum.
Proof. solve_decision. Defined.

Record transaction_receipt_header := mk_receipt_header {
  status : status_enum;
  cpu_usage_us : Z;
  net_usage_words : Z
}.

#[global] Instance receipt_header_eq_dec : EqDecision transaction_receipt_header.
Proof. solve_decision. Defined.

Inductive receipt_trx (packed_transaction : Type) :=
  | trx_packed (t : packed_transaction)
  | trx_id (i : digest).
Arguments trx_packed {_} t.
Arguments trx_id {_} i.

Record transaction_receipt (packed_transaction : Type) := mk_receipt {
  receipt_header : transaction_receipt_header;
  receipt_of : receipt_trx packed_transaction
}.
Arguments mk_receipt {_} _ _.
Arguments receipt_header {_} _.
Arguments receipt_of {_} _.

(** ** The stages of a pending block *)
Section stages.
Context {packed_transaction : Type}.
Abbreviation receipt := (transaction_receipt packed_transaction).

Record building_block := mk_building {
  bb_pbhs : pending_block_header_state;
  _new_pending_producer_schedule : option producer_authority_schedule;
  _new_pending_rate_info : option producer_rate_info;
  _new_protocol_feature_activations : list digest;
  _num_new_protocol_features_that_have_activated : nat;
  _pending_trx_receipts : list receipt;
  _trx_mroot_or_receipt_digests : digest + list digest;
  _action_receipt_digests : list digest
}.

Record assembled_block := mk_assembled {
  ab_id : block_id;
  ab_pbhs : pending_block_header_state;
  _unsigned_block : signed_block_header;
  ab_transactions : list receipt;
  _new_producer_authority_cache : option producer_authority_schedule;
  _new_rate_info : option producer_rate_info
}.

Inductive block_stage_type :=
  | building (b : building_block)
  | assembled (b : assembled_block)
  | completed (p : block_state_ptr).

(** [building_block( prev, when, num_prev_blocks_to_confirm, activations )] *)
Definition building_new `{Crypto} (prev : block_header_state) (when num_prev_blocks_to_confirm : Z)
    (activations : list digest) : result building_block :=
  p ← next_pending prev when num_prev_blocks_to_confirm;
  Ok (mk_building p None None activations 0 [] (inr []) []).

(** [std::get< building_block >( stage )] *)
Definition get_building (st : block_stage_type) : result building_block :=
  match st with building b => Ok b | _ => Throw bad_variant_access end.

(** [get_pending_block_header_state]: the stage must not be completed. *)
Definition get_pending_block_header_state (st : block_stage_type) : result pending_block_header_state :=
  match st with
  | building b => Ok (bb_pbhs b)
  | assembled b => Ok (ab_pbhs b)
  | completed _ => Throw bad_variant_access
  end.

(** ** Queries

    [head] is the head block, [pending] the stage of the pending block. *)
Definition active_producers (head : block_header_state) (pending : option block_stage_type) :
    result producer_authority_schedule :=
  match pending with
  | None => Ok (active_schedule head)
  | Some (completed p) => Ok (active_schedule (bhs_common (bsp_state p)))
  | Some st => p ← get_pending_block_header_state st; Ok (active_schedule (pending_common p))
  end.

Definition pending_producers (head : block_header_state) (pending : option block_stage_type) :
    result producer_authority_schedule :=
  match pending with
  | None => Ok (schedule (pending_schedule head))
  | Some (completed p) => Ok (schedule (pending_schedule p))
  | Some st =>
      match (match st with assembled b => _new_producer_authority_cache b | _ => None end) with
      | Some cache => Ok cache
      | None =>
          bb ← get_building st;
          Ok (match _new_pending_producer_schedule bb with
              | Some s => s
              | None => schedule (prev_pending_schedule (bb_pbhs bb))
              end)
      end
  end.

Definition active_rate_of (head : block_header_state) (pending : option block_stage_type) :
    result producer_rate_info :=
  match pending with
  | None => Ok (active_rate head)
  | Some (completed p) => Ok (active_rate p)
  | Some st => p ← get_pending_block_header_state st; Ok (active_rate (pending_common p))
  end.

Definition pending_rate_of (head : block_header_state) (pending : option block_stage_type) :
    result producer_rate_info :=
  match pending with
  | None => Ok (rate_rate_info (pending_rate head))
  | Some (completed p) => Ok (rate_rate_info (pending_rate p))
  | Some st =>
      match (match st with assembled b => _new_rate_info b | _ => None end) with
      | Some cache => Ok cache
      | None =>
          bb ← get_building st;
          Ok (match _new_pending_rate_info bb with
              | Some r => r
              | None => rate_rate_info (prev_pending_rate (bb_pbhs bb))
              end)
      end
  end.

Definition proposed_producers (gpo : global_property_object) : option producer_authority_schedule :=
  match proposed_schedule_block_num gpo with None => None | Some _ => Some (proposed_schedule gpo) end.

Definition proposed_rate_info (gpo : global_property_object) : option producer_rate_info :=
  match proposed_rate_block_num gpo with
  | None => None
  | Some _ => Some (mk_rate (sri_version (proposed_rate gpo)) (sri_rate (proposed_rate gpo)))
  end.

(** ** Proposals

    The global properties after the call, and its result: the version of the proposal, or -1
    when nothing is proposed. *)
Definition set_proposed_producers (head : block_header_state) (pending : option block_stage_type)
    (disallow_empty : bool) (gpo : global_property_object) (l : list producer_authority) :
    result (global_property_object * Z) :=
  let cur_block_num := u32 (block_num head + 1) in
  if (length l =? 0)%nat && disallow_empty then Ok (gpo, -1)
  else if match proposed_schedule_block_num gpo with
          | Some n => negb (n =? cur_block_num) || bool_decide (l = producers (proposed_schedule gpo))
          | None => false
          end then Ok (gpo, -1)
  else
    pending_sch ← pending_producers head pending;
    '(cur, version) ← (if (length (producers pending_sch) =? 0)%nat then
                         active_sch ← active_producers head pending;
                         Ok (producers active_sch, u32 (sched_version active_sch + 1))
                       else Ok (producers pending_sch, u32 (sched_version pending_sch + 1)));
    if bool_decide (l = cur) then Ok (gpo, -1)
    else Ok (with_proposed_schedule gpo (Some cur_block_num) (mk_schedule version l), version).

Definition set_proposed_rate (head : block_header_state) (pending : option block_stage_type)
    (gpo : global_property_object) (new_rate : Z) : result (global_property_object * Z) :=
  let cur_block_num := u32 (block_num head + 1) in
  if match proposed_rate_block_num gpo with
     | Some n => negb (n =? cur_block_num) || f64_eq (sri_rate (proposed_rate gpo)) new_rate
     | None => false
     end then Ok (gpo, -1)
  else
    pending_sch ← pending_rate_of head pending;
    '(old_rate, version) ← (if f64_eq (pri_rate pending_sch) 0 then
                              active_sch ← active_rate_of head pending;
                              Ok (pri_rate active_sch, u32 (pri_version active_sch + 1))
                            else Ok (pri_rate pending_sch, u32 (pri_version pending_sch + 1)));
    if f64_eq new_rate old_rate then Ok (gpo, -1)
    else Ok (with_proposed_rate gpo (Some cur_block_num) (mk_shared_rate version new_rate), version).

(** ** Promotion at the start of a block *)

(** "if there is a proposed schedule that was proposed in a block ... that has now become
    irreversible ... and there was room for a new pending schedule": the global properties
    and the schedule that the block announces. *)
Definition promote_schedule (p : pending_block_header_state) (gpo : global_property_object) :
    result (global_property_object * option producer_authority_schedule) :=
  match proposed_schedule_block_num gpo with
  | Some n =>
      if (n <=? dpos_irreversible_blocknum p) &&
         (length (producers (schedule (prev_pending_schedule p))) =? 0)%nat then
        _ ← dcd_assert (sched_version (proposed_schedule gpo) =? u32 (active_schedule_version p + 1))
              producer_schedule_exception;
        Ok (with_proposed_schedule gpo None (mk_schedule 0 []), Some (proposed_schedule gpo))
      else Ok (gpo, None)
  | None => Ok (gpo, None)
  end.

Definition promote_rate (p : pending_block_header_state) (gpo : global_property_object) :
    result (global_property_object * option producer_rate_info) :=
  match proposed_rate_block_num gpo with
  | Some n =>
      if (n <=? dpos_irreversible_blocknum p) &&
         f64_eq (pri_rate (rate_rate_info (prev_pending_rate p))) 0 then
        _ ← dcd_assert (sri_version (proposed_rate gpo) =? u32 (active_rate_version p + 1))
              producer_schedule_exception;
        Ok (with_proposed_rate gpo None (mk_shared_rate 0 0),
            Some (mk_rate (sri_version (proposed_rate gpo)) (sri_rate (proposed_rate gpo))))
      else Ok (gpo, None)
  | None => Ok (gpo, None)
  end.
End stages.

#[global] Arguments building_block : clear implicits.
#[global] Arguments assembled_block : clear implicits.
#[global] Arguments block_stage_type : clear implicits.

(** ** Snapshots

    The row of the global properties in a snapshot has no member for the proposed rate. *)
Record snapshot_global_property_object := mk_gpo_row {
  row_proposed_schedule_block_num : option Z;
  row_proposed_schedule : producer_authority_schedule;
  row_chain_id : digest;
  row_parameters : parameters
}.

Definition to_snapshot_row (value : global_property_object) : snapshot_global_property_object :=
  mk_gpo_row (proposed_schedule_block_num value) (proposed_schedule value) (chain_id value) (gpo_parameters value).

Definition from_snapshot_row (row : snapshot_global_property_object) (value : global_property_object) :
    global_property_object :=
  mk_gpo (row_proposed_schedule_block_num row) (row_proposed_schedule row)
    (proposed_rate_block_num value) (proposed_rate value) (row_chain_id row) (row_parameters row).

(** The rows of older snapshots: of the versions up to 2, of version 3 and of version 4. *)
Record snapshot_global_property_object_v2 := mk_gpo_row_v2 {
  v2_proposed_schedule_block_num : option Z;
  v2_proposed_schedule : legacy_schedule;
  v2_configuration : chain_config_v0
}.

Record snapshot_global_property_object_v3 := mk_gpo_row_v3 {
  v3_proposed_schedule_block_num : option Z;
  v3_proposed_schedule : producer_authority_schedule;
  v3_configuration : chain_config_v0;
  v3_chain_id : digest
}.

Record snapshot_global_property_object_v4 := mk_gpo_row_v4 {
  v4_row : snapshot_global_property_object_v3;
  v4_kv_configuration : kv_database_config;
  v4_wasm_configuration : wasm_config
}.

(** [initalize_from] such a row: the block of the rate is that of the schedule. *)
Definition initalize_from (value : global_property_object) (block_num : option Z) (s : producer_authority_schedule)
    (c : chain_config_v0) (chain_id : digest) (kv : kv_database_config) (wasm : wasm_config) :
    global_property_object :=
  mk_gpo block_num s block_num (proposed_rate value) chain_id
    (mk_parameters (assign_v0 (configuration (gpo_parameters value)) c) kv wasm).

Definition initalize_from_v2 (value : global_property_object) (legacy : snapshot_global_property_object_v2)
    (chain_id_val : digest) (kv_config_val : kv_database_config) (wasm_config_val : wasm_config) :
    global_property_object :=
  initalize_from value (v2_proposed_schedule_block_num legacy) (schedule_of_legacy (v2_proposed_schedule legacy))
    (v2_configuration legacy) chain_id_val kv_config_val wasm_config_val.

Definition initalize_from_v3 (value : global_property_object) (legacy : snapshot_global_property_object_v3)
    (kv_config_val : kv_database_config) (wasm_config_val : wasm_config) : global_property_object :=
  initalize_from value (v3_proposed_schedule_block_num legacy) (v3_proposed_schedule legacy)
    (v3_configuration legacy) (v3_chain_id legacy) kv_config_val wasm_config_val.

Definition initalize_from_v4 (value : global_property_object) (legacy : snapshot_global_property_object_v4) :
    global_property_object :=
  initalize_from_v3 value (v4_row legacy) (v4_kv_configuration legacy) (v4_wasm_configuration legacy).
