(* ===== verification/ProposalProofs.v ===== *)
(** * Proposals fit the chain

    A proposal carries the version that follows the schedule (or rate) it will replace.
    That this version is still the right one when the proposal is promoted, and that the
    header which announces it is accepted, is an invariant of the chain of blocks. *)

From S2P Require Import Prelude Types Authority Merkle BlockHeader BlockHeaderState Samples HeaderChain ForkDatabase ChainConfig Parameters ParameterProofs Proposals.

(** The version that a new schedule follows: that of the pending one if there is one. *)
Definition version_after (pending active : producer_authority_schedule) : Z :=
  u32 ((if (length (producers pending) =? 0)%nat then sched_version active else sched_version pending) + 1).
Definition rate_version_after (pending active : producer_rate_info) : Z :=
  u32 ((if f64_eq (pri_rate pending) 0 then pri_version active else pri_version pending) + 1).

(** The proposals carry the versions [v] and [w]. *)
Definition proposals_fit (g : global_property_object) (v w : Z) : Prop :=
  (is_Some (proposed_schedule_block_num g) -> sched_version (proposed_schedule g) = v) /\
  (is_Some (proposed_rate_block_num g) -> sri_version (proposed_rate g) = w).

(** ... that fit the head block, ... *)
Definition fit_head (g : global_property_object) (s : block_header_state) : Prop :=
  proposals_fit g (version_after (schedule (pending_schedule s)) (active_schedule s))
    (rate_version_after (rate_rate_info (pending_rate s)) (active_rate s)).

(** ... and those that fit the block that is being built. *)
Definition fit_building {T} (g : global_property_object) (bb : building_block T) : Prop :=
  proposals_fit g
    (version_after (default (schedule (prev_pending_schedule (bb_pbhs bb))) (_new_pending_producer_schedule bb))
       (active_schedule (bb_pbhs bb)))
    (rate_version_after (default (rate_rate_info (prev_pending_rate (bb_pbhs bb))) (_new_pending_rate_info bb))
       (active_rate (bb_pbhs bb))).

(** The proposals that the transactions of a block make. *)
Inductive proposes {T} (head : block_header_state) (bb : building_block T) :
    global_property_object -> global_property_object -> Prop :=
  | proposes_nothing g : proposes head bb g g
  | proposes_producers g g1 g2 d l v : proposes head bb g g1 ->
      set_proposed_producers head (Some (building bb)) d g1 l = Ok (g2, v) -> proposes head bb g g2
  | proposes_rate g g1 g2 r v : proposes head bb g g1 ->
      set_proposed_rate head (Some (building bb)) g1 r = Ok (g2, v) -> proposes head bb g g2.

Lemma set_producers_fit {T} (head : block_header_state) (bb : building_block T) (g g' : global_property_object)
    (d : bool) (l : list producer_authority) (v : Z) :
  fit_building g bb -> set_proposed_producers head (Some (building bb)) d g l = Ok (g', v) -> fit_building g' bb.
Proof.
  intros HF E. pose proof HF as [Hs Hr]. unfold set_proposed_producers in E. simpl in E.
  destruct (_ && d); [by simplify_eq|].
  destruct (match proposed_schedule_block_num g with Some _ => _ | None => _ end); [by simplify_eq|].
  unfold fit_building, version_after in *. simpl in *.
  destruct (_new_pending_producer_schedule bb) as [x|]; simpl in *;
    [destruct (length (producers x) =? 0)%nat|destruct (length (producers (schedule _)) =? 0)%nat]; simpl in E;
    case_bool_decide; simplify_eq; done || by split.
Qed.

Lemma set_rate_fit {T} (head : block_header_state) (bb : building_block T) (g g' : global_property_object)
    (r v : Z) :
  fit_building g bb -> set_proposed_rate head (Some (building bb)) g r = Ok (g', v) -> fit_building g' bb.
Proof.
  intros HF E. pose proof HF as [Hs Hr]. unfold set_proposed_rate in E. simpl in E.
  destruct (match proposed_rate_block_num g with Some _ => _ | None => _ end); [by simplify_eq|].
  unfold fit_building, rate_version_after in *. simpl in *.
  destruct (_new_pending_rate_info bb) as [x|]; simpl in *;
    [destruct (f64_eq (pri_rate x) 0)|destruct (f64_eq (pri_rate (rate_rate_info _)) 0)]; simpl in E;
    destruct (f64_eq r _); simplify_eq; done || by split.
Qed.

Lemma proposes_fit {T} (head : block_header_state) (bb : building_block T) (g g' : global_property_object) :
  proposes head bb g g' -> fit_building g bb -> fit_building g' bb.
Proof. induction 1; eauto using set_producers_fit, set_rate_fit. Qed.

Lemma positive_not_zero (x : Z) : f64_positive x = true -> f64_eq x 0 = false.
Proof.
  unfold f64_positive, f64_eq, f64_is_zero. intros Hx. breflect.
  change 0x7FFFFFFFFFFFFFFF with (Z.ones 63). rewrite Z.land_ones by lia. rewrite Z.mod_small by lia.
  rewrite !(proj2 (Z.eqb_neq x 0)) by lia. by rewrite andb_false_r.
Qed.

(** Promotion is offered only when nothing is pending, so that the block does not promote a
    pending schedule or rate to active itself. *)
Section promotion.
Context `{Crypto} `{Serialization}.
Context (s : block_header_state) (t n : Z) (p : pending_block_header_state).
Hypothesis Hnext : next_pending s t n = Ok p.

Lemma next_pending_prev :
  prev_pending_schedule p = pending_schedule s /\ prev_pending_rate p = pending_rate s /\
  active_schedule_version p = sched_version (active_schedule s) /\
  active_rate_version p = pri_version (active_rate s).
Proof. unfold next_pending in Hnext. bind_ok_pairs. done. Qed.

Lemma next_pending_schedule :
  (was_pending_promoted p = false /\ active_schedule p = active_schedule s) \/
  (was_pending_promoted p = true /\ active_schedule p = schedule (pending_schedule s) /\
   (length (producers (schedule (pending_schedule s))) =? 0)%nat = false).
Proof.
  unfold next_pending in Hnext. bind_ok_pairs. destruct (_ && (schedule_lib_num _ <=? _)) eqn:Ep; [right|by left].
  split; [done|]. split; [done|]. apply andb_true_iff in Ep as [Ep _]. apply Nat.ltb_lt in Ep.
  apply Nat.eqb_neq. lia.
Qed.

Lemma next_pending_rate :
  (was_pending_rate_promoted p = false /\ active_rate p = active_rate s) \/
  (was_pending_rate_promoted p = true /\ active_rate p = rate_rate_info (pending_rate s) /\
   f64_eq (pri_rate (rate_rate_info (pending_rate s))) 0 = false).
Proof.
  unfold next_pending in Hnext. bind_ok_pairs. destruct (_ && (rate_lib_num _ <=? _)) eqn:Ep; [right|by left].
  split; [done|]. split; [done|]. apply andb_true_iff in Ep as [Ep _]. by apply positive_not_zero.
Qed.

(** A proposal is promoted only into an empty place, with the version that follows the
    active one. *)
Lemma promote_schedule_ok (g : global_property_object) :
  fit_head g s -> exists g' np, promote_schedule p g = Ok (g', np) /\
    proposed_rate_block_num g' = proposed_rate_block_num g /\ proposed_rate g' = proposed_rate g /\
    match np with
    | None => g' = g
    | Some sch => proposed_schedule_block_num g' = None /\ was_pending_promoted p = false /\
        sched_version sch = u32 (sched_version (active_schedule p) + 1) /\
        producers (schedule (prev_pending_schedule p)) = []
    end.
Proof.
  intros [Hs _]. unfold promote_schedule, version_after in *.
  destruct next_pending_prev as (Ep & _ & Ev & _).
  destruct (proposed_schedule_block_num g) as [k|] eqn:Ek; [|by exists g, None].
  rewrite Ep, Ev. destruct (k <=? _); [|by exists g, None].
  destruct (length (producers (schedule (pending_schedule s))) =? 0)%nat eqn:El; [|by exists g, None].
  simpl. rewrite Hs, Z.eqb_refl by eauto. simpl. eexists _, _. split; [done|]. split; [done|]. split; [done|].
  split; [done|]. destruct next_pending_schedule as [[Hw ->]|(_ & _ & ?)]; [|congruence].
  split; [done|]. split; [by apply Hs|].
  by apply nil_length_inv, Nat.eqb_eq.
Qed.

Lemma promote_rate_ok (g : global_property_object) :
  (is_Some (proposed_rate_block_num g) -> sri_version (proposed_rate g) =
     rate_version_after (rate_rate_info (pending_rate s)) (active_rate s)) ->
  exists g' nr, promote_rate p g = Ok (g', nr) /\
    proposed_schedule_block_num g' = proposed_schedule_block_num g /\ proposed_schedule g' = proposed_schedule g /\
    match nr with
    | None => g' = g
    | Some r => proposed_rate_block_num g' = None /\ was_pending_rate_promoted p = false /\
        pri_version r = u32 (pri_version (active_rate p) + 1) /\
        f64_eq (pri_rate (rate_rate_info (prev_pending_rate p))) 0 = true
    end.
Proof.
  intros Hr. unfold promote_rate, rate_version_after in *.
  destruct next_pending_prev as (_ & Ep & _ & Ev).
  destruct (proposed_rate_block_num g) as [k|] eqn:Ek; [|by exists g, None].
  rewrite Ep, Ev. destruct (k <=? _); [|by exists g, None].
  destruct (f64_eq (pri_rate (rate_rate_info (pending_rate s))) 0) eqn:El; [|by exists g, None].
  simpl. rewrite Hr, Z.eqb_refl by eauto. simpl. eexists _, _. split; [done|]. split; [done|]. split; [done|].
  split; [done|]. destruct next_pending_rate as [[Hw ->]|(_ & _ & ?)]; [|congruence].
  by split_and!.
Qed.

(** What is left after the promotion fits the block that is being built. *)
Lemma promoted_fit {T} (g g1 g2 : global_property_object) (np : option producer_authority_schedule)
    (nr : option producer_rate_info) (bb : building_block T) :
  bb_pbhs bb = p -> _new_pending_producer_schedule bb = np -> _new_pending_rate_info bb = nr ->
  fit_head g s ->
  match np with None => g1 = g | Some _ => proposed_schedule_block_num g1 = None end ->
  proposed_rate_block_num g1 = proposed_rate_block_num g -> proposed_rate g1 = proposed_rate g ->
  match nr with None => g2 = g1 | Some _ => proposed_rate_block_num g2 = None end ->
  proposed_schedule_block_num g2 = proposed_schedule_block_num g1 ->
  proposed_schedule g2 = proposed_schedule g1 ->
  fit_building g2 bb.
Proof.
  intros Hp Hs Hr [HS HR] H1 R1 R2 H2 S1 S2. destruct (next_pending_prev) as (Eps & Epr & _).
  split; rewrite Hp, ?Hs, ?Hr.
  - rewrite S1, S2. destruct np as [sch|]; [rewrite H1; by intros []|]. subst g1. intros Hi. rewrite (HS Hi).
    simpl. rewrite Eps. unfold version_after.
    destruct next_pending_schedule as [[_ ->]|(_ & _ & ->)]; done.
  - destruct nr as [r|]; [rewrite H2; by intros []|]. subst g2. rewrite R1, R2. intros Hi. rewrite (HR Hi).
    simpl. rewrite Epr. unfold rate_version_after.
    destruct next_pending_rate as [[_ ->]|(_ & _ & ->)]; done.
Qed.

(** The state that a finished block leads to asks for the same versions. *)
Lemma finished_schedule (np : option producer_authority_schedule) (sch' : producer_authority_schedule) :
  match np with
  | Some sch => sched_version sch' = sched_version sch /\ length (producers sch') = length (producers sch)
  | None => sch' = if was_pending_promoted p
                   then mk_schedule (sched_version (schedule (prev_pending_schedule p))) []
                   else schedule (prev_pending_schedule p)
  end ->
  version_after (default (schedule (prev_pending_schedule p)) np) (active_schedule p) =
  version_after sch' (active_schedule p).
Proof.
  unfold version_after. destruct np as [sch|]; simpl; [by intros [-> ->]|]. intros ->.
  destruct next_pending_prev as (-> & _). destruct next_pending_schedule as [[-> _]|(-> & -> & E)]; [done|].
  by rewrite E.
Qed.

Lemma finished_rate (nr : option producer_rate_info) (r' : producer_rate_info) :
  r' = match nr with
       | Some r => r
       | None => if was_pending_rate_promoted p
                 then mk_rate (pri_version (rate_rate_info (prev_pending_rate p))) 0
                 else rate_rate_info (prev_pending_rate p)
       end ->
  rate_version_after (default (rate_rate_info (prev_pending_rate p)) nr) (active_rate p) =
  rate_version_after r' (active_rate p).
Proof.
  intros ->. unfold rate_version_after. destruct nr as [r|]; simpl; [done|].
  destruct next_pending_prev as (_ & -> & _). destruct next_pending_rate as [[-> _]|(-> & -> & E)]; [done|].
  by rewrite E.
Qed.
End promotion.

(** ** The flow of proposals through a block *)

(** C22. Proposals that fit the head do not stop the chain. When the proposals in the global properties carry the
    versions that follow the head block, the start of the next block promotes them without an exception; the header
    that announces what was promoted is accepted; and whatever proposals the transactions of the block make, those
    that are left fit the new head block again, so that the hypothesis is kept from block to block. A node that is
    restored from a snapshot need not satisfy it, see [snapshot_breaks_proposals]. *)
Theorem proposals_never_stuck `{Crypto} `{Serialization} `{!SerializationLaws _} {T}
    (s : block_header_state) (t n : Z) (p : pending_block_header_state) (g : global_property_object)
    (features : list digest) (validator : activation_validator) :
  fit_head g s -> next_pending s t n = Ok p ->
  NoDup features -> (forall d, d ∈ features -> d ∉ prev_activated_protocol_features p) ->
  validator (timestamp p) (prev_activated_protocol_features p) features = Ok tt ->
  exists g1 np g2 nr, promote_schedule p g = Ok (g1, np) /\ promote_rate p g1 = Ok (g2, nr) /\
    forall (bb : building_block T) g3 tm am pfs h,
      bb_pbhs bb = p -> _new_pending_producer_schedule bb = np -> _new_pending_rate_info bb = nr ->
      proposes s bb g2 g3 -> make_block_header p tm am np nr features pfs = Ok h ->
      exists s', _finish_next p h pfs validator = Ok s' /\ fit_head g3 s'.
Proof.
  intros HF Hn ND Hd Hv.
  destruct (promote_schedule_ok s t n p Hn g HF) as (g1 & np & E1 & Hr1 & Hr2 & Hnp).
  destruct (promote_rate_ok s t n p Hn g1) as (g2 & nr & E2 & Hs1 & Hs2 & Hnr).
  { rewrite Hr1, Hr2. apply HF. }
  exists g1, np, g2, nr. split; [done|]. split; [done|].
  intros bb g3 tm am pfs h Hp Hbs Hbr Hpr Hh.
  assert (P : producible p np nr features validator).
  { split; [|by intros r ->; apply Hnr|by split_and!]. intros sch ->. split_and!; apply Hnp. }
  destruct (produced_finish p tm am np nr features pfs validator h P Hh) as (s' & Hs' & Hc & _ & Hpr' & Hps').
  exists s'. split; [done|].
  assert (HB : fit_building g2 bb).
  { apply (promoted_fit s t n p Hn g g1 g2 np nr bb); try done; [destruct np|destruct nr]; naive_solver. }
  apply (proposes_fit _ _ _ _ Hpr) in HB. revert HB. unfold fit_building, fit_head.
  rewrite Hp, Hbs, Hbr, Hc. replace (version_after (schedule (pending_schedule s')) (active_schedule p))
    with (version_after (default (schedule (prev_pending_schedule p)) np) (active_schedule p)).
  2:{ apply (finished_schedule s t n p Hn). destruct np; [by split_and!; apply Hps'|done]. }
  replace (rate_version_after (rate_rate_info (pending_rate s')) (active_rate p))
    with (rate_version_after (default (rate_rate_info (prev_pending_rate p)) nr) (active_rate p)); [done|].
  by apply (finished_rate s t n p Hn).
Qed.

(** ** Witness and snapshots *)
Definition sample_gpo : global_property_object :=
  mk_gpo (Some 4) (sample_schedule 1 [2; 3]) (Some 4) (mk_shared_rate 1 f64_one) digest_zero
    default_parameters.

(** The row that a node of the fourth version wrote for the same schedule, and a fresh object. *)
Definition sample_row_v4 : snapshot_global_property_object_v4 :=
  mk_gpo_row_v4 (mk_gpo_row_v3 (Some 4) (sample_schedule 1 [2; 3]) (base default_config) digest_zero)
    (kv_configuration default_parameters) (wasm_configuration default_parameters).
Definition sample_fresh : global_property_object := gpo_new digest_zero default_parameters.

Lemma proposals_never_stuck_witness :
  exists p g1 np g2 nr, next_pending sample_state 12 1 = Ok p /\
    promote_schedule p sample_gpo = Ok (g1, np) /\ promote_rate p g1 = Ok (g2, nr).
Proof.
  destruct (next_pending sample_state 12 1) as [p|] eqn:Ep; [|vm_compute in Ep; discriminate Ep].
  destruct (proposals_never_stuck (T := unit) sample_state 12 1 p sample_gpo [] accept_all)
    as (g1 & np & g2 & nr & E1 & E2 & _).
  - split; intros _; vm_compute; reflexivity.
  - exact Ep.
  - constructor.
  - intros d Hd. by apply elem_of_nil in Hd.
  - reflexivity.
  - exists p, g1, np, g2, nr. split_and!; [reflexivity|exact E1|exact E2].
Defined.

(** A snapshot does not keep the proposed rate. On the same block, a node with the proposed rate
    announces it and a node that was restored from a snapshot of the same state announces none;
    and a node restored from an older snapshot in which a schedule is proposed takes
    the block of the schedule for a proposal of a rate, and cannot start the next block. *)
Theorem snapshot_breaks_proposals :
  exists p, next_pending sample_state 12 1 = Ok p /\
    (exists g r, promote_rate p sample_gpo = Ok (g, Some r)) /\
    (exists g, promote_rate p (from_snapshot_row (to_snapshot_row sample_gpo) sample_fresh) = Ok (g, None)) /\
    promote_rate p (initalize_from_v4 sample_fresh sample_row_v4)
      = Throw producer_schedule_exception.
Proof.
  destruct (next_pending sample_state 12 1) as [p|] eqn:Ep; [|vm_compute in Ep; discriminate Ep].
  exists p. split; [done|]. vm_compute in Ep. injection Ep as <-. vm_compute. eauto 6.
Qed.
