(* ===== verification/Controller.v ===== *)
(** * The controller: the model

    How blocks are applied, taken back and made irreversible (libraries/chain/controller.cpp):
    [start_block], [finalize_block], [commit_block], [abort_block], [apply_block], [pop_block],
    [log_irreversible], [maybe_switch_forks], [push_block] and the production of a block.

    The chain state is one value; an undo session of the database keeps the value that it
    started from, as the undo index does for every table (UndoRefine). What is done to a
    block that is being built touches the chain state, the manager of the protocol features and
    the stage of the block, and is written in the monad over these three ([work]); the rest is
    written in the monad over the whole controller. The execution of one transaction, which runs
    contracts in the WebAssembly engine, is the parameter [Execution].

    Left out: signals, logging, metadata and recovered keys of transactions, the limits on the
    size of the database, threads. [in_trx_requiring_checks] is set only while a transaction
    is executed. An exception inside one activation of a feature leaves the chain
    state as it was before that activation. A [catch] also sees [undefined_behaviour]. *)

From S2P Require Import Prelude Effects Types BlockTimestamp Authority Merkle BlockHeader UndoIndex Database AuthorizationManager Whitelist ProtocolFeatures BlockHeaderState ForkDatabase Proposals.

Inductive block_status := irreversible | validated_status | complete | incomplete.
Inductive db_read_mode := SPECULATIVE | HEAD | READ_ONLY | IRREVERSIBLE.

#[global] Instance block_status_eq_dec : EqDecision block_status.
Proof. solve_decision. Defined.
#[global] Instance db_read_mode_eq_dec : EqDecision db_read_mode.
Proof. solve_decision. Defined.

(** What is read of [controller::config]. *)
Record config := mk_config {
  read_mode : db_read_mode;
  disable_replay_opts : bool;
  force_all_checks : bool;
  light_validation : bool;
  trusted_producers : gset account_name;
  terminate_at_block : Z
}.

Definition bs_lib (p : block_state_ptr) : Z := dpos_irreversible_blocknum p.

(** ** The chain state *)
Section controller.
Context {T C : Type}.

Record chain_state := mk_state {
  gpo : global_property_object;
  pso : protocol_state_object;
  auth_db : AuthorizationManager.database;
  block_summaries : gmap Z block_id;
  input_transactions : gmap digest Z;
  contracts : C
}.

Definition with_gpo (s : chain_state) (g : global_property_object) : chain_state :=
  mk_state g (pso s) (auth_db s) (block_summaries s) (input_transactions s) (contracts s).
Definition with_pso (s : chain_state) (p : protocol_state_object) : chain_state :=
  mk_state (gpo s) p (auth_db s) (block_summaries s) (input_transactions s) (contracts s).
Definition with_auth_db (s : chain_state) (a : AuthorizationManager.database) : chain_state :=
  mk_state (gpo s) (pso s) a (block_summaries s) (input_transactions s) (contracts s).
Definition with_summaries (s : chain_state) (m : gmap Z block_id) : chain_state :=
  mk_state (gpo s) (pso s) (auth_db s) m (input_transactions s) (contracts s).
Definition with_inputs (s : chain_state) (m : gmap digest Z) : chain_state :=
  mk_state (gpo s) (pso s) (auth_db s) (block_summaries s) m (contracts s).

(** The database: its state, the states at the start of the open sessions, the revision. *)
Record chain_db := mk_chain_db {
  cur : chain_state;
  undo_stack : list chain_state;
  revision : Z
}.

Definition start_session (d : chain_db) : chain_db :=
  mk_chain_db (cur d) (cur d :: undo_stack d) (revision d + 1).

Definition undo_db (d : chain_db) : chain_db :=
  match undo_stack d with
  | [] => d
  | s :: st => mk_chain_db s st (revision d - 1)
  end.

(** [commit]: the sessions up to a revision are forgotten. *)
Definition commit_db (d : chain_db) (n : Z) : chain_db :=
  let n := Z.min n (revision d) in
  if n =? revision d then mk_chain_db (cur d) [] (revision d)
  else if revision d - n <? Z.of_nat (length (undo_stack d)) then
    mk_chain_db (cur d) (take (Z.to_nat (revision d - n)) (undo_stack d)) (revision d)
  else d.

(** ** Building a block *)
Record work := mk_work {
  w_state : chain_state;
  w_manager : protocol_feature_manager;
  w_stage : block_stage_type T
}.

Definition set_state (s : chain_state) (w : work) : work := mk_work s (w_manager w) (w_stage w).
Definition set_manager (m : protocol_feature_manager) (w : work) : work := mk_work (w_state w) m (w_stage w).
Definition set_stage (b : block_stage_type T) (w : work) : work := mk_work (w_state w) (w_manager w) b.

(** What is fixed while a block is built: the head, whether this node produces the block, the rate of the fee
    manager, and the time up to which blocks are replayed. *)
Record block_context := mk_block_context {
  bc_head : block_header_state;
  bc_producing : bool;
  bc_rate : Z;
  bc_replay_head_time : option Z
}.

(** What a transaction is executed in; [env_light] is [light_validation_allowed]. *)
Record exec_env := mk_env {
  env_context : block_context;
  env_state : chain_state;
  env_manager : protocol_feature_manager;
  env_block : building_block T;
  env_light : bool
}.

(** What it leaves: the state, the receipts it adds to the block, the digests of the
    receipts of its actions, and the exception that its trace carries. *)
Record outcome := mk_outcome {
  out_state : chain_state;
  out_receipts : list (transaction_receipt T);
  out_digests : list digest;
  out_except : option exn
}.

Class Execution := {
  on_block : exec_env -> result outcome;
  push_transaction : exec_env -> option Z -> Z -> T -> result outcome;
  push_scheduled_transaction : exec_env -> Z -> digest -> result outcome;
  receipt_digest : transaction_receipt T -> digest
}.

Context `{Crypto} `{Serialization} `{FeatureDigests} `{Execution}.
Context (intrinsic_hash : string -> Z).

(** [std::get< building_block >( pending->_block_stage )] *)
Definition building_stage : M work (building_block T) :=
  w ← get; lift (get_building (w_stage w)).

Definition with_receipts (bb : building_block T) (o : outcome) : building_block T :=
  mk_building (bb_pbhs bb) (_new_pending_producer_schedule bb) (_new_pending_rate_info bb)
    (_new_protocol_feature_activations bb) (_num_new_protocol_features_that_have_activated bb)
    (_pending_trx_receipts bb ++ out_receipts o)
    (match _trx_mroot_or_receipt_digests bb with
     | inl d => inl d
     | inr l => inr (l ++ map receipt_digest (out_receipts o))
     end)
    (_action_receipt_digests bb ++ out_digests o).

(** The effect of a transaction on the block. *)
Definition record_outcome (o : outcome) : M work unit :=
  bb ← building_stage;
  update (fun w => set_stage (building (with_receipts bb o)) (set_state (out_state o) w)).

Definition with_activated (bb : building_block T) : building_block T :=
  mk_building (bb_pbhs bb) (_new_pending_producer_schedule bb) (_new_pending_rate_info bb)
    (_new_protocol_feature_activations bb) (S (_num_new_protocol_features_that_have_activated bb))
    (_pending_trx_receipts bb) (_trx_mroot_or_receipt_digests bb) (_action_receipt_digests bb).

(** The loop of [start_block] over the new activations; [m] and [k] are its map and counter. *)
Fixpoint activation_loop (block_num : Z) (m : gmap digest bool) (k : nat) (l : list digest) : M work nat :=
  match l with
  | [] => mret k
  | d :: l =>
      w ← get;
      bb ← building_stage;
      st ← lift (activation_step intrinsic_hash block_num
                   (mk_activation m k (pso (w_state w)) (w_manager w)) d);
      _ ← update (fun w => mk_work (with_pso (w_state w) (as_pso st)) (as_manager st)
                             (building (with_activated bb)));
      activation_loop block_num (as_map st) (num_preactivated_that_have_activated st) l
  end.

Definition start_features (features : list digest) : M work unit :=
  w ← get;
  bb ← building_stage;
  let bn := block_num (bb_pbhs bb) in
  let pre := preactivated_protocol_features (pso (w_state w)) in
  match features with
  | [] => check (length pre =? 0)%nat block_validate_exception
  | _ :: _ =>
      k ← activation_loop bn (list_to_map (map (fun d => (d, false)) pre)) 0 features;
      _ ← check ((length pre =? 0)%nat || (k =? length pre)%nat) block_validate_exception;
      update (fun w =>
        let p := pso (w_state w) in
        set_state (with_pso (w_state w)
          (mk_pso (ProtocolFeatures.activated_protocol_features p ++ map (fun d => (d, bn)) features) []
             (whitelisted_intrinsics p) (pso_num_supported_key_types p))) w)
  end.

(** The promotion of the proposals. *)
Definition start_proposals : M work unit :=
  w ← get;
  bb ← building_stage;
  '(g, np) ← lift (promote_schedule (bb_pbhs bb) (gpo (w_state w)));
  '(g, nr) ← lift (promote_rate (bb_pbhs bb) g);
  update (fun w => set_stage (building
      (mk_building (bb_pbhs bb)
         (match np with Some s => Some s | None => _new_pending_producer_schedule bb end)
         (match nr with Some r => Some r | None => _new_pending_rate_info bb end)
         (_new_protocol_feature_activations bb) (_num_new_protocol_features_that_have_activated bb)
         (_pending_trx_receipts bb) (_trx_mroot_or_receipt_digests bb) (_action_receipt_digests bb)))
    (set_state (with_gpo (w_state w) g) w)).

(** The on-block transaction: an exception does not reach the block. *)
Definition run_on_block (bc : block_context) : M work unit :=
  w ← get;
  bb ← building_stage;
  match on_block (mk_env bc (w_state w) (w_manager w) bb false) with
  | Ok o => record_outcome o
  | Throw _ => mret tt
  end.

(** The times are microseconds, the expirations seconds. *)
Definition unexpired (now : Z) (m : gmap digest Z) : gmap digest Z := filter (fun e : digest * Z => snd e * 1000000 >= now) m.

Definition clear_expired_input_transactions : M work unit :=
  bb ← building_stage;
  let now := to_time_point (timestamp (bb_pbhs bb)) in
  update (fun w => set_state (with_inputs (w_state w) (unexpired now (input_transactions (w_state w)))) w).

Definition producers_account_name : account_name := Eval vm_compute in n_ "dcd.prods".
Definition majority_producers_permission_name : permission_name := Eval vm_compute in n_ "prod.major".
Definition minority_producers_permission_name : permission_name := Eval vm_compute in n_ "prod.minor".

(** [update_permission] of [update_producers_authority] *)
Definition update_permission (ps : list producer_authority) (numerator denominator : Z)
    (db : AuthorizationManager.database) (n : permission_name) : result AuthorizationManager.database :=
  permission ← get_permission db (mk_level producers_account_name n);
  let num_producers := u32 (Z.of_nat (length ps)) in
  let a := mk_authority (u32 (u32 (num_producers * numerator) / denominator + 1)) []
             (map (fun p => mk_plw (mk_level (producer_name p) config.active_name) 1) ps) [] in
  if bool_decide (auth permission = a) then Ok db
  else
    t ← db_modify permission_keys (permissions db) (po_id permission)
          (fun po => mk_permission (po_id po) (usage_id po) (parent po) (owner po) (name po)
                       (last_updated po) a);
    Ok (with_permissions db t).

Definition update_producers_authority : M work unit :=
  bb ← building_stage;
  w ← get;
  let ps := producers (active_schedule (bb_pbhs bb)) in
  db ← lift (update_permission ps 2 3 (auth_db (w_state w)) config.active_name);
  db ← lift (update_permission ps 1 2 db majority_producers_permission_name);
  db ← lift (update_permission ps 1 3 db minority_producers_permission_name);
  update (fun w => set_state (with_auth_db (w_state w) db) w).

(** The body of [start_block], run on the block that was just made pending. *)
Definition start_body (bc : block_context) : M work unit :=
  bb ← building_stage;
  _ ← start_features (_new_protocol_feature_activations bb);
  _ ← start_proposals;
  _ ← run_on_block bc;
  _ ← clear_expired_input_transactions;
  update_producers_authority.

(** TaPoS table *)
Definition create_block_summary (i : block_id) : M work unit :=
  w ← get;
  let sid := Z.land (num_from_id i) 0xffff in
  match block_summaries (w_state w) !! sid with
  | None => throw out_of_range
  | Some _ => update (fun w => set_state (with_summaries (w_state w)
                                  (<[sid := i]> (block_summaries (w_state w)))) w)
  end.

(** [finalize_block] *)
Definition finalize_body : M work unit :=
  w ← get;
  match w_stage w with
  | building bb =>
      am ← lift (merkle hash_pair (_action_receipt_digests bb));
      tm ← lift (match _trx_mroot_or_receipt_digests bb with
                 | inl d => Ok d
                 | inr l => merkle hash_pair l
                 end);
      h ← lift (make_block_header (bb_pbhs bb) tm am (_new_pending_producer_schedule bb)
                  (_new_pending_rate_info bb) (_new_protocol_feature_activations bb)
                  (get_builtin_digest (_protocol_feature_set (w_manager w))));
      let i := calculate_id (h_base h) in
      _ ← create_block_summary i;
      update (set_stage (assembled (mk_assembled i (bb_pbhs bb) h (_pending_trx_receipts bb)
                (_new_pending_producer_schedule bb) (_new_pending_rate_info bb))))
  | _ => throw block_validate_exception
  end.

(** ** Blocks *)
Record signed_block := mk_block {
  block_header_of : signed_block_header;
  block_transactions : list (transaction_receipt T);
  block_signatures : list signature
}.

(** [bsp->block] of the object at an address; it is null in a state from a snapshot. *)
Context (block_at : Z -> option signed_block).

Definition with_mroot (bb : building_block T) (d : digest) : building_block T :=
  mk_building (bb_pbhs bb) (_new_pending_producer_schedule bb) (_new_pending_rate_info bb)
    (_new_protocol_feature_activations bb) (_num_new_protocol_features_that_have_activated bb)
    (_pending_trx_receipts bb) (inl d) (_action_receipt_digests bb).

(** One receipt of the block: its transaction is executed and the receipt it gives is
    compared. *)
Definition apply_receipt (bc : block_context) (light : bool) (r : transaction_receipt T) :
    M work unit :=
  w ← get;
  bb ← building_stage;
  let env := mk_env bc (w_state w) (w_manager w) bb light in
  let cpu := cpu_usage_us (receipt_header r) in
  o ← lift (match receipt_of r with
            | trx_packed t =>
                push_transaction env (if light then Some (net_usage_words (receipt_header r)) else None) cpu t
            | trx_id i => push_scheduled_transaction env cpu i
            end);
  _ ← record_outcome o;
  let can_fail := bool_decide (status (receipt_header r) = hard_fail) &&
                  match receipt_of r with trx_id _ => true | trx_packed _ => false end in
  _ ← match out_except o with
      | Some e => if can_fail then mret tt else throw e
      | None => mret tt
      end;
  bb' ← building_stage;
  _ ← check (0 <? length (_pending_trx_receipts bb'))%nat block_validate_exception;
  _ ← check (length (_pending_trx_receipts bb') =? S (length (_pending_trx_receipts bb)))%nat
        block_validate_exception;
  match last (_pending_trx_receipts bb') with
  | Some r' => check (bool_decide (receipt_header r' = receipt_header r)) block_validate_exception
  | None => throw undefined_behaviour
  end.

(** What [apply_block] does to a block after it was started: [i] is the identifier of the block. *)
Definition apply_body (bc : block_context) (light : bool) (b : signed_block) (i : block_id) :
    M work unit :=
  bb ← building_stage;
  _ ← update (set_stage (building (with_mroot bb (h_transaction_mroot (h_base (block_header_of b))))));
  _ ← for_each (apply_receipt bc light) (block_transactions b);
  _ ← finalize_body;
  w ← get;
  match w_stage w with
  | assembled ab => check (bool_decide (i = ab_id ab)) block_validate_exception
  | _ => throw bad_variant_access
  end.

(** ** The controller *)
Record pending_state := mk_pending_state {
  session_open : bool;
  stage : block_stage_type T;
  _block_status : block_status;
  _producer_block_id : option block_id
}.

Record controller := mk_controller {
  kv_db : chain_db;
  reversible_blocks : gmap Z block_state_ptr;
  blog : list block_state_ptr;
  pending : option pending_state;
  ctl_head : block_state_ptr;
  fork_db : fork_database;
  protocol_features : protocol_feature_manager;
  contract_cur_rate : Z;
  replay_head_time : option Z;
  trusted_producer_light_validation : bool
}.

Definition set_db (d : chain_db) (c : controller) : controller :=
  mk_controller d (reversible_blocks c) (blog c) (pending c) (ctl_head c) (fork_db c)
    (protocol_features c) (contract_cur_rate c) (replay_head_time c) (trusted_producer_light_validation c).
Definition set_reversible (m : gmap Z block_state_ptr) (c : controller) : controller :=
  mk_controller (kv_db c) m (blog c) (pending c) (ctl_head c) (fork_db c)
    (protocol_features c) (contract_cur_rate c) (replay_head_time c) (trusted_producer_light_validation c).
Definition set_blog (l : list block_state_ptr) (c : controller) : controller :=
  mk_controller (kv_db c) (reversible_blocks c) l (pending c) (ctl_head c) (fork_db c)
    (protocol_features c) (contract_cur_rate c) (replay_head_time c) (trusted_producer_light_validation c).
Definition set_pending (p : option pending_state) (c : controller) : controller :=
  mk_controller (kv_db c) (reversible_blocks c) (blog c) p (ctl_head c) (fork_db c)
    (protocol_features c) (contract_cur_rate c) (replay_head_time c) (trusted_producer_light_validation c).
Definition set_head (h : block_state_ptr) (c : controller) : controller :=
  mk_controller (kv_db c) (reversible_blocks c) (blog c) (pending c) h (fork_db c)
    (protocol_features c) (contract_cur_rate c) (replay_head_time c) (trusted_producer_light_validation c).
Definition set_fork_db (f : fork_database) (c : controller) : controller :=
  mk_controller (kv_db c) (reversible_blocks c) (blog c) (pending c) (ctl_head c) f
    (protocol_features c) (contract_cur_rate c) (replay_head_time c) (trusted_producer_light_validation c).
Definition set_features (m : protocol_feature_manager) (c : controller) : controller :=
  mk_controller (kv_db c) (reversible_blocks c) (blog c) (pending c) (ctl_head c) (fork_db c)
    m (contract_cur_rate c) (replay_head_time c) (trusted_producer_light_validation c).
Definition set_rate (r : Z) (c : controller) : controller :=
  mk_controller (kv_db c) (reversible_blocks c) (blog c) (pending c) (ctl_head c) (fork_db c)
    (protocol_features c) r (replay_head_time c) (trusted_producer_light_validation c).
Definition set_trusted (t : bool) (c : controller) : controller :=
  mk_controller (kv_db c) (reversible_blocks c) (blog c) (pending c) (ctl_head c) (fork_db c)
    (protocol_features c) (contract_cur_rate c) (replay_head_time c) t.

Context (conf : config).

(** The context of a block that is built on the head with a status. *)
Definition context_of (c : controller) (s : block_status) : block_context :=
  mk_block_context (ctl_head c) (bool_decide (s = incomplete)) (contract_cur_rate c) (replay_head_time c).

(** Runs an operation on the pending block. *)
Definition in_block {A} (m : M work A) : M controller A := fun c =>
  match pending c with
  | None => (c, Throw undefined_behaviour)
  | Some ps =>
      match m (mk_work (cur (kv_db c)) (protocol_features c) (stage ps)) with
      | (w, r) =>
          (set_pending (Some (mk_pending_state (session_open ps) (w_stage w) (_block_status ps)
                                (_producer_block_id ps)))
             (set_features (w_manager w)
                (set_db (mk_chain_db (w_state w) (undo_stack (kv_db c)) (revision (kv_db c))) c)), r)
      end
  end.

Definition in_fork_db (m : fork_database -> result fork_database) : M controller unit :=
  c ← get; f ← lift (m (fork_db c)); update (set_fork_db f).

Definition light_validation_allowed (c : controller) : bool :=
  match pending c with
  | None => false
  | Some ps =>
      match _block_status ps with
      | irreversible | validated_status => negb (force_all_checks conf)
      | complete => light_validation conf || trusted_producer_light_validation c
      | incomplete => false
      end
  end.

Definition skip_db_sessions (bs : block_status) : bool :=
  bool_decide (bs = irreversible) && negb (disable_replay_opts conf).

(** [pending.reset()]: the destructor of the session undoes it. *)
Definition reset_pending : M controller unit :=
  c ← get;
  match pending c with
  | None => mret tt
  | Some ps => update (fun c => set_pending None (if session_open ps then set_db (undo_db (kv_db c)) c else c))
  end.

Definition popped_to (n : Z) : M controller unit :=
  c ← get;
  m ← lift (popped_blocks_to (protocol_features c) n);
  update (set_features m).

(** [abort_block]; the transactions that it returns are left out. *)
Definition abort_block : M controller unit :=
  c ← get;
  match pending c with
  | None => mret tt
  | Some _ => _ ← reset_pending; popped_to (block_num (ctl_head c))
  end.

(** [start_block] of the implementation *)
Definition start_block (t confirm_block_count : Z) (features : list digest) (s : block_status)
    (producer_block_id : option block_id) : M controller unit :=
  c ← get;
  _ ← check (match pending c with None => true | Some _ => false end) block_validate_exception;
  let head_block_num := block_num (ctl_head c) in
  on_exception
    (_ ← unless (skip_db_sessions s) (check (revision (kv_db c) =? head_block_num) database_exception);
     bb ← lift (building_new (ctl_head c) t confirm_block_count features);
     _ ← update (fun c => set_pending
           (Some (mk_pending_state (negb (skip_db_sessions s)) (building bb) s producer_block_id))
           (if skip_db_sessions s then c else set_db (start_session (kv_db c)) c));
     when (bool_decide (read_mode conf = SPECULATIVE) || negb (bool_decide (s = incomplete)))
       (in_block (start_body (context_of c s))))
    (_ ← popped_to head_block_num; reset_pending).

(** The completed block of [pending]. *)
Definition completed_block : M controller block_state_ptr :=
  c ← get;
  match pending c with
  | None => throw undefined_behaviour
  | Some ps => match stage ps with
               | completed p => mret p
               | _ => throw block_validate_exception
               end
  end.

Definition complete_block (p : block_state_ptr) : M controller unit :=
  update (fun c => match pending c with
    | Some ps => set_pending (Some (mk_pending_state (session_open ps) (completed p) (_block_status ps)
                                      (_producer_block_id ps))) c
    | None => c
    end).

(** [get_new_rate_params] of the fee manager *)
Definition get_new_rate_params : M controller unit :=
  c ← get;
  r ← lift (active_rate_of (ctl_head c) (stage <$> pending c));
  update (set_rate (pri_rate r)).

(** The entry of the database of reversible blocks, whose index by number is unique. *)
Definition add_reversible (p : block_state_ptr) : M controller unit :=
  c ← get;
  match reversible_blocks c !! block_num p with
  | Some _ => throw logic_error
  | None => update (set_reversible (<[block_num p := p]> (reversible_blocks c)))
  end.

(** [commit_block]: [log] is [log_irreversible], which is called only with [add_to_fork_db]. *)
Definition commit_block (log : M controller unit) (add_to_fork_db : bool) : M controller unit :=
  _ ← get_new_rate_params;
  _ ← on_exception
    (bsp ← completed_block;
     _ ← when add_to_fork_db
       (_ ← in_fork_db (fun f => add f (Some bsp) false);
        _ ← in_fork_db (fun f => mark_valid f bsp);
        c ← get;
        h ← lift (deref (head (fork_db c)));
        _ ← update (set_head h);
        check (addr bsp =? addr h) fork_database_exception);
     c ← get;
     _ ← when (match replay_head_time c with None => true | Some _ => false end &&
               negb (bool_decide (read_mode conf = IRREVERSIBLE)))
           (add_reversible bsp);
     when add_to_fork_db log)
    abort_block;
  update (set_pending None).

(** [apply_block] *)
Definition apply_block (bsp : block_state_ptr) (s : block_status) : M controller unit :=
  on_exception
    (b ← lift (deref (block_at (addr bsp)));
     features ← lift (get_new_protocol_feature_activations bsp);
     let hb := h_base (block_header_of b) in
     _ ← start_block (h_timestamp hb) (h_confirmed hb) features s (Some (id bsp));
     c ← get;
     _ ← in_block (apply_body (context_of c s) (light_validation_allowed c) b (id bsp));
     _ ← complete_block bsp;
     commit_block (throw undefined_behaviour) false)
    abort_block.

(** [pop_block] *)
Definition pop_block : M controller unit :=
  c ← get;
  prev ← match get_block (fork_db c) (prev_id (ctl_head c)) with
         | Some p => mret p
         | None =>
             r ← lift (deref (root (fork_db c)));
             _ ← check (bool_decide (bs_id r = prev_id (ctl_head c))) block_validate_exception;
             mret r
         end;
  _ ← update (set_reversible (delete (block_num (ctl_head c)) (reversible_blocks c)));
  _ ← when (bool_decide (read_mode conf = SPECULATIVE))
        (check (match block_at (addr (ctl_head c)) with Some _ => true | None => false end)
           block_validate_exception);
  _ ← update (set_head prev);
  _ ← update (fun c => set_db (undo_db (kv_db c)) c);
  popped_to (bs_num prev).

(** [advance_root] changes the fork database also when it throws. *)
Definition advance_fork_root (i : block_id) : M controller unit := fun c =>
  match advance_root (fork_db c) i with (f, r) => (set_fork_db f c, r) end.

(** One irreversible block of [log_irreversible]. *)
Definition log_block (b : block_state_ptr) : M controller unit :=
  _ ← when (bool_decide (read_mode conf = IRREVERSIBLE))
        (_ ← apply_block b complete;
         _ ← update (set_head b);
         in_fork_db (fun f => mark_valid f b));
  _ ← update (fun c => set_blog (blog c ++ [b]) c);
  _ ← update (fun c => set_db (commit_db (kv_db c) (block_num b)) c);
  update (fun c => set_reversible
    (filter (fun e : Z * block_state_ptr => ~ fst e <= block_num b) (reversible_blocks c)) c).

(** The loop of [log_irreversible]: the root to advance to when it returns, and when it throws. *)
Fixpoint log_loop (root_id : block_id) (l : list block_state_ptr) : M controller block_id :=
  match l with
  | [] => mret root_id
  | b :: l =>
      _ ← on_exception (log_block b)
            (c ← get;
             r ← lift (deref (root (fork_db c)));
             when (negb (bool_decide (root_id = bs_id r))) (advance_fork_root root_id));
      log_loop (id b) l
  end.

(** The first number of the block log. *)
Context (first_block_num : Z).

Definition log_irreversible : M controller unit :=
  c ← get;
  _ ← check (match root (fork_db c) with Some _ => true | None => false end) fork_database_exception;
  r ← lift (deref (root (fork_db c)));
  let log_head := last (blog c) in
  let lib_num := match log_head with
                 | Some b => header_block_num (h_base (header b))
                 | None => u32 (first_block_num - 1)
                 end in
  _ ← match log_head with
      | Some b => check (bool_decide (bs_id r = calculate_id (h_base (header b)))) fork_database_exception
      | None => check (block_num r =? lib_num) fork_database_exception
      end;
  fork_head ← lift (if bool_decide (read_mode conf = IRREVERSIBLE) then pending_head (fork_db c)
                    else Ok (head (fork_db c)));
  fork_head ← lift (deref fork_head);
  if bs_lib fork_head <=? lib_num then mret tt
  else
    branch ← lift (fetch_branch (fork_db c) (bs_id fork_head) (bs_lib fork_head));
    root_id ← log_loop (bs_id r) (rev branch);
    when (negb (bool_decide (root_id = bs_id r))) (advance_fork_root root_id).

(** [attempt m]: the exception of [m], if it throws one. *)
Definition attempt (m : M controller unit) : M controller (option exn) :=
  catch (_ ← m; mret None) (fun e => mret (Some e)).

(** A block of a branch is applied and becomes the head. *)
Definition switch_to (b : block_state_ptr) (s : block_status) : M controller unit :=
  _ ← apply_block b s;
  _ ← in_fork_db (fun f => mark_valid f b);
  update (set_head b).

Fixpoint pop_blocks (n : nat) : M controller unit :=
  match n with
  | O => mret tt
  | S n => _ ← pop_block; pop_blocks n
  end.

(** [self.head_block_id() == branches.second.back()->header.previous] *)
Definition check_fork_point (second : list block_state_ptr) : M controller unit :=
  c ← get;
  b ← lift (deref (last second));
  check (bool_decide (id (ctl_head c) = prev_id b)) fork_database_exception.

(** The loop of [maybe_switch_forks] over the new branch, oldest block first; [applied] of its
    blocks were applied. When one fails, it is removed with its descendants, the blocks
    that were applied are popped, and the old branch is applied again. *)
Fixpoint switch_loop (applied : nat) (second todo : list block_state_ptr) : M controller unit :=
  match todo with
  | [] => mret tt
  | b :: todo =>
      c ← get;
      except ← attempt (switch_to b (if is_valid (fork_db c) b then validated_status else complete));
      match except with
      | None => switch_loop (S applied) second todo
      | Some e =>
          _ ← in_fork_db (fun f => remove f (id b));
          _ ← pop_blocks applied;
          _ ← check_fork_point second;
          _ ← for_each (fun b => _ ← apply_block b validated_status; update (set_head b)) (rev second);
          throw e
      end
  end.

Definition maybe_switch_forks (new_head : block_state_ptr) (s : block_status) : M controller unit :=
  c ← get;
  if bool_decide (prev_id new_head = id (ctl_head c)) then
    _ ← on_exception (switch_to new_head s) (in_fork_db (fun f => remove f (id new_head)));
    log_irreversible
  else if negb (bool_decide (id new_head = id (ctl_head c))) then
    '(first, second) ← lift (fetch_branch_from (fork_db c) (id new_head) (id (ctl_head c)));
    _ ← match second with
        | [] => mret tt
        | _ :: _ => _ ← pop_blocks (length second); check_fork_point second
        end;
    _ ← switch_loop 0 second (rev first);
    log_irreversible
  else mret tt.

(** [create_block_state_future]: the block at the address [a], which is that of the new object. *)
Definition create_block_state (c : controller) (a : Z) (i : block_id) : result block_state_ptr :=
  match block_at a with
  | None => Throw block_validate_exception
  | Some b =>
      _ ← dcd_assert (match get_block (fork_db c) i with Some _ => false | None => true end)
            fork_database_exception;
      let hb := h_base (block_header_of b) in
      prev ← get_block_header (fork_db c) (h_previous hb);
      match prev with
      | None => Throw unlinkable_block_exception
      | Some prev =>
          trx_mroot ← merkle hash_pair (map receipt_digest (block_transactions b));
          _ ← dcd_assert (bool_decide (h_transaction_mroot hb = trx_mroot)) block_validate_exception;
          let pfs := _protocol_feature_set (protocol_features c) in
          s ← next (bsp_state prev) (block_header_of b) (block_signatures b) (get_builtin_digest pfs)
                (fun t => check_protocol_features pfs (to_time_point t)) false;
          _ ← dcd_assert (bool_decide (i = id s)) block_validate_exception;
          Ok (mk_ptr a s)
      end
  end.

Definition is_trusted_producer (p : account_name) : bool :=
  light_validation conf || bool_decide (p ∈ trusted_producers conf).

(** [push_block] of the state that [create_block_state] made. The flag of light validation is
    restored on every way out. *)
Definition push_block (bsp : block_state_ptr) : M controller unit :=
  c0 ← get;
  _ ← check (match pending c0 with None => true | Some _ => false end) block_validate_exception;
  b ← lift (deref (block_at (addr bsp)));
  let hb := h_base (block_header_of b) in
  if (0 <? terminate_at_block conf) && (terminate_at_block conf <? header_block_num hb) then mret tt
  else
    let restore := update (set_trusted (trusted_producer_light_validation c0)) in
    _ ← on_exception
      (_ ← in_fork_db (fun f => add f (Some bsp) false);
       _ ← when (is_trusted_producer (h_producer hb)) (update (set_trusted true));
       c ← get;
       if negb (bool_decide (read_mode conf = IRREVERSIBLE)) then
         new_head ← lift (pending_head (fork_db c));
         new_head ← lift (deref new_head);
         maybe_switch_forks new_head complete
       else log_irreversible)
      restore;
    restore.

(** ** Production *)

(** [controller::finalize_block]: [a] is the address of the new object. *)
Definition finalize_block (a : Z) (signer : digest -> list signature) : M controller block_state_ptr :=
  c ← get;
  _ ← check (match pending c with Some _ => true | None => false end) block_validate_exception;
  _ ← in_block finalize_body;
  c ← get;
  match pending c with
  | None => throw undefined_behaviour
  | Some ps =>
      match stage ps with
      | assembled ab =>
          '(s, _) ← lift (finish_next_sign (ab_pbhs ab) (_unsigned_block ab)
                            (get_builtin_digest (_protocol_feature_set (protocol_features c)))
                            (fun _ _ _ => Ok tt) signer);
          let bsp := mk_ptr a s in
          _ ← complete_block bsp;
          mret bsp
      | _ => throw bad_variant_access
      end
  end.

(** [controller::start_block( when, confirm_block_count, new_protocol_feature_activations )] *)
Definition start_production (t confirm_block_count : Z) (features : list digest) : M controller unit :=
  c ← get;
  _ ← lift (if (0 <? length features)%nat then
              check_protocol_features (_protocol_feature_set (protocol_features c))
                (to_time_point (h_timestamp (h_base (header (ctl_head c)))))
                (activated_protocol_features (ctl_head c)) features
            else Ok tt);
  start_block t confirm_block_count features incomplete None.

(** Pushes a transaction into the pending block; what it leaves is the exception that its trace carries. *)
Definition push_pending (push : exec_env -> result outcome) : M controller (option exn) :=
  _ ← check (negb (bool_decide (read_mode conf = IRREVERSIBLE))) transaction_type_exception;
  c ← get;
  let s := match pending c with Some ps => _block_status ps | None => incomplete end in
  in_block (w ← get; bb ← building_stage;
            o ← lift (push (mk_env (context_of c s) (w_state w) (w_manager w) bb (light_validation_allowed c)));
            _ ← record_outcome o;
            mret (out_except o)).

(** [controller::push_transaction] *)
Definition produce_transaction (cpu : Z) (t : T) : M controller (option exn) :=
  push_pending (fun env => push_transaction env None cpu t).

(** [controller::push_scheduled_transaction] *)
Definition produce_scheduled (cpu : Z) (i : digest) : M controller (option exn) :=
  push_pending (fun env => push_scheduled_transaction env cpu i).

(** [controller::commit_block] *)
Definition commit_production : M controller unit := commit_block log_irreversible true.
End controller.
