(* ===== verification/Actions.v ===== *)
(** * The execution of actions: the model

    How one action runs (libraries/chain/apply_context.cpp: [exec], [exec_one], [require_recipient], [execute_inline],
    [execute_context_free_inline], [schedule_action], the sequence numbers; libraries/chain/transaction_context.cpp:
    [schedule_action], [get_action_trace], [execute_action]; the host functions of libraries/chain/webassembly/action.cpp,
    authorization.cpp, transaction.cpp and privileged.cpp that concern it).

    The code of a contract is a parameter: it stands for a program, a tree of calls of host functions, as the engine
    runs it from the bytes of the code object. The host functions of the programs are those of authorization,
    notification, inline actions, tables, parameters, proposed schedules, privileges and deferred transactions; what does not touch the
    chain (memory, arithmetic, hashes, printing) belongs to the program. A program makes finitely many calls: a contract that
    runs forever is not one, and the code does not stop it either, since the deadline is not enforced. The engine finds the code in the table; that
    it may find it in its cache, under the same hash, makes no difference.

    [act] is a pointer into the traces in the code, which [schedule_action] renews because the vector of traces may
    move; here it is the action that it points to. Traces of memory usage, times, the console, and the identifiers for
    the logger of the virtual machine are left out. *)

From S2P Require Import Prelude Effects Types Asset BlockTimestamp BlockHeader Authority UndoIndex Database AuthorizationManager.
From S2P Require Import SystemContract TransactionTypes Fees CodeActions NodeLists Whitelist ProtocolFeatures ContractTables.
From S2P Require Import ContractTableSpec ContractTableReads ChainConfig Parameters BlockHeaderState Proposals.
From S2P Require Import Controller.

(** ** Receipts and traces *)
Record action_receipt := mk_action_receipt {
  ar_receiver : account_name;
  ar_act_digest : digest;
  ar_global_sequence : Z;
  ar_recv_sequence : Z;
  ar_auth_sequence : gmap account_name Z;
  ar_code_sequence : Z;
  ar_abi_sequence : Z
}.

Record action_trace := mk_trace {
  action_ordinal : Z;
  creator_action_ordinal : Z;
  closest_unnotified_ancestor_action_ordinal : Z;
  tr_receipt : option action_receipt;
  tr_receiver : account_name;
  tr_act : action;
  tr_context_free : bool;
  tr_except : option exn;
  tr_return_value : list Z
}.

Definition set_receipt (r : option action_receipt) (t : action_trace) : action_trace :=
  mk_trace (action_ordinal t) (creator_action_ordinal t) (closest_unnotified_ancestor_action_ordinal t) r (tr_receiver t)
    (tr_act t) (tr_context_free t) (tr_except t) (tr_return_value t).
Definition set_except (e : option exn) (t : action_trace) : action_trace :=
  mk_trace (action_ordinal t) (creator_action_ordinal t) (closest_unnotified_ancestor_action_ordinal t) (tr_receipt t)
    (tr_receiver t) (tr_act t) (tr_context_free t) e (tr_return_value t).
Definition set_return_value (b : list Z) (t : action_trace) : action_trace :=
  mk_trace (action_ordinal t) (creator_action_ordinal t) (closest_unnotified_ancestor_action_ordinal t) (tr_receipt t)
    (tr_receiver t) (tr_act t) (tr_context_free t) (tr_except t) b.

(** ** State *)

(** The tables of the chain state that only actions and fees use. *)
Record contract_state := mk_contract_state {
  codes : undo_index code_object;
  fees : undo_index action_fee_object;
  contract_tables : undo_index table_id_object;
  contract_objects : index_kind -> undo_index object;
  global_action_sequence : Z
}.

Abbreviation chain := (@chain_state contract_state).

Definition with_contracts (s : chain) (c : contract_state) : chain :=
  mk_state (gpo s) (pso s) (auth_db s) (block_summaries s) (input_transactions s) c.
Definition with_codes (s : chain) (u : undo_index code_object) : chain :=
  let c := contracts s in
  with_contracts s (mk_contract_state u (fees c) (contract_tables c) (contract_objects c) (global_action_sequence c)).
Definition with_fees (s : chain) (u : undo_index action_fee_object) : chain :=
  let c := contracts s in
  with_contracts s (mk_contract_state (codes c) u (contract_tables c) (contract_objects c) (global_action_sequence c)).
Definition with_sequence (s : chain) (n : Z) : chain :=
  let c := contracts s in
  with_contracts s (mk_contract_state (codes c) (fees c) (contract_tables c) (contract_objects c) n).
Definition with_rows (s : chain) (t : undo_index table_id_object) (o : index_kind -> undo_index object) : chain :=
  let c := contracts s in
  with_contracts s (mk_contract_state (codes c) (fees c) t o (global_action_sequence c)).
Definition with_metadata (s : chain) (u : undo_index account_metadata_object) : chain :=
  with_auth_db s (with_accounts (auth_db s) (account_index (auth_db s)) u).
Definition set_parameters (s : chain) (p : parameters) : chain :=
  let g := gpo s in
  with_gpo s (mk_gpo (proposed_schedule_block_num g) (proposed_schedule g) (proposed_rate_block_num g) (proposed_rate g)
                (chain_id g) p).

Definition chain_cfg (s : chain) : chain_config_v1 := configuration (gpo_parameters (gpo s)).

(** The members of [transaction_context] that actions change. *)
Record trx_state := mk_trx_state {
  ts_chain : chain;
  action_traces : list action_trace;
  executed_action_receipt_digests : list digest;
  net_usage : Z;
  explicit_net_usage : bool
}.

Definition set_chain (s : chain) (t : trx_state) : trx_state :=
  mk_trx_state s (action_traces t) (executed_action_receipt_digests t) (net_usage t) (explicit_net_usage t).
Definition set_traces (l : list action_trace) (t : trx_state) : trx_state :=
  mk_trx_state (ts_chain t) l (executed_action_receipt_digests t) (net_usage t) (explicit_net_usage t).
Definition set_digests (l : list digest) (t : trx_state) : trx_state :=
  mk_trx_state (ts_chain t) (action_traces t) l (net_usage t) (explicit_net_usage t).
Definition set_net (n : Z) (e : bool) (t : trx_state) : trx_state :=
  mk_trx_state (ts_chain t) (action_traces t) (executed_action_receipt_digests t) n e.

(** The members of [apply_context]. *)
Record apply_context := mk_context {
  ac_receiver : account_name;
  ac_ordinal : Z;
  first_receiver_action_ordinal : Z;
  recurse_depth : Z;
  act : action;
  context_free : bool;
  ac_privileged : bool;
  _notified : list (account_name * Z);
  _inline_actions : list Z;
  _cfa_inline_actions : list Z;
  action_return_value : list Z;
  ac_stores : index_kind -> iter_store
}.

Definition set_running (n : account_name) (o : Z) (c : apply_context) : apply_context :=
  mk_context n o (first_receiver_action_ordinal c) (recurse_depth c) (act c) (context_free c) (ac_privileged c) (_notified c)
    (_inline_actions c) (_cfa_inline_actions c) (action_return_value c) (ac_stores c).
Definition set_act (a : action) (c : apply_context) : apply_context :=
  mk_context (ac_receiver c) (ac_ordinal c) (first_receiver_action_ordinal c) (recurse_depth c) a (context_free c) (ac_privileged c)
    (_notified c) (_inline_actions c) (_cfa_inline_actions c) (action_return_value c) (ac_stores c).
Definition set_privileged_flag (b : bool) (c : apply_context) : apply_context :=
  mk_context (ac_receiver c) (ac_ordinal c) (first_receiver_action_ordinal c) (recurse_depth c) (act c) (context_free c) b
    (_notified c) (_inline_actions c) (_cfa_inline_actions c) (action_return_value c) (ac_stores c).
Definition set_lists (n : list (account_name * Z)) (i f : list Z) (c : apply_context) : apply_context :=
  mk_context (ac_receiver c) (ac_ordinal c) (first_receiver_action_ordinal c) (recurse_depth c) (act c) (context_free c)
    (ac_privileged c) n i f (action_return_value c) (ac_stores c).
Definition set_value (b : list Z) (c : apply_context) : apply_context :=
  mk_context (ac_receiver c) (ac_ordinal c) (first_receiver_action_ordinal c) (recurse_depth c) (act c) (context_free c)
    (ac_privileged c) (_notified c) (_inline_actions c) (_cfa_inline_actions c) b (ac_stores c).
Definition set_stores (st : index_kind -> iter_store) (c : apply_context) : apply_context :=
  mk_context (ac_receiver c) (ac_ordinal c) (first_receiver_action_ordinal c) (recurse_depth c) (act c) (context_free c)
    (ac_privileged c) (_notified c) (_inline_actions c) (_cfa_inline_actions c) (action_return_value c) st.

(** What is fixed while a transaction runs: the controller with its settings, and the members of the transaction
    context that are set before. *)
Section execution.
Context {T : Type}.

Record trx_env := mk_trx_env {
  te_head : block_header_state;
  te_stage : block_stage_type T;
  te_time : Z;
  te_features : builtin_protocol_feature_t -> bool;
  te_producing : bool;
  te_light : bool;
  te_lists : node_lists;
  te_key_blacklist : gset public_key;
  max_nonprivileged_inline_action_size : Z;
  ram_billing_in_notify : bool;
  all_subjective_mitigations_disabled : bool;
  te_fee_manager : transaction_fee_manager;
  enforce_whiteblacklist : bool;
  te_trx_id : digest;
  te_published : Z
}.

(** The controller as the authorization manager and the native actions read it. *)
Definition control_of (env : trx_env) (s : chain) : control :=
  mk_control (pso_num_supported_key_types (pso s)) (te_time env) (te_features env) (max_transaction_delay (chain_cfg s))
    (max_authority_depth (chain_cfg s)) (te_key_blacklist env)
    (enforce_whiteblacklist env && te_producing env).

(** ** Parameters *)

(** The host functions that programs call. Left out are the context-free data, [get_action], [read_transaction] and the other functions
    that only read the transaction, [check_transaction_authorization] and its like, [preactivate_feature], and [kv_*]; the last are modelled
    by themselves (KvContext). *)
Inductive host_call :=
  | hc_current_receiver
  | hc_read_action_data
  | hc_is_account (n : Z)
  | hc_require_auth (n : Z)
  | hc_require_auth2 (n p : Z)
  | hc_has_auth (n : Z)
  | hc_get_sender
  | hc_require_recipient (n : Z)
  | hc_send_inline (data : list Z)
  | hc_send_context_free_inline (data : list Z)
  | hc_set_action_return_value (data : list Z)
  | hc_db_write (w : write)
  | hc_db_read (r : read)
  | hc_is_privileged (n : Z)
  | hc_set_privileged (n : Z) (is_priv : bool)
  | hc_set_blockchain_parameters_packed (data : list Z)
  | hc_send_deferred (sender_id : Z) (payer : Z) (data : list Z) (replace_existing : Z)
  | hc_cancel_deferred (sender_id : Z)
  | hc_current_time
  | hc_publication_time
  | hc_get_blockchain_parameters_packed (buffer : list Z)
  | hc_get_parameters_packed (ids buffer : list Z)
  | hc_set_parameters_packed (data : list Z)
  | hc_get_wasm_parameters_packed (buffer : list Z) (max_version : Z)
  | hc_set_wasm_parameters_packed (data : list Z)
  | hc_get_kv_parameters_packed (buffer : list Z) (max_version : Z)
  | hc_set_kv_parameters_packed (data : list Z)
  | hc_set_proposed_producers (data : list Z)
  | hc_set_proposed_producers_ex (format : Z) (data : list Z).

Inductive host_value :=
  | hv_unit
  | hv_bool (b : bool)
  | hv_int (n : Z)
  | hv_bytes (b : list Z)
  | hv_iterator (it : option Z)
  | hv_row (it : Z) (o : option object)
  | hv_buffer (n : Z) (b : list Z).

(** A program returns, leaves with [dcd_exit], traps, or calls the host. *)
Inductive program :=
  | p_return
  | p_exit
  | p_trap (e : exn)
  | p_call (c : host_call) (k : host_value -> program).

(** [program_of] is what the bytes of a code do when [apply] is called with a receiver, the account of the action and its
    name, provided that they do not run forever: a program makes finitely many calls. *)
Class Engine := {
  program_of : list Z -> account_name -> account_name -> action_name -> program;
  unpack_producer_keys : list Z -> result (list legacy_producer_key);
  unpack_producer_authorities : list Z -> result (list producer_authority);
  key_valid : public_key -> bool;
  unpack_action : list Z -> result action;
  unpack_newaccount : list Z -> result newaccount;
  unpack_setcode : list Z -> result setcode;
  unpack_setabi : list Z -> result setabi;
  unpack_setfee : list Z -> result setfee;
  unpack_setrate : list Z -> result Z;
  action_digest : action -> digest;
  action_digest_with_output : action -> list Z -> digest;
  action_receipt_digest : action_receipt -> digest
}.

Context `{ActionData} `{Code} `{Engine} `{TransactionData} (env : trx_env).

(** ** Traces *)
Abbreviation Trx := (M trx_state).

Definition get_action_trace (ordinal : Z) : Trx action_trace :=
  t ← get;
  _ ← check ((0 <? ordinal) && (ordinal <=? Z.of_nat (length (action_traces t)))) transaction_exception;
  match action_traces t !! Z.to_nat (ordinal - 1) with
  | Some tr => mret tr
  | None => throw undefined_behaviour
  end.

Definition modify_trace (ordinal : Z) (f : action_trace -> action_trace) : Trx unit :=
  _ ← get_action_trace ordinal;
  update (fun t => set_traces (alter f (Z.to_nat (ordinal - 1)) (action_traces t)) t).

(** [schedule_action( act, ... )] of the transaction *)
Definition schedule_new_action (a : action) (n : account_name) (cf : bool) (creator ancestor : Z) : Trx Z :=
  t ← get;
  let new_action_ordinal := u32 (Z.of_nat (length (action_traces t)) + 1) in
  _ ← update (set_traces (action_traces t ++ [mk_trace new_action_ordinal creator ancestor None n a cf None []]));
  mret new_action_ordinal.

(** [schedule_action( ordinal, ... )] of the transaction *)
Definition schedule_same_action (ordinal : Z) (n : account_name) (cf : bool) (creator ancestor : Z) : Trx Z :=
  provided ← get_action_trace ordinal;
  schedule_new_action (tr_act provided) n cf creator ancestor.

(** ** The context of an action *)
Abbreviation Act := (M (apply_context * trx_state)).

Definition in_trx {A} (m : Trx A) : Act A := fun '(c, t) => let '(t', r) := m t in ((c, t'), r).
Definition context : Act apply_context := fun '(c, t) => ((c, t), Ok c).
Definition update_context (f : apply_context -> apply_context) : Act unit := fun '(c, t) => ((f c, t), Ok tt).
Definition chain_of : Act chain := fun '(c, t) => ((c, t), Ok (ts_chain t)).
Definition set_chain_to (s : chain) : Act unit := in_trx (update (set_chain s)).

(** [schedule_action] of the context *)
Definition refresh_act : Act unit :=
  c ← context;
  tr ← in_trx (get_action_trace (ac_ordinal c));
  update_context (set_act (tr_act tr)).

Definition schedule_notification (n : account_name) : Act Z :=
  c ← context;
  o ← in_trx (schedule_same_action (ac_ordinal c) n false (ac_ordinal c) (first_receiver_action_ordinal c));
  _ ← refresh_act;
  mret o.

Definition schedule_inline (a : action) (n : account_name) (cf : bool) : Act Z :=
  c ← context;
  o ← in_trx (schedule_new_action a n cf (ac_ordinal c) (first_receiver_action_ordinal c));
  _ ← refresh_act;
  mret o.

Definition has_recipient (c : apply_context) (n : account_name) : bool := existsb (fun p => fst p =? n) (_notified c).

Definition require_recipient (n : account_name) : Act unit :=
  c ← context;
  if has_recipient c n then mret tt
  else
    o ← schedule_notification n;
    update_context (fun c => set_lists (_notified c ++ [(n, o)]) (_inline_actions c) (_cfa_inline_actions c) c).

(** ** Inline actions *)
Definition is_account (s : chain) (n : account_name) : bool :=
  match find_account (auth_db s) n with Some _ => true | None => false end.

(** The loop of [execute_inline] over the declared authorizations: the actors and the inherited ones. *)
Definition check_inline_auth (s : chain) (enforce inherit : bool) (own : list permission_level)
    (st : list account_name * gset permission_level) (l : permission_level) : result (list account_name * gset permission_level) :=
  _ ← dcd_assert (is_account s (actor l)) action_validate_exception;
  p ← find_permission (auth_db s) l;
  _ ← dcd_assert (match p with Some _ => true | None => false end) action_validate_exception;
  Ok (if enforce then set_insert (actor l) (fst st) else fst st,
      if inherit && bool_decide (l ∈ own) then {[l]} ∪ snd st else snd st).

Definition check_inline_size (c : apply_context) (s : chain) (a : action) : result unit :=
  if negb (ac_privileged c) && te_producing env then
    dcd_assert (Z.of_nat (length (act_data a)) <? Z.min (max_inline_action_size (chain_cfg s)) (max_nonprivileged_inline_action_size env))
      inline_action_too_big_nonprivileged
  else Ok tt.

Definition dcd_code_name : permission_name := Eval vm_compute in n_ "dcd.code".

Definition check_inline_authorization (c : apply_context) (s : chain) (a : action) (inherited : gset permission_level) : result unit :=
  let disallow_send_to_self_bypass := te_features env restrict_action_to_self in
  let send_to_self := act_account a =? ac_receiver c in
  if negb (te_light env) && negb (ac_privileged c) then
    match check_authorization (control_of env s) (auth_db s) [a] [] {[mk_level (ac_receiver c) dcd_code_name]}
            (te_time env - te_published env) false inherited with
    | Ok _ => Ok tt
    | Throw e =>
        if disallow_send_to_self_bypass || negb send_to_self then Throw e
        else if te_producing env then Throw subjective_block_production_exception
        else Ok tt
    end
  else Ok tt.

Definition execute_inline (a : action) : Act unit :=
  c ← context;
  s ← chain_of;
  _ ← check (is_account s (act_account a)) action_validate_exception;
  let enforce := enforce_whiteblacklist env && te_producing env in
  let inherit_parent_authorizations :=
    negb (te_features env restrict_action_to_self) && (act_account a =? ac_receiver c) &&
    (ac_receiver c =? act_account (act c)) && te_producing env in
  '(actors, inherited) ← lift (foldM (check_inline_auth s enforce inherit_parent_authorizations (authorization (act c)))
                                 ([], ∅) (authorization a));
  _ ← when enforce (lift (check_actor_list (te_lists env) actors));
  _ ← lift (check_inline_size c s a);
  _ ← lift (check_inline_authorization c s a inherited);
  o ← schedule_inline a (act_account a) false;
  update_context (fun c => set_lists (_notified c) (_inline_actions c ++ [o]) (_cfa_inline_actions c) c).

Definition execute_context_free_inline (a : action) : Act unit :=
  c ← context;
  s ← chain_of;
  _ ← check (is_account s (act_account a)) action_validate_exception;
  _ ← check (length (authorization a) =? 0)%nat action_validate_exception;
  _ ← lift (check_inline_size c s a);
  o ← schedule_inline a (act_account a) true;
  update_context (fun c => set_lists (_notified c) (_inline_actions c) (_cfa_inline_actions c ++ [o]) c).

(** [require_authorization( account, permission )] *)
Definition require_authorization2 (auths : list permission_level) (account : account_name) (p : permission_name) : result unit :=
  dcd_assert (existsb (fun a => (actor a =? account) && (permission a =? p)) auths) missing_auth_exception.

Definition has_authorization (auths : list permission_level) (account : account_name) : bool :=
  existsb (fun a => actor a =? account) auths.

(** ** Deferred transactions *)
Definition transaction_id_net_usage : Z := 32.

Definition add_net_usage (u : Z) : Trx unit :=
  t ← get;
  if explicit_net_usage t then mret tt else update (set_net (u64 (net_usage t + u)) false).

Definition check_context_free_action (s : chain) (a : action) : result unit :=
  _ ← dcd_assert (is_account s (act_account a)) transaction_exception;
  dcd_assert (length (authorization a) =? 0)%nat transaction_exception.

(** The accounts found so far, and whether there was an authorization. *)
Definition check_action_auth (s : chain) (enforce : bool) (st : list account_name * bool) (l : permission_level) :
    result (list account_name * bool) :=
  _ ← dcd_assert (is_account s (actor l)) transaction_exception;
  p ← find_permission (auth_db s) l;
  _ ← dcd_assert (match p with Some _ => true | None => false end) transaction_exception;
  Ok (if enforce then set_insert (actor l) (fst st) else fst st, true).

(** [transaction_context::validate_referenced_accounts] *)
Definition validate_referenced_accounts (s : chain) (trx : transaction) (enforce_actor_whitelist_blacklist : bool) : result unit :=
  _ ← (if negb (length (context_free_actions trx) =? 0)%nat && negb (te_light env) then
         foldM (fun _ a => check_context_free_action s a) tt (context_free_actions trx)
       else Ok tt);
  '(actors, one_auth) ← foldM (fun st a =>
      _ ← dcd_assert (is_account s (act_account a)) transaction_exception;
      foldM (check_action_auth s enforce_actor_whitelist_blacklist) st (authorization a)) ([], false) (actions trx);
  _ ← dcd_assert one_auth tx_no_auths;
  if enforce_actor_whitelist_blacklist then check_actor_list (te_lists env) actors else Ok tt.

(** The transaction with the extension that says where it comes from, or with a reference block. *)
Definition stamp_deferred (c : apply_context) (sender_id : Z) (trx : transaction) : result transaction :=
  if te_features env no_duplicate_deferred_id then
    exts ← validate_and_extract_extensions trx;
    match exts with
    | [] =>
        Ok (without_reference trx (emplace_extension (transaction_extensions trx) generation_context_id
              (pack_generation_context (mk_generation_context (te_trx_id env) sender_id (ac_receiver c)))))
    | [g] =>
        _ ← dcd_assert (gc_sender g =? ac_receiver c) ill_formed_deferred_transaction_generation_context;
        _ ← dcd_assert (gc_sender_id g =? sender_id) ill_formed_deferred_transaction_generation_context;
        _ ← dcd_assert (bool_decide (gc_sender_trx_id g = te_trx_id env)) ill_formed_deferred_transaction_generation_context;
        Ok (without_reference trx (transaction_extensions trx))
    | _ => Throw invalid_transaction_extension
    end
  else Ok (set_reference_block (with_expiration trx (to_seconds (te_time env + 999999))) (id (te_head env))).

Definition check_deferred_authorization (c : apply_context) (s : chain) (payer : account_name) (trx : transaction) : result unit :=
  if negb (te_light env) && negb (ac_privileged c) then
    _ ← (if negb (payer =? ac_receiver c) then
           if te_features env Types.ram_restrictions then
             _ ← dcd_assert (ac_receiver c =? act_account (act c)) action_validate_exception;
             dcd_assert (has_authorization (authorization (act c)) payer) action_validate_exception
           else require_authorization (authorization (act c)) payer
         else Ok tt);
    match check_authorization (control_of env s) (auth_db s) (actions trx) [] {[mk_level (ac_receiver c) dcd_code_name]}
            (delay_sec trx * 1000000) false ∅ with
    | Ok _ => Ok tt
    | Throw e =>
        if te_features env restrict_action_to_self || negb (forallb (fun a => act_account a =? ac_receiver c) (actions trx)) then Throw e
        else if te_producing env then Throw subjective_block_production_exception
        else Ok tt
    end
  else Ok tt.

Definition generated_of (c : apply_context) (s : chain) (sender_id : Z) (payer : account_name) (trx : transaction) (trx_id : digest)
    (i : Z) : generated_transaction_object :=
  let delay_until := te_time env + delay_sec trx * 1000000 in
  mk_gto i trx_id (ac_receiver c) sender_id payer delay_until
    (delay_until + deferred_trx_expiration_window (chain_cfg s) * 1000000) (te_time env) (pack_transaction trx).

(** A deferred transaction of the same sender and identifier is replaced. *)
Definition file_deferred (c : apply_context) (s : chain) (sender_id : Z) (payer : account_name) (trx : transaction)
    (replace_existing : bool) : result (undo_index generated_transaction_object) :=
  let table := generated (auth_db s) in
  match db_find_by by_sender_id table [ac_receiver c; sender_id] with
  | Some g =>
      _ ← dcd_assert replace_existing deferred_tx_duplicate;
      let replace_deferred_activated := te_features env replace_deferred in
      _ ← dcd_assert (replace_deferred_activated || negb (te_producing env) || all_subjective_mitigations_disabled env)
            subjective_block_production_exception;
      let trx_id_for_new_obj := if replace_deferred_activated then transaction_id trx else AuthorizationManager.trx_id g in
      table ← db_remove table (gto_id g);
      '(table, _) ← db_create generated_keys table (generated_of c s sender_id payer trx trx_id_for_new_obj);
      Ok table
  | None =>
      '(table, _) ← db_create generated_keys table (generated_of c s sender_id payer trx (transaction_id trx));
      Ok table
  end.

Definition schedule_deferred_transaction (sender_id : Z) (payer : account_name) (trx : transaction) (replace_existing : bool) : Act unit :=
  _ ← check (length (context_free_actions trx) =? 0)%nat cfa_inside_generated_tx;
  c ← context;
  s ← chain_of;
  _ ← lift (validate_referenced_accounts s trx (enforce_whiteblacklist env && te_producing env &&
              negb (sender_avoids_whitelist_blacklist_enforcement (te_lists env) (ac_receiver c))));
  trx ← lift (stamp_deferred c sender_id trx);
  _ ← in_trx (add_net_usage (base_per_transaction_net_usage (chain_cfg s) + transaction_id_net_usage));
  _ ← lift (check_deferred_authorization c s payer trx);
  u ← lift (file_deferred c s sender_id payer trx replace_existing);
  _ ← set_chain_to (with_auth_db s (with_generated (auth_db s) u));
  check (te_features env Types.ram_restrictions || ram_billing_in_notify env || (ac_receiver c =? act_account (act c)) ||
         (ac_receiver c =? payer) || ac_privileged c) subjective_block_production_exception.

(** ** The host functions *)
Definition context_aware_check : Act unit :=
  c ← context; check (negb (context_free c)) unaccessible_api.
Definition privileged_check : Act unit :=
  c ← context; check (ac_privileged c) unaccessible_api.

Definition get_sender : Act account_name :=
  c ← context;
  tr ← in_trx (get_action_trace (ac_ordinal c));
  if 0 <? creator_action_ordinal tr then
    creator ← in_trx (get_action_trace (creator_action_ordinal tr));
    mret (tr_receiver creator)
  else mret 0.

(** The operations on tables work on the tables of the chain and the iterators of the context. *)
Definition table_env (c : apply_context) : apply_env :=
  mk_apply_env (ac_receiver c) (act c) (ac_privileged c) (te_features env Types.ram_restrictions) (ram_billing_in_notify env).

Definition in_tables {A} (m : apply_env -> M contract_db A) : Act A := fun '(c, t) =>
  let s := ts_chain t in
  let '(d, r) := m (table_env c) (mk_contract_db (contract_tables (contracts s)) (contract_objects (contracts s)) (ac_stores c)) in
  ((set_stores (stores d) c, set_chain (with_rows s (tables d) (objects d)) t), r).

Definition set_privileged (b : bool) (a : account_metadata_object) : account_metadata_object :=
  mk_metadata (amo_id a) (amo_name a) (recv_sequence a) (auth_sequence a) (code_sequence a) (abi_sequence a) (code_hash a)
    (last_code_update a) (if b then Z.lor (flags a) 1 else Z.ldiff (flags a) 1) (vm_type a) (vm_version a).

Definition modify_account (n : account_name) (f : account_metadata_object -> account_metadata_object) : Act account_metadata_object :=
  s ← chain_of;
  '(a, u) ← lift (a ← db_get_by by_metadata_name (metadata (auth_db s)) [n];
                  u ← db_modify metadata_keys (metadata (auth_db s)) (amo_id a) f; Ok (a, u));
  _ ← set_chain_to (with_metadata s u);
  mret (f a).

Definition send (run : action -> Act unit) (data : list Z) : Act unit :=
  s ← chain_of;
  _ ← check (Z.of_nat (length data) <? max_inline_action_size (chain_cfg s)) inline_action_too_big;
  a ← lift (unpack_action data);
  run a.

(** *** Proposals of schedules *)
(** One producer of [set_proposed_producers_common] *)
Definition check_producer (s : chain) (validate_keys : bool) (p : producer_authority) : result unit :=
  _ ← dcd_assert (is_account s (producer_name p)) wasm_execution_error;
  let a := producer_auth p in
  sum_weights ← foldM (fun sum kw =>
      _ ← dcd_assert (key_which (kw_key kw) <? pso_num_supported_key_types (pso s)) unactivated_key_type;
      _ ← (if validate_keys then dcd_assert (key_valid (kw_key kw)) wasm_execution_error else Ok tt);
      Ok (if uint32_max - sum <=? kw_weight kw then uint32_max else sum + kw_weight kw)) 0 (bsa_keys a);
  _ ← dcd_assert (length (bsa_keys a) =? base.size (list_to_set (map kw_key (bsa_keys a)) : gset public_key))%nat wasm_execution_error;
  _ ← dcd_assert (0 <? bsa_threshold a) wasm_execution_error;
  dcd_assert (bsa_threshold a <=? sum_weights) wasm_execution_error.

Definition set_proposed_producers_common (l : list producer_authority) (validate_keys : bool) : Act host_value :=
  _ ← check (Z.of_nat (length l) <=? config.max_producers) wasm_execution_error;
  _ ← check ((0 <? length l)%nat || negb (te_features env disallow_empty_producer_schedule)) wasm_execution_error;
  s ← chain_of;
  g ← lift (_ ← foldM (fun _ p => check_producer s validate_keys p) tt l;
            _ ← dcd_assert (length l =? base.size (list_to_set (map producer_name l) : gset account_name))%nat wasm_execution_error;
            set_proposed_producers (te_head env) (Some (te_stage env)) (te_features env disallow_empty_producer_schedule) (gpo s) l);
  _ ← set_chain_to (with_gpo s g.1);
  mret (hv_int g.2).

(** [set_proposed_producers]: the producers are converted to the form with authorities. *)
Definition up_convert (p : legacy_producer_key) : producer_authority :=
  mk_producer (lpk_producer_name p) (mk_bsa 1 [mk_kw (lpk_block_signing_key p) 1]).

Definition propose_legacy (d : list Z) : Act host_value :=
  l ← lift (unpack_producer_keys d); set_proposed_producers_common (map up_convert l) true.

Definition propose_ex (format : Z) (d : list Z) : Act host_value :=
  if format =? 0 then propose_legacy d
  else if format =? 1 then l ← lift (unpack_producer_authorities d); set_proposed_producers_common l false
  else throw wasm_execution_error.

(** A host function that writes parameters. *)
Definition write_parameters (f : parameters -> result parameters) : Act host_value :=
  s ← chain_of;
  p ← lift (f (gpo_parameters (gpo s)));
  _ ← set_chain_to (set_parameters s p); mret hv_unit.

(** A host function that writes parameters to a buffer. *)
Definition read_parameters (f : parameters -> result (Z * list Z)) : Act host_value :=
  s ← chain_of; r ← lift (f (gpo_parameters (gpo s))); mret (hv_buffer r.1 r.2).

(** Names come from 64-bit registers of the machine, data from its memory of bytes. *)
Definition host (h : host_call) : Act host_value :=
  match h with
  | hc_current_receiver => c ← context; mret (hv_int (ac_receiver c))
  | hc_read_action_data => c ← context; mret (hv_bytes (act_data (act c)))
  | hc_is_account n =>
      _ ← context_aware_check; s ← chain_of; mret (hv_bool (is_account s (u64 n)))
  | hc_require_auth n =>
      _ ← context_aware_check; c ← context;
      _ ← lift (require_authorization (authorization (act c)) (u64 n)); mret hv_unit
  | hc_require_auth2 n p =>
      _ ← context_aware_check; c ← context;
      _ ← lift (require_authorization2 (authorization (act c)) (u64 n) (u64 p)); mret hv_unit
  | hc_has_auth n =>
      _ ← context_aware_check; c ← context; mret (hv_bool (has_authorization (authorization (act c)) (u64 n)))
  | hc_get_sender => _ ← context_aware_check; n ← get_sender; mret (hv_int n)
  | hc_require_recipient n => _ ← context_aware_check; _ ← require_recipient (u64 n); mret hv_unit
  | hc_send_inline d => _ ← context_aware_check; _ ← send execute_inline (map u8 d); mret hv_unit
  | hc_send_context_free_inline d => _ ← context_aware_check; _ ← send execute_context_free_inline (map u8 d); mret hv_unit
  | hc_set_action_return_value d =>
      _ ← context_aware_check; s ← chain_of;
      _ ← check (Z.of_nat (length d) <=? max_action_return_value_size (chain_cfg s)) action_return_value_exception;
      _ ← update_context (set_value (map u8 d)); mret hv_unit
  | hc_db_write w => _ ← context_aware_check; it ← in_tables (fun e => perform e w); mret (hv_iterator it)
  | hc_db_read r => _ ← context_aware_check; '(it, o) ← in_tables (fun _ => observe r); mret (hv_row it o)
  | hc_is_privileged n =>
      _ ← context_aware_check; _ ← privileged_check; s ← chain_of;
      a ← lift (db_get_by by_metadata_name (metadata (auth_db s)) [u64 n]); mret (hv_bool (is_privileged a))
  | hc_set_privileged n b =>
      _ ← context_aware_check; _ ← privileged_check; _ ← modify_account (u64 n) (set_privileged b); mret hv_unit
  | hc_set_blockchain_parameters_packed d =>
      _ ← context_aware_check; _ ← privileged_check; write_parameters (fun g => set_blockchain_parameters_packed g (map u8 d))
  | hc_send_deferred i p d replace_existing =>
      _ ← context_aware_check; t ← lift (unpack_transaction (map u8 d));
      _ ← schedule_deferred_transaction (wrap 128 i) (u64 p) t (negb (u32 replace_existing =? 0)); mret hv_unit
  | hc_cancel_deferred i =>
      _ ← context_aware_check; c ← context; s ← chain_of;
      '(db, b) ← lift (cancel_deferred_transaction (auth_db s) (wrap 128 i) (ac_receiver c));
      _ ← set_chain_to (with_auth_db s db); mret (hv_bool b)
  | hc_current_time => _ ← context_aware_check; mret (hv_int (u64 (te_time env)))
  | hc_publication_time => _ ← context_aware_check; mret (hv_int (u64 (te_published env)))
  | hc_get_blockchain_parameters_packed b =>
      _ ← context_aware_check; _ ← privileged_check; read_parameters (fun g => get_blockchain_parameters_packed g (map u8 b))
  | hc_get_parameters_packed l b =>
      _ ← context_aware_check; _ ← privileged_check;
      read_parameters (fun g => get_parameters_packed (te_features env Types.action_return_value) g (map u8 l) (map u8 b))
  | hc_set_parameters_packed d =>
      _ ← context_aware_check; _ ← privileged_check;
      write_parameters (fun g => set_parameters_packed (te_features env Types.action_return_value) g (map u8 d))
  | hc_get_wasm_parameters_packed b v =>
      _ ← context_aware_check; _ ← privileged_check; read_parameters (fun g => get_wasm_parameters_packed g (map u8 b) (u32 v))
  | hc_set_wasm_parameters_packed d =>
      _ ← context_aware_check; _ ← privileged_check; write_parameters (fun g => set_wasm_parameters_packed g (map u8 d))
  | hc_get_kv_parameters_packed b v =>
      _ ← context_aware_check; _ ← privileged_check; read_parameters (fun g => get_kv_parameters_packed g (map u8 b) (u32 v))
  | hc_set_kv_parameters_packed d =>
      _ ← context_aware_check; _ ← privileged_check; write_parameters (fun g => set_kv_parameters_packed g (map u8 d))
  | hc_set_proposed_producers d => _ ← context_aware_check; _ ← privileged_check; propose_legacy (map u8 d)
  | hc_set_proposed_producers_ex f d => _ ← context_aware_check; _ ← privileged_check; propose_ex (u64 f) (map u8 d)
  end.

(** [wasm_exit] is caught by [exec_one]. *)
Fixpoint run_program (p : program) : Act unit :=
  match p with
  | p_return | p_exit => mret tt
  | p_trap e => throw e
  | p_call h k => v ← host h; run_program (k v)
  end.

(** ** The native actions *)
Definition newaccount_name : action_name := Eval vm_compute in n_ "newaccount".
Definition setcode_name : action_name := Eval vm_compute in n_ "setcode".
Definition setabi_name : action_name := Eval vm_compute in n_ "setabi".
Definition setfee_name : action_name := Eval vm_compute in n_ "setfee".
Definition setrate_name : action_name := Eval vm_compute in n_ "setrate".

Definition apply_dcd_setrate (g : global_property_object) (auths : list permission_level) (new_rate : Z) :
    result global_property_object :=
  _ ← require_authorization auths config.system_account_name;
  '(g, _) ← set_proposed_rate (te_head env) (Some (te_stage env)) g new_rate;
  Ok g.

(** The handlers that the controller registers for the system account, by the name of the action. *)
Definition apply_native (s : chain) (a : action) : option (result chain) :=
  let ctl := control_of env s in
  let db := auth_db s in
  let auths := authorization a in
  let on_db {D} (unpack : list Z -> result D) (run : D -> result database) : option (result chain) :=
    Some (d ← unpack (act_data a); db ← run d; Ok (with_auth_db s db)) in
  if act_name a =? newaccount_name then on_db unpack_newaccount (apply_dcd_newaccount ctl db auths)
  else if act_name a =? setcode_name then
    Some (d ← unpack_setcode (act_data a);
          '(db, u) ← apply_dcd_setcode (block_num (te_head env)) (te_time env) db (codes (contracts s)) auths d;
          Ok (with_codes (with_auth_db s db) u))
  else if act_name a =? setabi_name then on_db unpack_setabi (apply_dcd_setabi db auths)
  else if act_name a =? updateauth_name then on_db unpack_updateauth (apply_dcd_updateauth ctl db auths)
  else if act_name a =? deleteauth_name then on_db unpack_deleteauth (apply_dcd_deleteauth db auths)
  else if act_name a =? linkauth_name then on_db unpack_linkauth (apply_dcd_linkauth ctl db auths)
  else if act_name a =? unlinkauth_name then on_db unpack_unlinkauth (apply_dcd_unlinkauth db auths)
  else if act_name a =? setfee_name then
    Some (d ← unpack_setfee (act_data a); u ← apply_dcd_setfee (fees (contracts s)) auths d; Ok (with_fees s u))
  else if act_name a =? setrate_name then
    Some (r ← unpack_setrate (act_data a); g ← apply_dcd_setrate (gpo s) auths r; Ok (with_gpo s g))
  else if act_name a =? canceldelay_name then on_db unpack_canceldelay (apply_dcd_canceldelay db auths)
  else None.

(** [find_apply_handler( receiver, act->account, act->name )] *)
Definition find_apply_handler (s : chain) (n : account_name) (a : action) : option (result chain) :=
  if (n =? config.system_account_name) && (act_account a =? config.system_account_name) then apply_native s a else None.

(** ** Running one action *)

Definition check_lists (c : apply_context) : result unit :=
  if enforce_whiteblacklist env && te_producing env then
    _ ← check_contract_list (te_lists env) (ac_receiver c);
    check_action_list (te_lists env) (act_account (act c)) (act_name (act c))
  else Ok tt.

Definition runs_code (c : apply_context) (a : account_metadata_object) : bool :=
  negb (bool_decide (code_hash a = digest_zero)) &&
  (negb ((act_account (act c) =? config.system_account_name) && (act_name (act c) =? setcode_name) &&
         (ac_receiver c =? config.system_account_name)) ||
   te_features env forward_setcode).

(** The account of the receiver, as it is when it is read. *)
Definition receiver_account : Act account_metadata_object :=
  c ← context;
  s ← chain_of;
  lift (db_get_by by_metadata_name (metadata (auth_db s)) [ac_receiver c]).

Definition run_native : Act unit :=
  c ← context;
  s ← chain_of;
  match find_apply_handler s (ac_receiver c) (act c) with
  | None => mret tt
  | Some r => _ ← lift (check_lists c); s' ← lift r; set_chain_to s'
  end.

(** [wasm_interface::apply] *)
Definition run_code (a : account_metadata_object) : Act unit :=
  s ← chain_of;
  o ← lift (db_get_by by_code_hash (codes (contracts s)) (code_key (code_hash a) (vm_type a) (vm_version a)));
  c ← context;
  run_program (program_of (co_code o) (ac_receiver c) (act_account (act c)) (act_name (act c))).

Definition apply_action : Act unit :=
  c ← context;
  a ← receiver_account;
  if context_free c && te_light env then mret tt
  else
    _ ← update_context (set_privileged_flag (is_privileged a));
    _ ← run_native;
    a ← receiver_account;
    if runs_code c a then _ ← lift (check_lists c); run_code a else mret tt.

(** The handlers of the exceptions keep them in the trace and rethrow them. *)
Definition handle_exception {A} (m : Act A) : Act A :=
  catch m (fun e => c ← context; _ ← in_trx (modify_trace (ac_ordinal c) (set_except (Some e))); throw e).

Definition current_digest : Act digest :=
  c ← context;
  mret (if te_features env Types.action_return_value then action_digest_with_output (act c) (action_return_value c)
        else action_digest (act c)).

Definition next_global_sequence : Act Z :=
  s ← chain_of;
  let n := u64 (global_action_sequence (contracts s) + 1) in
  _ ← set_chain_to (with_sequence s n);
  mret n.

Definition count_recv (a : account_metadata_object) : account_metadata_object :=
  mk_metadata (amo_id a) (amo_name a) (u64 (recv_sequence a + 1)) (auth_sequence a) (code_sequence a) (abi_sequence a) (code_hash a)
    (last_code_update a) (flags a) (vm_type a) (vm_version a).
Definition count_auth (a : account_metadata_object) : account_metadata_object :=
  mk_metadata (amo_id a) (amo_name a) (recv_sequence a) (u64 (auth_sequence a + 1)) (code_sequence a) (abi_sequence a) (code_hash a)
    (last_code_update a) (flags a) (vm_type a) (vm_version a).

Definition next_recv_sequence (n : account_name) : Act Z := a ← modify_account n count_recv; mret (recv_sequence a).
Definition next_auth_sequence (n : account_name) : Act Z := a ← modify_account n count_auth; mret (auth_sequence a).

(** The receipt is filled in place, in the trace. *)
Definition modify_receipt (f : action_receipt -> action_receipt) : Act unit :=
  c ← context;
  in_trx (modify_trace (ac_ordinal c) (fun t => set_receipt (f <$> tr_receipt t) t)).

Definition set_sequences (g r : Z) (x : action_receipt) : action_receipt :=
  mk_action_receipt (ar_receiver x) (ar_act_digest x) g r (ar_auth_sequence x) (ar_code_sequence x) (ar_abi_sequence x).
Definition set_code_sequences (c a : Z) (x : action_receipt) : action_receipt :=
  mk_action_receipt (ar_receiver x) (ar_act_digest x) (ar_global_sequence x) (ar_recv_sequence x) (ar_auth_sequence x) (u32 c) (u32 a).
Definition set_auth_sequence (n q : Z) (x : action_receipt) : action_receipt :=
  mk_action_receipt (ar_receiver x) (ar_act_digest x) (ar_global_sequence x) (ar_recv_sequence x) (<[n := q]> (ar_auth_sequence x))
    (ar_code_sequence x) (ar_abi_sequence x).

Definition write_receipt (d : digest) : Act unit :=
  c ← context;
  _ ← in_trx (modify_trace (ac_ordinal c) (fun t => set_receipt (Some (mk_action_receipt (ac_receiver c) d 0 0 ∅ 0 0))
                                                      (set_return_value (action_return_value c) t)));
  g ← next_global_sequence;
  r ← next_recv_sequence (ac_receiver c);
  _ ← modify_receipt (set_sequences g r);
  s ← chain_of;
  first ← lift (db_get_by by_metadata_name (metadata (auth_db s)) [act_account (act c)]);
  _ ← modify_receipt (set_code_sequences (code_sequence first) (abi_sequence first));
  for_each (fun l => q ← next_auth_sequence (actor l); modify_receipt (set_auth_sequence (actor l) q)) (authorization (act c)).

Definition exec_one : Act unit :=
  d ← handle_exception (_ ← update_context (set_value []); _ ← apply_action; current_digest);
  _ ← write_receipt d;
  c ← context;
  tr ← in_trx (get_action_trace (ac_ordinal c));
  match tr_receipt tr with
  | Some r => in_trx (update (fun t => set_digests (executed_action_receipt_digests t ++ [action_receipt_digest r]) t))
  | None => throw undefined_behaviour
  end.

(** ** Running an action with its notifications and its inline actions *)

(** The loop over the accounts to notify, from the [i]-th on. *)
Fixpoint notify_loop (fuel i : nat) : F (apply_context * trx_state) unit :=
  match fuel with
  | O => fun _ => None
  | S fuel =>
      c ← now context;
      match _notified c !! i with
      | None => mret tt
      | Some (n, o) => _ ← now (update_context (set_running n o)); _ ← now exec_one; notify_loop fuel (S i)
      end
  end.

Definition new_context (o depth : Z) (tr : action_trace) : apply_context :=
  mk_context (tr_receiver tr) o o depth (tr_act tr) (tr_context_free tr) false [] [] [] [] (fun _ => iter_store_empty).

(** [exec] up to its inline actions, of which it leaves the ordinals *)
Definition exec_notified (fuel : nat) : F (apply_context * trx_state) (list Z) :=
  _ ← now (update_context (fun c => set_lists [(ac_receiver c, ac_ordinal c)] [] [] c));
  _ ← now exec_one;
  _ ← notify_loop fuel 1;
  c ← now context;
  s ← now chain_of;
  _ ← now (when ((0 <? length (_cfa_inline_actions c)) || (0 <? length (_inline_actions c)))%nat
             (check (recurse_depth c <? max_inline_action_depth (chain_cfg s)) transaction_exception));
  mret (_cfa_inline_actions c ++ _inline_actions c).

Definition in_context {A} (c : apply_context) (m : F (apply_context * trx_state) A) : F trx_state A := fun t =>
  match m (c, t) with
  | Some ((_, t'), r) => Some (t', r)
  | None => None
  end.

(** [execute_action]: [exec] in a new context *)
Fixpoint execute_action (fuel : nat) (o depth : Z) : F trx_state unit :=
  match fuel with
  | O => fun _ => None
  | S fuel =>
      tr ← now (get_action_trace o);
      ordinals ← in_context (new_context o depth tr) (exec_notified fuel);
      each (fun o => execute_action fuel o (depth + 1)) ordinals
  end.
End execution.
