(* ===== verification/ActionProofs.v ===== *)
(** * The execution of actions: proofs

    What one action, its notifications and its inline actions do to the traces and the sequence numbers, and that their
    execution ends. *)

From S2P Require Import Prelude Effects Types Authority UndoIndex Database AuthorizationManager SystemContract TransactionTypes Fees BlockHeaderState.
From S2P Require Import CodeActions NodeLists ContractTables ContractTableSpec ContractTableReads ChainConfig.
From S2P Require Import Parameters ParameterProofs Proposals Controller Actions.

Lemma perm_parts {A} (a1 a2 b1 b2 c1 c2 : list A) :
  (a1 ++ a2) ++ (b1 ++ b2) ++ (c1 ++ c2) ≡ₚ (a1 ++ b1 ++ c1) ++ (a2 ++ b2 ++ c2).
Proof.
  rewrite <- !app_assoc. f_equiv. rewrite (app_assoc a2 b1), (Permutation_app_comm a2 b1), <- app_assoc. f_equiv.
  by rewrite (app_assoc a2), (app_assoc (a2 ++ b2)), (Permutation_app_comm (a2 ++ b2) c1), <- !app_assoc.
Qed.

(** Unfolds the monad of contexts in a hypothesis. *)
Ltac run_in E :=
  unfold mbind, M_bind, mret, M_ret, get, update, lift, throw, check, context, chain_of, in_trx, update_context, set_chain_to in E;
  cbv beta iota in E.

Section proofs.
Context {T : Type} `{ActionData} `{Code} `{Engine} {TD : TransactionData} (env : @trx_env T).
Abbreviation Act := (M (apply_context * trx_state)).
Abbreviation state := (apply_context * trx_state)%type.

Definition trace_count (t : trx_state) : Z := Z.of_nat (length (action_traces t)).
Definition params (t : trx_state) : parameters := gpo_parameters (gpo (ts_chain t)).
Definition sequence_of (t : trx_state) : Z := global_action_sequence (contracts (ts_chain t)).
Definition inputs_of (t : trx_state) : gmap digest Z := input_transactions (ts_chain t).

(** ** What the code of an action does to its context *)

(** The fields of a trace that are set when it is scheduled. *)
Definition same_head (x y : action_trace) : Prop :=
  action_ordinal x = action_ordinal y /\ creator_action_ordinal x = creator_action_ordinal y /\
  closest_unnotified_ancestor_action_ordinal x = closest_unnotified_ancestor_action_ordinal y /\
  tr_receiver x = tr_receiver y /\ tr_act x = tr_act y /\ tr_context_free x = tr_context_free y.

Lemma same_head_trans (x y z : action_trace) : same_head x y -> same_head y z -> same_head x z.
Proof. intros (?&?&?&?&?&?) (?&?&?&?&?&?). repeat split; congruence. Qed.

Definition heads_kept (t t' : trx_state) : Prop :=
  forall i x, action_traces t !! i = Some x -> exists y, action_traces t' !! i = Some y /\ same_head y x.

Lemma heads_kept_trans (t1 t2 t3 : trx_state) : heads_kept t1 t2 -> heads_kept t2 t3 -> heads_kept t1 t3.
Proof.
  intros A B i x Hx. destruct (A i x Hx) as (y & Hy & E1). destruct (B i y Hy) as (z & Hz & E2). exists z. split; [done|].
  by eapply same_head_trans.
Qed.

Lemma heads_kept_eq (t t' : trx_state) : action_traces t' = action_traces t -> heads_kept t t'.
Proof. intros E i x Hx. exists x. by rewrite E. Qed.

(** The traces from the [n]-th on are numbered, and come after the actions that created them. *)
Definition numbered (n : nat) (t : trx_state) : Prop :=
  forall i y, (n <= i)%nat -> action_traces t !! i = Some y ->
    action_ordinal y = Z.of_nat i + 1 /\
    0 < closest_unnotified_ancestor_action_ordinal y <= creator_action_ordinal y /\ creator_action_ordinal y <= Z.of_nat i.

(** The ordinals that the context uses are those of traces. *)
Definition valid (c : apply_context) (t : trx_state) : Prop :=
  0 < first_receiver_action_ordinal c <= ac_ordinal c /\ ac_ordinal c <= trace_count t.

(** It schedules notifications [nl], inline actions [il] and context-free ones [fl], whose traces are new. *)
Record schedules (c : apply_context) (t t' : trx_state) (nl : list (account_name * Z)) (il fl : list Z) : Prop := {
  sc_more : trace_count t <= trace_count t';
  sc_heads : heads_kept t t';
  sc_names : Forall (fun p => fits 64 p.1) nl;
  sc_ordinals : trace_count t' < 2 ^ 32 -> valid c t ->
    nl.*2 ++ il ++ fl ≡ₚ seqZ (trace_count t + 1) (trace_count t' - trace_count t) /\
    numbered (length (action_traces t)) t' /\
    forall n o, (n, o) ∈ nl -> exists tr, action_traces t' !! Z.to_nat (o - 1) = Some tr /\ tr_receiver tr = n
}.

Record grows (st st' : state) : Prop := {
  gr_receiver : ac_receiver st'.1 = ac_receiver st.1;
  gr_ordinal : ac_ordinal st'.1 = ac_ordinal st.1;
  gr_first : first_receiver_action_ordinal st'.1 = first_receiver_action_ordinal st.1;
  gr_depth : recurse_depth st'.1 = recurse_depth st.1;
  gr_params : parameters_ok (params st.2) -> parameters_ok (params st'.2);
  gr_sequence : sequence_of st'.2 = sequence_of st.2;
  gr_inputs : inputs_of st'.2 = inputs_of st.2;
  gr_digests : executed_action_receipt_digests st'.2 = executed_action_receipt_digests st.2;
  gr_distinct : NoDup (_notified st.1).*1 -> NoDup (_notified st'.1).*1;
  gr_old : forall i x, action_traces st.2 !! i = Some x -> action_traces st'.2 !! i = Some x;
  gr_lists : exists nl il fl, _notified st'.1 = _notified st.1 ++ nl /\ _inline_actions st'.1 = _inline_actions st.1 ++ il /\
    _cfa_inline_actions st'.1 = _cfa_inline_actions st.1 ++ fl /\ schedules st.1 st.2 st'.2 nl il fl
}.

(** Steps that schedule nothing. *)
Lemma schedules_none (c : apply_context) (t t' : trx_state) :
  length (action_traces t') = length (action_traces t) -> heads_kept t t' -> schedules c t t' [] [] [].
Proof.
  intros E Hh. split; [unfold trace_count; lia|done|done|]. intros _ _. split_and!.
  - unfold trace_count. by rewrite E, Z.sub_diag.
  - intros i y Hi Hy. apply lookup_lt_Some in Hy. lia.
  - intros n o Hin. by apply elem_of_nil in Hin.
Qed.

Lemma numbered_app (n : nat) (t2 t3 : trx_state) :
  heads_kept t2 t3 -> numbered n t2 -> numbered (length (action_traces t2)) t3 -> numbered n t3.
Proof.
  intros Hh H1' H2 i z Hi Hz. destruct (action_traces t2 !! i) as [y|] eqn:Ey.
  - destruct (Hh i y Ey) as (z' & Hz' & S1 & S2 & S3 & _). rewrite Hz in Hz'. injection Hz' as <-. rewrite S1, S2, S3. by apply H1'.
  - apply H2; [by apply lookup_ge_None|done].
Qed.

Lemma schedules_app (c c' : apply_context) (t1 t2 t3 : trx_state) nl1 nl2 il1 il2 fl1 fl2 :
  (trace_count t3 < 2 ^ 32 -> valid c t1 -> valid c' t2) ->
  schedules c t1 t2 nl1 il1 fl1 -> schedules c' t2 t3 nl2 il2 fl2 ->
  schedules c t1 t3 (nl1 ++ nl2) (il1 ++ il2) (fl1 ++ fl2).
Proof.
  intros Hv [A1 A2 A3 A4] [B1 B2 B3 B4]. split; [lia|by eapply heads_kept_trans|by apply Forall_app|]. intros Hb Hc.
  destruct (A4 ltac:(lia) Hc) as (P1 & N1 & R1), (B4 Hb (Hv Hb Hc)) as (P2 & N2 & R2). split_and!.
  - rewrite fmap_app, perm_parts, P1, P2.
    replace (trace_count t3 - trace_count t1) with ((trace_count t2 - trace_count t1) + (trace_count t3 - trace_count t2)) by lia.
    rewrite seqZ_app by lia. f_equiv. f_equiv. lia.
  - by eapply numbered_app.
  - intros n o [Hin|Hin]%elem_of_app; [|by apply R2].
    destruct (R1 n o Hin) as (y & Hy & <-). destruct (B2 _ y Hy) as (z & Hz & Hh). exists z. split; [done|]. apply Hh.
Qed.

Lemma grows_refl (st : state) : grows st st.
Proof.
  split; try done. exists [], [], []. rewrite !app_nil_r. split_and!; try done. apply schedules_none; [done|by apply heads_kept_eq].
Qed.

Lemma grows_trans (st1 st2 st3 : state) : grows st1 st2 -> grows st2 st3 -> grows st1 st3.
Proof.
  intros [A1 A2 A3 A4 A5 A6 A6' A7 A8 A9 (nl1 & il1 & fl1 & A10 & A11 & A12 & A13)]
    [B1 B2 B3 B4 B5 B6 B6' B7 B8 B9 (nl2 & il2 & fl2 & B10 & B11 & B12 & B13)].
  split; try congruence; auto. exists (nl1 ++ nl2), (il1 ++ il2), (fl1 ++ fl2).
  rewrite B10, A10, B11, A11, B12, A12, !app_assoc. split_and!; try done.
  eapply schedules_app; [|done|done]. unfold valid. intros _ [V1 V2]. rewrite A2, A3. pose proof (sc_more _ _ _ _ _ _ A13). lia.
Qed.

(** ** Operations that only grow the context *)
Definition growing {A} (m : Act A) : Prop := forall st st' a, m st = (st', Ok a) -> grows st st'.

Lemma growing_ret {A} (a : A) : growing (mret a).
Proof. intros st st' a' [= <- _]. apply grows_refl. Qed.
Lemma growing_lift {A} (r : result A) : growing (lift r).
Proof. intros st st' a [= <- _]. apply grows_refl. Qed.
Lemma growing_throw {A} (e : exn) : growing (@throw state A e).
Proof. by intros st st' a. Qed.
Lemma growing_bind {A B} (m : Act A) (f : A -> Act B) : growing m -> (forall a, growing (f a)) -> growing (m ≫= f).
Proof.
  intros Hm Hf st st' b E. unfold mbind, M_bind in E. destruct (m st) as [st1 [a|e]] eqn:E1; [|done].
  eapply grows_trans; [by eapply Hm|by eapply Hf].
Qed.
Lemma growing_context : growing context.
Proof. intros [c t] st' a [= <- _]. apply grows_refl. Qed.
Lemma growing_chain_of : growing chain_of.
Proof. intros [c t] st' a [= <- _]. apply grows_refl. Qed.
Lemma growing_when (b : bool) (m : Act unit) : growing m -> growing (when b m).
Proof. intros Hm. by destruct b; [|apply growing_ret]. Qed.

(** A change that leaves the traces, the counters and the lists alone. *)
Lemma grows_same (c c' : apply_context) (t t' : trx_state) :
  set_value (action_return_value c') (set_stores (ac_stores c') (set_privileged_flag (ac_privileged c') (set_act (act c') c))) = c' ->
  action_traces t' = action_traces t -> executed_action_receipt_digests t' = executed_action_receipt_digests t ->
  sequence_of t' = sequence_of t -> inputs_of t' = inputs_of t -> (parameters_ok (params t) -> parameters_ok (params t')) ->
  grows (c, t) (c', t').
Proof.
  intros Ec Et Ed Es Ei Ep. rewrite <- Ec. split; simpl; try done; [by rewrite Et|]. exists [], [], []. rewrite !app_nil_r.
  split_and!; try done. apply schedules_none; [by rewrite Et|by apply heads_kept_eq].
Qed.

Lemma growing_in_trx {A} (m : M trx_state A) :
  (forall t t' a, m t = (t', Ok a) -> action_traces t' = action_traces t /\
     executed_action_receipt_digests t' = executed_action_receipt_digests t /\ sequence_of t' = sequence_of t /\
     inputs_of t' = inputs_of t /\ (parameters_ok (params t) -> parameters_ok (params t'))) -> growing (in_trx m).
Proof.
  intros Hm [c t] st' a E. unfold in_trx in E. destruct (m t) as [t' r] eqn:Em. injection E as <- ->.
  apply Hm in Em as (H1' & H2 & H3 & H4 & H5). by apply grows_same; [destruct c|..].
Qed.

Lemma get_action_trace_state (o : Z) (t t' : trx_state) (tr : action_trace) :
  get_action_trace o t = (t', Ok tr) ->
  t' = t /\ action_traces t !! Z.to_nat (o - 1) = Some tr /\ 0 < o <= trace_count t.
Proof.
  intros E. unfold get_action_trace in E. run_in E.
  destruct ((0 <? o) && (o <=? Z.of_nat (length (action_traces t)))) eqn:Eb; cbn [dcd_assert] in E; [|done].
  apply andb_true_iff in Eb as [E1 E2]. destruct (action_traces t !! _) as [x|] eqn:Et; [|done]. injection E as <- <-.
  split_and!; try done; unfold trace_count; lia.
Qed.

Lemma growing_get_trace (o : Z) : growing (in_trx (get_action_trace o)).
Proof. apply growing_in_trx. intros t t' a (-> & _)%get_action_trace_state. done. Qed.

(** A new chain state, computed from the old one. *)
Lemma growing_chain {A B} (r : chain -> result A) (k : chain -> A -> Act B) :
  (forall s a st st' b, r s = Ok a -> ts_chain st.2 = s -> k s a st = (st', Ok b) -> grows st st') ->
  growing (s ← chain_of; a ← lift (r s); k s a).
Proof.
  intros Hk [c t] st' b E. run_in E.
  destruct (r (ts_chain t)) as [a|e] eqn:Er; [|done]. by eapply Hk.
Qed.

Lemma growing_modify_account (n : account_name) (f : account_metadata_object -> account_metadata_object) :
  growing (modify_account n f).
Proof.
  apply growing_chain. intros s [a u] [c t] st' b _ <- E. run_in E. injection E as <- _.
  by apply grows_same; [destruct c|..].
Qed.

Lemma growing_in_tables {A} (m : apply_env -> M contract_db A) : growing (in_tables env m).
Proof.
  intros [c t] st' a E. unfold in_tables in E. destruct (m _ _) as [d r]. injection E as <- _.
  by apply grows_same; [destruct c|..].
Qed.

Lemma growing_update_value (b : list Z) : growing (update_context (set_value b)).
Proof. intros [c t] st' a [= <- _]. by apply grows_same; [destruct c|..]. Qed.
Lemma growing_update_privileged (b : bool) : growing (update_context (set_privileged_flag b)).
Proof. intros [c t] st' a [= <- _]. by apply grows_same; [destruct c|..]. Qed.

(** ** Scheduling *)
Lemma schedule_new_spec (a : action) (n : account_name) (cf : bool) (creator ancestor : Z) (t t' : trx_state) (o : Z) :
  schedule_new_action a n cf creator ancestor t = (t', Ok o) ->
  o = u32 (trace_count t + 1) /\ t' = set_traces (action_traces t ++ [mk_trace o creator ancestor None n a cf None []]) t.
Proof. intros E. unfold schedule_new_action in E. run_in E. by injection E as <- <-. Qed.

Lemma refresh_spec (st st' : state) (a : unit) : refresh_act st = (st', Ok a) -> exists x, st' = (set_act x st.1, st.2).
Proof.
  destruct st as [c t]. intros E. unfold refresh_act in E. run_in E.
  destruct (get_action_trace _ t) as [t' [tr|e]] eqn:Eg; [|done]. apply get_action_trace_state in Eg as (-> & _).
  injection E as <- _. by exists (tr_act tr).
Qed.

(** One new trace, entered in one of the lists. *)
Lemma grows_one (c : apply_context) (t : trx_state) (x : action) (tr : action_trace) (nl : list (account_name * Z)) (il fl : list Z) :
  let o := u32 (trace_count t + 1) in
  creator_action_ordinal tr = ac_ordinal c ->
  closest_unnotified_ancestor_action_ordinal tr = first_receiver_action_ordinal c -> action_ordinal tr = o ->
  nl.*2 ++ il ++ fl = [o] -> Forall (fun p => fits 64 p.1) nl -> Forall (fun p => p.1 = tr_receiver tr) nl ->
  (NoDup (_notified c).*1 -> NoDup (_notified c ++ nl).*1) ->
  grows (c, t) (set_lists (_notified c ++ nl) (_inline_actions c ++ il) (_cfa_inline_actions c ++ fl) (set_act x c),
                set_traces (action_traces t ++ [tr]) t).
Proof.
  intros o H2 H3 H4 H5 H6 H7 H8. set (t' := set_traces (action_traces t ++ [tr]) t).
  assert (Ho : trace_count t' < 2 ^ 32 -> o = trace_count t + 1).
  { unfold trace_count. simpl. rewrite length_app. simpl. intros Hb. unfold o, trace_count. apply wrap_small. split; lia. }
  assert (Hl : trace_count t' = trace_count t + 1) by (unfold trace_count; simpl; rewrite length_app; simpl; lia).
  assert (Hold : forall i x, action_traces t !! i = Some x -> action_traces t' !! i = Some x).
  { intros i y Hy. simpl. by apply lookup_app_l_Some. }
  assert (Hnew : forall i y, (length (action_traces t) <= i)%nat -> action_traces t' !! i = Some y -> y = tr /\ i = length (action_traces t)).
  { intros i y Hi Hy. simpl in Hy. rewrite lookup_app_r in Hy by done. apply list_lookup_singleton_Some in Hy as [Hz <-].
    split; [done|lia]. }
  split; try done. exists nl, il, fl. split_and!; try done. change (schedules c t t' nl il fl). split; try done; [lia| |].
  - intros i y Hy. exists y. split; [by apply Hold|done].
  - intros Hb [V1 V2]. specialize (Ho Hb). split_and!.
    { rewrite H5, Ho, Hl. by replace (trace_count t + 1 - trace_count t) with 1 by lia. }
    { intros i y Hi Hy. destruct (Hnew i y Hi Hy) as [-> ->]. rewrite H2, H3, H4, Ho. unfold trace_count in *. lia. }
    intros n p Hin.
    assert (Hp : p ∈ nl.*2 ++ il ++ fl) by (apply elem_of_app; left; apply list_elem_of_fmap; by exists (n, p)).
    rewrite H5 in Hp. apply list_elem_of_singleton in Hp as ->. rewrite Ho. exists tr. eapply Forall_forall in H7; [|exact Hin].
    split; [|done]. simpl. rewrite lookup_app_r by (unfold trace_count; lia).
    by replace (Z.to_nat (trace_count t + 1 - 1) - length (action_traces t))%nat with 0%nat by (unfold trace_count; lia).
Qed.

Lemma growing_require_recipient (n : account_name) : fits 64 n -> growing (require_recipient n).
Proof.
  intros Hn [c t] st' a E. unfold require_recipient, schedule_notification, schedule_same_action in E. run_in E.
  destruct (has_recipient c n) eqn:Er; [injection E as <- _; apply grows_refl|].
  destruct (get_action_trace _ t) as [t1 [tr|e]] eqn:Eg; [|done]. apply get_action_trace_state in Eg as (-> & _).
  destruct (schedule_new_action _ _ _ _ _ t) as [t2 [o|e]] eqn:Es; [|done]. apply schedule_new_spec in Es as [-> ->].
  destruct (refresh_act _) as [[c3 t3] [u|e]] eqn:Ef; [|done]. apply refresh_spec in Ef as [x [= -> ->]]. injection E as <- _.
  simpl. rewrite <- (app_nil_r (_inline_actions c)), <- (app_nil_r (_cfa_inline_actions c)).
  apply (grows_one c t x _ [(n, _)] [] []); try done; [by constructor|by constructor|].
  rewrite fmap_app. intros Hd. apply NoDup_app. split_and!; [done| |apply NoDup_singleton].
  intros m Hm ->%list_elem_of_singleton. unfold has_recipient in Er. apply not_true_iff_false in Er. apply Er.
  apply list_elem_of_fmap in Hm as ([m o] & Em & Hin). simpl in Em. apply existsb_exists. exists (m, o).
  split; [by apply list_elem_of_In|]. simpl. lia.
Qed.

(** An inline action, in one of the two lists. *)
Lemma growing_schedule_inline (a : action) (n : account_name) (cf : bool) :
  growing (o ← schedule_inline a n cf;
           update_context (fun c => if cf then set_lists (_notified c) (_inline_actions c) (_cfa_inline_actions c ++ [o]) c
                                    else set_lists (_notified c) (_inline_actions c ++ [o]) (_cfa_inline_actions c) c)).
Proof.
  intros [c t] st' u E. unfold schedule_inline in E. run_in E.
  destruct (schedule_new_action _ _ _ _ _ t) as [t2 [o|e]] eqn:Es; [|done]. apply schedule_new_spec in Es as [-> ->].
  destruct (refresh_act _) as [[c3 t3] [v|e]] eqn:Ef; [|done]. apply refresh_spec in Ef as [x [= -> ->]]. injection E as <- _.
  simpl. destruct cf.
  - pose proof (grows_one c t x (mk_trace (u32 (trace_count t + 1)) (ac_ordinal c) (first_receiver_action_ordinal c) None n a true None [])
                  [] [] [u32 (trace_count t + 1)]) as G. simpl in G. rewrite !app_nil_r in G. by apply G.
  - pose proof (grows_one c t x (mk_trace (u32 (trace_count t + 1)) (ac_ordinal c) (first_receiver_action_ordinal c) None n a false None [])
                  [] [u32 (trace_count t + 1)] []) as G. simpl in G. rewrite !app_nil_r in G. by apply G.
Qed.

Ltac growing_step :=
  match goal with
  | |- growing (schedule_inline ?a ?n ?cf ≫= _) => apply (growing_schedule_inline a n cf)
  | |- growing (_ ≫= _) => apply growing_bind; [|intros ?]
  | |- growing (mret _) => apply growing_ret
  | |- growing (lift _) => apply growing_lift
  | |- growing (check _ _) => apply growing_lift
  | |- growing (throw _) => apply growing_throw
  | |- growing context => apply growing_context
  | |- growing chain_of => apply growing_chain_of
  | |- growing (when _ _) => apply growing_when
  | |- growing (in_trx (get_action_trace _)) => apply growing_get_trace
  | |- growing (modify_account _ _) => apply growing_modify_account
  | |- growing (in_tables _ _) => apply growing_in_tables
  | |- growing (update_context (set_value _)) => apply growing_update_value
  | |- growing (update_context (set_privileged_flag _)) => apply growing_update_privileged
  | |- growing (let '(_, _) := ?x in _) => destruct x
  | |- growing (if ?b then _ else _) => destruct b
  | |- growing (match ?x with _ => _ end) => destruct x
  end.
Ltac growing := repeat (cbv zeta; growing_step).

Lemma growing_execute_inline (a : action) : growing (execute_inline env a).
Proof. unfold execute_inline. cbv zeta. growing. Qed.

Lemma growing_execute_context_free_inline (a : action) : growing (execute_context_free_inline env a).
Proof. unfold execute_context_free_inline. growing. Qed.

Lemma growing_send (run : action -> Act unit) (d : list Z) : (forall a, growing (run a)) -> growing (send run d).
Proof. intros Hr. unfold send. growing. apply Hr. Qed.

Lemma u8_bytes (d : list Z) : Forall (fits 8) (map u8 d).
Proof. apply Forall_forall. intros x (y & -> & _)%list_elem_of_fmap. apply wrap_fits. lia. Qed.

Lemma growing_write_parameters (f : parameters -> result parameters) :
  (forall g p, f g = Ok p -> parameters_step g p) -> growing (write_parameters f).
Proof.
  intros Hf. apply growing_chain. intros s p [c t] st' b Ep <- E. run_in E. injection E as <- _. apply grows_same; try done; [by destruct c|].
  intros Hok. apply (parameters_step_ok (params t) p Hok). by apply Hf.
Qed.

Lemma growing_read_parameters (f : parameters -> result (Z * list Z)) : growing (read_parameters f).
Proof. unfold read_parameters. growing. Qed.

Lemma proposed_parameters (head : block_header_state) (st : option (block_stage_type T)) (b : bool) (g g' : global_property_object)
    (l : list producer_authority) (v : Z) :
  set_proposed_producers head st b g l = Ok (g', v) -> gpo_parameters g' = gpo_parameters g.
Proof.
  unfold set_proposed_producers. intros E. case_match; [by injection E as <- _|]. case_match; [by injection E as <- _|].
  apply bind_ok_inv in E as (sch & _ & E). apply bind_ok_inv in E as ([cur ver] & _ & E). case_match; by injection E as <- _.
Qed.

Lemma growing_propose (l : list producer_authority) (b : bool) : growing (set_proposed_producers_common env l b).
Proof.
  unfold set_proposed_producers_common. do 2 (apply growing_bind; [apply growing_lift|intros _]).
  apply growing_chain. intros s [g v] [c t] st' x Eg <- E. apply bind_ok_inv in Eg as (_ & _ & Eg). apply bind_ok_inv in Eg as (_ & _ & Eg).
  apply proposed_parameters in Eg. run_in E. injection E as <- _. apply grows_same; try done; [by destruct c|].
  unfold params. simpl. by rewrite Eg.
Qed.

Lemma growing_propose_ex (f : Z) (d : list Z) : growing (propose_ex env f d).
Proof. unfold propose_ex, propose_legacy. repeat first [apply growing_propose | growing_step]. Qed.

Lemma growing_cancel (i : Z) (n : account_name) :
  growing (s ← chain_of; '(db, b) ← lift (cancel_deferred_transaction (auth_db s) i n);
           _ ← set_chain_to (with_auth_db s db); mret (hv_bool b)).
Proof.
  apply growing_chain. intros s [db b] [c t] st' v _ <- E. run_in E. injection E as <- _. by apply grows_same; [destruct c|..].
Qed.

Lemma add_net_usage_spec (n : Z) (t t' : trx_state) (u : unit) :
  add_net_usage n t = (t', Ok u) -> exists k e, t' = set_net k e t.
Proof.
  intros E. unfold add_net_usage in E. run_in E. destruct (explicit_net_usage t) eqn:Ee; injection E as <- _.
  - exists (net_usage t), true. destruct t. simpl in *. by subst.
  - by eexists _, _.
Qed.

Lemma growing_send_deferred (i : Z) (p : account_name) (trx : transaction) (b : bool) :
  growing (schedule_deferred_transaction env i p trx b).
Proof.
  intros [c t] st' u E. unfold schedule_deferred_transaction in E. run_in E. run_in E. destruct (dcd_assert _ _); [|done].
  destruct (validate_referenced_accounts _ _ _ _); [|done]. destruct (stamp_deferred _ _ _ _) as [trx'|e]; [|done].
  destruct (add_net_usage _ t) as [t1 [u1|e]] eqn:En; [|done]. apply add_net_usage_spec in En as (k & e' & ->).
  destruct (check_deferred_authorization _ _ _ _ _); [|done]. destruct (file_deferred _ _ _ _ _ _ _); [|done].
  injection E as <- _. by apply grows_same; [destruct c|..].
Qed.

Lemma growing_get_sender : growing get_sender.
Proof. unfold get_sender. growing. Qed.

Lemma growing_host (h : host_call) : growing (host env h).
Proof.
  assert (Hu : forall n, fits 64 (u64 n)) by (intros; apply wrap_fits; lia).
  unfold host, context_aware_check, privileged_check.
  destruct h; repeat first
    [ apply growing_write_parameters; intros g p Ep; first [by eapply step_blockchain, Ep; apply u8_bytes|by eapply step_range, Ep; apply u8_bytes|by eapply step_wasm, Ep; apply u8_bytes|by eapply step_kv, Ep; apply u8_bytes] | apply growing_read_parameters
    | apply growing_propose_ex | apply (growing_propose_ex 0) | apply growing_cancel | apply growing_get_sender | apply growing_send_deferred
    | apply growing_require_recipient, Hu | apply growing_send; intros ?
    | apply growing_execute_inline | apply growing_execute_context_free_inline | growing_step ].
Qed.

Lemma growing_run (p : program) : growing (run_program env p).
Proof.
  induction p as [| |e|h k IH]; simpl; growing; [apply growing_host|apply IH].
Qed.

(** ** Native actions *)
Lemma native_keeps (s s' : chain) (n : account_name) (a : action) :
  find_apply_handler env s n a = Some (Ok s') ->
  gpo_parameters (gpo s') = gpo_parameters (gpo s) /\
  global_action_sequence (contracts s') = global_action_sequence (contracts s) /\ input_transactions s' = input_transactions s.
Proof.
  unfold find_apply_handler, apply_native. destruct (_ && _); [|done]. intros E.
  repeat case_match; try done; injection E as E; bind_ok_pairs; try done.
  unfold apply_dcd_setrate in *. bind_ok_pairs. split; [|done]. simpl.
  unfold set_proposed_rate in *. repeat case_match; bind_ok_pairs; try done; repeat case_match; by bind_ok_pairs.
Qed.

Lemma growing_run_native : growing (run_native env).
Proof.
  intros [c t] st' a E. unfold run_native in E. run_in E.
  destruct (find_apply_handler env (ts_chain t) (ac_receiver c) (act c)) as [[s'|e]|] eqn:En; [| |injection E as <- _; apply grows_refl];
    destruct (check_lists env c); try done. injection E as <- _. apply native_keeps in En as (E1 & E2 & E3).
  apply grows_same; try done; [by destruct c|]. unfold params. simpl. by rewrite E1.
Qed.

Lemma growing_apply_action : growing (apply_action env).
Proof.
  unfold apply_action, receiver_account, run_code. repeat first [apply growing_run_native|apply growing_run|growing_step].
Qed.

(** ** Receipts *)
Lemma modify_trace_spec (o : Z) (f : action_trace -> action_trace) (t t' : trx_state) (a : unit) :
  modify_trace o f t = (t', Ok a) ->
  t' = set_traces (alter f (Z.to_nat (o - 1)) (action_traces t)) t /\ is_Some (action_traces t !! Z.to_nat (o - 1)).
Proof.
  intros E. unfold modify_trace in E. run_in E. destruct (get_action_trace o t) as [t1 [tr|e]] eqn:Eg; [|done].
  apply get_action_trace_state in Eg as (-> & Ht & _). injection E as <- _. split; [done|by eexists].
Qed.

(** A step that fills in the receipt of the running action: it leaves all but that trace and the accounts alone. *)
Record fills (st st' : state) : Prop := {
  fi_context : st'.1 = st.1;
  fi_params : params st'.2 = params st.2;
  fi_inputs : inputs_of st'.2 = inputs_of st.2;
  fi_digests : executed_action_receipt_digests st'.2 = executed_action_receipt_digests st.2;
  fi_length : length (action_traces st'.2) = length (action_traces st.2);
  fi_others : forall i, i <> Z.to_nat (ac_ordinal st.1 - 1) -> action_traces st'.2 !! i = action_traces st.2 !! i;
  fi_heads : heads_kept st.2 st'.2
}.

Lemma fills_refl (st : state) : fills st st.
Proof. split; try done. by apply heads_kept_eq. Qed.

Lemma fills_trans (st1 st2 st3 : state) : fills st1 st2 -> fills st2 st3 -> fills st1 st3.
Proof.
  intros [A1 A2 A2' A3 A4 A5 A6] [B1 B2 B2' B3 B4 B5 B6]. split; try congruence.
  - intros i Hi. rewrite B5, A5; [done|done|by rewrite A1].
  - by eapply heads_kept_trans.
Qed.

(** The receipt of the running action. *)
Definition has_receipt (st : state) (r : action_receipt) : Prop :=
  exists tr, action_traces st.2 !! Z.to_nat (ac_ordinal st.1 - 1) = Some tr /\ tr_receipt tr = Some r.

Lemma modify_trace_fills (f : action_trace -> action_trace) (c : apply_context) (t t' : trx_state) (a : unit) :
  (forall x, same_head (f x) x) -> modify_trace (ac_ordinal c) f t = (t', Ok a) ->
  fills (c, t) (c, t') /\ sequence_of t' = sequence_of t /\
  exists x, action_traces t !! Z.to_nat (ac_ordinal c - 1) = Some x /\ action_traces t' !! Z.to_nat (ac_ordinal c - 1) = Some (f x).
Proof.
  intros Hf [-> [x Hx]]%modify_trace_spec. split; [|split; [done|]].
  - split; simpl; try done.
    + by rewrite length_alter.
    + intros i Hi. by rewrite list_lookup_alter_ne.
    + intros i y Hy. simpl in *. destruct (decide (i = Z.to_nat (ac_ordinal c - 1))) as [->|Hne].
      * rewrite list_lookup_alter_eq, Hy. by exists (f y).
      * rewrite list_lookup_alter_ne by done. by exists y.
  - exists x. simpl. by rewrite list_lookup_alter_eq, Hx.
Qed.

Lemma modify_receipt_spec (f : action_receipt -> action_receipt) (st st' : state) (a : unit) :
  modify_receipt f st = (st', Ok a) ->
  fills st st' /\ sequence_of st'.2 = sequence_of st.2 /\ forall r, has_receipt st r -> has_receipt st' (f r).
Proof.
  destruct st as [c t]. intros E. unfold modify_receipt in E. run_in E. destruct (modify_trace _ _ t) as [t1 r] eqn:Em. injection E as <- ->.
  apply modify_trace_fills in Em as (F & Hs & x & Hx & Hx'); [|done]. split; [done|]. split; [done|].
  intros r (y & Hy & Hr). simpl in Hy. rewrite Hx in Hy. injection Hy as <-. exists (set_receipt (f <$> tr_receipt x) x).
  split; [done|]. simpl. by rewrite Hr.
Qed.

Lemma chain_fills (c : apply_context) (t : trx_state) (s : chain) :
  gpo_parameters (gpo s) = params t -> input_transactions s = inputs_of t -> fills (c, t) (c, set_chain s t).
Proof. intros E Ei. split; try done. by apply heads_kept_eq. Qed.

Lemma modify_account_spec (n : account_name) (f : account_metadata_object -> account_metadata_object) (st st' : state)
    (a : account_metadata_object) :
  modify_account n f st = (st', Ok a) ->
  fills st st' /\ sequence_of st'.2 = sequence_of st.2 /\ forall r, has_receipt st r -> has_receipt st' r.
Proof.
  destruct st as [c t]. intros E. unfold modify_account in E. run_in E.
  destruct (db_get_by _ _ _) as [m|e]; cbn [result_bind] in E; [|done]. destruct (db_modify _ _ _ _) as [u|e]; cbn [result_bind] in E; [|done].
  injection E as <- _. split; [by apply chain_fills|done].
Qed.

(** The parts of a receipt that the authorizations leave alone. *)
Definition same_numbers (x y : action_receipt) : Prop :=
  ar_receiver x = ar_receiver y /\ ar_act_digest x = ar_act_digest y /\ ar_global_sequence x = ar_global_sequence y /\
  ar_recv_sequence x = ar_recv_sequence y.

Lemma auth_loop_spec (l : list permission_level) (st st' : state) (a : unit) :
  for_each (fun l => q ← next_auth_sequence (actor l); modify_receipt (set_auth_sequence (actor l) q)) l st = (st', Ok a) ->
  fills st st' /\ sequence_of st'.2 = sequence_of st.2 /\
  forall r, has_receipt st r -> exists r', has_receipt st' r' /\ same_numbers r' r.
Proof.
  revert st. induction l as [|x l IH]; intros st E; simpl in E; run_in E.
  { injection E as <-. split; [apply fills_refl|]. split; [done|]. intros r Hr. by exists r. }
  unfold next_auth_sequence in E. run_in E. destruct (modify_account _ _ st) as [st1 [m|e]] eqn:E1; [|done].
  destruct (modify_receipt _ st1) as [st2 [u|e]] eqn:E2; [|done].
  apply modify_account_spec in E1 as (F1 & S1 & R1). apply modify_receipt_spec in E2 as (F2 & S2 & R2).
  apply IH in E as (F3 & S3 & R3). split; [by eapply fills_trans; [|eapply fills_trans]|]. split; [congruence|].
  intros r Hr. apply R1, R2, R3 in Hr as (r' & Hr & E). exists r'. split; [done|]. by destruct E as (?&?&?&?).
Qed.

Lemma write_receipt_spec (d : digest) (st st' : state) (a : unit) :
  write_receipt d st = (st', Ok a) ->
  fills st st' /\ sequence_of st'.2 = u64 (sequence_of st.2 + 1) /\
  exists r, has_receipt st' r /\ ar_receiver r = ac_receiver st.1 /\ ar_act_digest r = d /\ ar_global_sequence r = sequence_of st'.2.
Proof.
  destruct st as [c t]. intros E. unfold write_receipt, next_global_sequence, next_recv_sequence in E.
  unfold mbind, M_bind, context, chain_of, set_chain_to, lift, mret, M_ret, update in E. cbv beta iota in E. cbn [in_trx] in E.
  destruct (modify_trace _ _ t) as [t1 [u1|e]] eqn:E1; [|done].
  apply modify_trace_fills in E1 as (F1 & S1 & x & _ & Hx); [|done].
  set (g := u64 (global_action_sequence (contracts (ts_chain t1)) + 1)) in E. unfold in_trx in E. cbv beta iota in E.
  destruct (modify_account _ _ _) as [st2 [m2|e]] eqn:E2; [|done]. apply modify_account_spec in E2 as (F2 & S2 & R2).
  destruct (modify_receipt _ st2) as [[c3 t3] [u3|e]] eqn:E3; [|done]. apply modify_receipt_spec in E3 as (F3 & S3 & R3).
  destruct (db_get_by _ _ _) as [first|e]; [|done].
  destruct (modify_receipt _ (c3, t3)) as [st4 [u4|e]] eqn:E4; [|done]. apply modify_receipt_spec in E4 as (F4 & S4 & R4).
  apply auth_loop_spec in E as (F5 & S5 & R5).
  assert (F0 : fills (c, t1) (c, set_chain (with_sequence (ts_chain t1) g) t1)) by (by apply chain_fills).
  split; [repeat (eapply fills_trans; [eassumption|]); apply fills_refl|].
  assert (Hg : sequence_of st'.2 = g) by (rewrite S5, S4, S3, S2; reflexivity).
  split; [rewrite Hg; unfold g; cbn [snd]; by rewrite <- S1|].
  edestruct R5 as (r & Hr & Q); [apply R4, R3, R2; eexists; split; [exact Hx|reflexivity]|].
  exists r. split; [done|]. destruct Q as (Q1 & Q2 & Q3 & _). rewrite Hg. by rewrite Q1, Q2, Q3.
Qed.

(** ** One action *)

(** Its code schedules further actions, then its receipt is written and its digest recorded. *)
Record executes (st st' : state) : Prop := {
  ex_receiver : ac_receiver st'.1 = ac_receiver st.1;
  ex_ordinal : ac_ordinal st'.1 = ac_ordinal st.1;
  ex_first : first_receiver_action_ordinal st'.1 = first_receiver_action_ordinal st.1;
  ex_depth : recurse_depth st'.1 = recurse_depth st.1;
  ex_params : parameters_ok (params st.2) -> parameters_ok (params st'.2);
  ex_inputs : inputs_of st'.2 = inputs_of st.2;
  ex_sequence : sequence_of st'.2 = u64 (sequence_of st.2 + 1);
  ex_distinct : NoDup (_notified st.1).*1 -> NoDup (_notified st'.1).*1;
  ex_receipt : exists r, has_receipt st' r /\ ar_receiver r = ac_receiver st.1 /\ ar_global_sequence r = sequence_of st'.2 /\
    executed_action_receipt_digests st'.2 = executed_action_receipt_digests st.2 ++ [action_receipt_digest r];
  ex_others : forall i x, i <> Z.to_nat (ac_ordinal st.1 - 1) -> action_traces st.2 !! i = Some x -> action_traces st'.2 !! i = Some x;
  ex_lists : exists nl il fl, _notified st'.1 = _notified st.1 ++ nl /\ _inline_actions st'.1 = _inline_actions st.1 ++ il /\
    _cfa_inline_actions st'.1 = _cfa_inline_actions st.1 ++ fl /\ schedules st.1 st.2 st'.2 nl il fl
}.

Lemma growing_code : growing (_ ← update_context (set_value []); _ ← apply_action env; current_digest env).
Proof. unfold current_digest. repeat first [apply growing_apply_action|growing_step]. Qed.

Lemma exec_one_spec (st st' : state) (a : unit) : exec_one env st = (st', Ok a) -> executes st st'.
Proof.
  intros E. unfold exec_one, handle_exception, catch in E. unfold mbind at 1, M_bind at 1 in E. cbv beta iota in E.
  destruct ((_ ← update_context (set_value []); _ ← apply_action env; current_digest env) st) as [[c1 t1] [d|e]] eqn:E1.
  2:{ exfalso. revert E. cbv [mbind M_bind context in_trx throw]. destruct (modify_trace _ _ t1) as [t2 [u|e']]; done. }
  apply growing_code in E1 as G. unfold mbind, M_bind in E. cbv beta iota in E.
  destruct (write_receipt d (c1, t1)) as [[c2 t2] [u2|e]] eqn:E2; [|done].
  apply write_receipt_spec in E2 as ([F1 F2 F2' F3 F4 F5 F6] & Hs & r & (tr & Htr & Hr) & R1 & R2 & R3).
  unfold context, in_trx in E. simpl in F1. subst c2.
  destruct (get_action_trace (ac_ordinal c1) t2) as [t3 [tr'|e]] eqn:Eg; [|done].
  apply get_action_trace_state in Eg as (-> & Htr' & _). simpl in Htr. rewrite Htr in Htr'. injection Htr' as <-. rewrite Hr in E.
  unfold update in E. injection E as <- _. destruct G as [G1 G2 G3 G4 G5 G6 G6' G7 G8 G9 (nl & il & fl & G10 & G11 & G12 & G13)].
  simpl in *. split; simpl; try done.
  - intros Hp. unfold params in *. simpl. rewrite F2. by apply G5.
  - change (inputs_of t2 = inputs_of st.2). by rewrite F2', G6'.
  - change (sequence_of t2 = u64 (sequence_of st.2 + 1)). by rewrite Hs, G6.
  - exists r. split; [by exists tr|]. split; [congruence|]. split; [done|]. by rewrite F3, G7.
  - intros i x Hi Hx. rewrite F5 by congruence. by apply G9.
  - exists nl, il, fl. split_and!; try done. rewrite <- (app_nil_r nl), <- (app_nil_r il), <- (app_nil_r fl).
    eapply (schedules_app st.1 c1 st.2 t1); [|done|by apply schedules_none]. unfold valid. intros _ [V1 V2]. rewrite G2, G3.
    pose proof (sc_more _ _ _ _ _ _ G13). lia.
Qed.

(** ** Termination *)

(** The accounts to notify are distinct 64-bit names, but for the first, which is the account of the action. *)
Definition listed (c : apply_context) : Prop :=
  exists p rest, _notified c = p :: rest /\ Forall (fun q => fits 64 q.1) rest /\ NoDup (_notified c).*1.

Lemma distinct_names (l : list Z) : NoDup l -> Forall (fits 64) l -> Z.of_nat (length l) <= 2 ^ 64.
Proof.
  intros Hd Hf. assert (Hs : l ⊆+ seqZ 0 (2 ^ 64)).
  { apply NoDup_submseteq; [done|]. intros x Hx. apply elem_of_seqZ. eapply Forall_forall in Hf; [|done]. unfold fits in Hf. lia. }
  apply submseteq_length in Hs. rewrite length_seqZ in Hs. lia.
Qed.

Lemma listed_length (c : apply_context) : listed c -> Z.of_nat (length (_notified c)) <= 2 ^ 64 + 1.
Proof.
  intros (p & rest & E & Hf & Hd). rewrite E in *. apply NoDup_cons in Hd as [_ Hd].
  pose proof (distinct_names rest.*1 Hd) as Hl. rewrite length_fmap in Hl. simpl.
  assert (Z.of_nat (length rest) <= 2 ^ 64); [|lia]. apply Hl. by apply Forall_fmap.
Qed.

Lemma executes_listed (st st' : state) : executes st st' -> listed st.1 -> listed st'.1.
Proof.
  intros X (p & rest & E & Hf & Hd). destruct (ex_lists _ _ X) as (nl & il & fl & E1 & _ & _ & S). exists p, (rest ++ nl).
  split; [by rewrite E1, E|]. split; [apply Forall_app; split; [done|apply S]|]. by apply (ex_distinct _ _ X).
Qed.

Ltac run_fuel := unfold mbind, F_bind, mret, F_ret, now; cbv beta iota.
Ltac run_fuel_in E := unfold mbind, F_bind, mret, F_ret, now in E; cbv beta iota in E.

Lemma notify_loop_ends (fuel i : nat) (st : state) :
  listed st.1 -> (i <= length (_notified st.1))%nat -> 2 ^ 64 + 1 < Z.of_nat fuel + Z.of_nat i ->
  exists st' r, notify_loop env fuel i st = Some (st', r) /\
    (forall a, r = Ok a -> parameters_ok (params st.2) -> parameters_ok (params st'.2)) /\
    (forall a, r = Ok a -> recurse_depth st'.1 = recurse_depth st.1).
Proof.
  revert i st. induction fuel as [|fuel IH]; intros i [c t] Hl Hi Hf; cbn [notify_loop].
  { apply listed_length in Hl. simpl in *. lia. }
  run_fuel. unfold context. cbv beta iota. destruct (_notified c !! i) as [[n o]|] eqn:En; [|by eexists _, _].
  unfold update_context. cbv beta iota.
  destruct (exec_one env (set_running n o c, t)) as [[c' t'] [u|e]] eqn:E; [|eexists _, _; split; [done|]; by split].
  apply exec_one_spec in E as X. destruct (ex_lists _ _ X) as (nl & il & fl & E1 & _). simpl in E1.
  destruct (IH (S i) (c', t')) as (st'' & r & Er & Hp & Hd).
  - apply (executes_listed _ _ X). exact Hl.
  - simpl. rewrite E1, length_app. apply lookup_lt_Some in En. simpl in *. lia.
  - simpl in *. lia.
  - exists st'', r. split; [done|]. split; intros a ->.
    + intros Hok. eapply Hp; [done|]. by apply (ex_params _ _ X).
    + rewrite (Hd a eq_refl). apply (ex_depth _ _ X).
Qed.

Lemma exec_notified_ends (fuel : nat) (o depth : Z) (tr : action_trace) (t : trx_state) :
  parameters_ok (params t) -> 2 ^ 64 < Z.of_nat fuel ->
  exists st' r, exec_notified env fuel (new_context o depth tr, t) = Some (st', r) /\
    forall l, r = Ok l -> parameters_ok (params st'.2) /\ (l = [] \/ depth < 2 ^ 16).
Proof.
  intros Hok Hf. unfold exec_notified. run_fuel. unfold update_context at 1. cbv beta iota.
  destruct (exec_one env _) as [[c1 t1] [u|e]] eqn:E1; [|by eexists _, _].
  apply exec_one_spec in E1 as X. destruct (ex_lists _ _ X) as (nl & il & fl & En & _).
  destruct (notify_loop_ends fuel 1 (c1, t1)) as (st2 & r2 & E2 & Hp & Hd).
  { apply (executes_listed _ _ X). eexists _, []. simpl. split; [done|]. split; [done|apply NoDup_singleton]. }
  { simpl in *. rewrite En. simpl. lia. }
  { lia. }
  rewrite E2. destruct st2 as [c2 t2]. destruct r2 as [u2|e]; [|by eexists _, _].
  unfold context, chain_of, when, check, lift. cbv beta iota.
  assert (Hok2 : parameters_ok (params t2)) by (apply (Hp u2 eq_refl), (ex_params _ _ X), Hok).
  assert (Hd2 : recurse_depth c2 = depth) by (rewrite (Hd u2 eq_refl : recurse_depth c2 = _); by rewrite (ex_depth _ _ X)).
  destruct (_ || _) eqn:Eb.
  - destruct (Z.ltb_spec (recurse_depth c2) (max_inline_action_depth (chain_cfg (ts_chain t2)))) as [Hlt|]; cbn [dcd_assert]; [|by eexists _, _].
    eexists _, _. split; [done|]. intros l [= <-]. split; [done|]. right.
    destruct Hok2 as [Hc _ _ _ _].
    assert (H15 : fits 16 (max_inline_action_depth (chain_cfg (ts_chain t2)))) by exact (Hc 15 ltac:(by vm_compute)).
    unfold fits in H15. lia.
  - apply orb_false_iff in Eb as [Eb1 Eb2]. apply Nat.ltb_ge in Eb1, Eb2. eexists _, _. split; [done|]. intros l [= <-]. split; [done|]. left.
    destruct (_cfa_inline_actions c2), (_inline_actions c2); simpl in *; (done || lia).
Qed.

Definition enough (fuel : nat) (depth : Z) : Prop := 2 ^ 64 + 2 ^ 16 + 2 - depth < Z.of_nat fuel.

Lemma execute_action_ends (fuel : nat) (o depth : Z) (t : trx_state) :
  enough fuel depth -> depth <= 2 ^ 16 -> parameters_ok (params t) ->
  exists t' r, execute_action env fuel o depth t = Some (t', r) /\ (forall a, r = Ok a -> parameters_ok (params t')).
Proof.
  unfold enough. revert o depth t. induction fuel as [|fuel IH]; intros o depth t Hf Hd Hok; [lia|]. cbn [execute_action]. run_fuel.
  destruct (get_action_trace o t) as [t1 [tr|e]] eqn:Eg; [|by eexists _, _]. apply get_action_trace_state in Eg as (-> & _).
  unfold in_context. destruct (exec_notified_ends fuel o depth tr t Hok ltac:(lia)) as ([c1 t1] & r1 & E1 & Hl). rewrite E1.
  destruct r1 as [l|e]; [|by eexists _, _]. destruct (Hl l eq_refl) as [Hok1 Hl1]. simpl in Hok1. clear E1 Hl.
  destruct Hl1 as [->|Hd1]; [eexists _, _; split; [done|]; by intros|]. revert t1 Hok1.
  induction l as [|o1 l IHl]; intros t1 Hok1; cbn [each]; run_fuel; [eexists _, _; split; [done|]; by intros|].
  destruct (IH o1 (depth + 1) t1 ltac:(lia) ltac:(lia) Hok1) as (t2 & r2 & -> & Hok2). destruct r2 as [[]|e]; [|by eexists _, _].
  apply IHl. by eapply Hok2.
Qed.

(** More fuel gives the same result. *)
Lemma notify_loop_more (n m i : nat) (st : state) r :
  (n <= m)%nat -> notify_loop env n i st = Some r -> notify_loop env m i st = Some r.
Proof.
  revert m i st. induction n as [|n IH]; intros [|m] i [c t] Hle; try done; [lia|]. cbn [notify_loop]. run_fuel.
  unfold context. cbv beta iota. destruct (_notified c !! i) as [[x o]|]; [|done]. unfold update_context. cbv beta iota.
  destruct (exec_one env _) as [st' [u|e]]; [|done]. apply IH. lia.
Qed.

Lemma exec_notified_more (n m : nat) (st : state) r :
  (n <= m)%nat -> exec_notified env n st = Some r -> exec_notified env m st = Some r.
Proof.
  intros Hle. unfold exec_notified. run_fuel. destruct (update_context _ st) as [st1 [u1|e]]; [|done].
  destruct (exec_one env st1) as [st2 [u2|e]]; [|done].
  destruct (notify_loop env n 1 st2) as [x|] eqn:E; [|done]. by rewrite (notify_loop_more _ _ _ _ _ Hle E).
Qed.

Lemma execute_action_more (n m : nat) (o depth : Z) (t : trx_state) r :
  (n <= m)%nat -> execute_action env n o depth t = Some r -> execute_action env m o depth t = Some r.
Proof.
  revert m o depth t r. induction n as [|n IH]; intros [|m] o depth t r Hle; try done; [lia|]. cbn [execute_action]. run_fuel.
  destruct (get_action_trace o t) as [t1 [tr|e]]; [|done]. unfold in_context.
  destruct (exec_notified env n _) as [[[c2 t2] r2]|] eqn:E; [|done]. rewrite (exec_notified_more n m _ _ ltac:(lia) E).
  destruct r2 as [l|e]; [|done]. clear E. revert t2. induction l as [|o1 l IHl]; intros t2; cbn [each]; run_fuel; [done|].
  destruct (execute_action env n o1 (depth + 1) t2) as [x|] eqn:E; [|done]. rewrite (IH m _ _ _ _ ltac:(lia) E).
  destruct x as [t3 [u|e]]; [|done]. apply IHl.
Qed.

(** ** Every action is executed once *)

Definition receipt_at (t : trx_state) (o : Z) : option action_receipt :=
  tr ← action_traces t !! Z.to_nat (o - 1); tr_receipt tr.

(** The actions [os] were executed, in this order. *)
Record ran (t t' : trx_state) (os : list Z) : Prop := {
  rn_heads : heads_kept t t';
  rn_sequence : sequence_of t' = u64 (sequence_of t + Z.of_nat (length os));
  rn_receipts : exists rs, executed_action_receipt_digests t' = executed_action_receipt_digests t ++ map action_receipt_digest rs /\
    length rs = length os /\
    forall k o r, os !! k = Some o -> rs !! k = Some r ->
      receipt_at t' o = Some r /\ ar_global_sequence r = u64 (sequence_of t + Z.of_nat k + 1);
  rn_others : forall o, 0 < o -> o ∉ os -> o <= trace_count t -> receipt_at t' o = receipt_at t o
}.

Lemma ran_nil (t : trx_state) : sequence_of t = u64 (sequence_of t) -> ran t t [].
Proof.
  intros Hs. split; [by apply heads_kept_eq|simpl; by rewrite Z.add_0_r|exists []; by rewrite app_nil_r|done].
Qed.

Lemma ran_app (t1 t2 t3 : trx_state) (os1 os2 : list Z) :
  ran t1 t2 os1 -> ran t2 t3 os2 -> trace_count t1 <= trace_count t2 -> Forall (fun o => 0 < o <= trace_count t2) os1 ->
  (forall o, o ∈ os1 -> o ∉ os2) -> ran t1 t3 (os1 ++ os2).
Proof.
  intros [A1 A2 (rs1 & A3 & A4 & A5) A6] [B1 B2 (rs2 & B3 & B4 & B5) B6] Hle Hr Hd. split.
  - by eapply heads_kept_trans.
  - rewrite B2, A2, length_app. unfold wrap. rewrite Zplus_mod_idemp_l. f_equal. lia.
  - exists (rs1 ++ rs2). split; [by rewrite B3, A3, map_app, app_assoc|]. split; [rewrite !length_app; lia|].
    intros k o r Ho Hr'. apply lookup_app_Some in Ho as [Ho|[Hk Ho]].
    + rewrite lookup_app_l in Hr' by (rewrite A4; by eapply lookup_lt_Some). destruct (A5 k o r Ho Hr') as [E1 E2]. split; [|done].
      assert (Hin : o ∈ os1) by (by eapply list_elem_of_lookup_2). eapply Forall_forall in Hr; [|done].
      rewrite B6; [done|lia|by apply Hd|lia].
    + rewrite lookup_app_r in Hr' by lia. rewrite A4 in Hr'. destruct (B5 _ o r Ho Hr') as [E1 E2]. split; [done|].
      rewrite E2, A2. unfold wrap. rewrite <- Z.add_assoc, Zplus_mod_idemp_l. f_equal. lia.
  - intros o H0' Hn Hc. apply not_elem_of_app in Hn as [Hn1 Hn2]. rewrite B6, A6; try done. lia.
Qed.

Lemma executes_ran (st st' : state) :
  executes st st' -> 0 < ac_ordinal st.1 -> ran st.2 st'.2 [ac_ordinal st.1].
Proof.
  intros X Ho. destruct (ex_lists _ _ X) as (nl & il & fl & _ & _ & _ & S). split.
  - apply S.
  - apply (ex_sequence _ _ X).
  - destruct (ex_receipt _ _ X) as (r & (tr & Ht & Hr) & _ & Hg & Hd). exists [r]. split; [done|]. split; [done|].
    intros [|k] o r' [= <-] [= <-]. unfold receipt_at. rewrite (ex_ordinal _ _ X) in Ht. rewrite Ht. simpl. rewrite Hr. split; [done|].
    rewrite Hg, (ex_sequence _ _ X). by rewrite Z.add_0_r.
  - intros o H0' Hn Hc. assert (Hne : o <> ac_ordinal st.1) by set_solver. unfold receipt_at, trace_count in *.
    destruct (lookup_lt_is_Some_2 (action_traces st.2) (Z.to_nat (o - 1))) as [x Hx]; [lia|].
    rewrite (ex_others _ _ X _ x); [by rewrite Hx|lia|done].
Qed.

(** ** The notifications *)
Section notifications.
Context (c0 : apply_context) (t0 : trx_state) (Hv : valid c0 t0).

(** The first [i] accounts have been notified. *)
Record progress (i : nat) (st : state) : Prop := {
  pg_first : first_receiver_action_ordinal st.1 = first_receiver_action_ordinal c0;
  pg_depth : recurse_depth st.1 = recurse_depth c0;
  pg_lists : exists nl, _notified st.1 = (ac_receiver c0, ac_ordinal c0) :: nl /\
    schedules c0 t0 st.2 nl (_inline_actions st.1) (_cfa_inline_actions st.1);
  pg_ran : ran t0 st.2 (take i (_notified st.1).*2)
}.

Lemma progress_facts (i : nat) (st : state) : progress i st -> trace_count st.2 < 2 ^ 32 ->
  trace_count t0 <= trace_count st.2 /\ NoDup ((_notified st.1).*2 ++ _inline_actions st.1 ++ _cfa_inline_actions st.1) /\
  Forall (fun o => 0 < first_receiver_action_ordinal c0 <= o /\ o <= trace_count st.2)
    ((_notified st.1).*2 ++ _inline_actions st.1 ++ _cfa_inline_actions st.1).
Proof.
  intros [_ _ (nl & En & S) _] Hb. destruct (sc_ordinals _ _ _ _ _ _ S Hb Hv) as (P & _ & _). pose proof (sc_more _ _ _ _ _ _ S) as Hm.
  destruct Hv as [V1 V2]. split; [done|]. rewrite En. cbn [fmap list_fmap app snd]. split.
  - apply NoDup_cons. rewrite P. split; [rewrite elem_of_seqZ; lia|apply NoDup_seqZ].
  - apply Forall_cons. split; [lia|]. rewrite P. apply Forall_forall. intros o Ho%elem_of_seqZ. lia.
Qed.

Lemma progress_step (i : nat) (c : apply_context) (t : trx_state) (n : account_name) (o : Z) (st' : state) :
  progress i (c, t) -> _notified c !! i = Some (n, o) -> executes (set_running n o c, t) st' -> trace_count st'.2 < 2 ^ 32 ->
  progress (S i) st'.
Proof.
  intros P Hi X Hb. pose proof P as [P1 P2 (nl & P3 & P4) P5]. simpl in *.
  destruct (ex_lists _ _ X) as (nl' & il' & fl' & E1 & E2 & E3 & X4). simpl in *. pose proof (sc_more _ _ _ _ _ _ X4) as Hm.
  destruct (progress_facts i (c, t) P ltac:(simpl; lia)) as (Hc & Hd & Hr). simpl in *.
  assert (Hin : (_notified c).*2 !! i = Some o) by (by rewrite list_lookup_fmap, Hi).
  assert (Ho : 0 < first_receiver_action_ordinal c0 <= o /\ o <= trace_count t).
  { eapply Forall_forall in Hr; [exact Hr|]. apply elem_of_app. left. by eapply list_elem_of_lookup_2. }
  assert (Hlen : (i < length (_notified c).*2)%nat) by (by eapply lookup_lt_Some).
  split; [by rewrite (ex_first _ _ X)|by rewrite (ex_depth _ _ X)| |].
  - exists (nl ++ nl'). rewrite E1, P3. split; [done|]. rewrite E2, E3. eapply (schedules_app c0 (set_running n o c) t0 t); [|done|done].
    intros _ _. unfold valid. simpl. rewrite P1. lia.
  - rewrite E1, fmap_app, take_app_le by lia. erewrite take_S_r by done. apply NoDup_app in Hd as [Hd _].
    apply (ran_app t0 t); [done| |done| |].
    + apply (executes_ran _ _ X). simpl. lia.
    + apply Forall_app in Hr as [Hr _]. eapply Forall_impl; [apply Forall_take; exact Hr|]. simpl. intros; lia.
    + intros x Hx ->%list_elem_of_singleton. rewrite <- (take_drop_middle _ _ _ Hin) in Hd. apply NoDup_app in Hd as (_ & Hd & _).
      apply (Hd _ Hx). left.
Qed.

Lemma notify_loop_mono (fuel i : nat) (st st' : state) (a : unit) :
  notify_loop env fuel i st = Some (st', Ok a) -> trace_count st.2 <= trace_count st'.2.
Proof.
  revert i st. induction fuel as [|fuel IH]; intros i [c t] E; [done|]. cbn [notify_loop] in E. run_fuel_in E. unfold context in E. cbv beta iota in E.
  destruct (_notified c !! i) as [[n o]|]; [|by injection E as <- _]. unfold update_context in E. cbv beta iota in E.
  destruct (exec_one env _) as [st1 [u|e]] eqn:E1; [|done]. apply exec_one_spec in E1 as X.
  destruct (ex_lists _ _ X) as (nl & il & fl & _ & _ & _ & X4). apply sc_more in X4. apply IH in E. simpl in *. lia.
Qed.

Lemma notify_loop_spec (fuel i : nat) (st st' : state) (a : unit) :
  progress i st -> trace_count st'.2 < 2 ^ 32 -> notify_loop env fuel i st = Some (st', Ok a) ->
  progress (length (_notified st'.1)) st'.
Proof.
  revert i st. induction fuel as [|fuel IH]; intros i [c t] P Hb E; [done|]. cbn [notify_loop] in E. run_fuel_in E. unfold context in E. cbv beta iota in E.
  destruct (_notified c !! i) as [[n o]|] eqn:En.
  - unfold update_context in E. cbv beta iota in E. destruct (exec_one env _) as [st1 [u|e]] eqn:E1; [|done].
    eapply IH; [|done|exact E]. eapply progress_step; [exact P|exact En|by eapply exec_one_spec|].
    apply notify_loop_mono in E. lia.
  - injection E as <- _. apply lookup_ge_None in En. destruct P as [P1 P2 P3 P4]. split; try done. simpl in *.
    rewrite take_ge in * by (rewrite length_fmap; lia). done.
Qed.
End notifications.

Definition sequence_fits (t : trx_state) : Prop := u64 (sequence_of t) = sequence_of t.

Lemma ran_fits (t t' : trx_state) (os : list Z) : ran t t' os -> sequence_fits t'.
Proof. intros R. unfold sequence_fits. rewrite (rn_sequence _ _ _ R). unfold wrap. apply Zmod_mod. Qed.

Lemma exec_notified_spec (fuel : nat) (o depth : Z) (tr : action_trace) (t t' : trx_state) (c' : apply_context) (l : list Z) :
  0 < o <= trace_count t -> sequence_fits t -> trace_count t' < 2 ^ 32 ->
  exec_notified env fuel (new_context o depth tr, t) = Some ((c', t'), Ok l) ->
  exists nl, ran t t' (o :: nl) /\ nl ++ l ≡ₚ seqZ (trace_count t + 1) (trace_count t' - trace_count t) /\
    numbered (length (action_traces t)) t' /\ trace_count t <= trace_count t'.
Proof.
  intros Ho Hs Hb E. unfold exec_notified in E. run_fuel_in E. unfold update_context at 1 in E. cbv beta iota in E.
  set (c0 := set_lists [(ac_receiver (new_context o depth tr), ac_ordinal (new_context o depth tr))] [] [] (new_context o depth tr)) in E.
  assert (Hv : valid c0 t) by (unfold valid; simpl; lia).
  destruct (exec_one env (c0, t)) as [st1 [u1|e]] eqn:E1; [|done].
  destruct (notify_loop env fuel 1 st1) as [[[c2 t2] [u2|e]]|] eqn:E2; [|done|done].
  assert (Ht2 : (c2, t2) = (c', t') /\ l = _cfa_inline_actions c2 ++ _inline_actions c2).
  { unfold context, chain_of, when, check, lift in E. cbv beta iota in E. destruct (_ || _); [|by injection E as -> -> <-].
    destruct (dcd_assert _ _); [|done]. by injection E as -> -> <-. }
  clear E. destruct Ht2 as [[= -> ->] ->].
  assert (P0 : progress c0 t 0 (c0, t)).
  { split; [done|done| |]; [|simpl; by apply ran_nil]. exists []. split; [done|]. apply schedules_none; [done|by apply heads_kept_eq]. }
  assert (P1 : progress c0 t 1 st1).
  { eapply (progress_step c0 t Hv 0 c0 t); [exact P0|reflexivity|by eapply exec_one_spec|]. apply notify_loop_mono in E2. simpl in *. lia. }
  apply (notify_loop_spec c0 t Hv) in E2 as P; [|done|done]. destruct P as [_ _ (nl & En & S) R]. simpl in *. rewrite En in R.
  cbn [fmap list_fmap length] in R. rewrite take_ge in R by (simpl; rewrite length_fmap; lia). exists nl.*2. split; [done|].
  destruct (sc_ordinals _ _ _ _ _ _ S Hb Hv) as (P & N & _). split; [|split; [done|apply S]].
  by rewrite <- P, (Permutation_app_comm (_cfa_inline_actions c')).
Qed.

(** The action [o] with all that it brings about. *)
Definition runs_all (t t' : trx_state) (l : list Z) : Prop :=
  trace_count t <= trace_count t' /\ numbered (length (action_traces t)) t' /\ heads_kept t t' /\
  exists os, ran t t' os /\ os ≡ₚ l ++ seqZ (trace_count t + 1) (trace_count t' - trace_count t).

Lemma numbered_nil (t : trx_state) : numbered (length (action_traces t)) t.
Proof. intros i y Hi Hy. apply lookup_lt_Some in Hy. lia. Qed.

Lemma runs_all_app (t1 t2 t3 : trx_state) (l1 l2 : list Z) :
  NoDup (l1 ++ l2) -> Forall (fun o => 0 < o <= trace_count t1) (l1 ++ l2) ->
  runs_all t1 t2 l1 -> runs_all t2 t3 l2 -> runs_all t1 t3 (l1 ++ l2).
Proof.
  intros Hd Hf (A1 & A2 & A3 & os1 & A4 & A5) (B1 & B2 & B3 & os2 & B4 & B5). split; [lia|]. split; [by eapply numbered_app|].
  split; [by eapply heads_kept_trans|]. apply Forall_app in Hf as [Hf1 Hf2]. rewrite Forall_forall in Hf1, Hf2.
  assert (H0' : 0 <= trace_count t1) by (unfold trace_count; lia). exists (os1 ++ os2). split.
  - apply (ran_app t1 t2); try done.
    + rewrite A5. apply Forall_forall. intros o [Ho%Hf1|Ho%elem_of_seqZ]%elem_of_app; lia.
    + intros o. rewrite A5, B5, !elem_of_app, !elem_of_seqZ. apply NoDup_app in Hd as (_ & Hd & _).
      intros [Ho|Ho] [Ho'|Ho']; [by apply (Hd o)|apply Hf1 in Ho; lia|apply Hf2 in Ho'; lia|lia].
  - rewrite A5, B5.
    replace (trace_count t3 - trace_count t1) with ((trace_count t2 - trace_count t1) + (trace_count t3 - trace_count t2)) by lia.
    rewrite seqZ_app by lia. replace (trace_count t1 + 1 + (trace_count t2 - trace_count t1)) with (trace_count t2 + 1) by lia.
    rewrite <- !app_assoc. f_equiv. rewrite !app_assoc. f_equiv. apply Permutation_app_comm.
Qed.

(** Several actions, one after the other. *)
Section sequence.
Context (f : Z -> F trx_state unit)
  (Hmono : forall o t t' a, f o t = Some (t', Ok a) -> trace_count t <= trace_count t')
  (Hruns : forall o t t' a, 0 < o <= trace_count t -> sequence_fits t -> trace_count t' < 2 ^ 32 -> f o t = Some (t', Ok a) ->
     runs_all t t' [o]).

Lemma each_mono (l : list Z) (t t' : trx_state) (a : unit) : each f l t = Some (t', Ok a) -> trace_count t <= trace_count t'.
Proof using Hmono.
  revert t. induction l as [|o l IH]; intros t E; cbn [each] in E; run_fuel_in E; [by injection E as <- _|].
  destruct (f o t) as [[t1 [u|e]]|] eqn:E1; [|done|done]. apply Hmono in E1. apply IH in E. lia.
Qed.

Lemma each_runs (l : list Z) (t t' : trx_state) (a : unit) :
  sequence_fits t -> NoDup l -> Forall (fun o => 0 < o <= trace_count t) l -> trace_count t' < 2 ^ 32 ->
  each f l t = Some (t', Ok a) -> runs_all t t' l.
Proof using Hmono Hruns.
  revert t. induction l as [|o l IH]; intros t Hs Hd Hf Hb E.
  { cbn [each] in E. run_fuel_in E. injection E as <- _. split; [lia|]. split; [apply numbered_nil|].
    split; [by apply heads_kept_eq|]. exists []. split; [by apply ran_nil|]. by rewrite Z.sub_diag. }
  cbn [each] in E. run_fuel_in E. destruct (f o t) as [[t1 [u|e]]|] eqn:E1; [|done|done].
  pose proof Hd as [Hn Hd']%NoDup_cons. pose proof Hf as [Hf1 Hf2]%Forall_cons. pose proof (each_mono _ _ _ _ E) as Hm.
  apply Hruns in E1; [|done|done|lia]. pose proof E1 as (Hm1 & _ & _ & os & R & _).
  apply (runs_all_app t t1 t' [o] l); [done|done|done|]. apply IH; [by eapply ran_fits|done| |done|done].
  eapply Forall_impl; [exact Hf2|]. simpl. intros; lia.
Qed.
End sequence.

Lemma exec_notified_mono (fuel : nat) (c : apply_context) (t : trx_state) (st' : state) (l : list Z) :
  exec_notified env fuel (c, t) = Some (st', Ok l) -> trace_count t <= trace_count st'.2.
Proof.
  intros E. unfold exec_notified in E. run_fuel_in E. unfold update_context at 1 in E. cbv beta iota in E.
  destruct (exec_one env _) as [st1 [u1|e]] eqn:E1; [|done]. destruct (notify_loop _ _ _ _) as [[[c2 t2] [u2|e]]|] eqn:E2; [|done|done].
  apply exec_one_spec in E1 as X. destruct (ex_lists _ _ X) as (nl & il & fl & _ & _ & _ & X4). apply sc_more in X4.
  apply notify_loop_mono in E2. unfold context, chain_of, when, check, lift in E. cbv beta iota in E. simpl in *.
  destruct (_ || _); [destruct (dcd_assert _ _); [|done]|]; injection E as <- _; simpl; lia.
Qed.

Lemma execute_action_mono (fuel : nat) (o depth : Z) (t t' : trx_state) (a : unit) :
  execute_action env fuel o depth t = Some (t', Ok a) -> trace_count t <= trace_count t'.
Proof.
  revert o depth t t' a. induction fuel as [|fuel IH]; intros o depth t t' a E; [done|]. cbn [execute_action] in E. run_fuel_in E.
  destruct (get_action_trace o t) as [t1 [tr|e]] eqn:Eg; [|done]. apply get_action_trace_state in Eg as (-> & _).
  unfold in_context in E. destruct (exec_notified env fuel _) as [[[c1 t1] [l|e]]|] eqn:E1; [|done|done].
  apply exec_notified_mono in E1. apply each_mono in E; [simpl in *; lia|]. intros o1 t2 t3 b. apply IH.
Qed.

Lemma execute_action_spec (fuel : nat) (o depth : Z) (t t' : trx_state) (a : unit) :
  0 < o <= trace_count t -> sequence_fits t -> trace_count t' < 2 ^ 32 ->
  execute_action env fuel o depth t = Some (t', Ok a) -> runs_all t t' [o].
Proof.
  revert o depth t t' a. induction fuel as [|fuel IH]; intros o depth t t' a Ho Hs Hb E; [done|]. cbn [execute_action] in E. run_fuel_in E.
  destruct (get_action_trace o t) as [t1 [tr|e]] eqn:Eg; [|done]. apply get_action_trace_state in Eg as (-> & _).
  unfold in_context in E. destruct (exec_notified env fuel _) as [[[c1 t1] [l|e]]|] eqn:E1; [|done|done].
  assert (Hm : trace_count t1 <= trace_count t') by (eapply each_mono; [|exact E]; intros ????; apply execute_action_mono).
  apply exec_notified_spec in E1 as (nl & R & P & N & Hm1); [|done|done|lia].
  assert (Hin : forall x, x ∈ nl \/ x ∈ l <-> trace_count t + 1 <= x < trace_count t1 + 1).
  { intros x. rewrite <- elem_of_app, P, elem_of_seqZ. lia. }
  assert (Hd : NoDup (nl ++ l)) by (rewrite P; apply NoDup_seqZ). apply NoDup_app in Hd as (_ & Hd & Hdl).
  apply each_runs in E; [|intros ????; apply execute_action_mono|intros ????; apply IH|by eapply ran_fits|done| |done].
  2:{ apply Forall_forall. intros x Hx. assert (H0' : trace_count t + 1 <= x < trace_count t1 + 1) by (apply Hin; by right). lia. }
  destruct E as (_ & N' & Hh & os & R' & P'). split; [lia|]. split; [by eapply numbered_app|].
  split; [eapply heads_kept_trans; [apply R|done]|]. exists ((o :: nl) ++ os). split.
  - apply (ran_app t t1); try done.
    + apply Forall_cons. split; [lia|]. apply Forall_forall. intros x Hx.
      assert (H0' : trace_count t + 1 <= x < trace_count t1 + 1) by (apply Hin; by left). lia.
    + intros x Hx. rewrite P', elem_of_app, elem_of_seqZ. intros [Hx'|Hx'].
      * apply elem_of_cons in Hx as [->|Hx]; [|by apply (Hd x)].
        assert (H0' : trace_count t + 1 <= o < trace_count t1 + 1) by (apply Hin; by right). lia.
      * apply elem_of_cons in Hx as [->|Hx]; [lia|].
        assert (H0' : trace_count t + 1 <= x < trace_count t1 + 1) by (apply Hin; by left). lia.
  - rewrite P', <- app_comm_cons, app_assoc, P.
    replace (trace_count t' - trace_count t) with ((trace_count t1 - trace_count t) + (trace_count t' - trace_count t1)) by lia.
    rewrite seqZ_app by lia. simpl. do 2 f_equiv. f_equiv. lia.
Qed.

(** ** The recorded transactions *)
Lemma each_inputs (f : Z -> F trx_state unit) (l : list Z) (t t' : trx_state) (a : unit) :
  (forall o t t' a, f o t = Some (t', Ok a) -> inputs_of t' = inputs_of t) -> each f l t = Some (t', Ok a) -> inputs_of t' = inputs_of t.
Proof.
  intros Hf. revert t. induction l as [|o l IH]; intros t E; cbn [each] in E; run_fuel_in E; [by injection E as <- _|].
  destruct (f o t) as [[t1 [u|e]]|] eqn:E1; [|done|done]. apply Hf in E1. apply IH in E. congruence.
Qed.

Lemma notify_loop_inputs (fuel i : nat) (st st' : state) (a : unit) :
  notify_loop env fuel i st = Some (st', Ok a) -> inputs_of st'.2 = inputs_of st.2.
Proof.
  revert i st. induction fuel as [|fuel IH]; intros i [c t] E; [done|]. cbn [notify_loop] in E. run_fuel_in E. unfold context in E. cbv beta iota in E.
  destruct (_notified c !! i) as [[n o]|]; [|by injection E as <- _]. unfold update_context in E. cbv beta iota in E.
  destruct (exec_one env _) as [st1 [u|e]] eqn:E1; [|done]. apply exec_one_spec, ex_inputs in E1. apply IH in E. simpl in *. congruence.
Qed.

Lemma execute_action_inputs (fuel : nat) (o depth : Z) (t t' : trx_state) (a : unit) :
  execute_action env fuel o depth t = Some (t', Ok a) -> inputs_of t' = inputs_of t.
Proof.
  revert o depth t t' a. induction fuel as [|fuel IH]; intros o depth t t' a E; [done|]. cbn [execute_action] in E. run_fuel_in E.
  destruct (get_action_trace o t) as [t1 [tr|e]] eqn:Eg; [|done]. apply get_action_trace_state in Eg as (-> & _).
  unfold in_context in E. destruct (exec_notified env fuel _) as [[[c1 t1] [l|e]]|] eqn:E1; [|done|done].
  apply each_inputs in E; [|intros ????; apply IH]. rewrite E. clear E. unfold exec_notified in E1. run_fuel_in E1.
  unfold update_context at 1 in E1. cbv beta iota in E1. destruct (exec_one env _) as [st2 [u2|e]] eqn:E2; [|done].
  destruct (notify_loop _ _ _ _) as [[[c3 t3] [u3|e]]|] eqn:E3; [|done|done]. apply exec_one_spec, ex_inputs in E2.
  apply notify_loop_inputs in E3. unfold context, chain_of, when, check, lift in E1. cbv beta iota in E1. simpl in *.
  destruct (_ || _); [destruct (dcd_assert _ _); [|done]|]; injection E1 as <- <- _; congruence.
Qed.
End proofs.
