(* ===== verification/Transactions.v ===== *)
(** * Transactions: the model

    How one transaction is initialized, executed and finalized (libraries/chain/transaction_context.cpp; the checks of
    expiration and reference block of libraries/chain/controller.cpp and transaction.cpp). What measures time and
    reports usage is left out: the limits on it are commented out in the code. *)

From S2P Require Import Prelude Effects Name Types Asset BlockHeader Authority UndoIndex Database AuthorizationManager.
From S2P Require Import SystemContract TransactionTypes Fees CodeActions NodeLists ContractTables ChainConfig Parameters.
From S2P Require Import BlockHeaderState Proposals Controller Actions.

(** ** State *)

(** The members of the context of the transaction that are set before or beside the actions. *)
Record transaction_context := mk_trx_context {
  tc_trx : trx_state;
  is_initialized : bool;
  is_input : bool;
  tc_published : Z;
  apply_context_free : bool
}.

Definition set_trx (t : trx_state) (c : transaction_context) : transaction_context :=
  mk_trx_context t (is_initialized c) (is_input c) (tc_published c) (apply_context_free c).
Definition set_initialized (c : transaction_context) : transaction_context :=
  mk_trx_context (tc_trx c) true (is_input c) (tc_published c) (apply_context_free c).
Definition set_kind (input : bool) (published : Z) (cf : bool) (c : transaction_context) : transaction_context :=
  mk_trx_context (tc_trx c) (is_initialized c) input published cf.

Definition new_trx_context (s : chain) : transaction_context :=
  mk_trx_context (mk_trx_state s [] [] 0 false) false false 0 true.

(** The accounts that pay no fees, of [schedule_fee_action]. *)
Definition exempt_accounts : list account_name := Eval vm_compute in
  map n_ ["dcd"; "dcd.bpay"; "dcd.msig"; "dcd.names"; "dcd.ram"; "dcd.ramfee"; "dcd.saving"; "dcd.stake"; "dcd.token"; "dcd.vpay";
          "dcd.rex"; "dcd.system"; "dcd.feebank"].
Definition onfee_name : action_name := Eval vm_compute in n_ "onfee".
Section transactions.
Context {T : Type} `{ActionData} `{Code} `{Engine} `{TransactionData}.
Context (env : @trx_env T) (trx_id : digest) (trx : transaction) (delay : Z).

(** The environment of the actions: the time of publication is a member of the context. *)
Definition action_env (p : Z) : @trx_env T :=
  mk_trx_env (te_head env) (te_stage env) (te_time env) (te_features env) (te_producing env) (te_light env) (te_lists env)
    (te_key_blacklist env) (max_nonprivileged_inline_action_size env) (ram_billing_in_notify env)
    (all_subjective_mitigations_disabled env) (te_fee_manager env) (enforce_whiteblacklist env) trx_id p.

Abbreviation Ctx := (M transaction_context).

Definition the_chain : Ctx chain := c ← get; mret (ts_chain (tc_trx c)).
Definition set_the_chain (s : chain) : Ctx unit := update (fun c => set_trx (set_chain s (tc_trx c)) c).
Definition in_state {A} (m : M trx_state A) : Ctx A := fun c => let '(t, r) := m (tc_trx c) in (set_trx t c, r).

(** ** Initialization *)
Definition round_up_net_usage : M trx_state unit :=
  t ← get;
  if explicit_net_usage t then mret tt else update (set_net (u64 (u64 (net_usage t + 7) / 8 * 8)) false).

Definition disallow_transaction_extensions {A} : Ctx A :=
  if te_producing env then throw subjective_block_production_exception
  else throw disallowed_transaction_extensions_bad_block_exception.

Definition init (initial_net_usage : Z) : Ctx unit :=
  c ← get;
  _ ← check (negb (is_initialized c)) transaction_exception;
  _ ← when (0 <? initial_net_usage) (in_state (add_net_usage initial_net_usage));
  update set_initialized.

Definition validate_expiration : Ctx unit :=
  s ← the_chain;
  _ ← check (te_time env <=? trx_expiration trx * 1000000) expired_tx_exception;
  check (trx_expiration trx * 1000000 <=? te_time env + max_transaction_lifetime (chain_cfg s) * 1000000) tx_exp_too_far_exception.

Definition validate_tapos : Ctx unit :=
  s ← the_chain;
  match block_summaries s !! u16 (ref_block_num trx) with
  | None => throw out_of_range
  | Some i => check (verify_reference_block trx i) invalid_ref_block_exception
  end.

(** The table of recorded transactions is unique in their identifiers. *)
Definition record_transaction (i : digest) (expire : Z) : Ctx unit :=
  s ← the_chain;
  match input_transactions s !! i with
  | Some _ => throw tx_duplicate
  | None => set_the_chain (with_inputs s (<[i := expire]> (input_transactions s)))
  end.

Definition init_for_input_trx_common (initial_net_usage : Z) (skip_recording : bool) : Ctx unit :=
  _ ← update (fun c => set_kind true (te_time env) (apply_context_free c) c);
  _ ← unless (te_light env)
        (_ ← validate_expiration; _ ← validate_tapos;
         s ← the_chain; lift (validate_referenced_accounts env s trx (enforce_whiteblacklist env && te_producing env)));
  _ ← init initial_net_usage;
  unless skip_recording (record_transaction trx_id (trx_expiration trx)).

Definition check_extensions : Ctx unit :=
  if (0 <? length (transaction_extensions trx))%nat then disallow_transaction_extensions else mret tt.

Definition init_for_implicit_trx (initial_net_usage : Z) : Ctx unit :=
  _ ← check_extensions;
  _ ← update (fun c => set_kind (is_input c) (te_time env) (apply_context_free c) c);
  init initial_net_usage.

Definition discounted_size (cfg : chain_config_v1) (packed_trx_prunable_size : Z) : Z :=
  let num := context_free_discount_net_usage_num cfg in
  let den := context_free_discount_net_usage_den cfg in
  if (0 <? den) && (num <? den) then u64 (u64 (packed_trx_prunable_size * num) + den - 1) / den else packed_trx_prunable_size.

Definition init_for_input_trx (packed_trx_unprunable_size packed_trx_prunable_size : Z) (skip_recording : bool) : Ctx unit :=
  _ ← check_extensions;
  s ← the_chain;
  let cfg := chain_cfg s in
  let n := u64 (base_per_transaction_net_usage cfg + packed_trx_unprunable_size + discounted_size cfg packed_trx_prunable_size) in
  let n := if 0 <? delay_sec trx then u64 (n + base_per_transaction_net_usage cfg + transaction_id_net_usage) else n in
  init_for_input_trx_common n skip_recording.

Definition init_for_input_trx_with_explicit_net (explicit_net_usage_words : Z) (skip_recording : bool) : Ctx unit :=
  _ ← check_extensions;
  _ ← in_state (update (set_net (explicit_net_usage_words * 8) true));
  init_for_input_trx_common 0 skip_recording.

Definition init_for_deferred_trx (p : Z) : Ctx unit :=
  _ ← when (negb (trx_expiration trx =? 0) && (0 <? length (transaction_extensions trx))%nat) disallow_transaction_extensions;
  _ ← update (fun c => set_kind (is_input c) p false c);
  init 0.

(** ** Execution *)
Definition schedule_fee_action : Ctx unit :=
  match actions trx with
  | [] => throw undefined_behaviour
  | a :: _ =>
      match authorization a with
      | [] => throw transaction_exception
      | l :: _ =>
          let fee_payer := actor l in
          _ ← check (negb (fee_payer =? 0)) transaction_exception;
          if bool_decide (fee_payer ∈ exempt_accounts) then mret tt
          else
            s ← the_chain;
            fee ← lift (get_required_fee (te_fee_manager env) (fees (contracts s)) (actions trx));
            let fee_act := mk_action config.system_account_name onfee_name [mk_level fee_payer config.active_name]
                             (pack_fee_parameter fee_payer fee) in
            when (0 <? amount fee)
              (_ ← in_state (schedule_new_action fee_act config.system_account_name false 0 0); mret tt)
      end
  end.

Definition schedule_all (cf : bool) (l : list action) : Ctx unit :=
  for_each (fun a => _ ← in_state (schedule_new_action a (act_account a) cf 0 0); mret tt) l.

(** What is scheduled before the first action runs. *)
Definition schedule_actions : Ctx unit :=
  c ← get;
  _ ← check (is_initialized c) transaction_exception;
  _ ← schedule_fee_action;
  _ ← when (apply_context_free c) (schedule_all true (context_free_actions trx));
  when (delay =? 0) (schedule_all false (actions trx)).

Definition schedule_transaction : Ctx unit :=
  s ← the_chain;
  let cfg := chain_cfg s in
  _ ← when (delay_sec trx =? 0) (in_state (add_net_usage (base_per_transaction_net_usage cfg + transaction_id_net_usage)));
  let published := te_time env in
  let delay_until := published + delay in
  '(u, _) ← lift (db_create generated_keys (generated (auth_db s))
    (fun i => mk_gto i trx_id 0 (transaction_id_to_sender_id trx_id) (first_authorizer trx) delay_until
                (delay_until + deferred_trx_expiration_window cfg * 1000000) published (pack_transaction trx)));
  set_the_chain (with_auth_db s (with_generated (auth_db s) u)).

Definition in_fuel {A} (m : Z -> F trx_state A) : F transaction_context A := fun c =>
  match m (tc_published c) (tc_trx c) with
  | Some (t, r) => Some (set_trx t c, r)
  | None => None
  end.

Definition exec (fuel : nat) : F transaction_context unit :=
  _ ← now schedule_actions;
  c ← now get;
  let n := Z.of_nat (length (action_traces (tc_trx c))) in
  _ ← in_fuel (fun p => each (fun i => execute_action (action_env p) fuel i 0) (seqZ 1 n));
  if negb (delay =? 0) then now schedule_transaction else mret tt.

(** ** The end *)
Definition touch_permission (l : permission_level) : Ctx unit :=
  s ← the_chain;
  p ← lift (get_permission (auth_db s) l);
  db ← lift (update_permission_usage (control_of env s) (auth_db s) p);
  set_the_chain (with_auth_db s db).

Definition finalize : Ctx unit :=
  c ← get;
  _ ← check (is_initialized c) transaction_exception;
  _ ← when (is_input c) (for_each touch_permission (concat (map authorization (actions trx))));
  in_state round_up_net_usage.
End transactions.
