(* ===== verification/PushTransaction.v ===== *)
(** * Pushing transactions: the model

    How the controller runs a transaction in a block: [push_transaction], [push_scheduled_transaction], [apply_onerror],
    the transaction at the start of a block (libraries/chain/controller.cpp). Together they are what the controller needs
    of the execution of transactions, an instance of [Execution].

    A transaction runs in its own undo session: when it fails, what it did to the state is taken back. The processor
    time of a transaction is an argument: it is that of the receipt in a block that is applied, and measured in a
    block that is produced. The steps of a transaction are bounded by [fuel]; that it can be chosen such that no
    transaction reaches the bound is shown in PushTransactionProofs. *)

From S2P Require Import Prelude Effects Name Types Asset BlockTimestamp BlockHeader Authority UndoIndex Database.
From S2P Require Import AuthorizationManager SystemContract TransactionTypes Fees CodeActions NodeLists ProtocolFeatures.
From S2P Require Import ContractTables ChainConfig Parameters BlockHeaderState Proposals Controller Actions Transactions.

(** ** Data *)

(** [packed_transaction], with the keys that [transaction_metadata] recovers: what is packed and the prunable data, that is
    the signatures and the context-free data, only count with their sizes. The prunable data of a transaction that is not in
    the legacy form, or was pruned, has no size. *)
Record packed_transaction := mk_packed {
  get_transaction : transaction;
  packed_trx_size : Z;
  prunable_size : option Z;
  recovered_keys : list public_key
}.

Definition fixed_net_overhead_of_packed_trx : Z := 16.
Definition uint32_max : Z := 4294967295.

Definition get_unprunable_size (t : packed_transaction) : result Z :=
  let size := u64 (fixed_net_overhead_of_packed_trx + packed_trx_size t) in
  _ ← dcd_assert (size <=? uint32_max) tx_too_big;
  Ok size.

Definition get_prunable_size (t : packed_transaction) : result Z :=
  match prunable_size t with
  | None => Throw tx_prune_exception
  | Some size => _ ← dcd_assert (size <=? uint32_max) tx_too_big; Ok size
  end.

(** What is read of [controller::config]. *)
Record node_config := mk_node {
  nd_lists : node_lists;
  nd_key_blacklist : gset public_key;
  nd_max_nonprivileged_inline_action_size : Z;
  nd_allow_ram_billing_in_notify : bool;
  nd_disable_all_subjective_mitigations : bool;
  nd_read_mode : db_read_mode
}.

Class ReceiptDigests := { hash_receipt : transaction_receipt packed_transaction -> digest }.

(** The exceptions derived from [objective_block_validation_exception]. *)
Definition is_objective (e : exn) : bool :=
  match e with
  | disallowed_transaction_extensions_bad_block_exception | protocol_feature_bad_block_exception
  | pruned_context_free_data_bad_block_exception => true
  | _ => false
  end.

(** What no handler catches: an objective failure of the block, and the undefined behaviour of C++, which is none of its
    exceptions. *)
Definition rethrown (e : exn) : bool :=
  match e with
  | undefined_behaviour => true
  | _ => is_objective e
  end.

Definition failure_is_subjective (e : exn) : bool :=
  match e with
  | subjective_block_production_exception | block_net_usage_exceeded | greylist_net_usage_exceeded
  | block_cpu_usage_exceeded | greylist_cpu_usage_exceeded | deadline_exception | leeway_deadline_exception
  | actor_whitelist_exception | actor_blacklist_exception | contract_whitelist_exception | contract_blacklist_exception
  | action_blacklist_exception | key_blacklist_exception | sig_variable_size_limit_exception
  | inline_action_too_big_nonprivileged => true
  | _ => false
  end.

Definition scheduled_failure_is_subjective (e : exn) : bool :=
  match e with
  | tx_cpu_usage_exceeded => true
  | _ => failure_is_subjective e
  end.

Definition onblock_name : action_name := Eval vm_compute in n_ "onblock".
Definition onerror_name : action_name := Eval vm_compute in n_ "onerror".

Section pushing.
Context `{ActionData} `{Code} `{Engine} `{TransactionData} `{ReceiptDigests}.
Context (nd : node_config) (fuel : nat).
Abbreviation exec_env := (exec_env (T := packed_transaction) (C := contract_state)).
Abbreviation trx_env := (trx_env (T := packed_transaction)).
Abbreviation outcome := (outcome (T := packed_transaction) (C := contract_state)).

(** ** The environment of a transaction *)
Definition env_time (env : exec_env) : Z := to_time_point (timestamp (bb_pbhs (env_block env))).

(** [controller::is_builtin_activated] while a block is pending *)
Definition env_feature (env : exec_env) (f : builtin_protocol_feature_t) : bool :=
  ProtocolFeatures.is_builtin_activated (env_manager env) f (u32 (block_num (bc_head (env_context env)) + 1)).

Definition trx_env_of (env : exec_env) (light enforce : bool) : trx_env :=
  let producing := bc_producing (env_context env) in
  mk_trx_env (bc_head (env_context env)) (building (env_block env)) (env_time env) (env_feature env) producing light (nd_lists nd)
    (nd_key_blacklist nd) (nd_max_nonprivileged_inline_action_size nd)
    (nd_disable_all_subjective_mitigations nd || negb producing || nd_allow_ram_billing_in_notify nd)
    (nd_disable_all_subjective_mitigations nd)
    (mk_fee_manager (bc_rate (env_context env)) (fee_map new_fee_manager)) enforce digest_zero 0.

(** ** Receipts *)

(** [push_receipt]: the receipt is added to the block. *)
Definition push_receipt (t : receipt_trx packed_transaction) (s : status_enum) (cpu net : Z) :
    result (transaction_receipt packed_transaction) :=
  let net_usage_words := net / 8 in
  _ ← dcd_assert (u64 (net_usage_words * 8) =? net) transaction_exception;
  Ok (mk_receipt (mk_receipt_header s (u32 cpu) (u32 net_usage_words)) t).

(** The transaction did nothing, and its trace carries the exception. *)
Definition failed (s : chain) (e : exn) : result outcome :=
  if rethrown e then Throw e else Ok (mk_outcome s [] [] (Some e)).

(** The end of a transaction that was executed. *)
Definition finished (c : transaction_context) (t : receipt_trx packed_transaction) (s : status_enum) (cpu : Z) : result outcome :=
  r ← push_receipt t s cpu (net_usage (tc_trx c));
  Ok (mk_outcome (ts_chain (tc_trx c)) [r] (executed_action_receipt_digests (tc_trx c)) None).

(** ** Transactions of users and of the node itself *)

(** What [push_transaction] does inside the undo session. *)
Definition transaction_body (e : trx_env) (implicit : bool) (explicit_net_usage_words : option Z) (skip_recording : bool)
    (t : packed_transaction) : F transaction_context unit :=
  let trn := get_transaction t in
  let i := transaction_id trn in
  let delay := delay_sec trn * 1000000 in
  _ ← now (if implicit then
             _ ← check (match explicit_net_usage_words with None => true | Some _ => false end) transaction_exception;
             init_for_implicit_trx e trn 0
           else match explicit_net_usage_words with
             | Some n => init_for_input_trx_with_explicit_net e i trn n skip_recording
             | None =>
                 u ← lift (get_unprunable_size t);
                 p ← lift (get_prunable_size t);
                 init_for_input_trx e i trn u p skip_recording
             end);
  _ ← now (unless (te_light e || implicit)
             (s ← the_chain;
              lift (check_authorization (control_of e s) (auth_db s) (actions trn) (recovered_keys t) ∅ delay false ∅)));
  _ ← exec e i trn delay fuel;
  now (finalize e trn).

(** Outside of the speculative mode a block that is produced keeps no transaction. *)
Definition keeps_transactions (env : exec_env) : bool :=
  bool_decide (nd_read_mode nd = SPECULATIVE) || negb (bc_producing (env_context env)).

Definition run_transaction (env : exec_env) (light implicit : bool) (explicit_net_usage_words : option Z) (cpu : Z)
    (t : packed_transaction) : result outcome :=
  let s := env_state env in
  let trn := get_transaction t in
  let skip_recording := match bc_replay_head_time (env_context env) with
                        | Some h => trx_expiration trn * 1000000 <=? h
                        | None => false
                        end in
  match transaction_body (trx_env_of env light (negb implicit)) implicit explicit_net_usage_words skip_recording t
          (new_trx_context s) with
  | None => Throw nontermination
  | Some (_, Throw e) => failed s e
  | Some (c, Ok _) =>
      let st := if delay_sec trn =? 0 then executed else delayed in
      match (if implicit then Ok (mk_outcome (ts_chain (tc_trx c)) [] (executed_action_receipt_digests (tc_trx c)) None)
             else finished c (trx_packed t) st cpu) with
      | Throw e => failed s e
      | Ok o => Ok (if keeps_transactions env then o else mk_outcome s [] [] None)
      end
  end.

(** A transaction that refers to the head, or to nothing. *)
Definition node_transaction (env : exec_env) (a : action) : transaction :=
  let trx := mk_transaction 0 0 0 0 0 0 [] [a] [] in
  if env_feature env no_duplicate_deferred_id then trx
  else set_reference_block (with_expiration trx (to_seconds (env_time env + 999999))) (id (bc_head (env_context env))).

Definition get_on_block_transaction (env : exec_env) : transaction :=
  node_transaction env
    (mk_action config.system_account_name onblock_name [mk_level config.system_account_name config.active_name]
       (pack_block_header (h_base (header (bc_head (env_context env)))))).

(** ** Deferred transactions *)

Definition onerror_transaction (env : exec_env) (g : generated_transaction_object) : transaction :=
  node_transaction env
    (mk_action config.system_account_name onerror_name [mk_level (sender g) config.active_name]
       (pack_onerror (sender_id g) (packed_trx g))).

(** [apply_onerror] inside its undo session: the action is delivered to the sender. *)
Definition onerror_body (e : trx_env) (g : generated_transaction_object) (etrx : transaction) : F transaction_context unit :=
  _ ← now (init_for_implicit_trx e etrx 0);
  _ ← now (update (fun c => set_kind (is_input c) (published g) (apply_context_free c) c));
  o ← now (in_state (match last (actions etrx) with
                     | Some a => schedule_new_action a (sender g) false 0 0
                     | None => throw undefined_behaviour
                     end));
  _ ← in_fuel (fun p => execute_action (action_env e (transaction_id etrx) p) fuel o 0);
  now (finalize e etrx).

Definition deferred_body (e : trx_env) (g : generated_transaction_object) (dtrx : transaction) : F transaction_context unit :=
  _ ← now (init_for_deferred_trx e dtrx (published g));
  _ ← now (when (enforce_whiteblacklist e && te_producing e)
             (lift (check_actor_list (te_lists e)
                (foldl (fun l a => set_insert (actor a) l) [] (concat (map authorization (actions dtrx)))))));
  _ ← exec e (transaction_id dtrx) dtrx 0 fuel;
  now (finalize e dtrx).

(** Whether a node that validates, or produces, has a reason of its own not to run the transaction. *)
Definition subjective_for (env : exec_env) (x : exn) : bool :=
  if bc_producing (env_context env) then scheduled_failure_is_subjective x else failure_is_subjective x.

(** The failure is subjective and the transaction stays, or it is retired. *)
Definition hard_failure (env : exec_env) (cpu : Z) (trxid : digest) (removed : chain) (x : exn) : result outcome :=
  if subjective_for env x then Ok (mk_outcome (env_state env) [] [] (Some x))
  else r ← push_receipt (trx_id trxid) hard_fail cpu 0; Ok (mk_outcome removed [r] [] (Some x)).

(** What follows a failure of the transaction: its sender, if it has one, may handle it. *)
Definition failure (env : exec_env) (e : trx_env) (cpu : Z) (trxid : digest) (removed : chain) (g : generated_transaction_object)
    (x : exn) : result outcome :=
  if rethrown x then Throw x
  else if negb (sender g =? 0) && negb (subjective_for env x) then
    match onerror_body e g (onerror_transaction env g) (new_trx_context removed) with
    | None => Throw nontermination
    | Some (_, Throw y) => if rethrown y then Throw y else hard_failure env cpu trxid removed y
    | Some (c, Ok _) =>
        match finished c (trx_id trxid) soft_fail cpu with
        | Ok o => Ok o
        | Throw y => if rethrown y then Throw y else hard_failure env cpu trxid removed y
        end
    end
  else hard_failure env cpu trxid removed x.

Definition push_scheduled (env : exec_env) (cpu : Z) (trxid : digest) : result outcome :=
  let s := env_state env in
  match db_find_by by_trx_id (generated (auth_db s)) [hash0 trxid; hash1 trxid; hash2 trxid; hash3 trxid] with
  | None => Throw unknown_transaction_exception
  | Some g =>
      table ← db_remove (generated (auth_db s)) (gto_id g);
      let removed := with_auth_db s (with_generated (auth_db s) table) in
      _ ← dcd_assert (delay_until g <=? env_time env) transaction_exception;
      dtrx ← unpack_transaction (packed_trx g);
      if expiration g <? env_time env then
        r ← push_receipt (trx_id trxid) expired cpu 0; Ok (mk_outcome removed [r] [] None)
      else
        let enforce := (sender g =? 0) || negb (sender_avoids_whitelist_blacklist_enforcement (nd_lists nd) (sender g)) in
        let e := trx_env_of env false enforce in
        match deferred_body e g dtrx (new_trx_context removed) with
        | None => Throw nontermination
        | Some (_, Throw x) => failure env e cpu trxid removed g x
        | Some (c, Ok _) =>
            match finished c (trx_id trxid) executed cpu with
            | Ok o => Ok o
            | Throw x => failure env e cpu trxid removed g x
            end
        end
  end.

(** ** The instance *)
#[export] Instance node_execution : Execution (T := packed_transaction) (C := contract_state) := {
  on_block env :=
    run_transaction env false true None (min_transaction_cpu_usage (chain_cfg (env_state env)))
      (mk_packed (get_on_block_transaction env) 0 None []);
  push_transaction env explicit_net_usage_words cpu t :=
    run_transaction env (env_light env) false explicit_net_usage_words cpu t;
  push_scheduled_transaction env cpu i := push_scheduled env cpu i;
  receipt_digest := hash_receipt
}.
End pushing.
