(* ===== verification/TransactionProofs.v ===== *)
(** * Transactions: proofs

    That a transaction ends, that each of its actions is executed once and gets its numbers, and that no transaction is
    executed twice. *)

From S2P Require Import Prelude Effects Types BlockHeader Authority UndoIndex Database AuthorizationManager.
From S2P Require Import SystemContract TransactionTypes Fees CodeActions NodeLists ContractTables ChainConfig Parameters ParameterProofs.
From S2P Require Import BlockHeaderState Proposals Controller Actions ActionProofs Transactions.

(** Unfolds the monads in a hypothesis. *)
Ltac run_trx_in E :=
  unfold check, the_chain, set_the_chain, mbind, M_bind, F_bind, mret, M_ret, F_ret, now, get, update, lift, throw in E;
  cbv beta iota in E.

Section proofs.
Context {T : Type} `{ActionData} `{Code} `{Engine} `{TransactionData}.
Context (env : @trx_env T) (trx_id : digest) (trx : transaction) (delay : Z).

(** ** Scheduling the actions of the transaction *)

(** Traces were added for actions without a creator; nothing else changed. *)
Record adds_roots (c c' : transaction_context) : Prop := {
  ad_chain : ts_chain (tc_trx c') = ts_chain (tc_trx c);
  ad_digests : executed_action_receipt_digests (tc_trx c') = executed_action_receipt_digests (tc_trx c);
  ad_published : tc_published c' = tc_published c;
  ad_traces : exists new, action_traces (tc_trx c') = action_traces (tc_trx c) ++ new /\
    forall k tr, new !! k = Some tr ->
      action_ordinal tr = u32 (trace_count (tc_trx c) + Z.of_nat k + 1) /\ creator_action_ordinal tr = 0 /\
      closest_unnotified_ancestor_action_ordinal tr = 0
}.

Lemma adds_roots_refl (c : transaction_context) : adds_roots c c.
Proof. split; try done. exists []. split; [by rewrite app_nil_r|done]. Qed.

Lemma adds_roots_trans (c1 c2 c3 : transaction_context) : adds_roots c1 c2 -> adds_roots c2 c3 -> adds_roots c1 c3.
Proof.
  intros [A1 A2 A3 (n1 & A4 & A5)] [B1 B2 B3 (n2 & B4 & B5)]. split; try congruence. exists (n1 ++ n2).
  split; [by rewrite B4, A4, app_assoc|]. intros k tr [Hk|[Hl Hk]]%lookup_app_Some; [by apply A5|].
  destruct (B5 _ _ Hk) as (E1 & E2). split; [|done]. rewrite E1. unfold trace_count. rewrite A4, length_app. f_equal. lia.
Qed.

Lemma adds_roots_in_state (a : action) (n : account_name) (cf : bool) (c c' : transaction_context) (o : Z) :
  in_state (schedule_new_action a n cf 0 0) c = (c', Ok o) -> adds_roots c c'.
Proof.
  intros E. unfold in_state in E. destruct (schedule_new_action _ _ _ _ _ _) as [t r] eqn:Es. injection E as <- ->.
  apply schedule_new_spec in Es as [-> ->]. split; try done. eexists. split; [done|]. intros [|k] tr [= <-]. simpl. by rewrite Z.add_0_r.
Qed.

Lemma adds_roots_all (cf : bool) (l : list action) (c c' : transaction_context) (u : unit) :
  schedule_all cf l c = (c', Ok u) -> adds_roots c c'.
Proof.
  revert c. unfold schedule_all. induction l as [|a l IH]; intros c E; simpl in E; run_trx_in E; [injection E as <- _; apply adds_roots_refl|].
  destruct (in_state _ c) as [c1 [o|e]] eqn:E1; [|done]. eapply adds_roots_trans; [by eapply adds_roots_in_state|by apply IH].
Qed.

Lemma adds_roots_fee (c c' : transaction_context) (u : unit) : schedule_fee_action env trx c = (c', Ok u) -> adds_roots c c'.
Proof.
  intros E. unfold schedule_fee_action in E. destruct (actions trx) as [|a l]; [done|]. destruct (authorization a) as [|p ps]; [done|].
  run_trx_in E. destruct (dcd_assert _ _); [|done]. destruct (bool_decide _); [injection E as <- _; apply adds_roots_refl|].
  destruct (get_required_fee _ _ _) as [f|e]; [|done]. unfold when in E.
  destruct (0 <? Asset.amount f); [|injection E as <- _; apply adds_roots_refl]. run_trx_in E.
  destruct (in_state _ c) as [c1 [o|e]] eqn:E1; [|done]. injection E as <- _. by eapply adds_roots_in_state.
Qed.

Lemma adds_roots_schedule (c c' : transaction_context) (u : unit) :
  schedule_actions env trx delay c = (c', Ok u) -> adds_roots c c'.
Proof.
  intros E. unfold schedule_actions in E. run_trx_in E. destruct (dcd_assert _ _); [|done].
  destruct (schedule_fee_action env trx c) as [c1 [u1|e]] eqn:E1; [|done]. unfold when in E.
  assert (E2 : exists c2 u2, (if apply_context_free c then schedule_all true (context_free_actions trx) else fun s => (s, Ok tt)) c1 = (c2, Ok u2) /\
            (if delay =? 0 then schedule_all false (actions trx) else fun s => (s, Ok tt)) c2 = (c', Ok u)).
  { destruct (if apply_context_free c then _ else _) as [c2 [u2|e]] eqn:Ec in E; [|done]. by exists c2, u2. }
  destruct E2 as (c2 & u2 & E2 & E3).
  eapply adds_roots_trans; [by eapply adds_roots_fee|]. eapply adds_roots_trans.
  - destruct (apply_context_free c); [by eapply adds_roots_all|injection E2 as <- _; apply adds_roots_refl].
  - destruct (delay =? 0); [by eapply adds_roots_all|injection E3 as <- _; apply adds_roots_refl].
Qed.

(** ** Execution *)
Lemma each_more (f g : Z -> F trx_state unit) (l : list Z) (t : trx_state) r :
  (forall o t r, f o t = Some r -> g o t = Some r) -> each f l t = Some r -> each g l t = Some r.
Proof.
  intros Hfg. revert t. induction l as [|o l IH]; intros t; cbn [each]; [done|]. unfold mbind, F_bind.
  destruct (f o t) as [[t1 [u|e]]|] eqn:E; [|by rewrite (Hfg _ _ _ E)|done]. rewrite (Hfg _ _ _ E). apply IH.
Qed.

Lemma exec_more (n m : nat) (c : transaction_context) r :
  (n <= m)%nat -> exec env trx_id trx delay n c = Some r -> exec env trx_id trx delay m c = Some r.
Proof.
  intros Hle. unfold exec, mbind, F_bind, now, get, in_fuel. destruct (schedule_actions env trx delay c) as [c1 [u1|e]]; [|done].
  destruct (each (fun i => execute_action _ n i 0) _ _) as [[t2 r2]|] eqn:E; [|done].
  by erewrite each_more; [|intros o t r'; apply (execute_action_more _ n m o 0 t r' Hle)|exact E].
Qed.

Lemma each_ends (f : Z -> F trx_state unit) (l : list Z) (t : trx_state) :
  (forall o t, parameters_ok (params t) -> exists t' r, f o t = Some (t', r) /\ forall a, r = Ok a -> parameters_ok (params t')) ->
  parameters_ok (params t) -> exists r, each f l t = Some r.
Proof.
  intros Hf. revert t. induction l as [|o l IH]; intros t Hok; cbn [each]; [by eexists|]. unfold mbind, F_bind.
  destruct (Hf o t Hok) as (t1 & r1 & -> & Hok1). destruct r1 as [u|e]; [|by eexists]. apply IH. by eapply Hok1.
Qed.

(** The end of [exec] changes no trace and no number. *)
Lemma schedule_transaction_trx (c c' : transaction_context) (u : unit) :
  schedule_transaction env trx_id trx delay c = (c', Ok u) ->
  action_traces (tc_trx c') = action_traces (tc_trx c) /\ sequence_of (tc_trx c') = sequence_of (tc_trx c) /\
  executed_action_receipt_digests (tc_trx c') = executed_action_receipt_digests (tc_trx c).
Proof.
  intros E. unfold schedule_transaction in E. run_trx_in E. unfold when, in_state, add_net_usage in E. run_trx_in E.
  destruct (delay_sec trx =? 0); run_trx_in E; [destruct (explicit_net_usage (tc_trx c))|]; destruct (db_create _ _ _) as [[u1 g]|e]; try done;
    by injection E as <- _.
Qed.

(** Every transaction ends, whatever the contracts are that it runs, with one result for all bounds on the number
    of steps that are large enough: an account is notified once by an action, and inline actions nest at most as deep as
    the parameters of the chain allow, even if privileged contracts change these on the way. *)
Theorem transaction_ends (c : transaction_context) :
  parameters_ok (params (tc_trx c)) ->
  exists r, (forall fuel, 2 ^ 64 + 2 ^ 16 + 2 < Z.of_nat fuel -> exec env trx_id trx delay fuel c = Some r) /\
    (forall fuel r', exec env trx_id trx delay fuel c = Some r' -> r' = r).
Proof.
  intros Hok. assert (He : forall fuel, 2 ^ 64 + 2 ^ 16 + 2 < Z.of_nat fuel -> exists r, exec env trx_id trx delay fuel c = Some r).
  { intros fuel Hf. unfold exec, mbind, F_bind, now, get, in_fuel.
    destruct (schedule_actions env trx delay c) as [c1 [u1|e]] eqn:E1; [|by eexists]. apply adds_roots_schedule in E1 as A.
    edestruct (each_ends (fun i => execute_action (action_env env trx_id (tc_published c1)) fuel i 0)) as [[t2 r2] ->].
    - intros o t Ht. apply execute_action_ends; [unfold enough; lia|lia|done].
    - unfold params. by rewrite (ad_chain _ _ A).
    - destruct r2 as [u2|e]; [|by eexists]. destruct (negb (delay =? 0)); by eexists. }
  destruct (He (Z.to_nat (2 ^ 64 + 2 ^ 16 + 3)) ltac:(lia)) as [r Hr].
  assert (Hu : forall fuel r', exec env trx_id trx delay fuel c = Some r' -> r' = r).
  { intros fuel r' E. apply (exec_more _ (fuel + Z.to_nat (2 ^ 64 + 2 ^ 16 + 3))) in E; [|lia].
    apply (exec_more _ (fuel + Z.to_nat (2 ^ 64 + 2 ^ 16 + 3))) in Hr; [|lia]. congruence. }
  exists r. split; [|done]. intros fuel Hf. destruct (He fuel Hf) as [r' Hr']. by rewrite (Hu _ _ Hr') in Hr'.
Qed.

(** The actions that have a creator come after it, and after the closest action above it that is no notification. *)
Definition well_numbered (t : trx_state) : Prop :=
  forall i y, action_traces t !! i = Some y ->
    action_ordinal y = Z.of_nat i + 1 /\
    0 <= closest_unnotified_ancestor_action_ordinal y <= creator_action_ordinal y /\ creator_action_ordinal y <= Z.of_nat i.

(** The execution order [os] of the actions, with their receipts [rs]. *)
Record accounts_for (g : Z) (t : trx_state) (os : list Z) (rs : list action_receipt) : Prop := {
  af_all : os ≡ₚ seqZ 1 (trace_count t);
  af_length : length rs = length os;
  af_receipts : forall k o r, os !! k = Some o -> rs !! k = Some r ->
    receipt_at t o = Some r /\ ar_global_sequence r = u64 (g + Z.of_nat k + 1);
  af_digests : executed_action_receipt_digests t = map action_receipt_digest rs;
  af_sequence : sequence_of t = u64 (g + trace_count t)
}.

Lemma roots_run (p : Z) (fuel : nat) (t t' : trx_state) (u : unit) :
  sequence_fits t -> trace_count t' < 2 ^ 32 ->
  each (fun i => execute_action (action_env env trx_id p) fuel i 0) (seqZ 1 (trace_count t)) t = Some (t', Ok u) ->
  runs_all t t' (seqZ 1 (trace_count t)).
Proof.
  intros Hs Hb E. eapply each_runs; [| |done|apply NoDup_seqZ| |done|exact E].
  - intros o t1 t2 a. apply execute_action_mono.
  - intros o t1 t2 a Ho Hs1 Hb1 E1. by apply (execute_action_spec (action_env env trx_id p) fuel o 0 t1 t2 a).
  - apply Forall_forall. intros o Ho%elem_of_seqZ. lia.
Qed.


(** ** Recorded transactions *)
Lemma exec_inputs (fuel : nat) (c c' : transaction_context) (u : unit) :
  exec env trx_id trx delay fuel c = Some (c', Ok u) -> inputs_of (tc_trx c') = inputs_of (tc_trx c).
Proof.
  intros E. unfold exec, mbind, F_bind, now, get, in_fuel in E. cbv beta iota in E.
  destruct (schedule_actions env trx delay c) as [c1 [u1|e]] eqn:E1; [|done]. apply adds_roots_schedule in E1 as A.
  destruct (each _ _ _) as [[t2 [u2|e]]|] eqn:E2; [|done|done].
  apply each_inputs in E2; [|intros o t t' a; apply execute_action_inputs].
  assert (E3 : inputs_of (tc_trx c') = inputs_of t2).
  { destruct (negb (delay =? 0)); [|by injection E as <- _]. injection E as E. unfold schedule_transaction in E. run_trx_in E.
    unfold when, in_state, add_net_usage in E. run_trx_in E.
    destruct (delay_sec trx =? 0); run_trx_in E; [destruct (explicit_net_usage _)|]; destruct (db_create _ _ _) as [[u3 g]|e]; try done;
      by injection E as <- _. }
  rewrite E3, E2. unfold inputs_of. by rewrite (ad_chain _ _ A).
Qed.

Lemma finalize_inputs (c c' : transaction_context) (u : unit) : finalize env trx c = (c', Ok u) -> inputs_of (tc_trx c') = inputs_of (tc_trx c).
Proof.
  intros E. unfold finalize, when in E. run_trx_in E. destruct (dcd_assert _ _); [|done].
  assert (Hl : forall l c c' u, for_each (touch_permission env) l c = (c', Ok u) -> inputs_of (tc_trx c') = inputs_of (tc_trx c)).
  { induction l as [|x l IH]; intros c1 c2 u' E'; simpl in E'; run_trx_in E'; [by injection E' as <- _|].
    unfold touch_permission in E'. run_trx_in E'. destruct (get_permission _ _); [|done]. destruct (update_permission_usage _ _ _); [|done].
    apply IH in E'. by rewrite E'. }
  assert (E2 : exists c1 u1, (if is_input c then for_each (touch_permission env) (concat (map authorization (actions trx))) else fun s => (s, Ok tt)) c
            = (c1, Ok u1) /\ inputs_of (tc_trx c') = inputs_of (tc_trx c1)).
  { destruct (if is_input c then _ else _) as [c1 [u1|e]] eqn:Ec in E; [|done]. exists c1, u1. split; [done|].
    unfold in_state, round_up_net_usage in E. run_trx_in E. destruct (explicit_net_usage (tc_trx c1)); by injection E as <- _. }
  destruct E2 as (c1 & u1 & E2 & ->). destruct (is_input c); [by apply Hl in E2|by injection E2 as <- _].
Qed.

(** The checks of an input transaction change nothing. *)
Definition only_reads {A} (m : M transaction_context A) : Prop := forall c, fst (m c) = c.

Lemma only_reads_bind {A B} (m : M transaction_context A) (f : A -> M transaction_context B) :
  only_reads m -> (forall a, only_reads (f a)) -> only_reads (m ≫= f).
Proof.
  intros Hm Hf c. unfold mbind, M_bind. specialize (Hm c). destruct (m c) as [c1 [a|e]]; simpl in *; subst; [apply Hf|done].
Qed.

Lemma only_reads_for_each {A} (f : A -> M transaction_context unit) (l : list A) :
  (forall a, only_reads (f a)) -> only_reads (for_each f l).
Proof. intros Hf. induction l as [|a l IH]; [done|]. cbn [for_each]. by apply only_reads_bind. Qed.

Lemma checks_read :
  only_reads (_ ← validate_expiration env trx; _ ← validate_tapos trx;
              s ← the_chain; lift (validate_referenced_accounts env s trx (enforce_whiteblacklist env && te_producing env))).
Proof.
  unfold validate_expiration, validate_tapos, the_chain.
  repeat match goal with
  | |- only_reads (_ ≫= _) => apply only_reads_bind; [|intros ?]
  | |- only_reads (when ?b _) => unfold when; destruct b
  | |- only_reads (for_each _ _) => apply only_reads_for_each; intros ?
  | |- only_reads (let '(_, _) := ?x in _) => destruct x
  | |- only_reads (match ?x with _ => _ end) => destruct x
  end; done.
Qed.

(** When an input transaction is accepted it was not recorded, and is now; unless checks are skipped it has not expired. *)
Lemma input_accepted (n : Z) (c c' : transaction_context) (u : unit) :
  init_for_input_trx_common env trx_id trx n false c = (c', Ok u) ->
  inputs_of (tc_trx c) !! trx_id = None /\ inputs_of (tc_trx c') = <[trx_id := trx_expiration trx]> (inputs_of (tc_trx c)) /\
  (te_light env = false -> te_time env <= trx_expiration trx * 1000000).
Proof.
  intros E. unfold init_for_input_trx_common in E. unfold mbind at 1, M_bind at 1, update at 1 in E. cbv beta iota in E.
  set (c0 := set_kind true (te_time env) (apply_context_free c) c) in E. unfold mbind at 1, M_bind at 1 in E.
  assert (E1 : exists u1, unless (te_light env) (_ ← validate_expiration env trx; _ ← validate_tapos trx;
                 s ← the_chain; lift (validate_referenced_accounts env s trx (enforce_whiteblacklist env && te_producing env))) c0 = (c0, Ok u1) /\
               (_ ← init n; unless false (record_transaction trx_id (trx_expiration trx))) c0 = (c', Ok u)).
  { pose proof (checks_read c0) as Hr. unfold unless at 1 in E. unfold unless at 1. destruct (te_light env); [by exists tt|].
    destruct ((_ ← validate_expiration env trx; _) c0) as [c1 [u1|e]]; [|done]. simpl in Hr. subst c1. by exists u1. }
  clear E. destruct E1 as (u1 & E1 & E2).
  assert (Hinit : exists c1 u2, init n c0 = (c1, Ok u2) /\ ts_chain (tc_trx c1) = ts_chain (tc_trx c)).
  { unfold mbind at 1, M_bind at 1 in E2. destruct (init n c0) as [c1 [u2|e]] eqn:Ei; [|done]. exists c1, u2. split; [done|].
    unfold init, when, in_state, add_net_usage in Ei. run_trx_in Ei. destruct (dcd_assert _ _); [|done]. destruct (0 <? n); run_trx_in Ei;
      [destruct (explicit_net_usage (tc_trx c0))|]; by injection Ei as <- _. }
  destruct Hinit as (c1 & u2 & Ei & Et). unfold mbind, M_bind in E2. rewrite Ei in E2. unfold unless, record_transaction in E2. run_trx_in E2.
  rewrite Et in E2. unfold inputs_of. destruct (input_transactions (ts_chain (tc_trx c)) !! trx_id); [done|]. injection E2 as <- _.
  split; [done|]. split; [simpl; by rewrite ?Et|]. intros Hl. rewrite Hl in E1. unfold unless, validate_expiration in E1. run_trx_in E1.
  destruct (Z.leb_spec (te_time env) (trx_expiration trx * 1000000)); [lia|done].
Qed.
End proofs.

(** ** Who may send an inline action *)

(** Two computations return, or throw the same exception. *)
Definition same_outcome {A B} (x : result A) (y : result B) : Prop :=
  match x, y with
  | Ok _, Ok _ => True
  | Throw e, Throw e' => e = e'
  | _, _ => False
  end.

Lemma foldM_same_outcome {A B C} (f : B -> A -> result B) (g : C -> A -> result C) (b : B) (c : C) (l : list A) :
  (forall b c a, same_outcome (f b a) (g c a)) -> same_outcome (foldM f b l) (foldM g c l).
Proof.
  intros Hfg. revert b c. induction l as [|a l IH]; intros b c; simpl; [done|]. specialize (Hfg b c a).
  destruct (f b a), (g c a); try done. apply IH.
Qed.

Lemma to_satisfy_same_outcome `{ActionData} (ctl : control) (db : database) (l : list action) (d : Z) (x y : gset permission_level) :
  same_outcome (permissions_to_satisfy ctl db l d x) (permissions_to_satisfy ctl db l d y).
Proof.
  unfold permissions_to_satisfy. apply foldM_same_outcome. intros b c a.
  destruct (check_special_case _ _ _ _) as [[sp dl]|e]; cbn [mbind result_bind]; [|done].
  apply foldM_same_outcome. intros b' c' l'. unfold check_declared.
  destruct (if sp then _ else _); cbn [mbind result_bind]; [|done]. by destruct (bool_decide (l' ∈ x)), (bool_decide (l' ∈ y)).
Qed.

(** C36. Whether a contract may send an inline action does not depend on the contract: with the feature that
    restricts actions to oneself, two unprivileged contracts may send the same inline actions, whoever they are, whatever
    authorizations their own actions have and whatever permissions were granted to them. *)
Theorem inline_authority_ignores_sender {T : Type} `{ActionData} (env : @trx_env T) (c c' : apply_context) (s : chain) (a : action)
    (x y : gset permission_level) :
  te_features env restrict_action_to_self = true -> ac_privileged c = ac_privileged c' ->
  check_inline_authorization env c s a x = check_inline_authorization env c' s a y.
Proof.
  intros Hf Hp. unfold check_inline_authorization. rewrite Hf, Hp. cbn [orb]. destruct (_ && _); [|done]. unfold check_authorization.
  pose proof (to_satisfy_same_outcome (control_of env s) (auth_db s) [a] (effective_delay (control_of env s) (te_time env - te_published env)) x y) as Hs.
  destruct (permissions_to_satisfy _ _ _ _ x), (permissions_to_satisfy _ _ _ _ y); cbn [mbind result_bind same_outcome] in *;
    try done. by subst.
Qed.

(** ** Transactions that were executed before *)
Section replay.
Context {T : Type} `{ActionData} `{Code} `{Engine} `{TransactionData}.

(** A transaction with the expiration [e] is still recorded, or it has expired. *)
Definition remembered (i : digest) (e : Z) (s : chain) (now : Z) : Prop :=
  input_transactions s !! i = Some e \/ e * 1000000 < now.

Lemma remembered_later (i : digest) (e : Z) (s : chain) (now now' : Z) : now <= now' -> remembered i e s now -> remembered i e s now'.
Proof. intros Hle [Hi|He]; [by left|right; lia]. Qed.

(** Clearing the transactions that have expired *)
Lemma remembered_clear (i : digest) (e : Z) (s s' : chain) (now : Z) :
  input_transactions s' = unexpired now (input_transactions s) -> remembered i e s now -> remembered i e s' now.
Proof.
  intros Hs [Hi|He]; [|by right]. destruct (decide (e * 1000000 >= now)); [left|right; lia]. rewrite Hs.
  by apply map_lookup_filter_Some.
Qed.

(** Recording another transaction *)
Lemma remembered_record (i j : digest) (e e' : Z) (s s' : chain) (now : Z) :
  input_transactions s !! j = None -> input_transactions s' = <[j := e']> (input_transactions s) -> remembered i e s now -> remembered i e s' now.
Proof. intros Hj Hs [Hi|He]; [left|by right]. rewrite Hs, lookup_insert_ne; [done|]. intros ->. congruence. Qed.

(** Recording is the last of the steps. *)
Lemma common_records (env : @trx_env T) (i : digest) (trx : transaction) (n : Z) (c : transaction_context) :
  init_for_input_trx_common env i trx n false c =
  (_ ← init_for_input_trx_common env i trx n true; record_transaction i (trx_expiration trx)) c.
Proof.
  unfold init_for_input_trx_common, mbind, M_bind. destruct (update _ c) as [c1 [u1|e]]; [|done].
  destruct (unless (te_light env) _ c1) as [c2 [u2|e]]; [|done]. by destruct (init n c2) as [c3 [u3|e]].
Qed.

Lemma common_chain (env : @trx_env T) (i : digest) (trx : transaction) (n : Z) (c c' : transaction_context) (u : unit) :
  init_for_input_trx_common env i trx n true c = (c', Ok u) -> ts_chain (tc_trx c') = ts_chain (tc_trx c).
Proof.
  intros E. unfold init_for_input_trx_common in E. unfold mbind at 1, M_bind at 1, update at 1 in E. cbv beta iota in E.
  apply bind_Ok_inv in E as (c1 & u1 & E1 & E). apply bind_Ok_inv in E as (c2 & u2 & E2 & E). injection E as <- _.
  assert (Hc1 : c1 = set_kind true (te_time env) (apply_context_free c) c).
  { unfold unless in E1. destruct (te_light env); [by injection E1|]. pose proof (checks_read env trx (set_kind true (te_time env) (apply_context_free c) c)) as Hr.
    by rewrite E1 in Hr. }
  subst c1. unfold init, when, in_state, add_net_usage in E2. run_trx_in E2. destruct (dcd_assert _ _); [|done].
  destruct (0 <? n); run_trx_in E2; [destruct (explicit_net_usage _)|]; by injection E2 as <- _.
Qed.

(** A node that checks transactions refuses one that is remembered: as expired, or as a duplicate if it passes all other checks. *)
Definition refused_again (env : @trx_env T) (i : digest) (trx : transaction) (s : chain) : Prop :=
  forall n, exists c x, init_for_input_trx_common env i trx n false (new_trx_context s) = (c, Throw x) /\
    (trx_expiration trx * 1000000 < te_time env -> x = expired_tx_exception) /\
    (te_time env <= trx_expiration trx * 1000000 -> input_transactions s !! i = Some (trx_expiration trx) /\
       forall c', init_for_input_trx_common env i trx n true (new_trx_context s) = (c', Ok tt) -> x = tx_duplicate).

Lemma remembered_refused (env : @trx_env T) (i : digest) (trx : transaction) (s : chain) :
  te_light env = false -> remembered i (trx_expiration trx) s (te_time env) -> refused_again env i trx s.
Proof.
  intros Hl Hr n. destruct (Z.ltb_spec (trx_expiration trx * 1000000) (te_time env)) as [He|He].
  - eexists _, expired_tx_exception. split; [|split; [done|lia]]. unfold init_for_input_trx_common, validate_expiration. rewrite Hl.
    unfold unless, check, the_chain, mbind, M_bind, mret, M_ret, get, update, lift. cbv beta iota. destruct (Z.leb_spec (te_time env) (trx_expiration trx * 1000000)); [lia|done].
  - destruct Hr as [Hi|?]; [|lia]. rewrite common_records.
    destruct (init_for_input_trx_common env i trx n true (new_trx_context s)) as [c1 [[]|x]] eqn:E.
    + pose proof (common_chain _ _ _ _ _ _ _ E) as Hc. exists c1, tx_duplicate.
      split; [|split; [lia|done]]. unfold mbind, M_bind. rewrite E. unfold record_transaction, the_chain, mbind, M_bind, get. cbv beta iota.
      cbn [mret M_ret]. rewrite Hc. change (ts_chain (tc_trx (new_trx_context s))) with s. by rewrite Hi.
    + exists c1, x. split; [unfold mbind, M_bind; by rewrite E|]. split; [lia|]. intros _. split; [done|]. by intros c'.
Qed.
End replay.
