(* ===== verification/LightValidation.v ===== *)
(** * Light validation

    A node that trusts the producers of a block skips checks when it applies it: those of the authorizations, of the
    expiration and the reference of a transaction, and the context-free actions; the network usage is that of the
    receipt. What is shown here: whatever succeeds with the checks gives the same result without them. *)

From S2P Require Import Prelude Effects Types Asset BlockHeader Authority UndoIndex Database AuthorizationManager SystemContract TransactionTypes.
From S2P Require Import Fees CodeActions NodeLists ContractTables ContractTableSpec ContractTableReads ChainConfig Parameters.
From S2P Require Import Proposals Controller Actions ActionProofs Transactions TransactionProofs.

Lemma fuel_Ok {S A B} (m : F S A) (f : A -> F S B) (s s' : S) (a : A) :
  m s = Some (s', Ok a) -> (m ≫= f) s = f a s'.
Proof. intros Hm. unfold mbind, F_bind. by rewrite Hm. Qed.

Lemma fuel_Ok_inv {S A B} (m : F S A) (f : A -> F S B) (s s' : S) (b : B) :
  (m ≫= f) s = Some (s', Ok b) -> exists s1 a, m s = Some (s1, Ok a) /\ f a s1 = Some (s', Ok b).
Proof. unfold mbind, F_bind. destruct (m s) as [[s1 [a|e]]|]; [eauto|done|done]. Qed.

(** ** One computation follows another

    From states in [P], when [m] returns, it leaves a state in [Q], and [m'] does the same on the images of the states. *)
Section follows.
Context {S : Type} (f : S -> S).

Definition follows {A} (P Q : S -> Prop) (m m' : M S A) : Prop :=
  forall s s' a, P s -> m s = (s', Ok a) -> Q s' /\ m' (f s) = (f s', Ok a).

Definition follows_fuel {A} (P Q : S -> Prop) (m m' : F S A) : Prop :=
  forall s s' a, P s -> m s = Some (s', Ok a) -> Q s' /\ m' (f s) = Some (f s', Ok a).

Lemma follows_ret {A} (P : S -> Prop) (a : A) : follows P P (mret a) (mret a).
Proof. by intros s s' a' Hs [= <- <-]. Qed.
Lemma follows_throw {A} (P Q : S -> Prop) (e : exn) (m : M S A) : follows P Q (throw e) m.
Proof. by intros s s' a Hs E. Qed.
Lemma follows_bind {A B} (P Q R : S -> Prop) (m m' : M S A) (k k' : A -> M S B) :
  follows P Q m m' -> (forall a, follows Q R (k a) (k' a)) -> follows P R (m ≫= k) (m' ≫= k').
Proof.
  intros Hm Hk s s' b Hs (s1 & a & E1 & E2)%bind_Ok_inv. destruct (Hm _ _ _ Hs E1) as [H1 E1']. rewrite (bind_Ok _ _ _ _ _ E1').
  by apply (Hk a).
Qed.
Lemma follows_lift {A} (P : S -> Prop) (r r' : result A) : (forall a, r = Ok a -> r' = Ok a) -> follows P P (lift r) (lift r').
Proof. intros Hr s s' a Hs [-> ->%Hr]%lift_Ok. done. Qed.
(** A check that gives a fact to what comes after it. *)
Lemma follows_check {B} (P R : S -> Prop) (b : bool) (e : exn) (k k' : unit -> M S B) :
  (b = true -> follows P R (k tt) (k' tt)) -> follows P R (check b e ≫= k) (check b e ≫= k').
Proof. intros Hk s s' a Hs. rewrite !check_bind. destruct b; [by apply Hk|done]. Qed.
Lemma follows_when (P : S -> Prop) (b : bool) (m m' : M S unit) : follows P P m m' -> follows P P (when b m) (when b m').
Proof. intros Hm. by destruct b; [|apply follows_ret]. Qed.
Lemma follows_pre {A} (P P' Q : S -> Prop) (m m' : M S A) : (forall s, P s -> P' s) -> follows P' Q m m' -> follows P Q m m'.
Proof. intros Hp Hm s s' a Hs. apply Hm. by apply Hp. Qed.
Lemma follows_post {A} (P Q Q' : S -> Prop) (m m' : M S A) : (forall s, Q' s -> Q s) -> follows P Q' m m' -> follows P Q m m'.
Proof. intros Hq Hm s s' a Hs E. destruct (Hm _ _ _ Hs E). auto. Qed.
Lemma follows_for_each {A} (P : S -> Prop) (g g' : A -> M S unit) (l : list A) :
  (forall a, follows P P (g a) (g' a)) -> follows P P (for_each g l) (for_each g' l).
Proof. intros Hg. induction l as [|a l IH]; cbn [for_each]; [apply follows_ret|]. by apply (follows_bind _ P). Qed.
(** Handlers that rethrow do not matter. *)
Lemma follows_catch {A} (P Q : S -> Prop) (m m' : M S A) (h h' : exn -> M S A) :
  (forall e s s' a, h e s = (s', Ok a) -> False) -> follows P Q m m' -> follows P Q (catch m h) (catch m' h').
Proof.
  intros Hh Hm s s' a Hs E. unfold catch in *. destruct (m s) as [s1 [b|e]] eqn:Em; [|by apply Hh in E].
  injection E as <- <-. destruct (Hm _ _ _ Hs Em) as [H1 E']. by rewrite E'.
Qed.

Lemma follows_now {A} (P Q : S -> Prop) (m m' : M S A) : follows P Q m m' -> follows_fuel P Q (now m) (now m').
Proof. intros Hm s s' a Hs [= E]. destruct (Hm _ _ _ Hs E) as [H1 E']. unfold now. by rewrite E'. Qed.
Lemma follows_fuel_ret {A} (P : S -> Prop) (a : A) : follows_fuel P P (mret a) (mret a).
Proof. by intros s s' a' Hs [= <- <-]. Qed.
Lemma follows_fuel_bind {A B} (P Q R : S -> Prop) (m m' : F S A) (k k' : A -> F S B) :
  follows_fuel P Q m m' -> (forall a, follows_fuel Q R (k a) (k' a)) -> follows_fuel P R (m ≫= k) (m' ≫= k').
Proof.
  intros Hm Hk s s' b Hs (s1 & a & E1 & E2)%fuel_Ok_inv. destruct (Hm _ _ _ Hs E1) as [H1 E1'].
  rewrite (fuel_Ok _ _ _ _ _ E1'). by apply (Hk a).
Qed.
Lemma follows_each {A} (P : S -> Prop) (g g' : A -> F S unit) (l : list A) :
  (forall a, follows_fuel P P (g a) (g' a)) -> follows_fuel P P (each g l) (each g' l).
Proof. intros Hg. induction l as [|a l IH]; cbn [each]; [apply follows_fuel_ret|]. by apply (follows_fuel_bind P P). Qed.
End follows.

Section light.
Context {T : Type} `{ActionData} `{Code} `{Engine} `{TransactionData}.

(** The same environment without the checks. *)
Definition without_checks (env : @trx_env T) : @trx_env T :=
  mk_trx_env (te_head env) (te_stage env) (te_time env) (te_features env) (te_producing env) true (te_lists env)
    (te_key_blacklist env) (max_nonprivileged_inline_action_size env) (ram_billing_in_notify env)
    (all_subjective_mitigations_disabled env) (te_fee_manager env) (enforce_whiteblacklist env) (te_trx_id env) (te_published env).

Context (env : @trx_env T) (net : Z).
Abbreviation lit := (without_checks env).
Abbreviation Act := (M (apply_context * trx_state)).
Abbreviation state := (apply_context * trx_state)%type.

(** ** The states that correspond

    The network usage is given, and a context-free action, which does not run, does not learn whether it is privileged. *)
Definition given_net (t : trx_state) : trx_state := set_net net true t.
Definition not_run (c : apply_context) : apply_context := if context_free c then set_privileged_flag false c else c.
Definition light_of (st : state) : state := (not_run st.1, given_net st.2).

(** Context-free actions have no authorizations. *)
Definition bare (t : trx_state) : Prop :=
  Forall (fun tr => tr_context_free tr = true -> authorization (tr_act tr) = []) (action_traces t).
Definition sound (st : state) : Prop := bare st.2 /\ (context_free st.1 = true -> authorization (act st.1) = []).
Definition aware (st : state) : Prop := bare st.2 /\ context_free st.1 = false.

Lemma aware_sound (st : state) : aware st -> sound st.
Proof. intros [Hb Hc]. split; [done|]. by rewrite Hc. Qed.

Lemma not_run_aware (st : state) : aware st -> light_of st = (st.1, given_net st.2).
Proof. intros [_ Hc]. unfold light_of, not_run. by rewrite Hc. Qed.

Abbreviation follows_aware := (follows light_of aware aware).
Abbreviation follows_trx := (follows given_net bare bare).

(** ** Traces *)
Lemma follows_get_trace (o : Z) : follows_trx (get_action_trace o) (get_action_trace o).
Proof.
  intros t t' tr Hb (-> & Ht & Ho)%get_action_trace_state. split; [done|]. unfold get_action_trace, trace_count in *. rewrite get_bind, check_bind.
  simpl. rewrite !(proj2 (Z.ltb_lt _ _)), !(proj2 (Z.leb_le _ _)) by lia. simpl. by rewrite Ht.
Qed.

Lemma follows_modify_trace (o : Z) (g : action_trace -> action_trace) :
  (forall x, same_head (g x) x) -> follows_trx (modify_trace o g) (modify_trace o g).
Proof.
  intros Hg. eapply follows_bind; [apply follows_get_trace|]. intros x t t' [] Hb [= <-]. split; [|done].
  unfold bare in *. simpl. rewrite Forall_lookup in *. intros i y.
  rewrite list_lookup_alter. destruct (decide _); intros Hy; [|by eapply Hb]. apply fmap_Some in Hy as (z & Hz & ->).
  destruct (Hg z) as (_ & _ & _ & _ & -> & ->). by eapply Hb.
Qed.

Lemma follows_schedule_new (a : action) (n : account_name) (cf : bool) (creator ancestor : Z) :
  (cf = true -> authorization a = []) ->
  follows_trx (schedule_new_action a n cf creator ancestor) (schedule_new_action a n cf creator ancestor).
Proof.
  intros Hc t t' o Hb E. pose proof E as [-> ->]%schedule_new_spec. split; [|done]. unfold bare in *. simpl.
  apply Forall_app. split; [done|]. by constructor.
Qed.

Lemma follows_add_net (n : Z) : follows_trx (add_net_usage n) (add_net_usage n).
Proof. intros t t' u Hb (k & e & ->)%add_net_usage_spec. by destruct u. Qed.

Lemma follows_in_trx {A} (P : state -> Prop) (m m' : M trx_state A) :
  (forall c t t', P (c, t) -> bare t' -> P (c, t')) -> (forall c t, P (c, t) -> bare t) ->
  follows_trx m m' -> follows light_of P P (in_trx m) (in_trx m').
Proof.
  intros Hp Hb Hm [c t] st' a Hs E. unfold in_trx in *. destruct (m t) as [t1 r] eqn:Em. injection E as <- ->. simpl.
  destruct (Hm _ _ _ (Hb _ _ Hs) Em) as [H1' ->]. split; [by eapply Hp|done].
Qed.

(** ** The context of an action *)
Lemma follows_context {B} (P R : state -> Prop) (k k' : apply_context -> Act B) :
  (forall c, follows light_of P R (k c) (k' (not_run c))) -> follows light_of P R (context ≫= k) (context ≫= k').
Proof. intros Hk [c t] st' b Hs E. by apply (Hk c (c, t)). Qed.

Lemma follows_context_aware {B} (R : state -> Prop) (k k' : apply_context -> Act B) :
  (forall c, context_free c = false -> follows light_of aware R (k c) (k' c)) ->
  follows light_of aware R (context ≫= k) (context ≫= k').
Proof.
  intros Hk [c t] st' b Hs E. rewrite not_run_aware by done. pose proof Hs as [_ Hc]. simpl in Hc.
  pose proof (Hk c Hc (c, t) st' b Hs E) as Hf. by rewrite not_run_aware in Hf.
Qed.

Lemma follows_chain_of (P : state -> Prop) : follows light_of P P chain_of chain_of.
Proof. by intros [c t] st' s Hs [= <- <-]. Qed.

Lemma follows_set_chain (s : chain) (P : state -> Prop) :
  (forall c t t', P (c, t) -> bare t' -> P (c, t')) -> (forall c t, P (c, t) -> bare t) ->
  follows light_of P P (set_chain_to s) (set_chain_to s).
Proof. intros Hp Hb. apply follows_in_trx; [done|done|]. by intros t t' [] Ht [= <-]. Qed.

(** A change of the context that has nothing to do with what differs. *)
Lemma follows_update_context (P : state -> Prop) (g : apply_context -> apply_context) :
  (forall c t, P (c, t) -> P (g c, t)) -> (forall c, not_run (g c) = g (not_run c)) ->
  follows light_of P P (update_context g) (update_context g).
Proof. intros Hp Hg [c t] st' [] Hs [= <-]. split; [by apply Hp|]. unfold light_of. simpl. by rewrite Hg. Qed.

Lemma sound_trx (c : apply_context) (t t' : trx_state) : sound (c, t) -> bare t' -> sound (c, t').
Proof. by intros [_ Hc]. Qed.
Lemma aware_trx (c : apply_context) (t t' : trx_state) : aware (c, t) -> bare t' -> aware (c, t').
Proof. by intros [_ Hc]. Qed.
Lemma sound_bare (c : apply_context) (t : trx_state) : sound (c, t) -> bare t.
Proof. by intros [Hb _]. Qed.
Lemma aware_bare (c : apply_context) (t : trx_state) : aware (c, t) -> bare t.
Proof. by intros [Hb _]. Qed.
Hint Resolve sound_trx aware_trx sound_bare aware_bare follows_get_trace follows_add_net follows_chain_of : dcd.

Lemma follows_aware_trx {A} (m m' : M trx_state A) : follows_trx m m' -> follows_aware (in_trx m) (in_trx m').
Proof. apply follows_in_trx; eauto with dcd. Qed.
Lemma follows_aware_chain (s : chain) : follows_aware (set_chain_to s) (set_chain_to s).
Proof. apply follows_set_chain; eauto with dcd. Qed.

Lemma follows_in_tables {A} (m : apply_env -> M contract_db A) : follows_aware (in_tables env m) (in_tables lit m).
Proof.
  intros [c t] st' a Hs E. rewrite not_run_aware by done. unfold in_tables in *. change (table_env lit c) with (table_env env c). simpl.
  destruct (m _ _) as [d r]. injection E as <- ->. pose proof Hs as [Hb Hc]. split; [done|]. by rewrite not_run_aware.
Qed.

Lemma follows_update_aware (g : apply_context -> apply_context) :
  (forall c, context_free (g c) = context_free c) -> follows_aware (update_context g) (update_context g).
Proof.
  intros Hg [c t] st' [] Hs [= <-]. assert (Hs' : aware (g c, t)) by (destruct Hs; split; simpl in *; [done|by rewrite Hg]).
  split; [done|]. by rewrite !not_run_aware.
Qed.

(** Scheduling for an action that is not context-free. *)
Lemma follows_refresh : follows_aware refresh_act refresh_act.
Proof.
  apply follows_context_aware. intros c Hc. eapply follows_bind; [apply follows_aware_trx, follows_get_trace|].
  intros tr. by apply follows_update_aware.
Qed.

Lemma follows_require_recipient (n : account_name) : follows_aware (require_recipient n) (require_recipient n).
Proof.
  apply follows_context_aware. intros c Hc. destruct (has_recipient c n); [apply follows_ret|].
  eapply follows_bind; [|intros o; by apply follows_update_aware]. apply follows_context_aware. intros c' Hc'.
  eapply follows_bind; [apply follows_aware_trx|intros o; eapply follows_bind; [apply follows_refresh|intros []; apply follows_ret]].
  eapply follows_bind; [apply follows_get_trace|]. intros tr. by apply follows_schedule_new.
Qed.

Lemma follows_schedule_inline (a : action) (n : account_name) (cf : bool) :
  (cf = true -> authorization a = []) -> follows_aware (schedule_inline a n cf) (schedule_inline a n cf).
Proof.
  intros Ha. apply follows_context_aware. intros c Hc. eapply follows_bind; [by apply follows_aware_trx, follows_schedule_new|].
  intros o. eapply follows_bind; [apply follows_refresh|intros []; apply follows_ret].
Qed.

Ltac follow_step :=
  match goal with
  | |- follows _ aware _ (context ≫= _) _ => apply follows_context_aware; intros ? ?
  | |- follows _ _ _ (_ ≫= _) _ => eapply follows_bind; [|intros ?]
  | |- follows _ _ _ (mret _) _ => apply follows_ret
  | |- follows _ _ _ (throw _) _ => apply follows_throw
  | |- follows _ _ _ (lift _) _ => apply follows_lift
  | |- follows _ _ _ (check _ _) _ => apply follows_lift; by intros
  | |- follows _ _ _ chain_of _ => apply follows_chain_of
  | |- follows _ _ _ (set_chain_to _) _ => apply follows_aware_chain
  | |- follows _ _ _ (in_trx (get_action_trace _)) _ => apply follows_aware_trx, follows_get_trace
  | |- follows _ _ _ (in_trx (add_net_usage _)) _ => apply follows_aware_trx, follows_add_net
  | |- follows _ _ _ (update_context _) _ => by apply follows_update_aware
  | |- follows _ _ _ (in_tables _ _) _ => apply follows_in_tables
  | |- follows _ _ _ (when _ _) _ => apply follows_when
  | |- follows _ _ _ (let '(_, _) := ?x in _) _ => destruct x
  | |- follows _ _ _ (if ?b then _ else _) _ => destruct b
  | |- follows _ _ _ (match ?x with _ => _ end) _ => destruct x
  end.
Ltac follow := repeat (cbv zeta; follow_step); try done.

(** Checks that are only skipped. *)
Lemma skips_inline_authorization (c : apply_context) (s : chain) (a : action) (x : gset permission_level) (u : unit) :
  check_inline_authorization env c s a x = Ok u -> check_inline_authorization lit c s a x = Ok u.
Proof. by destruct u. Qed.

Lemma skips_deferred_authorization (c : apply_context) (s : chain) (payer : account_name) (trx : transaction) (u : unit) :
  check_deferred_authorization env c s payer trx = Ok u -> check_deferred_authorization lit c s payer trx = Ok u.
Proof. by destruct u. Qed.

Lemma skips_referenced_accounts (s : chain) (trx : transaction) (b : bool) (u : unit) :
  validate_referenced_accounts env s trx b = Ok u -> validate_referenced_accounts lit s trx b = Ok u.
Proof.
  unfold validate_referenced_accounts. rewrite andb_false_r. intros E. destruct (if _ : bool then _ else _) as [[]|e] in E; [exact E|done].
Qed.

Lemma follows_execute_inline (a : action) : follows_aware (execute_inline env a) (execute_inline lit a).
Proof.
  unfold execute_inline. cbv zeta. follow_step. follow_step; [follow|]. follow_step; [follow|].
  follow_step; [apply follows_lift; by intros|]. destruct a2 as [actors inherited]. follow_step; [follow|].
  follow_step; [apply follows_lift; by intros|]. follow_step; [apply follows_lift, skips_inline_authorization|].
  follow_step; [by apply follows_schedule_inline|]. follow.
Qed.

Lemma follows_execute_context_free_inline (a : action) :
  follows_aware (execute_context_free_inline env a) (execute_context_free_inline lit a).
Proof.
  unfold execute_context_free_inline. do 3 (follow_step; try (follow; fail)). apply follows_check. intros Ha%Nat.eqb_eq.
  follow_step; [apply follows_lift; by intros|]. follow_step; [|follow]. apply follows_schedule_inline. intros _.
  by destruct (authorization a).
Qed.

Lemma follows_send (run run' : action -> Act unit) (d : list Z) :
  (forall a, follows_aware (run a) (run' a)) -> follows_aware (send run d) (send run' d).
Proof. intros Hr. unfold send. follow. Qed.

Lemma follows_send_deferred (i : Z) (p : account_name) (trx : transaction) (b : bool) :
  follows_aware (schedule_deferred_transaction env i p trx b) (schedule_deferred_transaction lit i p trx b).
Proof.
  unfold schedule_deferred_transaction.
  repeat first [apply follows_lift, skips_referenced_accounts | apply follows_lift, skips_deferred_authorization | follow_step]; by intros.
Qed.

Lemma follows_get_sender : follows_aware get_sender get_sender.
Proof. unfold get_sender. follow. Qed.

Lemma follows_write_parameters (g : parameters -> result parameters) : follows_aware (write_parameters g) (write_parameters g).
Proof. unfold write_parameters. follow. Qed.

Lemma follows_read_parameters (g : parameters -> result (Z * list Z)) : follows_aware (read_parameters g) (read_parameters g).
Proof. unfold read_parameters. follow. Qed.

Lemma follows_propose (l : list producer_authority) (b : bool) :
  follows_aware (set_proposed_producers_common env l b) (set_proposed_producers_common lit l b).
Proof. unfold set_proposed_producers_common. follow. Qed.

Lemma follows_propose_ex (f : Z) (d : list Z) : follows_aware (propose_ex env f d) (propose_ex lit f d).
Proof. unfold propose_ex, propose_legacy. repeat first [apply follows_propose | follow_step]; by intros. Qed.

Lemma follows_modify_account (n : account_name) (g : account_metadata_object -> account_metadata_object) :
  follows_aware (modify_account n g) (modify_account n g).
Proof. unfold modify_account. follow. Qed.

(** ** Programs *)
Lemma follows_aware_check : follows light_of sound aware context_aware_check context_aware_check.
Proof.
  intros [c t] st' [] [Hb _] E. unfold context_aware_check, context, mbind, M_bind, check, lift, light_of in *. cbv beta iota in *.
  simpl in *. destruct (context_free c) eqn:Hc; [done|]. injection E as <-. split; [done|]. unfold not_run. simpl. by rewrite !Hc.
Qed.

Lemma follows_aware_call {A} (m m' : Act A) :
  follows_aware m m' -> follows light_of sound sound (_ ← context_aware_check; m) (_ ← context_aware_check; m').
Proof.
  intros Hm. eapply follows_bind; [apply follows_aware_check|]. intros _. eapply follows_post; [apply aware_sound|done].
Qed.

Lemma not_run_receiver (c : apply_context) : ac_receiver (not_run c) = ac_receiver c.
Proof. unfold not_run. by destruct (context_free c). Qed.
Lemma not_run_ordinal (c : apply_context) : ac_ordinal (not_run c) = ac_ordinal c.
Proof. unfold not_run. by destruct (context_free c). Qed.
Lemma not_run_act (c : apply_context) : act (not_run c) = act c.
Proof. unfold not_run. by destruct (context_free c). Qed.
Lemma not_run_free (c : apply_context) : context_free (not_run c) = context_free c.
Proof. unfold not_run. by destruct (context_free c) eqn:E. Qed.
Lemma not_run_value (c : apply_context) : action_return_value (not_run c) = action_return_value c.
Proof. unfold not_run. by destruct (context_free c). Qed.
Lemma not_run_notified (c : apply_context) : _notified (not_run c) = _notified c.
Proof. unfold not_run. by destruct (context_free c). Qed.
Hint Rewrite not_run_receiver not_run_ordinal not_run_act not_run_free not_run_value not_run_notified : light.

Lemma follows_host (h : host_call) : follows light_of sound sound (host env h) (host lit h).
Proof.
  unfold host, privileged_check.
  destruct h; first [ apply follows_aware_call | apply follows_context; intros c; autorewrite with light; apply follows_ret ];
    repeat first
      [ apply follows_get_sender | apply follows_require_recipient | apply follows_send; intros ? | apply follows_send_deferred
      | apply follows_write_parameters | apply follows_read_parameters | apply follows_propose_ex | apply (follows_propose_ex 0)
      | apply follows_execute_inline | apply follows_execute_context_free_inline | apply follows_modify_account | follow_step ]; by intros.
Qed.

Lemma follows_program (p : program) : follows light_of sound sound (run_program env p) (run_program lit p).
Proof.
  induction p as [| |e|h k IH]; simpl; [apply follows_ret|apply follows_ret|apply follows_throw|].
  eapply follows_bind; [apply follows_host|exact IH].
Qed.

(** A context-free action calls no function that changes anything. *)
Lemma context_free_host (h : host_call) (c : apply_context) (t : trx_state) (st' : state) (v : host_value) :
  context_free c = true -> host env h (c, t) = (st', Ok v) -> st' = (c, t).
Proof.
  intros Hc E. assert (Ha : forall A (m : Act A) st a, (_ ← context_aware_check; m) (c, t) = (st, Ok a) -> False).
  { intros A m st a. unfold context_aware_check, context, mbind, M_bind, check, lift. cbv beta iota. by rewrite Hc. }
  destruct h; try (by apply Ha in E); by injection E as <- _.
Qed.

Lemma context_free_program (p : program) (c : apply_context) (t : trx_state) (st' : state) (u : unit) :
  context_free c = true -> run_program env p (c, t) = (st', Ok u) -> st' = (c, t).
Proof.
  intros Hc. induction p as [| |e|h k IH]; simpl; [by intros [= <-]|by intros [= <-]|done|].
  intros (st1 & v & E1 & E2)%bind_Ok_inv. apply context_free_host in E1 as ->; [|done]. by apply IH in E2.
Qed.

(** ** Native actions *)
Lemma native_authorized (s s' : chain) (n : account_name) (a : action) :
  authorization a = [] -> find_apply_handler env s n a = Some (Ok s') -> False.
Proof.
  intros Ha. unfold find_apply_handler, apply_native. destruct (_ && _); [|done]. rewrite Ha. intros E.
  repeat case_match; try done; injection E as E; bind_ok_pairs;
    repeat match goal with
    | H : ?f = Ok _ |- _ => progress unfold apply_dcd_newaccount, apply_dcd_setcode, apply_dcd_setabi, apply_dcd_updateauth,
        apply_dcd_deleteauth, apply_dcd_linkauth, apply_dcd_unlinkauth, apply_dcd_setfee, apply_dcd_setrate,
        apply_dcd_canceldelay in H
    end; bind_ok_pairs; try done.
Qed.

Lemma follows_run_native : follows_aware (run_native env) (run_native lit).
Proof.
  unfold run_native. follow_step. follow_step; [follow|].
  change (find_apply_handler lit a (ac_receiver c) (act c)) with (find_apply_handler env a (ac_receiver c) (act c)).
  destruct (find_apply_handler _ _ _ _) as [r|]; follow.
Qed.

(** ** Running one action *)
Lemma follows_apply_aware : follows light_of aware sound (apply_action env) (apply_action lit).
Proof.
  unfold apply_action. apply follows_context_aware. intros c Hc. rewrite Hc. cbn [andb]. unfold receiver_account.
  do 2 (follow_step; [follow|]). follow_step; [apply follows_run_native|]. follow_step; [follow|].
  change (runs_code lit c) with (runs_code env c). destruct (runs_code env c _).
  - follow_step; [by apply follows_lift; intros|]. apply (follows_pre _ _ sound); [apply aware_sound|]. unfold run_code.
    do 2 (follow_step; [follow|]). apply follows_context. intros c'. autorewrite with light. apply follows_program.
  - eapply follows_post; [apply aware_sound|apply follows_ret].
Qed.

(** What is run of a context-free action has no effect. *)
Lemma context_free_apply (c : apply_context) (t : trx_state) (st' : state) (u : unit) :
  context_free c = true -> authorization (act c) = [] -> apply_action env (c, t) = (st', Ok u) ->
  exists b, st' = (set_privileged_flag b c, t) /\
    exists a, db_get_by by_metadata_name (metadata (auth_db (ts_chain t))) [ac_receiver c] = Ok a.
Proof.
  intros Hc Ha E. unfold apply_action, receiver_account in E. run_in E. rewrite Hc in E. cbn [andb] in E.
  destruct (db_get_by _ _ [ac_receiver c]) as [a|e] eqn:Eg; [|done]. destruct (te_light env).
  { injection E as <- _. exists (ac_privileged c). split; [by destruct c|by eexists]. }
  destruct (run_native env _) as [[c1 t1] [u1|e]] eqn:En; [|done]. unfold run_native in En. run_in En.
  destruct (find_apply_handler _ _ _ _) as [[s'|e]|] eqn:Ef in En.
  - exfalso. eapply native_authorized; [|exact Ef]. done.
  - by destruct (check_lists _ _).
  - injection En as <- <- _. exists (is_privileged a). split; [|by eexists]. simpl in E. rewrite Eg in E.
    destruct (runs_code env c a); [|by injection E as <- _]. destruct (check_lists env c); [|done].
    unfold run_code in E. run_in E. destruct (db_get_by by_code_hash _ _) as [o|e]; [|done]. by apply context_free_program in E.
Qed.

Lemma follows_apply : follows light_of sound sound (apply_action env) (apply_action lit).
Proof.
  intros [c t] st' u [Hb Ha] E. destruct (context_free c) eqn:Hc; [|by apply (follows_apply_aware (c, t) st' u)].
  simpl in Ha. apply context_free_apply in E as (b & -> & a & Eg); [|done|by apply Ha]. split; [split; [done|by intros _; apply Ha]|].
  unfold light_of, not_run. simpl. rewrite Hc. unfold apply_action, receiver_account, context, chain_of, mbind, M_bind, lift.
  simpl. rewrite Eg, Hc. by destruct u.
Qed.

(** ** Receipts *)
Abbreviation follows_sound := (follows light_of sound sound).

Lemma follows_sound_trx {A} (m m' : M trx_state A) : follows_trx m m' -> follows_sound (in_trx m) (in_trx m').
Proof. apply follows_in_trx; eauto with dcd. Qed.
Lemma follows_sound_chain (s : chain) : follows_sound (set_chain_to s) (set_chain_to s).
Proof. apply follows_set_chain; eauto with dcd. Qed.

Lemma follows_count (n : account_name) (g : account_metadata_object -> account_metadata_object) :
  follows_sound (modify_account n g) (modify_account n g).
Proof.
  unfold modify_account. follow_step; [apply follows_chain_of|]. follow_step; [by apply follows_lift; intros|]. destruct a0.
  follow_step; [apply follows_sound_chain|follow].
Qed.

Lemma follows_modify_receipt (g : action_receipt -> action_receipt) : follows_sound (modify_receipt g) (modify_receipt g).
Proof. apply follows_context. intros c. autorewrite with light. by apply follows_sound_trx, follows_modify_trace. Qed.

Lemma follows_write_receipt (d : digest) : follows_sound (write_receipt d) (write_receipt d).
Proof.
  apply follows_context. intros c. autorewrite with light. follow_step; [by apply follows_sound_trx, follows_modify_trace|].
  follow_step.
  { unfold next_global_sequence. follow_step; [apply follows_chain_of|]. follow_step; [apply follows_sound_chain|apply follows_ret]. }
  follow_step; [unfold next_recv_sequence; follow_step; [apply follows_count|apply follows_ret]|].
  follow_step; [apply follows_modify_receipt|]. follow_step; [apply follows_chain_of|]. follow_step; [by apply follows_lift; intros|].
  follow_step; [apply follows_modify_receipt|]. apply follows_for_each. intros l.
  follow_step; [unfold next_auth_sequence; follow_step; [apply follows_count|apply follows_ret]|apply follows_modify_receipt].
Qed.

Lemma follows_exec_one : follows_sound (exec_one env) (exec_one lit).
Proof.
  unfold exec_one. follow_step.
  - apply follows_catch.
    { intros e [c t] st' a E. run_in E. by destruct (modify_trace _ _ _) as [t1 [u|x]]. }
    follow_step; [apply follows_update_context; [done|]|].
    + intros c. unfold not_run. simpl. by destruct (context_free c).
    + follow_step; [apply follows_apply|]. apply follows_context. intros c. autorewrite with light. apply follows_ret.
  - follow_step; [apply follows_write_receipt|]. apply follows_context. intros c. autorewrite with light.
    follow_step; [apply follows_sound_trx, follows_get_trace|]. destruct (tr_receipt _); [|apply follows_throw].
    apply follows_sound_trx. by intros t t' [] Hb [= <-].
Qed.

(** ** Notifications and inline actions *)
Lemma follows_fuel_context {B} (k k' : apply_context -> F state B) :
  (forall c, follows_fuel light_of sound sound (k c) (k' (not_run c))) ->
  follows_fuel light_of sound sound (now context ≫= k) (now context ≫= k').
Proof. intros Hk [c t] st' a Hs E. by apply (Hk c (c, t)). Qed.

Lemma follows_notify_loop (fuel i : nat) : follows_fuel light_of sound sound (notify_loop env fuel i) (notify_loop lit fuel i).
Proof.
  revert i. induction fuel as [|fuel IH]; intros i; cbn [notify_loop]; [done|].
  apply follows_fuel_context. intros c. autorewrite with light. destruct (_notified c !! i) as [[n o]|]; [|apply follows_fuel_ret].
  apply (follows_fuel_bind _ _ sound).
  - apply follows_now, follows_update_context; [done|]. intros c'. unfold not_run. simpl. by destruct (context_free c').
  - intros _. eapply follows_fuel_bind; [apply follows_now, follows_exec_one|intros _; apply IH].
Qed.

Lemma follows_exec_notified (fuel : nat) : follows_fuel light_of sound sound (exec_notified env fuel) (exec_notified lit fuel).
Proof.
  unfold exec_notified. eapply follows_fuel_bind.
  { apply follows_now, follows_update_context; [done|]. intros c. unfold not_run. simpl. by destruct (context_free c). }
  intros _. eapply follows_fuel_bind; [apply follows_now, follows_exec_one|]. intros _.
  eapply follows_fuel_bind; [apply follows_notify_loop|]. intros _. apply follows_fuel_context. intros c.
  assert (En : _cfa_inline_actions (not_run c) = _cfa_inline_actions c /\ _inline_actions (not_run c) = _inline_actions c /\
               recurse_depth (not_run c) = recurse_depth c) by (unfold not_run; by destruct (context_free c)).
  destruct En as (-> & -> & ->). eapply follows_fuel_bind; [apply follows_now, follows_chain_of|]. intros s.
  eapply follows_fuel_bind; [apply follows_now, follows_when, follows_lift; by intros|]. intros _. apply follows_fuel_ret.
Qed.

Lemma follows_execute_action (fuel : nat) (o depth : Z) :
  follows_fuel given_net bare bare (execute_action env fuel o depth) (execute_action lit fuel o depth).
Proof.
  revert o depth. induction fuel as [|fuel IH]; intros o depth; cbn [execute_action]; [done|].
  intros t t' u Hb E. unfold mbind at 1, F_bind at 1, now at 1 in E. unfold mbind at 1, F_bind at 1, now at 1. cbv beta in E.
  destruct (get_action_trace o t) as [t1 [tr|e]] eqn:Eg; [|done].
  pose proof (follows_get_trace o t t1 tr Hb Eg) as [_ ->]. apply get_action_trace_state in Eg as (-> & Ht & _).
  assert (Hc : context_free (new_context o depth tr) = true -> authorization (act (new_context o depth tr)) = []).
  { exact (proj1 (Forall_lookup _ _) Hb _ _ Ht). }
  revert E. apply (follows_fuel_bind given_net bare bare); [|intros l; by apply follows_each|done]. clear t' u.
  intros t1 t' l Hb1 E. unfold in_context in *. destruct (exec_notified env fuel _) as [[[c2 t2] r]|] eqn:E2; [|done].
  injection E as <- ->. destruct (follows_exec_notified fuel (new_context o depth tr, t1) (c2, t2) l ltac:(by split) E2) as [[Hs _] E3].
  split; [done|]. replace (new_context o depth tr, given_net t1) with (light_of (new_context o depth tr, t1)); [by rewrite E3|].
  unfold light_of, not_run. simpl. by destruct (tr_context_free tr).
Qed.

(** ** Transactions *)
Context (trx_id : digest) (trx : transaction) (delay : Z).

Definition given (c : transaction_context) : transaction_context := set_trx (given_net (tc_trx c)) c.
Definition bare_trx (c : transaction_context) : Prop := bare (tc_trx c).
Abbreviation follows_ctx := (follows given bare_trx bare_trx).

Lemma follows_in_state {A} (m m' : M trx_state A) : follows_trx m m' -> follows_ctx (in_state m) (in_state m').
Proof.
  intros Hm c c' a Hb E. unfold in_state in *. destruct (m (tc_trx c)) as [t r] eqn:Em. injection E as <- ->. simpl.
  destruct (Hm _ _ _ Hb Em) as [H1' ->]. by split.
Qed.

Lemma follows_the_chain : follows_ctx the_chain the_chain.
Proof. by intros c c' s Hb [= <- <-]. Qed.
Lemma follows_set_the_chain (s : chain) : follows_ctx (set_the_chain s) (set_the_chain s).
Proof. by intros c c' [] Hb [= <-]. Qed.
Lemma follows_get {B} (R : transaction_context -> Prop) (k k' : transaction_context -> M transaction_context B) :
  (forall c, follows given bare_trx R (k c) (k' (given c))) -> follows given bare_trx R (get ≫= k) (get ≫= k').
Proof. intros Hk c c' b Hs E. by apply (Hk c c). Qed.

Ltac follow_ctx_step :=
  match goal with
  | |- follows _ _ _ (_ ≫= _) _ => eapply follows_bind; [|intros ?]
  | |- follows _ _ _ (mret _) _ => apply follows_ret
  | |- follows _ _ _ (throw _) _ => apply follows_throw
  | |- follows _ _ _ (lift _) _ => apply follows_lift; by intros
  | |- follows _ _ _ (check _ _) _ => apply follows_lift; by intros
  | |- follows _ _ _ the_chain _ => apply follows_the_chain
  | |- follows _ _ _ (set_the_chain _) _ => apply follows_set_the_chain
  | |- follows _ _ _ (in_state (add_net_usage _)) _ => apply follows_in_state, follows_add_net
  | |- follows _ _ _ (in_state (schedule_new_action _ _ _ _ _)) _ => apply follows_in_state, follows_schedule_new
  | |- follows _ _ _ (when _ _) _ => apply follows_when
  | |- follows _ _ _ (for_each _ _) _ => apply follows_for_each; intros ?
  | |- follows _ _ _ (let '(_, _) := ?x in _) _ => destruct x
  | |- follows _ _ _ (if ?b then _ else _) _ => destruct b
  | |- follows _ _ _ (match ?x with _ => _ end) _ => destruct x
  end.
Ltac follow_ctx := repeat (cbv zeta; follow_ctx_step); try done.

Lemma follows_schedule_fee : follows_ctx (schedule_fee_action env trx) (schedule_fee_action lit trx).
Proof. unfold schedule_fee_action. follow_ctx. Qed.

Lemma follows_schedule_all (cf : bool) (l : list action) :
  (cf = true -> Forall (fun a => authorization a = []) l) -> follows_ctx (schedule_all cf l) (schedule_all cf l).
Proof.
  unfold schedule_all. induction l as [|a l IH]; intros Hl; cbn [for_each]; [apply follows_ret|].
  apply (follows_bind _ _ bare_trx); [|intros _; apply IH; intros Hc; by apply Hl, Forall_cons_1 in Hc as [_ Hc]].
  follow_ctx. intros Hc. by apply Hl, Forall_cons_1 in Hc as [Hc _].
Qed.

Context (Hcf : Forall (fun a => authorization a = []) (context_free_actions trx)).

Lemma follows_schedule_actions : follows_ctx (schedule_actions env trx delay) (schedule_actions lit trx delay).
Proof using Hcf.
  unfold schedule_actions. apply follows_get. intros c. cbn [given is_initialized apply_context_free set_trx].
  follow_ctx_step; [follow_ctx|]. follow_ctx_step; [apply follows_schedule_fee|].
  follow_ctx_step; apply follows_when; by apply follows_schedule_all.
Qed.

Lemma follows_schedule_transaction :
  follows_ctx (schedule_transaction env trx_id trx delay) (schedule_transaction lit trx_id trx delay).
Proof. unfold schedule_transaction. follow_ctx. Qed.
End light.

Section light_transactions.
Context {T : Type} `{ActionData} `{Code} `{Engine} `{TransactionData}.
Context (env : @trx_env T) (trx_id : digest) (trx : transaction) (delay : Z).
Abbreviation lit := (without_checks env).
Abbreviation follows_ctx net := (follows (given net) bare_trx bare_trx).

Lemma follows_exec (net : Z) (fuel : nat) :
  Forall (fun a => authorization a = []) (context_free_actions trx) ->
  follows_fuel (given net) bare_trx bare_trx (exec env trx_id trx delay fuel) (exec lit trx_id trx delay fuel).
Proof.
  intros Hcf. eapply follows_fuel_bind; [by apply follows_now, follows_schedule_actions|]. intros _.
  intros c c' u Hb E. revert E. unfold mbind at 1, F_bind at 1, now, get. cbv beta iota.
  unfold mbind at 2, F_bind at 2, now, get. cbv beta iota. cbn [given tc_trx set_trx given_net set_net action_traces].
  apply (follows_fuel_bind (given net) bare_trx bare_trx); [|intros _|done].
  - intros c1 c2 u1 Hb1 E. unfold in_fuel in *. destruct (each _ _ _) as [[t r]|] eqn:Ee; [|done].
    injection E as <- ->. simpl tc_published. simpl tc_trx.
    pose proof (follows_each (given_net net) bare _ _ _ (fun o => follows_execute_action (action_env env trx_id (tc_published c1)) net fuel o 0)
                  _ _ _ Hb1 Ee) as [Hb' E']. split; [done|].
    change (each _ _ _) with (each (fun o => execute_action (without_checks (action_env env trx_id (tc_published c1))) fuel o 0)
      (seqZ 1 (Z.of_nat (length (action_traces (tc_trx c))))) (given_net net (tc_trx c1))). by rewrite E'.
  - destruct (negb (delay =? 0)); [apply follows_now, follows_schedule_transaction|apply follows_fuel_ret].
Qed.

Lemma follows_finalize (net : Z) : follows_ctx net (finalize env trx) (finalize lit trx).
Proof.
  apply follows_get. intros c. cbn [given is_initialized is_input set_trx]. eapply follows_bind; [apply follows_lift; by intros|].
  intros _. eapply follows_bind.
  - apply follows_when, follows_for_each. intros l. unfold touch_permission. eapply follows_bind; [apply follows_the_chain|]. intros s.
    eapply follows_bind; [apply follows_lift; by intros|]. intros p. eapply follows_bind; [apply follows_lift; by intros|].
    intros db. apply follows_set_the_chain.
  - intros _. apply follows_in_state. intros t t' [] Hb E. unfold round_up_net_usage in *. rewrite get_bind in E. rewrite get_bind. simpl.
    destruct (explicit_net_usage t); injection E as <-; by split.
Qed.

(** The beginning of a transaction with the checks, and without them and with the network usage that is given. *)
Lemma checked_context_free (s : chain) (b : bool) (u : unit) :
  te_light env = false -> validate_referenced_accounts env s trx b = Ok u ->
  Forall (fun a => authorization a = []) (context_free_actions trx).
Proof.
  intros Hl E. unfold validate_referenced_accounts in E. rewrite Hl, andb_true_r in E.
  assert (Hf : forall l x y, foldM (fun (_ : unit) a => check_context_free_action s a) x l = Ok y ->
                 Forall (fun a => authorization a = []) l).
  { induction l as [|a l IH]; intros x y; simpl; [done|]. intros Ef. bind_ok_pairs. constructor; [|by eapply IH].
    unfold check_context_free_action in *. bind_ok_pairs. by destruct (authorization a). }
  destruct (context_free_actions trx) as [|a l]; [done|]. simpl negb in E. cbv iota in E.
  destruct (foldM _ tt _) as [[]|e] eqn:Ef in E; [|done]. by eapply Hf.
Qed.

Lemma follows_init_common (net n : Z) (skip : bool) (c c' : transaction_context) (u : unit) :
  te_light env = false -> bare_trx c -> init_for_input_trx_common env trx_id trx n skip c = (c', Ok u) ->
  bare_trx c' /\ init_for_input_trx_common lit trx_id trx 0 skip (given net c) = (given net c', Ok u) /\
  Forall (fun a => authorization a = []) (context_free_actions trx).
Proof.
  intros Hl Hb E. unfold init_for_input_trx_common in *. rewrite update_bind in E. rewrite Hl in E. cbn [unless] in E.
  rewrite update_bind. cbn [unless te_light without_checks].
  set (c0 := set_kind true (te_time env) (apply_context_free c) c) in *. apply bind_Ok_inv in E as (c1 & u1 & E1 & E2).
  pose proof (checks_read env trx c0) as Hr. rewrite E1 in Hr. simpl in Hr. subst c1.
  assert (Hcf : Forall (fun a => authorization a = []) (context_free_actions trx)).
  { apply bind_Ok_inv in E1 as (c1 & u2 & _ & E1). apply bind_Ok_inv in E1 as (c2 & u3 & _ & E1).
    apply bind_Ok_inv in E1 as (c3 & s & _ & E1). apply lift_Ok in E1 as [_ E1]. by eapply checked_context_free. }
  assert (Hi : follows_ctx net (init n) (init 0)).
  { apply follows_get. intros c2. eapply follows_bind; [apply follows_lift; by intros|]. intros _.
    intros c3 c4 [] Hb3 (c5 & [] & E5 & E6)%bind_Ok_inv. injection E6 as <-. unfold when in E5. simpl. unfold when.
    destruct (0 <? n); [|by injection E5 as <-].
    unfold in_state in E5. destruct (add_net_usage n (tc_trx c3)) as [t [[]|e]] eqn:En; [|done]. injection E5 as <-.
    by apply add_net_usage_spec in En as (k & e & ->). }
  assert (Hrec : follows_ctx net (unless skip (record_transaction trx_id (trx_expiration trx)))
                   (unless skip (record_transaction trx_id (trx_expiration trx)))).
  { destruct skip; [apply follows_ret|]. simpl. unfold record_transaction. eapply follows_bind; [apply follows_the_chain|]. intros s.
    destruct (_ !! _); [apply follows_throw|apply follows_set_the_chain]. }
  destruct (follows_bind (given net) bare_trx bare_trx bare_trx _ _ _ _ Hi (fun _ => Hrec) c0 c' u Hb E2) as [H3 E3]. by split_and!.
Qed.
End light_transactions.
