(* ===== verification/DeferredProofs.v ===== *)
(** * Deferred transactions: proofs

    The table of deferred transactions as contracts see it: under the account that sends them and the identifier that it
    gives them. *)

From S2P Require Import Prelude Effects Types BlockHeader Authority UndoIndex Database AuthorizationManager SystemContract TransactionTypes.
From S2P Require Import Fees CodeActions NodeLists ContractTables ChainConfig Parameters Proposals Controller Actions ActionProofs.

(** ** Finding by a unique key *)
Section find.
Context {value : Type} (unique_keys : list (value -> list Z)) (id_of : value -> Z).

Lemma found (f : value -> list Z) (u : undo_index value) (x : list Z) (v : value) :
  f ∈ unique_keys -> table_ok unique_keys id_of u ->
  db_find_by f u x = Some v <-> contents u !! id_of v = Some v /\ f v = x.
Proof.
  intros Hf (Hn & Hi & Hu). split.
  - intros (i & Hv & Hx)%db_find_by_Some. by rewrite (proj1 (Hi i v Hv)).
  - intros [Hv <-]. by eapply db_find_by_unique.
Qed.

(** An object is created: it is found under its key, and the others as before. *)
Lemma found_create (f : value -> list Z) (u u' : undo_index value) (c : Z -> value) (v : value) (x : list Z) :
  f ∈ unique_keys -> table_ok unique_keys id_of u -> room 1 u -> id_of (c (_next_id u)) = _next_id u ->
  db_create unique_keys u c = Ok (u', v) ->
  db_find_by f u' x = if decide (f v = x) then Some v else db_find_by f u x.
Proof.
  intros Hf Hok Hr Hid E. destruct (table_ok_create _ _ _ _ _ _ Hok Hr Hid E) as (Hok' & Ev & Ec & _ & Hfree).
  destruct (decide (f v = x)) as [<-|Hne].
  - apply (found f u' (f v) v); [done..|]. split; [|done]. rewrite Ec, Ev, Hid. apply lookup_insert_eq.
  - apply option_eq. intros w. rewrite !found by done. rewrite Ec. split.
    + intros [[[_ <-]|[_ Hw]]%lookup_insert_Some Hx]; [done|by split].
    + intros [Hw <-]. split; [|done]. apply lookup_insert_Some. right. split; [|done]. intros Heq.
      destruct Hok as (_ & Hi & _). apply Hi in Hw as [_ Hw]. lia.
Qed.

(** An object is removed: it is no longer found, and the others as before. *)
Lemma found_remove (f : value -> list Z) (u u' : undo_index value) (v : value) (x : list Z) :
  f ∈ unique_keys -> table_ok unique_keys id_of u -> contents u !! id_of v = Some v -> db_remove u (id_of v) = Ok u' ->
  db_find_by f u' x = if decide (f v = x) then None else db_find_by f u x.
Proof.
  intros Hf Hok Hv E. destruct (table_ok_remove unique_keys _ _ _ _ Hok E) as (Hok' & Ec & _). apply option_eq. intros w.
  rewrite (found f u') by done. rewrite Ec, lookup_delete_Some.
  assert (Heq : forall i, i = id_of w -> contents u !! i = Some w -> f w = f v -> id_of v = id_of w).
  { intros i -> Hw Hx. destruct Hok as (_ & _ & Hu). eapply Hu; [exact Hv|exact Hw|]. unfold conflict. apply existsb_exists. exists f.
    split; [by apply list_elem_of_In|]. by apply bool_decide_eq_true. }
  destruct (decide (f v = x)) as [<-|Hne].
  - split; [|done]. intros [[Hi Hw] Hx]. destruct Hi. by eapply Heq.
  - rewrite (found f u) by done. split; [intros [[_ Hw] Hx]; by split|]. intros [Hw Hx]. split_and!; [|done|done]. intros Hi. apply Hne.
    rewrite Hi in Hv. congruence.
Qed.
End find.

(** ** Sending a deferred transaction *)
Section deferred.
Context {T : Type} `{ActionData} `{Code} `{Engine} `{TransactionData} (env : @trx_env T).

(** The deferred transaction that [a] sent under [i]. *)
Definition deferred_of (db : database) (a : account_name) (i : Z) : option generated_transaction_object :=
  db_find_by by_sender_id (generated db) [a; i].
Definition generated_ok (db : database) : Prop := table_ok generated_keys gto_id (generated db).

Lemma by_sender_unique : by_sender_id ∈ generated_keys.
Proof. right. left. Qed.

Lemma sender_key (g : generated_transaction_object) (a i : Z) : by_sender_id g = [a; i] <-> sender g = a /\ sender_id g = i.
Proof. unfold by_sender_id. split; [by intros [= <- <-]|by intros [<- <-]]. Qed.

Lemma create_deferred (c : apply_context) (s : chain) (sid p : Z) (trx : transaction) (i : digest)
    (t u : undo_index generated_transaction_object) (g : generated_transaction_object) :
  table_ok generated_keys gto_id t -> room 1 t -> db_create generated_keys t (generated_of env c s sid p trx i) = Ok (u, g) ->
  table_ok generated_keys gto_id u /\
  forall a k, db_find_by by_sender_id u [a; k] =
    if decide (a = ac_receiver c /\ k = sid) then Some (generated_of env c s sid p trx i (_next_id t)) else db_find_by by_sender_id t [a; k].
Proof.
  intros Hok Hr E. set (f := generated_of env c s sid p trx i) in *.
  destruct (table_ok_create generated_keys gto_id t u f g Hok Hr eq_refl E) as (Hok' & -> & _). split; [done|]. intros a k.
  rewrite (found_create _ _ by_sender_id t u f _ [a; k] by_sender_unique Hok Hr eq_refl E).
  apply decide_ext. rewrite sender_key. simpl. naive_solver.
Qed.

(** The old transaction, if any, gives way to the new one. *)
Lemma file_deferred_spec (c : apply_context) (s : chain) (sid p : Z) (trx : transaction) (replace_existing : bool)
    (u : undo_index generated_transaction_object) :
  generated_ok (auth_db s) -> room 1 (generated (auth_db s)) ->
  file_deferred env c s sid p trx replace_existing = Ok u ->
  table_ok generated_keys gto_id u /\
  (is_Some (deferred_of (auth_db s) (ac_receiver c) sid) -> replace_existing = true) /\
  exists i n, forall a k, db_find_by by_sender_id u [a; k] =
    if decide (a = ac_receiver c /\ k = sid) then Some (generated_of env c s sid p trx i n) else deferred_of (auth_db s) a k.
Proof.
  intros Hok Hr E. unfold file_deferred, deferred_of, generated_ok in *. set (table := generated (auth_db s)) in *.
  destruct (db_find_by by_sender_id table [ac_receiver c; sid]) as [g|] eqn:Eg.
  - apply (found _ gto_id _ _ _ _ by_sender_unique Hok) in Eg as [Hg Hkey]. destruct replace_existing; [|done].
    cbn [dcd_assert mbind result_bind] in E. bind_ok_pairs.
    match goal with E : db_remove _ _ = Ok ?x |- _ => rename E into Er; rename x into t1 end.
    match goal with E : db_create _ _ _ = Ok _ |- _ => rename E into Ec end.
    destruct (table_ok_remove generated_keys gto_id _ _ _ Hok Er) as (Hok1 & _ & Hn1).
    apply create_deferred in Ec as [Hok' Hf]; [|done|unfold room in *; by rewrite Hn1]. split; [done|]. split; [done|].
    eexists _, _. intros a k. rewrite Hf. destruct (decide (a = _ /\ k = _)) as [|Hne]; [done|].
    rewrite (found_remove _ gto_id by_sender_id table t1 g [a; k] by_sender_unique Hok Hg Er), Hkey.
    destruct (decide _) as [[= <- <-]|]; [by destruct Hne|done].
  - bind_ok_pairs. match goal with E : db_create _ _ _ = Ok _ |- _ => rename E into Ec end.
    apply create_deferred in Ec as [Hok' Hf]; [|done|done]. split; [done|]. split; [by intros []|]. by eexists _, _.
Qed.

Lemma cancel_spec (db : database) (a i : Z) (g : generated_transaction_object) :
  generated_ok db -> deferred_of db a i = Some g ->
  exists db', cancel_deferred_transaction db i a = Ok (db', true) /\ generated_ok db' /\
    forall a' i', deferred_of db' a' i' = if decide (a' = a /\ i' = i) then None else deferred_of db a' i'.
Proof.
  intros Hok Hg. unfold cancel_deferred_transaction, deferred_of in *. rewrite Hg.
  apply (found _ gto_id _ _ _ _ by_sender_unique Hok) in Hg as [Hg Hkey].
  destruct (db_remove_ok _ _ _ Hg) as [u Hu]. rewrite Hu. simpl. eexists. split; [done|].
  destruct (table_ok_remove generated_keys gto_id _ _ _ Hok Hu) as (Hok1 & _). split; [done|]. intros a' i'.
  cbn [generated with_generated].
  rewrite (found_remove _ gto_id by_sender_id _ u g [a'; i'] by_sender_unique Hok Hg Hu), Hkey. apply decide_ext. naive_solver.
Qed.

(** C23. A contract that sends a deferred transaction gets it filed under its own account and the identifier that it
    gives, with the time at which it may run, in the place of the one that was there, which needs the permission to
    replace it; the transactions of others and under other identifiers stay as they are. With the same identifier the
    contract can cancel it, and then it is gone. *)
Theorem send_deferred_spec (sid p : Z) (trx : transaction) (replace_existing : bool) (c c' : apply_context) (t t' : trx_state) (v : unit) :
  let db := auth_db (ts_chain t) in
  let db' := auth_db (ts_chain t') in
  generated_ok db -> room 1 (generated db) ->
  schedule_deferred_transaction env sid p trx replace_existing (c, t) = ((c', t'), Ok v) ->
  (is_Some (deferred_of db (ac_receiver c) sid) -> replace_existing = true) /\
  exists g trx', stamp_deferred env c sid trx = Ok trx' /\
    sender g = ac_receiver c /\ sender_id g = sid /\ payer g = p /\ delay_until g = te_time env + delay_sec trx' * 1000000 /\
    packed_trx g = pack_transaction trx' /\
    (forall a i, deferred_of db' a i = if decide (a = ac_receiver c /\ i = sid) then Some g else deferred_of db a i) /\
    exists db'', cancel_deferred_transaction db' sid (ac_receiver c) = Ok (db'', true) /\
      forall a i, deferred_of db'' a i = if decide (a = ac_receiver c /\ i = sid) then None else deferred_of db a i.
Proof.
  cbv zeta. intros Hok Hr E. unfold schedule_deferred_transaction in E. run_in E. run_in E. destruct (dcd_assert _ _); [|done].
  destruct (validate_referenced_accounts _ _ _ _); [|done]. destruct (stamp_deferred _ _ _ _) as [trx'|e] eqn:Es; [|done].
  destruct (add_net_usage _ t) as [t1 [u1|e]] eqn:En; [|done]. apply add_net_usage_spec in En as (k & e' & ->).
  destruct (check_deferred_authorization _ _ _ _ _); [|done]. destruct (file_deferred _ _ _ _ _ _ _) as [u|e] eqn:Ef; [|done].
  injection E as <- <- _. apply file_deferred_spec in Ef as (Hok' & Hrep & i & n & Hf); [|done|done]. split; [done|].
  exists (generated_of env c (ts_chain t) sid p trx' i n), trx'. split_and!; try done.
  set (db' := auth_db (ts_chain _)). destruct (cancel_spec db' (ac_receiver c) sid (generated_of env c (ts_chain t) sid p trx' i n)) as (db'' & Ec & _ & Hc).
  { done. }
  { unfold deferred_of, db'. simpl. rewrite Hf. by rewrite decide_True. }
  exists db''. split; [done|]. intros b j. rewrite Hc. destruct (decide _) as [|Hne]; [done|]. unfold deferred_of, db'. simpl. rewrite Hf.
  by rewrite decide_False.
Qed.
End deferred.
