(* ===== verification/Validation.v ===== *)
(** * Producing and validating

    A node that produces a block refuses, for reasons of its own, transactions that other nodes would accept: its lists of
    accounts, keys and contracts, limits that are not rules of the chain, and behaviour that is about to be forbidden. What
    is shown here: whatever a transaction does on the node that produces, it does on every other node, unless the producer
    fails for one of these reasons. *)

From S2P Require Import Prelude Effects Types Asset BlockHeader Authority UndoIndex Database AuthorizationManager SystemContract TransactionTypes.
From S2P Require Import Fees CodeActions NodeLists ContractTables ContractTableSpec ContractTableReads ChainConfig Parameters.
From S2P Require Import BlockHeaderState Proposals Controller Actions ActionProofs Transactions TransactionProofs PushTransaction LightValidation.

(** ** Two computations agree

    From the states in [P], [m] leaves a state in [P]; when it returns, [m'] returns the same, and when it throws, it is for a
    subjective reason, or [m'] throws the same exception. *)
Definition subjective (e : exn) : Prop := failure_is_subjective e = true.

Definition relaxes {A} (r r' : result A) : Prop :=
  match r with
  | Ok a => r' = Ok a
  | Throw e => subjective e \/ r' = Throw e
  end.

Lemma relaxes_refl {A} (r : result A) : relaxes r r.
Proof. destruct r; [done|by right]. Qed.

Lemma relaxes_bind {A B} (r r' : result A) (k k' : A -> result B) :
  relaxes r r' -> (forall a, relaxes (k a) (k' a)) -> relaxes (r ≫= k) (r' ≫= k').
Proof.
  intros Hr Hk. destruct r as [a|e]; simpl in *; [subst; apply Hk|]. destruct Hr as [Hr| ->]; [by left|by right].
Qed.

Lemma relaxes_assert (b b' : bool) (e : exn) : subjective e -> (b = true -> b' = true) -> relaxes (dcd_assert b e) (dcd_assert b' e).
Proof. intros He Hb. destruct b; simpl; [by rewrite Hb|by left]. Qed.

(** A check of the producer that the others leave out. *)
Lemma relaxes_skip (r : result unit) : (forall e, r = Throw e -> subjective e) -> relaxes r (Ok tt).
Proof. intros He. destruct r as [[]|e]; simpl; [done|left; by apply He]. Qed.

Section agrees.
Context {S : Type} (P : S -> Prop).

Definition preserves {A} (m : M S A) : Prop := forall s, P s -> P (m s).1.

Definition agrees {A} (m m' : M S A) : Prop := forall s, P s -> P (m s).1 /\
  match m s with
  | (s', Ok a) => m' s = (s', Ok a)
  | (_, Throw e) => subjective e \/ exists s'', m' s = (s'', Throw e)
  end.

Definition agrees_fuel {A} (m m' : F S A) : Prop := forall s, P s ->
  match m s with
  | Some (s', Ok a) => P s' /\ m' s = Some (s', Ok a)
  | Some (_, Throw e) => subjective e \/ exists s'', m' s = Some (s'', Throw e)
  | None => m' s = None
  end.

Lemma preserves_bind {A B} (m : M S A) (k : A -> M S B) : preserves m -> (forall a, preserves (k a)) -> preserves (m ≫= k).
Proof. intros Hm Hk s Hs. specialize (Hm s Hs). rewrite bind_eq. destruct (m s) as [s1 [a|e]]; [by apply Hk|done]. Qed.
Lemma preserves_ret {A} (a : A) : preserves (mret a).
Proof. by intros s. Qed.
Lemma preserves_lift {A} (r : result A) : preserves (lift r).
Proof. by intros s. Qed.
Lemma preserves_throw {A} (e : exn) : preserves (throw (A := A) e).
Proof. by intros s. Qed.

Lemma agrees_same {A} (m : M S A) : preserves m -> agrees m m.
Proof. intros Hm s Hs. split; [by apply Hm|]. destruct (m s) as [s' [a|e]]; [done|right; by eexists]. Qed.

Lemma agrees_bind {A B} (m m' : M S A) (k k' : A -> M S B) :
  agrees m m' -> (forall a, agrees (k a) (k' a)) -> agrees (m ≫= k) (m' ≫= k').
Proof.
  intros Hm Hk s Hs. destruct (Hm s Hs) as [Hp E]. rewrite !bind_eq. destruct (m s) as [s1 [a|e]].
  - rewrite E. by apply Hk.
  - split; [done|]. destruct E as [E|[s2 ->]]; [by left|right; by eexists].
Qed.

Lemma agrees_lift {A} (r r' : result A) : relaxes r r' -> agrees (lift r) (lift r').
Proof. intros Hr s Hs. split; [done|]. unfold lift. destruct r as [a|e]; simpl in *; [by subst|]. destruct Hr as [Hr| ->]; [by left|right; by eexists]. Qed.

(** A check of the producer that the others leave out. *)
Lemma agrees_skip (b : bool) (r : result unit) :
  (forall e, r = Throw e -> subjective e) -> agrees (when b (lift r)) (mret tt).
Proof.
  intros He s Hs. destruct b; unfold when, lift; [|done]. split; [done|]. destruct r as [[]|e]; [done|left; by apply He].
Qed.

Lemma agrees_now {A} (m m' : M S A) : agrees m m' -> agrees_fuel (now m) (now m').
Proof.
  intros Hm s Hs. destruct (Hm s Hs) as [Hp E]. unfold now. destruct (m s) as [s' [a|e]]; [split; [done|by rewrite E]|].
  destruct E as [E|[s2 ->]]; [by left|right; by eexists].
Qed.
Lemma agrees_fuel_ret {A} (a : A) : agrees_fuel (mret a) (mret a).
Proof. by intros s. Qed.
Lemma agrees_fuel_bind {A B} (m m' : F S A) (k k' : A -> F S B) :
  agrees_fuel m m' -> (forall a, agrees_fuel (k a) (k' a)) -> agrees_fuel (m ≫= k) (m' ≫= k').
Proof.
  intros Hm Hk s Hs. specialize (Hm s Hs). unfold mbind, F_bind. destruct (m s) as [[s1 [a|e]]|].
  - destruct Hm as [H1 ->]. by apply Hk.
  - destruct Hm as [H1|[s2 ->]]; [by left|right; by eexists].
  - by rewrite Hm.
Qed.
Lemma agrees_each {A} (g g' : A -> F S unit) (l : list A) : (forall a, agrees_fuel (g a) (g' a)) -> agrees_fuel (each g l) (each g' l).
Proof. intros Hg. induction l as [|a l IH]; cbn [each]; [apply agrees_fuel_ret|]. by apply agrees_fuel_bind. Qed.
End agrees.

(** ** The tables of contracts *)
Section tables.
Context (e e' : apply_env).
Context (Hr : receiver e' = receiver e) (Ha : ctx_action e' = ctx_action e) (Hp : privileged e' = privileged e)
  (Hx : ram_restrictions e' = ram_restrictions e) (Hn : is_ram_billing_in_notify_allowed e' = true).
Abbreviation agree := (agrees (fun _ : contract_db => True)).

Lemma same_tables {A} (m : M contract_db A) : agree m m.
Proof. by apply agrees_same. Qed.

Lemma relaxes_usage (payer delta : Z) : relaxes (update_db_usage e payer delta) (update_db_usage e' payer delta).
Proof.
  unfold update_db_usage. rewrite Hr, Ha, Hp, Hx, Hn. destruct (0 <? delta); [|done]. destruct (negb _); [|done].
  apply relaxes_bind; [by apply relaxes_assert|]. intros _. apply relaxes_refl.
Qed.

Ltac agree_tables :=
  repeat match goal with
  | |- agrees _ (lift (update_db_usage _ _ _)) _ => apply agrees_lift, relaxes_usage
  | |- agrees _ ?m ?m => apply same_tables
  | |- agrees _ (_ ≫= _) _ => apply agrees_bind; [|intros ?]
  | |- agrees _ (when ?b _) _ => unfold when; destruct b
  | |- agrees _ (let '(_, _) := ?x in _) _ => destruct x
  | |- agrees _ (if ?b then _ else _) _ => destruct b
  | |- agrees _ (match ?x with _ => _ end) _ => destruct x
  end.

Lemma agrees_perform (w : write) : agree (perform e w) (perform e' w).
Proof.
  destruct w; unfold perform, db_store_i64, db_update_i64, idx_store, idx_update, remove_at, find_or_create_table, own_object,
    store_object, remove_table; rewrite ?Hr; agree_tables.
Qed.
End tables.

(** ** Actions *)
Section actions.
Context {T : Type} `{ActionData} `{Code} `{Engine} `{TransactionData}.

(** The environment of a node that does not produce: its own settings do not matter, and the block that it builds has the
    same effect on proposed rates. *)
Definition validating (stage : block_stage_type T) (lists : node_lists) (keys : gset public_key) (size : Z) (unmitigated enforce : bool)
    (env : @trx_env T) : @trx_env T :=
  mk_trx_env (te_head env) stage (te_time env) (te_features env) false (te_light env) lists keys size true unmitigated
    (te_fee_manager env) enforce (te_trx_id env) (te_published env).

(** Proposals are made alike in the two stages. *)
Definition same_proposals (head : block_header_state) (stage stage' : block_stage_type T) : Prop :=
  (forall g r, set_proposed_rate head (Some stage') g r = set_proposed_rate head (Some stage) g r) /\
  (forall b g l, set_proposed_producers head (Some stage') b g l = set_proposed_producers head (Some stage) b g l).

Context (stage : block_stage_type T) (lists : node_lists) (keys : gset public_key) (size : Z) (unmitigated enforce : bool).
Context (env : @trx_env T) (Hstage : same_proposals (te_head env) (te_stage env) stage).
Abbreviation val := (validating stage lists keys size unmitigated enforce env).
Abbreviation Act := (M (apply_context * trx_state)).
Abbreviation state := (apply_context * trx_state)%type.

(** The ordinals that a context uses are those of traces, or zero, when the counter has wrapped around. *)
Definition ordinal_ok (o : Z) (t : trx_state) : Prop := o = 0 \/ 0 < o <= trace_count t.
Definition ordinals_ok (o : Z) (st : state) : Prop :=
  ac_ordinal st.1 = o /\ ordinal_ok o st.2 /\ Forall (fun p => ordinal_ok p.2 st.2) (_notified st.1).
Context (own : Z).
Abbreviation agree := (agrees (ordinals_ok own)).
Abbreviation keeps := (preserves (ordinals_ok own)).

Lemma ordinal_ok_more (o : Z) (t t' : trx_state) : trace_count t <= trace_count t' -> ordinal_ok o t -> ordinal_ok o t'.
Proof. unfold ordinal_ok. lia. Qed.

Lemma ordinals_ok_more (c : apply_context) (t t' : trx_state) : trace_count t <= trace_count t' -> ordinals_ok own (c, t) -> ordinals_ok own (c, t').
Proof.
  intros Ht (H0' & H1' & H2'). split; [done|]. split; [by eapply ordinal_ok_more|]. eapply Forall_impl; [exact H2'|]. intros p. by apply ordinal_ok_more.
Qed.

(** *** What leaves the ordinals in order *)
Definition more_traces {A} (m : M trx_state A) : Prop := forall t, trace_count t <= trace_count (m t).1.

Lemma keeps_in_trx {A} (m : M trx_state A) : more_traces m -> keeps (in_trx m).
Proof. intros Hm [c t] Hs. specialize (Hm t). unfold in_trx. destruct (m t) as [t' r]. simpl in *. by eapply ordinals_ok_more. Qed.
Lemma keeps_context : keeps context.
Proof. by intros [c t]. Qed.
Lemma keeps_chain_of : keeps chain_of.
Proof. by intros [c t]. Qed.
Lemma keeps_update (g : apply_context -> apply_context) :
  (forall c, ac_ordinal (g c) = ac_ordinal c /\ _notified (g c) = _notified c) -> keeps (update_context g).
Proof. intros Hg [c t] (H0' & H1' & H2'). destruct (Hg c) as [E1 E2]. split_and!; simpl in *; by rewrite ?E1, ?E2. Qed.

Lemma more_get_trace (o : Z) : more_traces (get_action_trace o).
Proof.
  intros t. unfold get_action_trace. rewrite get_bind, check_bind. destruct (_ && _); simpl; [|lia]. by destruct (_ !! _).
Qed.
Lemma more_update (f : trx_state -> trx_state) : (forall t, trace_count t <= trace_count (f t)) -> more_traces (update f).
Proof. intros Hf t. apply Hf. Qed.
Lemma more_bind {A B} (m : M trx_state A) (k : A -> M trx_state B) : more_traces m -> (forall a, more_traces (k a)) -> more_traces (m ≫= k).
Proof.
  intros Hm Hk t. specialize (Hm t). rewrite bind_eq. destruct (m t) as [t1 [a|e]]; [|done]. specialize (Hk a t1). simpl in *. lia.
Qed.
Lemma more_modify_trace (o : Z) (g : action_trace -> action_trace) : more_traces (modify_trace o g).
Proof.
  apply more_bind; [apply more_get_trace|]. intros _. apply more_update. intros t. unfold trace_count. simpl. by rewrite length_alter.
Qed.
Lemma more_schedule (a : action) (n : account_name) (cf : bool) (x y : Z) : more_traces (schedule_new_action a n cf x y).
Proof. intros t. unfold schedule_new_action. simpl. unfold trace_count. simpl. rewrite length_app. lia. Qed.
Lemma more_add_net (n : Z) : more_traces (add_net_usage n).
Proof. intros t. unfold add_net_usage. rewrite get_bind. by destruct (explicit_net_usage t). Qed.

(** The new ordinal is in order. *)
Lemma scheduled_ok (a : action) (n : account_name) (cf : bool) (x y o : Z) (t t' : trx_state) :
  schedule_new_action a n cf x y t = (t', Ok o) -> ordinal_ok o t'.
Proof.
  intros [-> ->]%schedule_new_spec. unfold ordinal_ok, trace_count. simpl. rewrite length_app. simpl.
  assert (Hf : fits 32 (u32 (Z.of_nat (length (action_traces t)) + 1))) by (apply wrap_fits; lia). unfold fits in Hf.
  assert (Hle : u32 (Z.of_nat (length (action_traces t)) + 1) <= Z.of_nat (length (action_traces t)) + 1).
  { unfold wrap. apply Z.mod_le; lia. }
  lia.
Qed.

Ltac keep :=
  repeat (cbv zeta; match goal with
  | |- preserves _ (_ ≫= _) => apply preserves_bind; [|intros ?]
  | |- preserves _ (mret _) => apply preserves_ret
  | |- preserves _ (lift _) => apply preserves_lift
  | |- preserves _ (check _ _) => apply preserves_lift
  | |- preserves _ (throw _) => apply preserves_throw
  | |- preserves _ context => apply keeps_context
  | |- preserves _ chain_of => apply keeps_chain_of
  | |- preserves _ (set_chain_to _) => apply keeps_in_trx; by intros ?
  | |- preserves _ (in_trx (get_action_trace _)) => apply keeps_in_trx, more_get_trace
  | |- preserves _ (in_trx (modify_trace _ _)) => apply keeps_in_trx, more_modify_trace
  | |- preserves _ (in_trx (schedule_new_action _ _ _ _ _)) => apply keeps_in_trx, more_schedule
  | |- preserves _ (in_trx (add_net_usage _)) => apply keeps_in_trx, more_add_net
  | |- preserves _ (update_context _) => by apply keeps_update
  | |- preserves _ (let '(_, _) := ?x in _) => destruct x
  | |- preserves _ (if ?b then _ else _) => destruct b
  | |- preserves _ (match ?x with _ => _ end) => destruct x
  end).

Lemma keeps_refresh : keeps refresh_act.
Proof. unfold refresh_act. keep. Qed.
Lemma keeps_schedule_inline (a : action) (n : account_name) (cf : bool) : keeps (schedule_inline a n cf).
Proof. unfold schedule_inline. keep. apply keeps_refresh. Qed.
Lemma keeps_modify_account (n : account_name) (g : account_metadata_object -> account_metadata_object) : keeps (modify_account n g).
Proof. unfold modify_account. keep. Qed.
Lemma keeps_write_parameters (g : parameters -> result parameters) : keeps (write_parameters g).
Proof. unfold write_parameters. keep. Qed.
Lemma keeps_read_parameters (g : parameters -> result (Z * list Z)) : keeps (read_parameters g).
Proof. unfold read_parameters. keep. Qed.
Lemma keeps_get_sender : keeps get_sender.
Proof. unfold get_sender. keep. Qed.

Lemma keeps_require_recipient (n : account_name) : keeps (require_recipient n).
Proof.
  intros [c t] Hs. unfold require_recipient, schedule_notification, schedule_same_action.
  unfold mbind, M_bind, context, mret, M_ret, in_trx, update_context. cbv beta iota.
  destruct (has_recipient c n); [done|]. pose proof (more_get_trace (ac_ordinal c) t) as Hg.
  destruct (get_action_trace (ac_ordinal c) t) as [t1 [tr|e]]; [|by eapply ordinals_ok_more].
  destruct (schedule_new_action _ _ _ _ _ t1) as [t2 [o|e]] eqn:Es; [|by injection Es].
  pose proof (more_schedule (tr_act tr) n false (ac_ordinal c) (first_receiver_action_ordinal c) t1) as Hm. rewrite Es in Hm.
  simpl in *. pose proof (scheduled_ok _ _ _ _ _ _ _ _ Es) as Ho.
  assert (Hs2 : ordinals_ok own (c, t2)) by (eapply ordinals_ok_more; [|exact Hs]; lia).
  pose proof (keeps_refresh (c, t2) Hs2) as Hr.
  destruct (refresh_act (c, t2)) as [[c3 t3] [u|e]] eqn:Er; [|exact Hr]. apply refresh_spec in Er as [x [= -> ->]]. simpl in *.
  destruct Hr as (R0 & R1 & R2). split_and!; simpl in *; [done|done|]. apply Forall_app. split; [done|]. by constructor.
Qed.

(** *** Inline actions *)

(** Two results that differ in what the producer does not pass on. *)
Lemma agrees_lift_bind {A A' B} (r : result A) (r' : result A') (k : A -> Act B) (k' : A' -> Act B) :
  same_outcome r r' -> (forall a a', r = Ok a -> r' = Ok a' -> agree (k a) (k' a')) -> agree (lift r ≫= k) (lift r' ≫= k').
Proof.
  intros Hr Hk st Hs. rewrite !lift_bind. destruct r as [a|e], r' as [a'|e']; simpl in Hr; try done.
  - by apply (Hk a a').
  - subst. split; [done|]. right. by eexists.
Qed.

Lemma not_inherited (s : chain) (enf : bool) (auths0 : list permission_level) (auths : list permission_level) (l l' : list account_name)
    (x y : gset permission_level) :
  foldM (check_inline_auth s enf false auths0) (l, x) auths = Ok (l', y) -> y = x.
Proof.
  revert l x. induction auths as [|p auths IH]; intros l x; simpl; [by intros [= _ <-]|].
  intros E. apply bind_ok_inv in E as ([l1 x1] & E1 & E2). apply IH in E2 as ->.
  unfold check_inline_auth in E1. by bind_ok_pairs.
Qed.

Lemma check_actor_list_subjective (conf : node_lists) (l : list account_name) (e : exn) : check_actor_list conf l = Throw e -> subjective e.
Proof. unfold check_actor_list. repeat case_match; unfold dcd_assert; repeat case_match; try done; by intros [= <-]. Qed.

Lemma relaxes_inline_size (c : apply_context) (s : chain) (a : action) : relaxes (check_inline_size env c s a) (check_inline_size val c s a).
Proof.
  unfold check_inline_size. simpl. rewrite andb_false_r. destruct (_ && _); [|done]. apply relaxes_skip.
  unfold dcd_assert. intros e. case_match; [done|]. by intros [= <-].
Qed.

Lemma relaxes_inline_authorization (c : apply_context) (s : chain) (a : action) (x y : gset permission_level) :
  x = y \/ te_features env restrict_action_to_self = false /\ act_account a = ac_receiver c ->
  relaxes (check_inline_authorization env c s a x) (check_inline_authorization val c s a y).
Proof.
  intros Hxy. unfold check_inline_authorization. cbn [te_features te_light te_producing te_time te_published validating].
  destruct (_ && _); [|done].
  assert (Hc : forall z, check_authorization (control_of val s) (auth_db s) [a] [] {[mk_level (ac_receiver c) dcd_code_name]}
      (te_time env - te_published env) false z =
    check_authorization (control_of env s) (auth_db s) [a] [] {[mk_level (ac_receiver c) dcd_code_name]}
      (te_time env - te_published env) false z) by reflexivity.
  rewrite !Hc. destruct Hxy as [<-|[-> E]].
  - destruct (check_authorization _ _ _ _ _ _ _ _) as [|e]; [done|]. destruct (_ || _); [by right|]. destruct (te_producing env); [by left|done].
  - rewrite E, Z.eqb_refl. simpl. destruct (check_authorization _ _ _ _ _ _ _ x), (check_authorization _ _ _ _ _ _ _ y);
      simpl; try done; destruct (te_producing env); simpl; (done || by left).
Qed.

Ltac agree_step :=
  match goal with
  | |- agrees _ ?m ?m => apply agrees_same; keep
  | |- agrees _ (_ ≫= _) _ => apply agrees_bind; [|intros ?]
  | |- agrees _ (let '(_, _) := ?x in _) _ => destruct x
  end.

Lemma agrees_execute_inline (a : action) : agree (execute_inline env a) (execute_inline val a).
Proof.
  unfold execute_inline. cbn [te_features te_producing te_lists validating]. rewrite !andb_false_r.
  agree_step; [agree_step|]. rename a0 into c. agree_step; [agree_step|]. rename a0 into s. agree_step; [agree_step|].
  set (inherit := negb (te_features env restrict_action_to_self) && _ && _ && _).
  apply agrees_lift_bind.
  { apply foldM_same_outcome. intros b b' l. unfold check_inline_auth.
    destruct (dcd_assert _ _); simpl; [|done]. destruct (find_permission _ _); simpl; [|done]. by destruct (dcd_assert _ _). }
  intros [actors x] [actors' y] E E'. rewrite andb_false_r in E'. apply not_inherited in E' as ->. apply agrees_bind.
  { apply agrees_skip. intros e. apply check_actor_list_subjective. }
  intros _. apply agrees_bind; [apply agrees_lift, relaxes_inline_size|]. intros _. apply agrees_bind.
  { apply agrees_lift, relaxes_inline_authorization. destruct inherit eqn:Ei; [right|left; by eapply not_inherited].
    unfold inherit in Ei. rewrite !andb_true_iff, negb_true_iff in Ei. destruct Ei as [[[E1 E2] _] _]. split; [done|lia]. }
  intros _. apply agrees_same. apply preserves_bind; [apply keeps_schedule_inline|]. intros o. keep.
Qed.

Lemma agrees_execute_context_free_inline (a : action) :
  agree (execute_context_free_inline env a) (execute_context_free_inline val a).
Proof.
  unfold execute_context_free_inline. do 4 (agree_step; [agree_step|]).
  agree_step; [apply agrees_lift, relaxes_inline_size|]. apply agrees_same. apply preserves_bind; [apply keeps_schedule_inline|]. intros o. keep.
Qed.

(** *** Deferred transactions *)

(** Both return, with related values, or throw the same exception. *)
Definition related {A B} (R : A -> B -> Prop) (x : result A) (y : result B) : Prop :=
  match x, y with
  | Ok a, Ok b => R a b
  | Throw e, Throw e' => e = e'
  | _, _ => False
  end.

Lemma foldM_related {A B C} (R : B -> C -> Prop) (f : B -> A -> result B) (g : C -> A -> result C) (b : B) (c : C) (l : list A) :
  (forall b c a, R b c -> related R (f b a) (g c a)) -> R b c -> related R (foldM f b l) (foldM g c l).
Proof.
  intros Hfg. revert b c. induction l as [|a l IH]; intros b c Hr; simpl; [done|]. specialize (Hfg b c a Hr).
  destruct (f b a), (g c a); try done. by apply IH.
Qed.

Lemma relaxes_referenced_accounts (s : chain) (trx : transaction) (b : bool) :
  relaxes (validate_referenced_accounts env s trx b) (validate_referenced_accounts val s trx false).
Proof.
  unfold validate_referenced_accounts. cbn [te_light te_lists validating]. apply relaxes_bind; [apply relaxes_refl|]. intros _.
  set (f := fun (st : list account_name * bool) (a : action) => _). set (g := fun (st : list account_name * bool) (a : action) => _).
  assert (Hr : related (fun x y => x.2 = y.2) (foldM f ([], false) (actions trx)) (foldM g ([], false) (actions trx))).
  { apply foldM_related; [|done]. intros x y a Hxy. unfold f, g. destruct (dcd_assert _ _); simpl; [|done].
    apply foldM_related; [|done]. intros x' y' l Hxy'. unfold check_action_auth. destruct (dcd_assert _ _); simpl; [|done].
    destruct (find_permission _ _); simpl; [|done]. by destruct (dcd_assert _ _). }
  destruct (foldM f _ _) as [[l o]|e], (foldM g _ _) as [[l' o']|e']; simpl in *; try done; [|by subst; right]. subst o'.
  destruct (dcd_assert o tx_no_auths); simpl; [|by right]. destruct b; [|done]. apply relaxes_skip, check_actor_list_subjective.
Qed.

Lemma relaxes_deferred_authorization (c : apply_context) (s : chain) (p : account_name) (trx : transaction) :
  relaxes (check_deferred_authorization env c s p trx) (check_deferred_authorization val c s p trx).
Proof.
  unfold check_deferred_authorization. cbn [te_light te_features te_producing validating]. destruct (_ && _); [|done].
  apply relaxes_bind; [apply relaxes_refl|]. intros _.
  assert (Hc : check_authorization (control_of val s) (auth_db s) (actions trx) [] {[mk_level (ac_receiver c) dcd_code_name]}
      (delay_sec trx * 1000000) false ∅ =
    check_authorization (control_of env s) (auth_db s) (actions trx) [] {[mk_level (ac_receiver c) dcd_code_name]}
      (delay_sec trx * 1000000) false ∅) by reflexivity.
  rewrite Hc. destruct (check_authorization _ _ _ _ _ _ _ _); [done|]. destruct (_ || _); [by right|]. destruct (te_producing env); [by left|done].
Qed.

Lemma relaxes_file_deferred (c : apply_context) (s : chain) (sid p : Z) (trx : transaction) (b : bool) :
  relaxes (file_deferred env c s sid p trx b) (file_deferred val c s sid p trx b).
Proof.
  unfold file_deferred. cbn [te_features te_producing all_subjective_mitigations_disabled validating].
  destruct (db_find_by _ _ _); [|apply relaxes_refl]. apply relaxes_bind; [apply relaxes_refl|]. intros _.
  apply relaxes_bind; [|intros _; apply relaxes_refl]. apply relaxes_assert; [done|]. intros _. by destruct (te_features env replace_deferred).
Qed.

Lemma agrees_send_deferred (i : Z) (p : account_name) (trx : transaction) (b : bool) :
  agree (schedule_deferred_transaction env i p trx b) (schedule_deferred_transaction val i p trx b).
Proof.
  unfold schedule_deferred_transaction. cbn [te_features te_producing te_lists validating ram_billing_in_notify].
  do 3 (agree_step; [agree_step|]). apply agrees_bind; [|intros _].
  { rewrite andb_false_r. cbn [andb]. apply agrees_lift, relaxes_referenced_accounts. }
  agree_step; [apply agrees_lift, relaxes_refl|]. agree_step; [agree_step|]. agree_step; [apply agrees_lift, relaxes_deferred_authorization|].
  agree_step; [apply agrees_lift, relaxes_file_deferred|]. agree_step; [agree_step|].
  apply agrees_lift, relaxes_assert; [done|]. intros _. by rewrite orb_true_r.
Qed.

(** *** Programs *)
Lemma agrees_in_tables (w : write) : agree (in_tables env (fun e => perform e w)) (in_tables val (fun e => perform e w)).
Proof.
  intros [c t] Hs. unfold in_tables. cbv beta iota.
  destruct (agrees_perform (table_env env c) (table_env val c) eq_refl eq_refl eq_refl eq_refl eq_refl w
              (mk_contract_db (contract_tables (contracts (ts_chain t))) (contract_objects (contracts (ts_chain t))) (ac_stores c)) I) as [_ Hp].
  destruct (perform (table_env env c) w _) as [d [x|e]].
  - rewrite Hp. done.
  - split; [done|]. destruct Hp as [Hp|[d' ->]]; [by left|right; by eexists].
Qed.

Lemma keeps_read (r : read) : keeps (in_tables env (fun _ => observe r)).
Proof. intros [c t] Hs. unfold in_tables. by destruct (observe _ _). Qed.

Lemma agrees_send (run run' : action -> Act unit) (d : list Z) : (forall a, agree (run a) (run' a)) -> agree (send run d) (send run' d).
Proof. intros Hr. unfold send. do 3 (agree_step; [agree_step|]). apply Hr. Qed.

Lemma agrees_propose (l : list producer_authority) (b : bool) :
  agree (set_proposed_producers_common env l b) (set_proposed_producers_common val l b).
Proof using Hstage.
  unfold set_proposed_producers_common. cbn [te_head te_stage te_features validating]. do 3 (agree_step; [agree_step|]).
  rewrite (proj2 Hstage). agree_step.
Qed.

Lemma agrees_propose_ex (f : Z) (d : list Z) : agree (propose_ex env f d) (propose_ex val f d).
Proof using Hstage.
  unfold propose_ex, propose_legacy. destruct (f =? 0); [|destruct (f =? 1); [|agree_step]]; (agree_step; [agree_step|apply agrees_propose]).
Qed.

Lemma agrees_host (h : host_call) : agree (host env h) (host val h).
Proof using Hstage.
  unfold host, context_aware_check, privileged_check. destruct h;
    repeat first
      [ apply agrees_send_deferred | apply agrees_in_tables | apply agrees_propose_ex | apply (agrees_propose_ex 0)
      | apply agrees_send; intros ?; first [apply agrees_execute_inline | apply agrees_execute_context_free_inline]
      | apply agrees_same;
        repeat first [ apply keeps_require_recipient | apply keeps_get_sender | apply keeps_modify_account | apply keeps_read
                     | apply keeps_write_parameters | apply keeps_read_parameters
                     | progress keep ]; done
      | agree_step ].
Qed.

Lemma agrees_program (p : program) : agree (run_program env p) (run_program val p).
Proof using Hstage.
  induction p as [| |e|h k IH]; simpl; [agree_step..|]. apply agrees_bind; [apply agrees_host|exact IH].
Qed.

(** *** Native actions *)
Lemma relaxes_precondition (s : chain) (db : database) (a : authority) :
  relaxes (validate_authority_precondition (control_of env s) db a) (validate_authority_precondition (control_of val s) db a).
Proof.
  unfold validate_authority_precondition. apply relaxes_bind; [apply relaxes_refl|]. intros _.
  cbn [checks_key_list control_of te_producing validating]. rewrite andb_false_r. destruct (_ && _); [|done]. apply relaxes_skip. intros e.
  assert (Hf : forall l x, foldM (fun (_ : unit) k => check_key_list (control_of env s) (kw_key k)) x l = Throw e -> subjective e).
  { induction l as [|k l IH]; intros x; simpl; [done|]. unfold check_key_list, dcd_assert. case_match; simpl; [apply IH|]. by intros [= <-]. }
  apply Hf.
Qed.

Lemma relaxes_newaccount (s : chain) (db : database) (auths : list permission_level) (d : newaccount) :
  relaxes (apply_dcd_newaccount (control_of env s) db auths d) (apply_dcd_newaccount (control_of val s) db auths d).
Proof.
  unfold apply_dcd_newaccount. do 9 (apply relaxes_bind; [apply relaxes_refl|intros ?]).
  do 2 (apply relaxes_bind; [apply relaxes_precondition|intros ?]). apply relaxes_refl.
Qed.

Lemma relaxes_updateauth (s : chain) (db : database) (auths : list permission_level) (d : updateauth) :
  relaxes (apply_dcd_updateauth (control_of env s) db auths d) (apply_dcd_updateauth (control_of val s) db auths d).
Proof.
  unfold apply_dcd_updateauth. do 6 (apply relaxes_bind; [apply relaxes_refl|intros ?]).
  apply relaxes_bind; [apply relaxes_precondition|intros ?]. apply relaxes_refl.
Qed.

Lemma relaxes_setrate (g : global_property_object) (auths : list permission_level) (r : Z) :
  relaxes (apply_dcd_setrate env g auths r) (apply_dcd_setrate val g auths r).
Proof using Hstage.
  unfold apply_dcd_setrate. cbn [te_head te_stage validating]. rewrite (proj1 Hstage). apply relaxes_refl.
Qed.

Definition relaxes_option {A} (r r' : option (result A)) : Prop :=
  match r, r' with
  | Some r, Some r' => relaxes r r'
  | None, None => True
  | _, _ => False
  end.

Lemma relaxes_native (s : chain) (n : account_name) (a : action) :
  relaxes_option (find_apply_handler env s n a) (find_apply_handler val s n a).
Proof using Hstage.
  unfold find_apply_handler, apply_native. cbv zeta. destruct (_ && _); [|done].
  destruct (act_name a =? newaccount_name); [apply relaxes_bind; [apply relaxes_refl|intros d]; apply relaxes_bind;
    [apply relaxes_newaccount|intros db; apply relaxes_refl]|].
  destruct (act_name a =? setcode_name); [apply relaxes_refl|]. destruct (act_name a =? setabi_name); [apply relaxes_refl|].
  destruct (act_name a =? updateauth_name); [apply relaxes_bind; [apply relaxes_refl|intros d]; apply relaxes_bind;
    [apply relaxes_updateauth|intros db; apply relaxes_refl]|].
  do 4 (case_match; [apply relaxes_refl|]).
  destruct (act_name a =? setrate_name); [apply relaxes_bind; [apply relaxes_refl|intros d]; apply relaxes_bind;
    [apply relaxes_setrate|intros g; apply relaxes_refl]|].
  case_match; [apply relaxes_refl|done].
Qed.

Lemma check_lists_subjective (c : apply_context) (e : exn) : check_lists env c = Throw e -> subjective e.
Proof.
  unfold check_lists, check_contract_list, check_action_list. intros E. repeat (case_match; simplify_eq/=; try done);
    unfold dcd_assert in *; repeat (case_match; simplify_eq/=; try done).
Qed.

Lemma relaxes_lists (c : apply_context) : relaxes (check_lists env c) (check_lists val c).
Proof.
  unfold check_lists at 2. cbn [te_producing validating enforce_whiteblacklist]. rewrite andb_false_r. apply relaxes_skip.
  intros e. apply check_lists_subjective.
Qed.

Lemma agrees_run_native : agree (run_native env) (run_native val).
Proof using Hstage.
  unfold run_native. agree_step; [agree_step|]. rename a into c. agree_step; [agree_step|]. rename a into s.
  pose proof (relaxes_native s (ac_receiver c) (act c)) as Hn.
  destruct (find_apply_handler env _ _ _) as [r|], (find_apply_handler val _ _ _) as [r'|]; try done.
  agree_step; [apply agrees_lift, relaxes_lists|]. agree_step; [by apply agrees_lift|]. agree_step.
Qed.

(** *** Running one action *)
Lemma agrees_apply : agree (apply_action env) (apply_action val).
Proof using Hstage.
  unfold apply_action. cbn [te_light validating]. agree_step; [agree_step|]. rename a into c.
  assert (Hr : keeps receiver_account) by (unfold receiver_account; keep).
  agree_step; [by apply agrees_same|]. destruct (_ && _); [agree_step|]. agree_step; [agree_step|].
  agree_step; [apply agrees_run_native|]. agree_step; [by apply agrees_same|].
  change (runs_code val c a2) with (runs_code env c a2). destruct (runs_code env c a2); [|agree_step].
  agree_step; [apply agrees_lift, relaxes_lists|]. unfold run_code. do 3 (agree_step; [agree_step|]). apply agrees_program.
Qed.

Lemma keeps_modify_receipt (g : action_receipt -> action_receipt) : keeps (modify_receipt g).
Proof. unfold modify_receipt. keep. Qed.

Lemma preserves_for_each {A} (g : A -> Act unit) (l : list A) : (forall a, keeps (g a)) -> keeps (for_each g l).
Proof. intros Hg. induction l as [|a l IH]; cbn [for_each]; [apply preserves_ret|]. by apply preserves_bind. Qed.

Lemma keeps_write_receipt (d : digest) : keeps (write_receipt d).
Proof.
  unfold write_receipt, next_global_sequence, next_recv_sequence, next_auth_sequence.
  repeat first [apply keeps_modify_account | apply keeps_modify_receipt | apply preserves_for_each; intros ? | progress keep].
Qed.

(** What comes after the action itself, which needs the trace of the action. *)
Definition close_action (d : digest) : Act unit :=
  _ ← write_receipt d;
  c ← context;
  tr ← in_trx (get_action_trace (ac_ordinal c));
  match tr_receipt tr with
  | Some r => in_trx (update (fun t => set_digests (executed_action_receipt_digests t ++ [action_receipt_digest r]) t))
  | None => throw undefined_behaviour
  end.

Lemma no_trace (o : Z) (t : trx_state) : o = 0 -> get_action_trace o t = (t, Throw transaction_exception).
Proof. intros ->. reflexivity. Qed.

Lemma close_action_zero (d : digest) (c : apply_context) (t : trx_state) :
  ac_ordinal c = 0 -> close_action d (c, t) = ((c, t), Throw transaction_exception).
Proof.
  intros Hc. unfold close_action, write_receipt. rewrite !bind_eq. unfold context at 1. cbv beta iota. rewrite bind_eq.
  unfold in_trx at 1. unfold modify_trace. rewrite bind_eq, (no_trace _ _ Hc). reflexivity.
Qed.

Lemma keeps_close (d : digest) : keeps (close_action d).
Proof.
  unfold close_action. apply preserves_bind; [apply keeps_write_receipt|]. intros _. keep. apply keeps_in_trx. by intros t.
Qed.

Definition run_action (e : @trx_env T) : Act digest :=
  _ ← update_context (set_value []); _ ← apply_action e; current_digest e.

Lemma exec_one_eq (e : @trx_env T) (st : state) :
  exec_one e st =
  match run_action e st with
  | (st1, Ok d) => close_action d st1
  | ((c, t), Throw x) =>
      match modify_trace (ac_ordinal c) (set_except (Some x)) t with
      | (t', Ok _) => ((c, t'), Throw x)
      | (t', Throw y) => ((c, t'), Throw y)
      end
  end.
Proof.
  unfold exec_one, handle_exception. fold (run_action e). rewrite bind_eq. unfold catch at 1. destruct (run_action e st) as [[c t] [d|x]]; [done|].
  rewrite bind_eq. unfold context. cbv beta iota. rewrite bind_eq. unfold in_trx. cbv beta iota.
  by destruct (modify_trace _ _ t) as [t' [u|y]].
Qed.

Lemma agrees_run_action : agree (run_action env) (run_action val).
Proof using Hstage.
  unfold run_action. agree_step; [agree_step|]. agree_step; [apply agrees_apply|].
  change (current_digest val) with (current_digest env). unfold current_digest. agree_step.
Qed.

End actions.

Section executions.
Context {T : Type} `{ActionData} `{Code} `{Engine} `{TransactionData}.
Context (stage : block_stage_type T) (lists : node_lists) (keys : gset public_key) (size : Z) (unmitigated enforce : bool).
Context (env : @trx_env T) (Hstage : same_proposals (te_head env) (te_stage env) stage).
Abbreviation val := (validating stage lists keys size unmitigated enforce env).
Abbreviation state := (apply_context * trx_state)%type.

Lemma keeps_run_action (e : @trx_env T) (own : Z) : preserves (ordinals_ok own) (run_action e).
Proof. intros st Hs. by eapply (agrees_run_action (te_stage e) (te_lists e) ∅ 0 false false e (conj (fun _ _ => eq_refl) (fun _ _ _ => eq_refl))). Qed.

Lemma handled (c : apply_context) (t : trx_state) (x : exn) (own : Z) :
  ordinals_ok own (c, t) ->
  exists t', match modify_trace (ac_ordinal c) (set_except (Some x)) t with
    | (t', Ok _) => ((c, t'), Throw (A := unit) x)
    | (t', Throw y) => ((c, t'), Throw y)
    end = ((c, t'), Throw (if own =? 0 then transaction_exception else x)) /\ trace_count t <= trace_count t'.
Proof.
  intros (Ho & Hok & _). simpl in *. unfold modify_trace. rewrite bind_eq. destruct (Z.eqb_spec own 0) as [->|Hne].
  - rewrite Ho. exists t. done.
  - destruct Hok as [|Hok]; [done|]. unfold get_action_trace. rewrite get_bind, check_bind, Ho. unfold trace_count in Hok.
    rewrite (proj2 (Z.ltb_lt _ _)), (proj2 (Z.leb_le _ _)) by lia. cbn [andb].
    destruct (lookup_lt_is_Some_2 (action_traces t) (Z.to_nat (own - 1))) as [tr ->]; [lia|]. eexists. split; [done|].
    unfold trace_count. simpl. rewrite length_alter. lia.
Qed.

Lemma agrees_exec_one (own : Z) : agrees (ordinals_ok own) (exec_one env) (exec_one val).
Proof using Hstage.
  intros st Hs. rewrite !exec_one_eq. destruct (agrees_run_action stage lists keys size unmitigated enforce env Hstage own st Hs) as [Hp E].
  pose proof (keeps_run_action val own st Hs) as Hp'. destruct (run_action env st) as [[c1 t1] [d|x]].
  - rewrite E. split; [by apply keeps_close|]. destruct (close_action d (c1, t1)) as [st2 [u|e]]; [done|right; by eexists].
  - simpl in Hp. destruct (handled c1 t1 x own Hp) as (t1' & -> & Ht). split; [by eapply ordinals_ok_more|].
    destruct (Z.eqb_spec own 0) as [->|Hne].
    + right. destruct (run_action val st) as [[c2 t2] [d|y]]; simpl in Hp'.
      * exists (c2, t2). apply close_action_zero. apply Hp'.
      * destruct (handled c2 t2 y 0 Hp') as (t2' & -> & _). by eexists.
    + destruct E as [E|[[c2 t2] E]]; [by left|]. right. rewrite E in *. simpl in Hp'.
      destruct (handled c2 t2 x own Hp') as (t2' & -> & _). rewrite (proj2 (Z.eqb_neq _ _) Hne). by eexists.
Qed.

(** *** Notifications and inline actions *)
Definition in_order (st : state) : Prop := ordinals_ok (ac_ordinal st.1) st.

Lemma agrees_exec_one_in_order : agrees in_order (exec_one env) (exec_one val).
Proof using Hstage.
  intros st Hs. destruct (agrees_exec_one (ac_ordinal st.1) st Hs) as [Hp E]. split; [|done].
  unfold in_order. pose proof Hp as [Ho _]. by rewrite Ho.
Qed.

Lemma notify_loop_eq (e : @trx_env T) (fuel i : nat) (c : apply_context) (t : trx_state) :
  notify_loop e (S fuel) i (c, t) =
  match _notified c !! i with
  | None => Some ((c, t), Ok tt)
  | Some (n, o) => (_ ← now (exec_one e); notify_loop e fuel (S i)) (set_running n o c, t)
  end.
Proof. cbn [notify_loop]. unfold mbind at 1, F_bind at 1, now at 1, context. by destruct (_notified c !! i) as [[n o]|]. Qed.

Lemma agrees_notify_loop (fuel i : nat) : agrees_fuel in_order (notify_loop env fuel i) (notify_loop val fuel i).
Proof using Hstage.
  revert i. induction fuel as [|fuel IH]; intros i; [done|]. intros [c t] Hs. rewrite !notify_loop_eq.
  destruct (_notified c !! i) as [[n o]|] eqn:En; [|done].
  apply (agrees_fuel_bind in_order (now (exec_one env)) (now (exec_one val)) _ _ (agrees_now _ _ _ agrees_exec_one_in_order) (fun _ => IH (S i))).
  destruct Hs as (H0' & H1' & H2'). split_and!; simpl in *; [done| |done]. by apply (Forall_lookup_1 _ _ _ _ H2' En).
Qed.

Lemma agrees_exec_notified (fuel : nat) (o depth : Z) (tr : action_trace) (t : trx_state) :
  0 < o <= trace_count t ->
  match exec_notified env fuel (new_context o depth tr, t) with
  | Some (st, Ok l) => exec_notified val fuel (new_context o depth tr, t) = Some (st, Ok l)
  | Some (_, Throw e) => subjective e \/ exists st, exec_notified val fuel (new_context o depth tr, t) = Some (st, Throw e)
  | None => exec_notified val fuel (new_context o depth tr, t) = None
  end.
Proof using Hstage.
  intros Ho. set (c0 := set_lists [(ac_receiver (new_context o depth tr), ac_ordinal (new_context o depth tr))] [] [] (new_context o depth tr)).
  assert (Hin : in_order (c0, t)).
  { split_and!; simpl; [done|by right|]. constructor; [by right|done]. }
  set (rest := c ← now context; s ← now chain_of;
    _ ← now (when ((0 <? length (_cfa_inline_actions c)) || (0 <? length (_inline_actions c)))%nat
             (check (recurse_depth c <? max_inline_action_depth (chain_cfg s)) transaction_exception));
    mret (_cfa_inline_actions c ++ _inline_actions c)).
  assert (Hb : forall e : @trx_env T, exec_notified e fuel (new_context o depth tr, t) = (_ ← now (exec_one e); _ ← notify_loop e fuel 1; rest) (c0, t))
    by reflexivity.
  rewrite !Hb. assert (Hrest : agrees_fuel in_order rest rest).
  { intros [c t'] Hs. unfold rest, mbind, F_bind, now, context, chain_of, when, check, lift, mret, F_ret. cbv beta iota.
    destruct (_ || _); [|done]. destruct (dcd_assert _ _); [done|right; by eexists]. }
  pose proof (agrees_fuel_bind in_order _ _ (fun _ => _ ← notify_loop env fuel 1; rest) (fun _ => _ ← notify_loop val fuel 1; rest)
    (agrees_now _ _ _ agrees_exec_one_in_order)
    (fun _ => agrees_fuel_bind in_order _ _ _ _ (agrees_notify_loop fuel 1) (fun _ => Hrest)) (c0, t) Hin) as Hg.
  destruct ((_ ← now (exec_one env); _) (c0, t)) as [[st [l|x]]|]; [by destruct Hg|done|done].
Qed.

Lemma execute_action_eq (e : @trx_env T) (fuel : nat) (o depth : Z) (t : trx_state) :
  execute_action e (S fuel) o depth t =
  match get_action_trace o t with
  | (t1, Ok tr) =>
      match exec_notified e fuel (new_context o depth tr, t1) with
      | Some ((_, t2), Ok l) => each (fun o => execute_action e fuel o (depth + 1)) l t2
      | Some ((_, t2), Throw x) => Some (t2, Throw x)
      | None => None
      end
  | (t1, Throw x) => Some (t1, Throw x)
  end.
Proof.
  cbn [execute_action]. unfold mbind, F_bind, now, in_context. destruct (get_action_trace o t) as [t1 [tr|x]]; [|done].
  by destruct (exec_notified e fuel _) as [[[c2 t2] [l|x]]|].
Qed.

Lemma agrees_execute_action (fuel : nat) (o depth : Z) :
  agrees_fuel (fun _ => True) (execute_action env fuel o depth) (execute_action val fuel o depth).
Proof using Hstage.
  revert o depth. induction fuel as [|fuel IH]; intros o depth; [done|]. intros t _. rewrite !execute_action_eq.
  destruct (get_action_trace o t) as [t1 [tr|e]] eqn:Eg; [|right; by eexists].
  apply get_action_trace_state in Eg as (-> & _ & Ho). pose proof (agrees_exec_notified fuel o depth tr t Ho) as Hn.
  destruct (exec_notified env fuel _) as [[[c2 t2] [l|e]]|].
  - rewrite Hn. apply (agrees_each (fun _ => True) _ _ l); [|done]. intros o'. apply IH.
  - destruct Hn as [Hn|[[c3 t3] ->]]; [by left|right; by eexists].
  - by rewrite Hn.
Qed.
End executions.

(** ** Transactions *)
Section transactions.
Context {T : Type} `{ActionData} `{Code} `{Engine} `{TransactionData}.
Context (stage : block_stage_type T) (lists : node_lists) (keys : gset public_key) (size : Z) (unmitigated enforce : bool).
Context (env : @trx_env T) (Hstage : same_proposals (te_head env) (te_stage env) stage).
Abbreviation val := (validating stage lists keys size unmitigated enforce env).
Abbreviation agree := (agrees (fun _ : transaction_context => True)).
Abbreviation agree_fuel := (agrees_fuel (fun _ : transaction_context => True)).

Lemma same_ctx {A} (m m' : M transaction_context A) : m' = m -> agree m m'.
Proof. intros ->. by apply agrees_same. Qed.

Lemma agrees_extensions (trx : transaction) : agree (check_extensions env trx) (check_extensions val trx).
Proof.
  unfold check_extensions, disallow_transaction_extensions. cbn [te_producing validating]. destruct (0 <? _)%nat; [|by apply same_ctx].
  destruct (te_producing env); [|by apply same_ctx]. intros c _. split; [done|]. by left.
Qed.

Lemma agrees_init_common (i : digest) (trx : transaction) (n : Z) (skip : bool) :
  agree (init_for_input_trx_common env i trx n skip) (init_for_input_trx_common val i trx n skip).
Proof.
  unfold init_for_input_trx_common. apply agrees_bind; [by apply same_ctx|]. intros _. apply agrees_bind; [|intros _; by apply same_ctx].
  cbn [te_light validating te_producing]. rewrite andb_false_r. unfold unless. destruct (te_light env); [by apply same_ctx|].
  apply agrees_bind; [by apply same_ctx|]. intros _. apply agrees_bind; [by apply same_ctx|]. intros _.
  apply agrees_bind; [by apply same_ctx|]. intros s. apply agrees_lift, relaxes_referenced_accounts.
Qed.

Lemma agrees_init_input (i : digest) (trx : transaction) (u p : Z) (skip : bool) :
  agree (init_for_input_trx env i trx u p skip) (init_for_input_trx val i trx u p skip).
Proof.
  unfold init_for_input_trx. apply agrees_bind; [apply agrees_extensions|]. intros _. apply agrees_bind; [by apply same_ctx|]. intros s.
  apply agrees_init_common.
Qed.

Lemma agrees_init_explicit (i : digest) (trx : transaction) (w : Z) (skip : bool) :
  agree (init_for_input_trx_with_explicit_net env i trx w skip) (init_for_input_trx_with_explicit_net val i trx w skip).
Proof.
  unfold init_for_input_trx_with_explicit_net. apply agrees_bind; [apply agrees_extensions|]. intros _.
  apply agrees_bind; [by apply same_ctx|]. intros _. apply agrees_init_common.
Qed.

Lemma agrees_init_implicit (trx : transaction) (n : Z) : agree (init_for_implicit_trx env trx n) (init_for_implicit_trx val trx n).
Proof. unfold init_for_implicit_trx. apply agrees_bind; [apply agrees_extensions|]. intros _. by apply same_ctx. Qed.

Lemma agrees_init_deferred (trx : transaction) (p : Z) : agree (init_for_deferred_trx env trx p) (init_for_deferred_trx val trx p).
Proof.
  unfold init_for_deferred_trx. apply agrees_bind; [|intros _; by apply same_ctx]. unfold when, disallow_transaction_extensions.
  cbn [te_producing validating]. destruct (_ && _); [|by apply same_ctx].
  destruct (te_producing env); [|by apply same_ctx]. intros c _. split; [done|]. by left.
Qed.

Lemma agrees_in_fuel {A} (m m' : Z -> F trx_state A) :
  (forall p, agrees_fuel (fun _ => True) (m p) (m' p)) -> agree_fuel (in_fuel m) (in_fuel m').
Proof.
  intros Hm c _. specialize (Hm (tc_published c) (tc_trx c) I). unfold in_fuel. destruct (m _ _) as [[t [a|e]]|].
  - destruct Hm as [_ ->]. done.
  - destruct Hm as [Hm|[t' ->]]; [by left|right; by eexists].
  - by rewrite Hm.
Qed.

Lemma agrees_exec (i : digest) (trx : transaction) (delay : Z) (fuel : nat) : agree_fuel (exec env i trx delay fuel) (exec val i trx delay fuel).
Proof using Hstage.
  unfold exec. apply agrees_fuel_bind; [apply agrees_now; by apply same_ctx|]. intros _.
  apply agrees_fuel_bind; [apply agrees_now; by apply same_ctx|]. intros c. apply agrees_fuel_bind.
  - apply agrees_in_fuel. intros p. apply agrees_each. intros o.
    by apply (agrees_execute_action stage lists keys size unmitigated enforce (action_env env i p)).
  - intros _. destruct (negb (delay =? 0)); [apply agrees_now; by apply same_ctx|apply agrees_fuel_ret].
Qed.

Lemma agrees_finalize (trx : transaction) : agree (finalize env trx) (finalize val trx).
Proof. by apply same_ctx. Qed.

Lemma agrees_end (i : digest) (trx : transaction) (delay : Z) (fuel : nat) :
  agree_fuel (_ ← exec env i trx delay fuel; now (finalize env trx)) (_ ← exec val i trx delay fuel; now (finalize val trx)).
Proof using Hstage.
  apply agrees_fuel_bind; [apply agrees_exec|]. intros _. apply agrees_now, agrees_finalize.
Qed.
End transactions.

Section bodies.
Context `{ActionData} `{Code} `{Engine} `{TransactionData}.
Context (stage : block_stage_type packed_transaction) (lists : node_lists) (keys : gset public_key) (size : Z) (unmitigated enforce : bool).
Context (env : @trx_env packed_transaction) (Hstage : same_proposals (te_head env) (te_stage env) stage) (fuel : nat).
Abbreviation val := (validating stage lists keys size unmitigated enforce env).
Abbreviation agree_fuel := (agrees_fuel (fun _ : transaction_context => True)).

Lemma agrees_transaction_body (implicit : bool) (words : option Z) (skip : bool) (t : packed_transaction) :
  agree_fuel (transaction_body fuel env implicit words skip t) (transaction_body fuel val implicit words skip t).
Proof using Hstage.
  unfold transaction_body. apply agrees_fuel_bind.
  - apply agrees_now. destruct implicit; [|destruct words].
    + apply agrees_bind; [by apply same_ctx|]. intros _. apply agrees_init_implicit.
    + apply agrees_init_explicit.
    + do 2 (apply agrees_bind; [by apply same_ctx|intros ?]). apply agrees_init_input.
  - intros _. apply agrees_fuel_bind; [apply agrees_now; by apply same_ctx|]. intros _. by apply agrees_end.
Qed.

Lemma agrees_deferred_body (g : generated_transaction_object) (trx : transaction) :
  agree_fuel (deferred_body fuel env g trx) (deferred_body fuel val g trx).
Proof using Hstage.
  unfold deferred_body. apply agrees_fuel_bind; [apply agrees_now, agrees_init_deferred|]. intros _.
  apply agrees_fuel_bind; [|intros _; by apply agrees_end]. apply agrees_now. cbn [te_producing te_lists validating].
  rewrite andb_false_r. apply agrees_skip. intros e. apply check_actor_list_subjective.
Qed.

Lemma agrees_onerror_body (g : generated_transaction_object) (trx : transaction) :
  agree_fuel (onerror_body fuel env g trx) (onerror_body fuel val g trx).
Proof using Hstage.
  unfold onerror_body. apply agrees_fuel_bind; [apply agrees_now, agrees_init_implicit|]. intros _.
  do 2 (apply agrees_fuel_bind; [apply agrees_now; by apply same_ctx|intros ?]).
  apply agrees_fuel_bind; [|intros _; apply agrees_now, agrees_finalize]. apply agrees_in_fuel. intros p.
  by apply (agrees_execute_action stage lists keys size unmitigated enforce (action_env env (transaction_id trx) p)).
Qed.
End bodies.
