(* ===== verification/TransactionSamples.v ===== *)
(** * Transactions: samples

    A chain with two accounts, one of which has a contract; what the contract does shows the hypotheses of the theorems
    of TransactionProofs at work, and that contracts act with the authority of anybody. *)

From S2P Require Import Prelude Effects Name Types Asset BlockTimestamp BlockHeader Authority UndoIndex Database.
From S2P Require Import AuthorizationManager SystemContract TransactionTypes Fees CodeActions PermissionState CodeReferences NodeLists.
From S2P Require Import ProtocolFeatures ContractTables ChainConfig Parameters ParameterProofs BlockHeaderState Samples.
From S2P Require Import Proposals Controller Actions ActionProofs Transactions TransactionProofs.

#[local] Existing Instance sample_code.

(** The contract of bob: it notifies alice, and changes the key of alice. *)
Definition key_change : updateauth := mk_updateauth alice config.active_name config.owner_name (key_authority 21).
Definition key_change_action : action :=
  mk_action config.system_account_name updateauth_name [mk_level alice config.active_name] [7].
Definition takeover : program :=
  p_call (hc_require_recipient alice) (fun _ => p_call (hc_send_inline [1]) (fun _ => p_return)).

#[local] Instance sample_actions : ActionData := {
  unpack_updateauth _ := Ok key_change;
  unpack_deleteauth _ := Throw unpack_error;
  unpack_linkauth _ := Throw unpack_error;
  unpack_unlinkauth _ := Throw unpack_error;
  unpack_canceldelay _ := Throw unpack_error;
  unpack_transaction _ := Throw unpack_error
}.
#[local] Instance sample_engine : Engine := {
  program_of _ _ _ _ := takeover;
  unpack_producer_keys _ := Throw out_of_range;
  unpack_producer_authorities _ := Throw out_of_range;
  key_valid _ := true;
  unpack_action _ := Ok key_change_action;
  unpack_newaccount _ := Throw unpack_error;
  unpack_setcode _ := Throw unpack_error;
  unpack_setabi _ := Throw unpack_error;
  unpack_setfee _ := Throw unpack_error;
  unpack_setrate _ := Throw unpack_error;
  action_digest _ := digest_zero;
  action_digest_with_output _ _ := digest_zero;
  action_receipt_digest r := mk_digest (ar_global_sequence r) 0 0 0
}.
#[local] Instance sample_transaction_data : TransactionData := {
  pack_transaction _ := [];
  transaction_id t := mk_digest (trx_expiration t) (ref_block_num t) 0 0;
  pack_fee_parameter _ _ := [];
  pack_block_header _ := [];
  pack_onerror _ _ := [];
  pack_generation_context _ := [];
  unpack_generation_context _ := Throw unpack_error
}.

(** ** The chain *)
Definition bob_contract := Eval vm_compute in
  from_codes (apply_dcd_setcode 2 1000 sample_db3 undo_index_empty bob_auth (install bob [0; 98])).

Definition sample_chain : chain :=
  mk_state (gpo_new digest_zero default_parameters) (mk_pso [] [] [] 2) (fst bob_contract) {[ 0 := digest_zero ]} ∅
    (mk_contract_state (snd bob_contract) undo_index_empty undo_index_empty (fun _ => undo_index_empty) 40).

Definition sample_time : Z := 1000000000000000.

Definition sample_stage : block_stage_type unit :=
  match building_new sample_state 1000 0 [] with Ok b => building b | Throw _ => completed (ForkDatabase.mk_ptr 0 sample_state) end.

Definition sample_env (time : Z) : @trx_env unit :=
  mk_trx_env sample_state sample_stage time (fun _ => true) false false (mk_lists [] [] [] [] [] []) ∅ 4096 true
    false new_fee_manager true digest_zero time.

(** Bob calls his contract; no other account authorizes anything. *)
Definition hello : action := mk_action bob transfer [mk_level bob config.active_name] [].
Definition sample_trx : transaction := mk_transaction (sample_time / 1000000 + 30) 0 0 0 0 0 [] [hello] [].
Definition sample_id : digest := mk_digest 9 9 9 9.

Definition sample_context (time : Z) (s : chain) : transaction_context :=
  fst (init_for_input_trx_common (sample_env time) sample_id sample_trx 100 false (new_trx_context s)).

Definition executed_context : transaction_context := Eval vm_compute in
  match exec (sample_env sample_time) sample_id sample_trx 0 10 (sample_context sample_time sample_chain) with
  | Some (c, Ok _) => c
  | _ => new_trx_context sample_chain
  end.
Definition finished_context : transaction_context := fst (finalize (sample_env sample_time) sample_trx executed_context).

Lemma sample_accepted :
  init_for_input_trx_common (sample_env sample_time) sample_id sample_trx 100 false (new_trx_context sample_chain) =
  (sample_context sample_time sample_chain, Ok tt).
Proof. by vm_compute. Qed.

(** ** The theorems of TransactionProofs on this chain *)
Lemma transaction_ends_witness :
  exists r, forall fuel, 2 ^ 64 + 2 ^ 16 + 2 < Z.of_nat fuel ->
    exec (sample_env sample_time) sample_id sample_trx 0 fuel (sample_context sample_time sample_chain) = Some r /\
    r = (executed_context, Ok tt).
Proof.
  destruct (transaction_ends (sample_env sample_time) sample_id sample_trx 0 (sample_context sample_time sample_chain)
              default_parameters_ok) as (r & H1 & H2).
  exists r. intros fuel Hf. split; [by apply H1|]. symmetry. apply (H2 10%nat). by vm_compute.
Defined.


(** The contract of bob, which has no authority of alice, may send the action that replaces her key as she may; and it does:
    bob calls it in a transaction that only he authorizes, and then her key is his. *)
Lemma inline_authority_ignores_sender_witness :
  let bobs := new_context 1 0 (mk_trace 1 0 0 None bob hello false None []) in
  let alices := new_context 1 0 (mk_trace 1 0 0 None alice key_change_action false None []) in
  let keys c := permission_authority (auth_db (ts_chain (tc_trx c))) (mk_level alice config.active_name) in
  check_inline_authorization (sample_env sample_time) bobs sample_chain key_change_action ∅ =
  check_inline_authorization (sample_env sample_time) alices sample_chain key_change_action ∅ /\
  map authorization (actions sample_trx) = [[mk_level bob config.active_name]] /\
  keys (sample_context sample_time sample_chain) = Ok (key_authority 11) /\ keys executed_context = Ok (key_authority 21).
Proof.
  split; [by apply inline_authority_ignores_sender|]. split; [done|]. split; by vm_compute.
Defined.
