(* ===== verification/BlockExecution.v ===== *)
(** * The execution of a block

    What [apply_block] does to the controller: it succeeds exactly when the block can be executed on the
    state of the head, and then changes the database by one session, the features
    and the reversible blocks; otherwise it leaves the controller as it was. *)

From S2P Require Import Prelude Effects Types BlockTimestamp Authority Merkle BlockHeader UndoIndex Database AuthorizationManager Whitelist ProtocolFeatures FeatureProofs BlockHeaderState ForkDatabase Proposals Controller.

(** ** The manager of features *)
Section manager.
Context `{FeatureDigests}.

Lemma threads_unique (s : protocol_feature_set) (c c' : list (nat * Z)) (lg : list (digest * Z)) :
  threads s c lg -> threads s c' lg -> c = c'.
Proof.
  unfold threads. generalize (rev lg) as l. intros l Hc. revert c'.
  induction Hc as [|[i n] [d k] c l [Hi Hn] Hc IH]; intros c' Hc'; inversion Hc' as [|[j m] ? ? ? [Hj Hm] Hc'']; [done|].
  subst. simpl in *. subst. f_equal; [congruence|]. by apply IH.
Qed.

Lemma chain_unique (l l' : list builtin_protocol_feature_entry) (h h' : option nat) (c : list (nat * Z)) :
  chain l h c -> chain l' h' c -> h = h' /\ forall i, i ∈ map fst c -> l !! i = l' !! i.
Proof.
  intros Hc. revert h'. induction Hc as [|i n p c Hi Hc IH]; intros h' Hc'; inversion Hc' as [|? ? p' ? Hi' Hc'']; subst.
  - split; [done|]. intros i Hi. by apply elem_of_nil in Hi.
  - destruct (IH _ Hc'') as [-> Heq]. split; [done|]. simpl. intros j [->|Hj]%elem_of_cons; [congruence|by apply Heq].
Qed.

(** The log and the set determine the manager. *)
Lemma pfm_unique (m m' : protocol_feature_manager) (lg : list (digest * Z)) :
  pfm_ok m lg -> pfm_ok m' lg -> _protocol_feature_set m' = _protocol_feature_set m -> m' = m.
Proof.
  intros [_ Hl Hi Hn _ _ (c & Hc & _ & Hin & Ht)] [_ Hl' Hi' Hn' _ _ (c' & Hc' & _ & Hin' & Ht')] Hs.
  rewrite Hs in *. pose proof (threads_unique _ _ _ _ Ht Ht') as <-.
  destruct (chain_unique _ _ _ _ _ Hc Hc') as [Hh Heq].
  assert (He : _builtin_protocol_features m' = _builtin_protocol_features m).
  { apply list_eq. intros i. destruct (decide (i ∈ map fst c)) as [Hd|Hd]; [symmetry; by apply Heq|].
    destruct (_builtin_protocol_features m' !! i) as [e'|] eqn:E'.
    - rewrite (Hin' i e' E' Hd). destruct (lookup_lt_is_Some_2 (_builtin_protocol_features m) i) as [e E].
      { apply lookup_lt_Some in E'. congruence. }
      by rewrite E, (Hin i e E Hd).
    - symmetry. apply lookup_ge_None. apply lookup_ge_None in E'. congruence. }
  destruct m, m'. simpl in *. congruence.
Qed.

(** The features that [m] has activated were activated up to block [n]. *)
Definition manager_at (m : protocol_feature_manager) (n : Z) : Prop :=
  exists lg, pfm_ok m lg /\ Forall (fun e => snd e <= n) lg.

(** [m'] has in addition features that were activated after block [n], up to block [k]. *)
Definition activated_since (n k : Z) (m m' : protocol_feature_manager) : Prop :=
  exists lg ext, pfm_ok m lg /\ Forall (fun e => snd e <= n) lg /\ pfm_ok m' (lg ++ ext) /\
    Forall (fun e => n < snd e <= k) ext /\ _protocol_feature_set m' = _protocol_feature_set m.

Lemma activated_since_refl (n k : Z) (m : protocol_feature_manager) :
  manager_at m n -> activated_since n k m m.
Proof. intros (lg & Hok & Hle). exists lg, []. rewrite app_nil_r. by split_and!. Qed.

Lemma activated_since_at (n k : Z) (m m' : protocol_feature_manager) :
  n <= k -> activated_since n k m m' -> manager_at m' k.
Proof.
  intros Hk (lg & ext & _ & Hle & Hok & Hext & _). exists (lg ++ ext). split; [done|]. apply Forall_app. split.
  - eapply Forall_impl; [done|]. simpl. lia.
  - eapply Forall_impl; [done|]. simpl. lia.
Qed.

(** Popping the blocks after [n] restores the manager. *)
Lemma popped_restores (n k : Z) (m m' : protocol_feature_manager) :
  activated_since n k m m' -> popped_blocks_to m' n = Ok m.
Proof.
  intros (lg & ext & Hok & Hle & Hok' & Hext & Hs).
  destruct (popped_ok m' (lg ++ ext) n Hok') as (m1 & -> & Hok1 & Hs1). f_equal.
  replace (kept n (lg ++ ext)) with lg in Hok1.
  - apply (pfm_unique m m1 lg); [done..|congruence].
  - unfold kept. rewrite filter_app, (filter_Forall_id _ lg) by done.
    rewrite (filter_Forall_none _ ext); [by rewrite app_nil_r|].
    eapply Forall_impl; [done|]. simpl. lia.
Qed.

Lemma activate_since (n k : Z) (m m1 m2 : protocol_feature_manager) (d : digest) :
  n < k < not_active -> activated_since n k m m1 -> activate_feature m1 d k = Ok m2 ->
  activated_since n k m m2.
Proof.
  intros Hk (lg & ext & Hok & Hle & Hok1 & Hext & Hs) E.
  pose proof (activate_ok m1 (lg ++ ext) d k Hok1 ltac:(lia)) as Ha. rewrite E in Ha.
  destruct Ha as (_ & Hok2 & Hs2). exists lg, (ext ++ [(d, k)]). rewrite app_assoc. split_and!; try done.
  - apply Forall_app. split; [done|]. constructor; [simpl; lia|constructor].
  - congruence.
Qed.

Lemma activation_step_manager (hash : string -> Z) (k : Z) (st st' : activation_state) (d : digest) :
  activation_step hash k st d = Ok st' -> activate_feature (as_manager st) d k = Ok (as_manager st').
Proof. unfold activation_step. intros E. bind_ok_pairs. done. Qed.
End manager.

(** ** What an execution does to the manager *)
Section execution.
Context {T C : Type}.
Context `{Crypto} `{Serialization} `{FeatureDigests} `{!Execution (T := T) (C := C)}.
Context (intrinsic_hash : string -> Z) (block_at : Z -> option (signed_block (T := T))).

Section features.
Context (n k : Z) (m0 : protocol_feature_manager) (Hk : n < k < not_active).

(** The block that is built has number [k], and features were activated only for it. *)
Definition building_ok (w : work (T := T) (C := C)) : Prop :=
  (forall bb, w_stage w = building bb -> block_num (bb_pbhs bb) = k) /\
  activated_since n k m0 (w_manager w).

Abbreviation preserves m := (triple building_ok m (fun _ => building_ok) building_ok).

Lemma building_preserves {B} (f : building_block T -> M work B) :
  (forall bb, triple (fun w => block_num (bb_pbhs bb) = k /\ building_ok w) (f bb) (fun _ => building_ok) building_ok) ->
  preserves (building_stage ≫= f).
Proof.
  intros Hf w Hw. unfold building_stage, mbind, M_bind, get, lift. destruct (w_stage w) as [bb|ab|p] eqn:E; simpl; [|done..].
  apply (Hf bb). split; [|done]. by apply Hw.
Qed.

Lemma stage_preserves (f : work -> work) :
  (forall w, building_ok w -> w_manager (f w) = w_manager w /\
     forall bb, w_stage (f w) = building bb -> block_num (bb_pbhs bb) = k) ->
  preserves (update f).
Proof. intros Hf. apply triple_update. intros w Hw. destruct (Hf w Hw) as [E Hb]. split; [done|]. rewrite E. apply Hw. Qed.

Lemma under_fact {B} (phi : Prop) (m : M work B) :
  (phi -> preserves m) -> triple (fun w => phi /\ building_ok w) m (fun _ => building_ok) building_ok.
Proof. intros Hm w [Hphi Hw]. by apply (Hm Hphi). Qed.

Lemma record_preserves (o : outcome) : preserves (record_outcome o).
Proof.
  apply building_preserves. intros bb. apply under_fact. intros Hb. apply stage_preserves.
  intros w _. split; [done|]. by intros bb' [= <-].
Qed.

Lemma activation_preserves (m : gmap digest bool) (j : nat) (l : list digest) :
  preserves (activation_loop intrinsic_hash k m j l).
Proof.
  revert m j. induction l as [|d l IH]; intros m j; simpl; [by intros w|].
  intros w Hw. unfold building_stage, mbind, M_bind, get, lift, update.
  destruct (w_stage w) as [bb|ab|p] eqn:Es; simpl; [|done..].
  destruct (activation_step _ _ _ d) as [st|e] eqn:E; [|done].
  apply activation_step_manager in E. simpl in E. apply IH. split; simpl.
  - intros bb' [= <-]. exact (proj1 Hw bb Es).
  - eapply activate_since; [done|apply Hw|done].
Qed.

Lemma start_features_preserves (l : list digest) : preserves (start_features intrinsic_hash l).
Proof.
  unfold start_features. apply preserve_get. intros w0 _. apply building_preserves. intros bb. apply under_fact. intros Hb. rewrite Hb. destruct l as [|d l].
  - apply preserve_check.
  - apply preserve_bind; [apply activation_preserves|]. intros j. apply preserve_bind.
    + apply preserve_check.
    + intros _. apply stage_preserves. intros w Hw. split; [done|]. simpl. apply Hw.
Qed.

Lemma start_proposals_preserves : preserves start_proposals.
Proof.
  unfold start_proposals. apply preserve_get. intros w0 _. apply building_preserves. intros bb. apply under_fact. intros Hb. apply preserve_lift. intros [g np] _.
  apply preserve_lift. intros [g' nr] _. apply stage_preserves. intros w Hw. split; [done|]. by intros bb' [= <-].
Qed.

Lemma on_block_preserves (bc : block_context) : preserves (run_on_block bc).
Proof.
  unfold run_on_block. apply preserve_get. intros w0 _. apply building_preserves. intros bb.
  apply under_fact. intros Hb. destruct (on_block _); [apply record_preserves|apply preserve_ret].
Qed.

Lemma clear_preserves : preserves clear_expired_input_transactions.
Proof.
  apply building_preserves. intros bb. apply under_fact. intros Hb. apply stage_preserves.
  intros w Hw. split; [done|]. apply Hw.
Qed.

Lemma update_authority_preserves : preserves update_producers_authority.
Proof.
  apply building_preserves. intros bb. apply under_fact. intros Hb. apply preserve_get. intros w0 _.
  do 3 (apply preserve_lift; intros ? _). apply stage_preserves. intros w Hw. split; [done|]. apply Hw.
Qed.

Lemma start_preserves (bc : block_context) : preserves (start_body intrinsic_hash bc).
Proof.
  apply building_preserves. intros bb. apply under_fact. intros Hb.
  apply preserve_bind; [apply start_features_preserves|]. intros _.
  apply preserve_bind; [apply start_proposals_preserves|]. intros _.
  apply preserve_bind; [apply on_block_preserves|]. intros _.
  apply preserve_bind; [apply clear_preserves|]. intros _. apply update_authority_preserves.
Qed.

Lemma receipt_preserves (bc : block_context) (light : bool) (r : transaction_receipt T) :
  preserves (apply_receipt bc light r).
Proof.
  unfold apply_receipt. apply preserve_get. intros w0 _. apply building_preserves. intros bb.
  apply under_fact. intros Hb. apply preserve_lift. intros o _.
  apply preserve_bind; [apply record_preserves|]. intros _. apply preserve_bind.
  { destruct (out_except o); [destruct (_ && _)|]; auto with dcd. }
  intros _. apply building_preserves. intros bb'. apply under_fact. intros _.
  do 2 (apply preserve_bind; [auto with dcd|intros _]). destruct (last _); auto with dcd.
Qed.

Lemma finalize_preserves : preserves finalize_body.
Proof.
  unfold finalize_body. apply preserve_get. intros w0 Hw0. destruct (w_stage w0) as [bb|ab|p] eqn:E; auto with dcd.
  do 3 (apply preserve_lift; intros ? _). apply preserve_bind.
  - unfold create_block_summary. apply preserve_get. intros w1 _. destruct (_ !! _); auto with dcd.
    apply stage_preserves. intros w Hw. split; [done|]. apply Hw.
  - intros _. apply stage_preserves. intros w Hw. split; [done|]. by intros bb'.
Qed.

Lemma apply_preserves (bc : block_context) (light : bool) (b : signed_block (T := T)) (i : block_id) :
  preserves (apply_body bc light b i).
Proof.
  apply building_preserves. intros bb. apply under_fact. intros Hb. apply preserve_bind.
  { apply stage_preserves. intros w Hw. split; [done|]. by intros bb' [= <-]. }
  intros _. apply preserve_bind; [apply triple_for_each; intros r; apply receipt_preserves|]. intros _.
  apply preserve_bind; [apply finalize_preserves|]. intros _. apply preserve_get. intros w _.
  destruct (w_stage w); auto with dcd.
Qed.
End features.

(** ** The execution of a block on the state of its predecessor *)
Definition run_block (bc : block_context) (light : bool) (b : signed_block (T := T)) (i : block_id) :
    M (work (T := T) (C := C)) unit :=
  _ ← start_body intrinsic_hash bc; apply_body bc light b i.

(** [rate] is that of the fee manager. *)
Definition execute (rate : Z) (head : block_header_state) (light : bool) (b : block_state_ptr)
    (s : chain_state (C := C)) (m : protocol_feature_manager) :
    result (chain_state (C := C) * protocol_feature_manager) :=
  blk ← deref (block_at (addr b));
  features ← get_new_protocol_feature_activations b;
  bb ← building_new head (h_timestamp (h_base (block_header_of blk)))
         (h_confirmed (h_base (block_header_of blk))) features;
  match run_block (mk_block_context head false rate None) light blk (id b) (mk_work s m (building bb)) with
  | (w, Ok _) => Ok (w_state w, w_manager w)
  | (_, Throw e) => Throw e
  end.

Lemma building_new_num (head : block_header_state) (t n : Z) (l : list digest) (bb : building_block T) :
  fits 32 (block_num head + 1) -> building_new head t n l = Ok bb ->
  block_num (bb_pbhs bb) = block_num head + 1.
Proof.
  intros Hf E. unfold building_new in E. bind_ok. unfold next_pending in E0. bind_ok_pairs. simpl.
  by rewrite wrap_small.
Qed.

Definition num_ok (n : Z) : Prop := 0 <= n /\ n + 1 < not_active.

Lemma num_ok_fits (n : Z) : num_ok n -> fits 32 (n + 1).
Proof. unfold num_ok, fits, not_active. lia. Qed.

(** The manager after any part of an execution. *)
Lemma run_since (head : block_header_state) (m : protocol_feature_manager) (s : chain_state (C := C)) (t n : Z)
    (l : list digest) (bb : building_block T) :
  num_ok (block_num head) -> manager_at m (block_num head) -> building_new head t n l = Ok bb ->
  building_ok (block_num head) (block_num head + 1) m (mk_work s m (building bb)).
Proof.
  intros Hn Hm E. split; simpl; [|by apply activated_since_refl]. intros bb' [= <-].
  apply (building_new_num _ _ _ _ _ (num_ok_fits _ Hn) E).
Qed.

Lemma num_ok_between (n : Z) : num_ok n -> n < n + 1 < not_active.
Proof. unfold num_ok. lia. Qed.

Lemma run_preserves (bc : block_context) (light : bool) (b : signed_block (T := T)) (i : block_id)
    (m : protocol_feature_manager) :
  num_ok (block_num (bc_head bc)) ->
  let P := building_ok (block_num (bc_head bc)) (block_num (bc_head bc) + 1) m in
  triple P (run_block bc light b i) (fun _ => P) P.
Proof.
  intros Hn P. apply preserve_bind; [by apply start_preserves, num_ok_between|].
  intros _. apply apply_preserves.
Qed.

Lemma execute_since (rate : Z) (head : block_header_state) (light : bool) (b : block_state_ptr) (s s' : chain_state (C := C))
    (m m' : protocol_feature_manager) :
  num_ok (block_num head) -> manager_at m (block_num head) -> execute rate head light b s m = Ok (s', m') ->
  activated_since (block_num head) (block_num head + 1) m m'.
Proof.
  intros Hn Hm E. unfold execute in E. bind_ok. rename E2 into Eb.
  pose proof (run_since head m s _ _ _ _ Hn Hm Eb) as Hok.
  pose proof (run_preserves (mk_block_context head false rate None) light a (id b) m Hn _ Hok) as Hrun.
  destruct (run_block _ _ _ _ _) as [w [u|e]]; [|done]. simplify_eq. apply Hrun.
Qed.

(** ** Light validation

    A transaction that passed its checks has the same outcome when they are skipped and the
    network usage is taken from its receipt; a scheduled transaction is always checked. *)
Class ExecutionLaws : Prop := {
  push_light bc s m bb cpu t (o : outcome (T := T) (C := C)) r :
    push_transaction (mk_env bc s m bb false) None cpu t = Ok o -> out_except o = None ->
    out_receipts o = [r] ->
    push_transaction (mk_env bc s m bb true) (Some (net_usage_words (receipt_header r))) cpu t = Ok o;
  push_scheduled_light bc s m bb cpu i :
    push_scheduled_transaction (mk_env bc s m bb true) cpu i =
    push_scheduled_transaction (mk_env bc s m bb false) cpu i
}.

Lemma building_stage_run (w w' : work (T := T) (C := C)) (bb : building_block T) :
  building_stage w = (w', Ok bb) -> w' = w /\ w_stage w = building bb.
Proof.
  unfold building_stage. rewrite get_bind. intros [-> Hb]%lift_Ok. destruct (w_stage w); simpl in Hb; by simplify_eq.
Qed.

Lemma light_receipt `{!ExecutionLaws} (bc : block_context) (r : transaction_receipt T) (w w' : work) :
  apply_receipt bc false r w = (w', Ok tt) -> apply_receipt bc true r w = (w', Ok tt).
Proof.
  unfold apply_receipt. rewrite !get_bind. rewrite !(bind_eq building_stage).
  destruct (building_stage w) as [w1 [bb|e]] eqn:Eb; [|done]. apply building_stage_run in Eb as [-> Hb].
  rewrite !lift_bind. destruct (receipt_of r) as [t|i]; [|by rewrite push_scheduled_light].
  destruct (push_transaction _ None _ t) as [o|e] eqn:Eo; [|done]. intros E.
  replace (push_transaction _ (Some _) _ t) with (Ok o); [done|]. symmetry.
  revert E. unfold record_outcome. rewrite (bind_eq (building_stage ≫= _)), (bind_eq building_stage). unfold building_stage.
  rewrite get_bind, Hb. simpl. unfold update. rewrite andb_false_r.
  destruct (out_except o) as [e|] eqn:Ex; [done|]. rewrite ret_bind, (bind_eq (get ≫= _)), get_bind. simpl.
  rewrite check_bind. destruct (0 <? _)%nat; [|done]. rewrite check_bind.
  destruct (_ =? _)%nat eqn:El; [|done]. apply Nat.eqb_eq in El. rewrite length_app in El.
  destruct (out_receipts o) as [|r' [|]] eqn:Er; simpl in El; [lia| |lia].
  rewrite last_snoc. unfold check. intros [_ Hd]%lift_Ok. apply dcd_assert_ok, bool_decide_eq_true in Hd.
  pose proof (push_light _ _ _ _ _ _ _ _ Eo Ex Er) as Hl. by rewrite Hd in Hl.
Qed.

Lemma light_receipts `{!ExecutionLaws} (bc : block_context) (l : list (transaction_receipt T)) (w w' : work) :
  for_each (apply_receipt bc false) l w = (w', Ok tt) -> for_each (apply_receipt bc true) l w = (w', Ok tt).
Proof.
  revert w. induction l as [|r l IH]; intros w; simpl; [done|]. intros (w1 & [] & E1 & E2)%bind_Ok_inv.
  rewrite (bind_Ok _ _ _ _ _ (light_receipt _ _ _ _ E1)). by apply IH.
Qed.

(** A block that was executed with the checks has the same effect without them. *)
Lemma execute_light `{!ExecutionLaws} (rate : Z) (head : block_header_state) (light : bool) (b : block_state_ptr)
    (s : chain_state) (m : protocol_feature_manager) (x : chain_state * protocol_feature_manager) :
  execute rate head light b s m = Ok x -> execute rate head true b s m = Ok x.
Proof.
  destruct light; [done|]. unfold execute. intros E.
  destruct (deref (block_at (addr b))) as [blk|]; [|done]. simpl in *.
  destruct (get_new_protocol_feature_activations b) as [l|]; [|done]. simpl in *.
  destruct (building_new _ _ _ _) as [bb|]; [|done]. simpl in *. revert E. unfold run_block.
  rewrite !(bind_eq (start_body _ _)). destruct (start_body _ _ _) as [w [u|e]]; [|done].
  unfold apply_body. rewrite !(bind_eq building_stage). destruct (building_stage w) as [w1 [bb1|e]]; [|done].
  rewrite !update_bind. set (w2 := set_stage _ w1). rewrite !(bind_eq (for_each _ _)).
  destruct (for_each (apply_receipt _ false) _ w2) as [w3 [[]|e]] eqn:Ef; [|done].
  by rewrite (light_receipts _ _ _ _ Ef).
Qed.

(** ** [apply_block] *)
Context (conf : config).
Abbreviation controller := (controller (T := T) (C := C)).

(** A controller that is ready to apply a block on its head. *)
Record idle (c : controller) : Prop := {
  idle_pending : pending c = None;
  idle_revision : revision (kv_db c) = block_num (ctl_head c);
  idle_num : num_ok (block_num (ctl_head c));
  idle_manager : manager_at (protocol_features c) (block_num (ctl_head c));
  idle_replay : replay_head_time c = None;
  idle_mode : read_mode conf <> IRREVERSIBLE
}.

(** [light_validation_allowed] while a block of the status is applied *)
Definition light_of (c : controller) (s : block_status) : bool :=
  match s with
  | irreversible | validated_status => negb (force_all_checks conf)
  | complete => light_validation conf || trusted_producer_light_validation c
  | incomplete => false
  end.

Definition session_status (s : block_status) : Prop := s = complete \/ s = validated_status.

(** The controller after a block was applied. *)
Definition with_block (b : block_state_ptr) (s' : chain_state) (m' : protocol_feature_manager) (c : controller) :
    controller :=
  set_rate (pri_rate (active_rate b))
    (set_reversible (<[block_num b := b]> (reversible_blocks c))
      (set_features m'
        (set_db (mk_chain_db s' (cur (kv_db c) :: undo_stack (kv_db c)) (revision (kv_db c) + 1)) c))).

Lemma popped_to_restores (c : controller) (m' : protocol_feature_manager) (n k : Z) :
  activated_since n k (protocol_features c) m' ->
  forall c' : controller, protocol_features c' = m' ->
  popped_to n c' = (set_features (protocol_features c) c', Ok tt).
Proof.
  intros Ha c' <-. unfold popped_to, mbind, M_bind, get, lift, update.
  by rewrite (popped_restores _ _ _ _ Ha).
Qed.

(** The pending block of a started block. *)
Definition with_pending (bb : block_stage_type T) (st : block_status) (i : block_id) (s' : chain_state)
    (m' : protocol_feature_manager) (c : controller) : controller :=
  set_pending (Some (mk_pending_state true bb st (Some i)))
    (set_features m'
      (set_db (mk_chain_db s' (cur (kv_db c) :: undo_stack (kv_db c)) (revision (kv_db c) + 1)) c)).

Lemma reset_with_pending (bb : block_stage_type T) (st : block_status) (i : block_id) (s' : chain_state)
    (m' : protocol_feature_manager) (c : controller) :
  pending c = None -> reset_pending (with_pending bb st i s' m' c) = (set_features m' c, Ok tt).
Proof.
  intros Hp. destruct c as [[cu st' rv] rb bl pe hd fd pf ra re tr]. simpl in Hp. subst pe.
  unfold reset_pending, mbind, M_bind, get, update. simpl. unfold undo_db, set_pending, set_db, set_features. simpl.
  do 3 f_equal. f_equal. lia.
Qed.

Lemma set_features_same (c : controller) : set_features (protocol_features c) c = c.
Proof. by destruct c. Qed.

Lemma abort_restores (bb : block_stage_type T) (st : block_status) (i : block_id) (s' : chain_state)
    (m' : protocol_feature_manager) (c : controller) (k : Z) :
  pending c = None -> activated_since (block_num (ctl_head c)) k (protocol_features c) m' ->
  abort_block (with_pending bb st i s' m' c) = (c, Ok tt).
Proof.
  intros Hp Ha. unfold abort_block. rewrite (bind_Ok _ _ _ _ _ (eq_refl : get _ = (_, Ok _))). simpl.
  rewrite (bind_Ok _ _ _ _ _ (reset_with_pending bb st i s' m' c Hp)).
  rewrite (popped_to_restores c m' _ k Ha) by done. f_equal. by destruct c.
Qed.

Lemma status_cases (st : block_status) :
  session_status st -> skip_db_sessions conf st = false /\
    bool_decide (read_mode conf = SPECULATIVE) || negb (bool_decide (st = incomplete)) = true.
Proof. intros [->| ->]; unfold skip_db_sessions; simpl; by rewrite orb_true_r. Qed.

(** A part of an execution inside the pending block. *)
Lemma in_block_run {A} (mm : M work A) (bb : block_stage_type T) (st : block_status) (i : block_id)
    (s' : chain_state) (m' : protocol_feature_manager) (c : controller) :
  in_block mm (with_pending bb st i s' m' c) =
  match mm (mk_work s' m' bb) with
  | (w, r) => (with_pending (w_stage w) st i (w_state w) (w_manager w) c, r)
  end.
Proof. unfold in_block, with_pending. simpl. by destruct (mm _) as [w r]. Qed.

Lemma guard_restores (bb : block_stage_type T) (st : block_status) (i : block_id) (s' : chain_state)
    (m' : protocol_feature_manager) (c : controller) (k : Z) :
  pending c = None -> activated_since (block_num (ctl_head c)) k (protocol_features c) m' ->
  (_ ← popped_to (block_num (ctl_head c)); reset_pending) (with_pending bb st i s' m' c) = (c, Ok tt).
Proof.
  intros Hp Ha. rewrite (bind_Ok _ _ _ _ _ (popped_to_restores c m' _ k Ha _ (eq_refl : protocol_features (with_pending bb st i s' m' c) = m'))).
  change (set_features _ _) with (with_pending bb st i s' (protocol_features c) c).
  rewrite reset_with_pending by done. by rewrite set_features_same.
Qed.

Lemma guard_idle (c : controller) :
  idle c -> (_ ← popped_to (block_num (ctl_head c)); reset_pending) c = (c, Ok tt).
Proof.
  intros [Hp _ _ Hm _ _].
  rewrite (bind_Ok _ _ _ _ _ (popped_to_restores c _ _ _ (activated_since_refl _ 0 _ Hm) c eq_refl)).
  rewrite set_features_same. unfold reset_pending. by rewrite get_bind, Hp.
Qed.

(** Starting a block succeeds or leaves the controller as it was. *)
Lemma start_block_run (c : controller) (t n : Z) (l : list digest) (st : block_status) (i : block_id) :
  idle c -> session_status st ->
  start_block intrinsic_hash conf t n l st (Some i) c =
  match building_new (ctl_head c) t n l with
  | Throw e => (c, Throw e)
  | Ok bb =>
      match start_body intrinsic_hash (context_of c st) (mk_work (cur (kv_db c)) (protocol_features c) (building bb)) with
      | (w, Ok _) => (with_pending (w_stage w) st i (w_state w) (w_manager w) c, Ok tt)
      | (_, Throw e) => (c, Throw e)
      end
  end.
Proof.
  intros I Hst. pose proof I as [Hp Hr Hn Hm _ _]. destruct (status_cases st Hst) as [Hskip Hgo].
  unfold start_block. rewrite get_bind, Hp, check_bind. cbv zeta. rewrite on_exception_eq, Hskip. simpl unless.
  rewrite Hr, Z.eqb_refl, check_bind, lift_bind.
  destruct (building_new (ctl_head c) t n l) as [bb|e] eqn:Eb; [|by rewrite guard_idle].
  rewrite update_bind, Hgo. simpl when.
  replace (set_pending _ _) with (with_pending (building bb) st i (cur (kv_db c)) (protocol_features c) c)
    by (by destruct c).
  rewrite in_block_run.
  pose proof (start_preserves _ _ (protocol_features c) (num_ok_between _ Hn) (context_of c st) _
    (run_since (ctl_head c) _ (cur (kv_db c)) _ _ _ _ Hn Hm Eb)) as Hk.
  destruct (start_body _ _ _) as [w [[]|e]]; [done|].
  by rewrite (guard_restores _ _ _ _ _ _ _ Hp (proj2 Hk)).
Qed.

(** The end of [apply_block] *)
Lemma commit_applied (b : block_state_ptr) (st : block_status) (i : block_id) (w : work) (c : controller) :
  idle c -> reversible_blocks c !! block_num b = None ->
  (_ ← complete_block b; commit_block conf (throw undefined_behaviour) false)
    (with_pending (w_stage w) st i (w_state w) (w_manager w) c) =
  (with_block b (w_state w) (w_manager w) c, Ok tt).
Proof.
  intros [Hp _ _ _ Hrp Hmd] Hrev. unfold complete_block. rewrite update_bind. simpl.
  unfold commit_block, get_new_rate_params. rewrite bind_eq, get_bind, lift_bind. simpl. unfold update at 1.
  rewrite bind_eq, on_exception_eq. unfold completed_block. rewrite bind_eq, get_bind. simpl. rewrite ret_bind, get_bind.
  simpl. rewrite Hrp, bool_decide_eq_false_2 by done. simpl. unfold add_reversible.
  rewrite bind_eq, get_bind. simpl. rewrite Hrev. unfold update, mret, M_ret.
  destruct c; simpl in *. by subst.
Qed.

(** [apply_block] executes the block on the state of the head, or leaves the controller as it was. *)
Lemma apply_block_run (c : controller) (b : block_state_ptr) (st : block_status) :
  idle c -> session_status st -> reversible_blocks c !! block_num b = None ->
  apply_block intrinsic_hash block_at conf b st c =
  match execute (contract_cur_rate c) (ctl_head c) (light_of c st) b (cur (kv_db c)) (protocol_features c) with
  | Ok (s', m') => (with_block b s' m' c, Ok tt)
  | Throw e => (c, Throw e)
  end.
Proof.
  intros I Hst Hrev. pose proof I as [Hp Hr Hn Hm Hrp Hmd]. unfold apply_block. rewrite on_exception_eq.
  assert (Hab : abort_block c = (c, Ok tt)) by (unfold abort_block; by rewrite get_bind, Hp).
  unfold execute. rewrite lift_bind. destruct (deref (block_at (addr b))) as [blk|e]; [|by rewrite Hab].
  rewrite lift_bind. simpl. destruct (get_new_protocol_feature_activations b) as [l|e]; [|by rewrite Hab].
  replace (mk_block_context (ctl_head c) false (contract_cur_rate c) None) with (context_of c st)
    by (unfold context_of; rewrite Hrp; by destruct Hst as [->| ->]).
  rewrite bind_eq, start_block_run by done. simpl.
  destruct (building_new _ _ _ l) as [bb|e] eqn:Eb; [|by rewrite Hab]. simpl.
  pose proof (run_since (ctl_head c) _ (cur (kv_db c)) _ _ _ _ Hn Hm Eb) as Hk0.
  pose proof (start_preserves _ _ (protocol_features c) (num_ok_between _ Hn) (context_of c st) _ Hk0) as Hk1.
  unfold run_block. rewrite (bind_eq (start_body _ _)).
  destruct (start_body _ _ _) as [w [[]|e]]; [|by rewrite Hab]. rewrite get_bind.
  pose proof (apply_preserves _ _ (protocol_features c) (context_of c st) (light_of c st) blk (id b) _ Hk1) as Hk2.
  change (context_of (with_pending _ _ _ _ _ c) st) with (context_of c st).
  replace (light_validation_allowed conf (with_pending _ _ _ _ _ c)) with (light_of c st)
    by (by destruct Hst as [->| ->]).
  rewrite bind_eq, in_block_run.
  replace (mk_work (w_state w) (w_manager w) (w_stage w)) with w by (by destruct w).
  destruct (apply_body _ _ _ _ w) as [w' [[]|e]].
  2:{ by rewrite (abort_restores _ _ _ _ _ _ _ Hp (proj2 Hk2)). }
  by rewrite (commit_applied b st (id b) w' c).
Qed.
End execution.
