(* ===== verification/PushTransactionProofs.v ===== *)
(** * Pushing transactions: proofs

    That pushing a transaction ends, what a failed one leaves, and that the execution of transactions is what the
    controller needs it to be: it does not depend on the checks that a node skips. *)

From S2P Require Import Prelude Effects Types Asset BlockTimestamp BlockHeader Authority UndoIndex Database AuthorizationManager.
From S2P Require Import SystemContract TransactionTypes Fees CodeActions NodeLists ProtocolFeatures ContractTables ChainConfig Parameters.
From S2P Require Import ParameterProofs BlockHeaderState Proposals Controller Actions ActionProofs Transactions TransactionProofs LightValidation.
From S2P Require Import DeferredProofs BlockExecution PushTransaction.

Section pushing.
Context `{ActionData} `{Code} `{Engine} `{TransactionData} `{ReceiptDigests}.
Abbreviation trx_env := (trx_env (T := packed_transaction)).
Abbreviation exec_env := (exec_env (T := packed_transaction) (C := contract_state)).
Abbreviation outcome := (outcome (T := packed_transaction) (C := contract_state)).
Abbreviation chain := (@chain_state contract_state).

(** ** Light validation *)
Lemma light_init (e : trx_env) (i : digest) (trx : transaction) (u p w : Z) (skip : bool) (s : chain) (c : transaction_context) (x : unit) :
  te_light e = false -> init_for_input_trx e i trx u p skip (new_trx_context s) = (c, Ok x) ->
  bare_trx c /\ Forall (fun a => authorization a = []) (context_free_actions trx) /\
  init_for_input_trx_with_explicit_net (without_checks e) i trx w skip (new_trx_context s) = (given (w * 8) c, Ok x).
Proof.
  intros Hl E. unfold init_for_input_trx in E. apply bind_Ok_inv in E as (c1 & [] & E1 & E2). unfold check_extensions in E1.
  unfold init_for_input_trx_with_explicit_net, check_extensions.
  destruct (0 <? length (transaction_extensions trx))%nat eqn:Ex.
  { unfold disallow_transaction_extensions in E1. by destruct (te_producing e). }
  injection E1 as <-. apply bind_Ok_inv in E2 as (c2 & s' & E2 & E3). injection E2 as <- <-.
  destruct (follows_init_common e i trx (w * 8) _ skip _ _ x Hl (Forall_nil_2 _ : bare_trx (new_trx_context s)) E3) as (Hb & E4 & Hcf). by split_and!.
Qed.

Lemma light_body (fuel : nat) (e : trx_env) (w : Z) (skip : bool) (t : packed_transaction) (s : chain) (c : transaction_context) (x : unit) :
  te_light e = false -> transaction_body fuel e false None skip t (new_trx_context s) = Some (c, Ok x) ->
  transaction_body fuel (without_checks e) false (Some w) skip t (new_trx_context s) = Some (given (w * 8) c, Ok x).
Proof.
  intros Hl E. unfold transaction_body in *. apply fuel_Ok_inv in E as (c1 & [] & [= E1] & E). cbv iota in E1.
  apply bind_Ok_inv in E1 as (c0 & u & [-> _]%lift_Ok & E1). apply bind_Ok_inv in E1 as (c0 & p & [-> _]%lift_Ok & E1).
  apply (light_init _ _ _ _ _ w) in E1 as (Hb & Hcf & E1); [|done]. erewrite fuel_Ok; [|unfold now; cbv iota; by rewrite E1].
  apply fuel_Ok_inv in E as (c2 & [] & [= E2] & E). rewrite Hl in E2. cbn [orb unless] in E2.
  apply bind_Ok_inv in E2 as (c3 & s' & E2 & [-> _]%lift_Ok). injection E2 as -> _. erewrite fuel_Ok; [|reflexivity].
  apply fuel_Ok_inv in E as (c4 & [] & E4 & [= E5]).
  destruct (follows_exec e _ _ _ (w * 8) fuel Hcf _ _ _ Hb E4) as [Hb4 E4']. rewrite (fuel_Ok _ _ _ _ _ E4').
  destruct (follows_finalize e _ (w * 8) _ _ _ Hb4 E5) as [_ E5']. unfold now. by rewrite E5'.
Qed.

(** The receipt has the number of words that the usage is rounded to, also when it is cut to 32 bits. *)
Lemma finished_light (c : transaction_context) (t : receipt_trx packed_transaction) (st : status_enum) (cpu : Z) (o : outcome)
    (r : transaction_receipt packed_transaction) :
  finished c t st cpu = Ok o -> out_receipts o = [r] ->
  finished (given (net_usage_words (receipt_header r) * 8) c) t st cpu = Ok o.
Proof.
  unfold finished, push_receipt. intros E Er. bind_ok_pairs. simpl in *. set (w := u32 (net_usage (tc_trx c) / 8)).
  assert (Hw : fits 32 w) by (apply wrap_fits; lia). unfold fits in Hw. rewrite Z.div_mul by lia.
  rewrite (wrap_small 64) by (unfold fits; lia). rewrite Z.eqb_refl. simpl. rewrite (wrap_small 32 w) by (unfold fits; lia). done.
Qed.

(** ** The execution of transactions as the controller needs it *)

(** A transaction that succeeds with the checks has the same outcome without them. *)
#[export] Instance node_execution_laws (nd : node_config) (fuel : nat) :
  ExecutionLaws (Execution0 := node_execution nd fuel).
Proof.
  split; [|done]. intros bc s m bb cpu t o r E Hx Hr. cbn [push_transaction node_execution] in *. unfold run_transaction in *.
  cbn [env_state env_context env_light] in *.
  set (skip := match bc_replay_head_time bc with Some _ => _ | None => _ end) in *.
  set (e := trx_env_of nd (mk_env bc s m bb false) false (negb false)) in *.
  change (trx_env_of nd (mk_env bc s m bb true) true (negb false)) with (without_checks e).
  destruct (transaction_body fuel e false None skip t _) as [[c [x|y]]|] eqn:Eb; [| |done].
  2:{ exfalso. unfold failed in E. destruct (rethrown y); [done|]. by injection E as <-. }
  rewrite (light_body fuel e (net_usage_words (receipt_header r)) _ _ _ _ _ (eq_refl : te_light e = false) Eb).
  destruct (finished c _ _ cpu) as [o'|y] eqn:Ef.
  2:{ exfalso. unfold failed in E. destruct (rethrown y); [done|]. by injection E as <-. }
  change (keeps_transactions nd (mk_env bc s m bb true)) with (keeps_transactions nd (mk_env bc s m bb false)).
  destruct (keeps_transactions nd _); injection E as <-; [|done]. by erewrite finished_light.
Qed.

(** ** Termination *)

(** The parameters of the chain stay as they are. *)
Definition keeps_params {A} (m : M transaction_context A) : Prop :=
  forall c c' a, m c = (c', Ok a) -> params (tc_trx c') = params (tc_trx c).

Lemma keeps_params_bind {A B} (m : M transaction_context A) (f : A -> M transaction_context B) :
  keeps_params m -> (forall a, keeps_params (f a)) -> keeps_params (m ≫= f).
Proof.
  intros Hm Hf c c' b (c1 & a & E1 & E2)%bind_Ok_inv. apply Hm in E1. apply Hf in E2. congruence.
Qed.

Lemma keeps_params_reads {A} (m : M transaction_context A) : only_reads m -> keeps_params m.
Proof. intros Hm c c' a E. specialize (Hm c). rewrite E in Hm. simpl in Hm. by subst. Qed.

(** The chain stays as it is. *)
Definition keeps_chain {A} (m : M transaction_context A) : Prop :=
  forall c c' a, m c = (c', Ok a) -> ts_chain (tc_trx c') = ts_chain (tc_trx c).

Lemma keeps_chain_params {A} (m : M transaction_context A) : keeps_chain m -> keeps_params m.
Proof. intros Hm c c' a E. unfold params. by rewrite (Hm _ _ _ E). Qed.

Lemma keeps_chain_bind {A B} (m : M transaction_context A) (f : A -> M transaction_context B) :
  keeps_chain m -> (forall a, keeps_chain (f a)) -> keeps_chain (m ≫= f).
Proof. intros Hm Hf c c' b (c1 & a & E1 & E2)%bind_Ok_inv. apply Hm in E1. apply Hf in E2. congruence. Qed.

Lemma keeps_chain_extensions (e : trx_env) (trx : transaction) : keeps_chain (check_extensions e trx).
Proof.
  unfold check_extensions, disallow_transaction_extensions. intros c c' a E.
  destruct (0 <? _)%nat; [by destruct (te_producing e)|by injection E as <- _].
Qed.

Lemma keeps_chain_init (n : Z) : keeps_chain (init n).
Proof.
  intros c c' a E. unfold init in E. rewrite get_bind, check_bind in E. destruct (negb _); [|done].
  apply bind_Ok_inv in E as (c1 & u & E1 & E2). injection E2 as <- _. unfold when in E1. destruct (0 <? n); [|by injection E1 as <- _].
  unfold in_state in E1. destruct (add_net_usage n _) as [t [v|x]] eqn:En; [|done]. injection E1 as <- _.
  by apply add_net_usage_spec in En as (k & b & ->).
Qed.

Lemma keeps_params_common (e : trx_env) (i : digest) (trx : transaction) (n : Z) (skip : bool) :
  keeps_params (init_for_input_trx_common e i trx n skip).
Proof.
  apply keeps_params_bind; [by intros c c' a [= <- _]|]. intros _. apply keeps_params_bind.
  { unfold unless. destruct (te_light e); [by intros c c' a [= <- _]|apply keeps_params_reads, checks_read]. }
  intros _. apply keeps_params_bind; [apply keeps_chain_params, keeps_chain_init|]. intros _ c c' a E. unfold unless, record_transaction in E.
  destruct skip; [by injection E as <- _|]. run_trx_in E. destruct (_ !! i); [done|]. by injection E as <- _.
Qed.

Lemma keeps_chain_implicit (e : trx_env) (trx : transaction) (n : Z) : keeps_chain (init_for_implicit_trx e trx n).
Proof.
  apply keeps_chain_bind; [apply keeps_chain_extensions|]. intros _. apply keeps_chain_bind; [by intros c c' a [= <- _]|].
  intros _. apply keeps_chain_init.
Qed.

Lemma keeps_chain_deferred (e : trx_env) (trx : transaction) (p : Z) : keeps_chain (init_for_deferred_trx e trx p).
Proof.
  apply keeps_chain_bind; [|intros _; apply keeps_chain_bind; [by intros c1 c' a [= <- _]|intros _; apply keeps_chain_init]].
  intros c1 c' a E. unfold when, disallow_transaction_extensions in E. destruct (_ && _); [by destruct (te_producing e)|by injection E as <- _].
Qed.

Definition enough_fuel (fuel : nat) : Prop := 2 ^ 64 + 2 ^ 16 + 2 < Z.of_nat fuel.

(** A body ends when it begins with a step that keeps the parameters, and its actions end then. *)
Lemma ends_bind {A B} (m : M transaction_context A) (k : nat -> A -> F transaction_context B) (c : transaction_context) :
  keeps_params m -> parameters_ok (params (tc_trx c)) ->
  (forall a c1, parameters_ok (params (tc_trx c1)) -> exists r, forall fuel, enough_fuel fuel -> k fuel a c1 = Some r) ->
  exists r, forall fuel, enough_fuel fuel -> (now m ≫= k fuel) c = Some r.
Proof.
  intros Hm Hok Hk. unfold mbind, F_bind, now. destruct (m c) as [c1 [a|x]] eqn:E; [|by eexists].
  apply Hm in E. apply Hk. by rewrite E.
Qed.

Lemma ends_exec (e : trx_env) (i : digest) (trx : transaction) (delay : Z) (c : transaction_context) :
  parameters_ok (params (tc_trx c)) ->
  exists r, forall fuel, enough_fuel fuel -> (_ ← exec e i trx delay fuel; now (finalize e trx)) c = Some r.
Proof.
  intros [r [Hr _]]%(transaction_ends e i trx delay). unfold mbind, F_bind. destruct r as [c1 [u|x]]; eexists; intros fuel Hf;
    by rewrite (Hr fuel Hf).
Qed.

Lemma transaction_body_ends (e : trx_env) (implicit : bool) (words : option Z) (skip : bool) (t : packed_transaction) (c : transaction_context) :
  parameters_ok (params (tc_trx c)) ->
  exists r, forall fuel, enough_fuel fuel -> transaction_body fuel e implicit words skip t c = Some r.
Proof.
  intros Hok. unfold transaction_body. apply ends_bind; [|done|].
  - destruct implicit; [|destruct words as [n|]].
    + apply keeps_params_bind; [by apply keeps_params_reads|]. intros _. apply keeps_chain_params, keeps_chain_implicit.
    + apply keeps_params_bind; [apply keeps_chain_params, keeps_chain_extensions|intros _].
      apply keeps_params_bind; [by intros c1 c' a [= <- _]|intros _; apply keeps_params_common].
    + do 2 (apply keeps_params_bind; [by apply keeps_params_reads|intros ?]). apply keeps_params_bind; [apply keeps_chain_params, keeps_chain_extensions|intros _].
      apply keeps_params_bind; [by apply keeps_params_reads|intros ?]. apply keeps_params_common.
  - intros _ c1 Hok1. apply ends_bind; [|done|intros _ c2 Hok2; by apply ends_exec].
    apply keeps_params_reads. intros c2. unfold unless. by destruct (_ || _).
Qed.

Lemma deferred_body_ends (e : trx_env) (g : generated_transaction_object) (trx : transaction) (c : transaction_context) :
  parameters_ok (params (tc_trx c)) -> exists r, forall fuel, enough_fuel fuel -> deferred_body fuel e g trx c = Some r.
Proof.
  intros Hok. unfold deferred_body. apply ends_bind; [|done|].
  - apply keeps_chain_params, keeps_chain_deferred.
  - intros _ c1 Hok1. apply ends_bind; [|done|intros _ c2 Hok2; by apply ends_exec].
    apply keeps_params_reads. intros c2. unfold when. by destruct (_ && _).
Qed.

Lemma onerror_body_ends (e : trx_env) (g : generated_transaction_object) (trx : transaction) (c : transaction_context) :
  parameters_ok (params (tc_trx c)) -> exists r, forall fuel, enough_fuel fuel -> onerror_body fuel e g trx c = Some r.
Proof.
  intros Hok. unfold onerror_body. apply ends_bind; [|done|intros _ c1 Hok1; apply ends_bind; [|done|intros _ c2 Hok2; apply ends_bind; [|done|]]].
  - apply keeps_chain_params, keeps_chain_implicit.
  - by intros c2 c' a [= <- _].
  - intros c3 c' a E. unfold in_state in E. destruct (last (actions trx)) as [x|]; [|done].
    destruct (schedule_new_action _ _ _ _ _ _) as [t [o|y]] eqn:Es; [|done]. injection E as <- _. by apply schedule_new_spec in Es as [_ ->].
  - intros o c3 Hok3. set (f := fun fuel => execute_action (action_env e (transaction_id trx) (tc_published c3)) fuel o 0 (tc_trx c3)).
    assert (Hf : exists x, forall fuel, enough_fuel fuel -> f fuel = Some x).
    { set (n := Z.to_nat (2 ^ 64 + 2 ^ 16 + 3)).
      destruct (execute_action_ends (action_env e (transaction_id trx) (tc_published c3)) n o 0 (tc_trx c3)) as (t & r & E & _);
        [unfold enough, n; lia|lia|done|]. exists (t, r). intros fuel Hf. eapply execute_action_more; [|exact E]. unfold enough_fuel, n in *. lia. }
    destruct Hf as [[t r] Hf]. unfold mbind, F_bind, in_fuel. destruct r as [u|x]; eexists; intros fuel Hn; fold (f fuel); by rewrite (Hf fuel Hn).
Qed.

(** C4. Pushing a transaction ends, when each contract by itself does: given that a run of a contract makes finitely
    many calls of host functions, as the programs of the model do, the execution of a transaction of a user or of the
    node itself, of a scheduled transaction and of the notification of its failure each have one result for all bounds
    on the number of steps that are large enough, and with them what the controller makes of it. The steps that are
    bounded are those between the runs: contracts notify each other and send inline actions, which notify and send
    again, while privileged contracts may change the limit on the depth. A contract that loops without end is not
    covered: nothing stops it, since the deadline is not enforced. *)
Theorem pushing_ends (nd : node_config) (env : exec_env) :
  parameters_ok (gpo_parameters (gpo (env_state env))) ->
  (forall e implicit words skip t, exists r, forall fuel, enough_fuel fuel ->
     transaction_body fuel e implicit words skip t (new_trx_context (env_state env)) = Some r) /\
  (forall e g trx, exists r, forall fuel, enough_fuel fuel ->
     deferred_body fuel e g trx (new_trx_context (env_state env)) = Some r) /\
  (forall e g trx, exists r, forall fuel, enough_fuel fuel ->
     onerror_body fuel e g trx (new_trx_context (env_state env)) = Some r) /\
  (forall light implicit words cpu t, exists r, forall fuel, enough_fuel fuel ->
     run_transaction nd fuel env light implicit words cpu t = r) /\
  (forall cpu i, exists r, forall fuel, enough_fuel fuel -> push_scheduled nd fuel env cpu i = r).
Proof.
  intros Hok. split_and!.
  - intros. by apply transaction_body_ends.
  - intros. by apply deferred_body_ends.
  - intros. by apply onerror_body_ends.
  - intros light implicit words cpu t. unfold run_transaction.
    set (e := trx_env_of nd env light _). set (skip := match bc_replay_head_time _ with Some _ => _ | None => _ end).
    destruct (transaction_body_ends e implicit words skip t (new_trx_context (env_state env)) Hok) as [r Hr].
    eexists. intros fuel Hf. by rewrite (Hr fuel Hf).
  - intros cpu i. unfold push_scheduled. destruct (db_find_by _ _ _) as [g|]; [|by eexists].
    destruct (db_remove _ _) as [table|x]; simpl; [|by eexists]. destruct (dcd_assert _ _); simpl; [|by eexists].
    destruct (unpack_transaction _) as [dtrx|x]; simpl; [|by eexists]. destruct (_ <? _); [by eexists|].
    set (e := trx_env_of nd env false _). set (c := new_trx_context _).
    destruct (deferred_body_ends e g dtrx c Hok) as [r Hr].
    destruct (onerror_body_ends e g (onerror_transaction env g) c Hok) as [r' Hr'].
    eexists. intros fuel Hf. unfold failure. fold c. by rewrite (Hr fuel Hf), (Hr' fuel Hf).
Qed.

(** ** The record of transactions *)
Lemma exec_finalize_inputs (e : trx_env) (i : digest) (trx : transaction) (delay : Z) (fuel : nat) (c c' : transaction_context) (u : unit) :
  (_ ← exec e i trx delay fuel; now (finalize e trx)) c = Some (c', Ok u) -> inputs_of (tc_trx c') = inputs_of (tc_trx c).
Proof.
  intros (c1 & u1 & E1%exec_inputs & E2)%fuel_Ok_inv. unfold now in E2. injection E2 as E2%finalize_inputs. congruence.
Qed.

(** A transaction of a user that succeeds was not recorded, and is now; if it was checked it had not expired. *)
Lemma body_records (fuel : nat) (e : trx_env) (words : option Z) (t : packed_transaction) (s : chain) (c : transaction_context) (u : unit) :
  transaction_body fuel e false words false t (new_trx_context s) = Some (c, Ok u) ->
  let trx := get_transaction t in
  input_transactions s !! transaction_id trx = None /\
  input_transactions (ts_chain (tc_trx c)) = <[transaction_id trx := trx_expiration trx]> (input_transactions s) /\
  (te_light e = false -> te_time e <= trx_expiration trx * 1000000).
Proof.
  intros E trx. unfold transaction_body in E. fold trx in E. apply fuel_Ok_inv in E as (c1 & [] & E1 & E). unfold now in E1. injection E1 as E1.
  apply fuel_Ok_inv in E as (c2 & [] & E2 & E). unfold now in E2. injection E2 as E2.
  assert (Hc2 : ts_chain (tc_trx c2) = ts_chain (tc_trx c1)).
  { unfold unless in E2. destruct (_ || _); [by injection E2 as <-|]. apply bind_Ok_inv in E2 as (c3 & s' & E2 & [-> _]%lift_Ok). by injection E2 as <- _. }
  apply exec_finalize_inputs in E. unfold inputs_of in E. rewrite Hc2 in E. rewrite E.
  assert (Hc : exists c0 n, ts_chain (tc_trx c0) = s /\ init_for_input_trx_common e (transaction_id trx) trx n false c0 = (c1, Ok tt)).
  { destruct words as [n|].
    - unfold init_for_input_trx_with_explicit_net in E1. apply bind_Ok_inv in E1 as (c3 & [] & E3%keeps_chain_extensions & E1).
      apply bind_Ok_inv in E1 as (c4 & [] & E4 & E1). injection E4 as <-. eexists _, _. split; [|exact E1]. simpl. exact E3.
    - do 2 apply bind_Ok_inv in E1 as (? & ? & [-> _]%lift_Ok & E1). unfold init_for_input_trx in E1.
      apply bind_Ok_inv in E1 as (c3 & [] & E3%keeps_chain_extensions & E1). apply bind_Ok_inv in E1 as (c4 & s' & E4 & E1). injection E4 as <- <-.
      eexists _, _. split; [|exact E1]. exact E3. }
  destruct Hc as (c0 & n & Hs & Hc). apply input_accepted in Hc as (A & B & D). unfold inputs_of in *. rewrite Hs in *. done.
Qed.

Lemma implicit_inputs (fuel : nat) (e : trx_env) (words : option Z) (skip : bool) (t : packed_transaction) (s : chain) (c : transaction_context) (u : unit) :
  transaction_body fuel e true words skip t (new_trx_context s) = Some (c, Ok u) -> input_transactions (ts_chain (tc_trx c)) = input_transactions s.
Proof.
  intros E. unfold transaction_body in E. apply fuel_Ok_inv in E as (c1 & [] & E1 & E). unfold now in E1. injection E1 as E1.
  apply bind_Ok_inv in E1 as (c0 & u0 & [-> _]%lift_Ok & E1%keeps_chain_implicit).
  apply fuel_Ok_inv in E as (c2 & [] & E2 & E). rewrite orb_true_r in E2. injection E2 as <-.
  apply exec_finalize_inputs in E. unfold inputs_of in E. rewrite E, E1. done.
Qed.

Lemma deferred_inputs (fuel : nat) (e : trx_env) (g : generated_transaction_object) (trx : transaction) (s : chain) (c : transaction_context) (u : unit) :
  deferred_body fuel e g trx (new_trx_context s) = Some (c, Ok u) -> input_transactions (ts_chain (tc_trx c)) = input_transactions s.
Proof.
  intros E. unfold deferred_body in E. apply fuel_Ok_inv in E as (c1 & [] & E1 & E). unfold now in E1. injection E1 as E1%keeps_chain_deferred.
  apply fuel_Ok_inv in E as (c2 & [] & E2 & E).
  assert (Hc2 : c2 = c1) by (unfold now, when, lift in E2; by destruct (_ && _); injection E2 as ->).
  subst c2. apply exec_finalize_inputs in E. unfold inputs_of in E. rewrite E, E1. done.
Qed.

Lemma onerror_inputs (fuel : nat) (e : trx_env) (g : generated_transaction_object) (trx : transaction) (s : chain) (c : transaction_context) (u : unit) :
  onerror_body fuel e g trx (new_trx_context s) = Some (c, Ok u) -> input_transactions (ts_chain (tc_trx c)) = input_transactions s.
Proof.
  intros E. unfold onerror_body in E. apply fuel_Ok_inv in E as (c1 & [] & E1 & E). unfold now in E1. injection E1 as E1%keeps_chain_implicit.
  apply fuel_Ok_inv in E as (c2 & [] & E2 & E). injection E2 as <-. apply fuel_Ok_inv in E as (c3 & o & E3 & E). unfold now in E3. injection E3 as E3.
  assert (Hc3 : ts_chain (tc_trx c3) = ts_chain (tc_trx c1)).
  { unfold in_state in E3. destruct (last (actions trx)) as [x|]; [|done].
    destruct (schedule_new_action _ _ _ _ _ _) as [t [o'|y]] eqn:Es; [|done]. injection E3 as <- _. by apply schedule_new_spec in Es as [_ ->]. }
  apply fuel_Ok_inv in E as (c4 & [] & E4 & E). unfold in_fuel in E4.
  destruct (execute_action _ _ _ _ _) as [[t [x|y]]|] eqn:Ex; [|done|done]. injection E4 as <-. apply execute_action_inputs in Ex.
  unfold now in E. injection E as E%finalize_inputs. unfold inputs_of in *. rewrite E. simpl. rewrite Ex, Hc3, E1. done.
Qed.

(** What the controller runs itself or by schedule records no transaction. *)
Lemma failed_state (s : chain) (e : exn) (o : outcome) : failed s e = Ok o -> out_state o = s.
Proof. unfold failed. destruct (rethrown e); [done|]. by intros [= <-]. Qed.

Lemma finished_state (c : transaction_context) (t : receipt_trx packed_transaction) (st : status_enum) (cpu : Z) (o : outcome) :
  finished c t st cpu = Ok o -> out_state o = ts_chain (tc_trx c).
Proof. unfold finished. intros (r & _ & [= <-])%bind_ok_inv. done. Qed.

Lemma run_implicit_inputs (nd : node_config) (fuel : nat) (env : exec_env) (light : bool) (words : option Z) (cpu : Z) (t : packed_transaction) (o : outcome) :
  run_transaction nd fuel env light true words cpu t = Ok o -> input_transactions (out_state o) = input_transactions (env_state env).
Proof.
  unfold run_transaction. intros E. destruct (transaction_body _ _ _ _ _ _ _) as [[c [u|x]]|] eqn:Eb; [|by apply failed_state in E as ->|done].
  injection E as <-. destruct (keeps_transactions nd env); [|done]. simpl. by apply implicit_inputs in Eb.
Qed.

Lemma run_input_records (nd : node_config) (fuel : nat) (env : exec_env) (light : bool) (words : option Z) (cpu : Z) (t : packed_transaction) (o : outcome) :
  bc_replay_head_time (env_context env) = None -> bc_producing (env_context env) = false ->
  run_transaction nd fuel env light false words cpu t = Ok o -> out_except o = None ->
  let trx := get_transaction t in
  input_transactions (env_state env) !! transaction_id trx = None /\
  input_transactions (out_state o) = <[transaction_id trx := trx_expiration trx]> (input_transactions (env_state env)) /\
  (light = false -> env_time env <= trx_expiration trx * 1000000).
Proof.
  intros Hr Hp E Hx trx. unfold run_transaction in E. rewrite Hr in E.
  assert (Hf : forall s x, failed s x = Ok o -> False).
  { intros s x. unfold failed. destruct (rethrown x); [done|]. by intros [= <-]. }
  destruct (transaction_body _ _ _ _ _ _ _) as [[c [u|x]]|] eqn:Eb; [|by apply Hf in E|done].
  destruct (finished _ _ _ _) as [o'|x] eqn:Ef; [|by apply Hf in E]. unfold keeps_transactions in E. rewrite Hp, orb_true_r in E. injection E as <-.
  apply finished_state in Ef. rewrite Ef. by apply body_records in Eb.
Qed.

Lemma push_scheduled_inputs (nd : node_config) (fuel : nat) (env : exec_env) (cpu : Z) (i : digest) (o : outcome) :
  push_scheduled nd fuel env cpu i = Ok o -> input_transactions (out_state o) = input_transactions (env_state env).
Proof.
  unfold push_scheduled. intros E. destruct (db_find_by _ _ _) as [g|]; [|done]. apply bind_ok_inv in E as (table & _ & E). cbv zeta in E.
  set (removed := with_auth_db _ _) in E. assert (Hrm : input_transactions removed = input_transactions (env_state env)) by done.
  assert (Hh : forall x, hard_failure env cpu i removed x = Ok o -> input_transactions (out_state o) = input_transactions (env_state env)).
  { intros x. unfold hard_failure. destruct (subjective_for env x); [by intros [= <-]|]. intros (r & _ & [= <-])%bind_ok_inv. done. }
  assert (Hf : forall e x, failure fuel env e cpu i removed g x = Ok o -> input_transactions (out_state o) = input_transactions (env_state env)).
  { intros e x. unfold failure. destruct (rethrown x); [done|]. destruct (_ && _); [|apply Hh].
    destruct (onerror_body _ _ _ _ _) as [[c [u|y]]|] eqn:Eo; [|destruct (rethrown y); [done|apply Hh]|done].
    destruct (finished _ _ _ _) as [o'|y] eqn:Ef; [|destruct (rethrown y); [done|apply Hh]]. intros [= <-]. apply finished_state in Ef as ->.
    apply onerror_inputs in Eo. by rewrite Eo. }
  apply bind_ok_inv in E as (_ & _ & E). apply bind_ok_inv in E as (dtrx & _ & E). destruct (expiration g <? env_time env).
  { apply bind_ok_inv in E as (r & _ & [= <-]). done. }
  destruct (deferred_body _ _ _ _ _) as [[c [u|x]]|] eqn:Eb; [|by apply Hf in E|done].
  destruct (finished _ _ _ _) as [o'|x] eqn:Ef; [|by apply Hf in E]. injection E as <-. apply finished_state in Ef as ->.
  apply deferred_inputs in Eb. by rewrite Eb.
Qed.

(** A transaction that is refused again changes nothing. *)
Lemma refused_fails (nd : node_config) (fuel : nat) (env : exec_env) (cpu : Z) (t : packed_transaction) :
  bc_replay_head_time (env_context env) = None ->
  refused_again (trx_env_of nd env false true) (transaction_id (get_transaction t)) (get_transaction t) (env_state env) ->
  exists x, run_transaction nd fuel env false false None cpu t = failed (env_state env) x.
Proof.
  intros Hr Href. unfold run_transaction. rewrite Hr. cbn [negb]. set (e := trx_env_of nd env false true) in *. set (trx := get_transaction t) in *.
  assert (Hx : exists c x, (u ← lift (get_unprunable_size t); p ← lift (get_prunable_size t); init_for_input_trx e (transaction_id trx) trx u p false)
                             (new_trx_context (env_state env)) = (c, Throw x)).
  { set (m := u ← lift _; _). destruct (m (new_trx_context (env_state env))) as [c1 [u|x]] eqn:E1; [exfalso|by exists c1, x]. unfold m in E1.
    do 2 apply bind_Ok_inv in E1 as (? & ? & [-> _]%lift_Ok & E1). unfold init_for_input_trx in E1.
    apply bind_Ok_inv in E1 as (c3 & [] & E3 & E1). unfold check_extensions, disallow_transaction_extensions in E3.
    destruct (0 <? _)%nat; [by destruct (te_producing e)|]. injection E3 as <-. apply bind_Ok_inv in E1 as (c4 & s' & E4 & E1). injection E4 as <- <-.
    match type of E1 with init_for_input_trx_common _ _ _ ?n _ _ = _ => destruct (Href n) as (c & x & E & _) end. by rewrite E in E1. }
  destruct Hx as (c & x & Hx). exists x. unfold transaction_body. fold trx. unfold mbind at 1, F_bind at 1, now at 1. by rewrite Hx.
Qed.

(** ** Scheduled transactions *)

(** What becomes of the scheduled transaction [g], which is taken out of the table in [removed]. *)
Definition retired (nd : node_config) (fuel : nat) (env : exec_env) (g : generated_transaction_object) (trx : transaction)
    (removed : chain) (o : outcome) (st : status_enum) : Prop :=
  let enforce := (sender g =? 0) || negb (sender_avoids_whitelist_blacklist_enforcement (nd_lists nd) (sender g)) in
  let e := trx_env_of nd env false enforce in
  let did body := exists c u, body (new_trx_context removed) = Some (c, Ok u) /\ out_state o = ts_chain (tc_trx c) /\
                    out_digests o = executed_action_receipt_digests (tc_trx c) /\ out_except o = None in
  let nothing := out_state o = removed /\ out_digests o = [] in
  match st with
  | executed => env_time env <= expiration g /\ did (deferred_body fuel e g trx)
  | soft_fail => env_time env <= expiration g /\ sender g <> 0 /\ did (onerror_body fuel e g (onerror_transaction env g))
  | hard_fail => env_time env <= expiration g /\ nothing /\ exists x, out_except o = Some x /\ failure_is_subjective x = false
  | expired => expiration g < env_time env /\ nothing /\ out_except o = None
  | delayed => False
  end.

Lemma subjective_wider (env : exec_env) (x : exn) : subjective_for env x = false -> failure_is_subjective x = false.
Proof. unfold subjective_for, scheduled_failure_is_subjective. destruct (bc_producing _); [by destruct x|done]. Qed.

Definition known_id (s : chain) (i : digest) : option generated_transaction_object :=
  db_find_by by_trx_id (generated (auth_db s)) [hash0 i; hash1 i; hash2 i; hash3 i].

(** One receipt, for the transaction [i], with the status [st]. *)
Definition receipt_for (o : outcome) (i : digest) (st : status_enum) : Prop :=
  exists h, out_receipts o = [mk_receipt h (trx_id i)] /\ status h = st.

Lemma finished_receipt (c : transaction_context) (i : digest) (st : status_enum) (cpu : Z) (o : outcome) :
  finished c (trx_id i) st cpu = Ok o ->
  receipt_for o i st /\ out_state o = ts_chain (tc_trx c) /\ out_digests o = executed_action_receipt_digests (tc_trx c) /\
  out_except o = None.
Proof. unfold finished, push_receipt. intros E. bind_ok_pairs. split_and!; try done. by eexists. Qed.

Lemma hard_failure_spec (nd : node_config) (fuel : nat) (env : exec_env) (cpu : Z) (i : digest) (g : generated_transaction_object)
    (trx : transaction) (removed : chain) (x : exn) (o : outcome) :
  env_time env <= expiration g -> hard_failure env cpu i removed x = Ok o ->
  (exists x, o = mk_outcome (env_state env) [] [] (Some x) /\ subjective_for env x = true) \/
  exists st, receipt_for o i st /\ retired nd fuel env g trx removed o st.
Proof.
  intros Ht E. unfold hard_failure in E. destruct (subjective_for env x) eqn:Es; [left; injection E as <-; by eexists|].
  right. exists hard_fail. unfold push_receipt in E. simpl in E. injection E as <-. split; [by eexists|]. split_and!; try done.
  exists x. split; [done|]. by eapply subjective_wider.
Qed.

End pushing.
