(* ===== verification/Production.v ===== *)
(** * Produced blocks

    A block that a node produces is accepted by every other node. The two nodes run the same code with different settings:
    the producer refuses transactions for reasons of its own, and the others recompute what it has done. What they need of
    the execution of transactions is the interface [Validates]: a transaction that leaves a receipt has the same
    outcome on a node that applies this receipt, and one that leaves none has changed nothing. What is shown against
    it: the blocks that the two build are equal, and so are their headers and the states of the chain after them. *)

From S2P Require Import Prelude Effects Types BlockTimestamp Authority Merkle BlockHeader UndoIndex Database AuthorizationManager Whitelist.
From S2P Require Import ProtocolFeatures FeatureProofs BlockHeaderState HeaderChain ForkDatabase Proposals Controller BlockExecution PushTransaction.

Lemma on_exception_returns {S A} (m : M S A) (h : M S unit) (s s' : S) (a : A) : on_exception m h s = (s', Ok a) -> m s = (s', Ok a).
Proof. rewrite on_exception_eq. destruct (m s) as [s1 [b|e]]; [done|]. by destruct (h s1) as [s2 [|]]. Qed.

(** ** The interface *)
Section interface.
Context {T C : Type}.
Abbreviation exec_env := (exec_env (T := T) (C := C)).
Abbreviation outcome := (outcome (T := T) (C := C)).
Abbreviation Execution := (Execution (T := T) (C := C)).

(** The blocks are equal but for the root of the transactions, which a node that applies a block takes from its header. *)
Definition same_block (bb bb' : building_block T) : Prop := with_mroot bb' digest_zero = with_mroot bb digest_zero.

(** Where a node that applies the block executes the transaction. *)
Definition elsewhere (env : exec_env) (bb' : building_block T) : exec_env :=
  mk_env (mk_block_context (bc_head (env_context env)) false (bc_rate (env_context env)) None) (env_state env) (env_manager env) bb' false.

(** What a transaction without a receipt leaves. *)
Definition unchanged (env : exec_env) (o : outcome) : Prop :=
  out_state o = env_state env /\ out_receipts o = [] /\ out_digests o = [].

Definition failure_of (r : result outcome) : option exn :=
  match r with Ok o => out_except o | Throw e => Some e end.

(** The outcome [o] on the producer is confirmed elsewhere by [again], given the processor time of the receipt. *)
Definition confirmed_by (env : exec_env) (t : receipt_trx T) (o : outcome) (again : Z -> result outcome) : Prop :=
  unchanged env o \/ exists r, out_receipts o = [r] /\ receipt_of r = t /\
    (out_except o = None \/ status (receipt_header r) = hard_fail /\ exists i, t = trx_id i) /\
    again (cpu_usage_us (receipt_header r)) = Ok o.

(** [E'] executes on another node what [E] executes on the node that produces. *)
Class Validates (E E' : Execution) : Prop := {
  validates_push env bb' cpu t o :
    same_block (env_block env) bb' -> bc_replay_head_time (env_context env) = None -> env_light env = false ->
    push_transaction (Execution := E) env None cpu t = Ok o ->
    confirmed_by env (trx_packed t) o (fun cpu' => push_transaction (Execution := E') (elsewhere env bb') None cpu' t);
  validates_scheduled env bb' cpu i o :
    same_block (env_block env) bb' -> push_scheduled_transaction (Execution := E) env cpu i = Ok o ->
    confirmed_by env (trx_id i) o (fun cpu' => push_scheduled_transaction (Execution := E') (elsewhere env bb') cpu' i);
  validates_on_block env :
    bc_replay_head_time (env_context env) = None ->
    (forall e, failure_of (on_block (Execution := E) env) = Some e -> failure_is_subjective e = false) ->
    on_block (Execution := E') (elsewhere env (env_block env)) = on_block (Execution := E) env;
  on_block_receipts env o : on_block (Execution := E) env = Ok o -> out_receipts o = [];
  same_receipt_digest r : receipt_digest (Execution := E') r = receipt_digest (Execution := E) r
}.
End interface.

(** ** Building the block twice *)
Section building.
Context {T C : Type} `{Crypto} `{Serialization} `{FeatureDigests} (E E' : Execution (T := T) (C := C)) `{!Validates E E'}.
Context (intrinsic_hash : string -> Z).
Abbreviation work := (work (T := T) (C := C)).
Abbreviation receipts := (list (transaction_receipt T)).

(** The context of the block on a node that applies it. *)
Definition applied_in (bc : block_context) : block_context := mk_block_context (bc_head bc) false (bc_rate bc) None.

Lemma building_stage_eq {A} (k : building_block T -> M work A) (w : work) (bb : building_block T) :
  w_stage w = building bb -> (building_stage ≫= k) w = k bb w.
Proof. intros Hw. unfold building_stage. rewrite bind_eq, get_bind, Hw. done. Qed.

Definition recorded (o : outcome) (w : work) (bb : building_block T) : work :=
  set_stage (building (with_receipts (H2 := E) bb o)) (set_state (out_state o) w).

Lemma record_eq (o : outcome) (w : work) (bb : building_block T) :
  w_stage w = building bb -> record_outcome (H2 := E) o w = (recorded o w bb, Ok tt).
Proof. intros Hw. unfold record_outcome. by rewrite (building_stage_eq _ _ _ Hw). Qed.

(** *** The start of the block *)

(** How the on-block transaction fails, if it does. *)
Definition on_block_failure (bc : block_context) : M work (option exn) :=
  bb ← building_stage;
  _ ← start_features intrinsic_hash (_new_protocol_feature_activations bb);
  _ ← start_proposals;
  w ← get;
  bb ← building_stage;
  mret (failure_of (on_block (Execution := E) (mk_env bc (w_state w) (w_manager w) bb false))).

Definition on_block_fair (bc : block_context) (w : work) : Prop :=
  forall e, snd (on_block_failure bc w) = Ok (Some e) -> failure_is_subjective e = false.

Lemma on_block_elsewhere (bc : block_context) (w : work) (bb : building_block T) :
  bc_replay_head_time bc = None -> w_stage w = building bb ->
  (forall e, failure_of (on_block (Execution := E) (mk_env bc (w_state w) (w_manager w) bb false)) = Some e -> failure_is_subjective e = false) ->
  run_on_block (H2 := E') (applied_in bc) w = run_on_block (H2 := E) bc w.
Proof using Validates0.
  intros Hr Hw Hx. unfold run_on_block. rewrite !get_bind, !(building_stage_eq _ _ _ Hw).
  pose proof (validates_on_block (mk_env bc (w_state w) (w_manager w) bb false) Hr Hx) as Eo.
  change (elsewhere _ _) with (mk_env (applied_in bc) (w_state w) (w_manager w) bb false) in Eo. rewrite Eo.
  destruct (on_block (Execution := E) _) as [o|e] eqn:Ex; [|done]. apply on_block_receipts in Ex.
  unfold record_outcome. rewrite !(building_stage_eq _ _ _ Hw). unfold with_receipts. by rewrite Ex.
Qed.

Lemma start_elsewhere (bc : block_context) (w : work) :
  bc_replay_head_time bc = None -> on_block_fair bc w ->
  start_body (H2 := E') intrinsic_hash (applied_in bc) w = start_body (H2 := E) intrinsic_hash bc w.
Proof using Validates0.
  intros Hr Hx. unfold on_block_fair, on_block_failure in Hx. unfold start_body. rewrite !(bind_eq building_stage).
  rewrite (bind_eq building_stage) in Hx. destruct (building_stage w) as [w0 [bb0|e]]; [|done].
  rewrite !(bind_eq (start_features _ _)). rewrite (bind_eq (start_features _ _)) in Hx.
  destruct (start_features _ _ w0) as [w1 [u|e]]; [|done].
  rewrite !(bind_eq start_proposals). rewrite (bind_eq start_proposals) in Hx. destruct (start_proposals w1) as [w2 [u'|e]]; [|done].
  rewrite !(bind_eq (run_on_block _)). destruct (w_stage w2) as [bb|ab|p] eqn:Ew.
  - rewrite get_bind, (building_stage_eq _ _ _ Ew) in Hx. rewrite (on_block_elsewhere bc w2 bb Hr Ew); [done|].
    intros e He. apply Hx. simpl. by rewrite He.
  - unfold run_on_block, building_stage, mbind, M_bind, get, lift. by rewrite Ew.
  - unfold run_on_block, building_stage, mbind, M_bind, get, lift. by rewrite Ew.
Qed.

(** The block that is built: on the pending header [pb], with the features [l]. *)
Definition builds (pb : pending_block_header_state) (l : list digest) (bb : building_block T) : Prop :=
  bb_pbhs bb = pb /\ _new_protocol_feature_activations bb = l /\
  _trx_mroot_or_receipt_digests bb = inr (map (receipt_digest (Execution := E)) (_pending_trx_receipts bb)).

Definition started (pb : pending_block_header_state) (l : list digest) (w : work) : Prop :=
  exists bb, w_stage w = building bb /\ builds pb l bb /\ _pending_trx_receipts bb = [].

Section started.
Context (pb : pending_block_header_state) (l : list digest).
Abbreviation preserves m := (triple (started pb l) m (fun _ => started pb l) (fun _ => True)).

Lemma started_bind {A B} (m : M work A) (f : A -> M work B) : preserves m -> (forall a, preserves (f a)) -> preserves (m ≫= f).
Proof. intros Hm Hf. by apply (triple_bind _ _ m f (fun _ => started pb l)). Qed.

Lemma started_update (f : work -> work) : (forall w, started pb l w -> started pb l (f w)) -> preserves (update f).
Proof. intros Hf w Hw. by apply Hf. Qed.

Lemma started_activation (bn : Z) (m : gmap digest bool) (k : nat) (fs : list digest) : preserves (activation_loop intrinsic_hash bn m k fs).
Proof.
  revert m k. induction fs as [|d fs IH]; intros m k; simpl; [by intros w|]. intros w (bb & Hw & Hb & Hr).
  rewrite get_bind, (building_stage_eq _ _ _ Hw), lift_bind. destruct (activation_step _ _ _ d) as [st|e]; [|done].
  rewrite update_bind. apply IH. by exists (with_activated bb).
Qed.

Lemma started_check (b : bool) (e : exn) : preserves (check b e).
Proof. intros w Hw. unfold check, lift. by destruct b. Qed.

Lemma started_features (fs : list digest) : preserves (start_features intrinsic_hash fs).
Proof.
  intros w Hw. unfold start_features. rewrite get_bind. pose proof Hw as (bb & Hs & _). rewrite (building_stage_eq _ _ _ Hs).
  destruct fs as [|d fs]; [by apply started_check|]. revert w Hw Hs. intros w Hw _. eapply started_bind; [apply started_activation| |done].
  intros k. apply started_bind; [apply started_check|]. intros _. apply started_update. intros w' (bb' & Hw' & Hb'). by exists bb'.
Qed.

Lemma started_proposals : preserves start_proposals.
Proof.
  intros w Hw. unfold start_proposals. rewrite get_bind. destruct Hw as (bb & Hs & Hb & Hr). rewrite (building_stage_eq _ _ _ Hs), lift_bind.
  destruct (promote_schedule _ _) as [[g np]|e]; [|done]. rewrite lift_bind. destruct (promote_rate _ _) as [[g' nr]|e]; [|done].
  eexists. split; [reflexivity|]. by split.
Qed.

Lemma started_on_block (bc : block_context) : preserves (run_on_block (H2 := E) bc).
Proof using Validates0.
  intros w Hw. pose proof Hw as (bb & Hs & (H1' & H2' & H3') & Hr). unfold run_on_block. rewrite get_bind, (building_stage_eq _ _ _ Hs).
  destruct (on_block _) as [o|e] eqn:Eo; [|done]. rewrite (record_eq _ _ _ Hs). apply on_block_receipts in Eo.
  eexists. split; [reflexivity|]. unfold builds. simpl. rewrite H3', Hr, Eo. done.
Qed.

Lemma started_clear : preserves clear_expired_input_transactions.
Proof.
  intros w (bb & Hs & Hb). unfold clear_expired_input_transactions. rewrite (building_stage_eq _ _ _ Hs). by exists bb.
Qed.

Lemma started_authority : preserves update_producers_authority.
Proof.
  intros w (bb & Hs & Hb). unfold update_producers_authority. rewrite (building_stage_eq _ _ _ Hs), get_bind.
  do 3 (rewrite lift_bind; destruct (update_permission _ _ _ _ _); [|done]). by exists bb.
Qed.

Lemma started_body (bc : block_context) : preserves (start_body (H2 := E) intrinsic_hash bc).
Proof using Validates0.
  intros w Hw. pose proof Hw as (bb & Hs & _). unfold start_body. rewrite (building_stage_eq _ _ _ Hs).
  eapply started_bind; [apply started_features| |done]. intros _. apply started_bind; [apply started_proposals|]. intros _.
  apply started_bind; [apply started_on_block|]. intros _. apply started_bind; [apply started_clear|]. intros _. apply started_authority.
Qed.
End started.

(** *** The transactions *)
Inductive push := push_input (cpu : Z) (t : T) | push_deferred (cpu : Z) (i : digest).

Definition outcome_of (p : push) (env : exec_env) : result outcome :=
  match p with
  | push_input cpu t => push_transaction (Execution := E) env None cpu t
  | push_deferred cpu i => push_scheduled_transaction (Execution := E) env cpu i
  end.

(** The work of the two nodes, with the root [d] in the header. *)
Definition same_work (d : digest) (w w' : work) : Prop :=
  w_state w' = w_state w /\ w_manager w' = w_manager w /\
  exists bb bb', w_stage w = building bb /\ w_stage w' = building bb' /\ same_block bb bb' /\ _trx_mroot_or_receipt_digests bb' = inl d.

Lemma recorded_unchanged (env : exec_env) (o : outcome) (w : work) (bb : building_block T) :
  w_stage w = building bb -> env_state env = w_state w -> unchanged env o -> recorded o w bb = w.
Proof.
  intros Hs Hst (H1' & H2' & H3'). destruct w as [s m st]. simpl in *. subst st. unfold recorded, with_receipts, set_stage, set_state. simpl.
  rewrite H1', Hst, H2', H3', !app_nil_r. simpl. destruct bb as [p np nr fs n rs mr ad]. simpl. by destruct mr; rewrite ?app_nil_r.
Qed.

(** The receipt of a push, applied on the other node *)
Definition pushed (p : push) : receipt_trx T :=
  match p with push_input _ t => trx_packed t | push_deferred _ i => trx_id i end.

Definition applied_again (t : receipt_trx T) (env : exec_env) (cpu : Z) : result outcome :=
  match t with
  | trx_packed t => push_transaction (Execution := E') env None cpu t
  | trx_id i => push_scheduled_transaction (Execution := E') env cpu i
  end.

Lemma push_confirmed (p : push) (env : exec_env) (bb' : building_block T) (o : outcome) :
  same_block (env_block env) bb' -> bc_replay_head_time (env_context env) = None -> env_light env = false ->
  outcome_of p env = Ok o -> confirmed_by env (pushed p) o (applied_again (pushed p) (elsewhere env bb')).
Proof using Validates0.
  intros Hb Hr Hl Ho. destruct p as [cpu t|cpu i].
  - exact (validates_push env bb' cpu t o Hb Hr Hl Ho).
  - exact (validates_scheduled env bb' cpu i o Hb Ho).
Qed.

Lemma same_block_receipts (bb bb' : building_block T) (o : outcome) (d : digest) :
  same_block bb bb' -> _trx_mroot_or_receipt_digests bb' = inl d ->
  same_block (with_receipts (H2 := E) bb o) (with_receipts (H2 := E') bb' o) /\
  _trx_mroot_or_receipt_digests (with_receipts (H2 := E') bb' o) = inl d /\
  _pending_trx_receipts (with_receipts (H2 := E') bb' o) = _pending_trx_receipts bb' ++ out_receipts o.
Proof.
  intros Hs Hd. unfold same_block, with_mroot, with_receipts in *. injection Hs as E1 E2 E3 E4 E5 E6 E7.
  simpl. by rewrite Hd, E1, E2, E3, E4, E5, E6, E7.
Qed.

Lemma receipt_applied (bc : block_context) (d : digest) (w w' : work) (bb : building_block T) (p : push) (o : outcome) :
  bc_replay_head_time bc = None -> same_work d w w' -> w_stage w = building bb ->
  outcome_of p (mk_env bc (w_state w) (w_manager w) bb false) = Ok o ->
  recorded o w bb = w \/
  exists r w1', out_receipts o = [r] /\ apply_receipt (H2 := E') (applied_in bc) false r w' = (w1', Ok tt) /\ same_work d (recorded o w bb) w1'.
Proof using Validates0.
  intros Hr (Hst & Hm & bb0 & bb' & Hs0 & Hs' & Hsame & Hd) Hs Ho. rewrite Hs in Hs0. injection Hs0 as <-.
  set (env := mk_env bc (w_state w) (w_manager w) bb false) in *.
  destruct (push_confirmed p env bb' o Hsame Hr eq_refl Ho) as [Hu|(r & Hrs & Ht & Hx & Ha)]; [left; exact (recorded_unchanged env o w bb Hs eq_refl Hu)|]. right.
  destruct (same_block_receipts bb bb' o d Hsame Hd) as (Hsame1 & Hd1 & Hl1).
  exists r, (set_stage (building (with_receipts (H2 := E') bb' o)) (set_state (out_state o) w')). split; [done|]. split.
  2:{ split_and!; [done|done|]. by eexists _, _. }
  unfold apply_receipt. rewrite get_bind, (building_stage_eq _ _ _ Hs'), lift_bind, Hst, Hm.
  change (mk_env (applied_in bc) (w_state w) (w_manager w) bb' false) with (elsewhere env bb').
  assert (Ha' : match receipt_of r with
    | trx_packed t => push_transaction (Execution := E') (elsewhere env bb') None (cpu_usage_us (receipt_header r)) t
    | trx_id i => push_scheduled_transaction (Execution := E') (elsewhere env bb') (cpu_usage_us (receipt_header r)) i
    end = Ok o) by (rewrite Ht; exact Ha).
  rewrite Ha'. rewrite (bind_Ok _ _ _ (set_stage (building (with_receipts (H2 := E') bb' o)) (set_state (out_state o) w')) tt).
  2:{ unfold record_outcome. by rewrite (building_stage_eq _ _ _ Hs'). }
  rewrite (bind_Ok _ _ _ (set_stage (building (with_receipts (H2 := E') bb' o)) (set_state (out_state o) w')) tt).
  2:{ destruct Hx as [->|[-> [i Hi]]]; [done|]. rewrite Ht, Hi. simpl. by destruct (out_except o). }
  rewrite (building_stage_eq _ _ (with_receipts (H2 := E') bb' o)) by done. rewrite Hl1, Hrs, length_app, last_snoc. simpl.
  rewrite !check_bind, (proj2 (Nat.ltb_lt _ _)), (proj2 (Nat.eqb_eq _ _)) by lia. by rewrite bool_decide_eq_true_2.
Qed.

(** What the other node has done when it has applied the receipts of the block so far. *)
Definition followed (bc : block_context) (d : digest) (pb : pending_block_header_state) (l : list digest) (w0 w : work) : Prop :=
  w_manager w = w_manager w0 /\ exists bb w', w_stage w = building bb /\ builds pb l bb /\
    for_each (apply_receipt (H2 := E') (applied_in bc) false) (_pending_trx_receipts bb) w0 = (w', Ok tt) /\ same_work d w w'.

Lemma push_followed (bc : block_context) (d : digest) (pb : pending_block_header_state) (l : list digest) (w0 w : work)
    (bb : building_block T) (p : push) (o : outcome) :
  bc_replay_head_time bc = None -> followed bc d pb l w0 w -> w_stage w = building bb ->
  outcome_of p (mk_env bc (w_state w) (w_manager w) bb false) = Ok o -> followed bc d pb l w0 (recorded o w bb).
Proof using Validates0.
  intros Hr Hf Hs Ho. pose proof Hf as (Hm & bb0 & w' & Hs0 & (B1 & B2 & B3) & Hfor & Hsame). rewrite Hs in Hs0. injection Hs0 as <-.
  destruct (receipt_applied bc d w w' bb p o Hr Hsame Hs Ho) as [->|(r & w1' & Hrs & Ha & Hsame1)]; [done|].
  split; [done|]. exists (with_receipts (H2 := E) bb o), w1'. split; [done|]. split; [|split; [|done]].
  - split_and!; [done|done|]. simpl. by rewrite B3, map_app.
  - simpl. rewrite Hrs, for_each_app, (bind_Ok _ _ _ _ _ Hfor). simpl. by rewrite (bind_Ok _ _ _ _ _ Ha).
Qed.

(** *** The end of the block *)
Record assembled_as (pb : pending_block_header_state) (l : list digest) (bb : building_block T) (w w2 : work) (h : signed_block_header) : Prop := {
  as_header : exists tm am, merkle hash_pair (map (receipt_digest (Execution := E)) (_pending_trx_receipts bb)) = Ok tm /\
    make_block_header pb tm am (_new_pending_producer_schedule bb) (_new_pending_rate_info bb) l
      (get_builtin_digest (_protocol_feature_set (w_manager w))) = Ok h;
  as_stage : w_stage w2 = assembled (mk_assembled (calculate_id (h_base h)) pb h (_pending_trx_receipts bb)
    (_new_pending_producer_schedule bb) (_new_pending_rate_info bb));
  as_features : w_manager w2 = w_manager w
}.

Lemma make_block_header_mroot (pb : pending_block_header_state) (tm am : digest) (np : option producer_authority_schedule)
    (nr : option producer_rate_info) (l : list digest) (pfs : builtin_digests) (h : signed_block_header) :
  make_block_header pb tm am np nr l pfs = Ok h ->
  h_transaction_mroot (h_base h) = tm /\ h_timestamp (h_base h) = timestamp pb /\ h_confirmed (h_base h) = confirmed pb /\
  h_previous (h_base h) = previous pb.
Proof. unfold make_block_header. intros ([x y] & _ & [= <-])%bind_ok_inv. done. Qed.

Lemma finalize_elsewhere (d : digest) (pb : pending_block_header_state) (l : list digest) (w w' w2 : work) (bb : building_block T) :
  w_stage w = building bb -> builds pb l bb -> same_work d w w' -> finalize_body w = (w2, Ok tt) ->
  exists h, assembled_as pb l bb w w2 h /\ (d = h_transaction_mroot (h_base h) -> finalize_body w' = (w2, Ok tt)).
Proof.
  intros Hs (B1 & B2 & B3) (Hst & Hm & bb0 & bb' & Hs0 & Hs' & Hsame & Hd). rewrite Hs in Hs0. injection Hs0 as <-.
  unfold finalize_body. rewrite !get_bind, Hs, Hs', !lift_bind. unfold same_block in Hsame. injection Hsame as E1 E2 E3 E4 E5 E6 E7.
  rewrite E7. destruct (merkle _ (_action_receipt_digests bb)) as [am|e]; [|done]. rewrite !lift_bind, B3, Hd.
  destruct (merkle _ (map _ _)) as [tm|e] eqn:Et; [|done]. rewrite !lift_bind, E1, E2, E3, E4, Hm, B1, B2, E6.
  destruct (make_block_header pb tm _ _ _ _ _) as [h|e] eqn:Eh; [|done].
  destruct (make_block_header_mroot _ _ _ _ _ _ _ _ Eh) as (Htm & _). rewrite !bind_eq. unfold create_block_summary at 1.
  rewrite get_bind. destruct (_ !! _) as [x|] eqn:Ex; [|done]. unfold update, set_stage, set_state. cbn [w_state w_manager w_stage].
  intros Hw%(f_equal fst). cbn [fst] in Hw. subst w2. exists h. split; [split; [by eexists _, _|done..]|].
  intros ->. rewrite Htm, Eh, bind_eq. unfold create_block_summary. rewrite get_bind, Hst, Ex.
  unfold update, set_stage, set_state. cbn [w_state w_manager w_stage]. by rewrite Hst, Hm.
Qed.
End building.

(** ** The header *)
Section header.
Context `{Crypto} `{Serialization} `{FeatureDigests}.

Lemma reflector_init_nodup (l : list digest) (s : gset digest) :
  reflector_init_loop l s = Ok tt -> NoDup l /\ forall d, d ∈ l -> d ∉ s.
Proof.
  revert s. induction l as [|d l IH]; intros s; simpl; [split; [constructor|set_solver]|].
  case_bool_decide as Hd; [|done]. intros [ND Hs]%IH. split.
  - constructor; [|done]. intros Hin. by apply Hs in Hin as []%not_elem_of_union; set_solver.
  - intros x [->|Hx]%elem_of_cons; [done|]. apply Hs in Hx. set_solver.
Qed.

(** The extensions of a header that a producer has made can be read. *)
Lemma made_features_distinct `{!SerializationLaws _} (p : pending_block_header_state) (tm am : digest) (np : option producer_authority_schedule)
    (nr : option producer_rate_info) (l : list digest) (pfs : builtin_digests) (h : signed_block_header) (exts : list (Z * block_header_extension)) :
  make_block_header p tm am np nr l pfs = Ok h -> validate_and_extract_header_extensions (h_base h) = Ok exts -> NoDup l.
Proof.
  intros Eh Ex. destruct l as [|d l]; [constructor|]. unfold make_block_header in Eh. cbn [length Nat.ltb Nat.leb] in Eh.
  apply bind_ok_inv in Eh as ([es lp] & El & [= <-]). unfold validate_and_extract_header_extensions in Ex. cbn [h_base h_header_extensions] in Ex.
  assert (Hes : exists rest, es = (pfa_extension_id, pack_features (d :: l)) :: rest).
  { destruct np as [sch|]; [|injection El as <- _; by eexists]. destruct (is_builtin_activated _ _ _); [injection El as <- _; by eexists|].
    apply bind_ok_inv in El as (x & _ & [= <- _]). by eexists. }
  destruct Hes as [rest ->]. cbn [extract_loop] in Ex. unfold extract in Ex. simpl in Ex. rewrite unpack_pack_features in Ex.
  cbn [mbind result_bind] in Ex. destruct (reflector_init (d :: l)) as [[]|e] eqn:Er; [|done].
  unfold reflector_init in Er. cbn [length Nat.ltb Nat.leb dcd_assert mbind result_bind] in Er. by apply reflector_init_nodup in Er as [].
Qed.

Definition feature_extension (l : list digest) : list (Z * block_header_extension) :=
  if (0 <? length l)%nat then [(pfa_extension_id, pfa_extension l)] else [].

Lemma other_extensions (rest : list (Z * block_header_extension)) :
  Forall (fun e => fst e = schedule_change_extension_id) rest -> ext_count pfa_extension_id rest = 0%nat.
Proof.
  unfold ext_count. induction 1 as [|e rest He _ IH]; [done|]. rewrite filter_cons_False; [done|]. rewrite He. done.
Qed.

Lemma finish_extensions (p : pending_block_header_state) (h : signed_block_header) (pfs : builtin_digests) (v : activation_validator)
    (s : block_header_state) :
  _finish_next p h pfs v = Ok s ->
  validate_and_extract_header_extensions (h_base h) = Ok (header_exts s) /\ id s = calculate_id (h_base h) /\ header s = h.
Proof. unfold _finish_next. intros E. bind_ok. done. Qed.

Lemma made_extensions `{!SerializationLaws _} (p : pending_block_header_state) (tm am : digest) (np : option producer_authority_schedule)
    (nr : option producer_rate_info) (l : list digest) (pfs : builtin_digests) (h : signed_block_header) (v : activation_validator)
    (s : block_header_state) :
  make_block_header p tm am np nr l pfs = Ok h -> _finish_next p h pfs v = Ok s ->
  exists rest, header_exts s = feature_extension l ++ rest /\ Forall (fun e => fst e = schedule_change_extension_id) rest.
Proof.
  intros Eh (Ex & _)%finish_extensions. pose proof (made_features_distinct _ _ _ _ _ _ _ _ _ Eh Ex) as ND.
  destruct (make_block_header_exts _ _ _ _ _ _ _ _ ND Eh) as (lp & _ & Ex' & _). rewrite Ex in Ex'. injection Ex' as ->.
  eexists. split; [reflexivity|]. destruct np; [destruct (is_builtin_activated _ _ _); repeat constructor|constructor].
Qed.

Lemma made_activations (s : block_header_state) (l : list digest) (rest : list (Z * block_header_extension)) :
  header_exts s = feature_extension l ++ rest -> Forall (fun e => fst e = schedule_change_extension_id) rest ->
  get_new_protocol_feature_activations s = Ok l.
Proof.
  intros Hx Hr. unfold get_new_protocol_feature_activations. rewrite Hx. destruct l as [|d l]; simpl; [by rewrite (other_extensions rest Hr)|done].
Qed.

(** Another validator of features, and a signature, change neither the checks nor what they lead to. *)
Lemma finish_again (p : pending_block_header_state) (h : signed_block_header) (pfs : builtin_digests) (v' : activation_validator)
    (s : block_header_state) (l : list digest) (rest : list (Z * block_header_extension)) (sg : signature) :
  _finish_next p h pfs (fun _ _ _ => Ok tt) = Ok s ->
  header_exts s = feature_extension l ++ rest -> Forall (fun e => fst e = schedule_change_extension_id) rest ->
  (l = [] \/ v' (timestamp p) (prev_activated_protocol_features p) l = Ok tt) ->
  _finish_next p (mk_signed_header (h_base h) sg) pfs v' = Ok (with_signatures s (mk_signed_header (h_base h) sg) []).
Proof.
  intros E Hx Hrest Hv. pose proof (proj1 (finish_extensions _ _ _ _ _ E)) as Ex.
  assert (Hc : check_feature_activation p (header_exts s) v' = check_feature_activation p (header_exts s) (fun _ _ _ => Ok tt)).
  { rewrite Hx. unfold check_feature_activation. destruct l as [|d l]; simpl.
    - pose proof (other_extensions rest Hrest) as Ho. unfold pfa_extension_id in Ho. rewrite Ho. done.
    - destruct Hv as [|Hv]; [done|]. by rewrite Hv. }
  clear Hx. revert Ex Hc. generalize (header_exts s). intros exts Ex Hc. unfold _finish_next in *. cbn [h_base].
  do 6 (match type of E with mbind _ ?x = _ => destruct x as [?|?]; [|done] end; cbn [mbind result_bind] in E |- *).
  rewrite Ex in E |- *. cbn [mbind result_bind] in E |- *.
  do 3 (match type of E with mbind _ ?x = _ => destruct x as [?|?]; [|done] end; cbn [mbind result_bind] in E |- *).
  rewrite Hc. destruct (check_feature_activation _ _ _); [|done]. cbn [mbind result_bind] in E |- *. by injection E as <-.
Qed.

Lemma signed_facts (p : pending_block_header_state) (h h' : signed_block_header) (pfs : builtin_digests) (v : activation_validator)
    (signer : digest -> list signature) (s : block_header_state) :
  finish_next_sign p h pfs v signer = Ok (s, h') ->
  exists s0, _finish_next p h pfs v = Ok s0 /\ header_exts s = header_exts s0 /\ h_base (header s) = h_base h /\ id s = calculate_id (h_base h).
Proof.
  unfold finish_next_sign. intros (s0 & E0 & Es)%bind_ok_inv. apply bind_ok_inv in Es as (s1 & E1 & Es). apply bind_ok_inv in Es as ([] & _ & [= <- _]).
  destruct (finish_extensions _ _ _ _ _ E0) as (_ & Hi & Hh). exists s0. split; [done|]. unfold sign in E1.
  apply bind_ok_inv in E1 as (dg & _ & E1). destruct (last (signer dg)) as [sg|]; [|done]. apply bind_ok_inv in E1 as ([] & _ & [= <-]).
  cbn [header with_signatures h_base header_exts id]. by rewrite Hh.
Qed.

(** What the producer signs is accepted by [next] with the signatures that it carries. *)
Lemma signed_accepted (head : block_header_state) (p : pending_block_header_state) (h h' : signed_block_header) (pfs : builtin_digests)
    (v' : activation_validator) (signer : digest -> list signature) (s : block_header_state) (l : list digest)
    (rest : list (Z * block_header_extension)) :
  next_pending head (h_timestamp (h_base h)) (h_confirmed (h_base h)) = Ok p ->
  finish_next_sign p h pfs (fun _ _ _ => Ok tt) signer = Ok (s, h') ->
  header_exts s = feature_extension l ++ rest -> Forall (fun e => fst e = schedule_change_extension_id) rest ->
  (l = [] \/ v' (timestamp p) (prev_activated_protocol_features p) l = Ok tt) ->
  next head (header s) (additional_signatures s) pfs v' false = Ok s.
Proof.
  intros Hp Es Hx Hrest Hv. unfold finish_next_sign in Es. apply bind_ok_inv in Es as (s0 & E0 & Es).
  apply bind_ok_inv in Es as (s1 & E1 & Es). apply bind_ok_inv in Es as ([] & Ew & [= <- _]).
  unfold sign in E1. apply bind_ok_inv in E1 as (dg & _ & E1). destruct (last (signer dg)) as [sg|]; [|done].
  apply bind_ok_inv in E1 as ([] & Evs & [= <-]). cbn [header with_signatures additional_signatures header_exts] in *.
  destruct (finish_extensions _ _ _ _ _ E0) as (_ & _ & Hh). rewrite Hh in *. unfold next. cbn [h_base]. rewrite Hp. cbn [mbind result_bind].
  unfold finish_next. rewrite Ew. cbn [mbind result_bind]. rewrite (finish_again p h pfs v' s0 l rest sg E0 Hx Hrest Hv). cbn [mbind result_bind].
  destruct (removelast (signer dg)) as [|x r] eqn:Er; unfold with_signatures in *; simpl in *; by rewrite Evs.
Qed.

(** Features that may be activated may be activated later. *)
Lemma check_features_later (s : protocol_feature_set) (t t' : Z) (A : gset digest) (l : list digest) :
  t <= t' -> check_protocol_features s t A l = Ok tt -> check_protocol_features s t' A l = Ok tt.
Proof.
  intros Ht Hc. apply (check_from_spec s t' A [] l). intros i d Hd. destruct (proj1 (check_from_spec s t A [] l) Hc i d Hd) as (f & Hf & He & Hx & Hr).
  exists f. do 2 (split; [done|]). split; [lia|done].
Qed.
End header.

(** ** The block *)
Section blocks.
Context {T C : Type} `{Crypto} `{Serialization} `{!SerializationLaws _} `{FeatureDigests} (E E' : Execution (T := T) (C := C)) `{!Validates E E'}.
Context (intrinsic_hash : string -> Z) (conf : config).
Abbreviation work := (work (T := T) (C := C)).
Abbreviation controller := (controller (T := T) (C := C)).
Abbreviation push := (push (T := T)).

(** One call of the producer; an exception of it does not end the block. *)
Definition produce_one (p : push) : M controller unit :=
  catch (_ ← match p with
             | push_input cpu t => produce_transaction (H2 := E) conf cpu t
             | push_deferred cpu i => produce_scheduled (H2 := E) conf cpu i
             end; mret tt) (fun _ => mret tt).

(** The calls of a producer up to the end of the block: the start of the block, and transactions. *)
Definition produce (t n : Z) (l : list digest) (ps : list push) : M controller unit :=
  _ ← start_production (H2 := E) intrinsic_hash conf t n l; for_each produce_one ps.

Definition pending_receipts (c : controller) : list (transaction_receipt T) :=
  match pending c with
  | Some ps => match stage ps with building bb => _pending_trx_receipts bb | _ => [] end
  | None => []
  end.

(** The controller with a block that is produced on its head. *)
Definition opened (w : work) (c : controller) : controller :=
  set_pending (Some (mk_pending_state true (w_stage w) incomplete None))
    (set_features (w_manager w)
      (set_db (mk_chain_db (w_state w) (cur (kv_db c) :: undo_stack (kv_db c)) (revision (kv_db c) + 1)) c)).

Lemma in_block_opened {A} (m : M work A) (w : work) (c : controller) :
  in_block m (opened w c) = match m w with (w', r) => (opened w' c, r) end.
Proof. unfold in_block, opened. simpl. destruct w as [s ma st]. simpl. by destruct (m _) as [w' r]. Qed.

Context (c : controller) (Hidle : idle conf c) (Hmode : read_mode conf = SPECULATIVE).
Abbreviation bc := (context_of c incomplete).

Lemma started_production (t n : Z) (l : list digest) (c1 : controller) :
  start_production (H2 := E) intrinsic_hash conf t n l c = (c1, Ok tt) ->
  (l = [] \/ check_protocol_features (_protocol_feature_set (protocol_features c)) (to_time_point (h_timestamp (h_base (header (ctl_head c)))))
               (BlockHeaderState.activated_protocol_features (ctl_head c)) l = Ok tt) /\
  exists bb w, building_new (ctl_head c) t n l = Ok bb /\
    start_body (H2 := E) intrinsic_hash bc (mk_work (cur (kv_db c)) (protocol_features c) (building bb)) = (w, Ok tt) /\ c1 = opened w c.
Proof using Hidle Hmode.
  unfold start_production. rewrite get_bind. intros (c' & [] & [-> Hl]%lift_Ok & E1)%bind_Ok_inv. split.
  { destruct l; [by left|by right]. }
  destruct Hidle as [Hp Hrev _ _ _ _]. unfold start_block in E1. rewrite get_bind, Hp, check_bind in E1. cbv zeta in E1.
  apply on_exception_returns in E1. unfold skip_db_sessions in E1. simpl in E1. rewrite Hrev, Z.eqb_refl, check_bind, lift_bind in E1.
  destruct (building_new _ _ _ _) as [bb|e]; [|done]. rewrite update_bind in E1. rewrite Hmode in E1. simpl in E1.
  replace (set_pending _ _) with (opened (mk_work (cur (kv_db c)) (protocol_features c) (building bb)) c) in E1 by (by destruct c).
  rewrite in_block_opened in E1. destruct (start_body _ _ _) as [w [[]|e]] eqn:Es; [|done].
  injection E1 as <-. by exists bb, w.
Qed.

(** A call of the producer, on the block that is open. *)
Definition after_push (w : work) (bb : building_block T) (p : push) : work :=
  match outcome_of E p (mk_env bc (w_state w) (w_manager w) bb false) with Ok o => recorded E o w bb | Throw _ => w end.

Lemma push_pending_run (w : work) (bb : building_block T) (p : push) :
  w_stage w = building bb ->
  push_pending (H2 := E) conf (outcome_of E p) (opened w c) =
  (opened (after_push w bb p) c,
   match outcome_of E p (mk_env bc (w_state w) (w_manager w) bb false) with Ok o => Ok (out_except o) | Throw e => Throw e end).
Proof using Hmode.
  intros Hs. unfold push_pending, after_push. rewrite check_bind, Hmode, get_bind. cbv zeta. cbn [bool_decide negb]. rewrite in_block_opened.
  rewrite get_bind, (building_stage_eq _ _ _ Hs), lift_bind. change (mk_env _ _ _ _ _) with (mk_env bc (w_state w) (w_manager w) bb false).
  destruct (outcome_of E p _) as [o|e]; [|done]. by rewrite (bind_Ok _ _ _ _ _ (record_eq E o w bb Hs)).
Qed.

Lemma produce_one_run (w : work) (bb : building_block T) (p : push) :
  w_stage w = building bb -> produce_one p (opened w c) = (opened (after_push w bb p) c, Ok tt).
Proof using Hmode.
  intros Hs. pose proof (push_pending_run w bb p Hs) as Hp. unfold produce_one, catch. rewrite bind_eq.
  destruct p; unfold produce_transaction, produce_scheduled, outcome_of in *; rewrite Hp; by destruct (_ : result outcome).
Qed.

Lemma produced_one (d : digest) (pb : pending_block_header_state) (l : list digest) (w0 w : work) (p : push) :
  followed E E' bc d pb l w0 w ->
  exists w1, produce_one p (opened w c) = (opened w1 c, Ok tt) /\ followed E E' bc d pb l w0 w1.
Proof using Hidle Hmode Validates0.
  intros Hf. pose proof Hf as (_ & bb & _ & Hs & _). exists (after_push w bb p). split; [by apply produce_one_run|]. unfold after_push.
  destruct (outcome_of E p _) as [o|e] eqn:Eo; [|done].
  exact (push_followed E E' bc d pb l w0 w bb p o (idle_replay conf c Hidle) Hf Hs Eo).
Qed.

Lemma produced_many (d : digest) (pb : pending_block_header_state) (l : list digest) (w0 w : work) (ps : list push) :
  followed E E' bc d pb l w0 w ->
  exists w1, for_each produce_one ps (opened w c) = (opened w1 c, Ok tt) /\ followed E E' bc d pb l w0 w1.
Proof using Hidle Hmode Validates0.
  revert w. induction ps as [|p ps IH]; intros w Hf; [by exists w|]. cbn [for_each].
  destruct (produced_one d pb l w0 w p Hf) as (w1 & E1 & Hf1). rewrite (bind_Ok _ _ _ _ _ E1). by apply IH.
Qed.

Lemma finalized (a : Z) (signer : digest -> list signature) (w : work) (c2 : controller) (p : block_state_ptr) :
  finalize_block a signer (opened w c) = (c2, Ok p) ->
  exists w2 ab h, finalize_body w = (w2, Ok tt) /\ w_stage w2 = assembled ab /\
    finish_next_sign (ab_pbhs ab) (_unsigned_block ab) (get_builtin_digest (_protocol_feature_set (w_manager w2))) (fun _ _ _ => Ok tt) signer =
      Ok (bsp_state p, h) /\
    addr p = a /\ cur (kv_db c2) = w_state w2 /\ protocol_features c2 = w_manager w2.
Proof.
  unfold finalize_block. rewrite get_bind, check_bind. cbn [pending opened set_pending]. rewrite bind_eq, in_block_opened.
  destruct (finalize_body w) as [w2 [[]|e]]; [|done]. rewrite get_bind. cbn [pending opened set_pending stage].
  destruct (w_stage w2) as [|ab|] eqn:Es; [done| |done].
  rewrite lift_bind. cbn [protocol_features opened set_pending set_features].
  destruct (finish_next_sign _ _ _ _ _) as [[s h]|e] eqn:Ef; [|done].
  unfold complete_block. rewrite update_bind. intros [= <- <-]. by exists w2, ab, h.
Qed.

Lemma next_pending_fields (head : block_header_state) (t n : Z) (p : pending_block_header_state) :
  t <> 0 -> next_pending head t n = Ok p ->
  timestamp p = t /\ confirmed p = n /\ previous p = id head /\
  prev_activated_protocol_features p = BlockHeaderState.activated_protocol_features head /\ h_timestamp (h_base (header head)) < t.
Proof.
  intros Ht E1. unfold next_pending in E1. rewrite (proj2 (Z.eqb_neq t 0) Ht) in E1. cbn [negb] in E1. bind_ok_pairs. breflect. split_and!; try done.
Qed.

(** The block that this node produces with the calls of [produce]: [p] is its state, [rs] its receipts. *)
Definition produces (t n : Z) (l : list digest) (ps : list push) (a : Z) (signer : digest -> list signature)
    (p : block_state_ptr) (rs : list (transaction_receipt T)) (c2 : controller) : Prop :=
  exists c1, produce t n l ps c = (c1, Ok tt) /\ rs = pending_receipts c1 /\ finalize_block a signer c1 = (c2, Ok p).

(** The on-block transaction of the block does not fail for a reason that is the producer's own. *)
Definition fair (t n : Z) (l : list digest) : Prop :=
  forall bb, building_new (ctl_head c) t n l = Ok bb ->
  on_block_fair E intrinsic_hash bc (mk_work (cur (kv_db c)) (protocol_features c) (building bb)).

Section produced.
Context (t n : Z) (l : list digest) (ps : list push) (a : Z) (signer : digest -> list signature).
Context (p : block_state_ptr) (rs : list (transaction_receipt T)) (c2 : controller).
Context (Ht : t <> 0) (Hfair : fair t n l) (Hprod : produces t n l ps a signer p rs c2).

(** How the two nodes come to the same block. *)
Lemma produced_twice : exists pb bb0 w0 w bb w' h h' w2,
  next_pending (ctl_head c) t n = Ok pb /\ building_new (ctl_head c) t n l = Ok bb0 /\
  start_body (H2 := E') intrinsic_hash (applied_in bc) (mk_work (cur (kv_db c)) (protocol_features c) (building bb0)) = (w0, Ok tt) /\
  (exists bb1, w_stage w0 = building bb1 /\
    for_each (apply_receipt (H2 := E') (applied_in bc) false) rs
      (set_stage (building (with_mroot bb1 (h_transaction_mroot (h_base h)))) w0) = (w', Ok tt)) /\
  finalize_body w' = (w2, Ok tt) /\ w_manager w = w_manager w0 /\ assembled_as E pb l bb w w2 h /\ _pending_trx_receipts bb = rs /\
  finish_next_sign pb h (get_builtin_digest (_protocol_feature_set (w_manager w0))) (fun _ _ _ => Ok tt) signer = Ok (bsp_state p, h') /\
  addr p = a /\ cur (kv_db c2) = w_state w2 /\ protocol_features c2 = w_manager w2 /\
  (l = [] \/ check_protocol_features (_protocol_feature_set (protocol_features c)) (to_time_point (h_timestamp (h_base (header (ctl_head c)))))
               (BlockHeaderState.activated_protocol_features (ctl_head c)) l = Ok tt).
Proof using All.
  destruct Hprod as (c1 & E1 & Hrs & E2). unfold produce in E1. apply bind_Ok_inv in E1 as (c0 & [] & E0 & E1).
  destruct (started_production t n l c0 E0) as (Hl & bb0 & w0 & Hb & Hs & ->).
  pose proof (start_elsewhere E E' intrinsic_hash bc _ (idle_replay conf c Hidle) (Hfair bb0 Hb)) as Hs'. rewrite Hs in Hs'.
  unfold building_new in Hb. apply bind_ok_inv in Hb as (pb & Hp & [= <-]).
  pose proof (started_body E E' intrinsic_hash pb l bc (mk_work (cur (kv_db c)) (protocol_features c) (building (mk_building pb None None l 0 [] (inr []) [])))) as Hst.
  rewrite Hs in Hst. destruct Hst as (bb1 & Hs1 & Hb1 & Hr1); [by eexists|].
  set (start d := set_stage (building (with_mroot bb1 d)) w0).
  assert (Hf0 : forall d, followed E E' bc d pb l (start d) w0).
  { intros d. split; [done|]. exists bb1, (start d). rewrite Hr1. split_and!; try done. split_and!; try done. by eexists _, _. }
  destruct (produced_many digest_zero pb l _ w0 ps (Hf0 digest_zero)) as (w & Ew & Hm & bb & x & Hsw & Hbw & _ & Hsame0).
  rewrite Ew in E1. injection E1 as <-. destruct (finalized a signer w c2 p E2) as (w2 & ab & h' & Ef & Hab & Esg & Ha & Hc1 & Hc2).
  destruct (finalize_elsewhere E _ pb l w x w2 bb Hsw Hbw Hsame0 Ef) as (h & Has & _).
  destruct (produced_many (h_transaction_mroot (h_base h)) pb l _ w0 ps (Hf0 _)) as (v & Ev & _ & bb' & w' & Hsv & Hbv & Hfor & Hsame).
  rewrite Ew in Ev. assert (v = w) as ->. { destruct v, w. by injection Ev as -> -> ->. } clear Ev. rewrite Hsw in Hsv. injection Hsv as <-.
  destruct (finalize_elsewhere E _ pb l w w' w2 bb Hsw Hbw Hsame Ef) as (h1 & Has1 & Hf1).
  assert (h1 = h) as ->. { pose proof (as_stage _ _ _ _ _ _ _ Has) as A1. rewrite (as_stage _ _ _ _ _ _ _ Has1) in A1. by injection A1. }
  exists pb, (mk_building pb None None l 0 [] (inr []) []), w0, w, bb, w', h, h', w2.
  rewrite (as_stage _ _ _ _ _ _ _ Has) in Hab. injection Hab as <-. cbn [ab_pbhs _unsigned_block] in Esg.
  assert (rs = _pending_trx_receipts bb) as ->.
  { rewrite Hrs. unfold pending_receipts, opened. cbn [pending set_pending stage]. by rewrite Hsw. }
  split_and!; try done.
  - unfold building_new. by rewrite Hp.
  - by exists bb1.
  - by apply Hf1.
  - by rewrite (as_features _ _ _ _ _ _ _ Has), Hm in Esg.
Qed.

(** The block is executed on the other node, with the same result. *)
Lemma produced_executes (block_at : Z -> option (signed_block (T := T))) (b : signed_block) (a' : Z) :
  block_at a' = Some b -> block_header_of b = header p -> block_transactions b = rs ->
  execute (Execution0 := E') intrinsic_hash block_at (contract_cur_rate c) (ctl_head c) false (mk_ptr a' (bsp_state p)) (cur (kv_db c))
    (protocol_features c) =
  Ok (cur (kv_db c2), protocol_features c2).
Proof using All.
  intros Hat Hhd Htr.
  destruct produced_twice as (pb & bb0 & w0 & w & bb & w' & h & h' & w2 & Hp & Hb & Hs & (bb1 & Hs1 & Hfor) & Hfin & Hm & Has & Hrs & Esg & Ha & Hc1 & Hc2 & _).
  destruct (signed_facts _ _ _ _ _ _ _ Esg) as (s0 & E0 & Hx0 & Hhb & Hid).
  destruct (as_header _ _ _ _ _ _ _ Has) as (tm & am & Etm & Eh). rewrite Hm in Eh.
  destruct (made_extensions _ _ _ _ _ _ _ _ _ _ Eh E0) as (rest & Hx & Hrest). rewrite <- Hx0 in Hx.
  destruct (make_block_header_mroot _ _ _ _ _ _ _ _ Eh) as (Htm & Hts & Hcf & _). destruct (next_pending_fields _ _ _ _ Ht Hp) as (Hpt & Hpn & _).
  unfold execute. cbn [addr]. rewrite Hat. cbn [deref mbind result_bind bsp_state]. rewrite (made_activations p l rest Hx Hrest). cbn [mbind result_bind].
  rewrite Hhd, Hhb, Hts, Hcf, Hpt, Hpn, Hb. cbn [mbind result_bind].
  replace (mk_block_context (ctl_head c) false (contract_cur_rate c) None) with (applied_in bc) by reflexivity.
  unfold run_block. rewrite (bind_Ok _ _ _ _ _ Hs). unfold apply_body. rewrite (building_stage_eq _ _ _ Hs1), update_bind, Hhd, Hhb, Htr.
  rewrite (bind_Ok _ _ _ _ _ Hfor), (bind_Ok _ _ _ _ _ Hfin), get_bind, (as_stage _ _ _ _ _ _ _ Has). cbn [ab_id].
  rewrite Hid, bool_decide_eq_true_2 by done. cbn. by rewrite Hc1, Hc2.
Qed.

(** The other node makes the same state of the block from its header, its receipts and its signatures. *)
Lemma produced_state (block_at : Z -> option (signed_block (T := T))) (b : signed_block) (a' : Z) (cv : controller) (hd : block_state_ptr) :
  fits 32 (h_timestamp (h_base (header (ctl_head c)))) -> fits 32 t ->
  block_at a' = Some b -> block_header_of b = header p -> block_transactions b = rs -> block_signatures b = additional_signatures p ->
  get_block (fork_db cv) (id p) = None -> get_block_header (fork_db cv) (id (ctl_head c)) = Ok (Some hd) -> bsp_state hd = bsp_state (ctl_head c) ->
  _protocol_feature_set (protocol_features cv) = _protocol_feature_set (protocol_features c) ->
  create_block_state (H2 := E') block_at cv a' (id p) = Ok (mk_ptr a' (bsp_state p)).
Proof using All.
  intros Hfh Hft Hat Hhd Htr Hsg Hnew Hprev Hhead Hset.
  destruct produced_twice as (pb & bb0 & w0 & w & bb & w' & h & h' & w2 & Hp & Hb & Hs & (bb1 & Hs1 & Hfor) & Hfin & Hm & Has & Hrs & Esg & Ha & Hc1 & Hc2 & Hl).
  destruct (signed_facts _ _ _ _ _ _ _ Esg) as (s0 & E0 & Hx0 & Hhb & Hid).
  destruct (as_header _ _ _ _ _ _ _ Has) as (tm & am & Etm & Eh). rewrite Hm in Eh.
  destruct (made_extensions _ _ _ _ _ _ _ _ _ _ Eh E0) as (rest & Hx & Hrest). rewrite <- Hx0 in Hx.
  destruct (make_block_header_mroot _ _ _ _ _ _ _ _ Eh) as (Htm & Hts & Hcf & Hpv).
  destruct (next_pending_fields _ _ _ _ Ht Hp) as (Hpt & Hpn & Hpp & Hpa & Hlt).
  assert (Hset0 : _protocol_feature_set (w_manager w0) = _protocol_feature_set (protocol_features c)).
  { destruct Hidle as [_ _ Hn Hmg _ _].
    pose proof (start_preserves (Execution0 := E') intrinsic_hash _ _ (protocol_features c) (num_ok_between _ Hn) (applied_in bc) _
      (run_since (ctl_head c) _ (cur (kv_db c)) _ _ _ _ Hn Hmg Hb)) as Hk.
    rewrite Hs in Hk. by destruct (proj2 Hk) as (lg & ext & _ & _ & _ & _ & ?). }
  unfold create_block_state. rewrite Hat, Hnew. cbn [dcd_assert mbind result_bind]. rewrite Hhd, Hhb, Hpv, Hpp, Hprev. cbn [mbind result_bind].
  rewrite Htr, <- Hrs. rewrite (map_ext _ _ (same_receipt_digest (E := E) (E' := E'))), Etm. cbn [mbind result_bind].
  rewrite Htm, bool_decide_eq_true_2 by done. cbn [dcd_assert mbind result_bind]. rewrite Hset, Hhead, Hsg.
  rewrite <- Hset0. rewrite (signed_accepted (ctl_head c) pb h h' _ _ signer (bsp_state p) l rest).
  - cbn [mbind result_bind]. by rewrite bool_decide_eq_true_2.
  - by rewrite Hts, Hcf, Hpt, Hpn.
  - done.
  - done.
  - done.
  - destruct Hl as [->|Hl]; [by left|right]. rewrite Hpt, Hpa, Hset0. eapply check_features_later; [|done].
    rewrite !to_time_point_value by done. assert (0 <= interval_us) by done. nia.
Qed.

Lemma produced_previous : prev_id p = id (ctl_head c).
Proof using All.
  destruct produced_twice as (pb & bb0 & w0 & w & bb & w' & h & h' & w2 & Hp & _ & _ & _ & _ & Hm & Has & _ & Esg & _).
  destruct (signed_facts _ _ _ _ _ _ _ Esg) as (s0 & _ & _ & Hhb & _). destruct (as_header _ _ _ _ _ _ _ Has) as (tm & am & _ & Eh).
  destruct (make_block_header_mroot _ _ _ _ _ _ _ _ Eh) as (_ & _ & _ & Hpv). destruct (next_pending_fields _ _ _ _ Ht Hp) as (_ & _ & Hpp & _).
  unfold prev_id. by rewrite Hhb, Hpv.
Qed.
End produced.
End blocks.
