(* ===== verification/NodeProduction.v ===== *)
(** * A node validates what another one produces

    The execution of transactions of PushTransaction with the settings of two nodes implements the interface of Production:
    a transaction that leaves a receipt in the block that is produced has the same outcome on every other node, whatever the
    settings of the two are. *)

From S2P Require Import Prelude Effects Types Asset BlockTimestamp Authority Merkle BlockHeader UndoIndex Database AuthorizationManager.
From S2P Require Import SystemContract TransactionTypes Whitelist ProtocolFeatures FeatureProofs BlockHeaderState HeaderChain ForkDatabase Fees CodeActions NodeLists.
From S2P Require Import ContractTables ChainConfig Parameters Proposals Controller Actions ActionProofs Transactions PushTransaction.
From S2P Require Import Validation BlockExecution PushTransactionProofs Production.

(** ** One transaction on two nodes *)
Section transactions.
Context `{ActionData} `{Code} `{Engine} `{TransactionData} `{ReceiptDigests}.
Context (nd nd' : node_config) (fuel : nat).
Abbreviation exec_env := (exec_env (T := packed_transaction) (C := contract_state)).
Abbreviation outcome := (outcome (T := packed_transaction) (C := contract_state)).
Abbreviation block := (building_block packed_transaction).

Context (env : exec_env) (bb' : block).
Context (Hblock : same_block (env_block env) bb') (Hreplay : bc_replay_head_time (env_context env) = None).
Abbreviation env' := (elsewhere env bb').

Lemma same_pbhs : bb_pbhs bb' = bb_pbhs (env_block env).
Proof using Hblock. by injection Hblock. Qed.

Lemma same_block_proposals : same_proposals (bc_head (env_context env)) (building (env_block env)) (building bb').
Proof using Hblock.
  injection Hblock as Hp Hs Hr _ _ _ _. split.
  - intros g r. unfold set_proposed_rate, pending_rate_of, active_rate_of. simpl. by rewrite Hp, Hr.
  - intros b g l. unfold set_proposed_producers, pending_producers, active_producers. simpl. by rewrite Hp, Hs.
Qed.

Lemma elsewhere_time : env_time env' = env_time env.
Proof using Hblock. unfold env_time. simpl. by rewrite same_pbhs. Qed.

Lemma elsewhere_env (light enforce enforce' : bool) :
  trx_env_of nd' env' light enforce' =
  validating (building bb') (nd_lists nd') (nd_key_blacklist nd') (nd_max_nonprivileged_inline_action_size nd')
    (nd_disable_all_subjective_mitigations nd') enforce' (trx_env_of nd env light enforce).
Proof using Hblock.
  unfold trx_env_of, validating. simpl. by rewrite orb_true_r, elsewhere_time.
Qed.

Lemma elsewhere_transaction (a : action) : node_transaction env' a = node_transaction env a.
Proof using Hblock. unfold node_transaction. by rewrite elsewhere_time. Qed.

Lemma failed_unchanged (e : exn) (o : outcome) : failed (env_state env) e = Ok o -> unchanged env o.
Proof. unfold failed. destruct (rethrown e); [done|]. by intros [= <-]. Qed.

(** The processor time of the receipt can be used in its place. *)
Lemma finished_cpu (c : transaction_context) (t : receipt_trx packed_transaction) (st : status_enum) (cpu : Z) (o : outcome) :
  finished c t st cpu = Ok o -> exists r, out_receipts o = [r] /\ receipt_of r = t /\ status (receipt_header r) = st /\ out_except o = None /\
    finished c t st (cpu_usage_us (receipt_header r)) = Ok o.
Proof.
  unfold finished, push_receipt. intros E. bind_ok_pairs. eexists. do 4 (split; [done|]). simpl.
  by rewrite (wrap_small 32 (u32 cpu)) by (apply wrap_fits; lia).
Qed.

Lemma finished_throws (c : transaction_context) (t : receipt_trx packed_transaction) (st : status_enum) (cpu cpu' : Z) (e : exn) :
  finished c t st cpu = Throw e -> e = transaction_exception /\ finished c t st cpu' = Throw e.
Proof. unfold finished, push_receipt. destruct (_ =? _); [done|]. by intros [= <-]. Qed.

(** *** A transaction of a user *)
Lemma pushed_elsewhere (cpu : Z) (t : packed_transaction) (o : outcome) :
  run_transaction nd fuel env false false None cpu t = Ok o ->
  confirmed_by env (trx_packed t) o (fun cpu' => run_transaction nd' fuel env' false false None cpu' t).
Proof using Hblock Hreplay.
  unfold run_transaction. rewrite Hreplay. cbn [bc_replay_head_time env_context elsewhere env_state negb].
  rewrite (elsewhere_env _ true). set (e := trx_env_of nd env false true).
  pose proof (agrees_transaction_body (building bb') (nd_lists nd') (nd_key_blacklist nd') (nd_max_nonprivileged_inline_action_size nd')
    (nd_disable_all_subjective_mitigations nd') true e same_block_proposals fuel false None false t (new_trx_context (env_state env)) I) as Hb.
  destruct (transaction_body fuel e _ _ _ _ _) as [[c [u|x]]|]; [destruct Hb as [_ ->]| |done].
  2:{ intros E%failed_unchanged. by left. }
  destruct (finished c _ _ cpu) as [o'|x] eqn:Ef; [|intros E%failed_unchanged; by left].
  apply finished_cpu in Ef as (r & Hr & Ht & _ & Hx & Ef).
  destruct (keeps_transactions nd env); intros [= <-]; [|by left]. right. exists r. rewrite Ef. split_and!; try done; [by left|].
  unfold keeps_transactions. simpl. by rewrite orb_true_r.
Qed.

(** *** The transaction of the node itself

    Its outcome is the same unless it fails for a reason that is the producer's own. *)
Lemma node_transaction_elsewhere (cpu : Z) (a : action) :
  let r := run_transaction nd fuel env false true None cpu (mk_packed (node_transaction env a) 0 None []) in
  keeps_transactions nd env = true -> (forall e, failure_of r = Some e -> failure_is_subjective e = false) ->
  run_transaction nd' fuel env' false true None cpu (mk_packed (node_transaction env' a) 0 None []) = r.
Proof using Hblock Hreplay.
  cbv zeta. rewrite elsewhere_transaction. intros Hk. unfold run_transaction. rewrite Hreplay, Hk.
  replace (keeps_transactions nd' env') with true by (unfold keeps_transactions; simpl; by rewrite orb_true_r).
  cbn [bc_replay_head_time env_context elsewhere env_state negb].
  rewrite (elsewhere_env _ false). set (e := trx_env_of nd env false false). set (t := mk_packed _ _ _ _).
  pose proof (agrees_transaction_body (building bb') (nd_lists nd') (nd_key_blacklist nd') (nd_max_nonprivileged_inline_action_size nd')
    (nd_disable_all_subjective_mitigations nd') false e same_block_proposals fuel true None false t (new_trx_context (env_state env)) I) as Hb.
  destruct (transaction_body fuel e _ _ _ _ _) as [[c [u|x]]|]; [by destruct Hb as [_ ->]| |by rewrite Hb].
  intros Hx. destruct Hb as [Hb|[c' ->]]; [|done]. unfold subjective in Hb.
  rewrite (Hx x) in Hb; [done|]. unfold failed. by destruct (rethrown x).
Qed.

(** *** A scheduled transaction *)
Lemma finished_elsewhere (c : transaction_context) (i : digest) (st : status_enum) (cpu : Z) (o : outcome) (r' : Z -> result outcome) :
  finished c (trx_id i) st cpu = Ok o -> (forall cpu', finished c (trx_id i) st cpu' = Ok o -> r' cpu' = Ok o) -> confirmed_by env (trx_id i) o r'.
Proof. intros (r & Hr & Ht & _ & Hx & Ef)%finished_cpu Hr'. right. exists r. split_and!; auto. Qed.

Lemma elsewhere_subjective (x : exn) : subjective_for env x = false -> subjective_for env' x = false.
Proof. apply subjective_wider. Qed.

Lemma hard_failure_elsewhere (cpu : Z) (i : digest) (removed : chain) (x : exn) (o : outcome) (r' : Z -> result outcome) :
  hard_failure env cpu i removed x = Ok o ->
  (subjective_for env x = false -> forall cpu', r' cpu' = hard_failure env' cpu' i removed x) -> confirmed_by env (trx_id i) o r'.
Proof.
  unfold hard_failure at 1. destruct (subjective_for env x) eqn:Es; [intros [= <-] _; by left|]. unfold push_receipt. simpl.
  intros [= <-] Hr'. right. eexists. split; [done|]. split; [done|]. split; [right; split; [done|by eexists]|]. rewrite Hr' by done.
  unfold hard_failure. rewrite elsewhere_subjective by done. unfold push_receipt. simpl.
  by rewrite (wrap_small 32 (u32 cpu)) by (apply wrap_fits; lia).
Qed.

Section scheduled.
Context (enforce enforce' : bool) (g : generated_transaction_object) (i : digest) (removed : chain).
Abbreviation e := (trx_env_of nd env false enforce).
Abbreviation e' := (trx_env_of nd' env' false enforce').

Lemma failure_elsewhere (cpu : Z) (x : exn) (o : outcome) (r' : Z -> result outcome) :
  failure fuel env e cpu i removed g x = Ok o ->
  (subjective_for env x = false -> forall cpu', r' cpu' = failure fuel env' e' cpu' i removed g x) -> confirmed_by env (trx_id i) o r'.
Proof using Hblock.
  unfold failure. destruct (rethrown x); [done|]. destruct (subjective_for env x) eqn:Es.
  { rewrite andb_false_r. intros E _. by eapply hard_failure_elsewhere; [|intros]; [done|congruence]. }
  rewrite andb_true_r. intros E Hr'. specialize (Hr' eq_refl). rewrite elsewhere_subjective, andb_true_r in Hr' by done.
  destruct (negb (sender g =? 0)); [|by eapply hard_failure_elsewhere].
  unfold onerror_transaction in Hr'. rewrite elsewhere_transaction in Hr'. fold (onerror_transaction env g) in Hr'.
  rewrite (elsewhere_env _ enforce) in Hr'.
  pose proof (agrees_onerror_body (building bb') (nd_lists nd') (nd_key_blacklist nd') (nd_max_nonprivileged_inline_action_size nd')
    (nd_disable_all_subjective_mitigations nd') enforce' e same_block_proposals fuel g (onerror_transaction env g) (new_trx_context removed) I) as Hb.
  destruct (onerror_body fuel e g _ _) as [[c [u|y]]|]; [destruct Hb as [_ Hb]; rewrite Hb in Hr'| |done].
  - destruct (finished c _ _ cpu) as [o'|y] eqn:Ef.
    + injection E as <-. eapply finished_elsewhere; [done|]. intros cpu' Ef'. by rewrite Hr', Ef'.
    + destruct (rethrown y) eqn:Ey; [done|]. eapply hard_failure_elsewhere; [done|]. intros _ cpu'.
      rewrite Hr'. destruct (finished_throws _ _ _ _ cpu' _ Ef) as [_ ->]. by rewrite Ey.
  - destruct (rethrown y) eqn:Ey; [done|]. eapply hard_failure_elsewhere; [done|]. intros Hs cpu'. rewrite Hr'.
    destruct Hb as [Hb|[c' ->]]; [|by rewrite Ey]. unfold subjective in Hb. rewrite (subjective_wider _ _ Hs) in Hb. done.
Qed.
End scheduled.

Lemma scheduled_elsewhere (cpu : Z) (i : digest) (o : outcome) :
  push_scheduled nd fuel env cpu i = Ok o -> confirmed_by env (trx_id i) o (fun cpu' => push_scheduled nd' fuel env' cpu' i).
Proof using Hblock.
  unfold push_scheduled. cbn [env_state elsewhere]. rewrite elsewhere_time. destruct (db_find_by _ _ _) as [g|]; [|done].
  destruct (db_remove _ _) as [table|x]; [|done]. cbn [mbind result_bind]. set (removed := with_auth_db _ _).
  destruct (dcd_assert _ _); [|done]. cbn [mbind result_bind].
  destruct (unpack_transaction _) as [dtrx|x]; [|done]. cbn [mbind result_bind]. destruct (expiration g <? env_time env).
  { unfold push_receipt. simpl. intros [= <-]. right. eexists. split; [done|]. split; [done|]. split; [by left|]. simpl.
    by rewrite (wrap_small 32 (u32 cpu)) by (apply wrap_fits; lia). }
  set (enf := (sender g =? 0) || _). set (enf' := (sender g =? 0) || negb (_ (nd_lists nd') _)).
  pose proof (agrees_deferred_body (building bb') (nd_lists nd') (nd_key_blacklist nd') (nd_max_nonprivileged_inline_action_size nd')
    (nd_disable_all_subjective_mitigations nd') enf' (trx_env_of nd env false enf) same_block_proposals fuel g dtrx (new_trx_context removed) I) as Hb.
  rewrite <- elsewhere_env in Hb.
  destruct (deferred_body fuel (trx_env_of nd env false enf) g dtrx _) as [[c [u|x]]|]; [destruct Hb as [_ ->]| |done].
  - destruct (finished c _ _ cpu) as [o'|x] eqn:Ef.
    + intros [= <-]. eapply finished_elsewhere; [done|]. by intros cpu' ->.
    + intros E. eapply failure_elsewhere; [done|]. intros Hs cpu'. by destruct (finished_throws _ _ _ _ cpu' _ Ef) as [_ ->].
  - intros E. eapply failure_elsewhere; [done|]. intros Hs cpu'. destruct Hb as [Hb|[c' ->]]; [|done].
    unfold subjective in Hb. rewrite (subjective_wider _ _ Hs) in Hb. done.
Qed.
End transactions.

(** ** The interface *)
Section validates.
Context `{ActionData} `{Code} `{Engine} `{TransactionData} `{ReceiptDigests}.

(** Whatever the settings of the two nodes are; a node produces in the speculative mode only. *)
Lemma node_validates (nd nd' : node_config) (fuel : nat) :
  nd_read_mode nd = SPECULATIVE -> Validates (node_execution nd fuel) (node_execution nd' fuel).
Proof.
  intros Hmode. split.
  - intros env bb' cpu t o Hb Hr Hl. cbn [push_transaction node_execution]. rewrite Hl. by apply pushed_elsewhere.
  - intros env bb' cpu i o Hb. cbn [push_scheduled_transaction node_execution]. by apply scheduled_elsewhere.
  - intros env Hr Hx. cbn [on_block node_execution] in *. unfold get_on_block_transaction in *. cbn [elsewhere env_context bc_head env_state].
    apply (node_transaction_elsewhere nd nd' fuel env (env_block env) eq_refl Hr); [|done]. unfold keeps_transactions. by rewrite bool_decide_eq_true_2.
  - intros env o. cbn [on_block node_execution]. unfold run_transaction.
    destruct (transaction_body _ _ _ _ _ _ _) as [[c [u|x]]|]; [|unfold failed; destruct (rethrown x); [done|by intros [= <-]]|done].
    destruct (keeps_transactions nd env); by intros [= <-].
  - intros r. unfold receipt_digest, node_execution. reflexivity.
Qed.
End validates.
