(* ===== verification/ForkSwitch.v ===== *)
(** * The controller and the fork database stay in step

    The invariant of the controller between two blocks: the database holds the state that the
    execution of the blocks from the root to the head gives, with one undo session for
    each of them; and the proof that [push_block] preserves it, whether the block becomes
    the head, makes the controller switch to another branch, or is refused. *)

From S2P Require Import Prelude Effects Types BlockTimestamp Authority Merkle BlockHeader UndoIndex Database AuthorizationManager Whitelist ProtocolFeatures FeatureProofs BlockHeaderState ForkDatabase ForkTree Proposals Controller BlockExecution.

Section switching.
Context {T C : Type}.
Context `{Crypto} `{Serialization} `{FeatureDigests} `{!Execution (T := T) (C := C)} `{!ExecutionLaws (T := T) (C := C)}.
Context (intrinsic_hash : string -> Z) (block_at : Z -> option (signed_block (T := T))).
Context (conf : config) (first_block_num : Z).
(** The rate of the fee manager, which must not change while blocks can still be popped. *)
Context (rate : Z).
Abbreviation controller := (controller (T := T) (C := C)).
Abbreviation world := (chain_state (C := C) * protocol_feature_manager)%type.
Abbreviation execute := (execute intrinsic_hash block_at rate).

(** ** Replaying a branch *)

(** The state after the blocks of a branch, executed one after the other on [base], the state of the root. *)
Fixpoint replay (r : block_state_ptr) (base : world) (bs : list block_state_ptr) : result world :=
  match bs with
  | [] => Ok base
  | b :: bs => x ← replay r base bs; execute (top r bs) true b (fst x) (snd x)
  end.

(** The states before each of the blocks. *)
Fixpoint stack_ok (r : block_state_ptr) (base : world) (bs : list block_state_ptr)
    (st : list (chain_state (C := C))) : Prop :=
  match bs, st with
  | [], [] => True
  | _ :: bs, s :: st => (exists m, replay r base bs = Ok (s, m)) /\ stack_ok r base bs st
  | _, _ => False
  end.

Lemma stack_unique (r : block_state_ptr) (base : world) (bs : list block_state_ptr) (st st' : list chain_state) :
  stack_ok r base bs st -> stack_ok r base bs st' -> st = st'.
Proof.
  revert st st'. induction bs as [|b bs IH]; intros [|s st] [|s' st']; simpl; try done.
  intros [[m Hm] Hst] [[m' Hm'] Hst']. rewrite Hm in Hm'. simplify_eq. f_equal. by apply IH.
Qed.

Lemma stack_length (r : block_state_ptr) (base : world) (bs : list block_state_ptr) (st : list chain_state) :
  stack_ok r base bs st -> length st = length bs.
Proof. revert st. induction bs as [|b bs IH]; intros [|s st]; simpl; try done. intros [_ Hst]. f_equal. by apply IH. Qed.

Lemma replay_app (r b : block_state_ptr) (base x : world) (l1 l2 : list block_state_ptr) :
  replay r base (b :: l2) = Ok x -> replay r base (l1 ++ b :: l2) = replay b x l1.
Proof.
  intros Hx. induction l1 as [|y l1 IH]; [done|]. cbn [app replay]. rewrite IH.
  replace (top r (l1 ++ b :: l2)) with (top b l1) by (by destruct l1). done.
Qed.

Lemma stack_app (r b : block_state_ptr) (base x : world) (l1 l2 : list block_state_ptr) (st : list chain_state) :
  replay r base (b :: l2) = Ok x -> stack_ok r base (l1 ++ b :: l2) st ->
  stack_ok b x l1 (take (length l1) st).
Proof.
  intros Hx. revert st. induction l1 as [|y l1 IH]; intros [|s st]; cbn [app stack_ok length take]; try done.
  intros [Hm Hst]. rewrite (replay_app _ _ _ _ _ _ Hx) in Hm. split; [done|]. by apply IH.
Qed.

(** ** The invariant *)
Record block_fine (b : block_state_ptr) : Prop := {
  bf_block : is_Some (block_at (addr b));
  bf_id : calculate_id (h_base (header b)) = bs_id b;
  bf_header_num : header_block_num (h_base (header b)) = bs_num b;
  bf_num : num_ok (bs_num b);
  bf_rate : pri_rate (active_rate b) = rate
}.

(** The tree of the fork database: the blocks below a valid block are valid, and the branch of a valid block can
    be executed; the irreversible number does not decrease along a branch. *)
Record tree_ok (f : fork_database) (r : block_state_ptr) (base : world) : Prop := {
  to_parent : forall i b q, index f !! i = Some b -> is_valid f b = true ->
    node f r (prev_id b) = Some q -> is_valid f q = true;
  to_replay : forall b bs, branch f r b bs -> is_valid f b = true -> is_ok (replay r base bs) = true;
  to_fine : forall i b, index f !! i = Some b -> block_fine b;
  to_lib : forall i b q, index f !! i = Some b -> node f r (prev_id b) = Some q -> bs_lib q <= bs_lib b;
  to_root_num : num_ok (bs_num r);
  to_root_prev : prev_id r <> bs_id r;
  to_manager : manager_at (snd base) (bs_num r)
}.

Definition reversible_of (bs : list block_state_ptr) : gmap Z block_state_ptr :=
  list_to_map (map (fun b => (bs_num b, b)) bs).

(** The controller has executed the branch [bs]. The head is the newest block of the branch; at the root it may be
    another object with the same state, as it is after a start from the genesis. *)
Record synced (c : controller) (r : block_state_ptr) (base : world) (bs : list block_state_ptr) : Prop := {
  sy_branch : branch (fork_db c) r (top r bs) bs;
  sy_head : match bs with [] => bsp_state (ctl_head c) = bsp_state r | b :: _ => ctl_head c = b end;
  sy_valid : is_valid (fork_db c) (top r bs) = true;
  sy_replay : replay r base bs = Ok (cur (kv_db c), protocol_features c);
  sy_stack : stack_ok r base bs (undo_stack (kv_db c));
  sy_revision : revision (kv_db c) = bs_num (ctl_head c);
  sy_reversible : reversible_blocks c = reversible_of bs;
  sy_pending : pending c = None;
  sy_replay_time : replay_head_time c = None;
  sy_rate : contract_cur_rate c = rate
}.

Lemma sy_state (c : controller) (r : block_state_ptr) (base : world) (bs : list block_state_ptr) :
  synced c r base bs -> bsp_state (ctl_head c) = bsp_state (top r bs).
Proof. intros [_ Hh _ _ _ _ _ _ _ _]. destruct bs; [done|]. by rewrite Hh. Qed.

Lemma replay_manager (f : fork_database) (r hf b : block_state_ptr) (base : world) (bs : list block_state_ptr)
    (x : world) :
  fork_inv f r hf -> tree_ok f r base -> branch f r b bs -> replay r base bs = Ok x ->
  manager_at (snd x) (bs_num b).
Proof.
  intros I Tr B. revert x. induction B as [|s q l Hs Hq B IH]; intros x Hx; cbn [replay] in Hx.
  - simplify_eq. apply Tr.
  - apply bind_ok_inv in Hx as ([s1 m1] & Hl & Hx). specialize (IH _ Hl).
    rewrite <- (branch_top _ _ _ _ B) in Hx. destruct x as [s2 m2].
    assert (Hq' : num_ok (bs_num q)).
    { destruct B as [|q q' l Hq1 _ _]; [apply Tr|]. by apply (to_fine _ _ _ Tr _ _ Hq1). }
    apply execute_since in Hx; [|done..].
    replace (bs_num s) with (bs_num q + 1).
    + by apply (activated_since_at (bs_num q) _ m1); [lia|].
    + destruct (fi_link _ _ _ I _ _ Hs) as (q2 & Hq2 & ->). rewrite Hq in Hq2. by simplify_eq.
Qed.

Hypothesis Hmode : read_mode conf <> IRREVERSIBLE.

Lemma branch_head_num (f : fork_database) (r b : block_state_ptr) (base : world) (bs : list block_state_ptr) :
  tree_ok f r base -> branch f r b bs -> num_ok (bs_num b).
Proof. intros Tr. destruct 1 as [|s q l Hs _ _]; [apply Tr|]. by apply (to_fine _ _ _ Tr _ _ Hs). Qed.

Lemma synced_idle (c : controller) (r hf : block_state_ptr) (base : world) (bs : list block_state_ptr) :
  fork_inv (fork_db c) r hf -> tree_ok (fork_db c) r base -> synced c r base bs -> idle conf c.
Proof.
  intros I Tr S. pose proof (sy_state _ _ _ _ S) as Hh. split; try apply S; try done; rewrite Hh.
  - eapply (branch_head_num _ _ (top r bs)); [done|apply S].
  - apply (replay_manager _ _ _ _ _ _ _ I Tr (sy_branch _ _ _ _ S) (sy_replay _ _ _ _ S)).
Qed.

(** What the operations on blocks leave alone. *)
Definition aside (c c' : controller) : Prop :=
  blog c' = blog c /\ trusted_producer_light_validation c' = trusted_producer_light_validation c.

Lemma aside_trans (c1 c2 c3 : controller) : aside c1 c2 -> aside c2 c3 -> aside c1 c3.
Proof. intros [? ?] [? ?]. split; congruence. Qed.

Lemma branch_reversible (f : fork_database) (r hf b : block_state_ptr) (bs : list block_state_ptr) :
  fork_inv f r hf -> branch f r b (b :: bs) ->
  reversible_of (b :: bs) = <[bs_num b := b]> (reversible_of bs) /\ reversible_of bs !! bs_num b = None.
Proof.
  intros I B. split; [done|]. pose proof (branch_num _ _ _ I _ _ B) as Hn.
  apply branch_cons_inv in B as (_ & _ & _ & B). eapply branch_nums_below; [done|done|].
  rewrite (branch_num _ _ _ I _ _ B), Hn. simpl. lia.
Qed.

Lemma pop_synced (c : controller) (r hf b : block_state_ptr) (base : world) (bs : list block_state_ptr) :
  fork_inv (fork_db c) r hf -> tree_ok (fork_db c) r base -> synced c r base (b :: bs) ->
  exists c', pop_block block_at conf c = (c', Ok tt) /\ synced c' r base bs /\ fork_db c' = fork_db c /\ aside c c'.
Proof.
  intros I Tr S. pose proof S as [B Hh Hv Hr Hst Hrev Hrb Hp Hrt Hra]. cbn [top] in B, Hv. rewrite <- Hh in B, Hv.
  destruct (branch_cons_inv _ _ _ _ _ B) as (_ & Hi & Hq & Bq). rewrite <- Hh in *. set (q := top r bs) in *.
  cbn [replay] in Hr. apply bind_ok_inv in Hr as ([s0 m0] & Hr0 & Hx). fold q in Hx. simpl in Hx.
  pose proof (branch_head_num _ _ _ _ _ Tr Bq) as Hnq.
  pose proof (execute_since _ _ _ _ _ _ _ _ _ _ Hnq (replay_manager _ _ _ _ _ _ _ I Tr Bq Hr0) Hx) as Ha.
  unfold pop_block. rewrite get_bind.
  assert (Hprev : forall k : block_state_ptr -> M controller unit,
    (match get_block (fork_db c) (prev_id (ctl_head c)) with
     | Some p => mret p
     | None => r0 ← lift (deref (root (fork_db c)));
               _ ← check (bool_decide (bs_id r0 = prev_id (ctl_head c))) block_validate_exception; mret r0
     end ≫= k) c = k q c).
  { intros k. destruct (node_get_block _ _ _ _ _ I Hq) as [[Eq ->]|[-> _]]; [|done].
    rewrite bind_eq, lift_bind, (fi_root _ _ _ I). simpl. rewrite check_bind.
    rewrite bool_decide_eq_true_2; [by rewrite <- Eq|]. rewrite <- Eq. by destruct (node_is_node _ _ _ _ _ I Hq). }
  rewrite Hprev. rewrite update_bind.
  assert (Hblock : block_at (addr (ctl_head c)) <> None).
  { destruct (bf_block _ (to_fine _ _ _ Tr _ _ Hi)) as [x ->]. done. }
  rewrite (bind_Ok _ _ _ (set_reversible (delete (block_num (ctl_head c)) (reversible_blocks c)) c) tt).
  2:{ destruct (bool_decide _); simpl; [|done]. unfold check, lift. by destruct (block_at (addr (ctl_head c))). }
  rewrite !update_bind. unfold popped_to. rewrite get_bind, lift_bind. simpl.
  rewrite (popped_restores _ _ _ _ Ha : popped_blocks_to (protocol_features c) (bs_num q) = Ok m0).
  unfold update. eexists. split; [reflexivity|].
  destruct (undo_stack (kv_db c)) as [|s1 st] eqn:Est; [done|]. destruct Hst as [[m1 Hm1] Hst].
  rewrite Hr0 in Hm1. simplify_eq.
  split; [|split; [done|by split]]. split; simpl; try done.
  - unfold q. by destruct bs.
  - apply (to_parent _ _ _ Tr _ _ _ Hi Hv Hq).
  - unfold undo_db. rewrite Est. done.
  - unfold undo_db. by rewrite Est.
  - unfold undo_db. rewrite Est. simpl. rewrite Hrev.
    destruct (fi_link _ _ _ I _ _ Hi) as (q2 & Hq2 & Hn). rewrite Hq in Hq2. simplify_eq.
    rewrite Hn. lia.
  - destruct (branch_reversible _ _ _ _ _ I B) as [E N]. rewrite Hrb.
    change (block_num (ctl_head c)) with (bs_num (ctl_head c)). rewrite E. by rewrite delete_insert_id.
Qed.

Lemma pops_synced (c : controller) (r hf : block_state_ptr) (base : world) (l rest : list block_state_ptr) :
  fork_inv (fork_db c) r hf -> tree_ok (fork_db c) r base -> synced c r base (l ++ rest) ->
  exists c', pop_blocks block_at conf (length l) c = (c', Ok tt) /\ synced c' r base rest /\
    fork_db c' = fork_db c /\ aside c c'.
Proof.
  revert c. induction l as [|b l IH]; intros c I Tr S; [by exists c|].
  destruct (pop_synced _ _ _ _ _ _ I Tr S) as (c1 & E1 & S1 & F1 & A1).
  rewrite <- F1 in I, Tr. destruct (IH _ I Tr S1) as (c2 & E2 & S2 & F2 & A2).
  exists c2. cbn [length pop_blocks]. rewrite (bind_Ok _ _ _ _ _ E1). split_and!; [done..|congruence|].
  by eapply aside_trans.
Qed.

(** ** Applying a block of the tree *)
Hypothesis Hchecks : force_all_checks conf = false.
Abbreviation apply_block := (apply_block intrinsic_hash block_at conf).

(** The block is executed on the head, which is its predecessor; this cannot fail for a valid block. *)
Lemma apply_synced (c : controller) (r hf b : block_state_ptr) (base : world) (bs : list block_state_ptr)
    (st : block_status) :
  fork_inv (fork_db c) r hf -> tree_ok (fork_db c) r base -> synced c r base bs ->
  branch (fork_db c) r b (b :: bs) -> session_status st ->
  (exists c1, apply_block b st c = (c1, Ok tt) /\ fork_db c1 = fork_db c /\ aside c c1 /\
     is_ok (replay r base (b :: bs)) = true /\
     forall f', branch f' r b (b :: bs) -> is_valid f' b = true ->
       synced (set_head b (set_fork_db f' c1)) r base (b :: bs)) \/
  (exists e, apply_block b st c = (c, Throw e) /\ (st = validated_status -> is_valid (fork_db c) b = false)).
Proof.
  intros I Tr S B Hst. pose proof (synced_idle _ _ _ _ _ I Tr S) as Hid.
  pose proof S as [Bh _ Hv Hr Hsk Hrev Hrb Hp Hrt Hra].
  destruct (branch_cons_inv _ _ _ _ _ B) as (_ & Hi & Hq & _). pose proof (sy_state _ _ _ _ S) as Ht.
  destruct (branch_reversible _ _ _ _ _ I B) as [Erb Nrb].
  pose proof (apply_block_run intrinsic_hash block_at conf c b st Hid Hst ltac:(by rewrite Hrb)) as E.
  rewrite Hra in E. assert (Hlight : forall x, execute (ctl_head c) (light_of conf c st) b (cur (kv_db c))
    (protocol_features c) = Ok x -> replay r base (b :: bs) = Ok x).
  { intros x Hx. apply execute_light in Hx; [|done]. cbn [replay]. rewrite Hr. simpl. by rewrite <- Ht. }
  destruct (BlockExecution.execute _ _ _ _ _ _ _ _) as [[s' m']|e] eqn:Ex.
  - left. specialize (Hlight _ eq_refl). eexists. split; [exact E|]. split; [done|]. split; [by split|].
    split; [by rewrite Hlight|]. intros f' B' Hv'. split; simpl; try done.
    + split; [by eexists|done].
    + rewrite Hrev. unfold bs_num at 1. rewrite Ht. change (bs_num (top r bs) + 1 = bs_num b).
      rewrite (branch_num _ _ _ I _ _ B), (branch_num _ _ _ I _ _ Bh). simpl. lia.
    + by rewrite Hrb, Erb.
    + apply (to_fine _ _ _ Tr _ _ Hi).
  - right. exists e. split; [done|]. intros ->. apply not_true_iff_false. intros Hb.
    pose proof (to_replay _ _ _ Tr _ _ B Hb) as Hok. cbn [replay] in Hok. rewrite Hr in Hok. simpl in Hok.
    rewrite <- Ht in Hok. unfold light_of in Ex. rewrite Hchecks in Ex. simpl in Ex. by rewrite Ex in Hok.
Qed.

(** ** The tree under the operations of the fork database *)
Lemma tree_mark (f f' : fork_database) (r hf b : block_state_ptr) (base : world) (bs : list block_state_ptr) :
  fork_inv f r hf -> tree_ok f r base -> branch f r b (b :: bs) -> is_valid f (top r bs) = true ->
  is_ok (replay r base (b :: bs)) = true -> index f' = index f -> validated f' = {[addr b]} ∪ validated f ->
  tree_ok f' r base.
Proof.
  intros I Tr B Hq Hok Hi Hv. pose proof B as Bb.
  apply branch_cons_inv in Bb as (_ & Hb & Hnq & _).
  assert (Hsub : forall f1 f2, index f1 = index f2 -> forall i p, index f1 !! i = Some p -> index f2 !! i = Some p)
    by (intros ? ? ->; auto).
  assert (Hcase : forall x, is_valid f' x = true -> is_valid f x = true \/ addr x = addr b).
  { intros x. unfold is_valid. rewrite Hv, !bool_decide_eq_true. set_solver. }
  assert (Hmono : forall x, is_valid f x = true -> is_valid f' x = true).
  { intros x. unfold is_valid. rewrite Hv, !bool_decide_eq_true. set_solver. }
  destruct Tr as [Hp Hr Hf Hl Hn Hrp Hm]. split; try done.
  - intros i x q Hx Hvx Hxq. rewrite Hi in Hx. apply (node_sub f' f) in Hxq; [|by apply Hsub].
    apply Hmono. destruct (Hcase x Hvx) as [Ha|Ha]; [by eapply Hp|].
    assert (i = bs_id b) as -> by (by eapply (fi_addr _ _ _ I)). rewrite Hb in Hx. simplify_eq.
    done.
  - intros x l Bx Hvx. apply (branch_super f' f) in Bx; [|by apply Hsub].
    destruct (Hcase x Hvx) as [Ha|Ha]; [by eapply Hr|].
    destruct Bx as [|x q l Hx Hxq Bq]; [done|].
    assert (Exb : bs_id x = bs_id b) by (by eapply (fi_addr _ _ _ I)). rewrite Exb, Hb in Hx. simplify_eq.
    rewrite <- (branch_unique _ _ _ I _ _ _ B (branch_block _ _ _ _ _ Hb Hnq Bq)). done.
  - rewrite Hi. done.
  - intros i x q. rewrite Hi. intros Hx Hxq. eapply Hl; [done|]. by eapply node_sub, Hxq; apply Hsub.
Qed.

Lemma tree_cut (f f' : fork_database) (r : block_state_ptr) (base : world) :
  tree_ok f r base -> (forall i p, index f' !! i = Some p -> index f !! i = Some p) ->
  validated f' = validated f -> tree_ok f' r base.
Proof.
  intros [Hp Hr Hf Hl Hn Hrp Hm] Hi Hv.
  assert (Hval : forall x, is_valid f' x = is_valid f x) by (intros; unfold is_valid; by rewrite Hv).
  split; try done.
  - intros i x q Hx. rewrite !Hval. intros Hvx Hq. eapply Hp; [by apply Hi|done|by eapply node_sub].
  - intros x l B. rewrite Hval. apply Hr. by eapply branch_super.
  - intros i x Hx. by eapply Hf, Hi.
  - intros i x q Hx Hq. eapply Hl; [by apply Hi|by eapply node_sub].
Qed.

(** What a new block must satisfy: it was built on its predecessor in an object of its own, and its irreversible number is not below
    that of its predecessor. [fr_lib] is an assumption on the chain, which [create_block_state] does not check: the code keeps it from one
    block to the next ([lib_monotone]), except at a block that promotes a pending schedule, whose other producers may have confirmed less. *)
Record fresh (f : fork_database) (r n : block_state_ptr) : Prop := {
  fr_new : new_block f r n;
  fr_invalid : is_valid f n = false;
  fr_fine : block_fine n;
  fr_lib : forall q, node f r (prev_id n) = Some q -> bs_lib q <= bs_lib n
}.

Lemma tree_add (f f' : fork_database) (r hf n : block_state_ptr) (base : world) :
  fork_inv f r hf -> tree_ok f r base -> fresh f r n -> index f !! bs_id n = None ->
  (exists hf', fork_inv f' r hf') ->
  index f' = <[bs_id n := n]> (index f) -> validated f' = validated f -> tree_ok f' r base.
Proof.
  intros I [Hp Hr Hf Hl Hn Hrp Hm] [_ Hnv Hfine Hlib] Hfr [hf' I'] Hi Hv.
  assert (Hval : forall x, is_valid f' x = is_valid f x) by (intros; unfold is_valid; by rewrite Hv).
  assert (Hsub : forall i p, index f !! i = Some p -> index f' !! i = Some p).
  { intros i p Hip. rewrite Hi, lookup_insert_ne; [done|]. intros <-. congruence. }
  assert (Hold : forall i p, index f' !! i = Some p -> p = n \/ index f !! i = Some p).
  { intros i p. rewrite Hi, lookup_insert_Some. naive_solver. }
  split; try done.
  - intros i x q Hx. rewrite !Hval. intros Hvx Hq. destruct (Hold _ _ Hx) as [->|Hx']; [congruence|].
    destruct (fi_link _ _ _ I _ _ Hx') as (q' & Hq' & _). eapply Hp; [done|done|].
    rewrite (node_sub _ _ _ _ _ Hsub Hq') in Hq. by simplify_eq.
  - intros x l B. rewrite Hval. intros Hvx.
    assert (Hnx : is_node f r x).
    { pose proof (branch_is_node _ _ _ I' _ _ B) as Hx. unfold is_node, node in *. case_bool_decide; [done|].
      destruct (Hold _ _ Hx) as [->|]; [congruence|done]. }
    destruct (branch_exists _ _ _ I _ Hnx) as [l0 B0].
    rewrite (branch_unique _ _ _ I' _ _ _ B (branch_super _ _ _ _ _ Hsub B0)). by eapply Hr.
  - intros i x Hx. destruct (Hold _ _ Hx) as [->|Hx']; [done|by eapply Hf].
  - intros i x q Hx Hq. destruct (Hold _ _ Hx) as [->|Hx'].
    + unfold node in Hq, Hlib. case_bool_decide; [by apply Hlib|].
      destruct (Hold _ _ Hq) as [->|Hq']; [lia|by apply Hlib].
    + destruct (fi_link _ _ _ I _ _ Hx') as (q' & Hq' & _). eapply Hl; [done|].
      rewrite (node_sub _ _ _ _ _ Hsub Hq') in Hq. by simplify_eq.
Qed.

Lemma tree_reroot (f f' : fork_database) (r hf n : block_state_ptr) (base x : world) (l2 : list block_state_ptr) :
  fork_inv f r hf -> tree_ok f r base -> branch f r n (n :: l2) -> replay r base (n :: l2) = Ok x ->
  validated f' = validated f ->
  (forall c p, index f' !! c = Some p <-> index f !! c = Some p /\ c <> bs_id n /\ desc (index f) (bs_id n) c) ->
  tree_ok f' n x.
Proof.
  intros I Tr B Hx Hv Hi.
  assert (Hval : forall x, is_valid f' x = is_valid f x) by (intros; unfold is_valid; by rewrite Hv).
  pose proof (replay_manager _ _ _ _ _ _ _ I Tr B Hx) as Hman.
  pose proof B as (_ & Hn & _ & _)%branch_cons_inv.
  destruct Tr as [Hp Hr Hf Hl Hrn Hrp Hm]. split; try done.
  - intros i b q Hb. rewrite !Hval. intros Hvb Hq. eapply Hp; [by apply Hi in Hb as [? _]|done|by eapply reroot_node].
  - intros b l Bb. rewrite Hval. intros Hvb. rewrite <- (replay_app _ _ _ _ l _ Hx).
    eapply Hr, Hvb. by eapply reroot_branch.
  - intros i b (Hb & _ & _)%Hi. by eapply Hf.
  - intros i b q (Hb & _ & _)%Hi Hq. eapply Hl; [done|by eapply reroot_node].
  - by apply (Hf _ _ Hn).
  - by apply (block_prev _ _ _ I).
Qed.

Lemma in_fork_db_eq (m : fork_database -> result fork_database) (c : controller) :
  in_fork_db m c = match m (fork_db c) with
                   | Ok f => (set_fork_db f c, Ok tt)
                   | Throw e => (c, Throw e)
                   end.
Proof. unfold in_fork_db. rewrite get_bind, lift_bind. by destruct (m (fork_db c)). Qed.

(** The controller, the tree and the head of the fork database. *)
Record state_ok (c : controller) (r hf : block_state_ptr) (base : world) (bs : list block_state_ptr) : Prop := {
  so_fork : fork_inv (fork_db c) r hf;
  so_tree : tree_ok (fork_db c) r base;
  so_sync : synced c r base bs
}.

(** The controller is determined by the branch. *)
Lemma synced_same (c c' : controller) (r : block_state_ptr) (base : world) (bs : list block_state_ptr) :
  synced c r base bs -> synced c' r base bs ->
  bsp_state (ctl_head c') = bsp_state (ctl_head c) /\ kv_db c' = kv_db c /\
  protocol_features c' = protocol_features c /\ reversible_blocks c' = reversible_blocks c.
Proof.
  intros S S'. pose proof (sy_state _ _ _ _ S) as Hh. pose proof (sy_state _ _ _ _ S') as Hh'. rewrite <- Hh in Hh'.
  destruct S as [_ _ _ Hr Hs Hv Hb _ _ _], S' as [_ _ _ Hr' Hs' Hv' Hb' _ _ _].
  rewrite Hr in Hr'. injection Hr' as Ec Em. split; [done|]. split_and!; [|done|congruence].
  unfold bs_num in Hv, Hv'. rewrite Hh', <- Hv in Hv'. pose proof (stack_unique _ _ _ _ _ Hs Hs'). destruct (kv_db c), (kv_db c'). simpl in *. congruence.
Qed.

Abbreviation switch_to := (switch_to intrinsic_hash block_at conf).

Lemma switch_synced (c : controller) (r hf b : block_state_ptr) (base : world) (bs : list block_state_ptr)
    (st : block_status) :
  state_ok c r hf base bs -> branch (fork_db c) r b (b :: bs) -> session_status st ->
  (exists c', switch_to b st c = (c', Ok tt) /\
     state_ok c' r (if bs_preferred b hf then b else hf) base (b :: bs) /\
     index (fork_db c') = index (fork_db c) /\
     validated (fork_db c') = {[addr b]} ∪ validated (fork_db c) /\ aside c c') \/
  (exists e, switch_to b st c = (c, Throw e) /\ (st = validated_status -> is_valid (fork_db c) b = false)).
Proof.
  intros [I Tr S] B Hst. unfold Controller.switch_to.
  destruct (apply_synced _ _ _ _ _ _ _ I Tr S B Hst) as [(c1 & E & F & A & Hok & Hs)|(e & E & Hv)].
  - left. rewrite (bind_Ok _ _ _ _ _ E), bind_eq, in_fork_db_eq, F.
    pose proof B as (_ & Hb & _ & Bq)%branch_cons_inv.
    destruct (mark_valid_head _ _ _ _ I Hb) as (f' & -> & I' & Hi & Hval).
    assert (B' : branch f' r b (b :: bs)) by (eapply branch_super, B; by rewrite Hi).
    assert (Hb' : is_valid f' b = true) by (apply bool_decide_eq_true; rewrite Hval; set_solver).
    eexists. split; [reflexivity|]. split; [|by split_and!; try apply A]. split; [done| |by apply Hs].
    eapply (tree_mark (fork_db c)); [done..| |done|done|done].
    apply S.
  - right. exists e. by rewrite (bind_Throw _ _ _ _ _ E).
Qed.

(** ** Invalid blocks *)
Lemma invalid_descends (f : fork_database) (r hf b : block_state_ptr) (base : world) (i : block_id) :
  fork_inv f r hf -> tree_ok f r base -> index f !! bs_id b = Some b -> is_valid f b = false ->
  desc (index f) (bs_id b) i -> exists p, index f !! i = Some p /\ is_valid f p = false.
Proof.
  intros I Tr Hb Hv. induction 1 as [|j c p D (q & Hq & Hqv) Hp Hj]; [eauto|].
  exists p. split; [done|]. apply not_true_iff_false. intros Hpv.
  rewrite (to_parent _ _ _ Tr _ _ q Hp Hpv) in Hqv; [done|]. rewrite Hj. unfold node.
  rewrite bool_decide_eq_false_2; [done|]. intros Hr. by rewrite <- Hr, (fi_root_fresh _ _ _ I) in Hq.
Qed.

Lemma branch_valid (f : fork_database) (r b : block_state_ptr) (base : world) (bs : list block_state_ptr) :
  tree_ok f r base -> branch f r b bs -> is_valid f b = true -> forall x, x ∈ bs -> is_valid f x = true.
Proof.
  intros Tr. induction 1 as [|s q l Hs Hq B IH]; intros Hv x; [by intros ?%elem_of_nil|].
  intros [->|Hx]%elem_of_cons; [done|]. apply IH; [|done]. by eapply (to_parent _ _ _ Tr).
Qed.

(** A block that is not valid can be removed, and the valid branches stay. *)
Lemma remove_synced (c : controller) (r hf b : block_state_ptr) (base : world) (bs : list block_state_ptr) :
  state_ok c r hf base bs -> index (fork_db c) !! bs_id b = Some b -> is_valid (fork_db c) b = false ->
  exists f', remove (fork_db c) (bs_id b) = Ok f' /\ state_ok (set_fork_db f' c) r hf base bs /\
    (forall i p, index f' !! i = Some p <-> index (fork_db c) !! i = Some p /\ ~ desc (index (fork_db c)) (bs_id b) i) /\
    (forall y l, branch (fork_db c) r y l -> is_valid (fork_db c) y = true -> branch f' r y l /\ is_valid f' y = true).
Proof.
  intros [I Tr S] Hb Hv. set (f := fork_db c) in *.
  destruct (remove_cases f hf (bs_id b) (fork_inv_numbered _ _ _ I) (fi_head _ _ _ I)) as [[_ D]|(f' & E & _ & _ & _ & Hval & Hi)].
  { destruct (invalid_descends _ _ _ _ _ _ I Tr Hb Hv D) as (p & Hp & Hpv).
    destruct (fi_head_in _ _ _ I) as [->|Hh]; [by rewrite (fi_root_fresh _ _ _ I) in Hp|].
    rewrite Hh in Hp. simplify_eq. by rewrite (fi_head_valid _ _ _ I) in Hpv. }
  assert (Hbr : forall y l, branch f r y l -> is_valid f y = true -> branch f' r y l /\ is_valid f' y = true).
  { intros y l B Hy. split; [|unfold is_valid; by rewrite Hval]. apply (branch_sub f); [done| |apply I].
    intros x Hx. destruct (branch_elem _ _ _ I _ _ _ B Hx) as (Hx' & _). apply Hi. split; [done|]. intros D.
    destruct (invalid_descends _ _ _ _ _ _ I Tr Hb Hv D) as (p & Hp & Hpv). rewrite Hx' in Hp. simplify_eq.
    by rewrite (branch_valid _ _ _ _ _ Tr B Hy _ Hx) in Hpv. }
  exists f'. split; [done|]. split; [|done]. split; simpl.
  - by eapply remove_inv.
  - eapply tree_cut; [done| |done]. intros i p Hp. by apply Hi in Hp as [? _].
  - destruct (Hbr _ _ (sy_branch _ _ _ _ S) (sy_valid _ _ _ _ S)). by destruct S; split.
Qed.

(** ** Switching *)

(** Applying a valid branch again. *)
Lemma reapply_synced (c : controller) (r hf y : block_state_ptr) (base : world) (l rest : list block_state_ptr) :
  state_ok c r hf base rest -> branch (fork_db c) r y (l ++ rest) -> is_valid (fork_db c) y = true ->
  exists c', for_each (fun b => _ ← apply_block b validated_status; update (set_head b)) (rev l) c = (c', Ok tt) /\
    state_ok c' r hf base (l ++ rest) /\ fork_db c' = fork_db c /\ aside c c'.
Proof.
  revert y. induction l as [|b l IH]; intros y SO B Hy; [by exists c|]. cbn [rev app] in *.
  pose proof B as (-> & Hb & Hq & Bq)%branch_cons_inv.
  assert (Hqv : is_valid (fork_db c) (top r (l ++ rest)) = true).
  { by eapply (to_parent _ _ _ (so_tree _ _ _ _ _ SO)). }
  destruct (IH _ SO Bq Hqv) as (c1 & E1 & SO1 & F1 & A1). rewrite for_each_app, (bind_Ok _ _ _ _ _ E1).
  pose proof SO1 as [I1 T1 S1]. rewrite <- F1 in B, Hy.
  destruct (apply_synced _ _ _ _ _ _ validated_status I1 T1 S1 B (or_intror eq_refl))
    as [(c2 & E2 & F2 & A2 & Hok & Hs)|(e & E2 & Hv)]; [|by rewrite Hv in Hy].
  cbn [for_each]. rewrite bind_eq, bind_eq, E2. eexists. split; [reflexivity|].
  specialize (Hs _ B Hy). rewrite <- F2 in Hs.
  replace (set_fork_db (fork_db c2) c2) with c2 in Hs by (by destruct c2).
  split; [|split; [simpl; congruence|by eapply aside_trans]]. by split; simpl; rewrite ?F2.
Qed.

Lemma branch_last (f : fork_database) (r y x : block_state_ptr) (l rest : list block_state_ptr) (hf : block_state_ptr) :
  fork_inv f r hf -> branch f r y (l ++ rest) -> last l = Some x -> prev_id x = bs_id (top r rest).
Proof.
  intros I. revert y. induction l as [|b l IH]; intros y B Hx; [done|].
  apply branch_cons_inv in B as (-> & _ & Hq & B). destruct l as [|b' l].
  - injection Hx as <-. by destruct (node_is_node _ _ _ _ _ I Hq).
  - rewrite last_cons_cons in Hx. by eapply IH.
Qed.

(** The blocks [todo], oldest first, lead from the head to [t]; [second] is the old branch from the
    fork point, where [rest] ends. *)
Record switching (c : controller) (r hf t old : block_state_ptr) (base : world)
    (second todo ap rest : list block_state_ptr) : Prop := {
  sw_ok : state_ok c r hf base (ap ++ rest);
  sw_target : branch (fork_db c) r t (rev todo ++ ap ++ rest);
  sw_old : branch (fork_db c) r old (second ++ rest);
  sw_old_valid : is_valid (fork_db c) old = true;
  sw_best : t = hf \/ bs_preferred t hf = true;
  sw_others : forall x, x ∈ todo -> x <> t -> bs_preferred x hf = false;
  sw_second : second = [] -> is_valid (fork_db c) t = true
}.

Abbreviation switch_loop := (switch_loop intrinsic_hash block_at conf).
Abbreviation check_fork_point := (check_fork_point (T := T) (C := C)).

(** What a failed switch does after the block [b] was refused. *)
Lemma switch_back (c : controller) (r hf t old b : block_state_ptr) (base : world)
    (second todo ap rest : list block_state_ptr) (e : exn) :
  switching c r hf t old base second (b :: todo) ap rest -> is_valid (fork_db c) b = false ->
  exists c', (_ ← in_fork_db (fun f => remove f (id b));
       _ ← pop_blocks block_at conf (length ap);
       _ ← check_fork_point second;
       _ ← for_each (fun b => _ ← apply_block b validated_status; update (set_head b)) (rev second);
       throw (A := unit) e) c = (c', Throw e) /\
    state_ok c' r hf base (second ++ rest) /\ aside c c' /\
    (forall i p, index (fork_db c') !! i = Some p ->
       index (fork_db c) !! i = Some p /\ ~ desc (index (fork_db c)) (bs_id b) i).
Proof.
  intros [SO Bt Bo Ho _ _ H2] Hv. cbn [rev] in Bt. rewrite <- (assoc_L (++)) in Bt. cbn [app] in Bt.
  pose proof SO as [I Tr S].
  destruct (branch_elem _ _ _ I _ b _ Bt ltac:(set_solver)) as (Hb & _).
  destruct second as [|y0 second'] eqn:Es.
  { rewrite (branch_valid _ _ _ _ _ Tr Bt (H2 eq_refl) b) in Hv by set_solver. done. }
  rewrite <- Es in *. destruct (last second) as [y|] eqn:El; [|by apply last_None in El; simplify_eq].
  destruct (remove_synced _ _ _ _ _ _ SO Hb Hv) as (f1 & E1 & SO1 & Hi1 & Hbr).
  destruct (Hbr _ _ Bo Ho) as [Bo1 Ho1]. destruct SO1 as [I1 T1 S1].
  destruct (pops_synced _ _ _ _ _ _ I1 T1 S1) as (c2 & E2 & S2 & F2 & A2).
  rewrite bind_eq, in_fork_db_eq. change (id b) with (bs_id b). rewrite E1.
  assert (E2' : check_fork_point second c2 = (c2, Ok tt)).
  { unfold Controller.check_fork_point. rewrite get_bind, lift_bind, El. cbn [deref].
    rewrite bool_decide_eq_true_2; [done|]. change (bs_id (ctl_head c2) = prev_id y).
    rewrite (branch_last _ _ _ _ _ _ _ I Bo El). unfold bs_id. by rewrite (sy_state _ _ _ _ S2). }
  rewrite (bind_Ok _ _ _ _ _ E2), (bind_Ok _ _ _ _ _ E2').
  assert (SO2 : state_ok c2 r hf base rest) by (by split; rewrite ?F2).
  cbn [fork_db set_fork_db] in F2. rewrite <- F2 in Bo1, Ho1.
  destruct (reapply_synced _ _ _ _ _ _ _ SO2 Bo1 Ho1) as (c3 & E3 & SO3 & F3 & A3).
  rewrite (bind_Ok _ _ _ _ _ E3). exists c3. split; [done|]. split; [done|].
  split; [by eapply aside_trans|]. rewrite F3, F2. intros i p Hp. by apply Hi1.
Qed.

(** One more block of the new branch was applied. *)
Lemma switching_step (c c1 : controller) (r hf t old b : block_state_ptr) (base : world)
    (second todo ap rest : list block_state_ptr) :
  switching c r hf t old base second (b :: todo) ap rest -> todo <> [] ->
  state_ok c1 r (if bs_preferred b hf then b else hf) base (b :: ap ++ rest) ->
  index (fork_db c1) = index (fork_db c) -> validated (fork_db c1) = {[addr b]} ∪ validated (fork_db c) ->
  switching c1 r hf t old base second todo (b :: ap) rest.
Proof.
  intros [SO Bt Bo Ho Hbest Hoth H2] Hne SO1 Hi Hv. cbn [rev] in Bt. rewrite <- (assoc_L (++)) in Bt. cbn [app] in Bt.
  pose proof (branch_tail _ _ _ _ _ _ Bt) as Bb.
  assert (Hbt : b <> t).
  { intros ->. pose proof (branch_unique _ _ _ (so_fork _ _ _ _ _ SO) _ _ _ Bt Bb) as El. apply (f_equal length) in El.
    rewrite length_app, length_rev in El. destruct todo; [done|simpl in El; lia]. }
  rewrite (Hoth b ltac:(left) Hbt) in SO1.
  assert (Hsub : forall y l, branch (fork_db c) r y l -> branch (fork_db c1) r y l).
  { intros y l. apply branch_super. by rewrite Hi. }
  assert (Hval : forall y, is_valid (fork_db c) y = true -> is_valid (fork_db c1) y = true).
  { intros y. unfold is_valid. rewrite Hv, !bool_decide_eq_true. set_solver. }
  split; auto. intros x Hx. apply Hoth. by right.
Qed.

(** The loop reaches [t], or goes back to the old branch without the blocks above the refused one. *)
Lemma switch_loop_synced (c : controller) (r hf t old : block_state_ptr) (base : world)
    (second todo ap rest : list block_state_ptr) :
  switching c r hf t old base second todo ap rest ->
  (exists c', switch_loop (length ap) second todo c = (c', Ok tt) /\
     (exists hf', state_ok c' r hf' base (rev todo ++ ap ++ rest) /\ (todo = [] /\ hf' = hf \/ hf' = t)) /\
     index (fork_db c') = index (fork_db c) /\ aside c c') \/
  (exists c' e, switch_loop (length ap) second todo c = (c', Throw e) /\
     state_ok c' r hf base (second ++ rest) /\ aside c c' /\ is_valid (fork_db c) t = false /\
     (forall i p, index (fork_db c') !! i = Some p -> index (fork_db c) !! i = Some p /\ i <> bs_id t)).
Proof.
  revert c hf ap. induction todo as [|b todo IH]; intros c hf ap SW.
  { left. exists c. split; [done|]. split; [|done]. exists hf. split; [apply SW|by left]. }
  pose proof SW as [SO Bt Bo Ho Hbest Hoth H2]. pose proof (so_fork _ _ _ _ _ SO) as I.
  assert (Bt' : branch (fork_db c) r t (rev todo ++ b :: ap ++ rest)).
  { cbn [rev] in Bt. by rewrite <- (assoc_L (++)) in Bt. }
  destruct (branch_elem _ _ _ I _ b _ Bt' ltac:(set_solver)) as (Hb & _).
  pose proof (branch_tail _ _ _ _ _ _ Bt') as Bb.
  cbn [Controller.switch_loop]. rewrite get_bind.
  set (st := if is_valid (fork_db c) b then validated_status else complete).
  assert (Hst : session_status st) by (unfold st; destruct (is_valid _ b); [by right|by left]).
  destruct (switch_synced _ _ _ _ _ _ st SO Bb Hst) as [(c1 & E1 & SO1 & Hi1 & Hv1 & A1)|(e & E1 & Hv)].
  - assert (Ea : attempt (switch_to b st) c = (c1, Ok None))
      by (unfold attempt, catch; rewrite bind_eq, E1; done).
    rewrite (bind_Ok _ _ _ _ _ Ea). change (S (length ap)) with (length (b :: ap)).
    destruct (decide (todo = [])) as [->|Hne].
    + left. exists c1. split; [done|]. split; [|done]. eexists. split; [done|]. right.
      pose proof Bt' as (-> & _)%branch_cons_inv.
      destruct Hbest as [->|Hp]; [by destruct (bs_preferred hf hf)|by rewrite Hp].
    + pose proof (switching_step _ _ _ _ _ _ _ _ _ _ _ _ SW Hne SO1 Hi1 Hv1) as SW1.
      destruct (IH c1 hf (b :: ap) SW1) as [(c2 & E2 & (hf2 & SO2 & Hhf2) & Hi2 & A2)|(c2 & e & E2 & SO2 & A2 & Ht2 & Hi2)].
      * left. exists c2. split; [done|]. split; [|split; [congruence|by eapply aside_trans]].
        exists hf2. destruct Hhf2 as [[-> _]| ->]; [done|]. split; [|by right]. cbn [rev]. by rewrite <- (assoc_L (++)).
      * right. exists c2, e. rewrite Hi1 in Hi2. split_and!; try done; [by eapply aside_trans|].
        apply bool_decide_eq_false. apply bool_decide_eq_false in Ht2. rewrite Hv1 in Ht2. set_solver.
  - right. assert (Ea : attempt (switch_to b st) c = (c, Ok (Some e))) by (unfold attempt, catch; rewrite bind_eq, E1; done).
    assert (Hbv : is_valid (fork_db c) b = false).
    { by destruct (is_valid (fork_db c) b); [apply Hv|]. }
    destruct (switch_back _ _ _ _ _ _ _ _ _ _ _ e SW Hbv) as (c2 & E2 & SO2 & A2 & Hi2).
    rewrite (bind_Ok _ _ _ _ _ Ea). exists c2, e. split; [exact E2|]. split_and!; try done.
    { apply not_true_iff_false. intros Htv.
      by rewrite (branch_valid _ _ _ _ _ (so_tree _ _ _ _ _ SO) Bt' Htv b ltac:(set_solver)) in Hbv. }
    intros i p Hp. destruct (Hi2 _ _ Hp) as [Hp' Hnd]. split; [done|]. intros ->. apply Hnd.
    by apply (branch_above _ _ _ _ _ _ _ I Bt').
Qed.
End switching.
