(* ===== verification/PushBlock.v ===== *)
(** * Pushing a block

    The irreversible blocks move from the undo sessions to the block log, and the theorem about
    [push_block]: whatever block is pushed, the controller stays in step with the fork database. *)

From S2P Require Import Prelude Effects Types BlockTimestamp Authority Merkle BlockHeader UndoIndex Database AuthorizationManager Whitelist ProtocolFeatures FeatureProofs BlockHeaderState ForkDatabase ForkTree Proposals Controller BlockExecution ForkSwitch.

(** ** The irreversible part of a branch *)
Lemma branch_filter (f : fork_database) (r hf b : block_state_ptr) (bs : list block_state_ptr) (n : Z) :
  fork_inv f r hf -> branch f r b bs -> exists l1, bs = l1 ++ filter (fun x => bs_num x <= n) bs.
Proof.
  intros I. induction 1 as [|s q l Hs Hq B [l1 IH]]; [by exists []|].
  pose proof (branch_block _ _ _ _ _ Hs Hq B) as Bs.
  destruct (decide (bs_num s <= n)) as [Hle|Hgt].
  - exists []. simpl. symmetry. apply filter_Forall_id, Forall_forall. intros x Hx.
    destruct (branch_elem _ _ _ I _ _ _ Bs Hx) as (_ & ? & _). lia.
  - exists (s :: l1). rewrite filter_cons_False by done. simpl. by f_equal.
Qed.

Lemma reversible_app (f : fork_database) (r hf y b : block_state_ptr) (l1 l2 : list block_state_ptr) :
  fork_inv f r hf -> branch f r y (l1 ++ b :: l2) ->
  filter (fun e : Z * block_state_ptr => ~ fst e <= bs_num b) (reversible_of (l1 ++ b :: l2)) = reversible_of l1.
Proof.
  intros I B. pose proof (branch_tail _ _ _ _ _ _ B) as Bb. revert y B. induction l1 as [|x l1 IH]; intros y B; cbn [app].
  - apply map_empty_filter_2. intros n x Hx Hn. apply Hn. simpl.
    apply elem_of_list_to_map_2, list_elem_of_fmap in Hx as (z & [= -> ->] & Hz).
    destruct (branch_elem _ _ _ I _ _ _ Bb Hz) as (_ & ? & _). lia.
  - pose proof (branch_num _ _ _ I _ _ B) as Hx. pose proof (branch_num _ _ _ I _ _ Bb) as Hb.
    apply branch_cons_inv in B as (-> & _ & _ & B). simpl in Hx, Hb. rewrite length_app in Hx. simpl in Hx.
    change (reversible_of (y :: l1 ++ b :: l2)) with (<[bs_num y := y]> (reversible_of (l1 ++ b :: l2))).
    rewrite map_filter_insert_True by (simpl; lia). by rewrite (IH _ B).
Qed.

Lemma fetch_head_branch (f : fork_database) (r h : block_state_ptr) (bs : list block_state_ptr) (n : Z) :
  fork_inv f r h -> branch f r h bs -> fetch_branch f (bs_id h) n = Ok (filter (fun b => bs_num b <= n) bs).
Proof.
  intros I B. pose proof (fetch_branch_spec _ _ _ (bs_id h) n I) as Hf. unfold get_block in Hf.
  destruct (fi_head_in _ _ _ I) as [->|Hh].
  - rewrite (fi_root_fresh _ _ _ I) in Hf. by rewrite (branch_unique _ _ _ I _ _ _ B (branch_root _ _)).
  - rewrite Hh in Hf. destruct Hf as (l & B' & ->). by rewrite (branch_unique _ _ _ I _ _ _ B B').
Qed.

Section pushing.
Context {T C : Type}.
Context `{Crypto} `{Serialization} `{FeatureDigests} `{!Execution (T := T) (C := C)} `{!ExecutionLaws (T := T) (C := C)}.
Context (intrinsic_hash : string -> Z) (block_at : Z -> option (signed_block (T := T))).
Context (conf : config) (first_block_num : Z) (rate : Z).
Hypothesis Hmode : read_mode conf <> IRREVERSIBLE.
Hypothesis Hchecks : force_all_checks conf = false.
Abbreviation controller := (controller (T := T) (C := C)).
Abbreviation world := (chain_state (C := C) * protocol_feature_manager)%type.
Abbreviation state_ok := (state_ok intrinsic_hash block_at rate).
Abbreviation synced := (synced intrinsic_hash block_at rate).
Abbreviation tree_ok := (tree_ok intrinsic_hash block_at rate).
Abbreviation replay := (replay intrinsic_hash block_at rate).
Abbreviation stack_ok := (stack_ok intrinsic_hash block_at rate).

(** ** The block log *)
Definition logged (c : controller) (b : block_state_ptr) : controller :=
  set_reversible (filter (fun e : Z * block_state_ptr => ~ fst e <= block_num b) (reversible_blocks c))
    (set_db (commit_db (kv_db c) (block_num b)) (set_blog (blog c ++ [b]) c)).

Lemma log_loop_run (c : controller) (i : block_id) (l : list block_state_ptr) :
  log_loop intrinsic_hash block_at conf i l c =
  (foldl logged c l, Ok (match last l with Some b => id b | None => i end)).
Proof.
  revert c i. induction l as [|b l IH]; intros c i; [done|]. cbn [log_loop foldl].
  rewrite bind_eq, on_exception_eq. unfold log_block. rewrite bool_decide_eq_false_2 by done.
  simpl when. rewrite ret_bind, !update_bind. cbv beta. unfold update. rewrite IH. f_equal. rewrite last_cons. by destruct (last l).
Qed.

Lemma logged_keeps (c : controller) (l : list block_state_ptr) :
  fork_db (foldl logged c l) = fork_db c /\ ctl_head (foldl logged c l) = ctl_head c /\
  trusted_producer_light_validation (foldl logged c l) = trusted_producer_light_validation c /\
  blog (foldl logged c l) = blog c ++ l /\ cur (kv_db (foldl logged c l)) = cur (kv_db c) /\
  protocol_features (foldl logged c l) = protocol_features c.
Proof.
  revert c. induction l as [|y l IH]; intros c; simpl; [by rewrite app_nil_r|].
  destruct (IH (logged c y)) as (-> & -> & -> & -> & -> & ->). simpl. rewrite <- (assoc_L (++)).
  split_and!; try done. unfold commit_db. by repeat case_match.
Qed.

Lemma commit_take (d : chain_db (C := C)) (m n : Z) :
  Z.of_nat (length (undo_stack d)) = revision d - m -> m < n <= revision d ->
  commit_db d n = mk_chain_db (cur d) (take (Z.to_nat (revision d - n)) (undo_stack d)) (revision d).
Proof.
  intros Hl Hn. unfold commit_db. rewrite Z.min_l by lia. destruct (Z.eqb_spec n (revision d)) as [->|].
  - by rewrite Z.sub_diag.
  - rewrite (proj2 (Z.ltb_lt _ _)) by lia. done.
Qed.

(** The controller after the blocks of a branch were logged. *)
Lemma logged_state (c : controller) (f : fork_database) (r hf : block_state_ptr) (l : list block_state_ptr) :
  fork_inv f r hf -> branch f r (top r l) l ->
  Z.of_nat (length (undo_stack (kv_db c))) = revision (kv_db c) - bs_num r ->
  bs_num (top r l) <= revision (kv_db c) ->
  let d := kv_db c in
  foldl logged c (rev l) =
  match l with
  | [] => c
  | b :: _ => set_reversible (filter (fun e : Z * block_state_ptr => ~ fst e <= bs_num b) (reversible_blocks c))
      (set_db (mk_chain_db (cur d) (take (Z.to_nat (revision d - bs_num b)) (undo_stack d)) (revision d))
        (set_blog (blog c ++ rev l) c))
  end.
Proof.
  intros I B Hl Hle d. induction l as [|b l IH]; [done|].
  pose proof (branch_num _ _ _ I _ _ B) as Hb. cbn [top] in *.
  pose proof B as (_ & _ & _ & Bq)%branch_cons_inv. pose proof (branch_num _ _ _ I _ _ Bq) as Hq.
  simpl in Hb. specialize (IH Bq ltac:(lia)). cbn [rev]. rewrite foldl_app, IH. cbn [foldl].
  unfold logged. change (block_num b) with (bs_num b). destruct l as [|x l].
  - simpl in *. rewrite (commit_take _ (bs_num r)) by lia. done.
  - cbn [top] in *. simpl kv_db. rewrite (commit_take _ (bs_num x)); simpl.
    + rewrite take_take, Nat.min_l by lia. unfold set_reversible, set_db, set_blog. simpl.
      f_equal; [|by rewrite <- !(assoc_L (++))].
      rewrite map_filter_filter. apply map_filter_ext. intros n y _. simpl. lia.
    + rewrite length_take, Nat.min_l; unfold d; lia.
    + unfold d. lia.
Qed.
(** The last block of the log is the root. *)
Definition blog_ok (c : controller) (r : block_state_ptr) : Prop :=
  match last (blog c) with
  | Some b => calculate_id (h_base (header b)) = bs_id r /\ header_block_num (h_base (header b)) = bs_num r
  | None => u32 (first_block_num - 1) = bs_num r
  end.

(** Logging the blocks [b :: l2] of the branch of the head makes [b] the root. *)
Lemma logged_ok (c : controller) (r b : block_state_ptr) (base : world) (l1 l2 : list block_state_ptr) :
  state_ok c r (top r (l1 ++ b :: l2)) base (l1 ++ b :: l2) ->
  exists x f', replay r base (b :: l2) = Ok x /\
    advance_root (fork_db c) (bs_id b) = (f', Ok tt) /\
    (forall i p, index f' !! i = Some p -> index (fork_db c) !! i = Some p) /\
    state_ok (set_fork_db f' (foldl logged c (rev (b :: l2)))) b (top b l1) x l1.
Proof.
  replace (top b l1) with (top r (l1 ++ b :: l2)) by (by destruct l1). set (h := top r (l1 ++ b :: l2)).
  intros [I Tr S]. pose proof (sy_state _ _ _ _ _ _ _ S) as Hhs. pose proof S as [B Hh Hv Hr Hst Hrev Hrb Hp Hrt]. fold h in B, Hv, Hhs.
  unfold bs_num in Hrev. rewrite Hhs in Hrev. change (revision (kv_db c) = bs_num h) in Hrev. pose proof (branch_tail _ _ _ _ _ _ B) as Bb.
  pose proof Bb as (_ & Hb & _ & _)%branch_cons_inv.
  pose proof (branch_num _ _ _ I _ _ B) as Hn. pose proof (branch_num _ _ _ I _ _ Bb) as Hnb.
  rewrite length_app in Hn. simpl in Hn, Hnb.
  assert (Hbv : is_valid (fork_db c) b = true) by (apply (branch_valid _ _ _ _ _ _ _ _ Tr B Hv); set_solver).
  assert (Hx : exists x, replay r base (b :: l2) = Ok x).
  { pose proof (to_replay _ _ _ _ _ _ Tr _ _ Bb Hbv) as Hok. destruct (replay r base (b :: l2)) as [x|]; [eauto|done]. }
  destruct Hx as [x Hx].
  destruct (advance_root_cases _ _ _ _ I Hb Hbv) as [(D & f' & E & Hr' & Hh' & Hval & Hi)|[Hno _]].
  2:{ destruct Hno. by eapply branch_above. }
  exists x, f'. split; [done|]. split; [done|]. split; [intros i p Hip; by apply Hi in Hip as [? _]|].
  pose proof (stack_length _ _ _ _ _ _ _ Hst) as Hlen. rewrite length_app in Hlen. simpl in Hlen.
  rewrite (logged_state c (fork_db c) r h (b :: l2)); [|done|done|lia|cbn [top]; lia]. split; simpl.
  - by eapply reroot_inv.
  - by eapply tree_reroot.
  - split; simpl; try done.
    + replace (top b l1) with h by (unfold h; by destruct l1). by eapply (reroot_above (fork_db c)).
    + unfold h in *. destruct l1; [by rewrite Hh|done].
    + replace (top b l1) with h by (unfold h; by destruct l1). unfold is_valid. by rewrite Hval.
    + by rewrite <- (replay_app _ _ _ _ _ _ _ _ _ Hx).
    + replace (Z.to_nat _) with (length l1) by lia. by eapply stack_app.
    + unfold bs_num. by rewrite Hhs.
    + rewrite Hrb. by eapply reversible_app.
Qed.

Abbreviation log_irreversible := (log_irreversible intrinsic_hash block_at conf first_block_num).

(** What [log_irreversible] keeps of a controller. *)
Record progress (c c' : controller) : Prop := {
  pg_head : ctl_head c' = ctl_head c;
  pg_cur : cur (kv_db c') = cur (kv_db c);
  pg_features : protocol_features c' = protocol_features c;
  pg_trusted : trusted_producer_light_validation c' = trusted_producer_light_validation c;
  pg_index : forall i p, index (fork_db c') !! i = Some p -> index (fork_db c) !! i = Some p;
  pg_blog : exists l, blog c' = blog c ++ l
}.

(** The head of the controller is that of the fork database. *)
Definition level (c : controller) : Prop :=
  exists r base bs, state_ok c r (top r bs) base bs /\ blog_ok c r.

Lemma log_synced (c : controller) :
  level c -> exists c', log_irreversible c = (c', Ok tt) /\ level c' /\ progress c c'.
Proof.
  intros L. pose proof L as (r & base & bs & SO & Hbl). pose proof SO as [I Tr S].
  assert (Hsame : exists c', (c, Ok tt) = (c', Ok tt) /\ level c' /\ progress c c').
  { exists c. split_and!; try done. split; try done. exists []. by rewrite app_nil_r. }
  unfold Controller.log_irreversible. rewrite get_bind, (fi_root _ _ _ I), check_bind. cbn [deref]. rewrite lift_bind.
  set (lib := match last (blog c) with Some b => _ | None => _ end).
  assert (Hlib : lib = bs_num r) by (unfold lib, blog_ok in *; destruct (last (blog c)) as [b|]; [apply Hbl|done]).
  rewrite (bind_Ok _ _ _ c tt).
  2:{ unfold blog_ok in Hbl. destruct (last (blog c)) as [b|].
      - destruct Hbl as [-> _]. by rewrite bool_decide_eq_true_2.
      - rewrite Hlib. change (block_num r) with (bs_num r). by rewrite Z.eqb_refl. }
  rewrite bool_decide_eq_false_2, lift_bind, (fi_head _ _ _ I) by done. cbn [deref]. rewrite lift_bind.
  destruct (bs_lib (top r bs) <=? lib); [exact Hsame|]. rewrite lift_bind.
  rewrite (fetch_head_branch _ _ _ _ _ I (sy_branch _ _ _ _ _ _ _ S)), bind_eq, log_loop_run.
  destruct (branch_filter _ _ _ _ _ (bs_lib (top r bs)) I (sy_branch _ _ _ _ _ _ _ S)) as [l1 Hl1].
  destruct (filter _ bs) as [|b l2] eqn:Ef.
  { simpl. rewrite bool_decide_eq_true_2 by done. exact Hsame. }
  cbn [rev]. rewrite last_snoc. clear Hsame. subst bs.
  destruct (logged_ok _ _ _ _ _ _ SO) as (x & f' & Hx & E & Hi & SO'). pose proof SO' as [I' _ _].
  assert (Hb : index (fork_db c) !! bs_id b = Some b).
  { pose proof (branch_tail _ _ _ _ _ _ (sy_branch _ _ _ _ _ _ _ S)) as B. by apply branch_cons_inv in B as (_ & ? & _). }
  rewrite bool_decide_eq_false_2.
  2:{ intros Er. change (bs_id b = bs_id r) in Er. by rewrite Er, (fi_root_fresh _ _ _ I) in Hb. }
  change (rev l2 ++ [b]) with (rev (b :: l2)). destruct (logged_keeps c (rev (b :: l2))) as (Hf1 & Hh1 & Ht1 & Hb1 & Hc1 & Hp1).
  unfold when, advance_fork_root. cbn [negb]. cbv beta. rewrite Hf1. change (id b) with (bs_id b). rewrite E.
  eexists. split; [reflexivity|]. split.
  - exists b, x, l1. split; [exact SO'|]. unfold blog_ok. cbn [blog set_fork_db]. rewrite Hb1. cbn [rev].
    rewrite (assoc_L (++)), last_snoc. destruct (to_fine _ _ _ _ _ _ Tr _ _ Hb). done.
  - split; cbn [ctl_head kv_db fork_db blog protocol_features trusted_producer_light_validation set_fork_db]; try done. by eexists.
Qed.

(** ** Switching to the pending head *)

(** [t] is the pending head: the head [hf] when no block is preferred over it, or the one block that is. *)
Record target (f : fork_database) (hf t : block_state_ptr) : Prop := {
  tg_best : t = hf \/ index f !! bs_id t = Some t /\ is_valid f t = false /\ bs_preferred t hf = true;
  tg_others : forall i b, index f !! i = Some b -> i <> bs_id t -> bs_preferred b hf = false
}.

Lemma preferred_irrefl (t : block_state_ptr) : bs_preferred t t = false.
Proof. apply not_true_iff_false. rewrite bs_preferred_true. lia. Qed.

Lemma target_preferred (f : fork_database) (r hf t b : block_state_ptr) (i : block_id) :
  fork_inv f r hf -> target f hf t -> index f !! i = Some b -> bs_preferred b t = false.
Proof.
  intros I [Hb Ho] Hi. destruct (decide (i = bs_id t)) as [->|Hne].
  - destruct Hb as [->|[Ht _]]; [|rewrite Hi in Ht; simplify_eq; apply preferred_irrefl].
    destruct (fi_head_in _ _ _ I) as [->|Hh]; [by rewrite (fi_root_fresh _ _ _ I) in Hi|].
    rewrite Hi in Hh. simplify_eq. apply preferred_irrefl.
  - specialize (Ho _ _ Hi Hne). destruct Hb as [->|(_ & _ & Hp)]; [done|].
    apply (bs_preferred_negtrans b hf t Ho). apply not_true_iff_false. rewrite bs_preferred_true in *. lia.
Qed.

(** The irreversible number along a branch. *)
Lemma branch_lib (f : fork_database) (r y : block_state_ptr) (base : world) (l rest : list block_state_ptr) :
  tree_ok f r base -> branch f r y (l ++ rest) -> bs_lib (top r rest) <= bs_lib y.
Proof.
  intros Tr. revert y. induction l as [|b l IH]; intros y B; simpl in B.
  - rewrite (branch_top _ _ _ _ B). lia.
  - apply branch_cons_inv in B as (-> & Hb & Hq & B). specialize (IH _ B).
    pose proof (to_lib _ _ _ _ _ _ Tr _ _ _ Hb Hq). lia.
Qed.

Section to_target.
Context (c : controller) (r hf t : block_state_ptr) (base : world) (bs : list block_state_ptr).
Hypothesis SO : state_ok c r hf base bs.
Hypothesis Hrank : same_rank (top r bs) hf.
Hypothesis Ht : target (fork_db c) hf t.
Hypothesis Hblog : blog_ok c r.

Lemma target_node : is_node (fork_db c) r t.
Proof.
  pose proof (so_fork _ _ _ _ _ _ _ _ SO) as I. unfold is_node, node.
  assert (Hi : t = r \/ index (fork_db c) !! bs_id t = Some t).
  { destruct (tg_best _ _ _ Ht) as [->|[? _]]; [apply I|by right]. }
  destruct Hi as [->|Hi]; [by rewrite bool_decide_eq_true_2|].
  rewrite bool_decide_eq_false_2; [done|]. intros E. by rewrite <- E, (fi_root_fresh _ _ _ I) in Hi.
Qed.

Lemma target_unique (x : block_state_ptr) :
  index (fork_db c) !! bs_id x = Some x -> bs_id x = bs_id t -> x = t.
Proof.
  intros Hx E. pose proof target_node as N. unfold is_node, node in N. rewrite E in Hx.
  case_bool_decide as Er; [by rewrite <- Er, (fi_root_fresh _ _ _ (so_fork _ _ _ _ _ _ _ _ SO)) in Hx|].
  rewrite N in Hx. by simplify_eq.
Qed.

Lemma head_node : is_node (fork_db c) r (top r bs).
Proof. eapply branch_is_node; [apply SO|apply SO]. Qed.

(** The target is not lower than the head. *)
Lemma target_rank : bs_lib (top r bs) <= bs_lib t /\ (bs_lib t = bs_lib (top r bs) -> bs_num (top r bs) <= bs_num t).
Proof.
  destruct Hrank as [E1 E2]. unfold bs_lib. destruct (tg_best _ _ _ Ht) as [->|(_ & _ & Hp%bs_preferred_true)]; lia.
Qed.

(** A block on the head is the new one. *)
Lemma target_child : prev_id t = bs_id (top r bs) ->
  index (fork_db c) !! bs_id t = Some t /\ is_valid (fork_db c) t = false /\ bs_preferred t hf = true /\
  branch (fork_db c) r t (t :: bs).
Proof.
  intros E. pose proof SO as [I Tr S].
  assert (Hnew : t <> hf).
  { intros ->. destruct (fi_head_in _ _ _ I) as [->|Hh].
    - destruct Hrank as [_ Hn]. destruct bs as [|b l].
      + by apply (to_root_prev _ _ _ _ _ _ Tr).
      + rewrite (branch_num _ _ _ I _ _ (sy_branch _ _ _ _ _ _ _ S)) in Hn. simpl in Hn. lia.
    - destruct (fi_link _ _ _ I _ _ Hh) as (q & Hq & Hn). rewrite E, head_node in Hq. simplify_eq.
      destruct Hrank as [_ Hn']. lia. }
  destruct (tg_best _ _ _ Ht) as [->|(Hi & Hv & Hp)]; [done|]. split_and!; try done.
  apply (branch_block _ _ _ (top r bs)); [done| |apply S]. rewrite E. apply head_node.
Qed.

(** The two branches from the fork point. *)
Lemma switch_branches : bs_id t <> bs_id (top r bs) -> prev_id t <> bs_id (top r bs) ->
  exists l1 l2 rest, fetch_branch_from (fork_db c) (bs_id t) (bs_id (top r bs)) = Ok (l1, l2) /\ bs = l2 ++ rest /\
    branch (fork_db c) r t (l1 ++ rest) /\ l1 <> [] /\ (l2 = [] -> is_valid (fork_db c) t = true).
Proof.
  intros Hne Hnp. pose proof SO as [I Tr S]. pose proof (sy_branch _ _ _ _ _ _ _ S) as B.
  destruct (fetch_branch_from_spec _ _ _ _ _ I target_node head_node) as (l1 & l2 & a & E & P1 & P2 & _).
  destruct (path_node_end _ _ _ I _ _ _ P1 target_node) as [rest Br].
  pose proof (path_branch _ _ _ _ _ _ P1 Br) as B1. pose proof (path_branch _ _ _ _ _ _ P2 Br) as B2.
  pose proof (branch_unique _ _ _ I _ _ _ B B2) as Ebs. pose proof target_rank as [Hr1 Hr2].
  exists l1, l2, rest. split_and!; try done.
  - intros ->. pose proof (branch_lib _ _ _ _ _ _ Tr B2) as Hl.
    pose proof (branch_num _ _ _ I _ _ B1) as N1. pose proof (branch_num _ _ _ I _ _ B2) as N2. simpl in B1, N1.
    rewrite <- (branch_top _ _ _ _ B1) in Hl. rewrite length_app in N2.
    destruct l2 as [|b l2]; [|simpl in N2; lia]. by inversion P1; inversion P2; subst.
  - intros ->. destruct (is_valid (fork_db c) t) eqn:Ev; [done|exfalso]. simpl in Ebs, B2. subst rest.
    inversion P2; subst a. destruct (last l1) as [x|] eqn:El.
    2:{ apply last_None in El. subst l1. by inversion P1; subst. }
    pose proof (path_prev _ _ _ I _ _ _ _ P1 El) as Hx. apply last_Some in El as [l1' ->].
    rewrite <- (assoc_L (++)) in B1. destruct (branch_elem _ _ _ I _ x _ B1 ltac:(set_solver)) as (Hxi & _).
    assert (Hxt : bs_id x <> bs_id t).
    { intros Ext. pose proof (target_unique _ Hxi Ext). congruence. }
    pose proof (tg_others _ _ _ Ht _ _ Hxi Hxt) as Hp. destruct (fi_link _ _ _ I _ _ Hxi) as (q & Hq & Hn).
    pose proof (to_lib _ _ _ _ _ _ Tr _ _ _ Hxi Hq) as Hl. rewrite Hx, head_node in Hq. simplify_eq.
    destruct Hrank as [E1 E2]. apply not_true_iff_false in Hp. rewrite bs_preferred_true in Hp. unfold bs_lib in *. lia.
Qed.

Abbreviation maybe_switch_forks := (maybe_switch_forks intrinsic_hash block_at conf first_block_num).

(** The target became the head, or it was refused. *)
Record switched (c' : controller) : Prop := {
  sd_level : level c';
  sd_head : bsp_state (ctl_head c') = bsp_state t;
  sd_trusted : trusted_producer_light_validation c' = trusted_producer_light_validation c;
  sd_index : forall i p, index (fork_db c') !! i = Some p -> index (fork_db c) !! i = Some p;
  sd_blog : exists l, blog c' = blog c ++ l
}.

Record refused (c' : controller) : Prop := {
  rf_ok : state_ok c' r hf base bs;
  rf_aside : aside c c';
  rf_new : is_valid (fork_db c) t = false;
  rf_index : forall i p, index (fork_db c') !! i = Some p -> index (fork_db c) !! i = Some p /\ i <> bs_id t
}.

Lemma blog_aside (c' : controller) : aside c c' -> blog_ok c' r.
Proof. intros [E _]. unfold blog_ok. by rewrite E. Qed.

(** The irreversible blocks are logged after the switch. *)
Lemma log_switched (c' : controller) (bs' : list block_state_ptr) :
  state_ok c' r t base (t :: bs') -> index (fork_db c') = index (fork_db c) -> aside c c' ->
  exists c'', log_irreversible c' = (c'', Ok tt) /\ switched c''.
Proof.
  intros SO' Hi [A1 A2]. pose proof (sy_head _ _ _ _ _ _ _ (so_sync _ _ _ _ _ _ _ _ SO')) as Hh. simpl in Hh.
  destruct (log_synced c') as (c'' & E & L & [P1 P2 _ P3 P4 P5]).
  { exists r, base, (t :: bs'). split; [done|by apply blog_aside]. }
  exists c''. split; [done|]. split; [done|congruence|congruence| |by rewrite A1 in P5]. by rewrite Hi in P4.
Qed.

Lemma pop_to_fork (l2 rest : list block_state_ptr) :
  bs = l2 ++ rest ->
  exists c1, (match l2 with
      | [] => mret tt
      | _ :: _ => _ ← pop_blocks block_at conf (length l2); check_fork_point l2
      end) c = (c1, Ok tt) /\ state_ok c1 r hf base rest /\ fork_db c1 = fork_db c /\ aside c c1.
Proof.
  intros Ebs. destruct l2 as [|x l]; [simpl in Ebs; subst rest; by exists c|].
  remember (x :: l) as l2 eqn:E2.
  pose proof SO as [I Tr S]. pose proof S as S'. rewrite Ebs in S'.
  destruct (pops_synced _ _ conf _ _ _ _ _ _ _ I Tr S') as (c1 & E & S1 & F & A). exists c1.
  rewrite (bind_Ok _ _ _ _ _ E). split; [|by split; [split; rewrite ?F|split]].
  destruct (last l2) as [y|] eqn:El; [|by apply last_None in El; simplify_eq].
  unfold check_fork_point. rewrite get_bind, lift_bind, El. cbn [deref].
  rewrite bool_decide_eq_true_2; [done|]. change (bs_id (ctl_head c1) = prev_id y).
  rewrite (branch_last _ _ _ _ _ _ _ I (sy_branch _ _ _ _ _ _ _ S') El). unfold bs_id. by rewrite (sy_state _ _ _ _ _ _ _ S1).
Qed.

Lemma maybe_switch_synced :
  (exists c', maybe_switch_forks t complete c = (c', Ok tt) /\ switched c') \/
  (exists c' e, maybe_switch_forks t complete c = (c', Throw e) /\ refused c').
Proof.
  pose proof SO as [I Tr S]. unfold Controller.maybe_switch_forks. rewrite get_bind.
  pose proof (sy_state _ _ _ _ _ _ _ S) as Hhs. rewrite Hhs. change (id (top r bs)) with (bs_id (top r bs)).
  change (id t) with (bs_id t).
  case_bool_decide as E1; [|case_bool_decide as E2]; cbn [negb].
  - destruct (target_child E1) as (Hi & Hv & Hp & B). rewrite bind_eq, on_exception_eq.
    destruct (switch_synced _ _ _ _ Hmode Hchecks _ _ _ _ _ _ complete SO B (or_introl eq_refl))
      as [(c1 & E & SO1 & Hi1 & _ & A1)|(e & E & _)]; rewrite E.
    + left. rewrite Hp in SO1. by apply (log_switched c1 bs).
    + right. destruct (remove_synced _ _ _ _ _ _ _ _ _ SO Hi Hv) as (f' & Ef & SO' & Hif & _).
      rewrite in_fork_db_eq, Ef. eexists _, e. split; [done|]. split; [done..|]. simpl. intros i p [Hip Hd]%Hif.
      split; [done|]. intros ->. apply Hd. constructor.
  - left. exists c. split; [done|]. assert (Et : t = top r bs).
    { pose proof target_node as N. unfold is_node in N. rewrite E2, head_node in N. by simplify_eq. }
    assert (Eh : top r bs = hf).
    { rewrite <- Et. destruct (tg_best _ _ _ Ht) as [|(_ & Hv & _)]; [done|].
      by rewrite Et, (sy_valid _ _ _ _ _ _ _ S) in Hv. }
    split; try done; [exists r, base, bs; by rewrite Eh|congruence|]. exists []. by rewrite app_nil_r.
  - destruct (switch_branches E2 E1) as (l1 & l2 & rest & Ef & Ebs & B1 & Hne & Hval). rewrite lift_bind, Ef. cbv beta iota.
    destruct (pop_to_fork l2 rest Ebs) as (c1 & Ep & SO1 & F1 & A1). rewrite (bind_Ok _ _ _ _ _ Ep), bind_eq.
    assert (SW : switching intrinsic_hash block_at rate c1 r hf t (top r bs) base l2 (rev l1) [] rest).
    { split; rewrite ?F1, ?rev_involutive; try done; [|by apply S| |].
      - rewrite <- Ebs. by apply S.
      - destruct (tg_best _ _ _ Ht) as [?|(_ & _ & ?)]; [by left|by right].
      - intros x Hx%list_elem_of_In%in_rev%list_elem_of_In Hxt.
        destruct (branch_elem _ _ _ I _ x _ B1 ltac:(set_solver)) as (Hxi & _).
        apply (tg_others _ _ _ Ht _ _ Hxi). intros Ext. by apply Hxt, target_unique. }
    destruct (switch_loop_synced _ _ _ _ Hmode Hchecks _ _ _ _ _ _ _ _ _ _ SW)
      as [(c2 & E3 & (hf' & SO2 & Hhf) & Hi2 & A2)|(c2 & e & E3 & SO2 & A2 & Hv2 & Hi2)]; cbn [length] in E3; rewrite E3.
    + left. rewrite rev_involutive in SO2. destruct Hhf as [[E4 _]| ->].
      { destruct l1; [done|]. apply (f_equal length) in E4. rewrite length_rev in E4. done. }
      destruct l1 as [|x l1]; [done|]. pose proof B1 as (-> & _)%branch_cons_inv. cbn [app] in SO2.
      eapply log_switched; [done|congruence|by eapply aside_trans].
    + right. exists c2, e. split; [done|]. rewrite <- Ebs in SO2. rewrite F1 in Hi2, Hv2. split; [done|by eapply aside_trans|done..].
Qed.
End to_target.

(** ** [push_block] *)
Hypothesis Hterminate : terminate_at_block conf = 0.

(** The controller between two blocks: the database is the result of the branch of the head, one undo session for
    each reversible block; no block of the fork database is preferred over the head; the block log ends at the
    root. *)
Definition in_step (c : controller) : Prop :=
  exists r hf base bs, state_ok c r hf base bs /\ same_rank (top r bs) hf /\
    (forall i b, index (fork_db c) !! i = Some b -> bs_preferred b hf = false) /\ blog_ok c r.

(** The flag of light validation does not matter. *)
Lemma state_trusted (c : controller) (r hf : block_state_ptr) (base : world) (bs : list block_state_ptr) (b : bool) :
  state_ok c r hf base bs -> state_ok (set_trusted b c) r hf base bs.
Proof. intros [I Tr []]. by split; [..|split]. Qed.

Lemma level_in_step (c : controller) (tr : bool) :
  level c -> (forall i b, index (fork_db c) !! i = Some b -> bs_preferred b (ctl_head c) = false) ->
  in_step (set_trusted tr c).
Proof.
  intros (r & base & bs & SO & Hb) Hbest. pose proof (sy_state _ _ _ _ _ _ _ (so_sync _ _ _ _ _ _ _ _ SO)) as Hh.
  exists r, (top r bs), base, bs. split; [by apply state_trusted|]. split; [done|]. split; [|done].
  intros i b Hib. unfold bs_preferred. rewrite <- Hh. by eapply Hbest.
Qed.

(** The new block, as [create_block_state] makes it, with an irreversible number that is not below that of its predecessor ([fr_lib]). *)
Definition pushable (c : controller) (n : block_state_ptr) : Prop :=
  exists r, root (fork_db c) = Some r /\ fresh block_at rate (fork_db c) r n.

(** Adding a block leaves the head of the fork database at its rank. *)
Lemma add_synced (c : controller) (r hf n : block_state_ptr) (base : world) (bs : list block_state_ptr)
    (f' : fork_database) :
  state_ok c r hf base bs -> fresh block_at rate (fork_db c) r n -> add (fork_db c) (Some n) false = Ok f' ->
  exists hf', state_ok (set_fork_db f' c) r hf' base bs /\ same_rank hf hf' /\
    index f' = <[bs_id n := n]> (index (fork_db c)) /\ index (fork_db c) !! bs_id n = None.
Proof.
  intros [I Tr S] Hfr E.
  destruct (add_head _ _ _ _ _ I (fr_new _ _ _ _ _ Hfr) (fr_invalid _ _ _ _ _ Hfr) E) as (Hn & _ & Hi & Hv & hf' & I' & Hhf).
  assert (Hsub : forall i p, index (fork_db c) !! i = Some p -> index f' !! i = Some p).
  { intros i p Hip. rewrite Hi, lookup_insert_ne; [done|]. intros <-. congruence. }
  exists hf'. split; [|split; [|done]]. split; simpl; [done| |].
  - eapply (tree_add _ _ _ (fork_db c)); eauto.
  - destruct S as [B Hbv ? ? ? ? ? ?]. split; simpl; try done; [by eapply branch_super|]. unfold is_valid. by rewrite Hv.
  - destruct Hhf as [->|[Hh Hhv]]; [done|]. pose proof (fi_best _ _ _ I _ _ Hh Hhv) as Hp.
    apply same_rank_iff; [|done]. destruct (fi_head_in _ _ _ I) as [->|Hhi].
    + exfalso. apply not_true_iff_false in Hp. apply Hp, bs_preferred_true.
      destruct (branch_exists _ _ _ I hf') as [l B]; [unfold is_node, node|].
      { case_bool_decide as Er; [by rewrite <- Er, (fi_root_fresh _ _ _ I) in Hh|done]. }
      pose proof (branch_num _ _ _ I _ _ B) as Hnum.
      pose proof (branch_lib _ _ _ _ l [] Tr ltac:(by rewrite app_nil_r)) as Hl. simpl in Hl. unfold bs_lib in Hl.
      destruct B as [|s q l Hs _ _]; [by rewrite (fi_root_fresh _ _ _ I) in Hh|]. simpl in Hnum. lia.
    + apply (fi_best _ _ _ I' (bs_id hf)); [by apply Hsub|]. unfold is_valid. rewrite Hv. apply I.
Qed.

(** The pending head after a block was added. *)
Lemma add_target (c : controller) (r hf hf' n : block_state_ptr) (f' : fork_database) :
  fork_inv f' r hf' -> same_rank hf hf' -> index f' = <[bs_id n := n]> (index (fork_db c)) ->
  (forall i b, index (fork_db c) !! i = Some b -> bs_preferred b hf = false) ->
  exists t, pending_head f' = Ok (Some t) /\ target f' hf' t.
Proof.
  intros I' Hr Hi Hbest. destruct (pending_head_spec _ _ _ I') as (t & E & Ht). exists t. split; [done|].
  assert (Hold : forall i b, index f' !! i = Some b -> b = n \/ bs_preferred b hf' = false).
  { intros i b. rewrite Hi. intros [[_ ->]|[_ Hb]]%lookup_insert_Some; [by left|right].
    destruct (same_rank_preferred _ _ b Hr) as [<- _]. by eapply Hbest. }
  destruct Ht as [[-> Hall]|(Hti & Htv & Htp)]; [split; [by left|by intros; eapply Hall]|].
  split; [by right|]. intros i b Hb Hne. destruct (Hold _ _ Hb) as [->|]; [|done].
  destruct (Hold _ _ Hti) as [->|]; [|congruence]. by rewrite (fi_key _ _ _ I' _ _ Hb) in Hne.
Qed.

Lemma add_target_new (c : controller) (r hf' n : block_state_ptr) (f' : fork_database) (t : block_state_ptr) :
  fork_inv f' r hf' -> index f' = <[bs_id n := n]> (index (fork_db c)) -> target f' hf' t -> is_valid f' t = false ->
  (forall i b, index (fork_db c) !! i = Some b -> bs_preferred b hf' = false) -> t = n.
Proof.
  intros I' Hi Ht Hv Hbest. destruct (tg_best _ _ _ Ht) as [->|(Hti & _ & Hp)].
  - by rewrite (fi_head_valid _ _ _ I') in Hv.
  - rewrite Hi in Hti. apply lookup_insert_Some in Hti as [[_ ->]|[_ Hti]]; [done|]. by rewrite (Hbest _ _ Hti) in Hp.
Qed.

Abbreviation push_block := (push_block intrinsic_hash block_at conf first_block_num).

(** What [push_block] does after the block was added. *)
Lemma push_run (c : controller) (n : block_state_ptr) :
  pending c = None -> is_Some (block_at (addr n)) ->
  match add (fork_db c) (Some n) false with
  | Throw e => push_block n c = (c, Throw e)
  | Ok f' => forall t, pending_head f' = Ok (Some t) -> exists tr,
      push_block n c =
      match Controller.maybe_switch_forks intrinsic_hash block_at conf first_block_num t complete
              (set_trusted tr (set_fork_db f' c)) with
      | (c', res) => (set_trusted (trusted_producer_light_validation c) c', res)
      end
  end.
Proof.
  intros Hp [blk Eb]. unfold Controller.push_block. rewrite get_bind, Hp, check_bind.
  rewrite lift_bind, Eb. cbn [deref]. rewrite Hterminate. cbn [Z.ltb Z.compare andb].
  rewrite bind_eq, on_exception_eq, bind_eq, in_fork_db_eq.
  destruct (add (fork_db c) (Some n) false) as [f'|e]; [|by destruct c]. intros t Ep.
  set (tr := if is_trusted_producer conf (h_producer (h_base (block_header_of blk))) then true
             else trusted_producer_light_validation c).
  exists tr. set (c1 := set_trusted tr (set_fork_db f' c)).
  assert (Ew : when (is_trusted_producer conf (h_producer (h_base (block_header_of blk)))) (update (set_trusted true))
    (set_fork_db f' c) = (c1, Ok tt)).
  { unfold c1, tr. destruct (is_trusted_producer _ _); [done|]. by destruct c. }
  rewrite bind_eq, Ew, get_bind, bool_decide_eq_false_2 by done. cbn [negb].
  rewrite lift_bind. change (fork_db c1) with f'. rewrite Ep, lift_bind. cbn [deref].
  by destruct (Controller.maybe_switch_forks _ _ _ _ _ _ _) as [c2 [[]|e]].
Qed.

(** The controller stays in step, and a block that is refused leaves no trace. *)
Lemma push_outcome (c : controller) (n : block_state_ptr) :
  in_step c -> pushable c n ->
  match push_block n c with
  | (c', res) => in_step c' /\
      trusted_producer_light_validation c' = trusted_producer_light_validation c /\
      (exists l, blog c' = blog c ++ l) /\
      match res with
      | Ok _ => bsp_state <$> head (fork_db c') = Some (bsp_state (ctl_head c')) /\
          bs_preferred (ctl_head c) (ctl_head c') = false /\
          forall i b, index (fork_db c') !! i = Some b -> bs_preferred b (ctl_head c') = false
      | Throw _ => bsp_state (ctl_head c') = bsp_state (ctl_head c) /\ kv_db c' = kv_db c /\
          protocol_features c' = protocol_features c /\ reversible_blocks c' = reversible_blocks c /\ blog c' = blog c /\
          forall i b, index (fork_db c') !! i = Some b -> index (fork_db c) !! i = Some b
      end
  end.
Proof.
  intros ST (r' & Hr & Hfr). pose proof ST as (r & hf & base & bs & SO & Hrank & Hbest & Hbl).
  pose proof SO as [I Tr S]. rewrite (fi_root _ _ _ I) in Hr. simplify_eq.
  pose proof (push_run c n (sy_pending _ _ _ _ _ _ _ S) (bf_block _ _ _ (fr_fine _ _ _ _ _ Hfr))) as Hrun.
  destruct (add (fork_db c) (Some n) false) as [f'|e] eqn:Ea.
  2:{ rewrite Hrun. split_and!; try done. exists []. by rewrite app_nil_r. }
  destruct (add_synced _ _ _ _ _ _ _ SO Hfr Ea) as (hf' & SO1 & Hr1 & Hi1 & Hn).
  destruct (add_target _ _ _ _ _ _ (so_fork _ _ _ _ _ _ _ _ SO1) Hr1 Hi1 Hbest) as (t & Ep & Ht).
  destruct (Hrun t Ep) as [tr ->]. set (c1 := set_trusted tr (set_fork_db f' c)).
  apply (state_trusted _ _ _ _ _ tr) in SO1. fold c1 in SO1.
  assert (Hrank1 : same_rank (top r' bs) hf') by (unfold same_rank in *; lia).
  destruct (maybe_switch_synced c1 r' hf' t base bs SO1 Hrank1 Ht Hbl) as [(c2 & -> & D)|(c2 & e & -> & D)].
  - destruct D as [(r2 & base2 & bs2 & SO2 & Hbl2) Hh Htr Hi Hb]. pose proof SO2 as [I2 _ _].
    assert (Hall : forall i b, index (fork_db c2) !! i = Some b -> bs_preferred b (ctl_head c2) = false).
    { intros i b Hib. unfold bs_preferred. rewrite Hh. eapply target_preferred; [apply SO1|exact Ht|by apply Hi]. }
    split; [apply level_in_step; [by exists r2, base2, bs2|done]|].
    split; [done|]. split; [done|]. split; [|split; [|done]].
    { simpl. rewrite (fi_head _ _ _ I2). simpl. f_equal. symmetry. apply (sy_state _ _ _ _ _ _ _ (so_sync _ _ _ _ _ _ _ _ SO2)). }
    unfold bs_preferred. cbn [ctl_head set_trusted]. rewrite Hh, (sy_state _ _ _ _ _ _ _ S).
    pose proof (target_rank _ _ _ _ _ Hrank1 Ht) as Ht2.
    apply not_true_iff_false. rewrite (bs_preferred_true (top r' bs) t). unfold bs_lib in Ht2. lia.
  - destruct D as [SO2 [A1 A2] Hv Hi]. pose proof SO2 as [I2 _ S2]. destruct (synced_same _ _ _ _ _ _ _ _ S S2) as (E1 & E2 & E3 & E4).
    assert (Hold : forall i b, index (fork_db c2) !! i = Some b -> index (fork_db c) !! i = Some b /\ bs_preferred b hf = false).
    { assert (Etn : t = n).
      { apply (add_target_new c r' hf' n f' t (so_fork _ _ _ _ _ _ _ _ SO1) Hi1 Ht Hv).
        intros i b Hib. destruct (same_rank_preferred _ _ b Hr1) as [<- _]. by eapply Hbest. }
      intros i b Hib. destruct (Hi _ _ Hib) as [Hib' Hne]. simpl in Hib'. rewrite Hi1, lookup_insert_ne in Hib' by congruence.
      split; [done|]. by eapply Hbest. }
    split.
    { exists r', hf', base, bs. split_and!; [by apply state_trusted|done| | ].
      - intros i b Hib. destruct (Hold _ _ Hib) as [_ Hp]. by destruct (same_rank_preferred _ _ b Hr1) as [<- _].
      - unfold blog_ok. simpl. by rewrite A1. }
    split; [done|]. split; [exists []; by rewrite app_nil_r|]. simpl. split_and!; try done. intros i b Hib. by apply (Hold i b).
Qed.

(** ** A block on the head *)
Lemma add_linked (f : fork_database) (r hf n q : block_state_ptr) :
  fork_inv f r hf -> node f r (prev_id n) = Some q -> index f !! bs_id n = None ->
  exists f', add f (Some n) false = Ok f'.
Proof.
  intros I Hq Hn. unfold add, add_impl, get_block_header. rewrite (fi_root _ _ _ I). simpl.
  fold (node f r (prev_id n)). rewrite Hq. change (id n) with (bs_id n). rewrite Hn.
  set (db := mk_fork_db _ _ _ _).
  destruct (by_lib_begin_is_Some db (bs_id n) n) as [x ->]; [by apply lookup_insert_eq|]. simpl. eauto.
Qed.

(** A block on the head that passes all checks is applied, with or without light validation. *)
Lemma switch_to_child (c : controller) (r hf n : block_state_ptr) (base : world) (bs : list block_state_ptr)
    (s' : chain_state) (m' : protocol_feature_manager) :
  state_ok c r hf base bs -> branch (fork_db c) r n (n :: bs) ->
  execute intrinsic_hash block_at rate (ctl_head c) false n (cur (kv_db c)) (protocol_features c) = Ok (s', m') ->
  exists c', switch_to intrinsic_hash block_at conf n complete c = (c', Ok tt) /\
    state_ok c' r (if bs_preferred n hf then n else hf) base (n :: bs) /\ aside c c' /\
    index (fork_db c') = index (fork_db c) /\ cur (kv_db c') = s' /\ protocol_features c' = m'.
Proof.
  intros SO B Hx. pose proof SO as [I Tr S].
  assert (Hlight : forall light, execute intrinsic_hash block_at rate (ctl_head c) light n (cur (kv_db c))
    (protocol_features c) = Ok (s', m')).
  { intros []; [|done]. by eapply execute_light. }
  destruct (switch_synced _ _ _ _ Hmode Hchecks _ _ _ _ _ _ complete SO B (or_introl eq_refl))
    as [(c' & E & SO' & Hi & _ & A)|(e & E & _)].
  - exists c'. pose proof (sy_replay _ _ _ _ _ _ _ (so_sync _ _ _ _ _ _ _ _ SO')) as Hr.
    cbn [ForkSwitch.replay] in Hr. rewrite (sy_replay _ _ _ _ _ _ _ S) in Hr. simpl in Hr.
    rewrite <- (sy_state _ _ _ _ _ _ _ S), Hlight in Hr. by simplify_eq.
  - exfalso. destruct (branch_reversible _ _ _ _ _ I B) as [_ Nrb]. pose proof B as (_ & Hn & _ & _)%branch_cons_inv.
    unfold switch_to in E. rewrite bind_eq, apply_block_run, (sy_rate _ _ _ _ _ _ _ S), Hlight in E;
      [|by eapply synced_idle|by left|by rewrite (sy_reversible _ _ _ _ _ _ _ S)].
    rewrite bind_eq, in_fork_db_eq in E. destruct (mark_valid_head _ _ _ _ I Hn) as (f' & Ef & _).
    simpl fork_db in E. by rewrite Ef in E.
Qed.

(** A new block on the head that passes all checks becomes the head. *)
Lemma push_extends_head (c : controller) (n : block_state_ptr) (s' : chain_state)
    (m' : protocol_feature_manager) :
  in_step c -> pushable c n -> prev_id n = bs_id (ctl_head c) -> get_block (fork_db c) (bs_id n) = None ->
  execute intrinsic_hash block_at rate (ctl_head c) false n (cur (kv_db c)) (protocol_features c) = Ok (s', m') ->
  exists c', push_block n c = (c', Ok tt) /\ in_step c' /\ ctl_head c' = n /\
    cur (kv_db c') = s' /\ protocol_features c' = m'.
Proof.
  intros ST PB Hprev Hnew Hx. pose proof PB as (r' & Hr & Hfr).
  pose proof ST as (r & hf & base & bs & SO & Hrank & Hbest & Hbl).
  pose proof SO as [I Tr S]. rewrite (fi_root _ _ _ I) in Hr. simplify_eq.
  pose proof (head_node _ _ _ _ _ SO) as Hhn. unfold is_node in Hhn.
  assert (Hprev' : prev_id n = bs_id (top r' bs)) by (rewrite Hprev; unfold bs_id; by rewrite (sy_state _ _ _ _ _ _ _ S)).
  rewrite <- Hprev' in Hhn.
  destruct (add_linked _ _ _ _ _ I Hhn Hnew) as [f' Ea].
  pose proof (push_run c n (sy_pending _ _ _ _ _ _ _ S) (bf_block _ _ _ (fr_fine _ _ _ _ _ Hfr))) as Hrun. rewrite Ea in Hrun.
  destruct (add_synced _ _ _ _ _ _ _ SO Hfr Ea) as (hf' & SO1 & Hr1 & Hi1 & Hn).
  assert (Hp : bs_preferred n hf' = true).
  { apply bs_preferred_true. destruct Hfr as [(_ & Hnum & _) _ _ Hlib]. specialize (Hnum _ Hhn). specialize (Hlib _ Hhn).
    unfold same_rank, bs_lib in *. lia. }
  destruct (add_target _ _ _ _ _ _ (so_fork _ _ _ _ _ _ _ _ SO1) Hr1 Hi1 Hbest) as (t & Ep & Ht).
  assert (Hni : index f' !! bs_id n = Some n) by (rewrite Hi1; apply lookup_insert_eq).
  assert (t = n) as ->.
  { pose proof (target_preferred _ _ _ _ _ _ (so_fork _ _ _ _ _ _ _ _ SO1) Ht Hni) as Hnp.
    destruct (tg_best _ _ _ Ht) as [->|(Hti & _)]; [congruence|].
    destruct (decide (bs_id n = bs_id t)) as [E|Hne]; [change (index f' !! bs_id t = Some t) in Hti; rewrite E in Hni; congruence|].
    by rewrite (tg_others _ _ _ Ht _ _ Hni Hne) in Hp. }
  destruct (Hrun n Ep) as [tr ->]. set (c1 := set_trusted tr (set_fork_db f' c)).
  apply (state_trusted _ _ _ _ _ tr) in SO1. fold c1 in SO1.
  assert (B1 : branch (fork_db c1) r' n (n :: bs)).
  { apply (branch_block _ _ _ (top r' bs)); [done| |apply SO1]. rewrite Hprev'. by apply (head_node _ _ _ _ _ SO1). }
  destruct (switch_to_child _ _ _ _ _ _ _ _ SO1 B1 Hx) as (c2 & E2 & SO2 & A2 & Hi2 & Hc2 & Hm2). rewrite Hp in SO2.
  assert (Hh2 : ctl_head c2 = n) by apply (sy_head _ _ _ _ _ _ _ (so_sync _ _ _ _ _ _ _ _ SO2)).
  destruct (log_synced c2) as (c3 & E3 & L3 & [P1 P2 Pf P3 P4 P5]).
  { exists r', base, (n :: bs). split; [done|]. destruct A2 as [Hb2 _]. unfold blog_ok. by rewrite Hb2. }
  unfold Controller.maybe_switch_forks. rewrite get_bind, bool_decide_eq_true_2 by done.
  rewrite bind_eq, on_exception_eq, E2, E3. eexists. split; [reflexivity|]. simpl. split_and!; try congruence.
  apply level_in_step; [done|]. intros i b Hib. rewrite P1, Hh2.
  eapply target_preferred; [apply SO1|exact Ht|]. apply P4 in Hib. by rewrite Hi2 in Hib.
Qed.

(** C12. A new block on the head that passes all checks becomes the head, on a node that is in step with its fork
    database, and the database and the features are those that its execution gives; for every list of trusted
    producers and with light validation on or off. The conditions: the irreversible number of the block is not below
    that of the head, which can fail at a block that promotes a schedule (see [lib_monotone]), and the block is then
    not preferred over the head; the node is not in the irreversible read mode, [force_all_checks] is off and there is
    no block at which to stop; and the rate of the fee manager is the one that is active in the blocks above the root. *)
Theorem push_block_extends_head (c : controller) (n : block_state_ptr) (s' : chain_state)
    (m' : protocol_feature_manager) :
  in_step c -> pushable c n -> prev_id n = bs_id (ctl_head c) -> get_block (fork_db c) (bs_id n) = None ->
  execute intrinsic_hash block_at rate (ctl_head c) false n (cur (kv_db c)) (protocol_features c) = Ok (s', m') ->
  exists c', push_block n c = (c', Ok tt) /\ in_step c' /\ ctl_head c' = n /\
    cur (kv_db c') = s' /\ protocol_features c' = m'.
Proof. apply push_extends_head. Qed.

(** ** A branch above the head *)

(** The branches from [t] and from the head, below it. *)
Lemma fetch_above (f : fork_database) (r hf t x : block_state_ptr) (l bs : list block_state_ptr) :
  fork_inv f r hf -> branch f r (top r bs) bs -> branch f r t (l ++ x :: bs) ->
  fetch_branch_from f (bs_id t) (bs_id (top r bs)) = Ok (l ++ [x], []).
Proof.
  intros I B Bt.
  destruct (fetch_branch_from_spec _ _ _ _ _ I (branch_is_node _ _ _ I _ _ Bt) (branch_is_node _ _ _ I _ _ B))
    as (l1 & l2 & a & -> & P1 & P2 & Hm).
  destruct (path_node_end _ _ _ I _ _ _ P2 (branch_is_node _ _ _ I _ _ B)) as [rest Br].
  pose proof (branch_unique _ _ _ I _ _ _ Bt (path_branch _ _ _ _ _ _ P1 Br)) as E1.
  pose proof (branch_unique _ _ _ I _ _ _ B (path_branch _ _ _ _ _ _ P2 Br)) as E2. clear Bt B. subst bs.
  assert (El : l1 = l ++ x :: l2).
  { apply (app_inv_tail rest). rewrite <- E1, <- (assoc_L (++)). done. }
  destruct l2 as [|y l2]; [by subst|]. exfalso. destruct Hm as [->|[?|(u & v & Hu & Hv & Hne)]]; [|done|].
  - by destruct l.
  - subst l1. rewrite last_app_cons, last_cons_cons, Hv in Hu. by simplify_eq.
Qed.

(** C40. When the pending head is more than one block above the head, and the first of the blocks between them
    is refused, [maybe_switch_forks] reads the last element of an empty vector: the check of the fork point that
    follows a failed switch is not guarded, as the one before it is, for a head that is on the new branch. *)
Theorem failed_switch_above_head (c : controller) (r hf t x : block_state_ptr) (base : world)
    (l bs : list block_state_ptr) (st : block_status) :
  state_ok c r hf base bs -> branch (fork_db c) r t (l ++ x :: bs) -> l <> [] -> is_valid (fork_db c) x = false ->
  is_ok (execute intrinsic_hash block_at rate (ctl_head c) (light_of conf c complete) x (cur (kv_db c))
           (protocol_features c)) = false ->
  exists c', Controller.maybe_switch_forks intrinsic_hash block_at conf first_block_num t st c =
    (c', Throw undefined_behaviour).
Proof.
  intros SO B Hl Hv Hx. pose proof SO as [I Tr S]. pose proof (sy_branch _ _ _ _ _ _ _ S) as Bh.
  pose proof (branch_tail _ _ _ _ _ _ B) as Bx. pose proof Bx as (_ & Hxi & _)%branch_cons_inv.
  pose proof (branch_num _ _ _ I _ _ B) as Nt. pose proof (branch_num _ _ _ I _ _ Bh) as Nh.
  destruct l as [|y l]; [done|]. pose proof B as (<- & _ & Hq & Bq)%branch_cons_inv.
  pose proof (branch_num _ _ _ I _ _ Bq) as Nq. destruct (node_is_node _ _ _ _ _ I Hq) as [Nq1 Nq2].
  rewrite length_app in Nq. simpl in Nq, Nt. rewrite length_app in Nt. simpl in Nt.
  assert (Hids : forall z, is_node (fork_db c) r z -> bs_num z <> bs_num (top r bs) -> bs_id z <> id (ctl_head c)).
  { intros z Hz Hne E. rewrite (sy_state _ _ _ _ _ _ _ S) in E. apply Hne.
    pose proof (branch_is_node _ _ _ I _ _ Bh) as Hh. unfold is_node in Hz, Hh. unfold bs_id in Hz at 1. unfold bs_id in E.
    rewrite E in Hz. unfold bs_id in Hh. congruence. }
  unfold Controller.maybe_switch_forks. rewrite get_bind, bool_decide_eq_false_2.
  2:{ rewrite <- Nq2. apply Hids; [done|]. lia. }
  rewrite bool_decide_eq_false_2; [|apply Hids; [by eapply branch_is_node|lia]]. cbn [negb].
  rewrite lift_bind, (sy_state _ _ _ _ _ _ _ S). change (id y) with (bs_id y). change (id (top r bs)) with (bs_id (top r bs)).
  rewrite (fetch_above _ _ _ _ x (y :: l) bs I Bh B). cbv beta iota. rewrite ret_bind, rev_app_distr. cbn [rev app].
  rewrite bind_eq. cbn [switch_loop]. rewrite get_bind, Hv.
  destruct (branch_reversible _ _ _ _ _ I Bx) as [_ Nrb].
  pose proof (apply_block_run intrinsic_hash block_at conf c x complete (synced_idle _ _ _ _ Hmode _ _ _ _ _ I Tr S) (or_introl eq_refl)
    ltac:(by rewrite (sy_reversible _ _ _ _ _ _ _ S))) as Ea. rewrite (sy_rate _ _ _ _ _ _ _ S) in Ea.
  destruct (execute _ _ _ _ _ _ _ _) as [|e]; [done|].
  assert (Eat : attempt (switch_to intrinsic_hash block_at conf x complete) c = (c, Ok (Some e))).
  { unfold attempt, catch, switch_to. by rewrite !bind_eq, Ea. }
  rewrite (bind_Ok _ _ _ _ _ Eat). destruct (remove_synced _ _ _ _ _ _ _ _ _ SO Hxi Hv) as (f' & Er & _).
  rewrite (bind_eq (in_fork_db _)), in_fork_db_eq. change (id x) with (bs_id x). rewrite Er. by eexists.
Qed.
End pushing.
