(* ===== verification/Genesis.v ===== *)
(** * The start from a genesis

    The state of a new chain and the controller that is started on it (libraries/chain/controller.cpp:
    [initialize_blockchain_state], [initialize_database], [startup] with a genesis state; genesis_state.hpp,
    genesis_intrinsics.cpp), for a node without blocks, fork database or block log.

    The head of the controller and the root of the fork database are two objects with the same state. *)

From S2P Require Import Prelude Effects Name Types BlockTimestamp Authority Merkle BlockHeader UndoIndex Database AuthorizationManager SystemContract Whitelist ProtocolFeatures BlockHeaderState ForkDatabase Proposals Controller Raw ChainConfig Parameters.

Record genesis_state := mk_genesis {
  initial_configuration : chain_config_v0;
  initial_timestamp : Z;
  initial_key : public_key
}.

(** The digests of packed objects. *)
Class GenesisDigests := {
  compute_chain_id : genesis_state -> digest;
  hash_producer_rate : producer_rate_info -> digest
}.

Definition genesis_num_supported_key_types : Z := 2.
Definition null_account_name : account_name := Eval vm_compute in n_ "dcd.null".

Definition genesis_intrinsics : list string :=
  ["__ashrti3"; "__lshlti3"; "__lshrti3"; "__ashlti3"; "__divti3"; "__udivti3"; "__modti3"; "__umodti3";
   "__multi3"; "__addtf3"; "__subtf3"; "__multf3"; "__divtf3"; "__eqtf2"; "__netf2"; "__getf2"; "__gttf2";
   "__lttf2"; "__letf2"; "__cmptf2"; "__unordtf2"; "__negtf2"; "__floatsitf"; "__floatunsitf"; "__floatditf";
   "__floatunditf"; "__floattidf"; "__floatuntidf"; "__floatsidf"; "__extendsftf2"; "__extenddftf2";
   "__fixtfti"; "__fixtfdi"; "__fixtfsi"; "__fixunstfti"; "__fixunstfdi"; "__fixunstfsi"; "__fixsfti";
   "__fixdfti"; "__fixunssfti"; "__fixunsdfti"; "__trunctfdf2"; "__trunctfsf2"; "is_feature_active";
   "activate_feature"; "get_resource_limits"; "set_resource_limits"; "set_proposed_producers";
   "set_proposed_rate"; "get_blockchain_parameters_packed"; "set_blockchain_parameters_packed";
   "is_privileged"; "set_privileged"; "get_active_producers"; "db_idx64_store"; "db_idx64_remove";
   "db_idx64_update"; "db_idx64_find_primary"; "db_idx64_find_secondary"; "db_idx64_lowerbound";
   "db_idx64_upperbound"; "db_idx64_end"; "db_idx64_next"; "db_idx64_previous"; "db_idx128_store";
   "db_idx128_remove"; "db_idx128_update"; "db_idx128_find_primary"; "db_idx128_find_secondary";
   "db_idx128_lowerbound"; "db_idx128_upperbound"; "db_idx128_end"; "db_idx128_next"; "db_idx128_previous";
   "db_idx256_store"; "db_idx256_remove"; "db_idx256_update"; "db_idx256_find_primary";
   "db_idx256_find_secondary"; "db_idx256_lowerbound"; "db_idx256_upperbound"; "db_idx256_end";
   "db_idx256_next"; "db_idx256_previous"; "db_idx_double_store"; "db_idx_double_remove";
   "db_idx_double_update"; "db_idx_double_find_primary"; "db_idx_double_find_secondary";
   "db_idx_double_lowerbound"; "db_idx_double_upperbound"; "db_idx_double_end"; "db_idx_double_next";
   "db_idx_double_previous"; "db_idx_long_double_store"; "db_idx_long_double_remove";
   "db_idx_long_double_update"; "db_idx_long_double_find_primary"; "db_idx_long_double_find_secondary";
   "db_idx_long_double_lowerbound"; "db_idx_long_double_upperbound"; "db_idx_long_double_end";
   "db_idx_long_double_next"; "db_idx_long_double_previous"; "db_store_i64"; "db_update_i64"; "db_remove_i64";
   "db_get_i64"; "db_next_i64"; "db_previous_i64"; "db_find_i64"; "db_lowerbound_i64"; "db_upperbound_i64";
   "db_end_i64"; "assert_recover_key"; "recover_key"; "assert_sha256"; "assert_sha1"; "assert_sha512";
   "assert_ripemd160"; "sha1"; "sha256"; "sha512"; "ripemd160"; "check_transaction_authorization";
   "check_permission_authorization"; "get_permission_last_used"; "get_account_creation_time"; "current_time";
   "publication_time"; "abort"; "dcd_assert"; "dcd_assert_message"; "dcd_assert_code"; "dcd_exit";
   "read_action_data"; "action_data_size"; "current_receiver"; "require_recipient"; "require_auth";
   "require_auth2"; "has_auth"; "is_account"; "prints"; "prints_l"; "printi"; "printui"; "printi128";
   "printui128"; "printsf"; "printdf"; "printqf"; "printn"; "printhex"; "read_transaction"; "transaction_size";
   "expiration"; "tapos_block_prefix"; "tapos_block_num"; "get_action"; "send_inline";
   "send_context_free_inline"; "send_deferred"; "cancel_deferred"; "get_context_free_data"; "memcpy";
   "memmove"; "memcmp"; "memset"]%string.

Section genesis.
Context {T C : Type}.
Context `{Crypto} `{FeatureDigests} `{GenesisDigests}.
Context (intrinsic_hash : string -> Z) (dcd_abi_bin : list Z).

(** [initialize_blockchain_state]: the state of the first block. *)
Definition genesis_header (g : genesis_state) : block_header :=
  mk_header (set_time_point (initial_timestamp g)) 0 1 digest_zero digest_zero (compute_chain_id g) 0 None 0 None [].

Definition genesis_block (g : genesis_state) : block_header_state :=
  let initial_schedule := mk_schedule 0
    [mk_producer config.system_account_name (mk_bsa 1 [mk_kw (initial_key g) 1])] in
  let initial_legacy_schedule := mk_legacy_schedule 0
    [mk_legacy_key config.system_account_name (initial_key g)] in
  let initial_rate := mk_rate 0 f64_one in
  mk_bhs
    (mk_common (header_block_num (genesis_header g)) 0 0 initial_schedule initial_rate imerkle_empty ∅ ∅
       (mk_bsa 0 []) [])
    (calculate_id (genesis_header g)) (mk_signed_header (genesis_header g) (mk_signature 0 []))
    (mk_schedule_info 0 (hash_legacy_schedule initial_legacy_schedule) initial_schedule)
    (mk_rate_info 0 (hash_producer_rate initial_rate) initial_rate) ∅ [] [].

(** What the authorization manager reads of the new chain; no block is pending. *)
Definition genesis_control (g : genesis_state) : control :=
  mk_control genesis_num_supported_key_types 0 (fun _ => false) (max_transaction_delay (initial_configuration g))
    (max_authority_depth (initial_configuration g)) ∅ false.

Definition empty_tables : AuthorizationManager.database :=
  mk_database undo_index_empty undo_index_empty undo_index_empty undo_index_empty undo_index_empty undo_index_empty.

(** The accounts and permissions of a new chain. *)
Definition initialize_accounts (g : genesis_state) : result AuthorizationManager.database :=
  let ctl := genesis_control g in
  let t := initial_timestamp g in
  let system_auth := mk_authority 1 [mk_kw (initial_key g) 1] [] [] in
  let empty_authority := mk_authority 1 [] [] [] in
  let active_producers_authority :=
    mk_authority 1 [] [mk_plw (mk_level config.system_account_name config.active_name) 1] [] in
  db ← initialize_database empty_tables;
  db ← create_native_account ctl dcd_abi_bin db t config.system_account_name system_auth system_auth true;
  db ← create_native_account ctl dcd_abi_bin db t null_account_name empty_authority empty_authority false;
  db ← create_native_account ctl dcd_abi_bin db t producers_account_name empty_authority
         active_producers_authority false;
  active_permission ← get_permission db (mk_level producers_account_name config.active_name);
  '(db, majority_permission) ← create_permission ctl db producers_account_name majority_producers_permission_name
                                 (po_id active_permission) active_producers_authority t;
  '(db, _) ← create_permission ctl db producers_account_name minority_producers_permission_name
               (po_id majority_permission) active_producers_authority t;
  Ok db.

(** The loop that creates the block summaries, from the identifier [k] on. *)
Fixpoint create_summaries (n : nat) (k : Z) (m : gmap Z block_id) : gmap Z block_id :=
  match n with
  | O => m
  | S n => create_summaries n (k + 1) (<[k := digest_zero]> m)
  end.

(** [initialize_database]: [i] is the identifier of the head. *)
Definition initialize_chain_state (g : genesis_state) (i : block_id) (contracts0 : C) :
    result (chain_state (C := C)) :=
  _ ← validate_v0 (initial_configuration g);
  wl ← foldM (add_intrinsic_to_whitelist intrinsic_hash) [] genesis_intrinsics;
  accounts ← initialize_accounts g;
  Ok (mk_state (gpo_new (compute_chain_id g) (initial_parameters (initial_configuration g))) (mk_pso [] [] wl genesis_num_supported_key_types) accounts
        (<[1 := i]> (create_summaries (Z.to_nat 0x10000) 0 ∅)) ∅ contracts0).

(** [startup]: [a] and [b] are the addresses of the new objects, [s] the features the node supports. *)
Definition startup (g : genesis_state) (a b : Z) (s : protocol_feature_set) (contracts0 : C) :
    result (controller (T := T) (C := C)) :=
  let head := mk_ptr a (genesis_block g) in
  state ← initialize_chain_state g (id head) contracts0;
  features ← pfm_init (pfm_new s) (ProtocolFeatures.activated_protocol_features (pso state));
  Ok (mk_controller (mk_chain_db state [] (block_num head)) ∅ [head] None head
        (reset (mk_fork_db ∅ None None ∅) b (genesis_block g)) features f64_one None false).
End genesis.
