(* ===== verification/ChainRun.v ===== *)
(** * The controller from the genesis on

    A controller that was started from a genesis is in step with its fork database, and stays so whatever
    blocks are pushed. *)

From S2P Require Import Prelude Effects Types BlockTimestamp Authority Merkle BlockHeader UndoIndex Database AuthorizationManager SystemContract Whitelist ProtocolFeatures FeatureProofs BlockHeaderState ForkDatabase ForkTree Proposals Controller BlockExecution ForkSwitch PushBlock Raw ChainConfig Parameters Genesis.

Section run.
Context {T C : Type}.
Context `{Crypto} `{Serialization} `{FeatureDigests} `{GenesisDigests} `{!Execution (T := T) (C := C)}
  `{!ExecutionLaws (T := T) (C := C)}.
Context (intrinsic_hash : string -> Z) (block_at : Z -> option (signed_block (T := T))).
Context (conf : config) (first_block_num : Z) (dcd_abi_bin : list Z).
Abbreviation controller := (controller (T := T) (C := C)).
(** The rate with which the genesis and the fee manager start. *)
Abbreviation in_step := (in_step intrinsic_hash block_at first_block_num f64_one).
Abbreviation pushable := (pushable block_at f64_one).

Lemma genesis_numbers (g : genesis_state) :
  fits 64 (hash0 (hash_header (genesis_header g))) ->
  block_num (genesis_block g) = 1 /\ num_from_id (id (genesis_block g)) = 1 /\
  h_previous (h_base (header (genesis_block g))) <> id (genesis_block g).
Proof.
  intros Hf. assert (Hn : header_block_num (genesis_header g) = 1) by (by vm_compute).
  assert (Hi : num_from_id (id (genesis_block g)) = 1).
  { simpl. rewrite num_from_calculate_id by done. by vm_compute. }
  split; [done|]. split; [done|]. intros E. rewrite <- E in Hi. by vm_compute in Hi.
Qed.

(** A controller at a root without blocks above it. *)
Lemma root_in_step (c : controller) (r : block_state_ptr) :
  fork_inv (fork_db c) r r -> index (fork_db c) = ∅ -> bsp_state (ctl_head c) = bsp_state r ->
  num_ok (bs_num r) -> prev_id r <> bs_id r -> manager_at (protocol_features c) (bs_num r) ->
  undo_stack (kv_db c) = [] -> revision (kv_db c) = bs_num (ctl_head c) -> reversible_blocks c = ∅ ->
  pending c = None -> replay_head_time c = None -> contract_cur_rate c = f64_one -> blog_ok first_block_num c r -> in_step c.
Proof.
  intros I Hi Hh Hn Hp Hm Hst Hrev Hrb Hpe Hrt Hra Hbl.
  assert (Hno : forall i b, index (fork_db c) !! i = Some b -> False) by (intros i b; by rewrite Hi, lookup_empty).
  exists r, r, (cur (kv_db c), protocol_features c), []. split; [|split; [done|split; [|done]]].
  2:{ intros i b Hb. by destruct (Hno i b). }
  split; [done| |].
  - split; try done; try (intros i b *; intros Hb; by destruct (Hno i b)).
    intros b bs B _. destruct B as [|s q l Hs _ _]; [done|]. by destruct (Hno _ _ Hs).
  - split; try done; [constructor|apply I|by rewrite Hst].
Qed.

Lemma initial_features (g : genesis_state) (i : block_id) (contracts0 : C) (st : chain_state) :
  initialize_chain_state intrinsic_hash dcd_abi_bin g i contracts0 = Ok st ->
  ProtocolFeatures.activated_protocol_features (pso st) = [].
Proof.
  unfold initialize_chain_state. generalize (Z.to_nat 0x10000). intros k E.
  apply bind_ok_inv in E as (u & _ & E). apply bind_ok_inv in E as (wl & _ & E).
  by apply bind_ok_inv in E as (db & _ & [= <-]).
Qed.

Lemma genesis_in_step (g : genesis_state) (a b : Z) (s : protocol_feature_set) (contracts0 : C) (c : controller) :
  pfs_ok s -> fits 64 (hash0 (hash_header (genesis_header g))) ->
  startup intrinsic_hash dcd_abi_bin g a b s contracts0 = Ok c -> in_step c.
Proof.
  intros Hs Hf E. destruct (genesis_numbers g Hf) as (Hn & Hi & Hp).
  unfold startup in E.
  apply bind_ok_inv in E as (st & E0 & E). apply bind_ok_inv in E as (m & E1 & [= <-]).
  rewrite (initial_features _ _ _ _ E0) in E1. destruct (init_ok _ _ Hs E1) as [Hm _].
  apply (root_in_step _ (mk_ptr b (genesis_block g))); try done.
  - apply (reset_inv (mk_fork_db ∅ None None ∅) b (genesis_block g)). congruence.
  - exists []. by split.
Qed.

(** The controllers that the start and pushed blocks lead to. *)
Inductive reachable : controller -> Prop :=
  | reach_startup g a b s contracts0 c : pfs_ok s -> fits 64 (hash0 (hash_header (genesis_header g))) ->
      startup intrinsic_hash dcd_abi_bin g a b s contracts0 = Ok c -> reachable c
  | reach_push c n c' res : reachable c -> pushable c n ->
      push_block intrinsic_hash block_at conf first_block_num n c = (c', res) -> reachable c'.

Hypothesis Hmode : read_mode conf <> IRREVERSIBLE.
Hypothesis Hchecks : force_all_checks conf = false.
Hypothesis Hterminate : terminate_at_block conf = 0.

Lemma reachable_in_step (c : controller) : reachable c -> in_step c.
Proof.
  induction 1 as [g a b s contracts0 c Hs Hf E|c n c' res _ IH Hn E]; [by eapply genesis_in_step|].
  pose proof (push_outcome _ _ _ _ _ Hmode Hchecks Hterminate _ _ IH Hn) as Ho. rewrite E in Ho. apply Ho.
Qed.

(** From a start at the genesis on, the controller stays in step with the fork database, whatever blocks
    were pushed and whatever block is pushed next: the database is the result of executing the branch of the
    head, with one undo session for each reversible block, and the block log is only extended. If [push_block]
    returns, the head of the controller is that of the fork database, it is not lower than the old one, and no
    known block is preferred over it. If it throws, also after blocks of both branches were popped and
    applied, the head, the database with its sessions, the features, the reversible blocks and the log are those
    before the call, and the fork database has gained no block. *)
Theorem chain_stays_in_step (c : controller) (n : block_state_ptr) :
  reachable c -> pushable c n ->
  match push_block intrinsic_hash block_at conf first_block_num n c with
  | (c', res) => in_step c' /\
      trusted_producer_light_validation c' = trusted_producer_light_validation c /\
      (exists l, blog c' = blog c ++ l) /\
      match res with
      | Ok _ => bsp_state <$> head (fork_db c') = Some (bsp_state (ctl_head c')) /\
          bs_preferred (ctl_head c) (ctl_head c') = false /\
          forall i b, index (fork_db c') !! i = Some b -> bs_preferred b (ctl_head c') = false
      | Throw _ => bsp_state (ctl_head c') = bsp_state (ctl_head c) /\ kv_db c' = kv_db c /\
          protocol_features c' = protocol_features c /\ reversible_blocks c' = reversible_blocks c /\
          blog c' = blog c /\
          forall i b, index (fork_db c') !! i = Some b -> index (fork_db c) !! i = Some b
      end
  end.
Proof. intros R Hn. by apply push_outcome, Hn; [..|by apply reachable_in_step]. Qed.
End run.
