(* ===== verification/ControllerSamples.v ===== *)
(** * A chain of two blocks

    A concrete execution, a chain that is started from its genesis, and its second block, produced by the
    model, at which the theorems on the controller are instantiated. *)

From S2P Require Import Prelude Name Effects Types BlockTimestamp Authority Merkle BlockHeader UndoIndex Database AuthorizationManager SystemContract Whitelist ProtocolFeatures FeatureProofs BlockHeaderState Samples ForkDatabase ForkTree Proposals Controller BlockExecution ForkSwitch PushBlock Raw ChainConfig Parameters ParameterProofs Genesis ChainRun.

#[global] Instance sample_digests : FeatureDigests := {
  spec_description_digest f := mk_digest (Z.of_nat (builtin_index f)) 0 0 0;
  hash_feature '(d, deps, f) := mk_digest (Z.of_nat (builtin_index f)) (hash0 d) (Z.of_nat (size deps)) 1
}.

(** Transactions do nothing but leave their receipt. *)
#[global] Instance sample_execution : Execution (T := unit) (C := unit) := {
  on_block _ := Throw transaction_exception;
  push_transaction env _ cpu t :=
    Ok (mk_outcome (env_state env) [mk_receipt (mk_receipt_header executed cpu 1) (trx_packed t)] [mix [cpu]] None);
  push_scheduled_transaction env cpu i :=
    Ok (mk_outcome (env_state env) [mk_receipt (mk_receipt_header executed cpu 0) (trx_id i)] [mix [cpu]] None);
  receipt_digest r := mix [cpu_usage_us (receipt_header r); net_usage_words (receipt_header r)]
}.

#[global] Instance sample_execution_laws : ExecutionLaws (T := unit) (C := unit).
Proof. split; done. Qed.

#[global] Instance sample_genesis_digests : GenesisDigests := {
  compute_chain_id g := mix [initial_timestamp g; key_which (initial_key g)];
  hash_producer_rate r := mix [pri_version r; pri_rate r]
}.

Definition sample_genesis : genesis_state :=
  mk_genesis (base default_config) 1000000000000000 (sample_key 1).

Definition sample_conf : config := mk_config SPECULATIVE false false false ∅ 0.
Definition sample_hash (s : string) : Z := Z.of_nat (String.length s).

Abbreviation sample_start := (startup (T := unit) (C := unit) sample_hash [1] sample_genesis 1 2 pfs_empty tt).

Lemma sample_start_ok : is_ok sample_start = true.
Proof. vm_compute. reflexivity. Qed.

Definition sample_pfm : protocol_feature_manager := pfm_new pfs_empty.
Definition controller_of (r : result (controller (T := unit) (C := unit))) : controller (T := unit) (C := unit) :=
  match r with
  | Ok c => c
  | Throw _ =>
      mk_controller (mk_chain_db (mk_state (gpo_new digest_zero default_parameters) (mk_pso [] [] [] 0) empty_tables ∅ ∅ tt) [] 0) ∅ [] None sample_root
        (mk_fork_db ∅ None None ∅) sample_pfm 0 None false
  end.
Definition sample_c0 : controller (T := unit) (C := unit) := controller_of sample_start.

(** The second block, produced in the slot after that of the genesis. *)
Definition sample_slot : Z := set_time_point (initial_timestamp sample_genesis) + 1.
Definition sample_produce : M (controller (T := unit) (C := unit)) block_state_ptr :=
  _ ← start_production sample_hash sample_conf sample_slot 0 [];
  finalize_block 3 (fun _ => [mk_signature 0 [1]]).
Definition produced_block : block_state_ptr := ok_or sample_root (snd (sample_produce sample_c0)).
Definition sample_n : block_state_ptr := Eval vm_compute in produced_block.

Definition sample_block_at (a : Z) : option (signed_block (T := unit)) :=
  if a =? 3 then Some (mk_block (header sample_n) [] []) else None.

Lemma sample_start_eq : sample_start = Ok sample_c0.
Proof. pose proof sample_start_ok as H. unfold sample_c0. by destruct (startup _ _ _ _ _ _ _). Qed.

Definition sample_root_ptr : block_state_ptr := mk_ptr 2 (genesis_block sample_genesis).

Abbreviation sample_reachable := (reachable sample_hash sample_block_at sample_conf 1 [1]).

Lemma sample_c0_reachable : sample_reachable sample_c0.
Proof.
  assert (Hs : pfs_ok pfs_empty) by (apply built_ok; constructor).
  assert (Hf : fits 64 (hash0 (hash_header (genesis_header sample_genesis)))) by (by split; vm_compute).
  exact (reach_startup _ _ _ _ _ sample_genesis 1 2 pfs_empty tt sample_c0 Hs Hf sample_start_eq).
Qed.

Lemma sample_fork_db :
  fork_db sample_c0 = reset (mk_fork_db ∅ None None ∅) 2 (genesis_block sample_genesis).
Proof. vm_compute. reflexivity. Qed.

Lemma node_alone (f : fork_database) (r q : block_state_ptr) (i : block_id) :
  index f = ∅ -> node f r i = Some q -> q = r.
Proof. intros Hf. unfold node. rewrite Hf, lookup_empty. case_bool_decide; by intros [= <-]. Qed.

Lemma sample_n_facts :
  num_from_id (bs_id sample_n) = bs_num sample_n /\ bs_num sample_n = bs_num sample_root_ptr + 1 /\
  addr sample_n <> addr sample_root_ptr /\ bs_lib sample_root_ptr <= bs_lib sample_n /\
  prev_id sample_n = bs_id sample_root_ptr.
Proof. by split_and!; vm_compute. Qed.

Lemma sample_n_fine : block_fine sample_block_at f64_one sample_n.
Proof. split; [by eexists|by vm_compute|by vm_compute|by split; vm_compute|by vm_compute]. Qed.

Lemma sample_pushable : pushable sample_block_at f64_one sample_c0 sample_n.
Proof.
  exists sample_root_ptr. rewrite sample_fork_db. split; [reflexivity|].
  destruct sample_n_facts as (F1 & F2 & F3 & F4 & _).
  assert (Hnode : forall q, node (reset (mk_fork_db ∅ None None ∅) 2 (genesis_block sample_genesis)) sample_root_ptr
    (prev_id sample_n) = Some q -> q = sample_root_ptr) by (intros q; by apply node_alone).
  split.
  - split; [exact F1|]. split; [intros q Hq; rewrite (Hnode q Hq); exact F2|]. split; [exact F3|].
    intros i p Hp. simpl in Hp. by rewrite lookup_empty in Hp.
  - by vm_compute.
  - apply sample_n_fine.
  - intros q Hq. rewrite (Hnode q Hq). exact F4.
Qed.

Lemma chain_stays_in_step_witness :
  in_step sample_hash sample_block_at 1 f64_one
    (fst (push_block sample_hash sample_block_at sample_conf 1 sample_n sample_c0)).
Proof.
  assert (Hm : read_mode sample_conf <> IRREVERSIBLE) by discriminate.
  pose proof (chain_stays_in_step sample_hash sample_block_at sample_conf 1 [1] Hm eq_refl eq_refl sample_c0 sample_n
    sample_c0_reachable sample_pushable) as H.
  destruct (push_block sample_hash sample_block_at sample_conf 1 sample_n sample_c0) as [c' res]. exact (proj1 H).
Defined.

Abbreviation sample_executed :=
  (execute sample_hash sample_block_at f64_one (ctl_head sample_c0) false sample_n (cur (kv_db sample_c0))
     (protocol_features sample_c0)).

Lemma sample_executes : is_ok sample_executed = true.
Proof. vm_compute. reflexivity. Qed.

Lemma sample_head : bsp_state (ctl_head sample_c0) = genesis_block sample_genesis.
Proof. vm_compute. reflexivity. Qed.

Lemma push_block_extends_head_witness :
  exists c', push_block sample_hash sample_block_at sample_conf 1 sample_n sample_c0 = (c', Ok tt) /\
    ctl_head c' = sample_n.
Proof.
  assert (Hm : read_mode sample_conf <> IRREVERSIBLE) by discriminate.
  pose proof sample_executes as Hx. destruct sample_executed as [[s' m']|e] eqn:E; [|discriminate Hx].
  destruct (push_block_extends_head sample_hash sample_block_at sample_conf 1 f64_one Hm eq_refl eq_refl sample_c0 sample_n s' m'
    (reachable_in_step _ _ _ _ _ Hm eq_refl eq_refl _ sample_c0_reachable) sample_pushable) as (c' & E' & _ & Hh & _).
  - unfold bs_id. rewrite sample_head. vm_compute. reflexivity.
  - rewrite sample_fork_db. reflexivity.
  - exact E.
  - exists c'. split; [exact E'|exact Hh].
Defined.

(** ** A block that is refused, and one above it *)
Definition bad_receipt : transaction_receipt unit := mk_receipt (mk_receipt_header soft_fail 1 1) (trx_packed tt).
Definition bad_header : block_header :=
  mk_header (sample_slot + 1) config.system_account_name 0 (bs_id sample_n) digest_zero digest_zero 0 None 0 None [].
Definition bad_t : block_state_ptr := Eval vm_compute in
  mk_ptr 4 (mk_bhs (mk_common 3 0 0 schedule_empty (mk_rate 0 f64_one) imerkle_empty ∅ ∅ (mk_bsa 1 []) [])
    (calculate_id bad_header) (mk_signed_header bad_header (mk_signature 0 []))
    (mk_schedule_info 0 digest_zero schedule_empty) (mk_rate_info 0 digest_zero rate_default) ∅ [] []).
Definition bad_block_at (a : Z) : option (signed_block (T := unit)) :=
  if a =? 3 then Some (mk_block (header sample_n) [bad_receipt] [])
  else if a =? 4 then Some (mk_block (header bad_t) [] []) else None.

Definition bad_db1 : fork_database := Eval vm_compute in
  ok_or sample_db0 (add (reset (mk_fork_db ∅ None None ∅) 2 (genesis_block sample_genesis)) (Some sample_n) false).
Definition bad_db2 : fork_database := Eval vm_compute in ok_or sample_db0 (add bad_db1 (Some bad_t) false).
Definition bad_c : controller (T := unit) (C := unit) := set_fork_db bad_db2 (set_fork_db bad_db1 sample_c0).

Lemma fresh_sample (f : fork_database) (r n q : block_state_ptr) :
  num_from_id (bs_id n) = bs_num n -> node f r (prev_id n) = Some q -> bs_num n = bs_num q + 1 ->
  addr n <> addr r -> forallb (fun p => negb (addr n =? addr p)) (blocks f) = true -> is_valid f n = false ->
  block_fine bad_block_at f64_one n -> bs_lib q <= bs_lib n -> fresh bad_block_at f64_one f r n.
Proof.
  intros F1 Hq F2 F3 F4 F5 F6 F7. split; [|done..|by intros q' Hq'; rewrite Hq in Hq'; simplify_eq].
  split_and!; try done; [by intros q' Hq'; rewrite Hq in Hq'; simplify_eq|].
  intros i p Hp. rewrite forallb_forall in F4. apply Z.eqb_neq, negb_true_iff, F4.
  apply list_elem_of_In, elem_of_blocks. eauto.
Qed.

Lemma bad_fine : block_fine bad_block_at f64_one sample_n /\ block_fine bad_block_at f64_one bad_t.
Proof. split; (split; [by eexists|by vm_compute|by vm_compute|by split; vm_compute|by vm_compute]). Qed.

Lemma bad_state_ok :
  exists hf base, state_ok sample_hash bad_block_at f64_one bad_c sample_root_ptr hf base [].
Proof.
  assert (R : reachable sample_hash bad_block_at sample_conf 1 [1] sample_c0).
  { assert (Hs : pfs_ok pfs_empty) by (apply built_ok; constructor).
    assert (Hf : fits 64 (hash0 (hash_header (genesis_header sample_genesis)))) by (by split; vm_compute).
    exact (reach_startup _ _ _ _ _ sample_genesis 1 2 pfs_empty tt sample_c0 Hs Hf sample_start_eq). }
  assert (Hm : read_mode sample_conf <> IRREVERSIBLE) by discriminate.
  destruct (reachable_in_step _ _ _ _ _ Hm eq_refl eq_refl _ R) as (r & hf & base & bs & SO & _).
  pose proof SO as [I _ S]. pose proof (fi_root _ _ _ I) as Hr. rewrite sample_fork_db in Hr.
  assert (r = sample_root_ptr) as -> by (injection Hr; done).
  assert (bs = []) as ->.
  { pose proof (sy_branch _ _ _ _ _ _ _ S) as B. rewrite sample_fork_db in B. destruct bs as [|b bs]; [done|].
    apply branch_cons_inv in B as (_ & Hb & _). simpl in Hb. by rewrite lookup_empty in Hb. }
  destruct bad_fine as [B1 B2].
  destruct (add_synced _ _ _ _ _ _ sample_n _ _ bad_db1 SO) as (hf1 & SO1 & _).
  { rewrite sample_fork_db. apply (fresh_sample _ _ _ sample_root_ptr); [reflexivity|reflexivity|reflexivity|discriminate|reflexivity|reflexivity|exact B1|by apply Z.leb_le]. }
  { rewrite sample_fork_db. by vm_compute. }
  destruct (add_synced _ _ _ _ _ _ bad_t _ _ bad_db2 SO1) as (hf2 & SO2 & _).
  { apply (fresh_sample _ _ _ sample_n); [reflexivity|reflexivity|reflexivity|discriminate|reflexivity|reflexivity|exact B2|by apply Z.leb_le]. }
  { by vm_compute. }
  by exists hf2, base.
Qed.

Lemma failed_switch_above_head_witness :
  exists c', maybe_switch_forks sample_hash bad_block_at sample_conf 1 bad_t complete bad_c =
    (c', Throw undefined_behaviour).
Proof.
  assert (Hm : read_mode sample_conf <> IRREVERSIBLE) by discriminate.
  destruct bad_state_ok as (hf & base & SO).
  apply (failed_switch_above_head sample_hash bad_block_at sample_conf 1 f64_one Hm bad_c sample_root_ptr hf bad_t
    sample_n base [bad_t] [] complete SO).
  - apply (branch_block _ _ _ sample_n); [reflexivity|reflexivity|].
    apply (branch_block _ _ _ sample_root_ptr); [reflexivity|reflexivity|]. by apply branch_root.
  - discriminate.
  - reflexivity.
  - vm_compute. reflexivity.
Defined.
