(* ===== verification/Node.v ===== *)
(** * The node

    The controller with the execution of transactions of PushTransaction: what was shown of the controller for any
    execution with the laws of [ExecutionLaws] holds of it. What remains open are the parameters of the libraries: keys
    and hashes, the bytes of the types, the code of the contracts and the engine that runs it. *)

From S2P Require Import Prelude Effects Types BlockTimestamp Authority Merkle BlockHeader UndoIndex Database AuthorizationManager.
From S2P Require Import SystemContract TransactionTypes Whitelist ProtocolFeatures FeatureProofs BlockHeaderState ForkDatabase ForkTree.
From S2P Require Import Fees CodeActions ChainConfig Parameters Proposals Controller Actions TransactionProofs PushTransaction BlockExecution PushTransactionProofs.
From S2P Require Import ForkTree Production NodeProduction ForkSwitch PushBlock Genesis ChainRun.

Section node.
Context `{Crypto} `{Serialization} `{FeatureDigests} `{GenesisDigests}.
Context `{ActionData} `{Code} `{Engine} `{TransactionData} `{ReceiptDigests}.
Context (nd : node_config) (fuel : nat).
Context (intrinsic_hash : string -> Z) (block_at : Z -> option (signed_block (T := packed_transaction))).
Context (conf : config) (first_block_num : Z) (dcd_abi_bin : list Z).
Abbreviation controller := (controller (T := packed_transaction) (C := contract_state)).
Abbreviation state := (@chain_state contract_state).

#[local] Instance the_node : Execution (T := packed_transaction) (C := contract_state) := node_execution nd fuel.
#[local] Instance the_laws : ExecutionLaws := node_execution_laws nd fuel.

(** C5. Light validation is sound: when a block passes all checks on a state, whatever contracts its transactions run
    (programs of finitely many calls of the modelled host functions), a node that trusts the producer, skips the
    checks of authorizations, expiration and reference blocks, does not run the context-free actions and takes the
    network usage from the receipts accepts the block too and gets the same state and the same activated features. *)
Theorem light_validation_sound (rate : Z) (head : block_header_state) (b : block_state_ptr) (s : state) (m : protocol_feature_manager)
    (x : state * protocol_feature_manager) :
  execute intrinsic_hash block_at rate head false b s m = Ok x -> execute intrinsic_hash block_at rate head true b s m = Ok x.
Proof. intros E. eapply execute_light; [apply the_laws|exact E]. Qed.

(** C1. From a start at the genesis on, the controller stays in step with the fork database, whatever order blocks are
    pushed in and whatever forks they make, as long as each pushed block, when it is made from its predecessor, does
    not have a lower irreversible number than the predecessor (the promotion of a schedule can lower it, see
    [lib_monotone]) and the rate of the fees stays that of the genesis, which popping a block does not restore. The
    settings: not the irreversible read mode, [force_all_checks] off, no block at which to stop. The contracts are any
    programs of finitely many calls of the modelled host functions. The database is the result of executing the branch
    of the head, with one undo session for each reversible block, and the block log is only extended. If [push_block]
    returns, the head of the controller is that of the fork database, it is not lower than the old one, and no known
    block is preferred over it. If it throws, also after blocks of both branches were popped and applied, the head,
    the database with its sessions, the features, the reversible blocks and the log are those before the call, and the
    fork database has gained no block. *)
Theorem node_stays_in_step (c : controller) (n : block_state_ptr) :
  read_mode conf <> IRREVERSIBLE -> force_all_checks conf = false -> terminate_at_block conf = 0 ->
  reachable intrinsic_hash block_at conf first_block_num dcd_abi_bin c -> pushable block_at f64_one c n ->
  match push_block intrinsic_hash block_at conf first_block_num n c with
  | (c', res) => in_step intrinsic_hash block_at first_block_num f64_one c' /\
      trusted_producer_light_validation c' = trusted_producer_light_validation c /\
      (exists l, blog c' = blog c ++ l) /\
      match res with
      | Ok _ => bsp_state <$> ForkDatabase.head (fork_db c') = Some (bsp_state (ctl_head c')) /\
          bs_preferred (ctl_head c) (ctl_head c') = false /\
          forall i b, index (fork_db c') !! i = Some b -> bs_preferred b (ctl_head c') = false
      | Throw _ => bsp_state (ctl_head c') = bsp_state (ctl_head c) /\ kv_db c' = kv_db c /\
          protocol_features c' = protocol_features c /\ reversible_blocks c' = reversible_blocks c /\
          blog c' = blog c /\
          forall i b, index (fork_db c') !! i = Some b -> index (fork_db c) !! i = Some b
      end
  end.
Proof. intros Hm Hc Ht R Hn. by eapply chain_stays_in_step. Qed.
End node.

(** ** Transactions on a branch *)
Section transactions.
Context `{Crypto} `{Serialization} `{FeatureDigests}.
Context `{ActionData} `{Code} `{Engine} `{TransactionData} `{ReceiptDigests}.
Context (nd : node_config) (fuel : nat) (intrinsic_hash : string -> Z).
Context (block_at : Z -> option (signed_block (T := packed_transaction))) (rate : Z).
Abbreviation state := (@chain_state contract_state).
Abbreviation work := (work (T := packed_transaction) (C := contract_state)).
Abbreviation bb_time bb := (to_time_point (timestamp (bb_pbhs bb))).

#[local] Instance node_run : Execution (T := packed_transaction) (C := contract_state) := node_execution nd fuel.

(** At the time [now] each of the transactions is recorded or has expired. *)
Definition knows (now : Z) (l : list transaction) (s : state) : Prop :=
  Forall (fun t => remembered (transaction_id t) (trx_expiration t) s now) l.

Lemma knows_same (now : Z) (l : list transaction) (s s' : state) :
  input_transactions s' = input_transactions s -> knows now l s -> knows now l s'.
Proof. intros E Hk. apply (Forall_impl _ _ _ Hk). intros t. unfold remembered. by rewrite E. Qed.

Section building.
Context (now : Z) (l : list transaction).

(** A block is built at the time [now]. *)
Definition building_at (w : work) : Prop := (exists bb, w_stage w = building bb /\ bb_time bb = now) /\ knows now l (w_state w).
Abbreviation keeps m := (triple building_at m (fun _ => building_at) building_at).

Lemma keeps_building {B} (f : building_block packed_transaction -> M work B) :
  (forall bb, bb_time bb = now -> keeps (f bb)) -> keeps (building_stage ≫= f).
Proof.
  intros Hf w Hw. pose proof Hw as [(bb & Hs & Hb) _]. unfold building_stage, mbind, M_bind, get, lift. rewrite Hs. simpl. by apply (Hf bb).
Qed.

Lemma knows_update (f : work -> work) :
  (forall w, building_at w -> (exists bb, w_stage (f w) = building bb /\ bb_time bb = now) /\ knows now l (w_state (f w))) -> keeps (update f).
Proof. intros Hf w Hw. by apply Hf. Qed.

Lemma keeps_record (o : outcome (T := packed_transaction) (C := contract_state)) : knows now l (out_state o) -> keeps (record_outcome o).
Proof. intros Ho. apply keeps_building. intros bb Hb. apply knows_update. intros w _. split; [by eexists|done]. Qed.

Lemma keeps_activation (k : Z) (m : gmap digest bool) (j : nat) (ds : list digest) : keeps (activation_loop intrinsic_hash k m j ds).
Proof.
  revert m j. induction ds as [|d ds IH]; intros m j; simpl; [apply preserve_ret|]. apply preserve_get. intros w0 _.
  apply keeps_building. intros bb Hb. apply preserve_lift. intros st _. apply preserve_bind; [|intros _; apply IH].
  apply knows_update. intros w [_ Hk]. split; [by eexists|]. by eapply knows_same, Hk.
Qed.

Lemma keeps_start (bc : block_context) : keeps (start_body intrinsic_hash bc).
Proof.
  unfold start_body. apply keeps_building. intros bb0 _. apply preserve_bind.
  { unfold start_features. apply preserve_get. intros w0 _. apply keeps_building. intros bb Hb. destruct (_new_protocol_feature_activations bb0); [auto with dcd|].
    apply preserve_bind; [apply keeps_activation|]. intros j. apply preserve_bind; [auto with dcd|]. intros _. apply knows_update.
    intros w [Hs Hk]. split; [done|]. by eapply knows_same, Hk. }
  intros _. apply preserve_bind.
  { unfold start_proposals. apply preserve_get. intros w0 _. apply keeps_building. intros bb Hb. apply preserve_lift. intros [g np] _.
    apply preserve_lift. intros [g' nr] _. apply knows_update. intros w [_ Hk]. split; [by eexists|]. by eapply knows_same, Hk. }
  intros _. apply preserve_bind.
  { unfold run_on_block. apply preserve_get. intros w0 [_ Hk]. apply keeps_building. intros bb Hb. destruct (on_block _) as [o|e] eqn:Eo; [|auto with dcd].
    apply keeps_record. apply run_implicit_inputs in Eo. by eapply knows_same, Hk. }
  intros _. apply preserve_bind.
  { apply keeps_building. intros bb Hb. rewrite Hb. apply knows_update. intros w [Hs Hk]. split; [done|].
    apply (Forall_impl _ _ _ Hk). intros t. by apply remembered_clear. }
  intros _. apply keeps_building. intros bb _. apply preserve_get. intros w0 _. do 3 (apply preserve_lift; intros ? _). apply knows_update.
  intros w [Hs Hk]. split; [done|]. by eapply knows_same, Hk.
Qed.
End building.

(** The transactions of users in the receipts of a block *)
Definition packed_of (r : transaction_receipt packed_transaction) : list transaction :=
  match receipt_of r with trx_packed t => [get_transaction t] | trx_id _ => [] end.

(** Applying a receipt, with all checks: its transaction was not known before. *)
Lemma receipt_new (bc : block_context) (now : Z) (l : list transaction) (r : transaction_receipt packed_transaction) (w w' : work) (u : unit) :
  bc_replay_head_time bc = None -> bc_producing bc = false -> building_at now l w -> apply_receipt bc false r w = (w', Ok u) ->
  building_at now (packed_of r ++ l) w' /\ (NoDup l -> NoDup (packed_of r ++ l)).
Proof.
  intros Hr Hp [(bb & Hs & Hb) Hk] E. unfold apply_receipt in E. rewrite get_bind in E.
  apply bind_Ok_inv in E as (w1 & bb1 & [-> Hb1]%building_stage_run & E). assert (bb1 = bb) as -> by congruence.
  apply bind_Ok_inv in E as (w1 & o & [-> Eo]%lift_Ok & E).
  apply bind_Ok_inv in E as (w2 & [] & E2 & E).
  assert (Hw2 : w_stage w2 = building (with_receipts bb o) /\ w_state w2 = out_state o).
  { apply bind_Ok_inv in E2 as (w1 & bb1 & [-> Hb2]%building_stage_run & E2). assert (bb1 = bb) as -> by congruence. by injection E2 as <-. }
  destruct Hw2 as [Hs2 Ho2].
  assert (Hend : w' = w2 /\ match receipt_of r with trx_packed _ => out_except o = None | trx_id _ => True end).
  { apply bind_Ok_inv in E as (w3 & [] & E3 & E). assert (w3 = w2 /\ match receipt_of r with trx_packed _ => out_except o = None | trx_id _ => True end) as [-> Hx].
    { destruct (out_except o); [|injection E3 as <-; by destruct (receipt_of r)]. destruct (receipt_of r); [by rewrite andb_false_r in E3|].
      rewrite andb_true_r in E3. destruct (bool_decide _); [by injection E3 as <-|done]. }
    split; [|done]. apply bind_Ok_inv in E as (w3 & bb1 & [-> Hb2]%building_stage_run & E). rewrite check_bind in E.
    destruct (_ <? _)%nat; [|done]. rewrite check_bind in E. destruct (_ =? _)%nat; [|done]. destruct (last _); [|done]. by apply lift_Ok in E as [-> _]. }
  destruct Hend as [-> Hx]. assert (Hst : exists bb', w_stage w2 = building bb' /\ bb_time bb' = now) by (by exists (with_receipts bb o)).
  unfold packed_of. destruct (receipt_of r) as [t|i].
  - cbn [app]. destruct (run_input_records nd fuel (mk_env bc (w_state w) (w_manager w) bb false) _ _ _ _ _ Hr Hp Eo Hx) as (Hnew & Hrec & Ht). cbn [env_state] in *.
    specialize (Ht eq_refl). unfold env_time in Ht. cbn [env_block] in Ht. rewrite Hb in Ht. split; [split; [done|]|].
    + rewrite Ho2. constructor; [left; rewrite Hrec; apply lookup_insert_eq|]. apply (Forall_impl _ _ _ Hk). intros t'. by apply (remembered_record _ _ _ _ _ _ _ Hnew Hrec).
    + intros Hd. constructor; [|done]. intros Hin. eapply Forall_forall in Hk; [|exact Hin]. destruct Hk as [Hk|Hk]; [congruence|lia].
  - split; [|done]. split; [done|]. rewrite Ho2. apply push_scheduled_inputs in Eo. by eapply knows_same, Hk.
Qed.

Lemma receipts_new (bc : block_context) (now : Z) (l : list transaction) (rs : list (transaction_receipt packed_transaction)) (w w' : work) (u : unit) :
  bc_replay_head_time bc = None -> bc_producing bc = false -> building_at now l w -> for_each (apply_receipt bc false) rs w = (w', Ok u) ->
  exists l', building_at now l' w' /\ l' ≡ₚ concat (map packed_of rs) ++ l /\ (NoDup l -> NoDup l').
Proof.
  intros Hr Hp. revert l w. induction rs as [|r rs IH]; intros l w Hw E; simpl in E.
  { injection E as <- _. by exists l. }
  apply bind_Ok_inv in E as (w1 & [] & E1 & E). destruct (receipt_new _ _ _ _ _ _ _ Hr Hp Hw E1) as [Hw1 Hd].
  destruct (IH _ _ Hw1 E) as (l' & Hl1 & Hl2 & Hl3). exists l'. split; [done|]. split; [|by auto].
  rewrite Hl2. simpl. rewrite !app_assoc. f_equiv. apply Permutation_app_comm.
Qed.

Definition block_packed (b : block_state_ptr) : list transaction :=
  match block_at (addr b) with Some blk => concat (map packed_of (block_transactions blk)) | None => [] end.

(** The time at which a block is executed is that of its header. *)
Lemma building_time (head : block_header_state) (t n : Z) (l : list digest) (bb : building_block packed_transaction) :
  t <> 0 -> building_new head t n l = Ok bb -> bb_time bb = to_time_point t /\ h_timestamp (h_base (BlockHeaderState.header head)) < t.
Proof.
  intros Ht E. unfold building_new in E. apply bind_ok_inv in E as (p & Ep & E). unfold next_pending in Ep. apply bind_ok_inv in Ep as (t' & Et & Ep).
  destruct (Z.eqb_spec t 0); [done|]. simpl in Et. apply bind_ok_inv in Et as (_ & Hlt%dcd_assert_ok & [= <-]).
  bind_ok_pairs. simpl. split; [done|lia].
Qed.

(** *** A branch *)

(** The block is that of its state, and its time is that of a slot. *)
Definition proper (b : block_state_ptr) : Prop :=
  (exists blk, block_at (addr b) = Some blk /\ block_header_of blk = header b) /\
  0 < h_timestamp (h_base (header b)) < 2 ^ 32.

Abbreviation slot_of b := (h_timestamp (h_base (header b))).
Abbreviation time_of b := (to_time_point (slot_of b)).

Lemma slots_ordered (t t' : Z) : fits 32 t -> fits 32 t' -> t <= t' -> to_time_point t <= to_time_point t'.
Proof. intros Ht Ht' Hle. rewrite !to_time_point_value by done. assert (0 <= interval_us) by done. nia. Qed.

Lemma knows_later (now now' : Z) (l : list transaction) (s : state) : now <= now' -> knows now l s -> knows now' l s.
Proof. intros Hle Hk. apply (Forall_impl _ _ _ Hk). intros t. by apply remembered_later. Qed.

Lemma finalize_inputs_kept (w w' : work) (u : unit) : finalize_body w = (w', Ok u) -> input_transactions (w_state w') = input_transactions (w_state w).
Proof.
  intros E. unfold finalize_body in E. rewrite get_bind in E. destruct (w_stage w); [|done..].
  do 3 apply bind_Ok_inv in E as (? & ? & [-> _]%lift_Ok & E). apply bind_Ok_inv in E as (w1 & [] & E1 & E). injection E as <- _.
  unfold create_block_summary in E1. rewrite get_bind in E1. destruct (_ !! _); [|done].
  apply (f_equal fst) in E1. cbn [fst update] in E1. by rewrite <- E1.
Qed.

(** A block that passes all checks has no transaction twice, and none of those that were known. *)
Lemma block_new (head : block_header_state) (b : block_state_ptr) (l : list transaction) (s s' : state) (m m' : protocol_feature_manager) :
  proper b -> fits 32 (h_timestamp (h_base (BlockHeaderState.header head))) -> knows (to_time_point (h_timestamp (h_base (BlockHeaderState.header head)))) l s ->
  execute intrinsic_hash block_at rate head false b s m = Ok (s', m') ->
  knows (time_of b) (block_packed b ++ l) s' /\ (NoDup l -> NoDup (block_packed b ++ l)).
Proof.
  intros [(blk & Hblk & Hh) Ht] Hf Hk E. unfold execute in E. unfold block_packed. rewrite Hblk in *. cbn [deref mbind result_bind] in E.
  apply bind_ok_inv in E as (fs & _ & E). apply bind_ok_inv in E as (bb & Hb & E). rewrite Hh in Hb.
  apply building_time in Hb as [Hb Hlt]; [|lia]. set (bc := mk_block_context _ _ _ _) in E.
  destruct (run_block _ _ _ _ _ _) as [w [[]|e]] eqn:Er; [|done]. injection E as <- <-. unfold run_block in Er.
  apply bind_Ok_inv in Er as (w1 & [] & E1 & Er).
  assert (Hw0 : building_at (time_of b) l (mk_work s m (building bb))).
  { split; [by eexists|]. eapply knows_later, Hk. apply slots_ordered; [done|split; lia|lia]. }
  pose proof (keeps_start (time_of b) l bc _ Hw0) as Hs. rewrite E1 in Hs. destruct Hs as [(bb1 & Hs1 & Ht1) Hk1].
  unfold apply_body in Er. apply bind_Ok_inv in Er as (w2 & bb2 & [-> Hb2]%building_stage_run & Er). assert (bb2 = bb1) as -> by congruence.
  rewrite update_bind in Er. apply bind_Ok_inv in Er as (w3 & [] & E3 & Er). apply bind_Ok_inv in Er as (w4 & [] & E4%finalize_inputs_kept & Er).
  assert (w = w4) as -> by (rewrite get_bind in Er; destruct (w_stage w4); [done|by apply lift_Ok in Er as [-> _]|done]).
  destruct (fun Hw => receipts_new bc (time_of b) l _ _ _ _ eq_refl eq_refl Hw E3) as (l' & [_ Hk3] & Hp & Hd); [split; [by eexists|exact Hk1]|].
  split; [|by rewrite <- Hp]. apply (knows_same _ _ _ _ E4). unfold knows. by rewrite <- Hp.
Qed.

(** The state after the blocks of a branch, the newest first, that all passed all checks. *)
Fixpoint validated_branch (r : block_state_ptr) (base : state * protocol_feature_manager) (bs : list block_state_ptr) : result (state * protocol_feature_manager) :=
  match bs with
  | [] => Ok base
  | b :: bs => x ← validated_branch r base bs; execute intrinsic_hash block_at rate (top r bs) false b (fst x) (snd x)
  end.

Definition branch_packed (bs : list block_state_ptr) : list transaction := concat (map block_packed bs).

Lemma branch_new (r : block_state_ptr) (base x : state * protocol_feature_manager) (bs : list block_state_ptr) :
  fits 32 (slot_of r) -> Forall proper bs -> validated_branch r base bs = Ok x ->
  fits 32 (slot_of (top r bs)) /\ knows (time_of (top r bs)) (branch_packed bs) (fst x) /\ NoDup (branch_packed bs).
Proof.
  intros Hr Hp. revert x. induction Hp as [|b bs Hb Hp IH]; intros x E; cbn [validated_branch] in E.
  { split; [done|]. split; [constructor|apply NoDup_nil_2]. }
  apply bind_ok_inv in E as ([s m] & E1 & E). destruct x as [s' m']. destruct (IH _ E1) as (Hf & Hk & Hd).
  destruct (block_new _ _ _ _ _ _ _ Hb Hf Hk E) as [Hk' Hd']. split; [|split; [done|by apply Hd']].
  destruct Hb as [_ Hb]. split; simpl; lia.
Qed.

(** *** The next block *)

(** Whatever becomes of a transaction, those that were known stay known. *)
Lemma run_knows (env : exec_env) (now : Z) (l : list transaction) (light : bool) (words : option Z) (cpu : Z) (t : packed_transaction) (o : outcome) :
  bc_replay_head_time (env_context env) = None -> knows now l (env_state env) ->
  run_transaction nd fuel env light false words cpu t = Ok o -> knows now l (out_state o).
Proof.
  intros Hr Hk E. unfold run_transaction in E. rewrite Hr in E.
  destruct (transaction_body _ _ _ _ _ _ _) as [[c [u|x]]|] eqn:Eb; [|by apply failed_state in E as ->|done].
  destruct (finished _ _ _ _) as [o'|x] eqn:Ef; [|by apply failed_state in E as ->]. destruct (keeps_transactions nd env); injection E as <-; [|done].
  apply finished_state in Ef as ->. apply body_records in Eb as (Hnew & Hrec & _). apply (Forall_impl _ _ _ Hk). intros t'. by apply (remembered_record _ _ _ _ _ _ _ Hnew Hrec).
Qed.

Section next_block.
Context (conf : config) (c : controller (T := packed_transaction) (C := contract_state)) (Hidle : idle conf c) (Hmode : read_mode conf = SPECULATIVE).
Context (now : Z) (l : list transaction).

Lemma push_knows (w : work) (bb : building_block packed_transaction) (p : push (T := packed_transaction)) :
  building_at now l w -> w_stage w = building bb -> building_at now l (after_push node_run c w bb p).
Proof using Hidle.
  intros [(bb' & Hs' & Hb) Hk] Hs. assert (bb' = bb) as -> by congruence. unfold after_push.
  set (env := mk_env _ _ _ _ _). destruct (outcome_of node_run p env) as [o|e] eqn:Eo; [|split; [by exists bb|done]].
  split; [by exists (with_receipts bb o)|]. cbn [recorded set_stage set_state w_state]. destruct p as [cpu t|cpu i]; cbn [outcome_of] in Eo.
  - by apply (run_knows env _ _ _ _ _ _ _ (idle_replay conf c Hidle) Hk Eo).
  - apply push_scheduled_inputs in Eo. by apply (knows_same _ _ _ _ Eo).
Qed.

Lemma pushes_know (ps : list (push (T := packed_transaction))) (w : work) :
  building_at now l w -> exists w1, for_each (produce_one node_run conf) ps (opened w c) = (opened w1 c, Ok tt) /\ building_at now l w1.
Proof using Hidle Hmode.
  revert w. induction ps as [|p ps IH]; intros w Hw; [by exists w|]. pose proof Hw as [(bb & Hs & _) _]. cbn [for_each].
  rewrite (bind_Ok _ _ _ _ _ (produce_one_run node_run conf c Hmode w bb p Hs)). apply IH. by apply push_knows.
Qed.

(** The node refuses the transaction in the block that it builds, as expired or as a duplicate, and nothing is changed. *)
Definition refuses (c1 : controller (T := packed_transaction) (C := contract_state)) (t : packed_transaction) : Prop :=
  exists w bb, c1 = opened w c /\ w_stage w = building bb /\
    let env := mk_env (context_of c incomplete) (w_state w) (w_manager w) bb false in
    refused_again (trx_env_of nd env false true) (transaction_id (get_transaction t)) (get_transaction t) (cur (kv_db c1)) /\
    forall cpu, exists x, produce_transaction conf cpu t c1 = (c1, Ok (Some x)) \/ produce_transaction conf cpu t c1 = (c1, Throw x).

Lemma known_refused (w : work) (t : packed_transaction) : building_at now l w -> get_transaction t ∈ l -> refuses (opened w c) t.
Proof using Hidle Hmode.
  intros [(bb & Hs & Hb) Hk] Ht. exists w, bb. split; [done|]. split; [done|]. cbv zeta. set (env := mk_env _ _ _ _ _).
  assert (Href : refused_again (trx_env_of nd env false true) (transaction_id (get_transaction t)) (get_transaction t) (w_state w)).
  { apply remembered_refused; [done|]. eapply Forall_forall in Hk; [|exact Ht]. cbn [te_time trx_env_of]. by rewrite <- Hb in Hk. }
  split; [exact Href|]. intros cpu. destruct (refused_fails nd fuel env cpu t (idle_replay conf c Hidle) Href) as [x Hx]. exists x.
  pose proof (push_pending_run node_run conf c Hmode w bb (push_input cpu t) Hs) as Hp. unfold produce_transaction. unfold outcome_of in Hp.
  rewrite Hp. unfold after_push. cbn [outcome_of push_transaction node_run node_execution env_light]. fold env. rewrite Hx. unfold failed.
  destruct (rethrown x); [by right|left]. by rewrite (recorded_unchanged node_run env _ w bb Hs).
Qed.
End next_block.

(** C9. No transaction of a user is executed twice on a branch. When the blocks of a branch have passed all checks, one after
    the other from the state of its root on, whatever else is in them (transactions of users that were executed or delayed,
    scheduled transactions that were executed, failed or expired, notifications of failures), the transactions of users
    in them are pairwise different, also across blocks and within one. And a node whose head is the last of these blocks refuses each of them in
    the next block, wherever in the block it is pushed: unless another check fails before, it is refused as expired once its expiration has passed, and as a duplicate
    until then, since it is still in the table of transactions; the pending block, the
    database and the receipts stay as they are. The records are cleared only when they have expired. Not covered: a node that trusts the
    producer of a block does not check the expiration, and one that replays blocks does not look up duplicates. *)
Theorem no_transaction_twice (r : block_state_ptr) (base x : state * protocol_feature_manager) (bs : list block_state_ptr) :
  fits 32 (slot_of r) -> Forall proper bs -> validated_branch r base bs = Ok x ->
  NoDup (branch_packed bs) /\
  forall (conf : config) (c c1 : controller (T := packed_transaction) (C := contract_state)) (t n : Z) (fs : list digest)
    (ps : list (push (T := packed_transaction))) (p : packed_transaction),
    idle conf c -> read_mode conf = SPECULATIVE -> bsp_state (ctl_head c) = bsp_state (top r bs) -> cur (kv_db c) = fst x ->
    0 < t < 2 ^ 32 -> produce node_run intrinsic_hash conf t n fs ps c = (c1, Ok tt) ->
    get_transaction p ∈ branch_packed bs -> refuses conf c c1 p.
Proof.
  intros Hr Hp E. destruct (branch_new r base x bs Hr Hp E) as (Hf & Hk & Hd). split; [done|].
  intros conf c c1 t n fs ps p Hi Hm Hh Hs Ht E1 Hin. unfold produce in E1. apply bind_Ok_inv in E1 as (c2 & [] & E2 & E1).
  destruct (started_production node_run intrinsic_hash conf c Hi Hm t n fs c2 E2) as (_ & bb & w & Hb & Es & ->).
  apply building_time in Hb as [Hb Hlt]; [|lia]. rewrite Hh in Hlt.
  pose proof (keeps_start (to_time_point t) (branch_packed bs) (context_of c incomplete)
    (mk_work (cur (kv_db c)) (protocol_features c) (building bb))) as Hw. rewrite Es in Hw.
  destruct (pushes_know conf c Hi Hm (to_time_point t) (branch_packed bs) ps w) as (w1 & Ew & Hw1).
  { apply Hw. split; [by exists bb|]. rewrite Hs. eapply knows_later, Hk. apply slots_ordered; [done|split; lia|lia]. }
  rewrite Ew in E1. injection E1 as <-. by eapply known_refused.
Qed.

End transactions.

(** ** Two nodes *)
Section two_nodes.
Context `{Crypto} `{Serialization} `{!SerializationLaws _} `{FeatureDigests}.
Context `{ActionData} `{Code} `{Engine} `{TransactionData} `{ReceiptDigests}.
Context (fuel : nat) (intrinsic_hash : string -> Z) (block_at : Z -> option (signed_block (T := packed_transaction))) (first_block_num rate : Z).
Abbreviation controller := (controller (T := packed_transaction) (C := contract_state)).
Abbreviation runs nd := (node_execution nd fuel).
Abbreviation in_step nd := (in_step (Execution0 := runs nd) intrinsic_hash block_at first_block_num rate).

(** The two nodes are at the same block. *)
Record abreast (c cv : controller) : Prop := {
  ab_head : bsp_state (ctl_head cv) = bsp_state (ctl_head c);
  ab_state : cur (kv_db cv) = cur (kv_db c);
  ab_features : protocol_features cv = protocol_features c
}.

(** What the producer sends to the others. *)
Record carries (b : signed_block) (p : block_state_ptr) (rs : list (transaction_receipt packed_transaction)) : Prop := {
  ca_header : block_header_of b = header p;
  ca_transactions : block_transactions b = rs;
  ca_signatures : block_signatures b = additional_signatures p
}.

Lemma in_step_header (nd : node_config) (cv : controller) :
  in_step nd cv -> exists hd, get_block_header (fork_db cv) (id (ctl_head cv)) = Ok (Some hd) /\ bsp_state hd = bsp_state (ctl_head cv).
Proof.
  intros (r & hf & base & bs & SO & _). pose proof SO as [I _ S]. pose proof (sy_state _ _ _ _ _ _ _ S) as Hst.
  pose proof (branch_is_node _ _ _ I _ _ (sy_branch _ _ _ _ _ _ _ S)) as Hn. unfold is_node, node in Hn.
  exists (top r bs). split; [|done]. unfold get_block_header. rewrite (fi_root _ _ _ I). cbn [deref mbind result_bind].
  rewrite Hst. change (id (bsp_state (top r bs))) with (bs_id (top r bs)). by rewrite Hn.
Qed.

(** C2. A block that a node produces becomes the head of the other nodes. A node in the speculative read mode produces
    a block on its head: it starts the block, announces features, pushes transactions of users and scheduled ones, in
    any order, whether they succeed, fail or are refused for a reason of its own, and signs it. Another node at the
    same head, in step with its fork database, which does not know the block yet, with its own lists of accounts, keys
    and contracts and its own limits, which is not in the irreversible read mode, has [force_all_checks] off and no
    block at which to stop, makes the same state of the block from what the producer sends, with all checks of the
    header, the signatures and the features; it executes the block, with all checks of the transactions, without an
    exception; the block becomes its head, and the chain state and the activated features are those of the producer.
    The conditions: the transaction at the start of the block does not fail on the producer for a reason of its own;
    the rate of the fees has not changed; and the irreversible number of the block is not below that of its
    predecessor. The last can fail at a block that promotes a schedule (see [lib_monotone]); the other node then does
    not prefer the block over its head. *)
Theorem produced_block_becomes_head (nd nd' : node_config) (conf conf' : config) (c cv c2 : controller) (t n : Z) (l : list digest)
    (ps : list push) (a a' : Z) (signer : digest -> list signature) (p : block_state_ptr)
    (rs : list (transaction_receipt packed_transaction)) (b : signed_block) :
  nd_read_mode nd = SPECULATIVE -> read_mode conf = SPECULATIVE -> idle conf c -> contract_cur_rate c = rate ->
  t <> 0 -> fits 32 t -> fits 32 (h_timestamp (h_base (header (ctl_head c)))) ->
  fair (runs nd) intrinsic_hash c t n l -> produces (runs nd) intrinsic_hash conf c t n l ps a signer p rs c2 ->
  block_at a' = Some b -> carries b p rs ->
  read_mode conf' <> IRREVERSIBLE -> force_all_checks conf' = false -> terminate_at_block conf' = 0 ->
  in_step nd' cv -> abreast c cv -> pushable block_at rate cv (mk_ptr a' (bsp_state p)) -> get_block (fork_db cv) (id p) = None ->
  create_block_state (H2 := runs nd') block_at cv a' (id p) = Ok (mk_ptr a' (bsp_state p)) /\
  exists cv', push_block (H2 := runs nd') intrinsic_hash block_at conf' first_block_num (mk_ptr a' (bsp_state p)) cv = (cv', Ok tt) /\
    in_step nd' cv' /\ bsp_state (ctl_head cv') = bsp_state p /\
    cur (kv_db cv') = cur (kv_db c2) /\ protocol_features cv' = protocol_features c2.
Proof.
  intros Hnd Hm Hi Hrate Ht Hf Hfh Hfair Hprod Hat [Hh Htr Hsg] Hm' Hc' Hte Hst [Ah As Af] Hpu Hnew.
  pose proof (node_validates nd nd' fuel Hnd) as HV. destruct (in_step_header nd' cv Hst) as (hd & Hg & Hhd). split.
  - apply (produced_state (runs nd) (runs nd') intrinsic_hash conf c Hi Hm t n l ps a signer p rs c2 Ht Hfair Hprod block_at b a' cv hd); try done.
    + rewrite <- Ah. exact Hg.
    + by rewrite Hhd.
    + by rewrite Af.
  - pose proof (produced_executes (runs nd) (runs nd') intrinsic_hash conf c Hi Hm t n l ps a signer p rs c2 Ht Hfair Hprod block_at b a' Hat Hh Htr) as Hx.
    rewrite Hrate, <- As, <- Af, <- Ah in Hx.
    destruct (push_extends_head (Execution0 := runs nd') intrinsic_hash block_at conf' first_block_num rate Hm' Hc' Hte cv
      (mk_ptr a' (bsp_state p)) (cur (kv_db c2)) (protocol_features c2) Hst Hpu) as (cv' & E1 & E2 & E3 & E4 & E5); [|done|exact Hx|].
    + unfold bs_id. rewrite Ah. by eapply (produced_previous (runs nd) (runs nd') intrinsic_hash conf c Hi Hm t n l ps a signer p rs c2 Ht Hfair Hprod).
    + exists cv'. by rewrite E3.
Qed.
End two_nodes.
