(* ===== verification/NodeSamples.v ===== *)
(** * A node with a transaction

    A chain that is started from its genesis, and its second block, which this node produces with a transaction of the
    system account, at which the theorems on the node are instantiated. *)

From S2P Require Import Prelude Name Effects Types Asset BlockTimestamp Authority Merkle BlockHeader UndoIndex Database AuthorizationManager.
From S2P Require Import SystemContract TransactionTypes Whitelist ProtocolFeatures FeatureProofs BlockHeaderState ForkDatabase ForkTree Samples.
From S2P Require Import Fees CodeActions CodeReferences NodeLists ContractTables ChainConfig Parameters ParameterProofs Proposals Controller Actions.
From S2P Require Import ActionProofs Transactions PushTransaction DeferredProofs BlockExecution PushTransactionProofs ForkSwitch PushBlock Genesis ChainRun.
From S2P Require Import Production NodeProduction ControllerSamples Node.

(** ** Parameters *)
Definition hello_name : action_name := Eval vm_compute in n_ "hello".
Definition by_system : list permission_level := [mk_level config.system_account_name config.active_name].
Definition hello_system : action := mk_action config.system_account_name hello_name by_system [].

(** The deferred transactions that the samples unpack. *)
Definition later_trx : transaction := mk_transaction 0 0 0 0 0 0 [] [hello_system] [].

#[local] Existing Instance sample_code.
#[local] Instance node_actions : ActionData := {
  unpack_updateauth _ := Throw unpack_error;
  unpack_deleteauth _ := Throw unpack_error;
  unpack_linkauth _ := Throw unpack_error;
  unpack_unlinkauth _ := Throw unpack_error;
  unpack_canceldelay _ := Throw unpack_error;
  unpack_transaction _ := Ok later_trx
}.
#[local] Instance node_engine : Engine := {
  program_of _ _ _ _ := p_return;
  unpack_producer_keys _ := Throw out_of_range;
  unpack_producer_authorities _ := Throw out_of_range;
  key_valid _ := true;
  unpack_action _ := Throw unpack_error;
  unpack_newaccount _ := Throw unpack_error;
  unpack_setcode _ := Throw unpack_error;
  unpack_setabi _ := Throw unpack_error;
  unpack_setfee _ := Throw unpack_error;
  unpack_setrate _ := Throw unpack_error;
  action_digest a := mix [act_account a; act_name a];
  action_digest_with_output a o := mix (act_account a :: act_name a :: o);
  action_receipt_digest r := mix [ar_receiver r; ar_global_sequence r; ar_recv_sequence r]
}.
#[local] Instance node_data : TransactionData := {
  pack_transaction _ := [1];
  transaction_id t := mix [trx_expiration t; ref_block_num t; delay_sec t];
  pack_fee_parameter _ _ := [];
  pack_block_header _ := [];
  pack_onerror _ _ := [];
  pack_generation_context _ := [];
  unpack_generation_context _ := Throw unpack_error
}.
#[local] Instance node_digests : ReceiptDigests := {
  hash_receipt r := mix [cpu_usage_us (receipt_header r); net_usage_words (receipt_header r)]
}.

Definition sample_node : node_config := mk_node (mk_lists [] [] [] [] [] []) ∅ 4096 false false SPECULATIVE.
#[local] Instance sample_run : Execution (T := packed_transaction) (C := contract_state) := node_execution sample_node 10.

(** ** The chain *)
Definition no_contracts : contract_state := mk_contract_state undo_index_empty undo_index_empty undo_index_empty (fun _ => undo_index_empty) 0.

Abbreviation node_controller := (controller (T := packed_transaction) (C := contract_state)).
Abbreviation node_start :=
  (startup (T := packed_transaction) (C := contract_state) sample_hash [1] sample_genesis 1 2 pfs_empty no_contracts).
Definition node_of (r : result node_controller) : node_controller :=
  match r with
  | Ok c => c
  | Throw _ =>
      mk_controller (mk_chain_db (mk_state (gpo_new digest_zero default_parameters) (mk_pso [] [] [] 0) empty_tables ∅ ∅ no_contracts) [] 0)
        ∅ [] None sample_root (mk_fork_db ∅ None None ∅) sample_pfm 0 None false
  end.
Definition node_c0 : node_controller := node_of node_start.

(** The transaction, and the block in which it is. *)
Definition genesis_seconds : Z := 1000000000.
Definition hello_trx (delay : Z) : transaction :=
  set_reference_block (mk_transaction (genesis_seconds + 30) 0 0 0 0 delay [] [hello_system] []) (bs_id sample_root_ptr).
Definition hello_packed (delay : Z) : packed_transaction := mk_packed (hello_trx delay) 100 (Some 70) [sample_key 1].

Definition node_produce (l : list packed_transaction) : M node_controller block_state_ptr :=
  _ ← start_production sample_hash sample_conf sample_slot 0 [];
  _ ← for_each (fun t => _ ← produce_transaction sample_conf 100 t; mret tt) l;
  finalize_block 3 (fun _ => [mk_signature 0 [1]]).
Definition node_n : block_state_ptr := Eval vm_compute in
  ok_or sample_root (snd (node_produce [hello_packed 0; hello_packed 5] node_c0)).

Definition node_receipt (st : status_enum) (words delay : Z) : transaction_receipt packed_transaction :=
  mk_receipt (mk_receipt_header st 100 words) (trx_packed (hello_packed delay)).
Definition node_block_at (a : Z) : option (signed_block (T := packed_transaction)) :=
  if a =? 3 then Some (mk_block (header node_n) [node_receipt executed 18 0; node_receipt delayed 24 5] []) else None.

(** ** The chain stays in step *)
Lemma node_start_eq : node_start = Ok node_c0.
Proof.
  assert (H : is_ok node_start = true) by (vm_compute; reflexivity). unfold node_c0. by destruct (startup _ _ _ _ _ _ _).
Qed.

Abbreviation node_reachable := (reachable sample_hash node_block_at sample_conf 1 [1]).

Lemma node_c0_reachable : node_reachable node_c0.
Proof.
  assert (Hs : pfs_ok pfs_empty) by (apply built_ok; constructor).
  assert (Hf : fits 64 (hash0 (hash_header (genesis_header sample_genesis)))) by (by split; vm_compute).
  exact (reach_startup _ _ _ _ _ sample_genesis 1 2 pfs_empty no_contracts node_c0 Hs Hf node_start_eq).
Qed.

Lemma node_fork_db : fork_db node_c0 = reset (mk_fork_db ∅ None None ∅) 2 (genesis_block sample_genesis).
Proof. vm_compute. reflexivity. Qed.

Lemma node_n_facts :
  num_from_id (bs_id node_n) = bs_num node_n /\ bs_num node_n = bs_num sample_root_ptr + 1 /\
  addr node_n <> addr sample_root_ptr /\ bs_lib sample_root_ptr <= bs_lib node_n /\
  prev_id node_n = bs_id sample_root_ptr.
Proof. by split_and!; vm_compute. Qed.

Lemma node_pushable : pushable node_block_at f64_one node_c0 node_n.
Proof.
  exists sample_root_ptr. rewrite node_fork_db. split; [reflexivity|].
  destruct node_n_facts as (F1 & F2 & F3 & F4 & _).
  assert (Hnode : forall q, node (reset (mk_fork_db ∅ None None ∅) 2 (genesis_block sample_genesis)) sample_root_ptr
    (prev_id node_n) = Some q -> q = sample_root_ptr) by (intros q; by apply node_alone).
  split.
  - split; [exact F1|]. split; [intros q Hq; rewrite (Hnode q Hq); exact F2|]. split; [exact F3|].
    intros i p Hp. simpl in Hp. by rewrite lookup_empty in Hp.
  - by vm_compute.
  - split; [by eexists|by vm_compute|by vm_compute|by split; vm_compute|by vm_compute].
  - intros q Hq. rewrite (Hnode q Hq). exact F4.
Qed.

Lemma node_stays_in_step_witness :
  in_step sample_hash node_block_at 1 f64_one (fst (push_block sample_hash node_block_at sample_conf 1 node_n node_c0)) /\
  snd (push_block sample_hash node_block_at sample_conf 1 node_n node_c0) = Ok tt.
Proof.
  assert (Hm : read_mode sample_conf <> IRREVERSIBLE) by discriminate.
  pose proof (node_stays_in_step sample_node 10 sample_hash node_block_at sample_conf 1 [1] node_c0 node_n Hm eq_refl eq_refl
    node_c0_reachable node_pushable) as H.
  split; [|vm_compute; reflexivity].
  destruct (push_block sample_hash node_block_at sample_conf 1 node_n node_c0) as [c' res]. exact (proj1 H).
Defined.

(** ** Light validation *)
Abbreviation node_executed light :=
  (execute sample_hash node_block_at f64_one (ctl_head node_c0) light node_n (cur (kv_db node_c0)) (protocol_features node_c0)).

Lemma light_validation_sound_witness : is_ok (node_executed true) = true.
Proof.
  assert (H : is_ok (node_executed false) = true) by (vm_compute; reflexivity).
  destruct (node_executed false) as [x|e] eqn:E; [|discriminate H].
  assert (L : node_executed true = Ok x)
    by exact (light_validation_sound sample_node 10 sample_hash node_block_at f64_one _ node_n _ _ x E).
  rewrite L. reflexivity.
Defined.

(** ** The deferred transaction, when its time has come *)
Definition value_of {A} (r : result A) : is_ok r = true -> A :=
  match r with
  | Ok a => fun _ => a
  | Throw _ => fun H => match Bool.diff_false_true H with end
  end.
Definition later_block : building_block packed_transaction := Eval vm_compute in
  value_of (building_new (packed_transaction := packed_transaction) node_n (sample_slot + 20) 0 []) ltac:(vm_compute; reflexivity).
Definition after_block : @chain_state contract_state :=
  match node_executed false with Ok x => fst x | Throw _ => cur (kv_db node_c0) end.
Definition later_env : exec_env :=
  mk_env (mk_block_context node_n false f64_one None) after_block (protocol_features node_c0) later_block false.
Definition hello_id : digest := Eval vm_compute in transaction_id (hello_trx 5).

Lemma one_deferred (u : undo_index generated_transaction_object) (g : generated_transaction_object) :
  contents u = {[ 0 := g ]} -> gto_id g = 0 -> _next_id u = 1 -> table_ok generated_keys gto_id u.
Proof.
  intros Hc Hg Hn. split; [lia|]. rewrite Hc, Hn. split.
  - intros i v [<- <-]%lookup_singleton_Some. lia.
  - by intros i j v w [<- _]%lookup_singleton_Some [<- _]%lookup_singleton_Some.
Qed.

Definition filed : generated_transaction_object := Eval vm_compute in
  match deferred_of (auth_db after_block) 0 (transaction_id_to_sender_id hello_id) with
  | Some g => g
  | None => mk_gto 9 digest_zero 0 0 0 0 0 0 []
  end.

Lemma after_block_ok : generated_ok (auth_db after_block).
Proof. apply (one_deferred _ filed); by vm_compute. Qed.


(** ** Termination *)
Lemma pushing_ends_witness :
  exists r, forall fuel, enough_fuel fuel -> push_scheduled sample_node fuel later_env 50 hello_id = r.
Proof.
  assert (Hp : parameters_ok (gpo_parameters (gpo (env_state later_env)))).
  { assert (E : gpo_parameters (gpo (env_state later_env)) = default_parameters) by (vm_compute; reflexivity).
    rewrite E. exact default_parameters_ok. }
  destruct (pushing_ends sample_node later_env Hp) as (_ & _ & _ & _ & H). apply H.
Defined.

(** ** A contract that sends a deferred transaction *)
Definition sender_context : apply_context :=
  set_privileged_flag true (new_context 1 0 (mk_trace 1 0 0 None config.system_account_name hello_system false None [])).
Definition sender_state : trx_state := mk_trx_state (cur (kv_db node_c0)) [] [] 0 false.
Definition sender_env : trx_env (T := packed_transaction) := trx_env_of sample_node later_env false true.
Definition sent_state : apply_context * trx_state :=
  fst (schedule_deferred_transaction sender_env 7 config.system_account_name later_trx false (sender_context, sender_state)).

Lemma send_deferred_spec_witness :
  schedule_deferred_transaction sender_env 7 config.system_account_name later_trx false (sender_context, sender_state) =
    (sent_state, Ok tt) /\
  is_Some (deferred_of (auth_db (ts_chain (snd sent_state))) config.system_account_name 7).
Proof.
  assert (E : schedule_deferred_transaction sender_env 7 config.system_account_name later_trx false (sender_context, sender_state) =
    (fst sent_state, snd sent_state, Ok tt)).
  { assert (Hr : snd (schedule_deferred_transaction sender_env 7 config.system_account_name later_trx false
                        (sender_context, sender_state)) = Ok tt) by (vm_compute; reflexivity).
    unfold sent_state. destruct (schedule_deferred_transaction _ _ _ _ _ _) as [[c t] r]. simpl in Hr. by rewrite Hr. }
  split; [rewrite E; by destruct sent_state|].
  assert (Hok : generated_ok (auth_db (ts_chain sender_state))).
  { assert (Hc : contents (generated (auth_db (ts_chain sender_state))) = ∅) by (vm_compute; reflexivity).
    split; [by vm_compute|]. rewrite Hc. split; [by intros i v Hv; rewrite lookup_empty in Hv|].
    by intros i j v w Hv; rewrite lookup_empty in Hv. }
  destruct (send_deferred_spec sender_env 7 config.system_account_name later_trx false sender_context (fst sent_state)
    sender_state (snd sent_state) tt Hok ltac:(by vm_compute) E) as (_ & g & trx' & _ & _ & _ & _ & _ & _ & H & _).
  exists g. etransitivity; [apply H|]. apply decide_True. split; reflexivity.
Defined.

(** ** The block on another node, which bans the account that is in it *)
Definition other_node : node_config :=
  mk_node (mk_lists [] [config.system_account_name] [] [config.system_account_name] [] []) {[ sample_key 1 ]} 0 false false HEAD.
Definition other_conf : config := mk_config HEAD false false false ∅ 0.
Definition node_pushes : list push := [push_input 100 (hello_packed 0); push_deferred 100 digest_zero; push_input 100 (hello_packed 5)].
Definition produced_c1 : node_controller := fst (produce (node_execution sample_node 10) sample_hash sample_conf sample_slot 0 [] node_pushes node_c0).
Definition produced_c2 : node_controller := fst (finalize_block 3 (fun _ => [mk_signature 0 [1]]) produced_c1).

Lemma node_produces :
  produces (node_execution sample_node 10) sample_hash sample_conf node_c0 sample_slot 0 [] node_pushes 3 (fun _ => [mk_signature 0 [1]])
    node_n (pending_receipts produced_c1) produced_c2.
Proof.
  exists produced_c1. split; [|split; [reflexivity|]].
  - assert (Hr : snd (produce (node_execution sample_node 10) sample_hash sample_conf sample_slot 0 [] node_pushes node_c0) = Ok tt)
      by (vm_compute; reflexivity).
    unfold produced_c1. destruct (produce _ _ _ _ _ _ _ _) as [x r]. simpl in *. by rewrite Hr.
  - assert (Hr : snd (finalize_block 3 (fun _ => [mk_signature 0 [1]]) produced_c1) = Ok node_n) by (vm_compute; reflexivity).
    unfold produced_c2. destruct (finalize_block _ _ _) as [x r]. simpl in *. by rewrite Hr.
Qed.

Lemma node_fair : fair (node_execution sample_node 10) sample_hash node_c0 sample_slot 0 [].
Proof.
  assert (Hf : match building_new (packed_transaction := packed_transaction) (ctl_head node_c0) sample_slot 0 [] with
               | Ok bb => snd (on_block_failure (node_execution sample_node 10) sample_hash (context_of node_c0 incomplete)
                            (mk_work (cur (kv_db node_c0)) (protocol_features node_c0) (building bb)))
               | Throw e => Ok None
               end = Ok None) by (vm_compute; reflexivity).
  intros bb Hb e He. rewrite Hb, He in Hf. discriminate Hf.
Qed.

Lemma other_in_step : in_step (Execution0 := node_execution other_node 10) sample_hash node_block_at 1 f64_one node_c0.
Proof.
  assert (Hs : pfs_ok pfs_empty) by (apply built_ok; constructor).
  assert (Hf : fits 64 (hash0 (hash_header (genesis_header sample_genesis)))) by (by split; vm_compute).
  apply (genesis_in_step sample_hash node_block_at 1 [1] sample_genesis 1 2 pfs_empty no_contracts node_c0 Hs Hf node_start_eq).
Qed.

Lemma node_idle : idle sample_conf node_c0.
Proof.
  destruct other_in_step as (r & hf & base & bs & [I Tr S] & _).
  assert (Hm : read_mode sample_conf <> IRREVERSIBLE) by discriminate.
  exact (synced_idle sample_hash node_block_at sample_conf f64_one Hm node_c0 r hf base bs I Tr S).
Qed.

Lemma node_carries : carries (mk_block (header node_n) [node_receipt executed 18 0; node_receipt delayed 24 5] []) node_n (pending_receipts produced_c1).
Proof. split; [reflexivity|vm_compute; reflexivity|vm_compute; reflexivity]. Qed.

Lemma node_times : sample_slot <> 0 /\ fits 32 sample_slot /\ fits 32 (h_timestamp (h_base (header (ctl_head node_c0)))).
Proof. split; [by vm_compute|]. by split; split; vm_compute. Qed.

Lemma produced_block_becomes_head_witness :
  exists cv', push_block (H2 := node_execution other_node 10) sample_hash node_block_at other_conf 1 (mk_ptr 3 (bsp_state node_n)) node_c0 = (cv', Ok tt) /\
    bsp_state (ctl_head cv') = bsp_state node_n /\ cur (kv_db cv') = cur (kv_db produced_c2).
Proof.
  destruct node_times as (T1 & T2 & T3).
  assert (Hm' : read_mode other_conf <> IRREVERSIBLE) by discriminate.
  assert (Hrate : contract_cur_rate node_c0 = f64_one) by (vm_compute; reflexivity).
  assert (Hnew : get_block (fork_db node_c0) (id node_n) = None) by (vm_compute; reflexivity).
  assert (Hab : abreast node_c0 node_c0) by (split; reflexivity).
  destruct (produced_block_becomes_head 10 sample_hash node_block_at 1 f64_one sample_node other_node sample_conf other_conf
    node_c0 node_c0 produced_c2 sample_slot 0 [] node_pushes 3 3 (fun _ => [mk_signature 0 [1]]) node_n (pending_receipts produced_c1)
    _ eq_refl eq_refl node_idle Hrate T1 T2 T3 node_fair node_produces eq_refl node_carries Hm' eq_refl eq_refl other_in_step Hab
    node_pushable Hnew) as (_ & cv' & E1 & _ & E3 & E4 & _).
  exists cv'. split; [exact E1|]. split; [exact E3|exact E4].
Defined.

(** ** Its transactions in the next block *)
Definition node_c1 : node_controller := fst (push_block sample_hash node_block_at sample_conf 1 node_n node_c0).
Definition next_c1 : node_controller :=
  fst (produce sample_run sample_hash sample_conf (sample_slot + 1) 0 [] [push_input 100 (hello_packed 7)] node_c1).

Lemma node_c1_head :
  idle sample_conf node_c1 /\ ctl_head node_c1 = node_n /\ node_executed false = Ok (cur (kv_db node_c1), protocol_features node_c1).
Proof.
  assert (Hm : read_mode sample_conf <> IRREVERSIBLE) by discriminate.
  assert (H : is_ok (node_executed false) = true) by (vm_compute; reflexivity).
  destruct (node_executed false) as [[s m]|e] eqn:E; [|discriminate H].
  assert (Hnew : get_block (fork_db node_c0) (bs_id node_n) = None) by (vm_compute; reflexivity).
  assert (Hprev : prev_id node_n = bs_id (ctl_head node_c0)) by (vm_compute; reflexivity).
  assert (Hin : in_step sample_hash node_block_at 1 f64_one node_c0) by exact (reachable_in_step _ _ _ _ _ Hm eq_refl eq_refl _ node_c0_reachable).
  destruct (push_extends_head sample_hash node_block_at sample_conf 1 f64_one Hm eq_refl eq_refl node_c0 node_n s m Hin node_pushable
    Hprev Hnew E) as (c' & Ec & (r & hf & base & bs & [I Tr S] & _) & Hh & Hs & Hf).
  assert (node_c1 = c') as -> by (unfold node_c1; by rewrite Ec).
  split; [exact (synced_idle sample_hash node_block_at sample_conf f64_one Hm c' r hf base bs I Tr S)|]. split; [exact Hh|]. by rewrite Hs, Hf.
Qed.

Lemma no_transaction_twice_witness :
  NoDup (branch_packed node_block_at [node_n]) /\ length (branch_packed node_block_at [node_n]) = 2%nat /\
  refuses sample_node 10 sample_conf node_c1 next_c1 (hello_packed 0) /\ refuses sample_node 10 sample_conf node_c1 next_c1 (hello_packed 5).
Proof.
  destruct node_c1_head as (Hi & Hh & Hx).
  assert (Hr : fits 32 (h_timestamp (h_base (header (ctl_head node_c0))))) by (by split; vm_compute).
  assert (Hp : Forall (proper node_block_at) [node_n]).
  { constructor; [|constructor]. split; [|by split; vm_compute]. eexists. split; reflexivity. }
  assert (Hn : produce sample_run sample_hash sample_conf (sample_slot + 1) 0 [] [push_input 100 (hello_packed 7)] node_c1 = (next_c1, Ok tt)).
  { assert (H : snd (produce sample_run sample_hash sample_conf (sample_slot + 1) 0 [] [push_input 100 (hello_packed 7)] node_c1) = Ok tt)
      by (vm_compute; reflexivity).
    rewrite <- H. apply surjective_pairing. }
  destruct (no_transaction_twice sample_node 10 sample_hash node_block_at f64_one (ctl_head node_c0)
    (cur (kv_db node_c0), protocol_features node_c0) (cur (kv_db node_c1), protocol_features node_c1) [node_n] Hr Hp Hx) as [Hd Href].
  assert (Ht : 0 < sample_slot + 1 < 2 ^ 32) by (by split; vm_compute).
  split; [exact Hd|]. split; [reflexivity|].
  assert (Hc : bsp_state (ctl_head node_c1) = bsp_state (top (ctl_head node_c0) [node_n])) by (by rewrite Hh).
  specialize (fun p => Href sample_conf node_c1 next_c1 (sample_slot + 1) 0 [] [push_input 100 (hello_packed 7)] p Hi eq_refl Hc eq_refl Ht Hn).
  split; apply Href.
  - apply list_elem_of_In. left. reflexivity.
  - apply list_elem_of_In. right. left. reflexivity.
Defined.
